(* ===== verification/_CoqProject ===== *)
-Q . S2P
Prelude.v
GoSort.v
GoBytes.v
Msg.v
RangeCoder.v
LzmaCoders.v
LzmaWindow.v
LzmaDecoder.v
LzmaEncoder.v
LzmaStream.v
LzmaInWindow.v
LzmaBinTree.v
LzmaTrees.v
LzmaBinTreeOk.v
LzmaFinder.v
LzmaMatches.v
LzmaPrices.v
LzmaOptimum.v
LzmaLinks.v
LzmaChoices.v
LzmaNodes.v
LzmaOptimumOk.v
LzmaEncode.v
LzmaRun.v
BoltFreelist.v
BoltNode.v
BoltCursor.v
BoltTx.v
BoltLevels.v
BoltSep.v
BoltBucket.v
BoltRoom.v
BoltRebalance.v
BoltSpill.v
BoltSpillTree.v
BoltSpillRun.v
BoltUpdate.v
BoltCommit.v
NsqPqueue.v
NsqMessage.v
NsqChannel.v
NsqRegistry.v
NsqLookupd.v
MatchBook.v
Matcher.v
RefQueues.v
RbShape.v
RbTree.v
RbSteps.v
RbRing.v
RbQueues.v
MatchRun.v
RbRun.v
