(* ===== verification/Prelude.v ===== *)
(** A verification library for the Go programs of this repository.

    The repository collects several Go projects.  The library models the four that carry
    logic of their own: the matching engine (src/matching_engine-master), the LZMA codec
    (src/lzma2), the Bolt key/value store (src/bolt-master) and the NSQ message queue
    (src/nsq-master).

    * Conventions

    A Go function is a Gallina function from the state it reads to an [outcome]: [Ret] the
    results with the new state, [Fail] an error value (or a panic the code recovers into
    an error), [Panic] a run-time panic that escapes.  A w-bit integer is a [Z], with [wrap] (unsigned)
    and [swrap] (signed) written where the code may wrap; a byte slice is a list of [Z];
    an object shared by pointer lives in a [gmap] from pointers to records.  A loop that is not
    structural takes fuel.  Every theorem about such a loop states how much is enough: the
    depth and number of leaves of a bucket's tree (BoltCursor), its height (BoltBucket,
    BoltRebalance), its height and number of items (BoltCommit; its file needs no more than the bytes
    of its items and, for each item and one more, three pages and two keys), the length of the queues and maps
    (NsqPqueue, NsqChannel), the number of packets or, for any input, 2^32 per input byte
    (LzmaStream, LzmaDecoder), one step per input byte and one to finish (LzmaRun), the kNumOpts
    nodes of the parser's array (LzmaOptimumOk), the number of resting orders (Matcher), the number of nodes
    in memory (RbQueues), the calls a Reader's contents take (LzmaInWindow).
    What the programs import is a parameter with its documented laws: the flib packing of ids
    ([Fmath], [FmathSpec]), the JSON decoder, the backend queue and consumers of a channel,
    the order in which Go ranges over a map.  Parts of the Go standard library the code calls
    are written out: sort.Search and sorting (GoSort), bytes.Compare (GoBytes), container/heap.

    * Files

    - Prelude: [outcome] and its monad, machine integers, byte encodings, tactics and hints.
    - GoSort, GoBytes: sort.Search, sort.Sort and bytes.Compare.
    - Msg: msg/msg.go, msg/serialise.go and the framed messages of coordinator/rmsg.go:
      encodings are inverse and canonical, validity is what the comments say.
    - MatchBook: matcher/pqueue order.go, slab.go, refprioq.go, public_refprioq.go; the class
      [MatchQueues] with its laws [MatchQueuesSpec] is what the matcher is verified against.
      RefQueues: the reference queues refine two sorted lists.
    - Matcher: matcher.go, with the matching it means to do on books of resting orders
      ([match_buy], [match_sell]); each handler is shown to implement it.  MatchRun: theorems on
      Submit and Run - refinement, books sorted and uncrossed, fair trades in
      order of priority, conservation of quantities - with a matcher on the red-black trees at work.
    - RbShape, RbTree, RbSteps, RbRing, RbQueues, RbRun: rbtree.go and public_prioq.go.  RbTree is the
      pointer code; RbShape the shapes it goes through and their balance; RbSteps shows that
      the code makes these changes in memory; RbRing adds the rings of nodes of one value;
      RbQueues makes an instance of [MatchQueuesSpec] of three trees; RbRun shows that any calls act as
      on two lists and that validateRBT finds nothing.
    - RangeCoder, LzmaCoders, LzmaWindow, LzmaDecoder, LzmaEncoder, LzmaStream:
      range_coder.go; the bit-tree, length and literal coders; lz_window.go's output window;
      lzma_decoder.go; the packet code of lzma_encoder.go, over a list of choices.  Encoder and decoder steps are
      related by [codes] and [lossless]; the results are that the decoder returns the encoded data, and
      that on any bytes at all it terminates without a panic.
    - LzmaInWindow, LzmaBinTree, LzmaTrees, LzmaBinTreeOk, LzmaFinder, LzmaMatches: the encoder's
      side of lz_window.go, lz_bin_tree.go, and readMatchDistances and movePos of
      lzma_encoder.go.  The window shows the input however it is read; the arrays hold search
      trees of places of the input (LzmaTrees is their abstract form, LzmaBinTreeOk the loops,
      LzmaFinder the invariant); the matches reported are true, and valid choices of a parse.
    - LzmaPrices, LzmaOptimum, LzmaLinks, LzmaChoices, LzmaNodes, LzmaOptimumOk: the prices and the
      optimal parser of lzma_encoder.go.  A price table holds the length of the code it prices;
      getOptimum fills an array of nodes joined by links (LzmaLinks, LzmaChoices), whose
      invariant [opt_inv] (LzmaNodes) every block of it keeps (LzmaOptimumOk): whatever the
      prices, the packets it returns are valid.
    - LzmaEncode, LzmaRun: the whole encoder over a Reader, and its theorems: a run is a run of
      LzmaEncoder for choices that parse the data, and the decoder returns the data.
    - BoltFreelist, BoltNode, BoltCursor: freelist.go; the page layout of page.go with the nodes
      of node.go; the cursor of cursor.go with the lookups of bucket.go.  Pages are
      never both free and pending, written pages are read back, put and del act on a sorted
      map, splits partition, and iteration in both directions visits the sorted contents.
    - BoltTx, BoltLevels, BoltSep, BoltBucket, BoltRebalance, BoltUpdate: the updates of one bucket
      in a writable transaction, with the code of bucket.go and node.go over nodes shared by
      pointer (BoltTx: Put, Delete, Get, node, rebalance, spill, and the page allocation of db.go).
      BoltLevels is the tree as a list of levels, BoltSep its changes when nodes are dropped or
      replaced by pieces; BoltBucket relates it to the objects in memory and the pages, and shows
      that Put, Delete and Get act on a sorted map; BoltRebalance shows that rebalance keeps that
      map and the shape of the tree, and that the pages it gives up are listed as pending;
      BoltUpdate holds the theorems.
    - BoltRoom, BoltSpill, BoltSpillTree, BoltSpillRun, BoltCommit: spill.  BoltSpill is about one node: its
      pages are allocated, its pieces written and entered in its parent.  BoltSpillTree has the
      invariant of a tree some of whose nodes are written, BoltSpillRun goes from the leaves to the
      root and the new roots above it.  BoltRoom bounds the pages they need, and so the size
      at which a commit may ask db.mmap for the file.  BoltCommit holds the theorems: after a transaction's updates, rebalance and spill, the next transaction reads the updated map, and the pages
      of the old tree are as they were.
    - NsqPqueue, NsqMessage, NsqChannel: the heaps of in-flight and deferred messages,
      message encoding and id generation, and nsqd/channel.go as transitions over a store of
      messages, with the pump's arms for memory and backend: each message is in one place, and
      none is lost but the ones a client's sampling skips, those the backend loses or cannot decode,
      and by exit.
    - NsqRegistry, NsqLookupd: nsqlookupd's registration database, and its TCP commands and HTTP
      handlers as sequences of atomic database calls.

    * Interaction

    The matcher uses the slab, and queues through their class; its messages are those of Msg.
    The red-black trees are an instance of that class.
    LzmaStream composes the coders over one range coder and one window; the match finder
    reads its own window, and what it reports is accepted by LzmaStream's [parse_ok].  The parser
    works on the finder's reports and on the prices of the coders' probabilities; LzmaRun composes
    parser, window and coders, and hands the choices made to LzmaStream's round trip.  Cursors walk
    pages and nodes of BoltNode and use its search; BoltTx uses the node functions of BoltNode, the
    searches of BoltCursor, and the freelist of BoltFreelist for the pages it frees.  The channel owns two heaps of NsqPqueue and
    the messages of NsqMessage; the handlers of NsqLookupd call the database of NsqRegistry, whose
    producers and peers are shared by pointer between them.

    * Not modelled

    - The matching engine's meddling test queues, UDP and ITCH input, and printing of trees.
    - LZMA's NewReader and NewWriter, which run a codec in a goroutine behind an io.Pipe; a Writer
      that fails.
    - Bolt's nested buckets (a bucket that is written inline, and spill's loop over open buckets),
      the locks and the meta pages of a transaction, dereference and file I/O; of db.mmap the choice
      of a size and whether the system grants it.
    - NSQ's topics, daemons, clients and admin tools, which are goroutines around sockets; a
      channel's methods are atomic steps here, so interleavings inside a method are not covered.
    - klever-model-registry, the JSON pointer libraries, the demonstration programs and all
      vendored code. *)

From Stdlib Require Import ZArith Lia.
From stdpp Require Import base numbers option list.

#[global] Open Scope Z_scope.

(** ** Automation *)

Create HintDb go_db.

(** Case analysis on the innermost [match]/[if] scrutinee of the goal or of a
    hypothesis, keeping the equation. *)
Ltac go_case :=
  match goal with
  | |- context [match ?x with _ => _ end] =>
      lazymatch x with context [match _ with _ => _ end] => fail | _ => destruct x eqn:? end
  | H : context [match ?x with _ => _ end] |- _ =>
      lazymatch x with context [match _ with _ => _ end] => fail | _ => destruct x eqn:? end
  end.

(** Turn boolean comparisons on [Z] in the context into propositions. *)
Ltac zbool :=
  repeat match goal with
  | H : (_ =? _) = true |- _ => apply Z.eqb_eq in H
  | H : (_ =? _) = false |- _ => apply Z.eqb_neq in H
  | H : (_ <? _) = true |- _ => apply Z.ltb_lt in H
  | H : (_ <? _) = false |- _ => apply Z.ltb_ge in H
  | H : (_ <=? _) = true |- _ => apply Z.leb_le in H
  | H : (_ <=? _) = false |- _ => apply Z.leb_gt in H
  | H : (_ && _)%bool = true |- _ => apply andb_true_iff in H; destruct H
  | H : (_ || _)%bool = false |- _ => apply orb_false_iff in H; destruct H
  | H : negb _ = true |- _ => apply negb_true_iff in H
  | H : negb _ = false |- _ => apply negb_false_iff in H
  end.

Ltac zcases :=
  repeat match goal with
  | |- context [?a =? ?b] => destruct (Z.eqb_spec a b)
  | |- context [?a <? ?b] => destruct (Z.ltb_spec a b)
  | |- context [?a <=? ?b] => destruct (Z.leb_spec a b)
  end.

(** Closed bounds on integers. *)
Ltac zground := repeat split; vm_compute; first [reflexivity | intro; discriminate].

(** ** Outcomes: the value, the [error] result, or a panic of a Go call *)

Inductive outcome (E A : Type) : Type :=
  | Ret (a : A)
  | Fail (e : E)
  | Panic.
Arguments Ret {E A} a.
Arguments Fail {E A} e.
Arguments Panic {E A}.

#[export] Instance outcome_ret E : MRet (outcome E) := fun A a => Ret a.
#[export] Instance outcome_bind E : MBind (outcome E) := fun A B f m =>
  match m with Ret a => f a | Fail e => Fail e | Panic => Panic end.

Definition is_ret {E A} (o : outcome E A) : Prop := exists a, o = Ret a.

Lemma outcome_bind_ret {E A B} (a : A) (f : A -> outcome E B) :
  (Ret a ≫= f) = f a.
Proof. reflexivity. Qed.

Lemma outcome_bind_inv {E A B} (m : outcome E A) (f : A -> outcome E B) b :
  m ≫= f = Ret b -> exists a, m = Ret a /\ f a = Ret b.
Proof. destruct m; cbn; naive_solver. Qed.

(** ** Machine integers: [wrap w z] is the w-bit unsigned value of [z] *)

Definition wrap (w z : Z) : Z := z mod 2 ^ w.
Abbreviation u8 := (wrap 8).
Abbreviation u16 := (wrap 16).
Abbreviation u32 := (wrap 32).
Abbreviation u64 := (wrap 64).

(** The signed reading of a w-bit pattern: Go's intN(x) conversion. *)
Definition swrap (w z : Z) : Z :=
  let u := wrap w z in if u <? 2 ^ (w - 1) then u else u - 2 ^ w.
Abbreviation i32 := (swrap 32).
Abbreviation i64 := (swrap 64).

Lemma wrap_range w z : 0 <= w -> 0 <= wrap w z < 2 ^ w.
Proof. intros. unfold wrap. apply Z.mod_pos_bound. lia. Qed.

Lemma wrap_id w z : 0 <= z < 2 ^ w -> wrap w z = z.
Proof. intros. unfold wrap. by rewrite Z.mod_small. Qed.

Lemma wrap_wrap w z : wrap w (wrap w z) = wrap w z.
Proof. unfold wrap. apply Z.mod_mod_divide. by exists 1; lia. Qed.

Lemma swrap_range w z : 0 < w -> - 2 ^ (w - 1) <= swrap w z < 2 ^ (w - 1).
Proof.
  intros. unfold swrap. pose proof (wrap_range w z ltac:(lia)).
  assert (2 ^ w = 2 * 2 ^ (w - 1)) by (rewrite <- Z.pow_succ_r by lia; f_equal; lia).
  zcases; lia.
Qed.

Lemma swrap_id w z : 0 < w -> - 2 ^ (w - 1) <= z < 2 ^ (w - 1) -> swrap w z = z.
Proof.
  intros. unfold swrap, wrap.
  assert (2 ^ w = 2 * 2 ^ (w - 1)) by (rewrite <- Z.pow_succ_r by lia; f_equal; lia).
  destruct (Z.ltb_spec z 0).
  - rewrite <- (Z.mod_add z 1 (2 ^ w)) by lia. rewrite Z.mod_small by lia.
    zcases; lia.
  - rewrite Z.mod_small by lia. zcases; lia.
Qed.

Lemma wrap_swrap w z : 0 < w -> wrap w (swrap w z) = wrap w z.
Proof.
  intros. unfold swrap. zcases; [apply wrap_wrap|].
  unfold wrap at 1. rewrite <- (Z.mod_add _ 1) by lia.
  replace (wrap w z - 2 ^ w + 1 * 2 ^ w) with (wrap w z) by lia. apply wrap_wrap.
Qed.

Lemma i64_u64 z : - 2 ^ 63 <= z < 2 ^ 63 -> i64 (u64 z) = z.
Proof. intros. unfold swrap. rewrite wrap_wrap. change (swrap 64 z = z). by apply swrap_id. Qed.

#[export] Hint Resolve wrap_range swrap_range : go_db.

(** ** Bytes and fixed-width encodings *)

Definition byte_ok (b : Z) : Prop := 0 <= b < 256.
Definition bytes_ok (bs : list Z) : Prop := Forall byte_ok bs.

(** encoding/binary LittleEndian: [le_put n z] are the n bytes PutUintN writes,
    [le_get bs] the value UintN reads. *)
Fixpoint le_put (n : nat) (z : Z) : list Z :=
  match n with
  | O => []
  | S n' => u8 z :: le_put n' (Z.shiftr z 8)
  end.

Fixpoint le_get (bs : list Z) : Z :=
  match bs with
  | [] => 0
  | b :: bs' => b + Z.shiftl (le_get bs') 8
  end.

(** encoding/binary BigEndian. *)
Definition be_put (n : nat) (z : Z) : list Z := reverse (le_put n z).
Definition be_get (bs : list Z) : Z := le_get (reverse bs).

Lemma length_le_put n z : length (le_put n z) = n.
Proof. revert z. induction n; intros; cbn; auto. Qed.

Lemma le_put_ok n z : bytes_ok (le_put n z).
Proof.
  revert z. induction n; intros; cbn; constructor; [|apply IHn].
  apply wrap_range. lia.
Qed.

Lemma le_get_put n z : 0 <= z -> le_get (le_put n z) = z mod 2 ^ (8 * Z.of_nat n).
Proof.
  revert z. induction n as [|n IH]; intros z Hz; cbn [le_put le_get].
  - by rewrite Z.mod_1_r.
  - rewrite IH by (apply Z.shiftr_nonneg; lia).
    rewrite Z.shiftl_mul_pow2, Z.shiftr_div_pow2 by lia. unfold wrap.
    replace (8 * Z.of_nat (S n)) with (8 + 8 * Z.of_nat n) by lia.
    rewrite Z.pow_add_r by lia.
    rewrite Z.rem_mul_r by lia. lia.
Qed.

Lemma le_get_bound bs : bytes_ok bs -> 0 <= le_get bs < 2 ^ (8 * Z.of_nat (length bs)).
Proof.
  induction 1 as [|b bs Hb _ IH]; cbn [le_get length]; [lia|].
  rewrite Z.shiftl_mul_pow2 by lia. unfold byte_ok in Hb.
  replace (8 * Z.of_nat (S (length bs))) with (8 + 8 * Z.of_nat (length bs)) by lia.
  rewrite Z.pow_add_r by lia. change (2 ^ 8) with 256. nia.
Qed.

Lemma le_put_get bs : bytes_ok bs -> le_put (length bs) (le_get bs) = bs.
Proof.
  induction 1 as [|b bs Hb Hbs IH]; [done|]. cbn [le_put le_get length].
  rewrite Z.shiftl_mul_pow2 by lia. unfold byte_ok in Hb. f_equal.
  - unfold wrap. rewrite Z.mod_add by lia. apply Z.mod_small. lia.
  - rewrite Z.shiftr_div_pow2, Z.div_add by lia.
    rewrite Z.div_small by lia. done.
Qed.

Lemma length_be_put n z : length (be_put n z) = n.
Proof. unfold be_put. by rewrite length_reverse, length_le_put. Qed.

Lemma be_put_ok n z : bytes_ok (be_put n z).
Proof. unfold be_put, bytes_ok. rewrite Forall_reverse. apply le_put_ok. Qed.

Lemma be_get_put n z : 0 <= z -> be_get (be_put n z) = z mod 2 ^ (8 * Z.of_nat n).
Proof. intros. unfold be_get, be_put. rewrite reverse_involutive. by apply le_get_put. Qed.

Lemma be_put_get bs : bytes_ok bs -> be_put (length bs) (be_get bs) = bs.
Proof.
  intros H. unfold be_get, be_put. rewrite <- (reverse_involutive bs) at 3.
  f_equal. rewrite <- length_reverse. apply le_put_get. unfold bytes_ok.
  by rewrite Forall_reverse.
Qed.

Arguments le_put : simpl never.
Arguments le_get : simpl never.

(** Go's slice expression b[lo:hi] on an in-range slice. *)
Definition slice {A} (lo hi : nat) (b : list A) : list A := take (hi - lo) (drop lo b).

Lemma length_slice {A} lo hi (b : list A) :
  (hi <= length b)%nat -> length (slice lo hi b) = (hi - lo)%nat.
Proof. intros. unfold slice. rewrite length_take, length_drop. lia. Qed.

Lemma slice_ok lo hi bs : bytes_ok bs -> bytes_ok (slice lo hi bs).
Proof. intros. unfold slice, bytes_ok. by apply Forall_take, Forall_drop. Qed.

(** Overwriting a range of a buffer: copy(b[off:], bs) for bs that fits. *)
Definition splice {A} (off : nat) (bs b : list A) : list A :=
  take off b ++ bs ++ drop (off + length bs) b.

Lemma length_splice {A} off (bs b : list A) :
  (off + length bs <= length b)%nat -> length (splice off bs b) = length b.
Proof. intros. unfold splice. rewrite !length_app, length_take, length_drop. lia. Qed.

(** Writing a buffer piece by piece from its start leaves the pieces in order. *)
Lemma splice_step {A} (done bs rest : list A) :
  (length bs <= length rest)%nat ->
  splice (length done) bs (done ++ rest) = (done ++ bs) ++ drop (length bs) rest.
Proof.
  intros. unfold splice. rewrite take_app_length, drop_app_ge by lia.
  replace (length done + length bs - length done)%nat with (length bs) by lia.
  by rewrite app_assoc.
Qed.

Lemma slice_app_mid {A} (pre mid post : list A) lo hi :
  lo = length pre -> hi = (lo + length mid)%nat ->
  slice lo hi (pre ++ mid ++ post) = mid.
Proof.
  intros -> ->. unfold slice. rewrite drop_app_length.
  replace (length pre + length mid - length pre)%nat with (length mid) by lia.
  apply take_app_length.
Qed.

Lemma slice_app_start {A} (mid post : list A) hi : hi = length mid -> slice 0 hi (mid ++ post) = mid.
Proof. intros. by apply (slice_app_mid [] mid post). Qed.

Lemma slice_app_end {A} (pre mid : list A) lo hi :
  lo = length pre -> hi = (lo + length mid)%nat -> slice lo hi (pre ++ mid) = mid.
Proof. intros. rewrite <- (app_nil_r mid) at 1. by apply slice_app_mid. Qed.

Lemma le_get_put_id n z : 0 <= z < 2 ^ (8 * Z.of_nat n) -> le_get (le_put n z) = z.
Proof. intros. rewrite le_get_put by lia. by apply Z.mod_small. Qed.

Lemma be_get_put_id n z : 0 <= z < 2 ^ (8 * Z.of_nat n) -> be_get (be_put n z) = z.
Proof. intros. rewrite be_get_put by lia. by apply Z.mod_small. Qed.

(** Bits put beside each other do not meet, and add up. *)
Lemma land_shiftl_low a b n : 0 <= n -> 0 <= b < 2 ^ n -> Z.land (Z.shiftl a n) b = 0.
Proof.
  intros Hn Hb. apply Z.bits_inj'. intros k Hk. rewrite Z.land_spec, Z.bits_0.
  destruct (Z.ltb_spec k n); [by rewrite Z.shiftl_spec_low|].
  rewrite <- (Z.mod_small b (2 ^ n)), Z.mod_pow2_bits_high by lia. apply andb_false_r.
Qed.

Lemma lor_shiftl_add a b n : 0 <= n -> 0 <= b < 2 ^ n -> Z.lor (Z.shiftl a n) b = a * 2 ^ n + b.
Proof.
  intros Hn Hb. rewrite <- Z.shiftl_mul_pow2 by lia.
  rewrite Z.add_nocarry_lxor, Z.lxor_lor; by auto using land_shiftl_low.
Qed.

#[export] Hint Resolve le_put_ok be_put_ok slice_ok : go_db.

(** Equality of two chains of outcomes: case on the calls they share. *)
Ltac oeq :=
  repeat (cbn;
          match goal with
          | |- context [@mbind _ _ _ _ _ ?o] =>
              lazymatch o with
              | context [@mbind _ _ _ _ _ _] => fail
              | _ => destruct o as [?| |]; try reflexivity
              end
          end;
          repeat match goal with p : (_ * _)%type |- _ => destruct p end);
  cbn; try reflexivity.
