(* ===== verification/GoSort.v ===== *)
(** The parts of Go's package sort the modelled code calls: Search (its binary search,
    as the standard library writes it) and Sort on integers (any algorithm: sorting
    integers has one result). *)

From Stdlib Require Import ZArith Lia.
From stdpp Require Import base numbers option list sorting.
From S2P Require Import Prelude.
#[local] Open Scope Z_scope.

(** ** sort.Search *)

(** The loop [for i < j]; the interval halves, so [fuel] = n is enough. *)
Fixpoint Search_loop (fuel i j : nat) (f : nat -> bool) : nat :=
  match fuel with
  | O => i
  | S fuel =>
      if (i <? j)%nat then
        let h := ((i + j) / 2)%nat in
        if f h then Search_loop fuel i h f else Search_loop fuel (S h) j f
      else i
  end.

Definition Search (n : nat) (f : nat -> bool) : nat := Search_loop n 0 n f.

(** [f] is false then true on [0, n). *)
Definition monotone (n : nat) (f : nat -> bool) : Prop :=
  forall i j, (i <= j < n)%nat -> f i = true -> f j = true.

Lemma Search_loop_spec f n fuel : forall i j, monotone n f -> (j - i <= fuel)%nat -> (i <= j <= n)%nat ->
  (forall k, (k < i)%nat -> f k = false) -> (forall k, (j <= k < n)%nat -> f k = true) ->
  let r := Search_loop fuel i j f in
  (r <= n)%nat /\ (forall k, (k < r)%nat -> f k = false) /\ (forall k, (r <= k < n)%nat -> f k = true).
Proof.
  induction fuel as [|fuel IH]; intros i j Hm Hf Hij Hlo Hhi; cbn [Search_loop].
  { assert (i = j) as -> by lia. split_and!; auto; lia. }
  destruct (Nat.ltb_spec i j).
  2: { assert (i = j) as -> by lia. split_and!; auto; lia. }
  pose proof (Nat.div_mod (i + j) 2 ltac:(lia)). pose proof (Nat.mod_upper_bound (i + j) 2 ltac:(lia)).
  set (h := ((i + j) / 2)%nat) in *. destruct (f h) eqn:E.
  - apply IH; auto; [lia|lia|]. intros k Hk. apply (Hm h k); [lia|done].
  - apply IH; auto; [lia|lia|]. intros k Hk. destruct (f k) eqn:Ek; [|done].
    rewrite (Hm k h) in E; [done|lia|done].
Qed.

(** The first index at which [f] holds. *)
Lemma Search_spec n f : monotone n f ->
  (Search n f <= n)%nat /\ (forall k, (k < Search n f)%nat -> f k = false) /\
  (forall k, (Search n f <= k < n)%nat -> f k = true).
Proof. intros Hm. apply Search_loop_spec; auto; lia. Qed.

Lemma Search_unique n f k : monotone n f -> (k <= n)%nat ->
  (forall i, (i < k)%nat -> f i = false) -> (k < n -> f k = true)%nat -> Search n f = k.
Proof.
  intros Hm Hk Hlo Hhi. destruct (Search_spec n f Hm) as (H1 & H2 & H3).
  destruct (Nat.lt_trichotomy (Search n f) k) as [Hlt|[->|Hlt]]; [|done|].
  - specialize (H3 (Search n f) ltac:(lia)). rewrite Hlo in H3 by lia. done.
  - specialize (H2 k Hlt). rewrite Hhi in H2 by lia. done.
Qed.

(** Monotonicity of a comparison along a sorted list. *)
Lemma Sorted_lookup_le (l : list Z) i j a b : StronglySorted Z.le l ->
  (i <= j)%nat -> l !! i = Some a -> l !! j = Some b -> a <= b.
Proof.
  intros Hs. revert i j. induction Hs as [|x l Hs IH Hx]; intros i j Hij Hi Hj; [done|].
  destruct i as [|i], j as [|j]; cbn in *; try lia; simplify_eq; [lia| |].
  - by eapply Forall_lookup_1 in Hj.
  - eapply (IH i j); [lia|done|done].
Qed.

(** ** sort.Sort on integers *)

Definition sortZ : list Z -> list Z := merge_sort Z.le.

Lemma sortZ_sorted l : StronglySorted Z.le (sortZ l).
Proof. apply StronglySorted_merge_sort; apply _. Qed.

Lemma sortZ_perm l : sortZ l ≡ₚ l.
Proof. apply merge_sort_Permutation. Qed.

Lemma sorted_unique (l k : list Z) :
  StronglySorted Z.le l -> StronglySorted Z.le k -> l ≡ₚ k -> l = k.
Proof. intros. eapply (StronglySorted_unique Z.le); eauto. Qed.

Lemma sortZ_id l : StronglySorted Z.le l -> sortZ l = l.
Proof. intros. apply sorted_unique; auto using sortZ_sorted, sortZ_perm. Qed.

Lemma sortZ_ext l k : l ≡ₚ k -> sortZ l = sortZ k.
Proof. intros H. apply sorted_unique; auto using sortZ_sorted. by rewrite !sortZ_perm. Qed.

(** ** Filtering *)

Lemma filter_keep {A} (P : A -> Prop) `{!forall x, Decision (P x)} (l : list A) :
  (forall x, x ∈ l -> P x) -> filter P l = l.
Proof.
  induction l as [|x l IH]; intros HP; [done|].
  rewrite filter_cons_True by (apply HP; left). f_equal. apply IH. intros y Hy. apply HP. by right.
Qed.

Lemma filter_drop {A} (P : A -> Prop) `{!forall x, Decision (P x)} (l : list A) :
  (forall x, x ∈ l -> ~ P x) -> filter P l = [].
Proof.
  induction l as [|x l IH]; intros HP; [done|].
  rewrite filter_cons_False by (apply HP; left). apply IH. intros y Hy. apply HP. by right.
Qed.

Lemma sorted_filter (P : Z -> Prop) `{!forall x, Decision (P x)} (l : list Z) :
  StronglySorted Z.le l -> StronglySorted Z.le (filter P l).
Proof.
  induction 1 as [|x l Hs IH Hx]; [constructor|]. destruct (decide (P x)).
  - rewrite filter_cons_True by done. constructor; [done|].
    rewrite Forall_forall in Hx |- *. intros y Hy. apply list_elem_of_filter in Hy as [_ Hy]. auto.
  - by rewrite filter_cons_False.
Qed.
