(* ===== verification/GoBytes.v ===== *)
(** The parts of Go's package bytes the modelled code calls: Compare, as a total order
    on byte strings, and search in a list of keys it orders. *)

From Stdlib Require Import ZArith Lia.
From stdpp Require Import base numbers option list sorting.
From S2P Require Import Prelude GoSort.
#[local] Open Scope Z_scope.

(** bytes.Compare: lexicographic, -1, 0 or 1. *)
Fixpoint Compare (a b : list Z) : Z :=
  match a, b with
  | [], [] => 0
  | [], _ :: _ => -1
  | _ :: _, [] => 1
  | x :: a, y :: b => if x <? y then -1 else if y <? x then 1 else Compare a b
  end.

Definition key_lt (a b : list Z) : Prop := Compare a b = -1.
Definition key_le (a b : list Z) : Prop := Compare a b <> 1.

#[export] Instance key_lt_dec a b : Decision (key_lt a b).
Proof. apply Z.eq_dec. Defined.

Lemma Compare_values a b : Compare a b = -1 \/ Compare a b = 0 \/ Compare a b = 1.
Proof.
  revert b. induction a as [|x a IH]; intros [|y b]; cbn [Compare]; auto.
  destruct (Z.ltb_spec x y); [auto|]. destruct (Z.ltb_spec y x); auto.
Qed.

Lemma Compare_eq a b : Compare a b = 0 <-> a = b.
Proof.
  revert b. induction a as [|x a IH]; intros [|y b]; cbn [Compare]; try (split; [lia|done]); [done|].
  destruct (Z.ltb_spec x y); [split; [lia|intros; simplify_eq; lia]|].
  destruct (Z.ltb_spec y x); [split; [lia|intros; simplify_eq; lia]|].
  assert (x = y) as -> by lia. rewrite IH. split; [by intros ->|by intros; simplify_eq].
Qed.

Lemma Compare_opp a b : Compare b a = - Compare a b.
Proof.
  revert b. induction a as [|x a IH]; intros [|y b]; cbn [Compare]; try done.
  destruct (Z.ltb_spec x y), (Z.ltb_spec y x); try lia. apply IH.
Qed.

Lemma key_lt_trans a b c : key_lt a b -> key_lt b c -> key_lt a c.
Proof.
  unfold key_lt. revert b c. induction a as [|x a IH]; intros [|y b] [|z c]; cbn [Compare]; try done.
  destruct (Z.ltb_spec x y), (Z.ltb_spec y z), (Z.ltb_spec x z); try lia; try done.
  - destruct (Z.ltb_spec z y); [done|]. assert (x = y) by lia. lia.
  - destruct (Z.ltb_spec y x); [done|]. lia.
  - destruct (Z.ltb_spec y x), (Z.ltb_spec z y), (Z.ltb_spec z x); try done; try lia.
    apply IH.
Qed.

Lemma key_lt_irrefl a : ~ key_lt a a.
Proof. unfold key_lt. assert (E : Compare a a = 0) by (by apply Compare_eq). lia. Qed.

Lemma key_trichotomy a b : key_lt a b \/ a = b \/ key_lt b a.
Proof.
  unfold key_lt. rewrite (Compare_opp a b), <- Compare_eq.
  destruct (Compare_values a b) as [?|[?|?]]; lia.
Qed.

Lemma not_key_lt a b : ~ key_lt a b <-> a = b \/ key_lt b a.
Proof.
  destruct (key_trichotomy a b) as [?|[->|?]].
  - split; [tauto|]. intros [->|?] _; [by eapply key_lt_irrefl|]. eapply key_lt_irrefl, key_lt_trans; eauto.
  - split; [tauto|]. intros _. apply key_lt_irrefl.
  - split; [tauto|]. intros _ ?. eapply key_lt_irrefl, key_lt_trans; eauto.
Qed.

Lemma key_le_lt_trans a b c : ~ key_lt b a -> key_lt b c -> key_lt a c.
Proof. rewrite not_key_lt. intros [->|?] ?; [done|]. by apply (key_lt_trans _ b). Qed.

Lemma key_lt_le_trans a b c : key_lt a b -> ~ key_lt c b -> key_lt a c.
Proof. rewrite not_key_lt. intros ? [->|?]; [done|]. by apply (key_lt_trans _ b). Qed.

(** ** Strictly ordered key lists *)

Definition keys_sorted (l : list (list Z)) : Prop := StronglySorted key_lt l.

Lemma keys_sorted_lookup l i j a b : keys_sorted l -> (i < j)%nat ->
  l !! i = Some a -> l !! j = Some b -> key_lt a b.
Proof.
  intros Hs. revert i j. induction Hs as [|x l Hs IH Hx]; intros i j Hij Hi Hj; [done|].
  destruct j as [|j]; [lia|]. destruct i as [|i]; cbn in *; simplify_eq.
  - by eapply Forall_lookup_1 in Hj.
  - eapply (IH i j); [lia|done|done].
Qed.

Lemma keys_sorted_inj l i j a : keys_sorted l -> l !! i = Some a -> l !! j = Some a -> i = j.
Proof.
  intros Hs Hi Hj. destruct (Nat.lt_trichotomy i j) as [H|[H|H]]; [|done|].
  - destruct (key_lt_irrefl a). by eapply keys_sorted_lookup.
  - destruct (key_lt_irrefl a). by eapply keys_sorted_lookup.
Qed.

Lemma keys_sorted_take l n : keys_sorted l -> keys_sorted (take n l).
Proof. unfold keys_sorted. intros H. rewrite <- (take_drop n l) in H. by apply StronglySorted_app_1_l in H. Qed.

Lemma keys_sorted_drop l n : keys_sorted l -> keys_sorted (drop n l).
Proof. unfold keys_sorted. intros H. rewrite <- (take_drop n l) in H. by apply StronglySorted_app_1_r in H. Qed.

(** The first index whose key is not below [k]: sort.Search with [Compare(key, k) != -1]. *)
Definition lower_bound (l : list (list Z)) (k : list Z) : nat :=
  Search (length l) (fun i => match l !! i with Some x => negb (Compare x k =? -1) | None => true end).

Lemma lower_bound_spec l k : keys_sorted l ->
  (lower_bound l k <= length l)%nat /\
  (forall i x, (i < lower_bound l k)%nat -> l !! i = Some x -> key_lt x k) /\
  (forall i x, (lower_bound l k <= i)%nat -> l !! i = Some x -> ~ key_lt x k).
Proof.
  intros Hs. unfold lower_bound.
  set (f := fun i => match l !! i with Some x => negb (Compare x k =? -1) | None => true end).
  assert (Hm : monotone (length l) f).
  { intros i j Hij. unfold f. destruct (l !! i) as [x|] eqn:Ei; [|apply lookup_ge_None_1 in Ei; lia].
    destruct (l !! j) as [y|] eqn:Ej; [|done]. intros Hf. apply negb_true_iff, Z.eqb_neq in Hf.
    apply negb_true_iff, Z.eqb_neq. destruct (decide (i = j)) as [->|]; [by simplify_eq|].
    intros Hy. apply Hf. apply (key_lt_trans _ y); [|done].
    apply (keys_sorted_lookup l i j); [done|lia|done|done]. }
  destruct (Search_spec _ f Hm) as (H1 & H2 & H3). split; [done|]. split.
  - intros i x Hi Hx. specialize (H2 i Hi). unfold f in H2. rewrite Hx in H2.
    by apply negb_false_iff, Z.eqb_eq in H2.
  - intros i x Hi Hx. specialize (H3 i). unfold f in H3. rewrite Hx in H3.
    apply lookup_lt_Some in Hx. specialize (H3 (conj Hi Hx)). apply negb_true_iff, Z.eqb_neq in H3. done.
Qed.

Lemma lower_bound_unique l k i : keys_sorted l -> (i <= length l)%nat ->
  (forall x, x ∈ take i l -> key_lt x k) -> (forall x, x ∈ drop i l -> ~ key_lt x k) ->
  lower_bound l k = i.
Proof.
  intros Hs Hi Hlo Hhi. destruct (lower_bound_spec l k Hs) as (H1 & H2 & H3).
  destruct (Nat.lt_trichotomy (lower_bound l k) i) as [Hlt|[->|Hlt]]; [|done|]; exfalso.
  - destruct (lookup_lt_is_Some_2 l (lower_bound l k) ltac:(lia)) as [x Hx].
    apply (H3 _ _ (le_n _) Hx), Hlo. apply list_elem_of_lookup. exists (lower_bound l k).
    by rewrite lookup_take_lt.
  - destruct (lookup_lt_is_Some_2 l i ltac:(lia)) as [x Hx].
    apply (Hhi x); [|by apply (H2 i)]. apply list_elem_of_lookup. exists 0%nat.
    by rewrite lookup_drop, Nat.add_0_r.
Qed.

(** A key of the list is at its lower bound. *)
Lemma lower_bound_lookup l k i : keys_sorted l -> l !! i = Some k -> lower_bound l k = i.
Proof.
  intros Hs Hi. pose proof (lookup_lt_Some _ _ _ Hi).
  apply lower_bound_unique; [done|lia|..]; intros x Hx; apply list_elem_of_lookup in Hx as [j Hj].
  - apply lookup_take_Some in Hj as [Hj ?]. eapply keys_sorted_lookup; eauto.
  - rewrite lookup_drop in Hj. destruct j as [|j].
    + rewrite Nat.add_0_r in Hj. simplify_eq. apply key_lt_irrefl.
    + intros Hx. eapply key_lt_irrefl, key_lt_trans; [exact Hx|].
      apply (keys_sorted_lookup l i (i + S j)); [done|lia|done|done].
Qed.
