(* ===== verification/Msg.v ===== *)
(** The messages of the matching engine: msg/msg.go, msg/serialise.go and the
    coordinator's framing of them (coordinator/rmsg.go, rmsg_serialise.go).
    A Go struct is a record of machine integers (as [Z]); a [MsgKind] is the
    uint64 it is declared as, because Unmarshal accepts any bit pattern. *)

From Stdlib Require Import ZArith Lia String.
From stdpp Require Import base numbers option list.
From S2P Require Import Prelude.
#[local] Open Scope Z_scope.
#[local] Set Default Proof Using "Type".

Module Msg.

(** msg.go: the constants of MsgKind (iota). *)
Definition NO_KIND := 0.
Definition BUY := 1.
Definition SELL := 2.
Definition CANCEL := 3.
Definition PARTIAL := 4.
Definition FULL := 5.
Definition CANCELLED := 6.
Definition NOT_CANCELLED := 7.
Definition REJECTED := 8.
Definition SHUTDOWN := 9.
Definition NEW_TRADER := 10.
Definition NUM_OF_KIND := 11.
Definition MARKET_PRICE := 0.

(** MsgKind.String: panics on a value that is no declared kind. *)
Definition kind_String (k : Z) : outcome unit string :=
  if k =? NO_KIND then Ret "NO_KIND"%string
  else if k =? BUY then Ret "BUY"%string
  else if k =? SELL then Ret "SELL"%string
  else if k =? CANCEL then Ret "CANCEL"%string
  else if k =? PARTIAL then Ret "PARTIAL"%string
  else if k =? FULL then Ret "FULL"%string
  else if k =? CANCELLED then Ret "CANCELLED"%string
  else if k =? NOT_CANCELLED then Ret "NOT_CANCELLED"%string
  else if k =? REJECTED then Ret "REJECTED"%string
  else if k =? SHUTDOWN then Ret "SHUTDOWN"%string
  else if k =? NEW_TRADER then Ret "NEW_TRADER"%string
  else Panic.

Record Message := mkMessage {
  Kind : Z; Price : Z; Amount : Z; StockId : Z; TraderId : Z; TradeId : Z
}.

#[export] Instance Message_eq_dec : EqDecision Message.
Proof. solve_decision. Defined.

(** The zero value Message{}. *)
Definition zero_Message : Message := mkMessage 0 0 0 0 0 0.

Definition Message_ok (m : Message) : Prop :=
  0 <= Kind m < 2 ^ 64 /\ 0 <= Price m < 2 ^ 64 /\ 0 <= Amount m < 2 ^ 64 /\
  0 <= StockId m < 2 ^ 64 /\ 0 <= TraderId m < 2 ^ 32 /\ 0 <= TradeId m < 2 ^ 32.

Definition Valid (m : Message) : bool :=
  if Kind m =? SHUTDOWN then
    (Price m =? 0) && (Amount m =? 0) && (TraderId m =? 0) && (TradeId m =? 0)
    && (StockId m =? 0)
  else if Kind m =? NEW_TRADER then
    negb (TraderId m =? 0) && (Price m =? 0) && (Amount m =? 0) && (TradeId m =? 0)
    && (StockId m =? 0)
  else
    let isValid := negb (Price m =? 0) || (Kind m =? SELL) || (Kind m =? CANCEL)
                   || (Kind m =? CANCELLED) || (Kind m =? NOT_CANCELLED) in
    let isValid := isValid && negb (Amount m =? 0) && negb (TraderId m =? 0)
                   && negb (TradeId m =? 0) && negb (StockId m =? 0) in
    isValid && negb (Kind m =? NO_KIND).

Definition WriteNewTrader (traderId : Z) : Message :=
  mkMessage NEW_TRADER 0 0 0 traderId 0.

Definition WriteCancelFor (om : Message) : Message :=
  mkMessage CANCEL (Price om) (Amount om) (StockId om) (TraderId om) (TradeId om).

(** serialise.go: offsets into the 40-byte buffer. *)
Definition kindOffset := 0%nat.
Definition priceOffset := 8%nat.
Definition amountOffset := 16%nat.
Definition stockIdOffset := 24%nat.
Definition traderIdOffset := 32%nat.
Definition tradeIdOffset := 36%nat.
Definition ByteSize := 40%nat.

Inductive size_error := WrongSize (expecting found : nat).

(** Message.Marshal: fills the caller's buffer in place, field by field. *)
Definition Marshal (m : Message) (b : list Z) : outcome size_error (list Z) :=
  if negb (length b =? ByteSize)%nat then Fail (WrongSize ByteSize (length b))
  else
    let b := splice kindOffset (le_put 8 (Kind m)) b in
    let b := splice priceOffset (le_put 8 (Price m)) b in
    let b := splice amountOffset (le_put 8 (Amount m)) b in
    let b := splice stockIdOffset (le_put 8 (StockId m)) b in
    let b := splice traderIdOffset (le_put 4 (TraderId m)) b in
    let b := splice tradeIdOffset (le_put 4 (TradeId m)) b in
    Ret b.

(** Message.Unmarshal: every field is overwritten, so the old value is not an argument. *)
Definition Unmarshal (b : list Z) : outcome size_error Message :=
  if negb (length b =? ByteSize)%nat then Fail (WrongSize ByteSize (length b))
  else Ret {|
    Kind := le_get (slice kindOffset priceOffset b);
    Price := le_get (slice priceOffset amountOffset b);
    Amount := le_get (slice amountOffset stockIdOffset b);
    StockId := le_get (slice stockIdOffset traderIdOffset b);
    TraderId := le_get (slice traderIdOffset tradeIdOffset b);
    TradeId := le_get (slice tradeIdOffset ByteSize b) |}.

(** *** Lemmas *)

(** The bytes Marshal leaves in the buffer. *)
Definition wire (m : Message) : list Z :=
  le_put 8 (Kind m) ++ le_put 8 (Price m) ++ le_put 8 (Amount m) ++
  le_put 8 (StockId m) ++ le_put 4 (TraderId m) ++ le_put 4 (TradeId m).

Lemma length_wire m : length (wire m) = ByteSize.
Proof. unfold wire. by rewrite !length_app, !length_le_put. Qed.

Lemma wire_ok m : bytes_ok (wire m).
Proof. unfold wire, bytes_ok. rewrite !Forall_app. repeat split; apply le_put_ok. Qed.

Lemma splice_next {A} off (d bs rest : list A) :
  off = length d -> (length bs <= length rest)%nat ->
  splice off bs (d ++ rest) = (d ++ bs) ++ drop (length bs) rest.
Proof. intros ->. apply splice_step. Qed.

Ltac splice_next_solve :=
  rewrite ?length_app, ?length_drop, ?length_le_put; unfold ByteSize in *;
  first [reflexivity | lia].

Lemma Marshal_wire m b : length b = ByteSize -> Marshal m b = Ret (wire m).
Proof.
  intros Hb. unfold Marshal. rewrite Hb. cbn [negb Nat.eqb ByteSize]. f_equal.
  change b with ([] ++ b).
  rewrite (splice_next kindOffset []) by splice_next_solve.
  rewrite (splice_next priceOffset) by splice_next_solve.
  rewrite (splice_next amountOffset) by splice_next_solve.
  rewrite (splice_next stockIdOffset) by splice_next_solve.
  rewrite (splice_next traderIdOffset) by splice_next_solve.
  rewrite (splice_next tradeIdOffset) by splice_next_solve.
  rewrite (nil_length_inv (drop _ _)) by splice_next_solve.
  unfold wire. by rewrite app_nil_r, <- !app_assoc.
Qed.

Lemma le_get_put_fits n z : 0 <= z < 2 ^ (8 * Z.of_nat n) -> le_get (le_put n z) = z.
Proof. intros. rewrite le_get_put by lia. by apply Z.mod_small. Qed.

Lemma Unmarshal_wire m : Message_ok m -> Unmarshal (wire m) = Ret m.
Proof.
  intros (Hk & Hp & Ha & Hs & Ht & Hd). unfold Unmarshal. rewrite length_wire.
  cbn [negb Nat.eqb ByteSize]. f_equal. destruct m as [k p a s t d].
  cbn [Kind Price Amount StockId TraderId TradeId] in *.
  assert (E : forall lo hi pre mid post, wire (mkMessage k p a s t d) = pre ++ mid ++ post ->
              lo = length pre -> hi = (lo + length mid)%nat ->
              slice lo hi (wire (mkMessage k p a s t d)) = mid).
  { intros * -> -> ->. by apply slice_app_mid. }
  f_equal.
  - erewrite (E _ _ [] (le_put 8 k)) by done. by apply le_get_put_fits.
  - erewrite (E _ _ (le_put 8 k) (le_put 8 p)) by done. by apply le_get_put_fits.
  - erewrite (E _ _ (le_put 8 k ++ le_put 8 p) (le_put 8 a))
      by (unfold wire; cbn; by rewrite <- ?app_assoc). by apply le_get_put_fits.
  - erewrite (E _ _ (le_put 8 k ++ le_put 8 p ++ le_put 8 a) (le_put 8 s))
      by (unfold wire; cbn; by rewrite <- ?app_assoc). by apply le_get_put_fits.
  - erewrite (E _ _ (le_put 8 k ++ le_put 8 p ++ le_put 8 a ++ le_put 8 s) (le_put 4 t))
      by (unfold wire; cbn; by rewrite <- ?app_assoc). by apply le_get_put_fits.
  - erewrite (E _ _ (le_put 8 k ++ le_put 8 p ++ le_put 8 a ++ le_put 8 s ++ le_put 4 t)
               (le_put 4 d) []) by (unfold wire; cbn; by rewrite <- ?app_assoc, ?app_nil_r).
    by apply le_get_put_fits.
Qed.
Lemma Unmarshal_ok b m : bytes_ok b -> Unmarshal b = Ret m -> Message_ok m.
Proof.
  intros Hb. unfold Unmarshal. destruct (Nat.eqb_spec (length b) ByteSize) as [Hl|]; [|done].
  cbn [negb]. intros [= <-].
  assert (B : forall lo hi n, (hi <= length b)%nat -> n = 8 * Z.of_nat (hi - lo) ->
              0 <= le_get (slice lo hi b) < 2 ^ n).
  { intros lo hi n Hhi ->. rewrite <- (length_slice lo hi b) by done.
    apply le_get_bound; auto with go_db. }
  unfold Message_ok; cbn [Kind Price Amount StockId TraderId TradeId].
  repeat split; eapply B; try reflexivity; rewrite Hl; cbv; lia.
Qed.

Lemma le_put_get_slice n lo hi b :
  bytes_ok b -> (hi <= length b)%nat -> n = (hi - lo)%nat ->
  le_put n (le_get (slice lo hi b)) = slice lo hi b.
Proof.
  intros. subst n. rewrite <- (length_slice lo hi b) by done.
  apply le_put_get; auto with go_db.
Qed.

Lemma wire_Unmarshal b m : bytes_ok b -> Unmarshal b = Ret m -> wire m = b.
Proof.
  intros Hb. unfold Unmarshal. destruct (Nat.eqb_spec (length b) ByteSize) as [Hl|]; [|done].
  cbn [negb]. intros [= <-]. unfold wire; cbn [Kind Price Amount StockId TraderId TradeId].
  rewrite !le_put_get_slice by (done || (rewrite Hl; cbv; lia) || reflexivity).
  unfold ByteSize in Hl. do 41 (destruct b as [|? b]; try discriminate Hl). reflexivity.
Qed.

(** The kinds a message may carry to the matcher when its price is 0. *)
Definition price_optional (k : Z) : Prop :=
  k = SELL \/ k = CANCEL \/ k = CANCELLED \/ k = NOT_CANCELLED.

Lemma Valid_trade_spec m :
  Kind m <> SHUTDOWN -> Kind m <> NEW_TRADER ->
  Valid m = true <->
    Kind m <> NO_KIND /\ (Price m = 0 -> price_optional (Kind m)) /\
    Amount m <> 0 /\ TraderId m <> 0 /\ TradeId m <> 0 /\ StockId m <> 0.
Proof.
  intros H1 H2. unfold Valid, price_optional.
  apply Z.eqb_neq in H1, H2. rewrite H1, H2.
  repeat rewrite ?andb_true_iff, ?orb_true_iff, ?negb_true_iff, ?Z.eqb_neq, ?Z.eqb_eq.
  destruct (Z.eq_dec (Price m) 0); tauto.
Qed.

End Msg.

(** coordinator/rmsg.go, rmsg_serialise.go: a message with its delivery headers. *)
Module RMsg.
Import Msg.

(** MsgStatus, MsgDirection and MsgRoute are Go bytes. *)
Definition NORMAL := 0.
Definition INVALID_MSG_ERROR := 1.
Definition READ_ERROR := 2.
Definition SMALL_READ_ERROR := 3.
Definition WRITE_ERROR := 4.
Definition SMALL_WRITE_ERROR := 5.
Definition NUM_OF_STATUS := 6.
Definition NO_DIRECTION := 0.
Definition OUT := 1.
Definition IN := 2.
Definition NO_ROUTE := 0.
Definition APP := 1.
Definition ACK := 2.
Definition NUM_OF_ROUTE := 3.

Definition status_String (s : Z) : outcome unit string :=
  if s =? NORMAL then Ret "NORMAL"%string
  else if s =? INVALID_MSG_ERROR then Ret "INVALID_MSG_ERROR"%string
  else if s =? READ_ERROR then Ret "READ_ERROR"%string
  else if s =? SMALL_READ_ERROR then Ret "SMALL_READ_ERROR"%string
  else if s =? WRITE_ERROR then Ret "WRITE_ERROR"%string
  else if s =? SMALL_WRITE_ERROR then Ret "SMALL_WRITE_ERROR"%string
  else Panic.

Definition direction_String (d : Z) : outcome unit string :=
  if d =? NO_DIRECTION then Ret "NO_DIRECTION"%string
  else if d =? IN then Ret "IN"%string
  else if d =? OUT then Ret "OUT"%string
  else Panic.

Definition route_String (r : Z) : outcome unit string :=
  if r =? NO_ROUTE then Ret "NO_ROUTE"%string
  else if r =? APP then Ret "APP"%string
  else if r =? ACK then Ret "ACK"%string
  else Panic.

Record RMessage := mkRMessage {
  message : Message; status : Z; direction : Z; route : Z; originId : Z; msgId : Z
}.

Definition RMessage_ok (rm : RMessage) : Prop :=
  Message_ok (message rm) /\ byte_ok (status rm) /\ byte_ok (direction rm) /\
  byte_ok (route rm) /\ 0 <= originId rm < 2 ^ 32 /\ 0 <= msgId rm < 2 ^ 32.

Definition Valid (rm : RMessage) : bool :=
  if direction rm =? NO_DIRECTION then false
  else if negb (status rm =? NORMAL) then true
  else if (originId rm =? 0) || (msgId rm =? 0) then false
  else Msg.Valid (message rm).

Definition WriteAckFor (orm : RMessage) : RMessage :=
  mkRMessage (message orm) (status orm) OUT ACK (originId orm) (msgId orm).

Definition statusOffset := 40%nat.
Definition directionOffset := 41%nat.
Definition routeOffset := 42%nat.
Definition originIdOffset := 43%nat.
Definition msgIdOffset := 47%nat.
Definition rmsgByteSize := 51%nat.

(** RMessage.Marshal: the embedded message goes into b[:ByteSize], which aliases
    the front of b; the error of that inner call is dropped, as in the source. *)
Definition Marshal (rm : RMessage) (b : list Z) : outcome size_error (list Z) :=
  if negb (length b =? rmsgByteSize)%nat then Fail (WrongSize rmsgByteSize (length b))
  else
    let b := match Msg.Marshal (message rm) (slice 0 ByteSize b) with
             | Ret h => splice 0 h b
             | _ => b
             end in
    let b := splice statusOffset [u8 (status rm)] b in
    let b := splice directionOffset [u8 (direction rm)] b in
    let b := splice routeOffset [u8 (route rm)] b in
    let b := splice originIdOffset (le_put 4 (originId rm)) b in
    let b := splice msgIdOffset (le_put 4 (msgId rm)) b in
    Ret b.

(** RMessage.Unmarshal: rm.message keeps its old value if the inner call fails. *)
Definition Unmarshal (rm : RMessage) (b : list Z) : outcome size_error RMessage :=
  if negb (length b =? rmsgByteSize)%nat then Fail (WrongSize rmsgByteSize (length b))
  else
    let at_ i := le_get (slice i (S i) b) in
    Ret {|
      message := match Msg.Unmarshal (slice 0 ByteSize b) with
                 | Ret m => m | _ => message rm end;
      status := at_ statusOffset;
      direction := at_ directionOffset;
      route := at_ routeOffset;
      originId := le_get (slice originIdOffset msgIdOffset b);
      msgId := le_get (slice msgIdOffset rmsgByteSize b) |}.

(** *** Lemmas *)

Definition rwire (rm : RMessage) : list Z :=
  wire (message rm) ++ [u8 (status rm)] ++ [u8 (direction rm)] ++ [u8 (route rm)] ++
  le_put 4 (originId rm) ++ le_put 4 (msgId rm).

Lemma length_rwire rm : length (rwire rm) = rmsgByteSize.
Proof. unfold rwire. by rewrite !length_app, length_wire, !length_le_put. Qed.

Lemma rwire_ok rm : bytes_ok (rwire rm).
Proof.
  unfold rwire, bytes_ok. rewrite !Forall_app, !Forall_singleton.
  repeat split; first [apply wire_ok | apply le_put_ok | apply wrap_range; lia].
Qed.

Ltac rsplice_next_solve :=
  rewrite ?length_app, ?length_drop, ?length_le_put, ?length_wire;
  unfold rmsgByteSize, ByteSize in *; cbn [length]; first [reflexivity | lia].

Lemma Marshal_rwire rm b : length b = rmsgByteSize -> Marshal rm b = Ret (rwire rm).
Proof.
  intros Hb. unfold Marshal. rewrite Hb. cbn [negb Nat.eqb rmsgByteSize]. f_equal.
  rewrite Marshal_wire
    by (rewrite length_slice; [reflexivity | rewrite Hb; cbv; lia]).
  rewrite <- (app_nil_l b).
  rewrite (splice_next 0 []) by rsplice_next_solve.
  rewrite (splice_next statusOffset) by rsplice_next_solve.
  rewrite (splice_next directionOffset) by rsplice_next_solve.
  rewrite (splice_next routeOffset) by rsplice_next_solve.
  rewrite (splice_next originIdOffset) by rsplice_next_solve.
  rewrite (splice_next msgIdOffset) by rsplice_next_solve.
  rewrite (nil_length_inv (drop _ _)) by rsplice_next_solve.
  unfold rwire. by rewrite app_nil_r, <- !app_assoc.
Qed.

Lemma le_get_single z : le_get [z] = z.
Proof. unfold le_get. rewrite Z.shiftl_0_l. lia. Qed.

Lemma Unmarshal_rwire old rm : RMessage_ok rm -> Unmarshal old (rwire rm) = Ret rm.
Proof.
  intros (Hm & Hs & Hd & Hr & Ho & Hi). unfold Unmarshal. rewrite length_rwire.
  cbn [negb Nat.eqb rmsgByteSize]. f_equal. destruct rm as [m s d r o i].
  cbn [message status direction route originId msgId] in *.
  set (w := rwire _).
  assert (E : forall lo hi pre mid post, w = pre ++ mid ++ post ->
              lo = length pre -> hi = (lo + length mid)%nat -> slice lo hi w = mid).
  { intros * -> -> ->. by apply slice_app_mid. }
  assert (W : forall z, byte_ok z -> u8 z = z) by (intros; by apply wrap_id).
  f_equal.
  - erewrite (E _ _ [] (wire m)) by (rewrite ?length_wire; done).
    by rewrite Unmarshal_wire.
  - erewrite (E _ _ (wire m) [u8 s]) by (rewrite ?length_wire; done).
    by rewrite le_get_single, W.
  - erewrite (E _ _ (wire m ++ [u8 s]) [u8 d])
      by (rewrite ?length_app, ?length_wire; unfold w, rwire; cbn;
          by rewrite <- ?app_assoc). by rewrite le_get_single, W.
  - erewrite (E _ _ (wire m ++ [u8 s] ++ [u8 d]) [u8 r])
      by (rewrite ?length_app, ?length_wire; unfold w, rwire; cbn;
          by rewrite <- ?app_assoc). by rewrite le_get_single, W.
  - erewrite (E _ _ (wire m ++ [u8 s] ++ [u8 d] ++ [u8 r]) (le_put 4 o))
      by (rewrite ?length_app, ?length_wire; unfold w, rwire; cbn;
          by rewrite <- ?app_assoc). by apply le_get_put_fits.
  - erewrite (E _ _ (wire m ++ [u8 s] ++ [u8 d] ++ [u8 r] ++ le_put 4 o) (le_put 4 i) [])
      by (rewrite ?length_app, ?length_wire; unfold w, rwire; cbn;
          by rewrite <- ?app_assoc, ?app_nil_r). by apply le_get_put_fits.
Qed.

Lemma rwire_Unmarshal old b rm :
  bytes_ok b -> Unmarshal old b = Ret rm -> rwire rm = b /\ RMessage_ok rm.
Proof.
  intros Hb. unfold Unmarshal.
  destruct (Nat.eqb_spec (length b) rmsgByteSize) as [Hl|]; [|done]. cbn [negb].
  assert (Hs : length (slice 0 ByteSize b) = ByteSize)
    by (rewrite length_slice; [reflexivity | rewrite Hl; cbv; lia]).
  destruct (Msg.Unmarshal (slice 0 ByteSize b)) as [m| |] eqn:Em;
    [| unfold Msg.Unmarshal in Em; rewrite Hs in Em; done ..].
  intros [= <-].
  pose proof (wire_Unmarshal _ _ (slice_ok _ _ _ Hb) Em) as Hw.
  pose proof (Unmarshal_ok _ _ (slice_ok _ _ _ Hb) Em) as Hok.
  assert (B : forall lo hi n, (hi <= length b)%nat -> n = 8 * Z.of_nat (hi - lo) ->
              0 <= le_get (slice lo hi b) < 2 ^ n).
  { intros lo hi n Hhi ->. rewrite <- (length_slice lo hi b) by done.
    apply le_get_bound; auto with go_db. }
  split.
  - unfold rwire; cbn [message status direction route originId msgId]. rewrite Hw.
    rewrite !le_put_get_slice by (done || (rewrite Hl; cbv; lia) || reflexivity).
    do 3 rewrite (wrap_id 8) by (apply B; [rewrite Hl; cbv; lia | reflexivity]).
    unfold rmsgByteSize in Hl. do 52 (destruct b as [|? b]; try discriminate Hl).
    unfold slice; cbn. rewrite !le_get_single. reflexivity.
  - unfold RMessage_ok; cbn [message status direction route originId msgId].
    refine (conj Hok (conj _ (conj _ (conj _ (conj _ _)))));
      first [apply (B _ _ 8) | apply (B _ _ 32)]; try reflexivity; rewrite Hl; cbv; lia.
Qed.

(** *** Properties *)

(** C10: wire format round trip. For every RMessage whose fields fit their Go types,
    Marshal into any 51-byte buffer succeeds, whatever the buffer held, with 51 bytes,
    and Unmarshal of these bytes gives back the RMessage. *)
Theorem rmessage_marshal_unmarshal rm old b :
  RMessage_ok rm -> length b = rmsgByteSize ->
  exists bs, Marshal rm b = Ret bs /\ length bs = rmsgByteSize /\ bytes_ok bs /\
             Unmarshal old bs = Ret rm.
Proof.
  intros. exists (rwire rm). split_and!.
  - by apply Marshal_rwire.
  - apply length_rwire.
  - apply rwire_ok.
  - by apply Unmarshal_rwire.
Qed.

Lemma rmessage_marshal_unmarshal_witness :
  let rm := mkRMessage (mkMessage BUY 7 1 3 4 5) NORMAL IN APP 9 (2 ^ 32 - 1) in
  exists bs, Marshal rm (replicate 51 255) = Ret bs /\ length bs = rmsgByteSize /\
    bytes_ok bs /\ Unmarshal rm bs = Ret rm.
Proof.
  intros rm. apply (rmessage_marshal_unmarshal rm rm (replicate 51 255)).
  - zground.
  - reflexivity.
Defined.

(** The wire format is canonical. Whatever 51 bytes Unmarshal accepts, marshalling
    the RMessage it produced gives the same bytes again, so no two byte strings decode
    to the same message; a buffer of any other length is refused by both directions
    with the same size error. *)
Theorem rmessage_wire_canonical old bs b :
  bytes_ok bs ->
  match Unmarshal old bs with
  | Ret rm => RMessage_ok rm /\
      (length b = rmsgByteSize -> Marshal rm b = Ret bs)
  | Fail e => length bs <> rmsgByteSize /\ e = WrongSize rmsgByteSize (length bs) /\
      forall rm, Marshal rm bs = Fail e
  | Panic => False
  end.
Proof.
  intros Hb. destruct (Unmarshal old bs) as [rm|e|] eqn:E.
  - destruct (rwire_Unmarshal _ _ _ Hb E) as [Hw Hok]. split; [done|].
    intros. by rewrite Marshal_rwire, Hw.
  - revert E. unfold Unmarshal, Marshal.
    destruct (Nat.eqb_spec (length bs) rmsgByteSize); [done|]. by intros [= <-].
  - revert E. unfold Unmarshal. by destruct (Nat.eqb_spec (length bs) rmsgByteSize).
Qed.

Lemma rmessage_wire_canonical_witness :
  bytes_ok (replicate 51 7) /\
  match Unmarshal (mkRMessage zero_Message 0 0 0 0 0) (replicate 51 7) with
  | Ret rm => RMessage_ok rm /\
      (length (replicate 51 0) = rmsgByteSize ->
       Marshal rm (replicate 51 0) = Ret (replicate 51 7))
  | Fail e => length (replicate 51 7) <> rmsgByteSize /\
      e = WrongSize rmsgByteSize (length (replicate 51 7)) /\
      forall rm, Marshal rm (replicate 51 7) = Fail e
  | Panic => False
  end.
Proof.
  assert (H : bytes_ok (replicate 51 7)) by (apply Forall_replicate; unfold byte_ok; lia).
  split; [exact H|].
  apply (rmessage_wire_canonical (mkRMessage zero_Message 0 0 0 0 0) (replicate 51 7)
           (replicate 51 0) H).
Defined.

(** What the coordinator accepts. An RMessage is valid exactly when it has a
    direction and either is already in an error status or has both ids and carries a
    valid message; acknowledging a valid RMessage gives a valid one, and cancelling a
    valid buy or sell gives a valid cancel for the same trade. *)
Theorem validity_preserved rm :
  (Valid rm = true <->
     direction rm <> NO_DIRECTION /\
     (status rm <> NORMAL \/
      originId rm <> 0 /\ msgId rm <> 0 /\ Msg.Valid (message rm) = true)) /\
  (Valid rm = true -> Valid (WriteAckFor rm) = true) /\
  (forall m, Kind m = BUY \/ Kind m = SELL -> Msg.Valid m = true ->
     Msg.Valid (WriteCancelFor m) = true).
Proof.
  split_and!.
  - unfold Valid. zcases; cbn [orb negb]; intuition (congruence || discriminate).
  - unfold Valid, WriteAckFor; cbn [direction status originId msgId message].
    change (OUT =? NO_DIRECTION) with false. by destruct (direction rm =? NO_DIRECTION).
  - intros m Hk. assert (Kind m <> SHUTDOWN /\ Kind m <> NEW_TRADER) as [? ?]
      by (destruct Hk as [-> | ->]; done).
    rewrite !Valid_trade_spec by done. unfold price_optional, WriteCancelFor;
      cbn [Kind Price Amount TraderId TradeId StockId]. intuition (done || tauto).
Qed.

End RMsg.
