(* ===== verification/RangeCoder.v ===== *)
(** lzma2/range_coder.go: the adaptive binary range coder of the LZMA codec.

    The encoder's Writer and the decoder's Reader are byte lists: the writer never
    fails, the reader reports io.EOF (thrown as a Go panic that handlePanics turns
    into an error) when the list is exhausted.  A probability table is the []uint16
    slice the source passes around; both directions return the updated table.

    The theory below reads the encoder state as an interval of the big-endian value
    of the final stream ([N e], [N e + rrange)), shows that every operation refines the
    interval, that carries never overtake bytes already written, and that a decoder
    in step with the encoder ([sync]) stays in step ([codes]). *)

From Stdlib Require Import ZArith Lia.
From stdpp Require Import base numbers option list.
From S2P Require Import Prelude.
#[local] Open Scope Z_scope.

Definition kTopValue := Z.shiftl 1 24.
Definition kNumBitModelTotalBits := 11.
Definition kBitModelTotal := Z.shiftl 1 kNumBitModelTotalBits.
Definition kNumMoveBits := 5.

(** The errors the codec throws. *)
Inductive lzma_error := EOF | ErrUnexpectedEOF | streamError | headerError | nWriteError | argumentValueError.

(** ** Decoder *)

Record rangeDecoder := mkRD { rd_r : list Z; rd_rrange : Z; rd_code : Z }.

Definition newRangeDecoder (r : list Z) : outcome lzma_error rangeDecoder :=
  if (length r =? 0)%nat then Fail EOF
  else if (length r <? 5)%nat then Fail ErrUnexpectedEOF
  else
    let code := foldl (fun code b => Z.lor (u32 (Z.shiftl code 8)) b) 0 (take 5 r) in
    Ret (mkRD (drop 5 r) 0xFFFFFFFF code).

(** The block the source repeats after each step: read one byte when rrange is small. *)
Definition rd_normalize (rd : rangeDecoder) : outcome lzma_error rangeDecoder :=
  if rd_rrange rd <? kTopValue then
    match rd_r rd with
    | [] => Fail EOF
    | c :: r => Ret (mkRD r (u32 (Z.shiftl (rd_rrange rd) 8))
                          (Z.lor (u32 (Z.shiftl (rd_code rd) 8)) c))
    end
  else Ret rd.

Fixpoint decodeDirectBits_loop (i : nat) (rd : rangeDecoder) (res : Z)
    : outcome lzma_error (Z * rangeDecoder) :=
  match i with
  | O => Ret (res, rd)
  | S i' =>
      let rrange := Z.shiftr (rd_rrange rd) 1 in
      let t := Z.shiftr (u32 (rd_code rd - rrange)) 31 in
      let code := u32 (rd_code rd - Z.land rrange (u32 (t - 1))) in
      let res := Z.lor (u32 (Z.shiftl res 1)) (u32 (1 - t)) in
      rd ← rd_normalize (mkRD (rd_r rd) rrange code);
      decodeDirectBits_loop i' rd res
  end.

Definition decodeDirectBits (rd : rangeDecoder) (numTotalBits : Z)
    : outcome lzma_error (Z * rangeDecoder) :=
  decodeDirectBits_loop (Z.to_nat numTotalBits) rd 0.

Definition decodeBit (probs : list Z) (index : Z) (rd : rangeDecoder)
    : outcome lzma_error (Z * list Z * rangeDecoder) :=
  match probs !! Z.to_nat index with
  | None => Panic
  | Some prob =>
      let newBound := u32 (Z.shiftr (rd_rrange rd) kNumBitModelTotalBits * prob) in
      if rd_code rd <? newBound then
        let probs := <[Z.to_nat index :=
          u16 (prob + Z.shiftr (u16 (kBitModelTotal - prob)) kNumMoveBits)]> probs in
        rd ← rd_normalize (mkRD (rd_r rd) newBound (rd_code rd));
        Ret (0, probs, rd)
      else
        let probs := <[Z.to_nat index := u16 (prob - Z.shiftr prob kNumMoveBits)]> probs in
        rd ← rd_normalize (mkRD (rd_r rd) (u32 (rd_rrange rd - newBound))
                                (u32 (rd_code rd - newBound)));
        Ret (1, probs, rd)
  end.

Definition initBitModels (length : Z) : list Z :=
  replicate (Z.to_nat length) (Z.shiftr kBitModelTotal 1).

(** ** Encoder *)

Record rangeEncoder := mkRE {
  re_w : list Z; re_low : Z; re_pos : Z; re_cacheSize : Z; re_cache : Z; re_rrange : Z
}.

Definition newRangeEncoder : rangeEncoder := mkRE [] 0 0 1 0 0xFFFFFFFF.

(** The do-while loop of shiftLow.  [n] bounds the iterations after the first;
    [shiftLow] passes exactly the number the counter allows (see
    [shiftLow_loop_done]: the loop always leaves by its own test). *)
Fixpoint shiftLow_loop (n : nat) (temp lowHi cacheSize : Z) (w : list Z) : Z * list Z :=
  let w := w ++ [u8 (temp + lowHi)] in
  let cacheSize := u32 (cacheSize - 1) in
  match n with
  | O => (cacheSize, w)
  | S n' => if cacheSize =? 0 then (cacheSize, w)
            else shiftLow_loop n' 0xFF lowHi cacheSize w
  end.

Definition shiftLow (re : rangeEncoder) : rangeEncoder :=
  let lowHi := u32 (Z.shiftr (re_low re) 32) in
  let '(w, pos, cacheSize, cache) :=
    if negb (lowHi =? 0) || (re_low re <? 0xFF000000) then
      let '(cs, w) := shiftLow_loop (Z.to_nat (u32 (re_cacheSize re - 1))) (re_cache re)
                        lowHi (re_cacheSize re) (re_w re) in
      (w, u64 (re_pos re + re_cacheSize re), cs, Z.shiftr (u32 (re_low re)) 24)
    else (re_w re, re_pos re, re_cacheSize re, re_cache re) in
  mkRE w (u32 (Z.shiftl (u32 (re_low re)) 8)) pos (u32 (cacheSize + 1)) cache (re_rrange re).

(** [Nat.iter 5]: the for loop of flush; the final Writer.Flush is the identity here. *)
Definition flush (re : rangeEncoder) : rangeEncoder := Nat.iter 5 shiftLow re.

Definition re_normalize (re : rangeEncoder) : rangeEncoder :=
  if re_rrange re <? kTopValue then
    shiftLow (mkRE (re_w re) (re_low re) (re_pos re) (re_cacheSize re) (re_cache re)
                   (u32 (Z.shiftl (re_rrange re) 8)))
  else re.

(** The loop of encodeDirectBits on i = [S i'] .. 0. *)
Fixpoint encodeDirectBits_loop (i : nat) (v : Z) (re : rangeEncoder) : rangeEncoder :=
  match i with
  | O => re
  | S i' =>
      let rrange := Z.shiftr (re_rrange re) 1 in
      let low := if Z.land (Z.shiftr v (Z.of_nat i')) 1 =? 1
                 then u64 (re_low re + rrange) else re_low re in
      encodeDirectBits_loop i' v
        (re_normalize (mkRE (re_w re) low (re_pos re) (re_cacheSize re) (re_cache re) rrange))
  end.

Definition encodeDirectBits (v numTotalBits : Z) (re : rangeEncoder) : rangeEncoder :=
  encodeDirectBits_loop (Z.to_nat numTotalBits) v re.

Definition processedSize (re : rangeEncoder) : Z :=
  u64 (u64 (re_cacheSize re + re_pos re) + 4).

Definition encode (probs : list Z) (index symbol : Z) (re : rangeEncoder)
    : outcome lzma_error (list Z * rangeEncoder) :=
  match probs !! Z.to_nat index with
  | None => Panic
  | Some prob =>
      let newBound := u32 (Z.shiftr (re_rrange re) kNumBitModelTotalBits * prob) in
      if symbol =? 0 then
        Ret (<[Z.to_nat index :=
               u16 (prob + Z.shiftr (u16 (kBitModelTotal - prob)) kNumMoveBits)]> probs,
             re_normalize (mkRE (re_w re) (re_low re) (re_pos re) (re_cacheSize re)
                                (re_cache re) newBound))
      else
        Ret (<[Z.to_nat index := u16 (prob - Z.shiftr prob kNumMoveBits)]> probs,
             re_normalize (mkRE (re_w re) (u64 (re_low re + newBound)) (re_pos re)
                                (re_cacheSize re) (re_cache re)
                                (u32 (re_rrange re - newBound))))
  end.

(** ** Big-endian values *)

Lemma be_get_nil : be_get [] = 0.
Proof. reflexivity. Qed.

Lemma be_get_snoc l b : be_get (l ++ [b]) = 256 * be_get l + b.
Proof.
  unfold be_get. rewrite reverse_app. cbn. unfold le_get at 1; fold le_get.
  rewrite Z.shiftl_mul_pow2 by lia. lia.
Qed.

Lemma be_get_singleton b : be_get [b] = b.
Proof. apply (be_get_snoc [] b). Qed.

Lemma be_get_app l m : be_get (l ++ m) = 256 ^ Z.of_nat (length m) * be_get l + be_get m.
Proof.
  induction m as [|b m IH] using rev_ind; [rewrite app_nil_r, be_get_nil; cbn; lia|].
  rewrite app_assoc, !be_get_snoc, IH, length_app. cbn [length].
  replace (Z.of_nat (length m + 1)) with (Z.succ (Z.of_nat (length m))) by lia.
  rewrite Z.pow_succ_r by lia. lia.
Qed.

Lemma be_get_replicate_FF m : be_get (replicate m 255) = 256 ^ Z.of_nat m - 1.
Proof.
  induction m as [|m IH]; [done|]. rewrite replicate_S_end, be_get_snoc, IH.
  rewrite Nat2Z.inj_succ, Z.pow_succ_r by lia. lia.
Qed.

Lemma be_get_replicate_00 m : be_get (replicate m 0) = 0.
Proof. induction m as [|m IH]; [done|]. rewrite replicate_S_end, be_get_snoc, IH. lia. Qed.

Lemma be_get_take_S B m b :
  B !! m = Some b -> be_get (take (S m) B) = 256 * be_get (take m B) + b.
Proof. intros H. by rewrite (take_S_r _ _ _ H), be_get_snoc. Qed.

Lemma be_get_nonneg l : bytes_ok l -> 0 <= be_get l.
Proof.
  intros H. apply le_get_bound. unfold bytes_ok. by rewrite Forall_reverse.
Qed.

Lemma pow256_pos m : 0 < 256 ^ Z.of_nat m.
Proof. apply Z.pow_pos_nonneg; lia. Qed.

(** ** The interval the encoder state stands for *)

(** Digits still pending: the cached byte and the run of 0xFF behind it. *)
Definition pending (e : rangeEncoder) : list Z :=
  re_cache e :: replicate (Z.to_nat (re_cacheSize e - 1)) 255.

(** Lower end of the interval, at the scale of [K e + 4] output bytes. *)
Definition N (e : rangeEncoder) : Z := be_get (re_w e ++ pending e) * 2 ^ 32 + re_low e.
Definition K (e : rangeEncoder) : nat := (length (re_w e) + Z.to_nat (re_cacheSize e))%nat.

(** [enc_inv n e r]: the interval [N e, N e + r) is inside what the bytes already
    written allow, low keeps its carry in one bit, and n more shiftLow fit the counter. *)
Record enc_inv (n : nat) (e : rangeEncoder) (r : Z) : Prop := {
  ei_w : bytes_ok (re_w e);
  ei_cache : byte_ok (re_cache e);
  ei_cs : 1 <= re_cacheSize e;
  ei_csn : re_cacheSize e + Z.of_nat n < 2 ^ 32;
  ei_low : 0 <= re_low e;
  ei_r : 0 < r;
  ei_lowr : re_low e + r <= 2 ^ 33;
  ei_final : N e + r <= (be_get (re_w e) + 1) * 256 ^ re_cacheSize e * 2 ^ 32
}.

Lemma enc_inv_shrink n e r r' : enc_inv n e r -> 0 < r' <= r -> enc_inv n e r'.
Proof. intros [] [? ?]. constructor; auto; lia. Qed.

Lemma be_get_pending e :
  1 <= re_cacheSize e ->
  be_get (re_w e ++ pending e) + 1
  = be_get (re_w e) * 256 ^ re_cacheSize e + (re_cache e + 1) * 256 ^ (re_cacheSize e - 1).
Proof.
  intros Hcs. unfold pending.
  change (re_cache e :: ?l) with ([re_cache e] ++ l).
  rewrite !be_get_app, be_get_replicate_FF, length_app, !length_replicate. cbn [length].
  rewrite be_get_singleton.
  replace (Z.of_nat (1 + Z.to_nat (re_cacheSize e - 1))) with (re_cacheSize e) by lia.
  replace (Z.of_nat (Z.to_nat (re_cacheSize e - 1))) with (re_cacheSize e - 1) by lia.
  lia.
Qed.

(** A carry never runs into a byte already written. *)
Lemma no_carry_out n e r : enc_inv n e r -> 2 ^ 32 <= re_low e -> re_cache e + 1 < 256.
Proof.
  intros [Hw Hc Hcs _ Hl Hr Hlr Hf] Hlow. unfold N in Hf.
  pose proof (be_get_pending e Hcs) as Hp.
  set (V := be_get (re_w e ++ pending e)) in *. set (c := re_cacheSize e) in *.
  assert (256 ^ c = 256 * 256 ^ (c - 1)) as Hpow
    by (rewrite <- Z.pow_succ_r by lia; f_equal; lia).
  assert (0 < 256 ^ (c - 1)) by (apply Z.pow_pos_nonneg; lia).
  assert ((V + 1) * 2 ^ 32 < (be_get (re_w e) + 1) * 256 ^ c * 2 ^ 32) by lia.
  assert (V + 1 < (be_get (re_w e) + 1) * 256 ^ c) by lia.
  rewrite Hp in *. rewrite Hpow in *. nia.
Qed.

(** The flush loop writes the cached byte and the run, and leaves by its own test. *)
Lemma shiftLow_loop_done n temp lowHi cs w :
  1 <= cs < 2 ^ 32 -> n = Z.to_nat (cs - 1) ->
  shiftLow_loop n temp lowHi cs w =
    (0, w ++ u8 (temp + lowHi) :: replicate n (u8 (0xFF + lowHi))).
Proof.
  revert temp cs w. induction n as [|n IH]; intros temp cs w Hcs Hn; cbn [shiftLow_loop].
  - replace cs with 1 by lia. done.
  - assert (u32 (cs - 1) = cs - 1) as -> by (apply wrap_id; lia).
    destruct (Z.eqb_spec (cs - 1) 0); [lia|].
    rewrite IH by lia. cbn [replicate]. by rewrite <- app_assoc.
Qed.

Definition lowHi (e : rangeEncoder) : Z := re_low e / 2 ^ 32.

(** What shiftLow does when it writes. *)
Lemma shiftLow_emit n e r :
  enc_inv n e r -> (lowHi e <> 0 \/ re_low e < 0xFF000000) ->
  shiftLow e =
    mkRE (re_w e ++ (re_cache e + lowHi e)
            :: replicate (Z.to_nat (re_cacheSize e - 1)) (if lowHi e =? 0 then 255 else 0))
         ((re_low e mod 2 ^ 24) * 2 ^ 8) (u64 (re_pos e + re_cacheSize e)) 1
         (re_low e mod 2 ^ 32 / 2 ^ 24) (re_rrange e).
Proof.
  intros H Hcond. pose proof (no_carry_out _ _ _ H) as Hnc. destruct H as [Hw Hc Hcs Hcsn Hl Hr Hlr Hf].
  unfold shiftLow. unfold byte_ok in Hc.
  assert (lowHi e = 0 \/ lowHi e = 1) as Hlh.
  { unfold lowHi. assert (0 <= re_low e / 2 ^ 32 < 2); [|lia].
    split; [apply Z.div_pos; lia | apply Z.div_lt_upper_bound; lia]. }
  assert (u32 (Z.shiftr (re_low e) 32) = lowHi e) as ->.
  { rewrite Z.shiftr_div_pow2 by lia. apply wrap_id. fold (lowHi e). lia. }
  assert (negb (lowHi e =? 0) || (re_low e <? 4278190080) = true)%bool as ->.
  { destruct Hcond; [destruct (Z.eqb_spec (lowHi e) 0); [done|reflexivity]|].
    apply orb_true_iff. right. by apply Z.ltb_lt. }
  rewrite (wrap_id 32 (re_cacheSize e - 1)) by lia.
  rewrite shiftLow_loop_done by lia.
  f_equal.
  - f_equal. f_equal.
    + apply wrap_id. destruct Hlh as [E|E]; rewrite E in *; [lia|].
      assert (2 ^ 32 <= re_low e); [|specialize (Hnc ltac:(done)); lia].
      unfold lowHi in E. pose proof (Z.div_mod (re_low e) (2 ^ 32)).
      pose proof (Z.mod_pos_bound (re_low e) (2 ^ 32)). lia.
    + by destruct Hlh as [-> | ->].
  - unfold wrap. rewrite Z.shiftl_mul_pow2 by lia.
    change (2 ^ 32) with (2 ^ 24 * 2 ^ 8).
    rewrite Zmult_mod_distr_r. f_equal.
    apply Z.mod_mod_divide. by exists (2 ^ 8).
  - unfold wrap. by rewrite Z.shiftr_div_pow2 by lia.
Qed.

(** What shiftLow does when it holds the byte back. *)
Lemma shiftLow_hold n e r :
  enc_inv (S n) e r -> lowHi e = 0 -> 0xFF000000 <= re_low e ->
  shiftLow e = mkRE (re_w e) ((re_low e mod 2 ^ 24) * 2 ^ 8) (re_pos e)
                    (re_cacheSize e + 1) (re_cache e) (re_rrange e).
Proof.
  intros [Hw Hc Hcs Hcsn Hl Hr Hlr Hf] Hh Hlow. unfold shiftLow.
  assert (u32 (Z.shiftr (re_low e) 32) = 0) as ->.
  { rewrite Z.shiftr_div_pow2 by lia. fold (lowHi e). by rewrite Hh. }
  destruct (Z.ltb_spec (re_low e) 4278190080); [lia|]. cbn [negb orb Z.eqb].
  f_equal; [|apply wrap_id; lia].
  unfold wrap. rewrite Z.shiftl_mul_pow2 by lia.
  change (2 ^ 32) with (2 ^ 24 * 2 ^ 8). rewrite Zmult_mod_distr_r. f_equal.
  apply Z.mod_mod_divide. by exists (2 ^ 8).
Qed.

Lemma bytes_ok_app l m : bytes_ok (l ++ m) <-> bytes_ok l /\ bytes_ok m.
Proof. apply Forall_app. Qed.

Lemma low_split e : 0 <= re_low e ->
  re_low e = lowHi e * 2 ^ 32 + (re_low e mod 2 ^ 32 / 2 ^ 24) * 2 ^ 24 + re_low e mod 2 ^ 24.
Proof.
  intros. unfold lowHi.
  pose proof (Z.div_mod (re_low e) (2 ^ 32) ltac:(lia)).
  pose proof (Z.div_mod (re_low e mod 2 ^ 32) (2 ^ 24) ltac:(lia)) as H1.
  rewrite (Z.mod_mod_divide (re_low e) (2 ^ 32) (2 ^ 24)) in H1 by (by exists (2 ^ 8)).
  lia.
Qed.

Record shifted (e e' : rangeEncoder) : Prop := {
  sh_N : N e' = 256 * N e;
  sh_K : K e' = S (K e);
  sh_low : re_low e' = (re_low e mod 2 ^ 24) * 2 ^ 8;
  sh_rrange : re_rrange e' = re_rrange e
}.

(** The bytes shiftLow writes carry the value of the pending digits plus the carry. *)
Lemma emitted_value e h :
  1 <= re_cacheSize e -> h = 0 \/ h = 1 ->
  be_get (re_w e ++ (re_cache e + h)
            :: replicate (Z.to_nat (re_cacheSize e - 1)) (if h =? 0 then 255 else 0))
  = be_get (re_w e ++ pending e) + h.
Proof.
  intros Hcs Hh. pose proof (be_get_pending e Hcs) as Hp.
  set (V := be_get (re_w e ++ pending e)) in *.
  change (?x :: replicate ?m ?y) with ([x] ++ replicate m y).
  rewrite !be_get_app, be_get_singleton, length_app, !length_replicate. cbn [length].
  replace (Z.of_nat (1 + Z.to_nat (re_cacheSize e - 1))) with (re_cacheSize e) by lia.
  replace (Z.of_nat (Z.to_nat (re_cacheSize e - 1))) with (re_cacheSize e - 1) by lia.
  destruct Hh as [-> | ->]; cbn [Z.eqb].
  - rewrite be_get_replicate_FF.
    replace (Z.of_nat (Z.to_nat (re_cacheSize e - 1))) with (re_cacheSize e - 1) by lia. lia.
  - rewrite be_get_replicate_00. lia.
Qed.

Lemma lowHi_cases n e r : enc_inv n e r -> lowHi e = 0 \/ lowHi e = 1.
Proof.
  intros [Hw Hc Hcs Hcsn Hl Hr Hlr Hf]. unfold lowHi.
  assert (0 <= re_low e / 2 ^ 32 < 2); [|lia].
  split; [apply Z.div_pos; lia | apply Z.div_lt_upper_bound; lia].
Qed.

(** shiftLow multiplies the interval by 256 exactly, whichever way it goes. *)
(** The two cases of shiftLow: the pending bytes are written, or the cache is held back. *)
Lemma shiftLow_emits n e r :
  enc_inv (S n) e r -> r <= 2 ^ 24 -> lowHi e <> 0 \/ re_low e < 0xFF000000 ->
  enc_inv n (shiftLow e) (256 * r) /\ shifted e (shiftLow e).
Proof.
  intros H Hr24 Hc. pose proof (lowHi_cases _ _ _ H) as Hlh. pose proof (no_carry_out _ _ _ H) as Hnc.
  pose proof (low_split e (ei_low _ _ _ H)) as Hsplit. pose proof (Z.mod_pos_bound (re_low e) (2 ^ 24) ltac:(lia)) as Hm.
  assert (0 <= re_low e mod 2 ^ 32 / 2 ^ 24 < 256) as Hq.
  { pose proof (Z.mod_pos_bound (re_low e) (2 ^ 32) ltac:(lia)).
    split; [apply Z.div_pos; lia | apply Z.div_lt_upper_bound; lia]. }
  pose proof (emitted_value e (lowHi e) (ei_cs _ _ _ H) Hlh) as HV. rewrite (shiftLow_emit _ _ _ H Hc).
  destruct H as [Hw Hca Hcs Hcsn Hl Hr Hlr Hf]. unfold byte_ok in Hca. set (w' := re_w e ++ _) in *.
  set (e' := mkRE _ _ _ _ _ _).
  assert (HN : N e' = 256 * N e).
  { unfold N at 1, pending; cbn [re_w re_cache re_cacheSize re_low e'].
    cbn [Z.to_nat Z.sub Z.pos_sub replicate Z.add Z.opp]. change (Z.to_nat (1 - 1)) with O. cbn [replicate].
    rewrite be_get_snoc, HV. unfold N. lia. }
  split; [constructor|constructor]; cbn [e' re_w re_cache re_cacheSize re_low re_rrange]; auto; try lia.
  - unfold w'. apply bytes_ok_app. split; [done|]. constructor.
    + unfold byte_ok. destruct Hlh as [E|E]; rewrite E; [lia|]. specialize (Hnc ltac:(lia)). lia.
    + apply Forall_replicate. destruct Hlh as [-> | ->]; cbn; unfold byte_ok; lia.
  - rewrite HN, HV. fold (N e). rewrite Z.pow_1_r.
    assert (re_low e + r <= (lowHi e + 1) * 2 ^ 32).
    { destruct Hlh as [E|E]; rewrite E in *; [|lia]. destruct Hc; [done|lia]. }
    unfold N. lia.
  - unfold K; cbn [e' re_w re_cacheSize]. unfold w'. rewrite length_app; cbn [length]. rewrite length_replicate. lia.
Qed.

Lemma shiftLow_holds n e r :
  enc_inv (S n) e r -> r <= 2 ^ 24 -> lowHi e = 0 -> 0xFF000000 <= re_low e ->
  enc_inv n (shiftLow e) (256 * r) /\ shifted e (shiftLow e).
Proof.
  intros H Hr24 Hh0 Hlow. pose proof (no_carry_out _ _ _ H) as Hnc. pose proof (low_split e (ei_low _ _ _ H)) as Hsplit.
  pose proof (Z.mod_pos_bound (re_low e) (2 ^ 24) ltac:(lia)) as Hm.
  assert (0 <= re_low e mod 2 ^ 32 / 2 ^ 24 < 256) as Hq.
  { pose proof (Z.mod_pos_bound (re_low e) (2 ^ 32) ltac:(lia)).
    split; [apply Z.div_pos; lia | apply Z.div_lt_upper_bound; lia]. }
  rewrite (shiftLow_hold _ _ _ H Hh0 Hlow).
  destruct H as [Hw Hca Hcs Hcsn Hl Hr Hlr Hf]. set (e' := mkRE _ _ _ _ _ _).
  assert (HN : N e' = 256 * N e).
  { unfold N, pending; cbn [re_w re_cache re_cacheSize re_low e'].
    replace (Z.to_nat (re_cacheSize e + 1 - 1)) with (S (Z.to_nat (re_cacheSize e - 1))) by lia.
    rewrite replicate_S_end. change (?c :: ?l ++ [255]) with ((c :: l) ++ [255]).
    rewrite app_assoc, be_get_snoc. lia. }
  split; [constructor|constructor]; cbn [e' re_w re_cache re_cacheSize re_low re_rrange]; auto; try lia.
  - rewrite HN, Z.pow_add_r by lia. lia.
  - unfold K; cbn [e' re_w re_cacheSize]. lia.
Qed.

Lemma shiftLow_spec n e r :
  enc_inv (S n) e r -> r <= 2 ^ 24 ->
  enc_inv n (shiftLow e) (256 * r) /\ shifted e (shiftLow e).
Proof.
  intros H Hr24. destruct (decide (lowHi e <> 0 \/ re_low e < 0xFF000000)) as [Hc|Hc]; [by apply shiftLow_emits|].
  destruct (lowHi_cases _ _ _ H); [apply shiftLow_holds; auto; lia|exfalso; apply Hc; lia].
Qed.

(** ** Encoder and decoder in step *)

Definition enc_ok (n : nat) (e : rangeEncoder) : Prop :=
  enc_inv n e (re_rrange e) /\ 2 ^ 24 <= re_rrange e < 2 ^ 32.

(** The stream [B] is one the encoder state [e] can still lead to. *)
Definition target (B : list Z) (e : rangeEncoder) : Prop :=
  bytes_ok B /\ (K e + 4 <= length B)%nat /\
  N e <= be_get (take (K e + 4) B) < N e + re_rrange e.

(** The decoder has read what the encoder has committed, and its code is the offset of
    the stream in the encoder's interval. *)
Definition sync (B : list Z) (e : rangeEncoder) (d : rangeDecoder) : Prop :=
  rd_rrange d = re_rrange e /\ rd_r d = drop (K e + 4) B /\
  rd_code d = be_get (take (K e + 4) B) - N e.

Definition grows (j : nat) (e e' : rangeEncoder) : Prop :=
  K e' = (K e + j)%nat /\ N e' = 256 ^ Z.of_nat j * N e /\
  re_rrange e' = 256 ^ Z.of_nat j * re_rrange e.

Lemma re_normalize_spec n e :
  enc_inv (S n) e (re_rrange e) -> 2 ^ 16 <= re_rrange e < 2 ^ 32 ->
  enc_ok n (re_normalize e) /\
  grows (if re_rrange e <? kTopValue then 1 else 0) e (re_normalize e).
Proof.
  intros H Hr. unfold re_normalize. change kTopValue with (2 ^ 24).
  destruct (Z.ltb_spec (re_rrange e) (2 ^ 24)) as [Hlt|Hge].
  - assert (u32 (Z.shiftl (re_rrange e) 8) = 256 * re_rrange e) as ->.
    { rewrite Z.shiftl_mul_pow2 by lia. rewrite wrap_id; lia. }
    set (e1 := mkRE _ _ _ _ _ _).
    assert (enc_inv (S n) e1 (re_rrange e)) as H1 by (destruct H; by constructor).
    destruct (shiftLow_spec _ _ _ H1 ltac:(lia)) as [H2 [HN HK _ Hrr]].
    change (re_rrange e1) with (256 * re_rrange e) in Hrr.
    split; [split; rewrite Hrr; [done|lia]|].
    split_and!; [rewrite HK; change (K e1) with (K e); lia | rewrite HN; done | rewrite Hrr; lia].
  - split; [split; [|lia]|].
    + destruct H. constructor; auto. lia.
    + unfold grows. change (256 ^ Z.of_nat 0) with 1. split_and!; lia.
Qed.

Lemma take_grow B k : (k < length B)%nat -> bytes_ok B ->
  exists c, drop k B = c :: drop (S k) B /\ byte_ok c /\
    be_get (take (S k) B) = 256 * be_get (take k B) + c.
Proof.
  intros Hk HB. destruct (lookup_lt_is_Some_2 B k Hk) as [c Hc]. exists c. split_and!.
  - by apply drop_S.
  - by eapply Forall_lookup_1.
  - by apply be_get_take_S.
Qed.

Lemma target_normalize n B e :
  enc_inv (S n) e (re_rrange e) -> 2 ^ 16 <= re_rrange e < 2 ^ 32 ->
  target B (re_normalize e) -> target B e.
Proof.
  intros H Hr (HB & Hl & Ht). destruct (re_normalize_spec n e H Hr) as [_ (HK & HN & HR)].
  rewrite HK, HN, HR in *. destruct (re_rrange e <? kTopValue); cbn [Z.of_nat] in *.
  - change (256 ^ Z.pos _) with 256 in *.
    destruct (take_grow B (K e + 4) ltac:(lia) HB) as (c & _ & Hc & Hv).
    replace (K e + 1 + 4)%nat with (S (K e + 4)) in * by lia. rewrite Hv in Ht.
    unfold byte_ok in Hc. split_and!; [done|lia|lia|lia].
  - rewrite Nat.add_0_r in *. change (256 ^ 0) with 1 in *. split_and!; [done|lia|lia|lia].
Qed.

Lemma lor_byte x b : 0 <= x -> byte_ok b -> Z.lor (256 * x) b = 256 * x + b.
Proof.
  intros Hx Hb. unfold byte_ok in Hb. rewrite <- Z.add_lor_land.
  enough (Z.land (256 * x) b = 0) by lia.
  apply Z.bits_inj'. intros n Hn. rewrite Z.land_spec, Z.bits_0.
  destruct (Z.lt_ge_cases n 8).
  - replace (256 * x) with (x * 2 ^ 8) by lia. rewrite Z.mul_pow2_bits_low; auto.
  - assert (Z.testbit b n = false) as ->; [|apply andb_false_r].
    destruct (Z.eq_dec b 0) as [->|]; [apply Z.bits_0|].
    apply Z.bits_above_log2; [lia|]. enough (Z.log2 b < 8) by lia.
    apply Z.log2_lt_pow2; lia.
Qed.

Lemma sync_normalize n B e d :
  enc_inv (S n) e (re_rrange e) -> 2 ^ 16 <= re_rrange e < 2 ^ 32 ->
  target B (re_normalize e) -> sync B e d ->
  exists d', rd_normalize d = Ret d' /\ sync B (re_normalize e) d'.
Proof.
  intros H Hr Ht (Sr & Si & Sc). pose proof (target_normalize _ _ _ H Hr Ht) as (_ & _ & Ht0).
  destruct Ht as (HB & Hl & Ht). destruct (re_normalize_spec n e H Hr) as [_ (HK & HN & HR)].
  unfold rd_normalize, sync. rewrite Sr, HR, HN, HK in *.
  destruct (Z.ltb_spec (re_rrange e) kTopValue) as [Hlt|Hge].
  - change (256 ^ Z.of_nat 1) with 256 in *. change kTopValue with (2 ^ 24) in Hlt.
    destruct (take_grow B (K e + 4) ltac:(lia) HB) as (c & Hd & Hc & Hv).
    rewrite Si, Hd. eexists; split; [done|]; cbn [rd_r rd_rrange rd_code].
    replace (K e + 1 + 4)%nat with (S (K e + 4)) by lia. split_and!; [|done|].
    + rewrite Z.shiftl_mul_pow2, wrap_id by lia. lia.
    + rewrite Z.shiftl_mul_pow2, wrap_id by lia.
      replace (rd_code d * 2 ^ 8) with (256 * rd_code d) by lia.
      rewrite lor_byte by (done || lia). lia.
  - eexists; split; [done|]. rewrite !Nat.add_0_r. change (256 ^ Z.of_nat 0) with 1.
    split_and!; [lia|done|lia].
Qed.

(** ** Probabilities *)

Definition prob_ok (p : Z) : Prop := 31 <= p <= 2017.
Definition probs_ok (ps : list Z) : Prop := Forall prob_ok ps.

(** The adaptive update after coding bit [b]. *)
Definition prob_update (b p : Z) : Z :=
  if b =? 0 then u16 (p + Z.shiftr (u16 (kBitModelTotal - p)) kNumMoveBits)
  else u16 (p - Z.shiftr p kNumMoveBits).

Lemma prob_update_ok b p : prob_ok p -> prob_ok (prob_update b p).
Proof.
  unfold prob_ok, prob_update. intros H.
  change kBitModelTotal with 2048. change kNumMoveBits with 5.
  destruct (b =? 0).
  - rewrite (wrap_id 16 (2048 - p)) by lia. rewrite Z.shiftr_div_pow2 by lia.
    pose proof (Z.div_mod (2048 - p) (2 ^ 5) ltac:(lia)).
    pose proof (Z.mod_pos_bound (2048 - p) (2 ^ 5) ltac:(lia)).
    rewrite wrap_id; lia.
  - rewrite Z.shiftr_div_pow2 by lia.
    pose proof (Z.div_mod p (2 ^ 5) ltac:(lia)).
    pose proof (Z.mod_pos_bound p (2 ^ 5) ltac:(lia)).
    rewrite wrap_id; lia.
Qed.

Lemma probs_ok_update b i p ps :
  probs_ok ps -> prob_ok p -> probs_ok (<[i := prob_update b p]> ps).
Proof. intros. apply Forall_insert; [done|]. by apply prob_update_ok. Qed.

Lemma initBitModels_ok n : probs_ok (initBitModels n).
Proof. apply Forall_replicate. unfold prob_ok. zground. Qed.

Definition newBound (R p : Z) : Z := u32 (Z.shiftr R kNumBitModelTotalBits * p).

(** Both halves of a split interval keep at least 2^16, so that one byte of
    normalisation brings the range back above kTopValue. *)
Lemma newBound_bounds R p :
  2 ^ 24 <= R < 2 ^ 32 -> prob_ok p ->
  2 ^ 16 <= newBound R p /\ newBound R p + 2 ^ 16 <= R.
Proof.
  intros HR Hp. unfold newBound, prob_ok in *. change kNumBitModelTotalBits with 11.
  rewrite Z.shiftr_div_pow2 by lia.
  pose proof (Z.div_mod R (2 ^ 11) ltac:(lia)).
  pose proof (Z.mod_pos_bound R (2 ^ 11) ltac:(lia)).
  assert (2 ^ 13 <= R / 2 ^ 11) by (apply Z.div_le_lower_bound; lia).
  rewrite wrap_id; nia.
Qed.

(** ** The codec relation

    [codes c E D t x t']: run from any encoder state with budget, the encoder program
    [E] turns tables [t] into [t'], and on every stream its result can lead to, the
    decoder program [D] started in step with the encoder returns [x], makes the same
    change to the tables and ends in step.  [c] bounds the shiftLow calls. *)
Definition codes {T X} (c : nat)
    (E : T -> rangeEncoder -> outcome lzma_error (T * rangeEncoder))
    (D : T -> rangeDecoder -> outcome lzma_error (X * T * rangeDecoder))
    (t : T) (x : X) (t' : T) : Prop :=
  forall n e, enc_ok (c + n) e ->
  exists e', E t e = Ret (t', e') /\ enc_ok n e' /\
    forall B, target B e' -> target B e /\
      forall d, sync B e d ->
      exists d', D t d = Ret (x, t', d') /\ sync B e' d'.

(** Extensional rewriting of the two programs. *)
Lemma codes_ext {T X} c E E' D D' (t : T) (x : X) t' :
  (forall e, E t e = E' t e) -> (forall d, D t d = D' t d) ->
  codes c E D t x t' -> codes c E' D' t x t'.
Proof.
  intros HE HD H n e He. destruct (H n e He) as (e' & H1 & H2 & H3).
  exists e'. rewrite <- HE. split_and!; auto. intros B HB.
  destruct (H3 B HB) as [H4 H5]. split; [done|]. intros d Hd. rewrite <- HD. auto.
Qed.

Lemma codes_ret {T X} (t : T) (x : X) :
  codes 0 (fun t e => Ret (t, e)) (fun t d => Ret (x, t, d)) t x t.
Proof. intros n e He. exists e. split_and!; auto. intros B HB. split; eauto. Qed.

Lemma codes_bind {T X Y} c1 c2 (E1 : T -> rangeEncoder -> outcome _ _) D1 E2
    (D2 : X -> T -> rangeDecoder -> outcome _ (Y * T * rangeDecoder)) (t t1 t2 : T) x y :
  codes c1 E1 D1 t x t1 -> codes c2 E2 (D2 x) t1 y t2 ->
  codes (c1 + c2) (fun t e => '(t, e) ← E1 t e; E2 t e)
    (fun t d => '(x, t, d) ← D1 t d; D2 x t d) t y t2.
Proof.
  intros H1 H2 n e He. rewrite <- Nat.add_assoc in He.
  destruct (H1 _ e He) as (e1 & HE1 & He1 & HB1).
  destruct (H2 _ e1 He1) as (e2 & HE2 & He2 & HB2).
  exists e2. rewrite HE1. cbn. split_and!; auto. intros B HB.
  destruct (HB2 B HB) as [Ht1 Hd2]. destruct (HB1 B Ht1) as [Ht0 Hd1]. split; [done|].
  intros d Hd. destruct (Hd1 d Hd) as (d1 & HD1 & Hs1).
  destruct (Hd2 d1 Hs1) as (d2 & HD2 & Hs2). exists d2. rewrite HD1. cbn. auto.
Qed.

(** A pure result map after decoding. *)
Lemma codes_map {T X Y} c (E : T -> rangeEncoder -> outcome _ _) D (f : X -> Y) (t t' : T) x :
  codes c E D t x t' ->
  codes c E (fun t d => '(x, t, d) ← D t d; Ret (f x, t, d)) t (f x) t'.
Proof.
  intros H n e He. destruct (H n e He) as (e' & H1 & H2 & H3). exists e'.
  split_and!; auto. intros B HB. destruct (H3 B HB) as [H4 H5]. split; [done|].
  intros d Hd. destruct (H5 d Hd) as (d' & -> & Hs). exists d'. auto.
Qed.

(** One adaptive bit. *)
(** The interval of a coded bit: the part below the bound for 0, above it for 1. *)
Definition coded (e : rangeEncoder) (nb b : Z) : rangeEncoder :=
  if b =? 0 then mkRE (re_w e) (re_low e) (re_pos e) (re_cacheSize e) (re_cache e) nb
  else mkRE (re_w e) (u64 (re_low e + nb)) (re_pos e) (re_cacheSize e) (re_cache e) (u32 (re_rrange e - nb)).

Lemma coded_spec n e nb b : enc_inv (S n) e (re_rrange e) -> 2 ^ 24 <= re_rrange e < 2 ^ 32 ->
  2 ^ 16 <= nb -> 2 ^ 16 <= re_rrange e - nb -> b = 0 \/ b = 1 ->
  enc_inv (S n) (coded e nb b) (re_rrange (coded e nb b)) /\ 2 ^ 16 <= re_rrange (coded e nb b) < 2 ^ 32 /\
  K (coded e nb b) = K e /\ N (coded e nb b) = N e + b * nb /\
  re_rrange (coded e nb b) = if b =? 0 then nb else re_rrange e - nb.
Proof.
  intros He HR HB1 HB2 Hb. destruct He as [Hw Hc Hcs Hcsn Hl Hr Hlr Hf]. unfold coded, N, K, pending in *.
  destruct Hb as [-> | ->]; cbn [Z.eqb re_w re_low re_cacheSize re_cache re_rrange].
  - rewrite Z.add_0_r. split_and!; auto; try lia.
    constructor; unfold N, pending; cbn [re_w re_low re_cacheSize re_cache re_rrange]; auto; lia.
  - rewrite !wrap_id by lia. split_and!; auto; try lia.
    constructor; unfold N, pending; cbn [re_w re_low re_cacheSize re_cache re_rrange]; auto; lia.
Qed.

Lemma codes_bit ps i p b :
  ps !! Z.to_nat i = Some p -> prob_ok p -> b = 0 \/ b = 1 ->
  codes 1 (fun ps e => encode ps i b e) (fun ps d => decodeBit ps i d) ps b
    (<[Z.to_nat i := prob_update b p]> ps).
Proof.
  intros Hp Hok Hb n e [He HR].
  pose proof (newBound_bounds _ _ HR Hok) as [HB1 HB2].
  set (nb := newBound (re_rrange e) p) in *.
  pose proof (coded_spec _ e nb b He HR ltac:(lia) ltac:(lia) Hb) as He1. set (e1 := coded e nb b) in *.
  destruct He1 as (He1 & HR1 & HK1 & HN1 & Hrr).
  destruct (re_normalize_spec n e1 He1 HR1) as [Hok1 _].
  exists (re_normalize e1). split_and!; [|done|].
  { unfold encode. rewrite Hp. fold (newBound (re_rrange e) p). fold nb.
    unfold prob_update, e1, coded. by destruct Hb as [-> | ->]. }
  intros B HB. pose proof (target_normalize _ _ _ He1 HR1 HB) as Ht1.
  assert (Ht : target B e).
  { destruct Ht1 as (HBok & HlB & Hv). rewrite HK1, HN1, Hrr in *.
    split_and!; auto; destruct Hb as [-> | ->]; cbn [Z.eqb] in *; lia. }
  split; [done|]. intros d (Sr & Si & Sc).
  assert (Hsync1 : forall d1, rd_rrange d1 = re_rrange e1 -> rd_r d1 = rd_r d ->
            rd_code d1 = rd_code d - b * nb -> sync B e1 d1).
  { intros d1 D1 D2 D3. unfold sync. rewrite D1, D2, D3, HK1, HN1. split_and!; auto. lia. }
  unfold decodeBit. rewrite Hp, Sr. fold (newBound (re_rrange e) p). fold nb.
  destruct Ht1 as (_ & _ & Hv). rewrite HK1, HN1, Hrr in Hv.
  destruct Hb as [-> | ->]; cbn [Z.eqb] in *.
  - destruct (Z.ltb_spec (rd_code d) nb); [|lia].
    destruct (sync_normalize _ B e1 (mkRD (rd_r d) nb (rd_code d)) He1 HR1 HB)
      as (d' & -> & Hs'); [apply Hsync1; cbn; auto; lia|].
    exists d'. cbn. auto.
  - destruct (Z.ltb_spec (rd_code d) nb); [lia|].
    rewrite !(wrap_id 32) by lia.
    destruct (sync_normalize _ B e1 (mkRD (rd_r d) (re_rrange e - nb) (rd_code d - nb)) He1 HR1 HB)
      as (d' & -> & Hs'); [apply Hsync1; cbn; auto; lia|].
    exists d'. cbn. auto.
Qed.

(** ** Direct bits *)

Lemma lor_bit x b : 0 <= x -> b = 0 \/ b = 1 -> Z.lor (2 * x) b = 2 * x + b.
Proof. intros Hx [-> | ->]; [rewrite Z.lor_0_r; lia|]. by destruct x as [|q|q]; [| |lia]. Qed.

(** Bits [n-1 .. 0] of [v], most significant first, with [res] already read. *)
Lemma decode_direct_step rd rrange code b res :
  0 <= rrange <= 2 ^ 31 -> 0 <= rd_code rd < 2 ^ 32 ->
  (b = 0 /\ rd_code rd < rrange \/ b = 1 /\ rrange <= rd_code rd < 2 * rrange) ->
  0 <= res < 2 ^ 31 ->
  let t := Z.shiftr (u32 (rd_code rd - rrange)) 31 in
  code = u32 (rd_code rd - Z.land rrange (u32 (t - 1))) ->
  code = rd_code rd - b * rrange /\ Z.lor (u32 (Z.shiftl res 1)) (u32 (1 - t)) = 2 * res + b.
Proof.
  intros Hr Hc Hb Hres t ->.
  assert (t = 1 - b) as ->.
  { unfold t. rewrite Z.shiftr_div_pow2 by lia. destruct Hb as [[-> H]|[-> H]].
    - unfold wrap. replace (rd_code rd - rrange) with (rd_code rd - rrange + 2 ^ 32 + (-1) * 2 ^ 32) by lia.
      rewrite Z.mod_add, Z.mod_small by lia. symmetry. apply (Z.div_unique_pos _ _ _ (rd_code rd - rrange + 2 ^ 31)); lia.
    - rewrite wrap_id by lia. apply Z.div_small. lia. }
  rewrite Z.shiftl_mul_pow2 by lia. rewrite (wrap_id 32 (res * 2 ^ 1)) by lia.
  destruct Hb as [[-> H]|[-> H]].
  - change (u32 (1 - 0 - 1)) with 0. rewrite Z.land_0_r, wrap_id by lia.
    change (u32 (1 - (1 - 0))) with 0. rewrite Z.lor_0_r. lia.
  - change (u32 (1 - 1 - 1)) with (Z.ones 32). rewrite Z.land_ones, Z.mod_small by lia.
    rewrite wrap_id by lia. split; [lia|].
    change (u32 (1 - (1 - 1))) with 1. replace (res * 2 ^ 1) with (2 * res) by lia.
    apply lor_bit; lia.
Qed.

Lemma re_rrange_half R : 2 ^ 24 <= R < 2 ^ 32 ->
  let h := Z.shiftr R 1 in 2 ^ 23 <= h < 2 ^ 31 /\ 2 * h <= R <= 2 * h + 1.
Proof.
  intros HR h. unfold h. rewrite Z.shiftr_div_pow2 by lia.
  pose proof (Z.div_mod R (2 ^ 1) ltac:(lia)).
  pose proof (Z.mod_pos_bound R (2 ^ 1) ltac:(lia)). lia.
Qed.

Lemma land_1 x : Z.land x 1 = x mod 2.
Proof. apply (Z.land_ones x 1). lia. Qed.

Lemma land_1_cases x : Z.land x 1 = 0 \/ Z.land x 1 = 1.
Proof. rewrite land_1. pose proof (Z.mod_pos_bound x 2 ltac:(lia)). lia. Qed.

(** The interval of a direct bit: the lower or the upper half. *)
Definition halved (e : rangeEncoder) (b : Z) : rangeEncoder :=
  mkRE (re_w e) (re_low e + b * Z.shiftr (re_rrange e) 1) (re_pos e) (re_cacheSize e) (re_cache e) (Z.shiftr (re_rrange e) 1).

Lemma halved_spec n e b : enc_inv n e (re_rrange e) -> 2 ^ 24 <= re_rrange e < 2 ^ 32 -> b = 0 \/ b = 1 ->
  enc_inv n (halved e b) (re_rrange (halved e b)) /\ N (halved e b) = N e + b * Z.shiftr (re_rrange e) 1.
Proof.
  intros [Hw Hc Hcs Hcsn Hl Hr Hlr Hf] HR Hb. pose proof (re_rrange_half _ HR) as [Hh1 Hh2].
  unfold N, pending, halved in *. set (h := Z.shiftr (re_rrange e) 1) in *. split; [|cbn; lia].
  constructor; unfold N, pending; cbn [re_w re_low re_cacheSize re_cache re_rrange]; auto; destruct Hb as [-> | ->]; lia.
Qed.

(** The lowest m + 1 bits are bit m followed by the lowest m. *)
Lemma bits_succ v m : 0 <= m ->
  v mod (2 * 2 ^ m) = Z.land (Z.shiftr v m) 1 * 2 ^ m + v mod 2 ^ m.
Proof.
  intros Hm. assert (0 < 2 ^ m) by (apply Z.pow_pos_nonneg; lia).
  replace (2 * 2 ^ m) with (2 ^ m * 2) by lia. rewrite Z.rem_mul_r by lia. rewrite <- Z.shiftr_div_pow2 by lia.
  rewrite land_1. lia.
Qed.

Lemma codes_direct_loop m v res :
  0 <= res -> (res + 1) * 2 ^ Z.of_nat m <= 2 ^ 32 ->
  codes m (fun (_ : unit) e => Ret (tt, encodeDirectBits_loop m v e))
    (fun _ d => '(x, d) ← decodeDirectBits_loop m d res; Ret (x, tt, d)) tt
    (res * 2 ^ Z.of_nat m + v mod 2 ^ Z.of_nat m) tt.
Proof.
  revert res. induction m as [|m IH]; intros res Hres Hm.
  { change (2 ^ Z.of_nat 0) with 1. rewrite Z.mod_1_r, Z.mul_1_r, Z.add_0_r.
    apply (codes_ret tt res). }
  intros n e [He HR].
  rewrite Nat2Z.inj_succ, Z.pow_succ_r in Hm |- * by lia.
  assert (0 < 2 ^ Z.of_nat m) as Hpm by (apply Z.pow_pos_nonneg; lia).
  pose proof (re_rrange_half _ HR) as [Hh1 Hh2]. set (h := Z.shiftr (re_rrange e) 1) in *.
  set (b := Z.land (Z.shiftr v (Z.of_nat m)) 1).
  assert (Hb : b = 0 \/ b = 1) by apply land_1_cases.
  pose proof (halved_spec _ e b He HR Hb) as He1. set (e1 := halved e b) in *.
  destruct He1 as [He1 HN1].
  assert (HR1 : 2 ^ 16 <= re_rrange e1 < 2 ^ 32) by (cbn; lia).
  assert (Hstep : encodeDirectBits_loop (S m) v e = encodeDirectBits_loop m v (re_normalize e1)).
  { cbn [encodeDirectBits_loop]. fold h. fold b. unfold e1, halved. do 3 f_equal.
    destruct He as [Hw Hc Hcs Hcsn Hl Hr Hlr Hf].
    destruct Hb as [-> | ->]; cbn [Z.eqb Pos.eqb]; [lia|].
    unfold wrap. rewrite Z.mod_small by lia. lia. }
  destruct (re_normalize_spec _ e1 He1 HR1) as [Hok1 _].
  destruct (IH (2 * res + b) ltac:(lia) ltac:(nia) n _ Hok1) as (e2 & HE2 & Hok2 & HB2).
  exists e2. rewrite Hstep. split_and!; [done|done|]. intros B HB.
  destruct (HB2 B HB) as [Ht1 Hd2].
  pose proof (target_normalize _ _ _ He1 HR1 Ht1) as (HBok & HlB & Hv).
  change (K e1) with (K e) in *. rewrite HN1 in Hv. change (re_rrange e1) with h in Hv.
  assert (Ht : target B e) by (split_and!; auto; destruct Hb as [-> | ->]; lia).
  split; [done|]. intros d (Sr & Si & Sc). cbn [decodeDirectBits_loop]. rewrite Sr. fold h.
  assert (Hcase : b = 0 /\ 0 <= rd_code d < h \/ b = 1 /\ h <= rd_code d < 2 * h)
    by (destruct Hb as [-> | ->]; lia).
  assert (Hres31 : 0 <= res < 2 ^ 31) by nia.
  assert (Hc32 : 0 <= rd_code d < 2 ^ 32) by (destruct Hcase as [[_ ?]|[_ ?]]; lia).
  destruct (decode_direct_step d h _ b res ltac:(lia) Hc32 ltac:(tauto) Hres31 eq_refl)
    as [Hcode Hbit].
  rewrite Hcode, Hbit.
  destruct (sync_normalize _ B e1 (mkRD (rd_r d) h (rd_code d - b * h)) He1 HR1 Ht1)
    as (d1 & Hd1 & Hs1).
  { unfold sync; cbn [rd_r rd_rrange rd_code]. change (K e1) with (K e). rewrite HN1.
    split_and!; auto. lia. }
  destruct (Hd2 d1 Hs1) as (d2 & Hd2' & Hs2). exists d2. rewrite Hd1. cbn. cbn in Hd2'.
  split; [|done]. rewrite Hd2'. do 3 f_equal.
  rewrite bits_succ by lia. fold b. lia.
Qed.

Lemma codes_direct v n :
  0 <= n <= 32 -> 0 <= v < 2 ^ n ->
  codes (Z.to_nat n) (fun (_ : unit) e => Ret (tt, encodeDirectBits v n e))
    (fun _ d => '(x, d) ← decodeDirectBits d n; Ret (x, tt, d)) tt v tt.
Proof.
  intros Hn Hv. pose proof (codes_direct_loop (Z.to_nat n) v 0) as H.
  rewrite Z2Nat.id, Z.mul_0_l, Z.add_0_l, Z.mod_small in H by lia.
  apply H; [lia|]. rewrite Z.mul_1_l. apply Z.pow_le_mono_r; lia.
Qed.

(** ** Whole streams *)

Lemma shifted_low_mod j e e' : 0 <= j <= 3 ->
  shifted e e' -> re_low e = 2 ^ (8 * j) * (re_low e / 2 ^ (8 * j)) ->
  re_low e' = 2 ^ (8 * (j + 1)) * (re_low e / 2 ^ (8 * j) mod 2 ^ (24 - 8 * j)).
Proof.
  intros Hj [_ _ Hl _] Hd. rewrite Hl, Hd at 1.
  replace (2 ^ 24) with (2 ^ (8 * j) * 2 ^ (24 - 8 * j))
    by (rewrite <- Z.pow_add_r by lia; f_equal; lia).
  rewrite Zmult_mod_distr_l.
  replace (8 * (j + 1)) with (8 * j + 8) by lia. rewrite Z.pow_add_r by lia. lia.
Qed.

Lemma div_exact_pow a x : 0 <= a -> 2 ^ a * x = 2 ^ a * (2 ^ a * x / 2 ^ a).
Proof. intros. f_equal. symmetry. rewrite Z.mul_comm. apply Z.div_mul. lia. Qed.

(** flush leaves exactly the bytes of the lower end of the interval. *)
Lemma flush_spec n e r :
  enc_inv (5 + n) e r ->
  bytes_ok (re_w (flush e)) /\ length (re_w (flush e)) = (K e + 4)%nat /\
  be_get (re_w (flush e)) = N e.
Proof.
  intros H0. apply enc_inv_shrink with (r' := 1) in H0; [|destruct H0; lia].
  assert (Hstep : forall m e, enc_inv (S m) e 1 ->
            enc_inv m (shiftLow e) 1 /\ shifted e (shiftLow e)).
  { intros m e0 He0. destruct (shiftLow_spec _ _ _ He0 ltac:(lia)) as [H1 H2].
    split; [|done]. eapply enc_inv_shrink; [done|lia]. }
  change (flush e) with (shiftLow (shiftLow (shiftLow (shiftLow (shiftLow e))))).
  destruct (Hstep _ _ H0) as [H1 S1]. set (e1 := shiftLow e) in *.
  destruct (Hstep _ _ H1) as [H2 S2]. set (e2 := shiftLow e1) in *.
  destruct (Hstep _ _ H2) as [H3 S3]. set (e3 := shiftLow e2) in *.
  destruct (Hstep _ _ H3) as [H4 S4]. set (e4 := shiftLow e3) in *.
  destruct (Hstep _ _ H4) as [H5 S5].
  pose proof (shifted_low_mod 0 _ _ ltac:(lia) S1
                ltac:(change (2 ^ (8 * 0)) with 1; rewrite Z.div_1_r; lia)) as L1.
  pose proof (shifted_low_mod 1 _ _ ltac:(lia) S2
                ltac:(rewrite L1; apply div_exact_pow; lia)) as L2.
  pose proof (shifted_low_mod 2 _ _ ltac:(lia) S3
                ltac:(rewrite L2; apply div_exact_pow; lia)) as L3.
  pose proof (shifted_low_mod 3 _ _ ltac:(lia) S4
                ltac:(rewrite L3; apply div_exact_pow; lia)) as L4.
  assert (re_low e4 = 0) as Hz by (rewrite L4; change (2 ^ (24 - 8 * 3)) with 1; rewrite Z.mod_1_r; lia).
  assert (Hl5 : lowHi e4 <> 0 \/ re_low e4 < 0xFF000000) by (right; lia).
  pose proof (shiftLow_emit _ _ _ H4 Hl5) as E5.
  assert (HN5 : N (shiftLow e4) = 256 ^ 5 * N e)
    by (rewrite (sh_N _ _ S5), (sh_N _ _ S4), (sh_N _ _ S3), (sh_N _ _ S2), (sh_N _ _ S1); lia).
  assert (HK5 : K (shiftLow e4) = (K e + 5)%nat)
    by (rewrite (sh_K _ _ S5), (sh_K _ _ S4), (sh_K _ _ S3), (sh_K _ _ S2), (sh_K _ _ S1); lia).
  split; [by destruct H5|].
  assert (Hcs : re_cacheSize (shiftLow e4) = 1) by (by rewrite E5).
  assert (Hca : re_cache (shiftLow e4) = 0) by (rewrite E5; cbn [re_cache]; by rewrite Hz).
  assert (Hlo : re_low (shiftLow e4) = 0) by (rewrite E5; cbn [re_low]; by rewrite Hz).
  unfold K at 1 in HK5. unfold N at 1, pending at 1 in HN5. rewrite Hcs, Hca, Hlo in *.
  change (Z.to_nat (1 - 1)) with O in HN5. cbn [replicate] in HN5.
  rewrite be_get_snoc in HN5. split; lia.
Qed.

Lemma newRangeEncoder_ok n : Z.of_nat n + 1 < 2 ^ 32 -> enc_ok n newRangeEncoder.
Proof.
  intros. split; [|zground]. constructor; cbn [newRangeEncoder re_w re_cache re_cacheSize re_low re_rrange];
    try lia; try done; try (constructor; done).
  all: try (unfold byte_ok; lia). all: try (vm_compute; done).
Qed.

Lemma code_fold l : bytes_ok l -> be_get l < 2 ^ 32 ->
  foldl (fun code b => Z.lor (u32 (Z.shiftl code 8)) b) 0 l = be_get l.
Proof.
  induction l as [|b l IH] using rev_ind; [done|].
  rewrite bytes_ok_app, be_get_snoc, foldl_app. intros [Hl Hb] Hlt.
  apply (Forall_singleton byte_ok b) in Hb. pose proof (be_get_nonneg _ Hl). unfold byte_ok in Hb.
  cbn [foldl]. rewrite IH by (done || lia).
  rewrite Z.shiftl_mul_pow2, wrap_id by lia.
  replace (be_get l * 2 ^ 8) with (256 * be_get l) by lia. apply lor_byte; done.
Qed.

Lemma newRangeDecoder_sync B :
  target B newRangeEncoder ->
  exists d, newRangeDecoder B = Ret d /\ sync B newRangeEncoder d.
Proof.
  intros (HB & HL & Hv). change (K newRangeEncoder + 4)%nat with 5%nat in *.
  change (N newRangeEncoder) with 0 in *.
  change (re_rrange newRangeEncoder) with 0xFFFFFFFF in *.
  unfold newRangeDecoder.
  destruct (Nat.eqb_spec (length B) 0); [lia|]. destruct (Nat.ltb_spec (length B) 5); [lia|].
  eexists. split; [done|]. unfold sync; cbn [rd_r rd_rrange rd_code].
  change (K newRangeEncoder + 4)%nat with 5%nat. change (N newRangeEncoder) with 0.
  split_and!; [done|done|]. rewrite code_fold; [lia| |lia]. by apply Forall_take.
Qed.

(** A codec run from a fresh encoder, flushed, decodes from a fresh decoder, which
    stops exactly where the encoder's output ends. *)
Lemma codes_stream {T X} c (E : T -> rangeEncoder -> outcome _ _) D (t t' : T) (x : X) rest :
  codes c E D t x t' -> Z.of_nat c + 6 < 2 ^ 32 -> bytes_ok rest ->
  exists e', E t newRangeEncoder = Ret (t', e') /\ bytes_ok (re_w (flush e')) /\
  exists d, newRangeDecoder (re_w (flush e') ++ rest) = Ret d /\
  exists d', D t d = Ret (x, t', d') /\ rd_r d' = rest.
Proof.
  intros H Hc Hrest.
  destruct (H 5%nat newRangeEncoder) as (e' & HE & Hok & HB); [apply newRangeEncoder_ok; lia|].
  exists e'. split; [done|].
  destruct Hok as [Hinv HR]. destruct (flush_spec 0 e' _ Hinv) as (Hb & HL & HV).
  split; [done|]. set (B := re_w (flush e') ++ rest).
  assert (Htake : take (K e' + 4) B = re_w (flush e')) by (unfold B; rewrite <- HL; apply take_app_length).
  assert (Ht : target B e').
  { split_and!.
    - unfold B. by apply bytes_ok_app.
    - unfold B. rewrite length_app. lia.
    - rewrite Htake. lia.
    - rewrite Htake. lia. }
  destruct (HB B Ht) as [Ht0 Hd]. destruct (newRangeDecoder_sync B Ht0) as (d & Hnew & Hs).
  exists d. split; [done|]. destruct (Hd d Hs) as (d' & HD & _ & Hr & _).
  exists d'. split; [done|]. rewrite Hr. unfold B. rewrite <- HL. apply drop_app_length.
Qed.

(** ** Safety on arbitrary input

    Nothing is assumed of the stream: a decoder program either returns, with the
    tables and the decoder in range, or throws; it never panics. *)

(** What is left to decode: input bytes first, then range.  Every bit decoded lowers it. *)
Definition rd_measure (d : rangeDecoder) : Z :=
  2 ^ 32 * Z.of_nat (length (rd_r d)) + rd_rrange d.

(** In range, with at most [m] left to decode. *)
Definition dec_ok (m : Z) (d : rangeDecoder) : Prop :=
  2 ^ 24 <= rd_rrange d < 2 ^ 32 /\ 0 <= rd_code d < 2 ^ 32 /\ bytes_ok (rd_r d) /\
  rd_measure d <= m.

Lemma dec_ok_weaken m m' d : dec_ok m d -> m <= m' -> dec_ok m' d.
Proof. intros (? & ? & ? & ?) ?. unfold dec_ok. split_and!; auto; lia. Qed.

(** A table of [L] probabilities, all in the adaptive range. *)
Definition table (L : Z) (ps : list Z) : Prop := Z.of_nat (length ps) = L /\ probs_ok ps.

Definition safe {T X} (P : T -> Prop) (Q : X -> Prop)
    (D : T -> rangeDecoder -> outcome lzma_error (X * T * rangeDecoder)) : Prop :=
  forall m t d, P t -> dec_ok m d ->
  match D t d with
  | Ret (x, t', d') => Q x /\ P t' /\ dec_ok m d'
  | Fail _ => True
  | Panic => False
  end.

Lemma table_lookup L ps i : table L ps -> 0 <= i < L ->
  exists p, ps !! Z.to_nat i = Some p /\ prob_ok p.
Proof.
  intros [HL Hok] Hi. destruct (lookup_lt_is_Some_2 ps (Z.to_nat i)) as [p Hp]; [lia|].
  exists p. split; [done|]. by eapply Forall_lookup_1.
Qed.

Lemma table_update L ps i b p : table L ps -> prob_ok p ->
  table L (<[i := prob_update b p]> ps).
Proof. intros [HL Hok] Hp. split; [by rewrite length_insert | by apply probs_ok_update]. Qed.

Lemma table_init n : 0 <= n -> table n (initBitModels n).
Proof.
  intros. split; [|apply initBitModels_ok]. unfold initBitModels. rewrite length_replicate. lia.
Qed.

Lemma rd_normalize_safe m d :
  2 ^ 16 <= rd_rrange d < 2 ^ 32 -> 0 <= rd_code d < 2 ^ 32 -> bytes_ok (rd_r d) ->
  rd_measure d <= m ->
  match rd_normalize d with Ret d' => dec_ok m d' | Fail _ => True | Panic => False end.
Proof.
  intros HR HC HB HM. unfold rd_normalize. change kTopValue with (2 ^ 24).
  destruct (Z.ltb_spec (rd_rrange d) (2 ^ 24)); [|unfold dec_ok; split_and!; auto; lia].
  unfold rd_measure in HM. destruct (rd_r d) as [|c r]; [done|].
  apply Forall_cons in HB as [Hc Hr]. unfold dec_ok, rd_measure; cbn [rd_r rd_rrange rd_code].
  cbn [length] in HM. rewrite Nat2Z.inj_succ in HM.
  rewrite !Z.shiftl_mul_pow2 by lia. rewrite (wrap_id 32 (rd_rrange d * 2 ^ 8)) by lia.
  split_and!; try done; try lia.
  - apply Z.lor_nonneg. split; [apply wrap_range; lia | apply Hc].
  - assert (u32 (rd_code d * 2 ^ 8) = 256 * (rd_code d mod 2 ^ 24)) as ->.
    { unfold wrap. change (2 ^ 32) with (2 ^ 24 * 2 ^ 8). rewrite Zmult_mod_distr_r. lia. }
    pose proof (Z.mod_pos_bound (rd_code d) (2 ^ 24) ltac:(lia)).
    rewrite lor_byte by (done || lia). unfold byte_ok in Hc. lia.
Qed.

(** A decoded bit uses up some of the stream. *)
Lemma decodeBit_progress L i m ps d : 0 <= i < L -> table L ps -> dec_ok m d ->
  match decodeBit ps i d with
  | Ret (b, ps', d') => (b = 0 \/ b = 1) /\ table L ps' /\ dec_ok (m - 1) d'
  | Fail _ => True
  | Panic => False
  end.
Proof.
  intros Hi Hps (HR & HC & HB & HM). unfold decodeBit. unfold rd_measure in HM.
  destruct (table_lookup _ _ _ Hps Hi) as (p & -> & Hp).
  fold (newBound (rd_rrange d) p). pose proof (newBound_bounds _ _ HR Hp) as [H1 H2].
  set (nb := newBound (rd_rrange d) p) in *.
  destruct (Z.ltb_spec (rd_code d) nb).
  - pose proof (rd_normalize_safe (m - 1) (mkRD (rd_r d) nb (rd_code d)) ltac:(cbn; lia)
                  ltac:(cbn; lia) HB ltac:(unfold rd_measure; cbn [rd_r rd_rrange]; lia)) as Hn.
    destruct (rd_normalize _); cbn; auto.
    split_and!; auto; by apply (table_update _ _ _ 0).
  - rewrite !(wrap_id 32) by lia.
    pose proof (rd_normalize_safe (m - 1) (mkRD (rd_r d) (rd_rrange d - nb) (rd_code d - nb))
                  ltac:(cbn; lia) ltac:(cbn; lia) HB
                  ltac:(unfold rd_measure; cbn [rd_r rd_rrange]; lia)) as Hn.
    destruct (rd_normalize _); cbn; auto.
    split_and!; auto; by apply (table_update _ _ _ 1).
Qed.

Lemma decodeBit_safe_at L i : 0 <= i < L ->
  safe (table L) (fun b => b = 0 \/ b = 1) (fun ps d => decodeBit ps i d).
Proof.
  intros Hi m ps d Hps Hd. pose proof (decodeBit_progress L i m ps d Hi Hps Hd) as H.
  destruct (decodeBit ps i d) as [[[b ps'] d']| |]; auto.
  destruct H as (? & ? & ?). split_and!; auto. eapply dec_ok_weaken; [done|lia].
Qed.

Lemma safe_bind {T X Y} (P : T -> Prop) (Q : X -> Prop) (R : Y -> Prop)
    D1 (D2 : X -> T -> rangeDecoder -> outcome _ (Y * T * rangeDecoder)) :
  safe P Q D1 -> (forall x, Q x -> safe P R (D2 x)) ->
  safe P R (fun t d => '(x, t, d) ← D1 t d; D2 x t d).
Proof.
  intros H1 H2 m t d Ht Hd. specialize (H1 m t d Ht Hd).
  destruct (D1 t d) as [[[x t'] d']| |]; cbn; auto.
  destruct H1 as (HQ & HP & Hd'). by apply H2.
Qed.

Lemma safe_ret {T X} (P : T -> Prop) (Q : X -> Prop) (x : X) :
  Q x -> safe P Q (fun t d => Ret (x, t, d)).
Proof. intros HQ m t d Ht Hd. auto. Qed.

Lemma safe_weaken {T X} (P : T -> Prop) (Q Q' : X -> Prop) D :
  safe P Q D -> (forall x, Q x -> Q' x) -> safe P Q' D.
Proof.
  intros H HQ m t d Ht Hd. specialize (H m t d Ht Hd).
  destruct (D t d) as [[[x t'] d']| |]; auto. naive_solver.
Qed.

Lemma decodeDirectBits_safe {T} (P : T -> Prop) n : 0 <= n <= 32 ->
  safe P (fun v => 0 <= v < 2 ^ n) (fun t d => '(x, d) ← decodeDirectBits d n; Ret (x, t, d)).
Proof.
  intros Hn M t d Ht. unfold decodeDirectBits.
  enough (H : forall m res d, dec_ok M d -> 0 <= res -> (res + 1) * 2 ^ Z.of_nat m <= 2 ^ n ->
    match decodeDirectBits_loop m d res with
    | Ret (x, d') => 0 <= x < 2 ^ n /\ dec_ok M d'
    | Fail _ => True | Panic => False end).
  { intros Hd. specialize (H (Z.to_nat n) 0 d Hd ltac:(lia) ltac:(rewrite Z2Nat.id; lia)).
    destruct (decodeDirectBits_loop _ _ _) as [[x d']| |]; cbn; naive_solver. }
  clear d Ht. induction m as [|m IH]; intros res d Hd Hres Hm; cbn [decodeDirectBits_loop].
  { change (2 ^ Z.of_nat 0) with 1 in Hm. split; [lia|done]. }
  destruct Hd as (HR & HC & HB & HM). unfold rd_measure in HM.
  rewrite Nat2Z.inj_succ, Z.pow_succ_r in Hm by lia.
  assert (0 < 2 ^ Z.of_nat m) by (apply Z.pow_pos_nonneg; lia).
  assert (2 ^ n <= 2 ^ 32) by (apply Z.pow_le_mono_r; lia).
  pose proof (re_rrange_half _ HR) as [Hh Hh2]. set (h := Z.shiftr (rd_rrange d) 1) in *.
  set (tt' := Z.shiftr (u32 (rd_code d - h)) 31).
  assert (Ht01 : tt' = 0 \/ tt' = 1).
  { unfold tt'. rewrite Z.shiftr_div_pow2 by lia. pose proof (wrap_range 32 (rd_code d - h) ltac:(lia)).
    assert (0 <= u32 (rd_code d - h) / 2 ^ 31 < 2); [|lia].
    split; [apply Z.div_pos; lia | apply Z.div_lt_upper_bound; lia]. }
  set (b := u32 (1 - tt')). assert (Hb : b = 0 \/ b = 1) by (unfold b; destruct Ht01 as [-> | ->]; auto).
  assert (Z.lor (u32 (Z.shiftl res 1)) b = 2 * res + b) as ->.
  { rewrite Z.shiftl_mul_pow2, wrap_id by nia. replace (res * 2 ^ 1) with (2 * res) by lia.
    by apply lor_bit. }
  pose proof (rd_normalize_safe M (mkRD (rd_r d) h (u32 (rd_code d - Z.land h (u32 (tt' - 1)))))
                ltac:(cbn [rd_rrange]; lia) ltac:(cbn [rd_code]; apply wrap_range; lia) HB
                ltac:(unfold rd_measure; cbn [rd_r rd_rrange]; lia)) as Hnorm.
  destruct (rd_normalize _) as [d'| |]; cbn; auto.
  apply IH; [done| |]; destruct Hb as [-> | ->]; nia.
Qed.

(** ** Composing codecs over an invariant of the tables *)

(** From any tables satisfying [P], encoding and decoding [x] are inverse and keep [P]. *)
Definition lossless {T X} (P : T -> Prop) (c : nat)
    (E : T -> rangeEncoder -> outcome lzma_error (T * rangeEncoder))
    (D : T -> rangeDecoder -> outcome lzma_error (X * T * rangeDecoder)) (x : X) : Prop :=
  forall t, P t -> exists t', P t' /\ codes c E D t x t'.

Lemma lossless_ret {T X} (P : T -> Prop) (x : X) :
  lossless P 0 (fun t e => Ret (t, e)) (fun t d => Ret (x, t, d)) x.
Proof. intros t Ht. exists t. split; [done|]. apply codes_ret. Qed.

Lemma lossless_bind {T X Y} (P : T -> Prop) c1 c2 E1 D1 E2
    (D2 : X -> T -> rangeDecoder -> outcome _ (Y * T * rangeDecoder)) x y :
  lossless P c1 E1 D1 x -> lossless P c2 E2 (D2 x) y ->
  lossless P (c1 + c2) (fun t e => '(t, e) ← E1 t e; E2 t e)
    (fun t d => '(x, t, d) ← D1 t d; D2 x t d) y.
Proof.
  intros H1 H2 t Ht. destruct (H1 t Ht) as (t1 & Ht1 & C1).
  destruct (H2 t1 Ht1) as (t2 & Ht2 & C2). exists t2. split; [done|].
  by eapply codes_bind.
Qed.

Lemma lossless_ext {T X} (P : T -> Prop) c E E' D D' (x : X) :
  (forall t e, E t e = E' t e) -> (forall t d, D t d = D' t d) ->
  lossless P c E D x -> lossless P c E' D' x.
Proof.
  intros HE HD H t Ht. destruct (H t Ht) as (t' & Ht' & C). exists t'. split; [done|].
  apply (codes_ext c E E' D D'); auto.
Qed.

Lemma lossless_map {T X Y} (P : T -> Prop) c E D (f : X -> Y) x y :
  f x = y -> lossless P c E D x ->
  lossless P c E (fun t d => '(x, t, d) ← D t d; Ret (f x, t, d)) y.
Proof.
  intros <- H t Ht. destruct (H t Ht) as (t' & Ht' & C). exists t'. split; [done|].
  by apply codes_map.
Qed.

(** Running a codec on a component of a larger state. *)
Lemma lossless_lens {S T X} (P : S -> Prop) (Q : T -> Prop) c E D (x : X)
    (get : S -> T) (set : T -> S -> S) :
  (forall s, P s -> Q (get s)) -> (forall s t, P s -> Q t -> P (set t s)) ->
  lossless Q c E D x ->
  lossless P c (fun s e => '(t, e) ← E (get s) e; Ret (set t s, e))
    (fun s d => '(x, t, d) ← D (get s) d; Ret (x, set t s, d)) x.
Proof.
  intros Hg Hs H s Hps. destruct (H (get s) (Hg s Hps)) as (t' & Ht' & C).
  exists (set t' s). split; [auto|]. intros n e He.
  destruct (C n e He) as (e' & HE & Hok & HB). exists e'. rewrite HE. cbn.
  split_and!; auto. intros B HBt. destruct (HB B HBt) as [H1 H2]. split; [done|].
  intros d Hd. destruct (H2 d Hd) as (d' & HD & Hs'). exists d'. by rewrite HD.
Qed.

Lemma safe_lens {S T X} (P : S -> Prop) (Q : T -> Prop) (R : X -> Prop) D
    (get : S -> T) (set : T -> S -> S) :
  (forall s, P s -> Q (get s)) -> (forall s t, P s -> Q t -> P (set t s)) ->
  safe Q R D -> safe P R (fun s d => '(x, t, d) ← D (get s) d; Ret (x, set t s, d)).
Proof.
  intros Hg Hs H m s d Hps Hd. specialize (H m (get s) d (Hg s Hps) Hd).
  destruct (D (get s) d) as [[[x t] d']| |]; cbn; auto. naive_solver.
Qed.

Lemma lossless_bit L i b : 0 <= i < L -> b = 0 \/ b = 1 ->
  lossless (table L) 1 (fun ps e => encode ps i b e) (fun ps d => decodeBit ps i d) b.
Proof.
  intros Hi Hb ps Hps. destruct (table_lookup _ _ _ Hps Hi) as (p & Hp & Hok).
  exists (<[Z.to_nat i := prob_update b p]> ps). split; [by apply table_update|].
  by apply codes_bit.
Qed.

Lemma lossless_direct {T} (P : T -> Prop) v n : 0 <= n <= 32 -> 0 <= v < 2 ^ n ->
  lossless P (Z.to_nat n) (fun t e => Ret (t, encodeDirectBits v n e))
    (fun t d => '(x, d) ← decodeDirectBits d n; Ret (x, t, d)) v.
Proof.
  intros Hn Hv t Ht. exists t. split; [done|]. intros m e He.
  destruct (codes_direct v n Hn Hv m e He) as (e' & HE & Hok & HB).
  exists e'. injection HE as <-. split_and!; auto. intros B HBt.
  destruct (HB B HBt) as [H1 H2]. split; [done|]. intros d Hd.
  destruct (H2 d Hd) as (d' & HD & Hs). exists d'.
  destruct (decodeDirectBits d n) as [[x d1]| |]; cbn in *; simplify_eq. auto.
Qed.

(** The two ways the source appends a bit to an index. *)
Lemma append_bit m b : 0 <= m < 2 ^ 31 -> b = 0 \/ b = 1 ->
  Z.lor (u32 (Z.shiftl m 1)) b = 2 * m + b /\ u32 (u32 (Z.shiftl m 1) + b) = 2 * m + b.
Proof.
  intros Hm Hb. rewrite Z.shiftl_mul_pow2 by lia.
  rewrite (wrap_id 32 (m * 2 ^ 1)) by lia.
  replace (m * 2 ^ 1) with (2 * m) by lia.
  split; [apply lor_bit; [lia|done]|]. apply wrap_id. lia.
Qed.

(** ** Properties *)

(** A request to the coder: one adaptive bit under a context, or [n] direct bits. *)
Inductive rc_op := OpBit (index bit : Z) | OpDirect (v n : Z).

Definition op_ok (L : Z) (o : rc_op) : Prop :=
  match o with
  | OpBit i b => 0 <= i < L /\ (b = 0 \/ b = 1)
  | OpDirect v n => 0 <= n <= 32 /\ 0 <= v < 2 ^ n
  end.
Definition op_value (o : rc_op) : Z := match o with OpBit _ b => b | OpDirect v _ => v end.
Definition op_cost (o : rc_op) : nat :=
  match o with OpBit _ _ => 1%nat | OpDirect _ n => Z.to_nat n end.

Definition op_encode (o : rc_op) (ps : list Z) (e : rangeEncoder) :=
  match o with
  | OpBit i b => encode ps i b e
  | OpDirect v n => Ret (ps, encodeDirectBits v n e)
  end.
Definition op_decode (o : rc_op) (ps : list Z) (d : rangeDecoder) :=
  match o with
  | OpBit i _ => decodeBit ps i d
  | OpDirect _ n => '(x, d) ← decodeDirectBits d n; Ret (x, ps, d)
  end.

Fixpoint run_encode (ops : list rc_op) (ps : list Z) (e : rangeEncoder) :=
  match ops with
  | [] => Ret (ps, e)
  | o :: ops => '(ps, e) ← op_encode o ps e; run_encode ops ps e
  end.
Fixpoint run_decode (ops : list rc_op) (ps : list Z) (d : rangeDecoder)
    : outcome lzma_error (list Z * list Z * rangeDecoder) :=
  match ops with
  | [] => Ret ([], ps, d)
  | o :: ops => '(x, ps, d) ← op_decode o ps d;
                '(xs, ps, d) ← run_decode ops ps d; Ret (x :: xs, ps, d)
  end.

Lemma lossless_op L o : op_ok L o ->
  lossless (table L) (op_cost o) (op_encode o) (op_decode o) (op_value o).
Proof.
  intros Ho. destruct o as [i b|v n]; cbn [op_ok op_cost op_value] in *.
  - destruct Ho. by apply lossless_bit.
  - destruct Ho. by apply lossless_direct.
Qed.

Lemma lossless_run L ops : Forall (op_ok L) ops ->
  lossless (table L) (sum_list_with op_cost ops) (run_encode ops) (run_decode ops)
    (op_value <$> ops).
Proof.
  induction 1 as [|o ops Ho Hops IH]; [apply (lossless_ret _ [])|].
  cbn [run_encode run_decode sum_list_with fmap list_fmap].
  eapply (lossless_bind _ _ _ _ _ _ (fun x t d => '(xs, t, d) ← run_decode ops t d;
                                                  Ret (x :: xs, t, d))).
  - by apply lossless_op.
  - by apply (lossless_map _ _ _ _ (fun xs => op_value o :: xs) (op_value <$> ops)).
Qed.

(** C9: the range coder is lossless.  Any sequence of adaptive bits and direct-bit
    fields, coded from a fresh encoder over a table of adapted probabilities and flushed,
    decodes from a fresh decoder to exactly the coded values with the same final table,
    and the decoder stops at the first byte after the encoder's output. *)
Theorem range_coder_lossless L ps ops rest :
  table L ps -> Forall (op_ok L) ops ->
  Z.of_nat (sum_list_with op_cost ops) + 6 < 2 ^ 32 -> bytes_ok rest ->
  exists ps' e', run_encode ops ps newRangeEncoder = Ret (ps', e') /\
  exists d d', newRangeDecoder (re_w (flush e') ++ rest) = Ret d /\
    run_decode ops ps d = Ret (op_value <$> ops, ps', d') /\ rd_r d' = rest.
Proof.
  intros Hps Hops Hc Hrest. destruct (lossless_run _ _ Hops _ Hps) as (ps' & _ & H).
  destruct (codes_stream _ _ _ _ _ _ rest H Hc Hrest) as (e' & HE & _ & d & Hd & d' & HD & Hr).
  exists ps', e'. split; [done|]. exists d, d'. auto.
Qed.

Lemma range_coder_lossless_witness :
  let ops := [OpBit 0 1; OpBit 1 0; OpDirect 0x3FFFFFF 26; OpBit 0 1; OpDirect 5 3] in
  exists ps' e', run_encode ops (initBitModels 2) newRangeEncoder = Ret (ps', e') /\
  exists d d', newRangeDecoder (re_w (flush e') ++ [1; 2; 3]) = Ret d /\
    run_decode ops (initBitModels 2) d = Ret (op_value <$> ops, ps', d') /\ rd_r d' = [1; 2; 3].
Proof.
  intros ops. apply (range_coder_lossless 2).
  - apply table_init. lia.
  - unfold ops. repeat (apply Forall_cons; split; [cbn; lia|]). constructor.
  - reflexivity.
  - repeat (apply Forall_cons; split; [unfold byte_ok; lia|]). constructor.
Defined.

(** Carries and the deferred 0xFF run.  From any reachable encoder state (its
    interval invariant holds, at most 2^24 of range left), shiftLow scales the coded
    interval by exactly 256 as a big-endian number - the carry reaches the pending
    digits and never a byte already written - and keeps the invariant; the loop that
    drains the run ends by its own test, for every value of the 32-bit counter. *)
Theorem shiftLow_exact n e r :
  enc_inv (S n) e r -> r <= 2 ^ 24 ->
  let e' := shiftLow e in
  enc_inv n e' (256 * r) /\ N e' = 256 * N e /\ K e' = S (K e) /\
  (exists bs, re_w e' = re_w e ++ bs) /\
  fst (shiftLow_loop (Z.to_nat (u32 (re_cacheSize e - 1))) (re_cache e)
         (u32 (Z.shiftr (re_low e) 32)) (re_cacheSize e) (re_w e)) = 0.
Proof.
  intros H Hr e'. destruct (shiftLow_spec _ _ _ H Hr) as [H1 [HN HK _ _]].
  split_and!; auto.
  - unfold e'. destruct (decide (lowHi e <> 0 \/ re_low e < 0xFF000000)) as [Hc|Hc].
    + rewrite (shiftLow_emit _ _ _ H Hc). cbn [re_w]. eauto.
    + destruct (lowHi_cases _ _ _ H); [|exfalso; apply Hc; lia].
      rewrite (shiftLow_hold _ _ _ H) by lia. exists []. by rewrite app_nil_r.
  - destruct H. rewrite wrap_id by lia. by rewrite shiftLow_loop_done by lia.
Qed.

Lemma shiftLow_exact_witness :
  let e := mkRE [] (2 ^ 32 + 5) 0 3 7 (2 ^ 20) in
  enc_inv 5 e (2 ^ 20) /\
  let e' := shiftLow e in
  enc_inv 4 e' (256 * 2 ^ 20) /\ N e' = 256 * N e /\ K e' = S (K e) /\
  (exists bs, re_w e' = re_w e ++ bs) /\
  fst (shiftLow_loop (Z.to_nat (u32 (re_cacheSize e - 1))) (re_cache e)
         (u32 (Z.shiftr (re_low e) 32)) (re_cacheSize e) (re_w e)) = 0.
Proof.
  intros e. assert (H : enc_inv 5 e (2 ^ 20)) by (constructor; first [exact (List.Forall_nil _) | zground]).
  split; [exact H|]. apply (shiftLow_exact 4 e (2 ^ 20) H). zground.
Defined.
