(* ===== verification/LzmaCoders.v ===== *)
(** lzma2/range_bit_tree_coder.go, lzma_len_coder.go, lzma_lit_coder.go: the models
    built on the range coder - bit trees (forward and reverse), length coders and
    literal coders - with, for each, the proof that encode and decode are inverse on
    every state of the tables ([codes]) and that decode is safe on any input ([safe]). *)

From Stdlib Require Import ZArith Lia.
From stdpp Require Import base numbers option list.
From S2P Require Import Prelude RangeCoder.
#[local] Open Scope Z_scope.

(** ** Constants of lzma_decoder.go *)
Definition kNumPosStatesBitsMax := 4.
Definition kNumPosStatesMax := Z.shiftl 1 kNumPosStatesBitsMax.
Definition kNumLowLenBits := 3.
Definition kNumMidLenBits := 3.
Definition kNumHighLenBits := 8.
Definition kNumLowLenSymbols := Z.shiftl 1 kNumLowLenBits.
Definition kNumMidLenSymbols := Z.shiftl 1 kNumMidLenBits.
Definition kNumLenSymbols :=
  kNumLowLenSymbols + kNumMidLenSymbols + Z.shiftl 1 kNumHighLenBits.

(** ** range_bit_tree_coder.go *)

Record rangeBitTreeCoder := mkBT { models : list Z; numBitLevels : Z }.

Definition newRangeBitTreeCoder (numBitLevels : Z) : rangeBitTreeCoder :=
  mkBT (initBitModels (Z.shiftl 1 numBitLevels)) numBitLevels.

(** The loop of decode, bitIndex = [j] .. 1. *)
Fixpoint bt_decode_loop (j : nat) (res : Z) (models : list Z) (rd : rangeDecoder)
    : outcome lzma_error (Z * list Z * rangeDecoder) :=
  match j with
  | O => Ret (res, models, rd)
  | S j' => '(bit, models, rd) ← decodeBit models res rd;
            bt_decode_loop j' (u32 (u32 (Z.shiftl res 1) + bit)) models rd
  end.

Definition bt_decode (rc : rangeBitTreeCoder) (rd : rangeDecoder)
    : outcome lzma_error (Z * rangeBitTreeCoder * rangeDecoder) :=
  '(res, ms, rd) ← bt_decode_loop (Z.to_nat (numBitLevels rc)) 1 (models rc) rd;
  Ret (u32 (res - u32 (Z.shiftl 1 (numBitLevels rc))), mkBT ms (numBitLevels rc), rd).

(** The loop shared by reverseDecode and reverseDecodeIndex: [j] iterations left, [k]
    is bitIndex, the table index is startIndex + index in uint32. *)
Fixpoint reverseDecode_loop (j : nat) (k startIndex index res : Z) (models : list Z)
    (rd : rangeDecoder) : outcome lzma_error (Z * list Z * rangeDecoder) :=
  match j with
  | O => Ret (res, models, rd)
  | S j' => '(bit, models, rd) ← decodeBit models (u32 (startIndex + index)) rd;
            reverseDecode_loop j' (k + 1) startIndex (u32 (u32 (Z.shiftl index 1) + bit))
              (Z.lor res (u32 (Z.shiftl bit k))) models rd
  end.

Definition bt_reverseDecode (rc : rangeBitTreeCoder) (rd : rangeDecoder)
    : outcome lzma_error (Z * rangeBitTreeCoder * rangeDecoder) :=
  '(res, ms, rd) ← reverseDecode_loop (Z.to_nat (numBitLevels rc)) 0 0 1 0 (models rc) rd;
  Ret (res, mkBT ms (numBitLevels rc), rd).

Definition reverseDecodeIndex (models : list Z) (startIndex numBitModels : Z)
    (rd : rangeDecoder) : outcome lzma_error (Z * list Z * rangeDecoder) :=
  reverseDecode_loop (Z.to_nat numBitModels) 0 startIndex 1 0 models rd.

(** The loop of encode: bitIndex = [j'] after the decrement. *)
Fixpoint bt_encode_loop (j : nat) (m symbol : Z) (models : list Z) (re : rangeEncoder)
    : outcome lzma_error (list Z * rangeEncoder) :=
  match j with
  | O => Ret (models, re)
  | S j' => let bit := Z.land (Z.shiftr symbol (Z.of_nat j')) 1 in
            '(models, re) ← encode models m bit re;
            bt_encode_loop j' (Z.lor (u32 (Z.shiftl m 1)) bit) symbol models re
  end.

Definition bt_encode (symbol : Z) (rc : rangeBitTreeCoder) (re : rangeEncoder)
    : outcome lzma_error (rangeBitTreeCoder * rangeEncoder) :=
  '(ms, re) ← bt_encode_loop (Z.to_nat (numBitLevels rc)) 1 symbol (models rc) re;
  Ret (mkBT ms (numBitLevels rc), re).

(** The loop shared by reverseEncode and reverseEncodeIndex. *)
Fixpoint reverseEncode_loop (j : nat) (startIndex m symbol : Z) (models : list Z)
    (re : rangeEncoder) : outcome lzma_error (list Z * rangeEncoder) :=
  match j with
  | O => Ret (models, re)
  | S j' => let bit := Z.land symbol 1 in
            '(models, re) ← encode models (u32 (startIndex + m)) bit re;
            reverseEncode_loop j' startIndex (Z.lor (u32 (Z.shiftl m 1)) bit)
              (Z.shiftr symbol 1) models re
  end.

Definition bt_reverseEncode (symbol : Z) (rc : rangeBitTreeCoder) (re : rangeEncoder)
    : outcome lzma_error (rangeBitTreeCoder * rangeEncoder) :=
  '(ms, re) ← reverseEncode_loop (Z.to_nat (numBitLevels rc)) 0 1 symbol (models rc) re;
  Ret (mkBT ms (numBitLevels rc), re).

Definition reverseEncodeIndex (models : list Z) (startIndex numBitLevels symbol : Z)
    (re : rangeEncoder) : outcome lzma_error (list Z * rangeEncoder) :=
  reverseEncode_loop (Z.to_nat numBitLevels) startIndex 1 symbol models re.

(** ** lzma_len_coder.go *)

(** lowCoder and midCoder have kNumPosStatesMax entries, nil past numPosStates. *)
Record lenCoder := mkLC {
  choice : list Z;
  lowCoder : list (option rangeBitTreeCoder);
  midCoder : list (option rangeBitTreeCoder);
  highCoder : rangeBitTreeCoder
}.

Definition coder_array (numPosStates bits : Z) : list (option rangeBitTreeCoder) :=
  replicate (Z.to_nat numPosStates) (Some (newRangeBitTreeCoder bits)) ++
  replicate (Z.to_nat (kNumPosStatesMax - numPosStates)) None.

Definition newLenCoder (numPosStates : Z) : outcome lzma_error lenCoder :=
  if kNumPosStatesMax <? numPosStates then Panic
  else Ret (mkLC (initBitModels 2) (coder_array numPosStates kNumLowLenBits)
                 (coder_array numPosStates kNumMidLenBits)
                 (newRangeBitTreeCoder kNumHighLenBits)).

(** Method call through coders[i]: an index out of range or a nil entry panics; the
    coder is updated in place. *)
Definition at_coder {X R} (i : Z) (f : rangeBitTreeCoder -> R -> outcome lzma_error (X * rangeBitTreeCoder * R))
    (cs : list (option rangeBitTreeCoder)) (r : R)
    : outcome lzma_error (X * list (option rangeBitTreeCoder) * R) :=
  match cs !! Z.to_nat i with
  | Some (Some c) => '(x, c, r) ← f c r; Ret (x, <[Z.to_nat i := Some c]> cs, r)
  | _ => Panic
  end.

Definition lc_decode (posState : Z) (lc : lenCoder) (rd : rangeDecoder)
    : outcome lzma_error (Z * lenCoder * rangeDecoder) :=
  '(i, ch, rd) ← decodeBit (choice lc) 0 rd;
  let lc := mkLC ch (lowCoder lc) (midCoder lc) (highCoder lc) in
  if i =? 0 then
    '(res, cs, rd) ← at_coder posState bt_decode (lowCoder lc) rd;
    Ret (res, mkLC (choice lc) cs (midCoder lc) (highCoder lc), rd)
  else
    '(j, ch, rd) ← decodeBit (choice lc) 1 rd;
    let lc := mkLC ch (lowCoder lc) (midCoder lc) (highCoder lc) in
    if j =? 0 then
      '(k, cs, rd) ← at_coder posState bt_decode (midCoder lc) rd;
      Ret (u32 (kNumLowLenSymbols + k), mkLC (choice lc) (lowCoder lc) cs (highCoder lc), rd)
    else
      '(l, hc, rd) ← bt_decode (highCoder lc) rd;
      Ret (u32 (kNumLowLenSymbols + kNumMidLenSymbols + l),
           mkLC (choice lc) (lowCoder lc) (midCoder lc) hc, rd).

Definition unit_result {T R} (o : outcome lzma_error (T * R)) : outcome lzma_error (unit * T * R) :=
  '(t, r) ← o; Ret (tt, t, r).

Definition lc_encode (symbol posState : Z) (lc : lenCoder) (re : rangeEncoder)
    : outcome lzma_error (lenCoder * rangeEncoder) :=
  if symbol <? kNumLowLenSymbols then
    '(ch, re) ← encode (choice lc) 0 0 re;
    '(_, cs, re) ← at_coder posState (fun c r => unit_result (bt_encode symbol c r)) (lowCoder lc) re;
    Ret (mkLC ch cs (midCoder lc) (highCoder lc), re)
  else
    let symbol := u32 (symbol - kNumLowLenSymbols) in
    '(ch, re) ← encode (choice lc) 0 1 re;
    if symbol <? kNumMidLenSymbols then
      '(ch, re) ← encode ch 1 0 re;
      '(_, cs, re) ← at_coder posState (fun c r => unit_result (bt_encode symbol c r)) (midCoder lc) re;
      Ret (mkLC ch (lowCoder lc) cs (highCoder lc), re)
    else
      '(ch, re) ← encode ch 1 1 re;
      '(hc, re) ← bt_encode (u32 (symbol - kNumMidLenSymbols)) (highCoder lc) re;
      Ret (mkLC ch (lowCoder lc) (midCoder lc) hc, re).

(** ** lzma_lit_coder.go *)

(** A litSubCoder is its []uint16 table. *)
Definition newLitSubCoder : list Z := initBitModels 0x300.

(** The loop [for symbol < 0x100]: [fuel] 8 is enough, symbol doubles from 1. *)
Fixpoint decodeNormal_loop (fuel : nat) (symbol : Z) (coders : list Z) (rd : rangeDecoder)
    : outcome lzma_error (Z * list Z * rangeDecoder) :=
  if symbol <? 0x100 then
    match fuel with
    | O => Panic
    | S f => '(i, coders, rd) ← decodeBit coders symbol rd;
             decodeNormal_loop f (Z.lor (u32 (Z.shiftl symbol 1)) i) coders rd
    end
  else Ret (symbol, coders, rd).

Definition decodeNormal (coders : list Z) (rd : rangeDecoder)
    : outcome lzma_error (Z * list Z * rangeDecoder) :=
  '(symbol, coders, rd) ← decodeNormal_loop 8 1 coders rd; Ret (u8 symbol, coders, rd).

(** The outer loop; on the first bit that differs the inner loop finishes the symbol. *)
Fixpoint decodeMatched_loop (fuel : nat) (uMatchByte symbol : Z) (coders : list Z)
    (rd : rangeDecoder) : outcome lzma_error (Z * list Z * rangeDecoder) :=
  if symbol <? 0x100 then
    match fuel with
    | O => Panic
    | S f =>
        let matchBit := Z.land (Z.shiftr uMatchByte 7) 1 in
        let uMatchByte := u32 (Z.shiftl uMatchByte 1) in
        '(bit, coders, rd) ←
          decodeBit coders (u32 (u32 (Z.shiftl (1 + matchBit) 8) + symbol)) rd;
        let symbol := Z.lor (u32 (Z.shiftl symbol 1)) bit in
        if negb (matchBit =? bit) then decodeNormal_loop f symbol coders rd
        else decodeMatched_loop f uMatchByte symbol coders rd
    end
  else Ret (symbol, coders, rd).

Definition decodeWithMatchByte (matchByte : Z) (coders : list Z) (rd : rangeDecoder)
    : outcome lzma_error (Z * list Z * rangeDecoder) :=
  '(symbol, coders, rd) ← decodeMatched_loop 8 matchByte 1 coders rd;
  Ret (u8 symbol, coders, rd).

(** The loop of encode on i = [j'] .. 0. *)
Fixpoint lit_encode_loop (j : nat) (uSymbol context : Z) (coders : list Z) (re : rangeEncoder)
    : outcome lzma_error (list Z * rangeEncoder) :=
  match j with
  | O => Ret (coders, re)
  | S i => let bit := Z.land (Z.shiftr uSymbol (Z.of_nat i)) 1 in
           '(coders, re) ← encode coders context bit re;
           lit_encode_loop i uSymbol (Z.lor (u32 (Z.shiftl context 1)) bit) coders re
  end.

Definition lit_encode (symbol : Z) (coders : list Z) (re : rangeEncoder) :=
  lit_encode_loop 8 symbol 1 coders re.

Fixpoint encodeMatched_loop (j : nat) (uMatchByte uSymbol context : Z) (same : bool)
    (coders : list Z) (re : rangeEncoder) : outcome lzma_error (list Z * rangeEncoder) :=
  match j with
  | O => Ret (coders, re)
  | S i =>
      let bit := Z.land (Z.shiftr uSymbol (Z.of_nat i)) 1 in
      let '(state, same) :=
        if same then
          let matchBit := Z.land (Z.shiftr uMatchByte (Z.of_nat i)) 1 in
          (u32 (context + u32 (Z.shiftl (1 + matchBit) 8)), matchBit =? bit)
        else (context, false) in
      '(coders, re) ← encode coders state bit re;
      encodeMatched_loop i uMatchByte uSymbol (Z.lor (u32 (Z.shiftl context 1)) bit) same coders re
  end.

Definition encodeMatched (matchByte symbol : Z) (coders : list Z) (re : rangeEncoder) :=
  encodeMatched_loop 8 matchByte symbol 1 true coders re.

Record litCoder := mkLit { lit_coders : list (list Z); numPrevBits : Z; posMask : Z }.

Definition newLitCoder (numPosBits numPrevBits : Z) : litCoder :=
  mkLit (replicate (Z.to_nat (u32 (Z.shiftl 1 (u32 (numPrevBits + numPosBits))))) newLitSubCoder)
        numPrevBits (u32 (u32 (Z.shiftl 1 numPosBits) - 1)).

(** getSubCoder returns a pointer; here, the index it points at. *)
Definition getSubCoder (lc : litCoder) (pos prevByte : Z) : Z :=
  u32 (u32 (Z.shiftl (Z.land pos (posMask lc)) (numPrevBits lc)) +
       Z.shiftr prevByte (u32 (8 - numPrevBits lc))).

(** Run a method of the sub-coder at that index, updating it in place. *)
Definition at_sub {X R} (i : Z) (f : list Z -> R -> outcome lzma_error (X * list Z * R))
    (lc : litCoder) (r : R) : outcome lzma_error (X * litCoder * R) :=
  match lit_coders lc !! Z.to_nat i with
  | Some c => '(x, c, r) ← f c r;
              Ret (x, mkLit (<[Z.to_nat i := c]> (lit_coders lc)) (numPrevBits lc) (posMask lc), r)
  | None => Panic
  end.

(** ** Bit trees: encode and decode are inverse *)

Lemma land_1_shiftr v j : Z.land (Z.shiftr v (Z.of_nat j)) 1 = v / 2 ^ Z.of_nat j mod 2.
Proof. rewrite land_1, Z.shiftr_div_pow2 by lia. done. Qed.

Lemma mod_pow_S v j :
  v mod 2 ^ Z.of_nat (S j) = (v / 2 ^ Z.of_nat j mod 2) * 2 ^ Z.of_nat j + v mod 2 ^ Z.of_nat j.
Proof.
  rewrite Nat2Z.inj_succ, Z.pow_succ_r, (Z.mul_comm 2) by lia.
  rewrite Z.rem_mul_r by lia. lia.
Qed.

Lemma pow2_pos j : 0 < 2 ^ Z.of_nat j.
Proof. apply Z.pow_pos_nonneg; lia. Qed.

Lemma pow2_S j : 2 ^ Z.of_nat (S j) = 2 * 2 ^ Z.of_nat j.
Proof. rewrite Nat2Z.inj_succ, Z.pow_succ_r by lia. done. Qed.

(** The top-down loops, the index being a prefix of the symbol below a leading 1. *)
Lemma lossless_bt_loop L j m v : 1 <= m -> (m + 1) * 2 ^ Z.of_nat j <= 2 * L -> L <= 2 ^ 30 ->
  lossless (table L) j (fun ps e => bt_encode_loop j m v ps e)
    (fun ps d => bt_decode_loop j m ps d) (m * 2 ^ Z.of_nat j + v mod 2 ^ Z.of_nat j).
Proof.
  revert m. induction j as [|j IH]; intros m Hm Hb HL.
  { change (2 ^ Z.of_nat 0) with 1. rewrite Z.mod_1_r, Z.mul_1_r, Z.add_0_r.
    apply (lossless_ret (table L) m). }
  rewrite pow2_S in Hb. pose proof (pow2_pos j).
  set (b := Z.land (Z.shiftr v (Z.of_nat j)) 1).
  pose proof (land_1_cases (Z.shiftr v (Z.of_nat j))) as Hb01. fold b in Hb01.
  destruct (append_bit m b ltac:(nia) Hb01) as [A1 A2].
  cbn [bt_encode_loop bt_decode_loop]. fold b. rewrite A1.
  eapply (lossless_bind _ 1 j (fun ps e => encode ps m b e) _
            (fun ps e => bt_encode_loop j (2 * m + b) v ps e)
            (fun x ps d => bt_decode_loop j (u32 (u32 (Z.shiftl m 1) + x)) ps d) b).
  - apply lossless_bit; [nia|done].
  - rewrite A2, mod_pow_S, pow2_S. rewrite <- land_1_shiftr. fold b.
    replace (m * (2 * 2 ^ Z.of_nat j) + (b * 2 ^ Z.of_nat j + v mod 2 ^ Z.of_nat j))
      with ((2 * m + b) * 2 ^ Z.of_nat j + v mod 2 ^ Z.of_nat j) by lia.
    apply IH; destruct Hb01 as [-> | ->]; nia.
Qed.

Lemma lor_high res b k : 0 <= k -> 0 <= res < 2 ^ k -> b = 0 \/ b = 1 ->
  Z.lor res (b * 2 ^ k) = res + b * 2 ^ k.
Proof.
  intros Hk Hres [-> | ->]; [rewrite Z.lor_0_r; lia|]. rewrite Z.mul_1_l.
  rewrite <- Z.add_lor_land. enough (Z.land res (2 ^ k) = 0) by lia.
  apply Z.bits_inj'. intros n Hn. rewrite Z.land_spec, Z.bits_0, Z.pow2_bits_eqb by lia.
  destruct (Z.eqb_spec k n) as [->|]; [|apply andb_false_r].
  rewrite andb_true_r. destruct (Z.eq_dec res 0) as [->|]; [apply Z.bits_0|].
  apply Z.bits_above_log2; [lia|]. apply Z.log2_lt_pow2; lia.
Qed.

(** The bottom-up loops over the entries [startIndex + m]. *)
Lemma lossless_reverse_loop L n s j k m res v :
  (forall m, 1 <= m < 2 ^ n -> 0 <= u32 (s + m) < L) ->
  n = k + Z.of_nat j -> 0 <= k -> n <= 30 -> 1 <= m < 2 ^ (k + 1) -> 0 <= res < 2 ^ k ->
  lossless (table L) j (fun ps e => reverseEncode_loop j s m v ps e)
    (fun ps d => reverseDecode_loop j k s m res ps d) (res + 2 ^ k * (v mod 2 ^ Z.of_nat j)).
Proof.
  intros Hidx. revert k m res v. induction j as [|j IH]; intros k m res v Hn Hk Hn30 Hm Hres.
  { change (2 ^ Z.of_nat 0) with 1. rewrite Z.mod_1_r, Z.mul_0_r, Z.add_0_r.
    apply (lossless_ret (table L) res). }
  assert (2 ^ (k + 1) <= 2 ^ n) by (apply Z.pow_le_mono_r; lia).
  assert (2 ^ n <= 2 ^ 30) by (apply Z.pow_le_mono_r; lia).
  assert (2 ^ (k + 1) = 2 * 2 ^ k) as Hk1 by (rewrite Z.pow_add_r by lia; lia).
  set (b := Z.land v 1). pose proof (land_1_cases v) as Hb01. fold b in Hb01.
  destruct (append_bit m b ltac:(lia) Hb01) as [A1 A2].
  cbn [reverseEncode_loop reverseDecode_loop]. fold b. rewrite A1.
  eapply (lossless_bind _ 1 j (fun ps e => encode ps (u32 (s + m)) b e) _
            (fun ps e => reverseEncode_loop j s (2 * m + b) (Z.shiftr v 1) ps e)
            (fun x ps d => reverseDecode_loop j (k + 1) s (u32 (u32 (Z.shiftl m 1) + x))
                             (Z.lor res (u32 (Z.shiftl x k))) ps d) b).
  - apply lossless_bit; [apply Hidx; lia|done].
  - rewrite A2. rewrite Z.shiftl_mul_pow2 by lia.
    rewrite wrap_id by (destruct Hb01 as [-> | ->]; lia).
    rewrite lor_high by (done || lia).
    replace (res + 2 ^ k * (v mod 2 ^ Z.of_nat (S j)))
      with (res + b * 2 ^ k + 2 ^ (k + 1) * (Z.shiftr v 1 mod 2 ^ Z.of_nat j)).
    + apply IH; try lia; destruct Hb01 as [-> | ->]; rewrite ?Z.pow_add_r by lia; lia.
    + rewrite pow2_S, Z.rem_mul_r, Hk1 by (pose proof (pow2_pos j); lia).
      rewrite Z.shiftr_div_pow2 by lia. unfold b. rewrite land_1. change (2 ^ 1) with 2. lia.
Qed.

(** Coder objects of [n] levels. *)
Definition bt_inv (n : Z) (rc : rangeBitTreeCoder) : Prop :=
  numBitLevels rc = n /\ table (2 ^ n) (models rc).

Lemma bt_inv_new n : 0 <= n -> bt_inv n (newRangeBitTreeCoder n).
Proof.
  intros. split; [done|]. unfold newRangeBitTreeCoder; cbn [models].
  rewrite Z.shiftl_1_l. apply table_init. apply Z.pow_nonneg. lia.
Qed.

Lemma lossless_bt n v : 0 <= n <= 30 -> 0 <= v < 2 ^ n ->
  lossless (bt_inv n) (Z.to_nat n) (bt_encode v) bt_decode v.
Proof.
  intros Hn Hv. assert (2 ^ n <= 2 ^ 30) by (apply Z.pow_le_mono_r; lia).
  assert (H1 : lossless (table (2 ^ n)) (Z.to_nat n)
    (fun ps e => bt_encode_loop (Z.to_nat n) 1 v ps e)
    (fun ps d => '(res, ps, d) ← bt_decode_loop (Z.to_nat n) 1 ps d;
                 Ret (u32 (res - u32 (Z.shiftl 1 n)), ps, d)) v).
  { pose proof (lossless_bt_loop (2 ^ n) (Z.to_nat n) 1 v ltac:(lia)
      ltac:(rewrite Z2Nat.id by lia; lia) ltac:(lia)) as Hl.
    rewrite Z2Nat.id in Hl by lia. rewrite Z.mod_small in Hl by lia.
    apply (lossless_map _ _ _ _ (fun res => u32 (res - u32 (Z.shiftl 1 n))) _ v) in Hl; [done|].
    rewrite Z.shiftl_1_l, (wrap_id 32 (2 ^ n)), wrap_id by lia. lia. }
  intros rc [Hl Hrc].
  destruct (lossless_lens (bt_inv n) _ _ _ _ _ models (fun ms rc => mkBT ms (numBitLevels rc))
              (fun s H => proj2 H) (fun s t H1 H2 => conj (proj1 H1) H2) H1 rc (conj Hl Hrc))
    as (rc' & Hrc' & C).
  exists rc'. split; [done|]. eapply codes_ext; [| |exact C]; intros; cbn beta.
  - unfold bt_encode. by rewrite Hl.
  - unfold bt_decode. rewrite Hl.
    destruct (bt_decode_loop _ _ _ _) as [[[? ?] ?]| |]; cbn; by rewrite ?Hl.
Qed.

Lemma lossless_bt_reverse n v : 0 <= n <= 30 -> 0 <= v < 2 ^ n ->
  lossless (bt_inv n) (Z.to_nat n) (bt_reverseEncode v) bt_reverseDecode v.
Proof.
  intros Hn Hv. assert (2 ^ n <= 2 ^ 30) by (apply Z.pow_le_mono_r; lia).
  assert (H1 : lossless (table (2 ^ n)) (Z.to_nat n)
    (fun ps e => reverseEncode_loop (Z.to_nat n) 0 1 v ps e)
    (fun ps d => reverseDecode_loop (Z.to_nat n) 0 0 1 0 ps d) v).
  { pose proof (lossless_reverse_loop (2 ^ n) n 0 (Z.to_nat n) 0 1 0 v) as Hl.
    rewrite Z2Nat.id, Z.mod_small in Hl by lia.
    replace (0 + 2 ^ 0 * v) with v in Hl by lia. apply Hl; try lia.
    intros m Hm. rewrite wrap_id; lia. }
  intros rc [Hl Hrc].
  destruct (lossless_lens (bt_inv n) _ _ _ _ _ models (fun ms rc => mkBT ms (numBitLevels rc))
              (fun s H => proj2 H) (fun s t H1 H2 => conj (proj1 H1) H2) H1 rc (conj Hl Hrc))
    as (rc' & Hrc' & C).
  exists rc'. split; [done|]. eapply codes_ext; [| |exact C]; intros; cbn beta.
  - unfold bt_reverseEncode. by rewrite Hl.
  - unfold bt_reverseDecode. by rewrite Hl.
Qed.

Lemma lossless_reverse_index L s n v :
  0 <= n <= 30 -> 0 <= v < 2 ^ n -> (forall m, 1 <= m < 2 ^ n -> 0 <= u32 (s + m) < L) ->
  lossless (table L) (Z.to_nat n) (fun ps e => reverseEncodeIndex ps s n v e)
    (fun ps d => reverseDecodeIndex ps s n d) v.
Proof.
  intros Hn Hv Hidx.
  pose proof (lossless_reverse_loop L n s (Z.to_nat n) 0 1 0 v Hidx) as Hl.
  rewrite Z2Nat.id, Z.mod_small in Hl by lia.
  replace (0 + 2 ^ 0 * v) with v in Hl by lia. apply Hl; lia.
Qed.

(** ** Bit trees: safety of decode *)

Lemma decodeBit_safe L i : 0 <= i < L ->
  safe (table L) (fun b => b = 0 \/ b = 1) (fun ps d => decodeBit ps i d).
Proof. apply decodeBit_safe_at. Qed.

Lemma bt_decode_loop_safe L j m : 1 <= m -> (m + 1) * 2 ^ Z.of_nat j <= 2 * L -> L <= 2 ^ 30 ->
  safe (table L) (fun r => m * 2 ^ Z.of_nat j <= r < (m + 1) * 2 ^ Z.of_nat j)
    (fun ps d => bt_decode_loop j m ps d).
Proof.
  revert m. induction j as [|j IH]; intros m Hm Hb HL.
  { apply (safe_ret (table L) _ m). change (2 ^ Z.of_nat 0) with 1. lia. }
  rewrite pow2_S in *. pose proof (pow2_pos j). cbn [bt_decode_loop].
  eapply (safe_bind _ (fun b => b = 0 \/ b = 1) _ (fun ps d => decodeBit ps m d)
            (fun x ps d => bt_decode_loop j (u32 (u32 (Z.shiftl m 1) + x)) ps d)).
  - apply decodeBit_safe. nia.
  - intros b Hb01. destruct (append_bit m b ltac:(nia) Hb01) as [_ ->].
    eapply safe_weaken; [apply IH; destruct Hb01 as [-> | ->]; nia|].
    cbn beta. intros r Hr. destruct Hb01 as [-> | ->]; nia.
Qed.

Lemma reverseDecode_loop_safe L n s j k m res :
  (forall m, 1 <= m < 2 ^ n -> 0 <= u32 (s + m) < L) ->
  n = k + Z.of_nat j -> 0 <= k -> n <= 30 -> 1 <= m < 2 ^ (k + 1) -> 0 <= res < 2 ^ k ->
  safe (table L) (fun r => 0 <= r < 2 ^ n) (fun ps d => reverseDecode_loop j k s m res ps d).
Proof.
  intros Hidx. revert k m res. induction j as [|j IH]; intros k m res Hn Hk Hn30 Hm Hres.
  { apply (safe_ret (table L) _ res). replace n with k by lia. done. }
  assert (2 ^ (k + 1) <= 2 ^ n) by (apply Z.pow_le_mono_r; lia).
  assert (2 ^ n <= 2 ^ 30) by (apply Z.pow_le_mono_r; lia).
  assert (2 ^ (k + 1) = 2 * 2 ^ k) by (rewrite Z.pow_add_r by lia; lia).
  cbn [reverseDecode_loop].
  eapply (safe_bind _ (fun b => b = 0 \/ b = 1) _ (fun ps d => decodeBit ps (u32 (s + m)) d)
            (fun x ps d => reverseDecode_loop j (k + 1) s (u32 (u32 (Z.shiftl m 1) + x))
                             (Z.lor res (u32 (Z.shiftl x k))) ps d)).
  - apply decodeBit_safe. apply Hidx. lia.
  - intros b Hb01. destruct (append_bit m b ltac:(lia) Hb01) as [_ ->].
    rewrite Z.shiftl_mul_pow2, wrap_id, lor_high
      by (try done; try lia; destruct Hb01 as [-> | ->]; lia).
    apply IH; try lia; destruct Hb01 as [-> | ->]; rewrite ?Z.pow_add_r by lia; lia.
Qed.

Lemma bt_decode_safe n : 0 <= n <= 30 -> safe (bt_inv n) (fun v => 0 <= v < 2 ^ n) bt_decode.
Proof.
  intros Hn M rc d [Hl Hrc] Hd. assert (2 ^ n <= 2 ^ 30) by (apply Z.pow_le_mono_r; lia).
  pose proof (bt_decode_loop_safe (2 ^ n) (Z.to_nat n) 1 ltac:(lia)
                ltac:(rewrite Z2Nat.id by lia; lia) ltac:(lia) M _ d Hrc Hd) as H0.
  unfold bt_decode. rewrite Hl. rewrite Z2Nat.id in H0 by lia.
  destruct (bt_decode_loop _ _ _ _) as [[[r ms] d']| |]; cbn; auto.
  destruct H0 as (Hr & Hms & Hd'). split; [|split; [by split|done]].
  rewrite Z.shiftl_1_l, (wrap_id 32 (2 ^ n)), wrap_id by lia. lia.
Qed.

Lemma bt_reverseDecode_safe n : 0 <= n <= 30 ->
  safe (bt_inv n) (fun v => 0 <= v < 2 ^ n) bt_reverseDecode.
Proof.
  intros Hn M rc d [Hl Hrc] Hd. assert (2 ^ n <= 2 ^ 30) by (apply Z.pow_le_mono_r; lia).
  assert (Hidx : forall m, 1 <= m < 2 ^ n -> 0 <= u32 (0 + m) < 2 ^ n)
    by (intros; rewrite wrap_id; lia).
  pose proof (reverseDecode_loop_safe (2 ^ n) n 0 (Z.to_nat n) 0 1 0 Hidx ltac:(lia) ltac:(lia)
                ltac:(lia) ltac:(lia) ltac:(lia) M _ d Hrc Hd) as H0.
  unfold bt_reverseDecode. rewrite Hl. cbn beta in H0.
  destruct (reverseDecode_loop _ _ _ _ _ _ _) as [[[r ms] d']| |]; cbn; auto.
  destruct H0 as (Hr & Hms & Hd'). split; [done|]. by split; [split|].
Qed.

Lemma reverseDecodeIndex_safe L s n : 0 <= n <= 30 ->
  (forall m, 1 <= m < 2 ^ n -> 0 <= u32 (s + m) < L) ->
  safe (table L) (fun v => 0 <= v < 2 ^ n) (fun ps d => reverseDecodeIndex ps s n d).
Proof.
  intros Hn Hidx. apply (reverseDecode_loop_safe L n s (Z.to_nat n) 0 1 0 Hidx); lia.
Qed.

(** ** Arrays of coders and the length coder *)

Definition coders_inv (npos n : Z) (cs : list (option rangeBitTreeCoder)) : Prop :=
  forall i, 0 <= i < npos -> exists c, cs !! Z.to_nat i = Some (Some c) /\ bt_inv n c.

Lemma coders_inv_insert npos n cs i c :
  coders_inv npos n cs -> 0 <= i < npos -> bt_inv n c ->
  coders_inv npos n (<[Z.to_nat i := Some c]> cs).
Proof.
  intros H Hi Hc j Hj. destruct (decide (i = j)) as [->|Hne].
  - exists c. split; [|done]. apply list_lookup_insert_eq.
    destruct (H j Hj) as (c' & Hc' & _). by eapply lookup_lt_Some.
  - rewrite list_lookup_insert_ne by lia. auto.
Qed.

Lemma coders_inv_new npos n : 0 <= npos <= 16 -> 0 <= n -> coders_inv npos n (coder_array npos n).
Proof.
  intros Hp Hn i Hi. exists (newRangeBitTreeCoder n). split; [|by apply bt_inv_new].
  unfold coder_array. rewrite lookup_app_l by (rewrite length_replicate; lia).
  apply lookup_replicate. split; [done|lia].
Qed.

(** Encoding and decoding through coders[i]. *)
Definition at_encode (i : Z)
    (E : rangeBitTreeCoder -> rangeEncoder -> outcome lzma_error (rangeBitTreeCoder * rangeEncoder))
    (cs : list (option rangeBitTreeCoder)) (e : rangeEncoder) :=
  '(_, cs, e) ← at_coder i (fun c r => unit_result (E c r)) cs e; Ret (cs, e).

Lemma lossless_at npos n i c E D (x : Z) : 0 <= i < npos ->
  lossless (bt_inv n) c E D x ->
  lossless (coders_inv npos n) c (at_encode i E) (at_coder i D) x.
Proof.
  intros Hi H cs Hcs. destruct (Hcs i Hi) as (bc & Hbc & Hinv).
  destruct (H bc Hinv) as (bc' & Hinv' & C). exists (<[Z.to_nat i := Some bc']> cs).
  split; [by apply coders_inv_insert|]. intros m e He.
  destruct (C m e He) as (e' & HE & Hok & HB). exists e'.
  unfold at_encode, at_coder, unit_result. rewrite Hbc, HE. cbn. split_and!; auto.
  intros B Ht. destruct (HB B Ht) as [H1 H2]. split; [done|]. intros d Hd.
  destruct (H2 d Hd) as (d' & HD & Hs). exists d'. by rewrite HD.
Qed.

Lemma safe_at npos n i Q D : 0 <= i < npos -> safe (bt_inv n) Q D ->
  safe (coders_inv npos n) Q (at_coder (X := Z) i D).
Proof.
  intros Hi H M cs d Hcs Hd. destruct (Hcs i Hi) as (bc & Hbc & Hinv).
  unfold at_coder. rewrite Hbc. specialize (H M bc d Hinv Hd).
  destruct (D bc d) as [[[x bc'] d']| |]; cbn; auto.
  destruct H as (? & ? & ?). split_and!; auto. by apply coders_inv_insert.
Qed.

Definition lc_inv (npos : Z) (lc : lenCoder) : Prop :=
  table 2 (choice lc) /\ coders_inv npos kNumLowLenBits (lowCoder lc) /\
  coders_inv npos kNumMidLenBits (midCoder lc) /\ bt_inv kNumHighLenBits (highCoder lc).

Lemma lc_inv_new npos : 0 <= npos <= 16 ->
  exists lc, newLenCoder npos = Ret lc /\ lc_inv npos lc.
Proof.
  intros Hp. unfold newLenCoder. change kNumPosStatesMax with 16.
  destruct (Z.ltb_spec 16 npos); [lia|]. eexists. split; [done|].
  split_and!; cbn [choice lowCoder midCoder highCoder].
  - by apply table_init.
  - by apply coders_inv_new.
  - by apply coders_inv_new.
  - by apply bt_inv_new.
Qed.

Definition set_choice ch lc := mkLC ch (lowCoder lc) (midCoder lc) (highCoder lc).
Definition set_low cs lc := mkLC (choice lc) cs (midCoder lc) (highCoder lc).
Definition set_mid cs lc := mkLC (choice lc) (lowCoder lc) cs (highCoder lc).
Definition set_high hc lc := mkLC (choice lc) (lowCoder lc) (midCoder lc) hc.

Section len_parts.
Context (npos posState : Z) (Hps : 0 <= posState < npos).

Lemma lossless_choice i b : 0 <= i < 2 -> b = 0 \/ b = 1 ->
  lossless (lc_inv npos) 1
    (fun lc e => '(ch, e) ← encode (choice lc) i b e; Ret (set_choice ch lc, e))
    (fun lc d => '(x, ch, d) ← decodeBit (choice lc) i d; Ret (x, set_choice ch lc, d)) b.
Proof.
  intros. apply (lossless_lens _ (table 2) _ (fun ch e => encode ch i b e)
                   (fun ch d => decodeBit ch i d)).
  - by intros s [? ?].
  - by intros s t (? & ? & ? & ?) ?.
  - by apply lossless_bit.
Qed.

Lemma lossless_low v : 0 <= v < 8 ->
  lossless (lc_inv npos) 3
    (fun lc e => '(cs, e) ← at_encode posState (bt_encode v) (lowCoder lc) e; Ret (set_low cs lc, e))
    (fun lc d => '(x, cs, d) ← at_coder posState bt_decode (lowCoder lc) d; Ret (x, set_low cs lc, d)) v.
Proof.
  intros. eapply (lossless_lens _ (coders_inv npos 3)).
  - by intros s (? & ? & ?).
  - by intros s t (? & ? & ? & ?) ?.
  - apply lossless_at; [done|]. by apply (lossless_bt 3).
Qed.

Lemma lossless_mid v : 0 <= v < 8 ->
  lossless (lc_inv npos) 3
    (fun lc e => '(cs, e) ← at_encode posState (bt_encode v) (midCoder lc) e; Ret (set_mid cs lc, e))
    (fun lc d => '(x, cs, d) ← at_coder posState bt_decode (midCoder lc) d; Ret (x, set_mid cs lc, d)) v.
Proof.
  intros. eapply (lossless_lens _ (coders_inv npos 3)).
  - by intros s (? & ? & ? & ?).
  - by intros s t (? & ? & ? & ?) ?.
  - apply lossless_at; [done|]. by apply (lossless_bt 3).
Qed.

Lemma lossless_highc v : 0 <= v < 256 ->
  lossless (lc_inv npos) 8
    (fun lc e => '(hc, e) ← bt_encode v (highCoder lc) e; Ret (set_high hc lc, e))
    (fun lc d => '(x, hc, d) ← bt_decode (highCoder lc) d; Ret (x, set_high hc lc, d)) v.
Proof.
  intros. eapply (lossless_lens _ (bt_inv 8)).
  - by intros s (? & ? & ? & ?).
  - by intros s t (? & ? & ? & ?) ?.
  - by apply (lossless_bt 8).
Qed.
End len_parts.

(** The bits a length symbol costs: one choice and 3, two and 3, or two and 8. *)
Definition len_cost (v : Z) : nat := if v <? 8 then 4%nat else if v <? 16 then 5%nat else 10%nat.

(** decode as a composition of its parts. *)
Definition D_choice (i : Z) (lc : lenCoder) (d : rangeDecoder) :=
  '(x, ch, d) ← decodeBit (choice lc) i d; Ret (x, set_choice ch lc, d).
Definition D_low posState (lc : lenCoder) (d : rangeDecoder) :=
  '(x, cs, d) ← at_coder posState bt_decode (lowCoder lc) d; Ret (x, set_low cs lc, d).
Definition D_mid posState (lc : lenCoder) (d : rangeDecoder) :=
  '(x, cs, d) ← at_coder posState bt_decode (midCoder lc) d; Ret (x, set_mid cs lc, d).
Definition D_high (lc : lenCoder) (d : rangeDecoder) :=
  '(x, hc, d) ← bt_decode (highCoder lc) d; Ret (x, set_high hc lc, d).
Definition D_rest posState (lc : lenCoder) (d : rangeDecoder) :=
  '(j, lc, d) ← D_choice 1 lc d;
  (if j =? 0 then fun lc d => '(k, lc, d) ← D_mid posState lc d;
                              Ret (u32 (kNumLowLenSymbols + k), lc, d)
   else fun lc d => '(l, lc, d) ← D_high lc d;
                    Ret (u32 (kNumLowLenSymbols + kNumMidLenSymbols + l), lc, d)) lc d.

Lemma lc_decode_eq posState lc d :
  ('(i, lc, d) ← D_choice 0 lc d;
   (if i =? 0 then D_low posState else D_rest posState) lc d) = lc_decode posState lc d.
Proof.
  unfold D_rest, D_choice, D_low, D_mid, D_high, lc_decode, set_choice.
  destruct (decodeBit (choice lc) 0 d) as [[[i ch] d1]| |]; cbn; try done.
  destruct (i =? 0); cbn; [done|].
  destruct (decodeBit ch 1 d1) as [[[j ch'] d2]| |]; cbn; try done.
  by destruct (j =? 0); cbn; oeq.
Qed.

Ltac len_first b :=
  eapply (lossless_bind _ 1 _ _ _ _ (fun i => if i =? 0 then D_low _ else D_rest _) b);
  [apply lossless_choice; [lia|auto]|].

Lemma lossless_len npos posState v : 0 <= posState < npos -> 0 <= v < kNumLenSymbols ->
  lossless (lc_inv npos) (len_cost v) (lc_encode v posState) (lc_decode posState) v.
Proof.
  intros Hps Hv. change kNumLenSymbols with 272 in Hv. unfold len_cost.
  assert (Hw : 8 <= v -> u32 (v - 8) = v - 8) by (intros; apply wrap_id; lia).
  destruct (Z.ltb_spec v 8); [|destruct (Z.ltb_spec v 16)].
  - eapply lossless_ext; [| intros; apply lc_decode_eq |].
    2: { len_first 0. apply (lossless_low npos posState Hps v). lia. }
    intros lc e. unfold lc_encode, at_encode, set_choice, set_low. change kNumLowLenSymbols with 8.
    destruct (Z.ltb_spec v 8); [|lia]. oeq.
  - eapply lossless_ext; [| intros; apply lc_decode_eq |].
    2: { len_first 1. eapply (lossless_bind _ 1 3 _ _ _ (fun j => if j =? 0 then _ else _) 0);
         [apply lossless_choice; [lia|auto]|].
         apply (lossless_map _ _ _ _ (fun k => u32 (kNumLowLenSymbols + k)) (v - 8)).
         - change kNumLowLenSymbols with 8. rewrite wrap_id; lia.
         - apply (lossless_mid npos posState Hps). lia. }
    intros lc e. unfold lc_encode, at_encode, set_choice, set_mid. change kNumLowLenSymbols with 8.
    change kNumMidLenSymbols with 8. rewrite Hw by lia.
    destruct (Z.ltb_spec v 8); [lia|]. destruct (Z.ltb_spec (v - 8) 8); [|lia]. oeq.
  - eapply lossless_ext; [| intros; apply lc_decode_eq |].
    2: { len_first 1. eapply (lossless_bind _ 1 8 _ _ _ (fun j => if j =? 0 then _ else _) 1);
         [apply lossless_choice; [lia|auto]|].
         apply (lossless_map _ _ _ _
                  (fun l => u32 (kNumLowLenSymbols + kNumMidLenSymbols + l)) (v - 16)).
         - change (kNumLowLenSymbols + kNumMidLenSymbols) with 16. rewrite wrap_id; lia.
         - apply lossless_highc. lia. }
    intros lc e. unfold lc_encode, at_encode, set_choice, set_high. change kNumLowLenSymbols with 8.
    change kNumMidLenSymbols with 8. rewrite Hw by lia. rewrite (wrap_id 32 (v - 8 - 8)) by lia.
    replace (v - 8 - 8) with (v - 16) by lia.
    destruct (Z.ltb_spec v 8); [lia|]. destruct (Z.ltb_spec (v - 8) 8); [lia|]. oeq.
Qed.

Lemma lc_decode_safe npos posState : 0 <= posState < npos ->
  safe (lc_inv npos) (fun v => 0 <= v < kNumLenSymbols) (lc_decode posState).
Proof.
  intros Hps. change kNumLenSymbols with 272.
  assert (Hch : forall i, 0 <= i < 2 -> safe (lc_inv npos) (fun b => b = 0 \/ b = 1) (D_choice i)).
  { intros i Hi. apply (safe_lens _ (table 2) _ (fun ch d => decodeBit ch i d)).
    - by intros s [? ?].
    - by intros s t (? & ? & ? & ?) ?.
    - by apply decodeBit_safe. }
  assert (Hlo : safe (lc_inv npos) (fun v => 0 <= v < 2 ^ 3) (D_low posState)).
  { apply (safe_lens _ (coders_inv npos 3) _ (at_coder posState bt_decode)).
    - by intros s (? & ? & ?).
    - by intros s t (? & ? & ? & ?) ?.
    - apply safe_at; [done|]. by apply bt_decode_safe. }
  assert (Hmi : safe (lc_inv npos) (fun v => 0 <= v < 2 ^ 3) (D_mid posState)).
  { apply (safe_lens _ (coders_inv npos 3) _ (at_coder posState bt_decode)).
    - by intros s (? & ? & ? & ?).
    - by intros s t (? & ? & ? & ?) ?.
    - apply safe_at; [done|]. by apply bt_decode_safe. }
  assert (Hhi : safe (lc_inv npos) (fun v => 0 <= v < 2 ^ 8) D_high).
  { apply (safe_lens _ (bt_inv 8) _ bt_decode).
    - by intros s (? & ? & ? & ?).
    - by intros s t (? & ? & ? & ?) ?.
    - by apply bt_decode_safe. }
  intros M lc d Hlc Hd. rewrite <- lc_decode_eq. revert M lc d Hlc Hd.
  apply (safe_bind _ _ _ _ (fun i => if i =? 0 then D_low posState else D_rest posState)
           (Hch 0 ltac:(lia))).
  intros i [-> | ->]; cbn [Z.eqb]; [eapply safe_weaken; [exact Hlo|cbn; lia]|].
  eapply (safe_bind _ _ _ _ (fun j => if j =? 0 then _ else _) (Hch 1 ltac:(lia))).
  intros j [-> | ->]; cbn [Z.eqb].
  - eapply (safe_bind _ _ _ _ (fun k lc d => Ret (_, lc, d)) Hmi). intros k Hk.
    apply safe_ret. change kNumLowLenSymbols with 8. rewrite wrap_id; lia.
  - eapply (safe_bind _ _ _ _ (fun k lc d => Ret (_, lc, d)) Hhi). intros k Hk.
    apply safe_ret. change (kNumLowLenSymbols + kNumMidLenSymbols) with 16. rewrite wrap_id; lia.
Qed.

(** ** The literal coder *)

Definition lit_table : list Z -> Prop := table 0x300.

(** The prefix [m] with [j] bits of a symbol to come. *)
Definition lit_prefix (j : nat) (m : Z) : Prop :=
  (j <= 8)%nat /\ 2 ^ (8 - Z.of_nat j) <= m < 2 ^ (9 - Z.of_nat j).

Lemma lit_prefix_done m : lit_prefix 0 m -> 256 <= m < 512.
Proof. intros [_ H]. exact H. Qed.

Lemma lit_prefix_S j m : lit_prefix (S j) m ->
  1 <= m < 256 /\ forall b, b = 0 \/ b = 1 -> lit_prefix j (2 * m + b).
Proof.
  intros [Hj Hm].
  replace (9 - Z.of_nat (S j)) with (8 - Z.of_nat j) in Hm by lia.
  assert (E8 : 2 ^ (8 - Z.of_nat j) = 2 * 2 ^ (8 - Z.of_nat (S j)))
    by (rewrite <- Z.pow_succ_r by lia; f_equal; lia).
  assert (E9 : 2 ^ (9 - Z.of_nat j) = 2 * 2 ^ (8 - Z.of_nat j))
    by (rewrite <- Z.pow_succ_r by lia; f_equal; lia).
  assert (0 < 2 ^ (8 - Z.of_nat (S j))) by (apply Z.pow_pos_nonneg; lia).
  assert (2 ^ (8 - Z.of_nat j) <= 2 ^ 8) by (apply Z.pow_le_mono_r; lia).
  split; [lia|]. intros b Hb. split; [lia|]. destruct Hb as [-> | ->]; lia.
Qed.

Lemma lit_prefix_init : lit_prefix 8 1.
Proof. split; [lia|]. cbn. lia. Qed.

(** Plain literals. *)
Lemma lossless_lit_loop j m v : lit_prefix j m ->
  lossless lit_table j (fun ps e => lit_encode_loop j v m ps e)
    (fun ps d => decodeNormal_loop j m ps d) (m * 2 ^ Z.of_nat j + v mod 2 ^ Z.of_nat j).
Proof.
  revert m. induction j as [|j IH]; intros m Hm.
  { apply lit_prefix_done in Hm. change (2 ^ Z.of_nat 0) with 1.
    rewrite Z.mod_1_r, Z.mul_1_r, Z.add_0_r.
    eapply lossless_ext; [done| |apply (lossless_ret lit_table m)].
    intros ps d. cbn [decodeNormal_loop]. destruct (Z.ltb_spec m 256); [lia|done]. }
  destruct (lit_prefix_S _ _ Hm) as [Hm256 Hstep].
  set (b := Z.land (Z.shiftr v (Z.of_nat j)) 1).
  pose proof (land_1_cases (Z.shiftr v (Z.of_nat j))) as Hb01. fold b in Hb01.
  destruct (append_bit m b ltac:(lia) Hb01) as [A1 _].
  eapply lossless_ext; [| |
    eapply (lossless_bind _ 1 j (fun ps e => encode ps m b e) _
            (fun ps e => lit_encode_loop j v (2 * m + b) ps e)
            (fun x ps d => decodeNormal_loop j (Z.lor (u32 (Z.shiftl m 1)) x) ps d) b)].
  - intros ps e. cbn [lit_encode_loop]. fold b. by rewrite A1.
  - intros ps d. cbn [decodeNormal_loop]. destruct (Z.ltb_spec m 256); [done|lia].
  - apply lossless_bit; [lia|done].
  - rewrite A1, mod_pow_S, pow2_S, <- land_1_shiftr. fold b.
    replace (m * (2 * 2 ^ Z.of_nat j) + (b * 2 ^ Z.of_nat j + v mod 2 ^ Z.of_nat j))
      with ((2 * m + b) * 2 ^ Z.of_nat j + v mod 2 ^ Z.of_nat j) by lia.
    auto.
Qed.

Lemma u8_symbol v : 0 <= v < 256 -> u8 (1 * 2 ^ Z.of_nat 8 + v mod 2 ^ Z.of_nat 8) = v.
Proof.
  intros. change (2 ^ Z.of_nat 8) with 256. rewrite (Z.mod_small v) by lia.
  unfold wrap. replace (1 * 256 + v) with (v + 1 * 2 ^ 8) by lia.
  rewrite Z.mod_add by lia. apply Z.mod_small. lia.
Qed.

Lemma lossless_lit v : 0 <= v < 256 -> lossless lit_table 8 (lit_encode v) decodeNormal v.
Proof.
  intros Hv. apply (lossless_map _ _ _ _ u8 _ _ (u8_symbol v Hv)).
  apply lossless_lit_loop. apply lit_prefix_init.
Qed.

(** Matched literals: the context follows the match byte while the bits agree. *)
Lemma encodeMatched_diverged j mb v m ps e :
  encodeMatched_loop j mb v m false ps e = lit_encode_loop j v m ps e.
Proof.
  revert m ps e. induction j as [|j IH]; intros; [done|].
  cbn [encodeMatched_loop lit_encode_loop]. destruct (encode _ _ _ _) as [[ps' e']| |]; cbn; auto.
Qed.

(** The decoder's shifted match byte shows the same bit as the encoder's at step [j]. *)
Definition matchBit (mb : Z) (j : nat) : Z := Z.land (Z.shiftr mb (Z.of_nat j)) 1.

Lemma matchBit_shift mb j : (j <= 7)%nat -> 0 <= mb < 256 ->
  Z.land (Z.shiftr (mb * 2 ^ (7 - Z.of_nat j)) 7) 1 = matchBit mb j.
Proof.
  intros Hj Hmb. unfold matchBit. rewrite !land_1, !Z.shiftr_div_pow2 by lia. f_equal.
  replace (2 ^ 7) with (2 ^ Z.of_nat j * 2 ^ (7 - Z.of_nat j))
    by (rewrite <- Z.pow_add_r by lia; f_equal; lia).
  apply Z.div_mul_cancel_r; [pose proof (pow2_pos j); lia|].
  apply Z.pow_nonzero; lia.
Qed.

Lemma lossless_matched_loop j mb v m : 0 <= mb < 256 -> lit_prefix j m ->
  lossless lit_table j (fun ps e => encodeMatched_loop j mb v m true ps e)
    (fun ps d => decodeMatched_loop j (mb * 2 ^ (8 - Z.of_nat j)) m ps d)
    (m * 2 ^ Z.of_nat j + v mod 2 ^ Z.of_nat j).
Proof.
  intros Hmb. revert m. induction j as [|j IH]; intros m Hm.
  { apply lit_prefix_done in Hm. change (2 ^ Z.of_nat 0) with 1.
    rewrite Z.mod_1_r, Z.mul_1_r, Z.add_0_r.
    eapply lossless_ext; [done| |apply (lossless_ret lit_table m)].
    intros ps d. cbn [decodeMatched_loop]. destruct (Z.ltb_spec m 256); [lia|done]. }
  destruct (lit_prefix_S _ _ Hm) as [Hm256 Hstep]. destruct Hm as [Hj _].
  set (b := Z.land (Z.shiftr v (Z.of_nat j)) 1).
  pose proof (land_1_cases (Z.shiftr v (Z.of_nat j))) as Hb01. fold b in Hb01.
  destruct (append_bit m b ltac:(lia) Hb01) as [A1 _].
  pose proof (land_1_cases (Z.shiftr mb (Z.of_nat j))) as HM01. fold (matchBit mb j) in HM01.
  set (M := matchBit mb j) in *.
  assert (E8 : 2 ^ (8 - Z.of_nat j) = 2 * 2 ^ (7 - Z.of_nat j))
    by (rewrite <- Z.pow_succ_r by lia; f_equal; lia).
  assert (Hp7 : 0 < 2 ^ (7 - Z.of_nat j) <= 2 ^ 7)
    by (split; [apply Z.pow_pos_nonneg | apply Z.pow_le_mono_r]; lia).
  assert (Hidx : u32 (u32 (Z.shiftl (1 + M) 8) + m) = (1 + M) * 256 + m).
  { rewrite Z.shiftl_mul_pow2 by lia. change (2 ^ 8) with 256.
    destruct HM01 as [-> | ->]; rewrite !(wrap_id 32) by (rewrite ?wrap_id; lia); lia. }
  eapply lossless_ext; [| |
    eapply (lossless_bind _ 1 j (fun ps e => encode ps ((1 + M) * 256 + m) b e) _
            (fun ps e => encodeMatched_loop j mb v (2 * m + b) (M =? b) ps e)
            (fun x ps d => let symbol := Z.lor (u32 (Z.shiftl m 1)) x in
               (if negb (M =? x) then decodeNormal_loop j symbol ps d
                else decodeMatched_loop j (mb * 2 ^ (8 - Z.of_nat j)) symbol ps d)) b)].
  - intros ps e. cbn [encodeMatched_loop]. fold b. fold (matchBit mb j). fold M. cbn zeta.
    by rewrite A1, (Z.add_comm m), Hidx.
  - intros ps d. cbn [decodeMatched_loop]. destruct (Z.ltb_spec m 256); [|lia]. cbn zeta.
    replace (8 - Z.of_nat (S j)) with (7 - Z.of_nat j) by lia.
    rewrite matchBit_shift by lia. fold M. rewrite Hidx.
    replace (u32 (Z.shiftl (mb * 2 ^ (7 - Z.of_nat j)) 1)) with (mb * 2 ^ (8 - Z.of_nat j)); [done|].
    rewrite Z.shiftl_mul_pow2, wrap_id by nia. lia.
  - apply lossless_bit; [destruct HM01 as [-> | ->]; lia|done].
  - cbn zeta. rewrite A1, mod_pow_S, pow2_S, <- land_1_shiftr. fold b.
    replace (m * (2 * 2 ^ Z.of_nat j) + (b * 2 ^ Z.of_nat j + v mod 2 ^ Z.of_nat j))
      with ((2 * m + b) * 2 ^ Z.of_nat j + v mod 2 ^ Z.of_nat j) by lia.
    destruct (M =? b); cbn [negb]; [auto|].
    eapply lossless_ext; [intros; symmetry; apply encodeMatched_diverged | done |].
    apply lossless_lit_loop. auto.
Qed.

Lemma lossless_matched mb v : 0 <= mb < 256 -> 0 <= v < 256 ->
  lossless lit_table 8 (encodeMatched mb v) (decodeWithMatchByte mb) v.
Proof.
  intros Hmb Hv. apply (lossless_map _ _ _ _ u8 _ _ (u8_symbol v Hv)).
  pose proof (lossless_matched_loop 8 mb v 1 Hmb lit_prefix_init) as H.
  by replace (mb * 2 ^ (8 - Z.of_nat 8)) with mb in H by (cbn; lia).
Qed.

(** *** Safety of the literal decoders *)

Lemma decodeNormal_loop_safe j m : lit_prefix j m ->
  safe lit_table (fun s => 256 <= s < 512) (fun ps d => decodeNormal_loop j m ps d).
Proof.
  revert m. induction j as [|j IH]; intros m Hm M ps d Hps Hd; cbn [decodeNormal_loop].
  { apply lit_prefix_done in Hm. destruct (Z.ltb_spec m 256); [lia|]. auto. }
  destruct (lit_prefix_S _ _ Hm) as [Hm256 Hstep].
  destruct (Z.ltb_spec m 256); [|lia]. revert M ps d Hps Hd.
  apply (safe_bind lit_table (fun b => b = 0 \/ b = 1) _ (fun ps d => decodeBit ps m d)
           (fun x ps d => decodeNormal_loop j (Z.lor (u32 (Z.shiftl m 1)) x) ps d)).
  - apply decodeBit_safe. lia.
  - intros b Hb. destruct (append_bit m b ltac:(lia) Hb) as [-> _]. auto.
Qed.

Lemma decodeMatched_loop_safe j um m : lit_prefix j m ->
  safe lit_table (fun s => 256 <= s < 512) (fun ps d => decodeMatched_loop j um m ps d).
Proof.
  revert um m. induction j as [|j IH]; intros um m Hm M ps d Hps Hd; cbn [decodeMatched_loop].
  { apply lit_prefix_done in Hm. destruct (Z.ltb_spec m 256); [lia|]. auto. }
  destruct (lit_prefix_S _ _ Hm) as [Hm256 Hstep].
  destruct (Z.ltb_spec m 256); [|lia]. cbn zeta.
  pose proof (land_1_cases (Z.shiftr um 7)) as HM. set (B := Z.land (Z.shiftr um 7) 1) in *.
  assert (Hidx : u32 (u32 (Z.shiftl (1 + B) 8) + m) = (1 + B) * 256 + m).
  { rewrite Z.shiftl_mul_pow2 by lia. change (2 ^ 8) with 256.
    destruct HM as [-> | ->]; rewrite !(wrap_id 32) by (rewrite ?wrap_id; lia); lia. }
  rewrite Hidx. revert M ps d Hps Hd.
  eapply (safe_bind lit_table (fun b => b = 0 \/ b = 1) _
           (fun ps d => decodeBit ps ((1 + B) * 256 + m) d)
           (fun x ps d => if negb (B =? x) then decodeNormal_loop j (Z.lor (u32 (Z.shiftl m 1)) x) ps d
              else decodeMatched_loop j (u32 (Z.shiftl um 1)) (Z.lor (u32 (Z.shiftl m 1)) x) ps d)).
  - apply decodeBit_safe. destruct HM as [-> | ->]; lia.
  - intros b Hb. destruct (append_bit m b ltac:(lia) Hb) as [-> _].
    destruct (B =? b); cbn [negb]; [auto|]. apply decodeNormal_loop_safe. auto.
Qed.

Lemma decodeNormal_safe : safe lit_table byte_ok decodeNormal.
Proof.
  eapply (safe_bind _ _ _ _ (fun x ps d => Ret (u8 x, ps, d))
            (decodeNormal_loop_safe 8 1 lit_prefix_init)).
  intros x _. apply safe_ret. apply wrap_range. lia.
Qed.

Lemma decodeWithMatchByte_safe mb : safe lit_table byte_ok (decodeWithMatchByte mb).
Proof.
  eapply (safe_bind _ _ _ _ (fun x ps d => Ret (u8 x, ps, d))
            (decodeMatched_loop_safe 8 mb 1 lit_prefix_init)).
  intros x _. apply safe_ret. apply wrap_range. lia.
Qed.
