(* ===== verification/LzmaWindow.v ===== *)
(** lzma2/lz_window.go: the output window of the LZMA decoder, a circular buffer whose
    contents are handed to the Writer when it fills up or at the end.

    The specification is the plain history: the list of all bytes produced so far.
    [win_rel ow h] says that the window [ow] stands for the history [h]; putByte,
    getByte, copyBlock and flush are proved to implement append, look-back, the LZ77
    copy and delivery on histories. *)

From Stdlib Require Import ZArith Lia.
From stdpp Require Import base numbers option list.
From S2P Require Import Prelude RangeCoder.
#[local] Open Scope Z_scope.

(** [ow_w] is what the Writer has received. *)
Record lzOutWindow := mkOW {
  ow_w : list Z; ow_buf : list Z; winSize : Z; ow_pos : Z; streamPos : Z
}.

Definition newLzOutWindow (windowSize : Z) : lzOutWindow :=
  mkOW [] (replicate (Z.to_nat windowSize) 0) windowSize 0 0.

(** Index expressions: out of range is a Go panic. *)
Definition index (l : list Z) (i : Z) : outcome lzma_error Z :=
  match l !! Z.to_nat i with Some b => Ret b | None => Panic end.

Definition store (l : list Z) (i b : Z) : outcome lzma_error (list Z) :=
  match l !! Z.to_nat i with Some _ => Ret (<[Z.to_nat i := b]> l) | None => Panic end.

(** flush: the slice expression panics unless streamPos <= streamPos+size <= len(buf);
    the modelled Writer accepts every byte, so nWriteError is not raised. *)
Definition ow_flush (ow : lzOutWindow) : outcome lzma_error lzOutWindow :=
  let size := u32 (ow_pos ow - streamPos ow) in
  if size =? 0 then Ret ow
  else
    let hi := u32 (streamPos ow + size) in
    if (hi <? streamPos ow) || (Z.of_nat (length (ow_buf ow)) <? hi) then Panic
    else
      let w := ow_w ow ++ slice (Z.to_nat (streamPos ow)) (Z.to_nat hi) (ow_buf ow) in
      let pos := if winSize ow <=? ow_pos ow then 0 else ow_pos ow in
      Ret (mkOW w (ow_buf ow) (winSize ow) pos pos).

Definition putByte (b : Z) (ow : lzOutWindow) : outcome lzma_error lzOutWindow :=
  buf ← store (ow_buf ow) (ow_pos ow) b;
  let ow := mkOW (ow_w ow) buf (winSize ow) (u32 (ow_pos ow + 1)) (streamPos ow) in
  if winSize ow <=? ow_pos ow then ow_flush ow else Ret ow.

(** Where the byte [distance] back is: the wrap-around of pos - distance - 1. *)
Definition back_pos (distance : Z) (ow : lzOutWindow) : Z :=
  let pos := u32 (u32 (ow_pos ow - distance) - 1) in
  if winSize ow <=? pos then u32 (pos + winSize ow) else pos.

Definition getByte (distance : Z) (ow : lzOutWindow) : outcome lzma_error Z :=
  index (ow_buf ow) (back_pos distance ow).

(** The loop of copyBlock, [n] = length. *)
Fixpoint copyBlock_loop (n : nat) (pos : Z) (ow : lzOutWindow) : outcome lzma_error lzOutWindow :=
  match n with
  | O => Ret ow
  | S n' =>
      let pos := if winSize ow <=? pos then 0 else pos in
      b ← index (ow_buf ow) pos;
      buf ← store (ow_buf ow) (ow_pos ow) b;
      let ow := mkOW (ow_w ow) buf (winSize ow) (u32 (ow_pos ow + 1)) (streamPos ow) in
      ow ← (if winSize ow <=? ow_pos ow then ow_flush ow else Ret ow);
      copyBlock_loop n' (u32 (pos + 1)) ow
  end.

Definition copyBlock (distance length : Z) (ow : lzOutWindow) : outcome lzma_error lzOutWindow :=
  copyBlock_loop (Z.to_nat length) (back_pos distance ow) ow.

(** ** The abstract history *)

(** The byte [d] + 1 back from the end of the history. *)
Definition look_back (d : nat) (h : list Z) : option Z := h !! (length h - S d)%nat.

(** LZ77 copy: [n] times, append the byte [d] + 1 back (so that a distance shorter than
    the length repeats). *)
Fixpoint lz_copy (d n : nat) (h : list Z) : option (list Z) :=
  match n with
  | O => Some h
  | S n' => if (d <? length h)%nat then
              match look_back d h with
              | Some b => lz_copy d n' (h ++ [b])
              | None => None
              end
            else None
  end.

(** The window [ow] stands for the history [h]. *)
Record win_rel (ow : lzOutWindow) (h : list Z) : Prop := {
  wr_size : 0 < winSize ow <= 2 ^ 31;
  wr_buf : Z.of_nat (length (ow_buf ow)) = winSize ow;
  wr_stream : 0 <= streamPos ow <= ow_pos ow;
  wr_pos : ow_pos ow < winSize ow;
  wr_mod : Z.of_nat (length h) mod winSize ow = ow_pos ow;
  wr_out : h = ow_w ow ++ slice (Z.to_nat (streamPos ow)) (Z.to_nat (ow_pos ow)) (ow_buf ow);
  wr_hist : forall d, Z.of_nat d < winSize ow -> (d < length h)%nat ->
    ow_buf ow !! Z.to_nat ((ow_pos ow - Z.of_nat d - 1) mod winSize ow) = look_back d h
}.

Lemma win_rel_new n : 0 < n <= 2 ^ 31 -> win_rel (newLzOutWindow n) [].
Proof.
  intros Hn. unfold newLzOutWindow. constructor; cbn [ow_w ow_buf winSize ow_pos streamPos length]; try lia.
  all: try done.
  all: rewrite length_replicate; lia.
Qed.

Lemma look_back_app d h b : look_back (S d) (h ++ [b]) = look_back d h \/ (length h <= d)%nat.
Proof.
  destruct (decide (length h <= d)%nat); [by right|left]. unfold look_back.
  rewrite length_app; cbn [length]. rewrite lookup_app_l by lia. f_equal. lia.
Qed.

Lemma look_back_0 h b : look_back 0 (h ++ [b]) = Some b.
Proof.
  unfold look_back. rewrite length_app; cbn [length].
  replace (length h + 1 - 1)%nat with (length h) by lia.
  by rewrite lookup_app_r, Nat.sub_diag by lia.
Qed.

Lemma back_pos_spec ow h d : win_rel ow h -> 0 <= d < winSize ow ->
  back_pos d ow = (ow_pos ow - d - 1) mod winSize ow.
Proof.
  intros [Hs Hb Hst Hp Hm Ho Hh] Hd. unfold back_pos.
  destruct (Z.le_gt_cases (d + 1) (ow_pos ow)).
  - rewrite (wrap_id 32 (ow_pos ow - d)), wrap_id by lia.
    destruct (Z.leb_spec (winSize ow) (ow_pos ow - d - 1)); [lia|].
    rewrite Z.mod_small by lia. done.
  - assert (E : u32 (u32 (ow_pos ow - d) - 1) = 2 ^ 32 + (ow_pos ow - d - 1)).
    { unfold wrap. rewrite Zminus_mod_idemp_l.
      replace (ow_pos ow - d - 1) with (2 ^ 32 + (ow_pos ow - d - 1) + (-1) * 2 ^ 32) at 1 by lia.
      rewrite Z.mod_add, Z.mod_small by lia. done. }
    rewrite E. destruct (Z.leb_spec (winSize ow) (2 ^ 32 + (ow_pos ow - d - 1))); [|lia].
    unfold wrap.
    replace (2 ^ 32 + (ow_pos ow - d - 1) + winSize ow)
      with (ow_pos ow - d - 1 + winSize ow + 1 * 2 ^ 32) by lia.
    rewrite Z.mod_add, (Z.mod_small _ (2 ^ 32)) by lia.
    replace (ow_pos ow - d - 1) with (ow_pos ow - d - 1 + winSize ow + (-1) * winSize ow) at 2 by lia.
    rewrite Z.mod_add, Z.mod_small by lia. done.
Qed.

Lemma getByte_spec ow h d : win_rel ow h -> Z.of_nat d < winSize ow -> (d < length h)%nat ->
  exists b, getByte (Z.of_nat d) ow = Ret b /\ look_back d h = Some b.
Proof.
  intros Hr Hd Hl. unfold getByte, index. rewrite (back_pos_spec _ h) by (done || lia).
  rewrite (wr_hist _ _ Hr) by done. unfold look_back.
  destruct (lookup_lt_is_Some_2 h (length h - S d)) as [b Hb]; [lia|]. rewrite Hb. eauto.
Qed.

Lemma slice_snoc (l : list Z) lo hi b :
  (lo <= hi < length l)%nat -> l !! hi = Some b -> slice lo (S hi) l = slice lo hi l ++ [b].
Proof.
  intros H Hb. unfold slice. replace (S hi - lo)%nat with (S (hi - lo)) by lia.
  apply take_S_r. rewrite lookup_drop. by replace (lo + (hi - lo))%nat with hi by lia.
Qed.

Lemma slice_insert (l : list Z) lo hi i b :
  (hi <= i)%nat -> slice lo hi (<[i := b]> l) = slice lo hi l.
Proof.
  intros H. unfold slice. destruct (decide (lo <= i)%nat).
  - rewrite drop_insert_ge by lia. by rewrite take_insert_ge by lia.
  - by rewrite drop_insert_lt by lia.
Qed.

Lemma mod_succ n w p : 0 < w -> n mod w = p -> (n + 1) mod w = if p + 1 =? w then 0 else p + 1.
Proof.
  intros Hw Hp. pose proof (Z.mod_pos_bound n w Hw).
  rewrite (Z.div_mod n w) by lia. rewrite Hp.
  replace (w * (n / w) + p + 1) with (p + 1 + n / w * w) by lia. rewrite Z.mod_add by lia.
  destruct (Z.eqb_spec (p + 1) w) as [->|]; [apply Z.mod_same; lia|apply Z.mod_small; lia].
Qed.

Lemma hist_step ow h b buf pos' :
  win_rel ow h -> buf = <[Z.to_nat (ow_pos ow) := b]> (ow_buf ow) ->
  (pos' - (ow_pos ow + 1)) mod winSize ow = 0 ->
  forall d, Z.of_nat d < winSize ow -> (d < length (h ++ [b]))%nat ->
  buf !! Z.to_nat ((pos' - Z.of_nat d - 1) mod winSize ow) = look_back d (h ++ [b]).
Proof.
  intros [Hs Hb Hst Hp Hm Ho Hh] -> Hpos d Hd Hl.
  assert (E : (pos' - Z.of_nat d - 1) mod winSize ow = (ow_pos ow - Z.of_nat d) mod winSize ow).
  { apply Z.mod_divide in Hpos as [q Hq]; [|lia].
    replace (pos' - Z.of_nat d - 1) with (ow_pos ow - Z.of_nat d + q * winSize ow) by lia.
    apply Z.mod_add. lia. }
  rewrite E. destruct d as [|d].
  - rewrite Z.sub_0_r, Z.mod_small by lia. rewrite look_back_0.
    apply list_lookup_insert_eq. lia.
  - destruct (look_back_app d h b) as [->|]; [|rewrite length_app in Hl; cbn in Hl; lia].
    replace (ow_pos ow - Z.of_nat (S d)) with (ow_pos ow - Z.of_nat d - 1) by lia.
    rewrite <- Hh; [|lia|rewrite length_app in Hl; cbn in Hl; lia].
    apply list_lookup_insert_ne.
    assert ((ow_pos ow - Z.of_nat d - 1) mod winSize ow <> ow_pos ow); [|pose proof (Z.mod_pos_bound (ow_pos ow - Z.of_nat d - 1) (winSize ow)); lia].
    intros Heq. destruct (Z.le_gt_cases (Z.of_nat d + 1) (ow_pos ow)).
    + rewrite Z.mod_small in Heq by lia. lia.
    + replace (ow_pos ow - Z.of_nat d - 1)
        with (ow_pos ow - Z.of_nat d - 1 + winSize ow + (-1) * winSize ow) in Heq by lia.
      rewrite Z.mod_add, Z.mod_small in Heq by lia. lia.
Qed.

Lemma putByte_spec ow h b : win_rel ow h ->
  exists ow', putByte b ow = Ret ow' /\ win_rel ow' (h ++ [b]) /\ winSize ow' = winSize ow.
Proof.
  intros Hr. pose proof (hist_step ow h b _ (ow_pos ow + 1) Hr eq_refl) as Hh1.
  pose proof (hist_step ow h b _ 0 Hr eq_refl) as Hh0.
  destruct Hr as [Hs Hb Hst Hp Hm Ho Hh].
  unfold putByte, store.
  destruct (lookup_lt_is_Some_2 (ow_buf ow) (Z.to_nat (ow_pos ow))) as [b0 Hb0]; [lia|].
  rewrite Hb0. cbn [mbind outcome_bind ow_w ow_buf winSize ow_pos streamPos].
  rewrite (wrap_id 32 (ow_pos ow + 1)) by lia.
  set (buf := <[Z.to_nat (ow_pos ow) := b]> (ow_buf ow)) in *.
  assert (Hlb : length buf = length (ow_buf ow)) by apply length_insert.
  assert (Hout : h ++ [b] = ow_w ow ++ slice (Z.to_nat (streamPos ow)) (Z.to_nat (ow_pos ow + 1)) buf).
  { replace (Z.to_nat (ow_pos ow + 1)) with (S (Z.to_nat (ow_pos ow))) by lia.
    rewrite (slice_snoc buf _ _ b) by (first [lia | apply list_lookup_insert_eq; lia]).
    unfold buf. rewrite slice_insert by lia. by rewrite app_assoc, <- Ho. }
  pose proof (mod_succ _ _ _ (proj1 Hs) Hm) as Hms.
  assert (Hlen : Z.of_nat (length (h ++ [b])) = Z.of_nat (length h) + 1)
    by (rewrite length_app; cbn; lia).
  destruct (Z.leb_spec (winSize ow) (ow_pos ow + 1)) as [Hfull|Hroom].
  - unfold ow_flush; cbn [ow_w ow_buf winSize ow_pos streamPos].
    rewrite (wrap_id 32 (ow_pos ow + 1 - streamPos ow)) by lia.
    destruct (Z.eqb_spec (ow_pos ow + 1 - streamPos ow) 0); [lia|].
    replace (streamPos ow + (ow_pos ow + 1 - streamPos ow)) with (ow_pos ow + 1) by lia.
    rewrite (wrap_id 32) by lia.
    destruct (Z.ltb_spec (ow_pos ow + 1) (streamPos ow)); [lia|].
    destruct (Z.ltb_spec (Z.of_nat (length buf)) (ow_pos ow + 1)); [lia|]. cbn [orb].
    destruct (Z.leb_spec (winSize ow) (ow_pos ow + 1)); [|lia].
    eexists. split; [done|]. split; [|done].
    constructor; cbn [ow_w ow_buf winSize ow_pos streamPos]; try lia.
    + rewrite Hlen, Hms. destruct (Z.eqb_spec (ow_pos ow + 1) (winSize ow)); lia.
    + rewrite <- Hout. unfold slice. by rewrite app_nil_r.
    + apply Hh0. replace (0 - (ow_pos ow + 1)) with ((-1) * winSize ow) by lia.
      apply Z.mod_mul. lia.
  - eexists. split; [done|]. split; [|done].
    constructor; cbn [ow_w ow_buf winSize ow_pos streamPos]; try lia.
    + rewrite Hlen, Hms. destruct (Z.eqb_spec (ow_pos ow + 1) (winSize ow)); lia.
    + done.
    + apply Hh1. by rewrite Z.sub_diag, Z.mod_0_l by lia.
Qed.

(** ** copyBlock implements the LZ77 copy *)

Lemma copyBlock_loop_S n pos ow :
  copyBlock_loop (S n) pos ow =
  (b ← index (ow_buf ow) (if winSize ow <=? pos then 0 else pos);
   ow' ← putByte b ow;
   copyBlock_loop n (u32 ((if winSize ow <=? pos then 0 else pos) + 1)) ow').
Proof.
  cbn [copyBlock_loop]. unfold putByte.
  destruct (index (ow_buf ow) _) as [b| |]; [|reflexivity|reflexivity]. cbn.
  destruct (store (ow_buf ow) (ow_pos ow) b); reflexivity.
Qed.

(** The read position one step later is again [d] + 1 behind the write position. *)
Lemma read_pos_step ow ow' h b d :
  win_rel ow h -> win_rel ow' (h ++ [b]) -> winSize ow' = winSize ow ->
  0 <= d < winSize ow ->
  let p := (ow_pos ow - d - 1) mod winSize ow in
  u32 (p + 1) mod winSize ow' = (ow_pos ow' - d - 1) mod winSize ow' /\
   0 <= u32 (p + 1) <= winSize ow'.
Proof.
  intros Hr Hr' Hsz Hd p. rewrite Hsz. pose proof (wr_size _ _ Hr) as Hs.
  pose proof (Z.mod_pos_bound (ow_pos ow - d - 1) (winSize ow) ltac:(lia)) as Hp. fold p in Hp.
  rewrite wrap_id by lia. split; [|lia].
  pose proof (wr_mod _ _ Hr) as Hm. pose proof (wr_mod _ _ Hr') as Hm'.
  rewrite length_app in Hm'; cbn [length] in Hm'. rewrite Hsz in Hm'.
  set (n := Z.of_nat (length h)) in *. set (W := winSize ow) in *.
  pose proof (Z.div_mod n W ltac:(lia)) as E1. rewrite Hm in E1.
  assert (E2 : ow_pos ow' = n + 1 - W * ((n + 1) / W)).
  { rewrite <- Hm'. replace (Z.of_nat (length h + 1)) with (n + 1) by lia.
    pose proof (Z.div_mod (n + 1) W ltac:(lia)). lia. }
  unfold p. rewrite Zplus_mod_idemp_l, E2.
  replace (ow_pos ow - d - 1 + 1) with (n - d + (- (n / W)) * W) by lia.
  replace (n + 1 - W * ((n + 1) / W) - d - 1) with (n - d + (- ((n + 1) / W)) * W) by lia.
  by rewrite !Z.mod_add by lia.
Qed.

Lemma copyBlock_loop_spec n d : forall pos ow h h',
  win_rel ow h -> Z.of_nat d < winSize ow -> (d < length h)%nat ->
  0 <= pos <= winSize ow -> pos mod winSize ow = (ow_pos ow - Z.of_nat d - 1) mod winSize ow ->
  lz_copy d n h = Some h' ->
  exists ow', copyBlock_loop n pos ow = Ret ow' /\ win_rel ow' h' /\ winSize ow' = winSize ow.
Proof.
  induction n as [|n IH]; intros pos ow h h' Hr Hd Hl Hpos Hmod Hc.
  { cbn in Hc. injection Hc as <-. exists ow. auto. }
  rewrite copyBlock_loop_S. cbn [lz_copy] in Hc.
  destruct (Nat.ltb_spec d (length h)); [|lia].
  pose proof (wr_size _ _ Hr) as Hs.
  set (p := (ow_pos ow - Z.of_nat d - 1) mod winSize ow) in *.
  assert (Hp : (if winSize ow <=? pos then 0 else pos) = p).
  { destruct (Z.leb_spec (winSize ow) pos).
    - replace pos with (winSize ow) in Hmod by lia. by rewrite Z.mod_same in Hmod by lia.
    - by rewrite Z.mod_small in Hmod by lia. }
  rewrite Hp. unfold index.
  assert (ow_buf ow !! Z.to_nat p = look_back d h) as -> by (by apply (wr_hist _ _ Hr)).
  destruct (look_back d h) as [b|] eqn:Hb; [|discriminate]. cbn [mbind outcome_bind].
  destruct (putByte_spec ow h b Hr) as (ow1 & Hput & Hr1 & Hsz). rewrite Hput.
  cbn [mbind outcome_bind].
  destruct (read_pos_step ow ow1 h b (Z.of_nat d) Hr Hr1 Hsz ltac:(lia)) as [Hs1 Hs2].
  fold p in Hs1, Hs2.
  destruct (IH _ ow1 (h ++ [b]) h' Hr1 ltac:(lia) ltac:(rewrite length_app; lia) Hs2 Hs1 Hc)
    as (ow' & H1 & H2 & H3).
  exists ow'. split; [done|]. split; [done|]. lia.
Qed.

Lemma lz_copy_total d n h : (d < length h)%nat ->
  exists h', lz_copy d n h = Some h' /\ length h' = (length h + n)%nat.
Proof.
  revert h. induction n as [|n IH]; intros h Hl; cbn [lz_copy]; [exists h; split; [done|lia]|].
  destruct (Nat.ltb_spec d (length h)); [|lia]. unfold look_back.
  destruct (lookup_lt_is_Some_2 h (length h - S d)) as [b ->]; [lia|].
  destruct (IH (h ++ [b])) as (h' & -> & Hlen); [rewrite length_app; cbn; lia|].
  exists h'. split; [done|]. rewrite Hlen, length_app. cbn. lia.
Qed.

Lemma copyBlock_spec ow h d n h' : win_rel ow h ->
  Z.of_nat d < winSize ow -> (d < length h)%nat -> lz_copy d n h = Some h' ->
  exists ow', copyBlock (Z.of_nat d) (Z.of_nat n) ow = Ret ow' /\ win_rel ow' h' /\
               winSize ow' = winSize ow.
Proof.
  intros Hr Hd Hl Hc. unfold copyBlock. rewrite Nat2Z.id, (back_pos_spec _ h) by (done || lia).
  pose proof (wr_size _ _ Hr) as Hs.
  pose proof (Z.mod_pos_bound (ow_pos ow - Z.of_nat d - 1) (winSize ow) ltac:(lia)).
  eapply copyBlock_loop_spec; eauto; [lia|]. apply Z.mod_mod. lia.
Qed.

(** ** flush delivers the whole history *)

Lemma ow_flush_spec ow h : win_rel ow h ->
  exists ow', ow_flush ow = Ret ow' /\ ow_w ow' = h.
Proof.
  intros [Hs Hb Hst Hp Hm Ho Hh]. unfold ow_flush.
  rewrite (wrap_id 32 (ow_pos ow - streamPos ow)) by lia.
  destruct (Z.eqb_spec (ow_pos ow - streamPos ow) 0) as [E|E].
  - exists ow. split; [done|]. rewrite Ho. unfold slice.
    replace (Z.to_nat (ow_pos ow) - Z.to_nat (streamPos ow))%nat with O by lia.
    by rewrite app_nil_r.
  - replace (streamPos ow + (ow_pos ow - streamPos ow)) with (ow_pos ow) by lia.
    rewrite (wrap_id 32) by lia.
    destruct (Z.ltb_spec (ow_pos ow) (streamPos ow)); [lia|].
    destruct (Z.ltb_spec (Z.of_nat (length (ow_buf ow))) (ow_pos ow)); [lia|]. cbn [orb].
    eexists. split; [done|]. cbn [ow_w]. done.
Qed.

Lemma look_back_ok d h b : bytes_ok h -> look_back d h = Some b -> byte_ok b.
Proof. intros H E. by eapply Forall_lookup_1. Qed.

Lemma lz_copy_ok d n h h' : bytes_ok h -> lz_copy d n h = Some h' -> bytes_ok h'.
Proof.
  revert h. induction n as [|n IH]; intros h Hh Hc; cbn [lz_copy] in Hc; [by injection Hc as <-|].
  destruct (d <? length h)%nat; [|discriminate].
  destruct (look_back d h) as [b|] eqn:Hb; [|discriminate].
  apply (IH (h ++ [b])); [|done]. apply Forall_app. split; [done|].
  constructor; [by eapply look_back_ok|constructor].
Qed.

Lemma lz_copy_prefix d n h h' : lz_copy d n h = Some h' -> exists t, h' = h ++ t.
Proof.
  revert h. induction n as [|n IH]; intros h Hc; cbn [lz_copy] in Hc.
  { injection Hc as <-. exists []. by rewrite app_nil_r. }
  destruct (d <? length h)%nat; [|discriminate].
  destruct (look_back d h) as [b|]; [|discriminate].
  destruct (IH _ Hc) as [t ->]. exists (b :: t). by rewrite <- app_assoc.
Qed.
