(* ===== verification/LzmaDecoder.v ===== *)
(** lzma2/lzma_decoder.go: the LZMA decoder - state machine on literals, matches, repeats
    and the end marker, header and properties - over the models of LzmaCoders.v and the
    window of LzmaWindow.v.

    [dec_step] is one iteration of the loop of doDecode, [doDecode] the loop (with
    fuel, [None] when it runs out) and the final flush, [decoder] the whole call.
    Properties: on any input the decoder terminates and never panics; decodeProps
    accepts exactly the 225 property bytes. *)

From Stdlib Require Import ZArith Lia.
From stdpp Require Import base numbers option list.
From S2P Require Import Prelude RangeCoder LzmaCoders LzmaWindow.
#[local] Open Scope Z_scope.

(** ** Constants *)
Definition lzmaPropSize := 5.
Definition lzmaHeaderSize := lzmaPropSize + 8.
Definition kNumRepDistances := 4.
Definition kNumStates := 12.
Definition kNumPosSlotBits := 6.
Definition kNumLenToPosStatesBits := 2.
Definition kNumLenToPosStates := Z.shiftl 1 kNumLenToPosStatesBits.
Definition kMatchMinLen := 2.
Definition kNumAlignBits := 4.
Definition kAlignTableSize := Z.shiftl 1 kNumAlignBits.
Definition kAlignMask := kAlignTableSize - 1.
Definition kStartPosModelIndex := 4.
Definition kEndPosModelIndex := 14.
Definition kNumFullDistances := Z.shiftl 1 (kEndPosModelIndex / 2).
Definition kNumLitContextBitsMax := 8.
Definition kMatchMaxLen := kMatchMinLen + kNumLenSymbols - 1.

(** ** The state machine *)

Definition stateUpdateChar (index : Z) : Z :=
  if index <? 4 then 0 else if index <? 10 then u32 (index - 3) else u32 (index - 6).
Definition stateUpdateMatch (index : Z) : Z := if index <? 7 then 7 else 10.
Definition stateUpdateRep (index : Z) : Z := if index <? 7 then 8 else 11.
Definition stateUpdateShortRep (index : Z) : Z := if index <? 7 then 9 else 11.
Definition stateIsCharState (index : Z) : bool := index <? 7.

Definition getLenToPosState (length : Z) : Z :=
  let length := u32 (length - kMatchMinLen) in
  if length <? kNumLenToPosStates then length else kNumLenToPosStates - 1.

(** util.go *)
Definition maxUInt32 (left right : Z) : Z := if right <? left then left else right.

(** ** Properties byte and dictionary size *)

Record props := mkProps {
  litContextBits : Z; litPosStateBits : Z; posStateBits : Z; dictSize : Z
}.

(** The loop reading dictSize, [n] bytes left, from [i]. *)
Fixpoint dictSize_loop (n : nat) (i dictSize : Z) (buf : list Z) : outcome lzma_error Z :=
  match n with
  | O => Ret dictSize
  | S n' => b ← index buf (i + 1);
            dictSize_loop n' (i + 1) (u32 (dictSize + u32 (Z.shiftl b (i * 8)))) buf
  end.

Definition decodeProps (buf : list Z) : outcome lzma_error props :=
  d ← index buf 0;
  if 9 * 5 * 5 <? d then Fail headerError
  else
    let lc := d mod 9 in
    let d := d / 9 in
    let pb := d / 5 in
    let lp := d mod 5 in
    if (kNumLitContextBitsMax <? lc) || (4 <? lp) || (kNumPosStatesBitsMax <? pb)
    then Fail headerError
    else
      dict ← dictSize_loop 4 0 0 buf;
      Ret (mkProps lc lp pb dict).

(** The loop reading unpackSize, an int64, from the eight bytes after the properties. *)
Fixpoint unpackSize_loop (n : nat) (i unpackSize : Z) (header : list Z) : outcome lzma_error Z :=
  match n with
  | O => Ret unpackSize
  | S n' => b ← index header (lzmaPropSize + i);
            unpackSize_loop n' (i + 1) (Z.lor unpackSize (i64 (Z.shiftl b (8 * i)))) header
  end.

(** ** The adaptive models of a decoder *)

Record coders := mkCoders {
  matchDecoders : list Z; repDecoders : list Z; repG0Decoders : list Z;
  repG1Decoders : list Z; repG2Decoders : list Z; rep0LongDecoders : list Z;
  posSlotCoders : list (option rangeBitTreeCoder); posDecoders : list Z;
  posAlignCoder : rangeBitTreeCoder;
  lenC : lenCoder; repLenC : lenCoder; litC : litCoder
}.

(** A field that a coder method updates in place. *)
Record field (T : Type) := mkField { get : coders -> T; put : T -> coders -> coders }.
Arguments get {T}.
Arguments put {T}.

Definition fMatch := mkField _ matchDecoders (fun t c => mkCoders t (repDecoders c)
  (repG0Decoders c) (repG1Decoders c) (repG2Decoders c) (rep0LongDecoders c) (posSlotCoders c)
  (posDecoders c) (posAlignCoder c) (lenC c) (repLenC c) (litC c)).
Definition fRep := mkField _ repDecoders (fun t c => mkCoders (matchDecoders c) t
  (repG0Decoders c) (repG1Decoders c) (repG2Decoders c) (rep0LongDecoders c) (posSlotCoders c)
  (posDecoders c) (posAlignCoder c) (lenC c) (repLenC c) (litC c)).
Definition fRepG0 := mkField _ repG0Decoders (fun t c => mkCoders (matchDecoders c)
  (repDecoders c) t (repG1Decoders c) (repG2Decoders c) (rep0LongDecoders c) (posSlotCoders c)
  (posDecoders c) (posAlignCoder c) (lenC c) (repLenC c) (litC c)).
Definition fRepG1 := mkField _ repG1Decoders (fun t c => mkCoders (matchDecoders c)
  (repDecoders c) (repG0Decoders c) t (repG2Decoders c) (rep0LongDecoders c) (posSlotCoders c)
  (posDecoders c) (posAlignCoder c) (lenC c) (repLenC c) (litC c)).
Definition fRepG2 := mkField _ repG2Decoders (fun t c => mkCoders (matchDecoders c)
  (repDecoders c) (repG0Decoders c) (repG1Decoders c) t (rep0LongDecoders c) (posSlotCoders c)
  (posDecoders c) (posAlignCoder c) (lenC c) (repLenC c) (litC c)).
Definition fRep0Long := mkField _ rep0LongDecoders (fun t c => mkCoders (matchDecoders c)
  (repDecoders c) (repG0Decoders c) (repG1Decoders c) (repG2Decoders c) t (posSlotCoders c)
  (posDecoders c) (posAlignCoder c) (lenC c) (repLenC c) (litC c)).
Definition fPosSlot := mkField _ posSlotCoders (fun t c => mkCoders (matchDecoders c)
  (repDecoders c) (repG0Decoders c) (repG1Decoders c) (repG2Decoders c) (rep0LongDecoders c) t
  (posDecoders c) (posAlignCoder c) (lenC c) (repLenC c) (litC c)).
Definition fPos := mkField _ posDecoders (fun t c => mkCoders (matchDecoders c)
  (repDecoders c) (repG0Decoders c) (repG1Decoders c) (repG2Decoders c) (rep0LongDecoders c)
  (posSlotCoders c) t (posAlignCoder c) (lenC c) (repLenC c) (litC c)).
Definition fAlign := mkField _ posAlignCoder (fun t c => mkCoders (matchDecoders c)
  (repDecoders c) (repG0Decoders c) (repG1Decoders c) (repG2Decoders c) (rep0LongDecoders c)
  (posSlotCoders c) (posDecoders c) t (lenC c) (repLenC c) (litC c)).
Definition fLen := mkField _ lenC (fun t c => mkCoders (matchDecoders c)
  (repDecoders c) (repG0Decoders c) (repG1Decoders c) (repG2Decoders c) (rep0LongDecoders c)
  (posSlotCoders c) (posDecoders c) (posAlignCoder c) t (repLenC c) (litC c)).
Definition fRepLen := mkField _ repLenC (fun t c => mkCoders (matchDecoders c)
  (repDecoders c) (repG0Decoders c) (repG1Decoders c) (repG2Decoders c) (rep0LongDecoders c)
  (posSlotCoders c) (posDecoders c) (posAlignCoder c) (lenC c) t (litC c)).
Definition fLit := mkField _ litC (fun t c => mkCoders (matchDecoders c)
  (repDecoders c) (repG0Decoders c) (repG1Decoders c) (repG2Decoders c) (rep0LongDecoders c)
  (posSlotCoders c) (posDecoders c) (posAlignCoder c) (lenC c) (repLenC c) t).

(** Run a coder method on a field. *)
Definition on {T X R} (f : field T) (D : T -> R -> outcome lzma_error (X * T * R))
    (cs : coders) (r : R) : outcome lzma_error (X * coders * R) :=
  '(x, t, r) ← D (get f cs) r; Ret (x, put f t cs, r).

Definition on_e {T R} (f : field T) (E : T -> R -> outcome lzma_error (T * R))
    (cs : coders) (r : R) : outcome lzma_error (coders * R) :=
  '(t, r) ← E (get f cs) r; Ret (put f t cs, r).

Definition rdBit (f : field (list Z)) (i : Z) : coders -> rangeDecoder -> outcome _ _ :=
  on f (fun ps d => decodeBit ps i d).

(** ** doDecode *)

(** The locals of doDecode. *)
Record vars := mkV {
  state : Z; rep0 : Z; rep1 : Z; rep2 : Z; rep3 : Z; nowPos : Z; prevByte : Z
}.

(** The fields of the decoder the loop only reads. *)
Record params := mkP { posStateMask : Z; dictSizeCheck : Z; unpackSize : Z }.

Definition complexState (state posState : Z) : Z :=
  u32 (u32 (Z.shiftl state kNumPosStatesBitsMax) + posState).

Definition set_state (s : Z) (v : vars) : vars :=
  mkV s (rep0 v) (rep1 v) (rep2 v) (rep3 v) (nowPos v) (prevByte v).

(** The branch of a repeated match: which earlier distance, and the length. *)
Definition decode_rep (posState : Z) (v : vars) (cs : coders) (rd : rangeDecoder)
    : outcome lzma_error ((Z * vars) * coders * rangeDecoder) :=
  '(g0, cs, rd) ← rdBit fRepG0 (state v) cs rd;
  '(lv, cs, rd) ←
    (if g0 =? 0 then
       '(l, cs, rd) ← rdBit fRep0Long (complexState (state v) posState) cs rd;
       Ret (if l =? 0 then (1, set_state (stateUpdateShortRep (state v)) v) else (0, v), cs, rd)
     else
       '(g1, cs, rd) ← rdBit fRepG1 (state v) cs rd;
       if g1 =? 0 then
         Ret ((0, mkV (state v) (rep1 v) (rep0 v) (rep2 v) (rep3 v) (nowPos v) (prevByte v)), cs, rd)
       else
         '(g2, cs, rd) ← rdBit fRepG2 (state v) cs rd;
         let '(distance, r3) := if g2 =? 0 then (rep2 v, rep3 v) else (rep3 v, rep2 v) in
         Ret ((0, mkV (state v) distance (rep0 v) (rep1 v) r3 (nowPos v) (prevByte v)), cs, rd));
  let '(length, v) := lv in
  if length =? 0 then
    '(l, cs, rd) ← on fRepLen (lc_decode posState) cs rd;
    Ret ((u32 (l + kMatchMinLen), set_state (stateUpdateRep (state v)) v), cs, rd)
  else Ret ((length, v), cs, rd).

(** The distance of a new match; [None] is the end marker. *)
Definition decode_distance (length : Z) (cs : coders) (rd : rangeDecoder)
    : outcome lzma_error (option Z * coders * rangeDecoder) :=
  '(posSlot, cs, rd) ← on fPosSlot (at_coder (getLenToPosState length) bt_decode) cs rd;
  if kStartPosModelIndex <=? posSlot then
    let numDirectBits := u32 (Z.shiftr posSlot 1 - 1) in
    let rep0 := u32 (Z.shiftl (Z.lor 2 (Z.land posSlot 1)) numDirectBits) in
    if posSlot <? kEndPosModelIndex then
      '(x, cs, rd) ← on fPos (fun ps d =>
         reverseDecodeIndex ps (u32 (u32 (rep0 - posSlot) - 1)) numDirectBits d) cs rd;
      Ret (Some (u32 (rep0 + x)), cs, rd)
    else
      '(x, rd) ← decodeDirectBits rd (u32 (numDirectBits - kNumAlignBits));
      let rep0 := u32 (rep0 + u32 (Z.shiftl x kNumAlignBits)) in
      '(y, cs, rd) ← on fAlign bt_reverseDecode cs rd;
      let rep0 := u32 (rep0 + y) in
      if i32 rep0 <? 0 then
        if rep0 =? 0xFFFFFFFF then Ret (None, cs, rd) else Fail streamError
      else Ret (Some rep0, cs, rd)
  else Ret (Some posSlot, cs, rd).

(** The branch of a new match. *)
Definition decode_newmatch (posState : Z) (v : vars) (cs : coders) (rd : rangeDecoder)
    : outcome lzma_error (option (Z * vars) * coders * rangeDecoder) :=
  '(l, cs, rd) ← on fLen (lc_decode posState) cs rd;
  let length := u32 (l + kMatchMinLen) in
  '(dist, cs, rd) ← decode_distance length cs rd;
  Ret (option_map (fun d => (length, mkV (stateUpdateMatch (state v)) d (rep0 v) (rep1 v)
                                       (rep2 v) (nowPos v) (prevByte v))) dist, cs, rd).

Definition decode_match (posState : Z) (v : vars) (cs : coders) (rd : rangeDecoder)
    : outcome lzma_error (option (Z * vars) * coders * rangeDecoder) :=
  '(r, cs, rd) ← rdBit fRep (state v) cs rd;
  if r =? 1 then
    '(lv, cs, rd) ← decode_rep posState v cs rd; Ret (Some lv, cs, rd)
  else decode_newmatch posState v cs rd.

(** A literal, by the sub-coder of its context; after a match, against the byte at rep0. *)
Definition decode_literal (v : vars) (matchByte : Z) : coders -> rangeDecoder -> outcome _ _ :=
  on fLit (fun lc d =>
    at_sub (getSubCoder lc (u32 (nowPos v)) (prevByte v))
      (if negb (stateIsCharState (state v)) then decodeWithMatchByte matchByte else decodeNormal)
      lc d).

Inductive flow := Continue | Break.

(** One iteration of the loop of doDecode. *)
Definition dec_step (p : params) (v : vars) (cs : coders) (rd : rangeDecoder) (ow : lzOutWindow)
    : outcome lzma_error (flow * vars * coders * rangeDecoder * lzOutWindow) :=
  let posState := Z.land (u32 (nowPos v)) (posStateMask p) in
  '(m, cs, rd) ← rdBit fMatch (complexState (state v) posState) cs rd;
  if m =? 0 then
    matchByte ← (if negb (stateIsCharState (state v)) then getByte (rep0 v) ow else Ret 0);
    '(b, cs, rd) ← decode_literal v matchByte cs rd;
    ow ← putByte b ow;
    Ret (Continue, mkV (stateUpdateChar (state v)) (rep0 v) (rep1 v) (rep2 v) (rep3 v)
                       (u64 (nowPos v + 1)) b, cs, rd, ow)
  else
    '(lv, cs, rd) ← decode_match posState v cs rd;
    match lv with
    | None => Ret (Break, v, cs, rd, ow)
    | Some (length, v) =>
        if (nowPos v <=? rep0 v) || (dictSizeCheck p <=? rep0 v) then Fail streamError
        else
          ow ← copyBlock (rep0 v) length ow;
          b ← getByte 0 ow;
          Ret (Continue, mkV (state v) (rep0 v) (rep1 v) (rep2 v) (rep3 v)
                             (u64 (nowPos v + length)) b, cs, rd, ow)
    end.

Definition loop_cond (p : params) (v : vars) : bool :=
  (unpackSize p <? 0) || (i64 (nowPos v) <? unpackSize p).

Fixpoint dec_loop (fuel : nat) (p : params) (v : vars) (cs : coders) (rd : rangeDecoder)
    (ow : lzOutWindow) : option (outcome lzma_error (lzOutWindow * coders * rangeDecoder)) :=
  if loop_cond p v then
    match fuel with
    | O => None
    | S f =>
        match dec_step p v cs rd ow with
        | Ret (Continue, v, cs, rd, ow) => dec_loop f p v cs rd ow
        | Ret (Break, _, cs, rd, ow) => Some (Ret (ow, cs, rd))
        | Fail e => Some (Fail e)
        | Panic => Some Panic
        end
    end
  else Some (Ret (ow, cs, rd)).

Definition vars0 : vars := mkV 0 0 0 0 0 0 0.

Definition doDecode (fuel : nat) (p : params) (cs : coders) (rd : rangeDecoder)
    (ow : lzOutWindow) : option (outcome lzma_error (lzOutWindow * rangeDecoder)) :=
  (fun r => '(ow, _, rd) ← r; ow ← ow_flush ow; Ret (ow, rd)) <$> dec_loop fuel p vars0 cs rd ow.

(** ** decoder: header, allocation, decoding *)

(** io.ReadFull of [n] bytes. *)
Definition readFull (n : nat) (r : list Z) : outcome lzma_error (list Z * list Z) :=
  if (length r =? 0)%nat then Fail EOF
  else if (length r <? n)%nat then Fail ErrUnexpectedEOF
  else Ret (take n r, drop n r).

Definition newCoders (p : props) : outcome lzma_error coders :=
  let n := u32 (Z.shiftl 1 (posStateBits p)) in
  lenC ← newLenCoder n;
  repLenC ← newLenCoder n;
  Ret (mkCoders
    (initBitModels (Z.shiftl kNumStates kNumPosStatesBitsMax)) (initBitModels kNumStates)
    (initBitModels kNumStates) (initBitModels kNumStates) (initBitModels kNumStates)
    (initBitModels (Z.shiftl kNumStates kNumPosStatesBitsMax))
    (replicate (Z.to_nat kNumLenToPosStates) (Some (newRangeBitTreeCoder kNumPosSlotBits)))
    (initBitModels (kNumFullDistances - kEndPosModelIndex))
    (newRangeBitTreeCoder kNumAlignBits) lenC repLenC
    (newLitCoder (litPosStateBits p) (litContextBits p))).

(** The bytes delivered to the writer and the input left, or the error; [None] when
    the fuel runs out. *)
Definition decoder (fuel : nat) (r : list Z)
    : option (outcome lzma_error (list Z * list Z)) :=
  match
    '(header, r) ← readFull (Z.to_nat lzmaHeaderSize) r;
    prop ← decodeProps header;
    unpackSize ← unpackSize_loop 8 0 0 header;
    rd ← newRangeDecoder r;
    cs ← newCoders prop;
    Ret (prop, unpackSize, rd, cs)
  with
  | Ret (prop, unpackSize, rd, cs) =>
      let dictSizeCheck := maxUInt32 (dictSize prop) 1 in
      let outWin := newLzOutWindow (maxUInt32 dictSizeCheck (Z.shiftl 1 12)) in
      let mask := u32 (Z.shiftl 1 (posStateBits prop) - 1) in
      (fun o => '(ow, rd) ← o; Ret (ow_w ow, rd_r rd)) <$>
        doDecode fuel (mkP mask dictSizeCheck unpackSize) cs rd outWin
  | Fail e => Some (Fail e)
  | Panic => Some Panic
  end.

(** The test vectors of lzma_data_test.go: "hello world\n" with its size in the header,
    and the empty input closed by an end marker. *)
Example decoder_hello_world :
  decoder 20 [0x5d; 0x00; 0x00; 0x10; 0x00; 0x0c; 0x00; 0x00; 0x00; 0x00; 0x00; 0x00; 0x00;
              0x00; 0x34; 0x19; 0x49; 0xee; 0x8d; 0xe9; 0x17; 0x89; 0x3a; 0x33; 0x5f; 0xfc;
              0xac; 0xf7; 0x20; 0x00]
  = Some (Ret ([104; 101; 108; 108; 111; 32; 119; 111; 114; 108; 100; 10], [])).
Proof. vm_compute. reflexivity. Qed.

Example decoder_empty_eos :
  decoder 20 [0x5d; 0x00; 0x00; 0x10; 0x00; 0xff; 0xff; 0xff; 0xff; 0xff; 0xff; 0xff; 0xff;
              0x00; 0x83; 0xff; 0xfb; 0xff; 0xff; 0xc0; 0x00; 0x00; 0x00]
  = Some (Ret ([], [])).
Proof. vm_compute. reflexivity. Qed.

(** ** Invariant of the models *)

(** The literal coder of [lc] context and [lp] position bits. *)
Definition lit_inv (lc lp : Z) (l : litCoder) : Prop :=
  numPrevBits l = lc /\ posMask l = 2 ^ lp - 1 /\
  Z.of_nat (length (lit_coders l)) = 2 ^ (lc + lp) /\ Forall lit_table (lit_coders l).

Record coders_ok (npos lc lp : Z) (c : coders) : Prop := {
  ok_match : table 192 (matchDecoders c);
  ok_rep : table 12 (repDecoders c);
  ok_repG0 : table 12 (repG0Decoders c);
  ok_repG1 : table 12 (repG1Decoders c);
  ok_repG2 : table 12 (repG2Decoders c);
  ok_rep0Long : table 192 (rep0LongDecoders c);
  ok_posSlot : coders_inv 4 6 (posSlotCoders c);
  ok_pos : table 114 (posDecoders c);
  ok_align : bt_inv 4 (posAlignCoder c);
  ok_len : lc_inv npos (lenC c);
  ok_repLen : lc_inv npos (repLenC c);
  ok_lit : lit_inv lc lp (litC c)
}.

(** A field whose value satisfies [Q] in every good coder set, and may be replaced by
    any value that does. *)
Record field_ok {T} (P : coders -> Prop) (Q : T -> Prop) (f : field T) : Prop := {
  fo_get : forall c, P c -> Q (get f c);
  fo_put : forall c t, P c -> Q t -> P (put f t c)
}.

Lemma safe_on {T X} P (Q : T -> Prop) (R : X -> Prop) f D :
  field_ok P Q f -> safe Q R D -> safe P R (on f D).
Proof. intros [Hg Hp] H. by apply (safe_lens P Q R D (get f) (put f)). Qed.

Lemma lossless_on {T X} P (Q : T -> Prop) c f E D (x : X) :
  field_ok P Q f -> lossless Q c E D x -> lossless P c (on_e f E) (on f D) x.
Proof. intros [Hg Hp] H. by apply (lossless_lens P Q c E D x (get f) (put f)). Qed.

Ltac field_ok_tac := constructor; [by intros c [] | by intros c t []; constructor].

Section fields.
Context (npos lc lp : Z).
Let P := coders_ok npos lc lp.
Lemma fMatch_ok : field_ok P (table 192) fMatch. Proof. field_ok_tac. Qed.
Lemma fRep_ok : field_ok P (table 12) fRep. Proof. field_ok_tac. Qed.
Lemma fRepG0_ok : field_ok P (table 12) fRepG0. Proof. field_ok_tac. Qed.
Lemma fRepG1_ok : field_ok P (table 12) fRepG1. Proof. field_ok_tac. Qed.
Lemma fRepG2_ok : field_ok P (table 12) fRepG2. Proof. field_ok_tac. Qed.
Lemma fRep0Long_ok : field_ok P (table 192) fRep0Long. Proof. field_ok_tac. Qed.
Lemma fPosSlot_ok : field_ok P (coders_inv 4 6) fPosSlot. Proof. field_ok_tac. Qed.
Lemma fPos_ok : field_ok P (table 114) fPos. Proof. field_ok_tac. Qed.
Lemma fAlign_ok : field_ok P (bt_inv 4) fAlign. Proof. field_ok_tac. Qed.
Lemma fLen_ok : field_ok P (lc_inv npos) fLen. Proof. field_ok_tac. Qed.
Lemma fRepLen_ok : field_ok P (lc_inv npos) fRepLen. Proof. field_ok_tac. Qed.
Lemma fLit_ok : field_ok P (lit_inv lc lp) fLit. Proof. field_ok_tac. Qed.
End fields.

#[export] Hint Resolve fMatch_ok fRep_ok fRepG0_ok fRepG1_ok fRepG2_ok fRep0Long_ok fPosSlot_ok
  fPos_ok fAlign_ok fLen_ok fRepLen_ok fLit_ok : go_db.

(** The sub-coder index is in range: position bits above, context bits below. *)
Lemma getSubCoder_bound l lc lp pos prev : 0 <= lc <= 8 -> 0 <= lp <= 4 ->
  lit_inv lc lp l -> 0 <= pos -> byte_ok prev ->
  0 <= getSubCoder l pos prev < 2 ^ (lc + lp).
Proof.
  intros Hlc Hlp (E1 & E2 & _) Hpos [Hb1 Hb2]. unfold getSubCoder. rewrite E1, E2.
  replace (2 ^ lp - 1) with (Z.ones lp) by (rewrite Z.ones_equiv; lia).
  rewrite Z.land_ones by lia.
  assert (0 < 2 ^ lp <= 2 ^ 4) by (split; [apply Z.pow_pos_nonneg|apply Z.pow_le_mono_r]; lia).
  assert (0 < 2 ^ lc <= 2 ^ 8) by (split; [apply Z.pow_pos_nonneg|apply Z.pow_le_mono_r]; lia).
  pose proof (Z.mod_pos_bound pos (2 ^ lp) ltac:(lia)) as Hm.
  rewrite Z.shiftl_mul_pow2, Z.shiftr_div_pow2 by (rewrite ?wrap_id by lia; lia).
  rewrite (wrap_id 32 (8 - lc)) by lia.
  assert (E : 2 ^ 8 = 2 ^ lc * 2 ^ (8 - lc)) by (rewrite <- Z.pow_add_r by lia; f_equal; lia).
  assert (0 < 2 ^ (8 - lc)) by (apply Z.pow_pos_nonneg; lia).
  assert (0 <= prev / 2 ^ (8 - lc) < 2 ^ lc)
    by (split; [apply Z.div_pos; lia | apply Z.div_lt_upper_bound; lia]).
  rewrite Z.pow_add_r by lia.
  assert (0 <= pos mod 2 ^ lp * 2 ^ lc <= (2 ^ lp - 1) * 2 ^ lc) by nia.
  assert (2 ^ lp * 2 ^ lc <= 2 ^ 4 * 2 ^ 8) by nia.
  rewrite (wrap_id 32 (_ * _)) by nia. rewrite wrap_id by nia. nia.
Qed.

Section at_sub.
Context (lc lp pos prev : Z) (Hlc : 0 <= lc <= 8) (Hlp : 0 <= lp <= 4)
        (Hpos : 0 <= pos) (Hprev : byte_ok prev).

Lemma lit_inv_lookup l : lit_inv lc lp l ->
  exists t, lit_coders l !! Z.to_nat (getSubCoder l pos prev) = Some t /\ lit_table t.
Proof.
  intros H. pose proof (getSubCoder_bound l lc lp pos prev Hlc Hlp H Hpos Hprev) as Hi.
  destruct H as (_ & _ & HL & HT).
  destruct (lookup_lt_is_Some_2 (lit_coders l) (Z.to_nat (getSubCoder l pos prev))) as [t Ht]; [lia|].
  exists t. split; [done|]. by eapply Forall_lookup_1.
Qed.

Lemma lit_inv_insert l i t : lit_inv lc lp l -> lit_table t ->
  lit_inv lc lp (mkLit (<[i := t]> (lit_coders l)) (numPrevBits l) (posMask l)).
Proof.
  intros (E1 & E2 & E3 & E4) Ht. unfold lit_inv; cbn [lit_coders numPrevBits posMask].
  rewrite length_insert. split_and!; auto. by apply Forall_insert.
Qed.

Lemma safe_sub {X} (Q : X -> Prop) D : safe lit_table Q D ->
  safe (lit_inv lc lp) Q (fun l d => at_sub (getSubCoder l pos prev) D l d).
Proof.
  intros H m l d Hl Hd. destruct (lit_inv_lookup l Hl) as (t & Ht & Htab).
  unfold at_sub. rewrite Ht. specialize (H m t d Htab Hd).
  destruct (D t d) as [[[x t'] d']| |]; cbn; auto.
  destruct H as (? & ? & ?). split_and!; auto. by apply lit_inv_insert.
Qed.

Lemma lossless_sub c E D (x : Z) : lossless lit_table c E D x ->
  lossless (lit_inv lc lp) c
    (fun l e => '(_, l, e) ← at_sub (getSubCoder l pos prev)
                  (fun t e => unit_result (E t e)) l e; Ret (l, e))
    (fun l d => at_sub (getSubCoder l pos prev) D l d) x.
Proof.
  intros H l Hl. destruct (lit_inv_lookup l Hl) as (t & Ht & Htab).
  destruct (H t Htab) as (t' & Htab' & C).
  exists (mkLit (<[Z.to_nat (getSubCoder l pos prev) := t']> (lit_coders l)) (numPrevBits l) (posMask l)).
  split; [by apply lit_inv_insert|]. intros m e He.
  destruct (C m e He) as (e' & HE & Hok & HB). exists e'.
  unfold at_sub, unit_result. rewrite Ht, HE. cbn. split_and!; auto.
  intros B HT. destruct (HB B HT) as [H1 H2]. split; [done|]. intros d Hd.
  destruct (H2 d Hd) as (d' & HD & Hs). exists d'. by rewrite HD.
Qed.
End at_sub.

Lemma newCoders_ok p :
  0 <= litContextBits p <= 8 -> 0 <= litPosStateBits p <= 4 -> 0 <= posStateBits p <= 4 ->
  exists cs, newCoders p = Ret cs /\
    coders_ok (2 ^ posStateBits p) (litContextBits p) (litPosStateBits p) cs.
Proof.
  intros Hlc Hlp Hpb. unfold newCoders.
  assert (0 < 2 ^ posStateBits p <= 2 ^ 4)
    by (split; [apply Z.pow_pos_nonneg|apply Z.pow_le_mono_r]; lia).
  rewrite Z.shiftl_1_l, wrap_id by lia.
  destruct (lc_inv_new (2 ^ posStateBits p)) as (lc & -> & Hinv); [lia|]. cbn [mbind outcome_bind].
  eexists. split; [reflexivity|].
  constructor; cbn [matchDecoders repDecoders repG0Decoders repG1Decoders repG2Decoders
    rep0LongDecoders posSlotCoders posDecoders posAlignCoder lenC repLenC litC];
    try (by apply table_init); try done.
  - intros i Hi. exists (newRangeBitTreeCoder 6). split; [|by apply bt_inv_new].
    apply lookup_replicate. split; [done|]. change (Z.to_nat kNumLenToPosStates) with 4%nat. lia.
  - by apply bt_inv_new.
  - unfold newLitCoder, lit_inv; cbn [lit_coders numPrevBits posMask].
    rewrite (wrap_id 32 (_ + _)) by lia. rewrite !Z.shiftl_1_l.
    assert (0 < 2 ^ litPosStateBits p <= 2 ^ 4)
      by (split; [apply Z.pow_pos_nonneg|apply Z.pow_le_mono_r]; lia).
    assert (0 < 2 ^ (litContextBits p + litPosStateBits p) <= 2 ^ 12)
      by (split; [apply Z.pow_pos_nonneg|apply Z.pow_le_mono_r]; lia).
    rewrite !(wrap_id 32) by (rewrite ?(wrap_id 32); lia).
    split_and!; [done|done| rewrite length_replicate; lia |].
    apply Forall_replicate. by apply table_init.
Qed.

(** ** Safety of one iteration *)

Definition dist_ok (d : Z) : Prop := 0 <= d < 2 ^ 32.
Definition reps_ok (v : vars) : Prop :=
  dist_ok (rep0 v) /\ dist_ok (rep1 v) /\ dist_ok (rep2 v) /\ dist_ok (rep3 v).

(** What decoding a match leaves: a length of 1 to 273, a state, distances; the position
    is untouched. *)
Definition match_result (v : vars) (lv : Z * vars) : Prop :=
  1 <= fst lv <= kMatchMaxLen /\ 0 <= state (snd lv) < 12 /\ reps_ok (snd lv) /\
  nowPos (snd lv) = nowPos v /\ prevByte (snd lv) = prevByte v.

Lemma state_updates_ok s : 0 <= s < 12 ->
  0 <= stateUpdateChar s < 7 /\ 7 <= stateUpdateMatch s < 12 /\ 7 <= stateUpdateRep s < 12 /\
  7 <= stateUpdateShortRep s < 12.
Proof.
  intros. unfold stateUpdateChar, stateUpdateMatch, stateUpdateRep, stateUpdateShortRep.
  zcases; rewrite ?(wrap_id 32) by lia; lia.
Qed.

Lemma complexState_bound s ps npos : 0 <= s < 12 -> 0 <= ps < npos -> npos <= 16 ->
  0 <= complexState s ps < 192.
Proof.
  intros. unfold complexState. rewrite Z.shiftl_mul_pow2 by (vm_compute; discriminate).
  change (2 ^ kNumPosStatesBitsMax) with 16. rewrite (wrap_id 32 (s * 16)), wrap_id by lia. lia.
Qed.

Section decode_safe.
Context (npos lc lp : Z) (Hnpos : 0 < npos <= 16) (Hlc : 0 <= lc <= 8) (Hlp : 0 <= lp <= 4).
Let P := coders_ok npos lc lp.

Lemma rdBit_safe f L i : field_ok P (table L) f -> 0 <= i < L ->
  safe P (fun b => b = 0 \/ b = 1) (rdBit f i).
Proof. intros Hf Hi. apply (safe_on P (table L)); [done|]. by apply decodeBit_safe. Qed.

Lemma on_len_safe f ps : field_ok P (lc_inv npos) f -> 0 <= ps < npos ->
  safe P (fun l => 0 <= l < kNumLenSymbols) (on f (lc_decode ps)).
Proof. intros Hf Hps. apply (safe_on P (lc_inv npos)); [done|]. by apply lc_decode_safe. Qed.

Lemma decode_literal_safe v mb : byte_ok (prevByte v) ->
  safe P byte_ok (decode_literal v mb).
Proof.
  intros Hp. apply (safe_on P (lit_inv lc lp)); [apply fLit_ok|].
  apply safe_sub; [done|done|apply wrap_range; lia|done|].
  destruct (negb _); [apply decodeWithMatchByte_safe | apply decodeNormal_safe].
Qed.

Lemma decode_rep_safe v ps : 0 <= state v < 12 -> reps_ok v -> 0 <= ps < npos ->
  safe P (match_result v) (decode_rep ps v).
Proof.
  intros Hs (R0 & R1 & R2 & R3) Hps. unfold decode_rep.
  destruct (state_updates_ok _ Hs) as (_ & _ & HSr & HSs).
  apply (safe_bind _ (fun b => b = 0 \/ b = 1)); [eapply rdBit_safe; [apply fRepG0_ok|done]|].
  intros g0 Hg0.
  apply (safe_bind _ (fun lv : Z * vars => (fst lv = 0 \/ fst lv = 1) /\
           0 <= state (snd lv) < 12 /\ reps_ok (snd lv) /\
           nowPos (snd lv) = nowPos v /\ prevByte (snd lv) = prevByte v)).
  - destruct (g0 =? 0).
    + apply (safe_bind _ (fun b => b = 0 \/ b = 1)).
      { eapply rdBit_safe; [apply fRep0Long_ok|]. apply (complexState_bound _ _ npos); lia. }
      intros l Hl. apply safe_ret. destruct (l =? 0); cbn; unfold reps_ok; cbn; unfold dist_ok in *; lia.
    + apply (safe_bind _ (fun b => b = 0 \/ b = 1)); [eapply rdBit_safe; [apply fRepG1_ok|done]|].
      intros g1 Hg1. destruct (g1 =? 0).
      { apply safe_ret. unfold reps_ok; cbn. unfold dist_ok in *; lia. }
      apply (safe_bind _ (fun b => b = 0 \/ b = 1)); [eapply rdBit_safe; [apply fRepG2_ok|done]|].
      intros g2 Hg2. destruct (g2 =? 0); apply safe_ret; unfold reps_ok; cbn; unfold dist_ok in *; lia.
  - intros [l w] (Hl & Hw & Hr & Hn & Hb). cbn [fst snd] in *. cbn iota.
    destruct (Z.eqb_spec l 0).
    + apply (safe_bind _ (fun l => 0 <= l < kNumLenSymbols)).
      { apply on_len_safe; [apply fRepLen_ok|done]. }
      intros x Hx. apply safe_ret. change kNumLenSymbols with 272 in Hx.
      destruct (state_updates_ok _ Hw) as (_ & _ & HSr' & _).
      unfold match_result; cbn [fst snd]. change kMatchMinLen with 2.
      rewrite wrap_id by lia. change kMatchMaxLen with 273.
      unfold reps_ok in *; cbn. unfold dist_ok in *; lia.
    + apply safe_ret. unfold match_result; cbn [fst snd]. change kMatchMaxLen with 273.
      unfold reps_ok, dist_ok in *; cbn [fst snd] in *; lia.
Qed.

(** The distance field of [slot]: how many low bits, over which base. *)
Lemma slot_arith slot : 4 <= slot < 64 ->
  let n := u32 (Z.shiftr slot 1 - 1) in
  let base := u32 (Z.shiftl (Z.lor 2 (Z.land slot 1)) n) in
  1 <= n <= 30 /\ n = slot / 2 - 1 /\ base = (2 + slot mod 2) * 2 ^ n /\
  0 <= base /\ base + 2 ^ n <= 2 ^ 32 /\
  (slot < 14 -> n <= 5 /\
     forall m, 1 <= m < 2 ^ n -> 0 <= u32 (u32 (u32 (base - slot) - 1) + m) < 114).
Proof.
  intros Hs n base.
  assert (Hd : 2 <= slot / 2 < 32)
    by (split; [apply Z.div_le_lower_bound | apply Z.div_lt_upper_bound]; lia).
  assert (En : n = slot / 2 - 1).
  { unfold n. rewrite Z.shiftr_div_pow2 by lia. change (2 ^ 1) with 2. rewrite wrap_id; lia. }
  assert (H2 : Z.lor 2 (Z.land slot 1) = 2 + slot mod 2).
  { rewrite land_1. pose proof (Z.mod_pos_bound slot 2 ltac:(lia)).
    assert (slot mod 2 = 0 \/ slot mod 2 = 1) as [-> | ->] by lia; reflexivity. }
  pose proof (Z.mod_pos_bound slot 2 ltac:(lia)) as Hm.
  pose proof (Z.div_mod slot 2 ltac:(lia)) as Hdm.
  assert (Hn : 1 <= n <= 30) by lia.
  assert (Hp : 0 < 2 ^ n <= 2 ^ 30) by (split; [apply Z.pow_pos_nonneg|apply Z.pow_le_mono_r]; lia).
  assert (Eb : base = (2 + slot mod 2) * 2 ^ n).
  { unfold base. rewrite H2, Z.shiftl_mul_pow2 by lia. apply wrap_id. nia. }
  rewrite Eb. split_and!; try lia; try nia.
  intros Hs14. split; [lia|]. intros m Hmm.
  assert (Hc : slot = 4 \/ slot = 5 \/ slot = 6 \/ slot = 7 \/ slot = 8 \/ slot = 9 \/
               slot = 10 \/ slot = 11 \/ slot = 12 \/ slot = 13) by lia.
  rewrite En in *. clear En Eb H2 n base Hn Hp Hm Hdm.
  assert (Hwr : forall a, 0 <= a - slot - 1 + m < 114 ->
            u32 (u32 (u32 (a - slot) - 1) + m) = a - slot - 1 + m).
  { intros a Ha. unfold wrap. rewrite Zplus_mod_idemp_l.
    replace ((a - slot) mod 2 ^ 32 - 1 + m) with ((a - slot) mod 2 ^ 32 + (m - 1)) by lia.
    rewrite Zplus_mod_idemp_l, Z.mod_small by lia. lia. }
  decompose [or] Hc; subst slot;
    (match type of Hmm with _ <= _ < ?b => let v := eval vm_compute in b in change b with v in Hmm end);
    (match goal with |- context [(2 + ?s mod 2) * 2 ^ ?e] =>
       let v := eval vm_compute in ((2 + s mod 2) * 2 ^ e) in
       change ((2 + s mod 2) * 2 ^ e) with v end);
    rewrite Hwr; lia.
Qed.

Lemma getLenToPosState_bound len : 2 <= len < 2 ^ 32 -> 0 <= getLenToPosState len < 4.
Proof.
  intros. unfold getLenToPosState. change kMatchMinLen with 2. change kNumLenToPosStates with 4.
  rewrite wrap_id by lia. zcases; lia.
Qed.

(** Direct bits leave the models alone. *)
Lemma direct_bind_safe {Y} (Q : Y -> Prop) n D : 0 <= n <= 32 ->
  (forall x, 0 <= x < 2 ^ n -> safe P Q (D x)) ->
  safe P Q (fun cs d => '(x, d) ← decodeDirectBits d n; D x cs d).
Proof.
  intros Hn HD m cs d Hcs Hd.
  pose proof (safe_bind P _ Q _ (fun x cs d => D x cs d) (decodeDirectBits_safe P n Hn) HD m cs d Hcs Hd) as H.
  cbn beta in H. by destruct (decodeDirectBits d n) as [[x d']| |].
Qed.

Lemma decode_distance_safe len : 2 <= len <= kMatchMaxLen ->
  safe P (fun o => match o with Some d => dist_ok d | None => True end) (decode_distance len).
Proof.
  intros Hlen. change kMatchMaxLen with 273 in Hlen. unfold decode_distance.
  apply (safe_bind _ (fun s => 0 <= s < 2 ^ 6)).
  { apply (safe_on P (coders_inv 4 6)); [apply fPosSlot_ok|].
    apply safe_at; [apply getLenToPosState_bound; lia|]. by apply bt_decode_safe. }
  intros slot Hslot. change kStartPosModelIndex with 4. change kEndPosModelIndex with 14.
  destruct (Z.leb_spec 4 slot).
  2: { apply safe_ret. unfold dist_ok. lia. }
  cbn zeta. destruct (slot_arith slot ltac:(lia)) as (Hn & En & Eb & Hb0 & Hb1 & Hidx).
  set (n := u32 (Z.shiftr slot 1 - 1)) in *.
  set (base := u32 (Z.shiftl (Z.lor 2 (Z.land slot 1)) n)) in *.
  destruct (Z.ltb_spec slot 14).
  - destruct (Hidx ltac:(lia)) as [Hn5 Hix].
    apply (safe_bind _ (fun v => 0 <= v < 2 ^ n)).
    { apply (safe_on P (table 114)); [apply fPos_ok|]. apply reverseDecodeIndex_safe; [lia|done]. }
    intros x Hx. apply safe_ret. apply wrap_range. lia.
  - assert (6 <= n).
    { assert (7 <= slot / 2) by (apply Z.div_le_lower_bound; lia). lia. }
    clearbody n. change kNumAlignBits with 4. rewrite (wrap_id 32 (n - 4)) by lia.
    apply direct_bind_safe; [lia|]. intros x Hx.
    apply (safe_bind _ (fun v => 0 <= v < 2 ^ 4)).
    { apply (safe_on P (bt_inv 4)); [apply fAlign_ok|]. by apply bt_reverseDecode_safe. }
    intros y Hy. destruct (i32 _ <? 0); [destruct (_ =? _)|].
    + by apply safe_ret.
    + by intros m cs d _ _.
    + apply safe_ret. apply wrap_range. lia.
Qed.

Lemma decode_match_safe v ps : 0 <= state v < 12 -> reps_ok v -> 0 <= ps < npos ->
  safe P (fun o => match o with Some lv => match_result v lv | None => True end)
    (decode_match ps v).
Proof.
  intros Hs Hr Hps. unfold decode_match.
  apply (safe_bind _ (fun b => b = 0 \/ b = 1)); [eapply rdBit_safe; [apply fRep_ok|done]|].
  intros b Hb. destruct (b =? 1).
  - apply (safe_bind _ (match_result v)); [by apply decode_rep_safe|].
    intros lv Hlv. by apply safe_ret.
  - unfold decode_newmatch. apply (safe_bind _ (fun l => 0 <= l < kNumLenSymbols)).
    { apply on_len_safe; [apply fLen_ok|done]. }
    intros l Hl. change kNumLenSymbols with 272 in Hl. change kMatchMinLen with 2.
    rewrite wrap_id by lia.
    eapply (safe_bind _ _ _ _ (fun o cs d => Ret (option_map _ o, cs, d))).
    { apply (decode_distance_safe (l + 2)). change kMatchMaxLen with 273. lia. }
    intros [d|] Hd; apply safe_ret; cbn [option_map]; [|done].
    destruct (state_updates_ok _ Hs) as (_ & HSm & _). destruct Hr as (? & ? & ? & ?).
    unfold match_result, reps_ok, dist_ok in *; cbn. change kMatchMaxLen with 273. lia.
Qed.
End decode_safe.

(** ** The state of the loop

    [dec_inv p v ow h]: the window stands for the history [h], the position is its
    length, and after a match the distance rep0 reaches into the history. *)
Record dec_inv (p : params) (v : vars) (ow : lzOutWindow) (h : list Z) : Prop := {
  di_win : win_rel ow h;
  di_size : 0 < dictSizeCheck p <= winSize ow;
  di_bytes : bytes_ok h;
  di_state : 0 <= state v < 12;
  di_reps : reps_ok v;
  di_pos : nowPos v = u64 (Z.of_nat (length h));
  di_prev : byte_ok (prevByte v);
  di_rep0 : 7 <= state v -> rep0 v < dictSizeCheck p /\ rep0 v < Z.of_nat (length h)
}.

Lemma u64_length_le (h : list Z) : 0 <= u64 (Z.of_nat (length h)) <= Z.of_nat (length h).
Proof. unfold wrap. split; [apply Z.mod_pos_bound; lia | apply Z.mod_le; lia]. Qed.

Lemma u64_app (h t : list Z) n : n = Z.of_nat (length t) ->
  u64 (u64 (Z.of_nat (length h)) + n) = u64 (Z.of_nat (length (h ++ t))).
Proof. intros ->. unfold wrap. rewrite Zplus_mod_idemp_l, length_app. f_equal. lia. Qed.

Lemma getByte_ok ow h d : win_rel ow h -> bytes_ok h ->
  0 <= d < winSize ow -> d < Z.of_nat (length h) ->
  exists b, getByte d ow = Ret b /\ look_back (Z.to_nat d) h = Some b /\ byte_ok b.
Proof.
  intros Hw Hb Hd Hl. destruct (getByte_spec ow h (Z.to_nat d) Hw) as (b & Hg & Hk); [lia|lia|].
  rewrite Z2Nat.id in Hg by lia. exists b. split_and!; auto. by eapply look_back_ok.
Qed.

(** A literal extends the history by its byte. *)
Lemma dec_inv_literal p v ow h b : dec_inv p v ow h -> byte_ok b ->
  exists ow', putByte b ow = Ret ow' /\
    dec_inv p (mkV (stateUpdateChar (state v)) (rep0 v) (rep1 v) (rep2 v) (rep3 v)
                   (u64 (nowPos v + 1)) b) ow' (h ++ [b]).
Proof.
  intros [Hw Hsz Hb Hst Hr Hp Hpb Hr0] Hbo.
  destruct (putByte_spec ow h b Hw) as (ow' & -> & Hw' & Hs'). exists ow'. split; [done|].
  destruct (state_updates_ok _ Hst) as (HSc & _).
  constructor; cbn [state rep0 rep1 rep2 rep3 nowPos prevByte]; auto; try lia.
  - apply Forall_app. split; [done|]. by constructor.
  - rewrite Hp. by apply u64_app.
Qed.

(** A match extends it by the LZ77 copy. *)
Lemma dec_inv_match p v ow h len w : dec_inv p v ow h -> match_result v (len, w) ->
  (nowPos w <=? rep0 w) || (dictSizeCheck p <=? rep0 w) = false ->
  exists h' ow' b, lz_copy (Z.to_nat (rep0 w)) (Z.to_nat len) h = Some h' /\
    copyBlock (rep0 w) len ow = Ret ow' /\ getByte 0 ow' = Ret b /\
    look_back 0 h' = Some b /\
    dec_inv p (mkV (state w) (rep0 w) (rep1 w) (rep2 w) (rep3 w) (u64 (nowPos w + len)) b) ow' h'.
Proof.
  intros [Hw Hsz Hb Hst Hr Hp Hpb Hr0] (Hlen & Hst' & Hr' & Hn & _) Hchk. cbn [fst snd] in *.
  zbool. rewrite Hn, Hp in *. pose proof (u64_length_le h).
  pose proof (proj1 Hr') as Hd0. unfold dist_ok in Hd0.
  destruct (lz_copy_total (Z.to_nat (rep0 w)) (Z.to_nat len) h) as (h' & Hc & Hlh); [lia|].
  destruct (copyBlock_spec ow h (Z.to_nat (rep0 w)) (Z.to_nat len) h' Hw) as (ow' & Hcb & Hw' & Hs');
    [lia|lia|done|]. rewrite !Z2Nat.id in Hcb by lia.
  pose proof (lz_copy_ok _ _ _ _ Hb Hc) as Hb'.
  pose proof (wr_size _ _ Hw) as Hws.
  destruct (getByte_ok ow' h' 0 Hw' Hb') as (b & Hg & Hlb & Hbo); [lia|lia|].
  exists h', ow', b. split_and!; auto.
  destruct (lz_copy_prefix _ _ _ _ Hc) as [t ->].
  constructor; cbn [state rep0 rep1 rep2 rep3 nowPos prevByte]; auto; try lia.
  apply u64_app. rewrite length_app in Hlh. lia.
Qed.

Lemma posState_bound pos pb : 0 <= pb <= 4 ->
  0 <= Z.land (u32 pos) (2 ^ pb - 1) < 2 ^ pb.
Proof.
  intros. replace (2 ^ pb - 1) with (Z.ones pb) by (rewrite Z.ones_equiv; lia).
  rewrite Z.land_ones by lia. apply Z.mod_pos_bound. apply Z.pow_pos_nonneg; lia.
Qed.

(** One iteration never panics, keeps the invariants and uses up some of the input. *)
Lemma dec_step_safe pb lc lp p v cs rd ow h m :
  0 <= pb <= 4 -> 0 <= lc <= 8 -> 0 <= lp <= 4 -> posStateMask p = 2 ^ pb - 1 ->
  dec_inv p v ow h -> coders_ok (2 ^ pb) lc lp cs -> dec_ok m rd ->
  match dec_step p v cs rd ow with
  | Ret (_, v', cs', rd', ow') =>
      coders_ok (2 ^ pb) lc lp cs' /\ dec_ok (m - 1) rd' /\ exists h', dec_inv p v' ow' h'
  | Fail _ => True
  | Panic => False
  end.
Proof.
  intros Hpb Hlc Hlp Hmask Hinv Hcs Hrd.
  assert (Hnp : 0 < 2 ^ pb <= 16) by (split; [apply Z.pow_pos_nonneg; lia | apply (Z.pow_le_mono_r 2 pb 4); lia]).
  unfold dec_step. rewrite Hmask. pose proof (posState_bound (nowPos v) pb Hpb) as Hps.
  set (ps := Z.land (u32 (nowPos v)) (2 ^ pb - 1)) in *.
  pose proof Hinv as [Hw Hsz Hb Hst Hr Hp Hpb' Hr0].
  unfold rdBit at 1, on at 1. cbn [get put fMatch].
  pose proof (decodeBit_progress 192 _ m _ rd
                (complexState_bound _ ps (2 ^ pb) Hst Hps ltac:(lia)) (ok_match _ _ _ _ Hcs) Hrd) as HB.
  destruct (decodeBit _ _ rd) as [[[bit t] rd1]| |]; cbn [mbind outcome_bind]; [|done|done].
  destruct HB as (Hbit & Ht & Hrd1).
  pose proof (fo_put _ _ _ (fMatch_ok _ _ _) cs t Hcs Ht) as Hcs1. cbn [put fMatch] in Hcs1.
  match type of Hcs1 with coders_ok _ _ _ ?c => set (cs1 := c) in *; clearbody cs1 end.
  destruct (bit =? 0).
  - assert (Hmb : exists mb, (if negb (stateIsCharState (state v)) then getByte (rep0 v) ow else Ret 0) = Ret mb).
    { unfold stateIsCharState. destruct (Z.ltb_spec (state v) 7); cbn [negb]; [eauto|].
      destruct (getByte_ok ow h (rep0 v) Hw Hb) as (b & Hg & _); [|lia|eauto].
      pose proof (proj1 Hr) as Hd. unfold dist_ok in Hd. lia. }
    destruct Hmb as [mb ->]. cbn [mbind outcome_bind].
    pose proof (decode_literal_safe (2 ^ pb) lc lp Hlc Hlp v mb Hpb' _ _ _ Hcs1 Hrd1) as HL.
    destruct (decode_literal v mb _ rd1) as [[[b cs2] rd2]| |]; cbn [mbind outcome_bind]; [|done|done].
    destruct HL as (Hbo & Hcs2 & Hrd2).
    destruct (dec_inv_literal p v ow h b Hinv Hbo) as (ow' & -> & Hinv'). cbn [mbind outcome_bind]. eauto.
  - pose proof (decode_match_safe (2 ^ pb) lc lp Hnp v ps Hst Hr Hps _ _ _ Hcs1 Hrd1) as HM.
    destruct (decode_match ps v _ rd1) as [[[o cs2] rd2]| |]; cbn [mbind outcome_bind]; [|done|done].
    destruct HM as (Ho & Hcs2 & Hrd2). destruct o as [[len w]|]; [|eauto].
    destruct ((nowPos w <=? rep0 w) || (dictSizeCheck p <=? rep0 w)) eqn:Hchk; [done|].
    destruct (dec_inv_match p v ow h len w Hinv Ho Hchk) as (h' & ow' & b & _ & -> & Hg & _ & Hinv').
    cbn [mbind outcome_bind]. rewrite Hg. cbn [mbind outcome_bind]. eauto.
Qed.

(** The loop ends: the measure of the input left bounds the iterations. *)
Lemma dec_loop_terminates pb lc lp p :
  0 <= pb <= 4 -> 0 <= lc <= 8 -> 0 <= lp <= 4 -> posStateMask p = 2 ^ pb - 1 ->
  forall fuel v cs rd ow h, (Z.to_nat (rd_measure rd) <= fuel)%nat ->
  dec_inv p v ow h -> coders_ok (2 ^ pb) lc lp cs -> dec_ok (rd_measure rd) rd ->
  exists o, dec_loop fuel p v cs rd ow = Some o /\
    match o with
    | Ret (ow', _, rd') => (exists h', win_rel ow' h' /\ bytes_ok h') /\ bytes_ok (rd_r rd')
    | Fail _ => True
    | Panic => False
    end.
Proof.
  intros Hpb Hlc Hlp Hmask.
  induction fuel as [|fuel IH]; intros v cs rd ow h Hf Hinv Hcs Hrd; cbn [dec_loop].
  { destruct Hrd as (HR & _). unfold rd_measure in Hf. lia. }
  pose proof (dec_step_safe pb lc lp p v cs rd ow h _ Hpb Hlc Hlp Hmask Hinv Hcs Hrd) as HS.
  destruct (loop_cond p v).
  2: { eexists. split; [done|]. destruct Hinv, Hrd as (_ & _ & ? & _). eauto. }
  destruct (dec_step p v cs rd ow) as [[[[[fl v'] cs'] rd'] ow']| |]; [| eauto | done].
  destruct HS as (Hcs' & Hrd' & h' & Hinv'). pose proof Hrd' as (HR & HC & HB & HM).
  destruct fl.
  - eapply (IH _ _ _ _ h'); [|done|done|].
    + unfold rd_measure in *. lia.
    + unfold dec_ok. split_and!; auto; lia.
  - eexists. split; [done|]. destruct Hinv'. eauto.
Qed.

(** More fuel does not change the result. *)
Lemma dec_loop_mono p : forall fuel fuel' v cs rd ow o, (fuel <= fuel')%nat ->
  dec_loop fuel p v cs rd ow = Some o -> dec_loop fuel' p v cs rd ow = Some o.
Proof.
  induction fuel as [|fuel IH]; intros [|fuel'] v cs rd ow o Hle H; cbn [dec_loop] in *;
    destruct (loop_cond p v); try done; try lia.
  destruct (dec_step p v cs rd ow) as [[[[[[] v'] cs'] rd'] ow']| |]; try done.
  apply (IH fuel'); [lia|done].
Qed.

(** ** Header *)

Lemma dictSize_loop_spec d b0 b1 b2 b3 rest : bytes_ok [b0; b1; b2; b3] ->
  dictSize_loop 4 0 0 (d :: b0 :: b1 :: b2 :: b3 :: rest) = Ret (le_get [b0; b1; b2; b3]).
Proof.
  intros H. repeat (apply Forall_cons in H as [?H H]). unfold byte_ok in *. clear H.
  unfold dictSize_loop, index. change (Z.to_nat (0 + 1)) with 1%nat.
  change (Z.to_nat (0 + 1 + 1)) with 2%nat. change (Z.to_nat (0 + 1 + 1 + 1)) with 3%nat.
  change (Z.to_nat (0 + 1 + 1 + 1 + 1)) with 4%nat.
  cbn [lookup list_lookup mbind outcome_bind]. unfold le_get.
  rewrite !Z.shiftl_mul_pow2 by lia.
  unfold wrap.
  change (2 ^ (0 * 8)) with 1. change (2 ^ ((0 + 1) * 8)) with (2 ^ 8).
  change (2 ^ ((0 + 1 + 1) * 8)) with (2 ^ 16). change (2 ^ ((0 + 1 + 1 + 1) * 8)) with (2 ^ 24).
  repeat (rewrite ?Zplus_mod_idemp_r; rewrite ?Zplus_mod_idemp_l).
  rewrite !Z.mod_small by (rewrite ?Z.mod_small by lia; lia). f_equal. lia.
Qed.

(** The header values of a decoded properties byte are in range. *)
Lemma decodeProps_ok buf p : bytes_ok buf -> decodeProps buf = Ret p ->
  0 <= litContextBits p <= 8 /\ 0 <= litPosStateBits p <= 4 /\ 0 <= posStateBits p <= 4.
Proof.
  intros Hb. unfold decodeProps, index. change (Z.to_nat 0) with O.
  destruct buf as [|d buf]; [done|]. apply Forall_cons in Hb as [Hd _]. unfold byte_ok in Hd.
  cbn [lookup list_lookup mbind outcome_bind].
  destruct (9 * 5 * 5 <? d); [done|].
  destruct (_ || _) eqn:E; [done|]. change kNumLitContextBitsMax with 8 in E.
  change kNumPosStatesBitsMax with 4 in E. zbool.
  destruct (dictSize_loop _ _ _ _); cbn; [|done|done]. intros [= <-]; cbn.
  pose proof (Z.mod_pos_bound d 9 ltac:(lia)).
  pose proof (Z.mod_pos_bound (d / 9) 5 ltac:(lia)).
  assert (0 <= d / 9) by (apply Z.div_pos; lia).
  assert (0 <= d / 9 / 5) by (apply Z.div_pos; lia). lia.
Qed.

Lemma newRangeDecoder_safe r : bytes_ok r ->
  match newRangeDecoder r with
  | Ret d => dec_ok (rd_measure d) d /\ rd_measure d <= 2 ^ 32 * Z.of_nat (length r)
  | Fail _ => True
  | Panic => False
  end.
Proof.
  intros Hb. unfold newRangeDecoder. destruct (Nat.eqb_spec (length r) 0); [done|].
  destruct (Nat.ltb_spec (length r) 5); [done|].
  unfold dec_ok, rd_measure; cbn [rd_r rd_rrange rd_code]. rewrite length_drop.
  split; [|lia]. assert (Ht : bytes_ok (take 5 r)) by (by apply Forall_take).
  split_and!; try lia; [| |by apply Forall_drop].
  all: remember (take 5 r) as l eqn:El; assert (Hl : (length l <= 5)%nat) by (subst l; rewrite length_take; lia).
  all: clear -Ht.
  all: enough (H : forall acc, 0 <= acc < 2 ^ 32 ->
    0 <= foldl (fun code b => Z.lor (u32 (Z.shiftl code 8)) b) acc l < 2 ^ 32)
    by (destruct (H 0 ltac:(lia)); assumption).
  all: induction Ht as [|b l Hb _ IH]; intros acc Ha; cbn [foldl]; [done|apply IH].
  all: rewrite Z.shiftl_mul_pow2 by lia.
  all: assert (u32 (acc * 2 ^ 8) = 256 * (acc mod 2 ^ 24)) as ->
    by (unfold wrap; change (2 ^ 32) with (2 ^ 24 * 2 ^ 8); rewrite Zmult_mod_distr_r; lia).
  all: pose proof (Z.mod_pos_bound acc (2 ^ 24) ltac:(lia)).
  all: rewrite lor_byte by (done || lia); unfold byte_ok in Hb; lia.
Qed.

Lemma dec_inv_new p n : 0 < dictSizeCheck p <= n -> n <= 2 ^ 31 ->
  dec_inv p vars0 (newLzOutWindow n) [].
Proof.
  intros Hd Hn. constructor; cbn [vars0 state rep0 nowPos prevByte length newLzOutWindow winSize];
    try lia; try done.
  - apply win_rel_new. lia.
  - constructor.
Qed.

Lemma unpackSize_loop_ret n i u header :
  0 <= i -> (Z.to_nat (lzmaPropSize + i) + n <= length header)%nat ->
  exists s, unpackSize_loop n i u header = Ret s.
Proof.
  revert i u. induction n as [|n IH]; intros i u Hi Hl; cbn [unpackSize_loop]; [eauto|].
  change lzmaPropSize with 5 in *. unfold index.
  destruct (lookup_lt_is_Some_2 header (Z.to_nat (5 + i))) as [b ->]; [lia|].
  cbn [mbind outcome_bind]. apply IH; lia.
Qed.

Lemma five_bytes (l : list Z) : (5 <= length l)%nat ->
  exists d b0 b1 b2 b3 rest, l = d :: b0 :: b1 :: b2 :: b3 :: rest.
Proof. destruct l as [|? [|? [|? [|? [|? ?]]]]]; cbn; intros; try lia. do 6 eexists. done. Qed.

Lemma decodeProps_eq d b0 b1 b2 b3 rest : bytes_ok [d; b0; b1; b2; b3] ->
  decodeProps (d :: b0 :: b1 :: b2 :: b3 :: rest) =
  if d <? 225 then Ret (mkProps (d mod 9) (d / 9 mod 5) (d / 45) (le_get [b0; b1; b2; b3]))
  else Fail headerError.
Proof.
  intros Hb. pose proof Hb as Hb'. apply Forall_cons in Hb' as [Hd Hbs]. unfold byte_ok in Hd.
  unfold decodeProps. unfold index at 1. change (Z.to_nat 0) with O.
  cbn [lookup list_lookup mbind outcome_bind].
  change kNumLitContextBitsMax with 8. change kNumPosStatesBitsMax with 4.
  rewrite dictSize_loop_spec by done. cbn [mbind outcome_bind].
  rewrite (Z.div_div d 9 5) by lia. change (9 * 5) with 45.
  pose proof (Z.mod_pos_bound d 9 ltac:(lia)).
  pose proof (Z.mod_pos_bound (d / 9) 5 ltac:(lia)).
  pose proof (Z.div_mod d 45 ltac:(lia)). pose proof (Z.mod_pos_bound d 45 ltac:(lia)).
  change (45 * 5) with 225.
  repeat match goal with |- context [?a <? ?b] => destruct (Z.ltb_spec a b) end;
    cbn [orb]; try done; exfalso; lia.
Qed.

(** ** Properties *)

(** decodeProps.  Of the 256 property bytes exactly those below 225 are accepted,
    although the first check lets 225 through; they decode to lc = d mod 9,
    lp = d/9 mod 5, pb = d/45, and the dictionary size is the little-endian value of the
    four bytes that follow. *)
Theorem decodeProps_spec d b0 b1 b2 b3 rest :
  bytes_ok [d; b0; b1; b2; b3] ->
  decodeProps (d :: b0 :: b1 :: b2 :: b3 :: rest) =
    (if d <? 225 then Ret (mkProps (d mod 9) (d / 9 mod 5) (d / 45) (le_get [b0; b1; b2; b3]))
     else Fail headerError) /\
  (forall lc lp pb, 0 <= lc <= 8 -> 0 <= lp <= 4 -> 0 <= pb <= 4 ->
     decodeProps (u8 ((pb * 5 + lp) * 9 + lc) :: b0 :: b1 :: b2 :: b3 :: rest) =
     Ret (mkProps lc lp pb (le_get [b0; b1; b2; b3]))).
Proof.
  intros Hb. split; [by apply decodeProps_eq|]. intros lc lp pb Hlc Hlp Hpb.
  rewrite wrap_id by lia. rewrite decodeProps_eq.
  2: { apply Forall_cons in Hb as [_ Hb]. constructor; [unfold byte_ok; lia | done]. }
  destruct (Z.ltb_spec ((pb * 5 + lp) * 9 + lc) 225); [|lia].
  rewrite (Z.add_comm _ lc), Z.mod_add, Z.div_add by lia.
  rewrite (Z.mod_small lc), (Z.div_small lc) by lia. rewrite Z.add_0_l.
  rewrite (Z.add_comm _ lp), Z.mod_add, (Z.mod_small lp) by lia.
  do 2 f_equal. symmetry. apply (Z.div_unique_pos _ _ _ (lp * 9 + lc)); lia.
Qed.

Lemma decodeProps_spec_witness :
  bytes_ok [0x5d; 0; 0; 0x10; 0] /\
  decodeProps (0x5d :: 0 :: 0 :: 0x10 :: 0 :: []) = Ret (mkProps 3 0 2 (2 ^ 20)).
Proof.
  assert (H : bytes_ok [0x5d; 0; 0; 0x10; 0])
    by (repeat (apply Forall_cons; split; [unfold byte_ok; lia|]); constructor).
  split; [exact H|]. exact (proj1 (decodeProps_spec 0x5d 0 0 0x10 0 [] H)).
Defined.

Lemma readFull_app h t : length h = 13%nat -> readFull (Z.to_nat lzmaHeaderSize) (h ++ t) = Ret (h, t).
Proof.
  intros Hh. unfold readFull. change (Z.to_nat lzmaHeaderSize) with 13%nat. rewrite length_app, Hh.
  cbn [Nat.add Nat.eqb Nat.ltb Nat.leb]. by rewrite <- Hh, take_app_length, drop_app_length.
Qed.

(** A header's properties: only the dictionary size comes from the four bytes after the first. *)
Lemma decodeProps_header r : bytes_ok r -> (13 <= length r)%nat ->
  match decodeProps (take 13 r) with
  | Ret p => dictSize p = le_get (slice 1 5 r)
  | Fail _ => True
  | Panic => False
  end.
Proof.
  intros Hr Hlen. destruct (five_bytes r) as (d & b0 & b1 & b2 & b3 & rest & ->); [lia|].
  cbn [take] in *. rewrite decodeProps_eq; [by destruct (d <? 225)|]. exact (Forall_take _ 5%nat _ Hr).
Qed.

Lemma mask_pow b : 0 <= b <= 4 -> u32 (Z.shiftl 1 b - 1) = 2 ^ b - 1.
Proof.
  intros Hb. rewrite Z.shiftl_1_l.
  assert (0 < 2 ^ b <= 2 ^ 4) by (split; [apply Z.pow_pos_nonneg|apply Z.pow_le_mono_r]; lia). apply wrap_id. lia.
Qed.

(** C4: the decoder is total and safe on arbitrary input.  For every byte string whose
    header asks for a dictionary of at most 2^31 bytes, the call ends (a fuel linear in
    the input suffices, and more fuel does not change the result) and returns the
    output bytes or one of its errors: no index out of range, no nil coder, no slice
    out of bounds. *)
Theorem decoder_total r :
  bytes_ok r -> le_get (slice 1 5 r) <= 2 ^ 31 ->
  exists o, (forall fuel, (Z.to_nat (2 ^ 32 * Z.of_nat (length r)) <= fuel)%nat ->
               decoder fuel r = Some o) /\
    match o with
    | Ret (out, rest) => bytes_ok out /\ bytes_ok rest
    | Fail _ => True
    | Panic => False
    end.
Proof.
  intros Hr Hdict. unfold decoder, readFull. change (Z.to_nat lzmaHeaderSize) with 13%nat.
  destruct (Nat.eqb_spec (length r) 0); [eexists; split; [done|done]|].
  destruct (Nat.ltb_spec (length r) 13) as [|Hlen]; [eexists; split; [done|done]|].
  cbn [mbind outcome_bind].
  assert (Hh : bytes_ok (take 13 r)) by (by apply Forall_take).
  pose proof (decodeProps_header r Hr Hlen) as Ho.
  destruct (decodeProps (take 13 r)) as [p|e|] eqn:Hdp; [|eexists; split; done|done]. cbn [mbind outcome_bind].
  destruct (decodeProps_ok _ _ Hh Hdp) as (Hlc & Hlp & Hpb).
  destruct (unpackSize_loop_ret 8 0 0 (take 13 r)) as [us ->];
    [lia | rewrite length_take; change (Z.to_nat (lzmaPropSize + 0)) with 5%nat; lia |].
  cbn [mbind outcome_bind].
  pose proof (newRangeDecoder_safe (drop 13 r) ltac:(by apply Forall_drop)) as Hrd.
  destruct (newRangeDecoder (drop 13 r)) as [rd|e|]; [|eexists; split; done|done].
  destruct Hrd as [Hrd Hm]. cbn [mbind outcome_bind].
  destruct (newCoders_ok p Hlc Hlp Hpb) as (cs & -> & Hcs). cbn [mbind outcome_bind].
  set (dc := maxUInt32 (dictSize p) 1). set (ws := maxUInt32 dc (Z.shiftl 1 12)).
  assert (Hn : 0 < dc <= ws /\ ws <= 2 ^ 31).
  { unfold ws, dc, maxUInt32. change (Z.shiftl 1 12) with 4096. zcases; lia. }
  set (P := mkP _ dc us).
  assert (Hmask : posStateMask P = 2 ^ posStateBits p - 1) by (by apply mask_pow).
  pose proof (dec_inv_new P ws (proj1 Hn) (proj2 Hn)) as Hinv.
  destruct (dec_loop_terminates _ _ _ P Hpb Hlc Hlp Hmask _ vars0 cs rd (newLzOutWindow ws) []
              (le_n _) Hinv Hcs Hrd) as (o & Ho' & Hpost).
  rewrite length_drop in Hm. unfold doDecode.
  eexists. split.
  { intros fuel Hf. rewrite (dec_loop_mono P (Z.to_nat (rd_measure rd)) fuel _ _ _ _ o); [|lia|done].
    reflexivity. }
  destruct o as [[[ow' cs'] rd']|e|]; cbn [mbind outcome_bind]; [|done|done].
  destruct Hpost as [(h' & Hw & Hb) Hr'].
  destruct (ow_flush_spec _ _ Hw) as (ow'' & -> & <-). done.
Qed.

Lemma decoder_total_witness :
  let r := [0x5d; 0x00; 0x00; 0x10; 0x00; 0xff; 0xff; 0xff; 0xff; 0xff; 0xff; 0xff; 0xff;
            0x00; 0x83; 0xff; 0xfb; 0xff; 0xff; 0xc0; 0x07; 0x00; 0x00; 0x5a] in
  bytes_ok r /\ le_get (slice 1 5 r) <= 2 ^ 31 /\
  exists o, (forall fuel, (Z.to_nat (2 ^ 32 * Z.of_nat (length r)) <= fuel)%nat ->
               decoder fuel r = Some o) /\
    match o with
    | Ret (out, rest) => bytes_ok out /\ bytes_ok rest
    | Fail _ => True
    | Panic => False
    end.
Proof.
  intros r. assert (H : bytes_ok r)
    by (repeat (apply Forall_cons; split; [unfold byte_ok; lia|]); constructor).
  split; [exact H|]. assert (H2 : le_get (slice 1 5 r) <= 2 ^ 31) by zground.
  split; [exact H2|]. exact (decoder_total r H H2).
Defined.
