(* ===== verification/LzmaEncoder.v ===== *)
(** lzma2/lzma_encoder.go: what the LZMA encoder emits - position slots, the packet code
    of codeOneBlock, the end marker, the header and the compression levels.

    The optimal parser (getOptimum, in LzmaOptimum) is not part of this file: the
    values it returns, (length, backRes), enter as a list of choices, and the theorems
    hold for every list that is a valid parse of the data ([parse_ok]); LzmaRun
    shows that the parser's choices are.  The input
    window enters as the data: with iw.pos = nowPos + additionalOffset, the code's
    getIndexByte(k - additionalOffset) is the byte at nowPos + k. *)

From Stdlib Require Import ZArith Lia.
From stdpp Require Import base numbers option list.
From S2P Require Import Prelude RangeCoder LzmaCoders LzmaWindow LzmaDecoder.
#[local] Open Scope Z_scope.

(** ** Position slots *)

Fixpoint gFastPos_fill (k : nat) (slotFast c : Z) (g : list Z) : outcome lzma_error (list Z * Z) :=
  match k with
  | O => Ret (g, c)
  | S k' => g ← store g c (u8 slotFast); gFastPos_fill k' slotFast (c + 1) g
  end.

Fixpoint gFastPos_slots (n : nat) (slotFast c : Z) (g : list Z) : outcome lzma_error (list Z) :=
  match n with
  | O => Ret g
  | S n' => let k := Z.shiftl 1 (Z.shiftr slotFast 1 - 1) in
            '(g, c) ← gFastPos_fill (Z.to_nat k) slotFast c g;
            gFastPos_slots n' (slotFast + 1) c g
  end.

(** slotFast runs from 2 below kFastSlots = 22. *)
Definition initGFastPos : outcome lzma_error (list Z) :=
  g ← store (replicate (Z.to_nat (Z.shiftl 1 11)) 0) 0 0;
  g ← store g 1 1;
  gFastPos_slots 20 2 2 g.

Definition getPosSlot (gFastPos : list Z) (pos : Z) : outcome lzma_error Z :=
  if pos <? Z.shiftl 1 11 then index gFastPos pos
  else if pos <? Z.shiftl 1 21 then
    b ← index gFastPos (Z.shiftr pos 10); Ret (u8 (b + 20))
  else
    b ← index gFastPos (Z.shiftr pos 20); Ret (u8 (b + 40)).

(** ** Compression levels *)

Record compressionLevel := mkCL {
  cl_dictSize : Z; fastBytes : Z; cl_litContextBits : Z; cl_litPosStateBits : Z;
  cl_posStateBits : Z; matchFinder : Z
}.

(** The match finder "bt2" or "bt4", by its digit. *)
Definition levels : list compressionLevel := [
  mkCL 0 0 0 0 0 0;
  mkCL 16 64 3 0 2 4;
  mkCL 18 64 3 0 2 4;
  mkCL 20 64 3 0 2 4;
  mkCL 22 128 3 0 2 4;
  mkCL 23 128 3 0 2 4;
  mkCL 24 128 3 0 2 4;
  mkCL 25 256 3 0 2 4;
  mkCL 26 256 3 0 2 4;
  mkCL 27 256 3 0 2 4].

(** checkValues throws an argumentValueError; here, whether it passes. *)
Definition checkValues (cl : compressionLevel) : bool :=
  negb ((cl_dictSize cl <? 12) || (29 <? cl_dictSize cl)) &&
  negb ((fastBytes cl <? 5) || (273 <? fastBytes cl)) &&
  negb ((cl_litContextBits cl <? 0) || (8 <? cl_litContextBits cl)) &&
  negb ((cl_litPosStateBits cl <? 0) || (4 <? cl_litPosStateBits cl)) &&
  negb ((cl_posStateBits cl <? 0) || (4 <? cl_posStateBits cl)) &&
  negb (negb (matchFinder cl =? 2) && negb (matchFinder cl =? 4)).

(** The 13 bytes written before any compressed data; [dictSize] is 1 << cl.dictSize. *)
Definition enc_header (cl : compressionLevel) (dictSize size : Z) : list Z :=
  [u8 (u32 (u32 (u32 (cl_posStateBits cl * 5) + cl_litPosStateBits cl) * 9 + cl_litContextBits cl))] ++
  map (fun i => u8 (Z.shiftr dictSize (8 * i))) [0; 1; 2; 3] ++
  map (fun i => u8 (Z.shiftr size (8 * i))) [0; 1; 2; 3; 4; 5; 6; 7].

(** ** The packet code of codeOneBlock *)

(** The fields of the encoder codeOneBlock reads and writes, besides the coders. *)
Record evars := mkEV {
  e_state : Z; repDistances : list Z; e_nowPos : Z; e_prevByte : Z
}.

Definition eBit (f : field (list Z)) (i b : Z) : coders -> rangeEncoder -> outcome _ _ :=
  on_e f (fun ps e => encode ps i b e).

(** lsc.encode / lsc.encodeMatched on the sub-coder of the context. *)
Definition eLit (pos prevByte : Z) (E : list Z -> rangeEncoder -> outcome lzma_error (list Z * rangeEncoder))
    : coders -> rangeEncoder -> outcome _ _ :=
  on_e fLit (fun lc e =>
    '(_, lc, e) ← at_sub (getSubCoder lc pos prevByte) (fun t e => unit_result (E t e)) lc e;
    Ret (lc, e)).

(** The loop [for i := pos; i >= 1; i--] that shifts the distances. *)
Fixpoint shiftReps (i : nat) (reps : list Z) : outcome lzma_error (list Z) :=
  match i with
  | O => Ret reps
  | S i' => d ← index reps (Z.of_nat i'); reps ← store reps (Z.of_nat (S i')) d; shiftReps i' reps
  end.

Definition enc_literal (posStateMask : Z) (data : list Z) (v : evars) (cs : coders)
    (re : rangeEncoder) : outcome lzma_error (evars * coders * rangeEncoder) :=
  let posState := Z.land (u32 (e_nowPos v)) posStateMask in
  '(cs, re) ← eBit fMatch (complexState (e_state v) posState) 0 cs re;
  curByte ← index data (e_nowPos v);
  '(cs, re) ←
    (if negb (stateIsCharState (e_state v)) then
       rep0 ← index (repDistances v) 0;
       matchByte ← index data (e_nowPos v - rep0 - 1);
       eLit (u32 (e_nowPos v)) (e_prevByte v) (encodeMatched matchByte curByte) cs re
     else eLit (u32 (e_nowPos v)) (e_prevByte v) (lit_encode curByte) cs re);
  Ret (mkEV (stateUpdateChar (e_state v)) (repDistances v) (e_nowPos v + 1) curByte, cs, re).

(** The bits of a repeated match: [pos] < 4 picks the distance. *)
Definition enc_rep (state posState length pos : Z) (cs : coders) (re : rangeEncoder)
    : outcome lzma_error (coders * rangeEncoder) :=
  '(cs, re) ← eBit fRep state 1 cs re;
  '(cs, re) ←
    (if pos =? 0 then
       '(cs, re) ← eBit fRepG0 state 0 cs re;
       eBit fRep0Long (complexState state posState) (if length =? 1 then 0 else 1) cs re
     else
       '(cs, re) ← eBit fRepG0 state 1 cs re;
       if pos =? 1 then eBit fRepG1 state 0 cs re
       else
         '(cs, re) ← eBit fRepG1 state 1 cs re;
         eBit fRepG2 state (u32 (pos - 2)) cs re);
  if length =? 1 then Ret (cs, re)
  else on_e fRepLen (lc_encode (u32 (length - kMatchMinLen)) posState) cs re.

(** The bits of a distance. *)
Definition enc_distance (gFastPos : list Z) (length pos : Z) (cs : coders) (re : rangeEncoder)
    : outcome lzma_error (coders * rangeEncoder) :=
  posSlot ← getPosSlot gFastPos pos;
  '(cs, re) ← on_e fPosSlot (at_encode (getLenToPosState length) (bt_encode posSlot)) cs re;
  if kStartPosModelIndex <=? posSlot then
    let footerBits := u32 (Z.shiftr posSlot 1 - 1) in
    let baseVal := u32 (Z.shiftl (Z.lor 2 (Z.land posSlot 1)) footerBits) in
    let posReduced := u32 (pos - baseVal) in
    if posSlot <? kEndPosModelIndex then
      on_e fPos (fun ps e =>
        reverseEncodeIndex ps (u32 (u32 (baseVal - posSlot) - 1)) footerBits posReduced e) cs re
    else
      let re := encodeDirectBits (Z.shiftr posReduced kNumAlignBits)
                  (u32 (footerBits - kNumAlignBits)) re in
      on_e fAlign (bt_reverseEncode (Z.land posReduced kAlignMask)) cs re
  else Ret (cs, re).

Definition enc_newmatch (gFastPos : list Z) (state posState length pos : Z) (cs : coders)
    (re : rangeEncoder) : outcome lzma_error (coders * rangeEncoder) :=
  '(cs, re) ← eBit fRep state 0 cs re;
  '(cs, re) ← on_e fLen (lc_encode (u32 (length - kMatchMinLen)) posState) cs re;
  enc_distance gFastPos length pos cs re.

(** One iteration of the loop of codeOneBlock, for the choice (length, backRes). *)
Definition enc_packet (gFastPos : list Z) (posStateMask : Z) (data : list Z)
    (choice : Z * Z) (v : evars) (cs : coders) (re : rangeEncoder)
    : outcome lzma_error (evars * coders * rangeEncoder) :=
  let '(length, pos) := choice in
  let posState := Z.land (u32 (e_nowPos v)) posStateMask in
  let state := e_state v in
  if (length =? 1) && (pos =? 0xFFFFFFFF) then enc_literal posStateMask data v cs re
  else
    '(cs, re) ← eBit fMatch (complexState state posState) 1 cs re;
    '(state', reps, cs, re) ←
      (if pos <? kNumRepDistances then
         '(cs, re) ← enc_rep state posState length pos cs re;
         distance ← index (repDistances v) pos;
         reps ← shiftReps (Z.to_nat pos) (repDistances v);
         reps ← (if negb (pos =? 0) then store reps 0 distance else Ret reps);
         Ret (if length =? 1 then stateUpdateShortRep state else stateUpdateRep state, reps, cs, re)
       else
         let pos := u32 (pos - kNumRepDistances) in
         '(cs, re) ← enc_newmatch gFastPos state posState length pos cs re;
         reps ← shiftReps (Z.to_nat (kNumRepDistances - 1)) (repDistances v);
         reps ← store reps 0 pos;
         Ret (stateUpdateMatch state, reps, cs, re));
    prevByte ← index data (e_nowPos v + length - 1);
    Ret (mkEV state' reps (e_nowPos v + length) prevByte, cs, re).

Fixpoint enc_loop (gFastPos : list Z) (posStateMask : Z) (data : list Z)
    (choices : list (Z * Z)) (v : evars) (cs : coders) (re : rangeEncoder)
    : outcome lzma_error (evars * coders * rangeEncoder) :=
  match choices with
  | [] => Ret (v, cs, re)
  | c :: choices => '(v, cs, re) ← enc_packet gFastPos posStateMask data c v cs re;
                    enc_loop gFastPos posStateMask data choices v cs re
  end.

(** The end marker; the price table of its length, which only the whole encoder of
    LzmaEncode has, is counted there. *)
Definition writeEndMarker (writeEndMark : bool) (state posState : Z) (cs : coders)
    (re : rangeEncoder) : outcome lzma_error (coders * rangeEncoder) :=
  if negb writeEndMark then Ret (cs, re)
  else
    '(cs, re) ← eBit fMatch (complexState state posState) 1 cs re;
    '(cs, re) ← eBit fRep state 0 cs re;
    '(cs, re) ← on_e fLen (lc_encode 0 posState) cs re;
    let posSlot := Z.shiftl 1 kNumPosSlotBits - 1 in
    '(cs, re) ← on_e fPosSlot (at_encode (getLenToPosState kMatchMinLen) (bt_encode posSlot)) cs re;
    let footerBits := 30 in
    let posReduced := u32 (u32 (Z.shiftl 1 footerBits) - 1) in
    let re := encodeDirectBits (Z.shiftr posReduced kNumAlignBits) (footerBits - kNumAlignBits) re in
    on_e fAlign (bt_reverseEncode (Z.land posReduced kAlignMask)) cs re.

Definition evars0 : evars := mkEV 0 [0; 0; 0; 0] 0 0.

(** doEncode over codeOneBlock: the first byte is always a literal, then the chosen
    packets, the end marker if the size is not in the header, and the coder's flush. *)
Definition doEncode (gFastPos : list Z) (posStateMask : Z) (writeEndMark : bool) (data : list Z)
    (choices : list (Z * Z)) (cs : coders) (re : rangeEncoder) : outcome lzma_error (list Z) :=
  '(v, cs, re) ←
    (if (length data =? 0)%nat then Ret (evars0, cs, re)
     else
       '(v, cs, re) ← enc_literal posStateMask data evars0 cs re;
       enc_loop gFastPos posStateMask data choices v cs re);
  '(cs, re) ← writeEndMarker writeEndMark (e_state v) (Z.land (u32 (e_nowPos v)) posStateMask) cs re;
  Ret (re_w (flush re)).

(** encoder: header, fresh coders, packets.  [size] is -1 when unknown.  The bytes
    written, in order. *)
Definition encoder (cl : compressionLevel) (size : Z) (data : list Z) (choices : list (Z * Z))
    : outcome lzma_error (list Z) :=
  gFastPos ← initGFastPos;
  let dictSize := u32 (Z.shiftl 1 (cl_dictSize cl)) in
  cs ← newCoders (mkProps (cl_litContextBits cl) (cl_litPosStateBits cl) (cl_posStateBits cl) dictSize);
  body ← doEncode gFastPos (u32 (Z.shiftl 1 (cl_posStateBits cl) - 1)) (size =? -1) data choices
           cs newRangeEncoder;
  Ret (enc_header cl dictSize size ++ body).

(** The vector of lzma_data_test.go for "hello world\n" at level 3: eleven literals and,
    for the second l, a short repeat. *)
Example encoder_hello_world :
  let lit := (1, 0xFFFFFFFF) in
  encoder (mkCL 20 64 3 0 2 4) 12 [104; 101; 108; 108; 111; 32; 119; 111; 114; 108; 100; 10]
    [lit; lit; (1, 0); lit; lit; lit; lit; lit; lit; lit; lit] =
  Ret [0x5d; 0x00; 0x00; 0x10; 0x00; 0x0c; 0x00; 0x00; 0x00; 0x00; 0x00; 0x00; 0x00;
       0x00; 0x34; 0x19; 0x49; 0xee; 0x8d; 0xe9; 0x17; 0x89; 0x3a; 0x33; 0x5f; 0xfc;
       0xac; 0xf7; 0x20; 0x00].
Proof. vm_compute. reflexivity. Qed.

Example encoder_empty_eos :
  encoder (mkCL 20 64 3 0 2 4) (-1) [] [] =
  Ret [0x5d; 0x00; 0x00; 0x10; 0x00; 0xff; 0xff; 0xff; 0xff; 0xff; 0xff; 0xff; 0xff;
       0x00; 0x83; 0xff; 0xfb; 0xff; 0xff; 0xc0; 0x00; 0x00; 0x00].
Proof. vm_compute. reflexivity. Qed.

(** ** getPosSlot finds the slot that covers the distance *)

(** Slot [s] covers [d]: the base of the slot and its number of low bits. *)
Definition slot_bits (s : Z) : Z := s / 2 - 1.
Definition slot_base (s : Z) : Z := (2 + s mod 2) * 2 ^ slot_bits s.
Definition slot_covers (s d : Z) : Prop :=
  if d <? 2 then s = d else 2 <= s /\ slot_base s <= d < slot_base s + 2 ^ slot_bits s.

Definition slot_coversb (s d : Z) : bool :=
  if d <? 2 then s =? d
  else (2 <=? s) && (slot_base s <=? d) && (d <? slot_base s + 2 ^ slot_bits s).

Lemma slot_coversb_true s d : slot_coversb s d = true -> slot_covers s d.
Proof.
  unfold slot_coversb, slot_covers. destruct (d <? 2); intros H; zbool; [done|]. lia.
Qed.

(** All 2048 entries of the table, by computation. *)
Definition gFast_ok (g : list Z) : bool :=
  forallb (fun i => match g !! i with
                    | Some s => (0 <=? s) && (s <? 22) && slot_coversb s (Z.of_nat i)
                    | None => false
                    end) (seq 0 2048).

Lemma initGFastPos_check :
  match initGFastPos with Ret g => gFast_ok g | _ => false end = true.
Proof. vm_compute. reflexivity. Qed.

Lemma initGFastPos_ok : exists g, initGFastPos = Ret g /\ gFast_ok g = true.
Proof. pose proof initGFastPos_check as H. destruct initGFastPos; eauto; discriminate. Qed.

Lemma gFast_lookup g i : gFast_ok g = true -> 0 <= i < 2048 ->
  exists s, index g i = Ret s /\ 0 <= s < 22 /\ slot_covers s i.
Proof.
  intros Hg Hi. unfold gFast_ok in Hg. rewrite forallb_forall in Hg.
  specialize (Hg (Z.to_nat i) ltac:(apply in_seq; lia)). unfold index.
  destruct (g !! Z.to_nat i) as [s|]; [|done]. zbool. rewrite Z2Nat.id in * by lia.
  exists s. split; [done|]. split; [lia|]. by apply slot_coversb_true.
Qed.

(** A slot of the high bits is the slot of the number, [k] bits up. *)
Lemma slot_covers_shift s d k : 0 <= k -> 2 <= Z.shiftr d k ->
  slot_covers s (Z.shiftr d k) -> slot_covers (s + 2 * k) d.
Proof.
  intros Hk Hd. rewrite Z.shiftr_div_pow2 in * by lia.
  assert (Hp : 0 < 2 ^ k) by (apply Z.pow_pos_nonneg; lia).
  pose proof (Z.div_mod d (2 ^ k) ltac:(lia)) as Hdm. pose proof (Z.mod_pos_bound d (2 ^ k) Hp).
  unfold slot_covers. destruct (Z.ltb_spec (d / 2 ^ k) 2); [lia|]. intros (Hs & Hc).
  destruct (Z.ltb_spec d 2); [nia|]. split; [lia|].
  assert (Hb : slot_bits (s + 2 * k) = slot_bits s + k).
  { unfold slot_bits. rewrite (Z.mul_comm 2 k), Z.div_add by lia. lia. }
  assert (0 <= slot_bits s).
  { unfold slot_bits. assert (1 <= s / 2) by (apply Z.div_le_lower_bound; lia). lia. }
  unfold slot_base in *. rewrite Hb, Z.pow_add_r by lia.
  rewrite (Z.mul_comm 2 k), Z.mod_add by lia.
  assert (0 < 2 ^ slot_bits s) by (apply Z.pow_pos_nonneg; lia). nia.
Qed.

Lemma getPosSlot_spec g d : gFast_ok g = true -> 0 <= d < 2 ^ 31 ->
  exists s, getPosSlot g d = Ret s /\ 0 <= s < 62 /\ slot_covers s d.
Proof.
  intros Hg Hd. unfold getPosSlot. change (Z.shiftl 1 11) with (2 ^ 11).
  change (Z.shiftl 1 21) with (2 ^ 21).
  assert (Hsh : forall k, 0 <= k -> 2 ^ (k + 1) <= d < 2 ^ (k + 11) -> 2 <= Z.shiftr d k < 2048).
  { intros k Hk Hdk. rewrite Z.shiftr_div_pow2 by lia.
    rewrite !Z.pow_add_r in Hdk by lia. assert (0 < 2 ^ k) by (apply Z.pow_pos_nonneg; lia).
    split; [apply Z.div_le_lower_bound | apply Z.div_lt_upper_bound]; lia. }
  destruct (Z.ltb_spec d (2 ^ 11)); [|destruct (Z.ltb_spec d (2 ^ 21))].
  - destruct (gFast_lookup g d Hg) as (s & -> & Hs & Hc); [lia|]. exists s. split; [done|]. split; [lia|done].
  - pose proof (Hsh 10 ltac:(lia) ltac:(lia)) as Hk.
    destruct (gFast_lookup g (Z.shiftr d 10) Hg) as (s & -> & Hs & Hc); [lia|].
    exists (s + 2 * 10). cbn [mbind outcome_bind]. rewrite wrap_id by lia.
    split; [done|]. split; [lia|]. apply slot_covers_shift; [lia|lia|done].
  - pose proof (Hsh 20 ltac:(lia) ltac:(lia)) as Hk.
    destruct (gFast_lookup g (Z.shiftr d 20) Hg) as (s & -> & Hs & Hc); [lia|].
    exists (s + 2 * 20). cbn [mbind outcome_bind]. rewrite wrap_id by lia.
    split; [done|]. split; [lia|]. apply slot_covers_shift; [lia|lia|done].
Qed.

(** ** The packet code is inverted by the decoder *)

(** The cost bound may be loosened. *)
Lemma codes_weaken {T X} c c' (E : T -> rangeEncoder -> outcome _ _)
    (D : T -> rangeDecoder -> outcome _ (X * T * rangeDecoder)) (t t' : T) (x : X) :
  (c <= c')%nat -> codes c E D t x t' -> codes c' E D t x t'.
Proof.
  intros Hc H n e He. assert (Hs : forall a b e, (a <= b)%nat -> enc_ok b e -> enc_ok a e).
  { intros a b e0 Hab [[] HR]. split; [constructor; auto; lia | done]. }
  destruct (H n e) as (e' & H1 & H2 & H3); [eapply Hs; [|done]; lia|].
  exists e'. auto.
Qed.

Lemma lossless_weaken {T X} (P : T -> Prop) c c' (E : T -> rangeEncoder -> outcome _ _)
    (D : T -> rangeDecoder -> outcome _ (X * T * rangeDecoder)) (x : X) :
  (c <= c')%nat -> lossless P c E D x -> lossless P c' E D x.
Proof.
  intros Hc H t Ht. destruct (H t Ht) as (t' & Ht' & C). exists t'. split; [done|].
  by eapply codes_weaken.
Qed.

(** A codec whose decoder only computes on the result. *)
Lemma lossless_then {T X Y} (P : T -> Prop) c E D (K : X -> T -> rangeDecoder -> outcome _ (Y * T * rangeDecoder)) x y :
  (forall t d, K x t d = Ret (y, t, d)) -> lossless P c E D x ->
  lossless P c E (fun t d => '(x, t, d) ← D t d; K x t d) y.
Proof.
  intros HK H. rewrite <- (Nat.add_0_r c).
  eapply (lossless_ext _ _ (fun t e => '(t, e) ← E t e; Ret (t, e)) E).
  { intros t e. by destruct (E t e) as [[? ?]| |]. }
  { intros t d. reflexivity. }
  eapply (lossless_bind _ c 0 E D (fun t e => Ret (t, e)) K x y H).
  eapply lossless_ext; [intros; reflexivity | intros; symmetry; apply HK | apply lossless_ret].
Qed.

Section packets.
Context (npos lc lp : Z) (Hnpos : 0 < npos <= 16) (Hlc : 0 <= lc <= 8) (Hlp : 0 <= lp <= 4).
Let P := coders_ok npos lc lp.

Lemma lossless_eBit f L i b : field_ok P (table L) f -> 0 <= i < L -> b = 0 \/ b = 1 ->
  lossless P 1 (eBit f i b) (rdBit f i) b.
Proof. intros Hf Hi Hb. eapply lossless_on; [done|]. by apply lossless_bit. Qed.

Lemma lossless_eLen f ps v : field_ok P (lc_inv npos) f -> 0 <= ps < npos ->
  0 <= v < kNumLenSymbols -> lossless P 10 (on_e f (lc_encode v ps)) (on f (lc_decode ps)) v.
Proof.
  intros Hf Hps Hv. eapply lossless_on; [done|].
  eapply lossless_weaken; [|by apply lossless_len]. unfold len_cost. zcases; lia.
Qed.

Lemma lossless_eLit pos prev E D (v : Z) : 0 <= pos -> byte_ok prev ->
  lossless lit_table 8 E D v ->
  lossless P 8 (eLit pos prev E)
    (on fLit (fun l d => at_sub (getSubCoder l pos prev) D l d)) v.
Proof.
  intros Hpos Hprev H. eapply lossless_on; [apply fLit_ok|]. by apply lossless_sub.
Qed.

(** A literal. *)
Lemma lossless_literal v mb b : byte_ok (prevByte v) -> byte_ok mb -> byte_ok b ->
  lossless P 8
    (eLit (u32 (nowPos v)) (prevByte v)
       (if negb (stateIsCharState (state v)) then encodeMatched mb b else lit_encode b))
    (decode_literal v mb) b.
Proof.
  intros Hp Hmb Hb. unfold decode_literal.
  apply lossless_eLit; [apply wrap_range; lia|done|].
  destruct (negb _); [by apply lossless_matched | by apply lossless_lit].
Qed.

(** A repeated match: the distances rotate as in decode_rep. *)
Definition rep_result (v : vars) (length pos : Z) : Z * vars :=
  let st := if length =? 1 then stateUpdateShortRep (state v) else stateUpdateRep (state v) in
  (length,
   if pos =? 0 then set_state st v
   else if pos =? 1 then mkV st (rep1 v) (rep0 v) (rep2 v) (rep3 v) (nowPos v) (prevByte v)
   else if pos =? 2 then mkV st (rep2 v) (rep0 v) (rep1 v) (rep3 v) (nowPos v) (prevByte v)
   else mkV st (rep3 v) (rep0 v) (rep1 v) (rep2 v) (nowPos v) (prevByte v)).

Definition rep_choice_ok (length pos : Z) : Prop :=
  0 <= pos < 4 /\ (if pos =? 0 then 1 else 2) <= length <= kMatchMaxLen.

(** Which distance: the bits after isRep. *)
Definition E_which (state posState length pos : Z) (cs : coders) (re : rangeEncoder) :=
  if pos =? 0 then
    '(cs, re) ← eBit fRepG0 state 0 cs re;
    eBit fRep0Long (complexState state posState) (if length =? 1 then 0 else 1) cs re
  else
    '(cs, re) ← eBit fRepG0 state 1 cs re;
    if pos =? 1 then eBit fRepG1 state 0 cs re
    else
      '(cs, re) ← eBit fRepG1 state 1 cs re;
      eBit fRepG2 state (u32 (pos - 2)) cs re.

Definition D_which (posState : Z) (v : vars) (cs : coders) (rd : rangeDecoder)
    : outcome lzma_error ((Z * vars) * coders * rangeDecoder) :=
  '(g0, cs, rd) ← rdBit fRepG0 (state v) cs rd;
  (if g0 =? 0 then fun cs rd =>
     '(l, cs, rd) ← rdBit fRep0Long (complexState (state v) posState) cs rd;
     Ret (if l =? 0 then (1, set_state (stateUpdateShortRep (state v)) v) else (0, v), cs, rd)
   else fun cs rd =>
     '(g1, cs, rd) ← rdBit fRepG1 (state v) cs rd;
     (if g1 =? 0 then fun cs rd =>
       Ret ((0, mkV (state v) (rep1 v) (rep0 v) (rep2 v) (rep3 v) (nowPos v) (prevByte v)), cs, rd)
     else fun cs rd =>
       '(g2, cs, rd) ← rdBit fRepG2 (state v) cs rd;
       let '(distance, r3) := if g2 =? 0 then (rep2 v, rep3 v) else (rep3 v, rep2 v) in
       Ret ((0, mkV (state v) distance (rep0 v) (rep1 v) r3 (nowPos v) (prevByte v)), cs, rd)) cs rd) cs rd.

Definition which_result (v : vars) (length pos : Z) : Z * vars :=
  if pos =? 0 then
    if length =? 1 then (1, set_state (stateUpdateShortRep (state v)) v) else (0, v)
  else if pos =? 1 then (0, mkV (state v) (rep1 v) (rep0 v) (rep2 v) (rep3 v) (nowPos v) (prevByte v))
  else if pos =? 2 then (0, mkV (state v) (rep2 v) (rep0 v) (rep1 v) (rep3 v) (nowPos v) (prevByte v))
  else (0, mkV (state v) (rep3 v) (rep0 v) (rep1 v) (rep2 v) (nowPos v) (prevByte v)).

Lemma lossless_which v ps length pos : 0 <= state v < 12 -> 0 <= ps < npos ->
  rep_choice_ok length pos ->
  lossless P 3 (E_which (state v) ps length pos) (D_which ps v) (which_result v length pos).
Proof.
  intros Hs Hps [Hpos Hlen]. change kMatchMaxLen with 273 in Hlen.
  assert (Hcx : 0 <= complexState (state v) ps < 192) by (apply (complexState_bound _ _ npos); lia).
  unfold E_which, D_which, which_result. destruct (Z.eqb_spec pos 0).
  { eapply (lossless_weaken _ (1 + 1)); [lia|].
    eapply (lossless_bind _ 1 1 _ _ _ (fun g0 => if g0 =? 0 then _ else _) 0);
      [eapply lossless_eBit; [apply fRepG0_ok|lia|auto]|]. cbn [Z.eqb].
    eapply (lossless_then _ _ _ _ _ (if length =? 1 then 0 else 1));
      [|eapply lossless_eBit; [apply fRep0Long_ok|lia|destruct (length =? 1); auto]].
    intros. by destruct (length =? 1). }
  eapply (lossless_bind _ 1 2 _ _ _ (fun g0 => if g0 =? 0 then _ else _) 1);
    [eapply lossless_eBit; [apply fRepG0_ok|lia|auto]|]. cbn [Z.eqb].
  destruct (Z.eqb_spec pos 1).
  { eapply (lossless_weaken _ 1); [lia|].
    eapply (lossless_then _ _ _ _ _ 0); [|eapply lossless_eBit; [apply fRepG1_ok|lia|auto]].
    done. }
  eapply (lossless_bind _ 1 1 _ _ _ (fun g1 => if g1 =? 0 then _ else _) 1);
    [eapply lossless_eBit; [apply fRepG1_ok|lia|auto]|]. cbn [Z.eqb].
  rewrite wrap_id by lia.
  eapply (lossless_then _ _ _ _ _ (pos - 2));
    [|eapply lossless_eBit; [apply fRepG2_ok|lia|lia]].
  intros. destruct (Z.eqb_spec (pos - 2) 0), (Z.eqb_spec pos 2); try lia; done.
Qed.

(** The repeat packet as one sequence of codings: the flag, which distance, the length. *)
Definition E_rep (state ps length pos : Z) (cs : coders) (re : rangeEncoder) :=
  '(cs, re) ← eBit fRep state 1 cs re;
  (fun cs re => '(cs, re) ← E_which state ps length pos cs re;
     (if length =? 1 then fun cs re => Ret (cs, re)
      else on_e fRepLen (lc_encode (u32 (length - kMatchMinLen)) ps)) cs re) cs re.

Definition D_replen (ps : Z) (lv : Z * vars) (cs : coders) (d : rangeDecoder)
    : outcome lzma_error ((Z * vars) * coders * rangeDecoder) :=
  (if fst lv =? 0 then fun cs d =>
     '(l, cs, d) ← on fRepLen (lc_decode ps) cs d;
     Ret ((u32 (l + kMatchMinLen), set_state (stateUpdateRep (state (snd lv))) (snd lv)), cs, d)
   else fun cs d => Ret (lv, cs, d)) cs d.

Definition D_rep (ps : Z) (v : vars) (cs : coders) (d : rangeDecoder)
    : outcome lzma_error (option (Z * vars) * coders * rangeDecoder) :=
  '(r, cs, d) ← rdBit fRep (state v) cs d;
  (if r =? 1 then fun cs d =>
     '(lv, cs, d) ← ('(lv, cs, d) ← D_which ps v cs d; D_replen ps lv cs d);
     Ret (Some lv, cs, d)
   else decode_newmatch ps v) cs d.

Lemma enc_rep_E state ps length pos cs e : E_rep state ps length pos cs e = enc_rep state ps length pos cs e.
Proof.
  unfold enc_rep, E_rep. fold (E_which state ps length pos).
  destruct (eBit fRep _ 1 cs e) as [[cs1 e1]| |]; cbn [mbind outcome_bind]; [|done|done].
  fold (E_which state ps length pos cs1 e1).
  destruct (E_which _ _ _ _ cs1 e1) as [[cs2 e2]| |]; cbn [mbind outcome_bind]; [|done|done].
  by destruct (length =? 1).
Qed.

Lemma decode_match_D ps v cs d : D_rep ps v cs d = decode_match ps v cs d.
Proof.
  unfold D_rep, decode_match, decode_rep, D_which.
  destruct (rdBit fRep _ cs d) as [[[r cs1] d1]| |]; cbn [mbind outcome_bind]; [|done|done].
  destruct (r =? 1); [|done].
  destruct (rdBit fRepG0 _ cs1 d1) as [[[g0 cs2] d2]| |]; cbn [mbind outcome_bind]; [|done|done].
  match goal with |- _ = ?R => set (rhs := R) end.
  assert (E : forall o : outcome lzma_error (Z * vars * coders * rangeDecoder),
    ('(lv, cs, d) ← ('(lv, cs, d) ← o; D_replen ps lv cs d); Ret (Some lv, cs, d)) =
    ('(lv, cs, d) ← ('(lv, cs, d) ← o; let '(length, v) := lv in
       if length =? 0 then
         '(l, cs, d) ← on fRepLen (lc_decode ps) cs d;
         Ret ((u32 (l + kMatchMinLen), set_state (stateUpdateRep (state v)) v), cs, d)
       else Ret ((length, v), cs, d)); Ret (Some lv, cs, d))).
  { intros [[[[l w] cs3] d3]| |]; cbn [mbind outcome_bind fst snd]; try done. unfold D_replen. cbn [fst snd].
    by destruct (l =? 0). }
  rewrite E. unfold rhs. clear E rhs. destruct (g0 =? 0); [done|].
  destruct (rdBit fRepG1 _ cs2 d2) as [[[g1 cs3] d3]| |]; cbn [mbind outcome_bind]; [|done|done].
  by destruct (g1 =? 0).
Qed.

Lemma lossless_rep v ps length pos : 0 <= state v < 12 -> 0 <= ps < npos ->
  rep_choice_ok length pos ->
  lossless P 14 (enc_rep (state v) ps length pos) (decode_match ps v)
    (Some (rep_result v length pos)).
Proof.
  intros Hs Hps Hok. pose proof Hok as [Hpos Hlen]. change kMatchMaxLen with 273 in Hlen.
  eapply (lossless_ext _ _ (E_rep (state v) ps length pos) _ (D_rep ps v)); [apply enc_rep_E|apply decode_match_D|].
  eapply (lossless_bind _ 1 13 _ _ _ (fun r => if r =? 1 then _ else _) 1);
    [eapply lossless_eBit; [apply fRep_ok|lia|auto]|]. cbn [Z.eqb Pos.eqb].
  apply (lossless_map _ _ _ _ Some (rep_result v length pos)); [done|].
  eapply (lossless_bind _ 3 10 _ _ _ (D_replen ps) (which_result v length pos)); [by apply lossless_which|]. unfold D_replen.
  unfold which_result, rep_result. destruct (Z.eqb_spec length 1) as [->|Hl1].
  - destruct (Z.eqb_spec pos 0); [|lia]. cbn [fst Z.eqb].
    eapply lossless_weaken; [|apply lossless_ret]. lia.
  - assert (Hl2 : 2 <= length <= 273) by (destruct (pos =? 0); lia).
    change kMatchMinLen with 2. rewrite (wrap_id 32 (length - 2)) by lia.
    assert (Hf : (fst (if pos =? 0 then (0, v) else if pos =? 1
      then (0, mkV (state v) (rep1 v) (rep0 v) (rep2 v) (rep3 v) (nowPos v) (prevByte v))
      else if pos =? 2 then (0, mkV (state v) (rep2 v) (rep0 v) (rep1 v) (rep3 v) (nowPos v) (prevByte v))
      else (0, mkV (state v) (rep3 v) (rep0 v) (rep1 v) (rep2 v) (nowPos v) (prevByte v))) =? 0) = true)
      by (repeat case_match; done).
    rewrite Hf. apply (lossless_map _ _ _ _ (fun l => (u32 (l + 2), _)) (length - 2)).
    + rewrite wrap_id by lia. replace (length - 2 + 2) with length by lia.
      f_equal. by repeat case_match.
    + apply lossless_eLen; [apply fRepLen_ok|done|]. change kNumLenSymbols with 272. lia.
Qed.

(** A distance: slot, then reverse bits, or direct bits and the aligned low bits. *)
Lemma lossless_slot len s : 2 <= len <= kMatchMaxLen -> 0 <= s < 64 ->
  lossless P 6 (on_e fPosSlot (at_encode (getLenToPosState len) (bt_encode s)))
    (on fPosSlot (at_coder (getLenToPosState len) bt_decode)) s.
Proof.
  intros Hlen Hs. change kMatchMaxLen with 273 in Hlen.
  eapply lossless_on; [apply fPosSlot_ok|]. apply lossless_at.
  - apply getLenToPosState_bound. lia.
  - by apply (lossless_bt 6).
Qed.

Lemma lossless_align v : 0 <= v < 16 ->
  lossless P 4 (on_e fAlign (bt_reverseEncode v)) (on fAlign bt_reverseDecode) v.
Proof. intros. eapply lossless_on; [apply fAlign_ok|]. by apply (lossless_bt_reverse 4). Qed.

(** The distances of slots 14 and up: [base] plus [x] direct and [y] aligned bits. *)
Definition E_far (n red : Z) (cs : coders) (re : rangeEncoder) :=
  on_e fAlign (bt_reverseEncode (Z.land red kAlignMask)) cs
    (encodeDirectBits (Z.shiftr red kNumAlignBits) (u32 (n - kNumAlignBits)) re).
Definition D_far (n base : Z) (cs : coders) (rd : rangeDecoder)
    : outcome lzma_error (option Z * coders * rangeDecoder) :=
  '(x, rd) ← decodeDirectBits rd (u32 (n - kNumAlignBits));
  let rep0 := u32 (base + u32 (Z.shiftl x kNumAlignBits)) in
  '(y, cs, rd) ← on fAlign bt_reverseDecode cs rd;
  let rep0 := u32 (rep0 + y) in
  if i32 rep0 <? 0 then
    if rep0 =? 0xFFFFFFFF then Ret (None, cs, rd) else Fail streamError
  else Ret (Some rep0, cs, rd).

Lemma lossless_far n base red r : 6 <= n <= 30 -> 0 <= base -> base + 2 ^ n <= 2 ^ 32 ->
  0 <= red < 2 ^ n ->
  (base + red < 2 ^ 31 /\ r = Some (base + red) \/ base + red = 0xFFFFFFFF /\ r = None) ->
  lossless P 30 (E_far n red) (D_far n base) r.
Proof.
  intros Hn Hb Hbn Hred Hr. change kAlignMask with (Z.ones 4).
  assert (E2 : 2 ^ n = 16 * 2 ^ (n - 4))
    by (change 16 with (2 ^ 4); rewrite <- Z.pow_add_r by lia; f_equal; lia).
  pose proof (Z.mod_pos_bound red 16 ltac:(lia)) as Hm.
  pose proof (Z.div_mod red 16 ltac:(lia)) as Hdm.
  assert (Hq : 0 <= red / 16 < 2 ^ (n - 4))
    by (split; [apply Z.div_pos; lia | apply Z.div_lt_upper_bound; lia]).
  assert (H30 : 2 ^ n <= 2 ^ 30) by (apply Z.pow_le_mono_r; lia).
  set (K := fun (x y : Z) (cs : coders) (d : rangeDecoder) =>
    let rep0 := u32 (u32 (base + u32 (Z.shiftl x kNumAlignBits)) + y) in
    if i32 rep0 <? 0 then if rep0 =? 0xFFFFFFFF then Ret (None, cs, d) else Fail streamError
    else Ret (Some rep0, cs, d) : outcome lzma_error (option Z * coders * rangeDecoder)).
  eapply (lossless_ext _ _
    (fun cs e => '(cs, e) ← Ret (cs, encodeDirectBits (red / 16) (n - 4) e);
                 on_e fAlign (bt_reverseEncode (red mod 16)) cs e) _
    (fun cs d => '(x, cs, d) ← ('(x, d) ← decodeDirectBits d (n - 4); Ret (x, cs, d));
                 (fun x cs d => '(y, cs, d) ← on fAlign bt_reverseDecode cs d; K x y cs d) x cs d)).
  { intros cs e. unfold E_far. change kNumAlignBits with 4. change kAlignMask with (Z.ones 4).
    rewrite Z.land_ones, Z.shiftr_div_pow2, wrap_id by lia. done. }
  { intros cs d. unfold D_far. change kNumAlignBits with 4. rewrite (wrap_id 32 (n - 4)) by lia.
    by destruct (decodeDirectBits d (n - 4)) as [[? ?]| |]. }
  eapply (lossless_weaken _ (Z.to_nat (n - 4) + 4)); [lia|].
  eapply (lossless_bind _ (Z.to_nat (n - 4)) 4 _ _ _ _ (red / 16)).
  { by apply lossless_direct; lia. }
  cbn beta. eapply (lossless_then _ _ _ _ _ (red mod 16)); [|apply lossless_align; lia].
  intros cs d. unfold K. change kNumAlignBits with 4. rewrite Z.shiftl_mul_pow2 by lia.
  rewrite (wrap_id 32 (red / 16 * 2 ^ 4)) by lia. rewrite (wrap_id 32 (base + _)) by lia.
  rewrite wrap_id by lia.
  replace (base + red / 16 * 2 ^ 4 + red mod 16) with (base + red) by lia.
  destruct Hr as [[Hr ->]|[-> ->]]; [|reflexivity].
  rewrite swrap_id by lia. destruct (Z.ltb_spec (base + red) 0); [lia|done].
Qed.

Lemma lossless_distance g len d : gFast_ok g = true -> 2 <= len <= kMatchMaxLen ->
  0 <= d < 2 ^ 31 ->
  lossless P 36 (enc_distance g len d) (decode_distance len) (Some d).
Proof.
  intros Hg Hlen Hd. destruct (getPosSlot_spec g d Hg Hd) as (s & Hs & Hs62 & Hcov).
  unfold enc_distance, decode_distance. rewrite Hs. cbn [mbind outcome_bind].
  change kStartPosModelIndex with 4. change kEndPosModelIndex with 14.
  eapply (lossless_weaken _ (6 + 30)); [lia|].
  eapply (lossless_bind _ 6 30); [apply lossless_slot; [done|lia]|].
  unfold slot_covers in Hcov. destruct (Z.leb_spec 4 s).
  2: { assert (s = d) as ->.
       { destruct (Z.ltb_spec d 2); [done|]. destruct Hcov as [H2 Hc].
         assert (s = 2 \/ s = 3) as [-> | ->] by lia; unfold slot_base, slot_bits in Hc.
         - change ((2 + 2 mod 2) * 2 ^ (2 / 2 - 1)) with 2 in Hc. change (2 ^ (2 / 2 - 1)) with 1 in Hc. lia.
         - change ((2 + 3 mod 2) * 2 ^ (3 / 2 - 1)) with 3 in Hc. change (2 ^ (3 / 2 - 1)) with 1 in Hc. lia. }
       eapply lossless_weaken; [|apply lossless_ret]. lia. }
  destruct (Z.ltb_spec d 2); [lia|]. destruct Hcov as [_ Hc].
  destruct (slot_arith s ltac:(lia)) as (Hn & En & Eb & Hb0 & Hb1 & Hidx).
  cbn zeta. set (n := u32 (Z.shiftr s 1 - 1)) in *.
  set (base := u32 (Z.shiftl (Z.lor 2 (Z.land s 1)) n)) in *.
  unfold slot_base in Hc. change (slot_bits s) with (s / 2 - 1) in Hc. rewrite <- En, <- Eb in Hc.
  rewrite (wrap_id 32 (d - base)) by lia.
  destruct (Z.ltb_spec s 14) as [H14|H14].
  - destruct (Hidx H14) as [Hn5 Hix].
    eapply (lossless_weaken _ (Z.to_nat n)); [lia|].
    eapply (lossless_map _ _ _ _ (fun x => Some (u32 (base + x))) (d - base)).
    { rewrite wrap_id by lia. f_equal. lia. }
    eapply lossless_on; [apply fPos_ok|]. apply lossless_reverse_index; [lia|lia|done].
  - assert (6 <= n).
    { assert (7 <= s / 2) by (apply Z.div_le_lower_bound; lia). lia. }
    apply (lossless_far n base (d - base) (Some d)); [lia|lia|lia|lia|].
    left. split; [lia|]. f_equal. lia.
Qed.

(** A new match. *)
Definition match_vars (v : vars) (d : Z) : vars :=
  mkV (stateUpdateMatch (state v)) d (rep0 v) (rep1 v) (rep2 v) (nowPos v) (prevByte v).

Lemma lossless_newmatch g v ps len d : gFast_ok g = true -> 0 <= state v < 12 ->
  0 <= ps < npos -> 2 <= len <= kMatchMaxLen -> 0 <= d < 2 ^ 31 ->
  lossless P 47 (enc_newmatch g (state v) ps len d) (decode_match ps v)
    (Some (len, match_vars v d)).
Proof.
  intros Hg Hs Hps Hlen Hd. unfold enc_newmatch, decode_match.
  eapply (lossless_bind _ 1 46 _ _ _ (fun r cs d => if r =? 1 then _ else _) 0);
    [eapply lossless_eBit; [apply fRep_ok|lia|auto]|]. cbn [Z.eqb]. unfold decode_newmatch.
  change kMatchMaxLen with 273 in Hlen. change kMatchMinLen with 2.
  rewrite (wrap_id 32 (len - 2)) by lia.
  eapply (lossless_bind _ 10 36 _ _ _ (fun l cs d => '(dist, cs, d) ← _; _) (len - 2));
    [apply lossless_eLen; [apply fLen_ok|done|change kNumLenSymbols with 272; lia]|].
  rewrite wrap_id by lia. replace (len - 2 + 2) with len by lia.
  apply (lossless_map _ _ _ _ (option_map _) (Some d)); [done|].
  by apply lossless_distance.
Qed.

(** The end marker: a match of length 2 whose distance is all ones. *)
Definition E_marker (state posState : Z) (cs : coders) (re : rangeEncoder) :=
  '(cs, re) ← eBit fRep state 0 cs re;
  '(cs, re) ← on_e fLen (lc_encode 0 posState) cs re;
  '(cs, re) ← on_e fPosSlot (at_encode (getLenToPosState kMatchMinLen) (bt_encode 63)) cs re;
  E_far 30 (2 ^ 30 - 1) cs re.

Lemma writeEndMarker_eq s ps cs e :
  writeEndMarker true s ps cs e =
  '(cs, e) ← eBit fMatch (complexState s ps) 1 cs e; E_marker s ps cs e.
Proof. reflexivity. Qed.

Lemma lossless_marker v ps : 0 <= state v < 12 -> 0 <= ps < npos ->
  lossless P 47 (E_marker (state v) ps) (decode_match ps v) None.
Proof.
  intros Hs Hps. unfold E_marker, decode_match.
  eapply (lossless_bind _ 1 46 _ _ _ (fun r cs d => if r =? 1 then _ else _) 0);
    [eapply lossless_eBit; [apply fRep_ok|lia|auto]|]. cbn [Z.eqb]. unfold decode_newmatch.
  eapply (lossless_bind _ 10 36 _ _ _ (fun l cs d => '(dist, cs, d) ← _; _) 0);
    [apply lossless_eLen; [apply fLen_ok|done|change kNumLenSymbols with 272; lia]|].
  change (u32 (0 + kMatchMinLen)) with 2. change kMatchMinLen with 2.
  apply (lossless_map _ _ _ _ (option_map _) None); [done|].
  unfold decode_distance. eapply (lossless_bind _ 6 30 _ _ _ _ 63).
  { apply lossless_slot; [change kMatchMaxLen with 273; lia|lia]. }
  change (kStartPosModelIndex <=? 63) with true. change (63 <? kEndPosModelIndex) with false.
  cbn iota zeta.
  apply (lossless_far 30 (3 * 2 ^ 30) (2 ^ 30 - 1) None); [lia|lia|lia|lia|]. right. by split.
Qed.
End packets.
