(* ===== verification/LzmaStream.v ===== *)
(** The LZMA stream as a whole: the encoder's output, header included, is decoded to the
    encoder's input.

    The choices of the optimal parser are any valid parse of the data, [parse_ok];
    [step_lossless] relates one packet of the encoder to one iteration of the decoder,
    with the decoder's window standing for the data coded so far, and the loops compose
    the steps. *)

From Stdlib Require Import ZArith Lia.
From stdpp Require Import base numbers option list.
From S2P Require Import Prelude RangeCoder LzmaCoders LzmaWindow LzmaDecoder LzmaEncoder.
#[local] Open Scope Z_scope.

(** ** Valid parses *)

(** The distances after a match that uses [back], the one used first. *)
Definition new_reps (back : Z) (reps : list Z) : list Z :=
  match reps with
  | [r0; r1; r2; r3] =>
      if back =? 0 then [r0; r1; r2; r3] else if back =? 1 then [r1; r0; r2; r3]
      else if back =? 2 then [r2; r0; r1; r3] else if back =? 3 then [r3; r0; r1; r2]
      else [back - kNumRepDistances; r0; r1; r2]
  | _ => reps
  end.

(** Copying [len] bytes from [d] + 1 back reproduces the data at [pos]. *)
Definition copy_ok (data : list Z) (pos : nat) (d len : Z) : bool :=
  bool_decide (lz_copy (Z.to_nat d) (Z.to_nat len) (take pos data)
               = Some (take (pos + Z.to_nat len) data)) &&
  (Z.of_nat pos + len <=? Z.of_nat (length data)).

Definition match_ok (data : list Z) (dict : Z) (pos : nat) (reps : list Z) (len back : Z) : bool :=
  (0 <=? back) && ((if back =? 0 then 1 else 2) <=? len) && (len <=? kMatchMaxLen) &&
  match new_reps back reps with
  | d :: _ => (0 <=? d) && (d <? Z.of_nat pos) && (d <? dict) && copy_ok data pos d len
  | [] => false
  end.

(** [choices] parses the data from [pos] on, within the dictionary. *)
Fixpoint parse_ok (data : list Z) (dict : Z) (pos : nat) (reps : list Z)
    (choices : list (Z * Z)) : bool :=
  match choices with
  | [] => (pos =? length data)%nat
  | (len, back) :: choices =>
      if (len =? 1) && (back =? 0xFFFFFFFF) then
        (pos <? length data)%nat && parse_ok data dict (S pos) reps choices
      else
        match_ok data dict pos reps len back &&
        parse_ok data dict (pos + Z.to_nat len) (new_reps back reps) choices
  end.

(** ** One packet *)

(** The encoder's and the decoder's variables agree. *)
Record ev_rel (v : vars) (ev : evars) : Prop := {
  er_state : e_state ev = state v;
  er_reps : repDistances ev = [rep0 v; rep1 v; rep2 v; rep3 v];
  er_pos : e_nowPos ev = nowPos v;
  er_prev : e_prevByte ev = prevByte v
}.

Definition dec_res (p : params) (v : vars) (ow : lzOutWindow) (cs : coders) (rd : rangeDecoder)
    : outcome lzma_error ((flow * vars * lzOutWindow) * coders * rangeDecoder) :=
  '(fl, v, cs, rd, ow) ← dec_step p v cs rd ow; Ret ((fl, v, ow), cs, rd).

(** The two branches of an iteration, after the isMatch bit. *)
Definition D_literal (v : vars) (ow : lzOutWindow) (cs : coders) (rd : rangeDecoder)
    : outcome lzma_error ((flow * vars * lzOutWindow) * coders * rangeDecoder) :=
  matchByte ← (if negb (stateIsCharState (state v)) then getByte (rep0 v) ow else Ret 0);
  '(b, cs, rd) ← decode_literal v matchByte cs rd;
  ow ← putByte b ow;
  Ret ((Continue, mkV (stateUpdateChar (state v)) (rep0 v) (rep1 v) (rep2 v) (rep3 v)
                      (u64 (nowPos v + 1)) b, ow), cs, rd).

Definition D_match (p : params) (v : vars) (ow : lzOutWindow) (cs : coders) (rd : rangeDecoder)
    : outcome lzma_error ((flow * vars * lzOutWindow) * coders * rangeDecoder) :=
  '(lv, cs, rd) ← decode_match (Z.land (u32 (nowPos v)) (posStateMask p)) v cs rd;
  match lv with
  | None => Ret ((Break, v, ow), cs, rd)
  | Some (length, v) =>
      if (nowPos v <=? rep0 v) || (dictSizeCheck p <=? rep0 v) then Fail streamError
      else
        ow ← copyBlock (rep0 v) length ow;
        b ← getByte 0 ow;
        Ret ((Continue, mkV (state v) (rep0 v) (rep1 v) (rep2 v) (rep3 v)
                            (u64 (nowPos v + length)) b, ow), cs, rd)
  end.

Definition match_index (p : params) (v : vars) : Z :=
  complexState (state v) (Z.land (u32 (nowPos v)) (posStateMask p)).

Lemma dec_res_eq p v ow cs d :
  ('(m, cs, d) ← rdBit fMatch (match_index p v) cs d;
   (if m =? 0 then D_literal v ow else D_match p v ow) cs d) = dec_res p v ow cs d.
Proof.
  unfold dec_res, dec_step, match_index.
  destruct (rdBit fMatch _ cs d) as [[[m cs1] d1]| |]; cbn [mbind outcome_bind]; [|done|done].
  destruct (m =? 0).
  - unfold D_literal. destruct (if negb _ then _ else _); cbn [mbind outcome_bind]; [|done|done].
    destruct (decode_literal v _ cs1 d1) as [[[b' cs2] d2]| |]; cbn [mbind outcome_bind]; [|done|done].
    by destruct (putByte b' ow).
  - unfold D_match. destruct (decode_match _ v cs1 d1) as [[[[[len w]|] cs2] d2]| |];
      cbn [mbind outcome_bind]; [|done|done|done].
    destruct (_ || _); [done|].
    destruct (copyBlock _ _ _) as [ow1| |]; cbn [mbind outcome_bind]; [|done|done].
    by destruct (getByte 0 ow1).
Qed.

Section stream.
Context (g : list Z) (pb lc lp : Z) (p : params) (data : list Z).
Context (Hg : gFast_ok g = true) (Hpb : 0 <= pb <= 4) (Hlc : 0 <= lc <= 8) (Hlp : 0 <= lp <= 4).
Context (Hmask : posStateMask p = 2 ^ pb - 1) (Hdata : bytes_ok data).
Context (Hlen63 : Z.of_nat (length data) < 2 ^ 63) (Hdict : dictSizeCheck p <= 2 ^ 31).
Let P := coders_ok (2 ^ pb) lc lp.

Lemma npos_bound : 0 < 2 ^ pb <= 16.
Proof. split; [apply Z.pow_pos_nonneg; lia | apply (Z.pow_le_mono_r 2 pb 4); lia]. Qed.

Lemma lossless_isMatch v b : 0 <= state v < 12 -> b = 0 \/ b = 1 ->
  lossless P 1 (eBit fMatch (match_index p v) b) (rdBit fMatch (match_index p v)) b.
Proof.
  intros Hs Hb. eapply lossless_eBit; [apply fMatch_ok| |done]. unfold match_index. rewrite Hmask.
  pose proof npos_bound. pose proof (posState_bound (nowPos v) pb Hpb).
  apply (complexState_bound _ _ (2 ^ pb)); lia.
Qed.

Lemma index_data i : (i < length data)%nat ->
  exists b, index data (Z.of_nat i) = Ret b /\ data !! i = Some b /\ byte_ok b.
Proof.
  intros Hi. unfold index. rewrite Nat2Z.id.
  destruct (lookup_lt_is_Some_2 data i Hi) as [b Hb]. rewrite Hb. exists b.
  split_and!; auto. by eapply Forall_lookup_1.
Qed.

Lemma look_back_take d n : (d < n <= length data)%nat ->
  look_back d (take n data) = data !! (n - S d)%nat.
Proof.
  intros H. unfold look_back. rewrite length_take, Nat.min_l by lia.
  apply lookup_take_lt. lia.
Qed.

Lemma nowPos_take v ow pos : dec_inv p v ow (take pos data) -> (pos <= length data)%nat ->
  nowPos v = Z.of_nat pos.
Proof.
  intros H Hp. rewrite (di_pos _ _ _ _ H), length_take, Nat.min_l by done. apply wrap_id. lia.
Qed.

(** What one packet must do: [E] are its bits, [ev'] the encoder's next variables;
    from position [pos] to [pos']. *)
Definition packet_ok (pos' : nat) (ev' : evars) (v : vars) (ow : lzOutWindow)
    (E : coders -> rangeEncoder -> outcome lzma_error (coders * rangeEncoder)) : Prop :=
  exists w ow', ev_rel w ev' /\ dec_inv p w ow' (take pos' data) /\
    lossless P 48 E (dec_res p v ow) (Continue, w, ow').

(** The match byte: encoder and decoder read the same one. *)
Lemma match_byte pos v ow : (pos < length data)%nat -> dec_inv p v ow (take pos data) ->
  exists mb, byte_ok mb /\ (negb (stateIsCharState (state v)) = true ->
    index data (Z.of_nat pos - rep0 v - 1) = Ret mb /\ getByte (rep0 v) ow = Ret mb).
Proof.
  intros Hpos Hinv. destruct (negb (stateIsCharState (state v))) eqn:Ec.
  2: { exists 0. split; [unfold byte_ok; lia|done]. }
  unfold stateIsCharState in Ec. zbool.
  destruct (di_rep0 _ _ _ _ Hinv Ec) as [Hr1 Hr2].
  rewrite length_take, Nat.min_l in Hr2 by lia.
  pose proof (proj1 (di_reps _ _ _ _ Hinv)) as Hr0. unfold dist_ok in Hr0.
  pose proof (di_size _ _ _ _ Hinv).
  destruct (getByte_ok ow _ (rep0 v) (di_win _ _ _ _ Hinv) (di_bytes _ _ _ _ Hinv))
    as (mb & Hg1 & Hg2 & Hg3); [lia|rewrite length_take; lia|].
  exists mb. split; [done|]. intros _. split; [|done].
  rewrite look_back_take in Hg2 by lia.
  replace (Z.of_nat pos - rep0 v - 1) with (Z.of_nat (pos - S (Z.to_nat (rep0 v)))) by lia.
  unfold index. by rewrite Nat2Z.id, Hg2.
Qed.

(** *** A literal packet *)

Definition E_literal (v : vars) (mb b : Z) (cs : coders) (re : rangeEncoder) :=
  '(cs, re) ← eBit fMatch (match_index p v) 0 cs re;
  eLit (u32 (nowPos v)) (prevByte v)
    (if negb (stateIsCharState (state v)) then encodeMatched mb b else lit_encode b) cs re.

Lemma enc_literal_eq pos ev v mb b cs e : ev_rel v ev -> nowPos v = Z.of_nat pos ->
  index data (Z.of_nat pos) = Ret b ->
  (negb (stateIsCharState (state v)) = true -> index data (Z.of_nat pos - rep0 v - 1) = Ret mb) ->
  enc_literal (posStateMask p) data ev cs e =
  '(cs, e) ← E_literal v mb b cs e;
  Ret (mkEV (stateUpdateChar (state v)) (repDistances ev) (Z.of_nat pos + 1) b, cs, e).
Proof.
  intros [R1 R2 R3 R4] Hn Hb Hmb. unfold enc_literal, E_literal, match_index.
  rewrite R1, R2, R3, R4, Hn.
  destruct (eBit fMatch _ 0 cs e) as [[cs1 e1]| |]; cbn [mbind outcome_bind]; [|done|done].
  rewrite Hb. cbn [mbind outcome_bind].
  destruct (negb (stateIsCharState (state v))); [|done].
  change (index [rep0 v; rep1 v; rep2 v; rep3 v] 0) with (Ret (E := lzma_error) (rep0 v)).
  cbn [mbind outcome_bind]. by rewrite Hmb.
Qed.

Lemma lossless_D_literal v ow ow' mb b : byte_ok (prevByte v) -> byte_ok mb -> byte_ok b ->
  (negb (stateIsCharState (state v)) = true -> getByte (rep0 v) ow = Ret mb) ->
  putByte b ow = Ret ow' ->
  lossless P 8
    (eLit (u32 (nowPos v)) (prevByte v)
      (if negb (stateIsCharState (state v)) then encodeMatched mb b else lit_encode b))
    (D_literal v ow)
    (Continue, mkV (stateUpdateChar (state v)) (rep0 v) (rep1 v) (rep2 v) (rep3 v)
                   (u64 (nowPos v + 1)) b, ow').
Proof.
  intros Hp Hmbo Hbo Hmb Hput.
  eapply (lossless_ext _ _ _ _ (fun cs d => '(b, cs, d) ← decode_literal v mb cs d;
    (fun b cs d => ow ← putByte b ow;
       Ret ((Continue, mkV (stateUpdateChar (state v)) (rep0 v) (rep1 v) (rep2 v) (rep3 v)
              (u64 (nowPos v + 1)) b, ow), cs, d)) b cs d)); [intros; reflexivity| |].
  { intros cs d. unfold D_literal, decode_literal.
    destruct (negb (stateIsCharState (state v))); [by rewrite Hmb|done]. }
  eapply (lossless_then _ _ _ _ _ b); [intros cs d; by rewrite Hput|].
  by apply lossless_literal.
Qed.

Lemma literal_packet pos ev v ow :
  (pos < length data)%nat -> ev_rel v ev -> dec_inv p v ow (take pos data) ->
  exists ev' E, (forall cs e, enc_literal (posStateMask p) data ev cs e =
                   '(cs, e) ← E cs e; Ret (ev', cs, e)) /\
    packet_ok (S pos) ev' v ow E /\ repDistances ev' = repDistances ev /\
    e_nowPos ev' = Z.of_nat (S pos).
Proof.
  intros Hpos Hrel Hinv. pose proof (nowPos_take _ _ _ Hinv ltac:(lia)) as Hn.
  destruct (index_data pos Hpos) as (b & Hb1 & Hb2 & Hbo).
  destruct (match_byte pos v ow Hpos Hinv) as (mb & Hmbo & Hmb).
  destruct (dec_inv_literal p v ow _ b Hinv Hbo) as (ow' & Hput & Hinv').
  rewrite <- (take_S_r data pos b Hb2) in Hinv'.
  exists (mkEV (stateUpdateChar (state v)) (repDistances ev) (Z.of_nat pos + 1) b), (E_literal v mb b).
  split; [|split; [|split; [done|cbn; lia]]].
  { intros cs e. apply enc_literal_eq; auto. intros Hc. by apply Hmb. }
  eexists _, ow'. split; [|split; [exact Hinv'|]].
  { destruct Hrel as [R1 R2 R3 R4]. constructor; cbn; [done|done| |done].
    rewrite Hn, wrap_id by lia. done. }
  eapply lossless_ext; [intros; reflexivity | intros; apply dec_res_eq |].
  eapply (lossless_weaken _ (1 + 8)); [lia|].
  eapply (lossless_bind _ 1 8 _ _ _ (fun m => if m =? 0 then _ else _) 0).
  { apply lossless_isMatch; [apply (di_state _ _ _ _ Hinv)|auto]. }
  cbn [Z.eqb]. apply lossless_D_literal; auto; [apply (di_prev _ _ _ _ Hinv)|]. intros Hc. by apply Hmb.
Qed.

(** *** Match packets *)

(** The bits after isMatch decode to length [len] and variables [w]. *)
Lemma match_packet pos len v w ow E d :
  dec_inv p v ow (take pos data) -> match_result v (len, w) -> rep0 w = d ->
  0 <= d < Z.of_nat pos -> d < dictSizeCheck p -> copy_ok data pos d len = true ->
  lossless P 47 E (decode_match (Z.land (u32 (nowPos v)) (posStateMask p)) v) (Some (len, w)) ->
  (pos <= length data)%nat ->
  exists b, index data (Z.of_nat pos + len - 1) = Ret b /\
    forall ev', e_state ev' = state w -> repDistances ev' = [rep0 w; rep1 w; rep2 w; rep3 w] ->
      e_nowPos ev' = Z.of_nat pos + len -> e_prevByte ev' = b ->
      packet_ok (pos + Z.to_nat len) ev' v ow (fun cs e =>
        '(cs, e) ← eBit fMatch (match_index p v) 1 cs e; E cs e).
Proof.
  intros Hinv Hres Hd Hd0 Hdd Hcopy HE Hpos. pose proof (nowPos_take _ _ _ Hinv Hpos) as Hn.
  pose proof Hres as (Hlen & _ & _ & Hnw & _). cbn [fst snd] in *. change kMatchMaxLen with 273 in Hlen.
  unfold copy_ok in Hcopy. apply andb_true_iff in Hcopy as [Hc1 Hc2].
  apply bool_decide_eq_true in Hc1. apply Z.leb_le in Hc2.
  assert (Hchk : (nowPos w <=? rep0 w) || (dictSizeCheck p <=? rep0 w) = false).
  { rewrite Hnw, Hn, Hd. destruct (Z.leb_spec (Z.of_nat pos) d), (Z.leb_spec (dictSizeCheck p) d); try lia; done. }
  destruct (dec_inv_match p v ow _ len w Hinv Hres Hchk) as (h' & ow' & b & Hcp & Hcb & Hgb & Hlb & Hinv').
  rewrite Hd, Hc1 in Hcp. injection Hcp as <-.
  exists b. split.
  { rewrite look_back_take in Hlb by lia. unfold index.
    replace (Z.to_nat (Z.of_nat pos + len - 1)) with (pos + Z.to_nat len - 1)%nat by lia.
    by rewrite Hlb. }
  intros ev' E1 E2 E3 E4. eexists _, ow'. split; [|split; [exact Hinv'|]].
  { constructor; cbn; [done|done| |done]. rewrite Hnw, Hn, wrap_id by lia. done. }
  eapply lossless_ext; [intros; reflexivity | intros; apply dec_res_eq |].
  eapply (lossless_bind _ 1 47 _ _ _ (fun m => if m =? 0 then _ else _) 1).
  { apply lossless_isMatch; [apply (di_state _ _ _ _ Hinv)|auto]. }
  cbn [Z.eqb]. unfold D_match. eapply (lossless_then _ _ _ _ _ (Some (len, w))); [|exact HE].
  intros cs d'. cbn iota. rewrite Hchk, Hcb. cbn [mbind outcome_bind]. by rewrite Hgb.
Qed.

(** The four ways of shifting the distances. *)
Lemma shift_rep r0 r1 r2 r3 back : 0 <= back < 4 ->
  (distance ← index [r0; r1; r2; r3] back;
   reps ← shiftReps (Z.to_nat back) [r0; r1; r2; r3];
   (if negb (back =? 0) then store reps 0 distance else Ret reps))
  = Ret (E := lzma_error) (new_reps back [r0; r1; r2; r3]).
Proof.
  intros Hb. assert (back = 0 \/ back = 1 \/ back = 2 \/ back = 3) as [-> |[-> |[-> | ->]]] by lia;
    reflexivity.
Qed.

Lemma shift_new r0 r1 r2 r3 back : 4 <= back ->
  (reps ← shiftReps (Z.to_nat (kNumRepDistances - 1)) [r0; r1; r2; r3];
   store reps 0 (back - kNumRepDistances))
  = Ret (E := lzma_error) (new_reps back [r0; r1; r2; r3]).
Proof. intros Hb. unfold new_reps. zcases; try lia. reflexivity. Qed.

Lemma rep_vars v len back : 0 <= back < 4 ->
  let w := snd (rep_result v len back) in
  [rep0 w; rep1 w; rep2 w; rep3 w] = new_reps back [rep0 v; rep1 v; rep2 v; rep3 v] /\
  state w = (if len =? 1 then stateUpdateShortRep (state v) else stateUpdateRep (state v)) /\
  nowPos w = nowPos v /\ prevByte w = prevByte v /\ (reps_ok v -> reps_ok w).
Proof.
  intros Hb. unfold rep_result, new_reps, reps_ok; cbn [snd].
  assert (back = 0 \/ back = 1 \/ back = 2 \/ back = 3) as [-> |[-> |[-> | ->]]] by lia;
    cbn; split_and!; try done; tauto.
Qed.

Lemma rep_packet pos ev v ow len back :
  ev_rel v ev -> dec_inv p v ow (take pos data) -> (pos <= length data)%nat -> back < 4 ->
  match_ok data (dictSizeCheck p) pos (repDistances ev) len back = true ->
  exists ev' E, (forall cs e, enc_packet g (posStateMask p) data (len, back) ev cs e =
                   '(cs, e) ← E cs e; Ret (ev', cs, e)) /\
    packet_ok (pos + Z.to_nat len) ev' v ow E /\
    repDistances ev' = new_reps back (repDistances ev) /\
    e_nowPos ev' = Z.of_nat pos + len.
Proof.
  intros [R1 R2 R3 R4] Hinv Hpos Hb4 Hok. unfold match_ok in Hok. rewrite R2 in Hok |- *.
  apply andb_true_iff in Hok as [Hok Hd]. zbool.
  pose proof (nowPos_take _ _ _ Hinv Hpos) as Hn. pose proof (di_state _ _ _ _ Hinv) as Hs.
  pose proof (rep_vars v len back ltac:(lia)) as (Hreps & Hst & Hnp & Hpb' & Hrok).
  set (w := snd (rep_result v len back)) in *. rewrite <- Hreps in Hd. zbool.
  assert (Hch : rep_choice_ok len back) by (split; [lia|]; destruct (back =? 0); lia).
  assert (Hl1 : 1 <= len <= kMatchMaxLen) by (destruct (back =? 0); lia).
  assert (HE := lossless_rep (2 ^ pb) lc lp npos_bound v
           (Z.land (u32 (nowPos v)) (posStateMask p)) len back Hs
           ltac:(rewrite Hmask; by apply posState_bound) Hch).
  change (rep_result v len back) with (len, w) in HE. apply (lossless_weaken _ 14 47) in HE; [|lia].
  assert (Hres : match_result v (len, w)).
  { destruct (state_updates_ok _ Hs) as (_ & _ & U3 & U4).
    split; [done|]. cbn [fst snd]. rewrite Hst. split; [destruct (len =? 1); lia|].
    split; [apply Hrok, (di_reps _ _ _ _ Hinv)|done]. }
  edestruct (match_packet pos len v w ow) as (b & Hb & Hpk);
    [exact Hinv|exact Hres|reflexivity|lia|lia|done|exact HE|done|].
  exists (mkEV (state w) (new_reps back [rep0 v; rep1 v; rep2 v; rep3 v]) (Z.of_nat pos + len) b).
  eexists. split; [|split; [apply Hpk; cbn; auto|split; [done|done]]].
  intros cs e. unfold enc_packet. rewrite R1, R2, R3, Hn. fold (match_index p v).
  destruct (Z.eqb_spec back 0xFFFFFFFF); [lia|]. rewrite andb_false_r.
  unfold match_index. rewrite Hn.
  destruct (eBit fMatch _ 1 cs e) as [[cs1 e1]| |]; cbn [mbind outcome_bind]; [|done|done].
  change kNumRepDistances with 4. destruct (Z.ltb_spec back 4); [|lia].
  destruct (enc_rep _ _ _ _ cs1 e1) as [[cs2 e2]| |]; cbn [mbind outcome_bind]; [|done|done].
  pose proof (shift_rep (rep0 v) (rep1 v) (rep2 v) (rep3 v) back ltac:(lia)) as Hsh.
  destruct (index [_; _; _; _] back) as [dd| |]; cbn [mbind outcome_bind] in *; [|done|done].
  destruct (shiftReps _ _) as [rr| |]; cbn [mbind outcome_bind] in *; [|done|done].
  rewrite Hsh. cbn [mbind outcome_bind]. rewrite Hb. cbn [mbind outcome_bind]. by rewrite Hst.
Qed.

Lemma newmatch_packet pos ev v ow len back :
  ev_rel v ev -> dec_inv p v ow (take pos data) -> (pos <= length data)%nat -> 4 <= back ->
  match_ok data (dictSizeCheck p) pos (repDistances ev) len back = true ->
  exists ev' E, (forall cs e, enc_packet g (posStateMask p) data (len, back) ev cs e =
                   '(cs, e) ← E cs e; Ret (ev', cs, e)) /\
    packet_ok (pos + Z.to_nat len) ev' v ow E /\
    repDistances ev' = new_reps back (repDistances ev) /\
    e_nowPos ev' = Z.of_nat pos + len.
Proof.
  intros [R1 R2 R3 R4] Hinv Hpos Hb4 Hok. unfold match_ok in Hok. rewrite R2 in Hok |- *.
  apply andb_true_iff in Hok as [Hok Hd]. zbool.
  assert (Hnr : new_reps back [rep0 v; rep1 v; rep2 v; rep3 v] = [back - 4; rep0 v; rep1 v; rep2 v])
    by (unfold new_reps; zcases; try lia; done).
  rewrite Hnr in Hd. zbool. destruct (Z.eqb_spec back 0); [lia|].
  pose proof (nowPos_take _ _ _ Hinv Hpos) as Hn. pose proof (di_state _ _ _ _ Hinv) as Hs.
  assert (HE := lossless_newmatch (2 ^ pb) lc lp g v
           (Z.land (u32 (nowPos v)) (posStateMask p)) len (back - 4) Hg Hs
           ltac:(rewrite Hmask; by apply posState_bound) ltac:(lia) ltac:(lia)).
  assert (Hres : match_result v (len, match_vars v (back - 4))).
  { destruct (state_updates_ok _ Hs) as (_ & U2 & _). destruct (di_reps _ _ _ _ Hinv) as (? & ? & ? & ?).
    unfold match_result, reps_ok, dist_ok in *; cbn. lia. }
  edestruct (match_packet pos len v (match_vars v (back - 4)) ow) as (b & Hb & Hpk);
    [exact Hinv|exact Hres|reflexivity|cbn; lia|cbn; lia|done|exact HE|done|].
  exists (mkEV (stateUpdateMatch (state v)) (new_reps back [rep0 v; rep1 v; rep2 v; rep3 v])
               (Z.of_nat pos + len) b).
  eexists. split; [|split; [apply Hpk; cbn; auto|split; [done|done]]].
  intros cs e. unfold enc_packet. rewrite R1, R2, R3, Hn. unfold match_index. rewrite Hn.
  destruct (Z.eqb_spec len 1); [lia|]. cbn [andb].
  destruct (eBit fMatch _ 1 cs e) as [[cs1 e1]| |]; cbn [mbind outcome_bind]; [|done|done].
  change kNumRepDistances with 4. destruct (Z.ltb_spec back 4); [lia|].
  rewrite (wrap_id 32 (back - 4)) by lia.
  destruct (enc_newmatch _ _ _ _ _ cs1 e1) as [[cs2 e2]| |]; cbn [mbind outcome_bind]; [|done|done].
  pose proof (shift_new (rep0 v) (rep1 v) (rep2 v) (rep3 v) back ltac:(lia)) as Hsh.
  change kNumRepDistances with 4 in Hsh.
  destruct (shiftReps _ _) as [rr| |]; cbn [mbind outcome_bind] in *; [|done|done].
  rewrite Hsh. cbn [mbind outcome_bind]. by rewrite Hb.
Qed.

(** *** The loops *)

Context (eos : bool).
Context (Hus : unpackSize p = if eos then -1 else Z.of_nat (length data)).

Definition E_stream (choices : list (Z * Z)) (ev : evars) (cs : coders) (re : rangeEncoder) :=
  '(v, cs, re) ← enc_loop g (posStateMask p) data choices ev cs re;
  writeEndMarker eos (e_state v) (Z.land (u32 (e_nowPos v)) (posStateMask p)) cs re.

Definition run {A} (o : option (outcome lzma_error A)) : outcome lzma_error A :=
  match o with Some o => o | None => Panic end.

Lemma run_loop_S f v cs d ow :
  run (dec_loop (S f) p v cs d ow) =
  if loop_cond p v then
    '(r, cs, d) ← dec_res p v ow cs d;
    let '(fl, w, ow) := r in
    match fl with Continue => run (dec_loop f p w cs d ow) | Break => Ret (ow, cs, d) end
  else Ret (ow, cs, d).
Proof.
  cbn [dec_loop]. destruct (loop_cond p v); [|done]. unfold dec_res.
  by destruct (dec_step p v cs d ow) as [[[[[[] w] cs'] d'] ow']| |].
Qed.

Lemma loop_cond_at v ow pos : dec_inv p v ow (take pos data) -> (pos <= length data)%nat ->
  loop_cond p v = eos || (pos <? length data)%nat.
Proof.
  intros Hinv Hpos. unfold loop_cond. rewrite (nowPos_take _ _ _ Hinv Hpos), Hus.
  rewrite swrap_id by lia. destruct eos; [done|]. cbn [orb].
  destruct (Z.ltb_spec (Z.of_nat (length data)) 0); [lia|]. cbn [orb].
  destruct (Z.ltb_spec (Z.of_nat pos) (Z.of_nat (length data))), (Nat.ltb_spec pos (length data));
    try done; lia.
Qed.

(** At the end of the data: nothing, or the end marker. *)
Lemma end_lossless ev v ow : ev_rel v ev -> dec_inv p v ow (take (length data) data) ->
  lossless P 48 (E_stream [] ev) (fun cs d => run (dec_loop 1 p v cs d ow)) ow.
Proof.
  intros [R1 R2 R3 R4] Hinv. pose proof (loop_cond_at _ _ _ Hinv (le_n _)) as Hc.
  rewrite Nat.ltb_irrefl, orb_false_r in Hc.
  eapply (lossless_ext _ _ (writeEndMarker eos (state v) (Z.land (u32 (nowPos v)) (posStateMask p)))).
  { intros. unfold E_stream. cbn [enc_loop mbind outcome_bind]. by rewrite R1, R3. }
  { intros cs d. symmetry. rewrite (run_loop_S 0), Hc. reflexivity. }
  destruct eos eqn:Ee.
  2: { eapply lossless_weaken; [|apply lossless_ret]. lia. }
  eapply lossless_ext; [intros; reflexivity | intros; reflexivity |].
  eapply (lossless_then _ _ _ _ (fun r cs d => let '(fl, w, ow) := r in
    match fl with Continue => run (dec_loop 0 p w cs d ow) | Break => Ret (ow, cs, d) end)
    (Break, v, ow)); [done|].
  eapply lossless_ext; [intros; symmetry; apply writeEndMarker_eq | intros; apply dec_res_eq |].
  eapply (lossless_bind _ 1 47 _ _ _ (fun m => if m =? 0 then _ else _) 1).
  { apply lossless_isMatch; [apply (di_state _ _ _ _ Hinv)|auto]. }
  cbn [Z.eqb]. unfold D_match. eapply (lossless_then _ _ _ _ _ None); [done|].
  apply lossless_marker; [apply (di_state _ _ _ _ Hinv)|].
  rewrite Hmask. by apply posState_bound.
Qed.

(** One packet and the rest. *)
Lemma cons_lossless c choices pos' ev ev' v ow E r n :
  (forall cs e, enc_packet g (posStateMask p) data c ev cs e = '(cs, e) ← E cs e; Ret (ev', cs, e)) ->
  loop_cond p v = true ->
  forall w ow1, lossless P 48 E (dec_res p v ow) (Continue, w, ow1) ->
  dec_inv p w ow1 (take pos' data) ->
  lossless P (48 * length choices + 48) (E_stream choices ev')
    (fun cs d => run (dec_loop n p w cs d ow1)) r ->
  lossless P (48 * length (c :: choices) + 48) (E_stream (c :: choices) ev)
    (fun cs d => run (dec_loop (S n) p v cs d ow)) r.
Proof.
  intros HE Hc w ow1 H1 Hinv H2.
  eapply (lossless_ext _ _ (fun cs e => '(cs, e) ← E cs e; E_stream choices ev' cs e) _
    (fun cs d => '(r, cs, d) ← dec_res p v ow cs d;
       (fun r cs d => let '(fl, w, ow) := r in
        match fl with Continue => run (dec_loop n p w cs d ow) | Break => Ret (ow, cs, d) end) r cs d)).
  { intros cs e. unfold E_stream. cbn [enc_loop]. rewrite HE.
    by destruct (E cs e) as [[cs1 e1]| |]. }
  { intros cs d. by rewrite run_loop_S, Hc. }
  eapply lossless_weaken; [|eapply (lossless_bind _ 48 (48 * length choices + 48)); [exact H1|exact H2]].
  cbn [length]. lia.
Qed.

Lemma loop_lossless choices : forall pos ev v ow,
  (pos <= length data)%nat -> ev_rel v ev -> dec_inv p v ow (take pos data) ->
  parse_ok data (dictSizeCheck p) pos (repDistances ev) choices = true ->
  exists ow', win_rel ow' data /\
    lossless P (48 * length choices + 48) (E_stream choices ev)
      (fun cs d => run (dec_loop (S (length choices)) p v cs d ow)) ow'.
Proof.
  induction choices as [|[len back] choices IH]; intros pos ev v ow Hpos Hrel Hinv Hok.
  { cbn [parse_ok] in Hok. apply Nat.eqb_eq in Hok as ->. exists ow.
    pose proof (di_win _ _ _ _ Hinv) as Hw. rewrite firstn_all in Hw. split; [done|].
    by apply end_lossless. }
  cbn [parse_ok] in Hok. cbn [length].
  destruct ((len =? 1) && (back =? 0xFFFFFFFF)) eqn:Elit.
  - apply andb_true_iff in Hok as [Hlt Hok]. apply Nat.ltb_lt in Hlt.
    destruct (literal_packet pos ev v ow Hlt Hrel Hinv)
      as (ev' & E & HE & (w & ow1 & Hrel' & Hinv' & HL) & Hr & _).
    destruct (IH (S pos) ev' w ow1) as (ow' & Hw & HL2); [lia|done|done|by rewrite Hr|].
    exists ow'. split; [done|]. eapply (cons_lossless _ _ (S pos)); [|
      rewrite (loop_cond_at _ _ _ Hinv Hpos); destruct (Nat.ltb_spec pos (length data)); [apply orb_true_r|lia]
      |exact HL|exact Hinv'|exact HL2].
    intros cs e. unfold enc_packet. rewrite Elit. apply HE.
  - apply andb_true_iff in Hok as [Hm Hok].
    assert (Hex : exists ev' E, (forall cs e, enc_packet g (posStateMask p) data (len, back) ev cs e =
                   '(cs, e) ← E cs e; Ret (ev', cs, e)) /\
             packet_ok (pos + Z.to_nat len) ev' v ow E /\
             repDistances ev' = new_reps back (repDistances ev) /\ e_nowPos ev' = Z.of_nat pos + len).
    { destruct (Z.lt_ge_cases back 4); [by apply rep_packet | by apply newmatch_packet]. }
    destruct Hex as (ev' & E & HE & (w & ow1 & Hrel' & Hinv' & HL) & Hr & Hnp).
    unfold match_ok in Hm. apply andb_true_iff in Hm as [Hm1 Hm2]. zbool.
    assert (1 <= len) by (destruct (back =? 0); lia).
    assert (Hfit : Z.of_nat pos + len <= Z.of_nat (length data)).
    { destruct (new_reps back (repDistances ev)); [done|]. zbool.
      match goal with H : copy_ok _ _ _ _ = true |- _ => unfold copy_ok in H end. zbool. lia. }
    destruct (IH (pos + Z.to_nat len)%nat ev' w ow1) as (ow' & Hw & HL2); [lia|done|done|by rewrite Hr|].
    exists ow'. split; [done|]. eapply (cons_lossless _ _ _ ev ev'); [exact HE|
      rewrite (loop_cond_at _ _ _ Hinv Hpos); destruct (Nat.ltb_spec pos (length data)); [apply orb_true_r|lia]
      |exact HL|exact Hinv'|exact HL2].
Qed.
End stream.

(** ** Header *)

Lemma land_low_high res b k : 0 <= k -> 0 <= res < 2 ^ k -> Z.land res (b * 2 ^ k) = 0.
Proof.
  intros Hk Hres. apply Z.bits_inj'. intros n Hn. rewrite Z.land_spec, Z.bits_0.
  destruct (Z.lt_ge_cases n k).
  - rewrite Z.mul_pow2_bits_low by lia. apply andb_false_r.
  - destruct (Z.eq_dec res 0) as [->|]; [by rewrite Z.bits_0|].
    rewrite Z.bits_above_log2; [done|lia|]. apply Z.log2_lt_pow2; [lia|].
    apply Z.lt_le_trans with (2 ^ k); [lia|]. apply Z.pow_le_mono_r; lia.
Qed.

Lemma unpackSize_loop_spec size header n : forall i,
  0 <= size < 2 ^ 63 -> 0 <= i -> i + Z.of_nat n <= 8 ->
  (forall j, i <= j < i + Z.of_nat n ->
     index header (lzmaPropSize + j) = Ret (u8 (Z.shiftr size (8 * j)))) ->
  unpackSize_loop n i (size mod 2 ^ (8 * i)) header
  = Ret (size mod 2 ^ (8 * (i + Z.of_nat n))).
Proof.
  induction n as [|n IH]; intros i Hs Hi Hn Hh; cbn [unpackSize_loop].
  { by rewrite Z.add_0_r. }
  rewrite Hh by lia. cbn [mbind outcome_bind].
  assert (Hp : 0 < 2 ^ (8 * i)) by (apply Z.pow_pos_nonneg; lia).
  assert (Hstep : size mod 2 ^ (8 * (i + 1)) =
            size mod 2 ^ (8 * i) + u8 (Z.shiftr size (8 * i)) * 2 ^ (8 * i)).
  { rewrite Z.mul_add_distr_l, Z.pow_add_r by lia. rewrite Z.rem_mul_r by lia.
    unfold wrap. rewrite Z.shiftr_div_pow2 by lia. change (8 * 1) with 8. lia. }
  assert (Hle : size mod 2 ^ (8 * (i + 1)) <= size) by (apply Z.mod_le; [lia|apply Z.pow_pos_nonneg; lia]).
  pose proof (Z.mod_pos_bound size (2 ^ (8 * i)) Hp) as Hm.
  pose proof (wrap_range 8 (Z.shiftr size (8 * i)) ltac:(lia)) as Hb.
  rewrite Z.shiftl_mul_pow2 by lia. rewrite swrap_id by nia.
  replace (Z.lor _ _) with (size mod 2 ^ (8 * (i + 1))).
  - rewrite IH; [f_equal; f_equal; f_equal; lia|lia|lia|lia|]. intros j Hj. apply Hh. lia.
  - rewrite Hstep, <- Z.add_lor_land. rewrite land_low_high by lia. lia.
Qed.

(** The decoder reads back the header the encoder writes. *)
Lemma header_decoded cl dict size :
  checkValues cl = true -> 0 <= dict < 2 ^ 32 -> -1 <= size < 2 ^ 63 ->
  let h := enc_header cl dict size in
  length h = 13%nat /\ bytes_ok h /\
  decodeProps h = Ret (mkProps (cl_litContextBits cl) (cl_litPosStateBits cl) (cl_posStateBits cl) dict) /\
  unpackSize_loop 8 0 0 h = Ret size.
Proof.
  intros Hcl Hd Hs h. unfold checkValues in Hcl.
  rewrite !andb_true_iff, !negb_true_iff, !orb_false_iff in Hcl.
  destruct Hcl as (((((_ & _) & Hlc) & Hlp) & Hpb) & _). destruct Hlc, Hlp, Hpb. zbool.
  assert (Hbytes : bytes_ok h).
  { unfold h, enc_header. cbn [map app]. repeat (apply Forall_cons; split; [apply wrap_range; lia|]).
    constructor. }
  split; [done|]. split; [done|]. split.
  - unfold h, enc_header. cbn [map app].
    rewrite (wrap_id 32 (cl_posStateBits cl * 5)) by lia.
    rewrite (wrap_id 32 (cl_posStateBits cl * 5 + _)) by lia. rewrite (wrap_id 32) by lia.
    rewrite decodeProps_eq.
    2: { repeat (apply Forall_cons; split; [apply wrap_range; lia|]). constructor. }
    rewrite wrap_id by lia. destruct (Z.ltb_spec ((cl_posStateBits cl * 5 + cl_litPosStateBits cl) * 9 + cl_litContextBits cl) 225); [|lia].
    do 2 f_equal.
    + rewrite Z.add_comm, Z.mod_add by lia. apply Z.mod_small. lia.
    + rewrite Z.add_comm, Z.div_add, Z.div_small by lia. rewrite Z.add_0_l, Z.add_comm, Z.mod_add by lia.
      apply Z.mod_small. lia.
    + symmetry. apply (Z.div_unique_pos _ _ _ (cl_litPosStateBits cl * 9 + cl_litContextBits cl)); lia.
    + transitivity (le_get (le_put 4 dict)).
      * f_equal.
      * rewrite le_get_put by lia. apply Z.mod_small. change (8 * Z.of_nat 4) with 32. lia.
  - destruct (Z.eq_dec size (-1)) as [->|]; [reflexivity|].
    pose proof (unpackSize_loop_spec size h 8 0 ltac:(lia) ltac:(lia) ltac:(lia)) as H'.
    change (2 ^ (8 * 0)) with 1 in H'. rewrite Z.mod_1_r in H'. rewrite H'.
    + change (2 ^ (8 * (0 + Z.of_nat 8))) with (2 ^ 64). by rewrite Z.mod_small by lia.
    + intros j Hj. assert (j = 0 \/ j = 1 \/ j = 2 \/ j = 3 \/ j = 4 \/ j = 5 \/ j = 6 \/ j = 7)
        as [-> |[-> |[-> |[-> |[-> |[-> |[-> | ->]]]]]]] by lia; reflexivity.
Qed.

(** ** The whole stream *)

(** The packets of a stream: the first byte is coded apart, as a literal. *)
Definition all_choices (data : list Z) (choices : list (Z * Z)) : list (Z * Z) :=
  if (length data =? 0)%nat then [] else (1, 0xFFFFFFFF) :: choices.

Lemma doEncode_eq g p data choices eos cs e :
  doEncode g (posStateMask p) eos data choices cs e =
  '(_, e) ← E_stream g p data eos (all_choices data choices) evars0 cs e; Ret (re_w (flush e)).
Proof.
  unfold doEncode, E_stream, all_choices. destruct (length data =? 0)%nat; [done|].
  cbn [enc_loop]. change (enc_packet g (posStateMask p) data (1, 4294967295) evars0 cs e)
    with (enc_literal (posStateMask p) data evars0 cs e).
  destruct (enc_literal _ _ _ _ _) as [[[v1 cs1] e1]| |]; cbn [mbind outcome_bind]; [|done|done].
  by destruct (enc_loop _ _ _ _ _ _ _) as [[[v2 cs2] e2]| |].
Qed.

Lemma body_roundtrip g pb lc lp p data choices eos cs n rest :
  gFast_ok g = true -> 0 <= pb <= 4 -> 0 <= lc <= 8 -> 0 <= lp <= 4 ->
  posStateMask p = 2 ^ pb - 1 -> bytes_ok data -> Z.of_nat (length data) < 2 ^ 63 ->
  0 < dictSizeCheck p <= n -> n <= 2 ^ 31 ->
  unpackSize p = (if eos : bool then -1 else Z.of_nat (length data)) ->
  parse_ok data (dictSizeCheck p) 0 (repDistances evars0) (all_choices data choices) = true ->
  48 * (Z.of_nat (length choices) + 2) + 6 < 2 ^ 32 -> bytes_ok rest ->
  coders_ok (2 ^ pb) lc lp cs ->
  exists body, doEncode g (posStateMask p) eos data choices cs newRangeEncoder = Ret body /\
    bytes_ok body /\
    exists d, newRangeDecoder (body ++ rest) = Ret d /\
    exists ow d', doDecode (S (length (all_choices data choices))) p cs d (newLzOutWindow n) = Some (Ret (ow, d')) /\
      ow_w ow = data /\ rd_r d' = rest.
Proof.
  intros Hg Hpb Hlc Hlp Hmask Hdata H63 Hdc Hn Hus Hok Hbudget Hrest Hcs.
  destruct (loop_lossless g pb lc lp p data Hg Hpb Hlc Hlp Hmask Hdata H63 ltac:(lia) eos Hus
              (all_choices data choices) 0 evars0 vars0 (newLzOutWindow n))
    as (ow & Hw & HL); [lia|by constructor|by apply dec_inv_new|done|].
  destruct (HL cs Hcs) as (cs' & _ & C).
  destruct (codes_stream _ _ _ _ _ _ rest C) as (e' & HE & Hb & d & Hd & d' & HD & Hr).
  { unfold all_choices. destruct (_ =? _)%nat; cbn [length]; lia. }
  { done. }
  exists (re_w (flush e')). rewrite doEncode_eq, HE. split; [done|]. split; [done|].
  exists d. split; [done|]. destruct (ow_flush_spec _ _ Hw) as (ow' & Hf & Hout).
  exists ow', d'. split; [|done]. unfold doDecode. unfold run in HD.
  destruct (dec_loop _ _ _ _ _ _) as [o|]; [|done]. subst o. cbn [fmap option_fmap option_map mbind outcome_bind].
  by rewrite Hf.
Qed.

(** The decoder reads the encoder's stream. *)
Lemma stream_roundtrip cl size data choices rest :
  checkValues cl = true -> bytes_ok data -> bytes_ok rest ->
  Z.of_nat (length data) < 2 ^ 63 -> size = -1 \/ size = Z.of_nat (length data) ->
  parse_ok data (2 ^ cl_dictSize cl) 0 [0; 0; 0; 0] (all_choices data choices) = true ->
  48 * (Z.of_nat (length choices) + 2) + 6 < 2 ^ 32 ->
  exists out, encoder cl size data choices = Ret out /\ bytes_ok out /\
    forall fuel, (length choices + 2 <= fuel)%nat ->
      decoder fuel (out ++ rest) = Some (Ret (data, rest)).
Proof.
  intros Hcl Hdata Hrest H63 Hsize Hok Hbudget.
  destruct initGFastPos_ok as (g & Eg & Hg). unfold encoder. rewrite Eg. cbn [mbind outcome_bind].
  pose proof Hcl as Hcl'. unfold checkValues in Hcl'.
  rewrite !andb_true_iff, !negb_true_iff, !orb_false_iff in Hcl'.
  destruct Hcl' as (((((Hd & _) & Hlc) & Hlp) & Hpb) & _). destruct Hd, Hlc, Hlp, Hpb. zbool.
  assert (Hdict : 2 ^ 12 <= 2 ^ cl_dictSize cl <= 2 ^ 29) by (split; apply Z.pow_le_mono_r; lia).
  rewrite Z.shiftl_1_l, (wrap_id 32 (2 ^ cl_dictSize cl)) by lia.
  set (pr := mkProps _ _ _ _).
  destruct (newCoders_ok pr) as (cs & Ecs & Hcs); [cbn; lia|cbn; lia|cbn; lia|].
  rewrite Ecs. cbn [mbind outcome_bind].
  rewrite mask_pow by lia.
  set (p := mkP (2 ^ cl_posStateBits cl - 1) (2 ^ cl_dictSize cl) size).
  destruct (header_decoded cl (2 ^ cl_dictSize cl) size Hcl ltac:(lia) ltac:(lia))
    as (Hhl & Hhb & Hhp & Hhu).
  destruct (body_roundtrip g (cl_posStateBits cl) (cl_litContextBits cl) (cl_litPosStateBits cl) p
              data choices (size =? -1) cs (2 ^ cl_dictSize cl) rest)
    as (body & Hbody & Hbb & d & Hd & ow & d' & Hdec & Hout & Hr);
    [exact Hg|lia|lia|lia|reflexivity|exact Hdata|exact H63|cbn [p dictSizeCheck]; lia|lia|
     |exact Hok|exact Hbudget|exact Hrest|exact Hcs|].
  { unfold p; cbn [unpackSize]. destruct Hsize as [-> | ->]; [done|].
    destruct (Z.eqb_spec (Z.of_nat (length data)) (-1)); lia. }
  change (posStateMask p) with (2 ^ cl_posStateBits cl - 1) in Hbody. rewrite Hbody.
  cbn [mbind outcome_bind]. set (h := enc_header _ _ _) in *. clearbody h.
  exists (h ++ body). split; [reflexivity|]. split; [apply bytes_ok_app; split; assumption|]. intros fuel Hf.
  unfold decoder. rewrite <- app_assoc, (readFull_app h (body ++ rest) Hhl). cbn [mbind outcome_bind].
  rewrite Hhp. cbn [mbind outcome_bind]. rewrite Hhu. cbn [mbind outcome_bind]. rewrite Hd.
  cbn [mbind outcome_bind]. fold pr. rewrite Ecs. cbn [mbind outcome_bind posStateBits dictSize pr].
  assert (Em : maxUInt32 (2 ^ cl_dictSize cl) 1 = 2 ^ cl_dictSize cl)
    by (unfold maxUInt32; zcases; lia).
  rewrite Em. assert (Ew : maxUInt32 (2 ^ cl_dictSize cl) (Z.shiftl 1 12) = 2 ^ cl_dictSize cl)
    by (unfold maxUInt32; change (Z.shiftl 1 12) with (2 ^ 12); zcases; lia).
  rewrite Ew, mask_pow by lia. fold p.
  unfold doDecode in *. destruct (dec_loop _ p _ _ _ _) as [o|] eqn:Eo in Hdec; [|done].
  rewrite (dec_loop_mono p _ fuel _ _ _ _ o) with (2 := Eo).
  - cbn in Hdec |- *. injection Hdec as ->. cbn. by rewrite Hout, Hr.
  - unfold all_choices. destruct (_ =? _)%nat; cbn [length]; lia.
Qed.

(** ** Properties *)

(** C2: LZMA round trip.  For every compression level the checks accept, every byte
    string and every valid parse of it into literals, matches and repeats, the encoder
    produces a stream, with the size in the header or with an end marker, that the
    decoder turns back into exactly the data; the decoder stops where the stream ends,
    leaving what follows unread.  The budget bounds the deferred carry run by its 32-bit
    counter. *)
Theorem lzma_roundtrip cl size data choices rest :
  checkValues cl = true -> bytes_ok data -> bytes_ok rest ->
  Z.of_nat (length data) < 2 ^ 63 -> size = -1 \/ size = Z.of_nat (length data) ->
  parse_ok data (2 ^ cl_dictSize cl) 0 [0; 0; 0; 0] (all_choices data choices) = true ->
  48 * (Z.of_nat (length choices) + 2) + 6 < 2 ^ 32 ->
  exists out, encoder cl size data choices = Ret out /\ bytes_ok out /\
    forall fuel, (length choices + 2 <= fuel)%nat ->
      decoder fuel (out ++ rest) = Some (Ret (data, rest)).
Proof. intros. by apply stream_roundtrip. Qed.

Lemma lzma_roundtrip_witness :
  let data := [97; 98; 97; 98; 97; 98; 97; 98; 120; 97; 98; 97; 98; 97] in
  let lit := (1, 0xFFFFFFFF) in
  (* b, then a match of 6 at distance 2, the literal x, and a match of 5 at distance 9 *)
  let choices := [lit; (6, 5); lit; (5, 12)] in
  exists out, encoder (mkCL 16 64 3 0 2 4) (-1) data choices = Ret out /\ bytes_ok out /\
    forall fuel, (6 <= fuel)%nat -> decoder fuel (out ++ [7]) = Some (Ret (data, [7])).
Proof.
  intros data lit choices. apply (lzma_roundtrip (mkCL 16 64 3 0 2 4) (-1) data choices [7]).
  - reflexivity.
  - repeat (apply Forall_cons; split; [unfold byte_ok; lia|]). constructor.
  - repeat (apply Forall_cons; split; [unfold byte_ok; lia|]). constructor.
  - reflexivity.
  - left. reflexivity.
  - vm_compute. reflexivity.
  - reflexivity.
Defined.
