(* ===== verification/LzmaInWindow.v ===== *)
(** lzma2/lz_window.go: the input window of the LZMA encoder, a buffer that slides over
    the bytes of a Reader and always keeps the bytes before and after the current
    position that the match finder and the parser look at.

    The specification is the whole input: [iw_rel data org off iw] says that the
    window [iw] shows the bytes [data], where the window's position [p] is the byte
    [org + p] of the data and is kept at the index [off + p] of the buffer. The window
    moves its contents (moveBlock changes [off]), refills the buffer (readBlock) and
    renumbers its positions (reduceOffsets changes both), and every operation is proved
    to keep the relation. A Reader is the list of what its calls return. *)

From Stdlib Require Import ZArith Lia.
From stdpp Require Import base numbers option list.
From S2P Require Import Prelude RangeCoder LzmaWindow.
#[local] Open Scope Z_scope.

(** What the calls of Read have to give: some bytes (handed out over as many calls as
    the room in the caller's slice asks for) or an error; io.EOF for ever at the end. *)
Inductive read_event := Got (bs : list Z) | Failed (e : lzma_error).

(** r.Read(p) with len(p) = [room]: the bytes read, the error, the reader after it. *)
Definition Read (room : nat) (r : list read_event)
    : list Z * option lzma_error * list read_event :=
  match r with
  | [] => ([], Some EOF, [])
  | Got bs :: r' =>
      if (length bs <=? room)%nat then (bs, None, r')
      else (take room bs, None, Got (drop room bs) :: r')
  | Failed e :: r' => ([], Some e, r')
  end.

Record lzInWindow := mkIW {
  iw_r : list read_event;
  iw_buf : list Z;
  posLimit : Z;
  lastSafePos : Z;
  bufOffset : Z;
  blockSize : Z;
  iw_pos : Z;
  keepSizeBefore : Z;
  keepSizeAfter : Z;
  iw_streamPos : Z;
  streamEnd : bool
}.

(** Assignments to the fields that change. *)
Definition iw_set_read (r : list read_event) (buf : list Z) (streamPos posLimit : Z)
    (iw : lzInWindow) : lzInWindow :=
  mkIW r buf posLimit (lastSafePos iw) (bufOffset iw) (blockSize iw) (iw_pos iw)
       (keepSizeBefore iw) (keepSizeAfter iw) streamPos (streamEnd iw).
Definition iw_set_end (r : list read_event) (posLimit : Z) (iw : lzInWindow) : lzInWindow :=
  mkIW r (iw_buf iw) posLimit (lastSafePos iw) (bufOffset iw) (blockSize iw) (iw_pos iw)
       (keepSizeBefore iw) (keepSizeAfter iw) (iw_streamPos iw) true.
Definition iw_set_block (buf : list Z) (bufOffset : Z) (iw : lzInWindow) : lzInWindow :=
  mkIW (iw_r iw) buf (posLimit iw) (lastSafePos iw) bufOffset (blockSize iw) (iw_pos iw)
       (keepSizeBefore iw) (keepSizeAfter iw) (iw_streamPos iw) (streamEnd iw).
Definition iw_set_pos (pos : Z) (iw : lzInWindow) : lzInWindow :=
  mkIW (iw_r iw) (iw_buf iw) (posLimit iw) (lastSafePos iw) (bufOffset iw) (blockSize iw) pos
       (keepSizeBefore iw) (keepSizeAfter iw) (iw_streamPos iw) (streamEnd iw).

(** The loop of moveBlock: [n] more bytes from the index [i] on. *)
Fixpoint moveBlock_loop (n : nat) (i offset : Z) (buf : list Z) : outcome lzma_error (list Z) :=
  match n with
  | O => Ret buf
  | S n' =>
      b ← index buf (u32 (offset + i));
      buf ← store buf i b;
      moveBlock_loop n' (u32 (i + 1)) offset buf
  end.

Definition moveBlock (iw : lzInWindow) : outcome lzma_error lzInWindow :=
  let offset := u32 (u32 (bufOffset iw + iw_pos iw) - keepSizeBefore iw) in
  let offset := if 0 <? offset then u32 (offset - 1) else offset in
  let numBytes := u32 (u32 (bufOffset iw + iw_streamPos iw) - offset) in
  buf ← moveBlock_loop (Z.to_nat numBytes) 0 offset (iw_buf iw);
  Ret (iw_set_block buf (u32 (bufOffset iw - offset)) iw).

Definition is_eof (err : option lzma_error) : bool :=
  match err with Some EOF => true | _ => false end.

(** What one turn of readBlock's loop does after Read returned [bs] and [err]: the
    window and whether the loop goes on. *)
Definition readBlock_got (iw : lzInWindow) (lo : Z) (bs : list Z) (err : option lzma_error)
    (r : list read_event) : outcome lzma_error (lzInWindow * bool) :=
  match err with
  | Some ((ErrUnexpectedEOF | streamError | headerError | nWriteError | argumentValueError) as e) => Fail e
  | _ =>
      if (length bs =? 0)%nat && is_eof err then
        let limit := iw_streamPos iw in
        let ptr := u32 (bufOffset iw + limit) in
        let limit := if lastSafePos iw <? ptr then u32 (lastSafePos iw - bufOffset iw) else limit in
        Ret (iw_set_end r limit iw, false)
      else
        let streamPos := u32 (iw_streamPos iw + Z.of_nat (length bs)) in
        let limit := if u32 (iw_pos iw + keepSizeAfter iw) <=? streamPos
                     then u32 (streamPos - keepSizeAfter iw) else posLimit iw in
        Ret (iw_set_read r (splice (Z.to_nat lo) bs (iw_buf iw)) streamPos limit iw, true)
  end.

(** The loop of readBlock; [fuel] bounds the number of its turns. *)
Fixpoint readBlock_loop (fuel : nat) (iw : lzInWindow) : outcome lzma_error lzInWindow :=
  match fuel with
  | O => Panic
  | S fuel' =>
      if u32 (u32 (blockSize iw - bufOffset iw) - iw_streamPos iw) =? 0 then Ret iw
      else
        let lo := u32 (bufOffset iw + iw_streamPos iw) in
        if (blockSize iw <? lo) || (Z.of_nat (length (iw_buf iw)) <? blockSize iw) then Panic
        else
          let '(bs, err, r) := Read (Z.to_nat (blockSize iw - lo)) (iw_r iw) in
          '(iw, again) ← readBlock_got iw lo bs err r;
          if (again : bool) then readBlock_loop fuel' iw else Ret iw
  end.

Definition readBlock_fuel (iw : lzInWindow) : nat := length (iw_r iw) + 2.

Definition readBlock (iw : lzInWindow) : outcome lzma_error lzInWindow :=
  if streamEnd iw then Ret iw else readBlock_loop (readBlock_fuel iw) iw.

Definition newLzInWindow (r : list read_event) (keepSizeBefore keepSizeAfter keepSizeReserv : Z)
    : outcome lzma_error lzInWindow :=
  let blockSize := u32 (u32 (keepSizeBefore + keepSizeAfter) + keepSizeReserv) in
  readBlock (mkIW r (replicate (Z.to_nat blockSize) 0) 0 (u32 (blockSize - keepSizeAfter)) 0
                  blockSize 0 keepSizeBefore keepSizeAfter 0 false).

Definition iw_movePos (iw : lzInWindow) : outcome lzma_error lzInWindow :=
  let iw := iw_set_pos (u32 (iw_pos iw + 1)) iw in
  if posLimit iw <? iw_pos iw then
    let ptr := u32 (bufOffset iw + iw_pos iw) in
    iw ← (if lastSafePos iw <? ptr then moveBlock iw else Ret iw);
    readBlock iw
  else Ret iw.

(** The index is an int32: a negative one is a panic. *)
Definition getIndexByte (ind : Z) (iw : lzInWindow) : outcome lzma_error Z :=
  let i := i32 (i32 (u32 (bufOffset iw + iw_pos iw)) + ind) in
  if i <? 0 then Panic else index (iw_buf iw) i.

(** The loop of getMatchLen: [n] bounds the bytes still to compare, [res] are equal. *)
Fixpoint getMatchLen_loop (n : nat) (res pby distance : Z) (buf : list Z)
    : outcome lzma_error Z :=
  match n with
  | O => Ret res
  | S n' =>
      a ← index buf (u32 (pby + res));
      b ← index buf (u32 (u32 (pby + res) - distance));
      if a =? b then getMatchLen_loop n' (u32 (res + 1)) pby distance buf else Ret res
  end.

Definition getMatchLen (ind distance limit : Z) (iw : lzInWindow) : outcome lzma_error Z :=
  let uIndex := u32 ind in
  let limit :=
    if streamEnd iw && (iw_streamPos iw <? u32 (u32 (iw_pos iw + uIndex) + limit))
    then u32 (iw_streamPos iw - u32 (iw_pos iw + uIndex)) else limit in
  let distance := u32 (distance + 1) in
  let pby := u32 (u32 (bufOffset iw + iw_pos iw) + uIndex) in
  getMatchLen_loop (Z.to_nat limit) 0 pby distance (iw_buf iw).

Definition getNumAvailableBytes (iw : lzInWindow) : Z := u32 (iw_streamPos iw - iw_pos iw).

Definition reduceOffsets (subValue : Z) (iw : lzInWindow) : lzInWindow :=
  mkIW (iw_r iw) (iw_buf iw) (u32 (posLimit iw - subValue)) (lastSafePos iw)
       (u32 (bufOffset iw + subValue)) (blockSize iw) (u32 (iw_pos iw - subValue))
       (keepSizeBefore iw) (keepSizeAfter iw) (u32 (iw_streamPos iw - subValue)) (streamEnd iw).

(** ** The input as one list *)

(** The bytes a Reader delivers before an error or the end. *)
Fixpoint content (r : list read_event) : list Z :=
  match r with
  | [] => []
  | Got bs :: r' => bs ++ content r'
  | Failed _ :: _ => []
  end.

(** A computation that returns a good value or reports one of the Reader's errors. *)
Definition yields {A} (bad : lzma_error -> Prop) (Q : A -> Prop) (o : outcome lzma_error A) : Prop :=
  match o with Ret a => Q a | Fail e => bad e | Panic => False end.

Lemma yields_bind {A B} bad (Q : A -> Prop) (R : B -> Prop) o (f : A -> outcome lzma_error B) :
  yields bad Q o -> (forall a, Q a -> yields bad R (f a)) -> yields bad R (o ≫= f).
Proof. intros H Hf. destruct o; cbn in *; [by apply Hf|done|done]. Qed.

Lemma yields_weaken {A} bad (Q R : A -> Prop) o :
  yields bad Q o -> (forall a, Q a -> R a) -> yields bad R o.
Proof. destruct o; cbn; auto. Qed.

(** Index expressions on an index in range. *)
Lemma index_ret (l : list Z) i b : l !! Z.to_nat i = Some b -> index l i = Ret b.
Proof. unfold index. by intros ->. Qed.

Lemma index_some (l : list Z) i : 0 <= i < Z.of_nat (length l) -> exists b, l !! Z.to_nat i = Some b.
Proof. intros. apply lookup_lt_is_Some_2. lia. Qed.

Lemma store_ret (l : list Z) i b : 0 <= i < Z.of_nat (length l) -> store l i b = Ret (<[Z.to_nat i := b]> l).
Proof. intros. unfold store. by destruct (index_some l i) as [x ->]. Qed.

Section window.
Context (bad : lzma_error -> Prop) (data : list Z).

(** The window with the position [p] standing for the byte [org + p] of the data, kept
    at the index [off + p] of the buffer. *)
Record iw_core (org off : Z) (iw : lzInWindow) : Prop := {
  ir_errs : forall e, Failed e ∈ iw_r iw -> bad e;
  ir_len : Z.of_nat (length (iw_buf iw)) = blockSize iw;
  ir_before : 0 < keepSizeBefore iw;
  ir_after : 0 < keepSizeAfter iw;
  ir_block : keepSizeBefore iw + keepSizeAfter iw < blockSize iw < 2 ^ 31;
  ir_safe : lastSafePos iw = blockSize iw - keepSizeAfter iw;
  ir_off : bufOffset iw = u32 off;
  ir_pos : 0 <= iw_pos iw <= 2 ^ 30;
  ir_ahead : iw_pos iw <= iw_streamPos iw;
  ir_fit : 0 <= off + iw_pos iw /\ off + iw_streamPos iw <= blockSize iw;
  ir_shift : off <= org;
  ir_keep : off = org \/ keepSizeBefore iw <= off + iw_pos iw;
  ir_read : org + iw_streamPos iw <= Z.of_nat (length data);
  ir_rest : drop (Z.to_nat (org + iw_streamPos iw)) data
            = if streamEnd iw then [] else content (iw_r iw);
  ir_show : forall p, 0 <= off + p -> p < iw_streamPos iw ->
    iw_buf iw !! Z.to_nat (off + p) = data !! Z.to_nat (org + p)
}.

(** Until the end of the input the buffer is full, and the window moves before the
    position comes too close to what has been read. *)
Definition iw_full (off : Z) (iw : lzInWindow) : Prop :=
  streamEnd iw = false ->
  off + iw_streamPos iw = blockSize iw /\ off + posLimit iw = lastSafePos iw /\
  iw_pos iw <= posLimit iw.

Definition iw_rel (org off : Z) (iw : lzInWindow) : Prop := iw_core org off iw /\ iw_full off iw.

(** What no operation but the constructor changes. *)
Definition same_sizes (iw iw' : lzInWindow) : Prop :=
  keepSizeBefore iw' = keepSizeBefore iw /\ keepSizeAfter iw' = keepSizeAfter iw /\
  blockSize iw' = blockSize iw.

Lemma u32_off org off iw z : iw_core org off iw -> 0 <= off + z < 2 ^ 32 ->
  u32 (bufOffset iw + z) = off + z.
Proof.
  intros H Hz. rewrite (ir_off _ _ _ H). unfold wrap.
  rewrite Zplus_mod_idemp_l. by apply Z.mod_small.
Qed.

(** ** moveBlock *)

Lemma moveBlock_loop_spec n : forall i offset buf,
  0 <= i -> 0 < offset -> offset + i + Z.of_nat n <= Z.of_nat (length buf) < 2 ^ 31 ->
  exists buf', moveBlock_loop n i offset buf = Ret buf' /\ length buf' = length buf /\
    (forall j, 0 <= j < i -> buf' !! Z.to_nat j = buf !! Z.to_nat j) /\
    (forall j, i <= j < i + Z.of_nat n -> buf' !! Z.to_nat j = buf !! Z.to_nat (offset + j)).
Proof.
  induction n as [|n IH]; intros i offset buf Hi Ho Hn; cbn [moveBlock_loop].
  { exists buf. split; [done|]. split; [done|]. split; [done|]. lia. }
  rewrite (wrap_id 32 (offset + i)), (wrap_id 32 (i + 1)) by lia.
  destruct (index_some buf (offset + i)) as [b Hb]; [lia|].
  rewrite (index_ret _ _ b Hb). cbn [mbind outcome_bind].
  rewrite store_ret by lia. cbn [mbind outcome_bind].
  destruct (IH (i + 1) offset (<[Z.to_nat i := b]> buf)) as (buf' & E & Hl & Hlow & Hs);
    [lia|lia|rewrite length_insert; lia|].
  exists buf'. split; [done|]. split; [by rewrite Hl, length_insert|]. split.
  - intros j Hj. rewrite Hlow by lia. apply list_lookup_insert_ne. lia.
  - intros j Hj. destruct (decide (j = i)) as [->|].
    + rewrite Hlow by lia. rewrite Hb. apply list_lookup_insert_eq. lia.
    + rewrite Hs by lia. apply list_lookup_insert_ne. lia.
Qed.

(** moveBlock, called past lastSafePos, makes room: the first byte of the buffer is then
    the one keepSizeBefore + 1 before the position. *)
Lemma moveBlock_spec org off iw : iw_core org off iw ->
  lastSafePos iw < off + iw_pos iw ->
  let off' := keepSizeBefore iw + 1 - iw_pos iw in
  exists buf, moveBlock iw = Ret (iw_set_block buf (u32 off') iw) /\
    iw_core org off' (iw_set_block buf (u32 off') iw) /\ off' + iw_streamPos iw < blockSize iw.
Proof.
  intros H Hs off'. pose proof H as [He Hl Hb Ha Hbl Hsafe Hoff Hpos Hah Hfit Hsh Hk Hrd Hre Hsw].
  unfold moveBlock. rewrite (u32_off org off iw (iw_pos iw)) by (done || lia).
  rewrite (wrap_id 32 (off + iw_pos iw - _)) by lia.
  destruct (Z.ltb_spec 0 (off + iw_pos iw - keepSizeBefore iw)); [|lia].
  rewrite (wrap_id 32 (_ - 1)) by lia.
  remember (off + iw_pos iw - keepSizeBefore iw - 1) as offset eqn:Eof.
  rewrite (u32_off org off iw (iw_streamPos iw)), 
    (wrap_id 32 (off + iw_streamPos iw - offset)) by (done || lia).
  destruct (moveBlock_loop_spec (Z.to_nat (off + iw_streamPos iw - offset)) 0 offset (iw_buf iw))
    as (buf & E & Hlb & _ & Hm); [lia|lia|lia|].
  exists buf. rewrite E. cbn [mbind outcome_bind].
  assert (Eo : u32 (bufOffset iw - offset) = u32 off').
  { rewrite Hoff. unfold wrap. rewrite Zminus_mod_idemp_l. f_equal. unfold off'. lia. }
  rewrite Eo. split; [done|]. split; [|unfold off'; lia].
  constructor; cbn; try done; try lia.
  intros p Hp Hps. rewrite Hm by lia.
  replace (offset + (off' + p)) with (off + p) by (unfold off'; lia).
  apply Hsw; unfold off' in Hp; lia.
Qed.

(** ** readBlock *)

(** What Read has delivered is the next part of the data. *)
Lemma Read_spec room r bs err r' : Read room r = (bs, err, r') -> (0 < room)%nat ->
  (length bs <= room)%nat /\
  (forall e, Failed e ∈ r' -> Failed e ∈ r) /\
  match err with
  | None => content r = bs ++ content r' /\ (length bs = room \/ length r = S (length r'))
  | Some e => bs = [] /\ content r = [] /\ (e <> EOF -> Failed e ∈ r)
  end.
Proof.
  intros E Hroom. destruct r as [|[l|e] r]; cbn [Read] in E.
  - injection E as <- <- <-. cbn. repeat split; [lia|done|done].
  - destruct (Nat.leb_spec (length l) room); injection E as <- <- <-; cbn [content].
    + split; [done|]. split; [intros; by right|]. split; [done|]. by right.
    + rewrite length_take. split; [lia|]. split.
      * intros e He. apply elem_of_cons in He as [|]; [done|by right].
      * by rewrite app_assoc, take_drop, Nat.min_l by lia; auto.
  - injection E as <- <- <-. cbn. split; [lia|]. split; [intros; by right|].
    repeat split. intros _. by left.
Qed.

Lemma splice_lookup_low (bs buf : list Z) lo i :
  (i < lo <= length buf)%nat -> splice lo bs buf !! i = buf !! i.
Proof.
  intros. unfold splice. rewrite lookup_app_l by (rewrite length_take; lia).
  apply lookup_take_lt. lia.
Qed.

Lemma splice_lookup_mid (bs buf : list Z) lo i :
  (lo <= length buf)%nat -> (lo <= i < lo + length bs)%nat -> splice lo bs buf !! i = bs !! (i - lo)%nat.
Proof.
  intros Hl Hi. unfold splice. rewrite lookup_app_r by (rewrite length_take; lia).
  rewrite length_take, Nat.min_l by lia. rewrite lookup_app_l by lia. done.
Qed.

(** One turn of the loop that delivers bytes. *)
Lemma readBlock_got_bytes org off iw bs r' :
  iw_core org off iw -> streamEnd iw = false ->
  off + iw_pos iw <= lastSafePos iw ->
  off + iw_streamPos iw + Z.of_nat (length bs) <= blockSize iw ->
  content (iw_r iw) = bs ++ content r' -> (forall e, Failed e ∈ r' -> bad e) ->
  exists iw', readBlock_got iw (off + iw_streamPos iw) bs None r' = Ret (iw', true) /\
    iw_core org off iw' /\ streamEnd iw' = false /\ iw_r iw' = r' /\ iw_pos iw' = iw_pos iw /\
    same_sizes iw iw' /\ iw_streamPos iw' = iw_streamPos iw + Z.of_nat (length bs) /\
    (off + iw_streamPos iw' = blockSize iw -> off + posLimit iw' = lastSafePos iw).
Proof.
  intros H Hend Hsafe Hroom Hc Hbad.
  pose proof H as [He Hl Hb Ha Hbl Hls Hoff Hpos Hah Hfit Hsh Hk Hrd Hre Hsw].
  rewrite Hend, Hc in Hre.
  assert (Hrest : Z.of_nat (length bs) <= Z.of_nat (length data) - (org + iw_streamPos iw)).
  { apply (f_equal length) in Hre. rewrite length_drop, length_app in Hre. lia. }
  unfold readBlock_got. cbn [is_eof]. rewrite andb_false_r.
  rewrite (wrap_id 32 (iw_streamPos iw + _)), (wrap_id 32 (iw_pos iw + _)) by lia.
  eexists. split; [done|].
  split; [constructor; cbn; try done; try lia|].
  - rewrite length_splice by lia. done.
  - rewrite Hend. replace (Z.to_nat (org + (iw_streamPos iw + Z.of_nat (length bs))))
      with (Z.to_nat (org + iw_streamPos iw) + length bs)%nat by lia.
    by rewrite <- drop_drop, Hre, drop_app_length.
  - intros p Hp Hps. destruct (Z.lt_ge_cases p (iw_streamPos iw)).
    + rewrite splice_lookup_low by lia. by apply Hsw.
    + rewrite splice_lookup_mid by lia.
      replace (Z.to_nat (org + p)) with
        (Z.to_nat (org + iw_streamPos iw) + (Z.to_nat (off + p) - Z.to_nat (off + iw_streamPos iw)))%nat by lia.
      rewrite <- lookup_drop, Hre. symmetry. apply lookup_app_l. lia.
  - cbn. repeat split; try done. intros Hfull.
    destruct (Z.leb_spec (iw_pos iw + keepSizeAfter iw) (iw_streamPos iw + Z.of_nat (length bs))); [|lia].
    rewrite wrap_id; lia.
Qed.

(** The turn that finds the end of the input. *)
Lemma readBlock_got_end org off iw r' :
  iw_core org off iw -> streamEnd iw = false -> content (iw_r iw) = [] ->
  (forall e, Failed e ∈ r' -> bad e) ->
  exists iw', readBlock_got iw (off + iw_streamPos iw) [] (Some EOF) r' = Ret (iw', false) /\
    iw_rel org off iw' /\ iw_pos iw' = iw_pos iw /\ same_sizes iw iw'.
Proof.
  intros H Hend Hc Hbad.
  pose proof H as [He Hl Hb Ha Hbl Hls Hoff Hpos Hah Hfit Hsh Hk Hrd Hre Hsw].
  unfold readBlock_got. cbn [is_eof length Nat.eqb andb]. eexists. split; [done|].
  split; [|done]. split; [|by intros Hf].
  constructor; cbn; try done; try lia. by rewrite Hre, Hend, Hc.
Qed.

(** readBlock fills the buffer or finds the end of the input; it stops. *)
Lemma readBlock_loop_spec fuel : forall org off iw,
  iw_core org off iw -> streamEnd iw = false -> off + iw_pos iw <= lastSafePos iw ->
  (off + iw_streamPos iw = blockSize iw -> off + posLimit iw = lastSafePos iw) ->
  (1 <= fuel)%nat ->
  (off + iw_streamPos iw < blockSize iw -> (length (iw_r iw) + 2 <= fuel)%nat) ->
  yields bad (fun iw' => iw_rel org off iw' /\ iw_pos iw' = iw_pos iw /\ same_sizes iw iw')
    (readBlock_loop fuel iw).
Proof.
  induction fuel as [|fuel IH]; intros org off iw H Hend Hsafe Hlim Hf1 Hfuel; [lia|].
  pose proof H as [He Hl Hb Ha Hbl Hls Hoff Hpos Hah Hfit Hsh Hk Hrd Hre Hsw].
  cbn [readBlock_loop].
  assert (E0 : u32 (u32 (blockSize iw - bufOffset iw) - iw_streamPos iw)
             = blockSize iw - (off + iw_streamPos iw)).
  { rewrite Hoff. unfold wrap. rewrite Zminus_mod_idemp_l.
    replace (blockSize iw - off mod 2 ^ 32 - iw_streamPos iw)
      with (blockSize iw - iw_streamPos iw - off mod 2 ^ 32) by lia.
    rewrite Zminus_mod_idemp_r, Z.mod_small; lia. }
  rewrite E0. destruct (Z.eqb_spec (blockSize iw - (off + iw_streamPos iw)) 0) as [Hz|Hnz].
  { cbn. split; [|done]. split; [done|]. intros _. specialize (Hlim ltac:(lia)). lia. }
  rewrite (u32_off org off iw (iw_streamPos iw)) by (done || lia).
  destruct (Z.ltb_spec (blockSize iw) (off + iw_streamPos iw)); [lia|].
  destruct (Z.ltb_spec (Z.of_nat (length (iw_buf iw))) (blockSize iw)); [lia|]. cbn [orb].
  destruct (Read _ (iw_r iw)) as [[bs err] r'] eqn:ER.
  apply Read_spec in ER as (Hlen & Hsub & Herr); [|lia].
  assert (Hbad : forall e, Failed e ∈ r' -> bad e) by eauto.
  destruct err as [e|].
  - destruct Herr as (-> & Hc & Hin).
    destruct e; try (cbn; apply He, Hin; discriminate).
    destruct (readBlock_got_end org off iw r' H Hend Hc Hbad) as (iw' & -> & Hrel & Hp & Hss).
    by cbn.
  - destruct Herr as [Hc Hstep].
    destruct (readBlock_got_bytes org off iw bs r' H Hend Hsafe ltac:(lia) Hc Hbad)
      as (iw' & -> & Hcore & Hend' & Hr' & Hp' & (S1 & S2 & S3) & Hsp & Hlim'). cbn [mbind outcome_bind].
    eapply yields_weaken; [apply IH; try done|].
    + rewrite Hp', (ir_safe _ _ _ Hcore), S2, S3, <- Hls. done.
    + rewrite (ir_safe _ _ _ Hcore), S2, S3, <- Hls. done.
    + destruct Hstep; lia.
    + rewrite Hr', S3, Hsp. intros. destruct Hstep; lia.
    + cbn. intros iw2 (Hr2 & Hp2 & T1 & T2 & T3). split; [done|].
      split; [congruence|]. repeat split; congruence.
Qed.

Lemma readBlock_spec org off iw :
  iw_core org off iw ->
  (streamEnd iw = false -> off + iw_pos iw <= lastSafePos iw /\
    (off + iw_streamPos iw = blockSize iw -> off + posLimit iw = lastSafePos iw)) ->
  yields bad (fun iw' => iw_rel org off iw' /\ iw_pos iw' = iw_pos iw /\ same_sizes iw iw')
    (readBlock iw).
Proof.
  intros H Hlim. unfold readBlock. destruct (streamEnd iw) eqn:Hend.
  - cbn. split; [|done]. split; [done|]. intros Hf. congruence.
  - destruct Hlim as [Hsafe Hlim]; [done|]. apply readBlock_loop_spec; unfold readBlock_fuel; try done; lia.
Qed.

(** ** The operations on the relation *)

Lemma newLzInWindow_spec r kb ka kr :
  data = content r -> (forall e, Failed e ∈ r -> bad e) ->
  0 < kb -> 0 < ka -> 0 < kr -> kb + ka + kr < 2 ^ 31 ->
  yields bad (fun iw => iw_rel 0 0 iw /\ iw_pos iw = 0 /\ keepSizeBefore iw = kb /\
                        keepSizeAfter iw = ka /\ blockSize iw = kb + ka + kr)
    (newLzInWindow r kb ka kr).
Proof.
  intros Hd Hbad Hkb Hka Hkr Hsum. unfold newLzInWindow.
  rewrite (wrap_id 32 (kb + ka)), (wrap_id 32 (kb + ka + kr)), (wrap_id 32 (_ - ka)) by lia.
  eapply yields_weaken; [eapply (readBlock_spec 0 0)|].
  - constructor; cbn; try done; try lia.
    rewrite length_replicate. lia.
  - cbn. lia.
  - cbn. intros iw (Hr & Hp & S1 & S2 & S3). cbn in *. auto.
Qed.

Lemma iw_movePos_spec org off iw :
  iw_rel org off iw -> iw_pos iw < iw_streamPos iw -> iw_pos iw < 2 ^ 30 ->
  yields bad (fun iw' => exists off', iw_rel org off' iw' /\ iw_pos iw' = iw_pos iw + 1 /\
                                      same_sizes iw iw')
    (iw_movePos iw).
Proof.
  intros [H Hfull] Hlt Hmax.
  pose proof H as [He Hl Hb Ha Hbl Hls Hoff Hpos Hah Hfit Hsh Hk Hrd Hre Hsw].
  unfold iw_movePos. rewrite (wrap_id 32 (iw_pos iw + 1)) by lia.
  set (iw1 := iw_set_pos (iw_pos iw + 1) iw).
  assert (H1 : iw_core org off iw1) by (constructor; cbn; try done; lia).
  change (posLimit iw1) with (posLimit iw). change (iw_pos iw1) with (iw_pos iw + 1).
  destruct (Z.ltb_spec (posLimit iw) (iw_pos iw + 1)) as [Hl1|].
  2:{ cbn. exists off. split; [|done]. split; [done|]. intros Hse. cbn in *.
      specialize (Hfull Hse). lia. }
  rewrite (u32_off org off iw1 (iw_pos iw + 1)) by (done || lia).
  destruct (Z.ltb_spec (lastSafePos iw1) (off + (iw_pos iw + 1))) as [Hs|Hs].
  - destruct (moveBlock_spec org off iw1 H1 Hs) as (buf & -> & H2 & Hroom).
    cbn [mbind outcome_bind]. eapply yields_weaken; [eapply readBlock_spec; [exact H2|]|].
    + intros _. cbn. cbn in Hroom. lia.
    + cbn. intros iw2 (Hr & Hp & Hss). eauto.
  - cbn [mbind outcome_bind]. eapply yields_weaken; [eapply readBlock_spec; [exact H1|]|].
    + intros Hse. specialize (Hfull Hse). cbn in *. lia.
    + cbn. intros iw2 (Hr & Hp & Hss). eauto.
Qed.

(** reduceOffsets renumbers the positions: [sub] may be -1, as 0xFFFFFFFF. *)
Lemma reduceOffsets_spec org off iw sub :
  iw_rel org off iw -> -1 <= sub <= iw_pos iw -> iw_pos iw - sub <= 2 ^ 30 ->
  iw_rel (org + sub) (off + sub) (reduceOffsets (u32 sub) iw).
Proof.
  intros [H Hfull] Hsub Hmax.
  pose proof H as [He Hl Hb Ha Hbl Hls Hoff Hpos Hah Hfit Hsh Hk Hrd Hre Hsw].
  assert (E : forall z, 0 <= z - sub < 2 ^ 32 -> u32 (z - u32 sub) = z - sub).
  { intros z Hz. unfold wrap. rewrite Zminus_mod_idemp_r. by apply Z.mod_small. }
  split; [constructor; cbn; try done; rewrite ?(E (iw_pos iw)), ?(E (iw_streamPos iw)) by lia; try lia|].
  - unfold wrap. rewrite Hoff. unfold wrap. by rewrite <- Zplus_mod.
  - rewrite <- Hre. f_equal. f_equal. lia.
  - intros p Hp Hps. replace (off + sub + p) with (off + (sub + p)) by lia.
    rewrite Hsw by lia. f_equal. lia.
  - intros Hse. cbn in *. specialize (Hfull Hse).
    rewrite (E (iw_pos iw)), (E (iw_streamPos iw)), (E (posLimit iw)) by lia. lia.
Qed.

Definition byteAt (i : Z) : Z := nth (Z.to_nat i) data 0.

(** How many of the [n] bytes from [a] and from [b] on agree, before the first that
    does not. *)
Fixpoint common (n : nat) (a b : Z) : Z :=
  match n with
  | O => 0
  | S n' => if byteAt a =? byteAt b then 1 + common n' (a + 1) (b + 1) else 0
  end.

Lemma index_byteAt org off iw p : iw_core org off iw -> 0 <= off + p -> p < iw_streamPos iw ->
  index (iw_buf iw) (off + p) = Ret (byteAt (org + p)).
Proof.
  intros H Hp Hs. apply index_ret. rewrite (ir_show _ _ _ H p Hp Hs).
  pose proof (ir_shift _ _ _ H). pose proof (ir_read _ _ _ H).
  destruct (index_some data (org + p)) as [b Hb]; [lia|].
  rewrite Hb. unfold byteAt. by rewrite (nth_lookup_Some _ _ _ _ Hb).
Qed.

Lemma getMatchLen_loop_spec org off iw d n : iw_core org off iw ->
  0 <= d -> forall q res, 0 <= res -> 0 <= off + q - d - 1 ->
  q + res + Z.of_nat n <= iw_streamPos iw ->
  getMatchLen_loop n res (off + q) (d + 1) (iw_buf iw)
  = Ret (res + common n (org + q + res) (org + q - d - 1 + res)).
Proof.
  intros H Hd. pose proof (ir_fit _ _ _ H). pose proof (ir_block _ _ _ H).
  pose proof (ir_shift _ _ _ H).
  induction n as [|n IH]; intros q res Hres Hlo Hhi; cbn [getMatchLen_loop common].
  { by rewrite Z.add_0_r. }
  rewrite (wrap_id 32 (off + q + res)), (wrap_id 32 (_ - (d + 1))), (wrap_id 32 (res + 1)) by lia.
  replace (off + q + res) with (off + (q + res)) by lia.
  rewrite (index_byteAt org off iw) by (done || lia). cbn [mbind outcome_bind].
  replace (off + (q + res) - (d + 1)) with (off + (q + res - d - 1)) by lia.
  rewrite (index_byteAt org off iw) by (done || lia). cbn [mbind outcome_bind].
  replace (org + (q + res)) with (org + q + res) by lia.
  replace (org + (q + res - d - 1)) with (org + q - d - 1 + res) by lia.
  destruct (_ =? _); [|by rewrite Z.add_0_r].
  rewrite IH by lia. rewrite !Z.add_assoc. do 2 f_equal; f_equal; lia.
Qed.

(** getMatchLen counts the bytes that agree, within [limit] and the data. *)
Lemma getMatchLen_spec org off iw ind d limit : iw_rel org off iw ->
  -1 <= ind -> 0 <= iw_pos iw + ind -> 0 <= d < 2 ^ 32 - 1 -> 0 <= limit < 2 ^ 29 ->
  iw_pos iw + ind <= iw_streamPos iw -> 0 <= off + iw_pos iw + ind - d - 1 ->
  (streamEnd iw = false -> iw_pos iw + ind + limit <= iw_streamPos iw) ->
  let a := org + iw_pos iw + ind in
  getMatchLen ind d limit iw
  = Ret (common (Z.to_nat (Z.min limit (Z.of_nat (length data) - a))) a (a - d - 1)).
Proof.
  intros [H _] Hi Hi0 Hd Hl Hq Hlo Hend a.
  pose proof H as [He Hlb Hb Ha Hbl Hls Hoff Hpos Hah Hfit Hsh Hk Hrd Hre Hsw].
  unfold getMatchLen.
  assert (Eq : u32 (iw_pos iw + u32 ind) = iw_pos iw + ind).
  { unfold wrap. rewrite Zplus_mod_idemp_r. apply Z.mod_small. lia. }
  assert (Eb : u32 (u32 (bufOffset iw + iw_pos iw) + u32 ind) = off + (iw_pos iw + ind)).
  { rewrite (u32_off org off iw) by (done || lia). unfold wrap. rewrite Zplus_mod_idemp_r.
    rewrite Z.mod_small; lia. }
  rewrite Eq, Eb, (wrap_id 32 (_ + limit)), (wrap_id 32 (d + 1)),
    (wrap_id 32 (iw_streamPos iw - (iw_pos iw + ind))) by lia.
  set (limit' := if _ && _ then _ else _).
  assert (El : limit' = Z.min limit (Z.of_nat (length data) - a)).
  { subst limit'. unfold a. destruct (streamEnd iw) eqn:Hse; cbn [andb].
    - apply (f_equal length) in Hre. rewrite length_drop in Hre. cbn in Hre.
      destruct (Z.ltb_spec (iw_streamPos iw) (iw_pos iw + ind + limit)); lia.
    - specialize (Hend eq_refl). lia. }
  assert (0 <= limit' /\ iw_pos iw + ind + limit' <= iw_streamPos iw).
  { subst limit'. destruct (streamEnd iw) eqn:Hse; cbn [andb].
    - destruct (Z.ltb_spec (iw_streamPos iw) (iw_pos iw + ind + limit)); lia.
    - specialize (Hend eq_refl). lia. }
  rewrite El in *. rewrite (getMatchLen_loop_spec org) by (done || lia).
  rewrite Z.add_0_l, !Z.add_0_r. unfold a. do 2 f_equal; lia.
Qed.

Lemma getIndexByte_spec org off iw ind : iw_core org off iw ->
  - 2 ^ 31 <= ind -> iw_pos iw + ind < iw_streamPos iw -> 0 <= off + iw_pos iw + ind ->
  getIndexByte ind iw = Ret (byteAt (org + iw_pos iw + ind)).
Proof.
  intros H Hi Hq Hlo. pose proof (ir_fit _ _ _ H). pose proof (ir_block _ _ _ H).
  pose proof (ir_ahead _ _ _ H). unfold getIndexByte.
  rewrite (u32_off org off iw), (swrap_id 32 (off + _)), (swrap_id 32) by (done || cbn; lia).
  destruct (Z.ltb_spec (off + iw_pos iw + ind) 0); [lia|].
  replace (off + iw_pos iw + ind) with (off + (iw_pos iw + ind)) by lia.
  rewrite (index_byteAt org off iw) by (done || lia). do 2 f_equal. lia.
Qed.

(** Until the end of the input at least keepSizeAfter bytes are ahead. *)
Lemma ahead_spec org off iw : iw_rel org off iw ->
  (streamEnd iw = false -> iw_pos iw + keepSizeAfter iw <= iw_streamPos iw) /\
  (streamEnd iw = true -> org + iw_streamPos iw = Z.of_nat (length data)).
Proof.
  intros [H Hfull]. pose proof H as [He Hl Hb Ha Hbl Hls Hoff Hpos Hah Hfit Hsh Hk Hrd Hre Hsw].
  split; intros Hse.
  - specialize (Hfull Hse). lia.
  - rewrite Hse in Hre. apply (f_equal length) in Hre. rewrite length_drop in Hre. cbn in Hre. lia.
Qed.
End window.

(** ** The window over a whole input *)

Fixpoint iw_moves (n : nat) (iw : lzInWindow) : outcome lzma_error lzInWindow :=
  match n with
  | O => Ret iw
  | S n' => iw ← iw_movePos iw; iw_moves n' iw
  end.

Lemma iw_moves_spec bad data n : forall org off iw, iw_rel bad data org off iw ->
  iw_pos iw + Z.of_nat n <= 2 ^ 30 -> org + iw_pos iw + Z.of_nat n <= Z.of_nat (length data) ->
  yields bad (fun iw' => exists off', iw_rel bad data org off' iw' /\
                iw_pos iw' = iw_pos iw + Z.of_nat n /\ same_sizes iw iw') (iw_moves n iw).
Proof.
  induction n as [|n IH]; intros org off iw H Hmax Hn; cbn [iw_moves].
  { cbn. exists off. split; [done|]. split; [lia|done]. }
  assert (Hlt : iw_pos iw < iw_streamPos iw).
  { destruct (ahead_spec _ _ _ _ _ H) as [Hf Ht]. pose proof (ir_after _ _ _ _ _ (proj1 H)).
    destruct (streamEnd iw); [specialize (Ht eq_refl)|specialize (Hf eq_refl)]; lia. }
  eapply yields_bind; [eapply iw_movePos_spec; [exact H|done|lia]|].
  intros iw1 (off1 & H1 & Hp1 & S1 & S2 & S3).
  eapply yields_weaken; [apply (IH org off1 iw1 H1); lia|].
  intros iw2 (off2 & H2 & Hp2 & T1 & T2 & T3). exists off2. split; [done|]. split; [lia|].
  repeat split; congruence.
Qed.

(** C7: however the Reader cuts its bytes into pieces, after [n] moves the window shows the
    bytes of the input around the byte [n], keepSizeBefore bytes back and keepSizeAfter
    ahead; matches are measured on the input itself, and nothing panics. *)
Theorem in_window_shows_input r kb ka kr n i d limit :
  0 < kb -> 0 < ka -> 0 < kr -> kb + ka + kr < 2 ^ 31 ->
  Z.of_nat n <= 2 ^ 30 -> Z.of_nat n <= Z.of_nat (length (content r)) ->
  -1 <= i < ka -> 0 <= Z.of_nat n + i < Z.of_nat (length (content r)) ->
  0 <= d < kb + i -> d < Z.of_nat n + i -> 0 <= limit <= ka - i -> limit < 2 ^ 29 ->
  match (iw ← newLzInWindow r kb ka kr; iw_moves n iw) with
  | Ret iw =>
      let data := content r in
      let a := Z.of_nat n + i in
      getIndexByte i iw = Ret (byteAt data a) /\
      getIndexByte (i - d - 1) iw = Ret (byteAt data (a - d - 1)) /\
      getMatchLen i d limit iw
      = Ret (common data (Z.to_nat (Z.min limit (Z.of_nat (length data) - a))) a (a - d - 1))
  | Fail e => Failed e ∈ r
  | Panic => False
  end.
Proof.
  intros Hkb Hka Hkr Hsum Hn30 Hn Hi Ha Hd Hdn Hl Hl2.
  set (bad := fun e => Failed e ∈ r).
  assert (H : yields bad (fun iw => exists off, iw_rel bad (content r) 0 off iw /\ iw_pos iw = Z.of_nat n /\
                keepSizeBefore iw = kb /\ keepSizeAfter iw = ka)
                (iw ← newLzInWindow r kb ka kr; iw_moves n iw)).
  { eapply yields_bind; [by apply (newLzInWindow_spec bad (content r) r)|].
    intros iw (Hr & Hp & Hb & Hka' & _). eapply yields_weaken; [apply (iw_moves_spec bad (content r) n 0 0 iw Hr); lia|].
    intros iw' (off' & Hr' & Hp' & S1 & S2 & _). exists off'. split; [done|]. rewrite S1, S2. split; [lia|done]. }
  destruct (newLzInWindow r kb ka kr ≫= _) as [iw| |]; [|exact H|exact H].
  destruct H as (off & Hr & Hp & Hb & Hka').
  destruct (ahead_spec _ _ _ _ _ Hr) as [Hf Ht]. pose proof (proj1 Hr) as C.
  pose proof (ir_keep _ _ _ _ _ C). pose proof (ir_read _ _ _ _ _ C).
  assert (Hlt : iw_pos iw + i < iw_streamPos iw).
  { destruct (streamEnd iw); [specialize (Ht eq_refl)|specialize (Hf eq_refl)]; lia. }
  cbv zeta. split; [|split].
  - rewrite (getIndexByte_spec bad (content r) 0 off iw i C) by lia. do 2 f_equal. lia.
  - rewrite (getIndexByte_spec bad (content r) 0 off iw (i - d - 1) C) by lia. do 2 f_equal. lia.
  - rewrite (getMatchLen_spec bad (content r) 0 off iw i d limit Hr); try lia.
    + by rewrite Hp, Z.add_0_l.
    + intros Hse. specialize (Hf Hse). lia.
Qed.

Example in_window_shows_input_witness :
  let r := [Got [1; 2; 3]; Got [4; 1]; Got []; Got [2; 3; 9; 1]] in
  match (iw ← newLzInWindow r 4 3 1; iw_moves 4 iw) with
  | Ret iw =>
      getIndexByte 0 iw = Ret 1 /\ getIndexByte (0 - 3 - 1) iw = Ret 1 /\ getMatchLen 0 3 3 iw = Ret 3
  | Fail e => Failed e ∈ r
  | Panic => False
  end.
Proof.
  intros r.
  exact (in_window_shows_input r 4 3 1 4 0 3 3 ltac:(lia) ltac:(lia) ltac:(lia) ltac:(lia) ltac:(lia)
           ltac:(cbn; lia) ltac:(lia) ltac:(cbn; lia) ltac:(lia) ltac:(lia) ltac:(lia) ltac:(lia)).
Defined.
