(* ===== verification/LzmaBinTree.v ===== *)
(** lzma2/lz_bin_tree.go: the match finder of the LZMA encoder. Every position of the
    input is entered in hash tables of its first two and three bytes and in the binary
    tree of its hash bucket; the trees live in the array [son], two links per slot, the
    slot of a position being its place in a cyclic buffer of the size of the dictionary.
    getMatches reports the matches it meets while it inserts the current position, skip
    only inserts.

    This file holds the operations; LzmaTrees.v the trees they work on, and
    LzmaBinTreeOk.v the proofs. *)

From Stdlib Require Import ZArith Lia.
From stdpp Require Import base numbers option list.
From S2P Require Import Prelude RangeCoder LzmaWindow LzmaInWindow.
#[local] Open Scope Z_scope.

Definition kHash2Size : Z := Z.shiftl 1 10.
Definition kHash3Size : Z := Z.shiftl 1 16.
Definition kBT2HashSize : Z := Z.shiftl 1 16.
Definition kStartMaxLen : Z := 1.
Definition kHash3Offset : Z := kHash2Size.
Definition kEmptyHashValue : Z := 0.
Definition kMaxValForNormalize : Z := Z.shiftl 1 30 - 1.

(** ** The table of the CRC, as initCrcTable leaves it *)

Definition crc_round (r : Z) : Z :=
  if negb (Z.land r 1 =? 0) then Z.lxor (Z.shiftr r 1) 0xEDB88320 else Z.shiftr r 1.

Definition crcTable : list Z := map (fun i => Nat.iter 8 crc_round (Z.of_nat i)) (seq 0 256).

(** ** The match finder *)

Record lzBinTree := mkBT {
  bt_iw : lzInWindow;
  son : list Z;
  bt_hash : list Z;
  cyclicBufPos : Z;
  cyclicBufSize : Z;
  matchMaxLen : Z;
  cutValue : Z;
  hashMask : Z;
  hashSizeSum : Z;
  kvNumHashDirectBytes : Z;
  kvMinMatchCheck : Z;
  kvFixHashSize : Z;
  hashArray : bool
}.

(** Assignments to the fields that change. *)
Definition bt_set (iw : lzInWindow) (son hash : list Z) (cyclicBufPos : Z) (bt : lzBinTree)
    : lzBinTree :=
  mkBT iw son hash cyclicBufPos (cyclicBufSize bt) (matchMaxLen bt) (cutValue bt) (hashMask bt)
       (hashSizeSum bt) (kvNumHashDirectBytes bt) (kvMinMatchCheck bt) (kvFixHashSize bt)
       (hashArray bt).

(** The mask of the main hash for a dictionary of [historySize] bytes. *)
Definition hash_mask (historySize : Z) : Z :=
  let hs := u32 (historySize - 1) in
  let hs := Z.lor hs (Z.shiftr hs 1) in
  let hs := Z.lor hs (Z.shiftr hs 2) in
  let hs := Z.lor hs (Z.shiftr hs 4) in
  let hs := Z.lor hs (Z.shiftr hs 8) in
  let hs := Z.shiftr hs 1 in
  let hs := Z.lor hs 0xFFFF in
  if Z.shiftl 1 24 <? hs then Z.shiftr hs 1 else hs.

Definition newLzBinTree (r : list read_event)
    (historySize keepAddBufBefore matchMaxLen keepAddBufAfter numHashBytes : Z)
    : outcome lzma_error lzBinTree :=
  let winSizeReserv :=
    u32 (u32 (u32 (u32 (historySize + keepAddBufBefore) + matchMaxLen) + keepAddBufAfter) / 2
         + 256) in
  iw ← newLzInWindow r (u32 (historySize + keepAddBufBefore)) (u32 (matchMaxLen + keepAddBufAfter))
         winSizeReserv;
  let array := 2 <? numHashBytes in
  let direct := if (array : bool) then 0 else 2 in
  let minCheck := if (array : bool) then 4 else 3 in
  let fix' := if (array : bool) then kHash2Size + kHash3Size else 0 in
  let mask := if (array : bool) then hash_mask historySize else 0 in
  let sum := if (array : bool) then u32 (u32 (mask + 1) + fix') else kBT2HashSize in
  Ret (mkBT (reduceOffsets 0xFFFFFFFF iw)
        (replicate (Z.to_nat (u32 (u32 (historySize + 1) * 2))) 0)
        (replicate (Z.to_nat sum) kEmptyHashValue)
        0 (u32 (historySize + 1)) matchMaxLen (u32 (16 + Z.shiftr matchMaxLen 1)) mask sum
        direct minCheck fix' array).

(** normalizeLinks: [n] more items from the index [i] on. *)
Fixpoint normalizeLinks (n : nat) (i subValue : Z) (items : list Z) : outcome lzma_error (list Z) :=
  match n with
  | O => Ret items
  | S n' =>
      value ← index items i;
      items ← store items i (if value <=? subValue then kEmptyHashValue else u32 (value - subValue));
      normalizeLinks n' (u32 (i + 1)) subValue items
  end.

Definition normalize (bt : lzBinTree) : outcome lzma_error lzBinTree :=
  let subValue := u32 (iw_pos (bt_iw bt) - cyclicBufSize bt) in
  son' ← normalizeLinks (Z.to_nat (u32 (cyclicBufSize bt * 2))) 0 subValue (son bt);
  hash' ← normalizeLinks (Z.to_nat (hashSizeSum bt)) 0 subValue (bt_hash bt);
  Ret (bt_set (reduceOffsets subValue (bt_iw bt)) son' hash' (cyclicBufPos bt) bt).

Definition bt_movePos (bt : lzBinTree) : outcome lzma_error lzBinTree :=
  let p := u32 (cyclicBufPos bt + 1) in
  let p := if cyclicBufSize bt <=? p then 0 else p in
  iw ← iw_movePos (bt_iw bt);
  let bt := bt_set iw (son bt) (bt_hash bt) p bt in
  if iw_pos iw =? kMaxValForNormalize then normalize bt else Ret bt.

(** ** The steps getMatches and skip share *)

(** lenLimit, or nothing when too few bytes are left to look for a match. *)
Definition length_limit (bt : lzBinTree) : option Z :=
  let iw := bt_iw bt in
  if u32 (iw_pos iw + matchMaxLen bt) <=? iw_streamPos iw then Some (matchMaxLen bt)
  else
    let lenLimit := u32 (iw_streamPos iw - iw_pos iw) in
    if lenLimit <? kvMinMatchCheck bt then None else Some lenLimit.

(** Positions up to this one have left the cyclic buffer. *)
Definition match_min_pos (bt : lzBinTree) : Z :=
  if cyclicBufSize bt <? iw_pos (bt_iw bt) then u32 (iw_pos (bt_iw bt) - cyclicBufSize bt) else 0.

(** The hashes of the bytes at [cur]: of two bytes, of three, and the main one. *)
Definition hash_values (bt : lzBinTree) (cur : Z) : outcome lzma_error (Z * Z * Z) :=
  let buf := iw_buf (bt_iw bt) in
  if hashArray bt then
    b0 ← index buf cur;
    c0 ← index crcTable b0;
    b1 ← index buf (u32 (cur + 1));
    let tmp := Z.lxor c0 b1 in
    let hash2Value := Z.land tmp (kHash2Size - 1) in
    b2 ← index buf (u32 (cur + 2));
    let tmp := Z.lxor tmp (u32 (Z.shiftl b2 8)) in
    let hash3Value := Z.land tmp (kHash3Size - 1) in
    b3 ← index buf (u32 (cur + 3));
    c3 ← index crcTable b3;
    Ret (hash2Value, hash3Value, Z.land (Z.lxor tmp (u32 (Z.shiftl c3 5))) (hashMask bt))
  else
    b0 ← index buf cur;
    b1 ← index buf (u32 (cur + 1));
    Ret (0, 0, Z.lxor b0 (u32 (Z.shiftl b1 8))).

(** Where the links of the position [delta] before the current one are. *)
Definition cyclic_pos (bt : lzBinTree) (delta : Z) : Z :=
  if delta <=? cyclicBufPos bt then u32 (Z.shiftl (u32 (cyclicBufPos bt - delta)) 1)
  else u32 (Z.shiftl (u32 (u32 (cyclicBufPos bt - delta) + cyclicBufSize bt)) 1).

Definition minUInt32 (left right : Z) : Z := if left <? right then left else right.

(** for length++; length != lenLimit; length++: the bytes from [length] on are compared,
    at most [n] of them. *)
Fixpoint extend (n : nat) (buf : list Z) (pby1 cur lenLimit length : Z) : outcome lzma_error Z :=
  if length =? lenLimit then Ret length
  else
    match n with
    | O => Panic
    | S n' =>
        a ← index buf (u32 (pby1 + length));
        b ← index buf (u32 (cur + length));
        if a =? b then extend n' buf pby1 cur lenLimit (u32 (length + 1)) else Ret length
    end.

(** The length of the match with [curMatch], and whether its first unknown byte is
    right. *)
Definition match_length (buf : list Z) (pby1 cur lenLimit len0 len1 : Z)
    : outcome lzma_error (Z * bool) :=
  let length := minUInt32 len0 len1 in
  a ← index buf (u32 (pby1 + length));
  b ← index buf (u32 (cur + length));
  if a =? b then
    length ← extend (Z.to_nat lenLimit) buf pby1 cur lenLimit (u32 (length + 1));
    Ret (length, true)
  else Ret (length, false).

(** The end of the descent: nothing below [ptr1] and [ptr0]. *)
Definition close_links (s : list Z) (ptr0 ptr1 : Z) : outcome lzma_error (list Z) :=
  s ← store s ptr1 kEmptyHashValue;
  store s ptr0 kEmptyHashValue.

(** The node at [cyclicPos] has the same bytes: its subtrees replace it. *)
Definition take_links (s : list Z) (ptr0 ptr1 cyclicPos : Z) : outcome lzma_error (list Z) :=
  l ← index s cyclicPos;
  s ← store s ptr1 l;
  r ← index s (u32 (cyclicPos + 1));
  store s ptr0 r.

(** One step down: the links, ptr0, ptr1, len0, len1 and the next curMatch. *)
Definition descend (buf s : list Z) (pby1 cur cyclicPos curMatch length ptr0 ptr1 len0 len1 : Z)
    : outcome lzma_error (list Z * Z * Z * Z * Z * Z) :=
  a ← index buf (u32 (pby1 + length));
  b ← index buf (u32 (cur + length));
  if a <? b then
    s ← store s ptr1 curMatch;
    let ptr1 := u32 (cyclicPos + 1) in
    curMatch ← index s ptr1;
    Ret (s, ptr0, ptr1, len0, length, curMatch)
  else
    s ← store s ptr0 curMatch;
    let ptr0 := cyclicPos in
    curMatch ← index s ptr0;
    Ret (s, ptr0, ptr1, length, len1, curMatch).

(** ** getMatches *)

(** Two entries of [distances] from [offset] on. *)
Definition push_match (length distance : Z) (ds : list Z * Z) : outcome lzma_error (list Z * Z) :=
  let '(distances, offset) := ds in
  distances ← store distances offset length;
  let offset := u32 (offset + 1) in
  distances ← store distances offset distance;
  Ret (distances, u32 (offset + 1)).

(** The descent through the tree of the bucket. *)
Fixpoint getMatches_loop (count : nat) (bt : lzBinTree) (cur lenLimit matchMinPos : Z)
    (s : list Z) (ptr0 ptr1 len0 len1 curMatch maxLen : Z) (ds : list Z * Z)
    : outcome lzma_error (list Z * (list Z * Z)) :=
  match count with
  | O => s ← close_links s ptr0 ptr1; Ret (s, ds)
  | S count' =>
      if curMatch <=? matchMinPos then s ← close_links s ptr0 ptr1; Ret (s, ds)
      else
        let iw := bt_iw bt in
        let delta := u32 (iw_pos iw - curMatch) in
        let cyclicPos := cyclic_pos bt delta in
        let pby1 := u32 (bufOffset iw + curMatch) in
        '(length, same) ← match_length (iw_buf iw) pby1 cur lenLimit len0 len1;
        let longer := same && (maxLen <? length) in
        ds ← (if (longer : bool) then push_match length (u32 (delta - 1)) ds else Ret ds);
        let maxLen := if (longer : bool) then length else maxLen in
        if (longer : bool) && (length =? lenLimit) then
          s ← take_links s ptr0 ptr1 cyclicPos; Ret (s, ds)
        else
          '(s, ptr0, ptr1, len0, len1, curMatch) ←
             descend (iw_buf iw) s pby1 cur cyclicPos curMatch length ptr0 ptr1 len0 len1;
          getMatches_loop count' bt cur lenLimit matchMinPos s ptr0 ptr1 len0 len1 curMatch maxLen ds
  end.

(** The matches of two and three bytes the small hash tables know, in the entries
    already read: [curMatch2] and [curMatch3]. The result is the pairs, maxLen and the
    match curMatch is compared with afterwards. *)
Definition short_matches (bt : lzBinTree) (cur matchMinPos curMatch2 curMatch3 curMatch : Z)
    (ds : list Z * Z) : outcome lzma_error (list Z * Z * Z) :=
  let iw := bt_iw bt in
  '(ds, maxLen) ←
    (if matchMinPos <? curMatch2 then
       a ← index (iw_buf iw) (u32 (bufOffset iw + curMatch2));
       b ← index (iw_buf iw) cur;
       if a =? b then
         ds ← push_match 2 (u32 (u32 (iw_pos iw - curMatch2) - 1)) ds; Ret (ds, 2)
       else Ret (ds, kStartMaxLen)
     else Ret (ds, kStartMaxLen));
  '(ds, maxLen, curMatch2) ←
    (if matchMinPos <? curMatch3 then
       a ← index (iw_buf iw) (u32 (bufOffset iw + curMatch3));
       b ← index (iw_buf iw) cur;
       if a =? b then
         let ds := if curMatch3 =? curMatch2 then (ds.1, u32 (ds.2 - 2)) else ds in
         ds ← push_match 3 (u32 (u32 (iw_pos iw - curMatch3) - 1)) ds; Ret (ds, 3, curMatch3)
       else Ret (ds, maxLen, curMatch2)
     else Ret (ds, maxLen, curMatch2));
  if negb (ds.2 =? 0) && (curMatch2 =? curMatch) then Ret (ds.1, u32 (ds.2 - 2), kStartMaxLen)
  else Ret (ds, maxLen).

(** Without the small tables: a match of the bytes the hash stands for. *)
Definition direct_match (bt : lzBinTree) (cur matchMinPos curMatch maxLen : Z) (ds : list Z * Z)
    : outcome lzma_error (list Z * Z * Z) :=
  let iw := bt_iw bt in
  let n := kvNumHashDirectBytes bt in
  if negb (n =? 0) && (matchMinPos <? curMatch) then
    a ← index (iw_buf iw) (u32 (u32 (bufOffset iw + curMatch) + n));
    b ← index (iw_buf iw) (u32 (cur + n));
    if negb (a =? b) then
      ds ← push_match n (u32 (u32 (iw_pos iw - curMatch) - 1)) ds; Ret (ds, n)
    else Ret (ds, maxLen)
  else Ret (ds, maxLen).

(** The entries of the small tables for the bytes at [cur] become the position. *)
Definition set_small_hashes (bt : lzBinTree) (h2 h3 : Z) (hash : list Z)
    : outcome lzma_error (list Z) :=
  if hashArray bt then
    hash ← store hash h2 (iw_pos (bt_iw bt));
    store hash (u32 (kHash3Offset + h3)) (iw_pos (bt_iw bt))
  else Ret hash.

Definition getMatches (distances : list Z) (bt : lzBinTree)
    : outcome lzma_error (Z * list Z * lzBinTree) :=
  match length_limit bt with
  | None => bt ← bt_movePos bt; Ret (0, distances, bt)
  | Some lenLimit =>
      let iw := bt_iw bt in
      let matchMinPos := match_min_pos bt in
      let cur := u32 (bufOffset iw + iw_pos iw) in
      '(h2, h3, h) ← hash_values bt cur;
      curMatch ← index (bt_hash bt) (u32 (kvFixHashSize bt + h));
      '(ds, maxLen) ←
        (if hashArray bt then
           curMatch2 ← index (bt_hash bt) h2;
           curMatch3 ← index (bt_hash bt) (u32 (kHash3Offset + h3));
           short_matches bt cur matchMinPos curMatch2 curMatch3 curMatch (distances, 0)
         else Ret ((distances, 0), kStartMaxLen));
      hash ← set_small_hashes bt h2 h3 (bt_hash bt);
      hash ← store hash (u32 (kvFixHashSize bt + h)) (iw_pos iw);
      '(ds, maxLen) ← direct_match bt cur matchMinPos curMatch maxLen ds;
      let n := kvNumHashDirectBytes bt in
      '(s, ds) ← getMatches_loop (Z.to_nat (cutValue bt)) bt cur lenLimit matchMinPos (son bt)
          (u32 (u32 (Z.shiftl (cyclicBufPos bt) 1) + 1)) (u32 (Z.shiftl (cyclicBufPos bt) 1))
          n n curMatch maxLen ds;
      bt ← bt_movePos (bt_set iw s hash (cyclicBufPos bt) bt);
      Ret (ds.2, ds.1, bt)
  end.

(** ** skip *)

Fixpoint skip_loop (count : nat) (bt : lzBinTree) (cur lenLimit matchMinPos : Z)
    (s : list Z) (ptr0 ptr1 len0 len1 curMatch : Z) : outcome lzma_error (list Z) :=
  match count with
  | O => close_links s ptr0 ptr1
  | S count' =>
      if curMatch <=? matchMinPos then close_links s ptr0 ptr1
      else
        let iw := bt_iw bt in
        let delta := u32 (iw_pos iw - curMatch) in
        let cyclicPos := cyclic_pos bt delta in
        let pby1 := u32 (bufOffset iw + curMatch) in
        '(length, same) ← match_length (iw_buf iw) pby1 cur lenLimit len0 len1;
        if (same : bool) && (length =? lenLimit) then take_links s ptr0 ptr1 cyclicPos
        else
          '(s, ptr0, ptr1, len0, len1, curMatch) ←
             descend (iw_buf iw) s pby1 cur cyclicPos curMatch length ptr0 ptr1 len0 len1;
          skip_loop count' bt cur lenLimit matchMinPos s ptr0 ptr1 len0 len1 curMatch
  end.

(** One turn of the loop of skip. *)
Definition skip_one (bt : lzBinTree) : outcome lzma_error lzBinTree :=
  match length_limit bt with
  | None => bt_movePos bt
  | Some lenLimit =>
      let iw := bt_iw bt in
      let matchMinPos := match_min_pos bt in
      let cur := u32 (bufOffset iw + iw_pos iw) in
      '(h2, h3, h) ← hash_values bt cur;
      hash ← set_small_hashes bt h2 h3 (bt_hash bt);
      curMatch ← index hash (u32 (kvFixHashSize bt + h));
      hash ← store hash (u32 (kvFixHashSize bt + h)) (iw_pos iw);
      let n := kvNumHashDirectBytes bt in
      s ← skip_loop (Z.to_nat (cutValue bt)) bt cur lenLimit matchMinPos (son bt)
          (u32 (u32 (Z.shiftl (cyclicBufPos bt) 1) + 1)) (u32 (Z.shiftl (cyclicBufPos bt) 1))
          n n curMatch;
      bt_movePos (bt_set iw s hash (cyclicBufPos bt) bt)
  end.

Fixpoint skip (num : nat) (bt : lzBinTree) : outcome lzma_error lzBinTree :=
  match num with
  | O => Ret bt
  | S num' => bt ← skip_one bt; skip num' bt
  end.
