(* ===== verification/LzmaTrees.v ===== *)
(** The binary search trees of the LZMA match finder, apart from their representation:
    the nodes are places in the data, ordered by the bytes that follow them, and a new
    place is inserted at the root by splitting the tree along the search path, as
    getMatches and skip of lzma2/lz_bin_tree.go do.

    [le_upto n a b] says that the bytes at [a] come before those at [b], in the order
    of the first [n] bytes; [common] counts the bytes that agree (LzmaInWindow.v); and
    [split] is the insertion as a function on trees. *)

From Stdlib Require Import ZArith Lia.
From stdpp Require Import base numbers option list.
From S2P Require Import Prelude LzmaInWindow.
#[local] Open Scope Z_scope.

Inductive tree := Lf | Nd (a : Z) (l r : tree).

Fixpoint nodes (t : tree) : list Z :=
  match t with Lf => [] | Nd a l r => a :: nodes l ++ nodes r end.

(** The tree below the places after [lo]: what is older has left the dictionary. *)
Fixpoint prune (lo : Z) (t : tree) : tree :=
  match t with
  | Lf => Lf
  | Nd a l r => if lo <? a then Nd a (prune lo l) (prune lo r) else Lf
  end.

Lemma prune_sublist lo t : nodes (prune lo t) `sublist_of` nodes t.
Proof.
  induction t as [|a l IHl r IHr]; cbn [prune nodes]; [constructor|].
  destruct (lo <? a); cbn [nodes]; [|apply sublist_nil_l].
  apply sublist_skip. by apply sublist_app.
Qed.

Lemma submseteq_NoDup (l k : list Z) : l ⊆+ k -> NoDup k -> NoDup l.
Proof.
  intros Hs Hk. apply submseteq_Permutation in Hs as [k' Hp]. rewrite Hp in Hk.
  by apply NoDup_app in Hk as [? _].
Qed.

Section order.
Context (data : list Z).

(** The bytes at [a] and at [b] agree before the [n]th. *)
Definition agree (n a b : Z) : Prop := forall i, 0 <= i < n -> byteAt data (a + i) = byteAt data (b + i).

(** The bytes at [a] are, as far as the [n]th, less than or equal to those at [b]. *)
Definition le_upto (n a b : Z) : Prop :=
  forall i, 0 <= i < n -> agree i a b -> byteAt data (a + i) <= byteAt data (b + i).

Lemma agree_sym n a b : agree n a b -> agree n b a.
Proof. intros H i Hi. symmetry. auto. Qed.

Lemma agree_trans n a b c : agree n a b -> agree n b c -> agree n a c.
Proof. intros H1 H2 i Hi. rewrite H1 by done. auto. Qed.

Lemma agree_less n m a b : m <= n -> agree n a b -> agree m a b.
Proof. intros Hm H i Hi. apply H. lia. Qed.

Lemma agree_0 a b : agree 0 a b.
Proof. intros i Hi. lia. Qed.

Lemma le_upto_0 a b : le_upto 0 a b.
Proof. intros i Hi. lia. Qed.

Lemma le_upto_less n m a b : m <= n -> le_upto n a b -> le_upto m a b.
Proof. intros Hm H i Hi. apply H. lia. Qed.

Lemma agree_le n a b : agree n a b -> le_upto n a b.
Proof. intros H i Hi _. rewrite H by done. lia. Qed.

Lemma agree_extend n a b : 0 <= n -> agree n a b -> byteAt data (a + n) = byteAt data (b + n) ->
  agree (n + 1) a b.
Proof.
  intros Hn H Hb i Hi. destruct (decide (i = n)) as [->|]; [done|]. apply H. lia.
Qed.

(** Two places each before the other agree. *)
Lemma le_upto_antisym n a b : le_upto n a b -> le_upto n b a -> agree n a b.
Proof.
  intros H1 H2. assert (forall k : nat, Z.of_nat k <= n -> agree (Z.of_nat k) a b) as Hk.
  { induction k as [|k IH]; intros Hk; [apply agree_0|].
    rewrite Nat2Z.inj_succ. specialize (IH ltac:(lia)).
    apply agree_extend; [lia|done|].
    specialize (H1 (Z.of_nat k) ltac:(lia) IH). specialize (H2 (Z.of_nat k) ltac:(lia) (agree_sym _ _ _ IH)).
    lia. }
  intros i Hi. apply (Hk (S (Z.to_nat i))); lia.
Qed.

Lemma le_upto_trans n a b c : le_upto n a b -> le_upto n b c -> le_upto n a c.
Proof.
  intros H1 H2 i Hi Hac. assert (agree i a b) as Hab.
  { assert (forall k : nat, Z.of_nat k <= i -> agree (Z.of_nat k) a b) as Hk.
    { induction k as [|k IH]; intros Hk; [apply agree_0|].
      rewrite Nat2Z.inj_succ. specialize (IH ltac:(lia)).
      assert (agree (Z.of_nat k) b c) as Hbc.
      { eapply agree_trans; [apply agree_sym, IH|]. eapply agree_less; [|exact Hac]. lia. }
      apply agree_extend; [lia|done|].
      specialize (H1 (Z.of_nat k) ltac:(lia) IH). specialize (H2 (Z.of_nat k) ltac:(lia) Hbc).
      specialize (Hac (Z.of_nat k) ltac:(lia)). lia. }
    intros j Hj. apply (Hk (S (Z.to_nat j))); lia. }
  assert (agree i b c) as Hbc by (eapply agree_trans; [apply agree_sym, Hab|exact Hac]).
  specialize (H1 i Hi Hab). specialize (H2 i Hi Hbc). lia.
Qed.

(** A place whose bytes agree with [c]'s as far as [n] may stand for it. *)
Lemma le_upto_agree_r n a b c : le_upto n a b -> agree n b c -> le_upto n a c.
Proof. intros H1 H2. eapply le_upto_trans; [exact H1|by apply agree_le]. Qed.

Lemma le_upto_agree_l n a b c : agree n a b -> le_upto n b c -> le_upto n a c.
Proof. intros H1 H2. eapply le_upto_trans; [by apply agree_le|exact H2]. Qed.

(** The first difference decides, for every number of bytes. *)
Lemma le_upto_first n m a b : agree n a b -> byteAt data (a + n) < byteAt data (b + n) -> 0 <= n ->
  le_upto m a b.
Proof.
  intros H Hlt Hn i Hi Hab. destruct (Z.lt_trichotomy i n) as [|[->|]].
  - rewrite H by lia. lia.
  - lia.
  - specialize (Hab n ltac:(lia)). lia.
Qed.

(** ** The number of bytes that agree *)

Lemma common_spec n a b :
  0 <= common data n a b <= Z.of_nat n /\ agree (common data n a b) a b /\
  (common data n a b < Z.of_nat n ->
   byteAt data (a + common data n a b) <> byteAt data (b + common data n a b)).
Proof.
  revert a b. induction n as [|n IH]; intros a b; cbn [common].
  { split; [lia|]. split; [apply agree_0|lia]. }
  destruct (Z.eqb_spec (byteAt data a) (byteAt data b)) as [E|E].
  - destruct (IH (a + 1) (b + 1)) as (H1 & H2 & H3). split; [lia|]. split.
    + intros i Hi. destruct (decide (i = 0)) as [->|]; [by rewrite !Z.add_0_r|].
      specialize (H2 (i - 1) ltac:(lia)).
      by replace (a + i) with (a + 1 + (i - 1)) by lia; replace (b + i) with (b + 1 + (i - 1)) by lia.
    + intros Hc. rewrite !Z.add_assoc. apply H3. lia.
  - split; [lia|]. split; [apply agree_0|]. by rewrite !Z.add_0_r.
Qed.

Lemma common_unique n a b c : 0 <= c <= Z.of_nat n -> agree c a b ->
  (c < Z.of_nat n -> byteAt data (a + c) <> byteAt data (b + c)) -> common data n a b = c.
Proof.
  intros Hc Ha Hne. destruct (common_spec n a b) as (H1 & H2 & H3).
  destruct (Z.lt_trichotomy (common data n a b) c) as [H|[H|H]]; [|done|].
  - destruct H3; [lia|]. apply Ha. lia.
  - destruct Hne; [lia|]. apply H2. lia.
Qed.

Lemma agree_common n a b c : 0 <= c <= Z.of_nat n -> agree c a b -> c <= common data n a b.
Proof.
  intros Hc Ha. destruct (common_spec n a b) as (H1 & H2 & H3).
  destruct (Z.le_gt_cases c (common data n a b)); [done|]. destruct H3; [lia|]. apply Ha. lia.
Qed.

(** ** Ordered trees and the split *)

Fixpoint ordered (n : Z) (t : tree) : Prop :=
  match t with
  | Lf => True
  | Nd a l r =>
      (forall x, x ∈ nodes l -> le_upto n x a) /\ (forall x, x ∈ nodes r -> le_upto n a x) /\
      ordered n l /\ ordered n r
  end.

Lemma ordered_less n m t : m <= n -> ordered n t -> ordered m t.
Proof.
  intros Hm. induction t as [|a l IHl r IHr]; cbn; [done|].
  intros (H1 & H2 & H3 & H4). repeat split; auto; intros x Hx; eapply le_upto_less; eauto.
Qed.

Lemma ordered_prune n lo t : ordered n t -> ordered n (prune lo t).
Proof.
  induction t as [|a l IHl r IHr]; cbn; [done|]. intros (H1 & H2 & H3 & H4).
  destruct (lo <? a); cbn; [|done].
  repeat split; auto; intros x Hx; [apply H1|apply H2];
    eapply elem_of_submseteq; eauto using sublist_submseteq, prune_sublist.
Qed.

(** How the place [a] compares with [b] on [n] bytes: equal, less or greater. *)
Definition cmp (n a b : Z) : comparison :=
  let c := common data (Z.to_nat n) a b in
  if c =? n then Eq else if byteAt data (a + c) <? byteAt data (b + c) then Lt else Gt.

Lemma cmp_eq n a b : 0 <= n -> cmp n a b = Eq -> agree n a b.
Proof.
  unfold cmp. intros Hn. destruct (Z.eqb_spec (common data (Z.to_nat n) a b) n) as [E|]; [|by destruct (_ <? _)].
  intros _. rewrite <- E at 1. apply common_spec.
Qed.

Lemma cmp_lt n a b : 0 <= n -> cmp n a b = Lt -> forall m, le_upto m a b.
Proof.
  unfold cmp. intros Hn. destruct (Z.eqb_spec (common data (Z.to_nat n) a b) n); [done|].
  destruct (Z.ltb_spec (byteAt data (a + common data (Z.to_nat n) a b))
                       (byteAt data (b + common data (Z.to_nat n) a b))); [|done].
  intros _ m. destruct (common_spec (Z.to_nat n) a b) as (H1 & H2 & H3).
  eapply le_upto_first; [exact H2|done|lia].
Qed.

Lemma cmp_gt n a b : 0 <= n -> cmp n a b = Gt -> forall m, le_upto m b a.
Proof.
  unfold cmp. intros Hn. destruct (Z.eqb_spec (common data (Z.to_nat n) a b) n); [done|].
  destruct (Z.ltb_spec (byteAt data (a + common data (Z.to_nat n) a b))
                       (byteAt data (b + common data (Z.to_nat n) a b))); [done|].
  intros _ m. destruct (common_spec (Z.to_nat n) a b) as (H1 & H2 & H3).
  eapply le_upto_first; [apply agree_sym, H2| |lia]. specialize (H3 ltac:(lia)). lia.
Qed.

(** The tree [t] split by the place [cur]: what comes before and what comes after it.
    At most [count] nodes are visited, the rest is dropped. *)
Fixpoint split (n cur : Z) (count : nat) (t : tree) : tree * tree :=
  match count, t with
  | S count', Nd a l r =>
      match cmp n a cur with
      | Eq => (l, r)
      | Lt => let '(s, g) := split n cur count' r in (Nd a l s, g)
      | Gt => let '(s, g) := split n cur count' l in (s, Nd a g r)
      end
  | _, _ => (Lf, Lf)
  end.

Lemma split_nodes n cur count t s g : split n cur count t = (s, g) ->
  nodes s ++ nodes g ⊆+ nodes t.
Proof.
  revert t s g. induction count as [|count IH]; intros [|a l r] s g; cbn [split];
    try (intros [= <- <-]; apply submseteq_nil_l).
  destruct (cmp n a cur).
  - intros [= <- <-]. cbn. by apply submseteq_cons.
  - destruct (split n cur count r) as [s' g'] eqn:E. intros [= <- <-]. cbn.
    apply submseteq_skip. rewrite <- app_assoc. apply submseteq_skips_l. by apply (IH r).
  - destruct (split n cur count l) as [s' g'] eqn:E. intros [= <- <-]. cbn.
    rewrite (Permutation_app_comm (nodes s')). cbn.
    apply submseteq_skip. rewrite (Permutation_app_comm _ (nodes s')), app_assoc.
    apply submseteq_skips_r. by apply (IH l).
Qed.

Lemma split_ordered n cur count t s g : 0 <= n -> ordered n t -> split n cur count t = (s, g) ->
  ordered n s /\ ordered n g /\
  (forall x, x ∈ nodes s -> le_upto n x cur) /\ (forall x, x ∈ nodes g -> le_upto n cur x).
Proof.
  intros Hn. revert t s g. induction count as [|count IH]; intros [|a l r] s g Ho; cbn [split];
    try (intros [= <- <-]; cbn; repeat split; try done; intros x Hx; by apply elem_of_nil in Hx).
  cbn in Ho. destruct Ho as (Hl & Hr & Hol & Hor).
  destruct (cmp n a cur) eqn:Ec.
  - intros [= <- <-]. apply cmp_eq in Ec; [|done]. repeat split; try done; intros x Hx.
    + eapply le_upto_agree_r; [by apply Hl|done].
    + eapply le_upto_agree_l; [by apply agree_sym|by apply Hr].
  - destruct (split n cur count r) as [s' g'] eqn:E. intros [= <- <-].
    pose proof (split_nodes _ _ _ _ _ _ E) as Hsub.
    destruct (IH r s' g' Hor E) as (H1 & H2 & H3 & H4). pose proof (cmp_lt n a cur Hn Ec n) as Hac.
    cbn. repeat split; try done.
    + intros x Hx. apply Hr. eapply elem_of_submseteq; [|exact Hsub]. apply elem_of_app. by left.
    + intros x Hx. apply elem_of_cons in Hx as [->|Hx]; [done|].
      apply elem_of_app in Hx as [Hx|Hx]; [|by apply H3].
      eapply le_upto_trans; [by apply Hl|done].
  - destruct (split n cur count l) as [s' g'] eqn:E. intros [= <- <-].
    pose proof (split_nodes _ _ _ _ _ _ E) as Hsub.
    destruct (IH l s' g' Hol E) as (H1 & H2 & H3 & H4). pose proof (cmp_gt n a cur Hn Ec n) as Hac.
    cbn. repeat split; try done.
    + intros x Hx. apply Hl. eapply elem_of_submseteq; [|exact Hsub]. apply elem_of_app. by right.
    + intros x Hx. apply elem_of_cons in Hx as [->|Hx]; [done|].
      apply elem_of_app in Hx as [Hx|Hx]; [by apply H4|].
      eapply le_upto_trans; [done|by apply Hr].
Qed.

(** Inserting [cur] at the root keeps the tree ordered. *)
Lemma insert_ordered n cur count t s g : 0 <= n -> ordered n t -> split n cur count t = (s, g) ->
  ordered n (Nd cur s g).
Proof. intros Hn Ho E. destruct (split_ordered n cur count t s g Hn Ho E) as (H1 & H2 & H3 & H4). done. Qed.
End order.
