(* ===== verification/LzmaBinTreeOk.v ===== *)
(** The descent of getMatches and skip (lzma2/lz_bin_tree.go) through the tree of a hash
    bucket: the array [son] holds a tree of places ([holds]), and the loops leave in it
    the two halves that [split] cuts the tree into, hanging from the two links of the
    current position; on the way getMatches stores the matches it meets.

    Places are numbered in the whole input: the position [v] of the window is the place
    [org + v]. A link to a place that is not after [lo] is an empty one. *)

From Stdlib Require Import ZArith Lia.
From stdpp Require Import base numbers option list.
From S2P Require Import Prelude RangeCoder LzmaWindow LzmaInWindow LzmaBinTree LzmaTrees.
#[local] Open Scope Z_scope.

(** ** Trees in the array of links *)

Section holds.
Context (cyc : Z).

(** The indices of the two links of a place. *)
Definition slot0 (a : Z) : nat := Z.to_nat (2 * (a mod cyc)).
Definition slot1 (a : Z) : nat := Z.to_nat (2 * (a mod cyc) + 1).

Fixpoint holds (org lo : Z) (s : list Z) (v : Z) (t : tree) : Prop :=
  match t with
  | Lf => 0 <= v /\ org + v <= lo
  | Nd a l r =>
      org + v = a /\ lo < a /\
      (exists vl, s !! slot0 a = Some vl /\ holds org lo s vl l) /\
      (exists vr, s !! slot1 a = Some vr /\ holds org lo s vr r)
  end.

Lemma holds_frame org lo s s' v t :
  (forall a, a ∈ nodes t -> s' !! slot0 a = s !! slot0 a /\ s' !! slot1 a = s !! slot1 a) ->
  holds org lo s v t -> holds org lo s' v t.
Proof.
  revert v. induction t as [|a l IHl r IHr]; intros v Hf; cbn [holds]; [done|].
  intros (Ha & Hlo & (vl & El & Hl) & (vr & Er & Hr)).
  destruct (Hf a) as [F0 F1]; [by left|].
  repeat split; [done|done| |].
  - exists vl. rewrite F0. split; [done|]. apply IHl; [|done].
    intros x Hx. apply Hf. right. apply elem_of_app. by left.
  - exists vr. rewrite F1. split; [done|]. apply IHr; [|done].
    intros x Hx. apply Hf. right. apply elem_of_app. by right.
Qed.

Lemma holds_prune org lo lo' s v t : org <= lo <= lo' -> holds org lo s v t ->
  holds org lo' s v (prune lo' t).
Proof.
  intros Hlo. revert v. induction t as [|a l IHl r IHr]; intros v; cbn [holds prune]; [lia|].
  intros (Ha & Hla & (vl & El & Hl) & (vr & Er & Hr)).
  destruct (Z.ltb_spec lo' a); cbn [holds]; [|lia].
  repeat split; [done|lia|eauto|eauto].
Qed.

(** What normalizeLinks makes of a link. *)
Definition reduced (sub v : Z) : Z := if v <=? sub then kEmptyHashValue else u32 (v - sub).

Lemma holds_normalize org lo s v t sub :
  0 <= sub -> org + sub <= lo -> lo - org < 2 ^ 32 -> (forall a, a ∈ nodes t -> a - org < 2 ^ 32) ->
  holds org lo s v t -> holds (org + sub) lo (map (reduced sub) s) (reduced sub v) t.
Proof.
  intros Hsub Hlo Hlo2. revert v. induction t as [|a l IHl r IHr]; intros v Hn; cbn [holds].
  { intros H. unfold reduced, kEmptyHashValue. destruct (Z.leb_spec v sub); [lia|].
    rewrite wrap_id by lia. lia. }
  intros (Ha & Hla & (vl & El & Hl) & (vr & Er & Hr)).
  specialize (Hn a ltac:(by left)) as Hna.
  repeat split; [|lia| |].
  - unfold reduced. destruct (Z.leb_spec v sub); [lia|]. rewrite wrap_id by lia. lia.
  - exists (reduced sub vl). rewrite list_lookup_fmap, El. split; [done|].
    apply IHl; [|done]. intros x Hx. apply Hn. right. apply elem_of_app. by left.
  - exists (reduced sub vr). rewrite list_lookup_fmap, Er. split; [done|].
    apply IHr; [|done]. intros x Hx. apply Hn. right. apply elem_of_app. by right.
Qed.

Lemma holds_nodes org lo s v t : holds org lo s v t -> forall a, a ∈ nodes t -> lo < a.
Proof.
  revert v. induction t as [|a l IHl r IHr]; intros v; cbn [holds nodes].
  { intros _ x Hx. by apply elem_of_nil in Hx. }
  intros (Ha & Hla & (vl & El & Hl) & (vr & Er & Hr)) x Hx.
  apply elem_of_cons in Hx as [->|Hx]; [done|]. apply elem_of_app in Hx as [Hx|Hx]; eauto.
Qed.

Context (Hcyc : 0 < cyc).

Lemma slot_ne a b : a <> b -> Z.abs (a - b) < cyc -> a mod cyc <> b mod cyc.
Proof.
  intros Hab Hd E. pose proof (Z.div_mod a cyc ltac:(lia)). pose proof (Z.div_mod b cyc ltac:(lia)).
  assert (a - b = cyc * (a / cyc - b / cyc)) by lia.
  destruct (Z.eq_dec (a / cyc - b / cyc) 0); [lia|nia].
Qed.

Lemma slots_ne a b : a <> b -> Z.abs (a - b) < cyc ->
  slot0 a <> slot0 b /\ slot0 a <> slot1 b /\ slot1 a <> slot0 b /\ slot1 a <> slot1 b.
Proof.
  intros Hab Hd. pose proof (slot_ne a b Hab Hd). unfold slot0, slot1.
  pose proof (Z.mod_pos_bound a cyc Hcyc). pose proof (Z.mod_pos_bound b cyc Hcyc). lia.
Qed.

Lemma slot_self a : slot0 a <> slot1 a.
Proof. unfold slot0, slot1. pose proof (Z.mod_pos_bound a cyc Hcyc). lia. Qed.

Lemma slot_lt (s : list Z) a : Z.of_nat (length s) = 2 * cyc ->
  (slot0 a < length s)%nat /\ (slot1 a < length s)%nat.
Proof. intros. unfold slot0, slot1. pose proof (Z.mod_pos_bound a cyc Hcyc). lia. Qed.

(** ** What a descent makes of the array *)

(** [s'] holds the trees [p] at the links [ptr1] and [ptr0]; nothing but these links
    and those of the places of [t] has changed. *)
Definition descended (org lo : Z) (s : list Z) (ptr0 ptr1 : nat) (t : tree) (p : tree * tree)
    (s' : list Z) : Prop :=
  length s' = length s /\
  (exists v1, s' !! ptr1 = Some v1 /\ holds org lo s' v1 p.1) /\
  (exists v0, s' !! ptr0 = Some v0 /\ holds org lo s' v0 p.2) /\
  (forall i, i <> ptr0 -> i <> ptr1 -> (forall a, a ∈ nodes t -> i <> slot0 a /\ i <> slot1 a) ->
     s' !! i = s !! i).

(** The links [ptr0] and [ptr1] are apart from the tree [t] that is below [v]. *)
Record apart (org lo A : Z) (s : list Z) (ptr0 ptr1 : nat) (v : Z) (t : tree) : Prop := {
  ap_len : Z.of_nat (length s) = 2 * cyc;
  ap_ne : ptr0 <> ptr1;
  ap_0 : (ptr0 < length s)%nat;
  ap_1 : (ptr1 < length s)%nat;
  ap_free : forall a, a ∈ nodes t -> (ptr0 <> slot0 a /\ ptr0 <> slot1 a) /\ ptr1 <> slot0 a /\ ptr1 <> slot1 a;
  ap_nodup : NoDup (nodes t);
  ap_live : forall a, a ∈ nodes t -> lo < a < A;
  ap_holds : holds org lo s v t
}.

Lemma descended_close org lo s ptr0 ptr1 t :
  org <= lo -> ptr0 <> ptr1 -> (ptr0 < length s)%nat -> (ptr1 < length s)%nat ->
  descended org lo s ptr0 ptr1 t (Lf, Lf) (<[ptr0 := 0]> (<[ptr1 := 0]> s)).
Proof.
  intros Ho Hne H0 H1. split; [by rewrite !length_insert|]. split; [|split].
  - exists 0. rewrite list_lookup_insert_ne by done. rewrite list_lookup_insert_eq by lia.
    cbn. split; [done|lia].
  - exists 0. rewrite list_lookup_insert_eq by (rewrite length_insert; lia). cbn. split; [done|lia].
  - intros i Hi0 Hi1 _. by rewrite !list_lookup_insert_ne by done.
Qed.

(** Places of a tree of the size of the cyclic buffer have links of their own. *)
Lemma apart_slots org lo A s ptr0 ptr1 v a l r :
  A - cyc <= lo -> apart org lo A s ptr0 ptr1 v (Nd a l r) ->
  forall x, x ∈ nodes l ++ nodes r ->
    slot0 a <> slot0 x /\ slot0 a <> slot1 x /\ slot1 a <> slot0 x /\ slot1 a <> slot1 x.
Proof.
  intros Hlo H x Hx. destruct H as [_ _ _ _ _ Hnd Hlive _]. cbn in Hnd, Hlive.
  apply NoDup_cons in Hnd as [Hna _].
  destruct (Hlive a ltac:(by left)). destruct (Hlive x ltac:(by right)).
  apply slots_ne; [by intros ->|lia].
Qed.

Lemma descended_take org lo A s ptr0 ptr1 v a l r vl vr :
  A - cyc <= lo -> apart org lo A s ptr0 ptr1 v (Nd a l r) ->
  s !! slot0 a = Some vl -> holds org lo s vl l ->
  s !! slot1 a = Some vr -> holds org lo s vr r ->
  descended org lo s ptr0 ptr1 (Nd a l r) (l, r) (<[ptr0 := vr]> (<[ptr1 := vl]> s)).
Proof.
  intros Hlo H El Hl Er Hr. pose proof H as [Hlen Hne H0 H1 Hfree Hnd Hlive Hh].
  assert (F : forall x, x ∈ nodes l ++ nodes r ->
    <[ptr0 := vr]> (<[ptr1 := vl]> s) !! slot0 x = s !! slot0 x /\
    <[ptr0 := vr]> (<[ptr1 := vl]> s) !! slot1 x = s !! slot1 x).
  { intros x Hx. destruct (Hfree x ltac:(by right)) as ((F1 & F2) & F3 & F4).
    by rewrite !list_lookup_insert_ne by done. }
  split; [by rewrite !length_insert|]. split; [|split].
  - exists vl. rewrite list_lookup_insert_ne by done. rewrite list_lookup_insert_eq by lia.
    split; [done|]. eapply holds_frame; [|exact Hl]. intros x Hx. apply F, elem_of_app. by left.
  - exists vr. rewrite list_lookup_insert_eq by (rewrite length_insert; lia).
    split; [done|]. eapply holds_frame; [|exact Hr]. intros x Hx. apply F, elem_of_app. by right.
  - intros i Hi0 Hi1 _. by rewrite !list_lookup_insert_ne by done.
Qed.

(** The step to the right subtree of [a]: the old link leads to [a], the new one is its
    second link. *)
Lemma apart_right org lo A s ptr0 ptr1 v a l r vr :
  A - cyc <= lo -> apart org lo A s ptr0 ptr1 v (Nd a l r) ->
  s !! slot1 a = Some vr -> holds org lo s vr r ->
  apart org lo A (<[ptr1 := v]> s) ptr0 (slot1 a) vr r /\ <[ptr1 := v]> s !! slot1 a = Some vr.
Proof.
  intros Hlo H Er Hr. pose proof (apart_slots _ _ _ _ _ _ _ _ _ _ Hlo H) as Hsl.
  destruct H as [Hlen Hne H0 H1 Hfree Hnd Hlive Hh]. cbn in Hnd.
  apply NoDup_cons in Hnd as [Hna Hnd]. apply NoDup_app in Hnd as (Hndl & Hdis & Hndr).
  destruct (Hfree a ltac:(by left)) as ((F1 & F2) & F3 & F4).
  assert (I : forall x, x ∈ nodes r -> x ∈ nodes l ++ nodes r) by (intros; apply elem_of_app; by right).
  split; [|by rewrite list_lookup_insert_ne by done].
  constructor; rewrite ?length_insert; try done.
  - apply slot_lt. lia.
  - intros x Hx. destruct (Hfree x) as ((G1 & G2) & G3 & G4); [right; by apply I|].
    destruct (Hsl x (I x Hx)) as (S1 & S2 & S3 & S4). done.
  - intros x Hx. apply Hlive. right. by apply I.
  - eapply holds_frame; [|exact Hr]. intros x Hx.
    destruct (Hfree x) as ((G1 & G2) & G3 & G4); [right; by apply I|].
    by rewrite !list_lookup_insert_ne by done.
Qed.

Lemma apart_left org lo A s ptr0 ptr1 v a l r vl :
  A - cyc <= lo -> apart org lo A s ptr0 ptr1 v (Nd a l r) ->
  s !! slot0 a = Some vl -> holds org lo s vl l ->
  apart org lo A (<[ptr0 := v]> s) (slot0 a) ptr1 vl l /\ <[ptr0 := v]> s !! slot0 a = Some vl.
Proof.
  intros Hlo H El Hl. pose proof (apart_slots _ _ _ _ _ _ _ _ _ _ Hlo H) as Hsl.
  destruct H as [Hlen Hne H0 H1 Hfree Hnd Hlive Hh]. cbn in Hnd.
  apply NoDup_cons in Hnd as [Hna Hnd]. apply NoDup_app in Hnd as (Hndl & Hdis & Hndr).
  destruct (Hfree a ltac:(by left)) as ((F1 & F2) & F3 & F4).
  assert (I : forall x, x ∈ nodes l -> x ∈ nodes l ++ nodes r) by (intros; apply elem_of_app; by left).
  split; [|by rewrite list_lookup_insert_ne by done].
  constructor; rewrite ?length_insert; try done.
  - apply slot_lt. lia.
  - intros x Hx. destruct (Hfree x) as ((G1 & G2) & G3 & G4); [right; by apply I|].
    destruct (Hsl x (I x Hx)) as (S1 & S2 & S3 & S4). done.
  - intros x Hx. apply Hlive. right. by apply I.
  - eapply holds_frame; [|exact Hl]. intros x Hx.
    destruct (Hfree x) as ((G1 & G2) & G3 & G4); [right; by apply I|].
    by rewrite !list_lookup_insert_ne by done.
Qed.

(** What the rest of the descent makes of the array, seen from before the step. *)
Lemma descended_right org lo A s ptr0 ptr1 v a l r vl p s' :
  A - cyc <= lo -> apart org lo A s ptr0 ptr1 v (Nd a l r) ->
  s !! slot0 a = Some vl -> holds org lo s vl l -> org + v = a ->
  descended org lo (<[ptr1 := v]> s) ptr0 (slot1 a) r p s' ->
  descended org lo s ptr0 ptr1 (Nd a l r) (Nd a l p.1, p.2) s'.
Proof.
  intros Hlo H El Hl Ha (Dlen & (v1 & D1 & Dh1) & D0 & Dsame).
  pose proof (apart_slots _ _ _ _ _ _ _ _ _ _ Hlo H) as Hsl.
  destruct H as [Hlen Hne H0 H1 Hfree Hnd Hlive Hh]. cbn in Hnd.
  apply NoDup_cons in Hnd as [Hna Hnd]. apply NoDup_app in Hnd as (Hndl & Hdis & Hndr).
  destruct (Hfree a ltac:(by left)) as ((F1 & F2) & F3 & F4).
  assert (Hout : forall i, i <> ptr0 -> i <> ptr1 -> i <> slot1 a ->
    (forall x, x ∈ nodes r -> i <> slot0 x /\ i <> slot1 x) -> s' !! i = s !! i).
  { intros i I0 I1 I2 I3. rewrite Dsame by done. by rewrite list_lookup_insert_ne by done. }
  rewrite length_insert in Dlen. split; [done|]. split; [|split; [done|]].
  - exists v. split.
    { rewrite Dsame; [by rewrite list_lookup_insert_eq by lia|done|done|].
      intros x Hx. apply Hfree. right. apply elem_of_app. by right. }
    cbn [fst holds]. split; [done|]. split; [by apply Hlive; left|]. split; [|eauto].
    exists vl. split.
    + rewrite Hout; [done|done|done|apply slot_self|].
      intros x Hx. destruct (Hsl x) as (S1 & S2 & _); [apply elem_of_app; by right|done].
    + eapply holds_frame; [|exact Hl]. intros x Hx.
      assert (Hxx : x ∈ nodes l ++ nodes r) by (apply elem_of_app; by left).
      destruct (Hsl x Hxx) as (S1 & S2 & S3 & S4). destruct (Hfree x ltac:(by right)) as ((G1 & G2) & G3 & G4).
      assert (Hy : forall y, y ∈ nodes r -> slot0 x <> slot0 y /\ slot0 x <> slot1 y /\
                                          slot1 x <> slot0 y /\ slot1 x <> slot1 y).
      { intros y Hy. destruct (Hlive x ltac:(by right)).
        destruct (Hlive y); [right; apply elem_of_app; by right|].
        apply slots_ne; [intros ->; by destruct (Hdis y)|lia]. }
      split; apply Hout; try done; intros y Hy'; destruct (Hy y Hy') as (? & ? & ? & ?); done.
  - intros i I0 I1 I2. destruct (I2 a ltac:(by left)). apply Hout; try done.
    intros x Hx. apply I2. right. apply elem_of_app. by right.
Qed.

Lemma descended_left org lo A s ptr0 ptr1 v a l r vr p s' :
  A - cyc <= lo -> apart org lo A s ptr0 ptr1 v (Nd a l r) ->
  s !! slot1 a = Some vr -> holds org lo s vr r -> org + v = a ->
  descended org lo (<[ptr0 := v]> s) (slot0 a) ptr1 l p s' ->
  descended org lo s ptr0 ptr1 (Nd a l r) (p.1, Nd a p.2 r) s'.
Proof.
  intros Hlo H Er Hr Ha (Dlen & D1 & (v0 & D0 & Dh0) & Dsame).
  pose proof (apart_slots _ _ _ _ _ _ _ _ _ _ Hlo H) as Hsl.
  destruct H as [Hlen Hne H0 H1 Hfree Hnd Hlive Hh]. cbn in Hnd.
  apply NoDup_cons in Hnd as [Hna Hnd]. apply NoDup_app in Hnd as (Hndl & Hdis & Hndr).
  destruct (Hfree a ltac:(by left)) as ((F1 & F2) & F3 & F4).
  assert (Hout : forall i, i <> ptr0 -> i <> ptr1 -> i <> slot0 a ->
    (forall x, x ∈ nodes l -> i <> slot0 x /\ i <> slot1 x) -> s' !! i = s !! i).
  { intros i I0 I1 I2 I3. rewrite Dsame by done. by rewrite list_lookup_insert_ne by done. }
  rewrite length_insert in Dlen. split; [done|]. split; [done|]. split.
  - exists v. split.
    { rewrite Dsame; [by rewrite list_lookup_insert_eq by lia|done|done|].
      intros x Hx. apply Hfree. right. apply elem_of_app. by left. }
    cbn [snd holds]. split; [done|]. split; [by apply Hlive; left|]. split; [eauto|].
    exists vr. split.
    + rewrite Hout; [done|done|done|apply not_eq_sym, slot_self|].
      intros x Hx. destruct (Hsl x) as (S1 & S2 & S3 & S4); [apply elem_of_app; by left|done].
    + eapply holds_frame; [|exact Hr]. intros x Hx.
      assert (Hxx : x ∈ nodes l ++ nodes r) by (apply elem_of_app; by right).
      destruct (Hsl x Hxx) as (S1 & S2 & S3 & S4). destruct (Hfree x ltac:(by right)) as ((G1 & G2) & G3 & G4).
      assert (Hy : forall y, y ∈ nodes l -> slot0 x <> slot0 y /\ slot0 x <> slot1 y /\
                                          slot1 x <> slot0 y /\ slot1 x <> slot1 y).
      { intros y Hy. destruct (Hlive x ltac:(by right)).
        destruct (Hlive y); [right; apply elem_of_app; by left|].
        apply slots_ne; [intros ->; by destruct (Hdis y)|lia]. }
      split; apply Hout; try done; intros y Hy'; destruct (Hy y Hy') as (? & ? & ? & ?); done.
  - intros i I0 I1 I2. destruct (I2 a ltac:(by left)). apply Hout; try done.
    intros x Hx. apply I2. right. apply elem_of_app. by left.
Qed.
End holds.

(** ** The pairs getMatches reports *)

(** Pairs of a length and a distance, as they lie in the array [distances]. *)
Fixpoint flat (pairs : list (Z * Z)) : list Z :=
  match pairs with [] => [] | (l, d) :: ps => l :: d :: flat ps end.

Lemma flat_app ps qs : flat (ps ++ qs) = flat ps ++ flat qs.
Proof. induction ps as [|[l d] ps IH]; cbn; [done|by rewrite IH]. Qed.

Lemma length_flat ps : length (flat ps) = (2 * length ps)%nat.
Proof. induction ps as [|[l d] ps IH]; cbn; [done|rewrite IH; lia]. Qed.

(** The lengths go up, from more than [f]. *)
Fixpoint rising (f : Z) (ps : list (Z * Z)) : Prop :=
  match ps with [] => True | (l, _) :: ps => f < l /\ rising l ps end.

Fixpoint top (f : Z) (ps : list (Z * Z)) : Z :=
  match ps with [] => f | (l, _) :: ps => top l ps end.

Lemma rising_snoc f ps l d : rising f (ps ++ [(l, d)]) <-> rising f ps /\ top f ps < l.
Proof. revert f. induction ps as [|[l' d'] ps IH]; intros f; cbn; [tauto|]. rewrite IH. tauto. Qed.

Lemma top_snoc f ps l d : top f (ps ++ [(l, d)]) = l.
Proof. revert f. induction ps as [|[l' d'] ps IH]; intros f; cbn; auto. Qed.

Lemma rising_length f ps : rising f ps -> f + Z.of_nat (length ps) <= top f ps.
Proof.
  revert f. induction ps as [|[l d] ps IH]; intros f; cbn; [lia|]. intros [H1 H2].
  specialize (IH l H2). lia.
Qed.

(** The array [distances] and the offset hold the pairs [ps]. *)
Definition stored (cap : nat) (ds : list Z * Z) (ps : list (Z * Z)) : Prop :=
  ds.2 = 2 * Z.of_nat (length ps) /\ length ds.1 = cap /\ (2 * length ps <= cap)%nat /\
  take (2 * length ps) ds.1 = flat ps.

Lemma push_match_spec cap ds ps l d : stored cap ds ps -> (2 * length ps + 2 <= cap)%nat ->
  Z.of_nat cap < 2 ^ 31 ->
  exists ds', push_match l d ds = Ret ds' /\ stored cap ds' (ps ++ [(l, d)]).
Proof.
  destruct ds as [distances offset]. unfold stored. cbn [fst snd].
  intros (-> & Hl & _ & Ht) Hroom Hcap.
  unfold push_match. rewrite store_ret by lia. cbn [mbind outcome_bind].
  rewrite (wrap_id 32 (2 * Z.of_nat (length ps) + 1)) by lia.
  rewrite store_ret by (rewrite length_insert; lia).
  cbn [mbind outcome_bind]. rewrite wrap_id by lia. eexists. split; [done|].
  cbn [fst snd]. rewrite !length_insert, length_app. cbn [length].
  split; [lia|]. split; [done|]. split; [lia|].
  replace (2 * (length ps + 1))%nat with (S (S (2 * length ps))) by lia.
  replace (Z.to_nat (2 * Z.of_nat (length ps))) with (2 * length ps)%nat by lia.
  replace (Z.to_nat (2 * Z.of_nat (length ps) + 1)) with (S (2 * length ps)) by lia.
  erewrite take_S_r by (apply list_lookup_insert_eq; rewrite length_insert; lia).
  rewrite take_insert_ge by lia.
  erewrite take_S_r by (apply list_lookup_insert_eq; lia).
  rewrite take_insert_ge by lia. rewrite flat_app, Ht. cbn. by rewrite <- app_assoc.
Qed.

(** offset -= 2 takes the last pair back. *)
Lemma stored_pop cap distances offset ps p : stored cap (distances, offset) (ps ++ [p]) ->
  Z.of_nat cap < 2 ^ 31 -> stored cap (distances, u32 (offset - 2)) ps.
Proof.
  unfold stored. cbn [fst snd]. rewrite length_app. cbn [length]. intros (-> & Hl & Hc & Ht) Hcap.
  rewrite wrap_id by lia. split; [lia|]. split; [done|]. split; [lia|].
  apply (f_equal (take (2 * length ps))) in Ht. rewrite take_take, Nat.min_l in Ht by lia.
  rewrite Ht, flat_app. apply take_app_length'. by rewrite length_flat.
Qed.

(** ** One step of the descent *)

(** The bytes before the current place that a match may use: those of the dictionary. *)
Definition oldest (cyc A : Z) : Z := Z.max (-1) (A - cyc).

Section descent.
Context (bad : lzma_error -> Prop) (data : list Z) (bt : lzBinTree) (org off L : Z).
Let iw := bt_iw bt.
Let A := org + iw_pos iw.
Let cyc := cyclicBufSize bt.
Let lo := oldest cyc A.

(** The state in which getMatches and skip look for the place [A], [L] bytes of it. *)
Record ready : Prop := {
  rd_iw : iw_core bad data org off iw;
  rd_cyc : 4096 < cyc <= 2 ^ 29 + 1;
  rd_cbp : cyclicBufPos bt = A mod cyc;
  rd_org : -1 <= org <= lo;
  rd_keep : cyc <= keepSizeBefore iw;
  rd_L : 3 <= L <= 273;
  rd_ahead : iw_pos iw + L <= iw_streamPos iw;
  rd_son : Z.of_nat (length (son bt)) = 2 * cyc
}.
Context (R : ready).

Lemma lo_bound : A - cyc <= lo /\ lo < A.
Proof.
  pose proof (ir_fit _ _ _ _ _ (rd_iw R)). pose proof (ir_shift _ _ _ _ _ (rd_iw R)).
  pose proof (rd_cyc R). unfold lo, oldest. fold cyc. lia.
Qed.

Lemma live_index a i : lo < a <= A -> 0 <= i < L ->
  index (iw_buf iw) (u32 (u32 (bufOffset iw + (a - org)) + i)) = Ret (byteAt data (a + i)).
Proof.
  intros Ha Hi. pose proof (rd_iw R) as H. pose proof lo_bound. pose proof (rd_L R).
  pose proof (ir_fit _ _ _ _ _ H). pose proof (ir_block _ _ _ _ _ H).
  pose proof (rd_ahead R). pose proof (rd_org R). pose proof (ir_ahead _ _ _ _ _ H).
  assert (0 <= off + (a - org)).
  { destruct (ir_keep _ _ _ _ _ H) as [->|Hk]; [lia|]. pose proof (rd_keep R).
    unfold A in *. lia. }
  rewrite (u32_off bad data org off iw) by (done || unfold A in *; lia).
  rewrite wrap_id by (unfold A in *; lia).
  replace (off + (a - org) + i) with (off + (a - org + i)) by lia.
  rewrite (index_byteAt bad data org off iw) by (done || unfold A in *; lia). do 2 f_equal. lia.
Qed.

Lemma cur_index i : 0 <= i < L ->
  index (iw_buf iw) (u32 (u32 (bufOffset iw + iw_pos iw) + i)) = Ret (byteAt data (A + i)).
Proof.
  intros Hi. rewrite <- live_index by (done || pose proof lo_bound; lia).
  do 4 f_equal. unfold A. lia.
Qed.

(** The slot of a place in the dictionary. *)
Lemma cyclic_pos_spec a : lo < a < A -> cyclic_pos bt (u32 (iw_pos iw - (a - org))) = 2 * (a mod cyc).
Proof.
  intros Ha. pose proof lo_bound. pose proof (rd_cyc R) as Hc.
  replace (iw_pos iw - (a - org)) with (A - a) by (unfold A; lia).
  rewrite (wrap_id 32 (A - a)) by lia. unfold cyclic_pos. rewrite (rd_cbp R). fold cyc.
  pose proof (Z.mod_pos_bound A cyc ltac:(lia)). pose proof (Z.div_mod A cyc ltac:(lia)).
  rewrite !Z.shiftl_mul_pow2 by lia. change (2 ^ 1) with 2.
  destruct (Z.leb_spec (A - a) (A mod cyc)).
  - assert (E : a mod cyc = A mod cyc - (A - a)).
    { symmetry. apply (Z.mod_unique_pos _ _ (A / cyc)); lia. }
    rewrite (wrap_id 32 (A mod cyc - (A - a))), wrap_id by lia. lia.
  - assert (E : a mod cyc = A mod cyc - (A - a) + cyc).
    { symmetry. apply (Z.mod_unique_pos _ _ (A / cyc - 1)); lia. }
    assert (E2 : u32 (u32 (A mod cyc - (A - a)) + cyc) = A mod cyc - (A - a) + cyc).
    { unfold wrap. rewrite Zplus_mod_idemp_l. apply Z.mod_small. lia. }
    rewrite E2, wrap_id by lia. lia.
Qed.

Lemma extend_spec a n : lo < a <= A -> forall length,
  0 <= length <= L -> agree data length a A -> L - length <= Z.of_nat n ->
  extend n (iw_buf iw) (u32 (bufOffset iw + (a - org))) (u32 (bufOffset iw + iw_pos iw)) L length
  = Ret (common data (Z.to_nat L) a A).
Proof.
  intros Ha. induction n as [|n IH]; intros length Hl Hag Hn; cbn [extend].
  all: destruct (Z.eqb_spec length L) as [->|].
  1,3: by rewrite (common_unique data _ a A L) by (done || lia).
  - lia.
  - rewrite live_index, cur_index by lia. cbn [mbind outcome_bind].
    destruct (Z.eqb_spec (byteAt data (a + length)) (byteAt data (A + length))).
    + rewrite (wrap_id 32 (length + 1)) by (pose proof (rd_L R); lia). apply IH; [lia| |lia]. apply agree_extend; (done || lia).
    + by rewrite (common_unique data _ a A length) by (done || lia).
Qed.

Lemma match_length_spec a len0 len1 :
  lo < a < A -> 0 <= Z.min len0 len1 < L -> agree data (Z.min len0 len1) a A ->
  let c := common data (Z.to_nat L) a A in
  match_length (iw_buf iw) (u32 (bufOffset iw + (a - org))) (u32 (bufOffset iw + iw_pos iw)) L len0 len1
  = Ret (c, Z.min len0 len1 <? c).
Proof.
  intros Ha Hm Hag c. unfold match_length, minUInt32.
  replace (if len0 <? len1 then len0 else len1) with (Z.min len0 len1)
    by (destruct (Z.ltb_spec len0 len1); lia).
  rewrite live_index, cur_index by lia. cbn [mbind outcome_bind].
  destruct (Z.eqb_spec (byteAt data (a + Z.min len0 len1)) (byteAt data (A + Z.min len0 len1))).
  - rewrite (wrap_id 32 (Z.min len0 len1 + 1)) by (pose proof (rd_L R); lia).
    pose proof (agree_extend _ _ _ _ (proj1 Hm) Hag e) as Hag'.
    rewrite extend_spec by (done || lia). cbn [mbind outcome_bind]. fold c.
    pose proof (agree_common data (Z.to_nat L) a A (Z.min len0 len1 + 1) ltac:(lia) Hag') as Hc.
    fold c in Hc.
    by destruct (Z.ltb_spec (Z.min len0 len1) c); [|lia].
  - assert (E : c = Z.min len0 len1) by (apply common_unique; [lia|done|done]).
    rewrite E. by rewrite Z.ltb_irrefl.
Qed.

(** ** The descent *)

(** Where a descent is: it has come to the link [v] of the tree [t], whose places lie,
    as far as [len0] and [len1] bytes tell, between those already passed. *)
Record walk (s : list Z) (ptr0 ptr1 len0 len1 v : Z) (t : tree) : Prop := {
  wk_apart : apart cyc org lo A s (Z.to_nat ptr0) (Z.to_nat ptr1) v t;
  wk_ordered : ordered data L t;
  wk_len0 : 0 <= len0 < L;
  wk_len1 : 0 <= len1 < L;
  wk_0 : forall x, x ∈ nodes t -> le_upto data len0 x A;
  wk_1 : forall x, x ∈ nodes t -> le_upto data len1 A x;
  wk_p0 : 0 <= ptr0 < 2 * cyc;
  wk_p1 : 0 <= ptr1 < 2 * cyc
}.

Lemma walk_agree s ptr0 ptr1 len0 len1 v t x : walk s ptr0 ptr1 len0 len1 v t -> x ∈ nodes t ->
  agree data (Z.min len0 len1) x A.
Proof.
  intros W Hx. apply le_upto_antisym.
  - eapply le_upto_less; [|by apply (wk_0 _ _ _ _ _ _ _ W)]. lia.
  - eapply le_upto_less; [|by apply (wk_1 _ _ _ _ _ _ _ W)]. lia.
Qed.

Lemma store_links s p x : Z.of_nat (length s) = 2 * cyc -> 0 <= p < 2 * cyc ->
  store s p x = Ret (<[Z.to_nat p := x]> s).
Proof. intros. apply store_ret. lia. Qed.

Lemma close_links_spec s ptr0 ptr1 len0 len1 v t : walk s ptr0 ptr1 len0 len1 v t ->
  exists s', close_links s ptr0 ptr1 = Ret s' /\
    descended cyc org lo s (Z.to_nat ptr0) (Z.to_nat ptr1) t (Lf, Lf) s'.
Proof.
  intros W. pose proof (wk_apart _ _ _ _ _ _ _ W) as Hap.
  pose proof (ap_len _ _ _ _ _ _ _ _ _ Hap). pose proof (wk_p0 _ _ _ _ _ _ _ W).
  pose proof (wk_p1 _ _ _ _ _ _ _ W). unfold close_links.
  rewrite store_links by done. cbn [mbind outcome_bind].
  rewrite store_links by (rewrite ?length_insert; done). eexists. split; [done|].
  apply descended_close; [pose proof (rd_org R); lia|apply Hap..].
Qed.

(** The links of a place, as [descend] and [take_links] index them. *)
Lemma slot_index a : Z.to_nat (2 * (a mod cyc)) = slot0 cyc a /\
  u32 (2 * (a mod cyc) + 1) = 2 * (a mod cyc) + 1 /\ Z.to_nat (2 * (a mod cyc) + 1) = slot1 cyc a /\
  0 <= 2 * (a mod cyc) /\ 2 * (a mod cyc) + 1 < 2 * cyc.
Proof.
  pose proof (rd_cyc R) as Hc. fold cyc in Hc. pose proof (Z.mod_pos_bound a cyc ltac:(lia)).
  rewrite wrap_id by lia. repeat split; lia.
Qed.

Lemma take_links_spec s ptr0 ptr1 len0 len1 v a l r : walk s ptr0 ptr1 len0 len1 v (Nd a l r) ->
  exists s', take_links s ptr0 ptr1 (2 * (a mod cyc)) = Ret s' /\
    descended cyc org lo s (Z.to_nat ptr0) (Z.to_nat ptr1) (Nd a l r) (l, r) s'.
Proof.
  intros W. pose proof (wk_apart _ _ _ _ _ _ _ W) as Hap.
  pose proof (ap_len _ _ _ _ _ _ _ _ _ Hap). pose proof (wk_p0 _ _ _ _ _ _ _ W).
  pose proof (wk_p1 _ _ _ _ _ _ _ W). pose proof lo_bound as [Hlo _].
  pose proof (ap_holds _ _ _ _ _ _ _ _ _ Hap) as (Ha & Hla & (vl & El & Hl) & (vr & Er & Hr)).
  destruct (slot_index a) as (Z0 & Zu & Z1 & Zb). unfold take_links.
  rewrite (index_ret _ _ vl) by (by rewrite Z0). cbn [mbind outcome_bind].
  rewrite store_links by done. cbn [mbind outcome_bind].
  rewrite Zu, (index_ret _ _ vr); cbn [mbind outcome_bind].
  2:{ rewrite Z1. destruct (ap_free _ _ _ _ _ _ _ _ _ Hap a ltac:(by left)) as (_ & F3 & F4).
      by rewrite list_lookup_insert_ne by done. }
  rewrite store_links by (rewrite ?length_insert; done). eexists. split; [done|].
  eapply descended_take; eauto.
Qed.

(** After one step down the rest of the descent is that of the subtree. *)
Lemma descend_spec s ptr0 ptr1 len0 len1 v a l r :
  let c := common data (Z.to_nat L) a A in
  walk s ptr0 ptr1 len0 len1 v (Nd a l r) -> c <> L ->
  exists s1 p0 p1 l0 l1 v1 t1,
    descend (iw_buf iw) s (u32 (bufOffset iw + v)) (u32 (bufOffset iw + iw_pos iw))
      (2 * (a mod cyc)) v c ptr0 ptr1 len0 len1 = Ret (s1, p0, p1, l0, l1, v1) /\
    walk s1 p0 p1 l0 l1 v1 t1 /\ Z.min l0 l1 <= c /\
    (forall count s', descended cyc org lo s1 (Z.to_nat p0) (Z.to_nat p1) t1 (split data L A count t1) s' ->
       descended cyc org lo s (Z.to_nat ptr0) (Z.to_nat ptr1) (Nd a l r)
         (split data L A (S count) (Nd a l r)) s').
Proof.
  intros c W Hc. pose proof W as [Hap Ho Hl0 Hl1 H0 H1 Hp0 Hp1].
  pose proof lo_bound as [Hlo _]. pose proof (rd_cyc R) as Hcyc. fold cyc in Hcyc.
  pose proof (rd_L R) as HL.
  pose proof (ap_len _ _ _ _ _ _ _ _ _ Hap) as Hlen.
  pose proof (ap_holds _ _ _ _ _ _ _ _ _ Hap) as (Ha & Hla & (vl & El & Hl) & (vr & Er & Hr)).
  pose proof (ap_live _ _ _ _ _ _ _ _ _ Hap a ltac:(by left)) as Halive.
  destruct (slot_index a) as (Z0 & Zu & Z1 & Zb).
  destruct (common_spec data (Z.to_nat L) a A) as (Hcb & Hca & Hcd). fold c in Hcb, Hca, Hcd.
  specialize (Hcd ltac:(lia)). cbn in Ho. destruct Ho as (Hol & Hor & Hoo).
  replace (bufOffset iw + v) with (bufOffset iw + (a - org)) by lia.
  unfold descend. rewrite live_index, cur_index by lia. cbn [mbind outcome_bind].
  assert (Ecmp : cmp data L a A = if byteAt data (a + c) <? byteAt data (A + c) then Lt else Gt).
  { unfold cmp. fold c. destruct (Z.eqb_spec c L); [done|]. done. }
  destruct (Z.ltb_spec (byteAt data (a + c)) (byteAt data (A + c))) as [Hlt|Hge];
    rewrite store_links by done; cbn [mbind outcome_bind].
  - destruct (apart_right cyc ltac:(lia) org lo A s _ _ v a l r vr Hlo Hap Er Hr) as [Hap1 E1].
    rewrite Zu, (index_ret _ _ vr) by (by rewrite Z1). cbn [mbind outcome_bind].
    do 6 eexists; exists r. split; [done|]. split; [|split; [lia|]].
    + constructor; try done; try lia; try apply Hoo.
      * intros x Hx. apply H0. right. apply elem_of_app. by right.
      * intros x Hx. eapply le_upto_agree_l; [apply agree_sym, Hca|].
        eapply le_upto_less; [|by apply Hor]. lia.
    + intros count s'. rewrite Z1. cbn [split]. rewrite Ecmp. intros D.
      pose proof (descended_right cyc ltac:(lia) org lo A s _ _ v a l r vl _ s' Hlo Hap El Hl Ha D) as D'.
      by destruct (split data L A count r).
  - destruct (apart_left cyc ltac:(lia) org lo A s _ _ v a l r vl Hlo Hap El Hl) as [Hap1 E1].
    rewrite (index_ret _ _ vl) by (by rewrite Z0). cbn [mbind outcome_bind].
    do 6 eexists; exists l. split; [done|]. split; [|split; [lia|]].
    + constructor; try done; try lia; try apply Hoo.
      * intros x Hx. eapply le_upto_agree_r; [|exact Hca].
        eapply le_upto_less; [|by apply Hol]. lia.
      * intros x Hx. apply H1. right. apply elem_of_app. by left.
    + intros count s'. rewrite Z0. cbn [split]. rewrite Ecmp. intros D.
      pose proof (descended_left cyc ltac:(lia) org lo A s _ _ v a l r vr _ s' Hlo Hap Er Hr Ha D) as D'.
      by destruct (split data L A count l).
Qed.

(** A link that is not after matchMinPos is an empty one. *)
Lemma link_dead s v t : holds cyc org lo s v t ->
  (v <=? lo - org) = match t with Lf => true | _ => false end.
Proof.
  destruct t as [|a l r]; cbn [holds]; intros H; destruct (Z.leb_spec v (lo - org)); try done; lia.
Qed.

Lemma cmp_common a : cmp data L a A = Eq <-> common data (Z.to_nat L) a A = L.
Proof.
  unfold cmp. destruct (Z.eqb_spec (common data (Z.to_nat L) a A) L); [done|].
  split; [by destruct (_ <? _)|done].
Qed.

(** What a turn of the loops computes at the place [a]. *)
Lemma walk_node s ptr0 ptr1 len0 len1 v a l r : walk s ptr0 ptr1 len0 len1 v (Nd a l r) ->
  let c := common data (Z.to_nat L) a A in
  (v <=? lo - org) = false /\ lo < a < A /\ u32 (iw_pos iw - v) = A - a /\
  cyclic_pos bt (u32 (iw_pos iw - v)) = 2 * (a mod cyc) /\
  match_length (iw_buf iw) (u32 (bufOffset iw + v)) (u32 (bufOffset iw + iw_pos iw)) L len0 len1
  = Ret (c, Z.min len0 len1 <? c) /\ (c = L -> Z.min len0 len1 < c) /\ 0 <= c <= L /\
  agree data c a A.
Proof.
  intros W c. pose proof (ap_holds _ _ _ _ _ _ _ _ _ (wk_apart _ _ _ _ _ _ _ W)) as Hh.
  pose proof (ap_live _ _ _ _ _ _ _ _ _ (wk_apart _ _ _ _ _ _ _ W) a ltac:(by left)) as Hlive.
  pose proof (wk_len0 _ _ _ _ _ _ _ W). pose proof (wk_len1 _ _ _ _ _ _ _ W).
  pose proof lo_bound. pose proof (rd_cyc R) as Hcyc. fold cyc in Hcyc.
  destruct (common_spec data (Z.to_nat L) a A) as (Hc & Hag & _). fold c in Hc, Hag.
  split; [by rewrite (link_dead s v _ Hh)|]. split; [done|].
  assert (E : v = a - org) by (cbn in Hh; lia). rewrite E.
  split; [rewrite wrap_id; unfold A in *; lia|]. split; [by apply cyclic_pos_spec|].
  split; [|split; [lia|split; [lia|done]]].
  apply match_length_spec; [done|lia|]. eapply walk_agree; [exact W|by left].
Qed.

(** skip leaves the two halves of the tree. *)
Lemma skip_loop_spec count : forall s ptr0 ptr1 len0 len1 v t,
  walk s ptr0 ptr1 len0 len1 v t ->
  exists s', skip_loop count bt (u32 (bufOffset iw + iw_pos iw)) L (lo - org) s ptr0 ptr1 len0 len1 v
             = Ret s' /\
    descended cyc org lo s (Z.to_nat ptr0) (Z.to_nat ptr1) t (split data L A count t) s'.
Proof.
  induction count as [|count IH]; intros s ptr0 ptr1 len0 len1 v t W; cbn [skip_loop].
  { destruct (close_links_spec s ptr0 ptr1 len0 len1 v t W) as (s' & -> & D). by destruct t; eauto. }
  destruct t as [|a l r].
  { rewrite (link_dead s v Lf) by apply W.
    destruct (close_links_spec s ptr0 ptr1 len0 len1 v Lf W) as (s' & -> & D). eauto. }
  destruct (walk_node s ptr0 ptr1 len0 len1 v a l r W) as (-> & _ & _ & Ecp & Eml & Hm & _ & _).
  fold iw. rewrite Ecp, Eml. cbn [mbind outcome_bind].
  destruct (Z.eqb_spec (common data (Z.to_nat L) a A) L) as [Hc|Hc].
  - destruct (take_links_spec s ptr0 ptr1 len0 len1 v a l r W) as (s' & E & D).
    rewrite (proj2 (Z.ltb_lt _ _) (Hm Hc)). cbn [andb]. exists s'. split; [done|].
    cbn [split]. by rewrite (proj2 (cmp_common a) Hc).
  - rewrite andb_false_r.
    destruct (descend_spec s ptr0 ptr1 len0 len1 v a l r W Hc)
      as (s1 & p0 & p1 & l0 & l1 & v1 & t1 & E & W1 & _ & D).
    rewrite E. cbn [mbind outcome_bind].
    destruct (IH s1 p0 p1 l0 l1 v1 t1 W1) as (s' & E1 & D1). exists s'. split; [exact E1|]. by apply D.
Qed.

(** ** The matches found *)

(** A pair is a match of the current place: as many bytes as its length says agree, no
    more than wanted, with a place the dictionary reaches. *)
Definition is_match (p : Z * Z) : Prop :=
  2 <= p.1 <= L /\ 0 <= p.2 /\ lo < A - p.2 - 1 /\ agree data p.1 (A - p.2 - 1) A.

Definition found (cap : nat) (ds : list Z * Z) (ps : list (Z * Z)) : Prop :=
  stored cap ds ps /\ rising 1 ps /\ Forall is_match ps.

Lemma found_push cap ds ps l d : found cap ds ps -> (546 <= cap)%nat -> Z.of_nat cap < 2 ^ 31 ->
  top 1 ps < l -> is_match (l, d) ->
  exists ds', push_match l d ds = Ret ds' /\ found cap ds' (ps ++ [(l, d)]).
Proof.
  intros (Hs & Hr & Hm) Hcap Hmax Htop Hl. pose proof (rising_length _ _ Hr).
  pose proof (rd_L R). assert (l <= L) by apply Hl.
  destruct (push_match_spec cap ds ps l d Hs) as (ds' & E & Hs'); [lia|done|].
  exists ds'. split; [done|]. split; [done|]. split; [by apply rising_snoc|].
  apply Forall_app. split; [done|by apply Forall_singleton].
Qed.

(** When the next match has to be told: its length beats the pairs already there, or it
    is the first place, known to beat them. *)
Definition next_match (count : nat) (len0 len1 maxLen : Z) (t : tree) (ps : list (Z * Z)) : Prop :=
  (top 1 ps <= maxLen /\ Z.min len0 len1 <= maxLen) \/ t = Lf \/
  (exists a l r, t = Nd a l r /\ (0 < count)%nat /\
     let c := common data (Z.to_nat L) a A in top 1 ps < c /\ maxLen < c /\ Z.min len0 len1 < c).

(** A turn's report: afterwards nothing of the tree is known to beat the pairs. *)
Lemma report_step cap ds ps a m maxLen : (546 <= cap)%nat -> Z.of_nat cap < 2 ^ 31 ->
  let c := common data (Z.to_nat L) a A in
  found cap ds ps -> lo < a < A -> maxLen < L -> (c = L -> m < c) ->
  (top 1 ps <= maxLen /\ m <= maxLen) \/ (top 1 ps < c /\ maxLen < c /\ m < c) ->
  let longer := (m <? c) && (maxLen <? c) in
  exists ds' ps',
    (if longer then push_match c (u32 (A - a - 1)) ds else Ret ds) = Ret ds' /\ found cap ds' ps' /\
    top 1 ps' <= (if longer then c else maxLen) /\ c <= (if longer then c else maxLen) /\
    longer && (c =? L) = (c =? L) /\ (c <> L -> (if longer then c else maxLen) < L).
Proof.
  intros Hcap Hmax c F Ha HmL Hm Hcase longer.
  destruct (common_spec data (Z.to_nat L) a A) as (Hc & Hag & _). fold c in Hc, Hag.
  pose proof (rising_length 1 ps (proj1 (proj2 F))). pose proof (rd_L R).
  pose proof (rd_cyc R) as Hcyc. pose proof lo_bound. unfold longer.
  destruct (Z.ltb_spec m c) as [Hmc|Hmc]; cbn [andb].
  2:{ exists ds, ps. destruct (Z.eqb_spec c L); [lia|]. repeat split; try done; try apply F; lia. }
  destruct (Z.ltb_spec maxLen c) as [Hxc|Hxc].
  2:{ exists ds, ps. destruct (Z.eqb_spec c L); [lia|]. repeat split; try done; try apply F; lia. }
  destruct (found_push cap ds ps c (A - a - 1) F Hcap Hmax) as (ds' & E & F').
  - lia.
  - split; cbn [fst snd]; [lia|]. split; [lia|]. replace (A - (A - a - 1) - 1) with a by lia.
    split; [lia|done].
  - rewrite wrap_id by (fold cyc in Hcyc; lia). exists ds', (ps ++ [(c, A - a - 1)]).
    rewrite top_snoc. repeat split; try done; try apply F'; lia.
Qed.

(** getMatches leaves the two halves of the tree and reports matches only. *)
Lemma getMatches_loop_spec cap count : (546 <= cap)%nat -> Z.of_nat cap < 2 ^ 31 ->
  forall s ptr0 ptr1 len0 len1 v t maxLen ds ps,
  walk s ptr0 ptr1 len0 len1 v t -> found cap ds ps -> maxLen < L ->
  next_match count len0 len1 maxLen t ps ->
  exists s' ds' ps',
    getMatches_loop count bt (u32 (bufOffset iw + iw_pos iw)) L (lo - org) s ptr0 ptr1 len0 len1 v
      maxLen ds = Ret (s', ds') /\
    descended cyc org lo s (Z.to_nat ptr0) (Z.to_nat ptr1) t (split data L A count t) s' /\
    found cap ds' ps'.
Proof.
  intros Hcap Hmax.
  induction count as [|count IH]; intros s ptr0 ptr1 len0 len1 v t maxLen ds ps W F HmL Hnext;
    cbn [getMatches_loop].
  { destruct (close_links_spec s ptr0 ptr1 len0 len1 v t W) as (s' & -> & D).
    cbn [mbind outcome_bind]. exists s', ds, ps. by destruct t. }
  destruct t as [|a l r].
  { rewrite (link_dead s v Lf) by apply W.
    destruct (close_links_spec s ptr0 ptr1 len0 len1 v Lf W) as (s' & -> & D).
    exists s', ds, ps. done. }
  destruct (walk_node s ptr0 ptr1 len0 len1 v a l r W) as (-> & Hlive & Ed & Ecp & Eml & Hm & Hcb & Hag).
  fold iw. rewrite Ecp, Eml, Ed. cbn [mbind outcome_bind].
  assert (Hcase : let c := common data (Z.to_nat L) a A in
    (top 1 ps <= maxLen /\ Z.min len0 len1 <= maxLen) \/
    (top 1 ps < c /\ maxLen < c /\ Z.min len0 len1 < c)).
  { destruct Hnext as [?|[?|(a' & l' & r' & [= <- <- <-] & _ & Hn)]]; [by left|done|by right]. }
  destruct (report_step cap ds ps a (Z.min len0 len1) maxLen Hcap Hmax F Hlive HmL Hm Hcase)
    as (ds1 & ps1 & E1 & F1 & T1 & T2 & Estop & Hlt).
  rewrite E1. cbn [mbind outcome_bind]. rewrite Estop.
  destruct (Z.eqb_spec (common data (Z.to_nat L) a A) L) as [Hc|Hc].
  - destruct (take_links_spec s ptr0 ptr1 len0 len1 v a l r W) as (s' & -> & D).
    cbn [mbind outcome_bind]. exists s', ds1, ps1. split; [done|]. split; [|done].
    cbn [split]. by rewrite (proj2 (cmp_common a) Hc).
  - destruct (descend_spec s ptr0 ptr1 len0 len1 v a l r W Hc)
      as (s1 & p0 & p1 & l0 & l1 & v1 & t1 & E & W1 & Hmin & D).
    rewrite E. cbn [mbind outcome_bind].
    destruct (IH s1 p0 p1 l0 l1 v1 t1 _ ds1 ps1 W1 F1 (Hlt Hc)) as (s' & ds' & ps' & E2 & D2 & F2).
    { left. lia. }
    exists s', ds', ps'. split; [exact E2|]. split; [by apply D|done].
Qed.
End descent.
