(* ===== verification/LzmaFinder.v ===== *)
(** The match finder of lzma2/lz_bin_tree.go as a whole: its invariant, and what its
    operations newLzBinTree, getMatches, skip and movePos do.

    [finder_inv data org off bt] says that the finder stands at the place
    [org + pos] of the input [data]: the window shows the data, every entry of the small
    hash tables is a place with these bytes or out of the dictionary, and every bucket of
    the main table leads to an ordered tree of places with the bucket's hash. *)

From Stdlib Require Import ZArith Lia.
From stdpp Require Import base numbers option list.
From S2P Require Import Prelude RangeCoder LzmaWindow LzmaInWindow LzmaBinTree LzmaTrees LzmaBinTreeOk.
#[local] Open Scope Z_scope.

(** ** The hashes of the places *)

Section keys.
Context (data : list Z) (array : bool) (mask : Z).

Definition crcAt (a : Z) : Z := nth (Z.to_nat (byteAt data a)) crcTable 0.

Definition hash2_at (a : Z) : Z := Z.land (Z.lxor (crcAt a) (byteAt data (a + 1))) (kHash2Size - 1).
Definition hash3_at (a : Z) : Z :=
  Z.land (Z.lxor (Z.lxor (crcAt a) (byteAt data (a + 1))) (u32 (Z.shiftl (byteAt data (a + 2)) 8)))
         (kHash3Size - 1).
Definition hash_at (a : Z) : Z :=
  if array then
    Z.land (Z.lxor (Z.lxor (Z.lxor (crcAt a) (byteAt data (a + 1))) (u32 (Z.shiftl (byteAt data (a + 2)) 8)))
                   (u32 (Z.shiftl (crcAt (a + 3)) 5))) mask
  else Z.lxor (byteAt data a) (u32 (Z.shiftl (byteAt data (a + 1)) 8)).

Definition fixSize : Z := if array then kHash2Size + kHash3Size else 0.

(** The place [a] belongs to the entry [k] of the tables. *)
Definition keyed (k a : Z) : Prop :=
  if k <? fixSize then
    if k <? kHash2Size then hash2_at a = k else hash3_at a = k - kHash3Offset
  else hash_at a = k - fixSize.

Lemma land_low x y n : 0 <= n -> 0 <= x < 2 ^ n -> 0 <= y < 2 ^ n ->
  Z.land x (2 ^ n - 1) = Z.land y (2 ^ n - 1) -> x = y.
Proof.
  intros Hn Hx Hy. replace (2 ^ n - 1) with (Z.ones n) by (rewrite Z.ones_equiv; lia).
  rewrite !Z.land_ones by done. by rewrite !Z.mod_small.
Qed.

(** Adding the same word with exclusive or does not hide a difference of the low bits. *)
Lemma lxor_land_inj c x y m : Z.land (Z.lxor c x) m = Z.land (Z.lxor c y) m -> Z.land x m = Z.land y m.
Proof.
  intros H. apply Z.bits_inj'. intros i Hi. apply (f_equal (fun z => Z.testbit z i)) in H.
  rewrite !Z.land_spec, !Z.lxor_spec in *. destruct (Z.testbit c i), (Z.testbit x i), (Z.testbit y i), (Z.testbit m i); done.
Qed.

Context (Hdata : bytes_ok data).

Lemma byteAt_range a : 0 <= byteAt data a < 256.
Proof.
  unfold byteAt. destruct (decide (Z.to_nat a < length data)%nat) as [H|H].
  - apply lookup_lt_is_Some_2 in H as [b Hb]. rewrite (nth_lookup_Some _ _ _ _ Hb).
    by apply (Forall_lookup_1 _ _ _ _ Hdata Hb).
  - rewrite nth_overflow by lia. lia.
Qed.

Lemma crcAt_eq a b : byteAt data a = byteAt data b -> crcAt a = crcAt b.
Proof. unfold crcAt. by intros ->. Qed.

(** Places with the same hash of two bytes and the same first byte share the second. *)
Lemma hash2_agree a b : hash2_at a = hash2_at b -> byteAt data a = byteAt data b -> agree data 2 a b.
Proof.
  unfold hash2_at. intros H E. rewrite (crcAt_eq a b E) in H. apply lxor_land_inj in H.
  pose proof (byteAt_range (a + 1)). pose proof (byteAt_range (b + 1)).
  apply (land_low _ _ 10) in H; [|lia|lia|lia].
  intros i Hi. assert (i = 0 \/ i = 1) as [->| ->] by lia; [by rewrite !Z.add_0_r|done].
Qed.

Lemma byte_pair x y : 0 <= x < 256 -> 0 <= y < 256 -> Z.lxor x (u32 (Z.shiftl y 8)) = x + 256 * y.
Proof.
  intros Hx Hy. rewrite wrap_id by (rewrite Z.shiftl_mul_pow2; lia).
  rewrite <- Z.add_nocarry_lxor, Z.shiftl_mul_pow2 by (lia || (rewrite Z.land_comm; by apply land_shiftl_low)).
  lia.
Qed.

Lemma byte_pair_inj x y x' y' : 0 <= x < 256 -> 0 <= y < 256 -> 0 <= x' < 256 -> 0 <= y' < 256 ->
  Z.lxor x (u32 (Z.shiftl y 8)) = Z.lxor x' (u32 (Z.shiftl y' 8)) -> x = x' /\ y = y'.
Proof. intros. rewrite !byte_pair in * by done. lia. Qed.

(** Places with the same hash of three bytes and the same first byte share all three. *)
Lemma hash3_agree a b : hash3_at a = hash3_at b -> byteAt data a = byteAt data b -> agree data 3 a b.
Proof.
  unfold hash3_at. intros H E. rewrite (crcAt_eq a b E), !Z.lxor_assoc in H.
  apply lxor_land_inj in H.
  pose proof (byteAt_range (a + 1)). pose proof (byteAt_range (b + 1)).
  pose proof (byteAt_range (a + 2)). pose proof (byteAt_range (b + 2)).
  rewrite !byte_pair in H by done. apply (land_low _ _ 16) in H; [|lia|lia|lia].
  intros i Hi. assert (i = 0 \/ i = 1 \/ i = 2) as [->|[->| ->]] by lia; [by rewrite !Z.add_0_r|lia|lia].
Qed.

(** Without the small tables the hash is the first two bytes. *)
Lemma hash_agree a b : array = false -> hash_at a = hash_at b -> agree data 2 a b.
Proof.
  unfold hash_at. intros ->. intros H.
  apply byte_pair_inj in H as [H0 H1]; try apply byteAt_range.
  intros i Hi. assert (i = 0 \/ i = 1) as [->| ->] by lia; [by rewrite !Z.add_0_r|done].
Qed.

End keys.

(** normalizeLinks over the whole of an array. *)
Lemma normalizeLinks_spec sub done items :
  Z.of_nat (length (done ++ items)) < 2 ^ 31 ->
  normalizeLinks (length items) (Z.of_nat (length done)) sub (done ++ items)
  = Ret (done ++ map (reduced sub) items).
Proof.
  revert done. induction items as [|x items IH]; intros done Hl; cbn [normalizeLinks length].
  { done. }
  rewrite length_app in Hl. cbn [length] in Hl.
  rewrite (index_ret _ _ x) by (rewrite Nat2Z.id; by apply list_lookup_middle).
  cbn [mbind outcome_bind]. rewrite store_ret by (rewrite length_app; cbn; lia).
  cbn [mbind outcome_bind]. rewrite Nat2Z.id, insert_app_r_alt, Nat.sub_diag by lia. cbn [insert list_insert].
  change (if x <=? sub then _ else _) with (reduced sub x).
  specialize (IH (done ++ [reduced sub x])). rewrite <- !app_assoc, !length_app in IH. cbn [app length] in IH.
  rewrite wrap_id by lia. replace (Z.of_nat (length done) + 1) with (Z.of_nat (length done + 1)) by lia.
  rewrite IH by (cbn; lia). done.
Qed.

Lemma land_bound x m : 0 <= m -> 0 <= Z.land x m <= m.
Proof.
  intros Hm. assert (E : Z.land x m + Z.ldiff m x = m).
  { rewrite Z.add_nocarry_lxor; apply Z.bits_inj'; intros i Hi.
    - rewrite Z.lxor_spec, Z.ldiff_spec, Z.land_spec. by destruct (Z.testbit x i), (Z.testbit m i).
    - rewrite Z.land_spec, Z.ldiff_spec, Z.land_spec, Z.bits_0. by destruct (Z.testbit x i), (Z.testbit m i). }
  assert (0 <= Z.land x m) by (apply Z.land_nonneg; by right).
  assert (0 <= Z.ldiff m x) by (apply Z.ldiff_nonneg; by left). lia.
Qed.

(** ** The invariant *)

Section finder.
Context (bad : lzma_error -> Prop) (data : list Z) (Hdata : bytes_ok data).
Context (hs mml mask : Z) (array : bool).
Context (Hhs : 4096 <= hs <= 2 ^ 29) (Hmml : 5 <= mml <= 273) (Hmask : 0 <= mask < 2 ^ 30).
Let cyc := hs + 1.
Let N := Z.of_nat (length data).

Definition direct_bytes : Z := if array then 0 else 2.
Definition min_check : Z := if array then 4 else 3.
Definition hash_size : Z := if array then mask + 1 + fixSize array else kBT2HashSize.

(** What the constructor fixes. *)
Record static (bt : lzBinTree) : Prop := {
  st_cyc : cyclicBufSize bt = cyc;
  st_mml : matchMaxLen bt = mml;
  st_cut : 0 < cutValue bt < 2 ^ 31;
  st_mask : hashMask bt = mask;
  st_sum : hashSizeSum bt = hash_size;
  st_direct : kvNumHashDirectBytes bt = direct_bytes;
  st_check : kvMinMatchCheck bt = min_check;
  st_fix : kvFixHashSize bt = fixSize array;
  st_array : hashArray bt = array;
  st_son : Z.of_nat (length (son bt)) = 2 * cyc;
  st_hash : Z.of_nat (length (bt_hash bt)) = hash_size;
  st_before : cyc + 4095 <= keepSizeBefore (bt_iw bt);
  st_after : mml + 273 <= keepSizeAfter (bt_iw bt)
}.

(** An entry of the small tables, between the oldest place [lo] and the next one [hi]. *)
Definition small_entry (org lo hi k v : Z) : Prop :=
  0 <= v /\ (org + v <= lo \/ (org + v < hi /\ keyed data array mask k (org + v))).

(** A bucket of the main table, its tree ordered by [L] bytes. *)
Definition bucket (org lo hi L : Z) (s : list Z) (k v : Z) : Prop :=
  exists t, holds cyc org lo s v t /\ ordered data L t /\ NoDup (nodes t) /\
    (forall a, a ∈ nodes t -> a < hi /\ keyed data array mask k a).

Definition entries (org lo hi L : Z) (s hash : list Z) : Prop :=
  forall k v, hash !! k = Some v ->
    if Z.of_nat k <? fixSize array then small_entry org lo hi (Z.of_nat k) v
    else bucket org lo hi L s (Z.of_nat k) v.

(** How many bytes a match at the place [A] may have. *)
Definition lenlim (A : Z) : Z := Z.min mml (N - A).

Record finder_inv (org off : Z) (bt : lzBinTree) : Prop := {
  fi_static : static bt;
  fi_iw : iw_rel bad data org off (bt_iw bt);
  fi_pos : 1 <= iw_pos (bt_iw bt) <= 2 ^ 30 - 2;
  fi_org : -1 <= org <= oldest cyc (org + iw_pos (bt_iw bt));
  fi_cbp : cyclicBufPos bt = (org + iw_pos (bt_iw bt)) mod cyc;
  fi_entries : entries org (oldest cyc (org + iw_pos (bt_iw bt))) (org + iw_pos (bt_iw bt))
                 (lenlim (org + iw_pos (bt_iw bt))) (son bt) (bt_hash bt)
}.

Lemma entries_weaken org lo hi L lo' hi' L' s hash :
  org <= lo <= lo' -> hi <= hi' -> L' <= L ->
  entries org lo hi L s hash -> entries org lo' hi' L' s hash.
Proof.
  intros Hlo Hhi HL H k v Hk. specialize (H k v Hk). destruct (Z.of_nat k <? fixSize array).
  - destruct H as [Hv [H|[H H2]]]; split; [done|left; lia|done|right; split; [lia|done]].
  - destruct H as (t & H1 & H2 & H3 & H4). exists (prune lo' t).
    split; [by eapply holds_prune|]. split; [by apply ordered_prune; eapply ordered_less|].
    split; [eapply sublist_NoDup; [done|apply prune_sublist]|].
    intros a Ha. destruct (H4 a) as [Hah Hak]; [|split; [lia|done]].
    eapply elem_of_submseteq; [exact Ha|]. apply sublist_submseteq, prune_sublist.
Qed.

Lemma entries_normalize org lo hi L s hash sub :
  0 <= sub -> org + sub <= lo -> hi - org < 2 ^ 32 -> lo < hi ->
  entries org lo hi L s hash ->
  entries (org + sub) lo hi L (map (reduced sub) s) (map (reduced sub) hash).
Proof.
  intros Hsub Hlo Hhi Hlh H k v' Hk. apply list_lookup_fmap_Some in Hk as (v & -> & Hk).
  specialize (H k v Hk). destruct (Z.of_nat k <? fixSize array).
  - unfold reduced, kEmptyHashValue. destruct H as [Hv H]. destruct (Z.leb_spec v sub).
    + split; [lia|]. left. lia.
    + destruct H as [H|[H H2]].
      * rewrite wrap_id by lia. split; [lia|]. left. lia.
      * rewrite wrap_id by lia. split; [lia|]. right.
        replace (org + sub + (v - sub)) with (org + v) by lia. done.
  - destruct H as (t & H1 & H2 & H3 & H4). exists t.
    split; [|done]. apply holds_normalize; try done; [lia|]. intros a Ha. destruct (H4 a Ha). lia.
Qed.

(** ** The parts of getMatches and skip *)

Lemma length_limit_spec org off bt : finder_inv org off bt ->
  let A := org + iw_pos (bt_iw bt) in
  (length_limit bt = if lenlim A <? min_check then None else Some (lenlim A)) /\
  iw_pos (bt_iw bt) + lenlim A <= iw_streamPos (bt_iw bt).
Proof.
  intros H A. destruct H as [St Hiw Hpos Horg Hcbp _].
  pose proof (ahead_spec _ _ _ _ _ Hiw) as [Hf Ht]. pose proof (proj1 Hiw) as C.
  pose proof (ir_ahead _ _ _ _ _ C). pose proof (ir_read _ _ _ _ _ C). pose proof (ir_fit _ _ _ _ _ C).
  pose proof (ir_block _ _ _ _ _ C). pose proof (st_after _ St).
  unfold length_limit. rewrite (st_mml _ St), (st_check _ St).
  rewrite (wrap_id 32 (_ + mml)), (wrap_id 32 (_ - _)) by lia.
  assert (min_check <= 4) by (unfold min_check; destruct array; lia).
  assert (E : lenlim A = Z.min mml (iw_streamPos (bt_iw bt) - iw_pos (bt_iw bt))).
  { unfold lenlim, A, N in *. destruct (streamEnd (bt_iw bt)).
    - specialize (Ht eq_refl). lia.
    - specialize (Hf eq_refl). lia. }
  rewrite E. split; [|lia].
  destruct (Z.leb_spec (iw_pos (bt_iw bt) + mml) (iw_streamPos (bt_iw bt))).
  - rewrite Z.min_l by lia. by destruct (Z.ltb_spec mml min_check); [lia|].
  - rewrite Z.min_r by lia. done.
Qed.

Lemma ready_of org off bt : finder_inv org off bt ->
  min_check <= lenlim (org + iw_pos (bt_iw bt)) ->
  ready bad data bt org off (lenlim (org + iw_pos (bt_iw bt))).
Proof.
  intros H Hlim. pose proof (length_limit_spec _ _ _ H) as [_ Hah]. destruct H as [St Hiw Hpos Horg Hcbp _].
  assert (3 <= min_check) by (unfold min_check; destruct array; lia).
  constructor; rewrite ?(st_cyc _ St).
  - apply Hiw.
  - unfold cyc. lia.
  - done.
  - done.
  - pose proof (st_before _ St). lia.
  - split; [lia|]. unfold lenlim. lia.
  - done.
  - apply St.
Qed.

Lemma match_min_pos_spec org off bt : finder_inv org off bt ->
  match_min_pos bt = oldest cyc (org + iw_pos (bt_iw bt)) - org.
Proof.
  intros [St Hiw Hpos Horg _ _]. unfold match_min_pos. rewrite (st_cyc _ St).
  unfold oldest, cyc in *. destruct (Z.ltb_spec (hs + 1) (iw_pos (bt_iw bt))); [rewrite wrap_id|]; lia.
Qed.

(** Every byte has its entry in the table of the CRC. *)
Lemma crc_index a : index crcTable (byteAt data a) = Ret (crcAt data a).
Proof.
  pose proof (byteAt_range data Hdata a) as Hb. unfold crcAt.
  destruct (index_some crcTable (byteAt data a)) as [c Hc].
  { unfold crcTable. rewrite length_map, length_seq. lia. }
  rewrite (index_ret _ _ c Hc). by rewrite (nth_lookup_Some _ _ _ _ Hc).
Qed.

Lemma hash_values_spec org off bt : finder_inv org off bt ->
  let A := org + iw_pos (bt_iw bt) in
  min_check <= lenlim A ->
  hash_values bt (u32 (bufOffset (bt_iw bt) + iw_pos (bt_iw bt)))
  = Ret (if array then hash2_at data A else 0, if array then hash3_at data A else 0,
         hash_at data array mask A).
Proof.
  intros H A Hlim. pose proof (ready_of _ _ _ H Hlim) as R. fold A in R.
  pose proof (fun i => cur_index bad data bt org off (lenlim A) R i) as Hi. fold A in Hi.
  pose proof (fi_static _ _ _ H) as St.
  assert (H0 := Hi 0 ltac:(pose proof (rd_L _ _ _ _ _ _ R); lia)).
  rewrite Z.add_0_r, wrap_wrap in H0. rewrite Z.add_0_r in H0.
  unfold hash_values, hash_at, hash2_at, hash3_at. rewrite (st_array _ St), (st_mask _ St).
  unfold min_check in Hlim. destruct array eqn:Ea.
  - rewrite H0. cbn [mbind outcome_bind]. rewrite crc_index. cbn [mbind outcome_bind].
    rewrite (Hi 1), (Hi 2), (Hi 3) by lia. cbn [mbind outcome_bind]. by rewrite crc_index.
  - rewrite H0. cbn [mbind outcome_bind]. by rewrite (Hi 1) by lia.
Qed.

Lemma hash_at_range a : 0 <= hash_at data array mask a /\ fixSize array + hash_at data array mask a < hash_size.
Proof.
  unfold hash_at, hash_size, fixSize. destruct array.
  - pose proof (land_bound (Z.lxor (Z.lxor (Z.lxor (crcAt data a) (byteAt data (a + 1)))
      (u32 (Z.shiftl (byteAt data (a + 2)) 8))) (u32 (Z.shiftl (crcAt data (a + 3)) 5))) mask). lia.
  - rewrite byte_pair by (apply byteAt_range; done).
    pose proof (byteAt_range data Hdata a). pose proof (byteAt_range data Hdata (a + 1)).
    change kBT2HashSize with 65536. lia.
Qed.

Lemma small_hash_range a : 0 <= hash2_at data a < kHash2Size /\ 0 <= hash3_at data a < kHash3Size.
Proof.
  unfold hash2_at, hash3_at.
  split; match goal with |- 0 <= Z.land ?x ?m < _ => pose proof (land_bound x m ltac:(done)) end; lia.
Qed.

(** ** Moving on *)

(** Between the insertion and movePos: the place [A] is in the tables. *)
Record inserted (org off : Z) (bt : lzBinTree) : Prop := {
  in_static : static bt;
  in_iw : iw_rel bad data org off (bt_iw bt);
  in_pos : 1 <= iw_pos (bt_iw bt) <= 2 ^ 30 - 2;
  in_org : -1 <= org <= oldest cyc (org + iw_pos (bt_iw bt));
  in_cbp : cyclicBufPos bt = (org + iw_pos (bt_iw bt)) mod cyc;
  in_entries : entries org (oldest cyc (org + iw_pos (bt_iw bt))) (org + iw_pos (bt_iw bt) + 1)
                 (lenlim (org + iw_pos (bt_iw bt))) (son bt) (bt_hash bt)
}.

Lemma finder_inserted org off bt : finder_inv org off bt -> inserted org off bt.
Proof.
  intros [St Hiw Hpos Horg Hcbp He]. constructor; try done.
  eapply entries_weaken; [| | |exact He]; lia.
Qed.

(** movePos at the position where the offsets are reduced. *)
Lemma normalize_spec org off bt : static bt -> iw_rel bad data org off (bt_iw bt) ->
  iw_pos (bt_iw bt) = kMaxValForNormalize -> -1 <= org <= oldest cyc (org + iw_pos (bt_iw bt)) ->
  cyclicBufPos bt = (org + iw_pos (bt_iw bt)) mod cyc ->
  entries org (oldest cyc (org + iw_pos (bt_iw bt))) (org + iw_pos (bt_iw bt))
    (lenlim (org + iw_pos (bt_iw bt))) (son bt) (bt_hash bt) ->
  exists bt' org' off', normalize bt = Ret bt' /\ finder_inv org' off' bt' /\
    org' + iw_pos (bt_iw bt') = org + iw_pos (bt_iw bt).
Proof.
  intros St Hiw Hpos Horg Hcbp He. change kMaxValForNormalize with (2 ^ 30 - 1) in Hpos.
  assert (Hc : cyc = hs + 1) by done.
  unfold normalize. rewrite (st_cyc _ St), (st_sum _ St).
  rewrite (wrap_id 32 (iw_pos _ - cyc)), (wrap_id 32 (cyc * 2)) by lia.
  set (sub := iw_pos (bt_iw bt) - cyc).
  assert (Hfix : fixSize array <= 66560) by (unfold fixSize; destruct array; zground).
  assert (Hsz : hash_size < 2 ^ 31) by (unfold hash_size; destruct array; [lia|done]).
  pose proof (normalizeLinks_spec sub [] (son bt)) as Es. cbn [app length] in Es. change (Z.of_nat 0) with 0 in Es.
  pose proof (normalizeLinks_spec sub [] (bt_hash bt)) as Eh. cbn [app length] in Eh. change (Z.of_nat 0) with 0 in Eh.
  replace (Z.to_nat (cyc * 2)) with (length (son bt)) by (pose proof (st_son _ St); lia).
  replace (Z.to_nat hash_size) with (length (bt_hash bt)) by (pose proof (st_hash _ St); lia).
  rewrite Es by (pose proof (st_son _ St); lia). cbn [mbind outcome_bind].
  rewrite Eh by (pose proof (st_hash _ St); lia). cbn [mbind outcome_bind].
  assert (Hsub : 0 <= sub <= 2 ^ 30) by (unfold sub; lia).
  pose proof (reduceOffsets_spec bad data org off (bt_iw bt) sub Hiw ltac:(unfold sub; lia) ltac:(unfold sub; lia)) as Hr.
  rewrite (wrap_id 32 sub) in Hr by lia.
  assert (Hp : iw_pos (reduceOffsets sub (bt_iw bt)) = iw_pos (bt_iw bt) - sub)
    by (cbn; apply wrap_id; unfold sub; lia).
  assert (HA : org + sub + (iw_pos (bt_iw bt) - sub) = org + iw_pos (bt_iw bt)) by lia.
  do 3 eexists. split; [done|]. split; [|cbn; cbn in Hp; rewrite Hp; exact HA].
  constructor; cbn [bt_iw son bt_hash cyclicBufPos bt_set]; rewrite ?Hp, ?HA; try done.
  - destruct St. constructor; cbn; rewrite ?length_map; done.
  - unfold sub. lia.
  - unfold sub, oldest in *. lia.
  - apply entries_normalize; try done; unfold sub, oldest in *; lia.
Qed.

Lemma bt_movePos_spec org off bt : inserted org off bt ->
  iw_pos (bt_iw bt) < iw_streamPos (bt_iw bt) ->
  yields bad (fun bt' => exists org' off', finder_inv org' off' bt' /\
                org' + iw_pos (bt_iw bt') = org + iw_pos (bt_iw bt) + 1) (bt_movePos bt).
Proof.
  intros [St Hiw Hpos Horg Hcbp He] Hlt. unfold bt_movePos. rewrite (st_cyc _ St).
  eapply yields_bind; [eapply iw_movePos_spec; [exact Hiw|done|lia]|].
  cbn beta. intros iw (off' & Hiw' & Hp & Hss1 & Hss2 & Hss3).
  set (p := if cyc <=? _ then _ else _). set (bt1 := bt_set iw _ _ p bt).
  assert (St1 : static bt1) by (destruct St; constructor; cbn; rewrite ?Hss1, ?Hss2; done).
  assert (HA : org + iw_pos iw = org + iw_pos (bt_iw bt) + 1) by lia.
  assert (Hcbp' : p = (org + iw_pos iw) mod cyc).
  { unfold p. rewrite Hcbp, HA. pose proof (Z.mod_pos_bound (org + iw_pos (bt_iw bt)) cyc ltac:(lia)).
    rewrite wrap_id by lia. rewrite (mod_succ _ cyc _ ltac:(lia) eq_refl).
    destruct (Z.leb_spec cyc ((org + iw_pos (bt_iw bt)) mod cyc + 1)), (Z.eqb_spec ((org + iw_pos (bt_iw bt)) mod cyc + 1) cyc); lia. }
  assert (He' : entries org (oldest cyc (org + iw_pos iw)) (org + iw_pos iw) (lenlim (org + iw_pos iw)) (son bt) (bt_hash bt)).
  { eapply entries_weaken; [| | |exact He]; rewrite HA; unfold lenlim, oldest in *; lia. }
  assert (Horg' : -1 <= org <= oldest cyc (org + iw_pos iw)) by (rewrite HA; unfold oldest in *; lia).
  destruct (Z.eqb_spec (iw_pos iw) kMaxValForNormalize) as [Hn|Hn].
  - destruct (normalize_spec org off' bt1 St1 Hiw' Hn Horg' Hcbp' He') as (bt' & org2 & off2 & -> & Hf & E).
    cbn. exists org2, off2. split; [done|]. cbn in E. lia.
  - cbn. exists org, off'. split; [|cbn; lia]. change kMaxValForNormalize with (2 ^ 30 - 1) in Hn.
    constructor; try done. cbn. lia.
Qed.

(** ** Inserting the current place *)

Section place.
Context (org off : Z) (bt : lzBinTree) (FI : finder_inv org off bt).
Let pos := iw_pos (bt_iw bt).
Let A := org + pos.
Let lo := oldest cyc A.
Let L := lenlim A.
Context (Hlim : min_check <= L).

(** The entry of the main table. *)
Definition kmain : nat := Z.to_nat (fixSize array + hash_at data array mask A).

Lemma place_ready : ready bad data bt org off L.
Proof. by apply ready_of. Qed.

Lemma place_lo : A - cyc <= lo /\ lo < A /\ org <= lo.
Proof.
  pose proof (lo_bound _ _ _ _ _ _ place_ready) as [H1 H2]. rewrite (st_cyc _ (fi_static _ _ _ FI)) in *.
  pose proof (fi_org _ _ _ FI). unfold lo, A, pos. lia.
Qed.

Lemma fixSize_pos : 0 <= fixSize array.
Proof. unfold fixSize. destruct array; zground. Qed.

Lemma kmain_bound : Z.of_nat kmain = fixSize array + hash_at data array mask A /\
  (kmain < length (bt_hash bt))%nat.
Proof.
  pose proof (hash_at_range A). pose proof fixSize_pos. pose proof (st_hash _ (fi_static _ _ _ FI)).
  unfold kmain. lia.
Qed.

Lemma kmain_main : (Z.of_nat kmain <? fixSize array) = false.
Proof. apply Z.ltb_ge. pose proof (hash_at_range A). pose proof kmain_bound. lia. Qed.

Lemma kmain_keyed a : keyed data array mask (Z.of_nat kmain) a <-> hash_at data array mask a = hash_at data array mask A.
Proof. unfold keyed. rewrite kmain_main, (proj1 kmain_bound). lia. Qed.

(** A table in which the entries of the current place are the position, the others what
    they were. *)
Definition marked (hash : list Z) : Prop :=
  length hash = length (bt_hash bt) /\ hash !! kmain = Some pos /\
  forall k v, hash !! k = Some v ->
    (v = pos /\ keyed data array mask (Z.of_nat k) A) \/ (k <> kmain /\ bt_hash bt !! k = Some v).

(** The small tables, marked; the main one as it was. *)
Definition small_marked (hash : list Z) : Prop :=
  length hash = length (bt_hash bt) /\ hash !! kmain = bt_hash bt !! kmain /\
  forall k v, hash !! k = Some v ->
    (v = pos /\ keyed data array mask (Z.of_nat k) A) \/ bt_hash bt !! k = Some v.

Lemma set_small_hashes_spec :
  exists hash, set_small_hashes bt (if array then hash2_at data A else 0)
                 (if array then hash3_at data A else 0) (bt_hash bt) = Ret hash /\ small_marked hash.
Proof.
  pose proof (small_hash_range A) as [H2 H3]. pose proof (st_hash _ (fi_static _ _ _ FI)) as Hl.
  pose proof kmain_main as Hkm. apply Z.ltb_ge in Hkm. pose proof kmain_bound as [Hkb _].
  unfold set_small_hashes. rewrite (st_array _ (fi_static _ _ _ FI)).
  unfold hash_size in *. destruct array eqn:Ea.
  2:{ exists (bt_hash bt). split; [done|]. split; [done|]. split; [done|]. by right. }
  change (fixSize true) with 66560 in *. change kHash2Size with 1024 in *.
  change kHash3Size with 65536 in *. change kHash3Offset with 1024.
  rewrite store_ret by lia.
  cbn [mbind outcome_bind]. rewrite (wrap_id 32) by lia.
  rewrite store_ret by (rewrite length_insert; lia).
  eexists. split; [done|]. split; [by rewrite !length_insert|]. split.
  { by rewrite !list_lookup_insert_ne by lia. }
  intros k v Hk. unfold keyed. rewrite Ea. change (fixSize true) with 66560.
  change kHash2Size with 1024. change kHash3Offset with 1024.
  destruct (decide (k = Z.to_nat (1024 + hash3_at data A))) as [->|Hk3].
  { left. apply list_lookup_insert_Some in Hk as [(_ & <- & _)|[? _]]; [|done]. split; [done|].
    zcases; lia. }
  rewrite list_lookup_insert_ne in Hk by done.
  destruct (decide (k = Z.to_nat (hash2_at data A))) as [->|Hk2].
  { left. apply list_lookup_insert_Some in Hk as [(_ & <- & _)|[? _]]; [|done]. split; [done|].
    zcases; lia. }
  rewrite list_lookup_insert_ne in Hk by done. by right.
Qed.

Lemma marked_main hash : small_marked hash -> marked (<[kmain := pos]> hash).
Proof.
  intros (Hl & _ & H). pose proof kmain_bound as [_ Hb]. split; [by rewrite length_insert|].
  split; [apply list_lookup_insert_eq; lia|]. intros k v Hk.
  apply list_lookup_insert_Some in Hk as [(<- & <- & _)|[Hne Hk]].
  - left. split; [done|]. by apply kmain_keyed.
  - destruct (H k v Hk) as [?|?]; [by left|right]. split; [|done]. by intros ->.
Qed.

(** The new tree of the bucket, and all others as they were. *)
Lemma insert_spec t s' hash' v count : bt_hash bt !! kmain = Some v ->
  holds cyc org lo (son bt) v t -> ordered data L t -> NoDup (nodes t) ->
  (forall a, a ∈ nodes t -> a < A /\ keyed data array mask (Z.of_nat kmain) a) ->
  descended cyc org lo (son bt) (slot1 cyc A) (slot0 cyc A) t (split data L A count t) s' ->
  marked hash' -> inserted org off (bt_set (bt_iw bt) s' hash' (cyclicBufPos bt) bt).
Proof.
  intros Hv Hh Ho Hnd Hk (Dl & (v1 & E1 & H1) & (v0 & E0 & H0) & Dsame) (Ml & Mm & Mk).
  pose proof place_lo as (Hlo1 & Hlo2 & Hlo3). assert (Hcyc : 0 < cyc) by (unfold cyc; lia).
  assert (HL : 0 <= L) by (unfold min_check in Hlim; destruct array; lia).
  destruct (split data L A count t) as [sm gr] eqn:Es. cbn [fst snd] in H1, H0.
  constructor; cbn [bt_iw son bt_hash cyclicBufPos bt_set]; try apply FI.
  { destruct (fi_static _ _ _ FI). constructor; cbn; rewrite ?Dl, ?Ml; done. }
  fold pos A lo L. pose proof (fi_entries _ _ _ FI) as He. fold pos A lo L in He.
  intros k w Hw. destruct (decide (k = kmain)) as [->|Hne].
  - rewrite kmain_main. assert (w = pos) as -> by congruence.
    pose proof (split_nodes _ _ _ _ _ _ _ Es) as Hsub.
    assert (Hnew : holds cyc org lo s' pos (Nd A sm gr)) by (cbn; eauto 10).
    exists (Nd A sm gr). split; [exact Hnew|].
    split; [by apply (insert_ordered data L A count t)|].
    assert (HA : A ∉ nodes t) by (intros Hin; destruct (Hk A Hin); lia).
    split.
    + cbn. constructor; [|by eapply submseteq_NoDup].
      intros Hin. by apply HA, (elem_of_submseteq _ _ _ Hin Hsub).
    + intros a Ha. cbn in Ha. apply elem_of_cons in Ha as [->|Ha]; [split; [lia|by apply kmain_keyed]|].
      destruct (Hk a (elem_of_submseteq _ _ _ Ha Hsub)). split; [lia|done].
  - destruct (Mk k w Hw) as [[-> Hkey]|[_ Hold]].
    + destruct (Z.of_nat k <? fixSize array) eqn:Ek.
      * split; [unfold pos; pose proof (fi_pos _ _ _ FI); lia|]. right. split; [fold A; lia|done].
      * exfalso. apply Hne. unfold keyed in Hkey. rewrite Ek in Hkey. pose proof kmain_bound. lia.
    + specialize (He k w Hold). destruct (Z.of_nat k <? fixSize array) eqn:Ek.
      * destruct He as [Hw0 [He|[He1 He2]]]; (split; [done|]); [by left|right; split; [lia|done]].
      * destruct He as (u & U1 & U2 & U3 & U4). exists u. split; [|repeat split; try done; destruct (U4 a H); [lia|done]].
        eapply holds_frame; [|exact U1]. intros x Hx. destruct (U4 x Hx) as [Ux Ukx].
        pose proof (holds_nodes cyc _ _ _ _ _ U1 x Hx) as Uxl.
        destruct (slots_ne cyc Hcyc x A) as (S1 & S2 & S3 & S4); [lia|lia|].
        assert (Hsep : forall y, y ∈ nodes t -> x <> y).
        { intros y Hy ->. destruct (Hk y Hy) as [_ Hky]. apply Hne. unfold keyed in Ukx, Hky.
          rewrite Ek in Ukx. rewrite kmain_main in Hky. lia. }
        split; apply Dsame; try done; intros y Hy; destruct (Hk y Hy) as [Hya _];
          pose proof (holds_nodes cyc _ _ _ _ _ Hh y Hy) as Hyl;
          destruct (slots_ne cyc Hcyc x y) as (T1 & T2 & T3 & T4); [by apply Hsep|lia|done|by apply Hsep|lia|done].
Qed.

(** ** The short matches *)

Lemma byte_index v : lo < org + v <= A ->
  index (iw_buf (bt_iw bt)) (u32 (bufOffset (bt_iw bt) + v)) = Ret (byteAt data (org + v)).
Proof.
  intros Hv. pose proof place_ready as R. pose proof (rd_L _ _ _ _ _ _ R).
  pose proof (live_index bad data bt org off L R (org + v) 0) as H0.
  rewrite (st_cyc _ (fi_static _ _ _ FI)) in H0. specialize (H0 Hv ltac:(lia)).
  replace (org + v - org) with v in H0 by lia. by rewrite !Z.add_0_r, wrap_wrap in H0.
Qed.

(** The pairs of the small tables, [m] bytes of the place [org + cm2] agreeing after the
    last of them. *)
Definition short_state (cap : nat) (ds : list Z * Z) (m cm2 : Z) (ps : list (Z * Z)) : Prop :=
  found data bt org L cap ds ps /\ top 1 ps = m /\ 1 <= m <= 3 /\
  (ps = [] \/ (lo < org + cm2 < A /\ agree data m (org + cm2) A)).

Lemma short_match m v : 2 <= m <= L -> lo < org + v < A -> agree data m (org + v) A ->
  is_match data bt org L (m, u32 (u32 (pos - v) - 1)).
Proof.
  intros Hm Hv Hag. pose proof place_lo as (Hlo1 & Hlo2 & Hlo3). pose proof (fi_pos _ _ _ FI : 1 <= pos <= 2 ^ 30 - 2).
  pose proof (fi_org _ _ _ FI : -1 <= org <= lo).
  assert (0 <= pos - v < 2 ^ 30) by (unfold A in *; lia).
  rewrite (wrap_id 32 (pos - v)), wrap_id by (unfold A in *; lia).
  unfold is_match. cbn [fst snd]. rewrite (st_cyc _ (fi_static _ _ _ FI)). fold pos. fold A. fold lo.
  replace (A - (pos - v - 1) - 1) with (org + v) by (unfold A; lia).
  repeat split; try done; unfold A in *; lia.
Qed.

(** The entries of the small tables the current place looks up. *)
Definition small_ok (h v : Z) : Prop :=
  0 <= v /\ (org + v <= lo \/ (org + v < A /\ h = 2 /\ hash2_at data (org + v) = hash2_at data A)
                          \/ (org + v < A /\ h = 3 /\ hash3_at data (org + v) = hash3_at data A)).

Lemma small_entry2 v : array = true -> bt_hash bt !! Z.to_nat (hash2_at data A) = Some v -> small_ok 2 v.
Proof.
  intros Ea Hv. pose proof (small_hash_range A) as [H2 _]. change kHash2Size with 1024 in H2.
  pose proof (fi_entries _ _ _ FI _ _ Hv) as H. unfold small_entry, keyed in H.
  rewrite Z2Nat.id in H by lia. assert (Ef : fixSize array = 66560) by (by rewrite Ea).
  rewrite Ef in H. destruct (Z.ltb_spec (hash2_at data A) 66560); [|lia].
  change kHash2Size with 1024 in H. destruct (Z.ltb_spec (hash2_at data A) 1024); [|lia].
  destruct H as [Hv0 [Hd|[Hk1 Hk2]]]; split; [done|by left|done|right; left; done].
Qed.

Lemma small_entry3 v : array = true -> bt_hash bt !! Z.to_nat (1024 + hash3_at data A) = Some v -> small_ok 3 v.
Proof.
  intros Ea Hv. pose proof (small_hash_range A) as [_ H3]. change kHash3Size with 65536 in H3.
  pose proof (fi_entries _ _ _ FI _ _ Hv) as H. unfold small_entry, keyed in H.
  rewrite Z2Nat.id in H by lia. assert (Ef : fixSize array = 66560) by (by rewrite Ea).
  rewrite Ef in H. destruct (Z.ltb_spec (1024 + hash3_at data A) 66560); [|lia].
  change kHash2Size with 1024 in H. change kHash3Offset with 1024 in H.
  destruct (Z.ltb_spec (1024 + hash3_at data A) 1024); [lia|].
  destruct H as [Hv0 [Hd|[Hk1 Hk2]]]; split; [done|by left|done|right; right].
  split; [done|]. split; [done|]. lia.
Qed.

Lemma small_agree h v : small_ok h v -> lo < org + v -> byteAt data (org + v) = byteAt data A ->
  org + v < A /\ agree data h (org + v) A.
Proof.
  intros [_ [H|[(H1 & -> & H2)|(H1 & -> & H2)]]] Hlo E; [lia| |]; split; try done.
  - by apply hash2_agree.
  - by apply hash3_agree.
Qed.

Section pairs.
Context (cap : nat) (Hcap : (546 <= cap)%nat) (Hmax : Z.of_nat cap < 2 ^ 31) (Ha : array = true).
Let cur := u32 (bufOffset (bt_iw bt) + pos).

Lemma cur_byte : index (iw_buf (bt_iw bt)) cur = Ret (byteAt data A).
Proof. apply byte_index. pose proof place_lo. fold A. lia. Qed.

Lemma L4 : 4 <= L <= 273.
Proof. pose proof (rd_L _ _ _ _ _ _ place_ready). unfold min_check in Hlim. rewrite Ha in Hlim. lia. Qed.

Lemma short_first ds v2 : found data bt org L cap ds [] -> small_ok 2 v2 ->
  exists ds1 m1 ps1,
    (if lo - org <? v2 then
       a ← index (iw_buf (bt_iw bt)) (u32 (bufOffset (bt_iw bt) + v2));
       b ← index (iw_buf (bt_iw bt)) cur;
       if a =? b then
         ds ← push_match 2 (u32 (u32 (pos - v2) - 1)) ds; Ret (ds, 2)
       else Ret (ds, kStartMaxLen)
     else Ret (ds, kStartMaxLen)) = Ret (ds1, m1) /\
    short_state cap ds1 m1 v2 ps1 /\ m1 <= 2 /\
    (lo < org + v2 -> byteAt data (org + v2) = byteAt data A -> exists p, ps1 = [p]).
Proof.
  intros F Hok. pose proof place_lo as (Hlo1 & Hlo2 & Hlo3). pose proof L4.
  assert (Hnone : short_state cap ds 1 v2 []) by (repeat split; try apply F; try lia; by left).
  destruct (Z.ltb_spec (lo - org) v2) as [Hlive|Hdead].
  2:{ exists ds, 1, []. repeat split; try apply Hnone; try done; lia. }
  assert (Hle : org + v2 <= A) by (destruct Hok as [_ [?|[[? _]|[? _]]]]; lia).
  rewrite byte_index, cur_byte by lia. cbn [mbind outcome_bind].
  destruct (Z.eqb_spec (byteAt data (org + v2)) (byteAt data A)) as [E|E].
  2:{ exists ds, 1, []. repeat split; try apply Hnone; try done; lia. }
  destruct (small_agree 2 v2 Hok ltac:(lia) E) as [Hlt Hag].
  destruct (found_push bad data bt org off L place_ready cap ds [] 2 (u32 (u32 (pos - v2) - 1)) F Hcap Hmax)
    as (ds1 & -> & F1); [cbn; lia|apply short_match; [lia|lia|done]|].
  cbn [mbind outcome_bind]. exists ds1, 2, [(2, u32 (u32 (pos - v2) - 1))].
  split; [done|]. split; [|split; [lia|eauto]].
  split; [done|]. split; [done|]. split; [lia|]. right. split; [lia|done].
Qed.

Lemma short_second ds m v2 v3 ps : short_state cap ds m v2 ps -> m <= 2 ->
  (lo < org + v2 -> byteAt data (org + v2) = byteAt data A -> exists p, ps = [p]) ->
  small_ok 3 v3 ->
  exists ds1 m1 cm ps1,
    (if lo - org <? v3 then
       a ← index (iw_buf (bt_iw bt)) (u32 (bufOffset (bt_iw bt) + v3));
       b ← index (iw_buf (bt_iw bt)) cur;
       if a =? b then
         ds ← push_match 3 (u32 (u32 (pos - v3) - 1))
                (if v3 =? v2 then (ds.1, u32 (ds.2 - 2)) else ds); Ret (ds, 3, v3)
       else Ret (ds, m, v2)
     else Ret (ds, m, v2)) = Ret (ds1, m1, cm) /\ short_state cap ds1 m1 cm ps1.
Proof.
  intros S2 Hm Hlast Hok. pose proof place_lo as (Hlo1 & Hlo2 & Hlo3). pose proof L4.
  destruct (Z.ltb_spec (lo - org) v3) as [Hlive|Hdead]; [|by exists ds, m, v2, ps].
  assert (Hle : org + v3 <= A) by (destruct Hok as [_ [?|[[? _]|[? _]]]]; lia).
  rewrite byte_index, cur_byte by lia. cbn [mbind outcome_bind].
  destruct (Z.eqb_spec (byteAt data (org + v3)) (byteAt data A)) as [E|E]; [|by exists ds, m, v2, ps].
  destruct (small_agree 3 v3 Hok ltac:(lia) E) as [Hlt Hag].
  destruct S2 as (F & Htop & Hm1 & _).
  assert (Hds : exists ps', found data bt org L cap (if v3 =? v2 then (ds.1, u32 (ds.2 - 2)) else ds) ps' /\
                            top 1 ps' < 3).
  { destruct (Z.eqb_spec v3 v2) as [->|Hne]; [|exists ps; split; [done|lia]].
    destruct (Hlast ltac:(lia) E) as [p ->]. exists []. split; [|cbn; lia].
    destruct ds as [distances offset]. destruct F as (F & _). split; [|done].
    by apply (stored_pop cap distances offset [] p). }
  destruct Hds as (ps' & F' & Htop').
  destruct (found_push bad data bt org off L place_ready cap _ ps' 3 (u32 (u32 (pos - v3) - 1)) F' Hcap Hmax)
    as (ds1 & -> & F1); [done|apply short_match; [lia|lia|done]|].
  cbn [mbind outcome_bind]. exists ds1, 3, v3, (ps' ++ [(3, u32 (u32 (pos - v3) - 1))]).
  split; [done|]. split; [done|]. split; [apply top_snoc|]. split; [lia|]. right. split; [lia|done].
Qed.

(** The last pair is taken back when the tree begins with its place, to be measured. *)
Lemma short_third ds m cm ps v t count : short_state cap ds m cm ps ->
  holds cyc org lo (son bt) v t -> (0 < count)%nat ->
  exists ds1 m1 ps1,
    (if negb (ds.2 =? 0) && (cm =? v) then Ret (ds.1, u32 (ds.2 - 2), kStartMaxLen) else Ret (ds, m))
    = (Ret (ds1, m1) : outcome lzma_error _) /\
    found data bt org L cap ds1 ps1 /\ m1 < L /\ next_match data bt org L count 0 0 m1 t ps1.
Proof.
  intros (F & Htop & Hm & Hcm) Hh Hcount. pose proof L4.
  destruct (negb (ds.2 =? 0) && (cm =? v)) eqn:E.
  2:{ exists ds, m, ps. split; [done|]. split; [done|]. split; [lia|]. left. lia. }
  apply andb_true_iff in E as [En Ec]. apply Z.eqb_eq in Ec as ->.
  destruct Hcm as [->|[Hlive Hag]].
  { destruct F as ((F & _) & _). rewrite F in En. done. }
  destruct ps as [|p ps _] using rev_ind.
  { destruct F as ((F & _) & _). rewrite F in En. done. }
  destruct p as [l d]. rewrite top_snoc in Htop. subst l.
  destruct F as (F1 & F2 & F3). apply rising_snoc in F2 as [F2 F2'].
  apply Forall_app in F3 as [F3 _]. destruct ds as [distances offset].
  exists (distances, u32 (offset - 2)), kStartMaxLen, ps. cbn [fst snd].
  split; [done|]. split; [split; [by eapply stored_pop|done]|]. split; [unfold kStartMaxLen; lia|].
  right. right. destruct t as [|a l r]; cbn [holds] in Hh; [lia|].
  exists a, l, r. split; [done|]. split; [done|]. cbv zeta.
  destruct Hh as (Hav & _). fold pos. fold A. rewrite Hav in Hag.
  pose proof (agree_common data (Z.to_nat L) a A m ltac:(lia) Hag). unfold kStartMaxLen.
  pose proof (rising_length _ _ F2). lia.
Qed.

Lemma short_matches_spec ds v2 v3 v t count : found data bt org L cap ds [] ->
  small_ok 2 v2 -> small_ok 3 v3 -> holds cyc org lo (son bt) v t -> (0 < count)%nat ->
  exists ds1 m1 ps1, short_matches bt cur (lo - org) v2 v3 v ds = Ret (ds1, m1) /\
    found data bt org L cap ds1 ps1 /\ m1 < L /\ next_match data bt org L count 0 0 m1 t ps1.
Proof.
  intros F H2 H3 Hh Hcount. unfold short_matches. fold pos.
  destruct (short_first ds v2 F H2) as (ds1 & m1 & ps1 & -> & S1 & Hm1 & Hl1). cbn [mbind outcome_bind].
  destruct (short_second ds1 m1 v2 v3 ps1 S1 Hm1 Hl1 H3) as (ds2 & m2 & cm & ps2 & -> & S2).
  cbn [mbind outcome_bind].
  destruct (short_third ds2 m2 cm ps2 v t count S2 Hh Hcount) as (ds3 & m3 & ps3 & E & F3 & Hm3 & Hn).
  rewrite E. eauto 7.
Qed.
End pairs.

(** The descent starts at the links of the current place. *)
Lemma start_walk v t : holds cyc org lo (son bt) v t -> ordered data L t -> NoDup (nodes t) ->
  (forall a, a ∈ nodes t -> a < A /\ keyed data array mask (Z.of_nat kmain) a) ->
  let p1 := u32 (Z.shiftl (cyclicBufPos bt) 1) in
  let p0 := u32 (p1 + 1) in
  Z.to_nat p0 = slot1 cyc A /\ Z.to_nat p1 = slot0 cyc A /\
  walk data bt org L (son bt) p0 p1 direct_bytes direct_bytes v t.
Proof.
  intros Hh Ho Hnd Hk p1 p0. pose proof place_ready as R. pose proof place_lo as (Hlo1 & Hlo2 & Hlo3).
  pose proof (rd_L _ _ _ _ _ _ R) as HL. assert (Hcyc : cyc = hs + 1) by done.
  pose proof (Z.mod_pos_bound A cyc ltac:(lia)) as Hmod.
  assert (E1 : p1 = 2 * (A mod cyc)).
  { unfold p1. rewrite (fi_cbp _ _ _ FI), Z.shiftl_mul_pow2 by lia. fold pos A.
    rewrite wrap_id by lia. lia. }
  assert (E0 : p0 = 2 * (A mod cyc) + 1) by (unfold p0; rewrite E1, wrap_id; lia).
  rewrite E0, E1. split; [done|]. split; [done|].
  assert (Hdb : 0 <= direct_bytes <= 2) by (unfold direct_bytes; destruct array; lia).
  assert (Hag : forall x, x ∈ nodes t -> agree data direct_bytes x A).
  { intros x Hx. unfold direct_bytes.
    destruct (sumbool_of_bool array) as [Ea|Ea]; rewrite Ea; [apply agree_0|].
    destruct (Hk x Hx) as [_ Hkx]. apply kmain_keyed in Hkx. by eapply hash_agree. }
  constructor; rewrite ?(st_cyc _ (fi_static _ _ _ FI)); try lia; try done.
  - fold pos A lo. constructor.
    + apply (fi_static _ _ _ FI).
    + apply not_eq_sym. by apply slot_self; lia.
    + by apply slot_lt; [lia|apply (fi_static _ _ _ FI)].
    + by apply slot_lt; [lia|apply (fi_static _ _ _ FI)].
    + intros a Hain. destruct (Hk a Hain) as [Hlt _]. pose proof (holds_nodes cyc _ _ _ _ _ Hh a Hain).
      destruct (slots_ne cyc ltac:(lia) A a) as (S1 & S2 & S3 & S4); [lia|lia|done].
    + done.
    + intros a Hain. split; [by eapply holds_nodes|by apply Hk].
    + done.
  - intros x Hx. fold pos A. by apply agree_le, Hag.
  - intros x Hx. fold pos A. by apply agree_le, agree_sym, Hag.
Qed.

Lemma direct_match_spec cap ds v t count maxLen ps : (546 <= cap)%nat -> Z.of_nat cap < 2 ^ 31 ->
  found data bt org L cap ds ps -> maxLen < L ->
  holds cyc org lo (son bt) v t -> (0 < count)%nat ->
  (forall a, a ∈ nodes t -> a < A /\ keyed data array mask (Z.of_nat kmain) a) ->
  (if array then next_match data bt org L count 0 0 maxLen t ps else maxLen = kStartMaxLen /\ ps = []) ->
  exists ds1 m1 ps1,
    direct_match bt (u32 (bufOffset (bt_iw bt) + pos)) (lo - org) v maxLen ds = Ret (ds1, m1) /\
    found data bt org L cap ds1 ps1 /\ m1 < L /\
    next_match data bt org L count direct_bytes direct_bytes m1 t ps1.
Proof.
  intros Hcap Hmax F HmL Hh Hcount Hk Hcase. unfold direct_match.
  pose proof place_ready as R. pose proof place_lo as (Hlo1 & Hlo2 & Hlo3).
  pose proof (rd_L _ _ _ _ _ _ R) as HL.
  rewrite (st_direct _ (fi_static _ _ _ FI)). unfold direct_bytes.
  destruct (sumbool_of_bool array) as [Ea|Ea]; rewrite Ea in Hcase |- *.
  { cbn. exists ds, maxLen, ps. done. }
  destruct Hcase as [-> ->]. cbn [Z.eqb negb andb].
  destruct t as [|a l r]; cbn [holds] in Hh.
  { destruct (Z.ltb_spec (lo - org) v); [lia|]. exists ds, kStartMaxLen, []. repeat split; try apply F; [done|].
    right. by left. }
  destruct (Hk a ltac:(by left)) as [HaA Hka]. apply kmain_keyed in Hka.
  assert (Hag : agree data 2 a A) by (by eapply hash_agree).
  destruct Hh as (Hav & Hla & _). destruct (Z.ltb_spec (lo - org) v); [|lia].
  pose proof (live_index bad data bt org off L R a 2) as Hi.
  rewrite (st_cyc _ (fi_static _ _ _ FI)) in Hi. specialize (Hi ltac:(split; [done|fold pos A; lia]) ltac:(lia)).
  replace (a - org) with v in Hi by lia. rewrite Hi. cbn [mbind outcome_bind].
  pose proof (cur_index bad data bt org off L R 2 ltac:(lia)) as Hc. fold pos A in Hc. rewrite Hc.
  cbn [mbind outcome_bind].
  destruct (Z.eqb_spec (byteAt data (a + 2)) (byteAt data (A + 2))) as [E|E]; cbn [negb].
  - exists ds, kStartMaxLen, []. split; [done|]. split; [done|]. split; [done|]. right. right.
    exists a, l, r. split; [done|]. split; [done|]. cbv zeta. fold pos A.
    pose proof (agree_extend data 2 a A ltac:(lia) Hag E) as Hag3.
    pose proof (agree_common data (Z.to_nat L) a A 3 ltac:(lia) Hag3). unfold kStartMaxLen. cbn [top]. lia.
  - fold pos.
    destruct (found_push bad data bt org off L R cap ds [] 2 (u32 (u32 (pos - v) - 1)) F Hcap Hmax)
      as (ds1 & -> & F1); [cbn; lia|apply short_match; [lia|lia|by rewrite Hav]|].
    cbn [mbind outcome_bind]. exists ds1, 2, [(2, u32 (u32 (pos - v) - 1))].
    split; [done|]. split; [done|]. split; [lia|]. left. cbn [top]. lia.
Qed.

(** The bucket of the current place. *)
Lemma main_bucket : exists v t, bt_hash bt !! kmain = Some v /\
  holds cyc org lo (son bt) v t /\ ordered data L t /\ NoDup (nodes t) /\
  (forall a, a ∈ nodes t -> a < A /\ keyed data array mask (Z.of_nat kmain) a).
Proof.
  pose proof kmain_bound as [_ Hb]. apply lookup_lt_is_Some_2 in Hb as [v Hv].
  pose proof (fi_entries _ _ _ FI _ _ Hv) as H. rewrite kmain_main in H.
  destruct H as (t & H). exists v, t. done.
Qed.

Lemma kmain_index : u32 (kvFixHashSize bt + hash_at data array mask A) = Z.of_nat kmain.
Proof.
  pose proof kmain_bound as [Hk Hb]. pose proof (st_hash _ (fi_static _ _ _ FI)).
  pose proof (hash_at_range A). pose proof fixSize_pos.
  rewrite (st_fix _ (fi_static _ _ _ FI)), <- Hk. apply wrap_id.
  assert (fixSize array <= 66560) by (unfold fixSize; destruct array; zground).
  assert (hash_size < 2 ^ 31) by (unfold hash_size; destruct array; [lia|done]). lia.
Qed.

Lemma limit_place : length_limit bt = Some L.
Proof.
  pose proof (length_limit_spec _ _ _ FI) as [E _]. fold pos A L in E. rewrite E.
  by destruct (Z.ltb_spec L min_check); [lia|].
Qed.

Lemma count_pos : (0 < Z.to_nat (cutValue bt))%nat.
Proof. pose proof (st_cut _ (fi_static _ _ _ FI)). lia. Qed.

Lemma skip_place : exists s' hash',
  skip_one bt = bt_movePos (bt_set (bt_iw bt) s' hash' (cyclicBufPos bt) bt) /\
  inserted org off (bt_set (bt_iw bt) s' hash' (cyclicBufPos bt) bt).
Proof.
  destruct main_bucket as (v & t & Hv & Hh & Ho & Hnd & Hk).
  unfold skip_one. rewrite limit_place, (match_min_pos_spec _ _ _ FI), (hash_values_spec _ _ _ FI Hlim).
  fold pos A lo. cbn [mbind outcome_bind].
  destruct set_small_hashes_spec as (hash & -> & Hsm). cbn [mbind outcome_bind].
  pose proof Hsm as (Hlen & Hmain & _). pose proof kmain_bound as [_ Hkb].
  rewrite kmain_index, (index_ret _ _ v) by (by rewrite Nat2Z.id, Hmain). cbn [mbind outcome_bind].
  rewrite store_ret by lia. cbn [mbind outcome_bind]. rewrite Nat2Z.id.
  destruct (start_walk v t Hh Ho Hnd Hk) as (E0 & E1 & W).
  rewrite (st_direct _ (fi_static _ _ _ FI)).
  pose proof (skip_loop_spec bad data bt org off L place_ready (Z.to_nat (cutValue bt)) _ _ _ _ _ _ _ W)
    as (s' & Es & D). rewrite (st_cyc _ (fi_static _ _ _ FI)) in Es, D. fold pos A lo in Es, D.
  rewrite Es. cbn [mbind outcome_bind]. exists s', (<[kmain := pos]> hash). split; [done|].
  rewrite E0, E1 in D. eapply insert_spec; try done. by apply marked_main.
Qed.

(** What getMatches has before it comes to the bucket of the main table. *)
Lemma short_place ds cap v t count : found data bt org L cap ds [] -> (546 <= cap)%nat ->
  Z.of_nat cap < 2 ^ 31 -> holds cyc org lo (son bt) v t -> (0 < count)%nat ->
  exists ds1 m ps,
    (if array then
       curMatch2 ← index (bt_hash bt) (if array then hash2_at data A else 0);
       curMatch3 ← index (bt_hash bt) (u32 (kHash3Offset + if array then hash3_at data A else 0));
       short_matches bt (u32 (bufOffset (bt_iw bt) + pos)) (lo - org) curMatch2 curMatch3 v ds
     else Ret (ds, kStartMaxLen)) = Ret (ds1, m) /\
    found data bt org L cap ds1 ps /\ m < L /\
    (if array then next_match data bt org L count 0 0 m t ps else m = kStartMaxLen /\ ps = []).
Proof.
  intros F0 Hcap Hmax Hh Hcount. pose proof (rd_L _ _ _ _ _ _ place_ready).
  destruct (sumbool_of_bool array) as [Ea|Ea]; rewrite !Ea.
  2:{ exists ds, kStartMaxLen, []. split; [done|]. split; [done|]. unfold kStartMaxLen. split; [lia|done]. }
  pose proof (small_hash_range A) as [R2 R3].
  change kHash2Size with 1024 in R2. change kHash3Size with 65536 in R3.
  pose proof (st_hash _ (fi_static _ _ _ FI)) as Hlen. unfold hash_size in Hlen. rewrite Ea in Hlen.
  change (fixSize true) with 66560 in Hlen. change kHash3Offset with 1024.
  destruct (index_some (bt_hash bt) (hash2_at data A)) as [v2 E2]; [lia|].
  destruct (index_some (bt_hash bt) (1024 + hash3_at data A)) as [v3 E3]; [lia|].
  rewrite (index_ret _ _ v2 E2). cbn [mbind outcome_bind].
  rewrite (wrap_id 32 (1024 + hash3_at data A)) by lia.
  rewrite (index_ret _ _ v3 E3). cbn [mbind outcome_bind].
  apply short_matches_spec; try done; [by apply small_entry2|by apply small_entry3].
Qed.

Lemma getMatches_place distances cap : length distances = cap -> (546 <= cap)%nat -> Z.of_nat cap < 2 ^ 31 ->
  exists s' hash' ds ps,
    getMatches distances bt
    = (bt' ← bt_movePos (bt_set (bt_iw bt) s' hash' (cyclicBufPos bt) bt); Ret (ds.2, ds.1, bt')) /\
    inserted org off (bt_set (bt_iw bt) s' hash' (cyclicBufPos bt) bt) /\
    found data bt org L cap ds ps.
Proof.
  intros Hcl Hcap Hmax. destruct main_bucket as (v & t & Hv & Hh & Ho & Hnd & Hk).
  assert (F0 : found data bt org L cap (distances, 0) []).
  { split; [|done]. split; [done|]. split; [done|]. split; [cbn; lia|done]. }
  unfold getMatches. rewrite limit_place, (match_min_pos_spec _ _ _ FI), (hash_values_spec _ _ _ FI Hlim).
  fold pos A lo. cbn [mbind outcome_bind]. pose proof kmain_bound as [_ Hkb].
  rewrite kmain_index, (index_ret (bt_hash bt) (Z.of_nat kmain) v) by (by rewrite Nat2Z.id).
  cbn [mbind outcome_bind]. rewrite (st_array _ (fi_static _ _ _ FI)).
  destruct (short_place _ cap v t _ F0 Hcap Hmax Hh count_pos) as (ds & m & ps & -> & F & Hm & Hcase).
  cbn [mbind outcome_bind].
  destruct set_small_hashes_spec as (hash & -> & Hsm). cbn [mbind outcome_bind].
  pose proof Hsm as (Hlen & Hmain & _).
  rewrite store_ret by lia. cbn [mbind outcome_bind]. rewrite Nat2Z.id.
  destruct (direct_match_spec cap ds v t _ m ps Hcap Hmax F Hm Hh count_pos Hk Hcase)
    as (ds1 & m1 & ps1 & -> & F1 & Hm1 & Hnext). cbn [mbind outcome_bind].
  destruct (start_walk v t Hh Ho Hnd Hk) as (E0 & E1 & W).
  rewrite (st_direct _ (fi_static _ _ _ FI)).
  destruct (getMatches_loop_spec bad data bt org off L place_ready cap (Z.to_nat (cutValue bt)) Hcap Hmax
              _ _ _ _ _ _ _ m1 ds1 ps1 W F1 Hm1 Hnext) as (s' & ds' & ps' & Es & D & F').
  rewrite (st_cyc _ (fi_static _ _ _ FI)) in Es, D. fold pos A lo in Es, D.
  rewrite Es. cbn [mbind outcome_bind]. exists s', (<[kmain := pos]> hash), ds', ps'. split; [done|].
  split; [|done]. rewrite E0, E1 in D. eapply insert_spec; try done. by apply marked_main.
Qed.
End place.

(** ** The operations *)

(** A match of the place [A], as the decoder and the encoder understand it: a distance
    within the dictionary, from which so many bytes can be copied. *)
Definition true_match (A : Z) (p : Z * Z) : Prop :=
  2 <= p.1 <= lenlim A /\ 0 <= p.2 < hs /\ p.2 < A /\ agree data p.1 (A - p.2 - 1) A.

(** The array [distances] tells, in its first [n] entries, matches of growing length. *)
Definition tells (A n : Z) (distances : list Z) (ps : list (Z * Z)) : Prop :=
  n = 2 * Z.of_nat (length ps) /\ take (Z.to_nat n) distances = flat ps /\
  rising 1 ps /\ Forall (true_match A) ps.

Lemma found_tells org off bt cap ds ps : finder_inv org off bt ->
  found data bt org (lenlim (org + iw_pos (bt_iw bt))) cap ds ps ->
  tells (org + iw_pos (bt_iw bt)) ds.2 ds.1 ps /\ length ds.1 = cap.
Proof.
  intros FI ((S1 & S2 & S3 & S4) & Hr & Hm). split; [|done]. split; [done|].
  split; [rewrite S1; by replace (Z.to_nat (2 * Z.of_nat (length ps))) with (2 * length ps)%nat by lia|].
  split; [done|]. eapply Forall_impl; [exact Hm|]. intros [l d] (H1 & H2 & H3 & H4).
  rewrite (st_cyc _ (fi_static _ _ _ FI)) in H3. unfold oldest, cyc in H3. cbn [fst snd] in *.
  split; [done|]. split; [cbn; lia|]. split; [cbn; lia|done].
Qed.

Lemma getMatches_spec org off bt distances cap : finder_inv org off bt ->
  iw_pos (bt_iw bt) < iw_streamPos (bt_iw bt) ->
  length distances = cap -> (546 <= cap)%nat -> Z.of_nat cap < 2 ^ 31 ->
  yields bad (fun '(n, distances', bt') => exists org' off' ps,
      finder_inv org' off' bt' /\ org' + iw_pos (bt_iw bt') = org + iw_pos (bt_iw bt) + 1 /\
      tells (org + iw_pos (bt_iw bt)) n distances' ps /\ length distances' = cap)
    (getMatches distances bt).
Proof.
  intros FI Hlt Hl Hcap Hmax.
  destruct (Z.ltb_spec (lenlim (org + iw_pos (bt_iw bt))) min_check) as [Hs|Hlim].
  - unfold getMatches. destruct (length_limit_spec _ _ _ FI) as [E _]. rewrite E.
    rewrite (proj2 (Z.ltb_lt _ _) Hs).
    eapply yields_bind; [eapply bt_movePos_spec; [by apply finder_inserted|done]|].
    intros bt' (org' & off' & FI' & HA). cbn. exists org', off', [].
    split; [done|]. split; [done|]. split; [|done]. done.
  - destruct (getMatches_place _ _ _ FI Hlim distances cap Hl Hcap Hmax) as (s' & hash' & ds & ps & E & HI & F).
    rewrite E. eapply yields_bind; [eapply bt_movePos_spec; [exact HI|done]|].
    intros bt' (org' & off' & FI' & HA). cbn. exists org', off', ps.
    split; [done|]. split; [done|]. by eapply found_tells.
Qed.

Lemma skip_one_spec org off bt : finder_inv org off bt -> iw_pos (bt_iw bt) < iw_streamPos (bt_iw bt) ->
  yields bad (fun bt' => exists org' off', finder_inv org' off' bt' /\
                org' + iw_pos (bt_iw bt') = org + iw_pos (bt_iw bt) + 1) (skip_one bt).
Proof.
  intros FI Hlt. destruct (Z.ltb_spec (lenlim (org + iw_pos (bt_iw bt))) min_check) as [Hs|Hlim].
  - unfold skip_one. destruct (length_limit_spec _ _ _ FI) as [E _]. rewrite E.
    rewrite (proj2 (Z.ltb_lt _ _) Hs). eapply bt_movePos_spec; [by apply finder_inserted|done].
  - destruct (skip_place _ _ _ FI Hlim) as (s' & hash' & E & HI). rewrite E.
    by apply (bt_movePos_spec org off (bt_set (bt_iw bt) s' hash' (cyclicBufPos bt) bt)).
Qed.

(** Bytes are ahead as long as the end of the data is not reached. *)
Lemma ahead_of org off bt : finder_inv org off bt -> org + iw_pos (bt_iw bt) < N ->
  iw_pos (bt_iw bt) < iw_streamPos (bt_iw bt).
Proof.
  intros FI HN. pose proof (fi_iw _ _ _ FI) as Hiw. destruct (ahead_spec _ _ _ _ _ Hiw) as [Hf Ht].
  pose proof (ir_after _ _ _ _ _ (proj1 Hiw)). destruct (streamEnd (bt_iw bt)).
  - specialize (Ht eq_refl). lia.
  - specialize (Hf eq_refl). lia.
Qed.

Lemma skip_spec num : forall org off bt, finder_inv org off bt ->
  org + iw_pos (bt_iw bt) + Z.of_nat num <= N ->
  yields bad (fun bt' => exists org' off', finder_inv org' off' bt' /\
                org' + iw_pos (bt_iw bt') = org + iw_pos (bt_iw bt) + Z.of_nat num) (skip num bt).
Proof.
  induction num as [|num IH]; intros org off bt FI HN; cbn [skip].
  { cbn. exists org, off. split; [done|lia]. }
  eapply yields_bind; [apply (skip_one_spec org off); [done|eapply ahead_of; [done|lia]]|].
  intros bt' (org' & off' & FI' & HA). eapply yields_weaken; [apply (IH org' off' bt' FI'); lia|].
  intros bt2 (org2 & off2 & FI2 & HA2). exists org2, off2. split; [done|lia].
Qed.
End finder.

(** ** The constructor *)

Lemma lor_lt a b n : 0 <= n -> 0 <= a < 2 ^ n -> 0 <= b < 2 ^ n -> 0 <= Z.lor a b < 2 ^ n.
Proof.
  intros Hn Ha Hb. assert (H0 : 0 <= Z.lor a b) by (apply Z.lor_nonneg; lia). split; [done|].
  destruct (Z.eq_dec (Z.lor a b) 0) as [->|]; [lia|]. apply Z.log2_lt_pow2; [lia|].
  rewrite Z.log2_lor by lia.
  destruct (Z.eq_dec a 0) as [->|]; destruct (Z.eq_dec b 0) as [->|]; cbn [Z.lor Z.log2 Z.max] in *.
  - done.
  - rewrite Z.max_r by apply Z.log2_nonneg. apply Z.log2_lt_pow2; lia.
  - rewrite Z.max_l by apply Z.log2_nonneg. apply Z.log2_lt_pow2; lia.
  - apply Z.max_lub_lt; apply Z.log2_lt_pow2; lia.
Qed.

Lemma shiftr_lt a k n : 0 <= k -> 0 <= a < 2 ^ n -> 0 <= Z.shiftr a k < 2 ^ n.
Proof.
  intros Hk Ha. rewrite Z.shiftr_div_pow2 by done. assert (0 < 2 ^ k) by (apply Z.pow_pos_nonneg; lia).
  split; [apply Z.div_pos; lia|]. apply Z.le_lt_trans with a; [|lia].
  apply Z.div_le_upper_bound; [done|]. nia.
Qed.

Lemma hash_mask_bound hs : 1 <= hs <= 2 ^ 29 -> 0 <= hash_mask hs < 2 ^ 30.
Proof.
  intros Hhs. unfold hash_mask. rewrite wrap_id by lia.
  assert (H : 0 <= hs - 1 < 2 ^ 29) by lia.
  set (n := 29) in *. assert (Hn : 0 <= n) by (unfold n; lia).
  assert (Hff : 0 <= 0xFFFF < 2 ^ n) by (unfold n; lia).
  assert (S : forall x k, 0 <= k -> 0 <= x < 2 ^ n -> 0 <= Z.lor x (Z.shiftr x k) < 2 ^ n)
    by (intros; apply lor_lt; [done|done|by apply shiftr_lt]).
  apply (S _ 1) in H; [|lia]. apply (S _ 2) in H; [|lia]. apply (S _ 4) in H; [|lia].
  apply (S _ 8) in H; [|lia]. apply (shiftr_lt _ 1) in H; [|lia].
  pose proof (lor_lt _ 0xFFFF n Hn H Hff) as H'. cbv zeta.
  assert (2 ^ n < 2 ^ 30) by (unfold n; lia).
  destruct (_ <? _); [pose proof (shiftr_lt _ 1 n ltac:(lia) H')|]; lia.
Qed.

(** A new finder stands at the first byte. *)
Lemma newLzBinTree_spec bad data r hs kab mml kaa hash_bytes : bytes_ok data ->
  data = content r -> (forall e, Failed e ∈ r -> bad e) ->
  4096 <= hs <= 2 ^ 29 -> 5 <= mml <= 273 -> 4096 <= kab < 2 ^ 20 -> 273 <= kaa < 2 ^ 20 ->
  let array := 2 <? hash_bytes in
  let mask := if array then hash_mask hs else 0 in
  yields bad (fun bt => finder_inv bad data hs mml mask array (-1) (-1) bt /\ iw_pos (bt_iw bt) = 1)
    (newLzBinTree r hs kab mml kaa hash_bytes).
Proof.
  intros Hdata Hd Hbad Hhs Hmml Hkab Hkaa array mask. unfold newLzBinTree. fold array. clearbody array.
  assert (Hmask : 0 <= mask < 2 ^ 30) by (unfold mask; destruct array; [apply hash_mask_bound; lia|lia]).
  pose proof (Z.div_mod (hs + kab + mml + kaa) 2 ltac:(lia)).
  pose proof (Z.mod_pos_bound (hs + kab + mml + kaa) 2 ltac:(lia)).
  rewrite (wrap_id 32 (hs + kab)), (wrap_id 32 (mml + kaa)), (wrap_id 32 (hs + kab + mml)),
    (wrap_id 32 (hs + kab + mml + kaa)), (wrap_id 32 ((hs + kab + mml + kaa) / 2 + 256)) by lia.
  eapply yields_bind; [apply (newLzInWindow_spec bad data r); try done; lia|].
  intros iw (Hiw & Hp & Hb & Ha & Hbl). cbv beta.
  pose proof (reduceOffsets_spec bad data 0 0 iw (-1) Hiw ltac:(lia) ltac:(lia)) as Hr.
  change (u32 (-1)) with 0xFFFFFFFF in Hr. change (0 + -1) with (-1) in Hr.
  assert (Hpos : iw_pos (reduceOffsets 0xFFFFFFFF iw) = 1) by (cbn; by rewrite Hp).
  assert (Hsum : (if array then u32 (u32 (mask + 1) + (kHash2Size + kHash3Size)) else kBT2HashSize)
                 = hash_size mask array).
  { unfold hash_size, fixSize. destruct array; [|done]. change (kHash2Size + kHash3Size) with 66560.
    rewrite (wrap_id 32 (mask + 1)), wrap_id by lia. done. }
  assert (Hsize : 0 <= hash_size mask array).
  { unfold hash_size, fixSize. destruct array; [change (kHash2Size + kHash3Size) with 66560; lia|done]. }
  rewrite (wrap_id 32 (hs + 1)), (wrap_id 32 ((hs + 1) * 2)) by lia.
  cbn [yields]. split; [|exact Hpos]. fold mask in Hsum |- *.
  constructor; cbn [bt_iw son bt_hash cyclicBufPos]; rewrite ?Hpos; try done;
    try (unfold oldest; lia).
  - constructor; cbn -[kHash2Size kHash3Size]; try done; rewrite ?length_replicate; try lia.
    + pose proof (shiftr_lt mml 1 10 ltac:(lia) ltac:(lia)). rewrite wrap_id by lia. lia.
    + rewrite <- Hsum. by destruct array.
    + rewrite Z2Nat.id; rewrite <- Hsum in *; by destruct array.
  - intros k v Hk. apply lookup_replicate in Hk as [-> _].
    assert (Hlo : -1 <= oldest (hs + 1) (-1 + 1)) by (unfold oldest; lia).
    unfold kEmptyHashValue. destruct (_ <? _); [split; [done|left; lia]|].
    exists Lf. split; [cbn; lia|]. split; [done|]. split; [constructor|].
    intros x Hx. by apply elem_of_nil in Hx.
Qed.
