(* ===== verification/LzmaMatches.v ===== *)
(** lzma2/lzma_encoder.go: what the encoder does with its match finder. newFinder is the
    part of (z *encoder) encoder that sets it up, readMatchDistances and enc_movePos are
    the methods that move it; a run of them over any Reader keeps reporting matches of the
    data, and a reported match is one that the encoder may choose: LzmaStream.parse_ok
    accepts it. *)

From Stdlib Require Import ZArith Lia.
From stdpp Require Import base numbers option list.
From S2P Require Import Prelude RangeCoder LzmaCoders LzmaWindow LzmaDecoder LzmaEncoder LzmaStream.
From S2P Require Import LzmaInWindow LzmaBinTree LzmaTrees LzmaBinTreeOk LzmaFinder.
#[local] Open Scope Z_scope.

Definition eMatchFinderTypeBT2 : Z := 0.
Definition kNumOpts : Z := Z.shiftl 1 12.

(** The fields of the encoder that belong to its match finder. *)
Record finder := mkFinder {
  mf : lzBinTree;
  matchDistances : list Z;
  distancePairs : Z;
  additionalOffset : Z
}.

(** The number of bytes to hash; matchFinderType is the digit of the name. *)
Definition numHashBytes (cl : compressionLevel) : Z :=
  let matchFinderType := matchFinder cl in
  if matchFinderType =? eMatchFinderTypeBT2 then 2 else 4.

Definition newFinder (r : list read_event) (cl : compressionLevel) : outcome lzma_error finder :=
  let dictSize := u32 (Z.shiftl 1 (cl_dictSize cl)) in
  bt ← newLzBinTree r dictSize kNumOpts (fastBytes cl) (kMatchMaxLen + 1) (numHashBytes cl);
  Ret (mkFinder bt (replicate (Z.to_nat (kMatchMaxLen * 2 + 2)) 0) 0 0).

Definition readMatchDistances (cl : compressionLevel) (z : finder)
    : outcome lzma_error (Z * finder) :=
  '(pairs, distances, bt) ← getMatches (matchDistances z) (mf z);
  lenRes ←
    (if 0 <? pairs then
       lenRes ← index distances (u32 (pairs - 2));
       if lenRes =? fastBytes cl then
         distance ← index distances (u32 (pairs - 1));
         more ← getMatchLen (i32 (i32 lenRes - 1)) distance (u32 (kMatchMaxLen - lenRes)) (bt_iw bt);
         Ret (u32 (lenRes + more))
       else Ret lenRes
     else Ret 0);
  Ret (lenRes, mkFinder bt distances pairs (u32 (additionalOffset z + 1))).

Definition enc_movePos (num : Z) (z : finder) : outcome lzma_error finder :=
  if 0 <? num then
    bt ← skip (Z.to_nat num) (mf z);
    Ret (mkFinder bt (matchDistances z) (distancePairs z) (u32 (additionalOffset z + num)))
  else Ret z.

(** ** Runs of the finder *)

(** The parser looks for matches at the current byte, or passes over some bytes. *)
Inductive finder_op := OpRead | OpMove (num : nat).

Definition op_size (o : finder_op) : nat := match o with OpRead => 1 | OpMove num => num end.

(** The reports of a run: the length readMatchDistances returns and the pairs it leaves. *)
Fixpoint finder_run (cl : compressionLevel) (ops : list finder_op) (z : finder)
    : outcome lzma_error (list (Z * list Z) * finder) :=
  match ops with
  | [] => Ret ([], z)
  | OpRead :: ops =>
      '(lenRes, z) ← readMatchDistances cl z;
      '(rs, z') ← finder_run cl ops z;
      Ret ((lenRes, take (Z.to_nat (distancePairs z)) (matchDistances z)) :: rs, z')
  | OpMove num :: ops =>
      z ← enc_movePos (Z.of_nat num) z;
      finder_run cl ops z
  end.

(** A report [lenRes], [ps] at the place [A]: matches of growing length with places the
    dictionary reaches; the longest, when it is as long as the finder looks, is followed to
    its end (273 bytes, the end of the data, or the first byte that differs). *)
Definition good_report (data : list Z) (cl : compressionLevel) (A lenRes : Z) (ps : list (Z * Z)) : Prop :=
  let dict := 2 ^ cl_dictSize cl in
  rising 1 ps /\
  Forall (fun p => 2 <= p.1 <= Z.min (fastBytes cl) (Z.of_nat (length data) - A) /\
                   0 <= p.2 < dict /\ p.2 < A /\ agree data p.1 (A - p.2 - 1) A) ps /\
  match last ps with
  | None => lenRes = 0
  | Some (l, d) =>
      l <= lenRes /\ (l < fastBytes cl -> lenRes = l) /\
      (l = fastBytes cl ->
       lenRes = common data (Z.to_nat (Z.min kMatchMaxLen (Z.of_nat (length data) - A))) A (A - d - 1))
  end.

Fixpoint good_reports (data : list Z) (cl : compressionLevel) (A : Z) (ops : list finder_op)
    (rs : list (Z * list Z)) : Prop :=
  match ops, rs with
  | [], [] => True
  | OpRead :: ops, (lenRes, ds) :: rs =>
      (exists ps, ds = flat ps /\ good_report data cl A lenRes ps) /\ good_reports data cl (A + 1) ops rs
  | OpMove num :: ops, rs => good_reports data cl (A + Z.of_nat num) ops rs
  | _, _ => False
  end.

(** ** Proofs *)

(** The length of a match does not depend on where the count starts. *)
Lemma common_from data n k a b : (k <= n)%nat -> agree data (Z.of_nat k) a b ->
  common data n a b = Z.of_nat k + common data (n - k) (a + Z.of_nat k) (b + Z.of_nat k).
Proof.
  intros Hk Hag. destruct (common_spec data (n - k) (a + Z.of_nat k) (b + Z.of_nat k)) as (H1 & H2 & H3).
  apply common_unique; [lia| |].
  - intros i Hi. destruct (Z.lt_ge_cases i (Z.of_nat k)); [apply Hag; lia|].
    specialize (H2 (i - Z.of_nat k) ltac:(lia)).
    replace (a + Z.of_nat k + (i - Z.of_nat k)) with (a + i) in H2 by lia.
    by replace (b + Z.of_nat k + (i - Z.of_nat k)) with (b + i) in H2 by lia.
  - intros Hlt. rewrite !Z.add_assoc. apply H3. lia.
Qed.

Lemma common_sym data n a b : common data n a b = common data n b a.
Proof.
  destruct (common_spec data n b a) as (H1 & H2 & H3).
  apply common_unique; [done|by apply agree_sym|]. intros Hlt. apply not_eq_sym. by apply H3.
Qed.

Section encoder.
Context (bad : lzma_error -> Prop) (data : list Z) (Hdata : bytes_ok data).
Context (cl : compressionLevel) (Hcl : checkValues cl = true).
Let dict := 2 ^ cl_dictSize cl.
Let fb := fastBytes cl.
Let array := 2 <? numHashBytes cl.
Let mask := if array then hash_mask dict else 0.
Let N := Z.of_nat (length data).

Lemma levels_bound : 4096 <= dict <= 2 ^ 29 /\ 5 <= fb <= 273.
Proof.
  unfold checkValues in Hcl. rewrite !andb_true_iff, !negb_true_iff, !orb_false_iff, !Z.ltb_ge in Hcl.
  split; [|unfold fb; lia]. unfold dict.
  pose proof (Z.pow_le_mono_r 2 12 (cl_dictSize cl) ltac:(lia) ltac:(lia)).
  pose proof (Z.pow_le_mono_r 2 (cl_dictSize cl) 29 ltac:(lia) ltac:(lia)). lia.
Qed.

(** The finder stands at the place [A]. *)
Definition at_place (A : Z) (z : finder) : Prop :=
  length (matchDistances z) = 548%nat /\
  exists org off, finder_inv bad data dict fb mask array org off (mf z) /\
                  org + iw_pos (bt_iw (mf z)) = A.

Lemma mask_bound : 0 <= mask < 2 ^ 30.
Proof.
  pose proof levels_bound as [Hd _]. unfold mask. destruct array; [apply hash_mask_bound; lia|lia].
Qed.

Lemma newFinder_spec r : data = content r -> (forall e, Failed e ∈ r -> bad e) ->
  yields bad (at_place 0) (newFinder r cl).
Proof.
  intros Hd Hbad. pose proof levels_bound as [Hd1 Hf]. unfold newFinder.
  assert (Ed : u32 (Z.shiftl 1 (cl_dictSize cl)) = dict).
  { rewrite Z.shiftl_1_l. apply wrap_id. fold dict. lia. }
  rewrite Ed. fold fb. change (kMatchMaxLen + 1) with 274. change kNumOpts with 4096.
  eapply yields_bind; [apply (newLzBinTree_spec bad data); try done; lia|].
  intros bt [FI Hp]. cbn [yields]. split; [done|]. exists (-1), (-1). cbn [mf]. split; [exact FI|lia].
Qed.

Lemma enc_movePos_spec A num z : at_place A z -> A + Z.of_nat num <= N ->
  yields bad (fun z' => at_place (A + Z.of_nat num) z' /\
      additionalOffset z' = if 0 <? Z.of_nat num then u32 (additionalOffset z + Z.of_nat num) else additionalOffset z)
    (enc_movePos (Z.of_nat num) z).
Proof.
  intros (Hl & org & off & FI & HA) HN. pose proof levels_bound as [Hd1 Hf]. unfold enc_movePos.
  destruct (Z.ltb_spec 0 (Z.of_nat num)).
  - rewrite Nat2Z.id. eapply yields_bind.
    { apply (skip_spec bad data Hdata dict fb mask array Hd1 Hf mask_bound num org off (mf z) FI).
      rewrite HA. done. }
    cbv beta. intros bt' (org' & off' & FI' & HA'). cbn [yields]. split; [|done]. split; [done|].
    exists org', off'. cbn [mf]. split; [done|lia].
  - cbn [yields]. split; [|done]. split; [done|]. exists org, off. split; [done|lia].
Qed.

(** Looking further for the longest match. *)
Lemma match_on org off bt A l d : finder_inv bad data dict fb mask array org off bt ->
  org + iw_pos (bt_iw bt) = A + 1 -> 2 <= l <= Z.min fb (N - A) -> 0 <= d < dict -> d < A ->
  agree data l (A - d - 1) A ->
  getMatchLen (i32 (i32 l - 1)) d (u32 (kMatchMaxLen - l)) (bt_iw bt)
  = Ret (common data (Z.to_nat (Z.min kMatchMaxLen (N - A))) A (A - d - 1) - l).
Proof.
  intros FI HA Hl Hd Hda Hag. pose proof levels_bound as [Hd1 Hf].
  pose proof (fi_static _ _ _ _ _ _ _ _ _ FI) as St. pose proof (fi_iw _ _ _ _ _ _ _ _ _ FI) as Hiw.
  destruct (ahead_spec bad data org off (bt_iw bt) Hiw) as [Hfull Hend].
  pose proof (st_before _ _ _ _ _ St) as Hkb. pose proof (st_after _ _ _ _ _ St) as Hka.
  pose proof (fi_pos _ _ _ _ _ _ _ _ _ FI) as Hpos.
  pose proof (proj1 Hiw) as C. pose proof (ir_ahead _ _ _ _ _ C). pose proof (ir_read _ _ _ _ _ C).
  pose proof (ir_keep _ _ _ _ _ C) as Hkeep. change kMatchMaxLen with 273.
  rewrite (swrap_id 32 l), (swrap_id 32 (l - 1)), (wrap_id 32) by (cbn; lia).
  rewrite (getMatchLen_spec bad data org off); try done; try lia.
  - f_equal. set (n := Z.to_nat (Z.min 273 (N - A))).
    rewrite (common_from data n (Z.to_nat l) A (A - d - 1)).
    + rewrite Z2Nat.id by lia. fold N.
      replace (n - Z.to_nat l)%nat with (Z.to_nat (Z.min (273 - l) (N - (org + iw_pos (bt_iw bt) + (l - 1)))))
        by (unfold n; lia).
      replace (org + iw_pos (bt_iw bt) + (l - 1)) with (A + l) by lia.
      replace (A - d - 1 + l) with (A + l - d - 1) by lia. lia.
    + unfold n. lia.
    + rewrite Z2Nat.id by lia. by apply agree_sym.
  - destruct (streamEnd (bt_iw bt)); [specialize (Hend eq_refl); unfold N in *; lia|specialize (Hfull eq_refl); lia].
  - intros Hse. specialize (Hfull Hse). lia.
Qed.

(** The last two entries of the pairs. *)
Lemma flat_last ps l d : flat (ps ++ [(l, d)]) !! (2 * length ps)%nat = Some l /\
  flat (ps ++ [(l, d)]) !! S (2 * length ps)%nat = Some d.
Proof.
  rewrite flat_app. split; rewrite lookup_app_r by (rewrite length_flat; lia); rewrite length_flat.
  - by rewrite Nat.sub_diag.
  - by replace (S (2 * length ps) - 2 * length ps)%nat with 1%nat by lia.
Qed.

Lemma readMatchDistances_spec A z : at_place A z -> A < N ->
  yields bad (fun '(lenRes, z') => at_place (A + 1) z' /\
      additionalOffset z' = u32 (additionalOffset z + 1) /\
      exists ps, distancePairs z' = 2 * Z.of_nat (length ps) /\
                 take (2 * length ps) (matchDistances z') = flat ps /\
                 good_report data cl A lenRes ps) (readMatchDistances cl z).
Proof.
  intros (Hl & org & off & FI & HA) HN. pose proof levels_bound as [Hd1 Hf]. unfold readMatchDistances.
  eapply yields_bind.
  { apply (getMatches_spec bad data Hdata dict fb mask array Hd1 Hf mask_bound org off (mf z) _ 548 FI);
      [|done|lia|lia]. eapply ahead_of; [done|]. rewrite HA. done. }
  cbv beta. intros [[pairs distances] bt] (org' & off' & ps & FI' & HA' & (Hn & Ht & Hr & Hm) & Hl').
  rewrite HA in HA', Hm.
  assert (Hm' : Forall (fun p => 2 <= p.1 <= Z.min fb (N - A) /\ 0 <= p.2 < dict /\ p.2 < A /\
                                 agree data p.1 (A - p.2 - 1) A) ps) by exact Hm.
  assert (Hat : at_place (A + 1) (mkFinder bt distances pairs (u32 (additionalOffset z + 1)))).
  { split; [done|]. exists org', off'. done. }
  destruct ps as [|[l d] ps _] using rev_ind.
  { rewrite Hn. cbn. split; [rewrite Hn in Hat; exact Hat|]. split; [done|]. by exists []. }
  pose proof Hn as Hn0. replace (Z.to_nat pairs) with (2 * length (ps ++ [(l, d)]))%nat in Ht by lia.
  rewrite length_app in Hn. cbn [length] in Hn.
  pose proof Hm' as Hlast. apply Forall_app in Hlast as [_ Hlast]. apply Forall_inv in Hlast. cbn [fst snd] in Hlast.
  destruct Hlast as (Hl2 & Hd & Hda & Hag).
  destruct (flat_last ps l d) as [F0 F1]. rewrite <- Ht in F0, F1.
  rewrite lookup_take_Some in F0, F1. destruct F0 as [F0 _], F1 as [F1 _].
  destruct (Z.ltb_spec 0 pairs); [|lia].
  assert (Hlen : (2 * length ps < length distances)%nat) by (by eapply lookup_lt_Some).
  rewrite (wrap_id 32 (pairs - 2)), (wrap_id 32 (pairs - 1)) by lia.
  rewrite (index_ret distances (pairs - 2) l) by (by replace (Z.to_nat (pairs - 2)) with (2 * length ps)%nat by lia). cbn [mbind outcome_bind].
  fold fb. destruct (Z.eqb_spec l fb) as [El|Enl].
  - rewrite (index_ret distances (pairs - 1) d) by (by replace (Z.to_nat (pairs - 1)) with (S (2 * length ps)) by lia). cbn [mbind outcome_bind].
    rewrite (match_on org' off' bt A l d) by (done || lia). cbn [mbind outcome_bind].
    cbn [yields]. split; [done|]. split; [done|]. exists (ps ++ [(l, d)]). split; [cbn; lia|].
    split; [done|]. split; [done|]. split; [exact Hm'|]. rewrite last_snoc.
    destruct (common_spec data (Z.to_nat (Z.min kMatchMaxLen (N - A))) A (A - d - 1)) as (Hc & _ & _).
    change kMatchMaxLen with 273 in *.
    pose proof (agree_common data (Z.to_nat (Z.min 273 (N - A))) A (A - d - 1) l ltac:(lia) (agree_sym _ _ _ _ Hag)).
    rewrite wrap_id by lia. fold fb N. split; [lia|]. split; [lia|]. intros _. lia.
  - cbn [mbind outcome_bind yields]. split; [done|]. split; [done|]. exists (ps ++ [(l, d)]). split; [cbn; lia|].
    split; [done|]. split; [done|]. split; [exact Hm'|]. rewrite last_snoc. fold fb. split; [lia|]. split; [done|]. lia.
Qed.

Lemma finder_run_spec ops : forall A z, at_place A z ->
  A + Z.of_nat (sum_list_with op_size ops) <= N ->
  yields bad (fun '(rs, z') => good_reports data cl A ops rs /\
                at_place (A + Z.of_nat (sum_list_with op_size ops)) z') (finder_run cl ops z).
Proof.
  induction ops as [|[|num] ops IH]; intros A z Hat HN; cbn [finder_run sum_list_with op_size] in *.
  - cbn. split; [done|]. by rewrite Z.add_0_r.
  - eapply yields_bind; [apply (readMatchDistances_spec A z Hat); lia|].
    intros [lenRes z1] (Hat1 & _ & ps & Hps & Ht & Hg). eapply yields_bind; [apply (IH (A + 1) z1 Hat1); lia|].
    intros [rs z2] (Hrs & Hat2). cbn. split.
    { split; [|exact Hrs]. exists ps. split; [|exact Hg]. rewrite Hps, <- Ht. f_equal. lia. }
    by replace (A + Z.of_nat (S (sum_list_with op_size ops))) with (A + 1 + Z.of_nat (sum_list_with op_size ops)) by lia.
  - eapply yields_bind; [apply (enc_movePos_spec A num z Hat); lia|].
    intros z1 [Hat1 _]. eapply yields_weaken; [apply (IH _ z1 Hat1); lia|].
    intros [rs z2] (Hrs & Hat2). split; [done|].
    by replace (A + Z.of_nat (num + sum_list_with op_size ops)) with (A + Z.of_nat num + Z.of_nat (sum_list_with op_size ops)) by lia.
Qed.
(** *** Reading around a place *)

(** How far the window has been filled. *)
Lemma place_avail A z : at_place A z ->
  let a := getNumAvailableBytes (bt_iw (mf z)) in
  0 <= a < 2 ^ 31 /\ A + a <= N /\ (A + a = N \/ fb + 273 <= a).
Proof.
  intros (_ & org & off & FI & HA). pose proof levels_bound as [Hd1 Hf].
  pose proof (fi_static _ _ _ _ _ _ _ _ _ FI) as St. pose proof (fi_iw _ _ _ _ _ _ _ _ _ FI) as Hiw.
  destruct (ahead_spec bad data org off _ Hiw) as [Hfull Hend].
  pose proof (st_after _ _ _ _ _ St) as Hka. pose proof (proj1 Hiw) as C.
  pose proof (ir_ahead _ _ _ _ _ C). pose proof (ir_read _ _ _ _ _ C) as Hr. fold N in Hr.
  pose proof (ir_fit _ _ _ _ _ C). pose proof (ir_block _ _ _ _ _ C).
  unfold getNumAvailableBytes. rewrite wrap_id by lia. cbv zeta.
  split; [lia|]. split; [lia|].
  destruct (streamEnd _); [left; specialize (Hend eq_refl); fold N in Hend; lia|right; specialize (Hfull eq_refl); lia].
Qed.

Lemma place_byte A z ind : at_place A z -> ind < getNumAvailableBytes (bt_iw (mf z)) ->
  0 <= A + ind -> - (dict + 4096) <= ind ->
  getIndexByte ind (bt_iw (mf z)) = Ret (byteAt data (A + ind)).
Proof.
  intros Hat Hi H0 Hlo. pose proof (place_avail A z Hat) as (Ha & _).
  destruct Hat as (_ & org & off & FI & HA). pose proof levels_bound as [Hd1 Hf].
  pose proof (fi_static _ _ _ _ _ _ _ _ _ FI) as St. pose proof (fi_iw _ _ _ _ _ _ _ _ _ FI) as Hiw.
  pose proof (st_before _ _ _ _ _ St) as Hkb. pose proof (proj1 Hiw) as C.
  pose proof (ir_ahead _ _ _ _ _ C). pose proof (ir_keep _ _ _ _ _ C) as Hkeep.
  pose proof (ir_fit _ _ _ _ _ C). pose proof (ir_block _ _ _ _ _ C).
  unfold getNumAvailableBytes in Hi. rewrite wrap_id in Hi by lia.
  rewrite (getIndexByte_spec bad data org off) by (done || lia).
  by replace (org + iw_pos (bt_iw (mf z)) + ind) with (A + ind) by lia.
Qed.

Lemma place_len A z ind d limit : at_place A z ->
  let a := getNumAvailableBytes (bt_iw (mf z)) in
  -1 <= ind <= a -> 0 <= limit < 2 ^ 29 -> ind + limit <= a \/ ind + limit <= fb + 273 ->
  0 <= d < dict -> d < A + ind ->
  getMatchLen ind d limit (bt_iw (mf z))
  = Ret (common data (Z.to_nat (Z.min limit (N - (A + ind)))) (A + ind) (A + ind - d - 1)).
Proof.
  intros Hat a Hi Hl Hfit Hd Hda. pose proof (place_avail A z Hat) as (Ha & _). fold a in Ha.
  destruct Hat as (_ & org & off & FI & HA). pose proof levels_bound as [Hd1 Hf].
  pose proof (fi_static _ _ _ _ _ _ _ _ _ FI) as St. pose proof (fi_iw _ _ _ _ _ _ _ _ _ FI) as Hiw.
  destruct (ahead_spec bad data org off _ Hiw) as [Hfull _].
  pose proof (st_before _ _ _ _ _ St) as Hkb. pose proof (st_after _ _ _ _ _ St) as Hka.
  pose proof (fi_pos _ _ _ _ _ _ _ _ _ FI) as Hpos. pose proof (proj1 Hiw) as C.
  pose proof (ir_ahead _ _ _ _ _ C). pose proof (ir_keep _ _ _ _ _ C) as Hkeep.
  pose proof (ir_fit _ _ _ _ _ C). pose proof (ir_block _ _ _ _ _ C).
  assert (Ea : a = iw_streamPos (bt_iw (mf z)) - iw_pos (bt_iw (mf z)))
    by (unfold a, getNumAvailableBytes; apply wrap_id; lia).
  rewrite (getMatchLen_spec bad data org off); try done; try lia.
  2: { intros Hse. specialize (Hfull Hse). lia. }
  replace (org + iw_pos (bt_iw (mf z)) + ind) with (A + ind) by lia. done.
Qed.
End encoder.

(** ** Reports and choices *)

(** Bytes that agree can be copied. *)
Lemma lz_copy_agree data n : forall A d, agree data (Z.of_nat n) (Z.of_nat A - Z.of_nat d - 1) (Z.of_nat A) ->
  (d < A)%nat -> (A + n <= length data)%nat ->
  lz_copy d n (take A data) = Some (take (A + n) data).
Proof.
  induction n as [|n IH]; intros A d Hag Hd Hl; cbn [lz_copy].
  { by rewrite Nat.add_0_r. }
  assert (Hta : length (take A data) = A) by (rewrite length_take; lia).
  rewrite Hta. destruct (Nat.ltb_spec d A); [|lia]. unfold look_back. rewrite Hta.
  destruct (lookup_lt_is_Some_2 data (A - S d)) as [b Hb]; [lia|].
  rewrite lookup_take_lt, Hb by lia.
  assert (Hb' : data !! A = Some b).
  { destruct (lookup_lt_is_Some_2 data A) as [b' Hb']; [lia|]. specialize (Hag 0 ltac:(lia)).
    unfold byteAt in Hag. rewrite !Z.add_0_r in Hag.
    replace (Z.to_nat (Z.of_nat A - Z.of_nat d - 1)) with (A - S d)%nat in Hag by lia.
    rewrite Nat2Z.id, (nth_lookup_Some _ _ _ _ Hb), (nth_lookup_Some _ _ _ _ Hb') in Hag. congruence. }
  rewrite <- (take_S_r _ _ _ Hb'). rewrite IH; [by rewrite Nat.add_succ_r| |lia|lia].
  intros i Hi. specialize (Hag (i + 1) ltac:(lia)).
  replace (Z.of_nat (S A) - Z.of_nat d - 1 + i) with (Z.of_nat A - Z.of_nat d - 1 + (i + 1)) by lia.
  by replace (Z.of_nat (S A) + i) with (Z.of_nat A + (i + 1)) by lia.
Qed.

(** A place and a distance with [len] agreeing bytes are a choice of the encoder. *)
Lemma agree_match_ok data dict A reps len d : length reps = 4%nat ->
  2 <= len <= kMatchMaxLen -> len <= Z.of_nat (length data) - Z.of_nat A ->
  0 <= d < dict -> d < Z.of_nat A -> agree data len (Z.of_nat A - d - 1) (Z.of_nat A) ->
  match_ok data dict A reps len (d + kNumRepDistances) = true.
Proof.
  intros Hr Hl Hn Hd Hda Hag. destruct reps as [|r0 [|r1 [|r2 [|r3 [|]]]]]; try done.
  unfold match_ok, new_reps. change kNumRepDistances with 4.
  destruct (Z.eqb_spec (d + 4) 0), (Z.eqb_spec (d + 4) 1), (Z.eqb_spec (d + 4) 2), (Z.eqb_spec (d + 4) 3);
    try lia.
  replace (d + 4 - 4) with d by lia. unfold copy_ok.
  replace (Z.to_nat d) with (Z.to_nat d) by done.
  rewrite (lz_copy_agree data (Z.to_nat len) A (Z.to_nat d)); [|rewrite !Z2Nat.id by lia; done|lia|lia].
  rewrite bool_decide_eq_true_2 by done.
  rewrite !andb_true_iff, !Z.leb_le, !Z.ltb_lt. lia.
Qed.

(** C5: over any Reader, with any accepted settings, and however the parser calls
    readMatchDistances and movePos, the match finder never panics; it reports the Reader's
    error, or at every call true matches only: the bytes at the distance told are those
    ahead, within the dictionary and the data, the lengths grow, and the longest match is
    followed to its end. *)
Theorem finder_reports_matches cl r ops :
  checkValues cl = true -> bytes_ok (content r) ->
  (sum_list_with op_size ops <= length (content r))%nat ->
  match (z ← newFinder r cl; finder_run cl ops z) with
  | Ret (rs, _) => good_reports (content r) cl 0 ops rs
  | Fail e => Failed e ∈ r
  | Panic => False
  end.
Proof.
  intros Hcl Hdata Hops. set (bad := fun e => Failed e ∈ r).
  assert (H : yields bad (fun '(rs, _) => good_reports (content r) cl 0 ops rs)
                (z ← newFinder r cl; finder_run cl ops z)).
  { eapply yields_bind; [by apply (newFinder_spec bad (content r) Hdata cl Hcl r)|].
    intros z Hz. eapply yields_weaken; [by apply (finder_run_spec bad (content r) Hdata cl Hcl ops 0 z Hz); lia|].
    intros [rs z'] [Hrs _]. exact Hrs. }
  destruct (newFinder r cl ≫= _) as [[rs z']| |]; exact H.
Qed.

(** C6: every run leaves the match finder in its invariant: the window shows the data, the
    entries of the small hash tables are places with these bytes, and the links below
    every bucket form a search tree, ordered by the bytes that follow, of different places
    of the dictionary that have the bucket's hash. *)
Theorem finder_keeps_trees cl r ops :
  checkValues cl = true -> bytes_ok (content r) ->
  (sum_list_with op_size ops <= length (content r))%nat ->
  let array := 2 <? numHashBytes cl in
  let dict := 2 ^ cl_dictSize cl in
  match (z ← newFinder r cl; finder_run cl ops z) with
  | Ret (_, z) => exists org off,
      finder_inv (fun e => Failed e ∈ r) (content r) dict (fastBytes cl)
        (if array then hash_mask dict else 0) array org off (mf z) /\
      org + iw_pos (bt_iw (mf z)) = Z.of_nat (sum_list_with op_size ops)
  | Fail e => Failed e ∈ r
  | Panic => False
  end.
Proof.
  intros Hcl Hdata Hops array dict. set (bad := fun e => Failed e ∈ r).
  assert (H : yields bad (fun '(_, z) => at_place bad (content r) cl (Z.of_nat (sum_list_with op_size ops)) z)
                (z ← newFinder r cl; finder_run cl ops z)).
  { eapply yields_bind; [by apply (newFinder_spec bad (content r) Hdata cl Hcl r)|].
    intros z Hz. eapply yields_weaken; [by apply (finder_run_spec bad (content r) Hdata cl Hcl ops 0 z Hz); lia|].
    intros [rs z'] [_ Hz']. exact Hz'. }
  destruct (newFinder r cl ≫= _) as [[rs z']| |]; [apply H|exact H|exact H].
Qed.

(** What readMatchDistances reports the encoder may choose: each pair, shortened or
    not, and the longest match in its full length is a packet of a valid parse, so that
    the decoder copies the right bytes. *)
Theorem reports_are_choices data cl A lenRes ps reps :
  checkValues cl = true -> (A < length data)%nat -> length reps = 4%nat ->
  good_report data cl (Z.of_nat A) lenRes ps ->
  (forall l d len, (l, d) ∈ ps -> 2 <= len <= l ->
     match_ok data (2 ^ cl_dictSize cl) A reps len (d + kNumRepDistances) = true) /\
  (forall l d, last ps = Some (l, d) ->
     match_ok data (2 ^ cl_dictSize cl) A reps lenRes (d + kNumRepDistances) = true).
Proof.
  intros Hcl HA Hr (_ & Hm & Hlast). pose proof (levels_bound data cl Hcl) as [_ Hf].
  rewrite Forall_forall in Hm. change kMatchMaxLen with 273 in *. split.
  - intros l d len Hin Hlen. destruct (Hm _ Hin) as (H1 & H2 & H3 & H4). cbn [fst snd] in *.
    apply agree_match_ok; try done; [change kMatchMaxLen with 273; lia|lia|].
    eapply agree_less; [|exact H4]. lia.
  - intros l d El. rewrite El in Hlast. destruct Hlast as (L1 & L2 & L3).
    destruct (Hm (l, d)) as (H1 & H2 & H3 & H4); [by apply last_Some_elem_of in El|]. cbn [fst snd] in *.
    set (n := Z.to_nat (Z.min 273 (Z.of_nat (length data) - Z.of_nat A))) in *.
    destruct (common_spec data n (Z.of_nat A) (Z.of_nat A - d - 1)) as (C1 & C2 & _).
    destruct (Z.eq_dec l (fastBytes cl)) as [E|E].
    + rewrite (L3 E) in *. apply agree_match_ok; try done; [change kMatchMaxLen with 273; lia|lia|].
      by apply agree_sym.
    + rewrite (L2 ltac:(lia)) in *. apply agree_match_ok; try done; [change kMatchMaxLen with 273; lia|lia].
Qed.

(** The finder "bt2" is never selected: its type is compared with 0, but the digit of its
    name is 2. *)
Lemma bt2_hashes_four_bytes cl : checkValues cl = true -> numHashBytes cl = 4.
Proof.
  unfold checkValues, numHashBytes, eMatchFinderTypeBT2. intros H.
  rewrite !andb_true_iff, !negb_true_iff, !andb_false_iff, !negb_false_iff, !Z.eqb_eq in H.
  destruct (Z.eqb_spec (matchFinder cl) 0); [lia|done].
Qed.

(** ** Concrete runs *)

Module Sample.
(** "abcabcabcabcabcdabdxx" in three pieces. *)
Definition reader : list read_event :=
  [Got [97; 98; 99; 97; 98; 99; 97; 98; 99; 97; 98; 99; 97]; Got []; Got [98; 99; 100; 97; 98; 100; 120; 120]].
Definition level : compressionLevel := mkCL 12 5 3 0 2 4.
Definition ops : list finder_op := [OpRead; OpMove 2; OpRead; OpMove 12; OpRead].

(** At the fourth byte a match with the first, five bytes as far as the finder looks and
    twelve in all; at the seventeenth one of two bytes. *)
Example sample_reports :
  (z ← newFinder reader level; '(rs, _) ← finder_run level ops z; Ret rs)
  = (Ret [(0, []); (12, [5; 2]); (2, [2; 3])] : outcome lzma_error _).
Proof. vm_compute. reflexivity. Qed.

Example finder_reports_matches_witness :
  checkValues level = true /\ bytes_ok (content reader) /\
  (sum_list_with op_size ops <= length (content reader))%nat /\
  match (z ← newFinder reader level; finder_run level ops z) with
  | Ret (rs, _) => good_reports (content reader) level 0 ops rs
  | Fail e => Failed e ∈ reader
  | Panic => False
  end.
Proof.
  assert (H1 : checkValues level = true) by reflexivity.
  assert (H2 : bytes_ok (content reader)) by (repeat constructor; lia).
  assert (H3 : (sum_list_with op_size ops <= length (content reader))%nat) by (cbn; lia).
  pose proof (finder_reports_matches level reader ops H1 H2 H3) as H.
  split; [exact H1|]. split; [exact H2|]. split; [exact H3|exact H].
Defined.

Example finder_keeps_trees_witness :
  checkValues level = true /\ bytes_ok (content reader) /\
  (sum_list_with op_size ops <= length (content reader))%nat /\
  let array := 2 <? numHashBytes level in
  let dict := 2 ^ cl_dictSize level in
  match (z ← newFinder reader level; finder_run level ops z) with
  | Ret (_, z) => exists org off,
      finder_inv (fun e => Failed e ∈ reader) (content reader) dict (fastBytes level)
        (if array then hash_mask dict else 0) array org off (mf z) /\
      org + iw_pos (bt_iw (mf z)) = Z.of_nat (sum_list_with op_size ops)
  | Fail e => Failed e ∈ reader
  | Panic => False
  end.
Proof.
  assert (H1 : checkValues level = true) by reflexivity.
  assert (H2 : bytes_ok (content reader)) by (repeat constructor; lia).
  assert (H3 : (sum_list_with op_size ops <= length (content reader))%nat) by (cbn; lia).
  pose proof (finder_keeps_trees level reader ops H1 H2 H3) as H.
  split; [exact H1|]. split; [exact H2|]. split; [exact H3|exact H].
Defined.

Example reports_are_choices_witness :
  good_report (content reader) level 3 12 [(5, 2)] /\
  match_ok (content reader) (2 ^ 12) 3 [0; 0; 0; 0] 4 6 = true /\
  match_ok (content reader) (2 ^ 12) 3 [0; 0; 0; 0] 12 6 = true.
Proof.
  assert (H : good_report (content reader) level (Z.of_nat 3) 12 [(5, 2)]).
  { split; [cbn; lia|]. split.
    - constructor; [|constructor]. cbn [fst snd]. repeat split; try (vm_compute; congruence).
      intros i Hi. assert (i = 0 \/ i = 1 \/ i = 2 \/ i = 3 \/ i = 4) as [->|[->|[->|[->| ->]]]] by lia; reflexivity.
    - cbn [last]. repeat split; try (vm_compute; congruence). }
  destruct (reports_are_choices (content reader) level 3 12 [(5, 2)] [0; 0; 0; 0]
              eq_refl ltac:(cbn; lia) eq_refl H) as [P1 P2].
  split; [exact H|]. split.
  - apply (P1 5 2 4); [by left|lia].
  - apply (P2 5 2); reflexivity.
Defined.
End Sample.
