(* ===== verification/LzmaPrices.v ===== *)
(** The prices of lzma2: range_coder.go's probPrices and getPrice, the getPrice methods of
    the bit trees, of lzma_len_coder.go and lzma_lit_coder.go, the price tables of
    lzma_encoder.go and the prices of packets that the optimal parser adds up.

    A price is 64 times the bits a symbol takes, rounded. The theorems: no price function
    fails on tables in their invariant, the price of a literal is bounded, and a price is
    the sum of the prices of exactly the bits that the matching encode method writes. *)

From Stdlib Require Import ZArith Lia.
From stdpp Require Import base numbers option list.
From S2P Require Import Prelude RangeCoder LzmaCoders LzmaWindow LzmaDecoder LzmaEncoder.
#[local] Open Scope Z_scope.

Definition kNumMoveReducingBits : Z := 2.
Definition kNumBitPriceShiftBits : Z := 6.
Definition kInfinityPrice : Z := 0x0FFFFFFF.

(** [for i := i; n more times; i++]. *)
Fixpoint for_range {S} (n : nat) (i : Z) (f : Z -> S -> outcome lzma_error S) (s : S)
    : outcome lzma_error S :=
  match n with
  | O => Ret s
  | S n' => s ← f i s; for_range n' (i + 1) f s
  end.

(** ** range_coder.go *)

(** The body of the two loops, for the value [j] of the inner one. *)
Definition probPrice (i j : Z) : Z :=
  let kNumBits := kNumBitModelTotalBits - kNumMoveReducingBits in
  let end_ := Z.shiftl 1 (kNumBits - i) in
  u32 (Z.shiftl i kNumBitPriceShiftBits +
       Z.shiftr (u32 (Z.shiftl (end_ - j) kNumBitPriceShiftBits)) (kNumBits - i - 1)).

(** The outer loop runs down from kNumBits - 1 to 0; [k] iterations are left. *)
Fixpoint initProbPrices_loop (k : nat) (probPrices : list Z) : outcome lzma_error (list Z) :=
  match k with
  | O => Ret probPrices
  | S i =>
      let kNumBits := kNumBitModelTotalBits - kNumMoveReducingBits in
      let start := Z.shiftl 1 (kNumBits - Z.of_nat i - 1) in
      let end_ := Z.shiftl 1 (kNumBits - Z.of_nat i) in
      probPrices ← for_range (Z.to_nat (end_ - start)) start
                     (fun j ps => store ps j (probPrice (Z.of_nat i) j)) probPrices;
      initProbPrices_loop i probPrices
  end.

Definition initProbPrices : outcome lzma_error (list Z) :=
  initProbPrices_loop (Z.to_nat (kNumBitModelTotalBits - kNumMoveReducingBits))
    (replicate (Z.to_nat (Z.shiftr kBitModelTotal kNumMoveReducingBits)) 0).

Section prob_prices.
Context (probPrices : list Z).

Definition getPrice (prob symbol : Z) : outcome lzma_error Z :=
  index probPrices
    (Z.shiftr (Z.land (Z.lxor (u32 (prob - symbol)) (u32 (- symbol))) (kBitModelTotal - 1))
       kNumMoveReducingBits).

Definition getPrice0 (prob : Z) : outcome lzma_error Z :=
  index probPrices (Z.shiftr prob kNumMoveReducingBits).

Definition getPrice1 (prob : Z) : outcome lzma_error Z :=
  index probPrices (Z.shiftr (u16 (kBitModelTotal - prob)) kNumMoveReducingBits).

(** ** range_bit_tree_coder.go *)

(** The loop of getPrice: bitIndex = [j'] after the decrement. *)
Fixpoint bt_getPrice_loop (j : nat) (res m symbol : Z) (models : list Z) : outcome lzma_error Z :=
  match j with
  | O => Ret res
  | S j' =>
      let bit := Z.land (Z.shiftr symbol (Z.of_nat j')) 1 in
      prob ← index models m;
      p ← getPrice prob bit;
      bt_getPrice_loop j' (u32 (res + p)) (u32 (u32 (Z.shiftl m 1) + bit)) symbol models
  end.

Definition bt_getPrice (symbol : Z) (rc : rangeBitTreeCoder) : outcome lzma_error Z :=
  bt_getPrice_loop (Z.to_nat (numBitLevels rc)) 0 1 symbol (models rc).

(** The loop shared by reverseGetPrice (startIndex 0) and reverseGetPriceIndex. *)
Fixpoint reverseGetPrice_loop (j : nat) (res startIndex m symbol : Z) (models : list Z)
    : outcome lzma_error Z :=
  match j with
  | O => Ret res
  | S j' =>
      let bit := Z.land symbol 1 in
      let symbol := Z.shiftr symbol 1 in
      prob ← index models (u32 (startIndex + m));
      p ← getPrice prob bit;
      reverseGetPrice_loop j' (u32 (res + p)) startIndex (Z.lor (u32 (Z.shiftl m 1)) bit) symbol models
  end.

Definition bt_reverseGetPrice (symbol : Z) (rc : rangeBitTreeCoder) : outcome lzma_error Z :=
  reverseGetPrice_loop (Z.to_nat (numBitLevels rc)) 0 0 1 symbol (models rc).

Definition reverseGetPriceIndex (models : list Z) (startIndex numBitLevels symbol : Z)
    : outcome lzma_error Z :=
  reverseGetPrice_loop (Z.to_nat numBitLevels) 0 startIndex 1 symbol models.

(** ** lzma_lit_coder.go *)

(** The second loop of getPrice, on i = [j'] .. 0. *)
Fixpoint lit_getPrice_loop (j : nat) (price context uSymbol : Z) (coders : list Z)
    : outcome lzma_error Z :=
  match j with
  | O => Ret price
  | S i =>
      let bit := Z.land (Z.shiftr uSymbol (Z.of_nat i)) 1 in
      prob ← index coders context;
      p ← getPrice prob bit;
      lit_getPrice_loop i (u32 (price + p)) (Z.lor (u32 (Z.shiftl context 1)) bit) uSymbol coders
  end.

(** The first loop, left at the first bit that differs from the match byte's. *)
Fixpoint lit_matchedPrice_loop (j : nat) (price context uMatchByte uSymbol : Z) (coders : list Z)
    : outcome lzma_error Z :=
  match j with
  | O => Ret price
  | S i =>
      let matchBit := Z.land (Z.shiftr uMatchByte (Z.of_nat i)) 1 in
      let bit := Z.land (Z.shiftr uSymbol (Z.of_nat i)) 1 in
      prob ← index coders (u32 (u32 (Z.shiftl (1 + matchBit) 8) + context));
      p ← getPrice prob bit;
      let price := u32 (price + p) in
      let context := Z.lor (u32 (Z.shiftl context 1)) bit in
      if negb (matchBit =? bit) then lit_getPrice_loop i price context uSymbol coders
      else lit_matchedPrice_loop i price context uMatchByte uSymbol coders
  end.

Definition lit_getPrice (matchMode : bool) (matchByte symbol : Z) (coders : list Z)
    : outcome lzma_error Z :=
  if matchMode then lit_matchedPrice_loop 8 0 1 matchByte symbol coders
  else lit_getPrice_loop 8 0 1 symbol coders.

(** z.litCoder.getSubCoder(pos, prevByte).getPrice(...). *)
Definition literalPrice (lc : litCoder) (pos prevByte : Z) (matchMode : bool) (matchByte symbol : Z)
    : outcome lzma_error Z :=
  match lit_coders lc !! Z.to_nat (getSubCoder lc pos prevByte) with
  | Some c => lit_getPrice matchMode matchByte symbol c
  | None => Panic
  end.

(** ** lzma_len_coder.go *)

(** coders[i].getPrice(symbol). *)
Definition coder_getPrice (cs : list (option rangeBitTreeCoder)) (i symbol : Z) : outcome lzma_error Z :=
  match cs !! Z.to_nat i with
  | Some (Some c) => bt_getPrice symbol c
  | _ => Panic
  end.

(** The three loops of setPrices are one on [i] that ends at numSymbols: the first two
    return there, and the ranges follow one another. *)
Definition setPrices (lc : lenCoder) (prices : list Z) (posState numSymbols st : Z)
    : outcome lzma_error (list Z) :=
  prob0 ← index (choice lc) 0;
  prob1 ← index (choice lc) 1;
  a0 ← getPrice0 prob0;
  a1 ← getPrice1 prob0;
  p0 ← getPrice0 prob1;
  p1 ← getPrice1 prob1;
  let b0 := u32 (a1 + p0) in
  let b1 := u32 (a1 + p1) in
  for_range (Z.to_nat numSymbols) 0 (fun i prices =>
    p ← (if i <? kNumLowLenSymbols then
           p ← coder_getPrice (lowCoder lc) posState i; Ret (u32 (a0 + p))
         else if i <? kNumLowLenSymbols + kNumMidLenSymbols then
           p ← coder_getPrice (midCoder lc) posState (i - kNumLowLenSymbols); Ret (u32 (b0 + p))
         else
           p ← bt_getPrice (i - kNumLowLenSymbols - kNumMidLenSymbols) (highCoder lc);
           Ret (u32 (b1 + p)));
    store prices (u32 (st + i)) p) prices.

(** The fields of a lenPriceTableCoder besides its lenCoder, which is a field of the coders. *)
Record lenTable := mkLenTable { lt_prices : list Z; lt_counters : list Z; lt_tableSize : Z }.

Definition updateTable (lc : lenCoder) (posState : Z) (t : lenTable) : outcome lzma_error lenTable :=
  prices ← setPrices lc (lt_prices t) posState (lt_tableSize t) (u32 (posState * kNumLenSymbols));
  counters ← store (lt_counters t) posState (lt_tableSize t);
  Ret (mkLenTable prices counters (lt_tableSize t)).

Definition newLenTable (lc : lenCoder) (tableSize numPosStates : Z) : outcome lzma_error lenTable :=
  for_range (Z.to_nat numPosStates) 0 (updateTable lc)
    (mkLenTable (replicate (Z.to_nat (Z.shiftl kNumLenSymbols kNumPosStatesBitsMax)) 0)
                (replicate (Z.to_nat kNumPosStatesMax) 0) tableSize).

(** What encode does after the lenCoder, now [lc], has coded the symbol. *)
Definition lenTable_encoded (lc : lenCoder) (posState : Z) (t : lenTable) : outcome lzma_error lenTable :=
  c ← index (lt_counters t) posState;
  let c := u32 (c - 1) in
  counters ← store (lt_counters t) posState c;
  let t := mkLenTable (lt_prices t) counters (lt_tableSize t) in
  if c =? 0 then updateTable lc posState t else Ret t.

Definition lenTable_getPrice (symbol posState : Z) (t : lenTable) : outcome lzma_error Z :=
  index (lt_prices t) (u32 (u32 (posState * kNumLenSymbols) + symbol)).
End prob_prices.

(** ** lzma_encoder.go *)

Definition getPosSlot2 (gFastPos : list Z) (pos : Z) : outcome lzma_error Z :=
  if pos <? Z.shiftl 1 17 then
    b ← index gFastPos (Z.shiftr pos 6); Ret (u8 (b + 12))
  else if pos <? Z.shiftl 1 27 then
    b ← index gFastPos (Z.shiftr pos 16); Ret (u8 (b + 32))
  else
    b ← index gFastPos (Z.shiftr pos 26); Ret (u8 (b + 52)).

(** The price tables of the encoder and the counters that tell when to refill them. *)
Record prices := mkPrices {
  lenT : lenTable; repLenT : lenTable;
  posSlotPrices : list Z; distancesPrices : list Z; alignPrices : list Z;
  matchPriceCount : Z; alignPriceCount : Z
}.

(** The tables that initGFastPos and initProbPrices fill. *)
Record tables := mkTables { gFastPos : list Z; probPrices : list Z }.

(** The first loop of fillDistancesPrices: the prices of the bits below the slot. *)
Definition fillTempPrices (T : tables) (cs : coders) : outcome lzma_error (list Z) :=
  for_range (Z.to_nat (kNumFullDistances - kStartPosModelIndex)) kStartPosModelIndex (fun i tempPrices =>
    posSlot ← getPosSlot (gFastPos T) i;
    let footerBits := u32 (Z.shiftr posSlot 1 - 1) in
    let baseVal := u32 (Z.shiftl (Z.lor 2 (Z.land posSlot 1)) footerBits) in
    p ← reverseGetPriceIndex (probPrices T) (posDecoders cs) (u32 (u32 (baseVal - posSlot) - 1))
          footerBits (u32 (i - baseVal));
    store tempPrices i p) (replicate (Z.to_nat kNumFullDistances) 0).

(** One turn of its second loop, for [lenToPosState]. *)
Definition fillSlot (T : tables) (cs : coders) (distTableSize : Z) (tempPrices : list Z)
    (lenToPosState : Z) (pd : list Z * list Z) : outcome lzma_error (list Z * list Z) :=
  let '(posSlotPrices, distancesPrices) := pd in
  let st := Z.shiftl lenToPosState kNumPosSlotBits in
  posSlotPrices ← for_range (Z.to_nat distTableSize) 0 (fun posSlot psp =>
    p ← coder_getPrice (probPrices T) (posSlotCoders cs) lenToPosState posSlot;
    store psp (u32 (st + posSlot)) p) posSlotPrices;
  posSlotPrices ← for_range (Z.to_nat (distTableSize - kEndPosModelIndex)) kEndPosModelIndex (fun posSlot psp =>
    p ← index psp (u32 (st + posSlot));
    store psp (u32 (st + posSlot))
      (u32 (p + u32 (Z.shiftl (u32 (Z.shiftr posSlot 1 - 1 - kNumAlignBits)) kNumBitPriceShiftBits))))
    posSlotPrices;
  let st2 := u32 (lenToPosState * kNumFullDistances) in
  distancesPrices ← for_range (Z.to_nat kStartPosModelIndex) 0 (fun i dp =>
    p ← index posSlotPrices (u32 (st + i));
    store dp (u32 (st2 + i)) p) distancesPrices;
  distancesPrices ← for_range (Z.to_nat (kNumFullDistances - kStartPosModelIndex)) kStartPosModelIndex (fun i dp =>
    posSlot ← getPosSlot (gFastPos T) i;
    p ← index posSlotPrices (u32 (st + posSlot));
    t ← index tempPrices i;
    store dp (u32 (st2 + i)) (u32 (p + t))) distancesPrices;
  Ret (posSlotPrices, distancesPrices).

Definition fillDistancesPrices (T : tables) (cs : coders) (distTableSize : Z) (pr : prices)
    : outcome lzma_error prices :=
  tempPrices ← fillTempPrices T cs;
  '(psp, dp) ← for_range (Z.to_nat kNumLenToPosStates) 0 (fillSlot T cs distTableSize tempPrices)
                 (posSlotPrices pr, distancesPrices pr);
  Ret (mkPrices (lenT pr) (repLenT pr) psp dp (alignPrices pr) 0 (alignPriceCount pr)).

Definition fillAlignPrices (T : tables) (cs : coders) (pr : prices) : outcome lzma_error prices :=
  ap ← for_range (Z.to_nat kAlignTableSize) 0 (fun i ap =>
         p ← bt_reverseGetPrice (probPrices T) i (posAlignCoder cs); store ap i p) (alignPrices pr);
  Ret (mkPrices (lenT pr) (repLenT pr) (posSlotPrices pr) (distancesPrices pr) ap
                (matchPriceCount pr) 0).

(** Prices of packets. *)
Section packet_prices.
Context (T : tables) (cs : coders) (pr : prices).

(** A price of one of the bit tables. *)
Definition bitPrice0 (probs : list Z) (i : Z) : outcome lzma_error Z :=
  prob ← index probs i; getPrice0 (probPrices T) prob.
Definition bitPrice1 (probs : list Z) (i : Z) : outcome lzma_error Z :=
  prob ← index probs i; getPrice1 (probPrices T) prob.

Definition getPureRepPrice (repIndex state posState : Z) : outcome lzma_error Z :=
  if repIndex =? 0 then
    price ← bitPrice0 (repG0Decoders cs) state;
    p ← bitPrice1 (rep0LongDecoders cs) (complexState state posState);
    Ret (u32 (price + p))
  else
    price ← bitPrice1 (repG0Decoders cs) state;
    if repIndex =? 1 then
      p ← bitPrice0 (repG1Decoders cs) state; Ret (u32 (price + p))
    else
      p ← bitPrice1 (repG1Decoders cs) state;
      let price := u32 (price + p) in
      prob ← index (repG2Decoders cs) state;
      p ← getPrice (probPrices T) prob (u32 (repIndex - 2));
      Ret (u32 (price + p)).

Definition getRepPrice (repIndex length state posState : Z) : outcome lzma_error Z :=
  price ← lenTable_getPrice (u32 (length - kMatchMinLen)) posState (repLenT pr);
  p ← getPureRepPrice repIndex state posState;
  Ret (u32 (price + p)).

Definition getPosLenPrice (pos length posState : Z) : outcome lzma_error Z :=
  let lenToPosState := getLenToPosState length in
  price ←
    (if pos <? kNumFullDistances then
       index (distancesPrices pr) (u32 (u32 (lenToPosState * kNumFullDistances) + pos))
     else
       slot ← getPosSlot2 (gFastPos T) pos;
       p ← index (posSlotPrices pr) (u32 (u32 (Z.shiftl lenToPosState kNumPosSlotBits) + slot));
       a ← index (alignPrices pr) (Z.land pos kAlignMask);
       Ret (u32 (p + a)));
  p ← lenTable_getPrice (u32 (length - kMatchMinLen)) posState (lenT pr);
  Ret (u32 (price + p)).

Definition getRepLen1Price (state posState : Z) : outcome lzma_error Z :=
  price ← bitPrice0 (repG0Decoders cs) state;
  p ← bitPrice0 (rep0LongDecoders cs) (complexState state posState);
  Ret (u32 (price + p)).
End packet_prices.

(** ** No price fails *)

(** A computation that returns a good value. *)
Definition returns {A} (Q : A -> Prop) (o : outcome lzma_error A) : Prop :=
  match o with Ret a => Q a | _ => False end.

Lemma returns_bind {A B} (Q : A -> Prop) (R : B -> Prop) o (f : A -> outcome lzma_error B) :
  returns Q o -> (forall a, Q a -> returns R (f a)) -> returns R (o ≫= f).
Proof. intros H Hf. destruct o; cbn in *; [by apply Hf|done|done]. Qed.

Lemma returns_weaken {A} (Q R : A -> Prop) o : returns Q o -> (forall a, Q a -> R a) -> returns R o.
Proof. destruct o; cbn; auto. Qed.

Lemma returns_inv {A} (Q : A -> Prop) o : returns Q o -> exists a, o = Ret a /\ Q a.
Proof. destruct o; cbn; [eauto|done|done]. Qed.

Lemma returns_index (Q : Z -> Prop) l i : 0 <= i < Z.of_nat (length l) ->
  (forall b, l !! Z.to_nat i = Some b -> Q b) -> returns Q (index l i).
Proof.
  intros Hi HQ. unfold index. destruct (lookup_lt_is_Some_2 l (Z.to_nat i)) as [b Hb]; [lia|].
  rewrite Hb. by apply HQ.
Qed.

Lemma returns_store l i b n : 0 <= i < Z.of_nat n -> length l = n ->
  returns (fun l' => length l' = n) (store l i b).
Proof.
  intros Hi Hl. unfold store. destruct (lookup_lt_is_Some_2 l (Z.to_nat i)) as [x Hx]; [lia|].
  rewrite Hx. cbn. by rewrite length_insert.
Qed.

Lemma for_range_ok {S} (I : S -> Prop) f n : forall i s, I s ->
  (forall j s, i <= j < i + Z.of_nat n -> I s -> returns I (f j s)) -> returns I (for_range n i f s).
Proof.
  induction n as [|n IH]; intros i s Hs Hf; cbn [for_range]; [done|].
  eapply returns_bind; [apply Hf; [lia|done]|]. intros s' Hs'. apply IH; [done|].
  intros j s1 Hj. apply Hf. lia.
Qed.

(** All 512 prices, by computation; the largest is 9 bits. *)
Definition kMaxBitPrice : Z := 576.
Definition probPrices_ok (pp : list Z) : Prop :=
  length pp = 512%nat /\ Forall (fun p => 0 <= p <= kMaxBitPrice) pp.

Lemma initProbPrices_check :
  match initProbPrices with
  | Ret pp => (length pp =? 512)%nat && forallb (fun p => (0 <=? p) && (p <=? kMaxBitPrice)) pp
  | _ => false
  end = true.
Proof. vm_compute. reflexivity. Qed.

Lemma initProbPrices_ok : exists pp, initProbPrices = Ret pp /\ probPrices_ok pp.
Proof.
  pose proof initProbPrices_check as H. destruct initProbPrices as [pp| |]; [|done|done].
  exists pp. split; [done|]. apply andb_true_iff in H as [H1 H2]. apply Nat.eqb_eq in H1.
  split; [done|]. apply Forall_forall. intros p Hp. rewrite forallb_forall in H2.
  specialize (H2 p ltac:(by apply list_elem_of_In)). zbool. lia.
Qed.

Section price_bounds.
Context (pp : list Z) (Hpp : probPrices_ok pp).

Definition bitPrice_ok (p : Z) : Prop := 0 <= p <= kMaxBitPrice.

Lemma price_lookup i : 0 <= i < 512 -> returns bitPrice_ok (index pp i).
Proof.
  intros Hi. destruct Hpp as [Hl Hf]. apply returns_index; [lia|]. intros b Hb.
  by eapply Forall_lookup_1 in Hf.
Qed.

Lemma getPrice_ok prob b : returns bitPrice_ok (getPrice pp prob b).
Proof.
  unfold getPrice. apply price_lookup. change (kBitModelTotal - 1) with (Z.ones 11).
  rewrite Z.land_ones by lia. rewrite Z.shiftr_div_pow2 by (vm_compute; discriminate).
  match goal with |- context [?a mod 2 ^ 11] => pose proof (Z.mod_pos_bound a (2 ^ 11) ltac:(lia)) end.
  change (2 ^ kNumMoveReducingBits) with 4. split; [apply Z.div_pos; lia|apply Z.div_lt_upper_bound; lia].
Qed.

Lemma getPrice0_ok prob : prob_ok prob -> returns bitPrice_ok (getPrice0 pp prob).
Proof.
  unfold prob_ok. intros H. apply price_lookup. rewrite Z.shiftr_div_pow2 by (vm_compute; discriminate).
  change (2 ^ kNumMoveReducingBits) with 4. split; [apply Z.div_pos; lia|apply Z.div_lt_upper_bound; lia].
Qed.

Lemma getPrice1_ok prob : prob_ok prob -> returns bitPrice_ok (getPrice1 pp prob).
Proof.
  unfold prob_ok. intros H. apply price_lookup. rewrite Z.shiftr_div_pow2 by (vm_compute; discriminate).
  change (2 ^ kNumMoveReducingBits) with 4. change kBitModelTotal with 2048. rewrite wrap_id by lia.
  split; [apply Z.div_pos; lia|apply Z.div_lt_upper_bound; lia].
Qed.

(** The two special cases agree with getPrice. *)
Lemma getPrice_0 prob : prob_ok prob -> getPrice pp prob 0 = getPrice0 pp prob.
Proof.
  unfold prob_ok. intros H. unfold getPrice, getPrice0. f_equal. f_equal.
  change (kBitModelTotal - 1) with (Z.ones 11). change (u32 (- 0)) with 0.
  rewrite Z.lxor_0_r, Z.land_ones, Z.sub_0_r, wrap_id by lia. apply Z.mod_small. lia.
Qed.

Lemma getPrice_1_index : forallb (fun k => let prob := Z.of_nat k in
  Z.land (Z.lxor (u32 (prob - 1)) (u32 (Z.opp 1))) (kBitModelTotal - 1)
  =? u16 (kBitModelTotal - prob)) (seq 1 2047) = true.
Proof. vm_compute. reflexivity. Qed.

Lemma getPrice_1 prob : prob_ok prob -> getPrice pp prob 1 = getPrice1 pp prob.
Proof.
  unfold prob_ok. intros H. pose proof getPrice_1_index as C. rewrite forallb_forall in C.
  specialize (C (Z.to_nat prob) ltac:(apply in_seq; lia)). cbv zeta in C. rewrite Z2Nat.id in C by lia.
  apply Z.eqb_eq in C. unfold getPrice, getPrice1. by rewrite C.
Qed.

Lemma index_prob L ps i : table L ps -> 0 <= i < L -> returns prob_ok (index ps i).
Proof.
  intros H Hi. destruct (table_lookup _ _ _ H Hi) as (p & Hp & Hok). unfold index. by rewrite Hp.
Qed.

Lemma bitPrice_at L ps i b : table L ps -> 0 <= i < L ->
  returns bitPrice_ok (prob ← index ps i; getPrice pp prob b).
Proof.
  intros H Hi. eapply returns_bind; [by eapply index_prob|]. intros prob _. apply getPrice_ok.
Qed.

Lemma bt_getPrice_loop_ok L j : forall res m symbol ps, table L ps -> 1 <= m ->
  (m + 1) * 2 ^ Z.of_nat j <= 2 * L -> L <= 2 ^ 30 ->
  returns (fun _ => True) (bt_getPrice_loop pp j res m symbol ps).
Proof.
  induction j as [|j IH]; intros res m symbol ps Ht Hm Hb HL; cbn [bt_getPrice_loop]; [done|].
  rewrite pow2_S in Hb. pose proof (pow2_pos j).
  pose proof (land_1_cases (Z.shiftr symbol (Z.of_nat j))) as Hb01. set (b := Z.land _ 1) in *.
  eapply returns_bind; [eapply index_prob; [exact Ht|nia]|]. intros prob _.
  eapply returns_bind; [apply getPrice_ok|]. intros p _.
  destruct (append_bit m b ltac:(nia) Hb01) as [_ A2]. rewrite A2.
  apply IH; [done|lia|destruct Hb01 as [-> | ->]; nia|done].
Qed.

Lemma bt_getPrice_ok n symbol rc : 0 <= n <= 30 -> bt_inv n rc ->
  returns (fun _ => True) (bt_getPrice pp symbol rc).
Proof.
  intros Hn [Hl Ht]. unfold bt_getPrice. rewrite Hl.
  assert (2 ^ n <= 2 ^ 30) by (apply Z.pow_le_mono_r; lia).
  eapply bt_getPrice_loop_ok; [exact Ht|lia| |lia]. rewrite Z2Nat.id by lia. lia.
Qed.

Lemma reverseGetPrice_loop_ok L n s j : forall k res m symbol ps, table L ps ->
  (forall m, 1 <= m < 2 ^ n -> 0 <= u32 (s + m) < L) -> n <= 30 -> 0 <= k ->
  n = k + Z.of_nat j -> 1 <= m < 2 ^ (k + 1) ->
  returns (fun _ => True) (reverseGetPrice_loop pp j res s m symbol ps).
Proof.
  induction j as [|j IH]; intros k res m symbol ps Ht Hidx Hn Hk En Hm; cbn [reverseGetPrice_loop]; [done|].
  assert (2 ^ (k + 1) <= 2 ^ n) by (apply Z.pow_le_mono_r; lia).
  assert (2 ^ n <= 2 ^ 30) by (apply Z.pow_le_mono_r; lia).
  pose proof (land_1_cases symbol) as Hb01. set (b := Z.land _ 1) in *.
  eapply returns_bind; [eapply index_prob; [exact Ht|apply Hidx; lia]|]. intros prob _.
  eapply returns_bind; [apply getPrice_ok|]. intros p _.
  destruct (append_bit m b ltac:(lia) Hb01) as [A1 _]. rewrite A1.
  apply (IH (k + 1)); try done; try lia. rewrite (Z.pow_add_r 2 (k + 1)) by lia. lia.
Qed.

Lemma bt_reverseGetPrice_ok n symbol rc : 0 <= n <= 30 -> bt_inv n rc ->
  returns (fun _ => True) (bt_reverseGetPrice pp symbol rc).
Proof.
  intros Hn [Hl Ht]. unfold bt_reverseGetPrice. rewrite Hl.
  assert (2 ^ n <= 2 ^ 30) by (apply Z.pow_le_mono_r; lia).
  apply (reverseGetPrice_loop_ok (2 ^ n) n 0 _ 0); try done; try lia.
  intros m Hm. rewrite wrap_id by lia. lia.
Qed.

(** Eight bits at most for a literal. *)
Lemma lit_getPrice_loop_ok j : forall price m symbol ps, lit_table ps -> lit_prefix j m ->
  0 <= price <= kMaxBitPrice * (8 - Z.of_nat j) ->
  returns (fun p => 0 <= p <= kMaxBitPrice * 8) (lit_getPrice_loop pp j price m symbol ps).
Proof.
  induction j as [|j IH]; intros price m symbol ps Ht Hm Hp; cbn [lit_getPrice_loop].
  { cbn [returns]. lia. }
  destruct (lit_prefix_S _ _ Hm) as [Hm256 Hstep]. pose proof (proj1 Hm).
  pose proof (land_1_cases (Z.shiftr symbol (Z.of_nat j))) as Hb01. set (b := Z.land _ 1) in *.
  eapply returns_bind; [eapply index_prob; [exact Ht|lia]|]. intros prob _.
  eapply returns_bind; [apply getPrice_ok|]. intros p Hp1. unfold bitPrice_ok in Hp1.
  destruct (append_bit m b ltac:(lia) Hb01) as [A1 _]. rewrite A1.
  unfold kMaxBitPrice in *. rewrite wrap_id by lia. apply IH; [done|by apply Hstep|lia].
Qed.

Lemma lit_matchedPrice_loop_ok j : forall price m mb symbol ps, lit_table ps -> lit_prefix j m ->
  0 <= price <= kMaxBitPrice * (8 - Z.of_nat j) ->
  returns (fun p => 0 <= p <= kMaxBitPrice * 8) (lit_matchedPrice_loop pp j price m mb symbol ps).
Proof.
  induction j as [|j IH]; intros price m mb symbol ps Ht Hm Hp; cbn [lit_matchedPrice_loop].
  { cbn [returns]. lia. }
  destruct (lit_prefix_S _ _ Hm) as [Hm256 Hstep]. pose proof (proj1 Hm).
  pose proof (land_1_cases (Z.shiftr symbol (Z.of_nat j))) as Hb01. set (b := Z.land (Z.shiftr symbol _) 1) in *.
  pose proof (land_1_cases (Z.shiftr mb (Z.of_nat j))) as Hmb. set (c := Z.land (Z.shiftr mb _) 1) in *.
  eapply returns_bind.
  { eapply index_prob; [exact Ht|]. destruct Hmb as [-> | ->].
    - change (u32 (Z.shiftl (1 + 0) 8)) with 256. rewrite wrap_id by lia. lia.
    - change (u32 (Z.shiftl (1 + 1) 8)) with 512. rewrite wrap_id by lia. lia. }
  intros prob _. eapply returns_bind; [apply getPrice_ok|]. intros p Hp1. unfold bitPrice_ok in Hp1.
  destruct (append_bit m b ltac:(lia) Hb01) as [A1 _]. rewrite A1.
  unfold kMaxBitPrice in *. rewrite wrap_id by lia.
  destruct (negb _); [apply lit_getPrice_loop_ok|apply IH]; try done; try (by apply Hstep);
    unfold kMaxBitPrice; lia.
Qed.

Lemma literalPrice_ok lc lp l pos prev mode mb b : 0 <= lc <= 8 -> 0 <= lp <= 4 -> lit_inv lc lp l ->
  0 <= pos -> byte_ok prev ->
  returns (fun p => 0 <= p <= kMaxBitPrice * 8) (literalPrice pp l pos prev mode mb b).
Proof.
  intros Hlc Hlp Hl Hpos Hprev. unfold literalPrice.
  destruct (lit_inv_lookup lc lp pos prev Hlc Hlp Hpos Hprev l Hl) as (t & -> & Ht).
  unfold lit_getPrice. destruct mode; [apply lit_matchedPrice_loop_ok|apply lit_getPrice_loop_ok];
    try done; try apply lit_prefix_init; cbn; lia.
Qed.
End price_bounds.

(** ** The tables keep their sizes *)

Record lenTable_ok (t : lenTable) : Prop := {
  lto_prices : length (lt_prices t) = 4352%nat;
  lto_counters : length (lt_counters t) = 16%nat;
  lto_size : 0 <= lt_tableSize t <= 272
}.

Record prices_ok (pr : prices) : Prop := {
  po_len : lenTable_ok (lenT pr);
  po_repLen : lenTable_ok (repLenT pr);
  po_slots : length (posSlotPrices pr) = 256%nat;
  po_dists : length (distancesPrices pr) = 512%nat;
  po_align : length (alignPrices pr) = 16%nat
}.

Definition tables_ok (T : tables) : Prop :=
  gFast_ok (gFastPos T) = true /\ probPrices_ok (probPrices T).

Section tables_kept.
Context (T : tables) (HT : tables_ok T).
Context (npos lc lp : Z) (Hnpos : 0 < npos <= 16).
Let pp := probPrices T.
Let Hpp : probPrices_ok pp := proj2 HT.

Lemma coder_getPrice_ok k n cs i symbol : 0 <= n <= 30 -> coders_inv k n cs -> 0 <= i < k ->
  returns (fun _ => True) (coder_getPrice pp cs i symbol).
Proof.
  intros Hn Hcs Hi. unfold coder_getPrice. destruct (Hcs i Hi) as (c & -> & Hc).
  by apply (bt_getPrice_ok pp Hpp n).
Qed.

Lemma setPrices_ok c ps posState numSymbols : lc_inv npos c -> 0 <= posState < npos ->
  length ps = 4352%nat -> 0 <= numSymbols <= 272 ->
  returns (fun ps' => length ps' = 4352%nat)
    (setPrices pp c ps posState numSymbols (u32 (posState * kNumLenSymbols))).
Proof.
  intros (Hch & Hlow & Hmid & Hhigh) Hps Hl Hn. unfold setPrices.
  eapply returns_bind; [eapply index_prob; [exact Hch|lia]|]. intros p0 Hp0.
  eapply returns_bind; [eapply index_prob; [exact Hch|lia]|]. intros p1 Hp1.
  eapply returns_bind; [by apply getPrice0_ok|]. intros a0 _.
  eapply returns_bind; [by apply getPrice1_ok|]. intros a1 _.
  eapply returns_bind; [by apply getPrice0_ok|]. intros b0 _.
  eapply returns_bind; [by apply getPrice1_ok|]. intros b1 _. cbn zeta.
  apply for_range_ok; [done|]. intros i prices Hi Hpl.
  apply (returns_bind (fun _ => True)).
  - destruct (i <? kNumLowLenSymbols); [|destruct (i <? _)].
    + eapply returns_bind; [by apply (coder_getPrice_ok npos kNumLowLenBits)|]. done.
    + eapply returns_bind; [by apply (coder_getPrice_ok npos kNumMidLenBits)|]. done.
    + eapply returns_bind; [by apply (bt_getPrice_ok pp Hpp kNumHighLenBits)|]. done.
  - intros p _. change kNumLenSymbols with 272. rewrite (wrap_id 32 (posState * 272)) by lia.
    rewrite wrap_id by lia. apply returns_store; [lia|done].
Qed.

Lemma updateTable_ok c posState t : lc_inv npos c -> 0 <= posState < npos -> lenTable_ok t ->
  returns lenTable_ok (updateTable pp c posState t).
Proof.
  intros Hc Hps [H1 H2 H3]. unfold updateTable.
  eapply returns_bind; [by apply setPrices_ok|]. intros ps Hl.
  eapply returns_bind; [by apply (returns_store _ _ _ 16); [lia|done]|]. intros cs Hcs. by constructor.
Qed.

Lemma newLenTable_ok c size : lc_inv npos c -> 0 <= size <= 272 ->
  returns lenTable_ok (newLenTable pp c size npos).
Proof.
  intros Hc Hs. apply for_range_ok.
  - constructor; cbn [lt_prices lt_counters lt_tableSize]; [apply length_replicate|apply length_replicate|done].
  - intros j t Hj Ht. apply updateTable_ok; [done|lia|done].
Qed.

Lemma lenTable_encoded_ok c posState t : lc_inv npos c -> 0 <= posState < npos -> lenTable_ok t ->
  returns lenTable_ok (lenTable_encoded pp c posState t).
Proof.
  intros Hc Hps [H1 H2 H3]. unfold lenTable_encoded.
  eapply (returns_bind (fun _ => True)); [apply returns_index; [lia|done]|]. intros n _.
  eapply returns_bind; [by apply (returns_store _ _ _ 16); [lia|done]|]. intros cs Hcs. cbn zeta.
  destruct (_ =? 0); [by apply updateTable_ok|by constructor].
Qed.

Lemma lenTable_getPrice_ok symbol posState t : lenTable_ok t -> 0 <= posState < 16 ->
  0 <= symbol < 272 -> returns (fun _ => True) (lenTable_getPrice symbol posState t).
Proof.
  intros [H1 _ _] Hp Hs. unfold lenTable_getPrice. change kNumLenSymbols with 272.
  rewrite (wrap_id 32 (posState * 272)), wrap_id by lia. apply returns_index; [lia|done].
Qed.

Lemma getPosSlot2_ok d : 0 <= d < 2 ^ 29 ->
  returns (fun s => 0 <= s < 64) (getPosSlot2 (gFastPos T) d).
Proof.
  intros Hd. unfold getPosSlot2. change (Z.shiftl 1 17) with (2 ^ 17). change (Z.shiftl 1 27) with (2 ^ 27).
  assert (Hk : forall k, 0 <= k -> d < 2 ^ (k + 11) -> 0 <= Z.shiftr d k < 2048).
  { intros k Hk Hlt. rewrite Z.shiftr_div_pow2 by lia. rewrite Z.pow_add_r in Hlt by lia.
    assert (0 < 2 ^ k) by (apply Z.pow_pos_nonneg; lia).
    split; [apply Z.div_pos; lia|apply Z.div_lt_upper_bound; lia]. }
  assert (Hs : forall i add, 0 <= i < 2048 -> 0 <= add <= 32 ->
    returns (fun s => 0 <= s < 64) (b ← index (gFastPos T) i; Ret (u8 (b + add)))).
  { intros i add Hi Ha. destruct (gFast_lookup _ i (proj1 HT) Hi) as (s & -> & Hs & _).
    cbn. rewrite wrap_id by lia. lia. }
  destruct (Z.ltb_spec d (2 ^ 17)); [|destruct (Z.ltb_spec d (2 ^ 27))]; [apply Hs| apply Hs|]; try lia;
    try (apply Hk; lia).
  assert (H26 : 0 <= Z.shiftr d 26 < 8).
  { rewrite Z.shiftr_div_pow2 by lia. split; [apply Z.div_pos; lia|apply Z.div_lt_upper_bound; lia]. }
  destruct (gFast_lookup _ (Z.shiftr d 26) (proj1 HT) ltac:(lia)) as (s & -> & Hs' & Hc).
  cbn. assert (s <= 5).
  { unfold slot_covers in Hc. destruct (Z.ltb_spec (Z.shiftr d 26) 2); [lia|]. destruct Hc as [H2 [Hc _]].
    destruct (Z.le_gt_cases s 5); [done|]. unfold slot_base, slot_bits in Hc.
    assert (3 <= s / 2) by (apply Z.div_le_lower_bound; lia).
    pose proof (Z.mod_pos_bound s 2 ltac:(lia)).
    pose proof (Z.pow_le_mono_r 2 2 (s / 2 - 1) ltac:(lia) ltac:(lia)). nia. }
  rewrite wrap_id by lia. lia.
Qed.
End tables_kept.

Section fills.
Context (T : tables) (HT : tables_ok T).
Context (npos lc lp : Z) (Hnpos : 0 < npos <= 16) (Hlc : 0 <= lc <= 8) (Hlp : 0 <= lp <= 4).
Context (cs : coders) (Hcs : coders_ok npos lc lp cs).
Let Hpp : probPrices_ok (probPrices T) := proj2 HT.

(** The slots below kEndPosModelIndex are those of the small distances. *)
Lemma small_slot i : 4 <= i < 128 ->
  returns (fun s => 4 <= s < 14 /\ slot_base s <= i < slot_base s + 2 ^ slot_bits s)
    (getPosSlot (gFastPos T) i).
Proof.
  intros Hi. destruct (getPosSlot_spec _ i (proj1 HT) ltac:(lia)) as (s & -> & Hs & Hc). cbn.
  unfold slot_covers in Hc. destruct (Z.ltb_spec i 2); [lia|]. destruct Hc as [H2 Hc].
  unfold slot_base, slot_bits in *. pose proof (Z.mod_pos_bound s 2 ltac:(lia)).
  pose proof (Z.div_mod s 2 ltac:(lia)). split; [split|done].
  - destruct (Z.le_gt_cases 4 s); [done|]. assert (Es : s / 2 = 1) by lia. rewrite Es in Hc.
    change (2 ^ (1 - 1)) with 1 in Hc. lia.
  - destruct (Z.le_gt_cases s 13); [lia|]. assert (7 <= s / 2) by lia.
    pose proof (Z.pow_le_mono_r 2 6 (s / 2 - 1) ltac:(lia) ltac:(lia)). change (2 ^ 6) with 64 in *. nia.
Qed.

Lemma fillTempPrices_ok : returns (fun l => length l = 128%nat) (fillTempPrices T cs).
Proof.
  unfold fillTempPrices. apply for_range_ok; [by apply length_replicate|].
  change (Z.to_nat (kNumFullDistances - kStartPosModelIndex)) with 124%nat.
  change kStartPosModelIndex with 4. intros i tp Hi Hl.
  eapply returns_bind; [by apply small_slot; lia|]. intros s (Hs & Hb). cbv beta zeta.
  destruct (slot_arith s ltac:(lia)) as (Hn & En & Eb & Hb0 & Hb1 & Hidx).
  destruct (Hidx ltac:(lia)) as [Hn5 Hix].
  set (n := u32 (Z.shiftr s 1 - 1)) in *. set (base := u32 (Z.shiftl (Z.lor 2 (Z.land s 1)) n)) in *.
  apply (returns_bind (fun _ => True)).
  - unfold reverseGetPriceIndex.
    apply (reverseGetPrice_loop_ok _ Hpp 114 n _ _ 0); try done; try lia. apply (ok_pos _ _ _ _ Hcs).
  - intros p _. apply returns_store; [lia|done].
Qed.

Lemma fillSlot_ok size tp j pd : 0 <= size <= 64 -> length tp = 128%nat -> 0 <= j < 4 ->
  length pd.1 = 256%nat /\ length pd.2 = 512%nat ->
  returns (fun pd => length pd.1 = 256%nat /\ length pd.2 = 512%nat) (fillSlot T cs size tp j pd).
Proof.
  intros Hsz Ht Hj. destruct pd as [psp dp]. cbn [fst snd]. intros [H1 H2]. unfold fillSlot. cbv zeta.
  rewrite Z.shiftl_mul_pow2 by (vm_compute; discriminate). change (2 ^ kNumPosSlotBits) with 64.
  change kNumFullDistances with 128. change kStartPosModelIndex with 4. change kEndPosModelIndex with 14.
  rewrite (wrap_id 32 (j * 128)) by lia.
  eapply (returns_bind (fun l => length l = 256%nat)).
  { apply for_range_ok; [done|]. intros i l Hi Hl.
    eapply returns_bind; [apply (coder_getPrice_ok T HT 4 6); try lia; apply (ok_posSlot _ _ _ _ Hcs)|].
    intros p _. rewrite wrap_id by lia. apply returns_store; [lia|done]. }
  clear psp H1. intros psp H1. eapply (returns_bind (fun l => length l = 256%nat)).
  { apply for_range_ok; [done|]. intros i l Hi Hl. rewrite (wrap_id 32 (j * 64 + i)) by lia.
    eapply (returns_bind (fun _ => True)); [apply returns_index; [lia|done]|].
    intros p _. apply returns_store; [lia|done]. }
  clear psp H1. intros psp H1. eapply (returns_bind (fun l => length l = 512%nat)).
  { apply for_range_ok; [done|]. intros i l Hi Hl. rewrite (wrap_id 32 (j * 64 + i)), wrap_id by lia.
    eapply (returns_bind (fun _ => True)); [apply returns_index; [lia|done]|].
    intros p _. apply returns_store; [lia|done]. }
  clear dp H2. intros dp H2. eapply (returns_bind (fun l => length l = 512%nat)).
  { apply for_range_ok; [done|]. intros i l Hi Hl. rewrite (wrap_id 32 (j * 128 + i)) by lia.
    eapply returns_bind; [by apply small_slot; lia|]. intros s (Hs & _).
    rewrite (wrap_id 32 (j * 64 + s)) by lia.
    eapply (returns_bind (fun _ => True)); [apply returns_index; [lia|done]|]. intros p _.
    eapply (returns_bind (fun _ => True)); [apply returns_index; [lia|done]|]. intros t _.
    apply returns_store; [lia|done]. }
  intros dp' H3. cbn. done.
Qed.

Lemma fillDistancesPrices_ok size pr : 0 <= size <= 64 -> prices_ok pr ->
  returns prices_ok (fillDistancesPrices T cs size pr).
Proof.
  intros Hsz [H1 H2 H3 H4 H5]. unfold fillDistancesPrices.
  eapply returns_bind; [apply fillTempPrices_ok|]. intros tp Htp.
  eapply returns_bind.
  { apply (for_range_ok (fun pd => length pd.1 = 256%nat /\ length pd.2 = 512%nat)); [done|].
    change (Z.to_nat kNumLenToPosStates) with 4%nat. intros j pd Hj Hpd. apply fillSlot_ok; try done; lia. }
  intros [psp dp] [Hp Hd]. by constructor.
Qed.

Lemma fillAlignPrices_ok pr : prices_ok pr -> returns prices_ok (fillAlignPrices T cs pr).
Proof.
  intros [H1 H2 H3 H4 H5]. unfold fillAlignPrices.
  eapply (returns_bind (fun l => length l = 16%nat)).
  { apply for_range_ok; [done|]. change (Z.to_nat kAlignTableSize) with 16%nat. intros i l Hi Hl.
    eapply returns_bind; [apply (bt_reverseGetPrice_ok _ Hpp 4); [lia|apply (ok_align _ _ _ _ Hcs)]|].
    intros p _. apply returns_store; [lia|done]. }
  intros ap Hap. by constructor.
Qed.

(** *** Packets *)

Context (pr : prices) (Hpr : prices_ok pr).

Lemma bitPrice0_ok L ps i : table L ps -> 0 <= i < L -> returns bitPrice_ok (bitPrice0 T ps i).
Proof.
  intros Ht Hi. eapply returns_bind; [by eapply index_prob|]. intros p. by apply getPrice0_ok.
Qed.

Lemma bitPrice1_ok L ps i : table L ps -> 0 <= i < L -> returns bitPrice_ok (bitPrice1 T ps i).
Proof.
  intros Ht Hi. eapply returns_bind; [by eapply index_prob|]. intros p. by apply getPrice1_ok.
Qed.

Lemma getPureRepPrice_ok i s ps : 0 <= i < 4 -> 0 <= s < 12 -> 0 <= ps < npos ->
  returns (fun _ => True) (getPureRepPrice T cs i s ps).
Proof.
  intros Hi Hs Hps. pose proof (complexState_bound s ps npos Hs Hps ltac:(lia)) as Hcx.
  unfold getPureRepPrice. destruct (i =? 0).
  - eapply returns_bind; [eapply bitPrice0_ok; [apply (ok_repG0 _ _ _ _ Hcs)|done]|]. intros p _.
    eapply returns_bind; [eapply bitPrice1_ok; [apply (ok_rep0Long _ _ _ _ Hcs)|done]|]. done.
  - eapply returns_bind; [eapply bitPrice1_ok; [apply (ok_repG0 _ _ _ _ Hcs)|done]|]. intros p _.
    destruct (i =? 1).
    + eapply returns_bind; [eapply bitPrice0_ok; [apply (ok_repG1 _ _ _ _ Hcs)|done]|]. done.
    + eapply returns_bind; [eapply bitPrice1_ok; [apply (ok_repG1 _ _ _ _ Hcs)|done]|]. intros p1 _.
      eapply returns_bind; [eapply index_prob; [apply (ok_repG2 _ _ _ _ Hcs)|done]|]. intros prob _.
      eapply returns_bind; [by apply getPrice_ok|]. done.
Qed.

Lemma getRepLen1Price_ok s ps : 0 <= s < 12 -> 0 <= ps < npos ->
  returns (fun _ => True) (getRepLen1Price T cs s ps).
Proof.
  intros Hs Hps. pose proof (complexState_bound s ps npos Hs Hps ltac:(lia)) as Hcx.
  unfold getRepLen1Price.
  eapply returns_bind; [eapply bitPrice0_ok; [apply (ok_repG0 _ _ _ _ Hcs)|done]|]. intros p _.
  eapply returns_bind; [eapply bitPrice0_ok; [apply (ok_rep0Long _ _ _ _ Hcs)|done]|]. done.
Qed.

Lemma lenPrice_ok t len ps : lenTable_ok t -> 2 <= len <= 273 -> 0 <= ps < npos ->
  returns (fun _ => True) (lenTable_getPrice (u32 (len - kMatchMinLen)) ps t).
Proof.
  intros Ht Hl Hps. change kMatchMinLen with 2. rewrite wrap_id by lia.
  apply lenTable_getPrice_ok; [done|lia|lia].
Qed.

Lemma getRepPrice_ok i len s ps : 0 <= i < 4 -> 2 <= len <= 273 -> 0 <= s < 12 -> 0 <= ps < npos ->
  returns (fun _ => True) (getRepPrice T cs pr i len s ps).
Proof.
  intros Hi Hl Hs Hps. unfold getRepPrice.
  eapply returns_bind; [by apply lenPrice_ok, Hps; [apply (po_repLen _ Hpr)|]|]. intros p _.
  eapply returns_bind; [by apply getPureRepPrice_ok|]. done.
Qed.

Lemma getPosLenPrice_ok d len ps : 0 <= d < 2 ^ 29 -> 2 <= len <= 273 -> 0 <= ps < npos ->
  returns (fun _ => True) (getPosLenPrice T pr d len ps).
Proof.
  intros Hd Hl Hps. unfold getPosLenPrice. pose proof (getLenToPosState_bound len ltac:(lia)) as Hls.
  set (ls := getLenToPosState len) in *. destruct Hpr as [H1 H2 H3 H4 H5].
  apply (returns_bind (fun _ => True)).
  - change kNumFullDistances with 128. destruct (Z.ltb_spec d 128).
    + rewrite (wrap_id 32 (ls * 128)), wrap_id by lia. apply returns_index; [lia|done].
    + eapply returns_bind; [by apply getPosSlot2_ok|]. intros s Hs. cbv beta in Hs.
      rewrite Z.shiftl_mul_pow2 by (vm_compute; discriminate). change (2 ^ kNumPosSlotBits) with 64.
      rewrite (wrap_id 32 (ls * 64)), wrap_id by lia.
      apply (returns_bind (fun _ => True)); [apply returns_index; [lia|done]|]. intros p _.
      apply (returns_bind (fun _ => True)); [apply returns_index; [|done]|done].
      rewrite H5. change kAlignMask with (Z.ones 4). rewrite Z.land_ones by lia.
      apply (Z.mod_pos_bound d 16). lia.
  - intros p _. eapply returns_bind; [by apply lenPrice_ok|]. done.
Qed.
End fills.

(** ** A price is the price of the bits that are coded *)

(** The bits a coder writes, each with the table entry it is coded by. *)
Fixpoint encode_bits (bits : list (Z * Z)) (ps : list Z) (re : rangeEncoder)
    : outcome lzma_error (list Z * rangeEncoder) :=
  match bits with
  | [] => Ret (ps, re)
  | (i, b) :: bits => '(ps, re) ← encode ps i b re; encode_bits bits ps re
  end.

(** Their prices, each by the entry as it is before the first bit. *)
Fixpoint bits_price (pp : list Z) (bits : list (Z * Z)) (ps : list Z) : outcome lzma_error Z :=
  match bits with
  | [] => Ret 0
  | (i, b) :: bits =>
      prob ← index ps i;
      p ← getPrice pp prob b;
      rest ← bits_price pp bits ps;
      Ret (p + rest)
  end.

(** What is priced is what is coded, and no entry is used twice. *)
Definition priced_as_coded (pp : list Z) (E : list Z -> rangeEncoder -> outcome lzma_error (list Z * rangeEncoder))
    (price : list Z -> outcome lzma_error Z) : Prop :=
  exists bits, NoDup (map fst bits) /\
    (forall ps re, E ps re = encode_bits bits ps re) /\
    (forall ps, price ps = (p ← bits_price pp bits ps; Ret (u32 p))).

Fixpoint tree_bits (j : nat) (m symbol : Z) : list (Z * Z) :=
  match j with
  | O => []
  | S j' => let bit := Z.land (Z.shiftr symbol (Z.of_nat j')) 1 in
            (m, bit) :: tree_bits j' (2 * m + bit) symbol
  end.

Fixpoint reverse_bits (j : nat) (m symbol : Z) : list (Z * Z) :=
  match j with
  | O => []
  | S j' => let bit := Z.land symbol 1 in (m, bit) :: reverse_bits j' (2 * m + bit) (Z.shiftr symbol 1)
  end.

Fixpoint matched_bits (j : nat) (m mb symbol : Z) : list (Z * Z) :=
  match j with
  | O => []
  | S j' =>
      let c := Z.land (Z.shiftr mb (Z.of_nat j')) 1 in
      let bit := Z.land (Z.shiftr symbol (Z.of_nat j')) 1 in
      (256 * (1 + c) + m, bit) ::
      if c =? bit then matched_bits j' (2 * m + bit) mb symbol else tree_bits j' (2 * m + bit) symbol
  end.

Section code_length.
Context (pp : list Z).

(** One bit, and the rest added up in 32 bits. *)
Lemma add_price (o : outcome lzma_error Z) b res (q : outcome lzma_error Z) (k : Z -> outcome lzma_error Z) :
  (forall p, k p = (rest ← q; Ret (u32 (u32 (res + p) + rest)))) ->
  (prob ← o; p ← getPrice pp prob b; k p) =
  (r ← (prob ← o; p ← getPrice pp prob b; rest ← q; Ret (p + rest)); Ret (u32 (res + r))).
Proof.
  intros Hk. destruct o as [prob| |]; cbn [mbind outcome_bind]; try done.
  destruct (getPrice pp prob b) as [p| |]; cbn [mbind outcome_bind]; try done. rewrite Hk.
  destruct q as [rest| |]; cbn [mbind outcome_bind]; try done.
  f_equal. unfold wrap. rewrite Zplus_mod_idemp_l. f_equal. lia.
Qed.

Lemma no_bits_price res : 0 <= res < 2 ^ 32 ->
  Ret res = (r ← Ret 0; Ret (u32 (res + r)) : outcome lzma_error Z).
Proof. intros H. cbn. by rewrite Z.add_0_r, wrap_id. Qed.

(** The prefix [m], with [j] bits to come, stays below 2^31. *)
Definition short_prefix (j : nat) (m : Z) : Prop := 1 <= m /\ (m + 1) * 2 ^ Z.of_nat j <= 2 ^ 31.

Lemma short_prefix_S j m b : short_prefix (S j) m -> b = 0 \/ b = 1 ->
  Z.lor (u32 (Z.shiftl m 1)) b = 2 * m + b /\ u32 (u32 (Z.shiftl m 1) + b) = 2 * m + b /\
  short_prefix j (2 * m + b) /\ m < 2 ^ 31.
Proof.
  intros [Hm Hb] Hb01. rewrite pow2_S in Hb. pose proof (pow2_pos j).
  destruct (append_bit m b ltac:(nia) Hb01) as [A1 A2].
  split; [done|]. split; [done|]. split; [|nia]. split; [lia|]. destruct Hb01 as [-> | ->]; nia.
Qed.

Lemma tree_price j : forall res m v ps, short_prefix j m -> 0 <= res < 2 ^ 32 ->
  bt_getPrice_loop pp j res m v ps = (r ← bits_price pp (tree_bits j m v) ps; Ret (u32 (res + r))).
Proof.
  induction j as [|j IH]; intros res m v ps Hm Hr; cbn [bt_getPrice_loop tree_bits bits_price]; [by apply no_bits_price|].
  destruct (short_prefix_S _ _ _ Hm (land_1_cases (Z.shiftr v (Z.of_nat j)))) as (_ & A2 & Hm' & _). rewrite A2.
  apply add_price. intros p. apply IH; [done|]. apply wrap_range. lia.
Qed.

Lemma tree_encode j : forall m v ps re, short_prefix j m ->
  bt_encode_loop j m v ps re = encode_bits (tree_bits j m v) ps re.
Proof.
  induction j as [|j IH]; intros m v ps re Hm; cbn [bt_encode_loop tree_bits encode_bits]; [done|].
  destruct (short_prefix_S _ _ _ Hm (land_1_cases (Z.shiftr v (Z.of_nat j)))) as (A1 & _ & Hm' & _). rewrite A1.
  destruct (encode _ _ _ _) as [[ps' re']| |]; cbn [mbind outcome_bind]; [by apply IH|done|done].
Qed.

Lemma reverse_price j : forall res m v ps, short_prefix j m -> 0 <= res < 2 ^ 32 ->
  reverseGetPrice_loop pp j res 0 m v ps = (r ← bits_price pp (reverse_bits j m v) ps; Ret (u32 (res + r))).
Proof.
  induction j as [|j IH]; intros res m v ps Hm Hr; cbn [reverseGetPrice_loop reverse_bits bits_price]; [by apply no_bits_price|].
  pose proof (proj1 Hm).
  destruct (short_prefix_S _ _ _ Hm (land_1_cases v)) as (A1 & _ & Hm' & Hm31). rewrite A1.
  rewrite Z.add_0_l, (wrap_id 32 m) by lia.
  apply add_price. intros p. apply IH; [done|]. apply wrap_range. lia.
Qed.

Lemma reverse_encode j : forall m v ps re, short_prefix j m ->
  reverseEncode_loop j 0 m v ps re = encode_bits (reverse_bits j m v) ps re.
Proof.
  induction j as [|j IH]; intros m v ps re Hm; cbn [reverseEncode_loop reverse_bits encode_bits]; [done|].
  pose proof (proj1 Hm).
  destruct (short_prefix_S _ _ _ Hm (land_1_cases v)) as (A1 & _ & Hm' & Hm31). rewrite A1.
  rewrite Z.add_0_l, (wrap_id 32 m) by lia.
  destruct (encode _ _ _ _) as [[ps' re']| |]; cbn [mbind outcome_bind]; [by apply IH|done|done].
Qed.

Lemma literal_price j : forall res m v ps, short_prefix j m -> 0 <= res < 2 ^ 32 ->
  lit_getPrice_loop pp j res m v ps = (r ← bits_price pp (tree_bits j m v) ps; Ret (u32 (res + r))).
Proof.
  induction j as [|j IH]; intros res m v ps Hm Hr; cbn [lit_getPrice_loop tree_bits bits_price]; [by apply no_bits_price|].
  destruct (short_prefix_S _ _ _ Hm (land_1_cases (Z.shiftr v (Z.of_nat j)))) as (A1 & _ & Hm' & _). rewrite A1.
  apply add_price. intros p. apply IH; [done|]. apply wrap_range. lia.
Qed.

Lemma literal_encode j : forall m v ps re, short_prefix j m ->
  lit_encode_loop j v m ps re = encode_bits (tree_bits j m v) ps re.
Proof.
  induction j as [|j IH]; intros m v ps re Hm; cbn [lit_encode_loop tree_bits encode_bits]; [done|].
  destruct (short_prefix_S _ _ _ Hm (land_1_cases (Z.shiftr v (Z.of_nat j)))) as (A1 & _ & Hm' & _). rewrite A1.
  destruct (encode _ _ _ _) as [[ps' re']| |]; cbn [mbind outcome_bind]; [by apply IH|done|done].
Qed.

(** The entry of a matched bit, as both loops compute it. *)
Lemma matched_index c m : c = 0 \/ c = 1 -> 1 <= m < 2 ^ 31 ->
  u32 (u32 (Z.shiftl (1 + c) 8) + m) = 256 * (1 + c) + m /\
  u32 (m + u32 (Z.shiftl (1 + c) 8)) = 256 * (1 + c) + m.
Proof.
  intros Hc Hm. rewrite Z.shiftl_mul_pow2 by lia. rewrite (wrap_id 32 (_ * _)) by lia.
  rewrite !wrap_id by lia. lia.
Qed.

Lemma matched_price j : forall res m mb v ps, short_prefix j m -> 0 <= res < 2 ^ 32 ->
  lit_matchedPrice_loop pp j res m mb v ps
  = (r ← bits_price pp (matched_bits j m mb v) ps; Ret (u32 (res + r))).
Proof.
  induction j as [|j IH]; intros res m mb v ps Hm Hr; cbn [lit_matchedPrice_loop matched_bits bits_price]; [by apply no_bits_price|].
  destruct (short_prefix_S _ _ _ Hm (land_1_cases (Z.shiftr v (Z.of_nat j)))) as (A1 & _ & Hm' & Hm31). rewrite A1.
  pose proof (proj1 Hm).
  destruct (matched_index _ m (land_1_cases (Z.shiftr mb (Z.of_nat j))) ltac:(lia)) as [I1 _]. rewrite I1.
  apply add_price. intros p. destruct (_ =? _); cbn [negb]; [apply IH|apply literal_price]; try done;
    apply wrap_range; lia.
Qed.

Lemma matched_encode j : forall m mb v ps re, short_prefix j m ->
  encodeMatched_loop j mb v m true ps re = encode_bits (matched_bits j m mb v) ps re.
Proof.
  induction j as [|j IH]; intros m mb v ps re Hm; cbn [encodeMatched_loop matched_bits encode_bits]; [done|].
  destruct (short_prefix_S _ _ _ Hm (land_1_cases (Z.shiftr v (Z.of_nat j)))) as (A1 & _ & Hm' & Hm31). rewrite A1.
  pose proof (proj1 Hm).
  destruct (matched_index _ m (land_1_cases (Z.shiftr mb (Z.of_nat j))) ltac:(lia)) as [_ I2]. rewrite I2.
  destruct (encode _ _ _ _) as [[ps' re']| |]; cbn [mbind outcome_bind]; [|done|done].
  destruct (_ =? _); [by apply IH|]. rewrite encodeMatched_diverged. by apply literal_encode.
Qed.

(** The entries are different: the prefix grows. *)
Lemma tree_bits_from j : forall m v, 1 <= m -> Forall (fun p => m <= p.1) (tree_bits j m v).
Proof.
  induction j as [|j IH]; intros m v Hm; cbn [tree_bits]; constructor; cbn [fst]; [lia|].
  pose proof (land_1_cases (Z.shiftr v (Z.of_nat j))).
  eapply Forall_impl; [apply IH; lia|]. cbv beta. intros p. lia.
Qed.

Lemma from_not_in (l : list (Z * Z)) m k : Forall (fun p => m <= p.1) l -> k < m -> k ∉ map fst l.
Proof.
  intros Hf Hk Hin. apply list_elem_of_fmap in Hin as (p & -> & Hp). rewrite Forall_forall in Hf.
  specialize (Hf _ Hp). lia.
Qed.

Lemma tree_bits_NoDup j : forall m v, 1 <= m -> NoDup (map fst (tree_bits j m v)).
Proof.
  induction j as [|j IH]; intros m v Hm; cbn [tree_bits map fst]; constructor;
    pose proof (land_1_cases (Z.shiftr v (Z.of_nat j))); [|apply IH; lia].
  eapply from_not_in; [apply tree_bits_from; lia|lia].
Qed.

Lemma reverse_bits_from j : forall m v, 1 <= m -> Forall (fun p => m <= p.1) (reverse_bits j m v).
Proof.
  induction j as [|j IH]; intros m v Hm; cbn [reverse_bits]; constructor; cbn [fst]; [lia|].
  pose proof (land_1_cases v). eapply Forall_impl; [apply IH; lia|]. cbv beta. intros p. lia.
Qed.

Lemma reverse_bits_NoDup j : forall m v, 1 <= m -> NoDup (map fst (reverse_bits j m v)).
Proof.
  induction j as [|j IH]; intros m v Hm; cbn [reverse_bits map fst]; constructor;
    pose proof (land_1_cases v); [|apply IH; lia].
  eapply from_not_in; [apply reverse_bits_from; lia|lia].
Qed.

Lemma lit_bits_mod j : forall m v, lit_prefix j m ->
  Forall (fun p => m <= p.1 mod 256 /\ p.1 < 256) (tree_bits j m v).
Proof.
  induction j as [|j IH]; intros m v Hm; cbn [tree_bits]; constructor; cbn [fst].
  - destruct (lit_prefix_S _ _ Hm) as [H _]. rewrite Z.mod_small by lia. lia.
  - destruct (lit_prefix_S _ _ Hm) as [H Hs]. pose proof (land_1_cases (Z.shiftr v (Z.of_nat j))) as Hb.
    eapply Forall_impl; [apply IH, Hs, Hb|]. cbv beta. intros p. lia.
Qed.

Lemma matched_bits_mod j : forall m mb v, lit_prefix j m ->
  Forall (fun p => m <= p.1 mod 256) (matched_bits j m mb v).
Proof.
  induction j as [|j IH]; intros m mb v Hm; cbn [matched_bits]; constructor; cbn [fst];
    destruct (lit_prefix_S _ _ Hm) as [H Hs]; pose proof (land_1_cases (Z.shiftr v (Z.of_nat j))) as Hb.
  - rewrite Z.add_comm, Z.mul_comm, Z.mod_add, Z.mod_small by lia. lia.
  - destruct (_ =? _); [eapply Forall_impl; [apply IH, Hs, Hb|]|eapply Forall_impl; [apply lit_bits_mod, Hs, Hb|]];
      cbv beta; intros p; lia.
Qed.

Lemma matched_bits_NoDup j : forall m mb v, lit_prefix j m -> NoDup (map fst (matched_bits j m mb v)).
Proof.
  induction j as [|j IH]; intros m mb v Hm; cbn [matched_bits map fst]; constructor;
    destruct (lit_prefix_S _ _ Hm) as [H Hs]; pose proof (land_1_cases (Z.shiftr v (Z.of_nat j))) as Hb.
  - intros Hin. apply list_elem_of_fmap in Hin as (p & Ep & Hp).
    assert (Hmod : (256 * (1 + Z.land (Z.shiftr mb (Z.of_nat j)) 1) + m) mod 256 = m).
    { rewrite Z.add_comm, Z.mul_comm, Z.mod_add, Z.mod_small by lia. lia. }
    rewrite Ep in Hmod. destruct (_ =? _).
    + pose proof (matched_bits_mod j (2 * m + Z.land (Z.shiftr v (Z.of_nat j)) 1) mb v (Hs _ Hb)) as Hf.
      rewrite Forall_forall in Hf. specialize (Hf _ Hp). lia.
    + pose proof (lit_bits_mod j (2 * m + Z.land (Z.shiftr v (Z.of_nat j)) 1) v (Hs _ Hb)) as Hf.
      rewrite Forall_forall in Hf. specialize (Hf _ Hp). lia.
  - destruct (_ =? _); [by apply IH, Hs|]. apply tree_bits_NoDup. lia.
Qed.
End code_length.

(** C8: a price is a code length: the getPrice methods of the bit trees, in both
    directions, and of the literal coder, plain and against a match byte, add up the
    prices of exactly the bits that the encode method writes for the symbol, each under
    the probability it is coded by, no entry of the table being used twice. *)
Theorem price_is_code_length pp n v mb : 0 <= n <= 30 ->
  priced_as_coded pp (fun ps re => '(rc, re) ← bt_encode v (mkBT ps n) re; Ret (models rc, re))
    (fun ps => bt_getPrice pp v (mkBT ps n)) /\
  priced_as_coded pp (fun ps re => '(rc, re) ← bt_reverseEncode v (mkBT ps n) re; Ret (models rc, re))
    (fun ps => bt_reverseGetPrice pp v (mkBT ps n)) /\
  priced_as_coded pp (lit_encode v) (lit_getPrice pp false mb v) /\
  priced_as_coded pp (encodeMatched mb v) (lit_getPrice pp true mb v).
Proof.
  intros Hn. assert (H2 : 2 ^ n <= 2 ^ 30) by (apply Z.pow_le_mono_r; lia).
  assert (Hs : short_prefix (Z.to_nat n) 1) by (split; [lia|rewrite Z2Nat.id by lia; lia]).
  assert (H8 : short_prefix 8 1) by (split; cbn; lia).
  split; [|split; [|split]].
  - exists (tree_bits (Z.to_nat n) 1 v). split; [by apply tree_bits_NoDup|].
    split; intros ps; [intros re|]; unfold bt_encode, bt_getPrice; cbn [numBitLevels models].
    + rewrite tree_encode by done. by destruct (encode_bits _ ps re) as [[? ?]| |].
    + by rewrite tree_price.
  - exists (reverse_bits (Z.to_nat n) 1 v). split; [by apply reverse_bits_NoDup|].
    split; intros ps; [intros re|]; unfold bt_reverseEncode, bt_reverseGetPrice; cbn [numBitLevels models].
    + rewrite reverse_encode by done. by destruct (encode_bits _ ps re) as [[? ?]| |].
    + by rewrite reverse_price.
  - exists (tree_bits 8 1 v). split; [by apply tree_bits_NoDup|].
    split; intros ps; [intros re; by apply literal_encode|by apply literal_price].
  - exists (matched_bits 8 1 mb v). split; [apply matched_bits_NoDup, lit_prefix_init|].
    split; intros ps; [intros re; by apply matched_encode|by apply matched_price].
Qed.

Example price_is_code_length_witness :
  exists pp, initProbPrices = Ret pp /\
    (* fresh tables: one bit each, 64 a bit *)
    bt_getPrice pp 37 (newRangeBitTreeCoder 6) = Ret (6 * 64) /\
    priced_as_coded pp (encodeMatched 97 98) (lit_getPrice pp true 97 98).
Proof.
  destruct initProbPrices as [pp| |] eqn:E; [|vm_compute in E; discriminate..].
  exists pp. split; [reflexivity|]. split.
  - vm_compute in E. injection E as <-. vm_compute. reflexivity.
  - destruct (price_is_code_length pp 6 37 97 ltac:(lia)) as (_ & _ & _ & H).
    destruct (price_is_code_length pp 8 98 97 ltac:(lia)) as (_ & _ & _ & H'). exact H'.
Defined.
