(* ===== verification/LzmaOptimum.v ===== *)
(** lzma2/lzma_encoder.go: the optimal parser. getOptimum looks ahead from the current byte
    over an array of nodes, one for each of the next bytes; a node holds the cheapest way
    found so far to get there and the encoder's state and distances after it. When the
    node that every way goes through is reached, backward turns the links around and the
    choices are handed out one by one.

    The code of getOptimum is cut into the functions below where it has blocks; the
    locals of the main loop are the fields of [node_ctx]. Only the definitions are here:
    LzmaOptimumOk shows what they compute. *)

From Stdlib Require Import ZArith Lia.
From stdpp Require Import base numbers option list.
From S2P Require Import Prelude RangeCoder LzmaCoders LzmaWindow LzmaDecoder LzmaEncoder LzmaPrices.
From S2P Require Import LzmaInWindow LzmaBinTree LzmaMatches.
#[local] Open Scope Z_scope.

(** ** Nodes *)

Record optimal := mkOptimal {
  o_state : Z; posPrev2 : Z; backPrev2 : Z; o_price : Z; posPrev : Z; backPrev : Z;
  backs0 : Z; backs1 : Z; backs2 : Z; backs3 : Z;
  prev1IsChar : bool; prev2 : bool
}.

(** A node of make: &optimal{}. *)
Definition optimal0 : optimal := mkOptimal 0 0 0 0 0 0 0 0 0 0 false false.

Definition makeAsChar (o : optimal) : optimal :=
  mkOptimal (o_state o) (posPrev2 o) (backPrev2 o) (o_price o) (posPrev o) 0xFFFFFFFF
    (backs0 o) (backs1 o) (backs2 o) (backs3 o) false (prev2 o).
Definition makeAsShortRep (o : optimal) : optimal :=
  mkOptimal (o_state o) (posPrev2 o) (backPrev2 o) (o_price o) (posPrev o) 0
    (backs0 o) (backs1 o) (backs2 o) (backs3 o) false (prev2 o).
Definition isShortRep (o : optimal) : bool := backPrev o =? 0.

(** Assignments to the fields of a node. *)
Definition set_price (price : Z) (o : optimal) : optimal :=
  mkOptimal (o_state o) (posPrev2 o) (backPrev2 o) price (posPrev o) (backPrev o)
    (backs0 o) (backs1 o) (backs2 o) (backs3 o) (prev1IsChar o) (prev2 o).
Definition set_posPrev (pos : Z) (o : optimal) : optimal :=
  mkOptimal (o_state o) (posPrev2 o) (backPrev2 o) (o_price o) pos (backPrev o)
    (backs0 o) (backs1 o) (backs2 o) (backs3 o) (prev1IsChar o) (prev2 o).
(** posPrev and backPrev. *)
Definition set_link (pos back : Z) (o : optimal) : optimal :=
  mkOptimal (o_state o) (posPrev2 o) (backPrev2 o) (o_price o) pos back
    (backs0 o) (backs1 o) (backs2 o) (backs3 o) (prev1IsChar o) (prev2 o).
Definition set_o_state (s : Z) (o : optimal) : optimal :=
  mkOptimal s (posPrev2 o) (backPrev2 o) (o_price o) (posPrev o) (backPrev o)
    (backs0 o) (backs1 o) (backs2 o) (backs3 o) (prev1IsChar o) (prev2 o).
Definition set_backs (r0 r1 r2 r3 : Z) (o : optimal) : optimal :=
  mkOptimal (o_state o) (posPrev2 o) (backPrev2 o) (o_price o) (posPrev o) (backPrev o)
    r0 r1 r2 r3 (prev1IsChar o) (prev2 o).
(** Reached by one packet from [pos]. *)
Definition set_packet (price pos back : Z) (o : optimal) : optimal :=
  mkOptimal (o_state o) (posPrev2 o) (backPrev2 o) price pos back
    (backs0 o) (backs1 o) (backs2 o) (backs3 o) false (prev2 o).
(** Reached by a literal, to [pos], and a repeat. *)
Definition set_char_rep (price pos : Z) (o : optimal) : optimal :=
  mkOptimal (o_state o) (posPrev2 o) (backPrev2 o) price pos 0
    (backs0 o) (backs1 o) (backs2 o) (backs3 o) true false.
(** Reached by a match from [pos2], a literal, to [pos], and a repeat. *)
Definition set_match_char_rep (price pos pos2 back2 : Z) (o : optimal) : optimal :=
  mkOptimal (o_state o) pos2 back2 price pos 0
    (backs0 o) (backs1 o) (backs2 o) (backs3 o) true true.

(** z.optimum[i], read and written through the pointer. *)
Definition node_at (opts : list optimal) (i : Z) : outcome lzma_error optimal :=
  match opts !! Z.to_nat i with Some o => Ret o | None => Panic end.
Definition node_upd (i : Z) (f : optimal -> optimal) (opts : list optimal)
    : outcome lzma_error (list optimal) :=
  o ← node_at opts i; Ret (<[Z.to_nat i := f o]> opts).

(** [if price < optimum.price { ... }]: [f] holds the assignments, the price included. *)
Definition relax (i price : Z) (f : optimal -> optimal) (opts : list optimal)
    : outcome lzma_error (list optimal) :=
  o ← node_at opts i;
  if price <? o_price o then Ret (<[Z.to_nat i := f o]> opts) else Ret opts.

(** [for lenEnd < offset { lenEnd++; optimum[lenEnd].price = kInfinityPrice }]. *)
Definition extend (offset lenEnd : Z) (opts : list optimal) : outcome lzma_error (Z * list optimal) :=
  if lenEnd <? offset then
    opts ← for_range (Z.to_nat (offset - lenEnd)) (lenEnd + 1)
             (fun i opts => node_upd i (set_price kInfinityPrice) opts) opts;
    Ret (offset, opts)
  else Ret (lenEnd, opts).

(** [n] turns of a loop that counts [i] down. *)
Fixpoint for_down {S} (n : nat) (i : Z) (f : Z -> S -> outcome lzma_error S) (s : S)
    : outcome lzma_error S :=
  match n with
  | O => Ret s
  | S n' => s ← f i s; for_down n' (i - 1) f s
  end.

(** ** The parser's fields of the encoder *)

Record parser := mkParser {
  pf : finder;
  longestMatchLen : Z; longestMatchFound : bool;
  optimum : list optimal; optimumEndIndex : Z; optimumCurrentIndex : Z;
  reps : list Z; repLens : list Z; backRes : Z
}.

Definition p_finder (f : finder) (p : parser) : parser :=
  mkParser f (longestMatchLen p) (longestMatchFound p) (optimum p) (optimumEndIndex p)
    (optimumCurrentIndex p) (reps p) (repLens p) (backRes p).
Definition p_longest (len : Z) (found : bool) (p : parser) : parser :=
  mkParser (pf p) len found (optimum p) (optimumEndIndex p)
    (optimumCurrentIndex p) (reps p) (repLens p) (backRes p).
Definition p_opts (opts : list optimal) (p : parser) : parser :=
  mkParser (pf p) (longestMatchLen p) (longestMatchFound p) opts (optimumEndIndex p)
    (optimumCurrentIndex p) (reps p) (repLens p) (backRes p).
Definition p_indices (end_ cur : Z) (p : parser) : parser :=
  mkParser (pf p) (longestMatchLen p) (longestMatchFound p) (optimum p) end_ cur
    (reps p) (repLens p) (backRes p).
Definition p_reps (rs ls : list Z) (p : parser) : parser :=
  mkParser (pf p) (longestMatchLen p) (longestMatchFound p) (optimum p) (optimumEndIndex p)
    (optimumCurrentIndex p) rs ls (backRes p).
Definition p_back (back : Z) (p : parser) : parser :=
  mkParser (pf p) (longestMatchLen p) (longestMatchFound p) (optimum p) (optimumEndIndex p)
    (optimumCurrentIndex p) (reps p) (repLens p) back.

Definition p_iw (p : parser) : lzInWindow := bt_iw (mf (pf p)).

Definition newParser (f : finder) : parser :=
  mkParser f 0 false (replicate (Z.to_nat kNumOpts) optimal0) 0 0
    (replicate (Z.to_nat kNumRepDistances) 0) (replicate (Z.to_nat kNumRepDistances) 0) 0.

(** ** backward *)

(** When the node's link is more than one packet, the nodes between get their own. *)
Definition spread (cur posMem : Z) (opts : list optimal) : outcome lzma_error (list optimal) :=
  o ← node_at opts cur;
  if prev1IsChar o then
    opts ← node_upd posMem makeAsChar opts;
    opts ← node_upd posMem (set_posPrev (u32 (posMem - 1))) opts;
    o ← node_at opts cur;
    if prev2 o then
      node_upd (u32 (posMem - 1)) (fun m =>
        mkOptimal (o_state m) (posPrev2 m) (backPrev2 m) (o_price m) (posPrev2 o) (backPrev2 o)
          (backs0 m) (backs1 m) (backs2 m) (backs3 m) false (prev2 m)) opts
    else Ret opts
  else Ret opts.

(** One turn of its loop: the next cur, posMem and backMem. *)
Definition backward_step (cur posMem backMem : Z) (opts : list optimal)
    : outcome lzma_error (Z * Z * Z * list optimal) :=
  opts ← spread cur posMem opts;
  m ← node_at opts posMem;
  opts ← node_upd posMem (set_link cur backMem) opts;
  Ret (posMem, posPrev m, backPrev m, opts).

(** Each turn goes down to a smaller index: [fuel] the index is enough. *)
Fixpoint backward_loop (fuel : nat) (cur posMem backMem : Z) (opts : list optimal)
    : outcome lzma_error (list optimal) :=
  match fuel with
  | O => Panic
  | S fuel' =>
      '(cur, posMem, backMem, opts) ← backward_step cur posMem backMem opts;
      if 0 <? cur then backward_loop fuel' cur posMem backMem opts else Ret opts
  end.

Definition backward (cur : Z) (p : parser) : outcome lzma_error (Z * parser) :=
  o ← node_at (optimum p) cur;
  opts ← backward_loop (Z.to_nat cur) cur (posPrev o) (backPrev o) (optimum p);
  o ← node_at opts 0;
  Ret (posPrev o, p_back (backPrev o) (p_indices cur (posPrev o) (p_opts opts p))).

(** ** getOptimum *)

Section getOptimum.
Context (T : tables) (cl : compressionLevel) (posStateMask : Z).
Context (cs : coders) (pr : prices) (v : evars).

Definition posStateOf (position : Z) : Z := Z.land position posStateMask.

(** *** The first byte *)

Definition mainMatch (p : parser) : outcome lzma_error (Z * parser) :=
  if negb (longestMatchFound p) then
    '(lenMain, f) ← readMatchDistances cl (pf p); Ret (lenMain, p_finder f p)
  else Ret (longestMatchLen p, p_longest (longestMatchLen p) false p).

(** The loop that copies the last distances and measures the matches at them; the index
    of the longest. *)
Definition measureReps (p : parser) : outcome lzma_error (Z * parser) :=
  for_range (Z.to_nat kNumRepDistances) 0 (fun i '(repMaxIndex, p) =>
    d ← index (repDistances v) i;
    rs ← store (reps p) i d;
    len ← getMatchLen (-1) d kMatchMaxLen (p_iw p);
    ls ← store (repLens p) i len;
    m ← index ls repMaxIndex;
    Ret (if m <? len then i else repMaxIndex, p_reps rs ls p)) (0, p).

(** optimum[1] by a literal or a short repeat; the prices of a match and of a repeat. *)
Definition firstPrices (position curByte matchByte : Z) (opts : list optimal)
    : outcome lzma_error (Z * Z * list optimal) :=
  let state := e_state v in
  let posState := posStateOf position in
  opts ← node_upd 0 (set_o_state state) opts;
  p ← bitPrice0 T (matchDecoders cs) (complexState state posState);
  l ← literalPrice (probPrices T) (litC cs) position (e_prevByte v)
        (negb (stateIsCharState state)) matchByte curByte;
  opts ← node_upd 1 (fun o => makeAsChar (set_price (u32 (p + l)) o)) opts;
  matchPrice ← bitPrice1 T (matchDecoders cs) (complexState state posState);
  p ← bitPrice1 T (repDecoders cs) state;
  let repMatchPrice := u32 (matchPrice + p) in
  opts ←
    (if matchByte =? curByte then
       p ← getRepLen1Price T cs state posState;
       let shortRepPrice := u32 (repMatchPrice + p) in
       relax 1 shortRepPrice (fun o => makeAsShortRep (set_price shortRepPrice o)) opts
     else Ret opts);
  Ret (matchPrice, repMatchPrice, opts).

(** The nodes that the repeats reach. *)
Definition firstReps (posState repMatchPrice : Z) (lens : list Z) (opts : list optimal)
    : outcome lzma_error (list optimal) :=
  for_range (Z.to_nat kNumRepDistances) 0 (fun i opts =>
    repLen ← index lens i;
    if repLen <? 2 then Ret opts
    else
      p ← getPureRepPrice T cs i (e_state v) posState;
      let price := u32 (repMatchPrice + p) in
      for_down (Z.to_nat (repLen - 1)) repLen (fun repLen opts =>
        p ← lenTable_getPrice (u32 (repLen - 2)) posState (repLenT pr);
        let curAndLenPrice := u32 (price + p) in
        relax repLen curAndLenPrice (set_packet curAndLenPrice 0 i) opts) opts) opts.

(** [for length > z.matchDistances[offs] { offs += 2 }]: the array ends it. *)
Fixpoint find_offs (fuel : nat) (length offs : Z) (distances : list Z) : outcome lzma_error Z :=
  match fuel with
  | O => Panic
  | S fuel' =>
      l ← index distances offs;
      if l <? length then find_offs fuel' length (u32 (offs + 2)) distances else Ret offs
  end.

(** The nodes that the matches reach; [fuel] the lengths there are. *)
Fixpoint firstMatches (fuel : nat) (posState normalMatchPrice length offs distancePairs : Z)
    (distances : list Z) (opts : list optimal) : outcome lzma_error (list optimal) :=
  match fuel with
  | O => Panic
  | S fuel' =>
      distance ← index distances (u32 (offs + 1));
      p ← getPosLenPrice T pr distance length posState;
      let curAndLenPrice := u32 (normalMatchPrice + p) in
      opts ← relax length curAndLenPrice
               (set_packet curAndLenPrice 0 (u32 (distance + kNumRepDistances))) opts;
      l ← index distances offs;
      if length =? l then
        let offs := u32 (offs + 2) in
        if offs =? distancePairs then Ret opts
        else firstMatches fuel' posState normalMatchPrice (u32 (length + 1)) offs distancePairs distances opts
      else firstMatches fuel' posState normalMatchPrice (u32 (length + 1)) offs distancePairs distances opts
  end.

(** *** A node of the main loop *)

(** What the code keeps of the node [cur] in local variables. *)
Record node_ctx := mkCtx {
  c_cur : Z; c_position : Z; c_state : Z; c_posState : Z; c_reps : list Z;
  c_matchPrice : Z; c_repMatchPrice : Z; c_full : Z; c_avail : Z
}.

(** The state after the node and the distances [rs] of z.reps, by the node's link. *)
Definition nodeState (cur : Z) (rs : list Z) (opts : list optimal)
    : outcome lzma_error (Z * list Z) :=
  o ← node_at opts cur;
  '(posPrev1, state) ←
    (if prev1IsChar o then
       let posPrev1 := u32 (posPrev o - 1) in
       state ←
         (if prev2 o then
            o2 ← node_at opts (posPrev2 o);
            Ret (if backPrev2 o <? kNumRepDistances then stateUpdateRep (o_state o2)
                 else stateUpdateMatch (o_state o2))
          else o1 ← node_at opts posPrev1; Ret (o_state o1));
       Ret (posPrev1, stateUpdateChar state)
     else o1 ← node_at opts (posPrev o); Ret (posPrev o, o_state o1));
  if posPrev1 =? u32 (cur - 1) then
    Ret (if isShortRep o then stateUpdateShortRep state else stateUpdateChar state, rs)
  else
    let '(posPrev1, pos, state) :=
      if prev1IsChar o && prev2 o then (posPrev2 o, backPrev2 o, stateUpdateRep state)
      else (posPrev1, backPrev o,
            if backPrev o <? kNumRepDistances then stateUpdateRep state else stateUpdateMatch state) in
    opt ← node_at opts posPrev1;
    Ret (state,
         if pos <? kNumRepDistances then
           if pos =? 0 then [backs0 opt; backs1 opt; backs2 opt; backs3 opt]
           else if pos =? 1 then [backs1 opt; backs0 opt; backs2 opt; backs3 opt]
           else if pos =? 2 then [backs2 opt; backs0 opt; backs1 opt; backs3 opt]
           else [backs3 opt; backs0 opt; backs1 opt; backs2 opt]
         else [u32 (pos - kNumRepDistances); backs0 opt; backs1 opt; backs2 opt]).

(** optimum[i].backs0, ... = z.reps[0], ...: z.reps has four entries. *)
Definition store_backs (i : Z) (rs : list Z) (opts : list optimal) : outcome lzma_error (list optimal) :=
  match rs with
  | [r0; r1; r2; r3] => node_upd i (set_backs r0 r1 r2 r3) opts
  | _ => Panic
  end.

(** The next node by a literal; its price, and whether it was taken. *)
Definition relaxChar (c : node_ctx) (curPrice curByte matchByte : Z) (iw : lzInWindow) (opts : list optimal)
    : outcome lzma_error (Z * bool * list optimal) :=
  p ← bitPrice0 T (matchDecoders cs) (complexState (c_state c) (c_posState c));
  prevByte ← getIndexByte (-2) iw;
  l ← literalPrice (probPrices T) (litC cs) (c_position c) prevByte
        (negb (stateIsCharState (c_state c))) matchByte curByte;
  let curAnd1Price := u32 (u32 (curPrice + p) + l) in
  o ← node_at opts (u32 (c_cur c + 1));
  opts' ← relax (u32 (c_cur c + 1)) curAnd1Price
            (fun o => makeAsChar (set_posPrev (c_cur c) (set_price curAnd1Price o))) opts;
  Ret (curAnd1Price, curAnd1Price <? o_price o, opts').

(** The next node by a short repeat. *)
Definition relaxShortRep (c : node_ctx) (curByte matchByte : Z) (nextIsChar : bool) (opts : list optimal)
    : outcome lzma_error (bool * list optimal) :=
  o ← node_at opts (u32 (c_cur c + 1));
  if (matchByte =? curByte) && negb ((posPrev o <? c_cur c) && (backPrev o =? 0)) then
    p ← getRepLen1Price T cs (c_state c) (c_posState c);
    let shortRepPrice := u32 (c_repMatchPrice c + p) in
    if shortRepPrice <=? o_price o then
      opts ← node_upd (u32 (c_cur c + 1)) (fun o =>
               makeAsShortRep (set_posPrev (c_cur c) (set_price shortRepPrice o))) opts;
      Ret (true, opts)
    else Ret (nextIsChar, opts)
  else Ret (nextIsChar, opts).

(** A literal, then a repeat of the last distance. *)
Definition relaxCharRep (c : node_ctx) (curAnd1Price : Z) (iw : lzInWindow) (s : Z * list optimal)
    : outcome lzma_error (Z * list optimal) :=
  let '(lenEnd, opts) := s in
  let t := minUInt32 (u32 (c_full c - 1)) (fastBytes cl) in
  rep0 ← index (c_reps c) 0;
  lenTest2 ← getMatchLen 0 rep0 t iw;
  if 2 <=? lenTest2 then
    let state2 := stateUpdateChar (c_state c) in
    let posStateNext := posStateOf (u32 (c_position c + 1)) in
    p1 ← bitPrice1 T (matchDecoders cs) (complexState state2 posStateNext);
    p2 ← bitPrice1 T (repDecoders cs) state2;
    let nextRepMatchPrice := u32 (u32 (curAnd1Price + p1) + p2) in
    let offset := u32 (u32 (c_cur c + 1) + lenTest2) in
    '(lenEnd, opts) ← extend offset lenEnd opts;
    p ← getRepPrice T cs pr 0 lenTest2 state2 posStateNext;
    let curAndLenPrice := u32 (nextRepMatchPrice + p) in
    opts ← relax offset curAndLenPrice (set_char_rep curAndLenPrice (u32 (c_cur c + 1))) opts;
    Ret (lenEnd, opts)
  else Ret (lenEnd, opts).

(** The block that getOptimum has twice: after a match of [lenTest] bytes at [dist], coded
    by [back] at the price [base], with the state [state2], a literal and a repeat of the
    distance. [matchInd] is the index of the literal's match byte. *)
Definition relaxMatchCharRep (c : node_ctx) (lenTest dist state2 back matchInd : Z)
    (base : outcome lzma_error Z) (iw : lzInWindow) (s : Z * list optimal)
    : outcome lzma_error (Z * list optimal) :=
  let '(lenEnd, opts) := s in
  if lenTest <? c_full c then
    let t := minUInt32 (u32 (u32 (c_full c - 1) - lenTest)) (fastBytes cl) in
    lenTest2 ← getMatchLen (i32 lenTest) dist t iw;
    if 2 <=? lenTest2 then
      let position := u32 (c_position c + lenTest) in
      let posStateNext := posStateOf position in
      price ← base;
      p ← bitPrice0 T (matchDecoders cs) (complexState state2 posStateNext);
      prevByte ← getIndexByte (i32 (i32 (i32 lenTest - 1) - 1)) iw;
      matchByte ← getIndexByte matchInd iw;
      curByte ← getIndexByte (i32 (i32 lenTest - 1)) iw;
      l ← literalPrice (probPrices T) (litC cs) position prevByte true matchByte curByte;
      let curAndLenCharPrice := u32 (u32 (price + p) + l) in
      let state2 := stateUpdateChar state2 in
      let posStateNext := posStateOf (u32 (position + 1)) in
      p1 ← bitPrice1 T (matchDecoders cs) (complexState state2 posStateNext);
      p2 ← bitPrice1 T (repDecoders cs) state2;
      let nextRepMatchPrice := u32 (u32 (curAndLenCharPrice + p1) + p2) in
      let offset := u32 (u32 (lenTest + 1) + lenTest2) in
      '(lenEnd, opts) ← extend (u32 (c_cur c + offset)) lenEnd opts;
      p ← getRepPrice T cs pr 0 lenTest2 state2 posStateNext;
      let curAndLenPrice := u32 (nextRepMatchPrice + p) in
      opts ← relax (u32 (c_cur c + offset)) curAndLenPrice
               (set_match_char_rep curAndLenPrice (u32 (u32 (c_cur c + lenTest) + 1)) (c_cur c) back) opts;
      Ret (lenEnd, opts)
    else Ret (lenEnd, opts)
  else Ret (lenEnd, opts).

(** One turn of the loop over the four distances: every length of the repeat, then the
    repeat with a literal and the same distance. *)
Definition relaxRep (c : node_ctx) (iw : lzInWindow) (repIndex : Z) (s : Z * (Z * list optimal))
    : outcome lzma_error (Z * (Z * list optimal)) :=
  let '(startLen, s) := s in
  d ← index (c_reps c) repIndex;
  lenTest ← getMatchLen (-1) d (c_avail c) iw;
  if lenTest <? 2 then Ret (startLen, s)
  else
    s ← for_down (Z.to_nat (lenTest - 1)) lenTest (fun lenTest '(lenEnd, opts) =>
          '(lenEnd, opts) ← extend (u32 (c_cur c + lenTest)) lenEnd opts;
          p ← getRepPrice T cs pr repIndex lenTest (c_state c) (c_posState c);
          let curAndLenPrice := u32 (c_repMatchPrice c + p) in
          opts ← relax (u32 (c_cur c + lenTest)) curAndLenPrice
                   (set_packet curAndLenPrice (c_cur c) repIndex) opts;
          Ret (lenEnd, opts)) s;
    let startLen := if repIndex =? 0 then u32 (lenTest + 1) else startLen in
    s ← relaxMatchCharRep c lenTest d (stateUpdateRep (c_state c)) repIndex
          (i32 (i32 (i32 lenTest - 1) - i32 (u32 (d + 1))))
          (p ← getRepPrice T cs pr repIndex lenTest (c_state c) (c_posState c);
           Ret (u32 (c_repMatchPrice c + p))) iw s;
    Ret (startLen, s).

(** The loop over the lengths of the new matches; [fuel] the lengths there are. *)
Fixpoint relaxMatches (fuel : nat) (c : node_ctx) (iw : lzInWindow)
    (normalMatchPrice lenTest offs distancePairs : Z) (distances : list Z) (s : Z * list optimal)
    : outcome lzma_error (Z * list optimal) :=
  match fuel with
  | O => Panic
  | S fuel' =>
      let '(lenEnd, opts) := s in
      curBack ← index distances (u32 (offs + 1));
      p ← getPosLenPrice T pr curBack lenTest (c_posState c);
      let curAndLenPrice := u32 (normalMatchPrice + p) in
      opts ← relax (u32 (c_cur c + lenTest)) curAndLenPrice
               (set_packet curAndLenPrice (c_cur c) (u32 (curBack + kNumRepDistances))) opts;
      l ← index distances offs;
      if lenTest =? l then
        s ← relaxMatchCharRep c lenTest curBack (stateUpdateMatch (c_state c))
              (u32 (curBack + kNumRepDistances))
              (i32 (i32 (i32 lenTest - i32 (i32 curBack + 1)) - 1)) (Ret curAndLenPrice) iw (lenEnd, opts);
        let offs := u32 (offs + 2) in
        if offs =? distancePairs then Ret s
        else relaxMatches fuel' c iw normalMatchPrice (u32 (lenTest + 1)) offs distancePairs distances s
      else relaxMatches fuel' c iw normalMatchPrice (u32 (lenTest + 1)) offs distancePairs distances (lenEnd, opts)
  end.

(** A longest match that goes past what may be used is cut, in matchDistances too. *)
Definition cutMatches (newLen avail distancePairs : Z) (distances : list Z)
    : outcome lzma_error (Z * Z * list Z) :=
  if avail <? newLen then
    offs ← find_offs (length distances) avail 0 distances;
    distances ← store distances offs avail;
    Ret (avail, u32 (offs + 2), distances)
  else Ret (newLen, distancePairs, distances).

Definition p_distances (distances : list Z) (p : parser) : parser :=
  p_finder (mkFinder (mf (pf p)) distances (distancePairs (pf p)) (additionalOffset (pf p))) p.

(** The ways on from the node with more than one byte. *)
Definition relaxLonger (c : node_ctx) (newLen curAnd1Price curByte matchByte : Z) (nextIsChar : bool)
    (lenEnd : Z) (p : parser) : outcome lzma_error (Z * parser) :=
  let iw := p_iw p in
  s ← (if negb nextIsChar && negb (matchByte =? curByte)
       then relaxCharRep c curAnd1Price iw (lenEnd, optimum p) else Ret (lenEnd, optimum p));
  '(startLen, s) ← for_range (Z.to_nat kNumRepDistances) 0 (relaxRep c iw) (2, s);
  '(newLen, distancePairs, distances) ←
    cutMatches newLen (c_avail c) (distancePairs (pf p)) (matchDistances (pf p));
  let p := p_distances distances p in
  if startLen <=? newLen then
    p1 ← bitPrice0 T (repDecoders cs) (c_state c);
    let normalMatchPrice := u32 (c_matchPrice c + p1) in
    let '(lenEnd, opts) := s in
    s ← extend (u32 (c_cur c + newLen)) lenEnd opts;
    offs ← find_offs (length distances) startLen 0 distances;
    '(lenEnd, opts) ← relaxMatches (Z.to_nat kMatchMaxLen) c iw normalMatchPrice startLen offs
                        distancePairs distances s;
    Ret (lenEnd, p_opts opts p)
  else let '(lenEnd, opts) := s in Ret (lenEnd, p_opts opts p).

(** The part of the main loop after its two exits, for a match of [newLen]. *)
Definition relaxNode (cur lenEnd position newLen : Z) (p : parser) : outcome lzma_error (Z * parser) :=
  '(state, rs) ← nodeState cur (reps p) (optimum p);
  opts ← node_upd cur (set_o_state state) (optimum p);
  opts ← store_backs cur rs opts;
  let p := p_reps rs (repLens p) p in
  o ← node_at opts cur;
  let curPrice := o_price o in
  curByte ← getIndexByte (-1) (p_iw p);
  rep0 ← index rs 0;
  matchByte ← getIndexByte (i32 (i32 (i32 (0 - i32 rep0) - 1) - 1)) (p_iw p);
  let posState := posStateOf position in
  let c := mkCtx cur position state posState rs 0 0 0 0 in
  '(curAnd1Price, nextIsChar, opts) ← relaxChar c curPrice curByte matchByte (p_iw p) opts;
  p1 ← bitPrice1 T (matchDecoders cs) (complexState state posState);
  let matchPrice := u32 (curPrice + p1) in
  p2 ← bitPrice1 T (repDecoders cs) state;
  let repMatchPrice := u32 (matchPrice + p2) in
  let c := mkCtx cur position state posState rs matchPrice repMatchPrice 0 0 in
  '(nextIsChar, opts) ← relaxShortRep c curByte matchByte nextIsChar opts;
  let p := p_opts opts p in
  let full := minUInt32 (u32 (u32 (kNumOpts - 1) - cur)) (u32 (getNumAvailableBytes (p_iw p) + 1)) in
  if full <? 2 then Ret (lenEnd, p)
  else
    let avail := if fastBytes cl <? full then fastBytes cl else full in
    let c := mkCtx cur position state posState rs matchPrice repMatchPrice full avail in
    relaxLonger c newLen curAnd1Price curByte matchByte nextIsChar lenEnd p.

(** *** The main loop *)

(** The nodes go up to lenEnd < kNumOpts, [fuel] turns. *)
Fixpoint optimum_loop (fuel : nat) (cur lenEnd position : Z) (p : parser)
    : outcome lzma_error (Z * parser) :=
  match fuel with
  | O => Panic
  | S fuel' =>
      let cur := u32 (cur + 1) in
      if cur =? lenEnd then backward cur p
      else
        '(newLen, f) ← readMatchDistances cl (pf p);
        let p := p_finder f p in
        if fastBytes cl <=? newLen then backward cur (p_longest newLen true p)
        else
          let position := u32 (position + 1) in
          '(lenEnd, p) ← relaxNode cur lenEnd position newLen p;
          optimum_loop fuel' cur lenEnd position p
  end.

(** The nodes that the first byte's packets reach, then the main loop. *)
Definition fromFirst (position lenMain repMax curByte matchByte : Z) (p : parser)
    : outcome lzma_error (Z * parser) :=
  let posState := posStateOf position in
  '(matchPrice, repMatchPrice, opts) ← firstPrices position curByte matchByte (optimum p);
  let lenEnd := if repMax <? lenMain then lenMain else repMax in
  if lenEnd <? 2 then
    o ← node_at opts 1;
    Ret (1, p_back (backPrev o) (p_opts opts p))
  else
    opts ← node_upd 1 (set_posPrev 0) opts;
    opts ← store_backs 0 (reps p) opts;
    opts ← for_down (Z.to_nat (lenEnd - 1)) lenEnd
             (fun i opts => node_upd i (set_price kInfinityPrice) opts) opts;
    opts ← firstReps posState repMatchPrice (repLens p) opts;
    p1 ← bitPrice0 T (repDecoders cs) (e_state v);
    let normalMatchPrice := u32 (matchPrice + p1) in
    repLen0 ← index (repLens p) 0;
    let len := if 2 <=? repLen0 then u32 (repLen0 + 1) else 2 in
    opts ←
      (if len <=? lenMain then
         let distances := matchDistances (pf p) in
         offs ← find_offs (length distances) len 0 distances;
         firstMatches (Z.to_nat kMatchMaxLen) posState normalMatchPrice len offs
           (distancePairs (pf p)) distances opts
       else Ret opts);
    optimum_loop (Z.to_nat kNumOpts) 0 lenEnd position (p_opts opts p).

Definition getOptimum (position : Z) (p : parser) : outcome lzma_error (Z * parser) :=
  if negb (optimumEndIndex p =? optimumCurrentIndex p) then
    let cur := optimumCurrentIndex p in
    o ← node_at (optimum p) cur;
    Ret (u32 (posPrev o - cur),
         p_back (backPrev o) (p_indices (optimumEndIndex p) (posPrev o) p))
  else
    '(lenMain, p) ← mainMatch (p_indices 0 0 p);
    let availableBytes := u32 (getNumAvailableBytes (p_iw p) + 1) in
    if availableBytes <? 2 then Ret (1, p_back 0xFFFFFFFF p)
    else
      '(repMaxIndex, p) ← measureReps p;
      repMax ← index (repLens p) repMaxIndex;
      if fastBytes cl <=? repMax then
        f ← enc_movePos (u32 (repMax - 1)) (pf p);
        Ret (repMax, p_finder f (p_back repMaxIndex p))
      else if fastBytes cl <=? lenMain then
        d ← index (matchDistances (pf p)) (u32 (distancePairs (pf p) - 1));
        f ← enc_movePos (u32 (lenMain - 1)) (pf p);
        Ret (lenMain, p_finder f (p_back (u32 (d + kNumRepDistances)) p))
      else
        curByte ← getIndexByte (-1) (p_iw p);
        rep0 ← index (repDistances v) 0;
        matchByte ← getIndexByte (i32 (i32 (i32 (0 - i32 rep0) - 1) - 1)) (p_iw p);
        if (lenMain <? 2) && negb (curByte =? matchByte) && (repMax <? 2) then
          Ret (1, p_back 0xFFFFFFFF p)
        else fromFirst position lenMain repMax curByte matchByte p.
End getOptimum.
