(* ===== verification/LzmaLinks.v ===== *)
(** The links between the nodes of the optimal parser, and backward, which turns them
    around: a chain of links that leads back to the first node spells a list of packets,
    and after backward the nodes hand out exactly these packets from the first one on. *)

From Stdlib Require Import ZArith Lia.
From stdpp Require Import base numbers option list.
From S2P Require Import Prelude RangeCoder LzmaCoders LzmaWindow LzmaDecoder LzmaEncoder LzmaStream.
From S2P Require Import LzmaPrices LzmaInWindow LzmaBinTree LzmaMatches LzmaOptimum.
#[local] Open Scope Z_scope.

(** ** What a node's link stands for *)

Definition lit_choice : Z * Z := (1, 0xFFFFFFFF).

(** The node that the packets of the link start from. *)
Definition origin (o : optimal) : Z :=
  if prev1IsChar o then if prev2 o then posPrev2 o else posPrev o - 1 else posPrev o.

(** The packets of the link of node [k]: one, or a literal and a repeat, or a match, a
    literal and a repeat. *)
Definition steps (o : optimal) (k : Z) : list (Z * Z) :=
  if prev1IsChar o then
    (if prev2 o then [(posPrev o - 1 - posPrev2 o, backPrev2 o)] else []) ++
    [lit_choice; (k - posPrev o, backPrev o)]
  else [(k - posPrev o, backPrev o)].

Definition shape (o : optimal) (k : Z) : Prop :=
  if prev1IsChar o then
    backPrev o = 0 /\ posPrev o + 2 <= k /\
    (if prev2 o then 0 <= posPrev2 o /\ posPrev2 o + 2 <= posPrev o - 1 else 1 <= posPrev o)
  else 0 <= posPrev o < k.

Lemma shape_origin o k : shape o k -> 0 <= origin o < k.
Proof. unfold shape, origin. destruct (prev1IsChar o), (prev2 o); lia. Qed.

(** Following the links back from the node [k] to the node 0. *)
Inductive path (opts : list optimal) : Z -> list (Z * Z) -> Prop :=
  | path_0 : path opts 0 []
  | path_S k o choices : 0 < k -> opts !! Z.to_nat k = Some o -> shape o k ->
      path opts (origin o) choices -> path opts k (choices ++ steps o k).

(** Following them forward after backward, from the node [i] to the node [e]. *)
Inductive fwd (opts : list optimal) (e : Z) : Z -> list (Z * Z) -> Prop :=
  | fwd_nil : fwd opts e e []
  | fwd_cons i o choices : opts !! Z.to_nat i = Some o -> 0 <= i < posPrev o ->
      fwd opts e (posPrev o) choices ->
      fwd opts e i ((posPrev o - i, backPrev o) :: choices).

Lemma path_nonneg opts k choices : path opts k choices -> 0 <= k.
Proof. destruct 1; lia. Qed.

Lemma path_zero opts choices : path opts 0 choices -> choices = [].
Proof. inversion 1; [done|lia]. Qed.

Lemma path_frame opts opts' k choices : path opts k choices ->
  (forall i, 0 <= i <= k -> opts' !! Z.to_nat i = opts !! Z.to_nat i) -> path opts' k choices.
Proof.
  induction 1 as [|k o choices Hk Ho Hs Hp IH]; intros Hf; [constructor|].
  pose proof (shape_origin _ _ Hs). econstructor; [done|by rewrite Hf by lia|done|].
  apply IH. intros i Hi. apply Hf. lia.
Qed.

Lemma fwd_le opts e i choices : fwd opts e i choices -> i <= e.
Proof. induction 1; lia. Qed.

Lemma fwd_frame opts opts' e i choices : fwd opts e i choices -> 0 <= i ->
  (forall j, i <= j -> opts' !! Z.to_nat j = opts !! Z.to_nat j) -> fwd opts' e i choices.
Proof.
  induction 1 as [|i o choices Ho Hi Hf IH]; intros H0 Hfr; [constructor|].
  econstructor; [by rewrite Hfr by lia|done|]. apply IH; [lia|]. intros j Hj. apply Hfr. lia.
Qed.

(** The lengths add up to the distance. *)
Lemma fwd_sum opts e i choices : fwd opts e i choices ->
  i + foldr (fun c s => c.1 + s) 0 choices = e.
Proof. induction 1; cbn [foldr fst] in *; lia. Qed.

(** ** backward *)

(** The node [cur] with the link kept apart in posMem and backMem. *)
Definition pending_link (opts : list optimal) (cur posMem backMem : Z) (choices : list (Z * Z)) : Prop :=
  (cur = 0 /\ choices = []) \/
  (0 < cur /\ exists o choices0, opts !! Z.to_nat cur = Some o /\
     shape (set_link posMem backMem o) cur /\
     path opts (origin (set_link posMem backMem o)) choices0 /\
     choices = choices0 ++ steps (set_link posMem backMem o) cur).

Lemma set_link_own o pos back : set_link (posPrev o) (backPrev o) (set_link pos back o) = o.
Proof. by destruct o. Qed.

Lemma pending_own opts k o choices : opts !! Z.to_nat k = Some o -> path opts k choices ->
  pending_link opts k (posPrev o) (backPrev o) choices.
Proof.
  intros Ho Hp. inversion Hp as [|k' o' cs Hk Ho' Hs Hp']; subst; [by left|].
  right. split; [done|]. rewrite Ho in Ho'. injection Ho' as <-. exists o, cs.
  replace (set_link (posPrev o) (backPrev o) o) with o by (by destruct o). done.
Qed.

Lemma node_at_ret opts i o : opts !! Z.to_nat i = Some o -> node_at opts i = Ret o.
Proof. unfold node_at. by intros ->. Qed.

Lemma node_upd_ret opts i o f : opts !! Z.to_nat i = Some o ->
  node_upd i f opts = Ret (<[Z.to_nat i := f o]> opts).
Proof. unfold node_upd. intros H. by rewrite (node_at_ret _ _ _ H). Qed.

Lemma node_some (opts : list optimal) i : 0 <= i < Z.of_nat (length opts) -> exists o, opts !! Z.to_nat i = Some o.
Proof. intros. apply lookup_lt_is_Some_2. lia. Qed.

Lemma insert_same (opts : list optimal) i o : (Z.to_nat i < length opts)%nat ->
  <[Z.to_nat i := o]> opts !! Z.to_nat i = Some o.
Proof. intros. by apply list_lookup_insert_eq. Qed.

Lemma insert_other (opts : list optimal) i j o : 0 <= i -> 0 <= j -> i <> j ->
  <[Z.to_nat i := o]> opts !! Z.to_nat j = opts !! Z.to_nat j.
Proof. intros. apply list_lookup_insert_ne. lia. Qed.

(** The node to go on with, its link kept apart before it is overwritten. *)
Lemma turn_link opts k m cur back choices : 0 <= k -> opts !! Z.to_nat k = Some m -> path opts k choices ->
  pending_link (<[Z.to_nat k := set_link cur back m]> opts) k (posPrev m) (backPrev m) choices.
Proof.
  intros Hk Hm Hp. pose proof (lookup_lt_Some _ _ _ Hm) as Hlt.
  destruct (pending_own _ _ _ _ Hm Hp) as [?|(H0 & o & cs & Ho & Hs & Hp' & ->)]; [by left|].
  right. split; [done|]. rewrite Hm in Ho. injection Ho as <-.
  replace (set_link (posPrev m) (backPrev m) m) with m in * by (by destruct m).
  exists (set_link cur back m), cs. rewrite set_link_own. split; [by apply insert_same|].
  split; [done|]. split; [|done]. pose proof (shape_origin _ _ Hs).
  eapply path_frame; [done|]. intros i Hi. apply insert_other; lia.
Qed.

(** What backward_step does before it turns the link: the node [posMem] of a link of
    several packets gets a link of its own, and the one below it too. *)
Lemma spread_link opts cur posMem backMem o choices0 :
  (Z.to_nat cur < length opts)%nat -> cur < 2 ^ 32 ->
  opts !! Z.to_nat cur = Some o -> prev1IsChar o = true ->
  let o' := set_link posMem backMem o in
  shape o' cur -> path opts (origin o') choices0 ->
  exists opts1, spread cur posMem opts = Ret opts1 /\
    length opts1 = length opts /\
    (forall i, cur <= i -> opts1 !! Z.to_nat i = opts !! Z.to_nat i) /\
    exists choices1, path opts1 posMem choices1 /\
      choices0 ++ steps o' cur = choices1 ++ [(cur - posMem, backMem)].
Proof.
  intros Hlen Hcur Ho Hc o' Hs Hp. unfold shape, origin, steps, o' in *. cbn [set_link prev1IsChar prev2 posPrev backPrev posPrev2 backPrev2] in *.
  rewrite Hc in *. destruct Hs as (-> & Hpc & Hs2).
  assert (H1 : 1 <= posMem) by (destruct (prev2 o); lia).
  unfold spread. rewrite (node_at_ret _ _ _ Ho). cbn [mbind outcome_bind]. rewrite Hc.
  destruct (node_some opts posMem) as [m Hm]; [lia|].
  rewrite (node_upd_ret _ _ _ _ Hm). cbn [mbind outcome_bind].
  set (opts1 := <[Z.to_nat posMem := makeAsChar m]> opts).
  assert (Hm1 : opts1 !! Z.to_nat posMem = Some (makeAsChar m)) by (apply insert_same; lia).
  rewrite (node_upd_ret _ _ _ _ Hm1). cbn [mbind outcome_bind]. rewrite (wrap_id 32 (posMem - 1)) by lia.
  set (mc := set_posPrev (posMem - 1) (makeAsChar m)). unfold opts1. rewrite list_insert_insert_eq.
  set (opts2 := <[Z.to_nat posMem := mc]> opts).
  assert (Hother : forall j, 0 <= j -> j <> posMem -> opts2 !! Z.to_nat j = opts !! Z.to_nat j)
    by (intros j Hj Hne; apply insert_other; lia).
  assert (Hm2 : opts2 !! Z.to_nat posMem = Some mc) by (apply insert_same; lia).
  assert (Hl2 : length opts2 = length opts) by (apply length_insert).
  assert (Hchar : forall opts' cs, opts' !! Z.to_nat posMem = Some mc -> path opts' (posMem - 1) cs ->
            path opts' posMem (cs ++ [lit_choice])).
  { intros opts' cs Hl Hpp. replace [lit_choice] with (steps mc posMem).
    - econstructor; [lia|exact Hl| |]; unfold shape, origin, mc; cbn; [lia|exact Hpp].
    - unfold steps, mc, lit_choice; cbn. do 2 f_equal. lia. }
  rewrite (node_at_ret opts2 cur o) by (rewrite Hother by lia; done). cbn [mbind outcome_bind].
  destruct (prev2 o).
  - destruct (node_some opts2 (posMem - 1)) as [n Hn]; [lia|].
    rewrite (node_upd_ret _ _ _ _ Hn). eexists. split; [reflexivity|].
    set (nn := mkOptimal _ _ _ _ _ _ _ _ _ _ _ _). set (opts3 := <[Z.to_nat (posMem - 1) := nn]> opts2).
    split; [unfold opts3; by rewrite length_insert|]. split.
    { intros i Hi. unfold opts3. rewrite insert_other by lia. apply Hother; lia. }
    exists ((choices0 ++ [(posMem - 1 - posPrev2 o, backPrev2 o)]) ++ [lit_choice]). split.
    + apply Hchar; [unfold opts3; rewrite insert_other by lia; done|].
      change [(posMem - 1 - posPrev2 o, backPrev2 o)] with (steps nn (posMem - 1)).
      econstructor; [lia|apply insert_same; lia|unfold shape; cbn; lia|].
      unfold origin; cbn. eapply path_frame; [exact Hp|]. intros i Hi. unfold opts3.
      rewrite insert_other by lia. apply Hother; lia.
    + by rewrite <- !app_assoc.
  - exists opts2. split; [done|]. split; [done|]. split; [intros i Hi; apply Hother; lia|].
    exists (choices0 ++ [lit_choice]). split; [|by rewrite <- app_assoc].
    apply Hchar; [done|]. eapply path_frame; [exact Hp|]. intros i Hi. apply Hother; lia.
Qed.

Lemma backward_step_spec opts cur posMem backMem choices :
  (Z.to_nat cur < length opts)%nat -> 0 < cur < 2 ^ 32 ->
  pending_link opts cur posMem backMem choices ->
  exists posMem' backMem' opts' choices', 
    backward_step cur posMem backMem opts = Ret (posMem, posMem', backMem', opts') /\
    length opts' = length opts /\ 0 <= posMem < cur /\
    (forall i, cur <= i -> opts' !! Z.to_nat i = opts !! Z.to_nat i) /\
    (exists m, opts' !! Z.to_nat posMem = Some m /\ posPrev m = cur /\ backPrev m = backMem) /\
    pending_link opts' posMem posMem' backMem' choices' /\
    choices = choices' ++ [(cur - posMem, backMem)].
Proof.
  intros Hlen Hcur [?|(_ & o & cs0 & Ho & Hs & Hp & ->)]; [lia|]. unfold backward_step.
  assert (Hpm : 0 <= posMem < cur).
  { clear Hp. unfold shape in Hs. cbn [set_link prev1IsChar prev2 posPrev backPrev posPrev2 backPrev2] in Hs.
    destruct (prev1IsChar o), (prev2 o); lia. }
  assert (H : exists opts1 cs1,
    spread cur posMem opts = Ret (E := lzma_error) opts1 /\ length opts1 = length opts /\
    (forall i, cur <= i -> opts1 !! Z.to_nat i = opts !! Z.to_nat i) /\ path opts1 posMem cs1 /\
    cs0 ++ steps (set_link posMem backMem o) cur = cs1 ++ [(cur - posMem, backMem)]).
  { destruct (prev1IsChar o) eqn:Hc.
    - destruct (spread_link opts cur posMem backMem o cs0 Hlen ltac:(lia) Ho Hc Hs Hp)
        as (opts1 & E1 & E2 & E3 & cs1 & E4 & E5). exists opts1, cs1. done.
    - exists opts, cs0. unfold spread. rewrite (node_at_ret _ _ _ Ho). cbn [mbind outcome_bind].
      unfold origin, steps in *. cbn [set_link prev1IsChar posPrev backPrev] in *.
      rewrite Hc in *. done. }
  destruct H as (opts1 & cs1 & E1 & Hl1 & Hf1 & Hp1 & ->). rewrite E1. cbn [mbind outcome_bind]. clear E1.
  destruct (node_some opts1 posMem) as [m Hm]; [lia|].
  rewrite (node_at_ret _ _ _ Hm). cbn [mbind outcome_bind].
  rewrite (node_upd_ret _ _ _ _ Hm). cbn [mbind outcome_bind].
  exists (posPrev m), (backPrev m), (<[Z.to_nat posMem := set_link cur backMem m]> opts1), cs1.
  split; [done|]. split; [by rewrite length_insert|]. split; [done|]. split.
  { intros i Hi. rewrite insert_other by lia. by apply Hf1. }
  split; [|split; [by apply turn_link; [lia|..]|done]].
  exists (set_link cur backMem m). split; [|done]. apply insert_same. lia.
Qed.

Lemma backward_loop_spec fuel : forall opts cur posMem backMem choices done e,
  (Z.to_nat cur < length opts)%nat -> 0 < cur < 2 ^ 32 -> cur <= Z.of_nat fuel ->
  pending_link opts cur posMem backMem choices -> fwd opts e cur done ->
  exists opts', backward_loop fuel cur posMem backMem opts = Ret opts' /\
    length opts' = length opts /\ fwd opts' e 0 (choices ++ done).
Proof.
  induction fuel as [|fuel IH]; intros opts cur posMem backMem choices acc e Hlen Hcur Hfuel Hp Hf; [lia|].
  destruct (backward_step_spec opts cur posMem backMem choices Hlen Hcur Hp)
    as (pm' & bm' & opts' & cs' & E & Hl & Hpm & Hfr & (m & Hm & Em1 & Em2) & Hp' & ->).
  cbn [backward_loop]. rewrite E. cbn [mbind outcome_bind].
  assert (Hf' : fwd opts' e posMem ((cur - posMem, backMem) :: acc)).
  { rewrite <- Em1, <- Em2. econstructor; [exact Hm|lia|]. rewrite Em1.
    eapply fwd_frame; [exact Hf|lia|]. intros j Hj. by apply Hfr. }
  destruct (Z.ltb_spec 0 posMem).
  - destruct (IH opts' posMem pm' bm' cs' ((cur - posMem, backMem) :: acc) e) as (opts'' & E' & Hl' & Hf'');
      [lia|lia|lia|done|done|].
    exists opts''. split; [done|]. split; [congruence|]. by rewrite <- app_assoc.
  - assert (posMem = 0) as -> by lia. destruct Hp' as [[_ ->]|[? _]]; [|lia].
    exists opts'. done.
Qed.

(** backward hands out the path's packets, the first one at once. *)
Lemma backward_spec cur p choices : (Z.to_nat cur < length (optimum p))%nat -> 0 < cur < 2 ^ 32 ->
  path (optimum p) cur choices ->
  exists res p' choices', backward cur p = Ret (res, p') /\
    choices = (res, backRes p') :: choices' /\ 0 < res /\
    optimumEndIndex p' = cur /\ optimumCurrentIndex p' = res /\
    length (optimum p') = length (optimum p) /\ fwd (optimum p') cur res choices' /\
    pf p' = pf p /\ longestMatchLen p' = longestMatchLen p /\ longestMatchFound p' = longestMatchFound p /\
    length (reps p') = length (reps p) /\ length (repLens p') = length (repLens p).
Proof.
  intros Hlen Hcur Hp. unfold backward.
  destruct (node_some (optimum p) cur) as [o Ho]; [lia|]. rewrite (node_at_ret _ _ _ Ho). cbn [mbind outcome_bind].
  destruct (backward_loop_spec (Z.to_nat cur) (optimum p) cur (posPrev o) (backPrev o) choices [] cur)
    as (opts' & E & Hl & Hf); [done|done|lia|by apply pending_own|constructor|].
  rewrite E. cbn [mbind outcome_bind]. rewrite app_nil_r in Hf.
  inversion Hf as [E0|i o0 cs Ho0 Hi Hf']; subst; [lia|].
  rewrite (node_at_ret _ _ _ Ho0). cbn [mbind outcome_bind].
  do 3 eexists. split; [reflexivity|]. cbn. rewrite Z.sub_0_r.
  split; [reflexivity|]. split; [lia|]. do 3 (split; [done|]). split; [exact Hf'|]. done.
Qed.
