(* ===== verification/LzmaChoices.v ===== *)
(** Lists of packets as the parser builds them: where a list leads from a place of the
    data and the last distances, and which packets bytes that agree make valid. *)

From Stdlib Require Import ZArith Lia.
From stdpp Require Import base numbers option list.
From S2P Require Import Prelude RangeCoder LzmaCoders LzmaWindow LzmaDecoder LzmaEncoder LzmaStream.
From S2P Require Import LzmaInWindow LzmaBinTree LzmaTrees LzmaBinTreeOk LzmaFinder LzmaMatches.
From S2P Require Import LzmaPrices LzmaOptimum LzmaLinks.
#[local] Open Scope Z_scope.

(** ** The distances after a packet *)

Lemma hd_rep rs i d : 0 <= i < 4 -> length rs = 4%nat -> rs !! Z.to_nat i = Some d ->
  hd_error (new_reps i rs) = Some d.
Proof.
  intros Hi Hl Hd. destruct rs as [|r0 [|r1 [|r2 [|r3 [|]]]]]; try done.
  assert (i = 0 \/ i = 1 \/ i = 2 \/ i = 3) as [-> | [-> | [-> | ->]]] by lia; vm_compute in Hd; cbn; congruence.
Qed.

Lemma hd_new rs d : 0 <= d -> length rs = 4%nat ->
  hd_error (new_reps (d + 4) rs) = Some d.
Proof.
  intros Hd Hl. destruct rs as [|r0 [|r1 [|r2 [|r3 [|]]]]]; try done. unfold new_reps.
  change kNumRepDistances with 4.
  destruct (Z.eqb_spec (d + 4) 0), (Z.eqb_spec (d + 4) 1), (Z.eqb_spec (d + 4) 2), (Z.eqb_spec (d + 4) 3);
    try lia. cbn. f_equal. lia.
Qed.

Lemma length_new_reps back rs : length (new_reps back rs) = length rs.
Proof.
  destruct rs as [|r0 [|r1 [|r2 [|r3 [|]]]]]; try done. unfold new_reps. by repeat case_match.
Qed.

Lemma new_reps_0 rs : new_reps 0 rs = rs.
Proof. destruct rs as [|r0 [|r1 [|r2 [|r3 [|]]]]]; done. Qed.

Section choices.
Context (data : list Z) (dict : Z).
Let N := Z.of_nat (length data).

(** The place and the distances after valid packets from [pos]. *)
Fixpoint parse_to (pos : nat) (rs : list Z) (choices : list (Z * Z)) : option (nat * list Z) :=
  match choices with
  | [] => Some (pos, rs)
  | (len, back) :: choices =>
      if (len =? 1) && (back =? 0xFFFFFFFF) then
        if (pos <? length data)%nat then parse_to (S pos) rs choices else None
      else if match_ok data dict pos rs len back then
        parse_to (pos + Z.to_nat len) (new_reps back rs) choices
      else None
  end.

Lemma parse_to_app c1 : forall c2 pos rs,
  parse_to pos rs (c1 ++ c2) = '(pos, rs) ← parse_to pos rs c1; parse_to pos rs c2.
Proof.
  induction c1 as [|[len back] c1 IH]; intros c2 pos rs; cbn [parse_to app]; [done|].
  destruct (_ && _); [destruct (_ <? _)%nat|destruct (match_ok _ _ _ _ _ _)]; try done; apply IH.
Qed.

Lemma parse_to_ok c1 : forall c2 pos rs pos' rs', parse_to pos rs c1 = Some (pos', rs') ->
  parse_ok data dict pos rs (c1 ++ c2) = parse_ok data dict pos' rs' c2.
Proof.
  induction c1 as [|[len back] c1 IH]; intros c2 pos rs pos' rs' H; cbn [parse_to parse_ok app] in *.
  { by injection H as -> ->. }
  destruct (_ && _); [destruct (_ <? _)%nat|destruct (match_ok _ _ _ _ _ _)]; try done; cbn [andb]; by apply IH.
Qed.

(** The last distances reach back into the data and the dictionary. *)
Definition reps_in (pos : nat) (rs : list Z) : Prop :=
  length rs = 4%nat /\ Forall (fun r => 0 <= r < dict /\ r < Z.of_nat pos) rs.

Lemma reps_in_later pos pos' rs : reps_in pos rs -> (pos <= pos')%nat -> reps_in pos' rs.
Proof. intros [Hl Hf] Hp. split; [done|]. eapply Forall_impl; [exact Hf|]. cbv beta. lia. Qed.

Lemma new_reps_in pos rs back d : reps_in pos rs -> 0 <= back ->
  (4 <= back -> d = back - 4 /\ 0 <= d < dict /\ d < Z.of_nat pos) -> reps_in pos (new_reps back rs).
Proof.
  intros [Hl Hf] Hb Hd. destruct rs as [|r0 [|r1 [|r2 [|r3 [|]]]]]; try done.
  rewrite !Forall_cons in Hf. destruct Hf as (F0 & F1 & F2 & F3 & _). unfold new_reps.
  change kNumRepDistances with 4.
  destruct (Z.eqb_spec back 0), (Z.eqb_spec back 1), (Z.eqb_spec back 2), (Z.eqb_spec back 3);
    (split; [done|]); rewrite !Forall_cons; try done.
  specialize (Hd ltac:(lia)). destruct Hd as [-> Hd]. done.
Qed.

Lemma match_ok_inv pos rs len back : match_ok data dict pos rs len back = true -> length rs = 4%nat ->
  0 <= back /\ (if back =? 0 then 1 else 2) <= len <= kMatchMaxLen /\
  Z.of_nat pos + len <= N /\
  (4 <= back -> 0 <= back - 4 < dict /\ back - 4 < Z.of_nat pos).
Proof.
  intros H Hl. unfold match_ok in H. rewrite !andb_true_iff, !Z.leb_le in H.
  destruct H as (((Hb & Hl1) & Hl2) & H). destruct rs as [|r0 [|r1 [|r2 [|r3 [|]]]]]; try done.
  assert (Hfit : Z.of_nat pos + len <= N).
  { destruct (new_reps back _) as [|d ?]; [done|]. rewrite !andb_true_iff in H. destruct H as [_ H].
    unfold copy_ok in H. rewrite andb_true_iff, Z.leb_le in H. fold N in H. lia. }
  split; [done|]. split; [done|]. split; [done|]. intros H4. unfold new_reps in H.
  destruct (Z.eqb_spec back 0), (Z.eqb_spec back 1), (Z.eqb_spec back 2), (Z.eqb_spec back 3); try lia.
  change kNumRepDistances with 4 in H. rewrite !andb_true_iff, !Z.leb_le, !Z.ltb_lt in H. lia.
Qed.

Lemma parse_to_reps choices : forall pos rs pos' rs', parse_to pos rs choices = Some (pos', rs') ->
  reps_in pos rs -> reps_in pos' rs' /\ (pos <= pos')%nat.
Proof.
  induction choices as [|[len back] choices IH]; intros pos rs pos' rs' H Hr; cbn [parse_to] in H.
  { injection H as -> ->. done. }
  destruct (_ && _).
  - destruct (_ <? _)%nat; [|done]. destruct (IH _ _ _ _ H) as [H1 H2]; [eapply reps_in_later; [done|lia]|].
    split; [done|lia].
  - destruct (match_ok _ _ _ _ _ _) eqn:Em; [|done].
    destruct (match_ok_inv _ _ _ _ Em (proj1 Hr)) as (Hb & Hl & Hfit & H4).
    assert (1 <= len) by (destruct (back =? 0); lia).
    destruct (IH _ _ _ _ H) as [H1 H2].
    { eapply reps_in_later; [apply (new_reps_in _ _ _ (back - 4)); [done|done|]|lia].
      intros Hb4. specialize (H4 Hb4). lia. }
    split; [done|lia].
Qed.

Lemma parse_to_end choices : forall pos rs pos' rs', parse_to pos rs choices = Some (pos', rs') ->
  length rs = 4%nat -> (pos <= length data)%nat -> (pos' <= length data)%nat.
Proof.
  induction choices as [|[len back] choices IH]; intros pos rs pos' rs' H Hr Hp; cbn [parse_to] in H.
  { by injection H as -> ->. }
  destruct (_ && _).
  - destruct (Nat.ltb_spec pos (length data)); [|done]. by eapply IH.
  - destruct (match_ok _ _ _ _ _ _) eqn:Em; [|done].
    destruct (match_ok_inv _ _ _ _ Em Hr) as (_ & _ & Hfit & _). unfold N in Hfit.
    eapply IH; [exact H| |lia]. destruct rs as [|r0 [|r1 [|r2 [|r3 [|]]]]]; try done.
    unfold new_reps. by repeat case_match.
Qed.

Lemma parse_one_len pos rs len back pos' rs' : parse_to pos rs [(len, back)] = Some (pos', rs') ->
  pos' = (pos + Z.to_nat len)%nat.
Proof.
  cbn [parse_to]. destruct (Z.eqb_spec len 1) as [->|]; cbn [andb]; [destruct (_ =? _)|].
  1: destruct (_ <? _)%nat; [|done]; intros H; injection H as <- _; lia.
  all: destruct (match_ok _ _ _ _ _ _); [|done]; intros H; injection H as <- _; lia.
Qed.

(** ** Valid packets *)

Lemma parse_lit pos rs : (pos < length data)%nat -> parse_to pos rs [lit_choice] = Some (S pos, rs).
Proof.
  intros H. unfold lit_choice. cbn [parse_to]. change ((1 =? 1) && (0xFFFFFFFF =? 0xFFFFFFFF)) with true.
  cbv iota. destruct (Nat.ltb_spec pos (length data)); [done|lia].
Qed.

Lemma parse_match pos rs len back : match_ok data dict pos rs len back = true ->
  2 <= len \/ back <> 0xFFFFFFFF ->
  parse_to pos rs [(len, back)] = Some ((pos + Z.to_nat len)%nat, new_reps back rs).
Proof.
  intros H Hl. cbn [parse_to]. destruct (Z.eqb_spec len 1), (Z.eqb_spec back 0xFFFFFFFF); cbn [andb];
    try lia; by rewrite H.
Qed.

(** Bytes that agree with those at the distance [back] stands for. *)
Lemma agree_ok pos rs len back d : hd_error (new_reps back rs) = Some d -> 0 <= back ->
  (if back =? 0 then 1 else 2) <= len <= kMatchMaxLen -> Z.of_nat pos + len <= N ->
  0 <= d < dict -> d < Z.of_nat pos -> agree data len (Z.of_nat pos - d - 1) (Z.of_nat pos) ->
  match_ok data dict pos rs len back = true.
Proof.
  intros Hd Hb Hl Hn Hdd Hdp Hag. unfold match_ok. destruct (new_reps back rs) as [|d' ?]; [done|].
  cbn in Hd. injection Hd as ->. unfold copy_ok.
  assert (0 <= len) by (destruct (back =? 0); lia).
  rewrite (lz_copy_agree data (Z.to_nat len) pos (Z.to_nat d)); [|rewrite !Z2Nat.id by lia; done|lia|lia].
  rewrite bool_decide_eq_true_2 by done.
  rewrite !andb_true_iff, !Z.leb_le, !Z.ltb_lt. unfold N in Hn. lia.
Qed.

(** One match or repeat. *)
Lemma parse_agree pos rs len back d : hd_error (new_reps back rs) = Some d ->
  0 <= back -> back <> 0xFFFFFFFF -> (if back =? 0 then 1 else 2) <= len <= kMatchMaxLen -> Z.of_nat pos + len <= N ->
  0 <= d < dict -> d < Z.of_nat pos -> agree data len (Z.of_nat pos - d - 1) (Z.of_nat pos) ->
  parse_to pos rs [(len, back)] = Some ((pos + Z.to_nat len)%nat, new_reps back rs).
Proof. intros. apply parse_match; [by eapply agree_ok|lia]. Qed.

(** A literal, then a repeat of the last distance. *)
Lemma parse_char_rep pos rs len d : hd_error rs = Some d -> length rs = 4%nat ->
  2 <= len <= kMatchMaxLen -> Z.of_nat pos + 1 + len <= N ->
  0 <= d < dict -> d < Z.of_nat pos ->
  agree data len (Z.of_nat pos + 1 - d - 1) (Z.of_nat pos + 1) ->
  parse_to pos rs [lit_choice; (len, 0)] = Some ((pos + 1 + Z.to_nat len)%nat, rs).
Proof.
  intros Hd Hl Hlen Hn Hdd Hdp Hag. change [lit_choice; (len, 0)] with ([lit_choice] ++ [(len, 0)]).
  unfold N in Hn. rewrite parse_to_app, parse_lit by lia. cbn [mbind option_bind].
  rewrite (parse_agree (S pos) rs len 0 d); try lia.
  - rewrite new_reps_0. do 2 f_equal. lia.
  - by rewrite new_reps_0.
  - change (0 =? 0) with true. cbv iota. lia.
  - by rewrite Nat2Z.inj_succ, <- Z.add_1_r.
Qed.

(** A match, a literal and a repeat of the match's distance. *)
Lemma parse_match_char_rep pos rs len back len2 d : hd_error (new_reps back rs) = Some d -> length rs = 4%nat ->
  0 <= back -> back <> 0xFFFFFFFF -> 2 <= len <= kMatchMaxLen -> 2 <= len2 <= kMatchMaxLen ->
  Z.of_nat pos + len + 1 + len2 <= N -> 0 <= d < dict -> d < Z.of_nat pos ->
  agree data len (Z.of_nat pos - d - 1) (Z.of_nat pos) ->
  agree data len2 (Z.of_nat pos + len + 1 - d - 1) (Z.of_nat pos + len + 1) ->
  parse_to pos rs [(len, back); lit_choice; (len2, 0)]
  = Some ((pos + Z.to_nat len + 1 + Z.to_nat len2)%nat, new_reps back rs).
Proof.
  intros Hd Hl Hb Hb' Hlen Hlen2 Hn Hdd Hdp Hag1 Hag2.
  change [(len, back); lit_choice; (len2, 0)] with ([(len, back)] ++ [lit_choice; (len2, 0)]).
  rewrite parse_to_app, (parse_agree pos rs len back d); try done; try lia.
  2: { destruct (back =? 0); lia. }
  cbn [mbind option_bind]. apply (parse_char_rep (pos + Z.to_nat len) (new_reps back rs) len2 d); try done; try lia.
  - by rewrite length_new_reps.
  - by replace (Z.of_nat (pos + Z.to_nat len) + 1) with (Z.of_nat pos + len + 1) by lia.
Qed.
End choices.
