(* ===== verification/LzmaNodes.v ===== *)
(** The nodes of the optimal parser and their invariant.

    [opt_inv] says of the nodes of optimum while the main loop is at one of them: those up
    to the current one hold the state and distances after a chain of valid packets; those
    above have the infinite price or a link of valid packets that starts at the current
    node or below. It is kept when a node above gets a valid link ([relax_inv]), when more
    nodes are opened ([extend_inv]) and when the loop goes on to the next node ([settle]),
    for which nodeState computes the distances that the link's packets leave
    ([node_state]). *)

From Stdlib Require Import ZArith Lia.
From stdpp Require Import base numbers option list.
From S2P Require Import Prelude RangeCoder LzmaCoders LzmaWindow LzmaDecoder LzmaEncoder LzmaStream.
From S2P Require Import LzmaInWindow LzmaBinTree LzmaTrees LzmaBinTreeOk LzmaFinder LzmaMatches.
From S2P Require Import LzmaPrices LzmaOptimum LzmaLinks LzmaChoices.
#[local] Open Scope Z_scope.

(** An index-dependent invariant of a counting loop. *)
Lemma for_range_inv {S} (I : Z -> S -> Prop) f n : forall i s, I i s ->
  (forall j s, i <= j < i + Z.of_nat n -> I j s -> returns (I (j + 1)) (f j s)) ->
  returns (I (i + Z.of_nat n)) (for_range n i f s).
Proof.
  induction n as [|n IH]; intros i s Hs Hf; cbn [for_range].
  { cbn. by rewrite Z.add_0_r. }
  eapply returns_bind; [apply Hf; [lia|done]|]. intros s' Hs'.
  replace (i + Z.of_nat (Datatypes.S n)) with (i + 1 + Z.of_nat n) by lia.
  apply IH; [done|]. intros j s1 Hj. apply Hf. lia.
Qed.

Lemma for_down_inv {S} (I : Z -> S -> Prop) f n : forall i s, I i s ->
  (forall j s, i - Z.of_nat n < j <= i -> I j s -> returns (I (j - 1)) (f j s)) ->
  returns (I (i - Z.of_nat n)) (for_down n i f s).
Proof.
  induction n as [|n IH]; intros i s Hs Hf; cbn [for_down].
  { cbn. by rewrite Z.sub_0_r. }
  eapply returns_bind; [apply Hf; [lia|done]|]. intros s' Hs'.
  replace (i - Z.of_nat (Datatypes.S n)) with (i - 1 - Z.of_nat n) by lia.
  apply IH; [done|]. intros j s1 Hj. apply Hf. lia.
Qed.

Lemma for_down_ok {S} (I : S -> Prop) f n : forall i s, I s ->
  (forall j s, i - Z.of_nat n < j <= i -> I s -> returns I (f j s)) -> returns I (for_down n i f s).
Proof.
  induction n as [|n IH]; intros i s Hs Hf; cbn [for_down]; [done|].
  eapply returns_bind; [apply Hf; [lia|done]|]. intros s' Hs'. apply IH; [done|].
  intros j s1 Hj. apply Hf. lia.
Qed.

Lemma returns_yields {A} bad (Q : A -> Prop) o : returns Q o -> yields bad Q o.
Proof. by destruct o. Qed.

(** One step of the parser costs at most this, a literal and its flag. *)
Definition kStep : Z := 2 ^ 15.

Definition backs (o : optimal) : list Z := [backs0 o; backs1 o; backs2 o; backs3 o].

Section nodes.
Context (data : list Z) (dict : Z) (Hdict : dict <= 2 ^ 29).
Context (A0 : nat) (rs0 : list Z) (Hrs0 : reps_in dict A0 rs0).
Let N := Z.of_nat (length data).
Let place (k : Z) : nat := (A0 + Z.to_nat k)%nat.

(** The link of the node [k] is valid and starts at [cur] or below; [rs] after it. *)
Definition edge (cur : Z) (opts : list optimal) (o : optimal) (k : Z) (rs : list Z) : Prop :=
  shape o k /\ origin o <= cur /\
  exists oj, opts !! Z.to_nat (origin o) = Some oj /\
    parse_to data dict (place (origin o)) (backs oj) (steps o k) = Some (place k, rs).

Definition settled (opts : list optimal) (k : Z) : Prop :=
  exists o, opts !! Z.to_nat k = Some o /\ edge (k - 1) opts o k (backs o) /\
    0 <= o_state o < 12 /\ 0 <= o_price o <= k * kStep.

Definition open_node (cur : Z) (opts : list optimal) (k : Z) : Prop :=
  exists o, opts !! Z.to_nat k = Some o /\ 0 <= o_price o <= kInfinityPrice /\
    (o_price o = kInfinityPrice \/ exists rs, edge cur opts o k rs).

(** The distances of a node. *)
Definition node_reps (cur : Z) (opts : list optimal) (rs : list Z) : Prop :=
  exists o, opts !! Z.to_nat cur = Some o /\ backs o = rs.

(** [rsc] are the distances of the current node, [next] bounds the price of the one after it. *)
Record opt_inv (cur : Z) (rsc : list Z) (lenEnd next : Z) (opts : list optimal) : Prop := {
  oi_len : length opts = 4096%nat;
  oi_cur : 0 <= cur < lenEnd;
  oi_end : lenEnd <= 4095 /\ Z.of_nat A0 + lenEnd <= N;
  oi_zero : exists o, opts !! 0%nat = Some o /\ backs o = rs0 /\ 0 <= o_state o < 12;
  oi_settled : forall k, 1 <= k <= cur -> settled opts k;
  oi_open : forall k, cur < k <= lenEnd -> open_node cur opts k;
  oi_reps : node_reps cur opts rsc;
  oi_next : exists o, opts !! Z.to_nat (cur + 1) = Some o /\ o_price o <= next
}.

Lemma edge_frame cur opts opts' o k rs : edge cur opts o k rs ->
  (forall i, 0 <= i <= cur -> opts' !! Z.to_nat i = opts !! Z.to_nat i) -> edge cur opts' o k rs.
Proof.
  intros (H1 & H2 & oj & Hj & Hp) Hf. pose proof (shape_origin _ _ H1).
  split; [done|]. split; [done|]. exists oj. split; [|done]. by rewrite Hf by lia.
Qed.

Lemma settled_frame opts opts' k : settled opts k -> 1 <= k ->
  (forall i, 0 <= i <= k -> opts' !! Z.to_nat i = opts !! Z.to_nat i) -> settled opts' k.
Proof.
  intros (o & Ho & He & Hs) Hk Hf. exists o. split; [by rewrite Hf by lia|]. split; [|done].
  eapply edge_frame; [done|]. intros i Hi. apply Hf. lia.
Qed.

(** Writing a node above the current one. *)
Lemma inv_write cur rsc lenEnd next opts i o : opt_inv cur rsc lenEnd next opts -> cur < i <= lenEnd ->
  0 <= o_price o <= kInfinityPrice -> (i = cur + 1 -> o_price o <= next) ->
  (o_price o = kInfinityPrice \/ exists rs, edge cur opts o i rs) ->
  opt_inv cur rsc lenEnd next (<[Z.to_nat i := o]> opts).
Proof.
  intros [H1 H2 H3 H4 H5 H6 HR H7] Hi Hp Hn He.
  assert (Hf : forall j, 0 <= j -> j <> i -> <[Z.to_nat i := o]> opts !! Z.to_nat j = opts !! Z.to_nat j)
    by (intros; apply insert_other; lia).
  constructor; try done.
  - by rewrite length_insert.
  - destruct H4 as (z & Hz & Hz'). exists z. split; [|done]. rewrite <- Hz. apply (Hf 0); lia.
  - intros k Hk. eapply settled_frame; [by apply H5|lia|]. intros j Hj. apply Hf; lia.
  - intros k Hk. destruct (decide (k = i)) as [->|Hne].
    + exists o. split; [apply insert_same; lia|]. split; [done|]. destruct He as [He|(rs & He)]; [by left|].
      right. exists rs. eapply edge_frame; [done|]. intros j Hj. apply Hf; lia.
    + destruct (H6 k Hk) as (ok & Hok & Hpk & Hek). exists ok. split; [by rewrite Hf by lia|].
      split; [done|]. destruct Hek as [Hek|(rs & Hek)]; [by left|]. right. exists rs.
      eapply edge_frame; [done|]. intros j Hj. apply Hf; lia.
  - destruct HR as (or & Hor & Hb). exists or. split; [by rewrite Hf by lia|done].
  - destruct (decide (cur + 1 = i)) as [E|Hne].
    + exists o. rewrite E. split; [apply insert_same; lia|]. apply Hn. lia.
    + destruct H7 as (ok & Hok & Hpk). exists ok. split; [|done]. by rewrite Hf by lia.
Qed.

Lemma inv_node cur rsc lenEnd next opts i : opt_inv cur rsc lenEnd next opts -> 0 <= i <= lenEnd ->
  exists o, opts !! Z.to_nat i = Some o.
Proof. intros H Hi. pose proof (oi_len _ _ _ _ _ H). pose proof (oi_end _ _ _ _ _ H). apply node_some. lia. Qed.

(** Relaxing a node keeps the invariant if the new link is valid. *)
Lemma relax_inv cur rsc lenEnd next opts i price f rs : opt_inv cur rsc lenEnd next opts -> cur < i <= lenEnd ->
  0 <= price -> (forall o, o_price (f o) = price) ->
  (forall o, edge cur opts (f o) i rs) ->
  returns (opt_inv cur rsc lenEnd next) (relax i price f opts).
Proof.
  intros H Hi Hp Hfp He. unfold relax.
  destruct (inv_node _ _ _ _ _ i H) as [o Ho]; [pose proof (oi_cur _ _ _ _ _ H); lia|].
  rewrite (node_at_ret _ _ _ Ho). cbn [mbind outcome_bind].
  destruct (Z.ltb_spec price (o_price o)); [|done].
  destruct (oi_open _ _ _ _ _ H i Hi) as (o' & Ho' & Hpo & _). rewrite Ho in Ho'. injection Ho' as <-.
  apply inv_write; try done; rewrite ?Hfp; try lia; [|right; by exists rs].
  intros ->. destruct (oi_next _ _ _ _ _ H) as (o' & Ho' & Hn). rewrite Ho in Ho'. injection Ho' as <-. lia.
Qed.

Lemma inv_grow cur rsc lenEnd next opts i o : opt_inv cur rsc lenEnd next opts ->
  i = lenEnd + 1 -> i <= 4095 -> Z.of_nat A0 + i <= N -> o_price o = kInfinityPrice ->
  opt_inv cur rsc i next (<[Z.to_nat i := o]> opts).
Proof.
  intros [H1 H2 H3 H4 H5 H6 HR H7] -> Hi HN Hp.
  assert (Hf : forall j, 0 <= j -> j <> lenEnd + 1 -> <[Z.to_nat (lenEnd + 1) := o]> opts !! Z.to_nat j = opts !! Z.to_nat j)
    by (intros; apply insert_other; lia).
  constructor; try done; try lia.
  - by rewrite length_insert.
  - destruct H4 as (z & Hz & Hz'). exists z. split; [|done]. rewrite <- Hz. apply (Hf 0); lia.
  - intros k Hk. eapply settled_frame; [by apply H5|lia|]. intros j Hj. apply Hf; lia.
  - intros k Hk. destruct (decide (k = lenEnd + 1)) as [->|Hne].
    + exists o. split; [apply insert_same; lia|]. rewrite Hp. unfold kInfinityPrice. split; [lia|]. by left.
    + destruct (H6 k ltac:(lia)) as (ok & Hok & Hpk & Hek). exists ok. split; [by rewrite Hf by lia|].
      split; [done|]. destruct Hek as [Hek|(rs & Hek)]; [by left|]. right. exists rs.
      eapply edge_frame; [done|]. intros j Hj. apply Hf; lia.
  - destruct HR as (or & Hor & Hb). exists or. split; [by rewrite Hf by lia|done].
  - destruct H7 as (ok & Hok & Hpk). exists ok. split; [|done]. by rewrite Hf by lia.
Qed.

Lemma extend_inv cur rsc lenEnd next opts offset : opt_inv cur rsc lenEnd next opts ->
  offset <= 4095 -> Z.of_nat A0 + offset <= N ->
  returns (fun '(e, opts') => e = Z.max offset lenEnd /\ opt_inv cur rsc e next opts') (extend offset lenEnd opts).
Proof.
  intros H Ho HN. pose proof (oi_cur _ _ _ _ _ H) as Hc. unfold extend. destruct (Z.ltb_spec lenEnd offset).
  - eapply returns_bind.
    { apply (for_range_inv (fun i opts => opt_inv cur rsc (i - 1) next opts)).
      - by replace (lenEnd + 1 - 1) with lenEnd by lia.
      - intros j s Hj Hs. pose proof (oi_len _ _ _ _ _ Hs). destruct (node_some s j) as [o Hoj]; [lia|].
        rewrite (node_upd_ret _ _ _ _ Hoj). cbn [returns].
        replace (j + 1 - 1) with j by lia. apply (inv_grow cur rsc (j - 1)); try done; lia. }
    intros opts' Hs. cbn [returns]. split; [lia|].
    by replace offset with (lenEnd + 1 + Z.of_nat (Z.to_nat (offset - lenEnd)) - 1) by lia.
  - cbn [returns]. replace (Z.max offset lenEnd) with lenEnd by lia. done.
Qed.

(** ** Links from the current node *)

Lemma packet_edge cur opts rs len back price o : node_reps cur opts rs -> 0 <= cur -> 1 <= len ->
  parse_to data dict (place cur) rs [(len, back)] = Some ((place cur + Z.to_nat len)%nat, new_reps back rs) ->
  edge cur opts (set_packet price cur back o) (cur + len) (new_reps back rs).
Proof.
  intros (oj & Hoj & Hb) Hc Hl Hp. unfold edge, shape, origin, steps; cbn -[parse_to].
  split; [lia|]. split; [lia|]. exists oj. split; [done|]. rewrite Hb.
  replace (cur + len - cur) with len by lia. rewrite Hp. unfold place. do 2 f_equal. lia.
Qed.

Lemma char_rep_edge cur opts rs len price o : node_reps cur opts rs -> 0 <= cur -> 2 <= len ->
  parse_to data dict (place cur) rs [lit_choice; (len, 0)] = Some ((place cur + 1 + Z.to_nat len)%nat, rs) ->
  edge cur opts (set_char_rep price (cur + 1) o) (cur + 1 + len) rs.
Proof.
  intros (oj & Hoj & Hb) Hc Hl Hp. unfold edge, shape, origin, steps; cbn -[parse_to].
  replace (cur + 1 - 1) with cur by lia.
  split; [lia|]. split; [lia|]. exists oj. split; [done|]. rewrite Hb.
  replace (cur + 1 + len - (cur + 1)) with len by lia. rewrite Hp. unfold place. do 2 f_equal. lia.
Qed.

Lemma match_char_rep_edge cur opts rs len back len2 price o : node_reps cur opts rs -> 0 <= cur ->
  2 <= len -> 2 <= len2 ->
  parse_to data dict (place cur) rs [(len, back); lit_choice; (len2, 0)]
  = Some ((place cur + Z.to_nat len + 1 + Z.to_nat len2)%nat, new_reps back rs) ->
  edge cur opts (set_match_char_rep price (cur + len + 1) cur back o) (cur + len + 1 + len2) (new_reps back rs).
Proof.
  intros (oj & Hoj & Hb) Hc Hl Hl2 Hp. unfold edge, shape, origin, steps; cbn -[parse_to].
  split; [lia|]. split; [lia|]. exists oj. split; [done|]. rewrite Hb.
  replace (cur + len + 1 - 1 - cur) with len by lia.
  replace (cur + len + 1 + len2 - (cur + len + 1)) with len2 by lia.
  rewrite Hp. unfold place. do 2 f_equal. lia.
Qed.

(** ** Chains of links *)

Lemma place_0 : place 0 = A0.
Proof. unfold place. lia. Qed.

Lemma settled_path cur rsc lenEnd next opts : opt_inv cur rsc lenEnd next opts ->
  forall n k, k < Z.of_nat n -> 0 <= k <= cur ->
  exists o choices, opts !! Z.to_nat k = Some o /\ path opts k choices /\
    parse_to data dict A0 rs0 choices = Some (place k, backs o) /\ 0 <= o_state o < 12.
Proof.
  intros H. induction n as [|n IH]; intros k Hkn Hk; [lia|]. destruct (decide (k = 0)) as [->|Hk0].
  - destruct (oi_zero _ _ _ _ _ H) as (o & Ho & Hb & Hs). exists o, []. split; [done|].
    split; [constructor|]. split; [|done]. cbn [parse_to]. by rewrite place_0, Hb.
  - destruct (oi_settled _ _ _ _ _ H k ltac:(lia)) as (o & Ho & (Hsh & Hor & oj & Hoj & Hp) & Hs & _).
    pose proof (shape_origin _ _ Hsh).
    destruct (IH (origin o)) as (oj' & choices & Hoj' & Hpa & Hpt & _); [lia|lia|].
    rewrite Hoj in Hoj'. injection Hoj' as <-. exists o, (choices ++ steps o k). split; [done|].
    split; [by econstructor; [lia|..]|]. split; [|done]. by rewrite parse_to_app, Hpt.
Qed.

Lemma node_path cur rsc lenEnd next opts k : opt_inv cur rsc lenEnd next opts -> 0 <= k <= cur ->
  exists o choices, opts !! Z.to_nat k = Some o /\ path opts k choices /\
    parse_to data dict A0 rs0 choices = Some (place k, backs o) /\ 0 <= o_state o < 12 /\
    reps_in dict (place k) (backs o).
Proof.
  intros H Hk. destruct (settled_path _ _ _ _ _ H (S (Z.to_nat k)) k) as (o & cs & Ho & Hp & Ht & Hs); [lia|done|].
  exists o, cs. do 4 (split; [done|]). by apply (parse_to_reps data dict cs A0 rs0).
Qed.

Lemma edge_path cur rsc lenEnd next opts k o rs : opt_inv cur rsc lenEnd next opts ->
  opts !! Z.to_nat k = Some o -> edge cur opts o k rs ->
  exists choices, path opts k choices /\ parse_to data dict A0 rs0 choices = Some (place k, rs) /\
    reps_in dict (place k) rs.
Proof.
  intros H Ho (Hsh & Hor & oj & Hoj & Hp). pose proof (shape_origin _ _ Hsh).
  destruct (node_path _ _ _ _ _ (origin o) H) as (oj' & choices & Hoj' & Hpa & Hpt & _); [lia|].
  rewrite Hoj in Hoj'. injection Hoj' as <-.
  assert (Ht : parse_to data dict A0 rs0 (choices ++ steps o k) = Some (place k, rs))
    by (by rewrite parse_to_app, Hpt).
  exists (choices ++ steps o k). split; [by econstructor; [lia|..]|]. split; [done|].
  by apply (parse_to_reps data dict (choices ++ steps o k) A0 rs0).
Qed.

(** The next node always has a link. *)
Lemma next_edge cur rsc lenEnd next opts : opt_inv cur rsc lenEnd next opts -> next < kInfinityPrice ->
  exists o rs, opts !! Z.to_nat (cur + 1) = Some o /\ edge cur opts o (cur + 1) rs /\ 0 <= o_price o <= next.
Proof.
  intros H Hn. pose proof (oi_cur _ _ _ _ _ H). destruct (oi_next _ _ _ _ _ H) as (o & Ho & Hp).
  destruct (oi_open _ _ _ _ _ H (cur + 1) ltac:(lia)) as (o' & Ho' & Hpo & He).
  rewrite Ho in Ho'. injection Ho' as <-. destruct He as [He|(rs & He)]; [lia|].
  exists o, rs. split; [done|]. split; [done|lia].
Qed.

(** ** nodeState *)

Lemma parse_one pos rs len back pos' rs' : parse_to data dict pos rs [(len, back)] = Some (pos', rs') ->
  (len = 1 /\ back = 0xFFFFFFFF /\ rs' = rs) \/
  (match_ok data dict pos rs len back = true /\ rs' = new_reps back rs).
Proof.
  cbn [parse_to]. destruct (Z.eqb_spec len 1), (Z.eqb_spec back 0xFFFFFFFF); cbn [andb].
  1: { destruct (_ <? _)%nat; [|done]. intros H. injection H as <- <-. by left. }
  all: destruct (match_ok _ _ _ _ _ _) eqn:Em; [|done]; intros H; injection H as <- <-; right; done.
Qed.

Lemma parse_lit_inv pos rs pos' rs' : length rs = 4%nat ->
  parse_to data dict pos rs [lit_choice] = Some (pos', rs') -> rs' = rs.
Proof.
  intros Hl H. apply parse_one in H as [(_ & _ & ->)|(H & _)]; [done|].
  apply match_ok_inv in H as (_ & Hx & _); [cbn in Hx; lia|done].
Qed.

Lemma parse_char_rep_inv pos rs len pos' rs' : length rs = 4%nat -> 2 <= len ->
  parse_to data dict pos rs [lit_choice; (len, 0)] = Some (pos', rs') -> rs' = rs.
Proof.
  intros Hl Hlen. change [lit_choice; (len, 0)] with ([lit_choice] ++ [(len, 0)]). rewrite parse_to_app.
  destruct (parse_to data dict _ _ [lit_choice]) as [[p2 r2]|] eqn:E2; [|done]. cbn [mbind option_bind].
  apply parse_lit_inv in E2 as ->; [|done]. intros H.
  apply parse_one in H as [(Hx & _)|(_ & ->)]; [lia|]. by rewrite new_reps_0.
Qed.

Lemma parse_match_char_rep_inv pos rs len back len2 pos' rs' : length rs = 4%nat -> 2 <= len -> 2 <= len2 ->
  parse_to data dict pos rs [(len, back); lit_choice; (len2, 0)] = Some (pos', rs') ->
  match_ok data dict pos rs len back = true /\ rs' = new_reps back rs.
Proof.
  intros Hl Hlen Hlen2.
  change [(len, back); lit_choice; (len2, 0)] with ([(len, back)] ++ [lit_choice; (len2, 0)]). rewrite parse_to_app.
  destruct (parse_to data dict _ _ [(len, back)]) as [[p1 r1]|] eqn:E1; [|done]. cbn [mbind option_bind].
  apply parse_one in E1 as [(Hx & _)|(E1 & ->)]; [lia|]. intros H.
  by apply parse_char_rep_inv in H as ->; [|by rewrite length_new_reps|].
Qed.

(** The distances after the packet, as nodeState writes them. *)
Lemma node_reps_after pos o len back : match_ok data dict pos (backs o) len back = true ->
  (if back <? kNumRepDistances then
     if back =? 0 then [backs0 o; backs1 o; backs2 o; backs3 o]
     else if back =? 1 then [backs1 o; backs0 o; backs2 o; backs3 o]
     else if back =? 2 then [backs2 o; backs0 o; backs1 o; backs3 o]
     else [backs3 o; backs0 o; backs1 o; backs2 o]
   else [u32 (back - kNumRepDistances); backs0 o; backs1 o; backs2 o]) = new_reps back (backs o).
Proof.
  intros H. destruct (match_ok_inv data dict _ _ _ _ H eq_refl) as (Hb & _ & _ & H4).
  unfold new_reps, backs. change kNumRepDistances with 4.
  destruct (Z.ltb_spec back 4), (Z.eqb_spec back 0), (Z.eqb_spec back 1), (Z.eqb_spec back 2), (Z.eqb_spec back 3);
    try lia; try done. rewrite wrap_id by (specialize (H4 ltac:(lia)); lia). done.
Qed.

Lemma state_after_ok s back : 0 <= s < 12 ->
  0 <= (if back <? kNumRepDistances then stateUpdateRep s else stateUpdateMatch s) < 12.
Proof. intros H. destruct (state_updates_ok s H) as (_ & ? & ? & _). destruct (_ <? _); lia. Qed.

Lemma node_state opts cur o rsz rs : opts !! Z.to_nat (cur + 1) = Some o -> 0 <= cur < 4095 ->
  edge cur opts o (cur + 1) rs -> node_reps cur opts rsz ->
  (forall k, 0 <= k <= cur -> exists ok, opts !! Z.to_nat k = Some ok /\ 0 <= o_state ok < 12) ->
  returns (fun '(st, rs') => 0 <= st < 12 /\ rs' = rs) (nodeState (cur + 1) rsz opts).
Proof.
  intros Ho Hc (Hsh & Hor & oj & Hoj & Hp) (oc & Hoc & Hrz) Hst. unfold nodeState.
  rewrite (node_at_ret _ _ _ Ho). cbn [mbind outcome_bind].
  pose proof (shape_origin _ _ Hsh) as Hor2. destruct (Hst _ ltac:(split; [apply Hor2|exact Hor])) as (oj' & Hoj' & Hsj).
  rewrite Hoj in Hoj'. injection Hoj' as <-. destruct (state_updates_ok _ Hsj) as (U1 & U2 & U3 & U4).
  rewrite (wrap_id 32 (cur + 1 - 1)) by lia. replace (cur + 1 - 1) with cur by lia.
  unfold shape, origin, steps in *. destruct (prev1IsChar o); [destruct (prev2 o)|]; cbn [andb app] in *.
  - destruct Hsh as (Hb0 & Hl & Hp2 & Hl2). rewrite (wrap_id 32 (posPrev o - 1)) by lia.
    rewrite (node_at_ret _ _ _ Hoj). cbn [mbind outcome_bind].
    destruct (Z.eqb_spec (posPrev o - 1) cur); [lia|].
    rewrite ?(node_at_ret _ _ _ Hoj). cbn [mbind outcome_bind returns].
    pose proof (state_after_ok _ (backPrev2 o) Hsj) as S1.
    destruct (state_updates_ok _ S1) as (S2 & _). destruct (state_updates_ok _ (conj (proj1 S2) (Z.lt_trans _ 7 12 (proj2 S2) eq_refl))) as (_ & _ & S3 & _).
    split; [lia|].
    rewrite Hb0 in *. apply parse_match_char_rep_inv in Hp as [Em ->]; [|done|lia|lia].
    by eapply node_reps_after.
  - destruct Hsh as (Hb0 & Hl & Hp1). rewrite (wrap_id 32 (posPrev o - 1)) by lia.
    rewrite (node_at_ret _ _ _ Hoj). cbn [mbind outcome_bind].
    destruct (Z.eqb_spec (posPrev o - 1) cur); [lia|].
    rewrite ?(node_at_ret _ _ _ Hoj). cbn [mbind outcome_bind returns]. rewrite Hb0 in *.
    change (0 <? kNumRepDistances) with true. cbn [Z.eqb].
    destruct (state_updates_ok _ (conj (proj1 U1) (Z.lt_trans _ 7 12 (proj2 U1) eq_refl))) as (_ & _ & S3 & _).
    split; [lia|]. by apply parse_char_rep_inv in Hp as ->; [|done|lia].
  - rewrite (node_at_ret _ _ _ Hoj). cbn [mbind outcome_bind].
    destruct (Z.eqb_spec (posPrev o) cur) as [E|E].
    + cbn [returns]. split; [destruct (isShortRep o); lia|]. rewrite E in *. rewrite Hoc in Hoj. injection Hoj as <-.
      apply parse_one in Hp as [(_ & _ & ->)|(Em & ->)]; [done|].
      destruct (match_ok_inv data dict _ _ _ _ Em eq_refl) as (Hb & Hl & _).
      destruct (Z.eqb_spec (backPrev o) 0) as [->|]; [by rewrite new_reps_0|lia].
    + rewrite ?(node_at_ret _ _ _ Hoj). cbn [mbind outcome_bind returns].
      split; [by apply state_after_ok|]. apply parse_one in Hp as [(Hx & _)|(Em & ->)]; [lia|].
      by eapply node_reps_after.
Qed.

(** ** Going on to the next node *)

Lemma settle cur rsc lenEnd next opts st o rs : opt_inv cur rsc lenEnd next opts -> cur + 1 < lenEnd ->
  opts !! Z.to_nat (cur + 1) = Some o -> edge cur opts o (cur + 1) rs -> 0 <= o_price o <= (cur + 1) * kStep ->
  0 <= st < 12 -> length rs = 4%nat ->
  exists opts1 opts2 o', node_upd (cur + 1) (set_o_state st) opts = Ret opts1 /\
    store_backs (cur + 1) rs opts1 = Ret opts2 /\
    opts2 !! Z.to_nat (cur + 1) = Some o' /\ o_price o' = o_price o /\
    opt_inv (cur + 1) rs lenEnd kInfinityPrice opts2.
Proof.
  intros [H1 H2 H3 H4 H5 H6 HR H7] Hc Ho He Hp Hst Hl.
  destruct rs as [|r0 [|r1 [|r2 [|r3 [|]]]]]; try done.
  set (opts1 := <[Z.to_nat (cur + 1) := set_o_state st o]> opts).
  assert (Ho1 : opts1 !! Z.to_nat (cur + 1) = Some (set_o_state st o)) by (apply insert_same; lia).
  set (o' := set_backs r0 r1 r2 r3 (set_o_state st o)). set (opts2 := <[Z.to_nat (cur + 1) := o']> opts).
  assert (Hf : forall j, 0 <= j -> j <> cur + 1 -> opts2 !! Z.to_nat j = opts !! Z.to_nat j)
    by (intros; apply insert_other; lia).
  assert (Ho2 : opts2 !! Z.to_nat (cur + 1) = Some o') by (apply insert_same; lia).
  exists opts1, opts2, o'. split; [by apply node_upd_ret|]. split.
  { cbn [store_backs]. rewrite (node_upd_ret _ _ _ _ Ho1). unfold opts1. by rewrite list_insert_insert_eq. }
  split; [exact Ho2|]. split; [done|].
  constructor; try done; try lia.
  - unfold opts2. by rewrite length_insert.
  - destruct H4 as (z & Hz & Hz'). exists z. split; [|done]. rewrite <- Hz. apply (Hf 0); lia.
  - intros k Hk. destruct (decide (k = cur + 1)) as [->|Hne].
    + exists o'. split; [done|]. split; [|split; [done|exact Hp]].
      replace (cur + 1 - 1) with cur by lia. change (backs o') with [r0; r1; r2; r3].
      apply (edge_frame cur opts opts2 o); [exact He|]. intros i Hi. apply Hf; lia.
    + eapply settled_frame; [apply H5; lia|lia|]. intros j Hj. apply Hf; lia.
  - intros k Hk. destruct (H6 k ltac:(lia)) as (ok & Hok & Hpk & Hek). exists ok. split; [by rewrite Hf by lia|].
    split; [done|]. destruct Hek as [Hek|(rs & Hek)]; [by left|]. right. exists rs.
    apply (edge_frame cur opts opts2) in Hek; [|intros i Hi; apply Hf; lia].
    destruct Hek as (E1 & E2 & E3). split; [done|]. split; [lia|done].
  - by exists o'.
  - destruct (H6 (cur + 1 + 1) ltac:(lia)) as (ok & Hok & Hpk & _). exists ok. split; [by rewrite Hf by lia|lia].
Qed.

(** A cheaper bound for the next node. *)
Lemma inv_next cur rsc lenEnd next next' opts o : opt_inv cur rsc lenEnd next opts ->
  opts !! Z.to_nat (cur + 1) = Some o -> o_price o <= next' -> opt_inv cur rsc lenEnd next' opts.
Proof. intros [H1 H2 H3 H4 H5 H6 HR H7] Ho Hp. constructor; try done. by exists o. Qed.
End nodes.
