(* ===== verification/LzmaOptimumOk.v ===== *)
(** getOptimum chooses well: whatever the prices are, it fails only
    when the Reader does, every packet it
    returns is a valid one at the current place, and so are the packets that it keeps for
    later.

    The lemmas follow the functions of LzmaOptimum: each block relaxes nodes with links
    that the window justifies, so that [opt_inv] of LzmaNodes is kept. A literal's price
    is bounded, so the next node always has a link. *)

From Stdlib Require Import ZArith Lia.
From stdpp Require Import base numbers option list.
From S2P Require Import Prelude RangeCoder LzmaCoders LzmaWindow LzmaDecoder LzmaEncoder LzmaStream.
From S2P Require Import LzmaInWindow LzmaBinTree LzmaTrees LzmaBinTreeOk LzmaFinder LzmaMatches.
From S2P Require Import LzmaPrices LzmaOptimum LzmaLinks LzmaChoices LzmaNodes.
#[local] Open Scope Z_scope.

Lemma byteAt_ok data i : bytes_ok data -> byte_ok (byteAt data i).
Proof.
  intros H. unfold byteAt. destruct (nth_in_or_default (Z.to_nat i) data 0) as [Hin|Hd].
  - unfold bytes_ok in H. rewrite Forall_forall in H. apply H. by apply list_elem_of_In.
  - rewrite Hd. unfold byte_ok. lia.
Qed.

(** ** The pairs in matchDistances *)

Definition pairs_at (distances : list Z) (n : Z) (ps : list (Z * Z)) : Prop :=
  n = 2 * Z.of_nat (length ps) /\ take (2 * length ps) distances = flat ps /\ length distances = 548%nat.

Lemma pairs_lookup ds n before l d rest : pairs_at ds n (before ++ (l, d) :: rest) ->
  index ds (2 * Z.of_nat (length before)) = Ret l /\
  index ds (u32 (2 * Z.of_nat (length before) + 1)) = Ret d /\
  (2 * length before + 2 <= 548)%nat.
Proof.
  intros (Hn & Ht & Hl). pose proof (f_equal length Ht) as Hlen.
  rewrite length_flat, length_take, !length_app in Hlen. cbn [length] in Hlen.
  assert (H0 : ds !! (2 * length before)%nat = Some l /\ ds !! S (2 * length before)%nat = Some d).
  { split; (erewrite <- (lookup_take_lt _ (2 * length (before ++ (l, d) :: rest))) by (rewrite length_app; cbn [length]; lia));
      rewrite Ht, flat_app, lookup_app_r by (rewrite length_flat; lia); rewrite length_flat.
    - by rewrite Nat.sub_diag.
    - by replace (S (2 * length before) - 2 * length before)%nat with 1%nat by lia. }
  destruct H0 as [H0 H1]. rewrite wrap_id by lia. split; [|split; [|lia]]; apply index_ret.
  - by replace (Z.to_nat (2 * Z.of_nat (length before))) with (2 * length before)%nat by lia.
  - by replace (Z.to_nat (2 * Z.of_nat (length before) + 1)) with (S (2 * length before)) by lia.
Qed.

Lemma find_offs_spec ds n len rest : forall before fuel, pairs_at ds n (before ++ rest) -> len <= top 0 rest ->
  1 <= len -> (length rest <= fuel)%nat -> Forall (fun p => p.1 < len) before ->
  exists before' l d rest', before ++ rest = before' ++ (l, d) :: rest' /\ len <= l /\
    Forall (fun p => p.1 < len) before' /\
    find_offs fuel len (2 * Z.of_nat (length before)) ds = Ret (2 * Z.of_nat (length before')).
Proof.
  induction rest as [|[l d] rest IH]; intros before fuel Hp Hlen H1 Hf Hb; cbn [top] in Hlen; [lia|].
  destruct fuel as [|fuel]; [cbn in Hf; lia|]. cbn [find_offs].
  destruct (pairs_lookup _ _ _ _ _ _ Hp) as (E0 & _ & Hlt). rewrite E0. cbn [mbind outcome_bind].
  destruct (Z.ltb_spec l len).
  - destruct rest as [|[l2 d2] rest]; [cbn in Hlen; lia|].
    rewrite (wrap_id 32 (2 * Z.of_nat (length before) + 2)) by lia.
    destruct (IH (before ++ [(l, d)]) fuel) as (b' & l' & d' & r' & E & Hl' & Hb' & Ef); try done.
    + by rewrite <- app_assoc.
    + cbn in Hf |- *. lia.
    + apply Forall_app. split; [done|]. by constructor.
    + exists b', l', d', r'. split; [by rewrite <- E, <- app_assoc|]. split; [done|]. split; [done|].
      rewrite <- Ef, length_app. cbn [length]. f_equal. lia.
  - exists before, l, d, rest. done.
Qed.

Lemma top_below ps len f : Forall (fun p => p.1 < len) ps -> f < len -> top f ps < len.
Proof.
  intros H. revert f. induction H as [|[l d] ps Hl _ IH]; intros f Hf; cbn [top fst] in *; [done|].
  by apply IH.
Qed.

Lemma rising_app f ps qs : rising f (ps ++ qs) <-> rising f ps /\ rising (top f ps) qs.
Proof. revert f. induction ps as [|[l d] ps IH]; intros f; cbn; [tauto|]. rewrite IH. tauto. Qed.

(** ** What the parser keeps between two calls *)

(** A true report of the matches at the place [q]. *)
Definition report_at (data : list Z) (cl : compressionLevel) (q lenRes : Z) (z : finder) : Prop :=
  exists ps, pairs_at (matchDistances z) (distancePairs z) ps /\ good_report data cl q lenRes ps.

Definition found_one (p : parser) : Z := if longestMatchFound p then 1 else 0.

(** From the place [pos] with the last distances [rs], when [k] bytes that the finder has
    read are still to be coded before it: the choices kept in the nodes are valid, they and
    the [k] bytes are what the finder is ahead, and when a longest match has been found
    already, it is there after them. *)
Record kept (bad : lzma_error -> Prop) (data : list Z) (cl : compressionLevel)
    (pos : nat) (rs : list Z) (k : Z) (p : parser) : Prop := {
  kp_opts : length (optimum p) = 4096%nat;
  kp_lens : length (reps p) = 4%nat /\ length (repLens p) = 4%nat;
  kp_index : 0 <= optimumCurrentIndex p /\ optimumEndIndex p <= 4095;
  kp_ahead : additionalOffset (pf p) <= 4096;
  kp_choices : exists choices pos' rs',
    fwd (optimum p) (optimumEndIndex p) (optimumCurrentIndex p) choices /\
    parse_to data (2 ^ cl_dictSize cl) pos rs choices = Some (pos', rs') /\
    additionalOffset (pf p) = k + (Z.of_nat pos' - Z.of_nat pos) + found_one p /\
    at_place bad data cl (Z.of_nat pos' + found_one p) (pf p) /\
    (longestMatchFound p = true -> (pos' < length data)%nat /\ fastBytes cl <= longestMatchLen p /\
       report_at data cl (Z.of_nat pos') (longestMatchLen p) (pf p))
}.

(** What getOptimum returns: the packet is valid and what is kept goes on after it. *)
Definition chosen (bad : lzma_error -> Prop) (data : list Z) (cl : compressionLevel)
    (pos : nat) (rs : list Z) (res : Z) (p : parser) : Prop :=
  1 <= res /\
  exists rs', parse_to data (2 ^ cl_dictSize cl) pos rs [(res, backRes p)] = Some ((pos + Z.to_nat res)%nat, rs') /\
    kept bad data cl (pos + Z.to_nat res) rs' res p.

Section parser.
Context (bad : lzma_error -> Prop) (data : list Z) (Hdata : bytes_ok data).
Context (cl : compressionLevel) (Hcl : checkValues cl = true).
Let dict := 2 ^ cl_dictSize cl.
Let fb := fastBytes cl.
Let N := Z.of_nat (length data).
Let npos := 2 ^ cl_posStateBits cl.
Let mask := npos - 1.
Lemma level_bits : 4096 <= dict <= 2 ^ 29 /\ 5 <= fb <= 273 /\ 0 <= cl_litContextBits cl <= 8 /\
  0 <= cl_litPosStateBits cl <= 4 /\ 0 < npos <= 16.
Proof.
  destruct (levels_bound data cl Hcl) as [H1 H2]. split; [done|]. split; [done|].
  pose proof Hcl as H. unfold checkValues in H. rewrite !andb_true_iff, !negb_true_iff, !orb_false_iff in H.
  destruct H as (((((_ & _) & Hlc) & Hlp) & Hpb) & _). destruct Hlc, Hlp, Hpb. zbool.
  split; [lia|]. split; [lia|]. unfold npos. split; [apply Z.pow_pos_nonneg; lia|].
  apply (Z.pow_le_mono_r 2 _ 4); lia.
Qed.

Lemma posStateOf_ok position : 0 <= posStateOf mask position < npos.
Proof.
  unfold posStateOf, mask. pose proof level_bits as (_ & _ & _ & _ & Hn).
  pose proof Hcl as H. unfold checkValues in H. rewrite !andb_true_iff, !negb_true_iff, !orb_false_iff in H.
  destruct H as (((((_ & _) & _) & _) & Hpb) & _). destruct Hpb. zbool. unfold npos in *.
  replace (2 ^ cl_posStateBits cl - 1) with (Z.ones (cl_posStateBits cl)) by (rewrite Z.ones_equiv; lia).
  rewrite Z.land_ones by lia. apply Z.mod_pos_bound. lia.
Qed.

Context (T : tables) (HT : tables_ok T) (cs : coders) (pr : prices) (Hpr : prices_ok pr).
Context (Hcs : coders_ok npos (cl_litContextBits cl) (cl_litPosStateBits cl) cs).
Context (v : evars) (A0 : nat) (HA0 : (1 <= A0 < length data)%nat).
Context (Hrs0 : reps_in dict A0 (repDistances v)).
Context (Hst : 0 <= e_state v < 12) (Hprev : byte_ok (e_prevByte v)).

Lemma complex_ok s ps : 0 <= s < 12 -> 0 <= ps < npos -> 0 <= complexState s ps < 192.
Proof. intros. pose proof level_bits. apply (complexState_bound _ _ npos); lia. Qed.

(** Flags of isMatch and isRep. *)
Lemma matchPrice0_ok s ps : 0 <= s < 12 -> 0 <= ps < npos ->
  returns bitPrice_ok (bitPrice0 T (matchDecoders cs) (complexState s ps)).
Proof. intros. eapply bitPrice0_ok; [done|apply (ok_match _ _ _ _ Hcs)|by apply complex_ok]. Qed.
Lemma matchPrice1_ok s ps : 0 <= s < 12 -> 0 <= ps < npos ->
  returns bitPrice_ok (bitPrice1 T (matchDecoders cs) (complexState s ps)).
Proof. intros. eapply bitPrice1_ok; [done|apply (ok_match _ _ _ _ Hcs)|by apply complex_ok]. Qed.
Lemma repPrice0_ok s : 0 <= s < 12 -> returns bitPrice_ok (bitPrice0 T (repDecoders cs) s).
Proof. intros. eapply bitPrice0_ok; [done|apply (ok_rep _ _ _ _ Hcs)|done]. Qed.
Lemma repPrice1_ok s : 0 <= s < 12 -> returns bitPrice_ok (bitPrice1 T (repDecoders cs) s).
Proof. intros. eapply bitPrice1_ok; [done|apply (ok_rep _ _ _ _ Hcs)|done]. Qed.

Lemma litPrice_ok pos prev mode mb b : 0 <= pos -> byte_ok prev ->
  returns (fun p => 0 <= p <= kMaxBitPrice * 8) (literalPrice (probPrices T) (litC cs) pos prev mode mb b).
Proof.
  intros. pose proof level_bits as (_ & _ & Hlc & Hlp & _).
  apply (literalPrice_ok _ (proj2 HT) _ _ _ _ _ _ _ _ Hlc Hlp); [apply (ok_lit _ _ _ _ Hcs)|done|done].
Qed.

Lemma repPrice_ok i len s ps : 0 <= i < 4 -> 2 <= len <= 273 -> 0 <= s < 12 -> 0 <= ps < npos ->
  returns (fun _ => True) (getRepPrice T cs pr i len s ps).
Proof. intros. pose proof level_bits. eapply getRepPrice_ok; try done; lia. Qed.

Lemma newPrice_ok d len ps : 0 <= d < dict -> 2 <= len <= 273 -> 0 <= ps < npos ->
  returns (fun _ => True) (getPosLenPrice T pr d len ps).
Proof. intros. pose proof level_bits. eapply (getPosLenPrice_ok T HT npos); try done; lia. Qed.

Lemma rep1Price_ok s ps : 0 <= s < 12 -> 0 <= ps < npos -> returns (fun _ => True) (getRepLen1Price T cs s ps).
Proof. intros. pose proof level_bits. eapply getRepLen1Price_ok; try done; lia. Qed.

(** ** At a node *)

Record ctx_ok (c : node_ctx) (z : finder) : Prop := {
  cx_place : at_place bad data cl (Z.of_nat A0 + c_cur c + 1) z;
  cx_cur : 0 <= c_cur c;
  cx_pos : 0 <= c_position c;
  cx_state : 0 <= c_state c < 12;
  cx_ps : 0 <= c_posState c < npos;
  cx_reps : reps_in dict (A0 + Z.to_nat (c_cur c)) (c_reps c);
  cx_full : 2 <= c_full c <= 4095 - c_cur c;
  cx_fullN : c_full c <= getNumAvailableBytes (bt_iw (mf z)) + 1;
  cx_avail : c_avail c = Z.min fb (c_full c)
}.

Definition good (c : node_ctx) (lenEnd : Z) (opts : list optimal) : Prop :=
  opt_inv data dict A0 (repDistances v) (c_cur c) (c_reps c) lenEnd ((c_cur c + 1) * kStep) opts.

(** lenEnd only grows. *)
Definition better (c : node_ctx) (lenEnd : Z) (s : Z * list optimal) : Prop :=
  lenEnd <= s.1 /\ good c s.1 s.2.

Lemma better_refl c lenEnd opts : good c lenEnd opts -> better c lenEnd (lenEnd, opts).
Proof. intros H. split; [cbn; lia|done]. Qed.

Lemma better_trans c l1 l2 s : l1 <= l2 -> better c l2 s -> better c l1 s.
Proof. intros Hl [H1 H2]. split; [lia|done]. Qed.

Lemma first_rep pos rs : reps_in dict pos rs -> exists d, index rs 0 = Ret d /\ rs !! 0%nat = Some d /\
  hd_error rs = Some d /\ 0 <= d < dict /\ d < Z.of_nat pos.
Proof.
  intros [Hl Hf]. destruct rs as [|d rs]; [done|]. exists d. apply Forall_cons_1 in Hf as [Hf _].
  do 3 (split; [done|]). done.
Qed.

(** A window byte. *)
Lemma node_byte c z ind : ctx_ok c z -> ind < getNumAvailableBytes (bt_iw (mf z)) ->
  0 <= Z.of_nat A0 + c_cur c + 1 + ind -> - (dict + 4096) <= ind ->
  returns byte_ok (getIndexByte ind (bt_iw (mf z))).
Proof.
  intros H Hi H0 Hlo. rewrite (place_byte bad data cl Hcl _ _ _ (cx_place _ _ H)) by done.
  cbn [returns]. by apply byteAt_ok.
Qed.

(** A match length at an offset from the node. *)
Lemma node_len c z ind d limit : ctx_ok c z -> -1 <= ind -> 0 <= limit -> ind + limit < c_full c ->
  0 <= d < dict -> d < Z.of_nat A0 + c_cur c + 1 + ind ->
  let q := Z.of_nat A0 + c_cur c + 1 + ind in
  exists l, getMatchLen ind d limit (bt_iw (mf z)) = Ret l /\ 0 <= l <= limit /\ q + l <= N /\
    agree data l (q - d - 1) q.
Proof.
  intros H Hi Hl Hf Hd Hdq q. pose proof (cx_fullN _ _ H). pose proof (cx_cur _ _ H). pose proof (cx_full _ _ H).
  destruct (place_avail bad data cl Hcl _ _ (cx_place _ _ H)) as (Ha & HaN & _). fold N in HaN.
  rewrite (place_len bad data cl Hcl _ _ _ _ _ (cx_place _ _ H)); try done; try lia.
  fold q. fold N. eexists. split; [done|].
  destruct (common_spec data (Z.to_nat (Z.min limit (N - q))) q (q - d - 1)) as (C1 & C2 & _).
  assert (0 <= N - q) by (unfold q; lia).
  split; [lia|]. split; [lia|]. by apply agree_sym.
Qed.

(** ** The blocks of relaxLonger *)

Lemma min_spec a b : minUInt32 a b = Z.min a b.
Proof. unfold minUInt32. zcases; lia. Qed.

Lemma relaxCharRep_ok c z lenEnd opts curAnd1Price : ctx_ok c z -> good c lenEnd opts ->
  returns (better c lenEnd) (relaxCharRep T cl mask cs pr c curAnd1Price (bt_iw (mf z)) (lenEnd, opts)).
Proof.
  intros H G. pose proof level_bits as (Hd & Hfb & _). pose proof (cx_full _ _ H). pose proof (cx_cur _ _ H).
  unfold relaxCharRep. fold fb. rewrite min_spec, (wrap_id 32 (c_full c - 1)) by lia.
  destruct (first_rep _ _ (cx_reps _ _ H)) as (d & E1 & _ & E2 & Hdd & Hda). rewrite E1. cbn [mbind outcome_bind].
  destruct (node_len c z 0 d (Z.min (c_full c - 1) fb) H) as (l & El & Hl & Hn & Hag); try lia.
  rewrite El. cbn [mbind outcome_bind]. destruct (Z.leb_spec 2 l); [|by apply better_refl].
  destruct (state_updates_ok _ (cx_state _ _ H)) as (Hs2 & _).
  eapply returns_bind; [apply matchPrice1_ok; [lia|apply posStateOf_ok]|]. intros p1 _.
  eapply returns_bind; [apply repPrice1_ok; lia|]. intros p2 _.
  rewrite (wrap_id 32 (c_cur c + 1)), (wrap_id 32 (c_cur c + 1 + l)) by lia.
  eapply returns_bind; [apply (extend_inv data dict A0 (repDistances v) _ _ _ _ _ (c_cur c + 1 + l) G); lia|].
  intros [e opts'] [-> G']. eapply returns_bind; [apply repPrice_ok; try lia; apply posStateOf_ok|]. intros p _.
  eapply returns_bind.
  { eapply (relax_inv data dict A0 (repDistances v) _ _ _ _ _ _ _ _ (c_reps c)); [exact G'|lia|apply wrap_range; lia|done|].
    intros o. apply char_rep_edge; [apply (oi_reps _ _ _ _ _ _ _ _ _ G')|lia|lia|].
    apply (parse_char_rep data dict _ _ _ d); try done; try lia.
    - apply (cx_reps _ _ H).
    - change kMatchMaxLen with 273. lia.
    - replace (Z.of_nat (A0 + Z.to_nat (c_cur c)) + 1) with (Z.of_nat A0 + c_cur c + 1 + 0) by lia. done. }
  intros opts'' G''. cbn [returns]. split; [cbn; lia|exact G''].
Qed.

Lemma relaxMatchCharRep_ok c z lenTest d state2 back matchInd base lenEnd opts : ctx_ok c z -> good c lenEnd opts ->
  2 <= lenTest <= 273 -> hd_error (new_reps back (c_reps c)) = Some d -> 0 <= back -> back <> 0xFFFFFFFF ->
  0 <= d < dict -> d < Z.of_nat A0 + c_cur c ->
  agree data lenTest (Z.of_nat A0 + c_cur c - d - 1) (Z.of_nat A0 + c_cur c) ->
  matchInd = lenTest - 1 - (d + 1) -> 0 <= state2 < 12 -> returns (fun _ => True) base ->
  returns (better c lenEnd)
    (relaxMatchCharRep T cl mask cs pr c lenTest d state2 back matchInd base (bt_iw (mf z)) (lenEnd, opts)).
Proof.
  intros H G Hlen Hhd Hb Hb' Hd Hdq Hag -> Hs2 Hbase.
  pose proof level_bits as (Hdict & Hfb & _). pose proof (cx_full _ _ H). pose proof (cx_cur _ _ H).
  pose proof (cx_fullN _ _ H). unfold relaxMatchCharRep. fold fb.
  destruct (Z.ltb_spec lenTest (c_full c)); [|by apply better_refl].
  rewrite min_spec, (wrap_id 32 (c_full c - 1)), (wrap_id 32 (c_full c - 1 - lenTest)) by lia.
  rewrite !(swrap_id 32 lenTest), !(swrap_id 32 (lenTest - 1)), !(swrap_id 32 (lenTest - 1 - 1)) by lia.
  destruct (node_len c z lenTest d (Z.min (c_full c - 1 - lenTest) fb) H) as (l & El & Hl & Hn & Hag2); try lia.
  rewrite El. cbn [mbind outcome_bind]. destruct (Z.leb_spec 2 l); [|by apply better_refl].
  destruct (state_updates_ok _ Hs2) as (Hs3 & _).
  eapply returns_bind; [exact Hbase|]. intros price _.
  eapply returns_bind; [apply matchPrice0_ok; [lia|apply posStateOf_ok]|]. intros p _.
  eapply returns_bind; [apply (node_byte c z); [done|lia|lia|lia]|]. intros prevByte Hpb.
  eapply returns_bind; [apply (node_byte c z); [done|lia|lia|lia]|]. intros matchByte _.
  eapply returns_bind; [apply (node_byte c z); [done|lia|lia|lia]|]. intros curByte _.
  eapply returns_bind; [apply litPrice_ok; [apply wrap_range; lia|done]|]. intros lp _.
  eapply returns_bind; [apply matchPrice1_ok; [lia|apply posStateOf_ok]|]. intros p1 _.
  eapply returns_bind; [apply repPrice1_ok; lia|]. intros p2 _.
  rewrite (wrap_id 32 (lenTest + 1)), (wrap_id 32 (lenTest + 1 + l)), (wrap_id 32 (c_cur c + (lenTest + 1 + l))),
    (wrap_id 32 (c_cur c + lenTest)), (wrap_id 32 (c_cur c + lenTest + 1)) by lia.
  replace (c_cur c + (lenTest + 1 + l)) with (c_cur c + lenTest + 1 + l) by lia.
  destruct (place_avail bad data cl Hcl _ _ (cx_place _ _ H)) as (_ & HaN & _). fold N in HaN.
  eapply returns_bind; [apply (extend_inv data dict A0 (repDistances v) _ _ _ _ _ (c_cur c + lenTest + 1 + l) G); lia|].
  intros [e opts'] [-> G']. eapply returns_bind; [apply repPrice_ok; try lia; apply posStateOf_ok|]. intros p3 _.
  eapply returns_bind.
  { eapply (relax_inv data dict A0 (repDistances v) _ _ _ _ _ _ _ _ (new_reps back (c_reps c)));
      [exact G'|lia|apply wrap_range; lia|done|].
    intros o. apply match_char_rep_edge; [apply (oi_reps _ _ _ _ _ _ _ _ _ G')|lia|lia|lia|].
    apply (parse_match_char_rep data dict _ _ _ _ _ d); try done; try lia.
    - apply (cx_reps _ _ H).
    - change kMatchMaxLen with 273. lia.
    - by replace (Z.of_nat (A0 + Z.to_nat (c_cur c))) with (Z.of_nat A0 + c_cur c) by lia.
    - replace (Z.of_nat (A0 + Z.to_nat (c_cur c)) + lenTest + 1) with (Z.of_nat A0 + c_cur c + 1 + lenTest) by lia. done. }
  intros opts'' G''. cbn [returns]. split; [cbn; lia|exact G''].
Qed.

(** A packet of [len] bytes from the node. *)
Lemma relax_packet c z lenEnd opts len back d price : ctx_ok c z -> good c lenEnd opts ->
  2 <= len <= c_avail c -> c_cur c + len <= lenEnd -> 0 <= price ->
  hd_error (new_reps back (c_reps c)) = Some d -> 0 <= back -> back <> 0xFFFFFFFF ->
  0 <= d < dict -> d < Z.of_nat A0 + c_cur c -> 
  agree data len (Z.of_nat A0 + c_cur c - d - 1) (Z.of_nat A0 + c_cur c) ->
  returns (good c lenEnd) (relax (c_cur c + len) price (set_packet price (c_cur c) back) opts).
Proof.
  intros H G Hlen Hend Hp Hhd Hb Hb' Hd Hdq Hag. pose proof level_bits as (Hdict & Hfb & _).
  pose proof (cx_full _ _ H). pose proof (cx_cur _ _ H). pose proof (cx_avail _ _ H). pose proof (cx_fullN _ _ H).
  destruct (place_avail bad data cl Hcl _ _ (cx_place _ _ H)) as (_ & HaN & _). fold N in HaN.
  eapply (relax_inv data dict A0 (repDistances v) _ _ _ _ _ _ _ _ (new_reps back (c_reps c)));
    [exact G|lia|lia|done|].
  intros o. apply packet_edge; [apply (oi_reps _ _ _ _ _ _ _ _ _ G)|lia|lia|].
  apply (parse_agree data dict _ _ _ _ d); try done; try lia.
  - destruct (back =? 0); change kMatchMaxLen with 273; lia.
  - by replace (Z.of_nat (A0 + Z.to_nat (c_cur c))) with (Z.of_nat A0 + c_cur c) by lia.
Qed.

(** All lengths of a repeat. *)
Lemma repLengths_ok c z i d lenTest lenEnd opts : ctx_ok c z -> good c lenEnd opts -> 0 <= i < 4 ->
  c_reps c !! Z.to_nat i = Some d -> lenTest <= c_avail c ->
  agree data lenTest (Z.of_nat A0 + c_cur c - d - 1) (Z.of_nat A0 + c_cur c) ->
  returns (better c lenEnd) (for_down (Z.to_nat (lenTest - 1)) lenTest (fun lenTest '(lenEnd, opts) =>
    '(lenEnd, opts) ← extend (u32 (c_cur c + lenTest)) lenEnd opts;
    p ← getRepPrice T cs pr i lenTest (c_state c) (c_posState c);
    let curAndLenPrice := u32 (c_repMatchPrice c + p) in
    opts ← relax (u32 (c_cur c + lenTest)) curAndLenPrice
             (set_packet curAndLenPrice (c_cur c) i) opts;
    Ret (lenEnd, opts)) (lenEnd, opts)).
Proof.
  intros H G Hi Hd Hlen Hag. pose proof level_bits as (Hdict & Hfb & _).
  pose proof (cx_full _ _ H). pose proof (cx_cur _ _ H). pose proof (cx_avail _ _ H). pose proof (cx_fullN _ _ H).
  destruct (place_avail bad data cl Hcl _ _ (cx_place _ _ H)) as (_ & HaN & _). fold N in HaN.
  destruct (cx_reps _ _ H) as [Hrl Hrf]. pose proof (Forall_lookup_1 _ _ _ _ Hrf Hd) as Hdb. cbv beta in Hdb.
  apply for_down_ok; [by apply better_refl|]. intros l [e opts1] Hl [He G1]. cbn [fst snd] in *.
  rewrite (wrap_id 32 (c_cur c + l)) by lia.
  eapply returns_bind; [apply (extend_inv data dict A0 (repDistances v) _ _ _ _ _ (c_cur c + l) G1); lia|].
  intros [e2 opts2] [-> G2]. eapply returns_bind; [apply repPrice_ok; try lia; [apply (cx_state _ _ H)|apply (cx_ps _ _ H)]|].
  intros p _. eapply returns_bind.
  { apply (relax_packet c z (Z.max (c_cur c + l) e) opts2 l i d); try done; try lia; [apply wrap_range; lia|by apply hd_rep|].
    eapply agree_less; [|exact Hag]. lia. }
  intros opts3 G3. cbn [returns]. split; [cbn; lia|exact G3].
Qed.

Lemma relaxRep_ok c z i startLen lenEnd opts : ctx_ok c z -> good c lenEnd opts -> 0 <= i < 4 ->
  2 <= startLen <= c_avail c + 1 ->
  returns (fun '(startLen, s) => 2 <= startLen <= c_avail c + 1 /\ better c lenEnd s)
    (relaxRep T cl mask cs pr c (bt_iw (mf z)) i (startLen, (lenEnd, opts))).
Proof.
  intros H G Hi Hs. pose proof level_bits as (Hdict & Hfb & _).
  pose proof (cx_full _ _ H). pose proof (cx_cur _ _ H). pose proof (cx_avail _ _ H).
  destruct (cx_reps _ _ H) as [Hrl Hrf]. unfold relaxRep.
  destruct (lookup_lt_is_Some_2 (c_reps c) (Z.to_nat i)) as [d Hd]; [lia|].
  pose proof (Forall_lookup_1 _ _ _ _ Hrf Hd) as Hdb. cbv beta in Hdb.
  rewrite (index_ret _ _ _ Hd). cbn [mbind outcome_bind].
  destruct (node_len c z (-1) d (c_avail c) H) as (l & El & Hl & Hn & Hag); try lia.
  rewrite El. cbn [mbind outcome_bind].
  replace (Z.of_nat A0 + c_cur c + 1 + -1) with (Z.of_nat A0 + c_cur c) in * by lia.
  destruct (Z.ltb_spec l 2); [cbn [returns]; split; [done|by apply better_refl]|].
  eapply returns_bind; [by eapply repLengths_ok; [exact H|exact G|done|exact Hd|lia|exact Hag]|].
  intros [e opts1] [He G1]. cbn [fst snd] in *.
  destruct (state_updates_ok _ (cx_state _ _ H)) as (_ & _ & U & _).
  eapply returns_bind.
  { apply (relaxMatchCharRep_ok c z l d); try done; try lia; [by apply hd_rep| |].
    - rewrite (wrap_id 32 (d + 1)), (swrap_id 32 l), (swrap_id 32 (l - 1)), (swrap_id 32 (d + 1)), (swrap_id 32 (l - 1 - (d + 1))) by lia. done.
    - eapply returns_bind; [apply repPrice_ok; try lia; [apply (cx_state _ _ H)|apply (cx_ps _ _ H)]|]. done. }
  intros [e2 opts2] HB. cbn [returns]. split; [|by eapply better_trans].
  rewrite (wrap_id 32 (l + 1)) by lia. destruct (i =? 0); lia.
Qed.

Lemma relaxReps_ok c z lenEnd opts : ctx_ok c z -> good c lenEnd opts ->
  returns (fun '(startLen, s) => 2 <= startLen <= c_avail c + 1 /\ better c lenEnd s)
    (for_range (Z.to_nat kNumRepDistances) 0 (relaxRep T cl mask cs pr c (bt_iw (mf z))) (2, (lenEnd, opts))).
Proof.
  intros H G. pose proof level_bits as (Hdict & Hfb & _).
  pose proof (cx_full _ _ H). pose proof (cx_avail _ _ H).
  apply (for_range_ok (fun '(startLen, s) => 2 <= startLen <= c_avail c + 1 /\ better c lenEnd s)).
  - split; [lia|by apply better_refl].
  - change (Z.to_nat kNumRepDistances) with 4%nat. intros i [startLen [e opts1]] Hi [Hs [He G1]]. cbn [fst snd] in *.
    eapply returns_weaken; [apply relaxRep_ok; try done; lia|]. intros [s' [e' opts']] [Hs' HB].
    split; [done|]. by eapply better_trans.
Qed.

(** Matches that agree at the place [q], of at most [lim] bytes. *)
Definition pair_ok (q lim : Z) (p : Z * Z) : Prop :=
  2 <= p.1 <= lim /\ 0 <= p.2 < dict /\ p.2 < q /\ agree data p.1 (q - p.2 - 1) q.

Lemma match_packet_ok c z lenEnd opts l d len price : ctx_ok c z -> good c lenEnd opts ->
  pair_ok (Z.of_nat A0 + c_cur c) (c_avail c) (l, d) -> 2 <= len <= l -> c_cur c + len <= lenEnd -> 0 <= price ->
  returns (good c lenEnd) (relax (u32 (c_cur c + len)) price
    (set_packet price (c_cur c) (u32 (d + kNumRepDistances))) opts).
Proof.
  intros H G (Hl & Hd & Hdq & Hag) Hlen Hend Hp. cbn [fst snd] in *. change kNumRepDistances with 4.
  pose proof level_bits as (Hdict & Hfb & _). pose proof (cx_cur _ _ H). pose proof (cx_full _ _ H).
  pose proof (cx_avail _ _ H). rewrite (wrap_id 32 (d + 4)), (wrap_id 32 (c_cur c + len)) by lia.
  apply (relax_packet c z lenEnd opts len (d + 4) d); try done; try lia.
  - apply hd_new; [apply Hd|apply (cx_reps _ _ H)].
  - eapply agree_less; [|exact Hag]. lia.
Qed.

Lemma match_char_rep_ok c z lenEnd opts l d base : ctx_ok c z -> good c lenEnd opts ->
  pair_ok (Z.of_nat A0 + c_cur c) (c_avail c) (l, d) -> returns (fun _ => True) base ->
  returns (better c lenEnd)
    (relaxMatchCharRep T cl mask cs pr c l d (stateUpdateMatch (c_state c)) (u32 (d + kNumRepDistances))
       (i32 (i32 (i32 l - i32 (i32 d + 1)) - 1)) base (bt_iw (mf z)) (lenEnd, opts)).
Proof.
  intros H G (Hl & Hd & Hdq & Hag) Hb. cbn [fst snd] in *. change kNumRepDistances with 4.
  pose proof level_bits as (Hdict & Hfb & _). pose proof (cx_avail _ _ H).
  destruct (state_updates_ok _ (cx_state _ _ H)) as (_ & U & _ & _).
  rewrite (wrap_id 32 (d + 4)) by lia.
  apply relaxMatchCharRep_ok; try done; try lia.
  - apply hd_new; [apply Hd|apply (cx_reps _ _ H)].
  - rewrite (swrap_id 32 l), (swrap_id 32 d), (swrap_id 32 (d + 1)), (swrap_id 32 (l - (d + 1))),
      (swrap_id 32 (l - (d + 1) - 1)) by lia. lia.
Qed.

Lemma relaxMatches_ok c z ds n nmp : ctx_ok c z -> forall fuel before l d rest lenTest lenEnd opts,
  good c lenEnd opts -> pairs_at ds n (before ++ (l, d) :: rest) ->
  rising (lenTest - 1) ((l, d) :: rest) -> 2 <= lenTest ->
  Forall (pair_ok (Z.of_nat A0 + c_cur c) (c_avail c)) ((l, d) :: rest) ->
  c_cur c + top l rest <= lenEnd -> top l rest - lenTest < Z.of_nat fuel ->
  returns (better c lenEnd)
    (relaxMatches T cl mask cs pr fuel c (bt_iw (mf z)) nmp lenTest (2 * Z.of_nat (length before)) n ds (lenEnd, opts)).
Proof.
  intros H. induction fuel as [|fuel IH]; intros before l d rest lenTest lenEnd opts G Hp Hr H2 Hf Hend Hfuel;
    cbn [rising] in Hr; destruct Hr as [Hr1 Hr2]; pose proof (rising_length _ _ Hr2) as Htop; [lia|].
  destruct (pairs_lookup _ _ _ _ _ _ Hp) as (E0 & E1 & Hlt). cbn [relaxMatches].
  apply Forall_cons_1 in Hf as [Hld Hf]. pose proof Hld as (Hl & Hd & _). cbn [fst snd] in Hl, Hd.
  pose proof level_bits as (Hdict & Hfb & _). pose proof (cx_avail _ _ H). rewrite E1. cbn [mbind outcome_bind].
  eapply returns_bind; [apply newPrice_ok; [done|lia|apply (cx_ps _ _ H)]|]. intros p _.
  eapply returns_bind.
  { apply (match_packet_ok c z lenEnd opts l d lenTest); try done; [lia|lia|apply wrap_range; lia]. }
  intros opts1 G1. rewrite E0. cbn [mbind outcome_bind].
  rewrite (wrap_id 32 (lenTest + 1)) by lia.
  destruct (Z.eqb_spec lenTest l) as [->|Hne].
  - eapply returns_bind; [by apply match_char_rep_ok|]. intros [e opts2] [He G2]. cbn [fst snd] in *.
    rewrite (wrap_id 32 (2 * Z.of_nat (length before) + 2)) by lia.
    destruct Hp as (Hn & Ht & Hdl). rewrite length_app in Hn. cbn [length] in Hn.
    destruct (Z.eqb_spec (2 * Z.of_nat (length before) + 2) n).
    { cbn [returns]. split; [cbn; lia|exact G2]. }
    destruct rest as [|[l2 d2] rest]; [cbn [length] in *; lia|]. cbn [rising top] in *.
    pose proof (rising_length _ _ (proj2 Hr2)).
    eapply returns_weaken; [|intros s; apply better_trans, He].
    specialize (IH (before ++ [(l, d)]) l2 d2 rest (l + 1) e opts2 G2). rewrite <- app_assoc in IH.
    rewrite length_app in IH. cbn [length app] in IH.
    replace (2 * Z.of_nat (length before + 1)) with (2 * Z.of_nat (length before) + 2) in IH by lia.
    apply IH; try done; try lia.
    + split; [rewrite length_app; cbn [length] in *; lia|done].
    + cbn [rising]. split; [lia|apply Hr2].
  - eapply IH; try done; try lia.
    + cbn [rising]. split; [lia|done].
    + by constructor.
Qed.

(** Cutting the longest match keeps the pairs good. *)
Lemma cutMatches_ok q newLen avail n ds ps : pairs_at ds n ps -> rising 1 ps -> Forall (pair_ok q fb) ps ->
  newLen = top 0 ps -> 2 <= avail <= fb ->
  returns (fun '(newLen, n, ds) => exists ps, pairs_at ds n ps /\ rising 1 ps /\
             Forall (pair_ok q avail) ps /\ newLen = top 0 ps) (cutMatches newLen avail n ds).
Proof.
  intros Hp Hr Hf -> Ha. unfold cutMatches. destruct (Z.ltb_spec avail (top 0 ps)) as [Hlt|Hge].
  - pose proof Hp as (Hn & Ht & Hl). pose proof (f_equal length Ht) as Hlen.
    rewrite length_flat, length_take in Hlen.
    destruct (find_offs_spec ds n avail ps [] (length ds) Hp) as (b & l & d & r & E & Hal & Hb & Ef); [lia|lia|lia|constructor|].
    cbn [app] in E. subst ps. change (2 * Z.of_nat (length (A := Z * Z) [])) with 0 in Ef. rewrite Ef. cbn [mbind outcome_bind].
    assert (Hds : ds = flat b ++ l :: d :: (flat r ++ drop (2 * length (b ++ (l, d) :: r)) ds)).
    { rewrite <- (take_drop (2 * length (b ++ (l, d) :: r)) ds) at 1. rewrite Ht, flat_app. cbn [flat].
      by rewrite <- app_assoc. }
    set (tl := flat r ++ _) in Hds. pose proof (length_flat b) as Hlb.
    destruct (pairs_lookup _ _ _ _ _ _ Hp) as (E0 & _ & Hb548).
    rewrite store_ret by lia. cbn [mbind outcome_bind returns].
    replace (Z.to_nat (2 * Z.of_nat (length b))) with (2 * length b)%nat by lia.
    rewrite (wrap_id 32 (2 * Z.of_nat (length b) + 2)) by lia.
    exists (b ++ [(avail, d)]). apply rising_app in Hr as [Hr1 Hr2]. apply Forall_app in Hf as [Hf1 Hf2].
    apply Forall_cons_1 in Hf2 as [(Hl1 & Hd & Hdq & Hag) _]. cbn [fst snd] in *.
    split; [split; [|split]|split; [|split]].
    + rewrite length_app. cbn [length]. lia.
    + rewrite length_app, flat_app. cbn [length flat]. rewrite Hds at 1.
      rewrite insert_app_r_alt by lia. rewrite Hlb, Nat.sub_diag. cbn [insert list_insert].
      change (flat b ++ avail :: d :: tl) with (flat b ++ [avail; d] ++ tl). rewrite app_assoc.
      apply take_app_length'. rewrite length_app, Hlb. cbn [length]. lia.
    + by rewrite length_insert.
    + apply rising_app. split; [done|]. cbn [rising]. split; [apply top_below; [done|lia]|done].
    + apply Forall_app. split.
      * rewrite Forall_forall in *. intros p Hin. destruct (Hf1 p Hin) as ([? ?] & ? & ? & ?).
        specialize (Hb p Hin). split; [lia|done].
      * constructor; [|constructor]. split; [cbn; lia|]. split; [done|]. split; [done|].
        eapply agree_less; [|exact Hag]. cbn. lia.
    + by rewrite top_snoc.
  - cbn [returns]. exists ps. split; [done|]. split; [done|]. split; [|done].
    clear Hp. assert (Hall : forall f qs, rising f qs -> forall p, p ∈ qs -> p.1 <= top f qs).
    { intros f qs. revert f. induction qs as [|[l d] qs IH]; intros f Hq p Hin; [by apply elem_of_nil in Hin|].
      cbn [rising top] in *. destruct Hq as [Hq1 Hq2]. pose proof (rising_length _ _ Hq2).
      apply elem_of_cons in Hin as [->|Hin]; [cbn; lia|by apply IH]. }
    rewrite Forall_forall in *. intros p Hin. destruct (Hf p Hin) as ([? ?] & ? & ? & ?).
    destruct ps as [|[l d] ps]; [by apply elem_of_nil in Hin|].
    assert (p.1 <= top 0 ((l, d) :: ps)).
    { apply (Hall 0); [|done]. cbn [rising] in *. split; [lia|apply Hr]. }
    split; [lia|done].
Qed.

(** The parser after a node: other nodes and perhaps a cut match. *)
Definition same_but_nodes (p p' : parser) : Prop :=
  mf (pf p') = mf (pf p) /\ additionalOffset (pf p') = additionalOffset (pf p) /\
  length (matchDistances (pf p')) = length (matchDistances (pf p)) /\
  longestMatchFound p' = longestMatchFound p /\ length (repLens p') = length (repLens p).

Lemma relaxLonger_ok c p newLen curAnd1Price curByte matchByte nextIsChar lenEnd ps :
  ctx_ok c (pf p) -> good c lenEnd (optimum p) ->
  pairs_at (matchDistances (pf p)) (distancePairs (pf p)) ps -> rising 1 ps ->
  Forall (pair_ok (Z.of_nat A0 + c_cur c) fb) ps -> newLen = top 0 ps ->
  returns (fun '(lenEnd', p') => good c lenEnd' (optimum p') /\ lenEnd <= lenEnd' /\
             same_but_nodes p p' /\ reps p' = reps p)
    (relaxLonger T cl mask cs pr c newLen curAnd1Price curByte matchByte nextIsChar lenEnd p).
Proof.
  intros H G Hp Hr Hf Hnew. pose proof level_bits as (Hdict & Hfb & _). pose proof (cx_full _ _ H).
  pose proof (cx_avail _ _ H) as Hav. pose proof (cx_cur _ _ H). pose proof (cx_fullN _ _ H).
  destruct (place_avail bad data cl Hcl _ _ (cx_place _ _ H)) as (_ & HaN & _). fold N in HaN.
  unfold relaxLonger. fold (p_iw p). apply (returns_bind (better c lenEnd)).
  { destruct (_ && _); [by apply relaxCharRep_ok|by apply better_refl]. }
  intros [e1 opts1] [He1 G1]. cbn [fst snd] in *.
  eapply returns_bind; [by apply relaxReps_ok|]. intros [startLen [e2 opts2]] [Hs [He2 G2]]. cbn [fst snd] in *.
  eapply returns_bind; [by eapply (cutMatches_ok (Z.of_nat A0 + c_cur c)); [exact Hp|..]; try done; lia|].
  intros [[newLen' n'] ds'] (ps' & Hp' & Hr' & Hf' & ->).
  assert (Hsame : forall opts, same_but_nodes p (p_opts opts (p_distances ds' p))).
  { intros opts. split; [done|]. split; [done|]. split; [|done]. cbn.
    destruct Hp as (_ & _ & ->). by destruct Hp' as (_ & _ & ->). }
  destruct (Z.leb_spec startLen (top 0 ps')); [|cbn [returns]; split; [exact G2|]; split; [lia|]; split; [apply Hsame|done]].
  eapply returns_bind; [apply repPrice0_ok, (cx_state _ _ H)|]. intros p1 _.
  pose proof Hp' as (Hn' & Ht' & Hl').
  assert (Htop : top 0 ps' <= c_avail c).
  { destruct (decide (ps' = [])) as [->|Hne]; [cbn; lia|]. destruct (exists_last Hne) as (qs & [l d] & ->).
    rewrite top_snoc. apply Forall_app in Hf' as [_ Hf']. apply Forall_cons_1 in Hf' as [(Hl & _) _]. cbn in Hl. lia. }
  rewrite (wrap_id 32 (c_cur c + top 0 ps')) by lia.
  eapply returns_bind; [apply (extend_inv data dict A0 (repDistances v) _ _ _ _ _ (c_cur c + top 0 ps') G2); lia|].
  intros [e3 opts3] [-> G3]. pose proof (f_equal length Ht') as Hlen'. rewrite length_flat, length_take in Hlen'.
  destruct (find_offs_spec ds' n' startLen ps' [] (length ds') Hp') as (b & l & d & r & E & Hle & Hb & Ef);
    [lia|lia|lia|constructor|].
  cbn [app] in E. subst ps'. change (2 * Z.of_nat (length (A := Z * Z) [])) with 0 in Ef. rewrite Ef. cbn [mbind outcome_bind].
  apply rising_app in Hr' as [_ Hr']. apply Forall_app in Hf' as [_ Hf'].
  assert (Htb : top 0 (b ++ (l, d) :: r) = top l r) by (clear; generalize 0; induction b as [|[l' d'] b IH]; intros f; cbn; auto).
  rewrite Htb in *. eapply returns_bind.
  { eapply (relaxMatches_ok c (pf p) ds' n'); try done; try lia.
    - cbn [rising] in Hr' |- *. split; [lia|apply Hr'].
    - change (Z.of_nat (Z.to_nat kMatchMaxLen)) with 273. lia. }
  intros [e4 opts4] [He4 G4]. cbn [fst snd] in *. cbn [returns].
  split; [exact G4|]. split; [lia|]. split; [apply Hsame|done].
Qed.

(** ** The next node *)

(** What is known when the loop comes to the node [cur] at the place [q]: the finder has
    read its byte. *)
Definition loop_inv (cur lenEnd : Z) (p : parser) : Prop :=
  opt_inv data dict A0 (repDistances v) cur (reps p) lenEnd ((cur + 1) * kStep) (optimum p) /\
  at_place bad data cl (Z.of_nat A0 + cur + 1) (pf p) /\
  additionalOffset (pf p) = cur + 1 /\ longestMatchFound p = false /\ length (repLens p) = 4%nat.

Lemma relax_next cur rsc lenEnd next next' opts price f rs :
  opt_inv data dict A0 (repDistances v) cur rsc lenEnd next opts -> 0 <= price <= next' -> next' <= kInfinityPrice ->
  (forall o, o_price (f o) = price) -> (forall o, edge data dict A0 cur opts (f o) (cur + 1) rs) ->
  returns (opt_inv data dict A0 (repDistances v) cur rsc lenEnd next') (relax (cur + 1) price f opts).
Proof.
  intros H Hp Hinf Hf He. pose proof (oi_cur _ _ _ _ _ _ _ _ _ H). unfold relax.
  destruct (oi_next _ _ _ _ _ _ _ _ _ H) as (o & Ho & Hn). rewrite (node_at_ret _ _ _ Ho). cbn [mbind outcome_bind].
  pose proof (oi_len _ _ _ _ _ _ _ _ _ H). pose proof (oi_end _ _ _ _ _ _ _ _ _ H).
  destruct (Z.ltb_spec price (o_price o)); cbn [returns].
  - eapply (inv_next data dict A0 (repDistances v) _ _ _ next).
    + eapply inv_write; [exact H|lia|rewrite Hf; lia|rewrite Hf; lia|right; by exists rs].
    + apply insert_same. lia.
    + rewrite Hf. lia.
  - eapply inv_next; [exact H|exact Ho|lia].
Qed.

Lemma relaxChar_ok c z lenEnd opts curPrice curByte matchByte :
  opt_inv data dict A0 (repDistances v) (c_cur c) (c_reps c) lenEnd kInfinityPrice opts ->
  at_place bad data cl (Z.of_nat A0 + c_cur c + 1) z -> 0 <= c_position c -> 1 <= c_cur c ->
  0 <= c_state c < 12 -> 0 <= c_posState c < npos -> 0 <= curPrice <= c_cur c * kStep ->
  returns (fun '(_, _, opts) => good c lenEnd opts)
    (relaxChar T cs c curPrice curByte matchByte (bt_iw (mf z)) opts).
Proof.
  intros H Hat Hp Hcur Hs Hps Hcp. pose proof (oi_end _ _ _ _ _ _ _ _ _ H). pose proof (oi_cur _ _ _ _ _ _ _ _ _ H).
  destruct (place_avail bad data cl Hcl _ _ Hat) as (Ha & _). pose proof level_bits as (Hdict & Hfb & _).
  unfold relaxChar. eapply returns_bind; [by apply matchPrice0_ok|]. intros p Hp0. unfold bitPrice_ok in Hp0.
  rewrite (place_byte bad data cl Hcl _ _ _ Hat) by lia. cbn [mbind outcome_bind].
  eapply returns_bind; [apply litPrice_ok; [done|by apply byteAt_ok]|]. intros l Hl. cbv beta in Hl.
  unfold kMaxBitPrice, kStep in *. rewrite (wrap_id 32 (curPrice + p)), (wrap_id 32 (curPrice + p + l)), (wrap_id 32 (c_cur c + 1)) by lia.
  destruct (oi_next _ _ _ _ _ _ _ _ _ H) as (o & Ho & _). rewrite (node_at_ret _ _ _ Ho). cbn [mbind outcome_bind].
  eapply returns_bind.
  { eapply (relax_next (c_cur c) (c_reps c) lenEnd kInfinityPrice ((c_cur c + 1) * 2 ^ 15));
      [exact H|lia|unfold kInfinityPrice; lia|done|].
    intros o'. destruct (oi_reps _ _ _ _ _ _ _ _ _ H) as (oc & Hoc & Hb).
    split; [unfold shape; cbn; lia|]. unfold origin, steps; cbn -[parse_to]. split; [lia|].
    exists oc. split; [done|]. rewrite Hb. replace (c_cur c + 1 - c_cur c) with 1 by lia.
    change [(1, 4294967295)] with [lit_choice]. rewrite parse_lit by (unfold N in *; lia). do 2 f_equal. lia. }
  intros opts1 G1. cbn [returns]. exact G1.
Qed.

Lemma relaxShortRep_ok c z lenEnd opts nextIsChar d : good c lenEnd opts ->
  at_place bad data cl (Z.of_nat A0 + c_cur c + 1) z -> 1 <= c_cur c ->
  0 <= c_state c < 12 -> 0 <= c_posState c < npos ->
  hd_error (c_reps c) = Some d -> 0 <= d < dict -> d < Z.of_nat A0 + c_cur c ->
  returns (fun '(_, opts) => good c lenEnd opts)
    (relaxShortRep T cs c (byteAt data (Z.of_nat A0 + c_cur c)) (byteAt data (Z.of_nat A0 + c_cur c - d - 1)) nextIsChar opts).
Proof.
  intros G Hat Hcur Hs Hps Hd Hdd Hdq. pose proof (oi_end _ _ _ _ _ _ _ _ _ G). pose proof (oi_cur _ _ _ _ _ _ _ _ _ G).
  unfold relaxShortRep. rewrite (wrap_id 32 (c_cur c + 1)) by lia.
  destruct (oi_next _ _ _ _ _ _ _ _ _ G) as (o & Ho & Hn). rewrite (node_at_ret _ _ _ Ho). cbn [mbind outcome_bind].
  destruct (_ && _) eqn:Ec; [|exact G]. apply andb_true_iff in Ec as [Eb _]. apply Z.eqb_eq in Eb.
  eapply returns_bind; [by apply rep1Price_ok|]. intros p _.
  destruct (Z.leb_spec (u32 (c_repMatchPrice c + p)) (o_price o)); [|exact G].
  rewrite (node_upd_ret _ _ _ _ Ho). cbn [mbind outcome_bind returns].
  destruct (oi_open _ _ _ _ _ _ _ _ _ G (c_cur c + 1) ltac:(lia)) as (o' & Ho' & Hpo & _).
  rewrite Ho in Ho'. injection Ho' as <-. pose proof (wrap_range 32 (c_repMatchPrice c + p) ltac:(lia)).
  apply inv_write; [exact G|lia|cbn; lia|cbn; lia|right]. exists (c_reps c).
  destruct (oi_reps _ _ _ _ _ _ _ _ _ G) as (oc & Hoc & Hb).
  split; [unfold shape; cbn; lia|]. unfold origin, steps; cbn -[parse_to]. split; [lia|].
  exists oc. split; [done|]. rewrite Hb. replace (c_cur c + 1 - c_cur c) with 1 by lia.
  rewrite (parse_agree data dict _ _ 1 0 d); try done; try lia.
  - rewrite new_reps_0. do 2 f_equal. lia.
  - by rewrite new_reps_0.
  - intros i Hi. assert (i = 0) as -> by lia. rewrite !Z.add_0_r.
    by replace (Z.of_nat (A0 + Z.to_nat (c_cur c))) with (Z.of_nat A0 + c_cur c) by lia.
Qed.

(** The matches that a report gives at the place [q]. *)
Definition matches_ok (q newLen : Z) (z : finder) : Prop :=
  exists ps, pairs_at (matchDistances z) (distancePairs z) ps /\ rising 1 ps /\
    Forall (pair_ok q fb) ps /\ newLen = top 0 ps.

(** The byte at the node and the one at the last distance. *)
Lemma node_bytes q z rep0 : at_place bad data cl (q + 1) z -> 0 <= q -> 0 <= rep0 < dict -> rep0 < q ->
  getIndexByte (-1) (bt_iw (mf z)) = Ret (byteAt data q) /\
  getIndexByte (i32 (i32 (i32 (0 - i32 rep0) - 1) - 1)) (bt_iw (mf z)) = Ret (byteAt data (q - rep0 - 1)).
Proof.
  intros Hat Hq Hr Hrq. destruct (place_avail bad data cl Hcl _ _ Hat) as (Ha & _). pose proof level_bits as (Hdict & _).
  rewrite (swrap_id 32 rep0), (swrap_id 32 (0 - rep0)), (swrap_id 32 (0 - rep0 - 1)), (swrap_id 32 (0 - rep0 - 1 - 1)) by lia.
  rewrite !(place_byte bad data cl Hcl _ _ _ Hat) by (fold dict; lia).
  replace (q + 1 + -1) with q by lia. by replace (q + 1 + (0 - rep0 - 1 - 1)) with (q - rep0 - 1) by lia.
Qed.

(** The distances and the state of the next node, and the nodes with these set. *)
Lemma next_node cur rsc lenEnd opts : opt_inv data dict A0 (repDistances v) cur rsc lenEnd ((cur + 1) * kStep) opts ->
  cur + 1 < lenEnd ->
  exists st rs opts1 opts2 o', nodeState (cur + 1) rsc opts = Ret (st, rs) /\ 0 <= st < 12 /\
    node_upd (cur + 1) (set_o_state st) opts = Ret opts1 /\ store_backs (cur + 1) rs opts1 = Ret opts2 /\
    node_at opts2 (cur + 1) = Ret o' /\ 0 <= o_price o' <= (cur + 1) * kStep /\
    reps_in dict (A0 + Z.to_nat (cur + 1)) rs /\
    opt_inv data dict A0 (repDistances v) (cur + 1) rs lenEnd kInfinityPrice opts2.
Proof.
  intros H Hc. pose proof level_bits as (Hdict & _). pose proof (oi_cur _ _ _ _ _ _ _ _ _ H). pose proof (oi_end _ _ _ _ _ _ _ _ _ H).
  destruct (next_edge data dict A0 (repDistances v) _ _ _ _ _ H) as (o & rs & Ho & He & Hp).
  { unfold kStep, kInfinityPrice. lia. }
  destruct (edge_path data dict A0 (repDistances v) Hrs0 _ _ _ _ _ _ _ _ H Ho He) as (_ & _ & _ & Hri).
  pose proof (node_state data dict ltac:(lia) A0 opts cur o rsc rs Ho ltac:(lia) He (oi_reps _ _ _ _ _ _ _ _ _ H)) as Hns.
  destruct (returns_inv _ _ (Hns ltac:(intros k Hk;
    destruct (node_path data dict A0 (repDistances v) Hrs0 _ _ _ _ _ k H Hk) as (ok & _ & Hok & _ & _ & Hs & _); eauto)))
    as ([st rs'] & En & Hst' & ->).
  destruct (settle data dict A0 (repDistances v) _ _ _ _ _ st o rs H Hc Ho He Hp Hst' (proj1 Hri))
    as (opts1 & opts2 & o' & E1 & E2 & E3 & E4 & H2).
  exists st, rs, opts1, opts2, o'. do 4 (split; [done|]). split; [by apply node_at_ret|].
  rewrite E4. done.
Qed.

Lemma relaxNode_ok cur lenEnd position newLen p :
  opt_inv data dict A0 (repDistances v) cur (reps p) lenEnd ((cur + 1) * kStep) (optimum p) -> cur + 1 < lenEnd ->
  at_place bad data cl (Z.of_nat A0 + (cur + 1) + 1) (pf p) -> 0 <= position ->
  matches_ok (Z.of_nat A0 + (cur + 1)) newLen (pf p) ->
  returns (fun '(lenEnd', p') =>
      opt_inv data dict A0 (repDistances v) (cur + 1) (reps p') lenEnd' ((cur + 1 + 1) * kStep) (optimum p') /\
      same_but_nodes p p')
    (relaxNode T cl mask cs pr (cur + 1) lenEnd position newLen p).
Proof.
  intros H Hc Hat Hpos (ps & Hps & Hr & Hf & Hnew). pose proof level_bits as (Hdict & Hfb & _).
  pose proof (oi_cur _ _ _ _ _ _ _ _ _ H) as Hcur. pose proof (oi_end _ _ _ _ _ _ _ _ _ H) as Hend.
  destruct (next_node _ _ _ _ H Hc) as (st & rs & opts1 & opts2 & o' & E1 & Hst' & E2 & E3 & E4 & Hp & Hri & H2).
  destruct (first_rep _ _ Hri) as (rep0 & R1 & _ & R2 & Hrd & Hrq).
  destruct (node_bytes (Z.of_nat A0 + (cur + 1)) (pf p) rep0 Hat) as [B1 B2]; [lia|done|lia|].
  unfold relaxNode. rewrite E1. cbn [mbind outcome_bind]. rewrite E2. cbn [mbind outcome_bind].
  rewrite E3. cbn [mbind outcome_bind]. rewrite E4. cbn [mbind outcome_bind].
  change (p_iw (p_reps rs (repLens p) p)) with (bt_iw (mf (pf p))). rewrite B1. cbn [mbind outcome_bind].
  rewrite R1. cbn [mbind outcome_bind]. rewrite B2. cbn [mbind outcome_bind].
  pose proof (posStateOf_ok position) as Hps'. eapply returns_bind.
  { apply relaxChar_ok; cbn [c_cur c_reps c_position c_state c_posState]; try done; lia. }
  intros [[cap nic] opts3] G3. eapply returns_bind; [by apply matchPrice1_ok|]. intros p1 _.
  eapply returns_bind; [by apply repPrice1_ok|]. intros p2 _. eapply returns_bind.
  { match goal with |- returns _ (relaxShortRep _ _ ?c _ _ _ _) =>
      apply (relaxShortRep_ok c (pf p) lenEnd opts3 nic rep0) end; cbn [c_cur c_reps c_state c_posState]; try done; lia. }
  intros [nic' opts4] G4. unfold good in G4. cbn [c_cur c_reps] in G4.
  destruct (place_avail bad data cl Hcl _ _ Hat) as (Ha & HaN & _). fold N in HaN.
  change (p_iw (p_opts opts4 (p_reps rs (repLens p) p))) with (bt_iw (mf (pf p))). rewrite min_spec.
  change (u32 (kNumOpts - 1)) with 4095. rewrite (wrap_id 32 (4095 - (cur + 1))), (wrap_id 32 (_ + 1)) by lia.
  set (full := Z.min (4095 - (cur + 1)) (getNumAvailableBytes (bt_iw (mf (pf p))) + 1)).
  destruct (Z.ltb_spec full 2); [cbn [returns]; done|]. fold fb.
  assert (Hav : (if fb <? full then fb else full) = Z.min fb full) by (zcases; lia). rewrite Hav.
  eapply returns_weaken.
  { apply (relaxLonger_ok _ _ newLen _ _ _ _ _ ps); cbn [c_cur pf p_opts p_reps optimum]; try done.
    constructor; cbn [c_cur c_position c_state c_posState c_reps c_full c_avail pf p_opts p_reps]; try done; lia. }
  intros [lenEnd' p'] (G5 & _ & Hsame & Hrp). unfold good in G5. cbn [c_cur c_reps] in G5.
  split; [|done]. rewrite Hrp. exact G5.
Qed.
(** ** The main loop *)

Lemma report_matches q newLen z : report_at data cl q newLen z -> newLen < fb -> matches_ok q newLen z.
Proof.
  intros (ps & Hp & Hr & Hf & Hl) Hn. exists ps. split; [done|]. split; [done|]. split.
  - eapply Forall_impl; [exact Hf|]. intros p (H1 & H2 & H3 & H4). split; [fold fb in H1; lia|]. done.
  - destruct ps as [|[l d] ps _] using rev_ind; [done|]. rewrite last_snoc in Hl. rewrite top_snoc.
    fold fb in Hl. destruct Hl as (H1 & H2 & _). rewrite H2; lia.
Qed.

(** Reading a report at the place of the finder. *)
Lemma read_report A z : at_place bad data cl A z -> A < N ->
  yields bad (fun '(lenRes, z') => at_place bad data cl (A + 1) z' /\
      additionalOffset z' = u32 (additionalOffset z + 1) /\ report_at data cl A lenRes z')
    (readMatchDistances cl z).
Proof.
  intros Hat HA. eapply yields_weaken; [by apply (readMatchDistances_spec bad data Hdata cl Hcl)|].
  intros [lenRes z'] (H1 & H2 & ps & H3 & H4 & H5). split; [done|]. split; [done|].
  exists ps. split; [|done]. split; [done|]. split; [done|]. apply H1.
Qed.

(** Leaving the loop at a node with a link. *)
Lemma leave cur p choices rs found : length (optimum p) = 4096%nat -> 0 < cur <= 4095 ->
  Z.of_nat A0 + cur <= N ->
  length (reps p) = 4%nat /\ length (repLens p) = 4%nat ->
  path (optimum p) cur choices -> longestMatchFound p = found ->
  parse_to data dict A0 (repDistances v) choices = Some ((A0 + Z.to_nat cur)%nat, rs) ->
  additionalOffset (pf p) = cur + found_one p ->
  at_place bad data cl (Z.of_nat A0 + cur + found_one p) (pf p) ->
  (found = true -> Z.of_nat A0 + cur < N /\ fb <= longestMatchLen p /\
     report_at data cl (Z.of_nat A0 + cur) (longestMatchLen p) (pf p)) ->
  yields bad (fun '(res, p') => chosen bad data cl A0 (repDistances v) res p') (backward cur p).
Proof.
  intros Hl Hc HN Hlens Hp Hfd Ht Ha Hat Hfound.
  destruct (backward_spec cur p choices ltac:(lia) ltac:(lia) Hp)
    as (res & p' & cs' & -> & Ec & Hr & Ee & Ei & El & Hf & Epf & Elm & Efd & Er & Erl).
  cbn [yields]. subst choices. change ((res, backRes p') :: cs') with ([(res, backRes p')] ++ cs') in Ht.
  rewrite parse_to_app in Ht.
  destruct (parse_to data dict A0 _ [_]) as [[pos1 rs1]|] eqn:E1; [|done]. cbn [mbind option_bind] in Ht.
  pose proof (parse_one_len _ _ _ _ _ _ _ _ E1) as ->.
  split; [lia|]. exists rs1. split; [done|].
  assert (Eo : found_one p' = found_one p) by (unfold found_one; by rewrite Efd).
  assert (Hfo1 : found_one p <= 1) by (unfold found_one; destruct (longestMatchFound p); lia).
  constructor; rewrite ?El, ?Ei, ?Ee, ?Er, ?Erl, ?Eo, ?Epf; try done; try lia.
  exists cs', (A0 + Z.to_nat cur)%nat, rs. split; [done|]. split; [done|]. split; [lia|].
  replace (Z.of_nat (A0 + Z.to_nat cur)) with (Z.of_nat A0 + cur) by lia. split; [done|].
  rewrite Efd, Hfd, Elm. intros Hft. specialize (Hfound Hft). fold fb. unfold N in Hfound. split; [lia|]. apply Hfound.
Qed.

Lemma loop_room cur lenEnd p : loop_inv cur lenEnd p ->
  length (optimum p) = 4096%nat /\ 0 <= cur < lenEnd /\ lenEnd <= 4095 /\ Z.of_nat A0 + lenEnd <= N /\
  length (reps p) = 4%nat /\ length (repLens p) = 4%nat.
Proof.
  intros (H & _ & _ & _ & Hl). destruct (oi_end _ _ _ _ _ _ _ _ _ H).
  split; [apply (oi_len _ _ _ _ _ _ _ _ _ H)|]. split; [apply (oi_cur _ _ _ _ _ _ _ _ _ H)|].
  split; [done|]. split; [done|]. split; [|done].
  destruct (oi_reps _ _ _ _ _ _ _ _ _ H) as (o & _ & <-). done.
Qed.

(** The chain of links to the next node. *)
Lemma next_path cur lenEnd p : loop_inv cur lenEnd p -> exists choices rs,
  path (optimum p) (cur + 1) choices /\
  parse_to data dict A0 (repDistances v) choices = Some ((A0 + Z.to_nat (cur + 1))%nat, rs).
Proof.
  intros L. pose proof (loop_room _ _ _ L) as (_ & Hc & He & _). destruct L as (H & _).
  destruct (next_edge data dict A0 (repDistances v) _ _ _ _ _ H) as (o & rs & Ho & He' & _).
  { unfold kStep, kInfinityPrice. lia. }
  destruct (edge_path data dict A0 (repDistances v) Hrs0 _ _ _ _ _ _ _ _ H Ho He') as (cs' & H1 & H2 & _).
  by exists cs', rs.
Qed.

Lemma optimum_loop_ok fuel : forall cur lenEnd position p, loop_inv cur lenEnd p -> 0 <= position ->
  4095 - cur < Z.of_nat fuel ->
  yields bad (fun '(res, p') => chosen bad data cl A0 (repDistances v) res p')
    (optimum_loop T cl mask cs pr fuel cur lenEnd position p).
Proof.
  induction fuel as [|fuel IH]; intros cur lenEnd position p L Hpos Hfuel;
    pose proof (loop_room _ _ _ L) as (Hol & Hc & He & HN & Hlens); [lia|].
  destruct (next_path _ _ _ L) as (choices & rs & Hpa & Hpt). destruct L as (H & Hat & Ha & Hfd & Hls).
  cbn [optimum_loop]. rewrite (wrap_id 32 (cur + 1)) by lia. destruct (Z.eqb_spec (cur + 1) lenEnd).
  { eapply (leave (cur + 1) p choices rs false); try done; try lia; unfold found_one; rewrite Hfd; [lia|].
    by replace (Z.of_nat A0 + (cur + 1) + 0) with (Z.of_nat A0 + cur + 1) by lia. }
  eapply yields_bind; [by apply read_report; [exact Hat|lia]|]. intros [newLen f] (Hat' & Ha' & Hrep).
  replace (Z.of_nat A0 + cur + 1) with (Z.of_nat A0 + (cur + 1)) in * by lia.
  rewrite Ha, (wrap_id 32 (cur + 1 + 1)) in Ha' by lia. fold fb. destruct (Z.leb_spec fb newLen).
  - eapply (leave (cur + 1) _ choices rs true); cbn [p_longest p_finder optimum reps repLens longestMatchFound longestMatchLen pf]; try done; try lia.
    intros _. split; [lia|done].
  - eapply yields_bind.
    { apply returns_yields, (relaxNode_ok cur lenEnd (u32 (position + 1)) newLen (p_finder f p)); try done; try lia.
      - apply wrap_range. lia.
      - by apply report_matches. }
    intros [lenEnd' p'] (H' & Hm & Ea & Em & Ef & El). cbn [pf p_finder longestMatchFound repLens] in *.
    apply IH; [|apply wrap_range; lia|lia].
    split; [done|]. split; [|split; [lia|split; congruence]].
    split; [|rewrite Hm; apply Hat']. rewrite Em. apply Hat'.
Qed.

(** ** The first byte *)

(** The lengths of the matches at the last distances. *)
Definition rep_lens_ok (rs ls : list Z) : Prop :=
  length ls = 4%nat /\ forall i l d, ls !! i = Some l -> rs !! i = Some d ->
    0 <= l <= 273 /\ Z.of_nat A0 + l <= N /\ agree data l (Z.of_nat A0 - d - 1) (Z.of_nat A0).

Lemma mainMatch_ok p : kept bad data cl A0 (repDistances v) 0 p -> optimumEndIndex p = optimumCurrentIndex p ->
  yields bad (fun '(lenMain, p') => exists f, p' = p_finder f (p_longest (longestMatchLen p) false (p_indices 0 0 p)) /\
      at_place bad data cl (Z.of_nat A0 + 1) f /\ additionalOffset f = 1 /\
      report_at data cl (Z.of_nat A0) lenMain f) (mainMatch cl (p_indices 0 0 p)).
Proof.
  intros [_ _ _ _ (choices & pos' & rs' & Hf & Hp & Ha & Hat & Hfd)] Ei.
  rewrite Ei in Hf. assert (choices = []) as ->.
  { inversion Hf as [|i o cs0 Ho Hi Hf']; [done|]. pose proof (fwd_le _ _ _ _ Hf'). lia. }
  cbn [parse_to] in Hp. injection Hp as <- <-. unfold mainMatch. cbn [longestMatchFound p_indices].
  unfold found_one in *. destruct (longestMatchFound p) eqn:Efd; cbn [negb].
  - destruct (Hfd eq_refl) as (_ & _ & Hrep). cbn [yields]. exists (pf p). split; [by destruct p|].
    split; [done|]. split; [lia|done].
  - rewrite Z.add_0_r in Hat. eapply yields_bind; [apply (read_report _ (pf p) Hat); unfold N; lia|].
    intros [lenMain f] (Hat' & Ha' & Hrep). cbn [yields]. exists f. split; [destruct p; cbn in *; by subst|]. split; [done|]. 
    split; [|done]. rewrite Ha', wrap_id by lia. lia.
Qed.

(** One turn of measureReps. *)
Lemma measure_one i p d : 0 <= i < 4 -> repDistances v !! Z.to_nat i = Some d ->
  at_place bad data cl (Z.of_nat A0 + 1) (pf p) ->
  exists l, getMatchLen (-1) d kMatchMaxLen (p_iw p) = Ret (E := lzma_error) l /\ 0 <= l <= 273 /\ Z.of_nat A0 + l <= N /\
    agree data l (Z.of_nat A0 - d - 1) (Z.of_nat A0).
Proof.
  intros Hi Hd Hat. pose proof level_bits as (Hdict & Hfb & _).
  destruct (place_avail bad data cl Hcl _ _ Hat) as (Ha & HaN & _). fold N in HaN.
  pose proof (Forall_lookup_1 _ _ _ _ (proj2 Hrs0) Hd) as Hdb. cbv beta in Hdb. change kMatchMaxLen with 273.
  unfold p_iw. rewrite (place_len bad data cl Hcl _ _ _ _ _ Hat); try done; try (fold dict fb; lia).
  replace (Z.of_nat A0 + 1 + -1) with (Z.of_nat A0) by lia. fold N. eexists. split; [done|].
  destruct (common_spec data (Z.to_nat (Z.min 273 (N - Z.of_nat A0))) (Z.of_nat A0) (Z.of_nat A0 - d - 1)) as (C1 & C2 & _).
  unfold N in *. split; [lia|]. split; [lia|]. by apply agree_sym.
Qed.

Definition measured (i m : Z) (p : parser) : Prop :=
  0 <= m < 4 /\ (m < i \/ m = 0) /\ length (reps p) = 4%nat /\ length (repLens p) = 4%nat /\
  (exists lm, repLens p !! Z.to_nat m = Some lm /\ forall j l, Z.of_nat j < i -> repLens p !! j = Some l -> l <= lm) /\
  forall j, Z.of_nat j < i -> reps p !! j = repDistances v !! j /\
    forall l d, repLens p !! j = Some l -> repDistances v !! j = Some d ->
      0 <= l <= 273 /\ Z.of_nat A0 + l <= N /\ agree data l (Z.of_nat A0 - d - 1) (Z.of_nat A0).

Lemma measured_next i m p l d : 0 <= i < 4 -> measured i m p -> repDistances v !! Z.to_nat i = Some d ->
  0 <= l <= 273 -> Z.of_nat A0 + l <= N -> agree data l (Z.of_nat A0 - d - 1) (Z.of_nat A0) ->
  exists lm, <[Z.to_nat i := l]> (repLens p) !! Z.to_nat m = Some lm /\
    measured (i + 1) (if lm <? l then i else m) (p_reps (<[Z.to_nat i := d]> (reps p)) (<[Z.to_nat i := l]> (repLens p)) p).
Proof.
  intros Hi (Hm & Hmi & Hr & Hls & (lm & Elm & Hmax) & Hj) Hd Hl Hn Hag.
  destruct (lookup_lt_is_Some_2 (<[Z.to_nat i := l]> (repLens p)) (Z.to_nat m)) as [lm' E]; [rewrite length_insert; lia|].
  exists lm'. split; [done|]. assert (Ei : <[Z.to_nat i := l]> (repLens p) !! Z.to_nat i = Some l)
    by (apply list_lookup_insert_eq; lia).
  assert (Hlm : m <> i -> lm' = lm) by (intros; rewrite list_lookup_insert_ne in E by lia; congruence).
  unfold measured. cbn [reps repLens p_reps]. rewrite !length_insert.
  split; [destruct (lm' <? l); lia|]. split; [destruct (lm' <? l); lia|]. split; [done|]. split; [done|]. split.
  - destruct (Z.ltb_spec lm' l).
    + exists l. split; [done|]. intros j lj Hji Ej. destruct (decide (j = Z.to_nat i)) as [->|Hne]; [rewrite Ei in Ej; injection Ej as <-; lia|].
      rewrite list_lookup_insert_ne in Ej by lia. specialize (Hmax j lj ltac:(lia) Ej).
      destruct (decide (m = i)) as [->|Hmi']; [rewrite Ei in E; injection E as <-; lia|]. rewrite Hlm in * by done. lia.
    + exists lm'. split; [done|]. intros j lj Hji Ej. destruct (decide (j = Z.to_nat i)) as [->|Hne]; [rewrite Ei in Ej; injection Ej as <-; lia|].
      rewrite list_lookup_insert_ne in Ej by lia. specialize (Hmax j lj ltac:(lia) Ej).
      destruct (decide (m = i)) as [->|Hmi']; [lia|]. rewrite Hlm by done. lia.
  - intros j Hji. destruct (decide (j = Z.to_nat i)) as [->|Hne].
    + rewrite Ei, list_lookup_insert_eq by lia. split; [done|]. intros ? ? [= <-] Hd'. rewrite Hd in Hd'.
      injection Hd' as <-. done.
    + rewrite !list_lookup_insert_ne by lia. apply Hj. lia.
Qed.

Lemma measureReps_ok p : length (reps p) = 4%nat -> length (repLens p) = 4%nat ->
  at_place bad data cl (Z.of_nat A0 + 1) (pf p) ->
  returns (fun '(m, p') => 0 <= m < 4 /\ p' = p_reps (repDistances v) (repLens p') p /\
      rep_lens_ok (repDistances v) (repLens p') /\
      exists lm, index (repLens p') m = Ret lm /\ repLens p' !! Z.to_nat m = Some lm /\
        forall j l, repLens p' !! j = Some l -> l <= lm) (measureReps v p).
Proof.
  intros Hr Hls Hat. unfold measureReps. destruct Hrs0 as [Hrl _]. eapply returns_weaken.
  { apply (for_range_inv (fun i '(m, p') => measured i m p' /\ p' = p_reps (reps p') (repLens p') p)).
    - split; [|by destruct p]. split; [lia|]. split; [lia|]. split; [done|]. split; [done|]. split.
      + destruct (repLens p) as [|l0 ls]; [done|]. exists l0. split; [done|]. lia.
      + lia.
    - change (Z.to_nat kNumRepDistances) with 4%nat. intros i [m p1] Hi (Hm & Hp1).
      destruct (lookup_lt_is_Some_2 (repDistances v) (Z.to_nat i)) as [d Hd]; [lia|].
      rewrite (index_ret _ _ _ Hd). cbn [mbind outcome_bind]. pose proof Hm as (_ & _ & Hr1 & Hl1 & _).
      rewrite store_ret by lia. cbn [mbind outcome_bind].
      destruct (measure_one i p1 d) as (l & El & Hl & Hn & Hag); [lia|done|by rewrite Hp1|].
      rewrite El. cbn [mbind outcome_bind]. rewrite store_ret by lia. cbn [mbind outcome_bind].
      destruct (measured_next i m p1 l d) as (lm & E & Hm'); try done.
      rewrite (index_ret _ _ _ E). cbn [mbind outcome_bind returns]. split; [done|].
      rewrite Hp1 at 3. done. }
  intros [m p'] [(Hm & _ & Hr' & Hl' & (lm & Elm & Hmax) & Hj) Hp']. change (0 + Z.of_nat (Z.to_nat kNumRepDistances)) with 4 in *.
  assert (Er : reps p' = repDistances v).
  { apply list_eq. intros j. destruct (decide (Z.of_nat j < 4)); [by apply Hj|].
    rewrite !lookup_ge_None_2; [done|lia|lia]. }
  rewrite Er in Hp'. split; [done|]. split; [done|]. split.
  - split; [done|]. intros i l d El Ed. apply lookup_lt_Some in El as Hlt. apply (Hj i); [lia|done|done].
  - exists lm. split; [by apply index_ret|]. split; [done|]. intros j l El. apply lookup_lt_Some in El as Hlt.
    apply (Hmax j l); [lia|done].
Qed.

(** The first two nodes once optimum[1] has its price. *)
Definition first_nodes (opts : list optimal) : Prop :=
  length opts = 4096%nat /\
  (exists o, opts !! 0%nat = Some o /\ o_state o = e_state v) /\
  exists o, opts !! 1%nat = Some o /\ 0 <= o_price o <= kStep /\ prev1IsChar o = false /\
    parse_to data dict A0 (repDistances v) [(1, backPrev o)] = Some (S A0, repDistances v).

Lemma first_write (opts : list optimal) o : first_nodes opts -> 0 <= o_price o <= kStep -> prev1IsChar o = false ->
  parse_to data dict A0 (repDistances v) [(1, backPrev o)] = Some (S A0, repDistances v) ->
  first_nodes (<[1%nat := o]> opts).
Proof.
  intros (Hl & (o0 & H0 & Hs) & _) Hp Hc Ht. split; [by rewrite length_insert|]. split.
  - exists o0. split; [|done]. by rewrite list_lookup_insert_ne.
  - exists o. split; [apply list_lookup_insert_eq; lia|]. done.
Qed.

Lemma firstPrices_ok position rep0 opts : length opts = 4096%nat -> 0 <= position ->
  hd_error (repDistances v) = Some rep0 -> 0 <= rep0 < dict -> rep0 < Z.of_nat A0 ->
  returns (fun '(_, _, opts) => first_nodes opts)
    (firstPrices T mask cs v position (byteAt data (Z.of_nat A0)) (byteAt data (Z.of_nat A0 - rep0 - 1)) opts).
Proof.
  intros Hl Hpos Hd Hdd Hdq. unfold firstPrices. pose proof (posStateOf_ok position) as Hps.
  destruct (node_some opts 0) as [o0 H0]; [lia|]. rewrite (node_upd_ret _ _ _ _ H0). cbn [mbind outcome_bind].
  eapply returns_bind; [by apply matchPrice0_ok|]. intros p Hp. unfold bitPrice_ok in Hp.
  eapply returns_bind; [by apply litPrice_ok|]. intros l Hlp. cbv beta in Hlp.
  set (opts0 := <[Z.to_nat 0 := set_o_state (e_state v) o0]> opts).
  assert (Hl0 : length opts0 = 4096%nat) by (unfold opts0; by rewrite length_insert).
  destruct (node_some opts0 1) as [o1 H1]; [lia|]. rewrite (node_upd_ret _ _ _ _ H1). cbn [mbind outcome_bind].
  set (opts1 := <[Z.to_nat 1 := _]> opts0). unfold kMaxBitPrice in *.
  assert (F : first_nodes opts1).
  { split; [unfold opts1; by rewrite length_insert|]. split.
    - exists (set_o_state (e_state v) o0). split; [|done]. unfold opts1, opts0.
      rewrite list_lookup_insert_ne by (cbn; lia). apply list_lookup_insert_eq. lia.
    - eexists. split; [apply list_lookup_insert_eq; cbn; lia|]. unfold kStep.
      cbn [o_price makeAsChar set_price prev1IsChar backPrev].
      rewrite wrap_id by lia. split; [lia|]. split; [done|]. apply (parse_lit data dict). lia. }
  eapply returns_bind; [by apply matchPrice1_ok|]. intros p1 _.
  eapply returns_bind; [by apply repPrice1_ok|]. intros p2 _.
  eapply returns_bind; [|intros opts2 H2; cbn [returns]; exact H2]. destruct (Z.eqb_spec (byteAt data (Z.of_nat A0 - rep0 - 1)) (byteAt data (Z.of_nat A0))) as [Eb|].
  2: { exact F. }
  eapply returns_bind; [by apply rep1Price_ok|]. intros p3 _. unfold relax.
  destruct F as (Hl1 & Hz & o & Ho & Hpo & Hc & Ht). rewrite (node_at_ret opts1 1 _ Ho). cbn [mbind outcome_bind].
  destruct (Z.ltb_spec (u32 (u32 (p1 + p2) + p3)) (o_price o)); cbn [returns]; [|by do 2 (split; [done|]); exists o].
  apply first_write; [by do 2 (split; [done|]); exists o| |done|]; cbn [o_price makeAsShortRep set_price backPrev].
  - pose proof (wrap_range 32 (u32 (p1 + p2) + p3) ltac:(lia)). lia.
  - rewrite (parse_agree data dict _ _ 1 0 rep0); try done; try lia.
    + rewrite new_reps_0. do 2 f_equal. lia.
    + by rewrite new_reps_0.
    + intros i Hi. assert (i = 0) as -> by lia. by rewrite !Z.add_0_r.
Qed.

(** Opening the nodes up to [lenEnd]. *)
Lemma first_open lenEnd opts : first_nodes opts -> 2 <= lenEnd <= 273 -> Z.of_nat A0 + lenEnd <= N ->
  returns (opt_inv data dict A0 (repDistances v) 0 (repDistances v) lenEnd ((0 + 1) * kStep))
    (opts ← node_upd 1 (set_posPrev 0) opts; opts ← store_backs 0 (repDistances v) opts;
     for_down (Z.to_nat (lenEnd - 1)) lenEnd (fun i opts => node_upd i (set_price kInfinityPrice) opts) opts).
Proof.
  intros (Hl & (o0 & H0 & Hs) & (o1 & H1 & Hp1 & Hc1 & Ht)) HL HN. destruct Hrs0 as [Hrl _].
  rewrite (node_upd_ret _ _ _ _ (H1 : opts !! Z.to_nat 1 = _)). cbn [mbind outcome_bind].
  set (opts1 := <[Z.to_nat 1 := _]> opts).
  assert (H0' : opts1 !! Z.to_nat 0 = Some o0) by (unfold opts1; rewrite list_lookup_insert_ne by (cbn; lia); done).
  set (ob := match repDistances v with [r0; r1; r2; r3] => set_backs r0 r1 r2 r3 o0 | _ => o0 end).
  assert (Hob : o_state ob = e_state v /\ backs ob = repDistances v /\
                store_backs 0 (repDistances v) opts1 = Ret (<[Z.to_nat 0 := ob]> opts1)).
  { unfold ob, store_backs. destruct (repDistances v) as [|r0 [|r1 [|r2 [|r3 [|]]]]]; try done.
    split; [done|]. split; [done|]. by rewrite (node_upd_ret _ _ _ _ H0'). }
  destruct Hob as (Hbs & Hbb & ->). cbn [mbind outcome_bind]. set (opts2 := <[Z.to_nat 0 := ob]> opts1).
  assert (Hl2 : length opts2 = 4096%nat) by (unfold opts2, opts1; by rewrite !length_insert).
  eapply returns_weaken.
  { apply (for_down_inv (fun i s => length s = 4096%nat /\ s !! 0%nat = Some ob /\ s !! 1%nat = Some (set_posPrev 0 o1) /\
             forall k, i < k <= lenEnd -> exists o, s !! Z.to_nat k = Some o /\ o_price o = kInfinityPrice)).
    - split; [done|]. split; [apply list_lookup_insert_eq; unfold opts1; rewrite length_insert; cbn; lia|]. split.
      + unfold opts2. rewrite list_lookup_insert_ne by (cbn; lia). apply list_lookup_insert_eq. cbn. lia.
      + lia.
    - intros j s Hj (S1 & S2 & S3 & S4). destruct (node_some s j) as [o Ho]; [lia|].
      rewrite (node_upd_ret _ _ _ _ Ho). cbn [returns]. rewrite length_insert.
      split; [done|]. rewrite !list_lookup_insert_ne by lia. split; [done|]. split; [done|].
      intros k Hk. destruct (decide (k = j)) as [->|Hne].
      + eexists. split; [apply list_lookup_insert_eq; lia|]. done.
      + rewrite list_lookup_insert_ne by lia. apply S4. lia. }
  intros s (S1 & S2 & S3 & S4). replace (lenEnd - Z.of_nat (Z.to_nat (lenEnd - 1))) with 1 in S4 by lia.
  constructor; try done; try lia.
  - exists ob. rewrite Hbs. done.
  - intros k Hk. destruct (decide (k = 1)) as [->|Hne].
    + exists (set_posPrev 0 o1). split; [done|]. cbn [o_price set_posPrev]. unfold kStep, kInfinityPrice in *. split; [lia|].
      right. exists (repDistances v). unfold edge, shape, origin, steps. cbn [set_posPrev prev1IsChar posPrev backPrev]. rewrite Hc1.
      split; [lia|]. split; [lia|]. exists ob. split; [done|]. rewrite Hbb. change (1 - 0) with 1.
      replace (A0 + Z.to_nat 0)%nat with A0 by lia. rewrite Ht. do 2 f_equal. lia.
    + destruct (S4 k ltac:(lia)) as (o & Ho & Hp). exists o. split; [done|]. rewrite Hp. unfold kInfinityPrice. split; [lia|by left].
  - by exists ob.
  - exists (set_posPrev 0 o1). split; [done|]. cbn [o_price set_posPrev]. lia.
Qed.

Definition first_inv (lenEnd : Z) (opts : list optimal) : Prop :=
  opt_inv data dict A0 (repDistances v) 0 (repDistances v) lenEnd ((0 + 1) * kStep) opts.

(** A packet from the first byte. *)
Lemma first_packet lenEnd opts len back d price : first_inv lenEnd opts -> 2 <= len <= lenEnd -> lenEnd <= 273 ->
  0 <= price -> hd_error (new_reps back (repDistances v)) = Some d -> 0 <= back -> back <> 0xFFFFFFFF ->
  0 <= d < dict -> d < Z.of_nat A0 -> agree data len (Z.of_nat A0 - d - 1) (Z.of_nat A0) ->
  returns (first_inv lenEnd) (relax len price (set_packet price 0 back) opts).
Proof.
  intros G Hlen Hmax Hp Hhd Hb Hb' Hd Hdq Hag. destruct (oi_end _ _ _ _ _ _ _ _ _ G) as [_ HaN].
  eapply (relax_inv data dict A0 (repDistances v) _ _ _ _ _ _ _ _ (new_reps back (repDistances v)));
    [exact G|lia|lia|done|].
  intros o. replace len with (0 + len) at 1 by lia.
  apply packet_edge; [apply (oi_reps _ _ _ _ _ _ _ _ _ G)|lia|lia|].
  change (Z.to_nat 0) with 0%nat. rewrite Nat.add_0_r.
  apply (parse_agree data dict _ _ _ _ d); try done; try lia.
  destruct (back =? 0); change kMatchMaxLen with 273; lia.
Qed.

Lemma firstReps_ok ps repMatchPrice lens lenEnd opts : 0 <= ps < npos -> rep_lens_ok (repDistances v) lens ->
  (forall (j : nat) l, lens !! j = Some l -> l <= lenEnd) -> lenEnd <= 273 -> first_inv lenEnd opts ->
  returns (first_inv lenEnd) (firstReps T cs pr v ps repMatchPrice lens opts).
Proof.
  intros Hps [Hl Hlens] Hmax He G. pose proof level_bits as (_ & _ & _ & _ & Hnp). destruct Hrs0 as [Hrl Hrf].
  unfold firstReps. apply for_range_ok; [done|]. change (Z.to_nat kNumRepDistances) with 4%nat.
  intros i opts1 Hi G1. destruct (lookup_lt_is_Some_2 lens (Z.to_nat i)) as [l El]; [lia|].
  destruct (lookup_lt_is_Some_2 (repDistances v) (Z.to_nat i)) as [d Ed]; [lia|].
  rewrite (index_ret _ _ _ El). cbn [mbind outcome_bind]. destruct (Z.ltb_spec l 2); [exact G1|].
  destruct (Hlens _ _ _ El Ed) as (H1 & H2 & Hag). specialize (Hmax _ _ El).
  pose proof (Forall_lookup_1 _ _ _ _ Hrf Ed) as Hdb. cbv beta in Hdb.
  eapply returns_bind; [eapply (getPureRepPrice_ok T HT npos); [lia|exact Hcs|lia|done|done]|]. intros p _.
  apply for_down_ok; [exact G1|]. intros j opts2 Hj G2. rewrite (wrap_id 32 (j - 2)) by lia.
  eapply returns_bind; [apply lenTable_getPrice_ok; [apply (po_repLen _ Hpr)|lia|lia]|]. intros p2 _.
  apply (first_packet lenEnd opts2 j i d); try done; try lia; [apply wrap_range; lia|by apply hd_rep|].
  eapply agree_less; [|exact Hag]. lia.
Qed.

Lemma firstMatches_ok ds n nmp posState : 0 <= posState < npos -> forall fuel before l d rest len lenEnd opts,
  first_inv lenEnd opts -> pairs_at ds n (before ++ (l, d) :: rest) ->
  rising (len - 1) ((l, d) :: rest) -> 2 <= len ->
  Forall (pair_ok (Z.of_nat A0) fb) ((l, d) :: rest) ->
  top l rest <= lenEnd -> lenEnd <= 273 -> top l rest - len < Z.of_nat fuel ->
  returns (first_inv lenEnd) (firstMatches T pr fuel posState nmp len (2 * Z.of_nat (length before)) n ds opts).
Proof.
  intros Hps. induction fuel as [|fuel IH]; intros before l d rest len lenEnd opts G Hp Hr H2 Hf Hend Hmax Hfuel;
    cbn [rising] in Hr; destruct Hr as [Hr1 Hr2]; pose proof (rising_length _ _ Hr2) as Htop; [lia|].
  destruct (pairs_lookup _ _ _ _ _ _ Hp) as (E0 & E1 & Hlt). cbn [firstMatches].
  apply Forall_cons_1 in Hf as [Hld Hf]. pose proof Hld as (Hl & Hd & Hdq & Hag). cbn [fst snd] in *.
  pose proof level_bits as (Hdict & Hfb & _). rewrite E1. cbn [mbind outcome_bind].
  eapply returns_bind; [apply newPrice_ok; [done|lia|done]|]. intros p _.
  change kNumRepDistances with 4. rewrite (wrap_id 32 (d + 4)) by lia. eapply returns_bind.
  { apply (first_packet lenEnd opts len (d + 4) d); try done; try lia; [apply wrap_range; lia|apply hd_new; [lia|apply Hrs0]|].
    eapply agree_less; [|exact Hag]. lia. }
  intros opts1 G1. rewrite E0. cbn [mbind outcome_bind]. rewrite (wrap_id 32 (len + 1)) by lia.
  destruct (Z.eqb_spec len l) as [->|Hne].
  - rewrite (wrap_id 32 (2 * Z.of_nat (length before) + 2)) by lia.
    destruct Hp as (Hn & Ht & Hdl). rewrite length_app in Hn. cbn [length] in Hn.
    destruct (Z.eqb_spec (2 * Z.of_nat (length before) + 2) n); [exact G1|].
    destruct rest as [|[l2 d2] rest]; [cbn [length] in *; lia|]. cbn [rising top] in *.
    pose proof (rising_length _ _ (proj2 Hr2)).
    specialize (IH (before ++ [(l, d)]) l2 d2 rest (l + 1) lenEnd opts1 G1). rewrite <- app_assoc in IH.
    rewrite length_app in IH. cbn [length app] in IH.
    replace (2 * Z.of_nat (length before + 1)) with (2 * Z.of_nat (length before) + 2) in IH by lia.
    apply IH; try done; try lia.
    + split; [rewrite length_app; cbn [length] in *; lia|done].
    + cbn [rising]. split; [lia|apply Hr2].
  - eapply IH; try done; try lia.
    + cbn [rising]. split; [lia|done].
    + by constructor.
Qed.

Lemma top_app f ps qs : top f (ps ++ qs) = top (top f ps) qs.
Proof. revert f. induction ps as [|[l d] ps IH]; intros f; cbn; auto. Qed.

(** The new matches that are longer than the first repeat. *)
Lemma firstLonger_ok ps nmp len lenMain lenEnd z opts : 0 <= ps < npos -> 2 <= len <= lenMain -> lenMain <= lenEnd <= 273 ->
  matches_ok (Z.of_nat A0) lenMain z -> first_inv lenEnd opts ->
  returns (first_inv lenEnd)
    (offs ← find_offs (length (matchDistances z)) len 0 (matchDistances z);
     firstMatches T pr (Z.to_nat kMatchMaxLen) ps nmp len offs (distancePairs z) (matchDistances z) opts).
Proof.
  intros Hps Hlen Hle (qs & Hp & Hr & Hf & ->) G. pose proof Hp as (_ & Ht & Hl).
  pose proof (f_equal length Ht) as Hlen'. rewrite length_flat, length_take in Hlen'.
  destruct (find_offs_spec _ _ len qs [] (length (matchDistances z)) Hp) as (b & l & d & r & E & Hle' & Hb & Ef);
    [lia|lia|lia|constructor|].
  cbn [app] in E. subst qs. change (2 * Z.of_nat (length (A := Z * Z) [])) with 0 in Ef. rewrite Ef. cbn [mbind outcome_bind].
  apply rising_app in Hr as [_ Hr]. apply Forall_app in Hf as [_ Hf]. rewrite top_app in *. cbn [top] in *.
  eapply firstMatches_ok; try done; try lia.
  - cbn [rising] in Hr |- *. split; [lia|apply Hr].
  - change (Z.of_nat (Z.to_nat kMatchMaxLen)) with 273. lia.
Qed.

(** A result with nothing kept behind it. *)
Lemma chosen_now res p : length (optimum p) = 4096%nat -> length (reps p) = 4%nat -> length (repLens p) = 4%nat ->
  optimumEndIndex p = 0 -> optimumCurrentIndex p = 0 -> longestMatchFound p = false -> 1 <= res <= 4096 ->
  at_place bad data cl (Z.of_nat A0 + res) (pf p) -> additionalOffset (pf p) = res ->
  (exists rs, parse_to data dict A0 (repDistances v) [(res, backRes p)] = Some ((A0 + Z.to_nat res)%nat, rs)) ->
  chosen bad data cl A0 (repDistances v) res p.
Proof.
  intros Ho Hr Hl He Hc Hf Hres Hat Ha (rs & Hp). split; [lia|]. exists rs. split; [done|].
  assert (found_one p = 0) as Hfo by (unfold found_one; by rewrite Hf).
  constructor; rewrite ?He, ?Hc, ?Hfo; try done; [lia|].
  exists [], (A0 + Z.to_nat res)%nat, rs. split; [constructor|]. split; [done|]. split; [lia|].
  split; [|by rewrite Hf].
  by replace (Z.of_nat (A0 + Z.to_nat res) + 0) with (Z.of_nat A0 + res) by lia.
Qed.

(** What is known of the parser once the first byte's matches are measured. *)
Record first_ok (lenMain repMax : Z) (p : parser) : Prop := {
  fo_opts : length (optimum p) = 4096%nat;
  fo_reps : reps p = repDistances v;
  fo_lens : rep_lens_ok (repDistances v) (repLens p);
  fo_max : forall (j : nat) l, repLens p !! j = Some l -> l <= repMax;
  fo_repMax : 0 <= repMax <= 273 /\ Z.of_nat A0 + repMax <= N;
  fo_index : optimumEndIndex p = 0 /\ optimumCurrentIndex p = 0;
  fo_found : longestMatchFound p = false;
  fo_place : at_place bad data cl (Z.of_nat A0 + 1) (pf p);
  fo_add : additionalOffset (pf p) = 1;
  fo_report : report_at data cl (Z.of_nat A0) lenMain (pf p)
}.

Lemma report_len q lenRes z : report_at data cl q lenRes z -> 0 <= q < N -> 0 <= lenRes <= 273 /\ q + lenRes <= N.
Proof.
  intros (ps & _ & _ & Hf & Hl) Hq. pose proof level_bits as (_ & Hfb & _). fold fb N in Hl, Hf.
  destruct ps as [|[l d] ps _] using rev_ind; [cbn in Hl; lia|]. rewrite last_snoc in Hl.
  apply Forall_app in Hf as [_ Hf]. apply Forall_cons_1 in Hf as [(H1 & _) _]. cbn [fst] in H1.
  destruct Hl as (L1 & L2 & L3). destruct (decide (l = fb)) as [E|E]; [|rewrite L2 by lia; lia].
  change kMatchMaxLen with 273 in L3. specialize (L3 E).
  destruct (common_spec data (Z.to_nat (Z.min 273 (N - q))) q (q - d - 1)) as (C1 & _). lia.
Qed.

(** A packet of one byte, as optimum[1] or without one. *)
Lemma chosen_byte lenMain repMax p opts back : first_ok lenMain repMax p -> length opts = 4096%nat ->
  parse_to data dict A0 (repDistances v) [(1, back)] = Some (S A0, repDistances v) ->
  chosen bad data cl A0 (repDistances v) 1 (p_back back (p_opts opts p)).
Proof.
  intros [F1 F2 F3 F4 F5 [F6 F7] F8 F9 F10 F11] Ho Hp.
  apply chosen_now; cbn [optimum reps repLens optimumEndIndex optimumCurrentIndex longestMatchFound pf backRes p_back p_opts];
    try done; [rewrite F2; apply Hrs0|apply F3|].
  exists (repDistances v). rewrite Hp. do 2 f_equal. lia.
Qed.

Lemma fromFirst_ok position lenMain repMax rep0 p : first_ok lenMain repMax p -> 0 <= position ->
  lenMain < fb -> repMax < fb -> hd_error (repDistances v) = Some rep0 -> 0 <= rep0 < dict -> rep0 < Z.of_nat A0 ->
  yields bad (fun '(res, p') => chosen bad data cl A0 (repDistances v) res p')
    (fromFirst T cl mask cs pr v position lenMain repMax (byteAt data (Z.of_nat A0)) (byteAt data (Z.of_nat A0 - rep0 - 1)) p).
Proof.
  intros F Hpos HlM HrM Hhd Hd Hdq. pose proof level_bits as (_ & Hfb & _). pose proof (posStateOf_ok position) as Hps.
  destruct (fo_repMax _ _ _ F) as [Hrm HrmN]. pose proof (report_len _ _ _ (fo_report _ _ _ F) ltac:(unfold N; lia)) as [HlMb HlMN].
  unfold fromFirst. eapply yields_bind; [by apply returns_yields, firstPrices_ok; [apply (fo_opts _ _ _ F)|..]|].
  intros [[mp rmp] opts] Hfn. set (lenEnd := if repMax <? lenMain then lenMain else repMax).
  assert (HlE : lenEnd = Z.max lenMain repMax) by (unfold lenEnd; zcases; lia). destruct (Z.ltb_spec lenEnd 2).
  { destruct Hfn as (Hlo & _ & o & Ho & _ & _ & Ht). rewrite (node_at_ret opts 1 _ Ho). cbn [mbind outcome_bind yields].
    by eapply chosen_byte. }
  rewrite (fo_reps _ _ _ F).
  pose proof (first_open lenEnd opts Hfn ltac:(lia) ltac:(lia)) as Hop.
  destruct (node_upd 1 _ opts) as [o1| |]; [|done|done]. cbn [mbind outcome_bind] in *.
  destruct (store_backs 0 _ o1) as [o2| |]; [|done|done]. cbn [mbind outcome_bind] in *.
  eapply yields_bind; [apply returns_yields, Hop|]. clear Hop. intros opts1 G1.
  eapply yields_bind.
  { apply returns_yields, (firstReps_ok _ rmp (repLens p) lenEnd); [done|apply (fo_lens _ _ _ F)| |lia|exact G1].
    intros j l Hj. pose proof (fo_max _ _ _ F j l Hj). lia. }
  intros opts2 G2. eapply yields_bind; [apply returns_yields, repPrice0_ok, Hst|]. intros p1 _.
  destruct (fo_lens _ _ _ F) as [Hll Hlens].
  destruct (lookup_lt_is_Some_2 (repLens p) (Z.to_nat 0)) as [l0 El0]; [rewrite Hll; cbn; lia|].
  rewrite (index_ret _ _ _ El0). cbn [mbind outcome_bind].
  pose proof (fo_max _ _ _ F _ _ El0) as Hl0.
  eapply (yields_bind bad (first_inv lenEnd)).
  { apply returns_yields. destruct (Z.leb_spec (if 2 <=? l0 then u32 (l0 + 1) else 2) lenMain) as [Hle|]; [|exact G2].
    apply (firstLonger_ok _ _ _ lenMain lenEnd); try done; try lia; [|by apply report_matches; [apply (fo_report _ _ _ F)|]].
    split; [|done]. destruct (Z.leb_spec 2 l0); [|lia]. rewrite wrap_id in * by lia. lia. }
  intros opts3 G3. apply optimum_loop_ok; [|done|change (Z.of_nat (Z.to_nat kNumOpts)) with 4096; lia].
  split; [cbn [reps p_opts optimum]; rewrite (fo_reps _ _ _ F); exact G3|].
  replace (Z.of_nat A0 + 0 + 1) with (Z.of_nat A0 + 1) by lia.
  split; [apply (fo_place _ _ _ F)|]. split; [apply (fo_add _ _ _ F)|]. split; [apply (fo_found _ _ _ F)|]. apply Hll.
Qed.

(** Handing out a packet that is kept. *)
Lemma next_kept p : kept bad data cl A0 (repDistances v) 0 p -> optimumEndIndex p <> optimumCurrentIndex p ->
  exists o, node_at (optimum p) (optimumCurrentIndex p) = Ret o /\
    chosen bad data cl A0 (repDistances v) (u32 (posPrev o - optimumCurrentIndex p))
      (p_back (backPrev o) (p_indices (optimumEndIndex p) (posPrev o) p)).
Proof.
  intros [K1 K2 K3 K4 (choices & pos' & rs' & Hf & Hp & Ha & Hat & Hfd)] Hne.
  inversion Hf as [E|i o cs' Ho Hi Hf' E]; [congruence|]. subst. exists o. split; [by apply node_at_ret|].
  pose proof (fwd_le _ _ _ _ Hf') as Hle. rewrite wrap_id by lia. split; [lia|].
  change ((posPrev o - optimumCurrentIndex p, backPrev o) :: cs')
    with ([(posPrev o - optimumCurrentIndex p, backPrev o)] ++ cs') in Hp.
  rewrite parse_to_app in Hp. destruct (parse_to data _ A0 _ [_]) as [[pos1 rs1]|] eqn:E1; [|done].
  cbn [mbind option_bind] in Hp. pose proof (parse_one_len _ _ _ _ _ _ _ _ E1) as ->.
  exists rs1. split; [done|].
  constructor; cbn [optimum reps repLens optimumCurrentIndex optimumEndIndex p_back p_indices]; [done|done|lia|done|].
  exists cs', pos', rs'. split; [done|]. split; [done|].
  change (found_one (p_back (backPrev o) (p_indices (optimumEndIndex p) (posPrev o) p))) with (found_one p).
  split; [cbn [pf p_back p_indices]; lia|]. done.
Qed.

(** A long match at one of the last distances or among the pairs ends the choice. *)
Lemma take_whole lenMain repMax p back d len : first_ok lenMain repMax p ->
  2 <= len <= 273 -> Z.of_nat A0 + len <= N -> hd_error (new_reps back (repDistances v)) = Some d ->
  0 <= back -> back <> 0xFFFFFFFF -> 0 <= d < dict -> d < Z.of_nat A0 ->
  agree data len (Z.of_nat A0 - d - 1) (Z.of_nat A0) ->
  yields bad (fun '(res, p') => chosen bad data cl A0 (repDistances v) res p')
    (f ← enc_movePos (u32 (len - 1)) (pf p); Ret (len, p_finder f (p_back back p))).
Proof.
  intros [F1 F2 F3 F4 F5 [F6 F7] F8 F9 F10 F11] Hlen HlN Hhd Hb Hb' Hd Hdq Hag.
  rewrite (wrap_id 32 (len - 1)) by lia. replace (len - 1) with (Z.of_nat (Z.to_nat (len - 1))) by lia.
  eapply yields_bind; [apply (enc_movePos_spec bad data Hdata cl Hcl _ _ _ F9); fold N; lia|].
  intros f [Hat Ha]. cbn [yields]. destruct (Z.ltb_spec 0 (Z.of_nat (Z.to_nat (len - 1)))); [|lia].
  rewrite F10, (wrap_id 32) in Ha by lia.
  apply chosen_now; cbn [optimum reps repLens optimumEndIndex optimumCurrentIndex longestMatchFound pf backRes p_back p_finder];
    try done; try lia; [rewrite F2; apply Hrs0|apply F3| |].
  - by replace (Z.of_nat A0 + len) with (Z.of_nat A0 + 1 + Z.of_nat (Z.to_nat (len - 1))) by lia.
  - eexists. apply (parse_agree data dict _ _ _ _ d); try done.
    destruct (back =? 0); change kMatchMaxLen with 273; lia.
Qed.

Lemma report_last q lenRes z : report_at data cl q lenRes z -> 2 <= lenRes -> 0 <= q < N ->
  exists d, index (matchDistances z) (u32 (distancePairs z - 1)) = Ret d /\
    0 <= d < dict /\ d < q /\ agree data lenRes (q - d - 1) q.
Proof.
  intros (ps & Hp & _ & Hf & Hl) H2 Hq. destruct ps as [|[l d] ps _] using rev_ind; [cbn in Hl; lia|].
  rewrite last_snoc in Hl. destruct (pairs_lookup _ _ _ _ _ _ Hp) as (_ & E & Hlt).
  destruct Hp as (Hn & _). rewrite length_app in Hn. cbn [length] in Hn.
  replace (u32 (2 * Z.of_nat (length ps) + 1)) with (u32 (distancePairs z - 1)) in E by (f_equal; lia).
  exists d. split; [done|]. apply Forall_app in Hf as [_ Hf]. apply Forall_cons_1 in Hf as [(H1 & Hd & Hdq & Hag) _].
  cbn [fst snd] in *. split; [done|]. split; [done|]. destruct Hl as (L1 & L2 & L3).
  fold fb in L2, L3. destruct (decide (l = fb)) as [E'|E'].
  - rewrite (L3 E'). apply agree_sym.
    destruct (common_spec data (Z.to_nat (Z.min kMatchMaxLen (Z.of_nat (length data) - q))) q (q - d - 1)) as (_ & C2 & _). done.
  - by rewrite L2 by lia.
Qed.

(** The parser after measureReps, and the longest of the repeats. *)
Lemma measured_ok lenMain p : length (optimum p) = 4096%nat -> length (reps p) = 4%nat -> length (repLens p) = 4%nat ->
  optimumEndIndex p = 0 -> optimumCurrentIndex p = 0 -> longestMatchFound p = false ->
  at_place bad data cl (Z.of_nat A0 + 1) (pf p) -> additionalOffset (pf p) = 1 ->
  report_at data cl (Z.of_nat A0) lenMain (pf p) ->
  returns (fun '(m, p') => exists repMax d, index (repLens p') m = Ret repMax /\ first_ok lenMain repMax p' /\ 0 <= m < 4 /\
      hd_error (new_reps m (repDistances v)) = Some d /\ 0 <= d < dict /\ d < Z.of_nat A0 /\
      agree data repMax (Z.of_nat A0 - d - 1) (Z.of_nat A0)) (measureReps v p).
Proof.
  intros Ho Hr Hls He Hc Hf Hat Ha Hrep. destruct Hrs0 as [Hrl Hrf].
  eapply returns_weaken; [by apply measureReps_ok|]. intros [m p'] (Hm & -> & Hlens & lm & Ei & El & Hmax).
  cbn [repLens p_reps] in *. destruct Hlens as [Hll Hlens].
  destruct (lookup_lt_is_Some_2 (repDistances v) (Z.to_nat m)) as [d Ed]; [lia|].
  pose proof (Forall_lookup_1 _ _ _ _ Hrf Ed) as Hdb. cbv beta in Hdb.
  destruct (Hlens _ _ _ El Ed) as (L1 & L2 & Hag). exists lm, d. split; [done|]. split.
  - constructor; try done.
  - split; [lia|]. split; [apply hd_rep; [lia|done|done]|]. split; [lia|]. split; [lia|exact Hag].
Qed.

Lemma getOptimum_ok position p : kept bad data cl A0 (repDistances v) 0 p -> 0 <= position ->
  yields bad (fun '(res, p') => chosen bad data cl A0 (repDistances v) res p') (getOptimum T cl mask cs pr v position p).
Proof.
  intros K Hpos. pose proof level_bits as (_ & Hfb & _). unfold getOptimum.
  destruct (Z.eqb_spec (optimumEndIndex p) (optimumCurrentIndex p)) as [Ei|Ei]; cbn [negb].
  2: { destruct (next_kept p K Ei) as (o & -> & Hch). cbn [mbind outcome_bind yields]. done. }
  eapply yields_bind; [by apply mainMatch_ok|]. intros [lenMain p1] (f & -> & Hat & Ha & Hrep).
  destruct (kp_lens _ _ _ _ _ _ _ K) as [Hr Hls]. pose proof (kp_opts _ _ _ _ _ _ _ K) as Hol.
  destruct (_ <? 2).
  { apply chosen_now; try done. exists (repDistances v). cbn [backRes p_back].
    change [(1, 0xFFFFFFFF)] with [lit_choice]. rewrite parse_lit by lia. do 2 f_equal. lia. }
  eapply yields_bind; [by apply returns_yields, (measured_ok lenMain)|].
  intros [m p2] (repMax & d & -> & F & Hm & Hhd & Hd & Hdq & Hag). cbn [mbind outcome_bind]. fold fb.
  destruct (fo_repMax _ _ _ F) as [Hrm HrmN].
  pose proof (report_len _ _ _ (fo_report _ _ _ F) ltac:(unfold N; lia)) as [HlMb HlMN].
  destruct (Z.leb_spec fb repMax).
  { eapply take_whole; try done; lia. }
  destruct (Z.leb_spec fb lenMain).
  { destruct (report_last _ _ _ (fo_report _ _ _ F)) as (d2 & -> & Hd2 & Hdq2 & Hag2); [lia|unfold N; lia|].
    cbn [mbind outcome_bind]. change kNumRepDistances with 4. pose proof level_bits as (Hdict & _).
    rewrite (wrap_id 32 (d2 + 4)) by lia.
    eapply (take_whole lenMain repMax p2 (d2 + 4) d2); try done; try lia. apply hd_new; [lia|apply Hrs0]. }
  destruct (first_rep _ _ Hrs0) as (rep0 & R1 & _ & R2 & Hrd & Hrq).
  destruct (node_bytes (Z.of_nat A0) (pf p2) rep0 (fo_place _ _ _ F)) as [B1 B2]; [lia|done|lia|].
  change (p_iw p2) with (bt_iw (mf (pf p2))). rewrite B1. cbn [mbind outcome_bind]. rewrite R1. cbn [mbind outcome_bind].
  rewrite B2. cbn [mbind outcome_bind]. destruct (_ && _).
  - cbn [yields]. replace p2 with (p_opts (optimum p2) p2) by (by destruct p2).
    eapply chosen_byte; [done|apply (fo_opts _ _ _ F)|]. change [(1, 0xFFFFFFFF)] with [lit_choice]. apply parse_lit. lia.
  - by apply fromFirst_ok.
Qed.
End parser.
