(* ===== verification/LzmaEncode.v ===== *)
(** lzma2/lzma_encoder.go: the encoder as a whole. codeOneBlock asks getOptimum for the
    next packet, codes it with bytes read from the window, and refills the price tables
    when the look-ahead is used up; doEncode runs blocks to the end; encoder sets all of
    it up over a Reader.

    LzmaEncoder has the same packet code over a list of choices and the data. The
    refinement theorem of LzmaRun says that a run here is one there, for choices that the
    parser made and that parse the data. *)

From Stdlib Require Import ZArith Lia.
From stdpp Require Import base numbers option list.
From S2P Require Import Prelude RangeCoder LzmaCoders LzmaWindow LzmaDecoder LzmaEncoder LzmaPrices.
From S2P Require Import LzmaInWindow LzmaBinTree LzmaMatches LzmaOptimum.
#[local] Open Scope Z_scope.

(** The fields of the encoder: the parser's, those of [evars], the coders with their price
    tables, the range encoder and finished. *)
Record encState := mkES {
  es_p : parser; es_v : evars; es_cs : coders; es_pr : prices; es_re : rangeEncoder;
  es_finished : bool
}.

Definition p_offset (a : Z) (p : parser) : parser :=
  p_finder (mkFinder (mf (pf p)) (matchDistances (pf p)) (distancePairs (pf p)) a) p.

Definition pr_repLen (t : lenTable) (pr : prices) : prices :=
  mkPrices (lenT pr) t (posSlotPrices pr) (distancesPrices pr) (alignPrices pr)
    (matchPriceCount pr) (alignPriceCount pr).
(** The length table and the two counters. *)
Definition pr_match (t : lenTable) (mc ac : Z) (pr : prices) : prices :=
  mkPrices t (repLenT pr) (posSlotPrices pr) (distancesPrices pr) (alignPrices pr) mc ac.

Section encode.
Context (T : tables) (cl : compressionLevel) (posStateMask distTableSize : Z) (writeEndMark : bool).

(** ** One packet *)

Definition codeLiteral (p : parser) (v : evars) (cs : coders) (pr : prices) (re : rangeEncoder)
    : outcome lzma_error (evars * coders * prices * rangeEncoder) :=
  let posState := posStateOf posStateMask (u32 (e_nowPos v)) in
  let a := i32 (additionalOffset (pf p)) in
  '(cs, re) ← eBit fMatch (complexState (e_state v) posState) 0 cs re;
  curByte ← getIndexByte (i32 (0 - a)) (p_iw p);
  '(cs, re) ←
    (if negb (stateIsCharState (e_state v)) then
       rep0 ← index (repDistances v) 0;
       matchByte ← getIndexByte (i32 (i32 (i32 (0 - i32 rep0) - 1) - a)) (p_iw p);
       eLit (u32 (e_nowPos v)) (e_prevByte v) (encodeMatched matchByte curByte) cs re
     else eLit (u32 (e_nowPos v)) (e_prevByte v) (lit_encode curByte) cs re);
  Ret (mkEV (stateUpdateChar (e_state v)) (repDistances v) (e_nowPos v + 1) curByte, cs, pr, re).

(** A repeat; repMatchLenCoder also counts towards its next price table. *)
Definition codeRep (posState length pos : Z) (v : evars) (cs : coders) (pr : prices) (re : rangeEncoder)
    : outcome lzma_error (Z * list Z * coders * prices * rangeEncoder) :=
  '(cs, re) ← enc_rep (e_state v) posState length pos cs re;
  pr ← (if length =? 1 then Ret pr
        else t ← lenTable_encoded (probPrices T) (repLenC cs) posState (repLenT pr);
             Ret (pr_repLen t pr));
  distance ← index (repDistances v) pos;
  reps ← shiftReps (Z.to_nat pos) (repDistances v);
  reps ← (if negb (pos =? 0) then store reps 0 distance else Ret reps);
  Ret (if length =? 1 then stateUpdateShortRep (e_state v) else stateUpdateRep (e_state v),
       reps, cs, pr, re).

(** A new match; lenCoder counts towards its next price table, and so do the two counters
    towards those of the distances. *)
Definition codeMatch (posState length pos : Z) (v : evars) (cs : coders) (pr : prices) (re : rangeEncoder)
    : outcome lzma_error (Z * list Z * coders * prices * rangeEncoder) :=
  '(cs, re) ← eBit fRep (e_state v) 0 cs re;
  '(cs, re) ← on_e fLen (lc_encode (u32 (length - kMatchMinLen)) posState) cs re;
  t ← lenTable_encoded (probPrices T) (lenC cs) posState (lenT pr);
  let pos := u32 (pos - kNumRepDistances) in
  '(cs, re) ← enc_distance (gFastPos T) length pos cs re;
  posSlot ← getPosSlot (gFastPos T) pos;
  reps ← shiftReps (Z.to_nat (kNumRepDistances - 1)) (repDistances v);
  reps ← store reps 0 pos;
  Ret (stateUpdateMatch (e_state v), reps, cs,
       pr_match t (u32 (matchPriceCount pr + 1))
         (if kEndPosModelIndex <=? posSlot then u32 (alignPriceCount pr + 1) else alignPriceCount pr) pr,
       re).

Definition codePacket (length pos : Z) (p : parser) (v : evars) (cs : coders) (pr : prices)
    (re : rangeEncoder) : outcome lzma_error (evars * coders * prices * rangeEncoder) :=
  let posState := posStateOf posStateMask (u32 (e_nowPos v)) in
  if (length =? 1) && (pos =? 0xFFFFFFFF) then codeLiteral p v cs pr re
  else
    '(cs, re) ← eBit fMatch (complexState (e_state v) posState) 1 cs re;
    '(state, reps, cs, pr, re) ←
      (if pos <? kNumRepDistances then codeRep posState length pos v cs pr re
       else codeMatch posState length pos v cs pr re);
    prevByte ← getIndexByte (i32 (i32 (i32 length - 1) - i32 (additionalOffset (pf p)))) (p_iw p);
    Ret (mkEV state reps (e_nowPos v + length) prevByte, cs, pr, re).

(** ** codeOneBlock *)

(** flush(nowPos). The length of the end marker counts towards the next price table too. *)
Definition enc_flush (s : encState) : outcome lzma_error encState :=
  let posState := posStateOf posStateMask (u32 (e_nowPos (es_v s))) in
  '(cs, re) ← writeEndMarker writeEndMark (e_state (es_v s)) posState (es_cs s) (es_re s);
  let pr := es_pr s in
  pr ← (if writeEndMark then
          t ← lenTable_encoded (probPrices T) (lenC cs) posState (lenT pr);
          Ret (pr_match t (matchPriceCount pr) (alignPriceCount pr) pr)
        else Ret pr);
  Ret (mkES (es_p s) (es_v s) cs pr (flush re) (es_finished s)).

(** The block of the first byte: always a literal, without a match byte. *)
Definition codeFirst (s : encState) : outcome lzma_error encState :=
  '(_, f) ← readMatchDistances cl (pf (es_p s));
  let p := p_finder f (es_p s) in
  let v := es_v s in
  '(cs, re) ← eBit fMatch (complexState (e_state v) (posStateOf posStateMask (u32 (e_nowPos v)))) 0
                (es_cs s) (es_re s);
  curByte ← getIndexByte (i32 (0 - i32 (additionalOffset f))) (p_iw p);
  '(cs, re) ← eLit (u32 (e_nowPos v)) (e_prevByte v) (lit_encode curByte) cs re;
  Ret (mkES (p_offset (u32 (additionalOffset f - 1)) p)
            (mkEV (stateUpdateChar (e_state v)) (repDistances v) (e_nowPos v + 1) curByte)
            cs (es_pr s) re (es_finished s)).

(** One turn of the loop up to its last test. *)
Definition nextPacket (s : encState) : outcome lzma_error encState :=
  let v := es_v s in
  '(length, p) ← getOptimum T cl posStateMask (es_cs s) (es_pr s) v (u32 (e_nowPos v)) (es_p s);
  '(v, cs, pr, re) ← codePacket length (backRes p) p v (es_cs s) (es_pr s) (es_re s);
  Ret (mkES (p_offset (u32 (additionalOffset (pf p) - length)) p) v cs pr re (es_finished s)).

(** The price tables, when enough has been coded since they were filled. *)
Definition refillPrices (cs : coders) (pr : prices) : outcome lzma_error prices :=
  pr ← (if Z.shiftl 1 7 <=? matchPriceCount pr then fillDistancesPrices T cs distTableSize pr else Ret pr);
  if kAlignTableSize <=? alignPriceCount pr then fillAlignPrices T cs pr else Ret pr.

(** The loop; each turn codes a byte or more, so [fuel] bytes are enough. *)
Fixpoint blockLoop (fuel : nat) (progressPosValuePrev : Z) (s : encState) : outcome lzma_error encState :=
  match fuel with
  | O => Panic
  | S fuel' =>
      s ← nextPacket s;
      if additionalOffset (pf (es_p s)) =? 0 then
        pr ← refillPrices (es_cs s) (es_pr s);
        let s := mkES (es_p s) (es_v s) (es_cs s) pr (es_re s) (es_finished s) in
        if getNumAvailableBytes (p_iw (es_p s)) =? 0 then enc_flush s
        else if Z.shiftl 1 12 <=? e_nowPos (es_v s) - progressPosValuePrev then
          Ret (mkES (es_p s) (es_v s) (es_cs s) (es_pr s) (es_re s) false)
        else blockLoop fuel' progressPosValuePrev s
      else blockLoop fuel' progressPosValuePrev s
  end.

Definition codeOneBlock (fuel : nat) (s : encState) : outcome lzma_error encState :=
  let s := mkES (es_p s) (es_v s) (es_cs s) (es_pr s) (es_re s) true in
  let progressPosValuePrev := e_nowPos (es_v s) in
  let rest (s : encState) :=
    if getNumAvailableBytes (p_iw (es_p s)) =? 0 then enc_flush s
    else blockLoop fuel progressPosValuePrev s in
  if e_nowPos (es_v s) =? 0 then
    if getNumAvailableBytes (p_iw (es_p s)) =? 0 then enc_flush s
    else s ← codeFirst s; rest s
  else rest s.

(** Every block but the last codes a byte or more. *)
Fixpoint run_doEncode (fuel blockFuel : nat) (s : encState) : outcome lzma_error encState :=
  match fuel with
  | O => Panic
  | S fuel' =>
      s ← codeOneBlock blockFuel s;
      if es_finished s then Ret s else run_doEncode fuel' blockFuel s
  end.
End encode.

(** ** encoder *)

(** The encoder's price tables as they are made. *)
Definition newPrices (T : tables) (cl : compressionLevel) (distTableSize : Z) (cs : coders)
    : outcome lzma_error prices :=
  let tableSize := u32 (u32 (fastBytes cl + 1) - kMatchMinLen) in
  let numPosStates := u32 (Z.shiftl 1 (cl_posStateBits cl)) in
  lt ← newLenTable (probPrices T) (lenC cs) tableSize numPosStates;
  rt ← newLenTable (probPrices T) (repLenC cs) tableSize numPosStates;
  pr ← fillDistancesPrices T cs distTableSize
         (mkPrices lt rt
            (replicate (Z.to_nat (Z.shiftl 1 (kNumPosSlotBits + kNumLenToPosStatesBits))) 0)
            (replicate (Z.to_nat (Z.shiftl kNumFullDistances kNumLenToPosStatesBits)) 0)
            (replicate (Z.to_nat kAlignTableSize) 0) 0 0);
  fillAlignPrices T cs pr.

(** From the compression level on; [fuel] more than the bytes there are. The bytes written,
    header first. *)
Definition encode_level (fuel : nat) (r : list read_event) (size : Z) (cl : compressionLevel)
    : outcome lzma_error (list Z) :=
  pp ← initProbPrices;
  g ← initGFastPos;
  let T := mkTables g pp in
  if negb (checkValues cl) then Fail argumentValueError
  else
    let distTableSize := u32 (cl_dictSize cl * 2) in
    let dictSize := u32 (Z.shiftl 1 (cl_dictSize cl)) in
    if size <? -1 then Fail argumentValueError
    else
      let writeEndMark := size =? -1 in
      let header := enc_header cl dictSize size in
      f ← newFinder r cl;
      cs ← newCoders (mkProps (cl_litContextBits cl) (cl_litPosStateBits cl) (cl_posStateBits cl) dictSize);
      pr ← newPrices T cl distTableSize cs;
      let posStateMask := u32 (Z.shiftl 1 (cl_posStateBits cl) - 1) in
      s ← run_doEncode T cl posStateMask distTableSize writeEndMark fuel fuel
            (mkES (newParser f) evars0 cs pr newRangeEncoder false);
      Ret (header ++ re_w (es_re s)).

Definition run_encoder (fuel : nat) (r : list read_event) (size level : Z) : outcome lzma_error (list Z) :=
  if (level <? 1) || (9 <? level) then Fail argumentValueError
  else match levels !! Z.to_nat level with
       | Some cl => encode_level fuel r size cl
       | None => Panic
       end.
