(* ===== verification/LzmaRun.v ===== *)
(** The encoder of LzmaEncode over any Reader: its window shows the data, so that each
    packet it codes is the one that the packet code of LzmaEncoder codes from the data;
    the parser's choices parse the data; and the price tables stay in their bounds. So a
    run is a run of LzmaEncoder.doEncode with a valid parse, and LzmaStream's round trip
    applies to it. *)

From Stdlib Require Import ZArith Lia.
From stdpp Require Import base numbers option list.
From S2P Require Import Prelude RangeCoder LzmaCoders LzmaWindow LzmaDecoder LzmaEncoder LzmaStream.
From S2P Require Import LzmaInWindow LzmaBinTree LzmaTrees LzmaBinTreeOk LzmaFinder LzmaMatches.
From S2P Require Import LzmaPrices LzmaOptimum LzmaLinks LzmaChoices LzmaNodes LzmaOptimumOk LzmaEncode.
#[local] Open Scope Z_scope.

(** ** Lists of packets *)

Lemma enc_loop_app g mask data c1 : forall c2 v cs re,
  enc_loop g mask data (c1 ++ c2) v cs re =
  '(v, cs, re) ← enc_loop g mask data c1 v cs re; enc_loop g mask data c2 v cs re.
Proof.
  induction c1 as [|c c1 IH]; intros c2 v cs re; cbn [enc_loop app]; [done|].
  destruct (enc_packet g mask data c v cs re) as [[[v1 cs1] re1]| |]; cbn [mbind outcome_bind]; [apply IH|done|done].
Qed.

(** A parse to the end of the data is a valid one. *)
Lemma parse_to_all data dict choices pos rs rs' :
  parse_to data dict pos rs choices = Some (length data, rs') -> parse_ok data dict pos rs choices = true.
Proof.
  intros H. rewrite <- (app_nil_r choices), (parse_to_ok data dict choices [] _ _ _ _ H). cbn. by rewrite Nat.eqb_refl.
Qed.

(** A packet codes a byte or more. *)
Lemma parse_one_pos data dict pos rs len back q : length rs = 4%nat ->
  parse_to data dict pos rs [(len, back)] = Some q -> 1 <= len <= 273.
Proof.
  intros Hl H. destruct q as [pos' rs']. apply parse_one in H as [(-> & _)|(Hm & _)]; [lia|].
  apply match_ok_inv in Hm as (_ & Hlen & _); [|done]. change kMatchMaxLen with 273 in Hlen. destruct (back =? 0); lia.
Qed.

Lemma parse_count data dict choices : forall pos rs pos' rs', length rs = 4%nat ->
  parse_to data dict pos rs choices = Some (pos', rs') -> (length choices + pos <= pos')%nat.
Proof.
  induction choices as [|[len back] choices IH]; intros pos rs pos' rs' Hl H; [cbn in H; injection H as -> ->; cbn; lia|].
  change ((len, back) :: choices) with ([(len, back)] ++ choices) in H. rewrite parse_to_app in H.
  destruct (parse_to data dict pos rs [_]) as [[p1 r1]|] eqn:E1; [|done]. cbn [mbind option_bind] in H.
  pose proof (parse_one_pos _ _ _ _ _ _ _ Hl E1). pose proof (parse_one_len _ _ _ _ _ _ _ _ E1) as ->.
  assert (Hr1 : length r1 = 4%nat).
  { apply parse_one in E1 as [(_ & _ & ->)|(_ & ->)]; [done|by rewrite length_new_reps]. }
  apply IH in H; [|done]. cbn [length]. lia.
Qed.

Lemma data_byteAt data i : 0 <= i < Z.of_nat (length data) -> index data i = Ret (E := lzma_error) (byteAt data i).
Proof.
  intros Hi. destruct (lookup_lt_is_Some_2 data (Z.to_nat i)) as [b Hb]; [lia|].
  rewrite (index_ret _ _ _ Hb). unfold byteAt. by rewrite (nth_lookup_Some _ _ _ _ Hb).
Qed.

Lemma levels_in cl : checkValues cl = true ->
  0 <= cl_posStateBits cl <= 4 /\ 0 <= cl_litContextBits cl <= 8 /\ 0 <= cl_litPosStateBits cl <= 4 /\
  0 <= u32 (cl_dictSize cl * 2) <= 64.
Proof.
  intros H. unfold checkValues in H. rewrite !andb_true_iff, !negb_true_iff, !orb_false_iff in H.
  destruct H as (((((Hds & _) & Hlc) & Hlp) & Hpb) & _). destruct Hds, Hlc, Hlp, Hpb. zbool.
  rewrite wrap_id by lia. lia.
Qed.

Lemma yields_and {A} bad (Q R : A -> Prop) o : yields bad Q o -> (forall a, o = Ret a -> R a) ->
  yields bad (fun a => Q a /\ R a) o.
Proof. destruct o; cbn; auto. Qed.

Section run.
Context (bad : lzma_error -> Prop) (data : list Z) (Hdata : bytes_ok data).
Context (cl : compressionLevel) (Hcl : checkValues cl = true).
Let dict := 2 ^ cl_dictSize cl.
Let N := Z.of_nat (length data).
Let npos := 2 ^ cl_posStateBits cl.
Let mask := npos - 1.
Context (T : tables) (HT : tables_ok T) (eos : bool).
Let g := gFastPos T.
Let P := coders_ok npos (cl_litContextBits cl) (cl_litPosStateBits cl).
Context (H63 : Z.of_nat (length data) < 2 ^ 63).
Let dp : params := mkP mask dict (if eos then -1 else N).
(** The number of slots with a price. *)
Context (slots : Z) (Hslots : 0 <= slots <= 64).

(** ** One packet *)

(** What the window shows while the packet at [pos] is coded. *)
Definition ahead_at (pos : nat) (p : parser) : Prop :=
  at_place bad data cl (Z.of_nat pos + additionalOffset (pf p)) (pf p) /\ 0 <= additionalOffset (pf p) <= 4096.

Lemma window_byte pos p k : ahead_at pos p -> k < additionalOffset (pf p) -> 0 <= Z.of_nat pos + k -> - dict <= k ->
  getIndexByte (k - additionalOffset (pf p)) (p_iw p) = index data (Z.of_nat pos + k).
Proof.
  intros [Hat Ha] Hk H0 Hlo. destruct (place_avail bad data cl Hcl _ _ Hat) as (Hav & HaN & _).
  unfold p_iw. rewrite (place_byte bad data cl Hcl _ _ _ Hat) by (fold dict; lia).
  rewrite data_byteAt by lia. do 2 f_equal. lia.
Qed.

Lemma codeLiteral_eq pos p v cs pr re : ahead_at pos p -> 1 <= additionalOffset (pf p) -> e_nowPos v = Z.of_nat pos ->
  reps_in dict pos (repDistances v) ->
  codeLiteral mask p v cs pr re = '(v, cs, re) ← enc_literal mask data v cs re; Ret (v, cs, pr, re).
Proof.
  intros H Ha Hn Hr. pose proof (level_bits data cl Hcl) as (Hd & _). pose proof H as [_ Hb].
  destruct (first_rep cl _ _ Hr) as (rep0 & R1 & _ & _ & Hrd & Hrq). unfold codeLiteral, enc_literal, posStateOf.
  destruct (eBit fMatch _ 0 cs re) as [[cs1 re1]| |]; cbn [mbind outcome_bind]; [|done|done].
  rewrite (swrap_id 32 (additionalOffset (pf p))), (swrap_id 32 (0 - additionalOffset (pf p))) by lia.
  rewrite (window_byte pos p 0 H) by lia. rewrite Hn, Z.add_0_r.
  destruct (index data (Z.of_nat pos)) as [b| |]; cbn [mbind outcome_bind]; [|done|done].
  destruct (negb _).
  - rewrite R1. cbn [mbind outcome_bind]. rewrite (swrap_id 32 rep0), (swrap_id 32 (0 - rep0)), (swrap_id 32 (0 - rep0 - 1)),
      (swrap_id 32 (0 - rep0 - 1 - _)) by lia.
    rewrite (window_byte pos p (0 - rep0 - 1) H) by lia. replace (Z.of_nat pos + (0 - rep0 - 1)) with (Z.of_nat pos - rep0 - 1) by lia.
    destruct (index data _) as [mb| |]; cbn [mbind outcome_bind]; [|done|done].
    by destruct (eLit _ _ _ cs1 re1) as [[cs2 re2]| |].
  - by destruct (eLit _ _ _ cs1 re1) as [[cs2 re2]| |].
Qed.

(** The position slot and the low bits of a distance leave the length coder alone. *)
Lemma enc_distance_lenC len pos cs re cs' re' : enc_distance g len pos cs re = Ret (cs', re') ->
  lenC cs' = lenC cs /\ exists s, getPosSlot g pos = Ret s.
Proof.
  unfold enc_distance. destruct (getPosSlot g pos) as [s| |]; cbn [mbind outcome_bind]; [|done|done].
  destruct (on_e fPosSlot _ cs re) as [[cs1 re1]| |] eqn:E1; cbn [mbind outcome_bind]; [|done|done].
  assert (H1 : lenC cs1 = lenC cs).
  { unfold on_e in E1. destruct (at_encode _ _ _ re) as [[t r]| |]; [|done|done]. by injection E1 as <- <-. }
  intros H. split; [|by exists s]. rewrite <- H1. destruct (_ <=? s); [|by injection H as <- <-].
  destruct (s <? _).
  - unfold on_e in H. destruct (reverseEncodeIndex _ _ _ _ re1) as [[t r]| |]; [|done|done]. by injection H as <- <-.
  - unfold on_e in H. destruct (bt_reverseEncode _ _ _) as [[t r]| |]; [|done|done]. by injection H as <- <-.
Qed.

Lemma codeRep_ok ps len back v cs pr re cs2 re2 distance reps1 reps2 : 0 <= ps < npos -> prices_ok pr ->
  enc_rep (e_state v) ps len back cs re = Ret (cs2, re2) -> P cs2 ->
  index (repDistances v) back = Ret distance -> shiftReps (Z.to_nat back) (repDistances v) = Ret reps1 ->
  (if negb (back =? 0) then store reps1 0 distance else Ret reps1) = Ret reps2 ->
  returns (fun '(st, reps, cs', pr', re') =>
      st = (if len =? 1 then stateUpdateShortRep (e_state v) else stateUpdateRep (e_state v)) /\
      reps = reps2 /\ cs' = cs2 /\ re' = re2 /\ prices_ok pr') (codeRep T ps len back v cs pr re).
Proof.
  intros Hps Hpr E1 HP E2 E3 E4. unfold codeRep. rewrite E1. cbn [mbind outcome_bind].
  pose proof (level_bits data cl Hcl) as (_ & _ & _ & _ & Hnp). apply (returns_bind prices_ok).
  { destruct (len =? 1); [done|].
    eapply returns_bind; [by apply (lenTable_encoded_ok T HT npos Hnp _ _ _ (ok_repLen _ _ _ _ HP) Hps (po_repLen _ Hpr))|].
    intros t Ht. cbn [returns]. destruct Hpr. by constructor. }
  intros pr' Hpr'. rewrite E2. cbn [mbind outcome_bind]. rewrite E3. cbn [mbind outcome_bind].
  rewrite E4. cbn [mbind outcome_bind returns]. done.
Qed.

Lemma codeMatch_ok ps len back v cs pr re cs2 re2 reps1 reps2 : 0 <= ps < npos -> prices_ok pr ->
  enc_newmatch g (e_state v) ps len (u32 (back - kNumRepDistances)) cs re = Ret (cs2, re2) -> P cs2 ->
  shiftReps (Z.to_nat (kNumRepDistances - 1)) (repDistances v) = Ret reps1 ->
  store reps1 0 (u32 (back - kNumRepDistances)) = Ret reps2 ->
  returns (fun '(st, reps, cs', pr', re') => st = stateUpdateMatch (e_state v) /\
      reps = reps2 /\ cs' = cs2 /\ re' = re2 /\ prices_ok pr') (codeMatch T ps len back v cs pr re).
Proof.
  intros Hps Hpr E1 HP E2 E3. unfold codeMatch, enc_newmatch in *. fold g.
  pose proof (level_bits data cl Hcl) as (_ & _ & _ & _ & Hnp).
  destruct (eBit fRep _ 0 cs re) as [[cs3 re3]| |]; cbn [mbind outcome_bind] in *; [|done|done].
  destruct (on_e fLen _ cs3 re3) as [[cs4 re4]| |]; cbn [mbind outcome_bind] in *; [|done|done].
  pose proof (ok_len _ _ _ _ HP) as Hlc. destruct (enc_distance_lenC _ _ _ _ _ _ E1) as [El (s & Es)]. rewrite El in Hlc.
  eapply returns_bind; [by apply (lenTable_encoded_ok T HT npos Hnp _ _ _ Hlc Hps (po_len _ Hpr))|].
  intros t Ht. cbv zeta. rewrite E1. cbn [mbind outcome_bind]. rewrite Es. cbn [mbind outcome_bind].
  rewrite E2. cbn [mbind outcome_bind]. rewrite E3. cbn [mbind outcome_bind returns].
  do 4 (split; [done|]). destruct Hpr. by constructor.
Qed.

(** The byte before the next packet, which the window shows too. *)
Lemma prev_byte pos p len st rs nowPos (cs2 : coders) (pr2 : prices) (re2 : rangeEncoder) r : ahead_at pos p ->
  1 <= len <= additionalOffset (pf p) -> nowPos = Z.of_nat pos ->
  (prevByte ← index data (nowPos + len - 1); Ret (mkEV st rs (nowPos + len) prevByte, cs2, re2)) = Ret (E := lzma_error) r ->
  r.1.2 = cs2 /\ r.2 = re2 /\
  (prevByte ← getIndexByte (i32 (i32 (i32 len - 1) - i32 (additionalOffset (pf p)))) (p_iw p);
   Ret (mkEV st rs (nowPos + len) prevByte, cs2, pr2, re2)) = Ret (E := lzma_error) (r.1.1, cs2, pr2, re2).
Proof.
  intros H Hlen -> E. pose proof (level_bits data cl Hcl) as (Hd & _). pose proof H as [_ Hb].
  rewrite (swrap_id 32 len), (swrap_id 32 (len - 1)), (swrap_id 32 (additionalOffset _)), (swrap_id 32 (len - 1 - _)) by lia.
  rewrite (window_byte pos p (len - 1) H) by lia.
  replace (Z.of_nat pos + (len - 1)) with (Z.of_nat pos + len - 1) by lia.
  destruct (index data _) as [b| |]; cbn [mbind outcome_bind] in *; [|done|done]. by injection E as <-.
Qed.

Lemma codePacket_ok pos p v cs pr re len back v' cs' re' : ahead_at pos p -> 1 <= len <= additionalOffset (pf p) ->
  e_nowPos v = Z.of_nat pos -> reps_in dict pos (repDistances v) -> prices_ok pr ->
  enc_packet g mask data (len, back) v cs re = Ret (v', cs', re') -> P cs' ->
  returns (fun '(v2, cs2, pr2, re2) => v2 = v' /\ cs2 = cs' /\ re2 = re' /\ prices_ok pr2)
    (codePacket T mask len back p v cs pr re).
Proof.
  intros H Hlen Hn Hr Hpr E HP. unfold codePacket. cbn [enc_packet] in E.
  destruct ((len =? 1) && (back =? 0xFFFFFFFF)).
  { rewrite (codeLiteral_eq pos) by (done || lia). rewrite E. done. }
  pose proof (posStateOf_ok data cl Hcl (u32 (e_nowPos v))) as Hps. fold npos mask in Hps. unfold posStateOf in *.
  destruct (eBit fMatch _ 1 cs re) as [[cs1 re1]| |]; cbn [mbind outcome_bind] in *; [|done|done].
  destruct (back <? kNumRepDistances).
  - destruct (enc_rep _ _ _ _ cs1 re1) as [[cs2 re2]| |] eqn:E1; cbn [mbind outcome_bind] in E; [|done|done].
    destruct (index (repDistances v) back) as [dd| |] eqn:E2; cbn [mbind outcome_bind] in E; [|done|done].
    destruct (shiftReps _ _) as [rr| |] eqn:E3; cbn [mbind outcome_bind] in E; [|done|done].
    destruct (if negb _ then _ else _) as [r2| |] eqn:E4; cbn [mbind outcome_bind] in E; [|done|done].
    pose proof (fun pr => prev_byte pos p len _ _ _ _ pr _ _ H Hlen Hn E) as Hpv. cbn [fst snd] in Hpv.
    destruct (Hpv pr) as (-> & -> & _).
    eapply returns_bind; [by eapply codeRep_ok|]. intros [[[[st rs] cs3] pr3] re3] (-> & -> & -> & -> & Hpr3).
    destruct (Hpv pr3) as (_ & _ & ->). done.
  - cbv zeta in E. destruct (enc_newmatch _ _ _ _ _ cs1 re1) as [[cs2 re2]| |] eqn:E1; cbn [mbind outcome_bind] in E; [|done|done].
    destruct (shiftReps _ _) as [rr| |] eqn:E3; cbn [mbind outcome_bind] in E; [|done|done].
    destruct (store rr 0 _) as [r2| |] eqn:E4; cbn [mbind outcome_bind] in E; [|done|done].
    pose proof (fun pr => prev_byte pos p len _ _ _ _ pr _ _ H Hlen Hn E) as Hpv. cbn [fst snd] in Hpv.
    destruct (Hpv pr) as (-> & -> & _).
    eapply returns_bind; [by eapply codeMatch_ok|]. intros [[[[st rs] cs3] pr3] re3] (-> & -> & -> & -> & Hpr3).
    destruct (Hpv pr3) as (_ & _ & ->). done.
Qed.

(** ** The state between two packets *)

(** The bytes up to [pos] are coded: a decoder has them in its window and the encoder's
    variables; the range encoder has room for a packet a byte. *)
Record coded (pos : nat) (s : encState) : Prop := {
  cd_pos : (pos <= length data)%nat;
  cd_now : e_nowPos (es_v s) = Z.of_nat pos;
  cd_dec : exists v ow, ev_rel v (es_v s) /\ dec_inv dp v ow (take pos data);
  cd_coders : P (es_cs s);
  cd_prices : prices_ok (es_pr s);
  cd_budget : exists n, (48 * (length data - pos) + 48 <= n)%nat /\ enc_ok n (es_re s)
}.

(** [choices] lead from [s] to [s'] in the packet code of LzmaEncoder too. *)
Definition ran (pos : nat) (s : encState) (choices : list (Z * Z)) (pos' : nat) (s' : encState) : Prop :=
  enc_loop g mask data choices (es_v s) (es_cs s) (es_re s) = Ret (es_v s', es_cs s', es_re s') /\
  parse_to data dict pos (repDistances (es_v s)) choices = Some (pos', repDistances (es_v s')).

Lemma ran_nil pos s : ran pos s [] pos s.
Proof. split; [done|]. done. Qed.

Lemma ran_trans pos s c1 pos1 s1 c2 pos2 s2 : ran pos s c1 pos1 s1 -> ran pos1 s1 c2 pos2 s2 ->
  ran pos s (c1 ++ c2) pos2 s2.
Proof.
  intros [E1 P1] [E2 P2]. split; [rewrite enc_loop_app, E1; exact E2|].
  rewrite parse_to_app, P1. exact P2.
Qed.

Lemma coded_vars pos s : coded pos s -> 0 <= e_state (es_v s) < 12 /\ byte_ok (e_prevByte (es_v s)).
Proof.
  intros H. destruct (cd_dec _ _ H) as (v & ow & [R1 R2 R3 R4] & D). rewrite R1, R4.
  split; [apply (di_state _ _ _ _ D)|apply (di_prev _ _ _ _ D)].
Qed.

(** A packet's bits can be written, and the room for the others is left. *)
Lemma packet_written pos pos' s ev' v ow E : coded pos s -> (pos < pos')%nat -> (pos' <= length data)%nat ->
  packet_ok (cl_posStateBits cl) (cl_litContextBits cl) (cl_litPosStateBits cl) dp data pos' ev' v ow E ->
  exists cs' re', E (es_cs s) (es_re s) = Ret (cs', re') /\
    forall p pr fin, e_nowPos ev' = Z.of_nat pos' -> prices_ok pr -> coded pos' (mkES p ev' cs' pr re' fin).
Proof.
  intros H Hlt Hle (w & ow' & Hrel & Hdec & HL). destruct (HL _ (cd_coders _ _ H)) as (cs' & HP' & C).
  destruct (cd_budget _ _ H) as (n & Hn & He).
  destruct (C (n - 48)%nat (es_re s)) as (re' & E' & He' & _).
  { by replace (48 + (n - 48))%nat with n by lia. }
  exists cs', re'. split; [done|]. intros p pr fin Hnow Hpr. constructor; cbn [es_v es_cs es_pr es_re]; try done.
  - by exists w, ow'.
  - exists (n - 48)%nat. split; [lia|done].
Qed.

(** The packet code of LzmaEncoder on a valid packet. *)
Lemma packet_coded pos s len back rs' : coded pos s -> length (repDistances (es_v s)) = 4%nat ->
  parse_to data dict pos (repDistances (es_v s)) [(len, back)] = Some ((pos + Z.to_nat len)%nat, rs') -> 1 <= len ->
  exists v' cs' re', enc_packet g mask data (len, back) (es_v s) (es_cs s) (es_re s) = Ret (v', cs', re') /\
    repDistances v' = rs' /\
    forall p pr fin, prices_ok pr -> coded (pos + Z.to_nat len) (mkES p v' cs' pr re' fin).
Proof.
  intros H Hl Hp Hlen. destruct (cd_dec _ _ H) as (v & ow & Hrel & Hdec). pose proof (cd_pos _ _ H) as Hpos.
  pose proof (parse_to_end data dict _ _ _ _ _ Hp Hl Hpos) as Hend. destruct (levels_in cl Hcl) as (Hpb & Hlc & Hlp & _).
  pose proof (level_bits data cl Hcl) as (Hd & _). destruct HT as [Hg _].
  destruct ((len =? 1) && (back =? 0xFFFFFFFF)) eqn:Elit.
  - cbn [parse_to] in Hp. rewrite Elit in Hp. destruct (Nat.ltb_spec pos (length data)); [|done]. injection Hp as Ep <-.
    rewrite <- Ep. destruct (literal_packet (cl_posStateBits cl) (cl_litContextBits cl) (cl_litPosStateBits cl) dp data
      Hpb Hlc Hlp eq_refl Hdata H63 pos _ v ow ltac:(lia) Hrel Hdec) as (ev' & E & HE & Hok & Hr & Hnow).
    destruct (packet_written pos (S pos) s ev' v ow E H) as (cs' & re' & E' & Hc); [lia|lia|done|].
    exists ev', cs', re'. cbn [enc_packet]. rewrite Elit.
    change mask with (posStateMask dp). rewrite HE, E'. split; [done|]. split; [done|]. intros. by apply Hc.
  - assert (Hm : match_ok data dict pos (repDistances (es_v s)) len back = true /\ rs' = new_reps back (repDistances (es_v s))).
    { cbn [parse_to] in Hp. rewrite Elit in Hp. destruct (match_ok _ _ _ _ _ _); [|done]. by injection Hp as <-. }
    destruct Hm as [Hm ->].
    assert (Hex : exists ev' E, (forall cs e, enc_packet g (posStateMask dp) data (len, back) (es_v s) cs e =
                   '(cs, e) ← E cs e; Ret (ev', cs, e)) /\
             packet_ok (cl_posStateBits cl) (cl_litContextBits cl) (cl_litPosStateBits cl) dp data (pos + Z.to_nat len) ev' v ow E /\
             repDistances ev' = new_reps back (repDistances (es_v s)) /\ e_nowPos ev' = Z.of_nat pos + len).
    { destruct (Z.lt_ge_cases back 4); [by apply rep_packet | apply newmatch_packet; try done; cbn; lia]. }
    destruct Hex as (ev' & E & HE & Hok & Hr & Hnow).
    destruct (packet_written pos (pos + Z.to_nat len) s ev' v ow E H) as (cs' & re' & E' & Hc); [lia|lia|done|].
    exists ev', cs', re'. change mask with (posStateMask dp). rewrite HE, E'. split; [done|]. split; [done|].
    intros p pr fin Hpr. apply Hc; [lia|done].
Qed.

(** Between two packets. *)
Record between (pos : nat) (s : encState) : Prop := {
  bt_coded : coded pos s;
  bt_kept : kept bad data cl pos (repDistances (es_v s)) 0 (es_p s);
  bt_reps : reps_in dict pos (repDistances (es_v s));
  bt_started : (1 <= pos)%nat
}.

(** What is kept says where the finder is. *)
Lemma kept_ahead pos rs k p : kept bad data cl (pos + Z.to_nat k) rs k p -> 0 <= k -> length rs = 4%nat ->
  ahead_at pos p /\ k <= additionalOffset (pf p).
Proof.
  intros [_ _ _ K4 (choices & pos' & rs' & Hf & Hp & Ha & Hat & Hfd)] Hk Hl.
  pose proof (parse_count _ _ _ _ _ _ _ Hl Hp) as Hc.
  assert (0 <= found_one p) by (unfold found_one; destruct (longestMatchFound p); lia).
  split; [|lia]. split; [|lia].
  by replace (Z.of_nat pos + additionalOffset (pf p)) with (Z.of_nat pos' + found_one p) by lia.
Qed.

Lemma kept_offset pos rs k p : kept bad data cl pos rs k p -> 0 <= k <= additionalOffset (pf p) ->
  kept bad data cl pos rs 0 (p_offset (u32 (additionalOffset (pf p) - k)) p).
Proof.
  intros [K1 K2 K3 K4 (choices & pos' & rs' & Hf & Hp & Ha & Hat & Hfd)] Hk.
  rewrite (wrap_id 32) by lia. constructor; try done; [cbn; lia|].
  exists choices, pos', rs'. split; [done|]. split; [done|].
  change (found_one (p_offset (additionalOffset (pf p) - k) p)) with (found_one p).
  split; [cbn; lia|]. split; [exact Hat|exact Hfd].
Qed.

Lemma nextPacket_ok pos s : between pos s -> (pos < length data)%nat ->
  yields bad (fun s' => exists c pos', ran pos s [c] pos' s' /\ between pos' s' /\ (pos < pos')%nat /\
                es_finished s' = es_finished s) (nextPacket T cl mask s).
Proof.
  intros [Hc Hk Hr H1] Hlt. destruct (coded_vars _ _ Hc) as [Hst Hpv]. unfold nextPacket.
  eapply yields_bind.
  { apply (getOptimum_ok bad data Hdata cl Hcl T HT _ _ (cd_prices _ _ Hc) (cd_coders _ _ Hc) (es_v s) pos); try done; try lia; apply wrap_range; lia. }
  intros [len p] (Hlen & rs' & Hp & Hk').
  destruct (packet_coded pos s len (backRes p) rs' Hc (proj1 Hr) Hp Hlen) as (v' & cs' & re' & E & Erv & Hcod).
  pose proof (parse_to_reps data dict _ _ _ _ _ Hp Hr) as [Hr' _].
  destruct (kept_ahead pos rs' len p Hk' ltac:(lia) (proj1 Hr')) as [Ha Hla].
  eapply yields_bind.
  { eapply returns_yields, (codePacket_ok pos p _ _ _ _ len (backRes p)); [done|lia|apply (cd_now _ _ Hc)|done|apply (cd_prices _ _ Hc)|exact E|].
    apply (cd_coders _ _ (Hcod p (es_pr s) true (cd_prices _ _ Hc))). }
  intros [[[v2 cs2] pr2] re2] (-> & -> & -> & Hpr2). cbn [yields].
  exists (len, backRes p), (pos + Z.to_nat len)%nat. split.
  { split; cbn [es_v es_cs es_re].
    - cbn [enc_loop]. rewrite E. done.
    - rewrite Erv. exact Hp. }
  split; [|split; [lia|done]]. constructor; cbn [es_v es_p]; [by apply Hcod| | |lia]; rewrite Erv; [|done].
  apply kept_offset; [done|lia].
Qed.

(** ** The end of a block *)

(** Nothing is read ahead: the finder is at [pos], and all is coded when it has no more. *)
Lemma place_at_pos pos s : between pos s -> additionalOffset (pf (es_p s)) = 0 ->
  (getNumAvailableBytes (p_iw (es_p s)) = 0 <-> pos = length data).
Proof.
  intros [Hc [_ _ _ _ (choices & pos' & rs' & Hf & Hp & Ha & Hat & Hfd)] Hr H1] H0.
  pose proof (parse_count _ _ _ _ _ _ _ (proj1 Hr) Hp) as Hcount.
  assert (0 <= found_one (es_p s)) by (unfold found_one; destruct (longestMatchFound _); lia).
  replace (Z.of_nat pos' + found_one (es_p s)) with (Z.of_nat pos) in Hat by lia.
  pose proof (place_avail bad data cl Hcl _ _ Hat) as (Hav & HaN & Hor).
  pose proof (level_bits data cl Hcl) as (_ & Hfb & _). unfold p_iw. lia.
Qed.

(** What is read ahead is still to be coded. *)
Lemma more_ahead pos s : between pos s -> additionalOffset (pf (es_p s)) <> 0 -> (pos < length data)%nat.
Proof.
  intros [Hc [_ _ _ _ (choices & pos' & rs' & Hf & Hp & Ha & Hat & Hfd)] Hr H1] H0.
  pose proof (parse_count _ _ _ _ _ _ _ (proj1 Hr) Hp) as Hcount.
  pose proof (parse_to_end data dict _ _ _ _ _ Hp (proj1 Hr) (cd_pos _ _ Hc)) as Hend.
  unfold found_one in *. destruct (longestMatchFound _); [destruct (Hfd eq_refl); lia|lia].
Qed.

(** Flushing [s] at the end of the data leads to [s']: the end marker and the coder's bytes. *)
Definition flushed (s s' : encState) : Prop :=
  exists cs re, writeEndMarker eos (e_state (es_v s)) (Z.land (u32 (e_nowPos (es_v s))) mask) (es_cs s) (es_re s)
                = Ret (cs, re) /\ re_w (es_re s') = re_w (flush re) /\ es_finished s' = es_finished s.

Lemma flush_ok s : coded (length data) s -> returns (flushed s) (enc_flush T mask eos s).
Proof.
  intros H. destruct (cd_dec _ _ H) as (v & ow & Hrel & Hdec). destruct (levels_in cl Hcl) as (Hpb & Hlc & Hlp & _).
  pose proof (end_lossless g (cl_posStateBits cl) (cl_litContextBits cl) (cl_litPosStateBits cl) dp data Hpb eq_refl H63 eos eq_refl
                (es_v s) v ow Hrel Hdec) as HL.
  destruct (HL _ (cd_coders _ _ H)) as (cs' & HP' & C). destruct (cd_budget _ _ H) as (n & Hn & He).
  destruct (C (n - 48)%nat (es_re s)) as (re' & E' & _).
  { by replace (48 + (n - 48))%nat with n by lia. }
  unfold E_stream in E'. cbn [enc_loop mbind outcome_bind] in E'.
  unfold enc_flush, posStateOf. change (posStateMask dp) with mask in E'. cbv zeta. rewrite E'. cbn [mbind outcome_bind returns].
  eapply (returns_bind (fun _ => True)); [|intros pr _; by exists cs', re'].
  case eos; [|done]. pose proof (level_bits data cl Hcl) as (_ & _ & _ & _ & Hnp).
  eapply returns_bind; [|intros t _; exact I]. apply (lenTable_encoded_ok T HT npos Hnp); [apply (ok_len _ _ _ _ HP')| |apply (po_len _ (cd_prices _ _ H))].
  pose proof (posStateOf_ok data cl Hcl (u32 (e_nowPos (es_v s)))) as Hps. fold npos mask in Hps. exact Hps.
Qed.

Lemma refill_ok size cs pr : 0 <= size <= 64 -> P cs -> prices_ok pr -> returns prices_ok (refillPrices T size cs pr).
Proof.
  intros Hs HP Hpr. unfold refillPrices. apply (returns_bind prices_ok).
  - destruct (_ <=? _); [by eapply fillDistancesPrices_ok|done].
  - intros pr' Hpr'. destruct (_ <=? _); [by eapply fillAlignPrices_ok|done].
Qed.

(** ** Blocks *)

(** What a block leaves: all is coded and flushed, or the next block goes on. *)
Definition block_done (pos : nat) (s s' : encState) : Prop :=
  exists choices pos' s1, ran pos s choices pos' s1 /\
    if es_finished s' then pos' = length data /\ flushed s1 s'
    else s1 = s' /\ (pos < pos' < length data)%nat /\ between pos' s' /\ additionalOffset (pf (es_p s')) = 0.

Lemma block_more pos s c pos1 s1 s' : ran pos s c pos1 s1 -> (pos <= pos1)%nat -> block_done pos1 s1 s' -> block_done pos s s'.
Proof.
  intros H1 Hle (cs & pos' & s2 & H2 & H3). exists (c ++ cs), pos', s2. split; [by eapply ran_trans|].
  destruct (es_finished s'); [done|]. destruct H3 as (E & Hp & H3). split; [done|]. split; [lia|done].
Qed.

Lemma refilled pos s pr fin : between pos s -> prices_ok pr ->
  between pos (mkES (es_p s) (es_v s) (es_cs s) pr (es_re s) fin).
Proof. intros [[H1 H2 H3 H4 H5 H6] Hk Hr Hs] Hpr. constructor; [constructor|..]; done. Qed.

Lemma finish_ok pos s : between pos s -> es_finished s = true -> pos = length data ->
  returns (block_done pos s) (enc_flush T mask eos s).
Proof.
  intros [H _ _ _] Hf ->. eapply returns_weaken; [by apply flush_ok|]. intros s' Hs'.
  exists [], (length data), s. split; [apply ran_nil|]. destruct Hs' as (cs & re & E1 & E2 & E3). rewrite E3, Hf. split; [done|]. by exists cs, re.
Qed.

Lemma blockLoop_ok fuel prev : forall pos s, between pos s -> es_finished s = true ->
  (pos < length data)%nat -> (length data - pos < fuel)%nat ->
  yields bad (block_done pos s) (blockLoop T cl mask slots eos fuel prev s).
Proof.
  induction fuel as [|fuel IH]; intros pos s H Hf Hlt Hfuel; [lia|]. cbn [blockLoop].
  eapply yields_bind; [by apply nextPacket_ok|]. intros s1 (c & pos1 & Hran & H1 & Hpos & Hf1). rewrite Hf in Hf1.
  destruct (Z.eqb_spec (additionalOffset (pf (es_p s1))) 0) as [E0|E0].
  2: { pose proof (more_ahead _ _ H1 E0). eapply yields_weaken; [apply (IH pos1); try done; lia|].
       intros s'. apply block_more with [c] ; [done|lia]. }
  eapply yields_bind.
  { apply returns_yields, (refill_ok slots); [done|apply (cd_coders _ _ (bt_coded _ _ H1))|apply (cd_prices _ _ (bt_coded _ _ H1))]. }
  intros pr Hpr. cbv zeta. pose proof (refilled pos1 s1 pr (es_finished s1) H1 Hpr) as H2. set (s2 := mkES _ _ _ _ _ _) in *.
  assert (Hran2 : ran pos s [c] pos1 s2) by exact Hran. pose proof (place_at_pos _ _ H2 E0) as Hav.
  destruct (Z.eqb_spec (getNumAvailableBytes (p_iw (es_p s2))) 0) as [Ea|Ea].
  { eapply yields_weaken; [apply returns_yields, (finish_ok pos1); [done|done|by apply Hav]|].
    intros s'. apply block_more with [c]; [done|lia]. }
  assert (pos1 < length data)%nat.
  { pose proof (cd_pos _ _ (bt_coded _ _ H2)). assert (pos1 <> length data) by (intros E; apply Ea, Hav, E). lia. }
  destruct (_ <=? _).
  - cbn [yields]. exists [c], pos1, (mkES (es_p s2) (es_v s2) (es_cs s2) (es_pr s2) (es_re s2) false).
    split; [exact Hran|]. cbn [es_finished]. split; [done|]. split; [lia|]. split; [|exact E0].
    by apply (refilled pos1 s2).
  - eapply yields_weaken; [apply (IH pos1); try done; lia|]. intros s'. apply block_more with [c]; [done|lia].
Qed.

(** *** The first block *)

Record fresh (s : encState) : Prop := {
  fr_vars : es_v s = evars0;
  fr_parser : exists f, es_p s = newParser f /\ at_place bad data cl 0 f /\ additionalOffset f = 0;
  fr_coded : coded 0 s
}.

Lemma fresh_avail s : fresh s -> getNumAvailableBytes (p_iw (es_p s)) = 0 <-> data = [].
Proof.
  intros [_ (f & -> & Hat & _) _]. pose proof (place_avail bad data cl Hcl _ _ Hat) as (Hav & HaN & Hor).
  pose proof (level_bits data cl Hcl) as (_ & Hfb & _). unfold p_iw. cbn [pf newParser].
  rewrite <- length_zero_iff_nil. lia.
Qed.

Lemma codeFirst_ok s : fresh s -> (0 < length data)%nat ->
  yields bad (fun s' => ran 0 s [lit_choice] 1 s' /\ between 1 s' /\ es_finished s' = es_finished s /\
                additionalOffset (pf (es_p s')) = 0) (codeFirst cl mask s).
Proof.
  intros [Hv (f & Ep & Hat & Ha) Hc] Hlt. unfold codeFirst. rewrite Ep. cbn [pf newParser].
  eapply yields_bind; [apply (readMatchDistances_spec bad data Hdata cl Hcl _ _ Hat); lia|].
  intros [lenRes f1] (Hat1 & Ha1 & _). rewrite Ha in Ha1. change (u32 (0 + 1)) with 1 in Ha1. rewrite Ha1.
  assert (Hah : ahead_at 0 (p_finder f1 (newParser f))).
  { split; [|cbn; lia]. cbn [pf p_finder]. rewrite Ha1. exact Hat1. }
  assert (Hr0 : reps_in dict 1 (repDistances evars0)).
  { pose proof (level_bits data cl Hcl) as (Hd & _). fold dict in Hd. split; [done|]. cbn. repeat (constructor; [lia|]). constructor. }
  destruct (packet_coded 0 s 1 0xFFFFFFFF [0; 0; 0; 0] Hc) as (v' & cs' & re' & E & Erv & Hcod);
    [by rewrite Hv|rewrite Hv; by apply (parse_lit data dict)|lia|].
  rewrite Hv in E |- *. pose proof E as E1. cbn [enc_packet] in E1. change ((1 =? 1) && (4294967295 =? 4294967295)) with true in E1.
  cbv iota in E1. unfold enc_literal in E1. unfold posStateOf.
  destruct (eBit fMatch _ 0 (es_cs s) (es_re s)) as [[cs1 re1]| |]; cbn [mbind outcome_bind] in *; [|done|done].
  change (i32 (0 - i32 1)) with (0 - 1). pose proof (window_byte 0 _ 0 Hah) as Hw. cbn [pf p_finder] in Hw. rewrite Ha1 in Hw.
  rewrite Hw by lia. change (Z.of_nat 0 + 0) with 0. cbn [e_nowPos evars0] in *.
  destruct (index data 0) as [b| |]; cbn [mbind outcome_bind] in *; [|done|done].
  change (negb (stateIsCharState (e_state evars0))) with false in E1. cbv iota in E1.
  destruct (eLit _ _ _ cs1 re1) as [[cs2 re2]| |]; cbn [mbind outcome_bind] in *; [|done|done].
  injection E1 as <- <- <-. cbn [yields]. split; [split|split; [|done]].
  - cbn [es_v es_cs es_re enc_loop]. rewrite Hv. unfold lit_choice. rewrite E. done.
  - cbn [es_v]. rewrite Hv. by apply parse_lit.
  - constructor; cbn [es_v es_p]; [apply (Hcod _ _ _ (cd_prices _ _ Hc))| |exact Hr0|lia].
    change (u32 (1 - 1)) with 0. constructor; cbn [optimum reps repLens optimumCurrentIndex optimumEndIndex p_offset p_finder newParser];
      [apply length_replicate|done|lia|cbn; lia|].
    exists [], 1%nat, (repDistances evars0). split; [constructor|]. split; [done|]. split; [done|]. split; [|done].
    exact Hat1.
Qed.

Lemma codeOneBlock_first fuel s : fresh s -> (length data < fuel)%nat ->
  yields bad (block_done 0 s) (codeOneBlock T cl mask slots eos fuel s).
Proof.
  intros H Hfuel. unfold codeOneBlock. cbv zeta. set (s0 := mkES _ _ _ _ _ true).
  assert (H0 : fresh s0) by (destruct H as [F1 F2 [C1 C2 C3 C4 C5 C6]]; constructor; [done|done|by constructor]).
  change (es_v s) with (es_v s0). rewrite (fr_vars _ H0). change (e_nowPos evars0 =? 0) with true. cbv iota.
  pose proof (fresh_avail _ H0) as Hav. destruct (Z.eqb_spec (getNumAvailableBytes (p_iw (es_p s0))) 0) as [Ea|Ea].
  - assert (El : length data = 0%nat) by (by rewrite (proj1 Hav Ea)). apply returns_yields.
    eapply returns_weaken; [apply flush_ok; rewrite El; apply (fr_coded _ H0)|].
    intros s' (cs & re & E1 & E2 & E3). exists [], (length data), s0. rewrite E3. cbn [es_finished s0].
    split; [rewrite El; apply (ran_nil 0 s0)|]. split; [done|]. by exists cs, re.
  - assert (Hnz : (0 < length data)%nat).
    { apply Nat.neq_0_lt_0. intros El. apply Ea, Hav, length_zero_iff_nil, El. }
    eapply yields_bind; [by apply codeFirst_ok|]. intros s1 (Hran & H1 & Hf1 & E0).
    pose proof (place_at_pos _ _ H1 E0) as Hav1. cbn [es_finished s0] in Hf1.
    assert (Hran1 : ran 0 s [lit_choice] 1 s1) by exact Hran.
    destruct (Z.eqb_spec (getNumAvailableBytes (p_iw (es_p s1))) 0) as [Ea1|Ea1].
    + eapply yields_weaken; [apply returns_yields, (finish_ok 1); [done|done|by apply Hav1]|].
      intros s'. apply block_more with [lit_choice]; [done|lia].
    + assert (1 <> length data)%nat by (intros E; apply Ea1, Hav1, E).
      eapply yields_weaken; [apply (blockLoop_ok _ _ 1); try done; lia|]. intros s'. apply block_more with [lit_choice]; [done|lia].
Qed.

(** *** The other blocks *)

Lemma codeOneBlock_next fuel pos s : between pos s -> additionalOffset (pf (es_p s)) = 0 -> (pos < length data)%nat ->
  (length data < fuel)%nat -> yields bad (block_done pos s) (codeOneBlock T cl mask slots eos fuel s).
Proof.
  intros H E0 Hlt Hfuel. unfold codeOneBlock. cbv zeta.
  pose proof (refilled pos s _ true H (cd_prices _ _ (bt_coded _ _ H))) as H0. set (s0 := mkES _ _ _ _ _ true) in *.
  change (es_v s) with (es_v s0). pose proof (cd_now _ _ (bt_coded _ _ H0)) as Hn. pose proof (bt_started _ _ H0).
  destruct (Z.eqb_spec (e_nowPos (es_v s0)) 0); [lia|]. pose proof (place_at_pos _ _ H0 E0) as Hav.
  destruct (Z.eqb_spec (getNumAvailableBytes (p_iw (es_p s0))) 0) as [Ea|Ea].
  { apply Hav in Ea. lia. }
  apply (blockLoop_ok _ _ pos s0); try done. lia.
Qed.

(** ** doEncode *)

Definition all_coded (pos : nat) (s s' : encState) : Prop :=
  exists choices s1, ran pos s choices (length data) s1 /\ flushed s1 s'.

Lemma doEncode_next blockFuel : (length data < blockFuel)%nat -> forall fuel pos s, between pos s ->
  additionalOffset (pf (es_p s)) = 0 -> (pos < length data)%nat -> (length data - pos < fuel)%nat ->
  yields bad (all_coded pos s) (run_doEncode T cl mask slots eos fuel blockFuel s).
Proof.
  intros Hb. induction fuel as [|fuel IH]; intros pos s H E0 Hlt Hfuel; [lia|]. cbn [run_doEncode].
  eapply yields_bind; [by apply codeOneBlock_next|]. intros s' (cs & pos' & s1 & Hran & Hs').
  destruct (es_finished s').
  - destruct Hs' as [-> Hfl]. cbn [yields]. by exists cs, s1.
  - destruct Hs' as (-> & Hpos & H' & E'). eapply yields_weaken; [apply (IH pos'); try done; lia|].
    intros s2 (cs2 & s3 & Hran2 & Hfl). exists (cs ++ cs2), s3. split; [by eapply ran_trans|done].
Qed.

Lemma doEncode_ok fuel s : fresh s -> (length data < fuel)%nat ->
  yields bad (all_coded 0 s) (run_doEncode T cl mask slots eos fuel fuel s).
Proof.
  intros H Hfuel. destruct fuel as [|fuel]; [lia|]. cbn [run_doEncode].
  eapply yields_bind; [by apply codeOneBlock_first|]. intros s' (cs & pos' & s1 & Hran & Hs').
  destruct (es_finished s').
  - destruct Hs' as [-> Hfl]. cbn [yields]. by exists cs, s1.
  - destruct Hs' as (-> & Hpos & H' & E'). eapply yields_weaken; [apply (doEncode_next (S fuel) Hfuel _ pos'); try done; lia|].
    intros s2 (cs2 & s3 & Hran2 & Hfl). exists (cs ++ cs2), s3. split; [by eapply ran_trans|done].
Qed.
End run.

(** ** The whole run *)

(** The first packet of a parse is a literal: there is nothing to copy. *)
Lemma parse_first data dict choices rs rs' : length rs = 4%nat ->
  parse_to data dict 0 rs choices = Some (length data, rs') -> choices = all_choices data (tail choices).
Proof.
  intros Hl H. unfold all_choices. pose proof (parse_count _ _ _ _ _ _ _ Hl H) as Hc.
  destruct (Nat.eqb_spec (length data) 0) as [E|E].
  { destruct choices; [done|cbn in Hc; lia]. }
  destruct choices as [|[len back] choices]; [cbn in H; injection H as H _; lia|]. cbn [tail].
  cbn [parse_to] in H. destruct (Z.eqb_spec len 1) as [->|], (Z.eqb_spec back 0xFFFFFFFF) as [->|]; cbn [andb] in H; [done|..];
    (destruct (match_ok _ _ _ _ _ _) eqn:Em; [|done]); exfalso; clear H Hc; unfold match_ok in Em;
    rewrite !andb_true_iff in Em; destruct Em as [_ Em]; (destruct (new_reps _ rs); [done|]); zbool; lia.
Qed.

Lemma newFinder_offset r cl f : newFinder r cl = Ret f -> additionalOffset f = 0.
Proof.
  unfold newFinder. destruct (newLzBinTree _ _ _ _ _ _); cbn [mbind outcome_bind]; [|done|done].
  intros H. by injection H as <-.
Qed.

Lemma newPrices_ok T cl cs : tables_ok T -> checkValues cl = true ->
  coders_ok (2 ^ cl_posStateBits cl) (cl_litContextBits cl) (cl_litPosStateBits cl) cs ->
  returns prices_ok (newPrices T cl (u32 (cl_dictSize cl * 2)) cs).
Proof.
  intros HT Hcl Hcs. pose proof (level_bits [] cl Hcl) as (Hd & Hf & _ & _ & Hnp).
  destruct (levels_in cl Hcl) as (Hpb & _ & _ & Hs). unfold newPrices.
  change kMatchMinLen with 2. rewrite (Z.shiftl_1_l (cl_posStateBits cl)), (wrap_id 32 (2 ^ cl_posStateBits cl)), (wrap_id 32 (fastBytes cl + 1)), (wrap_id 32 (fastBytes cl + 1 - 2)) by lia.
  eapply returns_bind; [apply (newLenTable_ok T HT _ Hnp _ _ (ok_len _ _ _ _ Hcs)); lia|]. intros lt Hlt.
  eapply returns_bind; [apply (newLenTable_ok T HT _ Hnp _ _ (ok_repLen _ _ _ _ Hcs)); lia|]. intros rt Hrt.
  eapply returns_bind; [eapply fillDistancesPrices_ok; [exact HT|exact Hcs|exact Hs|by constructor]|].
  intros pr Hpr. by eapply fillAlignPrices_ok.
Qed.

(** A run over any Reader writes what LzmaEncoder.encoder writes for choices that parse the
    Reader's content, or reports the Reader's error. *)
Lemma level_run fuel r size cl : checkValues cl = true -> bytes_ok (content r) ->
  size = -1 \/ size = Z.of_nat (length (content r)) -> 48 * (Z.of_nat (length (content r)) + 2) + 6 < 2 ^ 32 ->
  (length (content r) < fuel)%nat ->
  yields (fun e => Failed e ∈ r)
    (fun out => exists choices, (length choices <= length (content r))%nat /\
       parse_ok (content r) (2 ^ cl_dictSize cl) 0 [0; 0; 0; 0] (all_choices (content r) choices) = true /\
       encoder cl size (content r) choices = Ret out) (encode_level fuel r size cl).
Proof.
  intros Hcl Hdata Hsize Hbudget Hfuel. set (data := content r) in *. unfold encode_level, encoder.
  destruct initProbPrices_ok as (pp & -> & Hpp). destruct initGFastPos_ok as (g & -> & Hg). cbn [mbind outcome_bind].
  rewrite Hcl. cbn [negb]. destruct (Z.ltb_spec size (-1)); [lia|]. pose proof (level_bits data cl Hcl) as (Hd & Hf & Hlc & Hlp & _).
  destruct (levels_in cl Hcl) as (Hpb & _ & _ & Hs).
  eapply yields_bind.
  { apply (yields_and _ (at_place (fun e => Failed e ∈ r) data cl 0) (fun f => additionalOffset f = 0));
      [by apply newFinder_spec|apply newFinder_offset]. }
  intros f [Hat Ha]. rewrite Z.shiftl_1_l, (wrap_id 32 (2 ^ cl_dictSize cl)) by lia.
  set (props := mkProps _ _ _ _). destruct (newCoders_ok props) as (cs & -> & Hcs); [cbn; lia|cbn; lia|cbn; lia|]. cbn [mbind outcome_bind].
  assert (HT : tables_ok (mkTables g pp)) by done.
  eapply yields_bind; [apply returns_yields, (newPrices_ok _ cl cs HT Hcl Hcs)|]. intros pr Hpr.
  rewrite mask_pow by lia. set (s := mkES _ _ _ _ _ _).
  assert (Hfr : fresh (fun e => Failed e ∈ r) data cl (size =? -1) s).
  { constructor; [done|by exists f|]. constructor; cbn [es_v es_cs es_pr es_re s]; try done; [lia| |].
    - exists vars0, (newLzOutWindow (2 ^ cl_dictSize cl)). split; [by constructor|]. apply dec_inv_new; cbn; lia.
    - exists (48 * length data + 48)%nat. split; [lia|]. apply newRangeEncoder_ok. lia. }
  eapply yields_bind.
  { apply (doEncode_ok (fun e => Failed e ∈ r) data Hdata cl Hcl _ HT (size =? -1)); [lia|exact Hs|exact Hfr|exact Hfuel]. }
  intros s' (choices & s1 & [Hl Hp] & cs' & re' & Em & Ew & _). cbn [yields].
  pose proof (parse_first data _ choices [0; 0; 0; 0] _ eq_refl Hp) as Ec. pose proof (parse_count _ _ choices _ [0;0;0;0] _ _ eq_refl Hp) as Hcnt.
  exists (tail choices). split; [clear - Hcnt; destruct choices; cbn [tail length] in *; lia|]. rewrite <- Ec. split; [by eapply parse_to_all|].
  pose proof (doEncode_eq g (mkP (2 ^ cl_posStateBits cl - 1) (2 ^ cl_dictSize cl) 0) data (tail choices) (size =? -1) cs newRangeEncoder) as Ed.
  cbn [posStateMask] in Ed. rewrite Ed, <- Ec. unfold E_stream. change (gFastPos _) with g in Hl. cbn [es_v es_cs es_re s] in Hl.
  cbn [posStateMask]. rewrite Hl. cbn [mbind outcome_bind]. rewrite Em. cbn [mbind outcome_bind]. by rewrite Ew.
Qed.

Lemma level_ok level : 1 <= level <= 9 -> exists cl, levels !! Z.to_nat level = Some cl /\ checkValues cl = true.
Proof.
  intros H. assert (level = 1 \/ level = 2 \/ level = 3 \/ level = 4 \/ level = 5 \/ level = 6 \/ level = 7 \/ level = 8 \/ level = 9)
    as [->|[->|[->|[->|[->|[->|[->|[->| ->]]]]]]]] by lia; eexists; split; reflexivity.
Qed.

Lemma level_bad_size fuel r size cl : checkValues cl = true -> size < -1 -> encode_level fuel r size cl = Fail argumentValueError.
Proof.
  intros Hcl Hs. unfold encode_level. destruct initProbPrices_ok as (pp & -> & _). destruct initGFastPos_ok as (g & -> & _).
  cbn [mbind outcome_bind]. rewrite Hcl. cbn [negb]. destruct (Z.ltb_spec size (-1)); [done|lia].
Qed.

(** ** Properties *)

(** C1: LZMA compression as a whole: over any Reader, whatever pieces it hands out, at
    every level, with the size given or -1, the encoder - match finder, optimal parser,
    price tables and range coder together - never panics and always ends; what it writes
    is decoded to exactly the Reader's content, with what follows left unread; otherwise it
    reports the Reader's error, or argumentValueError for a level or size out of range.
    [fuel] bounds the turns of its loops: one more than the bytes are enough. The budget is
    that of the round trip of the packet code. *)
Theorem compress_roundtrip fuel dfuel r size level rest :
  bytes_ok (content r) -> bytes_ok rest -> size <= -1 \/ size = Z.of_nat (length (content r)) ->
  48 * (Z.of_nat (length (content r)) + 2) + 6 < 2 ^ 32 ->
  (length (content r) < fuel)%nat -> (length (content r) + 2 <= dfuel)%nat ->
  match run_encoder fuel r size level with
  | Ret out => bytes_ok out /\ decoder dfuel (out ++ rest) = Some (Ret (content r, rest))
  | Fail e => Failed e ∈ r \/ (e = argumentValueError /\ (level < 1 \/ 9 < level \/ size < -1))
  | Panic => False
  end.
Proof.
  intros Hdata Hrest Hsize Hbudget Hfuel Hdfuel. unfold run_encoder.
  destruct (Z.ltb_spec level 1), (Z.ltb_spec 9 level); cbn [orb]; try (right; split; [done|lia]).
  destruct (level_ok level ltac:(lia)) as (cl & -> & Hcl).
  destruct (Z.lt_ge_cases size (-1)) as [Hs|Hs].
  { rewrite (level_bad_size fuel r size cl Hcl Hs). right. split; [reflexivity|]. right. by right. }
  assert (Hsz : size = -1 \/ size = Z.of_nat (length (content r))) by lia.
  pose proof (level_run fuel r size cl Hcl Hdata Hsz Hbudget Hfuel) as Hrun.
  destruct (encode_level fuel r size cl) as [out|e|]; cbn [yields] in Hrun; [|by left|done].
  destruct Hrun as (choices & Hn & Hok & He).
  destruct (stream_roundtrip cl size (content r) choices rest Hcl Hdata Hrest) as (out' & E & Hb & Hdec);
    [lia|exact Hsz|exact Hok|lia|].
  rewrite He in E. injection E as <-. split; [exact Hb|]. apply Hdec. lia.
Qed.

(** C3: the encoder refines its packet code: a run over a Reader, with any settings the
    checks accept, writes exactly what the packet code writes from the Reader's content
    for some list of choices, the parser's, that is a valid parse of it. *)
Theorem encoder_refines fuel r size cl :
  checkValues cl = true -> bytes_ok (content r) -> size = -1 \/ size = Z.of_nat (length (content r)) ->
  48 * (Z.of_nat (length (content r)) + 2) + 6 < 2 ^ 32 -> (length (content r) < fuel)%nat ->
  match encode_level fuel r size cl with
  | Ret out => exists choices, encoder cl size (content r) choices = Ret out /\
      parse_ok (content r) (2 ^ cl_dictSize cl) 0 [0; 0; 0; 0] (all_choices (content r) choices) = true
  | Fail e => Failed e ∈ r
  | Panic => False
  end.
Proof.
  intros Hcl Hdata Hsize Hbudget Hfuel. pose proof (level_run fuel r size cl Hcl Hdata Hsize Hbudget Hfuel) as H.
  destruct (encode_level fuel r size cl) as [out|e|]; cbn [yields] in H; [|done|done].
  destruct H as (choices & _ & Hok & He). exists choices. exact (conj He Hok).
Qed.

(** ** Concrete runs *)

Module Samples.
(** "hello world\n", the vector of lzma_data_test.go, but for the dictionary of 2^12
    bytes in the header. *)
Definition hello : list read_event := [Got [104; 101; 108; 108; 111]; Got []; Got [32; 119; 111; 114; 108; 100; 10]].

Example run_hello_world :
  encode_level 13 hello 12 (mkCL 12 64 3 0 2 4) =
  Ret [0x5d; 0x00; 0x10; 0x00; 0x00; 0x0c; 0x00; 0x00; 0x00; 0x00; 0x00; 0x00; 0x00;
       0x00; 0x34; 0x19; 0x49; 0xee; 0x8d; 0xe9; 0x17; 0x89; 0x3a; 0x33; 0x5f; 0xfc;
       0xac; 0xf7; 0x20; 0x00].
Proof. vm_compute. reflexivity. Qed.

Example compress_roundtrip_witness :
  match run_encoder 13 hello (-1) 6 with
  | Ret out => bytes_ok out /\ decoder 14 (out ++ [7]) = Some (Ret (content hello, [7]))
  | Fail e => Failed e ∈ hello \/ (e = argumentValueError /\ (6 < 1 \/ 9 < 6 \/ -1 < -1))
  | Panic => False
  end.
Proof.
  apply (compress_roundtrip 13 14 hello (-1) 6 [7]).
  - repeat (constructor; [unfold byte_ok; lia|]). constructor.
  - repeat (constructor; [unfold byte_ok; lia|]). constructor.
  - lia.
  - reflexivity.
  - cbn. lia.
  - cbn. lia.
Defined.

Example encoder_refines_witness :
  match encode_level 13 hello 12 (mkCL 12 64 3 0 2 4) with
  | Ret out => exists choices, encoder (mkCL 12 64 3 0 2 4) 12 (content hello) choices = Ret out /\
      parse_ok (content hello) (2 ^ 12) 0 [0; 0; 0; 0] (all_choices (content hello) choices) = true
  | Fail e => Failed e ∈ hello
  | Panic => False
  end.
Proof.
  apply (encoder_refines 13 hello 12 (mkCL 12 64 3 0 2 4)).
  - reflexivity.
  - repeat (constructor; [unfold byte_ok; lia|]). constructor.
  - right. reflexivity.
  - reflexivity.
  - cbn. lia.
Defined.
End Samples.
