(* ===== verification/BoltFreelist.v ===== *)
(** bolt freelist.go and the page-id lists of page.go: allocation of contiguous pages,
    pages freed by transactions until their readers are gone, and the freelist page.

    [ids] are the pages free for allocation, [pending] the pages freed by each
    transaction, [cache] all of them.  A freelist page is its header and the array of
    page ids the code casts its body to. *)

From Stdlib Require Import ZArith Lia.
From stdpp Require Import base numbers option list sorting gmap.
From S2P Require Import Prelude GoSort.
#[local] Open Scope Z_scope.

(** ** page.go: page-id lists *)

(** The loop of mergepgids: lead is the list that starts lower.  Each round moves the
    prefix of lead that is not above follow[0], so the two lengths together are fuel
    enough ([mergepgids_loop_spec]). *)
Fixpoint mergepgids_loop (fuel : nat) (merged lead follow : list Z) : outcome unit (list Z) :=
  match lead with
  | [] => Ret (merged ++ follow)
  | _ =>
      match fuel, follow with
      | S fuel, f0 :: _ =>
          let n := Search (length lead)
                     (fun i => match lead !! i with Some x => f0 <? x | None => true end) in
          let merged := merged ++ take n lead in
          if (length lead <=? n)%nat then Ret (merged ++ follow)
          else mergepgids_loop fuel merged follow (drop n lead)
      | _, _ => Panic
      end
  end.

(** mergepgids into [dst]: the contents of dst afterwards, or the panic of a short dst. *)
Definition mergepgids (dst a b : list Z) : outcome unit (list Z) :=
  if (length dst <? length a + length b)%nat then Panic
  else
    match a, b with
    | [], _ => Ret (b ++ drop (length b) dst)
    | _, [] => Ret (a ++ drop (length a) dst)
    | a0 :: _, b0 :: _ =>
        let '(lead, follow) := if b0 <? a0 then (b, a) else (a, b) in
        m ← mergepgids_loop (length a + length b) [] lead follow;
        Ret (m ++ drop (length m) dst)
    end.

Definition merge (a b : list Z) : outcome unit (list Z) :=
  match a, b with
  | [], _ => Ret b
  | _, [] => Ret a
  | _, _ => mergepgids (replicate (length a + length b) 0) a b
  end.

(** ** freelist.go *)

Record freelist := mkFL {
  ids : list Z;
  pending : gmap Z (list Z);
  cache : gset Z
}.

Definition newFreelist : freelist := mkFL [] ∅ ∅.

Definition pageHeaderSize : Z := 16.
Definition freelistPageFlag : Z := 0x10.

(** Iteration over the map visits its lists in some order; [map_to_list] is one. *)
Definition pending_lists (f : freelist) : list (list Z) := (map_to_list (pending f)).*2.

Definition free_count (f : freelist) : nat := length (ids f).
Definition pending_count (f : freelist) : nat := sum_list (length <$> pending_lists f).
Definition count (f : freelist) : nat := (free_count f + pending_count f)%nat.

Definition size (f : freelist) : Z :=
  let n := Z.of_nat (count f) in
  let n := if 0xFFFF <=? n then n + 1 else n in
  pageHeaderSize + 8 * n.

Definition copyall (dst : list Z) (f : freelist) : outcome unit (list Z) :=
  mergepgids dst (ids f) (sortZ (concat (pending_lists f))).

(** The loop of allocate: the index and first page of the block found. *)
Fixpoint allocate_loop (n : Z) (rest : list Z) (i : nat) (initial previd : Z)
    : outcome unit (option (nat * Z)) :=
  match rest with
  | [] => Ret None
  | id :: rest =>
      if id <=? 1 then Panic
      else
        let initial := if (previd =? 0) || negb (u64 (id - previd) =? 1) then id else initial in
        if u64 (u64 (id - initial) + 1) =? u64 n then Ret (Some (i, initial))
        else allocate_loop n rest (S i) initial id
  end.

(** delete(f.cache, initial+i) for i below n. *)
Fixpoint uncache (n : nat) (i initial : Z) (c : gset Z) : gset Z :=
  match n with
  | O => c
  | S n' => uncache n' (i + 1) initial (c ∖ {[u64 (initial + i)]})
  end.

Definition allocate (n : Z) (f : freelist) : outcome unit (Z * freelist) :=
  if (length (ids f) =? 0)%nat then Ret (0, f)
  else
    r ← allocate_loop n (ids f) 0 0 0;
    match r with
    | None => Ret (0, f)
    | Some (i, initial) =>
        let ids' := if Z.of_nat i + 1 =? n then drop (i + 1) (ids f)
                    else take (i - Z.to_nat n + 1) (ids f) ++ drop (i + 1) (ids f) in
        Ret (initial, mkFL ids' (pending f) (uncache (Z.to_nat n) 0 initial (cache f)))
    end.

(** The loop of free over the page and its overflow pages, [n] left. *)
Fixpoint free_loop (n : nat) (id : Z) (ids : list Z) (c : gset Z)
    : outcome unit (list Z * gset Z) :=
  match n with
  | O => Ret (ids, c)
  | S n' => if decide (id ∈ c) then Panic
            else free_loop n' (u64 (id + 1)) (ids ++ [id]) ({[id]} ∪ c)
  end.

(** A page's id and overflow; the loop runs overflow + 1 times as long as
    id + overflow is below the last page id. *)
Definition free (txid id overflow : Z) (f : freelist) : outcome unit freelist :=
  if id <=? 1 then Panic
  else
    '(l, c) ← free_loop (S (Z.to_nat overflow)) id (default [] (pending f !! txid)) (cache f);
    Ret (mkFL (ids f) (<[txid := l]> (pending f)) c).

Definition release (txid : Z) (f : freelist) : outcome unit freelist :=
  let old := filter (fun kv => kv.1 <= txid) (pending f) in
  let m := concat (map_to_list old).*2 in
  ids' ← merge (ids f) (sortZ m);
  Ret (mkFL ids' (filter (fun kv => ~ kv.1 <= txid) (pending f)) (cache f)).

Definition rollback (txid : Z) (f : freelist) : freelist :=
  mkFL (ids f) (delete txid (pending f))
       (cache f ∖ list_to_set (default [] (pending f !! txid))).

Definition freed (id : Z) (f : freelist) : bool := bool_decide (id ∈ cache f).

Definition reindex (f : freelist) : freelist :=
  mkFL (ids f) (pending f) (list_to_set (ids f) ∪ list_to_set (concat (pending_lists f))).

(** A freelist page: flags, count, and the body as an array of page ids. *)
Record flpage := mkPage { p_flags : Z; p_count : Z; p_ids : list Z }.

(** The slice expression [idx:count] on the array: reading past the array panics. *)
Definition slice_ids (idx count : nat) (l : list Z) : outcome unit (list Z) :=
  if (count <? idx)%nat || (length l <? count)%nat then Panic else Ret (slice idx count l).

Definition read (p : flpage) (f : freelist) : outcome unit freelist :=
  '(idx, cnt) ←
    (if p_count p =? 0xFFFF then
       match p_ids p with c :: _ => Ret (1%nat, Z.to_nat c) | [] => Panic end
     else Ret (0%nat, Z.to_nat (p_count p)));
  ids' ← (if (cnt =? 0)%nat then Ret [] else l ← slice_ids idx cnt (p_ids p); Ret (sortZ l));
  Ret (reindex (mkFL ids' (pending f) (cache f))).

Definition write (p : flpage) (f : freelist) : outcome unit flpage :=
  let flags := Z.lor (p_flags p) freelistPageFlag in
  let lenids := Z.of_nat (count f) in
  if lenids =? 0 then Ret (mkPage flags (u16 lenids) (p_ids p))
  else if lenids <? 0xFFFF then
    body ← copyall (p_ids p) f; Ret (mkPage flags (u16 lenids) body)
  else
    match p_ids p with
    | [] => Panic
    | _ :: tl => body ← copyall tl f; Ret (mkPage flags 0xFFFF (lenids :: body))
    end.

Definition reload (p : flpage) (f : freelist) : outcome unit freelist :=
  f ← read p f;
  let pcache : gset Z := list_to_set (concat (pending_lists f)) in
  Ret (reindex (mkFL (filter (fun id => id ∉ pcache) (ids f)) (pending f) (cache f))).

(** ** Merging *)

Lemma take_drop_le (l : list Z) n x y : StronglySorted Z.le l ->
  x ∈ take n l -> y ∈ drop n l -> x <= y.
Proof.
  intros Hs. rewrite <- (take_drop n l) in Hs. by apply StronglySorted_app_1_elem_of.
Qed.

(** Where the head of the following list falls in the leading one: all before it is at most the head. *)
Lemma lead_split l0 lead' f0 : let lead := l0 :: lead' in
  StronglySorted Z.le lead -> l0 <= f0 ->
  let P := fun i => match lead !! i with Some x => f0 <? x | None => true end in
  let n := Search (length lead) P in
  (1 <= n)%nat /\ (forall x, x ∈ take n lead -> x <= f0) /\ (forall y, (n < length lead)%nat -> lead !! n = Some y -> f0 < y).
Proof.
  intros lead Hl Hhd P n.
  assert (Hm : monotone (length lead) P).
  { intros i j Hij. unfold P. destruct (lead !! i) as [x|] eqn:Ei; [|intros _].
    - destruct (lead !! j) as [y|] eqn:Ej; [|done].
      pose proof (Sorted_lookup_le lead i j x y Hl ltac:(lia) Ei Ej). intros ?. zbool.
      destruct (Z.ltb_spec f0 y); [done|lia].
    - apply lookup_ge_None in Ei. lia. }
  destruct (Search_spec (length lead) P Hm) as (Hn & Hlo & Hhi). fold n in Hn, Hlo, Hhi. split_and!.
  - destruct n; [|lia]. specialize (Hhi 0%nat). unfold P, lead in Hhi. cbn in Hhi.
    assert ((f0 <? l0) = true) by (apply Hhi; lia). zbool. lia.
  - intros x Hx. apply list_elem_of_lookup in Hx as [i Hi]. apply lookup_take_Some in Hi as [Hi Hin].
    specialize (Hlo i Hin). unfold P in Hlo. rewrite Hi in Hlo. zbool. lia.
  - intros y Hlt Hy. assert (Ht : P n = true) by (apply Hhi; lia). unfold P in Ht. rewrite Hy in Ht. zbool. lia.
Qed.

Lemma mergepgids_loop_spec fuel : forall merged lead follow,
  StronglySorted Z.le lead -> StronglySorted Z.le follow ->
  (length lead + length follow <= fuel)%nat -> follow <> [] ->
  (forall x y, head lead = Some x -> head follow = Some y -> x <= y) ->
  mergepgids_loop fuel merged lead follow = Ret (merged ++ sortZ (lead ++ follow)).
Proof.
  induction fuel as [|fuel IH]; intros merged lead follow Hl Hf Hfuel Hne Hhd.
  { destruct follow; [done|cbn in Hfuel; lia]. }
  destruct lead as [|l0 lead']; cbn [mergepgids_loop].
  { cbn [app]. by rewrite sortZ_id. }
  destruct follow as [|f0 follow']; [done|].
  set (lead := l0 :: lead') in *. set (follow := f0 :: follow') in *.
  destruct (lead_split l0 lead' f0 Hl (Hhd l0 f0 eq_refl eq_refl)) as (Hn1 & Hbelow & Habove). fold lead in Hn1, Hbelow, Habove.
  set (n := Search (length lead) _) in *.
  assert (Hf0 : forall y, y ∈ follow -> f0 <= y).
  { intros y Hy. unfold follow in *. apply elem_of_cons in Hy as [->|Hy]; [lia|].
    apply StronglySorted_cons in Hf as [Hall _]. rewrite Forall_forall in Hall. by apply Hall. }
  destruct (Nat.leb_spec (length lead) n).
  - rewrite take_ge by lia. rewrite <- app_assoc. f_equal. f_equal. symmetry. apply sortZ_id.
    apply StronglySorted_app. split_and!; auto. intros x y Hx Hy.
    rewrite take_ge in Hbelow by lia. specialize (Hbelow x Hx). specialize (Hf0 y Hy). lia.
  - rewrite IH.
    + rewrite <- app_assoc. f_equal. f_equal. apply sorted_unique.
      * apply StronglySorted_app. split_and!; auto using sortZ_sorted.
        -- intros x y Hx Hy. rewrite sortZ_perm in Hy. apply elem_of_app in Hy as [Hy|Hy].
           ++ specialize (Hbelow x Hx). specialize (Hf0 y Hy). lia.
           ++ by apply (take_drop_le lead n).
        -- rewrite <- (take_drop n lead) in Hl. by apply StronglySorted_app_1_l in Hl.
      * apply sortZ_sorted.
      * rewrite !sortZ_perm. rewrite (Permutation_app_comm follow), app_assoc, take_drop. done.
    + done.
    + rewrite <- (take_drop n lead) in Hl. by apply StronglySorted_app_1_r in Hl.
    + rewrite length_drop. lia.
    + intros E. assert (E' : length (drop n lead) = 0%nat) by (by rewrite E). rewrite length_drop in E'. lia.
    + intros x y Hx Hy. unfold follow in Hx. cbn in Hx. simplify_eq.
      rewrite head_lookup, lookup_drop, Nat.add_0_r in Hy. specialize (Habove y ltac:(lia) Hy). lia.
Qed.

(** mergepgids writes the sorted merge at the start of dst. *)
Lemma mergepgids_spec dst a b :
  StronglySorted Z.le a -> StronglySorted Z.le b -> (length a + length b <= length dst)%nat ->
  mergepgids dst a b = Ret (sortZ (a ++ b) ++ drop (length a + length b) dst).
Proof.
  intros Ha Hb Hlen. unfold mergepgids.
  destruct (Nat.ltb_spec (length dst) (length a + length b)); [lia|].
  destruct a as [|a0 a']; [cbn [app length Nat.add]; by rewrite sortZ_id|].
  destruct b as [|b0 b']; [rewrite app_nil_r, sortZ_id, Nat.add_0_r by done; done|].
  set (a := a0 :: a') in *. set (b := b0 :: b') in *.
  assert (Hlead : forall lead follow, (if b0 <? a0 then (b, a) else (a, b)) = (lead, follow) ->
    mergepgids_loop (length a + length b) [] lead follow = Ret (sortZ (a ++ b))).
  { intros lead follow E. destruct (Z.ltb_spec b0 a0); injection E as <- <-.
    - rewrite mergepgids_loop_spec; auto; try lia; try done.
      + cbn [app]. f_equal. apply sortZ_ext. apply Permutation_app_comm.
      + intros x y Hx Hy. cbn in Hx, Hy. simplify_eq. lia.
    - rewrite mergepgids_loop_spec; auto; try lia; try done.
      intros x y Hx Hy. cbn in Hx, Hy. simplify_eq. lia. }
  destruct (if b0 <? a0 then (b, a) else (a, b)) as [lead follow]. rewrite (Hlead _ _ eq_refl).
  cbn [mbind outcome_bind]. do 3 f_equal. rewrite (Permutation_length (sortZ_perm _)).
  apply length_app.
Qed.

Lemma merge_spec a b : StronglySorted Z.le a -> StronglySorted Z.le b ->
  merge a b = Ret (sortZ (a ++ b)).
Proof.
  intros Ha Hb. unfold merge.
  destruct a as [|a0 a']; [cbn [app]; by rewrite sortZ_id|].
  destruct b as [|b0 b']; [by rewrite app_nil_r, sortZ_id|].
  rewrite mergepgids_spec; [|done|done|by rewrite length_replicate].
  rewrite drop_ge, app_nil_r; [done|]. by rewrite length_replicate.
Qed.

(** ** allocate: first fit *)

Lemma seqZ_1 m : seqZ m 1 = [m].
Proof. by rewrite seqZ_cons, (seqZ_nil _ (Z.pred 1)) by lia. Qed.

(** [n] pages from [p] on are all in [l]. *)
Definition block (l : list Z) (p n : Z) : Prop := forall k, 0 <= k < n -> p + k ∈ l.

(** The pages seen so far: a part that does not reach the current run, then the run. *)
Definition run_state (done : list Z) (initial previd n : Z) : Prop :=
  (done = [] /\ previd = 0) \/
  exists pre k, done = pre ++ seqZ initial k /\ 1 <= k < n /\ previd = initial + k - 1 /\
    (forall x, x ∈ pre -> x < initial - 1).

Lemma run_extend done initial previd n id :
  run_state done initial previd n -> 1 < id < 2 ^ 64 -> 1 <= n ->
  (forall x, x ∈ done -> 1 < x < id) ->
  let initial' := if (previd =? 0) || negb (u64 (id - previd) =? 1) then id else initial in
  exists pre k, done ++ [id] = pre ++ seqZ initial' k /\ 1 <= k <= n /\
    id = initial' + k - 1 /\ 1 < initial' /\ (forall x, x ∈ pre -> x < initial' - 1).
Proof.
  intros [[-> ->]|(pre & k & -> & Hk & -> & Hpre)] Hid Hn Hdone initial'.
  { exists [], 1. subst initial'. cbn [Z.eqb orb app]. rewrite seqZ_1.
    split_and!; try lia; [done|]. intros x Hx. by apply elem_of_nil in Hx. }
  assert (Hprev : 1 < initial + k - 1 < id).
  { apply Hdone. apply elem_of_app. right. apply elem_of_seqZ. lia. }
  assert (Hini : 1 < initial).
  { apply (Hdone initial). apply elem_of_app. right. apply elem_of_seqZ. lia. }
  subst initial'. rewrite wrap_id by lia.
  destruct (Z.eqb_spec (initial + k - 1) 0); [lia|]. cbn [orb].
  destruct (Z.eqb_spec (id - (initial + k - 1)) 1); cbn [negb].
  - exists pre, (k + 1). rewrite seqZ_app by lia.
    replace (initial + k) with id by lia. rewrite seqZ_1.
    rewrite <- app_assoc. split_and!; auto; lia.
  - exists (pre ++ seqZ initial k), 1. rewrite seqZ_1.
    split_and!; try lia; [done|]. intros x Hx. apply elem_of_app in Hx as [Hx|Hx].
    + specialize (Hpre x Hx). lia.
    + apply elem_of_seqZ in Hx. lia.
Qed.

(** A block that ends at the new page lies inside the current run. *)
Lemma no_block_extend pre initial k n id done p :
  done ++ [id] = pre ++ seqZ initial k -> 1 <= k < n -> id = initial + k - 1 ->
  (forall x, x ∈ pre -> x < initial - 1) -> (forall x, x ∈ done -> x < id) ->
  (forall p, ~ block done p n) -> ~ block (done ++ [id]) p n.
Proof.
  intros E Hk Hid Hpre Hlt Hno Hb.
  destruct (decide (p + n - 1 = id)) as [Heq|Hne].
  - assert (Hin : initial - 1 ∈ done ++ [id]).
    { replace (initial - 1) with (p + (initial - 1 - p)) by lia. apply Hb. lia. }
    rewrite E in Hin. apply elem_of_app in Hin as [Hin|Hin].
    + specialize (Hpre _ Hin). lia.
    + apply elem_of_seqZ in Hin. lia.
  - assert (Hq : p + (n - 1) < id).
    { specialize (Hb (n - 1) ltac:(lia)). apply elem_of_app in Hb as [Hb|Hb]; [by apply Hlt|].
      apply list_elem_of_singleton in Hb. lia. }
    apply (Hno p). intros j Hj. specialize (Hb j Hj).
    apply elem_of_app in Hb as [Hb|Hb]; [done|]. apply list_elem_of_singleton in Hb. lia.
Qed.

(** What the loop of allocate finds: the first block of [n] pages, or that there is none. *)
Lemma allocate_loop_spec n rest : forall done initial previd,
  1 <= n < 2 ^ 64 -> StronglySorted Z.lt (done ++ rest) ->
  (forall x, x ∈ done ++ rest -> 1 < x < 2 ^ 64) ->
  run_state done initial previd n -> (forall p, ~ block done p n) ->
  match allocate_loop n rest (length done) initial previd with
  | Ret None => forall p, ~ block (done ++ rest) p n
  | Ret (Some (i, p)) => exists pre post, done ++ rest = pre ++ seqZ p n ++ post /\
      (i + 1 = length pre + Z.to_nat n)%nat /\ 1 < p /\
      (forall q, ~ block (pre ++ seqZ p (n - 1)) q n)
  | _ => False
  end.
Proof.
  induction rest as [|id rest IH]; intros done initial previd Hn Hs Hb Hrun Hno; cbn [allocate_loop].
  { by rewrite app_nil_r. }
  assert (Hid : 1 < id < 2 ^ 64) by (apply Hb; set_solver).
  assert (Hdone : forall x, x ∈ done -> 1 < x < id).
  { intros x Hx. split; [apply Hb; set_solver|].
    apply (StronglySorted_app_1_elem_of Z.lt done (id :: rest)); [done|done|left]. }
  destruct (Z.leb_spec id 1); [lia|].
  destruct (run_extend _ _ _ _ _ Hrun Hid ltac:(lia) Hdone) as (pre & k & E & Hk & Eid & Hini & Hpre).
  set (initial' := if _ || _ then id else initial) in *.
  replace (id - initial') with (k - 1) by lia. rewrite (wrap_id 64 (k - 1)) by lia.
  replace (k - 1 + 1) with k by lia. rewrite (wrap_id 64 n) by lia.
  replace (done ++ id :: rest) with ((done ++ [id]) ++ rest) in * by (by rewrite <- app_assoc).
  destruct (decide (k = n)) as [->|Hkn].
  - rewrite wrap_id by lia. rewrite Z.eqb_refl.
    exists pre, rest. rewrite E, <- app_assoc. split_and!; auto.
    + apply (f_equal length) in E. rewrite !length_app, length_seqZ in E. cbn in E. lia.
    + replace n with (n - 1 + 1) in E by lia. rewrite seqZ_app in E by lia.
      rewrite seqZ_1 in E. rewrite app_assoc in E.
      apply app_inj_tail in E as [<- _]. done.
  - rewrite wrap_id by lia. destruct (Z.eqb_spec k n); [lia|].
    replace (S (length done)) with (length (done ++ [id])) by (rewrite length_app; cbn; lia).
    apply IH; auto.
    + right. exists pre, k. split_and!; auto; lia.
    + intros p. eapply no_block_extend; eauto; [lia|]. intros x Hx. by apply Hdone.
Qed.

(** ** The invariant *)

(** All pending pages. *)
Definition pend (f : freelist) : list Z := concat (pending_lists f).

(** Free pages are sorted; no page is listed twice, free or pending, and the cache holds
    exactly the listed pages; pages 0 and 1 (the meta pages) are never listed. *)
Record fl_ok (f : freelist) : Prop := {
  fo_sorted : StronglySorted Z.lt (ids f);
  fo_range : forall x, x ∈ ids f ++ pend f -> 1 < x < 2 ^ 64;
  fo_nodup : NoDup (ids f ++ pend f);
  fo_cache : forall x, x ∈ cache f <-> x ∈ ids f ++ pend f
}.

Lemma newFreelist_ok : fl_ok newFreelist.
Proof.
  constructor; cbn.
  - constructor.
  - intros x Hx. by apply elem_of_nil in Hx.
  - constructor.
  - set_solver.
Qed.

Lemma sorted_lt_le l : StronglySorted Z.lt l -> StronglySorted Z.le l.
Proof.
  induction 1 as [|x l Hs IH Hx]; constructor; [done|].
  eapply Forall_impl; [done|]. cbn. lia.
Qed.

Lemma sorted_le_lt l : StronglySorted Z.le l -> NoDup l -> StronglySorted Z.lt l.
Proof.
  induction 1 as [|x l Hs IH Hx]; intros Hn; constructor; apply NoDup_cons in Hn as [Hni Hn]; [auto|].
  rewrite Forall_forall in Hx |- *. intros y Hy. specialize (Hx y Hy).
  destruct (decide (x = y)); [by subst|lia].
Qed.

Lemma sorted_app_mid (a b c : list Z) : StronglySorted Z.lt (a ++ b ++ c) -> StronglySorted Z.lt (a ++ c).
Proof.
  rewrite !StronglySorted_app. intros (H1 & Ha & H2 & Hb & Hc). split_and!; auto.
  intros x y Hx Hy. apply H1; [done|]. apply elem_of_app. by right.
Qed.

Lemma concat_perm {A} (l k : list (list A)) : l ≡ₚ k -> concat l ≡ₚ concat k.
Proof.
  induction 1; cbn; try done; [by f_equiv| |by etrans].
  rewrite !app_assoc. f_equiv. apply Permutation_app_comm.
Qed.

Lemma pend_lookup f tid l : pending f !! tid = Some l ->
  pend f ≡ₚ l ++ concat (map_to_list (delete tid (pending f))).*2.
Proof.
  intros H. unfold pend, pending_lists. rewrite <- (insert_delete_id _ _ _ H) at 1.
  rewrite map_to_list_insert by apply lookup_delete_eq. done.
Qed.

Lemma pend_insert tid l (m : gmap Z (list Z)) :
  concat (map_to_list (<[tid := l]> m)).*2 ≡ₚ l ++ concat (map_to_list (delete tid m)).*2.
Proof.
  rewrite <- insert_delete_eq. by rewrite map_to_list_insert by apply lookup_delete_eq.
Qed.

Lemma pend_default f tid :
  pend f ≡ₚ default [] (pending f !! tid) ++ concat (map_to_list (delete tid (pending f))).*2.
Proof.
  destruct (pending f !! tid) as [l|] eqn:E; cbn; [by apply pend_lookup|].
  unfold pend, pending_lists. by rewrite delete_id.
Qed.

(** *** allocate *)

Lemma uncache_spec n : forall i p c x, 0 <= i -> 0 <= p -> p + i + Z.of_nat n <= 2 ^ 64 ->
  x ∈ uncache n i p c <-> x ∈ c /\ ~ (p + i <= x < p + i + Z.of_nat n).
Proof.
  induction n as [|n IH]; intros i p c x Hi Hp Hb; cbn [uncache].
  { split; [intros; split; [done|lia]|tauto]. }
  rewrite IH by lia. rewrite wrap_id by lia. rewrite elem_of_difference, elem_of_singleton.
  split; [intros [[H1 H2] H3]; split; [done|lia] | intros [H1 H2]; split; [split; [done|lia]|lia]].
Qed.

Lemma allocate_ids pre p n post i : 1 <= n -> (i + 1 = length pre + Z.to_nat n)%nat ->
  (if Z.of_nat i + 1 =? n then drop (i + 1) (pre ++ seqZ p n ++ post)
   else take (i - Z.to_nat n + 1) (pre ++ seqZ p n ++ post) ++
        drop (i + 1) (pre ++ seqZ p n ++ post)) = pre ++ post.
Proof.
  intros Hn Hi.
  assert (Hd : drop (i + 1) (pre ++ seqZ p n ++ post) = post).
  { rewrite app_assoc. rewrite drop_app_ge; rewrite length_app, length_seqZ; [|lia].
    by replace (i + 1 - (length pre + Z.to_nat n))%nat with 0%nat by lia. }
  rewrite Hd. destruct (Z.eqb_spec (Z.of_nat i + 1) n).
  - assert (length pre = 0)%nat by lia. by destruct pre.
  - f_equal. replace (i - Z.to_nat n + 1)%nat with (length pre) by lia. apply take_app_length.
Qed.

Lemma block_seqZ pre p n post q : StronglySorted Z.lt (pre ++ seqZ p n ++ post) -> 1 <= n ->
  (forall q, ~ block (pre ++ seqZ p (n - 1)) q n) ->
  block (pre ++ seqZ p n ++ post) q n -> p <= q.
Proof.
  intros Hs Hn Hno Hb. destruct (Z.le_gt_cases p q); [done|exfalso]. apply (Hno q).
  intros k Hk. specialize (Hb k Hk).
  rewrite !elem_of_app, !elem_of_seqZ in *. destruct Hb as [Hb|[Hb|Hb]]; [by left|right; lia|].
  exfalso. rewrite app_assoc in Hs.
  assert (p + n - 1 < q + k); [|lia].
  apply (StronglySorted_app_1_elem_of Z.lt _ _ (p + n - 1) (q + k) Hs); [|done].
  apply elem_of_app. right. apply elem_of_seqZ. lia.
Qed.

Lemma allocate_spec f n : fl_ok f -> 1 <= n < 2 ^ 64 ->
  exists p f', allocate n f = Ret (p, f') /\ fl_ok f' /\ pending f' = pending f /\
    ((p = 0 /\ f' = f /\ (forall q, ~ block (ids f) q n)) \/
     (1 < p /\ ids f ≡ₚ seqZ p n ++ ids f' /\ (forall q, block (ids f) q n -> p <= q))).
Proof.
  intros [Hs Hr Hnd Hc] Hn. unfold allocate.
  destruct (Nat.eqb_spec (length (ids f)) 0) as [Hz|Hz].
  { exists 0, f. split_and!; auto; [by constructor|]. left. split_and!; auto.
    apply nil_length_inv in Hz. rewrite Hz. intros q Hb. specialize (Hb 0 ltac:(lia)). by apply elem_of_nil in Hb. }
  assert (Hr0 : forall x, x ∈ [] ++ ids f -> 1 < x < 2 ^ 64) by (intros x Hx; apply Hr; set_solver).
  assert (Hb0 : forall q, ~ block [] q n).
  { intros q Hb. specialize (Hb 0 ltac:(lia)). by apply elem_of_nil in Hb. }
  pose proof (allocate_loop_spec n (ids f) [] 0 0 Hn Hs Hr0 (or_introl (conj eq_refl eq_refl)) Hb0) as H.
  cbn [app length] in H.
  destruct (allocate_loop n (ids f) 0 0 0) as [[[i p]|]| |]; [| |done|done]; cbn [mbind outcome_bind].
  2: { exists 0, f. split; [done|]. split; [by constructor|]. auto. }
  destruct H as (pre & post & E & Hi & Hp & Hno).
  assert (Hperm : ids f ≡ₚ seqZ p n ++ pre ++ post).
  { rewrite E, !app_assoc. f_equiv. apply Permutation_app_comm. }
  assert (Hpn : p + n <= 2 ^ 64).
  { assert (Hin : p + n - 1 ∈ ids f ++ pend f).
    { apply elem_of_app. left. rewrite Hperm. apply elem_of_app. left. apply elem_of_seqZ. lia. }
    specialize (Hr _ Hin). lia. }
  pose proof (allocate_ids pre p n post i ltac:(lia) Hi) as Hids. rewrite <- E in Hids.
  exists p. eexists. split; [rewrite Hids; reflexivity|]. cbn [ids pending cache].
  assert (Hall : ids f ++ pend f ≡ₚ seqZ p n ++ (pre ++ post) ++ pend f).
  { rewrite Hperm. by rewrite <- app_assoc. }
  split; [|split; [done|right; split_and!; auto]].
  - constructor; cbn [ids cache]; unfold pend, pending_lists; cbn [pending].
    + rewrite E in Hs. by apply sorted_app_mid in Hs.
    + intros x Hx. apply Hr. rewrite Hall. apply elem_of_app. by right.
    + rewrite Hall in Hnd. by apply NoDup_app in Hnd as (_ & _ & Hnd).
    + intros x. rewrite uncache_spec by lia. rewrite Z2Nat.id, Z.add_0_r by lia.
      rewrite Hc, Hall, (elem_of_app (seqZ p n)), elem_of_seqZ.
      rewrite Hall in Hnd. apply NoDup_app in Hnd as (_ & Hdis & _).
      specialize (Hdis x). rewrite elem_of_seqZ in Hdis. unfold pend, pending_lists in *. tauto.
  - intros q Hq. rewrite E in Hq, Hs. by eapply block_seqZ; [done|lia|done|].
Qed.

(** *** free *)

Lemma free_loop_spec n : forall id l c, 0 <= id -> id + Z.of_nat n < 2 ^ 64 ->
  match free_loop n id l c with
  | Ret (l', c') => (forall x, id <= x < id + Z.of_nat n -> x ∉ c) /\
      l' = l ++ seqZ id (Z.of_nat n) /\
      (forall x, x ∈ c' <-> x ∈ c \/ id <= x < id + Z.of_nat n)
  | Panic => exists x, id <= x < id + Z.of_nat n /\ x ∈ c
  | Fail _ => False
  end.
Proof.
  induction n as [|n IH]; intros id l c Hid Hb; cbn [free_loop].
  { rewrite seqZ_nil, app_nil_r by lia. split_and!; [lia|done|]. intros x. split; [by left|intros [?|?]; [done|lia]]. }
  destruct (decide (id ∈ c)) as [Hin|Hin]; [exists id; split; [lia|done]|].
  specialize (IH (u64 (id + 1)) (l ++ [id]) ({[id]} ∪ c)). rewrite wrap_id in * by lia.
  specialize (IH ltac:(lia) ltac:(lia)).
  destruct (free_loop n (id + 1) _ _) as [[l' c']| |]; [|done|].
  - destruct IH as (H1 & -> & H3). split_and!.
    + intros x Hx. destruct (decide (x = id)) as [->|]; [done|]. specialize (H1 x ltac:(lia)). set_solver.
    + rewrite <- app_assoc. f_equal. rewrite (seqZ_cons id) by lia. cbn [app]. f_equal. f_equal; lia.
    + intros x. rewrite H3, elem_of_union, elem_of_singleton. split.
      * intros [[->|?]|?]; [right; lia|by left|right; lia].
      * intros [?|?]; [by left; right|]. destruct (decide (x = id)); [by left; left|right; lia].
  - destruct IH as (x & Hx & Hc). apply elem_of_union in Hc as [Hc|Hc].
    + apply elem_of_singleton in Hc. lia.
    + exists x. split; [lia|done].
Qed.

Lemma free_spec f tid id ov : fl_ok f -> 0 <= ov -> id + ov + 1 < 2 ^ 64 ->
  match free tid id ov f with
  | Ret f' => 1 < id /\ (forall x, id <= x <= id + ov -> freed x f = false) /\ fl_ok f' /\
      ids f' = ids f /\
      pending f' = <[tid := default [] (pending f !! tid) ++ seqZ id (ov + 1)]> (pending f)
  | Panic => id <= 1 \/ exists x, id <= x <= id + ov /\ freed x f = true
  | Fail _ => False
  end.
Proof.
  intros [Hs Hr Hnd Hc] Hov Hb. unfold free, freed.
  destruct (Z.leb_spec id 1); [by left|].
  pose proof (free_loop_spec (S (Z.to_nat ov)) id (default [] (pending f !! tid)) (cache f)
                ltac:(lia) ltac:(lia)) as H'.
  replace (Z.of_nat (S (Z.to_nat ov))) with (ov + 1) in H' by lia.
  destruct (free_loop _ _ _ _) as [[l' c']| |]; cbn [mbind outcome_bind]; [|done|].
  2: { right. destruct H' as (x & Hx & Hin). exists x. split; [lia|]. by apply bool_decide_eq_true. }
  destruct H' as (Hdis & -> & Hc').
  assert (Hall : ids f ++ pend (mkFL (ids f) (<[tid := default [] (pending f !! tid) ++ seqZ id (ov + 1)]> (pending f)) c')
            ≡ₚ seqZ id (ov + 1) ++ ids f ++ pend f).
  { unfold pend at 1, pending_lists at 1. cbn [pending]. rewrite pend_insert, (pend_default f tid).
    solve_Permutation. }
  split; [lia|]. split; [|split; [|split; done]].
  { intros x Hx. apply bool_decide_eq_false. apply Hdis. lia. }
  constructor; cbn [ids cache]; [done|..].
  - intros x. rewrite Hall, elem_of_app, elem_of_seqZ. intros [Hx|Hx]; [lia|by apply Hr].
  - rewrite Hall. apply NoDup_app. split_and!; [apply NoDup_seqZ| |done].
    intros x Hx Hx'. rewrite elem_of_seqZ in Hx. apply (Hdis x); [lia|]. by apply Hc.
  - intros x. rewrite Hall, (elem_of_app (seqZ _ _)), elem_of_seqZ, Hc', Hc. split; intros [?|?]; auto.
Qed.

(** *** release and rollback *)

Lemma map_to_list_filter_perm (P : Z * list Z -> Prop) `{!forall x, Decision (P x)} (m : gmap Z (list Z)) :
  map_to_list (filter P m) ≡ₚ filter P (map_to_list m).
Proof.
  apply NoDup_Permutation; [apply NoDup_map_to_list | apply NoDup_filter, NoDup_map_to_list |].
  intros [k v]. rewrite list_elem_of_filter, !elem_of_map_to_list, map_lookup_filter_Some. tauto.
Qed.

Lemma pend_filter f (P : Z * list Z -> Prop) `{!forall x, Decision (P x)} :
  pend f ≡ₚ concat (map_to_list (filter P (pending f))).*2 ++
            concat (map_to_list (filter (fun kv => ~ P kv) (pending f))).*2.
Proof.
  unfold pend, pending_lists. rewrite <- concat_app, <- fmap_app. apply concat_perm, fmap_Permutation.
  rewrite !map_to_list_filter_perm. by rewrite filter_app_complement.
Qed.

Lemma release_spec f tid : fl_ok f ->
  exists f', release tid f = Ret f' /\ fl_ok f' /\
    ids f' = sortZ (ids f ++ concat (map_to_list (filter (fun kv => kv.1 <= tid) (pending f))).*2) /\
    pending f' = filter (fun kv => ~ kv.1 <= tid) (pending f) /\ cache f' = cache f.
Proof.
  intros [Hs Hr Hnd Hc]. unfold release.
  set (m := concat (map_to_list (filter (fun kv : Z * list Z => kv.1 <= tid) (pending f))).*2).
  rewrite merge_spec by (auto using sorted_lt_le, sortZ_sorted). cbn [mbind outcome_bind].
  assert (Hids : sortZ (ids f ++ sortZ m) = sortZ (ids f ++ m)) by (apply sortZ_ext; by rewrite sortZ_perm).
  rewrite Hids. eexists. split; [reflexivity|]. split; [|done].
  set (f' := mkFL _ _ _).
  assert (Hall : ids f' ++ pend f' ≡ₚ ids f ++ pend f).
  { unfold f' at 1. cbn [ids]. rewrite sortZ_perm, (pend_filter f (fun kv => kv.1 <= tid)). fold m.
    unfold pend, pending_lists, f'. cbn [pending]. by rewrite app_assoc. }
  constructor.
  - unfold f'; cbn [ids]. apply sorted_le_lt; [apply sortZ_sorted|]. rewrite sortZ_perm.
    assert (Hn : NoDup (ids f' ++ pend f')) by (by rewrite Hall).
    apply NoDup_app in Hn as (Hn & _). unfold f' in Hn; cbn [ids] in Hn. by rewrite sortZ_perm in Hn.
  - intros x. rewrite Hall. apply Hr.
  - by rewrite Hall.
  - intros x. rewrite Hall. apply Hc.
Qed.

Lemma rollback_spec f tid : fl_ok f ->
  let f' := rollback tid f in
  fl_ok f' /\ ids f' = ids f /\ pending f' = delete tid (pending f) /\
  (forall x, freed x f' = freed x f && bool_decide (x ∉ default [] (pending f !! tid))).
Proof.
  intros [Hs Hr Hnd Hc] f'. pose proof (pend_default f tid) as Hp.
  set (old := default [] (pending f !! tid)) in *.
  assert (Hall : ids f ++ pend f ≡ₚ old ++ ids f' ++ pend f').
  { rewrite Hp. unfold f', rollback, pend, pending_lists; cbn [ids pending]. solve_Permutation. }
  pose proof Hnd as Hnd'. rewrite Hall in Hnd'. apply NoDup_app in Hnd' as (_ & Hdis & Hnd').
  split; [|split; [done|split; [done|]]].
  - constructor; [done| |done|].
    + intros x Hx. apply Hr. rewrite Hall. apply elem_of_app. by right.
    + intros x. unfold f' at 1, rollback. cbn [cache]. fold old.
      rewrite elem_of_difference, elem_of_list_to_set, Hc, Hall, (elem_of_app old).
      specialize (Hdis x). tauto.
  - intros x. unfold freed, f', rollback; cbn [cache]. fold old.
    rewrite <- bool_decide_and. apply bool_decide_ext.
    by rewrite elem_of_difference, elem_of_list_to_set.
Qed.

(** The pages freed by the transactions up to [tid]. *)
Lemma elem_of_released (m : gmap Z (list Z)) tid x :
  x ∈ concat (map_to_list (filter (fun kv => kv.1 <= tid) m)).*2 <->
  exists t l, t <= tid /\ m !! t = Some l /\ x ∈ l.
Proof.
  assert (Hc : forall ll : list (list Z), x ∈ concat ll <-> exists l, l ∈ ll /\ x ∈ l).
  { induction ll as [|l ll IH]; cbn.
    - split; [intros H; by apply elem_of_nil in H|intros (l & Hl & _); by apply elem_of_nil in Hl].
    - rewrite elem_of_app, IH. split.
      + intros [H|(k & Hk & H)]; [exists l; split; [left|done] | exists k; split; [by right|done]].
      + intros (k & Hk & H). apply elem_of_cons in Hk as [->|Hk]; [by left|right; eauto]. }
  rewrite Hc. split.
  - intros (l & Hl & Hx). apply list_elem_of_fmap in Hl as ([t l'] & -> & Hl).
    apply elem_of_map_to_list, map_lookup_filter_Some in Hl as [Hl Ht]. exists t, l'. auto.
  - intros (t & l & Ht & Hl & Hx). exists l. split; [|done].
    apply list_elem_of_fmap. exists (t, l). split; [done|]. apply elem_of_map_to_list.
    by apply map_lookup_filter_Some.
Qed.

(** *** The freelist page *)

Lemma length_concat_sum {A} (l : list (list A)) : length (concat l) = sum_list (length <$> l).
Proof. induction l as [|x l IH]; cbn; [done|]. by rewrite length_app, IH. Qed.

Lemma count_length f : count f = length (ids f ++ pend f).
Proof. unfold count, free_count, pending_count, pend. by rewrite length_app, length_concat_sum. Qed.

Lemma copyall_spec dst f : fl_ok f -> (count f <= length dst)%nat ->
  copyall dst f = Ret (sortZ (ids f ++ pend f) ++ drop (count f) dst).
Proof.
  intros Hf Hl. rewrite count_length, length_app in *. unfold copyall. fold (pend f).
  rewrite mergepgids_spec; [|apply sorted_lt_le, Hf|apply sortZ_sorted|
    by rewrite (Permutation_length (sortZ_perm _))].
  rewrite (Permutation_length (sortZ_perm (pend f))). do 2 f_equal.
  apply sortZ_ext. by rewrite sortZ_perm.
Qed.

Lemma length_sortZ l : length (sortZ l) = length l.
Proof. apply Permutation_length, sortZ_perm. Qed.

Lemma slice_front (l r : list Z) n : n = length l -> slice 0 n (l ++ r) = l.
Proof. intros ->. unfold slice. rewrite Nat.sub_0_r. cbn [drop]. apply take_app_length. Qed.

(** Reading back a page of fewer than 0xFFFF ids, whatever is pending in the reader. *)
Lemma read_write p f g : fl_ok f -> Z.of_nat (count f) < 0xFFFF ->
  (count f <= length (p_ids p))%nat ->
  exists p', write p f = Ret p' /\
    read p' g = Ret (reindex (mkFL (sortZ (ids f ++ pend f)) (pending g) (cache g))).
Proof.
  intros Hf Hc Hl. unfold write.
  destruct (Z.eqb_spec (Z.of_nat (count f)) 0) as [Hz|Hz].
  - eexists. split; [reflexivity|]. unfold read; cbn [p_count p_ids]. rewrite Hz.
    change (u16 0 =? 0xFFFF) with false. cbn [mbind outcome_bind]. change (Z.to_nat (u16 0) =? 0)%nat with true.
    cbn [mbind outcome_bind]. rewrite count_length in Hz.
    assert (E : ids f ++ pend f = []) by (apply nil_length_inv; lia). by rewrite E.
  - destruct (Z.ltb_spec (Z.of_nat (count f)) 0xFFFF); [|lia].
    rewrite copyall_spec by done. cbn [mbind outcome_bind]. eexists. split; [reflexivity|].
    unfold read; cbn [p_count p_ids]. rewrite (wrap_id 16) by lia.
    destruct (Z.eqb_spec (Z.of_nat (count f)) 0xFFFF); [lia|]. cbn [mbind outcome_bind].
    rewrite Nat2Z.id. destruct (Nat.eqb_spec (count f) 0); [lia|].
    unfold slice_ids. change (count f <? 0)%nat with false. cbn [orb].
    assert (Hlen : length (sortZ (ids f ++ pend f)) = count f) by (by rewrite length_sortZ, count_length).
    destruct (Nat.ltb_spec (length (sortZ (ids f ++ pend f) ++ drop (count f) (p_ids p))) (count f));
      [rewrite length_app in *; lia|].
    cbn [mbind outcome_bind]. rewrite slice_front by done. cbn [mbind outcome_bind].
    by rewrite (sortZ_id (sortZ _)) by apply sortZ_sorted.
Qed.

Lemma reindex_ok l : StronglySorted Z.le l -> NoDup l -> (forall x, x ∈ l -> 1 < x < 2 ^ 64) ->
  fl_ok (reindex (mkFL l ∅ ∅)).
Proof.
  intros Hs Hn Hr.
  assert (Hp : pend (reindex (mkFL l ∅ ∅)) = []) by done.
  constructor; cbn [reindex ids cache]; rewrite ?Hp, ?app_nil_r; auto using sorted_le_lt.
  intros x. cbn [pending_lists pending]. rewrite elem_of_union, !elem_of_list_to_set. cbn. set_solver.
Qed.

Lemma filter_free f : fl_ok f ->
  filter (fun id => id ∉ (list_to_set (pend f) : gset Z)) (sortZ (ids f ++ pend f)) = ids f.
Proof.
  intros [Hs Hr Hnd Hc]. apply sorted_unique.
  - apply sorted_filter, sortZ_sorted.
  - by apply sorted_lt_le.
  - rewrite sortZ_perm, filter_app.
    rewrite (filter_keep _ (ids f)), (filter_drop _ (pend f)), app_nil_r; [done|..];
      intros x Hx; rewrite elem_of_list_to_set; [tauto|].
    apply NoDup_app in Hnd as (_ & Hdis & _). by apply Hdis.
Qed.

(** ** Properties *)

(** C16: allocation is first fit.  From a good freelist, allocating n >= 1 pages never
    panics and keeps the freelist good: either it returns 0, nothing changes and no n
    consecutive pages are free, or it returns the lowest start of n consecutive free
    pages and exactly those leave the free list. *)
Theorem allocate_first_fit f n : fl_ok f -> 1 <= n < 2 ^ 64 ->
  exists p f', allocate n f = Ret (p, f') /\ fl_ok f' /\ pending f' = pending f /\
    ((p = 0 /\ f' = f /\ (forall q, ~ block (ids f) q n)) \/
     (1 < p /\ ids f ≡ₚ seqZ p n ++ ids f' /\ (forall q, block (ids f) q n -> p <= q))).
Proof. apply allocate_spec. Qed.

Lemma sorted_seqZ m k : StronglySorted Z.lt (seqZ m (Z.of_nat k)).
Proof.
  revert m. induction k as [|k IH]; intros m; [constructor|].
  rewrite seqZ_cons by lia. constructor.
  - replace (Z.pred (Z.of_nat (S k))) with (Z.of_nat k) by lia. apply IH.
  - apply Forall_forall. intros x Hx. apply elem_of_seqZ in Hx. lia.
Qed.

Lemma fl_ok_ids l : StronglySorted Z.lt l -> NoDup l -> (forall x, x ∈ l -> 1 < x < 2 ^ 64) ->
  fl_ok (mkFL l ∅ (list_to_set l)).
Proof.
  intros Hs Hn Hr. assert (Hp : pend (mkFL l ∅ (list_to_set l)) = []) by done.
  constructor; cbn [ids cache]; rewrite ?Hp, ?app_nil_r; auto.
  intros x. by rewrite elem_of_list_to_set.
Qed.

Lemma fl_ok_seq m k : 1 < m -> m + Z.of_nat k <= 2 ^ 64 ->
  fl_ok (mkFL (seqZ m (Z.of_nat k)) ∅ (list_to_set (seqZ m (Z.of_nat k)))).
Proof.
  intros Hm Hk. apply fl_ok_ids; [apply sorted_seqZ|apply NoDup_seqZ|].
  intros x Hx. apply elem_of_seqZ in Hx. lia.
Qed.

Definition fl_example : freelist :=
  let l := [3; 4; 5; 6; 7; 9; 12; 13; 18] in mkFL l ∅ (list_to_set l).

Lemma fl_example_ok : fl_ok fl_example.
Proof.
  apply fl_ok_ids.
  - repeat (constructor; [|repeat (constructor; [lia|]); constructor]). constructor.
  - apply (bool_decide_unpack _). vm_compute. exact I.
  - intros x Hx. repeat (apply elem_of_cons in Hx as [->|Hx]; [lia|]). by apply elem_of_nil in Hx.
Qed.

Lemma allocate_first_fit_witness :
  fl_ok fl_example /\
  exists p f', allocate 2 fl_example = Ret (p, f') /\ fl_ok f' /\ pending f' = pending fl_example /\
    ((p = 0 /\ f' = fl_example /\ (forall q, ~ block (ids fl_example) q 2)) \/
     (1 < p /\ ids fl_example ≡ₚ seqZ p 2 ++ ids f' /\
      (forall q, block (ids fl_example) q 2 -> p <= q))).
Proof. split; [exact fl_example_ok|]. apply (allocate_first_fit _ 2 fl_example_ok). lia. Defined.

(** The test of freelist_test.go: a run of allocations from that list. *)
Example allocate_test :
  (r ← allocate 3 fl_example; r ← allocate 1 r.2; r ← allocate 3 r.2; r ← allocate 2 r.2;
   r ← allocate 1 r.2; Ret (r.1, ids r.2)) = Ret (7, [9; 18]).
Proof. vm_compute. reflexivity. Qed.

(** The transitions of a freelist: what transactions do to it. *)
Inductive fl_step : freelist -> freelist -> Prop :=
  | step_allocate f n p f' : 1 <= n < 2 ^ 64 -> allocate n f = Ret (p, f') -> fl_step f f'
  | step_free f tid id ov f' : 0 <= ov -> id + ov + 1 < 2 ^ 64 -> free tid id ov f = Ret f' -> fl_step f f'
  | step_release f tid f' : release tid f = Ret f' -> fl_step f f'
  | step_rollback f tid : fl_step f (rollback tid f).

(** C17: the freelist invariant.  Every freelist reached from the empty one by
    allocations, frees, releases and rollbacks in any order is good: the free pages are
    sorted, no page is free or pending twice, the cache is exactly the free and pending
    pages, and the meta pages never appear.  In every such freelist a free panics
    exactly when it names a meta page or a page that is already free or pending, and
    a release never panics. *)
Theorem freelist_invariant f : rtc fl_step newFreelist f ->
  fl_ok f /\
  (forall tid id ov, 0 <= ov -> id + ov + 1 < 2 ^ 64 ->
     free tid id ov f = Panic <-> id <= 1 \/ exists x, id <= x <= id + ov /\ freed x f = true) /\
  (forall tid, exists f', release tid f = Ret f').
Proof.
  intros Hr. assert (Hf : fl_ok f).
  { revert Hr. generalize newFreelist_ok. generalize newFreelist. intros f0 H0.
    induction 1 as [f|f f1 f2 Hstep _ IH]; [done|]. apply IH. clear IH.
    destruct Hstep as [f n p f' Hn E|f tid id ov f' H1 H2 E|f tid f' E|f tid].
    - destruct (allocate_spec f n H0 Hn) as (p' & f'' & E' & Hok & _).
      rewrite E in E'. by injection E' as _ ->.
    - pose proof (free_spec f tid id ov H0 H1 H2) as Hs. rewrite E in Hs. apply Hs.
    - destruct (release_spec f tid H0) as (f'' & E' & Hok & _).
      rewrite E in E'. by injection E' as ->.
    - by apply rollback_spec. }
  split; [done|]. split.
  - intros tid id ov H1 H2. pose proof (free_spec f tid id ov Hf H1 H2) as Hs.
    destruct (free tid id ov f) as [f'| |]; [|done|tauto].
    destruct Hs as (Hid & Hdis & _). split; [done|]. intros [?|(x & Hx & Hin)]; [lia|].
    rewrite Hdis in Hin by lia. done.
  - intros tid. destruct (release_spec f tid Hf) as (f' & E & _). eauto.
Qed.

Lemma freelist_invariant_witness :
  exists f, rtc fl_step newFreelist f /\ pending f = {[ 100 := [12; 13; 14] ]} /\ fl_ok f.
Proof.
  assert (Hr : rtc fl_step newFreelist (mkFL [] {[ 100 := [12; 13; 14] ]} {[14; 13; 12]})).
  { eapply rtc_once, (step_free _ 100 12 2); [lia|lia|vm_compute; reflexivity]. }
  eexists. split; [exact Hr|]. split; [reflexivity|]. exact (proj1 (freelist_invariant _ Hr)).
Defined.

(** C40: Release and rollback.  Releasing a transaction moves exactly the pages freed by
    it and by older transactions to the free list, sorted, and leaves the cache as it
    is; rolling one back un-frees exactly its pages; pages of later transactions stay
    pending in both cases. *)
Theorem release_rollback f tid : fl_ok f ->
  (exists f', release tid f = Ret f' /\ fl_ok f' /\ cache f' = cache f /\
     (forall x, x ∈ ids f' <->
        x ∈ ids f \/ exists t l, t <= tid /\ pending f !! t = Some l /\ x ∈ l) /\
     (forall t, pending f' !! t = if t <=? tid then None else pending f !! t)) /\
  (let f' := rollback tid f in fl_ok f' /\ ids f' = ids f /\
     (forall t, pending f' !! t = if t =? tid then None else pending f !! t) /\
     (forall x, freed x f' = freed x f && bool_decide (x ∉ default [] (pending f !! tid)))).
Proof.
  intros Hf. split.
  - destruct (release_spec f tid Hf) as (f' & E & Hok & Hids & Hp & Hc).
    exists f'. split; [done|]. split; [done|]. split; [done|]. split.
    + intros x. rewrite Hids, sortZ_perm, elem_of_app. f_equiv.
      apply elem_of_released.
    + intros t. rewrite Hp. destruct (Z.leb_spec t tid).
      * apply map_lookup_filter_None. right. intros l _. cbn. lia.
      * destruct (pending f !! t) as [l|] eqn:El.
        -- apply map_lookup_filter_Some. split; [done|]. cbn. lia.
        -- apply map_lookup_filter_None. by left.
  - destruct (rollback_spec f tid Hf) as (Hok & Hids & Hp & Hx). split; [done|]. split; [done|].
    split; [|done]. intros t. rewrite Hp. destruct (Z.eqb_spec t tid) as [->|].
    + apply lookup_delete_eq.
    + by apply lookup_delete_ne.
Qed.

Lemma release_rollback_witness :
  fl_ok fl_example /\ exists f', release 7 fl_example = Ret f' /\ fl_ok f'.
Proof.
  split; [exact fl_example_ok|].
  destruct (proj1 (release_rollback fl_example 7 fl_example_ok)) as (f' & E & Hok & _).
  exists f'. split; [exact E | exact Hok].
Defined.

(** C18: the freelist page round trip.  With fewer than 0xFFFF free and pending pages and
    room on the page, writing the freelist and reading the page into a new one gives a
    good freelist that holds all of them, sorted, as free (pending pages are free after a
    crash); reloading the page in the writer restores its own free list and cache. *)
Theorem freelist_write_read f p :
  fl_ok f -> Z.of_nat (count f) < 0xFFFF -> (count f <= length (p_ids p))%nat ->
  exists p', write p f = Ret p' /\
    (exists f', read p' newFreelist = Ret f' /\ fl_ok f' /\ pending f' = ∅ /\
       ids f' = sortZ (ids f ++ pend f)) /\
    (exists f', reload p' f = Ret f' /\ ids f' = ids f /\ pending f' = pending f /\
       forall x, freed x f' = freed x f).
Proof.
  intros Hf Hc Hl. destruct (read_write p f newFreelist Hf Hc Hl) as (p' & Hw & Hr).
  exists p'. split; [done|]. split.
  - eexists. split; [exact Hr|]. split; [|done].
    apply (reindex_ok (sortZ (ids f ++ pend f))); [apply sortZ_sorted|..]; rewrite ?sortZ_perm.
    + apply Hf.
    + intros x. rewrite sortZ_perm. apply Hf.
  - destruct (read_write p f f Hf Hc Hl) as (p'' & Hw' & Hr'). rewrite Hw in Hw'. injection Hw' as <-.
    unfold reload. rewrite Hr'. cbn [mbind outcome_bind]. eexists. split; [reflexivity|].
    unfold pending_lists; cbn [reindex ids pending cache].
    change (concat (map_to_list (pending f)).*2) with (pend f).
    rewrite filter_free by done. split; [done|]. split; [done|]. intros x.
    unfold freed, reindex, pending_lists; cbn [ids pending cache].
    change (concat (map_to_list (pending f)).*2) with (pend f).
    apply bool_decide_ext. rewrite elem_of_union, !elem_of_list_to_set, (fo_cache _ Hf), elem_of_app.
    done.
Qed.

Lemma freelist_write_read_witness :
  let p := mkPage 0 0 (replicate 9 0) in
  fl_ok fl_example /\ exists p', write p fl_example = Ret p' /\
    exists f', read p' newFreelist = Ret f' /\ fl_ok f' /\ ids f' = [3; 4; 5; 6; 7; 9; 12; 13; 18].
Proof.
  intros p. split; [exact fl_example_ok|].
  destruct (freelist_write_read fl_example p fl_example_ok) as (p' & Hw & (f' & Hr & Hok & _ & Hi) & _).
  - vm_compute. reflexivity.
  - vm_compute. lia.
  - exists p'. split; [exact Hw|]. exists f'. split; [exact Hr|]. split; [exact Hok|].
    rewrite Hi. vm_compute. reflexivity.
Defined.

Lemma take_sorted n l : StronglySorted Z.le l -> StronglySorted Z.le (take n l).
Proof. intros H. rewrite <- (take_drop n l) in H. by apply StronglySorted_app_1_l in H. Qed.

(** C19: a freelist page whose count overflows loses a page.  With 0xFFFF or more free and
    pending pages, write stores their number in the first element and the pages after
    it, but read slices the array as [idx:count], one element short: the highest page id
    is not in the freelist read back (it can never be allocated again). *)
Theorem freelist_overflow_loses_last f p :
  fl_ok f -> 0xFFFF <= Z.of_nat (count f) -> (S (count f) <= length (p_ids p))%nat ->
  exists p' f', write p f = Ret p' /\ read p' newFreelist = Ret f' /\
    ids f' = take (count f - 1) (sortZ (ids f ++ pend f)) /\ S (length (ids f')) = count f.
Proof.
  intros Hf Hc Hl. unfold write.
  destruct (Z.eqb_spec (Z.of_nat (count f)) 0); [lia|].
  destruct (Z.ltb_spec (Z.of_nat (count f)) 0xFFFF); [lia|].
  destruct (p_ids p) as [|x tl]; cbn [length] in Hl; [lia|].
  rewrite copyall_spec by (done || lia). cbn [mbind outcome_bind].
  assert (Hlen : length (sortZ (ids f ++ pend f)) = count f) by (by rewrite length_sortZ, count_length).
  set (s := sortZ (ids f ++ pend f)) in *. set (r := drop (count f) tl).
  eexists _, _. split; [reflexivity|]. unfold read; cbn [p_count p_ids]. rewrite Z.eqb_refl.
  cbn [mbind outcome_bind]. rewrite Nat2Z.id. destruct (Nat.eqb_spec (count f) 0); [lia|].
  unfold slice_ids. destruct (Nat.ltb_spec (count f) 1); [lia|]. cbn [orb].
  destruct (Nat.ltb_spec (length (Z.of_nat (count f) :: s ++ r)) (count f)) as [Hbad|_];
    [cbn [length] in Hbad; rewrite length_app in Hbad; lia|].
  cbn [mbind outcome_bind].
  assert (Hsl : slice 1 (count f) (Z.of_nat (count f) :: s ++ r) = take (count f - 1) s).
  { unfold slice. change (drop 1 (Z.of_nat (count f) :: s ++ r)) with (s ++ r).
    apply take_app_le. lia. }
  rewrite Hsl, sortZ_id by apply take_sorted, sortZ_sorted. split; [reflexivity|].
  cbn [reindex ids]. split; [done|]. rewrite length_take. lia.
Qed.

Lemma freelist_overflow_loses_last_witness :
  let f := mkFL (seqZ 2 (Z.of_nat (Z.to_nat 70000))) ∅ (list_to_set (seqZ 2 (Z.of_nat (Z.to_nat 70000)))) in
  exists p p' f', write p f = Ret p' /\ read p' newFreelist = Ret f' /\
    S (length (ids f')) = count f.
Proof.
  intros f.
  assert (Hc : count f = Z.to_nat 70000).
  { rewrite count_length. assert (Hp : pend f = []) by reflexivity. rewrite Hp, app_nil_r.
    unfold f; cbn [ids]. rewrite length_seqZ. by rewrite Nat2Z.id. }
  destruct (freelist_overflow_loses_last f (mkPage 0 0 (replicate (S (count f)) 0)))
    as (p' & f' & Hw & Hr & _ & Hlen).
  - apply fl_ok_seq; lia.
  - rewrite Hc. lia.
  - cbn [p_ids]. rewrite length_replicate. lia.
  - eexists _, p', f'. split; [exact Hw|]. split; [exact Hr | exact Hlen].
Defined.
