(* ===== verification/BoltNode.v ===== *)
(** bolt page.go and node.go: the byte layout of branch and leaf pages, the in-memory
    node, its reading and writing, insertion and deletion of keys, and the split of a
    large node.

    A page is its header fields and the bytes that follow them ([pg_body], from &p.ptr
    on).  The code casts that memory to arrays of elements; here each field is read from
    and written to its bytes, little-endian as on the platforms bolt supports.  Memory
    past the body is not the page's: touching it is [Panic]. *)

From Stdlib Require Import ZArith Lia Floats.SpecFloat.
From stdpp Require Import base numbers option list sorting gmap.
From S2P Require Import Prelude GoSort GoBytes.
#[local] Open Scope Z_scope.

(** ** page.go *)

Definition pageHeaderSize : Z := 16.
Definition minKeysPerPage : nat := 2.
Definition branchPageElementSize : Z := 16.
Definition leafPageElementSize : Z := 16.
Definition branchPageFlag : Z := 0x01.
Definition leafPageFlag : Z := 0x02.
Definition metaPageFlag : Z := 0x04.
Definition freelistPageFlag : Z := 0x10.
Definition maxAllocSize : Z := 0x7FFFFFFF.

Record page := mkPage {
  pg_id : Z;
  pg_flags : Z;
  pg_count : Z;
  pg_overflow : Z;
  pg_body : list Z
}.

(** Memory of a page body. *)
Definition mem_read (off n : Z) (b : list Z) : outcome unit (list Z) :=
  if (Z.of_nat (length b) <? off + n) || (off <? 0) || (n <? 0) then Panic
  else Ret (slice (Z.to_nat off) (Z.to_nat off + Z.to_nat n) b).

Definition mem_write (off : Z) (bs b : list Z) : outcome unit (list Z) :=
  if (Z.of_nat (length b) <? off + Z.of_nat (length bs)) || (off <? 0) then Panic
  else Ret (splice (Z.to_nat off) bs b).

Record branchElem := mkBranchElem { be_pos : Z; be_ksize : Z; be_pgid : Z }.
Record leafElem := mkLeafElem { le_flags : Z; le_pos : Z; le_ksize : Z; le_vsize : Z }.

Definition branchElem_bytes (e : branchElem) : list Z :=
  le_put 4 (be_pos e) ++ le_put 4 (be_ksize e) ++ le_put 8 (be_pgid e).

Definition leafElem_bytes (e : leafElem) : list Z :=
  le_put 4 (le_flags e) ++ le_put 4 (le_pos e) ++ le_put 4 (le_ksize e) ++ le_put 4 (le_vsize e).

Definition branchPageElement (i : Z) (b : list Z) : outcome unit branchElem :=
  e ← mem_read (branchPageElementSize * i) branchPageElementSize b;
  Ret (mkBranchElem (le_get (slice 0 4 e)) (le_get (slice 4 8 e)) (le_get (slice 8 16 e))).

Definition leafPageElement (i : Z) (b : list Z) : outcome unit leafElem :=
  e ← mem_read (leafPageElementSize * i) leafPageElementSize b;
  Ret (mkLeafElem (le_get (slice 0 4 e)) (le_get (slice 4 8 e)) (le_get (slice 8 12 e))
                  (le_get (slice 12 16 e))).

(** &buf[pos] and [:n] of the maxAllocSize byte array at the element's address. *)
Definition elem_bytes (addr pos n : Z) (b : list Z) : outcome unit (list Z) :=
  if (maxAllocSize <=? pos) || (maxAllocSize <? n) then Panic else mem_read (addr + pos) n b.

Definition branch_key (i : Z) (b : list Z) : outcome unit (list Z) :=
  e ← branchPageElement i b;
  elem_bytes (branchPageElementSize * i) (be_pos e) (be_ksize e) b.

Definition leaf_key (i : Z) (b : list Z) : outcome unit (list Z) :=
  e ← leafPageElement i b;
  elem_bytes (leafPageElementSize * i) (le_pos e) (le_ksize e) b.

Definition leaf_value (i : Z) (b : list Z) : outcome unit (list Z) :=
  e ← leafPageElement i b;
  elem_bytes (leafPageElementSize * i) (u32 (le_pos e + le_ksize e)) (le_vsize e) b.

(** ** node.go *)

Record inode := mkInode {
  in_flags : Z;
  in_pgid : Z;
  in_key : list Z;
  in_value : list Z
}.

(** The fields of a node other than its links to the bucket, its parent and its
    children; a nil key is [None]. *)
Record node := mkNode {
  isLeaf : bool;
  unbalanced : bool;
  spilled : bool;
  n_key : option (list Z);
  n_pgid : Z;
  inodes : list inode
}.

Definition set_inodes (l : list inode) (n : node) : node :=
  mkNode (isLeaf n) (unbalanced n) (spilled n) (n_key n) (n_pgid n) l.

Definition keys (n : node) : list (list Z) := in_key <$> inodes n.

Definition minKeys (n : node) : nat := if isLeaf n then 1%nat else 2%nat.

Definition pageElementSize (leaf : bool) : Z :=
  if leaf then leafPageElementSize else branchPageElementSize.

Definition item_size (leaf : bool) (i : inode) : Z :=
  pageElementSize leaf + Z.of_nat (length (in_key i)) + Z.of_nat (length (in_value i)).

Fixpoint size_loop (leaf : bool) (sz : Z) (l : list inode) : Z :=
  match l with
  | [] => sz
  | i :: l => size_loop leaf (sz + item_size leaf i) l
  end.

Definition size (n : node) : Z := size_loop (isLeaf n) pageHeaderSize (inodes n).

Fixpoint sizeLessThan_loop (leaf : bool) (v sz : Z) (l : list inode) : bool :=
  match l with
  | [] => true
  | i :: l =>
      let sz := sz + item_size leaf i in
      if v <=? sz then false else sizeLessThan_loop leaf v sz l
  end.

Definition sizeLessThan (v : Z) (n : node) : bool :=
  sizeLessThan_loop (isLeaf n) v pageHeaderSize (inodes n).

Definition numChildren (n : node) : nat := length (inodes n).

Definition childIndex (child_key : list Z) (n : node) : nat := lower_bound (keys n) child_key.

(** put, with [hwm] the meta's high water mark n.bucket.tx.meta.pgid. *)
Definition put (hwm : Z) (oldKey newKey value : list Z) (pgid flags : Z) (n : node)
    : outcome unit node :=
  if hwm <=? pgid then Panic
  else if (length oldKey =? 0)%nat then Panic
  else if (length newKey =? 0)%nat then Panic
  else
    let index := lower_bound (keys n) oldKey in
    let exact := match inodes n !! index with
                 | Some i => bool_decide (in_key i = oldKey)
                 | None => false
                 end in
    let l := if exact then inodes n
             else take index (inodes n) ++ mkInode 0 0 [] [] :: drop index (inodes n) in
    Ret (set_inodes (<[index := mkInode flags pgid newKey value]> l) n).

Definition del (key : list Z) (n : node) : node :=
  let index := lower_bound (keys n) key in
  match inodes n !! index with
  | Some i =>
      if decide (in_key i = key) then
        mkNode (isLeaf n) true (spilled n) (n_key n) (n_pgid n)
               (take index (inodes n) ++ drop (S index) (inodes n))
      else n
  | None => n
  end.

(** *** read *)

Definition read_inode (leaf : bool) (b : list Z) (i : Z) : outcome unit inode :=
  r ←
    (if leaf then
       e ← leafPageElement i b; k ← leaf_key i b; v ← leaf_value i b;
       Ret (mkInode (le_flags e) 0 k v)
     else
       e ← branchPageElement i b; k ← branch_key i b;
       Ret (mkInode 0 (be_pgid e) k []));
  if (length (in_key r) =? 0)%nat then Panic else Ret r.

Fixpoint read_loop (leaf : bool) (b : list Z) (n : nat) (i : Z) : outcome unit (list inode) :=
  match n with
  | O => Ret []
  | S n => x ← read_inode leaf b i; l ← read_loop leaf b n (i + 1); Ret (x :: l)
  end.

Definition page_isLeaf (p : page) : bool := negb (Z.land (pg_flags p) leafPageFlag =? 0).

(** read assigns the fields of [n] that come from the page. *)
Definition read (p : page) (n : node) : outcome unit node :=
  l ← read_loop (page_isLeaf p) (pg_body p) (Z.to_nat (pg_count p)) 0;
  Ret (mkNode (page_isLeaf p) (unbalanced n) (spilled n) (in_key <$> head l) (pg_id p) l).

(** *** write *)

(** One round of the loop of write: [off] is where b starts and [rem] its length. *)
Definition write_item (leaf : bool) (pid : Z) (i off rem : Z) (x : inode) (b : list Z)
    : outcome unit (Z * Z * list Z) :=
  if (length (in_key x) =? 0)%nat then Panic
  else if rem =? 0 then Panic
  else
    let klen := Z.of_nat (length (in_key x)) in
    let vlen := Z.of_nat (length (in_value x)) in
    let addr := pageElementSize leaf * i in
    b ←
      (if leaf then
         mem_write addr (leafElem_bytes (mkLeafElem (in_flags x) (u32 (off - addr)) (u32 klen) (u32 vlen))) b
       else
         b ← mem_write addr (branchElem_bytes (mkBranchElem (u32 (off - addr)) (u32 klen) (in_pgid x))) b;
         if in_pgid x =? pid then Panic else Ret b);
    let rem := if rem <? klen + vlen then maxAllocSize else rem in
    if rem <? klen + vlen then Panic
    else
      b ← mem_write off (in_key x) b;
      b ← mem_write (off + klen) (in_value x) b;
      Ret (off + klen + vlen, rem - klen - vlen, b).

Fixpoint write_loop (leaf : bool) (pid : Z) (l : list inode) (i off rem : Z) (b : list Z)
    : outcome unit (list Z) :=
  match l with
  | [] => Ret b
  | x :: l =>
      '(off, rem, b) ← write_item leaf pid i off rem x b;
      write_loop leaf pid l (i + 1) off rem b
  end.

Definition write (n : node) (p : page) : outcome unit page :=
  let flags := Z.lor (pg_flags p) (if isLeaf n then leafPageFlag else branchPageFlag) in
  if 0xFFFF <=? Z.of_nat (length (inodes n)) then Panic
  else
    let cnt := u16 (Z.of_nat (length (inodes n))) in
    if cnt =? 0 then Ret (mkPage (pg_id p) flags cnt (pg_overflow p) (pg_body p))
    else
      let off := pageElementSize (isLeaf n) * Z.of_nat (length (inodes n)) in
      b ← write_loop (isLeaf n) (pg_id p) (inodes n) 0 off (maxAllocSize - off) (pg_body p);
      Ret (mkPage (pg_id p) flags cnt (pg_overflow p) b).

(** *** split *)

(** The loop of splitIndex over the items that may go to the first page. *)
Fixpoint splitIndex_loop (leaf : bool) (threshold : Z) (l : list inode) (i : nat)
    (index : nat) (sz : Z) : nat * Z :=
  match l with
  | [] => (index, sz)
  | x :: l =>
      let elsize := item_size leaf x in
      if (minKeysPerPage <=? i)%nat && (threshold <? sz + elsize) then (i, sz)
      else splitIndex_loop leaf threshold l (S i) i (sz + elsize)
  end.

Definition splitIndex (threshold : Z) (n : node) : nat * Z :=
  splitIndex_loop (isLeaf n) threshold
    (take (length (inodes n) - minKeysPerPage) (inodes n)) 0 0 pageHeaderSize.

(** float64 arithmetic of the fill percent. *)
Definition minFillPercent : spec_float := S754_finite false 7205759403792794 (-56).
Definition maxFillPercent : spec_float := S754_finite false 4503599627370496 (-52).

Definition float64_of_int (z : Z) : spec_float := binary_normalize 53 1024 z 0 false.

(** int(x): truncation; a value that is not in range is implementation-defined in Go,
    the minimum integer on amd64. *)
Definition int_of_float64 (x : spec_float) : Z :=
  let r := match x with
           | S754_zero _ => 0
           | S754_finite s m e =>
               let a := if 0 <=? e then Z.pos m * 2 ^ e else Z.pos m / 2 ^ (- e) in
               if s then - a else a
           | _ => - 2 ^ 63
           end in
  if (- 2 ^ 63 <=? r) && (r <? 2 ^ 63) then r else - 2 ^ 63.

Definition fill_threshold (pageSize : Z) (fillPercent : spec_float) : Z :=
  let fillPercent := if SFltb fillPercent minFillPercent then minFillPercent
                     else if SFltb maxFillPercent fillPercent then maxFillPercent
                     else fillPercent in
  int_of_float64 (SFmul 53 1024 (float64_of_int pageSize) fillPercent).

(** splitTwo: the first node is [n] itself, the second a new node of the same parent. *)
Definition splitTwo (pageSize : Z) (fillPercent : spec_float) (n : node) : node * option node :=
  if (length (inodes n) <=? minKeysPerPage * 2)%nat || sizeLessThan pageSize n then (n, None)
  else
    let i := (splitIndex (fill_threshold pageSize fillPercent) n).1 in
    (set_inodes (take i (inodes n)) n,
     Some (mkNode (isLeaf n) false false None 0 (drop i (inodes n)))).

(** The loop of split: each round leaves fewer inodes, so their number is fuel enough. *)
Fixpoint split_loop (fuel : nat) (pageSize : Z) (fillPercent : spec_float) (n : node)
    : option (list node) :=
  match fuel with
  | O => None
  | S fuel =>
      match splitTwo pageSize fillPercent n with
      | (a, None) => Some [a]
      | (a, Some b) => l ← split_loop fuel pageSize fillPercent b; Some (a :: l)
      end
  end.

Definition split (pageSize : Z) (fillPercent : spec_float) (n : node) : option (list node) :=
  split_loop (S (length (inodes n))) pageSize fillPercent n.

Example threshold_half : fill_threshold 4096 (S754_finite false 4503599627370496 (-53)) = 2048.
Proof. vm_compute. reflexivity. Qed.

Example threshold_min : fill_threshold 4096 (S754_zero false) = 409.
Proof. vm_compute. reflexivity. Qed.

Example threshold_max : fill_threshold 4096 (S754_infinity false) = 4096.
Proof. vm_compute. reflexivity. Qed.

(** ** Memory *)

Lemma mem_read_ok off n b : 0 <= off -> 0 <= n -> off + n <= Z.of_nat (length b) ->
  mem_read off n b = Ret (slice (Z.to_nat off) (Z.to_nat off + Z.to_nat n) b).
Proof.
  intros. unfold mem_read. destruct (Z.ltb_spec (Z.of_nat (length b)) (off + n)); [lia|].
  destruct (Z.ltb_spec off 0); [lia|]. by destruct (Z.ltb_spec n 0); [lia|].
Qed.

Lemma mem_write_ok off bs b : 0 <= off -> off + Z.of_nat (length bs) <= Z.of_nat (length b) ->
  exists b', mem_write off bs b = Ret b' /\ length b' = length b.
Proof.
  intros. unfold mem_write. destruct (Z.ltb_spec (Z.of_nat (length b)) (off + Z.of_nat (length bs))); [lia|].
  destruct (Z.ltb_spec off 0); [lia|]. eexists. split; [reflexivity|]. apply length_splice. lia.
Qed.

Lemma mem_write_inv off bs b b' : mem_write off bs b = Ret b' ->
  0 <= off /\ off + Z.of_nat (length bs) <= Z.of_nat (length b) /\ b' = splice (Z.to_nat off) bs b.
Proof. unfold mem_write. destruct (_ || _) eqn:E; [done|]. intros [= <-]. zbool. split_and!; [lia|lia|done]. Qed.

(** A write does not change the bytes beside it. *)
Lemma mem_read_other off bs b b' q n : mem_write off bs b = Ret b' ->
  q + n <= off \/ off + Z.of_nat (length bs) <= q -> mem_read q n b' = mem_read q n b.
Proof.
  intros (H1 & H2 & ->)%mem_write_inv Hd. unfold mem_read. rewrite length_splice by lia.
  destruct (_ || _) eqn:E; [done|]. zbool. f_equal. unfold slice, splice.
  replace (Z.to_nat q + Z.to_nat n - Z.to_nat q)%nat with (Z.to_nat n) by lia.
  destruct Hd as [Hd|Hd].
  - rewrite drop_app_le by (rewrite length_take; lia).
    rewrite take_app_le by (rewrite length_drop, length_take; lia).
    rewrite !take_drop_commute, take_take. do 2 f_equal. lia.
  - rewrite drop_app_ge by (rewrite length_take; lia).
    rewrite drop_app_ge by (rewrite length_take; lia).
    rewrite drop_drop, length_take. do 2 f_equal. lia.
Qed.

(** Reading what was written. *)
Lemma mem_read_same off bs b b' n : mem_write off bs b = Ret b' -> n = Z.of_nat (length bs) ->
  mem_read off n b' = Ret bs.
Proof.
  intros (H1 & H2 & ->)%mem_write_inv ->. rewrite mem_read_ok; [|lia|lia|rewrite length_splice; lia].
  f_equal. unfold slice, splice. rewrite Nat2Z.id.
  rewrite drop_app_ge by (rewrite length_take; lia). rewrite length_take.
  replace (Z.to_nat off - Z.to_nat off `min` length b)%nat with 0%nat by lia.
  replace (Z.to_nat off + length bs - Z.to_nat off)%nat with (length bs) by lia.
  apply take_app_length.
Qed.

(** ** Elements *)

Lemma leafElem_decode e :
  0 <= le_flags e < 2 ^ 32 -> 0 <= le_pos e < 2 ^ 32 -> 0 <= le_ksize e < 2 ^ 32 -> 0 <= le_vsize e < 2 ^ 32 ->
  let b := leafElem_bytes e in
  mkLeafElem (le_get (slice 0 4 b)) (le_get (slice 4 8 b)) (le_get (slice 8 12 b)) (le_get (slice 12 16 b)) = e.
Proof.
  intros H1 H2 H3 H4 b. unfold b, leafElem_bytes.
  pose proof (length_le_put 4 (le_flags e)). pose proof (length_le_put 4 (le_pos e)).
  pose proof (length_le_put 4 (le_ksize e)). pose proof (length_le_put 4 (le_vsize e)).
  destruct e as [f p k v]; cbn [le_flags le_pos le_ksize le_vsize] in *. f_equal.
  - rewrite slice_app_start by lia. by apply le_get_put_id.
  - rewrite slice_app_mid by lia. by apply le_get_put_id.
  - rewrite (app_assoc (le_put 4 f)), slice_app_mid by (rewrite ?length_app; lia). by apply le_get_put_id.
  - rewrite !app_assoc, slice_app_end by (rewrite ?length_app; lia). by apply le_get_put_id.
Qed.

Lemma branchElem_decode e :
  0 <= be_pos e < 2 ^ 32 -> 0 <= be_ksize e < 2 ^ 32 -> 0 <= be_pgid e < 2 ^ 64 ->
  let b := branchElem_bytes e in
  mkBranchElem (le_get (slice 0 4 b)) (le_get (slice 4 8 b)) (le_get (slice 8 16 b)) = e.
Proof.
  intros H1 H2 H3 b. unfold b, branchElem_bytes.
  pose proof (length_le_put 4 (be_pos e)). pose proof (length_le_put 4 (be_ksize e)).
  pose proof (length_le_put 8 (be_pgid e)).
  destruct e as [p k g]; cbn [be_pos be_ksize be_pgid] in *. f_equal.
  - rewrite slice_app_start by lia. by apply le_get_put_id.
  - rewrite slice_app_mid by lia. by apply le_get_put_id.
  - rewrite !app_assoc, slice_app_end by (rewrite ?length_app; lia). by apply le_get_put_id.
Qed.

Lemma length_leafElem_bytes e : length (leafElem_bytes e) = 16%nat.
Proof. unfold leafElem_bytes. by rewrite !length_app, !length_le_put. Qed.

Lemma length_branchElem_bytes e : length (branchElem_bytes e) = 16%nat.
Proof. unfold branchElem_bytes. by rewrite !length_app, !length_le_put. Qed.

(** ** Writing and reading items *)

Definition data_len (x : inode) : Z := Z.of_nat (length (in_key x)) + Z.of_nat (length (in_value x)).

Fixpoint data_size (l : list inode) : Z :=
  match l with
  | [] => 0
  | x :: l => data_len x + data_size l
  end.

Lemma data_size_cons x l : data_size (x :: l) = data_len x + data_size l.
Proof. reflexivity. Qed.

Lemma data_size_nonneg l : 0 <= data_size l.
Proof. induction l as [|x l IH]; cbn [data_size]; [lia|]. unfold data_len. lia. Qed.

(** What a page holds of an item: branch pages no flags and no value, leaf pages no
    child page. *)
Definition norm (leaf : bool) (x : inode) : inode :=
  if leaf then mkInode (in_flags x) 0 (in_key x) (in_value x)
  else mkInode 0 (in_pgid x) (in_key x) [].

Record item_ok (leaf : bool) (pid : Z) (x : inode) : Prop := {
  io_key : in_key x <> [];
  io_flags : 0 <= in_flags x < 2 ^ 32;
  io_pgid : 0 <= in_pgid x < 2 ^ 64;
  io_self : leaf = false -> in_pgid x <> pid
}.

Definition elem_of_item (leaf : bool) (i off : Z) (x : inode) : list Z :=
  if leaf then
    leafElem_bytes (mkLeafElem (in_flags x) (u32 (off - 16 * i)) (u32 (Z.of_nat (length (in_key x))))
                               (u32 (Z.of_nat (length (in_value x)))))
  else
    branchElem_bytes (mkBranchElem (u32 (off - 16 * i)) (u32 (Z.of_nat (length (in_key x)))) (in_pgid x)).

Lemma pageElementSize_16 leaf : pageElementSize leaf = 16.
Proof. by destruct leaf. Qed.

(** The i-th item is on the page: its element, and its data at [off]. *)
Record stored (leaf : bool) (b : list Z) (i off : Z) (x : inode) : Prop := {
  st_elem : mem_read (16 * i) 16 b = Ret (elem_of_item leaf i off x);
  st_key : mem_read off (Z.of_nat (length (in_key x))) b = Ret (in_key x);
  st_value : mem_read (off + Z.of_nat (length (in_key x))) (Z.of_nat (length (in_value x))) b
             = Ret (in_value x)
}.

Lemma key_nonempty (k : list Z) : k <> [] -> (length k =? 0)%nat = false.
Proof. by destruct k. Qed.

Lemma elem_bytes_ok addr pos n b : pos < maxAllocSize -> n <= maxAllocSize ->
  elem_bytes addr pos n b = mem_read (addr + pos) n b.
Proof.
  intros. unfold elem_bytes. destruct (Z.leb_spec maxAllocSize pos); [lia|].
  by destruct (Z.ltb_spec maxAllocSize n); [lia|].
Qed.

Lemma stored_read leaf b i off x pid : item_ok leaf pid x -> stored leaf b i off x ->
  0 <= 16 * i <= off -> off + data_len x <= maxAllocSize - 1 ->
  read_inode leaf b i = Ret (norm leaf x).
Proof.
  intros [Hk Hf Hp _] [He Hkey Hval] Hi Hoff.
  unfold data_len, maxAllocSize in *. unfold read_inode, leaf_key, leaf_value, branch_key,
    leafPageElement, branchPageElement, leafPageElementSize, branchPageElementSize, elem_of_item in *.
  assert (Hpos : forall z, 0 <= z <= 2147483646 -> u32 z = z) by (intros; apply wrap_id; lia).
  destruct leaf; rewrite He; cbn [mbind outcome_bind].
  - pose proof (leafElem_decode (mkLeafElem (in_flags x) (u32 (off - 16 * i))
      (u32 (Z.of_nat (length (in_key x)))) (u32 (Z.of_nat (length (in_value x)))))) as E.
    cbv zeta in E. rewrite E; cbn [le_flags le_pos le_ksize le_vsize]; try (rewrite Hpos by lia; lia); [|lia].
    clear E. rewrite (Hpos (off - 16 * i)), (Hpos (Z.of_nat (length (in_key x)))),
      (Hpos (Z.of_nat (length (in_value x)))) by lia. rewrite Hpos by lia.
    rewrite !elem_bytes_ok by (unfold maxAllocSize; lia).
    replace (16 * i + (off - 16 * i + Z.of_nat (length (in_key x))))
      with (off + Z.of_nat (length (in_key x))) by lia.
    replace (16 * i + (off - 16 * i)) with off by lia.
    rewrite Hkey, Hval.
    cbn [mbind outcome_bind in_key]. by rewrite key_nonempty.
  - pose proof (branchElem_decode (mkBranchElem (u32 (off - 16 * i))
      (u32 (Z.of_nat (length (in_key x)))) (in_pgid x))) as E.
    cbv zeta in E. rewrite E; cbn [be_pos be_ksize be_pgid]; try (rewrite Hpos by lia; lia); [|lia].
    clear E. rewrite !Hpos by lia. rewrite elem_bytes_ok by (unfold maxAllocSize; lia).
    replace (16 * i + (off - 16 * i)) with off by lia.
    rewrite Hkey.
    cbn [mbind outcome_bind in_key]. by rewrite key_nonempty.
Qed.

(** A region is left alone by [k] rounds from item [i] and data offset [off] on. *)
Definition untouched (k i off q n : Z) : Prop := q + n <= 16 * i \/ (16 * (i + k) <= q /\ q + n <= off).

Lemma write_item_spec leaf pid i off rem x b : item_ok leaf pid x ->
  0 <= i -> 16 * (i + 1) <= off -> off + data_len x <= Z.of_nat (length b) ->
  Z.of_nat (length b) <= maxAllocSize -> off + rem = maxAllocSize ->
  exists b', write_item leaf pid i off rem x b = Ret (off + data_len x, rem - data_len x, b') /\
    length b' = length b /\ stored leaf b' i off x /\
    (forall q n, untouched 1 i off q n -> mem_read q n b' = mem_read q n b).
Proof.
  intros [Hk Hf Hp Hs] Hi Hoff Hlen Hmax Hrem. unfold data_len in *.
  assert (Hklen : (0 < length (in_key x))%nat) by (destruct (in_key x); [done|cbn; lia]).
  unfold write_item. rewrite key_nonempty by done.
  destruct (Z.eqb_spec rem 0); [lia|]. rewrite pageElementSize_16.
  assert (He : length (elem_of_item leaf i off x) = 16%nat)
    by (destruct leaf; [apply length_leafElem_bytes|apply length_branchElem_bytes]).
  destruct (mem_write_ok (16 * i) (elem_of_item leaf i off x) b) as (b1 & W1 & L1); [lia|lia|].
  destruct (mem_write_ok off (in_key x) b1) as (b2 & W2 & L2); [lia|lia|].
  destruct (mem_write_ok (off + Z.of_nat (length (in_key x))) (in_value x) b2) as (b3 & W3 & L3); [lia|lia|].
  match goal with |- exists b', mbind _ ?m = _ /\ _ => assert (E : m = Ret b1) end.
  { unfold elem_of_item in W1. destruct leaf; rewrite W1; [done|]. cbn [mbind outcome_bind].
    by destruct (Z.eqb_spec (in_pgid x) pid); [destruct (Hs eq_refl)|]. }
  rewrite E. cbn [mbind outcome_bind].
  destruct (Z.ltb_spec rem (Z.of_nat (length (in_key x)) + Z.of_nat (length (in_value x)))); [lia|].
  destruct (Z.ltb_spec rem (Z.of_nat (length (in_key x)) + Z.of_nat (length (in_value x)))); [lia|].
  rewrite W2. cbn [mbind outcome_bind]. rewrite W3. cbn [mbind outcome_bind].
  exists b3. split; [do 3 f_equal; lia|]. split; [lia|]. split.
  - split.
    + rewrite (mem_read_other _ _ _ _ _ _ W3), (mem_read_other _ _ _ _ _ _ W2) by lia.
      eapply mem_read_same; [exact W1|]. by rewrite He.
    + rewrite (mem_read_other _ _ _ _ _ _ W3) by lia. by eapply mem_read_same.
    + by eapply mem_read_same.
  - intros q m Hq. unfold untouched in Hq.
    rewrite (mem_read_other _ _ _ _ _ _ W3), (mem_read_other _ _ _ _ _ _ W2),
      (mem_read_other _ _ _ _ _ _ W1) by lia. done.
Qed.

Lemma write_loop_spec leaf pid l : forall i off rem b,
  Forall (item_ok leaf pid) l -> 0 <= i -> 16 * (i + Z.of_nat (length l)) <= off ->
  off + data_size l <= Z.of_nat (length b) -> Z.of_nat (length b) <= maxAllocSize ->
  off + rem = maxAllocSize ->
  exists b', write_loop leaf pid l i off rem b = Ret b' /\ length b' = length b /\
    (forall j x, l !! j = Some x ->
       stored leaf b' (i + Z.of_nat j) (off + data_size (take j l)) x) /\
    (forall q n, untouched (Z.of_nat (length l)) i off q n -> mem_read q n b' = mem_read q n b).
Proof.
  induction l as [|x l IH]; intros i off rem b Hl Hi Hoff Hlen Hmax Hrem; cbn [write_loop].
  { exists b. split_and!; try done. }
  apply Forall_cons in Hl as [Hx Hl]. rewrite data_size_cons in Hlen.
  pose proof (data_size_nonneg l). cbn [length] in Hoff.
  assert (0 <= data_len x) by (unfold data_len; lia).
  destruct (write_item_spec leaf pid i off rem x b) as (b1 & W & L1 & S1 & U1); auto; [lia|lia|].
  rewrite W. cbn [mbind outcome_bind].
  destruct (IH (i + 1) (off + data_len x) (rem - data_len x) b1) as (b' & W' & L' & S' & U');
    [done|lia|lia|lia|lia|lia|].
  exists b'. split; [done|]. split; [lia|]. split.
  - intros [|j] y Hj; cbn in Hj.
    + injection Hj as <-. cbn [take]. change (data_size []) with 0. rewrite !Z.add_0_r.
      destruct S1 as [A1 A2 A3]. unfold data_len, untouched in *.
      split; (rewrite U'; [done|lia]).
    + cbn [take]. rewrite data_size_cons. specialize (S' j y Hj).
      replace (i + Z.of_nat (S j)) with (i + 1 + Z.of_nat j) by lia.
      by replace (off + (data_len x + data_size (take j l))) with (off + data_len x + data_size (take j l)) by lia.
  - intros q n Hq. unfold untouched in *. cbn [length] in Hq. rewrite U'; [apply U1; lia|lia].
Qed.

Lemma read_loop_spec leaf b l : forall i,
  (forall j x, l !! j = Some x -> read_inode leaf b (i + Z.of_nat j) = Ret x) ->
  read_loop leaf b (length l) i = Ret l.
Proof.
  induction l as [|x l IH]; intros i H; cbn [read_loop length]; [done|].
  pose proof (H 0%nat x eq_refl) as Hx. rewrite Z.add_0_r in Hx. rewrite Hx. cbn [mbind outcome_bind].
  rewrite IH; [done|]. intros j y Hj. specialize (H (S j) y Hj).
  by replace (i + 1 + Z.of_nat j) with (i + Z.of_nat (S j)) by lia.
Qed.

(** A node that write accepts, and a page it fits on. *)
Record writable (n : node) (p : page) : Prop := {
  wr_items : Forall (item_ok (isLeaf n) (pg_id p)) (inodes n);
  wr_count : Z.of_nat (length (inodes n)) < 0xFFFF;
  wr_size : size n <= pageHeaderSize + Z.of_nat (length (pg_body p));
  wr_body : Z.of_nat (length (pg_body p)) < maxAllocSize;
  wr_flags : Z.land (pg_flags p) (Z.lor leafPageFlag branchPageFlag) = 0
}.

Lemma size_loop_data leaf l : forall sz,
  size_loop leaf sz l = sz + 16 * Z.of_nat (length l) + data_size l.
Proof.
  induction l as [|x l IH]; intros sz; cbn [size_loop length data_size]; [lia|].
  rewrite IH. unfold item_size, data_len. rewrite pageElementSize_16. lia.
Qed.

Lemma size_data n : size n = 16 + 16 * Z.of_nat (length (inodes n)) + data_size (inodes n).
Proof. apply size_loop_data. Qed.

Lemma data_size_take_lookup l j x : l !! j = Some x ->
  data_size (take j l) + data_len x <= data_size l.
Proof.
  revert j. induction l as [|y l IH]; intros [|j] H; cbn in H; try done; cbn [take data_size].
  - injection H as <-. pose proof (data_size_nonneg l). lia.
  - specialize (IH _ H). lia.
Qed.

Lemma written_isLeaf flags (leaf : bool) : Z.land flags (Z.lor leafPageFlag branchPageFlag) = 0 ->
  negb (Z.land (Z.lor flags (if leaf then leafPageFlag else branchPageFlag)) leafPageFlag =? 0) = leaf.
Proof.
  intros H. rewrite Z.land_lor_distr_l.
  assert (E : Z.land flags leafPageFlag = 0).
  { rewrite Z.land_lor_distr_r in H. by apply Z.lor_eq_0_iff in H as [? _]. }
  rewrite E. by destruct leaf.
Qed.

Lemma write_read n p m : writable n p ->
  exists p', write n p = Ret p' /\ pg_id p' = pg_id p /\ length (pg_body p') = length (pg_body p) /\
    read p' m = Ret (mkNode (isLeaf n) (unbalanced m) (spilled m) (head (keys n)) (pg_id p)
                            (norm (isLeaf n) <$> inodes n)).
Proof.
  intros [Hi Hc Hs Hb Hf]. rewrite size_data in Hs. unfold pageHeaderSize in Hs.
  unfold write. destruct (Z.leb_spec 0xFFFF (Z.of_nat (length (inodes n)))); [lia|].
  rewrite (wrap_id 16) by lia. unfold read, keys.
  destruct (Z.eqb_spec (Z.of_nat (length (inodes n))) 0) as [Hz|Hz].
  { destruct (inodes n) eqn:E; [|cbn [length] in Hz; lia]. eexists. split; [reflexivity|].
    split; [done|]. split; [done|]. unfold page_isLeaf; cbn [pg_flags pg_count pg_body pg_id].
    rewrite written_isLeaf by done. done. }
  rewrite pageElementSize_16.
  destruct (write_loop_spec (isLeaf n) (pg_id p) (inodes n) 0 (16 * Z.of_nat (length (inodes n)))
    (maxAllocSize - 16 * Z.of_nat (length (inodes n))) (pg_body p)) as (b' & W & L & S & _);
    [done|lia|lia|lia|lia|lia|].
  rewrite W. cbn [mbind outcome_bind]. eexists. split; [reflexivity|]. split; [done|]. split; [done|].
  unfold page_isLeaf; cbn [pg_flags pg_count pg_body pg_id]. rewrite written_isLeaf by done.
  rewrite Nat2Z.id, <- (length_fmap (norm (isLeaf n))), read_loop_spec.
  - cbn [mbind outcome_bind]. do 2 f_equal. destruct (inodes n); [done|]. by destruct (isLeaf n).
  - intros j y Hj. rewrite list_lookup_fmap in Hj. destruct (inodes n !! j) as [x|] eqn:E; [|done].
    injection Hj as <-. specialize (S j x E).
    pose proof (data_size_take_lookup _ _ _ E). pose proof (lookup_lt_Some _ _ _ E).
    pose proof (data_size_nonneg (take j (inodes n))).
    rewrite Forall_lookup in Hi. eapply stored_read; [by eapply Hi|exact S|lia|lia].
Qed.

(** ** Insertion and deletion *)

(** Where a key is, or would be, among sorted items. *)
Lemma lower_bound_split (l : list inode) k : keys_sorted (in_key <$> l) ->
  exists A (m : option inode) B,
    l = A ++ option_list m ++ B /\ lower_bound (in_key <$> l) k = length A /\
    (forall x, x ∈ A -> key_lt (in_key x) k) /\ (forall x, x ∈ B -> key_lt k (in_key x)) /\
    (forall x, m = Some x -> in_key x = k).
Proof.
  intros Hs. destruct (lower_bound_spec _ k Hs) as (H1 & H2 & H3).
  set (i := lower_bound (in_key <$> l) k) in *. rewrite length_fmap in H1.
  assert (HA : forall x, x ∈ take i l -> key_lt (in_key x) k).
  { intros x Hx. apply list_elem_of_lookup in Hx as [j Hj]. apply lookup_take_Some in Hj as [Hj ?].
    apply (H2 j); [done|]. by rewrite list_lookup_fmap, Hj. }
  assert (HB : forall j x, (i <= j)%nat -> l !! j = Some x -> ~ key_lt (in_key x) k).
  { intros j x Hj Hx. apply (H3 j); [done|]. by rewrite list_lookup_fmap, Hx. }
  destruct (l !! i) as [x|] eqn:Ex; [destruct (decide (in_key x = k)) as [Hk|Hk]|].
  - exists (take i l), (Some x), (drop (S i) l). cbn [option_list option_rect app]. split_and!; auto.
    + by rewrite take_drop_middle.
    + rewrite length_take. lia.
    + intros y Hy. apply list_elem_of_lookup in Hy as [j Hj]. rewrite lookup_drop in Hj.
      rewrite <- Hk. apply (keys_sorted_lookup _ i (S i + j) _ _ Hs); [lia| |]; rewrite list_lookup_fmap.
      * by rewrite Ex.
      * by rewrite Hj.
    + intros y [= <-]. done.
  - exists (take i l), None, (drop i l). cbn [option_list option_rect app]. split_and!; auto.
    + by rewrite take_drop.
    + rewrite length_take. lia.
    + intros y Hy. apply list_elem_of_lookup in Hy as [j Hj]. rewrite lookup_drop in Hj.
      pose proof (HB i x ltac:(lia) Ex) as Hx. apply not_key_lt in Hx as [?|Hx]; [done|].
      destruct j as [|j].
      * rewrite Nat.add_0_r, Ex in Hj. by injection Hj as <-.
      * apply (key_lt_trans _ (in_key x)); [done|].
        apply (keys_sorted_lookup _ i (i + S j) _ _ Hs); [lia| |]; rewrite list_lookup_fmap.
        -- by rewrite Ex.
        -- by rewrite Hj.
    + done.
  - exists (take i l), None, (drop i l). cbn [option_list option_rect app]. split_and!; auto.
    + by rewrite take_drop.
    + rewrite length_take. lia.
    + apply lookup_ge_None in Ex. rewrite drop_ge by done. intros y Hy. by apply elem_of_nil in Hy.
    + done.
Qed.

(** The items of a good node are strictly ordered by their keys, none of them empty. *)
Record node_ok (n : node) : Prop := {
  nd_sorted : keys_sorted (keys n);
  nd_key : Forall (fun k => k <> []) (keys n)
}.

(** A node as a map from keys to items. *)
Definition node_map (n : node) : gmap (list Z) inode :=
  list_to_map ((fun x => (in_key x, x)) <$> inodes n).

Lemma keys_sorted_NoDup l : keys_sorted l -> NoDup l.
Proof.
  intros Hs. apply NoDup_alt. intros i j x Hi Hj. by eapply keys_sorted_inj.
Qed.

Lemma node_map_Some n k x : keys_sorted (keys n) ->
  node_map n !! k = Some x <-> x ∈ inodes n /\ in_key x = k.
Proof.
  intros Hs. unfold node_map. rewrite <- elem_of_list_to_map.
  - rewrite list_elem_of_fmap. split.
    + intros (y & [= -> ->] & Hy). done.
    + intros [Hx <-]. eauto.
  - rewrite <- list_fmap_compose. by apply keys_sorted_NoDup.
Qed.

Lemma keys_sorted_insert A B k :
  keys_sorted (A ++ B) -> (forall x, x ∈ A -> key_lt x k) -> (forall x, x ∈ B -> key_lt k x) ->
  keys_sorted (A ++ k :: B).
Proof.
  unfold keys_sorted. intros Hs HA HB. apply StronglySorted_app in Hs as (H1 & H2 & H3).
  apply StronglySorted_app. split_and!; [|done|].
  - intros x y Hx Hy. apply elem_of_cons in Hy as [->|Hy]; eauto.
  - constructor; [done|]. apply Forall_forall. auto.
Qed.

Lemma keys_sorted_remove A m B : keys_sorted (A ++ m ++ B) -> keys_sorted (A ++ B).
Proof.
  unfold keys_sorted. intros Hs. apply StronglySorted_app in Hs as (H1 & H2 & H3).
  apply StronglySorted_app. split_and!; [|done|by apply StronglySorted_app_1_r in H3].
  intros x y Hx Hy. apply H1; [done|]. apply elem_of_app. by right.
Qed.

Lemma node_map_split n A m B k : keys_sorted (keys n) -> inodes n = A ++ option_list m ++ B ->
  (forall x, x ∈ A -> key_lt (in_key x) k) -> (forall x, x ∈ B -> key_lt k (in_key x)) ->
  (forall x, m = Some x -> in_key x = k) ->
  forall q x, delete k (node_map n) !! q = Some x <-> x ∈ A ++ B /\ in_key x = q.
Proof.
  intros Hs E HA HB Hm q x. rewrite lookup_delete_Some, node_map_Some, E by done.
  rewrite !elem_of_app. split.
  - intros (Hne & [Hx|[Hx|Hx]] & <-); [auto| |auto].
    destruct m as [y|]; cbn in Hx; [|by apply elem_of_nil in Hx].
    apply list_elem_of_singleton in Hx as ->. destruct Hne. symmetry. by apply Hm.
  - intros [[Hx|Hx] <-]; (split; [|by auto]); intros ->; eapply key_lt_irrefl; eauto.
Qed.

Definition rekeys (oldKey newKey : list Z) (n : node) : Prop :=
  forall x, x ∈ keys n -> x <> oldKey -> Compare x newKey = Compare x oldKey.

(** put replaces the item with the key, or inserts between its neighbours. *)
Lemma put_split hwm oldKey newKey value pgid flags n A m B :
  pgid < hwm -> oldKey <> [] -> newKey <> [] ->
  inodes n = A ++ option_list m ++ B -> lower_bound (in_key <$> inodes n) oldKey = length A ->
  (forall x, x ∈ B -> key_lt oldKey (in_key x)) -> (forall x, m = Some x -> in_key x = oldKey) ->
  put hwm oldKey newKey value pgid flags n =
  Ret (set_inodes (A ++ mkInode flags pgid newKey value :: B) n).
Proof.
  intros Hp Ho Hn E Hlb HB Hm.
  unfold put. destruct (Z.leb_spec hwm pgid); [lia|]. rewrite !key_nonempty by done.
  unfold keys. rewrite Hlb. do 2 f_equal. rewrite E. destruct m as [y|]; cbn [option_list option_rect app].
  - rewrite list_lookup_middle by done. rewrite bool_decide_eq_true_2 by auto.
    by rewrite insert_app_r_alt, Nat.sub_diag by lia.
  - rewrite lookup_app_r, Nat.sub_diag by lia.
    assert (Hex : match B !! 0%nat with Some i => bool_decide (in_key i = oldKey) | None => false end = false).
    { destruct B as [|y B]; [done|]. cbn. apply bool_decide_eq_false_2. intros Hy.
      apply (key_lt_irrefl oldKey). rewrite <- Hy at 2. apply HB. by left. }
    rewrite Hex, take_app_length, drop_app_length.
    by rewrite insert_app_r_alt, Nat.sub_diag by lia.
Qed.

Lemma put_spec hwm oldKey newKey value pgid flags n :
  node_ok n -> pgid < hwm -> oldKey <> [] -> newKey <> [] -> rekeys oldKey newKey n ->
  exists n', put hwm oldKey newKey value pgid flags n = Ret n' /\ node_ok n' /\ isLeaf n' = isLeaf n /\
    node_map n' = <[newKey := mkInode flags pgid newKey value]> (delete oldKey (node_map n)).
Proof.
  intros [Hs Hk] Hp Ho Hn Hr. set (I := mkInode flags pgid newKey value).
  destruct (lower_bound_split (inodes n) oldKey Hs) as (A & m & B & E & Hlb & HA & HB & Hm).
  pose proof (put_split hwm oldKey newKey value pgid flags n A m B Hp Ho Hn E Hlb HB Hm) as Hput.
  assert (HA' : forall x, x ∈ A -> key_lt (in_key x) newKey).
  { intros x Hx. unfold key_lt. rewrite Hr; [by apply HA| |].
    - unfold keys. rewrite E, fmap_app. apply elem_of_app. left. by apply list_elem_of_fmap_2.
    - intros Heq. apply (key_lt_irrefl oldKey). rewrite <- Heq at 1. by apply HA. }
  assert (HB' : forall x, x ∈ B -> key_lt newKey (in_key x)).
  { intros x Hx. unfold key_lt. rewrite Compare_opp, Hr, <- Compare_opp; [by apply HB| |].
    - unfold keys. rewrite E, !fmap_app. rewrite !elem_of_app. right. right. by apply list_elem_of_fmap_2.
    - intros Heq. apply (key_lt_irrefl oldKey). rewrite <- Heq at 2. by apply HB. }
  assert (Hs' : keys_sorted (in_key <$> A ++ I :: B)).
  { rewrite fmap_app, fmap_cons. apply keys_sorted_insert.
    - unfold keys in Hs. rewrite E, !fmap_app in Hs. by apply keys_sorted_remove in Hs.
    - intros x (y & -> & Hy)%list_elem_of_fmap. auto.
    - intros x (y & -> & Hy)%list_elem_of_fmap. auto. }
  exists (set_inodes (A ++ I :: B) n). split; [done|]. split; [|split; [done|]].
  - split; [done|]. unfold keys in *; cbn [set_inodes inodes]. rewrite E, !fmap_app in Hk.
    rewrite fmap_app, fmap_cons. rewrite !Forall_app in Hk. apply Forall_app. split; [tauto|].
    constructor; [done|tauto].
  - apply map_eq. intros q. apply option_eq. intros x.
    rewrite node_map_Some by done. cbn [set_inodes inodes].
    rewrite lookup_insert_Some, (node_map_split n A m B) by done.
    rewrite !elem_of_app, elem_of_cons. split.
    + intros [[Hx|[->|Hx]] <-]; [right|left; done|right]; (split; [|by auto]); intros Heq.
      * specialize (HA' x Hx). rewrite Heq in HA'. by apply key_lt_irrefl in HA'.
      * specialize (HB' x Hx). rewrite Heq in HB'. by apply key_lt_irrefl in HB'.
    + intros [[<- <-]|[Hne [[Hx|Hx] <-]]]; auto.
Qed.

Lemma put_panic hwm oldKey newKey value pgid flags n :
  put hwm oldKey newKey value pgid flags n = Panic <-> hwm <= pgid \/ oldKey = [] \/ newKey = [].
Proof.
  unfold put. destruct (Z.leb_spec hwm pgid); [split; [auto|done]|].
  destruct oldKey, newKey; cbn [length Nat.eqb]; split; intros; auto;
    try done; destruct_or?; (done || lia).
Qed.

(** del removes the item with the key, if there is one. *)
Lemma del_split k n A m B :
  inodes n = A ++ option_list m ++ B -> lower_bound (in_key <$> inodes n) k = length A ->
  (forall x, x ∈ B -> key_lt k (in_key x)) -> (forall x, m = Some x -> in_key x = k) ->
  del k n = match m with
            | Some _ => mkNode (isLeaf n) true (spilled n) (n_key n) (n_pgid n) (A ++ B)
            | None => n
            end.
Proof.
  intros E Hlb HB Hm. unfold del, keys. rewrite Hlb, E.
  destruct m as [y|]; cbn [option_list option_rect app].
  - rewrite list_lookup_middle by done. rewrite decide_True by auto.
    rewrite take_app_length, drop_app_ge by lia.
    by replace (S (length A) - length A)%nat with 1%nat by lia.
  - rewrite lookup_app_r, Nat.sub_diag by lia. destruct B as [|y B]; [done|]. cbn [lookup list_lookup].
    rewrite decide_False; [done|]. intros Hy. apply (key_lt_irrefl k). rewrite <- Hy at 2. apply HB. by left.
Qed.

Lemma keys_split_member n A m B k :
  inodes n = A ++ option_list m ++ B ->
  (forall x, x ∈ A -> key_lt (in_key x) k) -> (forall x, x ∈ B -> key_lt k (in_key x)) ->
  (forall x, m = Some x -> in_key x = k) -> k ∈ keys n <-> is_Some m.
Proof.
  intros E HA HB Hm. unfold keys. rewrite E, !fmap_app, !elem_of_app. split.
  - intros [Hx|[Hx|Hx]].
    + apply list_elem_of_fmap in Hx as (y & -> & Hy). destruct (key_lt_irrefl (in_key y)). auto.
    + destruct m; [done|]. by apply elem_of_nil in Hx.
    + apply list_elem_of_fmap in Hx as (y & -> & Hy). destruct (key_lt_irrefl (in_key y)). auto.
  - intros [y ->]. right. left. cbn. rewrite (Hm y eq_refl). by left.
Qed.

Lemma del_spec k n : node_ok n ->
  node_ok (del k n) /\ isLeaf (del k n) = isLeaf n /\ node_map (del k n) = delete k (node_map n) /\
  (unbalanced (del k n) = unbalanced n || bool_decide (k ∈ keys n)).
Proof.
  intros [Hs Hk]. destruct (lower_bound_split (inodes n) k Hs) as (A & m & B & E & Hlb & HA & HB & Hm).
  pose proof (keys_split_member n A m B k E HA HB Hm) as Hmem.
  rewrite (del_split k n A m B E Hlb HB Hm). destruct m as [y|].
  - cbn [option_list option_rect app] in E.
    assert (Hs' : keys_sorted (in_key <$> A ++ B)).
    { unfold keys in Hs. rewrite E, fmap_app, fmap_cons in Hs. rewrite fmap_app.
      by apply (keys_sorted_remove _ [in_key y]) in Hs. }
    split_and!; [|done| |].
    + split; [done|]. unfold keys in *; cbn [inodes]. rewrite E, fmap_app, fmap_cons, Forall_app, Forall_cons in Hk.
      rewrite fmap_app, Forall_app. tauto.
    + apply map_eq. intros q. apply option_eq. intros x.
      rewrite (node_map_split n A (Some y) B) by done. by rewrite node_map_Some by done.
    + cbn [unbalanced]. rewrite bool_decide_eq_true_2; [by rewrite orb_true_r|]. by apply Hmem.
  - assert (Hnk : ~ k ∈ keys n) by (rewrite Hmem; by intros [? ?]).
    split_and!; [done|done| |].
    + symmetry. apply delete_id. destruct (node_map n !! k) as [x|] eqn:Ex; [|done].
      apply node_map_Some in Ex as [Hx <-]; [|done]. destruct Hnk. by apply list_elem_of_fmap_2.
    + by rewrite bool_decide_eq_false_2, orb_false_r.
Qed.

(** ** Splitting *)

Definition part_size (leaf : bool) (l : list inode) : Z := size_loop leaf pageHeaderSize l.

Lemma size_loop_snoc leaf sz l x : size_loop leaf sz (l ++ [x]) = size_loop leaf sz l + item_size leaf x.
Proof. revert sz. induction l as [|y l IH]; intros sz; cbn [size_loop app]; [done|]. by rewrite IH. Qed.

Lemma item_size_pos leaf x : 16 <= item_size leaf x.
Proof. unfold item_size. rewrite pageElementSize_16. lia. Qed.

Lemma splitIndex_loop_spec leaf th l : forall pre,
  (forall j, (2 < j <= length pre)%nat -> part_size leaf (take j pre) <= th) -> pre ++ l <> [] ->
  let r := (splitIndex_loop leaf th l (length pre) (length pre - 1) (part_size leaf pre)).1 in
  (r <= length (pre ++ l) - 1)%nat /\ (2 <= r \/ r = length (pre ++ l) - 1)%nat /\
  (forall j, (2 < j <= r)%nat -> part_size leaf (take j (pre ++ l)) <= th).
Proof.
  induction l as [|x l IH]; intros pre Hpre Hne; cbn [splitIndex_loop].
  { rewrite app_nil_r. cbn [fst]. split; [lia|]. split; [by right|]. intros j Hj. apply Hpre. lia. }
  unfold minKeysPerPage. destruct (_ && _) eqn:Eb.
  - cbn [fst]. apply andb_true_iff in Eb as [Eb _]. apply Nat.leb_le in Eb.
    rewrite length_app; cbn [length]. split; [lia|]. split; [by left|]. intros j Hj.
    rewrite take_app_le by lia. by apply Hpre.
  - assert (El : S (length pre) = length (pre ++ [x])) by (rewrite length_app; cbn; lia).
    assert (Es : part_size leaf pre + item_size leaf x = part_size leaf (pre ++ [x]))
      by (symmetry; apply size_loop_snoc).
    rewrite Es, El. replace (length pre) with (length (pre ++ [x]) - 1)%nat by lia.
    replace (pre ++ x :: l) with ((pre ++ [x]) ++ l) by (by rewrite <- app_assoc).
    apply IH; [|by destruct pre]. intros j Hj.
    destruct (Nat.eq_dec j (length (pre ++ [x]))) as [->|].
    + rewrite take_ge by lia. rewrite <- Es. apply andb_false_iff in Eb as [Eb|Eb].
      * apply Nat.leb_gt in Eb. lia.
      * by zbool.
    + rewrite take_app_le by lia. apply Hpre. lia.
Qed.

Lemma splitIndex_spec th n : (4 < length (inodes n))%nat ->
  let i := (splitIndex th n).1 in
  (2 <= i <= length (inodes n) - 3)%nat /\
  (i = 2%nat \/ part_size (isLeaf n) (take i (inodes n)) <= th).
Proof.
  intros Hlen. unfold splitIndex, minKeysPerPage.
  pose proof (splitIndex_loop_spec (isLeaf n) th (take (length (inodes n) - 2) (inodes n)) []) as H.
  cbn [length app Nat.sub] in H. specialize (H ltac:(intros; lia)).
  destruct H as (H1 & H2 & H3).
  { intros E. assert (E' : length (take (length (inodes n) - 2) (inodes n)) = 0%nat) by (by rewrite E).
    rewrite length_take in E'. lia. }
  rewrite length_take in H1, H2. change (part_size (isLeaf n) []) with pageHeaderSize in *.
  set (i := (splitIndex_loop _ _ _ _ _ _).1) in *. split; [lia|].
  destruct (Nat.eq_dec i 2%nat) as [|Hi]; [by left|]. right. specialize (H3 i ltac:(lia)).
  rewrite take_take in H3. by replace (i `min` (length (inodes n) - 2))%nat with i in H3 by lia.
Qed.

(** sizeLessThan computes the comparison with the size of a node that has items. *)
Lemma sizeLessThan_loop_spec leaf v l : forall sz, l <> [] ->
  sizeLessThan_loop leaf v sz l = (size_loop leaf sz l <? v).
Proof.
  induction l as [|x l IH]; intros sz Hl; [done|]. cbn [sizeLessThan_loop size_loop].
  destruct (Z.leb_spec v (sz + item_size leaf x)) as [H|H].
  - rewrite size_loop_data. pose proof (data_size_nonneg l). symmetry. apply Z.ltb_ge. lia.
  - destruct l as [|y l]; [|by apply IH]. cbn. symmetry. by apply Z.ltb_lt.
Qed.

Lemma sizeLessThan_spec v n : inodes n <> [] -> sizeLessThan v n = (size n <? v).
Proof. apply sizeLessThan_loop_spec. Qed.

(** The pieces a split may leave: the last one is small in keys or in bytes, the others
    have at least two keys and no more bytes than the threshold unless exactly two keys
    are left. *)
Inductive pieces (pageSize th : Z) (leaf : bool) : list (list inode) -> Prop :=
  | pieces_last l : (length l <= 4)%nat \/ part_size leaf l < pageSize -> pieces pageSize th leaf [l]
  | pieces_cons l ls : (2 <= length l)%nat -> (length l = 2%nat \/ part_size leaf l <= th) ->
      pieces pageSize th leaf ls -> pieces pageSize th leaf (l :: ls).

Lemma split_loop_spec ps fp fuel : forall n, (length (inodes n) < fuel)%nat ->
  exists a rest, split_loop fuel ps fp n = Some (a :: rest) /\
    a = set_inodes (inodes a) n /\
    Forall (fun b => b = mkNode (isLeaf n) false false None 0 (inodes b)) rest /\
    concat (inodes <$> a :: rest) = inodes n /\
    pieces ps (fill_threshold ps fp) (isLeaf n) (inodes <$> a :: rest) /\
    ((2 <= length (inodes n))%nat -> Forall (fun b => 2 <= length (inodes b))%nat (a :: rest)).
Proof.
  induction fuel as [|fuel IH]; intros n Hf; [lia|]. cbn [split_loop]. unfold splitTwo, minKeysPerPage.
  destruct (_ || _) eqn:Eb.
  - exists n, []. split; [done|]. split; [by destruct n|]. split; [constructor|].
    split; [cbn; by rewrite app_nil_r|]. split; [|by repeat constructor].
    constructor. destruct (Nat.leb_spec (length (inodes n)) 4) as [|Hl]; [by left|].
    apply orb_true_iff in Eb as [Eb|Eb]; [apply Nat.leb_le in Eb; lia|]. right.
    rewrite sizeLessThan_spec in Eb; [by apply Z.ltb_lt in Eb|]. intros E. rewrite E in Hl. cbn in Hl. lia.
  - apply orb_false_iff in Eb as [Eb _]. apply Nat.leb_gt in Eb.
    pose proof (splitIndex_spec (fill_threshold ps fp) n ltac:(lia)) as [Hi Hsz].
    set (i := (splitIndex _ n).1) in *.
    destruct (IH (mkNode (isLeaf n) false false None 0 (drop i (inodes n)))) as (b & rest & E & Hb & Hr & Hc & Hp & H2).
    { cbn [inodes]. rewrite length_drop. lia. }
    cbn [isLeaf inodes] in *. rewrite E. cbn [mbind option_bind].
    specialize (H2 ltac:(rewrite length_drop; lia)).
    eexists _, (b :: rest). split; [reflexivity|]. split; [by destruct n|]. split.
    { constructor; [|done]. by rewrite Hb at 1. }
    assert (Hlen : length (take i (inodes n)) = i) by (rewrite length_take; lia).
    split; [|split].
    + rewrite fmap_cons. cbn [concat set_inodes inodes]. rewrite Hc. apply take_drop.
    + rewrite fmap_cons. cbn [set_inodes inodes]. constructor; [lia| |done]. rewrite Hlen. destruct Hsz; auto.
    + intros _. constructor; [|done]. cbn [set_inodes inodes]. lia.
Qed.

(** ** The tests of node_test.go *)

Definition bar : list Z := [98; 97; 114].
Definition baz : list Z := [98; 97; 122].
Definition foo : list Z := [102; 111; 111].

Definition empty_node (leaf : bool) : node := mkNode leaf false false None 0 [].

Example TestNode_put :
  (n ← put 1 baz baz [50] 0 0 (empty_node false); n ← put 1 foo foo [48] 0 0 n;
   n ← put 1 bar bar [49] 0 0 n; n ← put 1 foo foo [51] 0 leafPageFlag n; Ret (inodes n)) =
  Ret [mkInode 0 0 bar [49]; mkInode 0 0 baz [50]; mkInode 2 0 foo [51]].
Proof. vm_compute. reflexivity. Qed.

Definition numbered (n : nat) : list inode :=
  (fun i => mkInode 0 0 [48; 48; 48; 48; 48; 48; 48; 49 + Z.of_nat i]
              [48; 49; 50; 51; 52; 53; 54; 55; 48; 49; 50; 51; 52; 53; 54; 55]) <$> seq 0 n.

Definition half : spec_float := S754_finite false 4503599627370496 (-53).

Example TestNode_split :
  option_map (map (fun n => length (inodes n)))
    (split 100 (S754_zero false) (set_inodes (numbered 5) (empty_node false))) = Some [2; 3]%nat.
Proof. vm_compute. reflexivity. Qed.

Example TestNode_split_MinKeys :
  option_map length (split 20 (S754_zero false) (set_inodes (numbered 2) (empty_node false))) = Some 1%nat.
Proof. vm_compute. reflexivity. Qed.

Example TestNode_split_SinglePage :
  option_map length (split 4096 (S754_zero false) (set_inodes (numbered 5) (empty_node false))) = Some 1%nat.
Proof. vm_compute. reflexivity. Qed.

(** ** Properties *)

(** C21: put and del are insertion and deletion.  On a node whose keys are strictly
    ordered, put panics exactly on a page id at or above the high water mark or an empty
    key; otherwise, for a new key that compares to the other keys as the old one does
    (in a leaf the two are the same), it removes the old key, maps the new one to the
    item, and keeps the keys ordered.  del removes exactly its key and marks the node
    for rebalancing exactly if the key was there. *)
Theorem node_put_del n hwm oldKey newKey value pgid flags :
  node_ok n ->
  (put hwm oldKey newKey value pgid flags n = Panic <-> hwm <= pgid \/ oldKey = [] \/ newKey = []) /\
  (pgid < hwm -> oldKey <> [] -> newKey <> [] -> rekeys oldKey newKey n ->
   exists n', put hwm oldKey newKey value pgid flags n = Ret n' /\ node_ok n' /\
     isLeaf n' = isLeaf n /\
     node_map n' = <[newKey := mkInode flags pgid newKey value]> (delete oldKey (node_map n))) /\
  (forall k, node_ok (del k n) /\ node_map (del k n) = delete k (node_map n) /\
     unbalanced (del k n) = unbalanced n || bool_decide (k ∈ keys n)).
Proof.
  intros Hn. split; [apply put_panic|]. split; [by apply put_spec|].
  intros k. destruct (del_spec k n Hn) as (H1 & _ & H2 & H3). auto.
Qed.

Lemma two_keys_ok : node_ok (set_inodes [mkInode 0 0 bar [49]; mkInode 0 0 foo [48]] (empty_node true)).
Proof.
  split; cbn.
  - repeat constructor.
  - repeat constructor; done.
Qed.

Lemma node_put_del_witness :
  let n := set_inodes [mkInode 0 0 bar [49]; mkInode 0 0 foo [48]] (empty_node true) in
  node_ok n /\ exists n', put 1 baz baz [50] 0 0 n = Ret n' /\ node_ok n' /\ isLeaf n' = isLeaf n /\
     node_map n' = <[baz := mkInode 0 0 baz [50]]> (delete baz (node_map n)).
Proof.
  intros n. split; [exact two_keys_ok|].
  apply (node_put_del n 1 baz baz [50] 0 0 two_keys_ok).
  - lia.
  - discriminate.
  - discriminate.
  - intros x _ _. reflexivity.
Defined.

(** C20: the page round trip.  A node write accepts (fewer than 0xFFFF items, non-empty
    keys, no branch pointing at its own page) that fits on a page without branch or leaf
    flag is written without a fault, and reading the page gives back its kind, its keys
    in order, the flags and values of a leaf and the child pages of a branch. *)
Theorem node_write_read n p m : writable n p ->
  exists p', write n p = Ret p' /\ pg_id p' = pg_id p /\ length (pg_body p') = length (pg_body p) /\
    read p' m = Ret (mkNode (isLeaf n) (unbalanced m) (spilled m) (head (keys n)) (pg_id p)
                            (norm (isLeaf n) <$> inodes n)).
Proof. apply write_read. Qed.

(** The node of TestNode_write_LeafPage. *)
Definition written_node : node :=
  set_inodes [mkInode 0 0 [106; 111; 104; 110] [106; 111; 104; 110; 115; 111; 110];
              mkInode 0 0 [114; 105; 99; 107; 105] [108; 97; 107; 101];
              mkInode 0 0 [115; 117; 115; 121] [113; 117; 101]] (empty_node true).

Lemma node_write_read_witness :
  let p := mkPage 0 0 0 0 (replicate 100 0) in
  writable written_node p /\
  exists p', write written_node p = Ret p' /\
    read p' (empty_node false) =
      Ret (mkNode true false false (Some [106; 111; 104; 110]) 0 (inodes written_node)).
Proof.
  intros p. assert (Hw : writable written_node p).
  { split.
    - repeat constructor; cbn; try done; lia.
    - cbn. lia.
    - vm_compute. discriminate.
    - vm_compute. reflexivity.
    - reflexivity. }
  split; [exact Hw|].
  destruct (node_write_read written_node p (empty_node false) Hw) as (p' & E & _ & _ & R).
  exists p'. split; [exact E|exact R].
Defined.

(** C22: split partitions a node.  For every page size and fill percent split terminates;
    the pieces hold the items of the node in order, the first is the node itself and the
    others are new; a node with two keys or more is split into nodes with two keys or
    more; every piece but the last has at most the threshold of bytes or exactly two
    keys, and the last has at most four keys or is smaller than a page.  The size test
    the code uses for that is the comparison with size. *)
Theorem split_partition pageSize fillPercent n :
  (exists a rest, split pageSize fillPercent n = Some (a :: rest) /\
    a = set_inodes (inodes a) n /\
    Forall (fun b => b = mkNode (isLeaf n) false false None 0 (inodes b)) rest /\
    concat (inodes <$> a :: rest) = inodes n /\
    pieces pageSize (fill_threshold pageSize fillPercent) (isLeaf n) (inodes <$> a :: rest) /\
    ((2 <= length (inodes n))%nat -> Forall (fun b => 2 <= length (inodes b))%nat (a :: rest))) /\
  (inodes n <> [] -> sizeLessThan pageSize n = (size n <? pageSize)).
Proof. split; [apply split_loop_spec; lia|apply sizeLessThan_spec]. Qed.

Lemma split_partition_witness :
  let n := set_inodes (numbered 5) (empty_node true) in
  inodes n <> [] /\ sizeLessThan 100 n = (size n <? 100).
Proof. split; [discriminate|]. apply (split_partition 100 half). discriminate. Defined.
