(* ===== verification/BoltCursor.v ===== *)
(** bolt cursor.go and the lookups of bucket.go: a cursor is a stack of references into
    the pages and nodes of a bucket's tree.

    [pn] is what pageNode returns, a page or an in-memory node; the stack of a cursor is
    a list with its top first.  The loops and recursions that walk down the tree or
    along its leaves take fuel, and [Fail tt] is running out of it: the theorems show
    that the depth of the tree and its number of leaves are enough. *)

From Stdlib Require Import ZArith Lia.
From stdpp Require Import base numbers option list sorting gmap.
From S2P Require Import Prelude GoSort GoBytes BoltNode.
#[local] Open Scope Z_scope.

Definition bucketLeafFlag : Z := 0x01.

Inductive pn := PPage (p : page) | PNode (n : node).

(** The part of a bucket the cursor reads; [tx_page] is tx.page, the dirty pages of the
    transaction and the pages of the file. *)
Record bucket := mkBucket {
  b_root : Z;
  b_page : option page;
  b_rootNode : option node;
  b_nodes : gmap Z node;
  tx_page : gmap Z page
}.

Definition pageNode (b : bucket) (id : Z) : outcome unit pn :=
  if b_root b =? 0 then
    if negb (id =? 0) then Panic
    else match b_rootNode b with
         | Some n => Ret (PNode n)
         | None => match b_page b with Some p => Ret (PPage p) | None => Panic end
         end
  else
    match b_nodes b !! id with
    | Some n => Ret (PNode n)
    | None => match tx_page b !! id with Some p => Ret (PPage p) | None => Panic end
    end.

(** *** elemRef *)

Record elemRef := mkRef { r_pn : pn; r_index : Z }.

Definition pn_isLeaf (x : pn) : bool :=
  match x with PNode n => isLeaf n | PPage p => page_isLeaf p end.

Definition pn_count (x : pn) : Z :=
  match x with PNode n => Z.of_nat (length (inodes n)) | PPage p => pg_count p end.

(** n.inodes[i], with Go's bounds check. *)
Definition inode_at (n : node) (i : Z) : outcome unit inode :=
  if i <? 0 then Panic
  else match inodes n !! Z.to_nat i with Some x => Ret x | None => Panic end.

(** The page id of the i-th child, as first and last read it. *)
Definition pn_child (x : pn) (i : Z) : outcome unit Z :=
  match x with
  | PNode n => e ← inode_at n i; Ret (in_pgid e)
  | PPage p => e ← branchPageElement (u16 i) (pg_body p); Ret (be_pgid e)
  end.

(** The i-th key, as the searches read it. *)
Definition pn_key (x : pn) (i : Z) : outcome unit (list Z) :=
  match x with
  | PNode n => e ← inode_at n i; Ret (in_key e)
  | PPage p => if page_isLeaf p then leaf_key i (pg_body p) else branch_key i (pg_body p)
  end.

(** Key, value and flags of a leaf element. *)
Definition kvf : Type := list Z * list Z * Z.

Definition keyValue (r : elemRef) : outcome unit (option kvf) :=
  if (pn_count (r_pn r) =? 0) || (pn_count (r_pn r) <=? r_index r) then Ret None
  else
    match r_pn r with
    | PNode n => e ← inode_at n (r_index r); Ret (Some (in_key e, in_value e, in_flags e))
    | PPage p =>
        let i := u16 (r_index r) in
        e ← leafPageElement i (pg_body p); k ← leaf_key i (pg_body p); v ← leaf_value i (pg_body p);
        Ret (Some (k, v, le_flags e))
    end.

(** *** Walking *)

Definition stack := list elemRef.

Fixpoint first (fuel : nat) (b : bucket) (s : stack) : outcome unit stack :=
  match s with
  | [] => Panic
  | r :: _ =>
      if pn_isLeaf (r_pn r) then Ret s
      else match fuel with
           | O => Fail tt
           | S fuel =>
               id ← pn_child (r_pn r) (r_index r);
               x ← pageNode b id;
               first fuel b (mkRef x 0 :: s)
           end
  end.

Fixpoint last (fuel : nat) (b : bucket) (s : stack) : outcome unit stack :=
  match s with
  | [] => Panic
  | r :: _ =>
      if pn_isLeaf (r_pn r) then Ret s
      else match fuel with
           | O => Fail tt
           | S fuel =>
               id ← pn_child (r_pn r) (r_index r);
               x ← pageNode b id;
               last fuel b (mkRef x (pn_count x - 1) :: s)
           end
  end.

(** The inner loop of next: the stack cut at the first element that can move over. *)
Fixpoint next_up (s : stack) : option stack :=
  match s with
  | [] => None
  | r :: s =>
      if r_index r <? pn_count (r_pn r) - 1 then Some (mkRef (r_pn r) (r_index r + 1) :: s)
      else next_up s
  end.

Definition top_kv (s : stack) : outcome unit (option kvf) :=
  match s with [] => Panic | r :: _ => keyValue r end.

Fixpoint next (fuel : nat) (b : bucket) (s : stack) : outcome unit (stack * option kvf) :=
  match next_up s with
  | None => Ret (s, None)
  | Some s =>
      s ← first fuel b s;
      match s with
      | [] => Panic
      | r :: _ =>
          if pn_count (r_pn r) =? 0 then
            match fuel with O => Fail tt | S fuel => next fuel b s end
          else kv ← keyValue r; Ret (s, kv)
      end
  end.

(** The loop of Prev. *)
Fixpoint prev_up (s : stack) : stack :=
  match s with
  | [] => []
  | r :: s => if 0 <? r_index r then mkRef (r_pn r) (r_index r - 1) :: s else prev_up s
  end.

(** *** Searching *)

(** sort.Search with the closure of searchNode and searchPage, which notes in [exact]
    that a probed key is the one sought. *)
Fixpoint search_loop (fuel i j : nat) (exact : bool) (key_at : Z -> outcome unit (list Z))
    (key : list Z) : outcome unit (nat * bool) :=
  match fuel with
  | O => Ret (i, exact)
  | S fuel =>
      if (i <? j)%nat then
        let h := ((i + j) / 2)%nat in
        k ← key_at (Z.of_nat h);
        let ret := Compare k key in
        let exact := exact || (ret =? 0) in
        if negb (ret =? -1) then search_loop fuel i h exact key_at key
        else search_loop fuel (S h) j exact key_at key
      else Ret (i, exact)
  end.

Definition pn_search (x : pn) (key : list Z) : outcome unit (nat * bool) :=
  let n := Z.to_nat (pn_count x) in search_loop n 0 n false (pn_key x) key.

(** inodes[index].pgid: the element slice of a page without elements is nil. *)
Definition search_child (x : pn) (i : Z) : outcome unit Z :=
  match x with
  | PPage p => if pg_count p =? 0 then Panic else pn_child x i
  | PNode _ => pn_child x i
  end.

Definition bad_type (x : pn) : bool :=
  match x with
  | PPage p => Z.land (pg_flags p) (Z.lor branchPageFlag leafPageFlag) =? 0
  | PNode _ => false
  end.

Fixpoint search (fuel : nat) (b : bucket) (key : list Z) (id : Z) (s : stack)
    : outcome unit stack :=
  x ← pageNode b id;
  if bad_type x then Panic
  else
    '(index, exact) ← pn_search x key;
    if pn_isLeaf x then Ret (mkRef x (Z.of_nat index) :: s)
    else
      let index := if negb exact && (0 <? index)%nat then (index - 1)%nat else index in
      child ← search_child x (Z.of_nat index);
      match fuel with
      | O => Fail tt
      | S fuel => search fuel b key child (mkRef x (Z.of_nat index) :: s)
      end.

(** seek leaves the stack where the key is or would be. *)
Definition seek (fuel : nat) (b : bucket) (key : list Z) : outcome unit (stack * option kvf) :=
  s ← search fuel b key (b_root b) [];
  kv ← top_kv s;
  Ret (s, kv).

(** *** The exported operations; a nested bucket has no value *)

Definition shown (kv : option kvf) : option (list Z * option (list Z)) :=
  match kv with
  | None => None
  | Some (k, v, flags) => Some (k, if Z.land flags bucketLeafFlag =? 0 then Some v else None)
  end.

Definition First (fuel : nat) (b : bucket) : outcome unit (stack * option (list Z * option (list Z))) :=
  x ← pageNode b (b_root b);
  s ← first fuel b [mkRef x 0];
  s ← match s with
      | r :: _ => if pn_count (r_pn r) =? 0 then '(s, _) ← next fuel b s; Ret s else Ret s
      | [] => Panic
      end;
  kv ← top_kv s;
  Ret (s, shown kv).

Definition Last (fuel : nat) (b : bucket) : outcome unit (stack * option (list Z * option (list Z))) :=
  x ← pageNode b (b_root b);
  s ← last fuel b [mkRef x (pn_count x - 1)];
  kv ← top_kv s;
  Ret (s, shown kv).

Definition Next (fuel : nat) (b : bucket) (s : stack) : outcome unit (stack * option (list Z * option (list Z))) :=
  '(s, kv) ← next fuel b s;
  Ret (s, shown kv).

Definition Prev (fuel : nat) (b : bucket) (s : stack) : outcome unit (stack * option (list Z * option (list Z))) :=
  match prev_up s with
  | [] => Ret ([], None)
  | s => s ← last fuel b s; kv ← top_kv s; Ret (s, shown kv)
  end.

Definition Seek (fuel : nat) (b : bucket) (key : list Z) : outcome unit (stack * option (list Z * option (list Z))) :=
  '(s, kv) ← seek fuel b key;
  '(s, kv) ←
    match s with
    | r :: _ => if pn_count (r_pn r) <=? r_index r then next fuel b s else Ret (s, kv)
    | [] => Panic
    end;
  Ret (s, shown kv).

(** bucket.go: Get. *)
Definition Get (fuel : nat) (b : bucket) (key : list Z) : outcome unit (option (list Z)) :=
  '(_, kv) ← seek fuel b key;
  match kv with
  | None => Ret None
  | Some (k, v, flags) =>
      if negb (Z.land flags bucketLeafFlag =? 0) then Ret None
      else if decide (key = k) then Ret (Some v) else Ret None
  end.

(** ** What a page or node holds *)

Definition kv_of (y : inode) : kvf := (in_key y, in_value y, in_flags y).

Record holds (x : pn) (leaf : bool) (l : list inode) : Prop := {
  h_leaf : pn_isLeaf x = leaf;
  h_count : pn_count x = Z.of_nat (length l);
  h_type : bad_type x = false;
  h_key : forall i y, l !! i = Some y -> pn_key x (Z.of_nat i) = Ret (in_key y);
  h_child : leaf = false -> forall i y, l !! i = Some y -> pn_child x (Z.of_nat i) = Ret (in_pgid y);
  h_kv : leaf = true -> forall i y, l !! i = Some y ->
    keyValue (mkRef x (Z.of_nat i)) = Ret (Some (kv_of y))
}.

Lemma inode_at_lookup n i y : inodes n !! i = Some y -> inode_at n (Z.of_nat i) = Ret y.
Proof.
  intros H. unfold inode_at. destruct (Z.ltb_spec (Z.of_nat i) 0); [lia|].
  by rewrite Nat2Z.id, H.
Qed.

Lemma keyValue_in_range x i : 0 <= i < pn_count x ->
  (pn_count x =? 0) || (pn_count x <=? i) = false.
Proof. intros. apply orb_false_iff. split; [apply Z.eqb_neq|apply Z.leb_gt]; lia. Qed.

Lemma holds_node n : holds (PNode n) (isLeaf n) (inodes n).
Proof.
  split; try done.
  - intros i y H. cbn [pn_key]. by rewrite (inode_at_lookup n i y).
  - intros _ i y H. cbn [pn_child]. by rewrite (inode_at_lookup n i y).
  - intros _ i y H. unfold keyValue; cbn [r_pn r_index]. rewrite keyValue_in_range.
    + by rewrite (inode_at_lookup n i y).
    + apply lookup_lt_Some in H. cbn. lia.
Qed.

Lemma read_loop_lookup leaf b n : forall i l j y, read_loop leaf b n i = Ret l -> l !! j = Some y ->
  read_inode leaf b (i + Z.of_nat j) = Ret y.
Proof.
  induction n as [|n IH]; intros i l j y E Hj; cbn [read_loop] in E; [by injection E as <-|].
  apply outcome_bind_inv in E as (x & Ex & E). apply outcome_bind_inv in E as (l' & El & E).
  injection E as <-. destruct j as [|j]; cbn in Hj.
  - injection Hj as <-. by rewrite Z.add_0_r.
  - replace (i + Z.of_nat (S j)) with (i + 1 + Z.of_nat j) by lia. by eapply IH.
Qed.

Lemma read_loop_length leaf b n : forall i l, read_loop leaf b n i = Ret l -> length l = n.
Proof.
  induction n as [|n IH]; intros i l E; cbn [read_loop] in E; [by injection E as <-|].
  apply outcome_bind_inv in E as (x & Ex & E). apply outcome_bind_inv in E as (l' & El & E).
  injection E as <-. cbn. f_equal. by eapply IH.
Qed.

Lemma read_inode_inv leaf b i y : read_inode leaf b i = Ret y ->
  if leaf then exists e, leafPageElement i b = Ret e /\ leaf_key i b = Ret (in_key y) /\
                 leaf_value i b = Ret (in_value y) /\ in_flags y = le_flags e
  else branch_key i b = Ret (in_key y) /\
       exists e, branchPageElement i b = Ret e /\ in_pgid y = be_pgid e.
Proof.
  unfold read_inode. intros E. apply outcome_bind_inv in E as (r & E & Hr).
  destruct (length (in_key r) =? 0)%nat; [done|]. injection Hr as ->. destruct leaf.
  - apply outcome_bind_inv in E as (e & Ee & E). apply outcome_bind_inv in E as (k & Ek & E).
    apply outcome_bind_inv in E as (v & Ev & E). injection E as <-. cbn. eauto.
  - apply outcome_bind_inv in E as (e & Ee & E). apply outcome_bind_inv in E as (k & Ek & E).
    injection E as <-. cbn. eauto.
Qed.

(** A page holds what node.read reads from it. *)
Lemma holds_page p m n : read p m = Ret n -> 0 <= pg_count p < 2 ^ 16 ->
  bad_type (PPage p) = false -> holds (PPage p) (isLeaf n) (inodes n).
Proof.
  intros E Hc Ht. unfold read in E. apply outcome_bind_inv in E as (l & E & Hn). injection Hn as <-.
  cbn [isLeaf inodes]. pose proof (read_loop_length _ _ _ _ _ E) as Hlen.
  assert (Hi : forall i y, l !! i = Some y -> 0 <= Z.of_nat i < pg_count p /\
                 read_inode (page_isLeaf p) (pg_body p) (Z.of_nat i) = Ret y).
  { intros i y H. pose proof (lookup_lt_Some _ _ _ H). split; [lia|].
    exact (read_loop_lookup _ _ _ _ _ _ _ E H). }
  split; try done.
  - cbn. lia.
  - intros i y H. apply Hi in H as (_ & H). apply read_inode_inv in H. cbn [pn_key].
    destruct (page_isLeaf p); [by destruct H as (? & _ & ? & _)|by destruct H].
  - intros Hl i y H. apply Hi in H as (Hr & H). apply read_inode_inv in H. rewrite Hl in H.
    destruct H as (_ & e & Ee & ->). cbn [pn_child]. by rewrite wrap_id, Ee by lia.
  - intros Hl i y H. apply Hi in H as (Hr & H). apply read_inode_inv in H. rewrite Hl in H.
    destruct H as (e & Ee & Ek & Ev & Ef). unfold keyValue; cbn [r_pn r_index].
    rewrite keyValue_in_range by (cbn; lia). rewrite wrap_id by lia. rewrite Ee.
    cbn [mbind outcome_bind]. rewrite Ek. cbn [mbind outcome_bind]. rewrite Ev.
    cbn [mbind outcome_bind]. by rewrite <- Ef.
Qed.

(** ** The tree of a bucket *)

Definition leaf_keys (ll : list (list inode)) : list (list Z) := in_key <$> concat ll.

(** Child j's keys are below the separator after it and, but for the first child, not
    below its own separator. *)
Definition separated (es : list inode) (lls : list (list (list inode))) : Prop :=
  forall j ll k, lls !! j = Some ll -> k ∈ leaf_keys ll ->
    (forall e, es !! S j = Some e -> key_lt k (in_key e)) /\
    (forall e, (0 < j)%nat -> es !! j = Some e -> ~ key_lt k (in_key e)).

(** [subtree b d x ll]: the tree under [x] has depth [d] and leaves with the items [ll]. *)
Fixpoint subtree (b : bucket) (d : nat) (x : pn) (ll : list (list inode)) : Prop :=
  match d with
  | O => exists l, holds x true l /\ keys_sorted (in_key <$> l) /\ ll = [l]
  | S d => exists es lls,
      holds x false es /\ es <> [] /\ keys_sorted (in_key <$> es) /\ separated es lls /\
      Forall2 (fun e ll => exists y, pageNode b (in_pgid e) = Ret y /\ subtree b d y ll) es lls /\
      ll = concat lls
  end.

Record branch (b : bucket) (d : nat) (x : pn) (es : list inode) (lls : list (list (list inode))) : Prop := {
  br_holds : holds x false es;
  br_ne : es <> [];
  br_sorted : keys_sorted (in_key <$> es);
  br_sep : separated es lls;
  br_children : Forall2 (fun e ll => exists y, pageNode b (in_pgid e) = Ret y /\ subtree b d y ll) es lls
}.

Lemma subtree_S b d x ll : subtree b (S d) x ll <-> exists es lls, branch b d x es lls /\ ll = concat lls.
Proof.
  split.
  - intros (es & lls & H1 & H2 & H3 & H4 & H5 & ->). exists es, lls. by split.
  - intros (es & lls & [H1 H2 H3 H4 H5] & ->). exists es, lls. auto 10.
Qed.

Lemma branch_child b d x es lls i : branch b d x es lls -> (i < length es)%nat ->
  exists e ll y, es !! i = Some e /\ lls !! i = Some ll /\ pageNode b (in_pgid e) = Ret y /\
    subtree b d y ll /\ pn_child x (Z.of_nat i) = Ret (in_pgid e).
Proof.
  intros [H1 H2 H3 H4 H5] Hi. destruct (lookup_lt_is_Some_2 es i Hi) as [e He].
  destruct (Forall2_lookup_l _ _ _ _ _ H5 He) as (ll & Hll & y & Hy & Ht).
  exists e, ll, y. split_and!; auto. by apply (h_child _ _ _ H1).
Qed.

Lemma branch_length b d x es lls : branch b d x es lls -> length lls = length es.
Proof. intros H. symmetry. apply (Forall2_length _ _ _ (br_children _ _ _ _ _ H)). Qed.

Lemma branch_count b d x es lls : branch b d x es lls -> pn_count x = Z.of_nat (length es).
Proof. intros H. apply (h_count _ _ _ (br_holds _ _ _ _ _ H)). Qed.

Lemma branch_isLeaf b d x es lls : branch b d x es lls -> pn_isLeaf x = false.
Proof. intros H. apply (h_leaf _ _ _ (br_holds _ _ _ _ _ H)). Qed.

Lemma subtree_isLeaf b d x ll : subtree b d x ll -> pn_isLeaf x = (d =? 0)%nat.
Proof.
  destruct d as [|d].
  - intros (l & H & _). apply (h_leaf _ _ _ H).
  - intros (es & lls & H & _)%subtree_S. by eapply branch_isLeaf.
Qed.

Section walk.
Context (b : bucket) (D : nat) (all : list (list inode)).

(** [path d s L ll R]: the top of [s] is at height [d], its subtree has the leaves [ll],
    and [L] and [R] are the leaves of the tree before and after them. *)
Inductive path : nat -> stack -> list (list inode) -> list (list inode) -> list (list inode) -> Prop :=
  | path_root x i : pageNode b (b_root b) = Ret x -> subtree b D x all ->
      path D [mkRef x i] [] all []
  | path_down d x i s L R es lls e y j ll :
      path (S d) (mkRef x (Z.of_nat i) :: s) L (concat lls) R -> branch b d x es lls ->
      es !! i = Some e -> lls !! i = Some ll -> pageNode b (in_pgid e) = Ret y -> subtree b d y ll ->
      path d (mkRef y j :: mkRef x (Z.of_nat i) :: s)
        (L ++ concat (take i lls)) ll (concat (drop (S i) lls) ++ R).

Lemma path_index d x i j s L ll R : path d (mkRef x i :: s) L ll R -> path d (mkRef x j :: s) L ll R.
Proof. inversion 1; subst; [by constructor|]. by eapply path_down. Qed.

Lemma path_subtree d x i s L ll R : path d (mkRef x i :: s) L ll R -> subtree b d x ll.
Proof. by inversion 1; subst. Qed.

Lemma concat_split {A} (lls : list (list A)) i ll : lls !! i = Some ll ->
  concat lls = concat (take i lls) ++ ll ++ concat (drop (S i) lls).
Proof.
  intros H. rewrite <- (take_drop_middle lls i ll H) at 1. by rewrite concat_app.
Qed.

(** The leaves before, under and after the top are those of the tree. *)
Lemma path_total d s L ll R : path d s L ll R -> L ++ ll ++ R = all.
Proof.
  induction 1 as [x i Hx Ht|d x i s L R es lls e y j ll Hp IH Hb He Hll Hy Ht].
  - by rewrite app_nil_l, app_nil_r.
  - rewrite <- IH, (concat_split lls i ll Hll), <- !app_assoc. done.
Qed.

Lemma path_height d s L ll R : path d s L ll R -> (d <= D)%nat.
Proof. induction 1; [done|lia]. Qed.

(** Descending to the i-th child of the branch on top. *)
Lemma path_child d x i s L ll R es lls e cl y j : path (S d) (mkRef x i :: s) L ll R ->
  branch b d x es lls -> ll = concat lls ->
  es !! Z.to_nat i = Some e -> lls !! Z.to_nat i = Some cl -> 0 <= i ->
  pageNode b (in_pgid e) = Ret y -> subtree b d y cl ->
  path d (mkRef y j :: mkRef x i :: s) (L ++ concat (take (Z.to_nat i) lls)) cl
    (concat (drop (S (Z.to_nat i)) lls) ++ R).
Proof.
  intros Hp Hb -> He Hcl Hi Hy Ht. rewrite <- (Z2Nat.id i) at 1 by done.
  eapply path_down; eauto. rewrite Z2Nat.id; done.
Qed.

(** first goes to the first leaf of the subtree on top. *)
Lemma first_down d : forall fuel x s L ll R, (d <= fuel)%nat -> path d (mkRef x 0 :: s) L ll R ->
  exists y s' l R', first fuel b (mkRef x 0 :: s) = Ret (mkRef y 0 :: s') /\
    path 0 (mkRef y 0 :: s') L [l] R' /\ ll ++ R = l :: R'.
Proof.
  induction d as [|d IH]; intros fuel x s L ll R Hf Hp; pose proof (path_subtree _ _ _ _ _ _ _ Hp) as Ht.
  - pose proof (subtree_isLeaf _ _ _ _ Ht) as Hl. destruct Ht as (l & Hh & Hs & ->).
    exists x, s, l, R. split; [|done]. destruct fuel; cbn [first r_pn]; by rewrite Hl.
  - destruct fuel as [|fuel]; [lia|]. apply subtree_S in Ht as (es & lls & Hb & ->).
    cbn [first r_pn r_index]. rewrite (branch_isLeaf _ _ _ _ _ Hb).
    destruct (branch_child _ _ _ _ _ 0 Hb) as (e & cl & y & He & Hcl & Hy & Hty & Hch).
    { destruct es; [by destruct (br_ne _ _ _ _ _ Hb)|cbn; lia]. }
    change (Z.of_nat 0) with 0 in Hch. rewrite Hch. cbn [mbind outcome_bind]. rewrite Hy. cbn [mbind outcome_bind].
    pose proof (path_child d x 0 s L _ R es lls e cl y 0 Hp Hb eq_refl He Hcl ltac:(lia) Hy Hty) as Hp'.
    destruct (IH fuel _ _ _ _ _ ltac:(lia) Hp') as (z & s' & l & R' & E & Hp2 & Hl).
    exists z, s', l, R'. cbn [Z.to_nat take concat] in Hp2. rewrite app_nil_r in Hp2.
    split; [done|]. split; [done|]. rewrite <- Hl. destruct lls as [|ll0 lls]; [done|].
    cbn in Hcl. injection Hcl as ->. cbn [Z.to_nat drop concat]. by rewrite <- app_assoc.
Qed.

(** Moving up from the child on top: either nothing follows it, or the stack is cut at
    the branch whose next child has the following leaves. *)
Lemma next_up_parent d x i s L ll R : path d (mkRef x i :: s) L ll R ->
  (next_up s = None /\ R = []) \/
  (exists d' y e x1 i1 s1 ll1 R1, next_up s = Some (mkRef x1 i1 :: s1) /\ (S d' <= D)%nat /\
     pn_isLeaf x1 = false /\ pn_child x1 i1 = Ret (in_pgid e) /\ pageNode b (in_pgid e) = Ret y /\
     path d' (mkRef y 0 :: mkRef x1 i1 :: s1) (L ++ ll) ll1 R1 /\ ll1 ++ R1 = R).
Proof.
  intros Hp. remember (mkRef x i :: s) as st eqn:Est. revert x i s Est.
  induction Hp as [x i Hx Ht|d x i s L R es lls e y j ll Hp IH Hb He Hll Hy Ht];
    intros x' i' s' [= <- <- <-]; [left; done|].
  assert (HD' : (S d <= D)%nat) by (by eapply path_height).
  cbn [next_up r_index r_pn]. rewrite (branch_count _ _ _ _ _ Hb).
  pose proof (branch_length _ _ _ _ _ Hb) as Hlen. pose proof (lookup_lt_Some _ _ _ He) as Hi.
  assert (Etake : L ++ concat (take i lls) ++ ll = L ++ concat (take (S i) lls)).
  { rewrite (take_S_r _ _ _ Hll), concat_app. cbn. by rewrite app_nil_r. }
  destruct (Z.ltb_spec (Z.of_nat i) (Z.of_nat (length es) - 1)) as [Hlt|Hge].
  - right. destruct (branch_child _ _ _ _ _ (S i) Hb ltac:(lia)) as (e1 & ll1 & y1 & He1 & Hll1 & Hy1 & Ht1 & Hch1).
    exists d, y1, e1, x, (Z.of_nat i + 1), s, ll1, (concat (drop (S (S i)) lls) ++ R).
    replace (Z.of_nat i + 1) with (Z.of_nat (S i)) by lia.
    split_and!; [done|done|by eapply branch_isLeaf|done|done| |].
    + rewrite <- app_assoc, Etake. eapply path_down; eauto. by eapply path_index.
    + rewrite app_assoc. f_equal. by rewrite (drop_S _ _ _ Hll1).
  - assert (i = (length lls - 1)%nat) as Hil by lia.
    destruct (IH _ _ _ eq_refl) as [[E ->]|(d' & y1 & e1 & x1 & i1 & s1 & ll1 & R1 & E & H1 & H2 & H3 & H4 & H5 & H6)].
    + left. split; [done|]. rewrite drop_ge by lia. done.
    + right. exists d', y1, e1, x1, i1, s1, ll1, R1. split_and!; try done.
      * rewrite <- app_assoc, Etake, take_ge by lia. exact H5.
      * rewrite drop_ge by lia. exact H6.
Qed.

Lemma next_eq fuel s : next fuel b s =
  match next_up s with
  | None => Ret (s, None)
  | Some s =>
      s ← first fuel b s;
      match s with
      | [] => Panic
      | r :: _ =>
          if pn_count (r_pn r) =? 0 then
            match fuel with O => Fail tt | S fuel => next fuel b s end
          else kv ← keyValue r; Ret (s, kv)
      end
  end.
Proof. by destruct fuel. Qed.

Lemma first_child fuel x i s e y : pn_isLeaf x = false -> pn_child x i = Ret (in_pgid e) ->
  pageNode b (in_pgid e) = Ret y -> first (S fuel) b (mkRef x i :: s) = first fuel b (mkRef y 0 :: mkRef x i :: s).
Proof.
  intros Hl Hc Hy. cbn [first r_pn r_index]. rewrite Hl, Hc. cbn [mbind outcome_bind]. by rewrite Hy.
Qed.

Lemma leaf_holds x i s L l R : path 0 (mkRef x i :: s) L [l] R ->
  holds x true l /\ keys_sorted (in_key <$> l).
Proof. intros (l' & Hh & Hs & [= ->])%path_subtree. done. Qed.

Lemma leaf_kv x (i : nat) s L l R e : path 0 (mkRef x (Z.of_nat i) :: s) L [l] R -> l !! i = Some e ->
  keyValue (mkRef x (Z.of_nat i)) = Ret (Some (kv_of e)).
Proof. intros [Hh _]%leaf_holds He. by apply (h_kv _ _ _ Hh). Qed.

(** From the last element of a leaf, next goes to the first item of the leaves that
    follow, skipping empty ones; if there is none it returns nil. *)
Lemma next_leaf n : forall fuel x i s L l R, (length R <= n)%nat -> (D + n <= fuel)%nat ->
  path 0 (mkRef x i :: s) L [l] R -> Z.of_nat (length l) - 1 <= i ->
  (concat R = [] /\ exists y j s' L' l', next fuel b (mkRef x i :: s) = Ret (mkRef y j :: s', None) /\
     path 0 (mkRef y j :: s') L' [l'] [] /\ Z.of_nat (length l') - 1 <= j /\
     concat L' ++ l' = concat L ++ l) \/
  (exists y s' L' e l' R', next fuel b (mkRef x i :: s) = Ret (mkRef y 0 :: s', Some (kv_of e)) /\
     path 0 (mkRef y 0 :: s') L' [e :: l'] R' /\ concat L' = concat L ++ l /\
     e :: l' ++ concat R' = concat R).
Proof.
  induction n as [|n IH]; intros fuel x i s L l R HR Hf Hp Hi; rewrite next_eq; cbn [next_up r_index r_pn];
    rewrite (h_count _ _ _ (proj1 (leaf_holds _ _ _ _ _ _ Hp)));
    (destruct (Z.ltb_spec i (Z.of_nat (length l) - 1)); [lia|]);
    destruct (next_up_parent _ _ _ _ _ _ _ Hp) as
      [[E ->]|(d' & y & e & x1 & i1 & s1 & ll1 & R1 & E & H1 & H2 & H3 & H4 & Hp1 & H6)]; rewrite E.
  - left. split; [done|]. exists x, i, s, L, l. auto.
  - destruct fuel as [|fuel]; [lia|]. rewrite (first_child _ _ _ _ _ _ H2 H3 H4).
    destruct (first_down d' fuel _ _ _ _ _ ltac:(lia) Hp1) as (z & s' & l' & R' & E' & Hp' & H7).
    destruct R; [|cbn in HR; lia]. by rewrite H6 in H7.
  - left. split; [done|]. exists x, i, s, L, l. auto.
  - destruct fuel as [|fuel]; [lia|]. rewrite (first_child _ _ _ _ _ _ H2 H3 H4).
    destruct (first_down d' fuel _ _ _ _ _ ltac:(lia) Hp1) as (z & s' & l' & R' & E' & Hp' & H7).
    rewrite E'. cbn [mbind outcome_bind r_pn].
    rewrite (h_count _ _ _ (proj1 (leaf_holds _ _ _ _ _ _ Hp'))).
    rewrite H6 in H7. clear H6. subst R. cbn [length concat] in *.
    destruct l' as [|e' l']; cbn [length].
    + destruct (IH fuel z 0 s' (L ++ [l]) [] R' ltac:(lia) ltac:(lia) Hp' ltac:(cbn; lia))
        as [(E1 & y1 & j1 & s2 & L2 & l2 & E2 & Hp2 & Hj & Hc)|(y1 & s2 & L2 & e2 & l2 & R2 & E2 & Hp2 & Hc & Hr)];
        cbn [Z.of_nat Z.eqb]; rewrite E2.
      * left. split; [done|]. exists y1, j1, s2, L2, l2. split_and!; auto.
        rewrite Hc, concat_app. cbn. by rewrite !app_nil_r.
      * right. exists y1, s2, L2, e2, l2, R2. split_and!; auto.
        rewrite Hc, concat_app. cbn. by rewrite !app_nil_r.
    + destruct (Z.eqb_spec (Z.of_nat (S (length l'))) 0); [lia|].
      change 0 with (Z.of_nat 0) in Hp'. change 0 with (Z.of_nat 0).
      rewrite (leaf_kv _ _ _ _ _ _ e' Hp' eq_refl).
      right. exists z, s', (L ++ [l]), e', l', R'. split_and!; auto.
      rewrite concat_app. cbn. by rewrite app_nil_r.
Qed.

(** ** The cursor as a position in the items of the bucket *)

(** The cursor is on the item [e], after the items [pre] and before [post]. *)
Definition at_item (s : stack) (pre : list inode) (e : inode) (post : list inode) : Prop :=
  exists x (i : nat) s' L l R, s = mkRef x (Z.of_nat i) :: s' /\ path 0 s L [l] R /\ l !! i = Some e /\
    pre = concat L ++ take i l /\ post = drop (S i) l ++ concat R.

(** No item follows the cursor. *)
Definition at_end (s : stack) : Prop :=
  exists x j s' L l, s = mkRef x j :: s' /\ path 0 s L [l] [] /\ Z.of_nat (length l) - 1 <= j.

Lemma at_item_all s pre e post : at_item s pre e post -> pre ++ e :: post = concat all.
Proof.
  intros (x & i & s' & L & l & R & -> & Hp & He & -> & ->). rewrite <- (path_total _ _ _ _ _ Hp).
  rewrite !concat_app. cbn [concat]. rewrite app_nil_r, <- app_assoc. f_equal.
  rewrite <- (take_drop_middle l i e He) at 3. by rewrite <- app_assoc.
Qed.

Lemma next_item fuel s pre e post : (D + length all <= fuel)%nat -> at_item s pre e post ->
  match post with
  | [] => exists s', next fuel b s = Ret (s', None) /\ at_end s'
  | e' :: post' => exists s', next fuel b s = Ret (s', Some (kv_of e')) /\ at_item s' (pre ++ [e]) e' post'
  end.
Proof.
  intros Hf (x & i & s' & L & l & R & -> & Hp & He & -> & ->).
  assert (HR : (length R <= length all)%nat).
  { rewrite <- (path_total _ _ _ _ _ Hp), !length_app. lia. }
  pose proof (lookup_lt_Some _ _ _ He) as Hi.
  assert (Epre : (concat L ++ take i l) ++ [e] = concat L ++ take (S i) l).
  { by rewrite (take_S_r _ _ _ He), app_assoc. }
  rewrite Epre. destruct (decide (S i < length l)%nat) as [Hlt|Hge].
  - destruct (lookup_lt_is_Some_2 l (S i) Hlt) as [e' He']. rewrite (drop_S _ _ _ He'). cbn [app].
    exists (mkRef x (Z.of_nat (S i)) :: s'). split.
    + rewrite next_eq. cbn [next_up r_index r_pn].
      pose proof (leaf_holds _ _ _ _ _ _ Hp) as [Hh _]. rewrite (h_count _ _ _ Hh).
      destruct (Z.ltb_spec (Z.of_nat i) (Z.of_nat (length l) - 1)); [|lia].
      replace (Z.of_nat i + 1) with (Z.of_nat (S i)) by lia.
      assert (Efirst : first fuel b (mkRef x (Z.of_nat (S i)) :: s') = Ret (mkRef x (Z.of_nat (S i)) :: s')).
      { destruct fuel; cbn [first r_pn]; by rewrite (h_leaf _ _ _ Hh). }
      rewrite Efirst. cbn [mbind outcome_bind r_pn]. rewrite (h_count _ _ _ Hh).
      destruct (Z.eqb_spec (Z.of_nat (length l)) 0); [lia|].
      by rewrite (h_kv _ _ _ Hh eq_refl _ _ He').
    + exists x, (S i), s', L, l, R. split_and!; try done. by eapply path_index.
  - rewrite drop_ge, take_ge by lia. cbn [app].
    destruct (next_leaf (length R) fuel x (Z.of_nat i) s' L l R (le_n _) ltac:(lia) Hp ltac:(lia))
      as [(E1 & y & j & s2 & L2 & l2 & E2 & Hp2 & Hj & Hc)|(y & s2 & L2 & e2 & l2 & R2 & E2 & Hp2 & Hc & Hr)].
    + rewrite E1. eexists. split; [exact E2|]. exists y, j, s2, L2, l2. auto.
    + rewrite <- Hr. eexists. split; [exact E2|].
      exists y, 0%nat, s2, L2, (e2 :: l2), R2. split_and!; try done. cbn [take]. by rewrite app_nil_r.
Qed.

Lemma next_end fuel s : (D <= fuel)%nat -> at_end s -> exists s', next fuel b s = Ret (s', None) /\ at_end s'.
Proof.
  intros Hf (x & j & s' & L & l & -> & Hp & Hj).
  destruct (next_leaf 0 fuel x j s' L l [] (le_n _) ltac:(lia) Hp Hj)
    as [(E1 & y & j2 & s2 & L2 & l2 & E2 & Hp2 & Hj2 & Hc)|(y & s2 & L2 & e2 & l2 & R2 & E2 & Hp2 & Hc & Hr)].
  - eexists. split; [exact E2|]. exists y, j2, s2, L2, l2. auto.
  - done.
Qed.

(** *** First *)

Lemma leaf_end_kv x j s L R : path 0 (mkRef x j :: s) L [[]] R -> keyValue (mkRef x j) = Ret None.
Proof.
  intros [Hh _]%leaf_holds. unfold keyValue; cbn [r_pn r_index]. by rewrite (h_count _ _ _ Hh).
Qed.

Lemma First_spec fuel x : (D + length all <= fuel)%nat -> pageNode b (b_root b) = Ret x -> subtree b D x all ->
  match concat all with
  | [] => exists s, First fuel b = Ret (s, None) /\ at_end s
  | e :: post => exists s, First fuel b = Ret (s, shown (Some (kv_of e))) /\ at_item s [] e post
  end.
Proof.
  intros Hf Hx Ht. unfold First. rewrite Hx. cbn [mbind outcome_bind].
  destruct (first_down D fuel x [] [] all [] ltac:(lia) (path_root x 0 Hx Ht))
    as (y & s & l & R & E & Hp & Hall). rewrite app_nil_r in Hall.
  rewrite E. cbn [mbind outcome_bind r_pn].
  pose proof (leaf_holds _ _ _ _ _ _ Hp) as [Hh _]. rewrite (h_count _ _ _ Hh).
  rewrite Hall. cbn [concat]. destruct l as [|e l]; cbn [length app].
  - change (Z.of_nat 0 =? 0) with true. cbv iota. destruct (next_leaf (length R) fuel y 0 s [] [] R (le_n _)) as
      [(E1 & y1 & j1 & s2 & L2 & l2 & E2 & Hp2 & Hj & Hc)|(y1 & s2 & L2 & e2 & l2 & R2 & E2 & Hp2 & Hc & Hr)];
      [rewrite Hall in Hf; cbn [length] in Hf; lia|done|cbn; lia|..]; rewrite E2; cbn [mbind outcome_bind top_kv].
    + rewrite E1. cbn in Hc. apply app_eq_nil in Hc as [_ ->].
      rewrite (leaf_end_kv _ _ _ _ _ Hp2). cbn [mbind outcome_bind shown].
      eexists. split; [reflexivity|]. exists y1, j1, s2, L2, []. auto.
    + rewrite <- Hr. cbn in Hc. change 0 with (Z.of_nat 0) in Hp2 |- *.
      rewrite (leaf_kv _ _ _ _ _ _ e2 Hp2 eq_refl). cbn [mbind outcome_bind].
      eexists. split; [reflexivity|]. exists y1, 0%nat, s2, L2, (e2 :: l2), R2.
      split_and!; try done. by rewrite Hc.
  - change (Z.of_nat (S (length l)) =? 0) with false. cbv iota. cbn [mbind outcome_bind top_kv].
    change 0 with (Z.of_nat 0) in Hp |- *. rewrite (leaf_kv _ _ _ _ _ _ e Hp eq_refl).
    cbn [mbind outcome_bind]. eexists. split; [reflexivity|].
    exists y, 0%nat, s, [], (e :: l), R. done.
Qed.

(** *** Searching *)

Lemma search_loop_spec ks key_at key fuel : forall i j exact,
  keys_sorted ks -> (forall h k, ks !! h = Some k -> key_at (Z.of_nat h) = Ret k) ->
  (i <= j <= length ks)%nat -> (j - i <= fuel)%nat ->
  (forall h k, (h < i)%nat -> ks !! h = Some k -> key_lt k key) ->
  (forall h k, (j <= h)%nat -> ks !! h = Some k -> ~ key_lt k key) ->
  exact = bool_decide (ks !! j = Some key) ->
  search_loop fuel i j exact key_at key =
  Ret (lower_bound ks key, bool_decide (ks !! lower_bound ks key = Some key)).
Proof.
  induction fuel as [|fuel IH]; intros i j exact Hs Hk Hij Hf Hlo Hhi Hex; cbn [search_loop].
  1: assert (i = j) as -> by lia.
  2: destruct (Nat.ltb_spec i j); [|assert (i = j) as -> by lia].
  1, 3: assert (lower_bound ks key = j) as <-; [|by rewrite Hex];
    apply lower_bound_unique; [done|lia|..]; intros x Hx; apply list_elem_of_lookup in Hx as [h Hh];
    [apply lookup_take_Some in Hh as [Hh ?]; eauto|rewrite lookup_drop in Hh; apply (Hhi (j + h)%nat); [lia|done]].
  pose proof (Nat.div_mod (i + j) 2 ltac:(lia)). pose proof (Nat.mod_upper_bound (i + j) 2 ltac:(lia)).
  set (h := ((i + j) / 2)%nat) in *.
  destruct (lookup_lt_is_Some_2 ks h ltac:(lia)) as [k Hh]. rewrite (Hk h k Hh). cbn [mbind outcome_bind].
  destruct (Z.eqb_spec (Compare k key) (-1)) as [Hlt|Hge]; cbn [negb].
  - apply IH; auto; try lia.
    + intros h' k' Hh' Hk'. destruct (decide (h' = h)) as [->|]; [simplify_eq; done|].
      apply (key_lt_trans _ k); [|done]. apply (keys_sorted_lookup ks h' h); [done|lia|done|done].
    + rewrite Hlt. cbn. by rewrite orb_false_r.
  - apply IH; auto; try lia.
    + intros h' k' Hh' Hk' Hl. destruct (decide (h' = h)) as [->|]; [simplify_eq; done|].
      apply Hge. apply (key_lt_trans _ k'); [|done]. apply (keys_sorted_lookup ks h h'); [done|lia|done|done].
    + rewrite Hh, Hex. destruct (Z.eqb_spec (Compare k key) 0) as [Heq|Hne].
      * apply Compare_eq in Heq as ->. rewrite orb_true_r. symmetry. by apply bool_decide_eq_true_2.
      * rewrite orb_false_r. symmetry. rewrite bool_decide_eq_false_2 by (intros [= ->]; by apply Hne, Compare_eq).
        symmetry. apply bool_decide_eq_false_2. intros Hj. apply Hge.
        apply (keys_sorted_lookup ks h j); [done|lia|done|done].
Qed.

Lemma pn_search_spec x leaf l key : holds x leaf l -> keys_sorted (in_key <$> l) ->
  pn_search x key = Ret (lower_bound (in_key <$> l) key,
    bool_decide ((in_key <$> l) !! lower_bound (in_key <$> l) key = Some key)).
Proof.
  intros Hh Hs. unfold pn_search. rewrite (h_count _ _ _ Hh), Nat2Z.id, <- (length_fmap in_key).
  apply search_loop_spec; auto; try lia.
  - intros h k Hk. rewrite list_lookup_fmap in Hk. destruct (l !! h) as [y|] eqn:Ey; [|done].
    injection Hk as <-. by apply (h_key _ _ _ Hh).
  - intros h k Hh' Hk. apply lookup_lt_Some in Hk. lia.
  - symmetry. apply bool_decide_eq_false_2. rewrite lookup_ge_None_2 by lia. done.
Qed.

(** The child a search descends to. *)
Definition child_index (ks : list (list Z)) (key : list Z) : nat :=
  let i := lower_bound ks key in
  if negb (bool_decide (ks !! i = Some key)) && (0 <? i)%nat then (i - 1)%nat else i.

Lemma child_index_spec ks key : keys_sorted ks -> ks <> [] ->
  let c := child_index ks key in
  (c < length ks)%nat /\
  ((0 < c)%nat -> forall k, ks !! c = Some k -> ~ key_lt key k) /\
  (forall j k, (c < j)%nat -> ks !! j = Some k -> key_lt key k).
Proof.
  intros Hs Hne. destruct (lower_bound_spec ks key Hs) as (H1 & H2 & H3). unfold child_index.
  set (i := lower_bound ks key) in *.
  assert (Hlen : (0 < length ks)%nat) by (destruct ks; [done|cbn; lia]).
  assert (Hgt : forall j k, (i <= j)%nat -> ks !! i <> Some key -> ks !! j = Some k -> key_lt key k).
  { intros j k Hj Hi Hk. pose proof (H3 j k Hj Hk) as Hn. apply not_key_lt in Hn as [->|]; [|done].
    destruct (decide (j = i)) as [->|]; [done|].
    destruct (lookup_lt_is_Some_2 ks i) as [k' Hk']; [apply lookup_lt_Some in Hk; lia|].
    destruct (H3 i k' (le_n _) Hk'). apply (keys_sorted_lookup ks i j); [done|lia|done|done]. }
  destruct (bool_decide_reflect (ks !! i = Some key)) as [Hi|Hi]; cbn [negb andb].
  - pose proof (lookup_lt_Some _ _ _ Hi). split; [done|]. split.
    + intros _ k Hk. rewrite Hi in Hk. injection Hk as ->. apply key_lt_irrefl.
    + intros j k Hj Hk. by apply (keys_sorted_lookup ks i j).
  - destruct (Nat.ltb_spec 0 i).
    + split; [lia|]. split.
      * intros _ k Hk Hl. apply (key_lt_irrefl key). apply (key_lt_trans _ k); [done|].
        apply (H2 (i - 1)%nat); [lia|done].
      * intros j k Hj Hk. apply (Hgt j); [lia|done|done].
    + split; [lia|]. split; [lia|]. intros j k Hj Hk. apply (Hgt j); [lia|done|done].
Qed.

Lemma leaf_keys_concat lls k : k ∈ leaf_keys (concat lls) <-> exists j ll, lls !! j = Some ll /\ k ∈ leaf_keys ll.
Proof.
  induction lls as [|ll lls IH]; cbn [concat].
  - split; [intros H; by apply elem_of_nil in H|]. by intros (j & ll & H & _).
  - unfold leaf_keys in *. rewrite concat_app, fmap_app, elem_of_app, IH. split.
    + intros [H|(j & ll' & Hj & H)]; [by exists 0%nat, ll|by exists (S j), ll'].
    + intros ([|j] & ll' & Hj & H); cbn in Hj; [injection Hj as <-; by left|right; eauto].
Qed.

Lemma leaf_keys_app L R k : k ∈ leaf_keys (L ++ R) <-> k ∈ leaf_keys L \/ k ∈ leaf_keys R.
Proof. unfold leaf_keys. by rewrite concat_app, fmap_app, elem_of_app. Qed.

(** The children beside the one searched have smaller and larger keys. *)
Lemma branch_child_index d x es lls key j ll k : branch b d x es lls ->
  lls !! j = Some ll -> k ∈ leaf_keys ll ->
  let c := child_index (in_key <$> es) key in
  ((j < c)%nat -> key_lt k key) /\ ((c < j)%nat -> key_lt key k).
Proof.
  intros Hb Hj Hk c.
  destruct (child_index_spec (in_key <$> es) key (br_sorted _ _ _ _ _ Hb)) as (Hc1 & Hc2 & Hc3).
  { intros E. apply fmap_nil_inv in E. by destruct (br_ne _ _ _ _ _ Hb). }
  fold c in Hc1, Hc2, Hc3. destruct (br_sep _ _ _ _ _ Hb j ll k Hj Hk) as [Hu Hl].
  rewrite length_fmap in Hc1. pose proof (lookup_lt_Some _ _ _ Hj) as Hjl.
  rewrite (branch_length _ _ _ _ _ Hb) in Hjl.
  assert (Hkey : forall i e, es !! i = Some e -> (in_key <$> es) !! i = Some (in_key e)).
  { intros i e He. by rewrite list_lookup_fmap, He. }
  split; intros Hlt.
  - destruct (lookup_lt_is_Some_2 es (S j) ltac:(lia)) as [e1 He1].
    destruct (lookup_lt_is_Some_2 es c ltac:(lia)) as [e2 He2].
    apply (key_lt_le_trans _ (in_key e1)); [by apply Hu|].
    apply Hkey in He1, He2. specialize (Hc2 ltac:(lia) _ He2).
    destruct (decide (S j = c)) as [Ec|].
    { rewrite Ec, He2 in He1. injection He1 as <-. done. }
    intros Hx. apply Hc2, (key_lt_trans _ (in_key e1)); [done|].
    apply (keys_sorted_lookup _ (S j) c _ _ (br_sorted _ _ _ _ _ Hb)); [lia|done|done].
  - destruct (lookup_lt_is_Some_2 es j ltac:(lia)) as [e He].
    apply (key_lt_le_trans _ (in_key e)); [by apply (Hc3 j); auto|]. apply Hl; [lia|done].
Qed.

Lemma holds_search_child d x es lls i : branch b d x es lls -> (i < length es)%nat ->
  search_child x (Z.of_nat i) = pn_child x (Z.of_nat i).
Proof.
  intros Hb Hi. pose proof (branch_count _ _ _ _ _ Hb) as Hc. destruct x as [p|n]; [|done].
  cbn [search_child]. cbn [pn_count] in Hc. destruct (Z.eqb_spec (pg_count p) 0); [lia|done].
Qed.

Lemma search_spec key d : forall fuel x id s i0 L ll R,
  (d <= fuel)%nat -> pageNode b id = Ret x -> path d (mkRef x i0 :: s) L ll R ->
  (forall k, k ∈ leaf_keys L -> key_lt k key) -> (forall k, k ∈ leaf_keys R -> key_lt key k) ->
  exists y (i : nat) s' L' l R', search fuel b key id s = Ret (mkRef y (Z.of_nat i) :: s') /\
    path 0 (mkRef y (Z.of_nat i) :: s') L' [l] R' /\ (i <= length l)%nat /\
    (forall k, k ∈ in_key <$> (concat L' ++ take i l) -> key_lt k key) /\
    (forall k, k ∈ in_key <$> drop i l -> ~ key_lt k key) /\
    (forall k, k ∈ leaf_keys R' -> key_lt key k).
Proof.
  induction d as [|d IH]; intros fuel x id s i0 L ll R Hf Hx Hp HL HR;
    pose proof (path_subtree _ _ _ _ _ _ _ Hp) as Ht.
  - destruct Ht as (l & Hh & Hs & ->).
    destruct (lower_bound_spec _ key Hs) as (H1 & H2 & H3). rewrite length_fmap in H1.
    exists x, (lower_bound (in_key <$> l) key), s, L, l, R. split; [|split_and!; try done].
    + destruct fuel; cbn [search]; rewrite Hx; cbn [mbind outcome_bind];
        rewrite (h_type _ _ _ Hh), (pn_search_spec x true l key Hh Hs); cbn [mbind outcome_bind];
        by rewrite (h_leaf _ _ _ Hh).
    + by eapply path_index.
    + intros k Hk. rewrite fmap_app, elem_of_app in Hk. destruct Hk as [Hk|Hk]; [by apply HL|].
      apply list_elem_of_fmap in Hk as (y & -> & Hy). apply list_elem_of_lookup in Hy as [j Hj].
      apply lookup_take_Some in Hj as [Hj ?]. apply (H2 j); [done|]. by rewrite list_lookup_fmap, Hj.
    + intros k Hk. apply list_elem_of_fmap in Hk as (y & -> & Hy). apply list_elem_of_lookup in Hy as [j Hj].
      rewrite lookup_drop in Hj. eapply H3; [|by rewrite list_lookup_fmap, Hj]. lia.
  - destruct fuel as [|fuel]; [lia|]. apply subtree_S in Ht as (es & lls & Hb & ->).
    pose proof (br_holds _ _ _ _ _ Hb) as Hh. pose proof (br_sorted _ _ _ _ _ Hb) as Hs.
    destruct (child_index_spec (in_key <$> es) key Hs) as (Hc & _).
    { intros E. apply fmap_nil_inv in E. by destruct (br_ne _ _ _ _ _ Hb). }
    rewrite length_fmap in Hc. set (c := child_index (in_key <$> es) key) in *.
    destruct (branch_child _ _ _ _ _ c Hb Hc) as (e & cl & y & He & Hcl & Hy & Hty & Hch).
    pose proof (path_down d x c s L R es lls e y 0 cl (path_index _ _ _ _ _ _ _ _ Hp) Hb He Hcl Hy Hty) as Hp'.
    cbn [search]. rewrite Hx. cbn [mbind outcome_bind].
    rewrite (h_type _ _ _ Hh), (pn_search_spec x false es key Hh Hs). cbn [mbind outcome_bind].
    rewrite (h_leaf _ _ _ Hh). fold (child_index (in_key <$> es) key). fold c.
    rewrite (holds_search_child _ _ _ _ _ Hb Hc), Hch. cbn [mbind outcome_bind].
    apply (IH fuel y (in_pgid e) _ 0 _ cl _ ltac:(lia) Hy Hp').
    + intros k Hk. apply leaf_keys_app in Hk as [Hk|Hk]; [by apply HL|].
      apply leaf_keys_concat in Hk as (j & ll & Hj & Hk). apply lookup_take_Some in Hj as [Hj Hjc].
      by apply (branch_child_index d x es lls key j ll k Hb Hj Hk).
    + intros k Hk. apply leaf_keys_app in Hk as [Hk|Hk]; [|by apply HR].
      apply leaf_keys_concat in Hk as (j & ll & Hj & Hk). rewrite lookup_drop in Hj.
      apply (branch_child_index d x es lls key _ ll k Hb Hj Hk). fold c. lia.
Qed.

(** *** seek, Seek and Get *)

Lemma seek_spec key fuel x : (D <= fuel)%nat -> pageNode b (b_root b) = Ret x -> subtree b D x all ->
  exists y (i : nat) s L l R,
    seek fuel b key = Ret (mkRef y (Z.of_nat i) :: s, kv_of <$> l !! i) /\
    path 0 (mkRef y (Z.of_nat i) :: s) L [l] R /\ (i <= length l)%nat /\
    (forall k, k ∈ in_key <$> (concat L ++ take i l) -> key_lt k key) /\
    (forall k, k ∈ in_key <$> drop i l -> ~ key_lt k key) /\
    (forall k, k ∈ leaf_keys R -> key_lt key k).
Proof.
  intros Hf Hx Ht.
  destruct (search_spec key D fuel x (b_root b) [] 0 [] all [] Hf Hx (path_root x 0 Hx Ht))
    as (y & i & s & L & l & R & E & Hp & Hi & H1 & H2 & H3); [intros k Hk; by apply elem_of_nil in Hk..|].
  exists y, i, s, L, l, R. split; [|done]. unfold seek. rewrite E. cbn [mbind outcome_bind top_kv].
  destruct (l !! i) as [e|] eqn:Ee; cbn [fmap option_fmap option_map].
  - by rewrite (leaf_kv _ _ _ _ _ _ e Hp Ee).
  - apply lookup_ge_None in Ee. unfold keyValue; cbn [r_pn r_index].
    rewrite (h_count _ _ _ (proj1 (leaf_holds _ _ _ _ _ _ Hp))).
    destruct (Z.leb_spec (Z.of_nat (length l)) (Z.of_nat i)); [by rewrite orb_true_r|lia].
Qed.

Lemma Seek_spec key fuel x : (D + length all <= fuel)%nat ->
  pageNode b (b_root b) = Ret x -> subtree b D x all ->
  exists pre post, concat all = pre ++ post /\
    (forall y, y ∈ pre -> key_lt (in_key y) key) /\ (forall y, y ∈ post -> ~ key_lt (in_key y) key) /\
    match post with
    | [] => exists s, Seek fuel b key = Ret (s, None) /\ at_end s
    | e :: post => exists s, Seek fuel b key = Ret (s, shown (Some (kv_of e))) /\ at_item s pre e post
    end.
Proof.
  intros Hf Hx Ht.
  destruct (seek_spec key fuel x ltac:(lia) Hx Ht) as (y & i & s & L & l & R & E & Hp & Hi & H1 & H2 & H3).
  exists (concat L ++ take i l), (drop i l ++ concat R).
  pose proof (path_total _ _ _ _ _ Hp) as Hall.
  split; [|split; [|split]].
  - rewrite <- Hall, !concat_app. cbn [concat]. rewrite app_nil_r, <- app_assoc. f_equal.
    by rewrite app_assoc, take_drop.
  - intros z Hz. apply H1. by apply list_elem_of_fmap_2.
  - intros z Hz. apply elem_of_app in Hz as [Hz|Hz].
    + apply H2. by apply list_elem_of_fmap_2.
    + intros Hl. apply (key_lt_irrefl key), (key_lt_trans _ (in_key z)); [|done].
      apply H3. by apply list_elem_of_fmap_2.
  - unfold Seek. rewrite E. cbn [mbind outcome_bind r_pn r_index].
    rewrite (h_count _ _ _ (proj1 (leaf_holds _ _ _ _ _ _ Hp))).
    destruct (Z.leb_spec (Z.of_nat (length l)) (Z.of_nat i)).
    + rewrite take_ge, drop_ge by lia. cbn [app].
      assert (HR : (length R <= length all)%nat) by (rewrite <- Hall, !length_app; lia).
      destruct (next_leaf (length R) fuel y (Z.of_nat i) s L l R (le_n _) ltac:(lia) Hp ltac:(lia))
        as [(E1 & y1 & j1 & s2 & L2 & l2 & E2 & Hp2 & Hj & Hc)|(y1 & s2 & L2 & e2 & l2 & R2 & E2 & Hp2 & Hc & Hr)];
        rewrite E2; cbn [mbind outcome_bind].
      * rewrite E1. eexists. split; [reflexivity|]. exists y1, j1, s2, L2, l2. auto.
      * rewrite <- Hr. eexists. split; [reflexivity|].
        exists y1, 0%nat, s2, L2, (e2 :: l2), R2. split_and!; try done. cbn [take]. by rewrite app_nil_r.
    + destruct (lookup_lt_is_Some_2 l i ltac:(lia)) as [e He]. rewrite (drop_S _ _ _ He), He. cbn [app].
      cbn [mbind outcome_bind fmap option_fmap option_map]. eexists. split; [reflexivity|].
      exists y, i, s, L, l, R. done.
Qed.

Definition is_bucket (y : inode) : bool := negb (Z.land (in_flags y) bucketLeafFlag =? 0).

Lemma Get_spec key fuel x : (D <= fuel)%nat -> pageNode b (b_root b) = Ret x -> subtree b D x all ->
  (exists e, e ∈ concat all /\ in_key e = key /\
     Get fuel b key = Ret (if is_bucket e then None else Some (in_value e))) \/
  (Get fuel b key = Ret None /\ forall e, e ∈ concat all -> in_key e <> key).
Proof.
  intros Hf Hx Ht.
  destruct (seek_spec key fuel x Hf Hx Ht) as (y & i & s & L & l & R & E & Hp & Hi & H1 & H2 & H3).
  pose proof (path_total _ _ _ _ _ Hp) as Hall. unfold Get. rewrite E. cbn [mbind outcome_bind].
  assert (Hin : forall e, e ∈ l -> e ∈ concat all).
  { intros e He. rewrite <- Hall, !concat_app. cbn [concat]. rewrite app_nil_r, !elem_of_app. auto. }
  assert (Habs : (forall e, l !! i = Some e -> in_key e <> key) -> forall e, e ∈ concat all -> in_key e <> key).
  { intros Hne e He. rewrite <- Hall, !concat_app in He. cbn [concat] in He.
    rewrite app_nil_r, !elem_of_app in He. destruct He as [He|[He|He]].
    - intros <-. apply (key_lt_irrefl (in_key e)), H1. rewrite fmap_app, elem_of_app. left. by apply list_elem_of_fmap_2.
    - rewrite <- (take_drop i l), elem_of_app in He. destruct He as [He|He].
      + intros <-. apply (key_lt_irrefl (in_key e)), H1. rewrite fmap_app, elem_of_app. right. by apply list_elem_of_fmap_2.
      + apply list_elem_of_lookup in He as [j Hj]. rewrite lookup_drop in Hj. destruct j as [|j].
        * rewrite Nat.add_0_r in Hj. eauto.
        * intros Hk. destruct (lookup_lt_is_Some_2 l i) as [e' He']; [apply lookup_lt_Some in Hj; lia|].
          apply (H2 (in_key e')).
          -- apply list_elem_of_fmap_2, list_elem_of_lookup. exists 0%nat. by rewrite lookup_drop, Nat.add_0_r.
          -- rewrite <- Hk. destruct (leaf_holds _ _ _ _ _ _ Hp) as [_ Hs].
             apply (keys_sorted_lookup _ i (i + S j) _ _ Hs); [lia| |]; rewrite list_lookup_fmap.
             ++ by rewrite He'.
             ++ by rewrite Hj.
    - intros <-. apply (key_lt_irrefl (in_key e)), H3. by apply list_elem_of_fmap_2. }
  destruct (l !! i) as [e|] eqn:Ee; cbn [fmap option_fmap option_map].
  - unfold kv_of. destruct (decide (key = in_key e)) as [Hk|Hk].
    + left. exists e. split; [apply Hin; by apply list_elem_of_lookup_2 in Ee|]. split; [done|].
      unfold is_bucket. by destruct (Z.land (in_flags e) bucketLeafFlag =? 0).
    + right. split; [by destruct (negb _)|]. apply Habs. intros e' [= <-]. done.
  - right. split; [done|]. by apply Habs.
Qed.

(** *** Last and Prev: trees without empty leaves *)

Lemma last_down d : forall fuel x s L ll R, (d <= fuel)%nat -> path d (mkRef x (pn_count x - 1) :: s) L ll R ->
  exists y s' L' l, last fuel b (mkRef x (pn_count x - 1) :: s) = Ret (mkRef y (pn_count y - 1) :: s') /\
    path 0 (mkRef y (pn_count y - 1) :: s') L' [l] R /\ L' ++ [l] = L ++ ll.
Proof.
  induction d as [|d IH]; intros fuel x s L ll R Hf Hp; pose proof (path_subtree _ _ _ _ _ _ _ Hp) as Ht.
  - pose proof (subtree_isLeaf _ _ _ _ Ht) as Hl. destruct Ht as (l & Hh & Hs & ->).
    exists x, s, L, l. split; [|done]. destruct fuel; cbn [last r_pn]; by rewrite Hl.
  - destruct fuel as [|fuel]; [lia|]. apply subtree_S in Ht as (es & lls & Hb & ->).
    cbn [last r_pn r_index]. rewrite (branch_isLeaf _ _ _ _ _ Hb).
    pose proof (branch_count _ _ _ _ _ Hb) as Hc. pose proof (branch_length _ _ _ _ _ Hb) as Hlen.
    assert (Hes : (0 < length es)%nat) by (destruct es; [by destruct (br_ne _ _ _ _ _ Hb)|cbn; lia]).
    destruct (branch_child _ _ _ _ _ (length es - 1) Hb ltac:(lia)) as (e & cl & y & He & Hcl & Hy & Hty & Hch).
    replace (pn_count x - 1) with (Z.of_nat (length es - 1)) in Hp |- * by lia.
    rewrite Hch. cbn [mbind outcome_bind]. rewrite Hy. cbn [mbind outcome_bind].
    pose proof (path_down d x _ s L R es lls e y (pn_count y - 1) cl Hp Hb He Hcl Hy Hty) as Hp'.
    rewrite (drop_ge lls) in Hp' by lia.
    destruct (IH fuel _ _ _ _ _ ltac:(lia) Hp') as (z & s' & L' & l & E & Hp2 & Hl).
    exists z, s', L', l. split; [done|]. split; [done|]. rewrite Hl, (concat_split _ _ _ Hcl).
    rewrite (drop_ge lls) by lia. cbn [concat]. by rewrite app_nil_r, app_assoc.
Qed.

Lemma prev_up_parent d x i s L ll R : path d (mkRef x i :: s) L ll R ->
  (prev_up s = [] /\ L = []) \/
  (exists d' y e x1 i1 s1 L1 ll1, prev_up s = mkRef x1 i1 :: s1 /\ (S d' <= D)%nat /\
     pn_isLeaf x1 = false /\ pn_child x1 i1 = Ret (in_pgid e) /\ pageNode b (in_pgid e) = Ret y /\
     path d' (mkRef y (pn_count y - 1) :: mkRef x1 i1 :: s1) L1 ll1 (ll ++ R) /\ L1 ++ ll1 = L).
Proof.
  intros Hp. remember (mkRef x i :: s) as st eqn:Est. revert x i s Est.
  induction Hp as [x i Hx Ht|d x i s L R es lls e y j ll Hp IH Hb He Hll Hy Ht];
    intros x' i' s' [= <- <- <-]; [left; done|].
  assert (HD' : (S d <= D)%nat) by (by eapply path_height).
  cbn [prev_up r_index r_pn]. pose proof (lookup_lt_Some _ _ _ He) as Hi.
  destruct (Z.ltb_spec 0 (Z.of_nat i)) as [Hlt|Hge].
  - right. destruct (branch_child _ _ _ _ _ (i - 1) Hb ltac:(lia)) as (e1 & ll1 & y1 & He1 & Hll1 & Hy1 & Ht1 & Hch1).
    exists d, y1, e1, x, (Z.of_nat i - 1), s, (L ++ concat (take (i - 1) lls)), ll1.
    replace (Z.of_nat i - 1) with (Z.of_nat (i - 1)) by lia.
    split_and!; [done|done|by eapply branch_isLeaf|done|done| |].
    + replace (ll ++ concat (drop (S i) lls) ++ R) with (concat (drop (S (i - 1)) lls) ++ R).
      * eapply path_down; eauto. by eapply path_index.
      * replace (S (i - 1)) with i by lia. rewrite (drop_S _ _ _ Hll). cbn [concat]. by rewrite app_assoc.
    + rewrite <- app_assoc. f_equal. replace i with (S (i - 1)) at 2 by lia.
      rewrite (take_S_r _ _ _ Hll1), concat_app. cbn. by rewrite app_nil_r.
  - assert (i = 0%nat) as -> by lia. cbn [take concat]. rewrite app_nil_r.
    assert (El : concat lls = ll ++ concat (drop 1 lls)).
    { destruct lls as [|ll0 lls]; [done|]. cbn in Hll. injection Hll as ->. done. }
    destruct (IH _ _ _ eq_refl) as [H|(d' & y1 & e1 & x1 & i1 & s1 & L1 & ll1 & E & H1 & H2 & H3 & H4 & H5 & H6)].
    + by left.
    + right. exists d', y1, e1, x1, i1, s1, L1, ll1. split_and!; try done.
      by rewrite app_assoc, <- El.
Qed.

Lemma last_child fuel x i s e y : pn_isLeaf x = false -> pn_child x i = Ret (in_pgid e) ->
  pageNode b (in_pgid e) = Ret y ->
  last (S fuel) b (mkRef x i :: s) = last fuel b (mkRef y (pn_count y - 1) :: mkRef x i :: s).
Proof.
  intros Hl Hc Hy. cbn [last r_pn r_index]. rewrite Hl, Hc. cbn [mbind outcome_bind]. by rewrite Hy.
Qed.

(** The last item of a leaf that has one. *)
Lemma leaf_last x s L l R : path 0 (mkRef x (pn_count x - 1) :: s) L [l] R -> l <> [] ->
  exists l' e, l = l' ++ [e] /\ keyValue (mkRef x (pn_count x - 1)) = Ret (Some (kv_of e)) /\
    at_item (mkRef x (pn_count x - 1) :: s) (concat L ++ l') e (concat R).
Proof.
  intros Hp Hne. destruct (exists_last Hne) as (l' & e & ->). exists l', e. split; [done|].
  pose proof (leaf_holds _ _ _ _ _ _ Hp) as [Hh _]. pose proof (h_count _ _ _ Hh) as Hc.
  rewrite length_app in Hc; cbn [length] in Hc.
  assert (He : (l' ++ [e]) !! length l' = Some e) by (by apply list_lookup_middle).
  replace (pn_count x - 1) with (Z.of_nat (length l')) in Hp |- * by lia.
  split; [by apply (leaf_kv _ _ _ _ _ _ e Hp)|].
  exists x, (length l'), s, L, (l' ++ [e]), R. split_and!; try done.
  - by rewrite take_app_length.
  - by rewrite drop_ge by (rewrite length_app; cbn; lia).
Qed.

Lemma Last_spec fuel x : (D <= fuel)%nat -> pageNode b (b_root b) = Ret x -> subtree b D x all ->
  Forall (fun l => l <> []) all ->
  exists pre e s, concat all = pre ++ [e] /\ Last fuel b = Ret (s, shown (Some (kv_of e))) /\ at_item s pre e [].
Proof.
  intros Hf Hx Ht Hne. unfold Last. rewrite Hx. cbn [mbind outcome_bind].
  destruct (last_down D fuel x [] [] all [] Hf (path_root x _ Hx Ht)) as (y & s & L & l & E & Hp & Hall).
  cbn [app] in Hall. rewrite E. cbn [mbind outcome_bind top_kv].
  assert (Hl : l <> []).
  { rewrite Forall_forall in Hne. apply Hne. rewrite <- Hall. apply elem_of_app. right. by left. }
  destruct (leaf_last _ _ _ _ _ Hp Hl) as (l' & e & -> & Hkv & Hat).
  exists (concat L ++ l'), e, (mkRef y (pn_count y - 1) :: s). rewrite Hkv. cbn [mbind outcome_bind].
  split_and!; [|done|done]. rewrite <- Hall, concat_app. cbn. by rewrite app_nil_r, app_assoc.
Qed.

Lemma Prev_spec fuel s pre e post : (D <= fuel)%nat -> Forall (fun l => l <> []) all -> at_item s pre e post ->
  (pre = [] /\ Prev fuel b s = Ret ([], None)) \/
  (exists pre' e' s', pre = pre' ++ [e'] /\ Prev fuel b s = Ret (s', shown (Some (kv_of e'))) /\
     at_item s' pre' e' (e :: post)).
Proof.
  intros Hf Hne (x & i & s' & L & l & R & -> & Hp & He & -> & ->). unfold Prev. cbn [prev_up r_index r_pn].
  pose proof (leaf_holds _ _ _ _ _ _ Hp) as [Hh _].
  assert (Epost : e :: drop (S i) l ++ concat R = drop i l ++ concat R) by (by rewrite (drop_S _ _ _ He)).
  destruct (Z.ltb_spec 0 (Z.of_nat i)) as [Hlt|Hge].
  - right. destruct (lookup_lt_is_Some_2 l (i - 1)) as [e' He']; [apply lookup_lt_Some in He; lia|].
    replace (Z.of_nat i - 1) with (Z.of_nat (i - 1)) by lia.
    exists (concat L ++ take (i - 1) l), e', (mkRef x (Z.of_nat (i - 1)) :: s'). split_and!.
    + rewrite <- app_assoc. f_equal. rewrite <- (take_S_r _ _ _ He'). f_equal. lia.
    + assert (El : last fuel b (mkRef x (Z.of_nat (i - 1)) :: s') = Ret (mkRef x (Z.of_nat (i - 1)) :: s')).
      { destruct fuel; cbn [last r_pn]; by rewrite (h_leaf _ _ _ Hh). }
      rewrite El. cbn [mbind outcome_bind top_kv]. by rewrite (h_kv _ _ _ Hh eq_refl _ _ He').
    + rewrite Epost. exists x, (i - 1)%nat, s', L, l, R. split_and!; try done; [by eapply path_index|].
      by replace (S (i - 1)) with i by lia.
  - assert (i = 0%nat) as -> by lia. cbn [take]. rewrite app_nil_r.
    destruct (prev_up_parent _ _ _ _ _ _ _ Hp) as
      [[E ->]|(d' & y & e1 & x1 & i1 & s1 & L1 & ll1 & E & H1 & H2 & H3 & H4 & Hp1 & H6)]; rewrite E.
    + by left.
    + right. destruct fuel as [|fuel]; [lia|]. rewrite (last_child _ _ _ _ _ _ H2 H3 H4).
      destruct (last_down d' fuel _ _ _ _ _ ltac:(lia) Hp1) as (z & s2 & L2 & l2 & E2 & Hp2 & Hl2).
      assert (Hl : l2 <> []).
      { rewrite Forall_forall in Hne. apply Hne. rewrite <- (path_total _ _ _ _ _ Hp2).
        apply elem_of_app. right. by left. }
      destruct (leaf_last _ _ _ _ _ Hp2 Hl) as (l' & e' & -> & Hkv & Hat).
      rewrite E2. cbn [mbind outcome_bind top_kv]. rewrite Hkv. cbn [mbind outcome_bind].
      eexists (concat L2 ++ l'), e', _. split; [|split; [reflexivity|]].
      * rewrite <- H6, <- Hl2, concat_app. cbn. by rewrite app_nil_r, app_assoc.
      * rewrite Epost. cbn [drop]. exact Hat.
Qed.

End walk.

(** bucket.go: ForEach on an open transaction, with the state [A] that fn keeps and its
    error; [n] bounds the number of items. *)
Fixpoint ForEach_loop {A E} (n fuel : nat) (b : bucket) (fn : A -> list Z -> option (list Z) -> A * option E)
    (a : A) (s : stack) (kv : option (list Z * option (list Z))) : outcome unit (A * option E) :=
  match kv with
  | None => Ret (a, None)
  | Some (k, v) =>
      match fn a k v with
      | (a, Some err) => Ret (a, Some err)
      | (a, None) =>
          match n with
          | O => Fail tt
          | S n => '(s, kv) ← Next fuel b s; ForEach_loop n fuel b fn a s kv
          end
      end
  end.

Definition ForEach {A E} (n fuel : nat) (b : bucket) (fn : A -> list Z -> option (list Z) -> A * option E)
    (a : A) : outcome unit (A * option E) :=
  '(s, kv) ← First fuel b;
  ForEach_loop n fuel b fn a s kv.

(** The reference: fn on each item in turn until it returns an error. *)
Fixpoint each {A E} (fn : A -> list Z -> option (list Z) -> A * option E) (a : A) (l : list inode)
    : A * option E :=
  match l with
  | [] => (a, None)
  | e :: l =>
      match fn a (in_key e) (if is_bucket e then None else Some (in_value e)) with
      | (a, Some err) => (a, Some err)
      | (a, None) => each fn a l
      end
  end.

(** ** The items of a bucket are sorted *)

Lemma sorted_concat (lls : list (list (list inode))) :
  (forall i ll, lls !! i = Some ll -> keys_sorted (leaf_keys ll)) ->
  (forall i j ll1 ll2 k1 k2, (i < j)%nat -> lls !! i = Some ll1 -> lls !! j = Some ll2 ->
     k1 ∈ leaf_keys ll1 -> k2 ∈ leaf_keys ll2 -> key_lt k1 k2) ->
  keys_sorted (leaf_keys (concat lls)).
Proof.
  induction lls as [|ll lls IH]; intros H1 H2; [constructor|].
  unfold leaf_keys; cbn [concat]. rewrite concat_app, fmap_app. apply StronglySorted_app. split_and!.
  - intros k1 k2 Hk1 Hk2. change (k2 ∈ leaf_keys (concat lls)) in Hk2.
    apply leaf_keys_concat in Hk2 as (j & ll2 & Hj & Hk2).
    by apply (H2 0%nat (S j) ll ll2); [lia|..].
  - by apply (H1 0%nat).
  - apply IH.
    + intros i ll' Hi. by apply (H1 (S i)).
    + intros i j ll1 ll2 k1 k2 Hij Hi Hj. apply (H2 (S i) (S j)); [lia|done|done].
Qed.

Lemma subtree_sorted b d : forall x ll, subtree b d x ll -> keys_sorted (leaf_keys ll).
Proof.
  induction d as [|d IH]; intros x ll Ht.
  - destruct Ht as (l & Hh & Hs & ->). unfold leaf_keys. cbn. by rewrite app_nil_r.
  - apply subtree_S in Ht as (es & lls & Hb & ->). apply sorted_concat.
    + intros i ll Hi. destruct (Forall2_lookup_r _ _ _ _ _ (br_children _ _ _ _ _ Hb) Hi) as (e & He & y & _ & Hy).
      by eapply IH.
    + intros i j ll1 ll2 k1 k2 Hij Hi Hj Hk1 Hk2.
      destruct (br_sep _ _ _ _ _ Hb _ _ _ Hi Hk1) as [Hu _].
      destruct (br_sep _ _ _ _ _ Hb _ _ _ Hj Hk2) as [_ Hl].
      pose proof (lookup_lt_Some _ _ _ Hj) as Hjl. rewrite (branch_length _ _ _ _ _ Hb) in Hjl.
      destruct (lookup_lt_is_Some_2 es (S i) ltac:(lia)) as [e1 He1].
      destruct (lookup_lt_is_Some_2 es j ltac:(lia)) as [e2 He2].
      apply (key_lt_le_trans _ (in_key e1)); [by apply Hu|]. specialize (Hl e2 ltac:(lia) He2).
      destruct (decide (S i = j)) as [Eij|].
      { rewrite Eij, He2 in He1. by injection He1 as <-. }
      intros Hx. apply Hl, (key_lt_trans _ (in_key e1)); [done|].
      apply (keys_sorted_lookup _ (S i) j _ _ (br_sorted _ _ _ _ _ Hb)); [lia| |]; rewrite list_lookup_fmap.
      * by rewrite He1.
      * by rewrite He2.
Qed.

(** A bucket whose tree has depth [D] and the leaves [all]. *)
Definition bucket_tree (b : bucket) (D : nat) (all : list (list inode)) : Prop :=
  exists x, pageNode b (b_root b) = Ret x /\ subtree b D x all.

Lemma ForEach_loop_spec {A E} b D all fuel (fn : A -> list Z -> option (list Z) -> A * option E) post :
  forall n a s pre e, (D + length all <= fuel)%nat -> (length post < n)%nat -> at_item b D all s pre e post ->
  ForEach_loop n fuel b fn a s (shown (Some (kv_of e))) = Ret (each fn a (e :: post)).
Proof.
  induction post as [|e' post IH]; intros n a s pre e Hf Hn Hat;
    pose proof (next_item b D all fuel s _ _ _ Hf Hat) as Hnext; cbn [each];
    (destruct n as [|n]; [cbn in Hn; lia|]); cbn [ForEach_loop shown kv_of];
    unfold is_bucket; destruct (Z.land (in_flags e) bucketLeafFlag =? 0); cbn [negb];
    (destruct (fn a (in_key e) _) as [a' [err|]]; [done|]); unfold Next.
  1, 2: destruct Hnext as (s' & En & _); rewrite En; cbn [mbind outcome_bind shown]; by destruct n.
  1, 2: destruct Hnext as (s' & En & Hat'); rewrite En; cbn [mbind outcome_bind];
    rewrite (IH n a' s' (pre ++ [e]) e'); [done|done|cbn in Hn; lia|exact Hat'].
Qed.

Lemma ForEach_spec {A E} b D all n fuel (fn : A -> list Z -> option (list Z) -> A * option E) a :
  bucket_tree b D all -> (D + length all <= fuel)%nat -> (length (concat all) <= n)%nat ->
  ForEach n fuel b fn a = Ret (each fn a (concat all)).
Proof.
  intros (x & Hx & Ht) Hf Hn. unfold ForEach. pose proof (First_spec b D all fuel x Hf Hx Ht) as H.
  destruct (concat all) as [|e post].
  - destruct H as (s & E1 & _). rewrite E1. cbn [mbind outcome_bind]. by destruct n.
  - destruct H as (s & E1 & Hat). rewrite E1. cbn [mbind outcome_bind].
    eapply ForEach_loop_spec; [exact Hf|cbn in Hn; lia|exact Hat].
Qed.

(** ** A bucket of two leaf pages under a branch node, with one leaf emptied *)

Definition leaf_item (k v flags : Z) : inode := mkInode flags 0 [k] [v].

Definition leaf_node (l : list inode) : node := set_inodes l (empty_node true).

(** The leaf page written by the node write of the previous file. *)
Definition page_of (n : node) : page :=
  match write n (mkPage 4 0 0 0 (replicate 100 0)) with Ret p => p | _ => mkPage 4 0 0 0 [] end.

Definition example_bucket : bucket :=
  mkBucket 3 None None
    {[ 3 := set_inodes [mkInode 0 4 [10] []; mkInode 0 5 [30] []; mkInode 0 6 [50] []] (empty_node false);
       5 := leaf_node [];
       6 := leaf_node [leaf_item 50 5 1; leaf_item 60 6 0] ]}
    {[ 4 := page_of (leaf_node [leaf_item 10 1 0; leaf_item 20 2 0]) ]}.

Definition example_leaves : list (list inode) :=
  [[leaf_item 10 1 0; leaf_item 20 2 0]; []; [leaf_item 50 5 1; leaf_item 60 6 0]].

Example example_scan :
  ForEach 10 10 example_bucket (fun a k v => (a ++ [(k, v)], @None unit)) [] =
  Ret ([([10], Some [1]); ([20], Some [2]); ([50], None); ([60], Some [6])], None).
Proof. vm_compute. reflexivity. Qed.

Lemma example_leaf id l : pageNode example_bucket id = Ret (PNode (leaf_node l)) ->
  keys_sorted (in_key <$> l) -> exists y, pageNode example_bucket id = Ret y /\ subtree example_bucket 0 y [l].
Proof. intros H Hs. eexists. split; [exact H|]. exists l. split; [exact (holds_node (leaf_node l))|]. done. Qed.

Lemma example_page : holds (PPage (page_of (leaf_node [leaf_item 10 1 0; leaf_item 20 2 0]))) true
  [leaf_item 10 1 0; leaf_item 20 2 0].
Proof.
  set (p := page_of _).
  assert (E : read p (empty_node true) = Ret (mkNode true false false (Some [10]) 4 [leaf_item 10 1 0; leaf_item 20 2 0])).
  { vm_compute. reflexivity. }
  apply (holds_page _ _ _ E); [vm_compute; split; [discriminate|reflexivity]|vm_compute; reflexivity].
Qed.

Lemma example_tree : bucket_tree example_bucket 1 example_leaves.
Proof.
  eexists. split; [vm_compute; reflexivity|]. apply subtree_S.
  exists [mkInode 0 4 [10] []; mkInode 0 5 [30] []; mkInode 0 6 [50] []],
    [[[leaf_item 10 1 0; leaf_item 20 2 0]]; [[]]; [[leaf_item 50 5 1; leaf_item 60 6 0]]].
  split; [|reflexivity]. split.
  - apply (holds_node (set_inodes _ (empty_node false))).
  - discriminate.
  - repeat constructor.
  - intros j ll k Hj Hk. destruct j as [|[|[|j]]]; cbn in Hj; [| | |done];
      injection Hj as <-; cbn in Hk; repeat (apply elem_of_cons in Hk as [->|Hk]);
      try (by apply elem_of_nil in Hk); (split; [intros e [= <-]|intros e Hj [= <-]]);
      cbn in *; try lia; try reflexivity; intros H; vm_compute in H; discriminate.
  - constructor; [|constructor; [|constructor; [|constructor]]].
    + exists (PPage (page_of (leaf_node [leaf_item 10 1 0; leaf_item 20 2 0]))). split; [vm_compute; reflexivity|].
      eexists. split; [exact example_page|]. split; [repeat constructor|reflexivity].
    + apply example_leaf; [vm_compute; reflexivity|constructor].
    + apply example_leaf; [vm_compute; reflexivity|repeat constructor].
Qed.

(** ** Properties *)

(** C23: forward iteration.  On a bucket whose pages and nodes form a tree, with empty
    leaves allowed, the items are in strict key order; First is on the first item, Next
    moves from each item to the one after it and returns nil at the end, where it stays;
    ForEach calls its function on exactly the items in order until it returns an error,
    nested buckets without their value.  The depth and the number of leaves are enough
    fuel: every call returns. *)
Theorem cursor_forward {A E} b D all fuel n (fn : A -> list Z -> option (list Z) -> A * option E) a :
  bucket_tree b D all -> (D + length all <= fuel)%nat -> (length (concat all) <= n)%nat ->
  keys_sorted (leaf_keys all) /\
  match concat all with
  | [] => exists s, First fuel b = Ret (s, None) /\ at_end b D all s
  | e :: post => exists s, First fuel b = Ret (s, shown (Some (kv_of e))) /\ at_item b D all s [] e post
  end /\
  (forall s pre e post, at_item b D all s pre e post ->
     pre ++ e :: post = concat all /\
     match post with
     | [] => exists s', Next fuel b s = Ret (s', None) /\ at_end b D all s'
     | e' :: post' => exists s', Next fuel b s = Ret (s', shown (Some (kv_of e'))) /\
                        at_item b D all s' (pre ++ [e]) e' post'
     end) /\
  (forall s, at_end b D all s -> exists s', Next fuel b s = Ret (s', None) /\ at_end b D all s') /\
  ForEach n fuel b fn a = Ret (each fn a (concat all)).
Proof.
  intros Hb Hf Hn. pose proof Hb as (x & Hx & Ht).
  split; [by eapply subtree_sorted|]. split; [by apply (First_spec b D all fuel x)|]. split; [|split].
  - intros s pre e post Hat. split; [by eapply at_item_all|]. unfold Next.
    pose proof (next_item b D all fuel s pre e post Hf Hat) as H.
    destruct post; destruct H as (s' & E1 & H); rewrite E1; eauto.
  - intros s Hat. destruct (next_end b D all fuel s ltac:(lia) Hat) as (s' & E1 & H).
    exists s'. unfold Next. by rewrite E1.
  - by apply ForEach_spec with D.
Qed.

Lemma cursor_forward_witness :
  bucket_tree example_bucket 1 example_leaves /\ keys_sorted (leaf_keys example_leaves).
Proof.
  split; [exact example_tree|].
  apply (cursor_forward (E := unit) example_bucket 1 example_leaves 4 4 (fun a _ _ => (a, None)) tt example_tree).
  - cbn. lia.
  - cbn. lia.
Defined.

(** C24: Seek and Get.  Seek puts the cursor on the first item whose key is not below the
    sought one, across pages and empty leaves, and returns nil if there is none.  Get
    returns the value of the item with the key, and nil if there is none or it is a
    nested bucket. *)
Theorem cursor_seek b D all fuel key :
  bucket_tree b D all -> (D + length all <= fuel)%nat ->
  (exists pre post, concat all = pre ++ post /\
    (forall y, y ∈ pre -> key_lt (in_key y) key) /\ (forall y, y ∈ post -> ~ key_lt (in_key y) key) /\
    match post with
    | [] => exists s, Seek fuel b key = Ret (s, None) /\ at_end b D all s
    | e :: post' => exists s, Seek fuel b key = Ret (s, shown (Some (kv_of e))) /\
                      at_item b D all s pre e post'
    end) /\
  ((exists e, e ∈ concat all /\ in_key e = key /\
      Get fuel b key = Ret (if is_bucket e then None else Some (in_value e))) \/
   (Get fuel b key = Ret None /\ forall e, e ∈ concat all -> in_key e <> key)).
Proof.
  intros (x & Hx & Ht) Hf. split; [by apply (Seek_spec b D all key fuel x)|].
  apply (Get_spec b D all key fuel x); [lia|done|done].
Qed.

Lemma cursor_seek_witness :
  bucket_tree example_bucket 1 example_leaves /\
  ((exists e, e ∈ concat example_leaves /\ in_key e = [60] /\
      Get 4 example_bucket [60] = Ret (if is_bucket e then None else Some (in_value e))) \/
   (Get 4 example_bucket [60] = Ret None /\ forall e, e ∈ concat example_leaves -> in_key e <> [60])).
Proof.
  split; [exact example_tree|].
  apply (cursor_seek example_bucket 1 example_leaves 4 [60] example_tree). cbn. lia.
Defined.

(** Backward iteration.  On a tree without empty leaves Last is on the last item and
    Prev moves from each item to the one before it; from the first item it returns nil. *)
Theorem cursor_backward b D all fuel :
  bucket_tree b D all -> (D <= fuel)%nat -> Forall (fun l => l <> []) all ->
  (exists pre e s, concat all = pre ++ [e] /\ Last fuel b = Ret (s, shown (Some (kv_of e))) /\
     at_item b D all s pre e []) /\
  (forall s pre e post, at_item b D all s pre e post ->
     (pre = [] /\ Prev fuel b s = Ret ([], None)) \/
     (exists pre' e' s', pre = pre' ++ [e'] /\ Prev fuel b s = Ret (s', shown (Some (kv_of e'))) /\
        at_item b D all s' pre' e' (e :: post))).
Proof.
  intros (x & Hx & Ht) Hf Hne. split; [by apply (Last_spec b D all fuel x)|].
  intros s pre e post Hat. by apply (Prev_spec b D all fuel s pre e post).
Qed.

Definition one_leaf : bucket :=
  mkBucket 7 None None {[ 7 := leaf_node [leaf_item 10 1 0; leaf_item 20 2 0] ]} ∅.

Lemma one_leaf_tree : bucket_tree one_leaf 0 [[leaf_item 10 1 0; leaf_item 20 2 0]].
Proof.
  eexists. split; [vm_compute; reflexivity|]. eexists.
  split; [exact (holds_node (leaf_node [leaf_item 10 1 0; leaf_item 20 2 0]))|].
  split; [repeat constructor|reflexivity].
Qed.

Lemma cursor_backward_witness :
  bucket_tree one_leaf 0 [[leaf_item 10 1 0; leaf_item 20 2 0]] /\
  exists pre e s, [leaf_item 10 1 0; leaf_item 20 2 0] = pre ++ [e] /\
     Last 0 one_leaf = Ret (s, shown (Some (kv_of e))) /\
     at_item one_leaf 0 [[leaf_item 10 1 0; leaf_item 20 2 0]] s pre e [].
Proof.
  split; [exact one_leaf_tree|].
  apply (cursor_backward one_leaf 0 _ 0 one_leaf_tree).
  - lia.
  - repeat constructor. discriminate.
Defined.

(** Backward iteration stops at an empty leaf.  Unlike First and Next, Prev does not
    skip a leaf that deletions have emptied: from the item [50] of the example, whose
    previous leaf is empty, Prev returns nil although [10] and [20] come before it, and
    Last on a bucket whose last leaf is empty returns nil too. *)
Theorem prev_stops_at_empty_leaf :
  bucket_tree example_bucket 1 example_leaves /\
  ('(s, r) ← Seek 4 example_bucket [50]; '(_, r') ← Prev 4 example_bucket s; Ret (r, r')) =
    Ret (Some ([50], None), None) /\
  (let b := mkBucket 3 None None
      {[ 3 := set_inodes [mkInode 0 4 [10] []; mkInode 0 5 [30] []] (empty_node false);
         4 := leaf_node [leaf_item 10 1 0]; 5 := leaf_node [] ]} ∅ in
   ('(_, r) ← First 4 b; '(_, r') ← Last 4 b; Ret (r, r')) = Ret (Some ([10], Some [1]), None)).
Proof. split; [exact example_tree|]. split; vm_compute; reflexivity. Qed.
