(* ===== verification/BoltTx.v ===== *)
(** bolt bucket.go, node.go and cursor.go: the updates of a bucket in a writable
    transaction. Nodes are shared by pointer - a node knows its parent and its children,
    the bucket knows its nodes by page id - so they live in a heap; [o_node] are the fields
    of a node that BoltNode has. Put and Delete materialise the nodes on the way to a leaf,
    rebalance merges nodes that deletions left too small, and spill splits nodes that are
    too large and writes them to new pages. Only the definitions are here. *)

From Stdlib Require Import ZArith Lia Floats.SpecFloat.
From stdpp Require Import base numbers option list sorting gmap fin_sets.
From S2P Require Import Prelude GoSort GoBytes BoltFreelist BoltNode BoltCursor.
#[local] Open Scope Z_scope.

(** ** Errors *)

(** The errors of errors.go that updates return; [ErrMmap] is the error of db.mmap. *)
Inductive bolt_error :=
  | ErrTxClosed | ErrTxNotWritable | ErrKeyRequired | ErrKeyTooLarge | ErrValueTooLarge
  | ErrIncompatibleValue | ErrMmap | OutOfFuel.

Definition lift {A} (m : outcome unit A) : outcome bolt_error A :=
  match m with Ret a => Ret a | Fail _ => Fail OutOfFuel | Panic => Panic end.

Definition MaxKeySize : Z := 32768.
Definition MaxValueSize : Z := Z.shiftl 1 31 - 2.

(** ** State *)

(** A node object; [None] is a nil parent. *)
Record nobj := mkNobj { o_node : node; o_parent : option nat; o_children : list nat }.

Definition o_setNode (n : node) (o : nobj) : nobj := mkNobj n (o_parent o) (o_children o).
Definition o_setParent (p : option nat) (o : nobj) : nobj := mkNobj (o_node o) p (o_children o).
Definition o_setChildren (l : list nat) (o : nobj) : nobj := mkNobj (o_node o) (o_parent o) l.

Definition n_setUnbalanced (u : bool) (n : node) : node :=
  mkNode (isLeaf n) u (spilled n) (n_key n) (n_pgid n) (inodes n).
Definition n_setPgid (id : Z) (n : node) : node :=
  mkNode (isLeaf n) (unbalanced n) (spilled n) (n_key n) id (inodes n).
Definition n_setSpilled (s : bool) (n : node) : node :=
  mkNode (isLeaf n) (unbalanced n) s (n_key n) (n_pgid n) (inodes n).
Definition n_setKey (k : list Z) (n : node) : node :=
  mkNode (isLeaf n) (unbalanced n) (spilled n) (Some k) (n_pgid n) (inodes n).
Definition n_setContent (leaf : bool) (l : list inode) (n : node) : node :=
  mkNode leaf (unbalanced n) (spilled n) (n_key n) (n_pgid n) l.

(** &node{...}: a node with nothing set. *)
Definition node0 : node := mkNode false false false None 0 [].

(** A bucket without open subbuckets, with what it uses of its transaction (t_pages are
    the dirty pages and the mapped file, t_hwm is meta.pgid) and of the database. *)
Record txb := mkTxb {
  t_root : Z; t_page : option page; t_rootNode : option nat; t_nodes : gmap Z nat;
  t_heap : gmap nat nobj;
  t_open : bool; t_writable : bool; t_pages : gmap Z page; t_hwm : Z;
  t_free : freelist; t_datasz : Z
}.

Definition s_root (r : Z) (n : option nat) (b : txb) : txb :=
  mkTxb r (t_page b) n (t_nodes b) (t_heap b) (t_open b) (t_writable b) (t_pages b) (t_hwm b) (t_free b) (t_datasz b).
Definition s_nodes (m : gmap Z nat) (b : txb) : txb :=
  mkTxb (t_root b) (t_page b) (t_rootNode b) m (t_heap b) (t_open b) (t_writable b) (t_pages b) (t_hwm b) (t_free b) (t_datasz b).
Definition s_heap (h : gmap nat nobj) (b : txb) : txb :=
  mkTxb (t_root b) (t_page b) (t_rootNode b) (t_nodes b) h (t_open b) (t_writable b) (t_pages b) (t_hwm b) (t_free b) (t_datasz b).
Definition s_pages (m : gmap Z page) (b : txb) : txb :=
  mkTxb (t_root b) (t_page b) (t_rootNode b) (t_nodes b) (t_heap b) (t_open b) (t_writable b) m (t_hwm b) (t_free b) (t_datasz b).
Definition s_free (f : freelist) (b : txb) : txb :=
  mkTxb (t_root b) (t_page b) (t_rootNode b) (t_nodes b) (t_heap b) (t_open b) (t_writable b) (t_pages b) (t_hwm b) f (t_datasz b).
Definition s_hwm (h datasz : Z) (b : txb) : txb :=
  mkTxb (t_root b) (t_page b) (t_rootNode b) (t_nodes b) (t_heap b) (t_open b) (t_writable b) (t_pages b) h (t_free b) datasz.

Definition get (q : nat) (b : txb) : outcome bolt_error nobj :=
  match t_heap b !! q with Some o => Ret o | None => Panic end.

Definition set (q : nat) (o : nobj) (b : txb) : txb := s_heap (<[q := o]> (t_heap b)) b.

Definition update (q : nat) (f : nobj -> nobj) (b : txb) : outcome bolt_error txb :=
  o ← get q b; Ret (set q (f o) b).

(** A pointer that is not in use. *)
Definition new_ptr (b : txb) : nat := fresh (dom (t_heap b)).

(** tx.page. *)
Definition page_at (id : Z) (b : txb) : outcome bolt_error page :=
  match t_pages b !! id with Some p => Ret p | None => Panic end.

(** ** Materialising nodes *)

(** Bucket.node: the node of a page, read if it is not in memory. *)
Definition bucket_node (id : Z) (parent : option nat) (b : txb) : outcome bolt_error (nat * txb) :=
  if negb (t_writable b) then Panic
  else
    match t_nodes b !! id with
    | Some q => Ret (q, b)
    | None =>
        let q := new_ptr b in
        let b := set q (mkNobj node0 parent []) b in
        b ← match parent with
            | None => Ret (s_root (t_root b) (Some q) b)
            | Some p => update p (fun o => o_setChildren (o_children o ++ [q]) o) b
            end;
        p ← match t_page b with Some p => Ret p | None => page_at id b end;
        n ← lift (read p node0);
        b ← update q (o_setNode n) b;
        Ret (q, s_nodes (<[id := q]> (t_nodes b)) b)
    end.

(** The i-th inode, with Go's bounds check. *)
Definition inode_of (n : node) (i : Z) : outcome bolt_error inode := lift (inode_at n i).

Definition childAt (q : nat) (index : Z) (b : txb) : outcome bolt_error (nat * txb) :=
  o ← get q b;
  if isLeaf (o_node o) then Panic
  else e ← inode_of (o_node o) index; bucket_node (in_pgid e) (Some q) b.

(** ** Cursors *)

(** What pageNode returns; a cursor's reference to it. *)
Inductive ref := RPage (p : page) | RNode (q : nat).
Record kref := mkKref { k_ref : ref; k_index : Z }.

Definition ref_at (id : Z) (b : txb) : outcome bolt_error ref :=
  if t_root b =? 0 then
    if negb (id =? 0) then Panic
    else match t_rootNode b with
         | Some q => Ret (RNode q)
         | None => match t_page b with Some p => Ret (RPage p) | None => Panic end
         end
  else
    match t_nodes b !! id with
    | Some q => Ret (RNode q)
    | None => p ← page_at id b; Ret (RPage p)
    end.

(** The page or node referred to, as the cursor of BoltCursor sees it. *)
Definition deref (r : ref) (b : txb) : outcome bolt_error pn :=
  match r with RPage p => Ret (PPage p) | RNode q => o ← get q b; Ret (PNode (o_node o)) end.

(** Cursor.search; the stack has its top first. *)
Fixpoint cursor_search (fuel : nat) (b : txb) (key : list Z) (id : Z) (s : list kref)
    : outcome bolt_error (list kref) :=
  r ← ref_at id b;
  x ← deref r b;
  if bad_type x then Panic
  else
    '(index, exact) ← lift (pn_search x key);
    if pn_isLeaf x then Ret (mkKref r (Z.of_nat index) :: s)
    else
      let index := if negb exact && (0 <? index)%nat then (index - 1)%nat else index in
      child ← lift (search_child x (Z.of_nat index));
      match fuel with
      | O => Fail OutOfFuel
      | S fuel => cursor_search fuel b key child (mkKref r (Z.of_nat index) :: s)
      end.

(** The key, value and flags of the top element. *)
Definition cursor_keyValue (s : list kref) (b : txb) : outcome bolt_error (option kvf) :=
  match s with
  | [] => Panic
  | r :: _ => x ← deref (k_ref r) b; lift (keyValue (mkRef x (k_index r)))
  end.

Definition cursor_seek (fuel : nat) (b : txb) (key : list Z) : outcome bolt_error (list kref * option kvf) :=
  if negb (t_open b) then Panic
  else
    s ← cursor_search fuel b key (t_root b) [];
    kv ← cursor_keyValue s b;
    Ret (s, kv).

(** The loop of Cursor.node, along the stack from its bottom. *)
Fixpoint node_loop (refs : list kref) (q : nat) (b : txb) : outcome bolt_error (nat * txb) :=
  match refs with
  | [] => Ret (q, b)
  | r :: refs =>
      o ← get q b;
      if isLeaf (o_node o) then Panic
      else '(q, b) ← childAt q (k_index r) b; node_loop refs q b
  end.

(** From the bottom of the stack down: the root's node, then the children. *)
Definition node_walk (s : list kref) (b : txb) : outcome bolt_error (nat * txb) :=
  match rev s with
  | [] => Panic
  | bottom :: _ =>
      '(q, b) ← match k_ref bottom with
                | RNode q => Ret (q, b)
                | RPage p => bucket_node (pg_id p) None b
                end;
      '(q, b) ← node_loop (removelast (rev s)) q b;
      o ← get q b;
      if isLeaf (o_node o) then Ret (q, b) else Panic
  end.

(** Cursor.node. *)
Definition cursor_node (s : list kref) (b : txb) : outcome bolt_error (nat * txb) :=
  match s with
  | [] => Panic
  | top :: _ =>
      match k_ref top with
      | RNode q => o ← get q b; if isLeaf (o_node o) then Ret (q, b) else node_walk s b
      | RPage _ => node_walk s b
      end
  end.

(** ** Bucket operations *)

Definition node_put (q : nat) (oldKey newKey value : list Z) (pgid flags : Z) (b : txb)
    : outcome bolt_error txb :=
  o ← get q b;
  n ← lift (put (t_hwm b) oldKey newKey value pgid flags (o_node o));
  Ret (set q (o_setNode n o) b).

Definition node_del (q : nat) (key : list Z) (b : txb) : outcome bolt_error txb :=
  update q (fun o => o_setNode (del key (o_node o)) o) b.

(** A nil key of an element that is not there is equal to the empty key. *)
Definition kv_key (kv : option kvf) : list Z := match kv with Some (k, _, _) => k | None => [] end.
Definition kv_flags (kv : option kvf) : Z := match kv with Some (_, _, f) => f | None => 0 end.

Definition Put (fuel : nat) (key value : list Z) (b : txb) : outcome bolt_error txb :=
  if negb (t_open b) then Fail ErrTxClosed
  else if negb (t_writable b) then Fail ErrTxNotWritable
  else if (length key =? 0)%nat then Fail ErrKeyRequired
  else if MaxKeySize <? Z.of_nat (length key) then Fail ErrKeyTooLarge
  else if MaxValueSize <? Z.of_nat (length value) then Fail ErrValueTooLarge
  else
    '(s, kv) ← cursor_seek fuel b key;
    if bool_decide (key = kv_key kv) && negb (Z.land (kv_flags kv) bucketLeafFlag =? 0)
    then Fail ErrIncompatibleValue
    else '(q, b) ← cursor_node s b; node_put q key key value 0 0 b.

Definition Delete (fuel : nat) (key : list Z) (b : txb) : outcome bolt_error txb :=
  if negb (t_open b) then Fail ErrTxClosed
  else if negb (t_writable b) then Fail ErrTxNotWritable
  else
    '(s, kv) ← cursor_seek fuel b key;
    if negb (Z.land (kv_flags kv) bucketLeafFlag =? 0) then Fail ErrIncompatibleValue
    else '(q, b) ← cursor_node s b; node_del q key b.

(** Bucket.Get, on the bucket in the transaction. *)
Definition Bucket_Get (fuel : nat) (key : list Z) (b : txb) : outcome bolt_error (option (list Z)) :=
  '(_, kv) ← cursor_seek fuel b key;
  match kv with
  | None => Ret None
  | Some (k, v, flags) =>
      if negb (Z.land flags bucketLeafFlag =? 0) then Ret None
      else if decide (key = k) then Ret (Some v) else Ret None
  end.

(** Cursor.Delete: the element under the cursor. *)
Definition cursor_Delete (s : list kref) (b : txb) : outcome bolt_error txb :=
  if negb (t_open b) then Fail ErrTxClosed
  else if negb (t_writable b) then Fail ErrTxNotWritable
  else
    kv ← cursor_keyValue s b;
    if negb (Z.land (kv_flags kv) bucketLeafFlag =? 0) then Fail ErrIncompatibleValue
    else '(q, b) ← cursor_node s b; node_del q (kv_key kv) b.

(** ** Configuration *)

(** db.pageSize, tx.meta.txid, Bucket.FillPercent; the size of the database file, and
    whether the system calls of db.mmap - the old map given up, that many bytes mapped - and
    the check of the meta pages succeed for a size. *)
Record config := mkConfig {
  c_pageSize : Z; c_txid : Z; c_fill : spec_float; c_filesz : Z; c_maps : Z -> bool
}.

(** bolt_amd64.go and db.go. *)
Definition maxMapSize : Z := 0xFFFFFFFFFFFF.
Definition maxMmapStep : Z := Z.shiftl 1 30.

(** The loop of mmapSize for [n] more values of i. *)
Fixpoint mmapSize_loop (n : nat) (i size : Z) : option Z :=
  match n with
  | O => None
  | S n => if size <=? Z.shiftl 1 i then Some (Z.shiftl 1 i) else mmapSize_loop n (i + 1) size
  end.

Definition mmapSize (pageSize size : Z) : option Z :=
  match mmapSize_loop 16 15 size with
  | Some sz => Some sz
  | None =>
      if maxMapSize <? size then None
      else
        let remainder := Z.rem size maxMmapStep in
        let sz := if 0 <? remainder then size + (maxMmapStep - remainder) else size in
        let sz := if negb (Z.rem sz pageSize =? 0) then (Z.quot sz pageSize + 1) * pageSize else sz in
        Some (if maxMapSize <? sz then maxMapSize else sz)
  end.

(** db.mmap: the new datasz, or an error; the errors of the calls it makes are not told
    apart, and file.Stat is taken to succeed. What it does to nodes in memory, dereference,
    copies their bytes. *)
Definition db_mmap (c : config) (minsz : Z) : option Z :=
  if c_filesz c <? c_pageSize c * 2 then None
  else
    let size := if c_filesz c <? minsz then minsz else c_filesz c in
    sz ← mmapSize (c_pageSize c) size;
    if c_maps c sz then Some sz else None.

(** ** rebalance *)

Fixpoint remove_first (target : nat) (l : list nat) : list nat :=
  match l with
  | [] => []
  | x :: l => if decide (x = target) then l else x :: remove_first target l
  end.

Definition removeChild (q target : nat) (b : txb) : outcome bolt_error txb :=
  update q (fun o => o_setChildren (remove_first target (o_children o)) o) b.

(** node.free: the page of the node goes to the freelist. *)
Definition node_free (c : config) (q : nat) (b : txb) : outcome bolt_error txb :=
  o ← get q b;
  if n_pgid (o_node o) =? 0 then Ret b
  else
    p ← page_at (n_pgid (o_node o)) b;
    f ← lift (free (c_txid c) (pg_id p) (pg_overflow p) (t_free b));
    Ret (set q (o_setNode (n_setPgid 0 (o_node o)) o) (s_free f b)).

Definition node_key (n : node) : list Z := default [] (n_key n).

Definition nextSibling (q : nat) (b : txb) : outcome bolt_error (option nat * txb) :=
  o ← get q b;
  match o_parent o with
  | None => Ret (None, b)
  | Some parent =>
      po ← get parent b;
      let index := Z.of_nat (childIndex (node_key (o_node o)) (o_node po)) in
      if Z.of_nat (numChildren (o_node po)) - 1 <=? index then Ret (None, b)
      else '(t, b) ← childAt parent (index + 1) b; Ret (Some t, b)
  end.

Definition prevSibling (q : nat) (b : txb) : outcome bolt_error (option nat * txb) :=
  o ← get q b;
  match o_parent o with
  | None => Ret (None, b)
  | Some parent =>
      po ← get parent b;
      let index := Z.of_nat (childIndex (node_key (o_node o)) (o_node po)) in
      if index =? 0 then Ret (None, b)
      else '(t, b) ← childAt parent (index - 1) b; Ret (Some t, b)
  end.

(** A root with one child takes the child's place: its nodes in memory get a new parent. *)
Fixpoint reparent (l : list inode) (q : nat) (b : txb) : outcome bolt_error txb :=
  match l with
  | [] => Ret b
  | e :: l =>
      b ← match t_nodes b !! in_pgid e with
          | Some ch => update ch (o_setParent (Some q)) b
          | None => Ret b
          end;
      reparent l q b
  end.

Definition collapse (c : config) (q : nat) (b : txb) : outcome bolt_error txb :=
  o ← get q b;
  if negb (isLeaf (o_node o)) && (length (inodes (o_node o)) =? 1)%nat then
    e ← inode_of (o_node o) 0;
    '(child, b) ← bucket_node (in_pgid e) (Some q) b;
    co ← get child b;
    b ← update q (fun o => mkNobj (n_setContent (isLeaf (o_node co)) (inodes (o_node co)) (o_node o))
                             (o_parent o) (o_children co)) b;
    b ← reparent (inodes (o_node co)) q b;
    b ← update child (o_setParent None) b;
    node_free c child (s_nodes (delete (n_pgid (o_node co)) (t_nodes b)) b)
  else Ret b.

(** The nodes in memory of the inodes moved go from their parents to [dst]. *)
Fixpoint move_children (l : list inode) (dst : nat) (b : txb) : outcome bolt_error txb :=
  match l with
  | [] => Ret b
  | e :: l =>
      b ← match t_nodes b !! in_pgid e with
          | None => Ret b
          | Some ch =>
              o ← get ch b;
              match o_parent o with
              | None => Panic
              | Some parent =>
                  b ← removeChild parent ch b;
                  b ← update ch (o_setParent (Some dst)) b;
                  update dst (fun o => o_setChildren (o_children o ++ [ch]) o) b
              end
          end;
      move_children l dst b
  end.

(** [dead] is removed from its parent and the bucket, and freed. *)
Definition remove_node (c : config) (parent dead : nat) (b : txb) : outcome bolt_error txb :=
  o ← get dead b;
  b ← node_del parent (node_key (o_node o)) b;
  b ← removeChild parent dead b;
  node_free c dead (s_nodes (delete (n_pgid (o_node o)) (t_nodes b)) b).

(** The inodes of [src], with their nodes, go to the end of [dst]; [src] is removed. *)
Definition merge_into (c : config) (parent dst src : nat) (b : txb) : outcome bolt_error txb :=
  o ← get src b;
  b ← move_children (inodes (o_node o)) dst b;
  b ← update dst (fun d => o_setNode (set_inodes (inodes (o_node d) ++ inodes (o_node o)) (o_node d)) d) b;
  remove_node c parent src b.

Fixpoint node_rebalance (fuel : nat) (c : config) (q : nat) (b : txb) : outcome bolt_error txb :=
  o ← get q b;
  let n := o_node o in
  if negb (unbalanced n) then Ret b
  else
    let b := set q (o_setNode (n_setUnbalanced false n) o) b in
    let threshold := Z.quot (c_pageSize c) 4 in
    if (threshold <? size n) && (minKeys n <? length (inodes n))%nat then Ret b
    else
      match o_parent o, fuel with
      | None, _ => collapse c q b
      | Some _, O => Fail OutOfFuel
      | Some parent, S fuel =>
          if (numChildren n =? 0)%nat then
            b ← remove_node c parent q b;
            node_rebalance fuel c parent b
          else
            po ← get parent b;
            if (numChildren (o_node po) <=? 1)%nat then Panic
            else
              b ← (if (childIndex (node_key n) (o_node po) =? 0)%nat then
                     '(target, b) ← nextSibling q b;
                     match target with None => Panic | Some target => merge_into c parent q target b end
                   else
                     '(target, b) ← prevSibling q b;
                     match target with None => Panic | Some target => merge_into c parent target q b end);
              node_rebalance fuel c parent b
      end.

(** Bucket.rebalance: [order] are the page ids in the order in which Go ranges over the
    nodes; an entry deleted before its turn is skipped. *)
Fixpoint bucket_rebalance (fuel : nat) (c : config) (order : list Z) (b : txb) : outcome bolt_error txb :=
  match order with
  | [] => Ret b
  | id :: order =>
      b ← match t_nodes b !! id with Some q => node_rebalance fuel c q b | None => Ret b end;
      bucket_rebalance fuel c order b
  end.

(** ** spill *)

(** db.allocate, with a fresh buffer for the page. *)
Definition db_allocate (c : config) (count : Z) (b : txb) : outcome bolt_error (page * txb) :=
  let p id := mkPage id 0 0 (u32 (count - 1))
                (replicate (Z.to_nat (count * c_pageSize c - BoltNode.pageHeaderSize)) 0) in
  '(id, f) ← lift (allocate count (t_free b));
  if negb (id =? 0) then Ret (p id, s_free f b)
  else
    let id := t_hwm b in
    let minsz := i64 (i64 (u64 (u64 (id + count) + 1)) * c_pageSize c) in
    datasz ← (if t_datasz b <=? minsz then
                match db_mmap c minsz with Some sz => Ret sz | None => Fail ErrMmap end
              else Ret (t_datasz b));
    Ret (p id, s_hwm (u64 (id + count)) datasz b).

Definition tx_allocate (c : config) (count : Z) (b : txb) : outcome bolt_error (page * txb) :=
  '(p, b) ← db_allocate c count b;
  Ret (p, s_pages (<[pg_id p := p]> (t_pages b)) b).

(** split, with splitTwo's new nodes and, for a root, its new parent. *)
Fixpoint node_split (fuel : nat) (c : config) (q : nat) (b : txb) : outcome bolt_error (list nat * txb) :=
  o ← get q b;
  match splitTwo (c_pageSize c) (c_fill c) (o_node o) with
  | (_, None) => Ret ([q], b)
  | (n, Some next) =>
      let '(parent, b) :=
        match o_parent o with
        | Some parent => (parent, b)
        | None => let parent := new_ptr b in (parent, set parent (mkNobj node0 None [q]) b)
        end in
      let q' := new_ptr b in
      let b := set q' (mkNobj next (Some parent) []) b in
      b ← update parent (fun o => o_setChildren (o_children o ++ [q']) o) b;
      b ← update q (fun o => mkNobj n (Some parent) (o_children o)) b;
      match fuel with
      | O => Fail OutOfFuel
      | S fuel => '(l, b) ← node_split fuel c q' b; Ret (q :: l, b)
      end
  end.

(** The body of spill's loop over the nodes of a split: the node's page, *)
Definition spill_page (c : config) (q : nat) (b : txb) : outcome bolt_error txb :=
  o ← get q b;
  b ← (if 0 <? n_pgid (o_node o) then
         p ← page_at (n_pgid (o_node o)) b;
         f ← lift (free (c_txid c) (pg_id p) (pg_overflow p) (t_free b));
         Ret (set q (o_setNode (n_setPgid 0 (o_node o)) o) (s_free f b))
       else Ret b);
  '(p, b) ← tx_allocate c (Z.quot (BoltNode.size (o_node o)) (c_pageSize c) + 1) b;
  if t_hwm b <=? pg_id p then Panic
  else
    p ← lift (BoltNode.write (o_node o) p);
    let b := s_pages (<[pg_id p := p]> (t_pages b)) b in
    update q (fun o => o_setNode (n_setSpilled true (n_setPgid (pg_id p) (o_node o))) o) b.

(** and its inode in its parent. *)
Definition spill_enter (q : nat) (b : txb) : outcome bolt_error txb :=
  o ← get q b;
  match o_parent o with
  | None => Ret b
  | Some parent =>
      first ← inode_of (o_node o) 0;
      b ← node_put parent (default (in_key first) (n_key (o_node o))) (in_key first) [] (n_pgid (o_node o)) 0 b;
      b ← update q (fun o => o_setNode (n_setKey (in_key first) (o_node o)) o) b;
      if (length (in_key first) =? 0)%nat then Panic else Ret b
  end.

Definition spill_one (c : config) (q : nat) (b : txb) : outcome bolt_error txb :=
  b ← spill_page c q b; spill_enter q b.

Fixpoint spill_all (c : config) (l : list nat) (b : txb) : outcome bolt_error txb :=
  match l with [] => Ret b | q :: l => b ← spill_one c q b; spill_all c l b end.

(** sort.Sort by the first key: Less reads it as soon as there are two nodes. *)
Definition first_key (b : txb) (q : nat) : option (list Z) :=
  o ← t_heap b !! q; i ← head (inodes (o_node o)); Some (in_key i).

Definition key_le_at (b : txb) (x y : nat) : Prop :=
  key_le (default [] (first_key b x)) (default [] (first_key b y)).

#[export] Instance key_le_at_dec b x y : Decision (key_le_at b x y).
Proof. unfold key_le_at, key_le. apply _. Defined.

Definition sort_children (q : nat) (b : txb) : outcome bolt_error txb :=
  o ← get q b;
  if (2 <=? length (o_children o))%nat && existsb (fun x => bool_decide (first_key b x = None)) (o_children o)
  then Panic
  else Ret (set q (o_setChildren (merge_sort (key_le_at b) (o_children o)) o) b).

(** The loop of spill over the children, whose list [rec] may extend; [n] bounds its length. *)
Fixpoint spill_children (rec : nat -> txb -> outcome bolt_error txb) (q n i : nat) (b : txb) : outcome bolt_error txb :=
  o ← get q b;
  match o_children o !! i, n with
  | None, _ => Ret b
  | Some _, O => Fail OutOfFuel
  | Some ch, S n => b ← rec ch b; spill_children rec q n (S i) b
  end.

(** node.spill; [w] bounds the number of children in memory. *)
Fixpoint node_spill (w fuel : nat) (c : config) (q : nat) (b : txb) : outcome bolt_error txb :=
  o ← get q b;
  if spilled (o_node o) then Ret b
  else
    match fuel with
    | O => Fail OutOfFuel
    | S fuel =>
        b ← sort_children q b;
        b ← spill_children (node_spill w fuel c) q w 0 b;
        b ← update q (o_setChildren []) b;
        o ← get q b;
        '(l, b) ← node_split (length (inodes (o_node o))) c q b;
        b ← spill_all c l b;
        o ← get q b;
        match o_parent o with
        | None => Ret b
        | Some parent =>
            po ← get parent b;
            if n_pgid (o_node po) =? 0 then
              b ← update q (o_setChildren []) b;
              node_spill w fuel c parent b
            else Ret b
        end
    end.

(** node.root. *)
Fixpoint node_root (fuel : nat) (q : nat) (b : txb) : outcome bolt_error nat :=
  o ← get q b;
  match o_parent o, fuel with
  | None, _ => Ret q
  | Some _, O => Fail OutOfFuel
  | Some parent, S fuel => node_root fuel parent b
  end.

(** Bucket.spill after the loop over its open subbuckets. *)
Definition bucket_spill (w fuel : nat) (c : config) (b : txb) : outcome bolt_error txb :=
  match t_rootNode b with
  | None => Ret b
  | Some r =>
      b ← node_spill w fuel c r b;
      r ← node_root fuel r b;
      o ← get r b;
      if t_hwm b <=? n_pgid (o_node o) then Panic
      else Ret (s_root (n_pgid (o_node o)) (Some r) b)
  end.

(** What Tx.Commit does to the bucket. *)
Definition bucket_commit (w fuel : nat) (c : config) (order : list Z) (b : txb) : outcome bolt_error txb :=
  b ← bucket_rebalance fuel c order b;
  bucket_spill w fuel c b.
