(* ===== verification/BoltLevels.v ===== *)
(** The tree of a bolt bucket as a list of levels, leaves first. A level is the list of its
    nodes, page id and inodes, from left to right; the inodes of a level's nodes, taken
    together, point at the nodes of the level below ([above]). Merging, splitting and
    removing nodes are local changes of two adjacent levels. *)

From Stdlib Require Import ZArith Lia.
From stdpp Require Import base numbers option list sorting sets.
From S2P Require Import Prelude GoSort GoBytes BoltNode.
#[local] Open Scope Z_scope.

Abbreviation level := (list (Z * list inode)).

(** The inodes of a level. *)
Definition items (l : level) : list inode := concat l.*2.

(** [key] belongs below inode [i] of [es]; nothing is below the range of the first. *)
Definition in_range (es : list inode) (i : nat) (key : list Z) : Prop :=
  (forall e, (0 < i)%nat -> es !! i = Some e -> ~ key_lt key (in_key e)) /\
  (forall e, es !! S i = Some e -> key_lt key (in_key e)).

(** The items of the leaves, in order. *)
Definition cont (lv : list level) : list inode := match lv with l :: _ => items l | [] => [] end.

Definition bounded (es : list inode) (l : level) : Prop :=
  forall i n k, l !! i = Some n -> k ∈ in_key <$> n.2 -> in_range es i k.

(** The level [lo] is the one below [up]. *)
Definition above (up lo : level) : Prop :=
  in_pgid <$> items up = lo.*1 /\ bounded (items up) lo.

Record lv_ok (lv : list level) : Prop := {
  lo_top : exists r es, last lv = Some [(r, es)];
  lo_above : forall d up lo, lv !! d = Some lo -> lv !! S d = Some up -> above up lo;
  lo_sorted : forall d l, lv !! d = Some l -> keys_sorted (in_key <$> items l);
  lo_ids : NoDup (concat lv).*1
}.

(** ** Positions *)

Lemma items_app l1 l2 : items (l1 ++ l2) = items l1 ++ items l2.
Proof. unfold items. by rewrite fmap_app, concat_app. Qed.

Lemma items_cons n l : items (n :: l) = n.2 ++ items l.
Proof. reflexivity. Qed.

Lemma items_middle l1 n l2 : items (l1 ++ n :: l2) = items l1 ++ n.2 ++ items l2.
Proof. by rewrite items_app, items_cons. Qed.

Lemma split_at {A} (l : list A) i x : l !! i = Some x ->
  exists l1 l2, l = l1 ++ x :: l2 /\ length l1 = i.
Proof.
  intros H. exists (take i l), (drop (S i) l). split; [by rewrite take_drop_middle|].
  rewrite length_take. apply lookup_lt_Some in H. lia.
Qed.

(** An inode of a level is one of a node. *)
Lemma items_find l : forall k e, items l !! k = Some e ->
  exists l1 n l2 a b, l = l1 ++ n :: l2 /\ n.2 = a ++ e :: b /\ (k = length (items l1) + length a)%nat.
Proof.
  induction l as [|n l IH]; intros k e H; [done|]. rewrite items_cons in H.
  apply lookup_app_Some in H as [H|[Hk H]].
  - destruct (split_at _ _ _ H) as (a & b & E & <-). exists [], n, l, a, b. done.
  - destruct (IH _ _ H) as (l1 & m & l2 & a & b & -> & E & Hl).
    exists (n :: l1), m, l2, a, b. split; [done|]. split; [done|]. rewrite items_cons, length_app. lia.
Qed.

Lemma elem_of_items x l : x ∈ items l <-> exists n, n ∈ l /\ x ∈ n.2.
Proof.
  unfold items. rewrite list_elem_of_In, in_concat. setoid_rewrite <- list_elem_of_In. split.
  - intros (es & Hes & Hx). apply list_elem_of_fmap in Hes as (n & -> & Hn). by exists n.
  - intros (n & Hn & Hx). exists n.2. split; [by apply list_elem_of_fmap_2|done].
Qed.

Lemma concat_lookup_inj (lv : list level) d1 d2 l1 l2 n1 n2 : NoDup (concat lv).*1 ->
  lv !! d1 = Some l1 -> lv !! d2 = Some l2 -> n1 ∈ l1 -> n2 ∈ l2 -> n1.1 = n2.1 -> d1 = d2 /\ n1 = n2.
Proof.
  revert d1 d2. induction lv as [|l lv IH]; intros d1 d2 Hnd H1 H2 Hn1 Hn2 E; [done|].
  cbn [concat] in Hnd. rewrite fmap_app in Hnd. apply NoDup_app in Hnd as (Ha & Hab & Hb).
  assert (Hin : forall d m x, lv !! d = Some m -> x ∈ m -> x.1 ∈ (concat lv).*1).
  { intros d m x Hm Hx. apply list_elem_of_fmap_2. apply list_elem_of_In, in_concat.
    exists m. split; apply list_elem_of_In; [by eapply list_elem_of_lookup_2|done]. }
  destruct d1 as [|d1], d2 as [|d2]; cbn in H1, H2.
  - injection H1 as <-. injection H2 as <-. split; [done|].
    apply list_elem_of_lookup in Hn1 as [i Hi]. apply list_elem_of_lookup in Hn2 as [j Hj].
    assert (i = j) as <-.
    { eapply NoDup_lookup; [exact Ha| |]; rewrite list_lookup_fmap.
      - rewrite Hi. reflexivity.
      - rewrite Hj. cbn. by rewrite E. }
    congruence.
  - injection H1 as <-. destruct (Hab n1.1); [by apply list_elem_of_fmap_2|]. rewrite E. by eapply Hin.
  - injection H2 as <-. destruct (Hab n2.1); [by apply list_elem_of_fmap_2|]. rewrite <- E. by eapply Hin.
  - destruct (IH d1 d2 Hb H1 H2 Hn1 Hn2 E) as [-> ->]. done.
Qed.

(** [id] is a node of level [d] with the inodes [es]. *)
Definition entry (lv : list level) (d : nat) (id : Z) (es : list inode) : Prop :=
  exists l, lv !! d = Some l /\ (id, es) ∈ l.

Lemma entry_inj lv d1 d2 id es1 es2 : lv_ok lv -> entry lv d1 id es1 -> entry lv d2 id es2 -> d1 = d2 /\ es1 = es2.
Proof.
  intros Hlv (l1 & H1 & Hn1) (l2 & H2 & Hn2).
  destruct (concat_lookup_inj lv d1 d2 l1 l2 _ _ (lo_ids _ Hlv) H1 H2 Hn1 Hn2 eq_refl) as [-> E].
  by injection E as ->.
Qed.

Lemma lv_height lv : lv_ok lv -> (0 < length lv)%nat.
Proof. intros [(r & es & H) _ _ _]. destruct lv; [done|cbn; lia]. Qed.

(** The root: the one node of the top level. *)
Lemma top_entry lv d l id es : lv_ok lv -> lv !! d = Some l -> S d = length lv -> (id, es) ∈ l -> l = [(id, es)].
Proof.
  intros [(r & es' & H) _ _ _] Hl Hd Hin. rewrite last_lookup in H.
  replace (Init.Nat.pred (length lv)) with d in H by lia. rewrite Hl in H. injection H as ->.
  by apply list_elem_of_singleton in Hin as ->.
Qed.

Definition is_root (lv : list level) (id : Z) : Prop := exists es, last lv = Some [(id, es)].

Lemma root_entry lv id : is_root lv id -> exists es, entry lv (length lv - 1) id es.
Proof.
  intros [es H]. exists es, [(id, es)]. rewrite last_lookup in H.
  replace (Init.Nat.pred (length lv)) with (length lv - 1)%nat in H by lia. split; [done|by left].
Qed.

Lemma is_root_unique lv a b : is_root lv a -> is_root lv b -> a = b.
Proof. intros [x Hx] [y Hy]. rewrite Hx in Hy. by injection Hy as ->. Qed.

(** The inode that points at a node, with its place: [lo]'s nodes before it are as many as
    the inodes before it. *)
Lemma above_split up lo l1 n l2 : above up lo -> lo = l1 ++ n :: l2 ->
  exists u1 P u2 a e b, up = u1 ++ P :: u2 /\ P.2 = a ++ e :: b /\ in_pgid e = n.1 /\
    (length l1 = length (items u1) + length a)%nat.
Proof.
  intros [Hf _] ->. assert (H : (in_pgid <$> items up) !! length l1 = Some n.1).
  { rewrite Hf, fmap_app, lookup_app_r by (by rewrite length_fmap). rewrite length_fmap, Nat.sub_diag. done. }
  rewrite list_lookup_fmap in H. destruct (items up !! length l1) as [e|] eqn:E; [|done]. injection H as H.
  destruct (items_find _ _ _ E) as (u1 & P & u2 & a & b & -> & EP & Hl). by exists u1, P, u2, a, e, b.
Qed.

Lemma above_length up lo : above up lo -> length (items up) = length lo.
Proof. intros [H _]. by rewrite <- (length_fmap in_pgid), H, length_fmap. Qed.

(** Conversely, the node that an inode points at. *)
Lemma above_child up lo u1 P u2 a e b : above up lo -> up = u1 ++ P :: u2 -> P.2 = a ++ e :: b ->
  exists l1 es l2, lo = l1 ++ (in_pgid e, es) :: l2 /\ (length l1 = length (items u1) + length a)%nat.
Proof.
  intros [Hf _] -> EP. set (k := (length (items u1) + length a)%nat).
  assert (He : items (u1 ++ P :: u2) !! k = Some e).
  { rewrite items_middle, EP, lookup_app_r by (unfold k; lia).
    replace (k - length (items u1))%nat with (length a) by (unfold k; lia).
    rewrite <- app_assoc. by apply list_lookup_middle. }
  assert (H : lo.*1 !! k = Some (in_pgid e)) by (rewrite <- Hf, list_lookup_fmap, He; done).
  rewrite list_lookup_fmap in H. destruct (lo !! k) as [[id es]|] eqn:E; [|done]. injection H as ->.
  destruct (split_at _ _ _ E) as (l1 & l2 & -> & Hl). by exists l1, es, l2.
Qed.

(** ** The parent of a node *)

(** [P], at level [S d], has the inode [e] for the node [id]. *)
Definition child_of (lv : list level) (d : nat) (P : Z) (ps : list inode) (e : inode) (id : Z) : Prop :=
  entry lv (S d) P ps /\ e ∈ ps /\ in_pgid e = id.

Lemma has_parent lv d id es : lv_ok lv -> entry lv d id es -> (S d < length lv)%nat ->
  exists P ps e, child_of lv d P ps e id.
Proof.
  intros Hlv (l & Hl & Hin) Hd. destruct (lookup_lt_is_Some_2 lv (S d) Hd) as [up Hup].
  apply list_elem_of_lookup in Hin as [i Hi]. destruct (split_at _ _ _ Hi) as (l1 & l2 & El & _).
  destruct (above_split up l l1 _ l2 (lo_above _ Hlv _ _ _ Hl Hup) El) as (u1 & P & u2 & a & e & b & -> & EP & Ee & _).
  exists P.1, P.2, e. split; [|split; [rewrite EP; set_solver|done]].
  exists (u1 ++ P :: u2). split; [done|]. rewrite <- surjective_pairing. set_solver.
Qed.

Lemma has_child lv d P ps e : lv_ok lv -> entry lv (S d) P ps -> e ∈ ps -> exists es, entry lv d (in_pgid e) es.
Proof.
  intros Hlv (up & Hup & Hin) He.
  destruct (lookup_lt_is_Some_2 lv d) as [lo Hlo]; [apply lookup_lt_Some in Hup; lia|].
  apply list_elem_of_lookup in Hin as [i Hi]. destruct (split_at _ _ _ Hi) as (u1 & u2 & Eu & _).
  apply list_elem_of_lookup in He as [j Hj]. destruct (split_at _ _ _ Hj) as (a & b & Ea & _).
  destruct (above_child up lo u1 _ u2 a e b (lo_above _ Hlv _ _ _ Hlo Hup) Eu Ea) as (l1 & es & l2 & -> & _).
  exists es, (l1 ++ (in_pgid e, es) :: l2). split; [done|set_solver].
Qed.

Lemma NoDup_level lv d l : lv_ok lv -> lv !! d = Some l -> NoDup l.*1.
Proof.
  intros Hlv Hl. destruct (split_at _ _ _ Hl) as (l1 & l2 & E & _). pose proof (lo_ids _ Hlv) as H.
  rewrite E, concat_app, fmap_app in H. cbn [concat] in H. rewrite fmap_app in H.
  apply NoDup_app in H as (_ & _ & H). by apply NoDup_app in H as (H & _ & _).
Qed.

(** The parent and its inode are unique. *)
Lemma parent_unique lv d d' P ps e P' ps' e' id : lv_ok lv ->
  child_of lv d P ps e id -> child_of lv d' P' ps' e' id -> d = d' /\ P = P' /\ ps = ps' /\ e = e'.
Proof.
  intros Hlv (HP & He & Hid) (HP' & He' & Hid').
  destruct (has_child _ _ _ _ _ Hlv HP He) as [es Hes]. destruct (has_child _ _ _ _ _ Hlv HP' He') as [es' Hes'].
  rewrite Hid in Hes. rewrite Hid' in Hes'. destruct (entry_inj _ _ _ _ _ _ Hlv Hes Hes') as [<- <-].
  split; [done|]. destruct HP as (up & Hup & HinP). destruct HP' as (up' & Hup' & HinP').
  rewrite Hup in Hup'. injection Hup' as <-. destruct Hes as (lo & Hlo & _).
  destruct (lo_above _ Hlv _ _ _ Hlo Hup) as [Hf _]. pose proof (NoDup_level _ _ _ Hlv Hlo) as Hnd.
  rewrite <- Hf in Hnd.
  apply list_elem_of_lookup in HinP as [i Hi]. apply list_elem_of_lookup in HinP' as [i' Hi'].
  destruct (split_at _ _ _ Hi) as (u1 & u2 & Eu & Hu). destruct (split_at _ _ _ Hi') as (u1' & u2' & Eu' & Hu').
  apply list_elem_of_lookup in He as [j Hj]. apply list_elem_of_lookup in He' as [j' Hj'].
  destruct (split_at _ _ _ Hj) as (a & b & Ea & Ha). destruct (split_at _ _ _ Hj') as (a' & b' & Ea' & Ha').
  assert (E : items u1 ++ a ++ e :: b ++ items u2 = items u1' ++ a' ++ e' :: b' ++ items u2').
  { transitivity (items up); [rewrite Eu|rewrite Eu']; rewrite items_middle; cbn [snd];
      [rewrite Ea|rewrite Ea']; by rewrite <- ?app_assoc. }
  assert (E1 : items up = (items u1 ++ a) ++ e :: b ++ items u2)
    by (rewrite Eu, items_middle; cbn [snd]; rewrite Ea, <- !app_assoc; done).
  assert (E2 : items up = (items u1' ++ a') ++ e' :: b' ++ items u2')
    by (rewrite Eu', items_middle; cbn [snd]; rewrite Ea', <- !app_assoc; done).
  assert (El : length (items u1 ++ a) = length (items u1' ++ a')).
  { eapply NoDup_lookup; [exact Hnd|rewrite E1|rewrite E2]; rewrite fmap_app, fmap_cons;
      (rewrite lookup_app_r by (by rewrite length_fmap)); rewrite length_fmap, Nat.sub_diag; cbn; rewrite ?Hid, ?Hid'; reflexivity. }
  assert (Hee : e = e').
  { rewrite E1 in E2. apply app_inj_1 in E2 as [_ E2]; [|done]. by injection E2. }
  subst e'. assert (Hii : i = i').
  { assert (Hx : forall k u v (p : Z * list inode) x y, up = u ++ p :: v -> length u = k -> p.2 = x ++ e :: y ->
      (length (items (take k up)) <= length (items u ++ x))%nat /\
      (length (items u ++ x) < length (items (take (S k) up)))%nat).
    { intros k u v p x y -> <- Ep. rewrite take_app_length, length_app. split; [lia|].
      replace (u ++ p :: v) with ((u ++ [p]) ++ v) by (by rewrite <- app_assoc).
      rewrite take_app_le, take_ge by (rewrite length_app; cbn; lia).
      rewrite items_middle, Ep, !length_app. cbn. lia. }
    destruct (Hx i u1 u2 _ a b Eu Hu Ea) as [X1 X2]. destruct (Hx i' u1' u2' _ a' b' Eu' Hu' Ea') as [X1' X2'].
    assert (Hmono : forall x y, (x <= y)%nat -> (length (items (take x up)) <= length (items (take y up)))%nat).
    { intros x y Hxy. rewrite <- (take_drop x (take y up)), take_take, Nat.min_l, items_app, length_app by lia. lia. }
    destruct (Nat.lt_trichotomy i i') as [Hlt|[?|Hlt]]; [|done|].
    - pose proof (Hmono (S i) i' ltac:(lia)). lia.
    - pose proof (Hmono (S i') i ltac:(lia)). lia. }
  rewrite Hii, Hi' in Hi. by injection Hi as -> ->.
Qed.

Lemma NoDup_pgids lv d P ps : lv_ok lv -> entry lv (S d) P ps -> NoDup (in_pgid <$> ps).
Proof.
  intros Hlv (up & Hup & Hin). destruct (lookup_lt_is_Some_2 lv d) as [lo Hlo]; [apply lookup_lt_Some in Hup; lia|].
  destruct (lo_above _ Hlv _ _ _ Hlo Hup) as [Hf _]. pose proof (NoDup_level _ _ _ Hlv Hlo) as Hnd. rewrite <- Hf in Hnd.
  apply list_elem_of_lookup in Hin as [i Hi]. destruct (split_at _ _ _ Hi) as (u1 & u2 & -> & _).
  rewrite items_middle, !fmap_app in Hnd. apply NoDup_app in Hnd as (_ & _ & H). by apply NoDup_app in H as (H & _ & _).
Qed.

Lemma entry_sorted lv d id es : lv_ok lv -> entry lv d id es -> keys_sorted (in_key <$> es).
Proof.
  intros Hlv (l & Hl & Hin). pose proof (lo_sorted _ Hlv _ _ Hl) as Hs.
  apply list_elem_of_lookup in Hin as [i Hi]. destruct (split_at _ _ _ Hi) as (u1 & u2 & -> & _).
  rewrite items_middle, !fmap_app in Hs. unfold keys_sorted in *.
  apply StronglySorted_app_1_r in Hs. by apply StronglySorted_app_1_l in Hs.
Qed.

(** ** Ranges *)

Lemma in_range_nil i key : in_range [] i key.
Proof. split; intros; done. Qed.

(** Descending: [c] is the place of [key] among the inodes of a node whose range it is in.
    [es0] are the inodes of the level above, none for the root. *)
Lemma in_range_child es0 up u1 P u2 c key : up = u1 ++ P :: u2 -> bounded es0 up ->
  length es0 = length up \/ (u1 = [] /\ u2 = []) ->
  in_range es0 (length u1) key ->
  (forall e, (0 < length u1)%nat -> es0 !! length u1 = Some e -> in_key <$> head P.2 = Some (in_key e)) ->
  (forall n, n ∈ up -> n.2 <> []) -> (c < length P.2)%nat ->
  ((0 < c)%nat -> forall k, (in_key <$> P.2) !! c = Some k -> ~ key_lt key k) ->
  (forall j k, (c < j)%nat -> (in_key <$> P.2) !! j = Some k -> key_lt key k) ->
  in_range (items up) (length (items u1) + c) key.
Proof.
  intros -> Hb Hlen [Hlo Hhi] Hhead Hne Hc Hge Hlt. rewrite length_app in Hlen; cbn [length] in Hlen.
  rewrite items_middle. split.
  - intros e Hpos He. rewrite lookup_app_r in He by lia.
    replace (length (items u1) + c - length (items u1))%nat with c in He by lia.
    rewrite lookup_app_l in He by lia. destruct c as [|c].
    + destruct u1 as [|n1 u1]; [cbn in Hpos; lia|]. destruct Hlen as [Hlen|[? _]]; [|done].
      destruct (lookup_lt_is_Some_2 es0 (length (n1 :: u1))) as [e0 He0]; [lia|].
      specialize (Hhead e0 ltac:(cbn; lia) He0). destruct P.2 as [|h t]; [done|]. cbn in He, Hhead.
      injection He as <-. injection Hhead as ->. apply Hlo; [cbn; lia|done].
    + apply Hge; [lia|]. by rewrite list_lookup_fmap, He.
  - intros e He. rewrite lookup_app_r in He by lia.
    replace (S (length (items u1) + c) - length (items u1))%nat with (S c) in He by lia.
    apply lookup_app_Some in He as [He|[Hl He]].
    + apply (Hlt (S c)); [lia|]. by rewrite list_lookup_fmap, He.
    + replace (S c - length P.2)%nat with 0%nat in He by lia. destruct u2 as [|n2 u2]; [done|].
      assert (Hn2 : (u1 ++ P :: n2 :: u2) !! S (length u1) = Some n2).
      { rewrite lookup_app_r by lia. by replace (S (length u1) - length u1)%nat with 1%nat by lia. }
      destruct Hlen as [Hlen|[_ ?]]; [|done]. cbn in Hlen.
      destruct (lookup_lt_is_Some_2 es0 (S (length u1))) as [e0 He0]; [lia|].
      assert (Hin : e ∈ n2.2).
      { rewrite items_cons in He. specialize (Hne n2 ltac:(by eapply list_elem_of_lookup_2)).
        destruct n2.2 as [|h t]; [done|]. cbn in He. injection He as ->. by left. }
      apply (key_lt_le_trans _ (in_key e0)); [by apply Hhi|].
      destruct (Hb _ _ (in_key e) Hn2) as [Hx _]; [by apply list_elem_of_fmap_2|]. apply Hx; [lia|done].
Qed.

(** The keys of the nodes beside the one whose range [key] is in. *)
Lemma range_items es lo l1 n l2 key : lo = l1 ++ n :: l2 -> bounded es lo -> keys_sorted (in_key <$> es) ->
  length es = length lo -> in_range es (length l1) key ->
  (forall x, x ∈ items l1 -> key_lt (in_key x) key) /\ (forall x, x ∈ items l2 -> key_lt key (in_key x)).
Proof.
  intros -> Hb Hs Hlen [Hlo Hhi]. rewrite length_app in Hlen; cbn [length] in Hlen.
  assert (Hkey : forall i j ei ej, (i <= j)%nat -> es !! i = Some ei -> es !! j = Some ej -> ~ key_lt (in_key ej) (in_key ei)).
  { intros i j ei ej Hij Hi Hj Hl. destruct (decide (i = j)) as [->|Hne].
    - rewrite Hi in Hj. injection Hj as ->. by apply key_lt_irrefl in Hl.
    - apply (key_lt_irrefl (in_key ei)). apply (key_lt_trans _ (in_key ej)); [|done].
      apply (keys_sorted_lookup _ i j _ _ Hs); [lia|by rewrite list_lookup_fmap, Hi|by rewrite list_lookup_fmap, Hj]. }
  split; intros x Hx; apply elem_of_items in Hx as (m & Hm & Hx); apply list_elem_of_lookup in Hm as [j Hj];
    pose proof (lookup_lt_Some _ _ _ Hj).
  - assert (Hm : (l1 ++ n :: l2) !! j = Some m) by (by rewrite lookup_app_l).
    destruct (Hb _ _ (in_key x) Hm) as [_ Hu]; [by apply list_elem_of_fmap_2|].
    destruct (lookup_lt_is_Some_2 es (S j)) as [e He]; [lia|]. destruct (lookup_lt_is_Some_2 es (length l1)) as [e' He']; [lia|].
    apply (key_lt_le_trans _ (in_key e)); [by apply Hu|].
    intros Hk. apply (Hlo e'); [lia|done|]. apply (key_lt_le_trans _ (in_key e)); [done|].
    apply (Hkey (S j) (length l1)); [lia|done|done].
  - assert (Hm : (l1 ++ n :: l2) !! (S (length l1) + j)%nat = Some m).
    { rewrite lookup_app_r by lia. replace (S (length l1) + j - length l1)%nat with (S j) by lia. done. }
    destruct (Hb _ _ (in_key x) Hm) as [Hl _]; [by apply list_elem_of_fmap_2|].
    destruct (lookup_lt_is_Some_2 es (S (length l1))) as [e He]; [lia|].
    destruct (lookup_lt_is_Some_2 es (S (length l1) + j)) as [e' He']; [lia|].
    apply (key_lt_le_trans _ (in_key e')); [|apply Hl; [lia|done]].
    apply (key_lt_le_trans _ (in_key e)); [by apply Hhi|]. apply (Hkey (S (length l1)) (S (length l1) + j)%nat); [lia|done|done].
Qed.

(** The inodes of the level above level [d]. *)
Definition ups (lv : list level) (d : nat) : list inode :=
  match lv !! S d with Some up => items up | None => [] end.

(** Branches start with the keys that their parents have for them. *)
Definition exact_keys (lv : list level) : Prop :=
  forall d lo i n e, lv !! S d = Some lo -> lo !! i = Some n -> ups lv (S d) !! i = Some e ->
    in_key <$> head n.2 = Some (in_key e).

(** ** Removing a node *)

Lemma elem_of_level_ids lv x : x ∈ (concat lv).*1 <-> exists k xs, entry lv k x xs.
Proof.
  rewrite list_elem_of_fmap. split.
  - intros ([x' xs] & -> & Hx). apply list_elem_of_In, in_concat in Hx as (l & Hk & Hx).
    apply list_elem_of_In, list_elem_of_lookup in Hk as [k Hk]. exists k, xs, l. by rewrite list_elem_of_In.
  - intros (k & xs & l & Hk & Hin). exists (x, xs). split; [done|].
    apply list_elem_of_In, in_concat. exists l. split; apply list_elem_of_In; [by eapply list_elem_of_lookup_2|done].
Qed.

Lemma sorted_middle (l1 : list (list Z)) x l2 : keys_sorted (l1 ++ x :: l2) ->
  (forall y, y ∈ l1 -> key_lt y x) /\ (forall y, y ∈ l2 -> key_lt x y).
Proof.
  unfold keys_sorted. intros H. apply StronglySorted_app in H as (H1 & _ & H2). split.
  - intros y Hy. apply H1; [done|by left].
  - apply StronglySorted_inv in H2 as [_ H2]. by rewrite Forall_forall in H2.
Qed.

(** [l1'] are the nodes [l1], where the last may have taken in the inodes [ys]. *)
Definition absorbs (l1 l1' : level) (ys : list inode) : Prop :=
  l1'.*1 = l1.*1 /\ items l1' = items l1 ++ ys /\
  forall i n', l1' !! i = Some n' -> exists n, l1 !! i = Some n /\
    forall k, k ∈ in_key <$> n'.2 -> k ∈ in_key <$> n.2 \/ (S i = length l1 /\ k ∈ in_key <$> ys).

Lemma absorbs_none l1 : absorbs l1 l1 [].
Proof. split; [done|]. split; [by rewrite app_nil_r|]. intros i n Hn. exists n. auto. Qed.

Lemma absorbs_last l x xs ys : absorbs (l ++ [(x, xs)]) (l ++ [(x, xs ++ ys)]) ys.
Proof.
  split; [by rewrite !fmap_app|]. split.
  - rewrite !items_app. unfold items at 2 4. cbn. by rewrite !app_nil_r, !app_assoc.
  - intros i n' Hn. rewrite length_app. apply lookup_app_Some in Hn as [Hn|[Hl Hn]].
    + exists n'. split; [by apply lookup_app_l_Some|auto].
    + destruct (i - length l)%nat as [|k] eqn:Ek; [|done]. injection Hn as <-. exists (x, xs). split.
      * rewrite lookup_app_r, Ek by done. done.
      * intros k Hk. cbn in Hk. rewrite fmap_app in Hk. apply elem_of_app in Hk as [Hk|Hk]; [by left|right].
        split; [cbn; lia|done].
Qed.

Lemma bounded_drop E1 e E2 l1 l1' y ys l2 : bounded (E1 ++ e :: E2) (l1 ++ (y, ys) :: l2) ->
  length E1 = length l1 -> keys_sorted (in_key <$> E1 ++ e :: E2) -> absorbs l1 l1' ys ->
  bounded (E1 ++ E2) (l1' ++ l2).
Proof.
  intros Hb Hl Hs (Hids & _ & Habs). rewrite fmap_app, fmap_cons in Hs. destruct (sorted_middle _ _ _ Hs) as [HE1 HE2].
  assert (Hl1 : length l1' = length l1) by (by rewrite <- (length_fmap fst), Hids, length_fmap).
  assert (Hnext : forall k x, key_lt k (in_key e) -> E2 !! 0%nat = Some x -> key_lt k (in_key x)).
  { intros k x Hk Hx. apply (key_lt_trans _ (in_key e)); [done|]. apply HE2.
    apply list_elem_of_fmap_2. by eapply list_elem_of_lookup_2. }
  intros i n k Hi Hk. apply lookup_app_Some in Hi as [Hi|[Hi1 Hi]].
  - destruct (Habs i n Hi) as (m & Hm & Hkey). pose proof (lookup_lt_Some _ _ _ Hm) as Hilt.
    destruct (Hkey k Hk) as [Hk'|[Ei Hk']].
    + destruct (Hb i m k) as [Hlo Hhi]; [by rewrite lookup_app_l|done|]. split.
      * intros x Hpos Hx. apply Hlo; [done|]. rewrite lookup_app_l in Hx |- * by lia. done.
      * intros x Hx. destruct (decide (S i < length E1)%nat).
        -- apply Hhi. rewrite lookup_app_l in Hx |- * by lia. done.
        -- apply Hnext; [apply Hhi|].
           ++ rewrite lookup_app_r by lia. by replace (S i - length E1)%nat with 0%nat by lia.
           ++ rewrite lookup_app_r in Hx by lia. by replace (S i - length E1)%nat with 0%nat in Hx by lia.
    + destruct (Hb (length l1) (y, ys) k) as [Hlo Hhi]; [by apply list_lookup_middle|done|]. split.
      * intros x Hpos Hx Hlt. rewrite lookup_app_l in Hx by lia.
        apply (Hlo e); [lia|rewrite <- Hl; by apply list_lookup_middle|]. apply (key_lt_trans _ (in_key x)); [done|].
        apply HE1, list_elem_of_fmap_2. by eapply list_elem_of_lookup_2.
      * intros x Hx. apply Hhi. rewrite lookup_app_r in Hx by lia. rewrite lookup_app_r by lia.
        replace (S i - length E1)%nat with 0%nat in Hx by lia. by replace (S (length l1) - length E1)%nat with 1%nat by lia.
  - destruct (Hb (S i) n k) as [Hlo Hhi].
    { rewrite lookup_app_r by lia. by replace (S i - length l1)%nat with (S (i - length l1')) by lia. }
    { done. } split.
    + intros x Hpos Hx. apply Hlo; [lia|]. rewrite lookup_app_r in Hx |- * by lia.
      by replace (S i - length E1)%nat with (S (i - length E1)) by lia.
    + intros x Hx. apply Hhi. rewrite lookup_app_r in Hx |- * by lia.
      by replace (S (S i) - length E1)%nat with (S (S i - length E1)) by lia.
Qed.

(** [y], below inode [e] of [P], goes; its inodes are in [l1']. *)
Section drop.
Context (lv : list level) (d : nat) (l1 l1' l2 u1 u2 : level) (y P : Z) (ys a t : list inode) (e : inode).
Context (Hlv : lv_ok lv).
Context (Hl : lv !! d = Some (l1 ++ (y, ys) :: l2)).
Context (Hu : lv !! S d = Some (u1 ++ (P, a ++ e :: t) :: u2)).
Context (Hlen : (length l1 = length (items u1) + length a)%nat).
Context (Habs : absorbs l1 l1' ys).

Definition drop_node : list level := <[d := l1' ++ l2]> (<[S d := u1 ++ (P, a ++ t) :: u2]> lv).

Lemma drop_d : drop_node !! d = Some (l1' ++ l2).
Proof. unfold drop_node. apply list_lookup_insert_eq. rewrite length_insert. by apply lookup_lt_Some in Hl. Qed.

Lemma drop_S : drop_node !! S d = Some (u1 ++ (P, a ++ t) :: u2).
Proof.
  unfold drop_node. rewrite list_lookup_insert_ne by lia. apply list_lookup_insert_eq. by apply lookup_lt_Some in Hu.
Qed.

Lemma drop_other_level k : k <> d -> k <> S d -> drop_node !! k = lv !! k.
Proof. intros H1 H2. unfold drop_node. by rewrite !list_lookup_insert_ne. Qed.

Lemma drop_length : length drop_node = length lv.
Proof. unfold drop_node. by rewrite !length_insert. Qed.

Lemma drop_above : above (u1 ++ (P, a ++ e :: t) :: u2) (l1 ++ (y, ys) :: l2).
Proof. by apply (lo_above _ Hlv d). Qed.

Lemma drop_pgid : in_pgid e = y.
Proof.
  destruct drop_above as [Hf _]. rewrite items_middle, !fmap_app, fmap_cons in Hf. cbn [snd fst] in Hf.
  rewrite fmap_app, fmap_cons, <- app_assoc, app_assoc in Hf. cbn [app] in Hf.
  apply app_inj_1 in Hf as [_ Hf]; [by injection Hf|]. rewrite length_app, !length_fmap. lia.
Qed.

Lemma drop_items : items (l1' ++ l2) = items (l1 ++ (y, ys) :: l2).
Proof. destruct Habs as (_ & E & _). by rewrite items_app, items_middle, E, <- app_assoc. Qed.

Lemma drop_keys x : x ∈ items (u1 ++ (P, a ++ t) :: u2) -> x ∈ items (u1 ++ (P, a ++ e :: t) :: u2).
Proof. rewrite !items_middle. cbn [snd]. set_solver. Qed.

Lemma drop_above' : above (u1 ++ (P, a ++ t) :: u2) (l1' ++ l2).
Proof.
  destruct drop_above as [Hf Hb]. pose proof (lo_sorted _ Hlv _ _ Hu) as Hs. destruct Habs as (Hids & _ & _).
  rewrite items_middle in Hf, Hb, Hs. cbn [snd] in Hf, Hb, Hs. split.
  - rewrite items_middle. cbn [snd]. rewrite <- app_assoc, app_assoc in Hf |- *. cbn [app] in Hf.
    rewrite (fmap_app _ (items u1 ++ a)) in Hf |- *. rewrite fmap_cons in Hf.
    rewrite (fmap_app _ l1), fmap_cons in Hf. rewrite (fmap_app _ l1'), Hids.
    apply app_inj_1 in Hf as [-> Hf]; [by injection Hf as _ ->|]. rewrite !length_fmap, length_app. lia.
  - rewrite items_middle. cbn [snd].
    assert (E1 : items u1 ++ (a ++ e :: t) ++ items u2 = (items u1 ++ a) ++ e :: t ++ items u2) by (by rewrite <- !app_assoc).
    rewrite E1 in Hb, Hs.
    replace (items u1 ++ (a ++ t) ++ items u2) with ((items u1 ++ a) ++ t ++ items u2) by (by rewrite <- !app_assoc).
    eapply bounded_drop; [exact Hb|rewrite length_app; lia|exact Hs|exact Habs].
Qed.

Lemma drop_ids : (concat lv).*1 ≡ₚ y :: (concat drop_node).*1.
Proof.
  destruct (split_at _ _ _ Hl) as (A & B & E & HA).
  assert (EB : exists B', B = (u1 ++ (P, a ++ e :: t) :: u2) :: B').
  { pose proof Hu as Hu'. rewrite E in Hu'. rewrite lookup_app_r in Hu' by lia.
    replace (S d - length A)%nat with 1%nat in Hu' by lia. destruct B as [|u B']; [done|]. injection Hu' as ->. by exists B'. }
  destruct EB as [B' ->]. assert (Ed : drop_node = A ++ (l1' ++ l2) :: (u1 ++ (P, a ++ t) :: u2) :: B').
  { unfold drop_node. rewrite E, !insert_app_r_alt by lia. f_equal. rewrite HA, Nat.sub_diag.
    by replace (S d - d)%nat with 1%nat by lia. }
  rewrite Ed, E. destruct Habs as (Hids & _). rewrite !concat_app. cbn [concat].
  rewrite !fmap_app, !fmap_cons, Hids. cbn [fst]. solve_Permutation.
Qed.

Lemma drop_ok : lv_ok drop_node.
Proof.
  pose proof Hlv as [T A S N]. pose proof (lookup_lt_Some _ _ _ Hu) as Hd. split.
  - destruct T as (r & es & T). rewrite last_lookup in T |- *. rewrite drop_length.
    destruct (decide (Init.Nat.pred (length lv) = Datatypes.S d)) as [E|E].
    + rewrite E, drop_S. rewrite E in T. rewrite Hu in T. destruct u1 as [|? [|]]; [|done|done].
      injection T as -> <- ->. by exists r, (a ++ t).
    + exists r, es. rewrite drop_other_level by lia. exact T.
  - intros k up lo Hlo Hup. destruct (decide (k = d)) as [->|Hk].
    + rewrite drop_d in Hlo. rewrite drop_S in Hup. injection Hlo as <-. injection Hup as <-. apply drop_above'.
    + destruct (decide (k = Datatypes.S d)) as [->|Hk1].
      * rewrite drop_S in Hlo. injection Hlo as <-. rewrite drop_other_level in Hup by lia.
        destruct (A _ _ _ Hu Hup) as [Hf Hb]. split; [by rewrite Hf, !fmap_app|].
        intros i n x Hi Hx. apply lookup_app_Some in Hi as [Hi|[Hi1 Hi]].
        -- apply (Hb i n x); [by apply lookup_app_l_Some|done].
        -- destruct (i - length u1)%nat as [|j] eqn:Ej; cbn in Hi.
           ++ injection Hi as <-. apply (Hb i (P, a ++ e :: t) x); [|cbn in *; set_solver].
              rewrite lookup_app_r by lia. by rewrite Ej.
           ++ apply (Hb i n x); [|done]. rewrite lookup_app_r by lia. by rewrite Ej.
      * destruct (decide (Datatypes.S k = d)) as [E|E].
        -- rewrite E, drop_d in Hup. injection Hup as <-. rewrite drop_other_level in Hlo by lia.
           rewrite <- E in Hl. unfold above. rewrite drop_items. by apply (A k).
        -- rewrite drop_other_level in Hlo, Hup by lia. by apply (A k).
  - intros k l Hk. destruct (decide (k = d)) as [->|Hkd].
    + rewrite drop_d in Hk. injection Hk as <-. rewrite drop_items. by apply (S d).
    + destruct (decide (k = Datatypes.S d)) as [->|Hk1].
      * rewrite drop_S in Hk. injection Hk as <-. pose proof (S _ _ Hu) as Hs. rewrite items_middle in Hs |- *.
        cbn [snd] in *. rewrite !fmap_app, fmap_cons in Hs. rewrite !fmap_app.
        rewrite <- app_assoc, app_assoc in Hs |- *. by apply (keys_sorted_remove _ [in_key e]) in Hs.
      * rewrite drop_other_level in Hk by done. by apply (S k).
  - rewrite drop_ids in N. by apply NoDup_cons in N as [_ N].
Qed.

Lemma drop_parent : entry lv (S d) P (a ++ e :: t).
Proof. eexists. split; [exact Hu|set_solver]. Qed.

Lemma drop_dead : entry lv d y ys.
Proof. eexists. split; [exact Hl|set_solver]. Qed.

(** The inodes that a node has afterwards; [dst] takes in those of [y]. *)
Context (dst : option Z).
Context (Hdst : match dst with
                | None => l1' = l1 /\ ys = []
                | Some z => exists l zs, l1 = l ++ [(z, zs)] /\ l1' = l ++ [(z, zs ++ ys)]
                end).

Definition newes (x : Z) (xs : list inode) : list inode :=
  if decide (x = P) then a ++ t else if decide (dst = Some x) then xs ++ ys else xs.

Lemma drop_dst z : dst = Some z -> exists zs, entry lv d z zs /\ z <> y /\ z <> P.
Proof.
  intros ->. destruct Hdst as (l & zs & E & _). exists zs. assert (Hz : entry lv d z zs).
  { eexists. split; [exact Hl|]. rewrite E. set_solver. }
  split; [done|]. split.
  - intros ->. pose proof (NoDup_level _ _ _ Hlv Hl) as Hn. rewrite E, !fmap_app, fmap_cons in Hn.
    apply NoDup_app in Hn as (_ & Hn & _). apply (Hn y); set_solver.
  - intros ->. destruct (entry_inj _ _ _ _ _ _ Hlv Hz drop_parent). lia.
Qed.

Lemma drop_in_level x xs : (x, xs) ∈ l1 ++ (y, ys) :: l2 -> x <> y -> x <> P -> (x, newes x xs) ∈ l1' ++ l2.
Proof.
  intros Hin Hy HP. unfold newes. rewrite decide_False by done.
  pose proof (NoDup_level _ _ _ Hlv Hl) as Hn. destruct dst as [z|].
  - destruct Hdst as (l & zs & E & ->). rewrite E in Hin, Hn.
    destruct (decide (Some z = Some x)) as [[= ->]|Hz].
    + assert (Ez : xs = zs); [|subst; set_solver].
      apply list_elem_of_lookup in Hin as [i Hi].
      assert (Hj : ((l ++ [(x, zs)]) ++ (y, ys) :: l2) !! length l = Some (x, zs)).
      { rewrite <- app_assoc. by apply list_lookup_middle. }
      assert (i = length l) as ->; [|congruence].
      eapply NoDup_lookup; [exact Hn| |]; rewrite list_lookup_fmap; [by rewrite Hi|by rewrite Hj].
    + rewrite !elem_of_app, !elem_of_cons, elem_of_nil in Hin. rewrite !elem_of_app.
      destruct Hin as [[?|[E2|?]]|[E2|?]]; [by do 2 left|congruence|done|congruence|by right].
  - destruct Hdst as [-> _]. rewrite decide_False by done. rewrite elem_of_app, elem_of_cons in Hin. rewrite elem_of_app.
    destruct Hin as [?|[E2|?]]; [by left|congruence|by right].
Qed.

Lemma drop_entry_to k x xs : entry lv k x xs -> x <> y -> entry drop_node k x (newes x xs).
Proof.
  intros He Hy. destruct (decide (x = P)) as [->|HP].
  { destruct (entry_inj _ _ _ _ _ _ Hlv He drop_parent) as [-> _]. eexists. split; [apply drop_S|].
    unfold newes. rewrite decide_True by done. set_solver. }
  pose proof He as (l & Hk & Hin). destruct (decide (k = d)) as [->|Hkd].
  { rewrite Hl in Hk. injection Hk as <-. eexists. split; [apply drop_d|]. by apply drop_in_level. }
  assert (En : newes x xs = xs).
  { unfold newes. rewrite decide_False by done. destruct (decide (dst = Some x)) as [Ed|]; [|done].
    destruct (drop_dst _ Ed) as (zs & Hz & _). by destruct (entry_inj _ _ _ _ _ _ Hlv He Hz). }
  rewrite En. destruct (decide (k = S d)) as [->|HkS].
  - rewrite Hu in Hk. injection Hk as <-. eexists. split; [apply drop_S|]. rewrite elem_of_app, elem_of_cons in Hin |- *.
    destruct Hin as [?|[E2|?]]; [by left|congruence|by do 2 right].
  - exists l. by rewrite drop_other_level.
Qed.

Lemma drop_entry k x xs' : entry drop_node k x xs' <-> x <> y /\ exists xs, entry lv k x xs /\ xs' = newes x xs.
Proof.
  split; [|intros (Hy & xs & He & ->); by apply drop_entry_to].
  intros He. assert (Hn : NoDup (y :: (concat drop_node).*1)) by (rewrite <- drop_ids; apply (lo_ids _ Hlv)).
  apply NoDup_cons in Hn as [Hn _].
  assert (Hin : x ∈ (concat drop_node).*1) by (apply elem_of_level_ids; eauto).
  assert (Hy : x <> y) by (by intros ->). split; [done|].
  assert (Hin' : x ∈ (concat lv).*1) by (rewrite drop_ids; by right).
  apply elem_of_level_ids in Hin' as (k' & xs & He'). pose proof (drop_entry_to _ _ _ He' Hy) as He2.
  destruct (entry_inj _ _ _ _ _ _ drop_ok He He2) as [-> ->]. by exists xs.
Qed.

(** The inode for a node other than [y] stays, with [y]'s children in [dst]. *)
Lemma drop_child_to k Q qs i x : child_of lv k Q qs i x -> x <> y ->
  if decide (Q = y) then exists z zs, dst = Some z /\ child_of drop_node k z zs i x
  else child_of drop_node k Q (newes Q qs) i x.
Proof.
  intros (HQ & Hi & Hx) Hy. destruct (decide (Q = y)) as [->|HQy].
  - destruct (entry_inj _ _ _ _ _ _ Hlv HQ drop_dead) as [E1 E2]. rewrite E2 in Hi. destruct (decide (dst = None)) as [Ed|Ed].
    + exfalso. clear - Ed Hdst Hi. rewrite Ed in Hdst. destruct Hdst as [_ ->]. by apply elem_of_nil in Hi.
    + assert (exists z, dst = Some z) as [z Ez] by (clear - Ed; destruct dst; [eauto|done]).
      destruct (drop_dst z Ez) as (zs & Hz & Hzy & HzP). exists z, (zs ++ ys). split; [done|].
      split; [|split; [set_solver|done]]. rewrite E1. pose proof (drop_entry_to _ _ _ Hz Hzy) as H. unfold newes in H.
      rewrite decide_False, decide_True in H by done. exact H.
  - split; [by apply drop_entry_to|]. split; [|done]. unfold newes. destruct (decide (Q = P)) as [->|HP].
    + destruct (entry_inj _ _ _ _ _ _ Hlv HQ drop_parent) as [_ Eq]. rewrite Eq, elem_of_app, elem_of_cons in Hi.
      destruct Hi as [?|[->|?]]; [set_solver| |set_solver]. destruct Hy. by rewrite <- Hx, drop_pgid.
    + destruct (decide (dst = Some Q)); set_solver.
Qed.

Lemma drop_child_from k Q qs i x : child_of drop_node k Q qs i x -> exists Q' qs', child_of lv k Q' qs' i x.
Proof.
  intros (HQ & Hi & Hx). apply drop_entry in HQ as (HQy & qs0 & HQ & ->). unfold newes in Hi.
  destruct (decide (Q = P)) as [->|HP].
  - destruct (entry_inj _ _ _ _ _ _ Hlv HQ drop_parent) as [_ Eq]. exists P, qs0. split; [done|]. rewrite Eq. set_solver.
  - destruct (decide (dst = Some Q)) as [Ed|]; [|by exists Q, qs0].
    apply elem_of_app in Hi as [Hi|Hi]; [by exists Q, qs0|].
    destruct (drop_dst _ Ed) as (zs & Hz & _). destruct (entry_inj _ _ _ _ _ _ Hlv HQ Hz) as [E _].
    exists y, ys. split; [|done]. rewrite E. apply drop_dead.
Qed.
End drop.

(** ** A root with one child *)

Section one_child.
Context (A : list level) (cid root : Z) (es : list inode) (e : inode).
Let lv : list level := A ++ [[(cid, es)]; [(root, [e])]].
Context (Hlv : lv_ok lv).

(** The root takes the child's place. *)
Definition collapsed : list level := A ++ [[(root, es)]].

Lemma one_child_ids : (concat lv).*1 ≡ₚ cid :: (concat collapsed).*1.
Proof. unfold lv, collapsed. rewrite !concat_app, !fmap_app. cbn. solve_Permutation. Qed.

Lemma one_child_low k : (k < length A)%nat -> collapsed !! k = lv !! k.
Proof. intros Hk. unfold collapsed, lv. by rewrite !lookup_app_l. Qed.

Lemma one_child_top : collapsed !! length A = Some [(root, es)].
Proof. unfold collapsed. by apply list_lookup_middle. Qed.

Lemma one_child_mid : lv !! length A = Some [(cid, es)].
Proof. unfold lv. by apply list_lookup_middle. Qed.

Lemma one_child_root : lv !! S (length A) = Some [(root, [e])].
Proof. unfold lv. rewrite lookup_app_r by lia. by replace (S (length A) - length A)%nat with 1%nat by lia. Qed.

Lemma one_child_entry k x xs : entry collapsed k x xs <->
  (k = length A /\ x = root /\ xs = es) \/ ((k < length A)%nat /\ entry lv k x xs).
Proof.
  split.
  - intros (l & Hk & Hin). destruct (decide (k < length A)%nat) as [Hlt|Hge].
    + right. split; [done|]. exists l. by rewrite <- one_child_low.
    + pose proof (lookup_lt_Some _ _ _ Hk) as Hl. unfold collapsed in Hl. rewrite length_app in Hl. cbn in Hl.
      replace k with (length A) in * by lia. rewrite one_child_top in Hk. injection Hk as <-.
      apply list_elem_of_singleton in Hin. injection Hin as -> ->. by left.
  - intros [(-> & -> & ->)|(Hk & l & Hl & Hin)].
    + exists [(root, es)]. split; [apply one_child_top|by left].
    + exists l. by rewrite one_child_low.
Qed.

Lemma one_child_ok : lv_ok collapsed.
Proof.
  destruct Hlv as [_ Ab S N]. split.
  - exists root, es. unfold collapsed. by rewrite last_snoc.
  - intros d up lo Hlo Hup. assert (Hd : (Datatypes.S d <= length A)%nat).
    { apply lookup_lt_Some in Hup. unfold collapsed in Hup. rewrite length_app in Hup. cbn in Hup. lia. }
    rewrite one_child_low in Hlo by lia. destruct (decide (Datatypes.S d = length A)) as [E|E].
    + rewrite E, one_child_top in Hup. injection Hup as <-.
      change (above [(root, es)] lo) with (above [(cid, es)] lo). apply (Ab d); [done|]. rewrite E. apply one_child_mid.
    + rewrite one_child_low in Hup by lia. by apply (Ab d).
  - intros d l Hl. destruct (decide (d < length A)%nat) as [Hd|Hd].
    + rewrite one_child_low in Hl by done. by apply (S d).
    + pose proof (lookup_lt_Some _ _ _ Hl) as Hlen. unfold collapsed in Hlen. rewrite length_app in Hlen. cbn in Hlen.
      replace d with (length A) in Hl by lia. rewrite one_child_top in Hl. injection Hl as <-.
      apply (S (length A) [(cid, es)]), one_child_mid.
  - rewrite one_child_ids in N. by apply NoDup_cons in N as [_ N].
Qed.

Lemma one_child_cid : entry lv (length A) cid es.
Proof. exists [(cid, es)]. split; [apply one_child_mid|by left]. Qed.

Lemma one_child_rootentry : entry lv (S (length A)) root [e].
Proof. exists [(root, [e])]. split; [apply one_child_root|by left]. Qed.

Lemma one_child_of : child_of lv (length A) root [e] e cid.
Proof.
  split; [apply one_child_rootentry|]. split; [by left|].
  destruct (lo_above _ Hlv _ _ _ one_child_mid one_child_root) as [Hf _]. by injection Hf.
Qed.

Lemma one_child_child k Q qs i x : child_of collapsed k Q qs i x <->
  (S k = length A /\ Q = root /\ qs = es /\ child_of lv k cid es i x) \/
  ((S k < length A)%nat /\ child_of lv k Q qs i x).
Proof.
  unfold child_of. rewrite one_child_entry. split.
  - intros ([(Hk & -> & ->)|(Hk & He)] & Hi & Hx).
    + left. split_and!; try done. rewrite Hk. apply one_child_cid.
    + right. done.
  - intros [(Hk & -> & -> & _ & Hi & Hx)|(Hk & He & Hi & Hx)]; (split; [|done]); [left|right]; done.
Qed.
End one_child.

(** A root with one child has this form. *)
Lemma root_one_child lv root e : lv_ok lv -> (1 < length lv)%nat -> last lv = Some [(root, [e])] ->
  exists A es, lv = A ++ [[(in_pgid e, es)]; [(root, [e])]].
Proof.
  intros Hlv Hlen Hl. destruct lv as [|t0 lv0] using rev_ind; [done|]. clear IHlv0. rewrite last_snoc in Hl. injection Hl as ->.
  destruct lv0 as [|mid A] using rev_ind; [cbn in Hlen; lia|]. clear IHA. exists A. rewrite <- app_assoc in *. cbn [app] in *.
  destruct (lo_above _ Hlv (length A) [(root, [e])] mid) as [Hf _].
  - by apply list_lookup_middle.
  - rewrite lookup_app_r by lia. by replace (S (length A) - length A)%nat with 1%nat by lia.
  - destruct mid as [|[cid es] [|]]; try done. injection Hf as <-. by exists es.
Qed.
