(* ===== verification/BoltSep.v ===== *)
(** Where the keys of the branches of a bucket lie among its items: each separates the items
    before the subtree it points at from the others ([sep]). The keys of two levels next to
    each other do not tell that while rebalance is on its way, for the first key of a branch
    may then be larger than the key its parent has for it. Replacing a node by pieces of it,
    as spill does, keeps the levels in order because of it. *)

From Stdlib Require Import ZArith Lia.
From stdpp Require Import base numbers option list sorting sets.
From S2P Require Import Prelude GoSort GoBytes BoltNode BoltLevels.
#[local] Open Scope Z_scope.

(** The inodes of the first [J] nodes of a level. *)
Definition width (l : level) (J : nat) : nat := length (items (take J l)).

Definition lvl (lv : list level) (k : nat) : level := default [] (lv !! k).

(** How many items are in the leaves below the first [J] nodes of level [k]. *)
Fixpoint pos (lv : list level) (k J : nat) : nat :=
  match k with
  | O => width (lvl lv 0) J
  | S k' => pos lv k' (width (lvl lv k) J)
  end.

Definition sep (lv : list level) : Prop :=
  forall k J e, items (lvl lv (S k)) !! J = Some e -> (0 < J)%nat ->
    (forall x, x ∈ take (pos lv k J) (cont lv) -> key_lt (in_key x) (in_key e)) /\
    (forall x, x ∈ drop (pos lv k J) (cont lv) -> ~ key_lt (in_key x) (in_key e)).

(** ** Widths and positions *)

Lemma width_app_l l1 l2 J : (J <= length l1)%nat -> width (l1 ++ l2) J = width l1 J.
Proof. intros H. unfold width. by rewrite take_app_le. Qed.

Lemma width_app_r l1 l2 J : (length l1 <= J)%nat -> width (l1 ++ l2) J = (length (items l1) + width l2 (J - length l1))%nat.
Proof. intros H. unfold width. by rewrite take_app_ge, items_app, length_app. Qed.

Lemma width_all l : width l (length l) = length (items l).
Proof. unfold width. by rewrite take_ge. Qed.

Lemma width_cons n l J : width (n :: l) (S J) = (length n.2 + width l J)%nat.
Proof. unfold width. cbn [take]. by rewrite items_cons, length_app. Qed.

Lemma width_mono l J1 J2 : (J1 <= J2)%nat -> (width l J1 <= width l J2)%nat.
Proof.
  revert J1 J2. induction l as [|n l IH]; intros J1 J2 H; [unfold width; rewrite !take_nil; lia|].
  destruct J1 as [|J1]; [unfold width; cbn; lia|]. destruct J2 as [|J2]; [lia|]. rewrite !width_cons.
  specialize (IH J1 J2 ltac:(lia)). lia.
Qed.

Lemma width_le l J : (width l J <= length (items l))%nat.
Proof.
  destruct (decide (J <= length l)%nat); [rewrite <- (width_all l); by apply width_mono|].
  unfold width. rewrite take_ge by lia. done.
Qed.

Lemma width_Some l J n : l !! J = Some n -> width l (S J) = (width l J + length n.2)%nat.
Proof.
  intros H. unfold width. rewrite (take_S_r _ _ _ H), items_app, length_app. unfold items at 2. cbn. by rewrite app_nil_r.
Qed.

Lemma pos_mono lv k : forall J1 J2, (J1 <= J2)%nat -> (pos lv k J1 <= pos lv k J2)%nat.
Proof.
  induction k as [|k IH]; intros J1 J2 H; cbn [pos]; [by apply width_mono|]. by apply IH, width_mono.
Qed.

Lemma pos_ext lv lv' k : (forall j, (j <= k)%nat -> lvl lv' j = lvl lv j) -> forall J, pos lv' k J = pos lv k J.
Proof.
  induction k as [|k IH]; intros H J; cbn [pos]; rewrite H by lia; [done|]. apply IH. intros j Hj. apply H. lia.
Qed.

(** Levels from [k] up to [k'] have the same widths. *)
Lemma pos_ext_high lv lv' k0 k : (k0 <= k)%nat -> (forall J, pos lv' k0 J = pos lv k0 J) ->
  (forall j, (k0 < j <= k)%nat -> lvl lv' j = lvl lv j) -> forall J, pos lv' k J = pos lv k J.
Proof.
  intros Hk H0. induction k as [|k IH]; intros H J; [by replace k0 with 0%nat in H0 by lia|].
  destruct (decide (k0 = S k)) as [<-|Hne]; [done|]. cbn [pos]. rewrite H by lia. apply IH; [lia|]. intros j Hj. apply H. lia.
Qed.

(** The items below the first [J] inodes of level [k]. *)
Definition below (lv : list level) (k J : nat) : nat := match k with O => J | S k => pos lv k J end.

Lemma pos_S lv k J : pos lv k J = below lv k (width (lvl lv k) J).
Proof. by destruct k. Qed.

Lemma pos_below lv lv' k J : (forall j, (j < k)%nat -> lvl lv' j = lvl lv j) -> below lv' k J = below lv k J.
Proof. intros H. destruct k; [done|]. apply pos_ext. intros j Hj. apply H. lia. Qed.

(** ** Dropping a node *)

Section drop_sep.
Context (lv : list level) (d : nat) (l1 l1' l2 u1 u2 : level) (y P : Z) (ys a t : list inode) (e : inode).
Context (Hl : lv !! d = Some (l1 ++ (y, ys) :: l2)).
Context (Hu : lv !! S d = Some (u1 ++ (P, a ++ e :: t) :: u2)).
Context (Hlen : (length l1 = length (items u1) + length a)%nat).
Context (dst : option Z).
Context (Hdst : match dst with
                | None => l1' = l1 /\ ys = []
                | Some z => exists l zs, l1 = l ++ [(z, zs)] /\ l1' = l ++ [(z, zs ++ ys)]
                end).
Context (Hya : ys = [] \/ a <> []).
Let lv' := drop_node lv d l1' l2 u1 u2 P a t.

Lemma lvl_d : lvl lv d = l1 ++ (y, ys) :: l2 /\ lvl lv' d = l1' ++ l2.
Proof. unfold lvl, lv'. rewrite Hl. split; [done|]. by erewrite drop_d. Qed.

Lemma lvl_S : lvl lv (S d) = u1 ++ (P, a ++ e :: t) :: u2 /\ lvl lv' (S d) = u1 ++ (P, a ++ t) :: u2.
Proof. unfold lvl, lv'. rewrite Hu. split; [done|]. by erewrite drop_S. Qed.

Lemma lvl_other k : k <> d -> k <> S d -> lvl lv' k = lvl lv k.
Proof. intros H1 H2. unfold lvl, lv'. by rewrite drop_other_level. Qed.

(** The nodes before [y], and [y] with those before it. *)
Lemma drop_width J : width (l1' ++ l2) J = width (l1 ++ (y, ys) :: l2) (if decide (J < length l1)%nat then J else S J).
Proof.
  assert (Hli : length l1' = length l1 /\ items l1' = items l1 ++ ys /\ forall j, (j < length l1)%nat -> width l1' j = width l1 j).
  { destruct dst as [z|].
    - destruct Hdst as (l & zs & -> & ->). rewrite !length_app. split; [done|]. split.
      + rewrite !items_app. unfold items at 2 4. cbn. by rewrite !app_nil_r, app_assoc.
      + cbn. intros j Hj. by rewrite !width_app_l by lia.
    - destruct Hdst as [-> ->]. by rewrite app_nil_r. }
  destruct Hli as (El & Ei & Ew). destruct (decide (J < length l1)%nat) as [HJ|HJ].
  - rewrite !width_app_l by lia. by apply Ew.
  - rewrite !width_app_r by lia. rewrite El, Ei, length_app.
    replace (S J - length l1)%nat with (S (J - length l1)) by lia. rewrite width_cons. cbn. lia.
Qed.

Lemma drop_pos_d J : pos lv' d J = pos lv d (if decide (J < length l1)%nat then J else S J).
Proof.
  destruct lvl_d as [E1 E2]. rewrite !pos_S, E1, E2, drop_width. apply pos_below. intros j Hj. apply lvl_other; lia.
Qed.

Lemma drop_pos_S J : pos lv' (S d) J = pos lv (S d) J.
Proof.
  destruct lvl_S as [E1 E2]. cbn [pos]. rewrite E1, E2, drop_pos_d.
  destruct (decide (J <= length u1)%nat) as [HJ|HJ].
  - rewrite !width_app_l by lia. destruct (decide (width u1 J < length l1)%nat) as [|Hw]; [done|].
    assert (Ha : width u1 J = length l1 /\ a = []).
    { pose proof (width_le u1 J). destruct a; [|cbn in Hlen; lia]. cbn in Hlen. split; [lia|done]. }
    destruct Ha as [Ew Ea]. destruct Hya as [Ey|]; [|done]. rewrite Ew.
    assert (Hw1 : width (lvl lv d) (S (length l1)) = width (lvl lv d) (length l1)).
    { rewrite (proj1 lvl_d), (width_Some _ _ (y, ys)) by (by apply list_lookup_middle). cbn. rewrite Ey. cbn. lia. }
    by rewrite !(pos_S lv d), Hw1.
  - rewrite !width_app_r by lia. replace (J - length u1)%nat with (S (J - length u1 - 1)) by lia. rewrite !width_cons.
    cbn [snd]. rewrite !length_app. cbn [length]. destruct (decide _) as [|_]; [lia|]. f_equal. lia.
Qed.

Lemma drop_same : items (l1' ++ l2) = items (l1 ++ (y, ys) :: l2).
Proof.
  rewrite items_app, items_middle. cbn [snd]. destruct dst as [z|].
  - destruct Hdst as (l & zs & -> & ->). rewrite !items_app. unfold items at 2 5. cbn. by rewrite !app_nil_r, <- !app_assoc.
  - by destruct Hdst as [-> ->].
Qed.

Lemma drop_cont : cont lv' = cont lv.
Proof.
  assert (H0 : forall v, cont v = items (lvl v 0)) by (intros [|? ?]; done). rewrite !H0.
  destruct (decide (d = 0%nat)) as [E|E]; [|by rewrite lvl_other].
  destruct lvl_d as [E1 E2]. rewrite E in E1, E2. rewrite E1, E2. apply drop_same.
Qed.

Lemma drop_sep : sep lv -> sep lv'.
Proof.
  intros Hs k J x Hx HJ. rewrite drop_cont.
  destruct (Nat.lt_trichotomy k d) as [Hk|[->|Hk]].
  - rewrite (pos_ext lv lv' k) by (intros j Hj; apply lvl_other; lia). apply Hs; [|done].
    destruct (decide (S k = d)) as [Ek|]; [|by rewrite lvl_other in Hx by lia].
    rewrite Ek in Hx |- *. rewrite (proj2 lvl_d), drop_same in Hx. by rewrite (proj1 lvl_d).
  - rewrite drop_pos_d. apply Hs; [|destruct (decide _); lia]. rewrite (proj1 lvl_S). rewrite (proj2 lvl_S) in Hx.
    rewrite items_middle in Hx |- *. cbn [snd] in *. rewrite <- app_assoc, app_assoc in Hx |- *. cbn [app].
    assert (El : length (items u1 ++ a) = length l1) by (rewrite length_app; lia).
    destruct (decide (J < length l1)%nat).
    + rewrite lookup_app_l in Hx |- * by lia. done.
    + rewrite lookup_app_r in Hx by lia. rewrite lookup_app_r by lia.
      by replace (S J - length (items u1 ++ a))%nat with (S (J - length (items u1 ++ a))) by lia.
  - rewrite (pos_ext_high lv lv' (S d) k); [|lia|exact drop_pos_S|intros j Hj; apply lvl_other; lia].
    apply Hs; [|done]. by rewrite lvl_other in Hx by lia.
Qed.
End drop_sep.

(** ** Other ways to have it *)

Lemma key_le_sorted (es : list inode) i j ei ej : keys_sorted (in_key <$> es) -> (i <= j)%nat -> es !! i = Some ei ->
  es !! j = Some ej -> ~ key_lt (in_key ej) (in_key ei).
Proof.
  intros Hs Hij Hi Hj Hl. destruct (decide (i = j)) as [->|Hne].
  - rewrite Hi in Hj. injection Hj as ->. by apply key_lt_irrefl in Hl.
  - apply (key_lt_irrefl (in_key ei)). apply (key_lt_trans _ (in_key ej)); [|done].
    apply (keys_sorted_lookup _ i j _ _ Hs); [lia|by rewrite list_lookup_fmap, Hi|by rewrite list_lookup_fmap, Hj].
Qed.

(** An inode separates the nodes of the level below. *)
Lemma bounded_split es lo J e : bounded es lo -> keys_sorted (in_key <$> es) -> length es = length lo ->
  es !! J = Some e -> (0 < J)%nat ->
  (forall x, x ∈ items (take J lo) -> key_lt (in_key x) (in_key e)) /\
  (forall x, x ∈ items (drop J lo) -> ~ key_lt (in_key x) (in_key e)).
Proof.
  intros Hb Hs Hlen He HJ. split; intros x (n & Hn & Hx)%elem_of_items; apply list_elem_of_lookup in Hn as [i Hi].
  - apply lookup_take_Some in Hi as [Hi Hlt]. destruct (Hb i n (in_key x) Hi) as [_ Hu]; [by apply list_elem_of_fmap_2|].
    destruct (lookup_lt_is_Some_2 es (S i)) as [e' He']; [apply lookup_lt_Some in He; lia|].
    apply (key_lt_le_trans _ (in_key e')); [by apply Hu|]. apply (key_le_sorted es (S i) J); try done; lia.
  - rewrite lookup_drop in Hi. destruct (Hb _ n (in_key x) Hi) as [Hl _]; [by apply list_elem_of_fmap_2|].
    destruct (lookup_lt_is_Some_2 es (J + i)) as [e' He']; [apply lookup_lt_Some in Hi; lia|].
    intros Hk. apply (Hl e'); [lia|done|]. apply (key_lt_le_trans _ (in_key e)); [done|]. apply (key_le_sorted es J (J + i)); try done; lia.
Qed.

Lemma take_width l J : take (width l J) (items l) = items (take J l) /\ drop (width l J) (items l) = items (drop J l).
Proof.
  assert (E : items l = items (take J l) ++ items (drop J l)) by (by rewrite <- items_app, take_drop).
  rewrite E. unfold width. by rewrite take_app_length, drop_app_length.
Qed.

Lemma lvl_items lv k J e : items (lvl lv k) !! J = Some e -> exists l, lv !! k = Some l /\ lvl lv k = l.
Proof. unfold lvl. destruct (lv !! k) as [l|]; [by exists l|done]. Qed.

Lemma cont_lvl lv : cont lv = items (lvl lv 0).
Proof. by destruct lv. Qed.

(** Branches that start with the keys of their parents have it. *)
Lemma exact_sep lv : lv_ok lv -> exact_keys lv -> (forall d id es, entry lv (S d) id es -> es <> []) -> sep lv.
Proof.
  intros Hlv Hex Hne k. induction k as [|k IH]; intros J e He HJ.
  all: destruct (lvl_items _ _ _ _ He) as (up & Hup & Eup); rewrite Eup in He.
  - destruct (lookup_lt_is_Some_2 lv 0) as [lo Hlo]; [apply lookup_lt_Some in Hup; lia|].
    destruct (lo_above _ Hlv _ _ _ Hlo Hup) as [Hids Hb] eqn:Eab.
    cbn [pos]. rewrite cont_lvl. unfold lvl. rewrite Hlo. cbn [default from_option id].
    destruct (take_width lo J) as [-> ->]. apply (bounded_split (items up)); try done; [by apply (lo_sorted _ Hlv 1)|].
    apply above_length. by apply (lo_above _ Hlv 0).
  - destruct (lookup_lt_is_Some_2 lv (S k)) as [lo Hlo]; [apply lookup_lt_Some in Hup; lia|].
    pose proof (above_length _ _ (lo_above _ Hlv _ _ _ Hlo Hup)) as Hlen.
    destruct (lookup_lt_is_Some_2 lo J) as [[id es] Hn]; [apply lookup_lt_Some in He; lia|].
    assert (Hups : ups lv (S k) !! J = Some e) by (unfold ups; by rewrite Hup).
    pose proof (Hex k lo J (id, es) e Hlo Hn Hups) as Hk. cbn in Hk.
    assert (Hnode : forall i n, lo !! i = Some n -> n.2 <> []).
    { intros i [x xs] Hi. apply (Hne k x). exists lo. split; [done|]. by eapply list_elem_of_lookup_2. }
    destruct es as [|h es]; [by destruct (Hnode J _ Hn)|]. injection Hk as Hk.
    assert (El : lvl lv (S k) = lo) by (unfold lvl; by rewrite Hlo).
    assert (Hh : items lo !! width lo J = Some h).
    { destruct (split_at _ _ _ Hn) as (a & b & -> & <-). rewrite width_app_l by done. rewrite width_all, items_middle.
      rewrite lookup_app_r, Nat.sub_diag by done. done. }
    cbn [pos]. rewrite El, <- Hk. apply IH; [by rewrite El|].
    destruct J as [|J]; [lia|]. destruct lo as [|n0 lo']; [done|]. rewrite width_cons.
    pose proof (Hnode 0%nat n0 eq_refl). destruct n0.2; [done|cbn; lia].
Qed.

(** A root that takes its child's place. *)
Lemma collapse_sep A root es e : sep (A ++ [[(in_pgid e, es)]; [(root, [e])]]) -> sep (collapsed A root es).
Proof.
  intros Hs k J x Hx HJ. assert (Hk : (S k <= length A)%nat).
  { destruct (lvl_items _ _ _ _ Hx) as (l & Hl & _). apply lookup_lt_Some in Hl. unfold collapsed in Hl.
    rewrite length_app in Hl. cbn in Hl. lia. }
  assert (El : forall j, (j < length A)%nat -> lvl (collapsed A root es) j = lvl (A ++ [[(in_pgid e, es)]; [(root, [e])]]) j).
  { intros j Hj. unfold lvl, collapsed. by rewrite !lookup_app_l. }
  rewrite (pos_ext (A ++ [[(in_pgid e, es)]; [(root, [e])]]) (collapsed A root es) k) by (intros j Hj; apply El; lia).
  assert (Ec : cont (collapsed A root es) = cont (A ++ [[(in_pgid e, es)]; [(root, [e])]])) by (by destruct A). rewrite Ec.
  apply Hs; [|done]. destruct (decide (S k = length A)) as [E|]; [|by rewrite <- El by lia].
  unfold lvl in Hx |- *. rewrite E in Hx |- *. unfold collapsed in Hx. rewrite list_lookup_middle in Hx by done.
  by rewrite list_lookup_middle.
Qed.

(** ** Replacing a node *)

(** The inode of a written node. *)
Definition up_inode (n : Z * list inode) : inode := mkInode 0 n.1 (default [] (in_key <$> head n.2)) [].

(** No node is empty. *)
Definition full (lv : list level) : Prop := forall k id es, entry lv k id es -> es <> [].

Lemma width_strict l J1 J2 : (forall n, n ∈ l -> n.2 <> []) -> (J1 < J2 <= length l)%nat -> (width l J1 < width l J2)%nat.
Proof.
  intros Hne H. destruct (lookup_lt_is_Some_2 l J1) as [n Hn]; [lia|].
  pose proof (width_mono l (S J1) J2 ltac:(lia)) as Hm. rewrite (width_Some _ _ _ Hn) in Hm.
  pose proof (Hne n ltac:(by eapply list_elem_of_lookup_2)). destruct n.2; [done|cbn in Hm; lia].
Qed.

Lemma full_lvl lv k n : full lv -> n ∈ lvl lv k -> n.2 <> [].
Proof.
  intros Hf Hn. unfold lvl in Hn. destruct (lv !! k) as [l|] eqn:E; [|by apply elem_of_nil in Hn].
  destruct n as [id es]. apply (Hf k id es). by exists l.
Qed.

Lemma lvl_length lv k : lv_ok lv -> (S k < length lv)%nat -> length (lvl lv k) = length (items (lvl lv (S k))).
Proof.
  intros Hlv Hk. destruct (lookup_lt_is_Some_2 lv k) as [lo Hlo]; [lia|]. destruct (lookup_lt_is_Some_2 lv (S k)) as [up Hup]; [lia|].
  unfold lvl. rewrite Hlo, Hup. symmetry. apply above_length. by apply (lo_above _ Hlv k).
Qed.

Lemma pos_strict lv k : lv_ok lv -> full lv -> (k < length lv)%nat -> forall J1 J2, (J1 < J2 <= length (lvl lv k))%nat ->
  (pos lv k J1 < pos lv k J2)%nat.
Proof.
  intros Hlv Hf. induction k as [|k IH]; intros Hk J1 J2 HJ; cbn [pos].
  - apply width_strict; [|done]. intros n. by apply full_lvl.
  - apply IH; [lia|]. split; [apply width_strict; [intros n; by apply full_lvl|done]|].
    rewrite lvl_length by (try done; lia). apply width_le.
Qed.

Lemma below_strict lv k J1 J2 : lv_ok lv -> full lv -> (k < length lv)%nat -> (J1 < J2 <= length (items (lvl lv k)))%nat ->
  (below lv k J1 < below lv k J2)%nat.
Proof.
  intros Hlv Hf Hk HJ. destruct k as [|k]; [cbn; lia|]. cbn [below]. apply pos_strict; [done|done|lia|].
  by rewrite lvl_length.
Qed.

Lemma below_mono lv k J1 J2 : (J1 <= J2)%nat -> (below lv k J1 <= below lv k J2)%nat.
Proof. destruct k; [done|apply pos_mono]. Qed.

(** Where a leaf item is among the others. *)
Lemma cont_split lv p z : lv_ok lv -> cont lv !! p = Some z ->
  (forall x, x ∈ take p (cont lv) -> key_lt (in_key x) (in_key z)) /\
  (forall x, x ∈ drop p (cont lv) -> ~ key_lt (in_key x) (in_key z)).
Proof.
  intros Hlv Hz. assert (Hs : keys_sorted (in_key <$> cont lv)).
  { rewrite cont_lvl. unfold lvl. destruct (lv !! 0%nat) as [l|] eqn:E; [by apply (lo_sorted _ Hlv 0)|constructor]. }
  split; intros x (i & Hi)%list_elem_of_lookup.
  - apply lookup_take_Some in Hi as [Hi Hlt]. apply (keys_sorted_lookup _ i p _ _ Hs); [lia|by rewrite list_lookup_fmap, Hi|by rewrite list_lookup_fmap, Hz].
  - rewrite lookup_drop in Hi. apply (key_le_sorted (cont lv) p (p + i)); try done. lia.
Qed.

(** The first keys of parts of a sorted list. *)
Lemma first_keys_sorted (l : level) : (forall n, n ∈ l -> n.2 <> []) -> keys_sorted (in_key <$> items l) ->
  keys_sorted (in_key <$> (up_inode <$> l)).
Proof.
  unfold keys_sorted. induction l as [|n l IH]; intros Hne Hs; [constructor|]. rewrite !fmap_cons.
  rewrite items_cons, fmap_app in Hs. apply StronglySorted_app in Hs as (H1 & _ & H2).
  constructor; [apply IH; [intros m Hm; apply Hne; by right|done]|]. rewrite Forall_forall. intros k Hk.
  apply list_elem_of_fmap in Hk as (x & -> & Hx). apply list_elem_of_fmap in Hx as (m & -> & Hm).
  assert (Hhd : forall m', m' ∈ n :: l -> exists y, y ∈ m'.2 /\ in_key (up_inode m') = in_key y).
  { intros [i xs] Hin. pose proof (Hne _ Hin) as H0. cbn in H0. destruct xs as [|y xs]; [done|]. exists y. split; [by left|done]. }
  destruct (Hhd n ltac:(by left)) as (y & Hy & ->). destruct (Hhd m ltac:(by right)) as (z & Hz & ->).
  apply H1; apply list_elem_of_fmap_2; [done|]. apply elem_of_items. by exists m.
Qed.

Section swap.
Context (lv : list level) (d : nat) (l1 l2 u1 u2 : level) (id P : Z) (es a t : list inode) (e : inode) (news : level).
Context (Hlv : lv_ok lv) (Hsep : sep lv) (Hfull : full lv).
Context (Hl : lv !! d = Some (l1 ++ (id, es) :: l2)).
Context (Hu : lv !! S d = Some (u1 ++ (P, a ++ e :: t) :: u2)).
Context (Hlen : (length l1 = length (items u1) + length a)%nat).
Context (Hcat : items news = es) (Hnews : news <> []) (Hne : forall n, n ∈ news -> n.2 <> []).
(** The keys of the node are those of the items that its subtrees start with. *)
Context (Hfirst : forall i x, es !! i = Some x -> exists z, cont lv !! below lv d (length (items l1) + i) = Some z /\ in_key z = in_key x).

Definition swap_node : list level := <[d := l1 ++ news ++ l2]> (<[S d := u1 ++ (P, a ++ (up_inode <$> news) ++ t) :: u2]> lv).

Lemma swap_lvl : lvl lv d = l1 ++ (id, es) :: l2 /\ lvl lv (S d) = u1 ++ (P, a ++ e :: t) :: u2 /\
  swap_node !! d = Some (l1 ++ news ++ l2) /\ swap_node !! S d = Some (u1 ++ (P, a ++ (up_inode <$> news) ++ t) :: u2).
Proof.
  unfold lvl, swap_node. rewrite Hl, Hu. split; [done|]. split; [done|]. split.
  - apply list_lookup_insert_eq. rewrite length_insert. by apply lookup_lt_Some in Hl.
  - rewrite list_lookup_insert_ne by lia. apply list_lookup_insert_eq. by apply lookup_lt_Some in Hu.
Qed.

Lemma swap_other k : k <> d -> k <> S d -> swap_node !! k = lv !! k.
Proof. intros H1 H2. unfold swap_node. by rewrite !list_lookup_insert_ne. Qed.

Lemma swap_length : length swap_node = length lv.
Proof. unfold swap_node. by rewrite !length_insert. Qed.

Lemma swap_items : items (l1 ++ news ++ l2) = items (l1 ++ (id, es) :: l2).
Proof. by rewrite !items_app, items_cons, Hcat. Qed.

(** A piece and the inode of [es] that it starts with. *)
Lemma piece_head j n : news !! j = Some n -> exists x, es !! width news j = Some x /\ head n.2 = Some x /\ in_key (up_inode n) = in_key x.
Proof.
  intros Hn. pose proof (Hne n ltac:(by eapply list_elem_of_lookup_2)) as Hn0. destruct n as [i xs]; cbn in Hn0.
  destruct xs as [|x xs]; [done|]. exists x. split; [|done]. destruct (split_at _ _ _ Hn) as (A & B & E & <-).
  rewrite <- Hcat, E. rewrite width_app_l, width_all by done. rewrite items_middle. by apply list_lookup_middle.
Qed.

(** The item that a piece starts with. *)
Lemma piece_item j n : news !! j = Some n -> exists z,
  cont lv !! below lv d (length (items l1) + width news j) = Some z /\ in_key z = in_key (up_inode n).
Proof. intros Hn. destruct (piece_head j n Hn) as (x & Hx & _ & ->). by apply Hfirst. Qed.

Lemma es_sorted : keys_sorted (in_key <$> es).
Proof. apply (entry_sorted lv d id es Hlv). eexists. split; [exact Hl|]. apply elem_of_app. right. by left. Qed.

(** Keys before and after the pieces' places. *)
Lemma piece_range j n J x : news !! j = Some n -> items (lvl lv (S d)) !! J = Some x -> (0 < J)%nat ->
  ((J <= length l1)%nat -> ~ key_lt (in_key (up_inode n)) (in_key x)) /\
  ((length l1 < J)%nat -> key_lt (in_key (up_inode n)) (in_key x)).
Proof.
  intros Hn Hx HJ. destruct (piece_item j n Hn) as (z & Hz & <-). destruct (Hsep d J x Hx HJ) as [H1 H2].
  destruct swap_lvl as (E1 & E2 & _). set (p := below lv d (length (items l1) + width news j)) in *.
  assert (Hd : (d < length lv)%nat) by (by apply lookup_lt_Some in Hl).
  assert (Hw : (width news j < length es)%nat) by (destruct (piece_head j n Hn) as (y & Hy & _); by apply lookup_lt_Some in Hy).
  split; intros HJl.
  - apply H2. apply list_elem_of_lookup. exists (p - pos lv d J)%nat. rewrite lookup_drop.
    assert (pos lv d J <= p)%nat; [|by replace (pos lv d J + (p - pos lv d J))%nat with p by lia].
    rewrite pos_S. apply below_mono. rewrite E1, width_app_l by done. pose proof (width_le l1 J). lia.
  - apply H1. apply list_elem_of_lookup. exists p. apply lookup_take_Some. split; [done|].
    rewrite pos_S. assert (HJ2 : (length (items l1) + length es <= width (lvl lv d) J)%nat).
    { rewrite E1. rewrite width_app_r by lia. destruct (J - length l1)%nat as [|m] eqn:Em; [lia|]. rewrite width_cons. cbn. lia. }
    assert (Hle : (width (lvl lv d) J <= length (items (lvl lv d)))%nat) by apply width_le.
    apply below_strict; [done|done|done|]. lia.
Qed.

Lemma swap_up_items : items (u1 ++ (P, a ++ (up_inode <$> news) ++ t) :: u2) = (items u1 ++ a) ++ (up_inode <$> news) ++ (t ++ items u2).
Proof. rewrite items_middle. cbn [snd]. by rewrite <- !app_assoc. Qed.

Lemma old_up_items : items (lvl lv (S d)) = (items u1 ++ a) ++ e :: (t ++ items u2).
Proof. destruct swap_lvl as (_ & -> & _). rewrite items_middle. cbn [snd]. by rewrite <- !app_assoc. Qed.

Lemma E1_length : length (items u1 ++ a) = length l1.
Proof. rewrite length_app. lia. Qed.

Lemma old_at_e : items (lvl lv (S d)) !! length l1 = Some e.
Proof. rewrite old_up_items, <- E1_length. by apply list_lookup_middle. Qed.

Lemma old_before i x : (items u1 ++ a) !! i = Some x -> items (lvl lv (S d)) !! i = Some x.
Proof. intros H. rewrite old_up_items. by apply lookup_app_l_Some. Qed.

Lemma old_after i x : (t ++ items u2) !! i = Some x -> items (lvl lv (S d)) !! S (length l1 + i) = Some x.
Proof.
  intros H. rewrite old_up_items, lookup_app_r by (rewrite E1_length; lia). rewrite E1_length.
  by replace (S (length l1 + i) - length l1)%nat with (S i) by lia.
Qed.

Lemma old_sorted : keys_sorted (in_key <$> items (lvl lv (S d))).
Proof. destruct swap_lvl as (_ & -> & _). exact (lo_sorted _ Hlv _ _ Hu). Qed.

Lemma old_bounded : bounded (items (lvl lv (S d))) (l1 ++ (id, es) :: l2).
Proof. destruct swap_lvl as (_ & -> & _). apply (lo_above _ Hlv _ _ _ Hl Hu). Qed.

Lemma before_piece x n : x ∈ items u1 ++ a -> n ∈ news -> key_lt (in_key x) (in_key (up_inode n)).
Proof.
  intros (i & Hi)%list_elem_of_lookup (j & Hj)%list_elem_of_lookup. pose proof (lookup_lt_Some _ _ _ Hi) as Hlt. rewrite E1_length in Hlt.
  apply (key_lt_le_trans _ (in_key e)).
  - apply (keys_sorted_lookup _ i (length l1) _ _ old_sorted); [lia| |]; rewrite list_lookup_fmap.
    + by rewrite (old_before _ _ Hi).
    + by rewrite old_at_e.
  - apply (piece_range j n (length l1) e Hj old_at_e); lia.
Qed.

Lemma piece_before x n : x ∈ t ++ items u2 -> n ∈ news -> key_lt (in_key (up_inode n)) (in_key x).
Proof.
  intros (i & Hi)%list_elem_of_lookup (j & Hj)%list_elem_of_lookup.
  apply (piece_range j n (S (length l1 + i)) x Hj (old_after _ _ Hi)); lia.
Qed.

Lemma piece_heads_sorted : keys_sorted (in_key <$> (up_inode <$> news)).
Proof. apply first_keys_sorted; [exact Hne|]. rewrite Hcat. exact es_sorted. Qed.

Lemma swap_up_sorted : keys_sorted (in_key <$> items (u1 ++ (P, a ++ (up_inode <$> news) ++ t) :: u2)).
Proof.
  pose proof old_sorted as Hs. rewrite old_up_items in Hs. rewrite swap_up_items. unfold keys_sorted in *.
  rewrite fmap_app, fmap_cons in Hs. rewrite (fmap_app _ (items u1 ++ a)), (fmap_app _ (up_inode <$> news)).
  apply StronglySorted_app in Hs as (H1 & HA & HB).
  apply StronglySorted_inv in HB as [HB _]. apply StronglySorted_app. split; [|split; [done|]].
  - intros x y Hx Hy. apply elem_of_app in Hy as [Hy|Hy].
    + apply list_elem_of_fmap in Hx as (x' & -> & Hx). apply list_elem_of_fmap in Hy as (y' & -> & Hy).
      apply list_elem_of_fmap in Hy as (n & -> & Hn). by apply before_piece.
    + apply H1; [done|]. by right.
  - apply StronglySorted_app. split; [|split; [exact piece_heads_sorted|done]].
    intros x y Hx Hy. apply list_elem_of_fmap in Hy as (y' & -> & Hy).
    apply list_elem_of_fmap in Hx as (x' & -> & Hx). apply list_elem_of_fmap in Hx as (n & -> & Hn). by apply piece_before.
Qed.

(** The keys of the parent's inodes afterwards. *)
Lemma swap_parent_sorted : keys_sorted (in_key <$> a ++ (up_inode <$> news) ++ t).
Proof.
  pose proof swap_up_sorted as Hs. rewrite items_middle, !fmap_app in Hs. unfold keys_sorted in *. cbn [snd] in Hs.
  apply StronglySorted_app in Hs as (_ & _ & Hs). apply StronglySorted_app in Hs as (_ & Hs & _). exact Hs.
Qed.

Lemma in_range_eq es1 es2 i1 i2 k : ((0 < i2)%nat -> (0 < i1)%nat /\ es1 !! i1 = es2 !! i2) -> es1 !! S i1 = es2 !! S i2 ->
  in_range es1 i1 k -> in_range es2 i2 k.
Proof.
  intros H0 H1 [Ha Hb]. split.
  - intros x Hx E. destruct (H0 Hx) as [Hp Ex]. apply Ha; [done|]. by rewrite Ex.
  - intros x E. apply Hb. by rewrite H1.
Qed.

Let lside := items u1 ++ a.
Let rside := t ++ items u2.

(** The nodes on the left keep their bounds: the first piece's key is above them. *)
Lemma swap_left i n k : l1 !! i = Some n -> k ∈ in_key <$> n.2 -> in_range (lside ++ (up_inode <$> news) ++ rside) i k.
Proof.
  pose proof old_bounded as Hb. rewrite old_up_items in Hb. fold lside rside in Hb. assert (El : length lside = length l1) by exact E1_length.
  intros Hi Hk. pose proof (lookup_lt_Some _ _ _ Hi). destruct (Hb i n k) as [Hlo Hhi]; [by apply lookup_app_l_Some|done|]. split.
  - intros x Hx Ex. apply Hlo; [done|]. rewrite lookup_app_l in Ex |- * by lia. done.
  - intros x Ex. destruct (decide (S i < length l1)%nat).
    + apply Hhi. rewrite lookup_app_l in Ex |- * by lia. done.
    + rewrite lookup_app_r in Ex by lia. replace (S i - length lside)%nat with 0%nat in Ex by lia.
      apply lookup_app_Some in Ex as [Ex|[Hx2 _]]; [|rewrite length_fmap in Hx2; destruct news; [done|cbn in Hx2; lia]].
      rewrite list_lookup_fmap in Ex. destruct (news !! 0%nat) as [m|] eqn:Em; [|done]. injection Ex as <-.
      destruct (piece_head 0 m Em) as (y & Hy & _ & ->).
      pose proof (lo_sorted _ Hlv _ _ Hl) as Hs. rewrite items_middle, fmap_app in Hs. apply StronglySorted_app in Hs as (Hs & _).
      apply Hs.
      * apply list_elem_of_fmap in Hk as (z & -> & Hz). apply list_elem_of_fmap_2, elem_of_items. exists n. split; [by eapply list_elem_of_lookup_2|done].
      * apply list_elem_of_fmap_2. cbn [snd]. apply elem_of_app. left. by eapply list_elem_of_lookup_2.
Qed.

(** Every piece lies between its own first key and the next entry's. *)
Lemma swap_piece j n k : news !! j = Some n -> k ∈ in_key <$> n.2 ->
  in_range (lside ++ (up_inode <$> news) ++ rside) (length l1 + j) k.
Proof.
  pose proof old_bounded as Hb. rewrite old_up_items in Hb. fold lside rside in Hb. assert (El : length lside = length l1) by exact E1_length.
  intros Hi Hk. assert (Hkes : k ∈ in_key <$> es).
  { rewrite <- Hcat. apply list_elem_of_fmap in Hk as (z & -> & Hz). apply list_elem_of_fmap_2, elem_of_items. exists n.
    split; [by eapply list_elem_of_lookup_2|done]. }
  assert (Hs : keys_sorted (in_key <$> items news)) by (rewrite Hcat; exact es_sorted).
  destruct (split_at _ _ _ Hi) as (A & B & EAB & HA). split.
  - intros x Hx Ex. rewrite lookup_app_r in Ex by lia. rewrite El in Ex. replace (length l1 + j - length l1)%nat with j in Ex by lia.
    apply lookup_app_Some in Ex as [Ex|[Hx2 _]]; [|rewrite length_fmap in Hx2; apply lookup_lt_Some in Hi; lia].
    rewrite list_lookup_fmap, Hi in Ex. injection Ex as <-. destruct (piece_head j n Hi) as (y & _ & Hy & ->).
    rewrite EAB, items_middle, fmap_app, fmap_app in Hs. apply StronglySorted_app in Hs as (_ & _ & Hs). apply StronglySorted_app in Hs as (_ & Hs & _).
    destruct n as [ni xs]. cbn in Hy, Hs, Hk. destruct xs as [|x0 xs]; [done|]. injection Hy as ->. cbn in Hs, Hk.
    apply StronglySorted_inv in Hs as [_ Hs]. rewrite Forall_forall in Hs. apply elem_of_cons in Hk as [->|Hk]; [apply key_lt_irrefl|].
    intros Hlt. apply (key_lt_irrefl k). apply (key_lt_trans _ (in_key y)); [done|by apply Hs].
  - intros x Ex. rewrite lookup_app_r in Ex by lia. rewrite El in Ex. replace (S (length l1 + j) - length l1)%nat with (S j) in Ex by lia.
    apply lookup_app_Some in Ex as [Ex|[Hx2 Ex]].
    + rewrite list_lookup_fmap in Ex. destruct (news !! S j) as [m|] eqn:Em; [|done]. injection Ex as <-.
      destruct (piece_head (S j) m Em) as (y & _ & Hy & ->). rewrite EAB, items_middle, fmap_app, fmap_app in Hs.
      apply StronglySorted_app in Hs as (_ & _ & Hs). apply StronglySorted_app in Hs as (Hs & _). apply Hs; [done|].
      assert (Hm : B !! 0%nat = Some m).
      { rewrite EAB, lookup_app_r in Em by lia. by replace (S j - length A)%nat with 1%nat in Em by lia. }
      apply list_elem_of_fmap_2, elem_of_items. exists m. split; [by eapply list_elem_of_lookup_2|]. destruct m.2; [done|]. injection Hy as ->. by left.
    + rewrite length_fmap in *. apply lookup_lt_Some in Hi. replace (S j - length news)%nat with 0%nat in Ex by lia.
      destruct (Hb (length l1) (id, es) k) as [_ Hhi]; [by apply list_lookup_middle|done|]. apply Hhi.
      rewrite lookup_app_r by lia. by replace (S (length l1) - length lside)%nat with 1%nat by lia.
Qed.

(** The nodes on the right keep theirs, shifted. *)
Lemma swap_right m n k : l2 !! m = Some n -> k ∈ in_key <$> n.2 ->
  in_range (lside ++ (up_inode <$> news) ++ rside) (length l1 + length news + m) k.
Proof.
  pose proof old_bounded as Hb. rewrite old_up_items in Hb. fold lside rside in Hb. assert (El : length lside = length l1) by exact E1_length.
  intros Hi Hk. destruct (Hb (S (length l1 + m)) n k) as [Hlo Hhi].
  { rewrite lookup_app_r by lia. by replace (S (length l1 + m) - length l1)%nat with (S m) by lia. }
  { done. }
  assert (Hnth : forall m', (lside ++ (up_inode <$> news) ++ rside) !! (length l1 + length news + m')%nat = (lside ++ e :: rside) !! S (length l1 + m')).
  { intros m'. rewrite !lookup_app_r by (rewrite ?length_fmap; lia). rewrite length_fmap, El.
    replace (length l1 + length news + m' - length l1 - length news)%nat with m' by lia. by replace (S (length l1 + m') - length l1)%nat with (S m') by lia. }
  split.
  - intros x Hx Ex. rewrite Hnth in Ex. apply Hlo; [lia|done].
  - intros x Ex. replace (S (length l1 + length news + m)) with (length l1 + length news + S m)%nat in Ex by lia. rewrite Hnth in Ex.
    apply Hhi. by replace (S (S (length l1 + m))) with (S (length l1 + S m)) by lia.
Qed.

Lemma swap_bounded : bounded (items (u1 ++ (P, a ++ (up_inode <$> news) ++ t) :: u2)) (l1 ++ news ++ l2).
Proof.
  rewrite swap_up_items. intros i n k Hi Hk. apply lookup_app_Some in Hi as [Hi|[Hi1 Hi]]; [by apply (swap_left i n k)|].
  apply lookup_app_Some in Hi as [Hi|[Hi2 Hi]].
  - replace i with (length l1 + (i - length l1))%nat by lia. by apply (swap_piece (i - length l1) n k).
  - replace i with (length l1 + length news + (i - length l1 - length news))%nat by lia.
    by apply (swap_right (i - length l1 - length news) n k).
Qed.

Lemma swap_pgids : in_pgid <$> items (u1 ++ (P, a ++ (up_inode <$> news) ++ t) :: u2) = (l1 ++ news ++ l2).*1.
Proof.
  destruct (lo_above _ Hlv _ _ _ Hl Hu) as [Hf _]. rewrite swap_up_items. rewrite items_middle in Hf. cbn [snd] in Hf.
  rewrite <- app_assoc, app_assoc in Hf. cbn [app] in Hf. rewrite fmap_app, fmap_cons, (fmap_app _ l1), fmap_cons in Hf.
  apply app_inj_1 in Hf as [E1 Hf]; [|by rewrite !length_fmap, E1_length]. injection Hf as _ E2.
  rewrite (fmap_app _ (items u1 ++ a)), E1, (fmap_app _ (up_inode <$> news)), E2, (fmap_app _ l1), (fmap_app _ news). do 2 f_equal.
  rewrite <- list_fmap_compose. by apply list_fmap_ext.
Qed.

(** The parent's keys stay in its range. *)
Lemma swap_above_up up2 : lv !! S (S d) = Some up2 -> above up2 (u1 ++ (P, a ++ (up_inode <$> news) ++ t) :: u2).
Proof.
  intros Hup2. destruct (lo_above _ Hlv _ _ _ Hu Hup2) as [Hf Hb]. split; [by rewrite Hf, !fmap_app|].
  intros i n k Hi Hk. assert (Hother : forall n', (u1 ++ (P, a ++ e :: t) :: u2) !! i = Some n' -> k ∈ in_key <$> n'.2 -> in_range (items up2) i k).
  { intros n' Hn' Hk'. by apply (Hb i n'). }
  destruct (decide (i = length u1)) as [->|Hnp].
  2: { apply (Hother n); [|done]. apply lookup_app_Some in Hi as [Hi|[Hl1 Hi]]; [by apply lookup_app_l_Some|].
       rewrite lookup_app_r by done. destruct (i - length u1)%nat eqn:E; [lia|done]. }
  rewrite list_lookup_middle in Hi by done. injection Hi as <-. cbn [snd] in Hk. rewrite !fmap_app, !elem_of_app in Hk.
  assert (HP : (u1 ++ (P, a ++ e :: t) :: u2) !! length u1 = Some (P, a ++ e :: t)) by (by apply list_lookup_middle).
  destruct Hk as [Hk|[Hk|Hk]].
  - apply (Hother _ HP). cbn [snd]. rewrite fmap_app. apply elem_of_app. by left.
  - apply list_elem_of_fmap in Hk as (x & -> & Hx). apply list_elem_of_fmap in Hx as (m & -> & (j & Hj)%list_elem_of_lookup).
    destruct (piece_item j m Hj) as (z & Hz & <-). assert (E2 : lvl lv (S (S d)) = up2) by (unfold lvl; by rewrite Hup2).
    destruct swap_lvl as (E0 & E1 & _). set (p := below lv d (length (items l1) + width news j)) in *.
    assert (Hw : (width news j < length es)%nat) by (destruct (piece_head j m Hj) as (y & Hy & _); by apply lookup_lt_Some in Hy).
    assert (Hp : (pos lv (S d) (length u1) <= p < pos lv (S d) (S (length u1)))%nat).
    { cbn [pos]. rewrite !pos_S. rewrite E1. rewrite width_app_l, width_all by done.
      rewrite (width_Some (u1 ++ (P, a ++ e :: t) :: u2) _ _ HP), width_app_l, width_all by done. cbn [snd]. rewrite E0. split.
      - apply below_mono. rewrite width_app_l by lia. pose proof (width_le l1 (length (items u1))). lia.
      - assert (Hd : (d < length lv)%nat) by (by apply lookup_lt_Some in Hl).
        assert (HJ : (length (items l1) + length es <= width (l1 ++ (id, es) :: l2) (length (items u1) + length (a ++ e :: t)))%nat).
        { rewrite length_app. cbn [length]. rewrite width_app_r by lia.
          replace (length (items u1) + (length a + S (length t)) - length l1)%nat with (S (length t)) by lia. rewrite width_cons. cbn. lia. }
        apply below_strict; [done|done|done|]. rewrite E0. pose proof (width_le (l1 ++ (id, es) :: l2) (length (items u1) + length (a ++ e :: t))). lia. }
    split.
    + intros x Hx Ex. destruct (Hsep (S d) (length u1) x) as [_ H2]; [by rewrite E2|done|]. apply H2.
      apply list_elem_of_lookup. exists (p - pos lv (S d) (length u1))%nat. rewrite lookup_drop. rewrite <- Hz. f_equal. lia.
    + intros x Ex. destruct (Hsep (S d) (S (length u1)) x) as [H1 _]; [by rewrite E2|lia|]. apply H1.
      apply list_elem_of_lookup. exists p. apply lookup_take_Some. split; [done|lia].
  - apply (Hother _ HP). cbn [snd]. rewrite fmap_app, fmap_cons. apply elem_of_app. right. by right.
Qed.

Lemma swap_nodes : exists Y, concat lv ≡ₚ (id, es) :: (P, a ++ e :: t) :: Y /\
  concat swap_node ≡ₚ news ++ (P, a ++ (up_inode <$> news) ++ t) :: Y.
Proof.
  destruct (split_at _ _ _ Hl) as (A & B & E & HA).
  assert (EB : exists B', B = (u1 ++ (P, a ++ e :: t) :: u2) :: B').
  { pose proof Hu as Hu'. rewrite E in Hu'. rewrite lookup_app_r in Hu' by lia.
    replace (S d - length A)%nat with 1%nat in Hu' by lia. destruct B as [|u B']; [done|]. injection Hu' as ->. by exists B'. }
  destruct EB as [B' ->]. assert (Ed : swap_node = A ++ (l1 ++ news ++ l2) :: (u1 ++ (P, a ++ (up_inode <$> news) ++ t) :: u2) :: B').
  { unfold swap_node. rewrite E, !insert_app_r_alt by lia. f_equal. rewrite HA, Nat.sub_diag.
    by replace (S d - d)%nat with 1%nat by lia. }
  exists (concat A ++ l1 ++ l2 ++ u1 ++ u2 ++ concat B'). rewrite Ed, E. rewrite !concat_app. cbn [concat].
  split; solve_Permutation.
Qed.

Lemma swap_ids : exists X, (concat lv).*1 ≡ₚ id :: X /\ (concat swap_node).*1 ≡ₚ news.*1 ++ X.
Proof. destruct swap_nodes as (Y & E1 & E2). exists (P :: Y.*1). rewrite E1, E2, fmap_app. by rewrite !fmap_cons. Qed.

Context (Hids : NoDup news.*1 /\ forall x, x ∈ news.*1 -> x ∉ (concat lv).*1).

Lemma swap_ok : lv_ok swap_node.
Proof.
  pose proof Hlv as [T A S N]. pose proof (lookup_lt_Some _ _ _ Hu) as Hd. destruct swap_lvl as (_ & _ & F1 & F2). split.
  - destruct T as (r & es' & T). rewrite last_lookup in T |- *. rewrite swap_length.
    destruct (decide (Init.Nat.pred (length lv) = Datatypes.S d)) as [E|E].
    + rewrite E, F2. rewrite E in T. rewrite Hu in T. destruct u1 as [|? [|]]; [|done|done].
      injection T as -> <- ->. by eexists _, _.
    + exists r, es'. rewrite swap_other by lia. exact T.
  - intros k up lo Hlo Hup. destruct (decide (k = d)) as [->|Hk].
    + rewrite F1 in Hlo. rewrite F2 in Hup. injection Hlo as <-. injection Hup as <-. split; [apply swap_pgids|apply swap_bounded].
    + destruct (decide (k = Datatypes.S d)) as [->|Hk1].
      * rewrite F2 in Hlo. injection Hlo as <-. rewrite swap_other in Hup by lia. by apply swap_above_up.
      * rewrite swap_other in Hlo by done. destruct (decide (Datatypes.S k = d)) as [Ek|].
        -- rewrite Ek, F1 in Hup. injection Hup as <-. rewrite <- Ek in Hl. pose proof (A _ _ _ Hlo Hl) as Hab.
           unfold above in *. by rewrite swap_items.
        -- rewrite swap_other in Hup by lia. by apply (A k).
  - intros k l Hk. destruct (decide (k = d)) as [->|].
    + rewrite F1 in Hk. injection Hk as <-. rewrite swap_items. by apply (S d).
    + destruct (decide (k = Datatypes.S d)) as [->|]; [rewrite F2 in Hk; injection Hk as <-; apply swap_up_sorted|].
      rewrite swap_other in Hk by done. by apply (S k).
  - destruct swap_ids as (X & E1 & E2). rewrite E2. rewrite E1 in N. apply NoDup_cons in N as [_ N]. destruct Hids as [H1 H2].
    apply NoDup_app. split; [done|]. split; [|done]. intros x Hx HX. apply (H2 x Hx). rewrite E1. by right.
Qed.

(** *** Positions *)

Lemma swap_lvl_other k : k <> d -> k <> S d -> lvl swap_node k = lvl lv k.
Proof. intros H1 H2. unfold lvl. by rewrite swap_other. Qed.

Lemma swap_lvl_d : lvl swap_node d = l1 ++ news ++ l2.
Proof. unfold lvl. destruct swap_lvl as (_ & _ & -> & _). done. Qed.

Lemma swap_lvl_S : lvl swap_node (S d) = u1 ++ (P, a ++ (up_inode <$> news) ++ t) :: u2.
Proof. unfold lvl. destruct swap_lvl as (_ & _ & _ & ->). done. Qed.

Lemma swap_pos_below J : below swap_node d J = below lv d J.
Proof. apply pos_below. intros j Hj. apply swap_lvl_other; lia. Qed.

Lemma swap_pos_l J : (J <= length l1)%nat -> pos swap_node d J = pos lv d J.
Proof.
  intros HJ. rewrite !pos_S, swap_pos_below. destruct swap_lvl as (-> & _). rewrite swap_lvl_d. by rewrite !width_app_l.
Qed.

Lemma swap_pos_r J : pos swap_node d (length l1 + length news + J) = pos lv d (S (length l1 + J)).
Proof.
  rewrite !pos_S, swap_pos_below. destruct swap_lvl as (-> & _). rewrite swap_lvl_d. f_equal.
  rewrite app_assoc, width_app_r by (rewrite length_app; lia). rewrite (width_app_r l1) by lia. rewrite length_app, items_app, length_app, Hcat.
  replace (length l1 + length news + J - (length l1 + length news))%nat with J by lia.
  replace (S (length l1 + J) - length l1)%nat with (S J) by lia. rewrite width_cons. cbn. lia.
Qed.

Lemma swap_pos_S J : pos swap_node (S d) J = pos lv (S d) J.
Proof.
  cbn [pos]. destruct swap_lvl as (_ & -> & _). rewrite swap_lvl_S. destruct (decide (J <= length u1)%nat) as [HJ|HJ].
  - rewrite !width_app_l by lia. apply swap_pos_l. pose proof (width_le u1 J). lia.
  - rewrite !width_app_r by lia. replace (J - length u1)%nat with (S (J - length u1 - 1)) by lia. rewrite !width_cons.
    cbn [snd]. rewrite !length_app, length_fmap. cbn [length]. set (w := width u2 _).
    replace (length (items u1) + (length a + (length news + length t) + w))%nat with (length l1 + length news + (length t + w))%nat by lia.
    rewrite swap_pos_r. f_equal. lia.
Qed.

Lemma swap_cont : cont swap_node = cont lv.
Proof.
  rewrite !cont_lvl. destruct (decide (0%nat = d)) as [E|E]; [|by rewrite swap_lvl_other by lia].
  rewrite E, swap_lvl_d, swap_items. by destruct swap_lvl as (-> & _).
Qed.

Lemma swap_sep : sep swap_node.
Proof.
  intros k J x Hx HJ. rewrite swap_cont. destruct (Nat.lt_trichotomy k d) as [Hk|[->|Hk]].
  - rewrite (pos_ext lv swap_node k) by (intros j Hj; apply swap_lvl_other; lia). apply Hsep; [|done].
    destruct (decide (S k = d)) as [Ek|]; [|by rewrite swap_lvl_other in Hx by lia].
    rewrite Ek in Hx |- *. rewrite swap_lvl_d, swap_items in Hx. by destruct swap_lvl as (-> & _).
  - rewrite swap_lvl_S, swap_up_items in Hx. apply lookup_app_Some in Hx as [Hx|[HJ1 Hx]].
    + pose proof (lookup_lt_Some _ _ _ Hx) as Hlt. rewrite E1_length in Hlt. rewrite swap_pos_l by lia.
      apply Hsep; [by apply old_before|done].
    + rewrite E1_length in HJ1, Hx. apply lookup_app_Some in Hx as [Hx|[HJ2 Hx]].
      * rewrite list_lookup_fmap in Hx. destruct (news !! (J - length l1)%nat) as [n|] eqn:En; [|done]. injection Hx as <-.
        destruct (piece_item _ n En) as (z & Hz & <-). destruct (cont_split lv _ z Hlv Hz) as [H1 H2].
        assert (Ep : pos swap_node d J = below lv d (length (items l1) + width news (J - length l1))); [|by rewrite Ep].
        rewrite pos_S, swap_pos_below, swap_lvl_d. f_equal. rewrite width_app_r by done.
        rewrite width_app_l; [done|]. apply lookup_lt_Some in En. lia.
      * rewrite length_fmap in HJ2, Hx. replace J with (length l1 + length news + (J - length l1 - length news))%nat by lia.
        rewrite swap_pos_r. apply Hsep; [by apply old_after|lia].
  - rewrite (pos_ext_high lv swap_node (S d) k); [|lia|exact swap_pos_S|intros j Hj; apply swap_lvl_other; lia].
    apply Hsep; [|done]. by rewrite swap_lvl_other in Hx by lia.
Qed.

(** *** Nodes and inodes afterwards *)

Definition swapes (x : Z) (xs : list inode) : list inode := if decide (x = P) then a ++ (up_inode <$> news) ++ t else xs.

Lemma swap_self : entry lv d id es /\ entry lv (S d) P (a ++ e :: t) /\ in_pgid e = id.
Proof.
  split; [|split].
  - eexists. split; [exact Hl|]. apply elem_of_app. right. by left.
  - eexists. split; [exact Hu|]. apply elem_of_app. right. by left.
  - exact (drop_pgid lv d l1 l2 u1 u2 id P es a t e Hlv Hl Hu Hlen).
Qed.

Lemma swap_entry_to k x xs : entry lv k x xs -> x <> id -> entry swap_node k x (swapes x xs).
Proof.
  intros He Hx. destruct swap_self as (Hid & HP & _). destruct swap_lvl as (_ & _ & F1 & F2). unfold swapes.
  destruct (decide (x = P)) as [->|HxP].
  { destruct (entry_inj _ _ _ _ _ _ Hlv He HP) as [-> _]. eexists. split; [exact F2|]. apply elem_of_app. right. by left. }
  destruct He as (l & Hk & Hin). destruct (decide (k = d)) as [->|Hkd].
  { rewrite Hl in Hk. injection Hk as <-. eexists. split; [exact F1|]. rewrite !elem_of_app. rewrite elem_of_app, elem_of_cons in Hin.
    destruct Hin as [?|[E|?]]; [by left|congruence|by do 2 right]. }
  destruct (decide (k = S d)) as [->|HkS].
  { rewrite Hu in Hk. injection Hk as <-. eexists. split; [exact F2|]. rewrite elem_of_app, elem_of_cons in Hin |- *.
    destruct Hin as [?|[E|?]]; [by left|congruence|by do 2 right]. }
  exists l. split; [by rewrite swap_other|done].
Qed.

Lemma swap_entry_new n : n ∈ news -> entry swap_node d n.1 n.2.
Proof.
  intros Hn. destruct swap_lvl as (_ & _ & F1 & _). eexists. split; [exact F1|]. rewrite <- surjective_pairing, !elem_of_app. right. by left.
Qed.

Lemma swap_entry_from k x xs' : entry swap_node k x xs' -> (k = d /\ (x, xs') ∈ news) \/
  (x <> id /\ exists xs, entry lv k x xs /\ xs' = swapes x xs).
Proof.
  intros He. destruct swap_ids as (X & E1 & E2). assert (Hx : x ∈ news.*1 ++ X) by (rewrite <- E2; apply elem_of_level_ids; eauto).
  apply elem_of_app in Hx as [Hx|Hx].
  - left. apply list_elem_of_fmap in Hx as ([y ys] & -> & Hn). pose proof (swap_entry_new _ Hn) as Hy. cbn in *.
    destruct (entry_inj _ _ _ _ _ _ swap_ok He Hy) as [-> ->]. done.
  - right. pose proof (lo_ids _ Hlv) as N. rewrite E1 in N. apply NoDup_cons in N as [N _]. assert (Hxi : x <> id) by (by intros ->).
    split; [done|]. assert (Hx2 : x ∈ (concat lv).*1) by (rewrite E1; by right). apply elem_of_level_ids in Hx2 as (k' & xs & He').
    pose proof (swap_entry_to _ _ _ He' Hxi) as He2. destruct (entry_inj _ _ _ _ _ _ swap_ok He He2) as [-> ->]. by exists xs.
Qed.

Lemma swap_child_to k Q qs i x : child_of lv k Q qs i x -> x <> id -> Q <> id -> child_of swap_node k Q (swapes Q qs) i x.
Proof.
  intros (HQ & Hi & Hx) Hxi HQi. destruct swap_self as (_ & HP & He). split; [by apply swap_entry_to|]. split; [|done].
  unfold swapes. destruct (decide (Q = P)) as [->|]; [|done]. destruct (entry_inj _ _ _ _ _ _ Hlv HQ HP) as [_ ->].
  apply elem_of_app in Hi as [Hi|Hi]; [apply elem_of_app; by left|]. apply elem_of_cons in Hi as [->|Hi]; [congruence|].
  rewrite !elem_of_app. by do 2 right.
Qed.

Lemma swap_child_new n : n ∈ news -> child_of swap_node d P (a ++ (up_inode <$> news) ++ t) (up_inode n) n.1.
Proof.
  intros Hn. destruct swap_lvl as (_ & _ & _ & F2). split; [|split; [|done]].
  - eexists. split; [exact F2|]. apply elem_of_app. right. by left.
  - rewrite !elem_of_app. right. left. by apply list_elem_of_fmap_2.
Qed.

Lemma swap_child_from k Q qs i x : child_of swap_node k Q qs i x ->
  (exists n, n ∈ news /\ x = n.1 /\ i = up_inode n) \/ (exists Q' qs', child_of lv k Q' qs' i x).
Proof.
  intros (HQ & Hi & Hx). destruct swap_self as (Hid & HP & He). apply swap_entry_from in HQ as [[Ek Hn]|(HQi & qs0 & HQ & ->)].
  - right. exists id, es. split; [by rewrite Ek|]. split; [|done]. rewrite <- Hcat. apply elem_of_items. by exists (Q, qs).
  - unfold swapes in Hi. destruct (decide (Q = P)) as [->|]; [|right; by exists Q, qs0].
    destruct (entry_inj _ _ _ _ _ _ Hlv HQ HP) as [Ek ->].
    rewrite !elem_of_app in Hi. destruct Hi as [Hi|[Hi|Hi]].
    + right. exists P, (a ++ e :: t). split; [done|]. split; [|done]. apply elem_of_app. by left.
    + left. apply list_elem_of_fmap in Hi as (n & -> & Hn). by exists n.
    + right. exists P, (a ++ e :: t). split; [done|]. split; [|done]. apply elem_of_app. right. by right.
Qed.
End swap.

(** ** Replacing the root *)

Section top.
Context (A : list level) (id : Z) (es : list inode).
Let lv : list level := A ++ [[(id, es)]].
Context (Hlv : lv_ok lv).

Lemma top_lvl : lv !! length A = Some [(id, es)] /\ forall k, (k < length A)%nat -> lv !! k = A !! k.
Proof. unfold lv. split; [by apply list_lookup_middle|]. intros k Hk. by rewrite lookup_app_l. Qed.

Lemma top_ids : (concat lv).*1 = (concat A).*1 ++ [id].
Proof. unfold lv. by rewrite concat_app, fmap_app. Qed.

Lemma top_lookup k l es' id' : (A ++ [[(id', es')]]) !! k = Some l -> ((k < length A)%nat /\ lv !! k = Some l) \/ (k = length A /\ l = [(id', es')]).
Proof.
  intros H. destruct top_lvl as [_ T]. destruct (decide (k < length A)%nat) as [Hk|Hk].
  - left. split; [done|]. rewrite lookup_app_l in H by done. by rewrite T.
  - right. pose proof (lookup_lt_Some _ _ _ H) as Hl. rewrite length_app in Hl. cbn in Hl. assert (k = length A) as -> by lia.
    rewrite list_lookup_middle in H by done. by injection H as <-.
Qed.

(** Under another name. *)
Lemma rename_ok id' : id' ∉ (concat A).*1 -> lv_ok (A ++ [[(id', es)]]).
Proof.
  intros Hid. pose proof Hlv as [T Ab S N]. destruct top_lvl as [TA Tk]. split.
  - exists id', es. by rewrite last_snoc.
  - intros d up lo Hlo Hup. apply top_lookup in Hlo as [[Hk Hlo]|[-> ->]].
    2: { apply lookup_lt_Some in Hup. rewrite length_app in Hup. cbn in Hup. lia. }
    apply top_lookup in Hup as [[_ Hup]|[Ek ->]]; [by apply (Ab d)|].
    change (above [(id', es)] lo) with (above [(id, es)] lo). apply (Ab d); [done|by rewrite Ek].
  - intros d l Hl. apply top_lookup in Hl as [[_ Hl]|[-> ->]]; [by apply (S d)|]. apply (S (length A) [(id, es)]). exact TA.
  - rewrite concat_app, fmap_app. cbn. rewrite top_ids in N. apply NoDup_app in N as (N & _ & _). apply NoDup_app.
    split; [done|]. split; [|apply NoDup_singleton]. intros x Hx Hx'. by apply list_elem_of_singleton in Hx' as ->.
Qed.

Lemma rename_entry id' k x xs : entry (A ++ [[(id', es)]]) k x xs <-> (k = length A /\ x = id' /\ xs = es) \/ ((k < length A)%nat /\ entry lv k x xs).
Proof.
  destruct top_lvl as [_ Tk]. split.
  - intros (l & Hl & Hin). apply top_lookup in Hl as [[Hk Hl]|[-> ->]]; [right; split; [done|by exists l]|left].
    apply list_elem_of_singleton in Hin. by injection Hin as -> ->.
  - intros [(-> & -> & ->)|(Hk & l & Hl & Hin)].
    + exists [(id', es)]. split; [by apply list_lookup_middle|by left].
    + exists l. split; [|done]. rewrite lookup_app_l by done. by rewrite <- Tk.
Qed.

Lemma rename_width id' k : lvl (A ++ [[(id', es)]]) k = lvl lv k \/ (k = length A /\ lvl lv k = [(id, es)] /\ lvl (A ++ [[(id', es)]]) k = [(id', es)]).
Proof.
  unfold lvl. destruct top_lvl as [TA Tk]. destruct (decide (k < length A)%nat) as [Hk|Hk].
  - left. rewrite lookup_app_l by done. by rewrite Tk.
  - destruct (decide (k = length A)) as [->|Hk2].
    + right. rewrite TA, list_lookup_middle by done. done.
    + left. unfold lv. rewrite !lookup_ge_None_2; [done| |]; rewrite length_app; cbn; lia.
Qed.

Lemma rename_sep id' : sep lv -> sep (A ++ [[(id', es)]]).
Proof.
  assert (Hi : forall k, items (lvl (A ++ [[(id', es)]]) k) = items (lvl lv k)).
  { intros k. destruct (rename_width id' k) as [->|(_ & -> & ->)]; done. }
  assert (Hw : forall k J, width (lvl (A ++ [[(id', es)]]) k) J = width (lvl lv k) J).
  { intros k J. destruct (rename_width id' k) as [->|(_ & -> & ->)]; [done|]. unfold width. by destruct J. }
  assert (Hp : forall k J, pos (A ++ [[(id', es)]]) k J = pos lv k J).
  { induction k as [|k IH]; intros J; cbn [pos]; rewrite Hw; [done|]. apply IH. }
  intros Hs k J x Hx HJ. rewrite cont_lvl, Hi, <- cont_lvl, Hp. rewrite Hi in Hx. by apply Hs.
Qed.

(** A root above the root. *)
Lemma extend_ok r : r ∉ (concat lv).*1 -> lv_ok (lv ++ [[(r, [up_inode (id, es)])]]).
Proof.
  intros Hr. pose proof Hlv as [T Ab S N]. destruct top_lvl as [TA Tk]. assert (Hlen : length lv = Datatypes.S (length A)).
  { unfold lv. rewrite length_app. cbn. lia. }
  assert (Hlk : forall k l, (lv ++ [[(r, [up_inode (id, es)])]]) !! k = Some l -> lv !! k = Some l \/ (k = length lv /\ l = [(r, [up_inode (id, es)])])).
  { intros k l H. destruct (decide (k < length lv)%nat) as [Hk|Hk]; [left; by rewrite lookup_app_l in H|right].
    pose proof (lookup_lt_Some _ _ _ H) as Hl. rewrite length_app in Hl. cbn in Hl. assert (k = length lv) as -> by lia.
    rewrite list_lookup_middle in H by done. by injection H as <-. }
  split.
  - exists r, [up_inode (id, es)]. by rewrite last_snoc.
  - intros d up lo Hlo Hup. apply Hlk in Hlo as [Hlo|[-> ->]].
    2: { apply lookup_lt_Some in Hup. rewrite length_app in Hup. cbn in Hup. lia. }
    apply Hlk in Hup as [Hup|[Ek ->]]; [by apply (Ab d)|]. assert (d = length A) as -> by lia. rewrite TA in Hlo. injection Hlo as <-.
    split; [done|]. intros i n k Hi Hk. split; intros x; [intros Hx|]; intros Ex.
    + destruct i; [lia|done].
    + destruct i; done.
  - intros d l Hl. apply Hlk in Hl as [Hl|[-> ->]]; [by apply (S d)|]. cbn. repeat constructor.
  - rewrite concat_app, fmap_app. cbn. apply NoDup_app. split; [done|]. split; [|apply NoDup_singleton].
    intros x Hx Hx'. by apply list_elem_of_singleton in Hx' as ->.
Qed.

Lemma extend_sep r : sep lv -> sep (lv ++ [[(r, [up_inode (id, es)])]]).
Proof.
  intros Hs k J x Hx HJ. destruct (decide (S k < length lv)%nat) as [Hk|Hk].
  - assert (El : forall j, (j < length lv)%nat -> lvl (lv ++ [[(r, [up_inode (id, es)])]]) j = lvl lv j).
    { intros j Hj. unfold lvl. by rewrite lookup_app_l. }
    rewrite (pos_ext lv _ k) by (intros j Hj; apply El; lia). rewrite cont_lvl, El, <- cont_lvl by lia. rewrite El in Hx by lia. by apply Hs.
  - exfalso. destruct (lvl_items _ _ _ _ Hx) as (l & Hl & El). rewrite El in Hx. rewrite lookup_app_r in Hl by lia.
    destruct (S k - length lv)%nat as [|m]; [|done]. injection Hl as <-. destruct J; [lia|]. done.
Qed.
End top.
