(* ===== verification/BoltBucket.v ===== *)
(** A bolt bucket in a transaction: its invariant, and what Put, Delete and Get do.

    [inv lv b] relates the objects of BoltTx to the levels of BoltLevels: each node of a
    level is in memory, linked to its parent and to its children in memory, or on a page.
    Materialising nodes changes the objects and not the levels. *)

From Stdlib Require Import ZArith Lia.
From stdpp Require Import base numbers option list sorting gmap fin_sets.
From S2P Require Import Prelude GoSort GoBytes BoltFreelist BoltNode BoltCursor BoltTx BoltLevels.
#[local] Open Scope Z_scope.

(** ** The invariant *)

(** The longest value that the space theorems allow, far below MaxValueSize: four such
    values fit in the memory that a page is written through. *)
Definition valueLimit : Z := 2 ^ 28.

Record item_valid (leaf : bool) (x : inode) : Prop := {
  iv_key : in_key x <> [];
  iv_keylen : Z.of_nat (length (in_key x)) <= MaxKeySize;
  iv_flags : 0 <= in_flags x < 2 ^ 32;
  iv_leaf : leaf = true -> in_pgid x = 0 /\ Z.of_nat (length (in_value x)) <= valueLimit;
  iv_branch : leaf = false -> in_flags x = 0 /\ in_value x = [] /\ 0 < in_pgid x < 2 ^ 64
}.

(** Page [p] has id [id] and holds [es]. *)
Record reads (p : page) (leaf : bool) (id : Z) (es : list inode) : Prop := {
  rd_read : BoltNode.read p node0 = Ret (mkNode leaf false false (in_key <$> head es) id es);
  rd_count : 0 <= pg_count p < 2 ^ 16;
  rd_type : bad_type (PPage p) = false
}.

(** Where a bucket finds a page: an inline bucket has only its own. *)
Definition src (b : txb) (id : Z) : option page :=
  match t_page b with Some p => Some p | None => t_pages b !! id end.

(** The object of a node in memory. *)
Record dirty (lv : list level) (b : txb) (d : nat) (id : Z) (es : list inode) (o : nobj) : Prop := {
  dr_leaf : isLeaf (o_node o) = (d =? 0)%nat;
  dr_inodes : inodes (o_node o) = es;
  dr_pgid : n_pgid (o_node o) = id;
  dr_spilled : spilled (o_node o) = false;
  dr_parent : match o_parent o with
              | None => S d = length lv /\ n_key (o_node o) <> Some []
              | Some q => exists P ps e, child_of lv d P ps e id /\ t_nodes b !! P = Some q /\
                            n_key (o_node o) = Some (in_key e)
              end;
  dr_nodup : NoDup (o_children o);
  dr_children : forall c, c ∈ o_children o <-> (0 < d)%nat /\ exists e, e ∈ es /\ t_nodes b !! in_pgid e = Some c
}.

(** A node on a page starts with the key that its parent has for it. *)
Definition clean (lv : list level) (b : txb) (d : nat) (id : Z) (es : list inode) : Prop :=
  exists p, src b id = Some p /\ reads p (d =? 0)%nat id es /\
    forall P ps e, child_of lv d P ps e id -> in_key <$> head es = Some (in_key e).

Record inv (lv : list level) (b : txb) : Prop := {
  in_lv : lv_ok lv;
  in_root : is_root lv (t_root b);
  in_rootNode : t_rootNode b = t_nodes b !! t_root b;
  in_inline : if t_root b =? 0 then is_Some (t_page b) /\ length lv = 1%nat else t_page b = None;
  in_open : t_open b = true /\ t_writable b = true;
  in_dirty : forall id q, t_nodes b !! id = Some q ->
    exists d es o, entry lv d id es /\ t_heap b !! q = Some o /\ dirty lv b d id es o;
  in_clean : forall d id es, entry lv d id es -> t_nodes b !! id = None -> clean lv b d id es;
  in_items : forall d id es, entry lv d id es -> Forall (item_valid (d =? 0)%nat) es
}.

(** Every branch has at least two children, but for the one that [thin] exempts. *)
Definition arity (lv : list level) (thin : option Z) : Prop :=
  forall d id es, entry lv (S d) id es -> ((if decide (thin = Some id) then 1 else 2) <= length es)%nat.

Lemma dirty_inj lv b id1 id2 q : inv lv b -> t_nodes b !! id1 = Some q -> t_nodes b !! id2 = Some q -> id1 = id2.
Proof.
  intros H H1 H2. destruct (in_dirty _ _ H _ _ H1) as (d1 & es1 & o1 & _ & Ho1 & D1).
  destruct (in_dirty _ _ H _ _ H2) as (d2 & es2 & o2 & _ & Ho2 & D2). rewrite Ho1 in Ho2. injection Ho2 as <-.
  rewrite <- (dr_pgid _ _ _ _ _ _ D1). by apply (dr_pgid _ _ _ _ _ _ D2).
Qed.

Lemma dirty_at lv b d id es q : inv lv b -> t_nodes b !! id = Some q -> entry lv d id es ->
  exists o, get q b = Ret o /\ t_heap b !! q = Some o /\ dirty lv b d id es o.
Proof.
  intros H Hq He. destruct (in_dirty _ _ H _ _ Hq) as (d' & es' & o & He' & Ho & D).
  destruct (entry_inj _ _ _ _ _ _ (in_lv _ _ H) He He') as [<- <-]. exists o. unfold get. by rewrite Ho.
Qed.

Lemma parent_dirty lv b d P ps e id q : inv lv b -> child_of lv d P ps e id -> t_nodes b !! id = Some q ->
  is_Some (t_nodes b !! P).
Proof.
  intros H Hc Hq. pose proof Hc as (HP & Hin & Hid).
  destruct (has_child _ _ _ _ _ (in_lv _ _ H) HP Hin) as [es Hes]. rewrite Hid in Hes.
  destruct (dirty_at _ _ _ _ _ _ H Hq Hes) as (o & _ & _ & D). pose proof (dr_parent _ _ _ _ _ _ D) as Hp.
  destruct (o_parent o) as [pq|].
  - destruct Hp as (P' & ps' & e' & Hc' & HP' & _).
    destruct (parent_unique _ _ _ _ _ _ _ _ _ _ (in_lv _ _ H) Hc Hc') as (_ & -> & _). eauto.
  - destruct HP as (up & Hup & _). apply lookup_lt_Some in Hup. lia.
Qed.

(** ** What materialising keeps *)

(** [b'] has the nodes of [b] in memory, the same but for their lists of children, and
    nothing else has changed but what is in memory. *)
Record ext (b b' : txb) : Prop := {
  ex_root : t_root b' = t_root b;
  ex_page : t_page b' = t_page b;
  ex_open : t_open b' = t_open b /\ t_writable b' = t_writable b;
  ex_tx : t_pages b' = t_pages b /\ t_hwm b' = t_hwm b /\ t_free b' = t_free b /\ t_datasz b' = t_datasz b;
  ex_nodes : t_nodes b ⊆ t_nodes b';
  ex_heap : forall q o, t_heap b !! q = Some o ->
    exists o', t_heap b' !! q = Some o' /\ o_node o' = o_node o /\ o_parent o' = o_parent o
}.

Lemma ext_refl b : ext b b.
Proof. split; try done. intros q o Ho. by exists o. Qed.

Lemma ext_trans b1 b2 b3 : ext b1 b2 -> ext b2 b3 -> ext b1 b3.
Proof.
  intros [A1 A2 A3 A4 A5 A6] [B1 B2 B3 B4 B5 B6]. split; try congruence.
  - destruct A3, B3. split; congruence.
  - destruct A4 as (?&?&?&?), B4 as (?&?&?&?). split_and!; congruence.
  - by transitivity (t_nodes b2).
  - intros q o Ho. destruct (A6 _ _ Ho) as (o' & Ho' & ? & ?). destruct (B6 _ _ Ho') as (o'' & ? & ? & ?).
    exists o''. split_and!; congruence.
Qed.

Lemma new_ptr_fresh b : t_heap b !! new_ptr b = None.
Proof. apply not_elem_of_dom. unfold new_ptr. apply is_fresh. Qed.

(** The node read from the page of [id]. *)
Definition read_node (d : nat) (id : Z) (es : list inode) : node :=
  mkNode (d =? 0)%nat false false (in_key <$> head es) id es.

(** Where a new node is linked: below its parent in memory, or as the root. *)
Definition linked (lv : list level) (b : txb) (d : nat) (id : Z) (parent : option nat) : Prop :=
  match parent with
  | None => S d = length lv
  | Some pq => exists P ps e, child_of lv d P ps e id /\ t_nodes b !! P = Some pq
  end.

(** The state after a node has been created. *)
Definition with_node (q : nat) (d : nat) (id : Z) (es : list inode) (parent : option nat) (b : txb) : txb :=
  let b1 := set q (mkNobj (read_node d id es) parent []) b in
  let b2 := match parent with
            | None => s_root (t_root b) (Some q) b1
            | Some p => match t_heap b !! p with
                        | Some o => set p (o_setChildren (o_children o ++ [q]) o) b1
                        | None => b1
                        end
            end in
  s_nodes (<[id := q]> (t_nodes b)) b2.

(** *** The heap *)

Lemma get_Some q b o : t_heap b !! q = Some o -> get q b = Ret o.
Proof. intros H. unfold get. by rewrite H. Qed.

Lemma update_Some q f b o : t_heap b !! q = Some o -> update q f b = Ret (set q (f o) b).
Proof. intros H. unfold update. by rewrite (get_Some _ _ _ H). Qed.

Lemma page_at_src b id p : src b id = Some p ->
  (match t_page b with Some p => Ret p | None => page_at id b end : outcome bolt_error page) = Ret p.
Proof. unfold src, page_at. destruct (t_page b); intros H; [by injection H as ->|by rewrite H]. Qed.

Lemma bucket_node_new lv b d id es parent : inv lv b -> entry lv d id es -> t_nodes b !! id = None ->
  linked lv b d id parent ->
  bucket_node id parent b = Ret (new_ptr b, with_node (new_ptr b) d id es parent b).
Proof.
  intros H He Hid Hl. destruct (in_open _ _ H) as [_ Hw].
  destruct (in_clean _ _ H _ _ _ He Hid) as (p & Hp & Hr & _). apply page_at_src in Hp.
  unfold bucket_node. rewrite Hw, Hid. cbn [negb]. set (q := new_ptr b) in *.
  destruct parent as [pq|]; cbn [linked] in Hl.
  - destruct Hl as (P & ps & e & Hc & HP). destruct (dirty_at _ _ _ _ _ _ H HP (proj1 Hc)) as (o & _ & Ho & _).
    assert (Hne : q <> pq) by (intros <-; unfold q in Ho; by rewrite new_ptr_fresh in Ho).
    rewrite (update_Some pq _ _ o) by (cbn; by rewrite lookup_insert_ne).
    cbn [mbind outcome_bind]. change (page_at id (set pq _ _)) with (page_at id b).
    change (t_page (set pq _ _)) with (t_page b). rewrite Hp.
    cbn [mbind outcome_bind]. rewrite (rd_read _ _ _ _ Hr). cbn [lift mbind outcome_bind].
    erewrite update_Some by (cbn; rewrite lookup_insert_ne by done; apply lookup_insert_eq).
    cbn [mbind outcome_bind]. unfold with_node. rewrite Ho. do 2 f_equal. unfold set, s_nodes, s_heap; cbn. f_equal.
    rewrite insert_insert_ne by done. by rewrite insert_insert_eq.
  - cbn [mbind outcome_bind]. change (page_at id (s_root _ _ _)) with (page_at id b).
    change (t_page (s_root _ _ _)) with (t_page b). rewrite Hp.
    cbn [mbind outcome_bind]. rewrite (rd_read _ _ _ _ Hr). cbn [lift mbind outcome_bind].
    erewrite update_Some by (cbn; apply lookup_insert_eq).
    cbn [mbind outcome_bind]. unfold with_node. do 2 f_equal. unfold set, s_nodes, s_heap, s_root; cbn.
    by rewrite insert_insert_eq.
Qed.

Section with_node.
Context (lv : list level) (b : txb) (d : nat) (id : Z) (es : list inode) (parent : option nat).
Context (H : inv lv b) (He : entry lv d id es) (Hid : t_nodes b !! id = None) (Hl : linked lv b d id parent).
Let q := new_ptr b.
Let b' := with_node q d id es parent b.

Lemma parent_object pq : parent = Some pq -> exists o, t_heap b !! pq = Some o.
Proof.
  intros E. unfold linked in Hl. rewrite E in Hl. destruct Hl as (P & ps & e & Hc & HP).
  destruct (dirty_at _ _ _ _ _ _ H HP (proj1 Hc)) as (o & _ & Ho & _). by exists o.
Qed.

Lemma with_node_old x o : t_heap b !! x = Some o ->
  t_heap b' !! x = Some (if decide (parent = Some x) then o_setChildren (o_children o ++ [q]) o else o).
Proof.
  intros Ho. assert (Hq : q <> x) by (intros <-; unfold q in Ho; by rewrite new_ptr_fresh in Ho).
  pose proof parent_object as Hpar. unfold b', with_node. destruct parent as [pq|]; cbn.
  - destruct (Hpar pq eq_refl) as [po Hpo]. rewrite Hpo. cbn. destruct (decide (Some pq = Some x)) as [[= ->]|Hne].
    + rewrite lookup_insert_eq. congruence.
    + rewrite !lookup_insert_ne by congruence. done.
  - by rewrite lookup_insert_ne.
Qed.

Lemma with_node_new : t_heap b' !! q = Some (mkNobj (read_node d id es) parent []).
Proof.
  pose proof parent_object as Hpar. unfold b', with_node. destruct parent as [pq|]; cbn; [|apply lookup_insert_eq].
  destruct (Hpar pq eq_refl) as [po Hpo]. rewrite Hpo. cbn.
  rewrite lookup_insert_ne; [apply lookup_insert_eq|]. intros ->. unfold q in Hpo. by rewrite new_ptr_fresh in Hpo.
Qed.

Lemma with_node_nodes : t_nodes b' = <[id := q]> (t_nodes b).
Proof. unfold b', with_node. by destruct parent. Qed.

Lemma with_node_ext : ext b b'.
Proof.
  split; try by (unfold b', with_node; destruct parent as [pq|]; [destruct (t_heap b !! pq)|]).
  - rewrite with_node_nodes. by apply insert_subseteq.
  - intros x o Ho. rewrite (with_node_old _ _ Ho). eexists. split; [reflexivity|]. by destruct (decide _).
Qed.

(** Only the node linked to has the new one among its inodes. *)
Lemma new_child d' id' es' x e : (0 < d')%nat -> entry lv d' id' es' -> t_nodes b !! id' = Some x ->
  e ∈ es' -> in_pgid e = id -> parent = Some x.
Proof.
  intros Hd He' Hx Hin Eid. destruct d' as [|d']; [lia|].
  assert (Hc : child_of lv d' id' es' e id) by done. unfold linked in Hl. destruct parent as [pq|].
  - destruct Hl as (P & ps & e2 & Hc2 & HP).
    destruct (parent_unique _ _ _ _ _ _ _ _ _ _ (in_lv _ _ H) Hc Hc2) as (_ & -> & _). congruence.
  - destruct (has_child _ _ _ _ _ (in_lv _ _ H) He' Hin) as [es2 Hes2]. rewrite Eid in Hes2.
    destruct (entry_inj _ _ _ _ _ _ (in_lv _ _ H) He Hes2) as [<- _].
    destruct He' as (up & Hup & _). apply lookup_lt_Some in Hup. lia.
Qed.

Lemma with_node_dirty_old id' x d' es' o : t_nodes b !! id' = Some x -> entry lv d' id' es' ->
  t_heap b !! x = Some o -> dirty lv b d' id' es' o ->
  dirty lv b' d' id' es' (if decide (parent = Some x) then o_setChildren (o_children o ++ [q]) o else o).
Proof.
  intros Hx He' Ho [D1 D2 D3 D4 D5 D6 D7].
  assert (Hq : q ∉ o_children o).
  { rewrite D7. intros (_ & e & _ & Hq). destruct (in_dirty _ _ H _ _ Hq) as (?&?&?&_&Hp&_).
    unfold q in Hp. by rewrite new_ptr_fresh in Hp. }
  assert (Hsome : forall i c, t_nodes b !! i = Some c -> t_nodes b' !! i = Some c).
  { intros i c Hi. rewrite with_node_nodes, lookup_insert_ne; [done|]. intros <-. by rewrite Hid in Hi. }
  assert (Hpar : match o_parent o with None => S d' = length lv /\ n_key (o_node o) <> Some []
     | Some q => exists P ps e, child_of lv d' P ps e id' /\ t_nodes b' !! P = Some q /\ n_key (o_node o) = Some (in_key e) end).
  { destruct (o_parent o); [|done]. destruct D5 as (P & ps & e & ? & ? & ?). exists P, ps, e. auto. }
  destruct (decide (parent = Some x)) as [Ep|Ep]; split; cbn [o_node o_parent o_children o_setChildren read_node isLeaf inodes n_pgid spilled n_key]; try done.
  - apply NoDup_app. split; [done|]. split; [|apply NoDup_singleton]. intros c Hc Hc'.
    apply list_elem_of_singleton in Hc' as ->. done.
  - intros c. rewrite elem_of_app, list_elem_of_singleton, D7. split.
    + intros [(Hd & e & Hin & Hc)| ->]; [split; [done|]; exists e; auto|].
      pose proof Hl as Hl'. unfold linked in Hl'. rewrite Ep in Hl'. destruct Hl' as (P & ps & e & Hc & HP).
      assert (P = id') as -> by (by eapply dirty_inj).
      destruct (entry_inj _ _ _ _ _ _ (in_lv _ _ H) He' (proj1 Hc)) as [-> ->]. split; [lia|].
      exists e. split; [apply Hc|]. destruct Hc as (_ & _ & ->). rewrite with_node_nodes. apply lookup_insert_eq.
    + intros (Hd & e & Hin & Hc). rewrite with_node_nodes in Hc. apply lookup_insert_Some in Hc as [[_ <-]|[_ Hc]]; [by right|left].
      split; [done|]. by exists e.
  - intros c. rewrite D7. split; intros (Hd & e & Hin & Hc); (split; [done|]); exists e; (split; [done|]); [auto|].
    rewrite with_node_nodes in Hc. apply lookup_insert_Some in Hc as [[E _]|[_ Hc]]; [|done].
    destruct Ep. by eapply new_child.
Qed.

Lemma with_node_dirty_new : dirty lv b' d id es (mkNobj (read_node d id es) parent []).
Proof.
  split; cbn [o_node o_parent o_children o_setChildren read_node isLeaf inodes n_pgid spilled n_key]; try done.
  - pose proof Hl as Hl'. unfold linked in Hl'. revert Hl'. generalize parent. intros [pq|].
    2: { intros Ed. split; [done|]. pose proof (in_items _ _ H _ _ _ He) as Hf. destruct es as [|x es']; [done|]. cbn.
      apply Forall_inv in Hf. intros [= E]. by apply (iv_key _ _ Hf). }
    intros (P & ps & e & Hc & HP). exists P, ps, e. split; [done|]. split.
    + rewrite with_node_nodes, lookup_insert_ne; [done|]. intros <-. by rewrite Hid in HP.
    + destruct (in_clean _ _ H _ _ _ He Hid) as (p & _ & _ & Hk). by eapply Hk.
  - constructor.
  - intros c. split; [intros Hc; by apply elem_of_nil in Hc|]. intros (Hd & e & Hin & Hc). exfalso.
    assert (exists d', d = S d') as [d' Ed] by (exists (d - 1)%nat; lia). pose proof He as He2. rewrite Ed in He2.
    rewrite with_node_nodes in Hc. apply lookup_insert_Some in Hc as [[E _]|[_ Hc]].
    + destruct (has_child _ _ _ _ _ (in_lv _ _ H) He2 Hin) as [es2 Hes2]. rewrite <- E in Hes2.
      destruct (entry_inj _ _ _ _ _ _ (in_lv _ _ H) He Hes2) as [? _]. lia.
    + destruct (parent_dirty lv b d' id es e (in_pgid e) c H) as [x Hx]; [done|done|]. by rewrite Hid in Hx.
Qed.

Lemma with_node_inv : (parent = None <-> id = t_root b) -> inv lv b'.
Proof.
  intros Hroot. pose proof with_node_ext as [X1 X2 X3 X4 _ _]. split.
  - apply (in_lv _ _ H).
  - rewrite X1. apply (in_root _ _ H).
  - rewrite X1, with_node_nodes. destruct (decide (parent = None)) as [Ep|Ep].
    + rewrite <- (proj1 Hroot Ep), lookup_insert_eq. unfold b', with_node. by rewrite Ep.
    + rewrite lookup_insert_ne by (intros E; by apply Ep, Hroot). rewrite <- (in_rootNode _ _ H).
      unfold b', with_node. destruct parent as [pq|]; [|done]. by destruct (t_heap b !! pq).
  - rewrite X1, X2. apply (in_inline _ _ H).
  - destruct X3 as [-> ->]. apply (in_open _ _ H).
  - intros i x Hx. rewrite with_node_nodes in Hx. apply lookup_insert_Some in Hx as [[<- <-]|[Hne Hx]].
    + exists d, es. eexists. split; [done|]. split; [apply with_node_new|apply with_node_dirty_new].
    + destruct (in_dirty _ _ H _ _ Hx) as (d' & es' & o & He' & Ho & D). exists d', es'. eexists.
      split; [done|]. split; [by apply with_node_old|by apply with_node_dirty_old].
  - intros d' i es' He' Hi. rewrite with_node_nodes in Hi. apply lookup_insert_None in Hi as [Hi Hne].
    destruct (in_clean _ _ H _ _ _ He' Hi) as (p & Hp & Hr & Hk). exists p. split; [|done].
    unfold src. rewrite X2. destruct X4 as (-> & _). done.
  - apply (in_items _ _ H).
Qed.
End with_node.

(** Bucket.node: the node is in memory, nothing else changes. *)
Lemma bucket_node_ok lv b d id es parent : inv lv b -> entry lv d id es -> linked lv b d id parent ->
  (parent = None <-> id = t_root b) ->
  exists q b', bucket_node id parent b = Ret (q, b') /\ inv lv b' /\ ext b b' /\ t_nodes b' !! id = Some q.
Proof.
  intros H He Hl Hroot. destruct (t_nodes b !! id) as [q|] eqn:Hid.
  - exists q, b. split; [|split; [done|]; split; [apply ext_refl|done]].
    unfold bucket_node. destruct (in_open _ _ H) as [_ ->]. by rewrite Hid.
  - exists (new_ptr b), (with_node (new_ptr b) d id es parent b). split; [by apply bucket_node_new with lv|].
    split; [by apply with_node_inv|]. split; [by apply with_node_ext with lv|].
    unfold with_node; destruct parent; cbn; apply lookup_insert_eq.
Qed.

Lemma root_not_child lv d P ps e id : lv_ok lv -> is_root lv id -> ~ child_of lv d P ps e id.
Proof.
  intros Hlv Hr (HP & Hin & Hid). destruct (has_child _ _ _ _ _ Hlv HP Hin) as [es Hes]. rewrite Hid in Hes.
  destruct (root_entry _ _ Hr) as [es' Hes']. destruct (entry_inj _ _ _ _ _ _ Hlv Hes Hes') as [-> _].
  destruct HP as (up & Hup & _). apply lookup_lt_Some in Hup. lia.
Qed.

(** childAt of a branch in memory. *)
Lemma childAt_ok lv b d P ps e q j : inv lv b -> entry lv (S d) P ps -> t_nodes b !! P = Some q ->
  ps !! j = Some e ->
  exists c b', childAt q (Z.of_nat j) b = Ret (c, b') /\ inv lv b' /\ ext b b' /\ t_nodes b' !! in_pgid e = Some c.
Proof.
  intros H HP Hq Hj. destruct (dirty_at _ _ _ _ _ _ H Hq HP) as (o & Hg & _ & D).
  pose proof (list_elem_of_lookup_2 _ _ _ Hj) as Hin.
  destruct (has_child _ _ _ _ _ (in_lv _ _ H) HP Hin) as [es Hes].
  destruct (bucket_node_ok lv b d (in_pgid e) es (Some q) H Hes) as (c & b' & E & Hrest).
  - exists P, ps, e. done.
  - split; [done|]. intros E. destruct (root_not_child lv d P ps e (in_pgid e) (in_lv _ _ H)); [|done].
    rewrite E. apply (in_root _ _ H).
  - exists c, b'. split; [|done]. unfold childAt. rewrite Hg. cbn [mbind outcome_bind].
    rewrite (dr_leaf _ _ _ _ _ _ D). cbn [Nat.eqb]. unfold inode_of.
    rewrite (inode_at_lookup _ j e) by (by rewrite (dr_inodes _ _ _ _ _ _ D)). exact E.
Qed.

(** ** Searching *)

Lemma reads_holds p leaf id es : reads p leaf id es -> holds (PPage p) leaf es.
Proof. intros [Hr Hc Ht]. exact (holds_page p node0 _ Hr Hc Ht). Qed.

Lemma reads_id p leaf id es : reads p leaf id es -> pg_id p = id.
Proof.
  intros [Hr _ _]. unfold BoltNode.read in Hr. apply outcome_bind_inv in Hr as (l & _ & Hr). by injection Hr.
Qed.

(** A reference to the node [id]. *)
Definition refers (b : txb) (id : Z) (r : ref) : Prop :=
  match r with RNode q => t_nodes b !! id = Some q | RPage p => pg_id p = id /\ t_nodes b !! id = None end.

Lemma ref_at_ok lv b d id es : inv lv b -> entry lv d id es ->
  exists r x, ref_at id b = Ret r /\ deref r b = Ret x /\ holds x (d =? 0)%nat es /\ refers b id r.
Proof.
  intros H He. pose proof (in_inline _ _ H) as Hi.
  assert (Hroot : t_root b = 0 -> id = 0).
  { intros E. rewrite E in Hi. destruct Hi as [_ Hi]. destruct (in_root _ _ H) as [es' Hes'].
    destruct He as (l & Hl & Hin). pose proof (lookup_lt_Some _ _ _ Hl). replace d with 0%nat in * by lia.
    destruct lv as [|l0 [|]]; cbn in Hl, Hes', Hi; try done; try lia. injection Hl as ->. injection Hes' as ->.
    apply list_elem_of_singleton in Hin. injection Hin as -> _. done. }
  assert (Hnode : forall q, t_nodes b !! id = Some q -> exists x, deref (RNode q) b = Ret x /\ holds x (d =? 0)%nat es).
  { intros q Hq. destruct (dirty_at _ _ _ _ _ _ H Hq He) as (o & Hg & _ & D). cbn [deref]. rewrite Hg.
    eexists. split; [reflexivity|]. rewrite <- (dr_leaf _ _ _ _ _ _ D), <- (dr_inodes _ _ _ _ _ _ D). apply holds_node. }
  assert (Hpage : t_nodes b !! id = None -> exists p, src b id = Some p /\ holds (PPage p) (d =? 0)%nat es /\ pg_id p = id).
  { intros Hn. destruct (in_clean _ _ H _ _ _ He Hn) as (p & Hp & Hr & _). exists p. split; [done|].
    split; [by eapply reads_holds|by eapply reads_id]. }
  unfold ref_at. destruct (Z.eqb_spec (t_root b) 0) as [E|E].
  - rewrite (Hroot E) in *. cbn [Z.eqb negb]. rewrite (in_rootNode _ _ H), E.
    destruct (t_nodes b !! 0) as [q|] eqn:Hq.
    + destruct (Hnode q eq_refl) as (x & Hx & Hh). exists (RNode q), x. done.
    + destruct (Hpage eq_refl) as (p & Hp & Hh & Hid). destruct Hi as [[p' Hp'] _]. unfold src in Hp. rewrite Hp' in *.
      injection Hp as ->. exists (RPage p), (PPage p). done.
  - destruct (t_nodes b !! id) as [q|] eqn:Hq.
    + destruct (Hnode q eq_refl) as (x & Hx & Hh). exists (RNode q), x. done.
    + destruct (Hpage eq_refl) as (p & Hp & Hh & Hid). unfold src in Hp. rewrite Hi in Hp. unfold page_at. rewrite Hp.
      exists (RPage p), (PPage p). done.
Qed.

Lemma holds_search_child' x es i e : holds x false es -> es !! i = Some e ->
  search_child x (Z.of_nat i) = Ret (in_pgid e).
Proof.
  intros Hh He. pose proof (h_child _ _ _ Hh eq_refl i e He) as Hc. destruct x as [p|n]; [|done].
  cbn [search_child]. pose proof (h_count _ _ _ Hh) as Hl. cbn [pn_count] in Hl. apply lookup_lt_Some in He.
  destruct (Z.eqb_spec (pg_count p) 0); [lia|done].
Qed.

Section search.
Context (lv : list level) (b : txb).
Context (H : inv lv b).

(** The references above the [i]-th node of level [d]. *)
Inductive trail : nat -> nat -> list kref -> Prop :=
  | trail_root : trail (length lv - 1) 0 []
  | trail_down d i s l id es r j : trail (S d) i s -> lv !! S d = Some l -> l !! i = Some (id, es) ->
      ref_at id b = Ret r -> (j < length es)%nat ->
      trail d (length (items (take i l)) + j) (mkKref r (Z.of_nat j) :: s).

Lemma ups_bounded d lo : lv !! d = Some lo -> bounded (ups lv d) lo.
Proof.
  intros Hlo. unfold ups. destruct (lv !! S d) as [up|] eqn:Hup; [apply (lo_above _ (in_lv _ _ H) _ _ _ Hlo Hup)|].
  intros i n k _ _. apply in_range_nil.
Qed.

Lemma ups_length d lo l1 n l2 : lv !! d = Some lo -> lo = l1 ++ n :: l2 ->
  length (ups lv d) = length lo \/ (l1 = [] /\ l2 = []).
Proof.
  intros Hlo E. unfold ups. destruct (lv !! S d) as [up|] eqn:Hup.
  - left. apply above_length. apply (lo_above _ (in_lv _ _ H) _ _ _ Hlo Hup).
  - right. apply lookup_ge_None in Hup. pose proof (lookup_lt_Some _ _ _ Hlo).
    assert (Hin : n ∈ lo) by (rewrite E; set_solver). destruct n as [id es].
    rewrite (top_entry lv d lo id es (in_lv _ _ H) Hlo) in E; [|lia|done].
    destruct l1 as [|? [|]]; [|done|done]. by injection E.
Qed.

Context (Ha : arity lv None) (Hk : exact_keys lv).

Lemma level_nonempty d lo n : lv !! S d = Some lo -> n ∈ lo -> n.2 <> [].
Proof.
  intros Hlo Hin E. specialize (Ha d n.1 n.2). rewrite decide_False in Ha by done.
  rewrite E in Ha. cbn in Ha. unfold entry in Ha. rewrite <- E in Ha.
  assert (2 <= 0)%nat; [|lia]. apply Ha. exists lo. by rewrite <- surjective_pairing.
Qed.

(** One step down: the child's place and range. *)
Lemma step_down d i l id es key : lv !! S d = Some l -> l !! i = Some (id, es) -> in_range (ups lv (S d)) i key ->
  let c := child_index (in_key <$> es) key in
  exists e lo es', es !! c = Some e /\ lv !! d = Some lo /\
    lo !! (length (items (take i l)) + c)%nat = Some (in_pgid e, es') /\
    in_range (ups lv d) (length (items (take i l)) + c) key.
Proof.
  intros Hl Hi Hr c. destruct (split_at _ _ _ Hi) as (l1 & l2 & El & Hl1).
  assert (Hin : (id, es) ∈ l) by (by eapply list_elem_of_lookup_2).
  assert (Hne : es <> []) by (apply (level_nonempty d l (id, es) Hl Hin)).
  assert (Hs : keys_sorted (in_key <$> es)) by (eapply entry_sorted; [apply (in_lv _ _ H)|by exists l]).
  destruct (child_index_spec (in_key <$> es) key Hs) as (Hc & Hge & Hlt).
  { intros E. by apply fmap_nil_inv in E. }
  fold c in Hc, Hge, Hlt. rewrite length_fmap in Hc.
  destruct (lookup_lt_is_Some_2 es c Hc) as [e He]. destruct (split_at _ _ _ He) as (a & t & Ea & Hla).
  destruct (lookup_lt_is_Some_2 lv d) as [lo Hlo]; [apply lookup_lt_Some in Hl; lia|].
  assert (Et : take i l = l1) by (by rewrite El, <- Hl1, take_app_length).
  destruct (above_child l lo l1 _ l2 a e t (lo_above _ (in_lv _ _ H) _ _ _ Hlo Hl) El Ea) as (lo1 & es' & lo2 & Elo & Hlen).
  exists e, lo, es'. split; [done|]. split; [done|]. split.
  - rewrite Et, Elo, <- Hla, <- Hlen. by apply list_lookup_middle.
  - rewrite Et. unfold ups at 1. rewrite Hl.
    apply (in_range_child (ups lv (S d)) l l1 (id, es) l2 c key El); try done.
    + by apply ups_bounded.
    + by eapply ups_length.
    + by rewrite Hl1.
    + intros e0 _ He0. apply (Hk d l i); [done|done|]. by rewrite <- Hl1.
    + intros n Hn. by eapply level_nonempty.
Qed.

Lemma cursor_search_ok key d : forall fuel i id es s l, (d <= fuel)%nat -> trail d i s ->
  lv !! d = Some l -> l !! i = Some (id, es) -> in_range (ups lv d) i key ->
  exists i0 id0 es0 s0 r0 l0,
    cursor_search fuel b key id s = Ret (mkKref r0 (Z.of_nat (lower_bound (in_key <$> es0) key)) :: s0) /\
    trail 0 i0 s0 /\ lv !! 0%nat = Some l0 /\ l0 !! i0 = Some (id0, es0) /\ ref_at id0 b = Ret r0 /\
    in_range (ups lv 0) i0 key.
Proof.
  induction d as [|d IH]; intros fuel i id es s l Hf Ht Hl Hi Hr;
    assert (He : entry lv _ id es) by (exists l; split; [exact Hl|by eapply list_elem_of_lookup_2]);
    destruct (ref_at_ok _ _ _ _ _ H He) as (r & x & Er & Ex & Hh & _);
    pose proof (entry_sorted _ _ _ _ (in_lv _ _ H) He) as Hs.
  - exists i, id, es, s, r, l. split; [|done].
    destruct fuel; cbn [cursor_search]; rewrite Er; cbn [mbind outcome_bind]; rewrite Ex; cbn [mbind outcome_bind];
      rewrite (h_type _ _ _ Hh), (pn_search_spec x _ es key Hh Hs); cbn [lift mbind outcome_bind];
      by rewrite (h_leaf _ _ _ Hh).
  - destruct fuel as [|fuel]; [lia|].
    destruct (step_down d i l id es key Hl Hi Hr) as (e & lo & es' & He' & Hlo & Hlo' & Hr').
    pose proof (lookup_lt_Some _ _ _ He') as Hc. set (c := child_index (in_key <$> es) key) in *.
    cbn [cursor_search]. rewrite Er. cbn [mbind outcome_bind]. rewrite Ex. cbn [mbind outcome_bind].
    rewrite (h_type _ _ _ Hh), (pn_search_spec x _ es key Hh Hs). cbn [lift mbind outcome_bind].
    rewrite (h_leaf _ _ _ Hh). cbn [Nat.eqb]. fold (child_index (in_key <$> es) key). fold c.
    rewrite (holds_search_child' _ _ _ _ Hh He'). cbn [lift mbind outcome_bind].
    eapply (IH fuel _ _ es' _ lo ltac:(lia)); [|done|done|done]. by eapply trail_down.
Qed.

Lemma root_place : exists es l, lv !! (length lv - 1)%nat = Some l /\ l !! 0%nat = Some (t_root b, es).
Proof.
  destruct (in_root _ _ H) as [es Hes]. rewrite last_lookup in Hes.
  replace (Init.Nat.pred (length lv)) with (length lv - 1)%nat in Hes by lia. by exists es, [(t_root b, es)].
Qed.

(** seek: the leaf whose range the key is in, and the item at or after its place there. *)
Lemma cursor_seek_ok key fuel : (length lv <= fuel)%nat ->
  exists i0 id0 es0 s0 r0 l0,
    cursor_seek fuel b key = Ret (mkKref r0 (Z.of_nat (lower_bound (in_key <$> es0) key)) :: s0,
      kv_of <$> es0 !! lower_bound (in_key <$> es0) key) /\
    trail 0 i0 s0 /\ lv !! 0%nat = Some l0 /\ l0 !! i0 = Some (id0, es0) /\ ref_at id0 b = Ret r0 /\
    in_range (ups lv 0) i0 key.
Proof.
  intros Hf. destruct root_place as (es & l & Hl & Hi). pose proof (lv_height _ (in_lv _ _ H)).
  destruct (cursor_search_ok key (length lv - 1) fuel 0 (t_root b) es [] l ltac:(lia) trail_root Hl Hi)
    as (i0 & id0 & es0 & s0 & r0 & l0 & E & Ht & Hl0 & Hi0 & Er & Hr).
  { unfold ups. replace (S (length lv - 1)) with (length lv) by lia. rewrite lookup_ge_None_2 by lia. apply in_range_nil. }
  exists i0, id0, es0, s0, r0, l0. split; [|done]. unfold cursor_seek. destruct (in_open _ _ H) as [-> _].
  cbn [negb]. rewrite E. cbn [mbind outcome_bind cursor_keyValue k_ref k_index].
  assert (He : entry lv 0 id0 es0) by (exists l0; split; [done|by eapply list_elem_of_lookup_2]).
  destruct (ref_at_ok _ _ _ _ _ H He) as (r & x & Er' & Ex & Hh & _). rewrite Er in Er'. injection Er' as <-.
  rewrite Ex. cbn [mbind outcome_bind]. set (k := lower_bound _ _).
  destruct (es0 !! k) as [y|] eqn:Ey; cbn [fmap option_fmap option_map].
  - rewrite (h_kv _ _ _ Hh eq_refl k y Ey). done.
  - apply lookup_ge_None in Ey. unfold keyValue; cbn [r_pn r_index]. rewrite (h_count _ _ _ Hh).
    destruct (Z.leb_spec (Z.of_nat (length es0)) (Z.of_nat k)); [by rewrite orb_true_r|lia].
Qed.
End search.

(** ** The node under a cursor *)

Lemma node_loop_app l1 : forall l2 q b,
  node_loop (l1 ++ l2) q b = '(q, b) ← node_loop l1 q b; node_loop l2 q b.
Proof.
  induction l1 as [|r l1 IH]; intros l2 q b; cbn [node_loop app]; [done|].
  destruct (get q b) as [o| |]; cbn [mbind outcome_bind]; [|done|done]. destruct (isLeaf (o_node o)); [done|].
  destruct (childAt q (k_index r) b) as [[q1 b1]| |]; cbn [mbind outcome_bind]; [apply IH|done|done].
Qed.

Section walk.
Context (lv : list level) (b : txb).
Context (H : inv lv b).

(** Following a trail materialises the nodes on it. *)
Lemma node_loop_ok d i s : trail lv b d i s -> forall rq b1, inv lv b1 -> ext b b1 ->
  t_nodes b1 !! t_root b = Some rq ->
  forall l id es, lv !! d = Some l -> l !! i = Some (id, es) ->
  exists q b', node_loop (rev s) rq b1 = Ret (q, b') /\ inv lv b' /\ ext b b' /\ t_nodes b' !! id = Some q.
Proof.
  induction 1 as [|d i s l pid ps r j Ht IH Hl Hi Er Hj]; intros rq b1 H1 X1 Hrq lo id es Hlo Hid.
  - exists rq, b1. split; [done|]. split; [done|]. split; [done|].
    destruct (root_place lv b H) as (es' & l & Hl & Hi). rewrite Hl in Hlo. injection Hlo as <-.
    rewrite Hi in Hid. injection Hid as <- <-. done.
  - cbn [rev]. rewrite node_loop_app.
    destruct (IH rq b1 H1 X1 Hrq l pid ps Hl Hi) as (q & b2 & E & H2 & X2 & Hq). rewrite E. cbn [mbind outcome_bind].
    assert (HP : entry lv (S d) pid ps) by (exists l; split; [done|by eapply list_elem_of_lookup_2]).
    destruct (dirty_at _ _ _ _ _ _ H2 Hq HP) as (o & Hg & _ & D).
    cbn [node_loop k_index]. rewrite Hg. cbn [mbind outcome_bind]. rewrite (dr_leaf _ _ _ _ _ _ D). cbn [Nat.eqb].
    destruct (lookup_lt_is_Some_2 ps j Hj) as [e He].
    destruct (childAt_ok lv b2 d pid ps e q j H2 HP Hq He) as (c & b' & Ec & H' & X' & Hc). rewrite Ec.
    cbn [mbind outcome_bind]. exists c, b'. split; [done|]. split; [done|]. split; [by apply (ext_trans b b2)|].
    destruct (split_at _ _ _ Hi) as (u1 & u2 & Eu & Hu). destruct (split_at _ _ _ He) as (a & t & Ea & Hla).
    destruct (above_child l lo u1 _ u2 a e t (lo_above _ (in_lv _ _ H) _ _ _ Hlo Hl) Eu Ea) as (l1 & es' & l2 & El & Hlen).
    assert (Eid : lo !! length l1 = Some (in_pgid e, es')) by (rewrite El; by apply list_lookup_middle).
    rewrite Eu, <- Hu, take_app_length, <- Hla, <- Hlen, Eid in Hid. by injection Hid as <- _.
Qed.

(** The bottom of a stack refers to the root. *)
Lemma trail_bottom d i s : trail lv b d i s -> forall l id es r j, lv !! d = Some l -> l !! i = Some (id, es) ->
  ref_at id b = Ret r -> exists r' j' t, rev (mkKref r j :: s) = mkKref r' j' :: t /\ ref_at (t_root b) b = Ret r'.
Proof.
  induction 1 as [|d i s l pid ps r0 j0 Ht IH Hl Hi Er Hj]; intros lo id es r j Hlo Hid Eid.
  - destruct (root_place lv b H) as (es' & l & Hl & Hi). rewrite Hl in Hlo. injection Hlo as <-.
    rewrite Hi in Hid. injection Hid as <- <-. by exists r, j, [].
  - destruct (IH l pid ps r0 (Z.of_nat j0) Hl Hi Er) as (r' & j' & t & E & Hr'). exists r', j', (t ++ [mkKref r j]).
    split; [|done]. change (rev (mkKref r j :: mkKref r0 (Z.of_nat j0) :: s))
      with (rev (mkKref r0 (Z.of_nat j0) :: s) ++ [mkKref r j]). by rewrite E.
Qed.

Lemma node_walk_ok i s l id es r j : trail lv b 0 i s -> lv !! 0%nat = Some l -> l !! i = Some (id, es) ->
  ref_at id b = Ret r ->
  exists q b', node_walk (mkKref r j :: s) b = Ret (q, b') /\ inv lv b' /\ ext b b' /\ t_nodes b' !! id = Some q.
Proof.
  intros Ht Hl Hi Er. destruct (trail_bottom _ _ _ Ht l id es r j Hl Hi Er) as (r' & j' & t & E & Hr').
  unfold node_walk. rewrite E. cbn [k_ref].
  destruct (root_entry _ _ (in_root _ _ H)) as (res & Hres).
  destruct (ref_at_ok _ _ _ _ _ H Hres) as (r2 & x & Er2 & _ & _ & Href). rewrite Hr' in Er2. injection Er2 as <-.
  assert (Hbot : exists rq b1, (match r' with RNode q => Ret (q, b) | RPage p => bucket_node (pg_id p) None b end
      : outcome bolt_error (nat * txb)) = Ret (rq, b1) /\ inv lv b1 /\ ext b b1 /\ t_nodes b1 !! t_root b = Some rq).
  { destruct r' as [p|q]; cbn [refers] in Href.
    - destruct Href as [-> _]. pose proof (lv_height _ (in_lv _ _ H)).
      by apply (bucket_node_ok lv b (length lv - 1) (t_root b) res None H Hres); [cbn; lia|].
    - exists q, b. split; [done|]. split; [done|]. split; [apply ext_refl|done]. }
  destruct Hbot as (rq & b1 & Eb & H1 & X1 & Hrq). rewrite Eb. cbn [mbind outcome_bind]. rewrite <- E.
  cbn [rev]. rewrite removelast_last.
  destruct (node_loop_ok _ _ _ Ht rq b1 H1 X1 Hrq l id es Hl Hi) as (q & b' & El & H' & X' & Hq). rewrite El.
  cbn [mbind outcome_bind]. assert (He : entry lv 0 id es) by (exists l; split; [done|by eapply list_elem_of_lookup_2]).
  destruct (dirty_at _ _ _ _ _ _ H' Hq He) as (o & Hg & _ & D). rewrite Hg. cbn [mbind outcome_bind].
  rewrite (dr_leaf _ _ _ _ _ _ D). by exists q, b'.
Qed.

(** Cursor.node gives the node of the leaf that the stack leads to. *)
Lemma cursor_node_ok i s l id es r j : trail lv b 0 i s -> lv !! 0%nat = Some l -> l !! i = Some (id, es) ->
  ref_at id b = Ret r ->
  exists q b', cursor_node (mkKref r j :: s) b = Ret (q, b') /\ inv lv b' /\ ext b b' /\ t_nodes b' !! id = Some q.
Proof.
  intros Ht Hl Hi Er. unfold cursor_node. cbn [k_ref].
  assert (He : entry lv 0 id es) by (exists l; split; [done|by eapply list_elem_of_lookup_2]).
  destruct (ref_at_ok _ _ _ _ _ H He) as (r' & x & Er' & _ & _ & Href). rewrite Er in Er'. injection Er' as <-.
  destruct r as [p|q]; cbn [refers] in Href; [by eapply node_walk_ok|].
  destruct (dirty_at _ _ _ _ _ _ H Href He) as (o & Hg & _ & D). rewrite Hg. cbn [mbind outcome_bind].
  rewrite (dr_leaf _ _ _ _ _ _ D). exists q, b. split; [done|]. split; [done|]. split; [apply ext_refl|done].
Qed.
End walk.

(** ** Changing a leaf *)

Definition set_leaf (i : nat) (id : Z) (es : list inode) (lv : list level) : list level :=
  match lv with l :: up => <[i := (id, es)]> l :: up | [] => [] end.

Section set_leaf.
Context (lv : list level) (i : nat) (id : Z) (es es' : list inode) (l0 : level).
Context (Hlv : lv_ok lv) (Hl0 : lv !! 0%nat = Some l0) (Hi : l0 !! i = Some (id, es)).
Let l0' := <[i := (id, es')]> l0.
Let lv' := set_leaf i id es' lv.

Lemma set_leaf_cons : exists up, lv = l0 :: up /\ lv' = l0' :: up.
Proof. unfold lv', l0', set_leaf. clear - Hl0. destruct lv as [|l up]; [done|]. injection Hl0 as ->. by exists up. Qed.

Lemma set_leaf_ids : l0'.*1 = l0.*1.
Proof. unfold l0'. rewrite list_fmap_insert. apply list_insert_id. by rewrite list_lookup_fmap, Hi. Qed.

Lemma set_leaf_S d : lv' !! S d = lv !! S d.
Proof. destruct set_leaf_cons as (up & E & E'). by rewrite E', E at 1. Qed.

Lemma set_leaf_0 : lv' !! 0%nat = Some l0'.
Proof. destruct set_leaf_cons as (up & E & E'). by rewrite E'. Qed.

Lemma set_leaf_length : length lv' = length lv.
Proof. destruct set_leaf_cons as (up & E & E'). by rewrite E', E. Qed.

Lemma set_leaf_items : exists l1 l2, length l1 = i /\ items l0 = items l1 ++ es ++ items l2 /\
  items l0' = items l1 ++ es' ++ items l2 /\ l0 = l1 ++ (id, es) :: l2.
Proof.
  destruct (split_at _ _ _ Hi) as (l1 & l2 & E & Hl). exists l1, l2. split; [done|].
  split; [by rewrite E, items_middle|]. split; [|done].
  unfold l0'. rewrite E, insert_app_r_alt by lia. rewrite Hl, Nat.sub_diag. cbn. by rewrite items_middle.
Qed.

Lemma set_leaf_entry d x xs : entry lv' d x xs <->
  (d = 0%nat /\ x = id /\ xs = es') \/ (entry lv d x xs /\ x <> id).
Proof.
  assert (Hid : forall d xs, entry lv d id xs -> d = 0%nat /\ xs = es).
  { intros d2 xs2 He. apply (entry_inj lv d2 0 id xs2 es Hlv He). exists l0. split; [done|by eapply list_elem_of_lookup_2]. }
  destruct d as [|d].
  - unfold entry. rewrite set_leaf_0, Hl0. pose proof (lookup_lt_Some _ _ _ Hi). split.
    + intros (l & [= <-] & Hin). apply list_elem_of_lookup in Hin as [j Hj].
      unfold l0' in Hj. apply list_lookup_insert_Some in Hj as [(-> & E & _)|[Hne Hj]].
      * injection E as -> ->. by left.
      * right. split; [exists l0; split; [done|by eapply list_elem_of_lookup_2]|]. intros ->.
        apply Hne. assert (Hnd : NoDup l0.*1) by (by eapply NoDup_level).
        eapply NoDup_lookup; [exact Hnd| |]; rewrite list_lookup_fmap; [by rewrite Hi|by rewrite Hj].
    + intros [(_ & -> & ->)|[(l & [= <-] & Hin) Hne]]; eexists; (split; [reflexivity|]).
      * apply list_elem_of_lookup. exists i. unfold l0'. by rewrite list_lookup_insert_eq.
      * apply list_elem_of_lookup in Hin as [j Hj]. apply list_elem_of_lookup. exists j. unfold l0'.
        rewrite list_lookup_insert_ne; [done|]. intros <-. rewrite Hi in Hj. congruence.
  - unfold entry. rewrite set_leaf_S. split.
    + intros He. right. split; [done|]. intros ->. by destruct (Hid _ _ He).
    + intros [(? & _)|[He _]]; [lia|done].
Qed.

Lemma set_leaf_child d P ps e x : child_of lv' d P ps e x <-> child_of lv d P ps e x.
Proof.
  unfold child_of. rewrite set_leaf_entry. split; [intros ([(? & _)|[? _]] & ?); [lia|done]|].
  intros (He & ?). split; [|done]. right. split; [done|]. intros ->.
  destruct (entry_inj lv (S d) 0 id ps es Hlv He); [|lia]. exists l0. split; [done|by eapply list_elem_of_lookup_2].
Qed.

Context (Hr : forall k, k ∈ in_key <$> es' -> in_range (ups lv 0) i k).

Lemma set_leaf_ok : keys_sorted (in_key <$> items l0') -> lv_ok lv'.
Proof.
  intros Hs. destruct set_leaf_cons as (up & E & E'). destruct Hlv as [[r [rs T]] A S N]. split.
  - rewrite E'. rewrite E in T. destruct up as [|u up]; [|exists r, rs; exact T].
    cbn in T. injection T as ->. exists id, es'. unfold l0'.
    destruct i as [|i']; [cbn in *|done]. congruence.
  - intros d u lo Hlo Hu. rewrite set_leaf_S in Hu. destruct d as [|d].
    + rewrite set_leaf_0 in Hlo. injection Hlo as <-. destruct (A _ _ _ Hl0 Hu) as [Hf Hb]. split; [by rewrite set_leaf_ids|].
      intros j n k Hj Hk. unfold l0' in Hj. apply list_lookup_insert_Some in Hj as [(<- & <- & _)|[_ Hj]]; [|by eapply Hb].
      specialize (Hr k Hk). unfold ups in Hr. by rewrite Hu in Hr.
    + rewrite set_leaf_S in Hlo. by eapply A.
  - intros [|d] l Hl; [rewrite set_leaf_0 in Hl; by injection Hl as <-|]. rewrite set_leaf_S in Hl. by eapply S.
  - rewrite E'. rewrite E in N. cbn [concat] in *. rewrite fmap_app, set_leaf_ids. by rewrite <- fmap_app.
Qed.
End set_leaf.

(** A leaf's object with other inodes. *)
Lemma leaf_update_inv lv b i id es es' l0 q o n' : inv lv b -> lv !! 0%nat = Some l0 -> l0 !! i = Some (id, es) ->
  (forall k, k ∈ in_key <$> es' -> in_range (ups lv 0) i k) ->
  keys_sorted (in_key <$> items (<[i := (id, es')]> l0)) -> Forall (item_valid true) es' ->
  t_nodes b !! id = Some q -> t_heap b !! q = Some o ->
  n' = mkNode (isLeaf (o_node o)) (unbalanced n') (spilled (o_node o)) (n_key (o_node o)) (n_pgid (o_node o)) es' ->
  inv (set_leaf i id es' lv) (set q (o_setNode n' o) b).
Proof.
  intros H Hl0 Hi Hr Hs Hv Hq Ho En. pose proof (in_lv _ _ H) as Hlv.
  assert (He0 : entry lv 0 id es) by (exists l0; split; [done|by eapply list_elem_of_lookup_2]).
  pose proof (set_leaf_entry lv i id es es' l0 Hlv Hl0 Hi) as Hent.
  pose proof (set_leaf_child lv i id es es' l0 Hlv Hl0 Hi) as Hch.
  pose proof (set_leaf_length lv i id es' l0 Hl0) as Hlen.
  destruct (dirty_at _ _ _ _ _ _ H Hq He0) as (o' & _ & Ho' & D). rewrite Ho in Ho'. injection Ho' as <-.
  assert (Hpar : forall d x o, match o_parent o with None => S d = length lv /\ n_key (o_node o) <> Some []
      | Some q => exists P ps e, child_of lv d P ps e x /\ t_nodes b !! P = Some q /\ n_key (o_node o) = Some (in_key e) end ->
      match o_parent o with None => S d = length (set_leaf i id es' lv) /\ n_key (o_node o) <> Some []
      | Some q => exists P ps e, child_of (set_leaf i id es' lv) d P ps e x /\ t_nodes b !! P = Some q /\ n_key (o_node o) = Some (in_key e) end).
  { intros d x oo. destruct (o_parent oo); [|by rewrite Hlen]. intros (P & ps & e & Hc & ?). exists P, ps, e. by rewrite Hch. }
  split; cbn [set s_heap t_root t_rootNode t_nodes t_page t_open t_writable].
  - by eapply set_leaf_ok.
  - destruct (in_root _ _ H) as [res Hres]. unfold is_root. rewrite last_lookup in Hres |- *. rewrite Hlen.
    destruct (Init.Nat.pred (length lv)) as [|d] eqn:Ed.
    + rewrite (set_leaf_0 lv i id es' l0 Hl0). rewrite Hl0 in Hres. injection Hres as ->. exists es'.
      destruct i as [|i]; [|done]. cbn in Hi. injection Hi as -> _. done.
    + exists res. by rewrite (set_leaf_S lv i id es' l0 Hl0).
  - apply (in_rootNode _ _ H).
  - rewrite Hlen. apply (in_inline _ _ H).
  - apply (in_open _ _ H).
  - intros x p Hp. destruct (in_dirty _ _ H _ _ Hp) as (d & xs & oo & He & Hoo & [D1 D2 D3 D4 D5 D6 D7]).
    destruct (decide (x = id)) as [->|Hne].
    + destruct (entry_inj _ _ _ _ _ _ Hlv He He0) as [-> ->]. rewrite Hq in Hp. injection Hp as <-.
      rewrite Ho in Hoo. injection Hoo as <-. exists 0%nat, es', (o_setNode n' o).
      split; [apply Hent; by left|]. split; [cbn; by rewrite lookup_insert_eq|]. rewrite En. split; cbn; try done.
      * specialize (Hpar 0%nat id o D5). by destruct (o_parent o).
      * intros c. rewrite D7. split; intros [? _]; lia.
    + exists d, xs, oo. split; [apply Hent; by right|]. split.
      { cbn. rewrite lookup_insert_ne; [done|]. intros <-. apply Hne. by eapply dirty_inj. }
      split; try done. by apply Hpar.
  - intros d x xs He Hn. apply Hent in He as [(_ & -> & _)|[He _]]; [congruence|].
    destruct (in_clean _ _ H _ _ _ He Hn) as (p & Hp & Hrd & Hk). exists p. split; [done|]. split; [done|].
    intros P ps e Hc. apply Hch in Hc. by eapply Hk.
  - intros d x xs He. apply Hent in He as [(-> & _ & ->)|[He _]]; [done|by eapply in_items].
Qed.

(** ** Put and Delete *)

Definition flat (l : list inode) : node := mkNode true false false None 0 l.

(** The items of the leaves as a map. *)
Definition bmap (lv : list level) : gmap (list Z) inode := node_map (flat (cont lv)).

(** An empty leaf that is not the root is in memory and waits for rebalance. *)
Definition empties (lv : list level) (b : txb) : Prop :=
  forall id, entry lv 0 id [] -> (1 < length lv)%nat ->
    exists q o, t_nodes b !! id = Some q /\ t_heap b !! q = Some o /\ unbalanced (o_node o) = true.

(** A bucket that takes updates. *)
Record ready (lv : list level) (b : txb) : Prop := {
  ry_inv : inv lv b;
  ry_arity : arity lv None;
  ry_exact : exact_keys lv;
  ry_empties : empties lv b;
  ry_hwm : 0 < t_hwm b
}.

(** Updates leave the pages and the freelist alone. *)
Definition same_tx (b b' : txb) : Prop :=
  t_root b' = t_root b /\ t_page b' = t_page b /\ t_open b' = t_open b /\ t_writable b' = t_writable b /\
  t_pages b' = t_pages b /\ t_hwm b' = t_hwm b /\ t_free b' = t_free b /\ t_datasz b' = t_datasz b.

Lemma ext_same b b' : ext b b' -> same_tx b b'.
Proof. intros [? ? [? ?] (? & ? & ? & ?) _ _]. repeat split; done. Qed.

Lemma empties_ext lv b b' : ext b b' -> empties lv b -> empties lv b'.
Proof.
  intros X He id Hid Hl. destruct (He id Hid Hl) as (q & o & Hq & Ho & Hu).
  destruct (ex_heap _ _ X _ _ Ho) as (o' & Ho' & En & _). exists q, o'. split; [|split; [done|by rewrite En]].
  pose proof (ex_nodes _ _ X) as Hs. by eapply lookup_weaken.
Qed.

Lemma cont_sorted lv : lv_ok lv -> keys_sorted (in_key <$> cont lv).
Proof. intros H. destruct lv as [|l up]; [constructor|]. by apply (lo_sorted _ H 0). Qed.

Lemma bmap_Some lv k x : lv_ok lv -> bmap lv !! k = Some x <-> x ∈ cont lv /\ in_key x = k.
Proof. intros H. apply (node_map_Some (flat (cont lv)) k x). by apply cont_sorted. Qed.

(** What a key's leaf is among all items. *)
Record found (lv : list level) (key : list Z) (i : nat) (id : Z) (es : list inode) (l0 : level)
    (pre post : list inode) : Prop := {
  fd_level : lv !! 0%nat = Some l0;
  fd_node : l0 !! i = Some (id, es);
  fd_range : in_range (ups lv 0) i key;
  fd_cont : cont lv = pre ++ es ++ post;
  fd_set : forall es', items (<[i := (id, es')]> l0) = pre ++ es' ++ post;
  fd_pre : forall x, x ∈ pre -> key_lt (in_key x) key;
  fd_post : forall x, x ∈ post -> key_lt key (in_key x)
}.

Lemma found_leaf lv b key i id es l0 : inv lv b -> lv !! 0%nat = Some l0 -> l0 !! i = Some (id, es) ->
  in_range (ups lv 0) i key -> exists pre post, found lv key i id es l0 pre post.
Proof.
  intros H Hl0 Hi Hr. destruct (split_at _ _ _ Hi) as (l1 & l2 & E & Hl).
  assert (Hbeside : (forall x, x ∈ items l1 -> key_lt (in_key x) key) /\ (forall x, x ∈ items l2 -> key_lt key (in_key x))).
  { destruct (ups_length lv b H 0 l0 l1 _ l2 Hl0 E) as [Hu|[-> ->]].
    - unfold ups in *. destruct (lv !! 1%nat) as [up|] eqn:Hup.
      + destruct (lo_above _ (in_lv _ _ H) 0 up l0 Hl0 Hup) as [_ Hb].
        apply (range_items (items up) l0 l1 (id, es) l2 key E Hb); [by apply (lo_sorted _ (in_lv _ _ H) 1%nat)|done|by rewrite Hl].
      + rewrite E, length_app in Hu. cbn in Hu. lia.
    - split; intros x Hx; by apply elem_of_nil in Hx. }
  exists (items l1), (items l2). split; try done; try apply Hbeside.
  - unfold cont. destruct lv as [|l up]; [done|]. injection Hl0 as ->. by rewrite E, items_middle.
  - intros es'. rewrite E, insert_app_r_alt by lia. rewrite Hl, Nat.sub_diag. cbn. by rewrite items_middle.
Qed.

Lemma set_leaf_cont lv key i id es l0 pre post es' : found lv key i id es l0 pre post ->
  cont (set_leaf i id es' lv) = pre ++ es' ++ post.
Proof.
  intros F. pose proof (fd_level _ _ _ _ _ _ _ _ F) as Hl. unfold set_leaf, cont. destruct lv as [|l up]; [done|].
  injection Hl as ->. apply (fd_set _ _ _ _ _ _ _ _ F).
Qed.

(** The key's place in its leaf is its place among all items. *)
Lemma found_split lv key i id es l0 pre post : lv_ok lv -> found lv key i id es l0 pre post ->
  exists A m B, es = A ++ option_list m ++ B /\ lower_bound (in_key <$> es) key = length A /\
    (forall x, x ∈ pre ++ A -> key_lt (in_key x) key) /\ (forall x, x ∈ B ++ post -> key_lt key (in_key x)) /\
    (forall x, m = Some x -> in_key x = key) /\
    cont lv = (pre ++ A) ++ option_list m ++ (B ++ post) /\
    lower_bound (in_key <$> cont lv) key = length (pre ++ A).
Proof.
  intros Hlv F. assert (He : entry lv 0 id es).
  { exists l0. split; [apply (fd_level _ _ _ _ _ _ _ _ F)|]. eapply list_elem_of_lookup_2. apply (fd_node _ _ _ _ _ _ _ _ F). }
  destruct (lower_bound_split es key (entry_sorted _ _ _ _ Hlv He)) as (A & m & B & E & Hlb & HA & HB & Hm).
  assert (HA' : forall x, x ∈ pre ++ A -> key_lt (in_key x) key).
  { intros x [Hx|Hx]%elem_of_app; [by apply (fd_pre _ _ _ _ _ _ _ _ F)|by apply HA]. }
  assert (HB' : forall x, x ∈ B ++ post -> key_lt key (in_key x)).
  { intros x [Hx|Hx]%elem_of_app; [by apply HB|by apply (fd_post _ _ _ _ _ _ _ _ F)]. }
  assert (Ec : cont lv = (pre ++ A) ++ option_list m ++ (B ++ post)).
  { rewrite (fd_cont _ _ _ _ _ _ _ _ F), E, <- !app_assoc. done. }
  exists A, m, B. split_and!; try done. rewrite Ec. apply lower_bound_unique.
  - rewrite <- Ec. by apply cont_sorted.
  - rewrite !length_fmap, !length_app. lia.
  - intros x Hx. rewrite fmap_app, <- (length_fmap in_key), take_app_length in Hx.
    apply list_elem_of_fmap in Hx as (y & -> & Hy). by apply HA'.
  - intros x Hx. rewrite fmap_app, <- (length_fmap in_key), drop_app_length in Hx.
    rewrite fmap_app in Hx. apply elem_of_app in Hx as [Hx|Hx]; apply list_elem_of_fmap in Hx as (y & -> & Hy).
    + destruct m as [z|]; cbn in Hy; [|by apply elem_of_nil in Hy]. apply list_elem_of_singleton in Hy as ->.
      rewrite (Hm z eq_refl). apply key_lt_irrefl.
    + intros Hl. apply (key_lt_irrefl key), (key_lt_trans _ (in_key y)); [by apply HB'|done].
Qed.

Definition ids (lv : list level) : list Z := (concat lv).*1.

(** An update of the bucket: the levels keep their nodes, the items become [m']. *)
Record updated (lv : list level) (b : txb) (lv' : list level) (b' : txb) (m' : gmap (list Z) inode) : Prop := {
  up_ready : ready lv' b';
  up_same : same_tx b b';
  up_length : length lv' = length lv;
  up_ids : ids lv' = ids lv;
  up_map : bmap lv' = m'
}.

Lemma cont_valid lv b : inv lv b -> Forall (item_valid true) (cont lv).
Proof.
  intros H. apply Forall_forall. intros x Hx. destruct lv as [|l up]; [by apply elem_of_nil in Hx|].
  apply elem_of_items in Hx as ([id es] & Hn & Hx).
  assert (He : entry (l :: up) 0 id es) by (by exists l).
  pose proof (in_items _ _ H _ _ _ He) as Hf. rewrite Forall_forall in Hf. by apply Hf.
Qed.

Lemma flat_ok lv b : inv lv b -> node_ok (flat (cont lv)).
Proof.
  intros H. split; [by apply cont_sorted, in_lv with b|]. apply Forall_forall. intros k Hk.
  apply list_elem_of_fmap in Hk as (x & -> & Hx). pose proof (cont_valid _ _ H) as Hf.
  rewrite Forall_forall in Hf. apply (iv_key _ _ (Hf x Hx)).
Qed.

Section leaf_op.
Context (lv : list level) (b : txb) (key : list Z).
Context (R : ready lv b).

(** A seek and the node it leads to. *)
Lemma at_leaf fuel : (length lv <= fuel)%nat ->
  exists s kv i id es l0 pre post, cursor_seek fuel b key = Ret (s, kv) /\
    kv = (kv_of <$> es !! lower_bound (in_key <$> es) key) /\ found lv key i id es l0 pre post /\
    exists q b' o, cursor_node s b = Ret (q, b') /\ inv lv b' /\ ext b b' /\ t_nodes b' !! id = Some q /\
      get q b' = Ret o /\ t_heap b' !! q = Some o /\ dirty lv b' 0 id es o.
Proof.
  intros Hf. pose proof (ry_inv _ _ R) as H.
  destruct (cursor_seek_ok lv b H (ry_arity _ _ R) (ry_exact _ _ R) key fuel Hf)
    as (i & id & es & s & r & l0 & E & Ht & Hl0 & Hi & Er & Hr).
  destruct (found_leaf lv b key i id es l0 H Hl0 Hi Hr) as (pre & post & F).
  eexists _, _, i, id, es, l0, pre, post. split; [exact E|]. split; [reflexivity|]. split; [done|].
  destruct (cursor_node_ok lv b H i s l0 id es r (Z.of_nat (lower_bound (in_key <$> es) key)) Ht Hl0 Hi Er)
    as (q & b' & En & H' & X & Hq).
  assert (He : entry lv 0 id es) by (exists l0; split; [done|by eapply list_elem_of_lookup_2]).
  destruct (dirty_at _ _ _ _ _ _ H' Hq He) as (o & Hg & Ho & D). by exists q, b', o.
Qed.

(** The item with the key, or where it would be. *)
Lemma found_head es A m B : es = A ++ option_list m ++ B -> lower_bound (in_key <$> es) key = length A ->
  es !! lower_bound (in_key <$> es) key = head (option_list m ++ B).
Proof. intros -> ->. rewrite lookup_app_r by lia. rewrite Nat.sub_diag. by destruct (option_list m ++ B). Qed.

Lemma found_lookup A' m B' : cont lv = A' ++ option_list m ++ B' ->
  (forall x, x ∈ A' -> key_lt (in_key x) key) -> (forall x, x ∈ B' -> key_lt key (in_key x)) ->
  (forall x, m = Some x -> in_key x = key) -> bmap lv !! key = m.
Proof.
  intros E HA HB Hm. pose proof (in_lv _ _ (ry_inv _ _ R)) as Hlv. destruct m as [x|].
  - apply bmap_Some; [done|]. split; [|by apply Hm]. rewrite E. set_solver.
  - destruct (bmap lv !! key) as [x|] eqn:Ex; [|done]. apply bmap_Some in Ex as [Hx <-]; [|done].
    rewrite E in Hx. cbn in Hx. apply elem_of_app in Hx as [Hx|Hx]; exfalso; apply (key_lt_irrefl (in_key x)); auto.
Qed.

Section leaf_write.
Context (b' : txb) (i : nat) (id : Z) (es : list inode) (l0 : level) (pre post : list inode) (q : nat) (o : nobj).
Context (A : list inode) (m : option inode) (B : list inode) (mid : option inode) (n' : node).
Context (H' : inv lv b') (X : ext b b') (F : found lv key i id es l0 pre post).
Context (Hq : t_nodes b' !! id = Some q) (Ho : t_heap b' !! q = Some o) (Ees : es = A ++ option_list m ++ B).
Context (HA : forall x, x ∈ pre ++ A -> key_lt (in_key x) key) (HB : forall x, x ∈ B ++ post -> key_lt key (in_key x)).
Context (Hm : forall x, m = Some x -> in_key x = key) (Hmid : forall x, mid = Some x -> in_key x = key /\ item_valid true x).
Let es' := A ++ option_list mid ++ B.
Context (En : n' = mkNode (isLeaf (o_node o)) (unbalanced n') (spilled (o_node o)) (n_key (o_node o)) (n_pgid (o_node o)) es').
Context (Hu : es' = [] -> (1 < length lv)%nat -> unbalanced n' = true).

Lemma leaf_write_cont : cont (set_leaf i id es' lv) = (pre ++ A) ++ option_list mid ++ (B ++ post).
Proof.
  rewrite (set_leaf_cont _ _ _ _ _ _ _ _ es' F). unfold es'. by rewrite <- !app_assoc.
Qed.

Lemma leaf_write_sorted : keys_sorted (in_key <$> (pre ++ A) ++ option_list mid ++ (B ++ post)).
Proof.
  assert (Hold : cont lv = (pre ++ A) ++ option_list m ++ (B ++ post)).
  { rewrite (fd_cont _ _ _ _ _ _ _ _ F), Ees, <- !app_assoc. done. }
  pose proof (cont_sorted _ (in_lv _ _ H')) as Hs. rewrite Hold in Hs. rewrite (fmap_app _ (pre ++ A)), (fmap_app _ (option_list m)) in Hs.
  apply keys_sorted_remove in Hs. rewrite (fmap_app _ (pre ++ A)). destruct mid as [x|]; cbn [option_list option_rect app]; [|done].
  rewrite fmap_cons. destruct (Hmid x eq_refl) as [-> _].
  apply keys_sorted_insert; [done|..]; intros k Hk; apply list_elem_of_fmap in Hk as (y & -> & Hy); auto.
Qed.

Lemma leaf_write_inv : inv (set_leaf i id es' lv) (set q (o_setNode n' o) b').
Proof.
  pose proof (fd_level _ _ _ _ _ _ _ _ F) as Hl0. pose proof (fd_node _ _ _ _ _ _ _ _ F) as Hi.
  pose proof (fd_range _ _ _ _ _ _ _ _ F) as Hr.
  assert (Hval : Forall (item_valid true) es).
  { eapply (in_items _ _ H' 0). exists l0. split; [done|by eapply list_elem_of_lookup_2]. }
  eapply leaf_update_inv; try done.
  - intros k Hk. unfold es' in Hk. rewrite !fmap_app, !elem_of_app in Hk.
    assert (Hcase : k = key \/ k ∈ in_key <$> es).
    { destruct Hk as [Hk|[Hk|Hk]].
      - right. rewrite Ees, !fmap_app. set_solver.
      - left. destruct mid as [x|]; cbn in Hk; [|by apply elem_of_nil in Hk].
        apply list_elem_of_singleton in Hk as ->. by apply (Hmid x).
      - right. rewrite Ees, !fmap_app. set_solver. }
    destruct Hcase as [->|Hk']; [done|]. by apply (ups_bounded lv b' H' 0 l0 Hl0 i (id, es) k Hi).
  - rewrite (fd_set _ _ _ _ _ _ _ _ F es').
    replace (pre ++ es' ++ post) with ((pre ++ A) ++ option_list mid ++ B ++ post); [exact leaf_write_sorted|].
    unfold es'. by rewrite <- !app_assoc.
  - unfold es'. rewrite Ees in Hval. rewrite !Forall_app in *. destruct Hval as (? & _ & ?). split; [done|].
    split; [|done]. destruct mid as [x|]; cbn; [|done]. constructor; [by apply Hmid|done].
Qed.

Lemma leaf_write :
  cont (set_leaf i id es' lv) = (pre ++ A) ++ option_list mid ++ (B ++ post) /\
  ready (set_leaf i id es' lv) (set q (o_setNode n' o) b') /\
  same_tx b (set q (o_setNode n' o) b') /\
  length (set_leaf i id es' lv) = length lv /\
  ids (set_leaf i id es' lv) = ids lv.
Proof.
  pose proof (in_lv _ _ H') as Hlv. pose proof (fd_level _ _ _ _ _ _ _ _ F) as Hl0.
  pose proof (fd_node _ _ _ _ _ _ _ _ F) as Hi.
  split; [apply leaf_write_cont|]. split; [|split; [|split]].
  - split; [exact leaf_write_inv| | | |].
    + intros d x xs Hx. apply (set_leaf_entry lv i id es es' l0 Hlv Hl0 Hi) in Hx as [(? & _)|[Hx _]]; [lia|].
      by apply (ry_arity _ _ R d x xs).
    + intros d lo j n e Hlo Hj He. rewrite (set_leaf_S lv i id es' l0 Hl0) in Hlo.
      assert (Eu : ups (set_leaf i id es' lv) (S d) = ups lv (S d)).
      { unfold ups. by rewrite (set_leaf_S lv i id es' l0 Hl0). }
      rewrite Eu in He. by apply (ry_exact _ _ R d lo j n e).
    + intros x Hx Hlen. rewrite (set_leaf_length lv i id es' l0 Hl0) in Hlen.
      apply (set_leaf_entry lv i id es es' l0 Hlv Hl0 Hi) in Hx as [(_ & -> & E)|[Hx Hne]].
      * exists q, (o_setNode n' o). split; [done|]. cbn. rewrite lookup_insert_eq. split; [done|]. by apply Hu.
      * destruct (empties_ext _ _ _ X (ry_empties _ _ R) x Hx Hlen) as (p & oo & Hp & Hoo & Hb).
        exists p, oo. split; [done|]. split; [|done]. cbn. rewrite lookup_insert_ne; [done|]. intros <-.
        apply Hne. by eapply (dirty_inj lv b').
    + pose proof (ex_tx _ _ X) as (_ & Eh & _). cbn. rewrite Eh. apply (ry_hwm _ _ R).
  - apply (ext_same _ _ X).
  - by eapply set_leaf_length.
  - unfold ids. destruct (set_leaf_cons lv i id es' l0 Hl0) as (up & E & E'). rewrite E', E. cbn [concat].
    rewrite !fmap_app. f_equal. by eapply set_leaf_ids.
Qed.
End leaf_write.
End leaf_op.

(** Two leaves have no key in common in their ranges. *)
Lemma range_before lv l0 i j key : lv_ok lv -> lv !! 0%nat = Some l0 -> (i < j < length l0)%nat ->
  in_range (ups lv 0) i key -> in_range (ups lv 0) j key -> False.
Proof.
  intros Hlv Hl0 Hij [_ Hi] [Hj _]. assert (Hup : exists up, lv !! 1%nat = Some up).
  { destruct (lo_top _ Hlv) as (r & es & Ht). rewrite last_lookup in Ht. destruct lv as [|l [|up lv']]; [done| |by exists up].
    cbn in Ht, Hl0. rewrite Hl0 in Ht. injection Ht as ->. cbn in Hij. lia. }
  destruct Hup as [up Hup]. unfold ups in *. rewrite Hup in Hi, Hj.
  destruct (lo_above _ Hlv _ _ _ Hl0 Hup) as [Hf _]. apply (f_equal length) in Hf. rewrite !length_fmap in Hf.
  assert (H1 : (S i < length (items up))%nat) by lia. assert (H2 : (j < length (items up))%nat) by lia.
  destruct (lookup_lt_is_Some_2 (items up) (S i) H1) as [e He].
  destruct (lookup_lt_is_Some_2 (items up) j H2) as [e' He'].
  specialize (Hi _ He). apply (Hj e'); [lia|done|]. destruct (decide (S i = j)) as [<-|Hne]; [by simplify_eq|].
  apply (key_lt_trans _ (in_key e)); [done|]. pose proof (lo_sorted _ Hlv _ _ Hup) as Hs.
  destruct (split_at _ _ _ He) as (A & B & E & HA). rewrite E in He', Hs. rewrite lookup_app_r in He' by lia.
  destruct (j - length A)%nat as [|m] eqn:Em; [lia|]. rewrite fmap_app in Hs. apply StronglySorted_app_1_r in Hs.
  apply StronglySorted_inv in Hs as [_ Hs]. rewrite Forall_forall in Hs. apply Hs, list_elem_of_fmap_2.
  by eapply list_elem_of_lookup_2.
Qed.

(** The leaf that holds keys on both sides of a key is the one a seek to it finds. *)
Lemma found_between lv b key i id es l0 pre post id' A y x B : inv lv b -> found lv key i id es l0 pre post ->
  entry lv 0 id' (A ++ y :: x :: B) -> key_lt (in_key y) key -> key_lt key (in_key x) -> es = A ++ y :: x :: B.
Proof.
  intros H F (l & Hl & [j Hj]%list_elem_of_lookup) Hy Hx. pose proof (in_lv _ _ H) as Hlv.
  pose proof (fd_level _ _ _ _ _ _ _ _ F) as Hl0. rewrite Hl0 in Hl. injection Hl as <-.
  pose proof (fd_node _ _ _ _ _ _ _ _ F) as Hi. pose proof (fd_range _ _ _ _ _ _ _ _ F) as Hr.
  assert (Hrj : in_range (ups lv 0) j key).
  { assert (Hin : forall z, z ∈ [y; x] -> in_range (ups lv 0) j (in_key z)).
    { intros z Hz. eapply (ups_bounded lv b H 0 l0 Hl0 j _ _ Hj). apply list_elem_of_fmap_2. cbn [snd]. set_solver. }
    destruct (Hin y ltac:(by left)) as [Hy1 _]. destruct (Hin x ltac:(by right; left)) as [_ Hx2]. split.
    - intros e H0 He Hlt. apply (Hy1 e H0 He). by apply (key_lt_trans _ key).
    - intros e He. apply (key_lt_trans _ (in_key x)); [done|by apply Hx2]. }
  pose proof (lookup_lt_Some _ _ _ Hi). pose proof (lookup_lt_Some _ _ _ Hj).
  destruct (Nat.lt_trichotomy i j) as [Hlt|[->|Hlt]].
  - exfalso. by apply (range_before lv l0 i j key).
  - rewrite Hi in Hj. by injection Hj as _ ->.
  - exfalso. by apply (range_before lv l0 j i key).
Qed.

(** The item at or after a key between two neighbours is the second. *)
Lemma lower_bound_between es A y x B key : es = A ++ y :: x :: B -> keys_sorted (in_key <$> es) ->
  key_lt (in_key y) key -> key_lt key (in_key x) -> es !! lower_bound (in_key <$> es) key = Some x.
Proof.
  intros -> Hs Hy Hx. assert (E : A ++ y :: x :: B = (A ++ [y]) ++ x :: B) by (by rewrite <- app_assoc).
  rewrite E in *. rewrite (lower_bound_unique _ key (length (A ++ [y])) Hs).
  - by apply list_lookup_middle.
  - rewrite length_fmap, !length_app. lia.
  - rewrite fmap_app, take_app_length' by (by rewrite length_fmap). intros k Hk.
    rewrite fmap_app, fmap_app in Hs. rewrite fmap_app in Hk. apply elem_of_app in Hk as [Hk|Hk].
    + apply (key_lt_trans _ (in_key y)); [|done]. apply StronglySorted_app in Hs as (_ & Hs & _).
      apply StronglySorted_app in Hs as (Hs & _ & _). apply Hs; [done|by left].
    + by apply list_elem_of_singleton in Hk as ->.
  - rewrite fmap_app, drop_app_length' by (by rewrite length_fmap). rewrite fmap_cons. intros k Hk Hlt.
    rewrite fmap_app in Hs. apply StronglySorted_app_1_r in Hs. apply StronglySorted_inv in Hs as [_ Hs].
    apply (key_lt_irrefl key). apply (key_lt_trans _ (in_key x)); [done|].
    apply elem_of_cons in Hk as [->|Hk]; [done|]. rewrite Forall_forall in Hs. apply (key_lt_trans _ k); [|done]. by apply Hs.
Qed.

(** Delete refuses its key exactly when the first item at or after it in its leaf is a
    nested bucket. *)
Lemma Delete_refused lv b key fuel : ready lv b -> (length lv <= fuel)%nat ->
  exists i id es l0 pre post, found lv key i id es l0 pre post /\
    (Delete fuel key b = Fail ErrIncompatibleValue <->
     exists x, es !! lower_bound (in_key <$> es) key = Some x /\ is_bucket x = true).
Proof.
  intros R Hf. destruct (at_leaf lv b key R fuel Hf) as (s & kv & i & id & es & l0 & pre & post & E & Ekv & F & q & b' & o & En & _ & _ & _ & _ & Ho & _).
  exists i, id, es, l0, pre, post. split; [done|]. unfold Delete. destruct (in_open _ _ (ry_inv _ _ R)) as [-> ->]. cbn [negb].
  rewrite E. cbn [mbind outcome_bind]. rewrite Ekv. destruct (es !! _) as [x|]; cbn [fmap option_fmap option_map].
  - change (Z.land (kv_flags (Some (kv_of x))) bucketLeafFlag =? 0) with (Z.land (in_flags x) bucketLeafFlag =? 0).
    unfold is_bucket. destruct (Z.land (in_flags x) bucketLeafFlag =? 0) eqn:Eb; cbn [negb].
    + rewrite En. cbn [mbind outcome_bind]. unfold node_del. rewrite (update_Some _ _ _ _ Ho). split; [done|].
      intros (y & [= <-] & Hy). by rewrite Eb in Hy.
    + split; [|done]. intros _. exists x. by rewrite Eb.
  - cbn. rewrite En. cbn [mbind outcome_bind]. unfold node_del. rewrite (update_Some _ _ _ _ Ho). split; [done|].
    by intros (x & ? & _).
Qed.

(** Put sets the key, unless it is a nested bucket's. *)
Lemma Put_ok lv b key value fuel : ready lv b -> (length lv <= fuel)%nat ->
  key <> [] -> Z.of_nat (length key) <= MaxKeySize -> Z.of_nat (length value) <= valueLimit ->
  if match bmap lv !! key with Some x => is_bucket x | None => false end
  then Put fuel key value b = Fail ErrIncompatibleValue
  else exists lv' b', Put fuel key value b = Ret b' /\
         updated lv b lv' b' (<[key := mkInode 0 0 key value]> (bmap lv)).
Proof.
  intros R Hf Hk Hkl Hvl. pose proof (ry_inv _ _ R) as H. pose proof (in_lv _ _ H) as Hlv.
  destruct (at_leaf lv b key R fuel Hf) as (s & kv & i & id & es & l0 & pre & post & E & Ekv & F & q & b' & o & En & H' & X & Hq & Hg & Ho & D).
  destruct (found_split lv key i id es l0 pre post Hlv F) as (A & m & B & Ees & Hlb & HA & HB & Hm & Ec & Hclb).
  rewrite (found_head key es A m B Ees Hlb) in Ekv.
  unfold Put. destruct (in_open _ _ H) as [-> ->]. cbn [negb]. rewrite key_nonempty by done.
  destruct (Z.ltb_spec MaxKeySize (Z.of_nat (length key))); [lia|].
  assert (valueLimit <= MaxValueSize) by zground.
  destruct (Z.ltb_spec MaxValueSize (Z.of_nat (length value))); [lia|].
  rewrite E. cbn [mbind outcome_bind]. rewrite (found_lookup lv b key R _ m _ Ec HA HB Hm).
  assert (Eb : bool_decide (key = kv_key kv) && negb (Z.land (kv_flags kv) bucketLeafFlag =? 0) =
               match m with Some x => is_bucket x | None => false end).
  { rewrite Ekv. destruct m as [x|]; cbn.
    - rewrite (Hm x eq_refl), bool_decide_eq_true_2 by done. done.
    - rewrite bool_decide_eq_false_2; [done|]. destruct B as [|y B]; cbn; [done|]. intros ->.
      apply (key_lt_irrefl (in_key y)), HB. by left. }
  rewrite Eb. destruct (match m with Some x => is_bucket x | None => false end); [done|].
  rewrite En. cbn [mbind outcome_bind]. unfold node_put. rewrite Hg. cbn [mbind outcome_bind].
  set (I := mkInode 0 0 key value).
  assert (Hh : 0 < t_hwm b'). { pose proof (ex_tx _ _ X) as (_ & -> & _). apply (ry_hwm _ _ R). }
  rewrite (put_split (t_hwm b') key key value 0 0 (o_node o) A m B Hh Hk Hk); fold I.
  2: by rewrite (dr_inodes _ _ _ _ _ _ D). 2: by rewrite (dr_inodes _ _ _ _ _ _ D).
  2: { intros x Hx. apply HB. set_solver. } 2: done.
  cbn [lift mbind outcome_bind].
  destruct (leaf_write lv b key R b' i id es l0 pre post q o A m B (Some I) (set_inodes (A ++ I :: B) (o_node o)))
    as (Ec' & R' & S' & Hl' & Hi'); try done.
  { intros x [= <-]. split; [done|]. split; cbn; [done|done|lia|by intros _|done]. }
  { intros Enil. by destruct A. }
  eexists _, _. split; [reflexivity|]. split; try done. unfold bmap. rewrite Ec'. cbn [option_list option_rect app].
  destruct (put_spec (t_hwm b') key key value 0 0 (flat (cont lv)) (flat_ok lv b H) Hh Hk Hk)
    as (n' & En' & _ & _ & Emap); [by intros x|].
  rewrite (put_split (t_hwm b') key key value 0 0 (flat (cont lv)) (pre ++ A) m (B ++ post) Hh Hk Hk) in En'; try done.
  injection En' as <-. fold I in Emap. change (set_inodes ?l (flat _)) with (flat l) in Emap. rewrite Emap.
  apply insert_delete_eq.
Qed.

(** Delete removes the key if it is there; it fails on a nested bucket, the one with the
    key or, if the key is not there, the one that comes next in its leaf. *)
Lemma Delete_ok lv b key fuel : ready lv b -> (length lv <= fuel)%nat ->
  (exists lv' b', Delete fuel key b = Ret b' /\ updated lv b lv' b' (delete key (bmap lv)) /\
     (forall x, bmap lv !! key = Some x -> is_bucket x = false)) \/
  (Delete fuel key b = Fail ErrIncompatibleValue /\
     exists x, x ∈ cont lv /\ is_bucket x = true /\ ~ key_lt (in_key x) key /\
       forall y, y ∈ cont lv -> ~ key_lt (in_key y) key -> ~ key_lt (in_key y) (in_key x)).
Proof.
  intros R Hf. pose proof (ry_inv _ _ R) as H. pose proof (in_lv _ _ H) as Hlv.
  destruct (at_leaf lv b key R fuel Hf) as (s & kv & i & id & es & l0 & pre & post & E & Ekv & F & q & b' & o & En & H' & X & Hq & Hg & Ho & D).
  destruct (found_split lv key i id es l0 pre post Hlv F) as (A & m & B & Ees & Hlb & HA & HB & Hm & Ec & Hclb).
  rewrite (found_head key es A m B Ees Hlb) in Ekv.
  unfold Delete. destruct (in_open _ _ H) as [-> ->]. cbn [negb]. rewrite E. cbn [mbind outcome_bind].
  destruct (Z.land (kv_flags kv) bucketLeafFlag =? 0) eqn:Eb; cbn [negb].
  - left. rewrite En. cbn [mbind outcome_bind]. unfold node_del. rewrite (update_Some _ _ _ _ Ho).
    pose proof (del_split key (o_node o) A m B) as Ed. rewrite (dr_inodes _ _ _ _ _ _ D) in Ed.
    specialize (Ed Ees Hlb ltac:(intros x Hx; apply HB; set_solver) Hm).
    destruct (leaf_write lv b key R b' i id es l0 pre post q o A m B None (del key (o_node o)))
      as (Ec' & R' & S' & Hl' & Hi'); try done.
    { rewrite Ed. destruct m; [done|]. destruct (o_node o) as [f1 f2 f3 f4 f5 f6] eqn:Eo. cbn.
      pose proof (dr_inodes _ _ _ _ _ _ D) as Ei. rewrite Eo in Ei. cbn in Ei. rewrite Ei, Ees. done. }
    { intros Enil Hlen. rewrite Ed. destruct m; [done|]. cbn [option_list option_rect app] in Ees, Enil.
      rewrite Enil in Ees. assert (He : entry lv 0 id []).
      { exists l0. split; [apply (fd_level _ _ _ _ _ _ _ _ F)|]. rewrite <- Ees. eapply list_elem_of_lookup_2, (fd_node _ _ _ _ _ _ _ _ F). }
      destruct (empties_ext _ _ _ X (ry_empties _ _ R) id He Hlen) as (q' & o' & Hq' & Ho' & Hu). congruence. }
    eexists _, _. split; [reflexivity|]. split.
    + split; try done. unfold bmap. rewrite Ec'. cbn [option_list option_rect app].
      destruct (del_spec key (flat (cont lv)) (flat_ok lv b H)) as (_ & _ & Emap & _).
      rewrite <- Emap. rewrite (del_split key (flat (cont lv)) (pre ++ A) m (B ++ post)); try done.
      destruct m; [done|]. by rewrite Ec.
    + intros x Hx. rewrite (found_lookup lv b key R _ m _ Ec HA HB Hm) in Hx. rewrite Hx in Ekv. rewrite Ekv in Eb.
      unfold is_bucket. cbn in Eb. by rewrite Eb.
  - right. split; [done|]. rewrite Ekv in Eb. destruct (head (option_list m ++ B)) as [x|] eqn:Ex; [|done].
    assert (Ecx : exists rest, option_list m ++ B = x :: rest).
    { destruct (option_list m ++ B) as [|y t]; [done|]. injection Ex as ->. by exists t. }
    destruct Ecx as [rest Ecx]. assert (Hall : cont lv = (pre ++ A) ++ x :: rest ++ post).
    { rewrite Ec, app_assoc, <- (app_assoc (pre ++ A)), (app_assoc (option_list m)), Ecx. done. }
    exists x. split; [rewrite Hall; set_solver|]. split; [unfold is_bucket; cbn in Eb; by rewrite Eb|].
    assert (Hx : x ∈ option_list m ++ B ++ post) by (rewrite app_assoc, Ecx; set_solver). split.
    + apply elem_of_app in Hx as [Hx|Hx].
      * destruct m as [y|]; cbn in Hx; [|by apply elem_of_nil in Hx]. apply list_elem_of_singleton in Hx as ->.
        rewrite (Hm y eq_refl). apply key_lt_irrefl.
      * intros Hl. apply (key_lt_irrefl key), (key_lt_trans _ (in_key x)); [by apply HB|done].
    + intros y Hy Hny. rewrite Hall in Hy. apply elem_of_app in Hy as [Hy|Hy]; [destruct Hny; by apply HA|].
      pose proof (cont_sorted _ Hlv) as Hs. rewrite Hall, fmap_app, fmap_cons in Hs.
      apply StronglySorted_app_1_r in Hs. apply StronglySorted_inv in Hs as [_ Hs]. apply elem_of_cons in Hy as [->|Hy].
      * apply key_lt_irrefl.
      * rewrite Forall_forall in Hs. specialize (Hs (in_key y) ltac:(by apply list_elem_of_fmap_2)).
        intros Hl. apply (key_lt_irrefl (in_key y)). by apply (key_lt_trans _ (in_key x)).
Qed.

Lemma Bucket_Get_ok lv b key fuel : ready lv b -> (length lv <= fuel)%nat ->
  Bucket_Get fuel key b = Ret (x ← bmap lv !! key; if is_bucket x then None else Some (in_value x)).
Proof.
  intros R Hf. pose proof (ry_inv _ _ R) as H. pose proof (in_lv _ _ H) as Hlv.
  destruct (at_leaf lv b key R fuel Hf) as (s & kv & i & id & es & l0 & pre & post & E & Ekv & F & _).
  destruct (found_split lv key i id es l0 pre post Hlv F) as (A & m & B & Ees & Hlb & HA & HB & Hm & Ec & Hclb).
  rewrite (found_head key es A m B Ees Hlb) in Ekv. unfold Bucket_Get. rewrite E. cbn [mbind outcome_bind].
  rewrite (found_lookup lv b key R _ m _ Ec HA HB Hm), Ekv. unfold is_bucket. destruct m as [x|]; cbn.
  - destruct (Z.land (in_flags x) bucketLeafFlag =? 0); cbn [negb]; [|done].
    rewrite decide_True; [done|]. symmetry. by apply Hm.
  - destruct B as [|y B]; cbn; [done|]. destruct (Z.land (in_flags y) bucketLeafFlag =? 0); cbn [negb]; [|done].
    rewrite decide_False; [done|]. intros ->. apply (key_lt_irrefl (in_key y)), HB. by left.
Qed.
