(* ===== verification/BoltRoom.v ===== *)
(** How large the file of a bolt database has to be for a commit: the pages that the nodes of
    a bucket's tree take ([level_bytes]), those that lie behind the old end of the file
    ([fresh_bytes]), a bound on both from the items of the bucket ([tree_bytes_bound]), and
    when db.mmap fails ([cannot_map]). *)

From Stdlib Require Import ZArith Lia.
From stdpp Require Import base numbers option list sorting gmap.
From S2P Require Import Prelude GoSort GoBytes BoltFreelist BoltNode BoltCursor BoltTx BoltLevels BoltSep BoltBucket.
#[local] Open Scope Z_scope.

(** ** Mapping the file *)

Lemma mmapSize_loop_spec n : forall i size, 0 <= i ->
  match mmapSize_loop n i size with
  | Some sz => size <= sz /\ sz <= 2 ^ (i + Z.of_nat n - 1) /\ sz <= Z.max (2 ^ i) (2 * size)
  | None => n = 0%nat \/ 2 ^ (i + Z.of_nat n - 1) < size
  end.
Proof.
  induction n as [|n IH]; intros i size Hi; cbn [mmapSize_loop]; [by left|].
  replace (i + Z.of_nat (S n) - 1) with (i + Z.of_nat n) by lia.
  rewrite Z.shiftl_1_l. destruct (Z.leb_spec size (2 ^ i)) as [Hs|Hs].
  - split; [done|]. split; [|lia]. apply Z.pow_le_mono_r; lia.
  - specialize (IH (i + 1) size ltac:(lia)). replace (i + Z.of_nat n) with (i + 1 + Z.of_nat n - 1) by lia.
    rewrite (Z.pow_add_r 2 i 1) in IH by lia. change (2 ^ 1) with 2 in IH.
    destruct (mmapSize_loop n (i + 1) size); [lia|]. right. destruct IH as [->|IH]; [|done].
    by replace (i + 1 + Z.of_nat 0 - 1) with i by lia.
Qed.

(** A map is as large as asked for, no larger than the address space, and not more than twice as large but for small change. *)
Lemma mmapSize_spec ps size sz : 0 < ps <= 2 ^ 16 -> mmapSize ps size = Some sz ->
  size <= sz <= maxMapSize /\ sz <= 2 * Z.max 0 size + 2 ^ 16.
Proof.
  intros Hps. unfold mmapSize. pose proof (mmapSize_loop_spec 16 15 size ltac:(lia)) as Hl.
  destruct (mmapSize_loop 16 15 size) as [s|].
  { intros [= <-]. assert (2 ^ (15 + Z.of_nat 16 - 1) <= maxMapSize) by (by vm_compute). change (2 ^ 15) with 32768 in Hl. lia. }
  destruct Hl as [?|Hl]; [done|]. change (2 ^ (15 + Z.of_nat 16 - 1)) with (2 ^ 30) in Hl. assert (0 <= size) by lia.
  destruct (Z.ltb_spec maxMapSize size) as [|Hsz]; [done|]. set (rm := Z.rem size maxMmapStep).
  assert (Hm : maxMmapStep = 2 ^ 30) by reflexivity. pose proof (Z.rem_bound_pos size maxMmapStep ltac:(lia) ltac:(lia)) as Hrm. fold rm in Hrm.
  set (s1 := if 0 <? rm then size + (maxMmapStep - rm) else size). assert (H1 : size <= s1 <= size + 2 ^ 30).
  { unfold s1. destruct (Z.ltb_spec 0 rm); lia. }
  set (s2 := if negb (Z.rem s1 ps =? 0) then (Z.quot s1 ps + 1) * ps else s1). assert (H2 : s1 <= s2 <= s1 + ps).
  { unfold s2. destruct (Z.eqb_spec (Z.rem s1 ps) 0); cbn [negb]; [lia|].
    pose proof (Z.quot_rem' s1 ps). pose proof (Z.rem_bound_pos s1 ps ltac:(lia) ltac:(lia)). nia. }
  intros [= <-]. destruct (Z.ltb_spec maxMapSize s2); lia.
Qed.

Lemma mmapSize_none ps size : mmapSize ps size = None -> maxMapSize < size.
Proof.
  unfold mmapSize. destruct (mmapSize_loop 16 15 size); [done|]. by destruct (Z.ltb_spec maxMapSize size).
Qed.

(** A file of [size] bytes or more, at least [minsz], cannot be mapped: it is shorter than the two meta
    pages, larger than the address space, or the operating system refuses a map of that size. *)
Definition cannot_map (c : config) (minsz : Z) : Prop :=
  let size := Z.max (c_filesz c) minsz in
  c_filesz c < 2 * c_pageSize c \/ maxMapSize < size \/
  exists sz, size <= sz <= maxMapSize /\ sz <= 2 * size + 2 ^ 16 /\ c_maps c sz = false.

Lemma db_mmap_spec c minsz : 0 < c_pageSize c <= 2 ^ 16 ->
  match db_mmap c minsz with Some sz => minsz <= sz <= maxMapSize | None => cannot_map c minsz end.
Proof.
  intros Hps. unfold db_mmap, cannot_map. destruct (Z.ltb_spec (c_filesz c) (c_pageSize c * 2)); [left; lia|].
  replace (if c_filesz c <? minsz then minsz else c_filesz c) with (Z.max (c_filesz c) minsz) by (destruct (Z.ltb_spec (c_filesz c) minsz); lia).
  set (size := Z.max (c_filesz c) minsz). destruct (mmapSize (c_pageSize c) size) as [sz|] eqn:E; cbn [mbind option_bind].
  - apply mmapSize_spec in E; [|done]. destruct (c_maps c sz) eqn:Em; [lia|]. right. right. exists sz. split; [lia|]. split; [lia|done].
  - right. left. by eapply mmapSize_none.
Qed.

(** ** Room in the file *)

(** What a part of a commit starts from at the least, high-water mark and size of the map, and the
    size up to which it may ask for the file to be mapped. *)
Record room := mkRoom { r_hwm : Z; r_datasz : Z; r_limit : Z }.

(** Failing is for a file that cannot be mapped at a size that is needed. *)
Definition mmap_fails {A} (c : config) (R : room) (r : outcome bolt_error A) : Prop :=
  r = Fail ErrMmap /\
  exists minsz, (r_hwm R + 2) * c_pageSize c <= minsz <= r_limit R /\ r_datasz R <= minsz /\ cannot_map c minsz.

(** There is room for [need] more bytes in pages, and the end of the file. *)
Definition has_room (c : config) (R : room) (b : txb) (need : Z) : Prop :=
  r_hwm R <= t_hwm b /\ r_datasz R <= t_datasz b /\ t_hwm b * c_pageSize c + need + c_pageSize c <= r_limit R.

(** ** The size of a tree *)

Definition node_bytes (es : list inode) : Z := 16 + 16 * Z.of_nat (length es) + data_size es.

(** Pages that hold the nodes of a level; one page more than the bytes fill. *)
Fixpoint level_bytes (ps : Z) (l : level) : Z :=
  match l with [] => 0 | n :: l => node_bytes n.2 + ps + level_bytes ps l end.

(** Those at [h] or behind. *)
Fixpoint fresh_bytes (ps h : Z) (l : level) : Z :=
  match l with [] => 0 | n :: l => (if h <=? n.1 then node_bytes n.2 + ps else 0) + fresh_bytes ps h l end.

Lemma node_bytes_pos es : 16 <= node_bytes es.
Proof. unfold node_bytes. pose proof (data_size_nonneg es). lia. Qed.

Lemma size_bytes n : size n = node_bytes (inodes n).
Proof. apply size_data. Qed.

Section bytes.
Context (ps : Z) (Hps : 0 <= ps).

Lemma level_bytes_app l1 l2 : level_bytes ps (l1 ++ l2) = level_bytes ps l1 + level_bytes ps l2.
Proof. induction l1 as [|n l1 IH]; cbn [app level_bytes]; lia. Qed.

Lemma fresh_bytes_app h l1 l2 : fresh_bytes ps h (l1 ++ l2) = fresh_bytes ps h l1 + fresh_bytes ps h l2.
Proof. induction l1 as [|n l1 IH]; cbn [app fresh_bytes]; lia. Qed.

Lemma level_bytes_perm l1 l2 : l1 ≡ₚ l2 -> level_bytes ps l1 = level_bytes ps l2.
Proof. induction 1; cbn [level_bytes]; lia. Qed.

Lemma fresh_bytes_perm h l1 l2 : l1 ≡ₚ l2 -> fresh_bytes ps h l1 = fresh_bytes ps h l2.
Proof. induction 1; cbn [fresh_bytes]; lia. Qed.

Lemma fresh_bytes_le h l : 0 <= fresh_bytes ps h l <= level_bytes ps l.
Proof.
  induction l as [|n l IH]; cbn [fresh_bytes level_bytes]; [lia|]. pose proof (node_bytes_pos n.2). destruct (h <=? n.1); lia.
Qed.

Lemma level_bytes_nonneg l : 0 <= level_bytes ps l.
Proof. pose proof (fresh_bytes_le 0 l). lia. Qed.

Lemma fresh_bytes_mono h h' l : h <= h' -> fresh_bytes ps h' l <= fresh_bytes ps h l.
Proof.
  intros H. induction l as [|n l IH]; cbn [fresh_bytes]; [lia|]. pose proof (node_bytes_pos n.2).
  destruct (Z.leb_spec h n.1), (Z.leb_spec h' n.1); lia.
Qed.

Lemma data_size_app l1 l2 : data_size (l1 ++ l2) = data_size l1 + data_size l2.
Proof. induction l1 as [|x l1 IH]; [done|]. cbn [app]. rewrite !data_size_cons. lia. Qed.

Lemma data_size_perm l1 l2 : l1 ≡ₚ l2 -> data_size l1 = data_size l2.
Proof. induction 1; rewrite ?data_size_cons; lia. Qed.

(** A level by its nodes and its inodes. *)
Lemma level_bytes_items l :
  level_bytes ps l = (16 + ps) * Z.of_nat (length l) + 16 * Z.of_nat (length (items l)) + data_size (items l).
Proof.
  induction l as [|n l IH]; [cbn; lia|]. rewrite items_cons, data_size_app, length_app. cbn [level_bytes length].
  unfold node_bytes. lia.
Qed.

Lemma level_bytes_pieces ls : (forall n, n ∈ ls -> n.2 <> []) \/ (length ls <= 1)%nat ->
  level_bytes ps ls <= node_bytes (items ls) + ps + (16 + ps) * Z.of_nat (length (items ls)).
Proof.
  intros H. rewrite level_bytes_items. unfold node_bytes. assert (Hl : (length ls <= 1 + length (items ls))%nat); [|nia].
  destruct H as [H|H]; [|lia]. transitivity (length (items ls)); [|lia]. clear -H. induction ls as [|n l IH]; [done|].
  rewrite items_cons, length_app. cbn [length]. specialize (IH ltac:(intros m Hm; apply H; by right)).
  specialize (H n ltac:(by left)). destruct n.2; [done|cbn; lia].
Qed.

(** ** A bound from the items *)

(** The sizes of the levels fall by half from one to the next. *)
Lemma halving_sum (lv : list level) : (forall k lo up, lv !! k = Some lo -> lv !! S k = Some up -> (2 * length up <= length lo)%nat) ->
  (length (concat lv) <= 2 * length (lvl lv 0))%nat.
Proof.
  induction lv as [|l lv IH]; intros H; [cbn; lia|]. cbn [concat]. rewrite length_app.
  specialize (IH (fun k lo up => H (S k) lo up)). change (lvl (l :: lv) 0) with l. destruct lv as [|u lv]; [cbn; lia|].
  change (lvl (u :: lv) 0) with u in IH. specialize (H 0%nat l u eq_refl eq_refl). lia.
Qed.

(** A branch with two children or more in each node. *)
Lemma arity_half lv k lo up : lv_ok lv -> arity lv None -> lv !! k = Some lo -> lv !! S k = Some up -> (2 * length up <= length lo)%nat.
Proof.
  intros Hlv Ha Hlo Hup. destruct (lo_above _ Hlv _ _ _ Hlo Hup) as [Hf _].
  assert (El : length (items up) = length lo) by (by rewrite <- (length_fmap in_pgid), Hf, length_fmap). rewrite <- El.
  assert (H2 : forall n, n ∈ up -> (2 <= length n.2)%nat).
  { intros [id es] Hn. apply (Ha k id es). by exists up. }
  revert H2. clear. induction up as [|n l IH]; intros H2; [cbn; lia|]. rewrite items_cons, length_app. cbn [length].
  specialize (H2 n ltac:(by left)) as Hn. specialize (IH ltac:(intros m Hm; apply H2; by right)). lia.
Qed.

(** The bytes of the levels of branches. *)
Lemma branch_bytes l : Forall (fun n => Forall (item_valid false) n.2) l ->
  data_size (items l) <= MaxKeySize * Z.of_nat (length (items l)).
Proof.
  intros V. assert (V' : Forall (item_valid false) (items l)).
  { apply Forall_forall. intros x (n & Hn & Hx)%elem_of_items. rewrite Forall_forall in V. specialize (V n Hn). rewrite Forall_forall in V. by apply V. }
  clear V. induction (items l) as [|x xs IH]; [cbn; lia|]. apply Forall_cons in V' as [Vx V']. rewrite data_size_cons. cbn [length].
  specialize (IH V'). unfold data_len. destruct (iv_branch _ _ Vx eq_refl) as (_ & -> & _). pose proof (iv_keylen _ _ Vx). cbn [length]. lia.
Qed.

(** Levels of branches above a level. *)
Lemma branches_bytes (ls : list level) : forall lo,
  (forall k a u, (lo :: ls) !! k = Some a -> (lo :: ls) !! S k = Some u -> length (items u) = length a) ->
  (forall k l, ls !! k = Some l -> Forall (fun n => Forall (item_valid false) n.2) l) ->
  (16 + ps) * Z.of_nat (length lo) + level_bytes ps (concat ls) <= (32 + ps + MaxKeySize) * Z.of_nat (length (concat (lo :: ls))).
Proof.
  assert (HM : 0 < MaxKeySize) by reflexivity. induction ls as [|u ls IH]; intros lo Hc V.
  - cbn [concat level_bytes]. rewrite app_nil_r. nia.
  - specialize (IH u (fun k => Hc (S k)) (fun k => V (S k))).
    pose proof (branch_bytes u (V 0%nat u eq_refl)) as Hb. rewrite (Hc 0%nat lo u eq_refl eq_refl) in Hb.
    cbn [concat] in IH |- *. rewrite level_bytes_app, level_bytes_items, (Hc 0%nat lo u eq_refl eq_refl).
    rewrite !length_app in *. nia.
Qed.

(** The pages of the tree of a bucket. *)
Definition tree_bytes (es : list inode) : Z :=
  data_size es + 16 * Z.of_nat (length es) + 2 * (Z.of_nat (length es) + 1) * (32 + ps + MaxKeySize).

Lemma tree_bytes_bound lv : lv_ok lv -> ((1 < length lv)%nat -> full lv) -> arity lv None ->
  (forall d id es, entry lv d id es -> Forall (item_valid (d =? 0)%nat) es) -> level_bytes ps (concat lv) <= tree_bytes (cont lv).
Proof.
  intros Hlv Hf Ha V. pose proof (halving_sum lv (fun k lo up => arity_half lv k lo up Hlv Ha)) as Hh.
  destruct lv as [|lo ls]; [pose proof (lv_height _ Hlv) as Hh0; cbn in Hh0; lia|]. change (lvl (lo :: ls) 0) with lo in Hh. cbn [cont].
  assert (Hlo : (length lo <= 1 + length (items lo))%nat).
  { destruct (decide (1 < length (lo :: ls))%nat) as [Hl|Hl].
    - specialize (Hf Hl). transitivity (length (items lo)); [|lia].
      pose proof (fun n => full_lvl (lo :: ls) 0 n Hf) as Hn. change (lvl (lo :: ls) 0) with lo in Hn. revert Hn. clear.
      induction lo as [|n l IH]; intros Hn; [done|]. rewrite items_cons, length_app. cbn [length].
      specialize (IH ltac:(intros m Hm; apply Hn; by right)). specialize (Hn n ltac:(by left)). destruct n.2; [done|cbn; lia].
    - destruct (lo_top _ Hlv) as (r & es & Ht). destruct ls as [|? ?]; [|cbn in Hl; lia]. injection Ht as ->. cbn. lia. }
  assert (HM : 0 < MaxKeySize) by reflexivity. assert (Hb : (16 + ps) * Z.of_nat (length lo) + level_bytes ps (concat ls) <=
    (32 + ps + MaxKeySize) * Z.of_nat (length (concat (lo :: ls)))).
  { apply branches_bytes.
    - intros k a u Hk Hu. destruct (lo_above _ Hlv _ _ _ Hk Hu) as [E _]. by rewrite <- (length_fmap in_pgid), E, length_fmap.
    - intros k l Hk. apply Forall_forall. intros [id es] Hn. apply (V (S k) id es). by exists l. }
  cbn [concat] in Hh, Hb |- *. rewrite level_bytes_app, level_bytes_items. unfold tree_bytes. nia.
Qed.
End bytes.

(** What a commit of a bucket may need behind the end of the file: the pages of its tree, at
    most two for each item, and one more for each piece that a node is split into. *)
Definition commit_bytes (ps : Z) (es : list inode) : Z :=
  data_size es + (Z.of_nat (length es) + 1) * (3 * ps + 96 + 2 * MaxKeySize).

Lemma commit_bytes_perm ps l1 l2 : l1 ≡ₚ l2 -> commit_bytes ps l1 = commit_bytes ps l2.
Proof. intros H. unfold commit_bytes. by rewrite (data_size_perm _ _ H), (Permutation_length H). Qed.

(** The tree with the pieces of one of its nodes. *)
Lemma commit_bytes_tree ps es (n : nat) : 0 <= ps -> (n <= length es)%nat ->
  tree_bytes ps es + (16 + ps) * Z.of_nat n <= commit_bytes ps es.
Proof. intros Hps Hn. unfold commit_bytes, tree_bytes. nia. Qed.
