(* ===== verification/BoltRebalance.v ===== *)
(** bolt's rebalance: it keeps the bucket's items, the order of its keys and the pages it
    owns; afterwards every branch has two children or more and no leaf but the root is
    empty.

    [space] says what a bucket owns: its pages, each with its overflow pages, are apart
    from each other, from the pages of others, [rest], and from the freelist. *)

From Stdlib Require Import ZArith Lia.
From stdpp Require Import base numbers option list sorting gmap fin_sets.
From S2P Require Import Prelude GoSort GoBytes BoltFreelist BoltNode BoltCursor BoltTx BoltLevels BoltSep BoltBucket.
#[local] Open Scope Z_scope.

(** ** Pages *)

Definition span (b : txb) (id : Z) : list Z :=
  if id =? 0 then []
  else match t_pages b !! id with Some p => seqZ id (pg_overflow p + 1) | None => [] end.

Definition owned (I : list Z) (b : txb) : list Z := concat (span b <$> I).

(** The pages of the freelist, free or pending. *)
Definition listed (b : txb) : list Z := BoltFreelist.ids (t_free b) ++ pend (t_free b).

(** The pages [I] of a bucket, the pages [rest] of others, and the freelist. *)
Record pages_ok (pageSize : Z) (rest I : list Z) (b : txb) : Prop := {
  sp_fl : fl_ok (t_free b);
  sp_pages : forall id, id ∈ I -> id <> 0 -> exists p, t_pages b !! id = Some p /\ pg_id p = id /\ 0 <= pg_overflow p;
  sp_nodup : NoDup (owned I b ++ rest ++ listed b);
  sp_range : forall x, x ∈ owned I b ++ rest ++ listed b -> 1 < x < t_hwm b;
  sp_hwm : 1 < t_hwm b /\ t_hwm b * pageSize <= maxMapSize /\ t_datasz b <= maxMapSize;
  sp_pageSize : 0 < pageSize
}.

Definition space (pageSize : Z) (rest : list Z) (lv : list level) : txb -> Prop := pages_ok pageSize rest (ids lv).

Lemma pages_same ps rest I b b' : t_pages b' = t_pages b -> t_hwm b' = t_hwm b -> t_free b' = t_free b ->
  t_datasz b' = t_datasz b -> pages_ok ps rest I b -> pages_ok ps rest I b'.
Proof.
  intros E1 E2 E3 E4 [S1 S2 S3 S4 S5 S6].
  assert (Eo : owned I b' = owned I b) by (unfold owned, span; by rewrite E1).
  assert (El : listed b' = listed b) by (unfold listed; by rewrite E3).
  split; rewrite ?E1, ?E2, ?E3, ?E4, ?Eo, ?El; done.
Qed.

Lemma space_same ps rest lv b b' : t_pages b' = t_pages b -> t_hwm b' = t_hwm b -> t_free b' = t_free b ->
  t_datasz b' = t_datasz b -> space ps rest lv b -> space ps rest lv b'.
Proof. apply pages_same. Qed.

Lemma pages_perm ps rest I I' b : I ≡ₚ I' -> pages_ok ps rest I b -> pages_ok ps rest I' b.
Proof.
  intros E [S1 S2 S3 S4 S5 S6].
  assert (Eo : owned I b ≡ₚ owned I' b) by (unfold owned; by apply concat_perm; rewrite E).
  split; try done.
  - intros id Hid. apply S2. by rewrite E.
  - by rewrite <- Eo.
  - intros x Hx. apply S4. by rewrite Eo.
Qed.

Lemma hwm_small ps rest I b : pages_ok ps rest I b -> t_hwm b < 2 ^ 48.
Proof.
  intros [_ _ _ _ (? & Hm & _) Hp]. assert (maxMapSize = 2 ^ 48 - 1) by reflexivity. nia.
Qed.

(** Between two states every page in use goes on being used or is given to the freelist, and
    nothing else enters it: none is lost. *)
Definition accounted (I : list Z) (b : txb) (I' : list Z) (b' : txb) : Prop :=
  owned I b ++ listed b ≡ₚ owned I' b' ++ listed b'.

Lemma accounted_refl I b b' : t_pages b' = t_pages b -> t_free b' = t_free b -> accounted I b I b'.
Proof. intros E1 E2. unfold accounted, owned, span, listed. by rewrite E1, E2. Qed.

Lemma accounted_trans I1 b1 I2 b2 I3 b3 : accounted I1 b1 I2 b2 -> accounted I2 b2 I3 b3 -> accounted I1 b1 I3 b3.
Proof. apply Permutation_trans. Qed.

Lemma accounted_perm I b I' b' J J' : I ≡ₚ J -> I' ≡ₚ J' -> accounted I b I' b' -> accounted J b J' b'.
Proof. unfold accounted, owned. intros E E' H. by rewrite <- E, <- E'. Qed.

Lemma span_page b y p : y <> 0 -> t_pages b !! y = Some p -> span b y = seqZ y (pg_overflow p + 1).
Proof. intros Hy Hp. unfold span. destruct (Z.eqb_spec y 0); [done|]. by rewrite Hp. Qed.

(** The pages that free lists. *)
Lemma free_listed b txid y p f : fl_ok (t_free b) -> 0 <= pg_overflow p -> y <> 0 -> t_pages b !! y = Some p ->
  y + pg_overflow p + 1 < 2 ^ 64 -> free txid y (pg_overflow p) (t_free b) = Ret f -> listed (s_free f b) ≡ₚ span b y ++ listed b.
Proof.
  intros S1 Hov Hy Hp Hr Hf. pose proof (free_spec (t_free b) txid y (pg_overflow p) S1 Hov Hr) as H. rewrite Hf in H.
  destruct H as (_ & _ & _ & Eids & Epend). rewrite (span_page _ _ _ Hy Hp).
  unfold listed; cbn [s_free t_free]. rewrite Eids. unfold pend at 1, pending_lists. rewrite Epend, pend_insert.
  rewrite (pend_default (t_free b) txid). solve_Permutation.
Qed.

(** A page that goes is freed. *)
Lemma free_page ps rest I b txid y : pages_ok ps rest (y :: I) b -> y <> 0 ->
  exists p f, t_pages b !! y = Some p /\ free txid (pg_id p) (pg_overflow p) (t_free b) = Ret f /\
    BoltFreelist.ids f = BoltFreelist.ids (t_free b) /\ pages_ok ps rest I (s_free f b) /\ accounted (y :: I) b I (s_free f b).
Proof.
  intros S Hy. pose proof (hwm_small _ _ _ _ S) as Hw. destruct S as [S1 S2 S3 S4 S5 S6].
  destruct (S2 y) as (p & Hp & Hid & Hov); [by left|done|].
  assert (Eo : owned (y :: I) b = span b y ++ owned I b) by done.
  pose proof (span_page _ _ _ Hy Hp) as Es.
  assert (Hspan : forall x, y <= x <= y + pg_overflow p -> x ∈ span b y).
  { intros x Hx. rewrite Es. apply elem_of_seqZ. lia. }
  assert (Hr : forall x, y <= x <= y + pg_overflow p -> 1 < x < t_hwm b).
  { intros x Hx. apply S4. rewrite Eo, !elem_of_app. left. left. by apply Hspan. }
  exists p. pose proof (free_spec (t_free b) txid y (pg_overflow p) S1 Hov) as Hf. rewrite Hid.
  pose proof (Hr (y + pg_overflow p) ltac:(lia)). pose proof (Hr y ltac:(lia)). specialize (Hf ltac:(lia)).
  assert (Hlisted : forall x, x ∈ span b y -> x ∉ listed b).
  { intros x Hx Hl. rewrite Eo, <- app_assoc in S3. apply NoDup_app in S3 as (_ & S3 & _). apply (S3 x Hx).
    rewrite !elem_of_app. by do 2 right. }
  pose proof (free_listed b txid y p) as Hfl.
  destruct (free txid y (pg_overflow p) (t_free b)) as [f| |] eqn:Ef; [|done|].
  2: { exfalso. destruct Hf as [?|(x & Hx & Hfr)]; [lia|]. apply bool_decide_eq_true in Hfr.
       apply (fo_cache _ S1) in Hfr. by apply (Hlisted x); [apply Hspan|]. }
  destruct Hf as (_ & _ & Hok & Eids & Epend). exists f. split; [done|]. split; [done|]. split; [done|].
  specialize (Hfl f S1 Hov Hy Hp ltac:(lia) eq_refl). rename Hfl into El.
  assert (Eall : owned I (s_free f b) ++ rest ++ listed (s_free f b) ≡ₚ owned (y :: I) b ++ rest ++ listed b).
  { rewrite El, Eo. change (owned I (s_free f b)) with (owned I b). solve_Permutation. }
  split; [split; try done|].
  - intros id Hi. apply S2. by right.
  - by rewrite Eall.
  - intros x Hx. apply S4. by rewrite <- Eall.
  - unfold accounted. rewrite El, Eo. change (owned I (s_free f b)) with (owned I b). solve_Permutation.
Qed.

Lemma free_space ps rest lv lv' b txid y : space ps rest lv b -> ids lv ≡ₚ y :: ids lv' -> y <> 0 ->
  exists p f, t_pages b !! y = Some p /\ free txid (pg_id p) (pg_overflow p) (t_free b) = Ret f /\
    BoltFreelist.ids f = BoltFreelist.ids (t_free b) /\ space ps rest lv' (s_free f b) /\
    accounted (ids lv) b (ids lv') (s_free f b).
Proof.
  intros S Ep Hy. destruct (free_page ps rest (ids lv') b txid y) as (p & f & Hp & Hf & Ei & Hs & Hac); [by eapply pages_perm|done|].
  exists p, f. do 4 (split; [done|]). by eapply accounted_perm.
Qed.

(** ** Dropping a node *)

Lemma is_root_entry lv id : lv_ok lv -> is_root lv id <-> exists es, entry lv (length lv - 1) id es.
Proof.
  intros Hlv. split; [apply root_entry|]. intros (es & l & Hl & Hin). pose proof (lv_height _ Hlv).
  pose proof (top_entry lv _ l id es Hlv Hl ltac:(lia) Hin) as ->. exists es. rewrite last_lookup.
  by replace (Init.Nat.pred (length lv)) with (length lv - 1)%nat by lia.
Qed.

Lemma entry_nonzero lv b d id es : inv lv b -> (1 < length lv)%nat -> entry lv d id es -> id <> 0.
Proof.
  intros H Hlen He. pose proof (in_lv _ _ H) as Hlv. destruct (decide (S d < length lv)%nat) as [Hd|Hd].
  - destruct (has_parent _ _ _ _ Hlv He Hd) as (P & ps & e & HP & Hin & <-).
    pose proof (in_items _ _ H _ _ _ HP) as Hf. rewrite Forall_forall in Hf.
    destruct (iv_branch _ _ (Hf e Hin) eq_refl) as (_ & _ & ?). lia.
  - assert (d = length lv - 1)%nat as ->.
    { destruct He as (l & Hl & _). apply lookup_lt_Some in Hl. lia. }
    pose proof (in_root _ _ H) as Hr. assert (Hid : is_root lv id) by (apply is_root_entry; eauto).
    rewrite (is_root_unique _ _ _ Hid Hr). pose proof (in_inline _ _ H) as Hi.
    destruct (Z.eqb_spec (t_root b) 0); [lia|done].
Qed.

(** The nodes in memory of a list of inodes. *)
Definition kids (b : txb) (l : list inode) : list nat := omap (fun e => t_nodes b !! in_pgid e) l.

Lemma elem_of_kids b l c : c ∈ kids b l <-> exists e, e ∈ l /\ t_nodes b !! in_pgid e = Some c.
Proof. unfold kids. by rewrite list_elem_of_omap. Qed.

Lemma remove_first_spec x l : NoDup l -> NoDup (remove_first x l) /\ forall c, c ∈ remove_first x l <-> c ∈ l /\ c <> x.
Proof.
  induction 1 as [|y l Hy Hn IH]; cbn [remove_first].
  - split; [constructor|]. intros c. split; [intros Hc; by apply elem_of_nil in Hc|intros [Hc _]; by apply elem_of_nil in Hc].
  - destruct IH as [IH1 IH2]. destruct (decide (y = x)) as [->|Hne].
    + split; [done|]. intros c. rewrite elem_of_cons. split; [|naive_solver].
      intros Hc. split; [by right|]. by intros ->.
    + split.
      * constructor; [|done]. by rewrite IH2; intros [? _].
      * intros c. rewrite !elem_of_cons, IH2. naive_solver.
Qed.

Section drop_inv.
Context (lv : list level) (b : txb).
Context (d : nat) (l1 l1' l2 u1 u2 : level) (y P : Z) (ys a t : list inode) (e : inode) (dst : option Z).
Context (H : inv lv b).
Context (Hl : lv !! d = Some (l1 ++ (y, ys) :: l2)).
Context (Hu : lv !! S d = Some (u1 ++ (P, a ++ e :: t) :: u2)).
Context (Hlen : (length l1 = length (items u1) + length a)%nat).
Context (Hdst : match dst with
                | None => l1' = l1 /\ ys = []
                | Some z => exists l zs, l1 = l ++ [(z, zs)] /\ l1' = l ++ [(z, zs ++ ys)]
                end).
Let lv' := drop_node lv d l1' l2 u1 u2 P a t.
Context (srcp : nat) (Hsrc : t_nodes b !! y = Some srcp) (Hdirty : is_Some (t_nodes b !! P)).

Definition dst_ptr : option nat := z ← dst; t_nodes b !! z.
Context (Hdp : match dst with Some z => is_Some (t_nodes b !! z) | None => True end).

Lemma drop_absorbs : absorbs l1 l1' ys.
Proof.
  clear - Hdst. destruct dst as [z|].
  - destruct Hdst as (l & zs & -> & ->). apply absorbs_last.
  - destruct Hdst as [-> ->]. apply absorbs_none.
Qed.

(** The object of another node afterwards. *)
Definition newobj (id : Z) (o : nobj) : nobj :=
  if decide (id = P) then
    mkNobj (mkNode (isLeaf (o_node o)) true (spilled (o_node o)) (n_key (o_node o)) (n_pgid (o_node o)) (a ++ t))
      (o_parent o) (remove_first srcp (o_children o))
  else if decide (dst = Some id) then
    mkNobj (set_inodes (inodes (o_node o) ++ ys) (o_node o)) (o_parent o) (o_children o ++ kids b ys)
  else if decide (id ∈ in_pgid <$> ys) then o_setParent dst_ptr o
  else o.

Lemma drop_len : (1 < length lv)%nat.
Proof. clear - Hu. pose proof (lookup_lt_Some _ _ _ Hu). lia. Qed.

Lemma ys_entry : entry lv d y ys.
Proof. eexists. split; [exact Hl|]. apply elem_of_app. right. by left. Qed.

Lemma level_cases : d = 0%nat \/ exists d', d = S d'.
Proof. clear. destruct d; eauto. Qed.

Lemma ys_child i x xs k : entry lv k x xs -> i ∈ ys -> in_pgid i = x -> exists d', d = S d' /\ k = d' /\ child_of lv d' y ys i x.
Proof.
  intros Hx Hi Ei. pose proof ys_entry as Hy. destruct level_cases as [E0|[d' Ed]].
  - rewrite E0 in Hy. pose proof (in_items _ _ H _ _ _ Hy) as Hf. rewrite Forall_forall in Hf.
    destruct (iv_leaf _ _ (Hf i Hi) eq_refl) as [E1 _]. destruct (entry_nonzero _ _ _ _ _ H drop_len Hx). congruence.
  - rewrite Ed in Hy. exists d'. split; [done|]. destruct (has_child _ _ _ _ _ (in_lv _ _ H) Hy Hi) as [es Hes]. rewrite Ei in Hes.
    destruct (entry_inj _ _ _ _ _ _ (in_lv _ _ H) Hx Hes) as [-> _]. done.
Qed.

Lemma kids_nodup : NoDup (kids b ys).
Proof.
  assert (Hn : d = 0%nat \/ NoDup (in_pgid <$> ys)).
  { pose proof ys_entry as Hy. destruct level_cases as [?|[d' Ed]]; [by left|right]. rewrite Ed in Hy. by eapply NoDup_pgids; [apply (in_lv _ _ H)|]. }
  destruct Hn as [E|Hn].
  - assert (kids b ys = []) as ->; [|constructor]. apply elem_of_nil_inv. intros c Hc.
    apply elem_of_kids in Hc as (i & Hi & Hc). destruct (in_dirty _ _ H _ _ Hc) as (k & xs & o & Hx & _).
    destruct (ys_child i _ _ _ Hx Hi eq_refl) as (d' & ? & _). lia.
  - clear Hl Hdst Hdp. unfold kids. induction ys as [|i l IH]; cbn; [constructor|]. cbn in Hn. apply NoDup_cons in Hn as [Hi Hn].
    destruct (t_nodes b !! in_pgid i) as [c|] eqn:Ec; [|by apply IH]. constructor; [|by apply IH].
    intros Hc. apply list_elem_of_omap in Hc as (j & Hj & Hjc). apply Hi.
    rewrite (dirty_inj lv b _ _ c H Ec Hjc). by apply list_elem_of_fmap_2.
Qed.
Context (b' : txb).
Context (Hnodes : t_nodes b' = delete y (t_nodes b)).

Lemma new_nodes x q : x <> y -> t_nodes b !! x = Some q -> t_nodes b' !! x = Some q.
Proof. intros Hx Hq. rewrite Hnodes. by rewrite lookup_delete_ne. Qed.

Let nes := newes P ys a t dst.
Let Hlv : lv_ok lv := in_lv _ _ H.

Lemma to_entry k x xs : entry lv k x xs -> x <> y -> entry lv' k x (nes x xs).
Proof. exact (drop_entry_to lv d l1 l1' l2 u1 u2 y P ys a t e Hlv Hl Hu Hlen drop_absorbs dst Hdst k x xs). Qed.

Lemma from_entry k x xs' : entry lv' k x xs' -> x <> y /\ exists xs, entry lv k x xs /\ xs' = nes x xs.
Proof. apply (drop_entry lv d l1 l1' l2 u1 u2 y P ys a t e Hlv Hl Hu Hlen drop_absorbs dst Hdst k x xs'). Qed.

Lemma to_child k Q qs i x : child_of lv k Q qs i x -> x <> y ->
  if decide (Q = y) then exists z zs, dst = Some z /\ child_of lv' k z zs i x
  else child_of lv' k Q (nes Q qs) i x.
Proof. apply (drop_child_to lv d l1 l1' l2 u1 u2 y P ys a t e Hlv Hl Hu Hlen drop_absorbs dst Hdst k Q qs i x). Qed.

Lemma from_child k Q qs i x : child_of lv' k Q qs i x -> exists Q' qs', child_of lv k Q' qs' i x.
Proof. apply (drop_child_from lv d l1 l1' l2 u1 u2 y P ys a t e Hlv Hl Hu Hlen drop_absorbs dst Hdst k Q qs i x). Qed.

Lemma dst_entry z : dst = Some z -> exists zs, entry lv d z zs /\ z <> y /\ z <> P.
Proof. apply (drop_dst lv d l1 l1' l2 u1 u2 y P ys a t e Hlv Hl Hu Hlen drop_absorbs dst Hdst z). Qed.

Lemma P_entry : entry lv (S d) P (a ++ e :: t) /\ P <> y /\ dst <> Some P /\ dst <> Some y.
Proof.
  assert (HP : entry lv (S d) P (a ++ e :: t)).
  { eexists. split; [exact Hu|]. apply elem_of_app. right. by left. }
  split; [done|]. clear Hsrc Hdirty Hdp Hnodes.
  split; [intros E; pose proof HP as HP'; rewrite E in HP'; destruct (entry_inj _ _ _ _ _ _ Hlv HP' ys_entry); lia|].
  split; intros E; destruct (dst_entry _ E) as (? & _ & ? & ?); done.
Qed.

(** A child of [y] is none of the nodes that change otherwise. *)
Lemma kid_other k id xs : entry lv k id xs -> id ∈ in_pgid <$> ys -> id <> P /\ dst <> Some id /\ id <> y /\
  exists i, S k = d /\ i ∈ ys /\ child_of lv k y ys i id.
Proof.
  intros He Hin. apply list_elem_of_fmap in Hin as (i & Ei & Hi).
  destruct (ys_child i id xs k He Hi (eq_sym Ei)) as (d' & Ed & -> & Hc). split_and!.
  - intros ->. destruct (entry_inj _ _ _ _ _ _ Hlv He (proj1 P_entry)). lia.
  - intros E. destruct (dst_entry _ E) as (zs & Hz & _). destruct (entry_inj _ _ _ _ _ _ Hlv He Hz). lia.
  - intros ->. destruct (entry_inj _ _ _ _ _ _ Hlv He ys_entry). lia.
  - by exists i.
Qed.

Lemma newobj_fields id o : n_key (o_node (newobj id o)) = n_key (o_node o) /\
  isLeaf (o_node (newobj id o)) = isLeaf (o_node o) /\ n_pgid (o_node (newobj id o)) = n_pgid (o_node o) /\
  spilled (o_node (newobj id o)) = spilled (o_node o).
Proof. unfold newobj. repeat (destruct (decide _); [done|]). done. Qed.

(** A node's parent afterwards. *)
Lemma new_parent k id xs o q : entry lv k id xs -> id <> y -> t_nodes b !! id = Some q -> dirty lv b k id xs o ->
  match o_parent (newobj id o) with
  | None => S k = length lv' /\ n_key (o_node (newobj id o)) <> Some []
  | Some r => exists Q qs i, child_of lv' k Q qs i id /\ t_nodes b' !! Q = Some r /\ n_key (o_node (newobj id o)) = Some (in_key i)
  end.
Proof.
  intros He Hy Hq D. pose proof (dr_parent _ _ _ _ _ _ D) as Hp. destruct (newobj_fields id o) as (-> & _).
  assert (Hdl : length lv' = length lv) by apply drop_length. rewrite Hdl.
  destruct (decide (id ∈ in_pgid <$> ys)) as [Hin|Hin].
  - destruct (kid_other k id xs He Hin) as (HnP & Hnd & _ & i & Ek & Hi & Hc).
    pose proof (to_child _ _ _ _ _ Hc Hy) as Ht. rewrite decide_True in Ht by done. destruct Ht as (z & zs & Ez & Hcz).
    unfold newobj. rewrite !decide_False, decide_True by done. cbn [o_setParent o_parent].
    destruct (dst_entry _ Ez) as (_ & _ & Hzy & _). pose proof Hdp as Hz. unfold dst_ptr. rewrite Ez in Hz |- *.
    destruct Hz as [r Hr]. cbn [mbind option_bind]. rewrite Hr. exists z, zs, i. split; [done|]. split; [by apply new_nodes|].
    destruct (o_parent o) as [r'|].
    + destruct Hp as (Q & qs & j & Hc' & _ & ->). by destruct (parent_unique _ _ _ _ _ _ _ _ _ _ Hlv Hc Hc') as (_ & _ & _ & ->).
    + destruct Hc as ((l & Hk & _) & _). apply lookup_lt_Some in Hk. lia.
  - assert (Ep : o_parent (newobj id o) = o_parent o).
    { unfold newobj. repeat (destruct (decide _); [done|]). done. }
    rewrite Ep. destruct (o_parent o) as [r|]; [|done]. destruct Hp as (Q & qs & i & Hc & HQ & ->).
    pose proof (to_child _ _ _ _ _ Hc Hy) as Ht. destruct (decide (Q = y)) as [->|HQy].
    + destruct Hin. destruct Hc as (HQe & Hi & <-). destruct (entry_inj _ _ _ _ _ _ Hlv HQe ys_entry) as [_ ->].
      by apply list_elem_of_fmap_2.
    + exists Q, (nes Q qs), i. split; [done|]. split; [by apply new_nodes|done].
Qed.

(** A node's children afterwards. *)
Lemma new_children k id xs o q : entry lv k id xs -> id <> y -> t_nodes b !! id = Some q -> dirty lv b k id xs o ->
  NoDup (o_children (newobj id o)) /\
  forall c, c ∈ o_children (newobj id o) <-> (0 < k)%nat /\ exists i, i ∈ nes id xs /\ t_nodes b' !! in_pgid i = Some c.
Proof.
  intros He Hy Hq D. pose proof (dr_nodup _ _ _ _ _ _ D) as Hn. pose proof (dr_children _ _ _ _ _ _ D) as Hc.
  destruct P_entry as (HP & HPy & HPd & Hdy). pose proof (drop_pgid lv d l1 l2 u1 u2 y P ys a t e Hlv Hl Hu Hlen) as Ee.
  rewrite Hnodes. unfold newobj, nes, newes. destruct (decide (id = P)) as [->|HnP].
  - destruct (entry_inj _ _ _ _ _ _ Hlv He HP) as [-> ->]. cbn [o_children].
    destruct (remove_first_spec srcp _ Hn) as [Hn' Hr]. split; [done|]. intros c. rewrite Hr, Hc. split.
    + intros [(Hk & i & Hi & Hic) Hne]. split; [done|]. exists i.
      assert (Hiy : in_pgid i <> y) by (intros E; rewrite E in Hic; congruence). split.
      * rewrite elem_of_app, elem_of_cons in Hi. destruct Hi as [?|[->|?]]; [set_solver|done|set_solver].
      * by rewrite lookup_delete_ne.
    + intros (Hk & i & Hi & Hic). apply lookup_delete_Some in Hic as [Hne Hic]. split.
      * split; [done|]. exists i. split; [set_solver|done].
      * intros ->. apply Hne. by eapply dirty_inj.
  - assert (Hother : forall i, i ∈ xs -> (0 < k)%nat -> in_pgid i <> y).
    { intros i Hi Hk E. destruct k as [|k]; [lia|]. assert (C1 : child_of lv k id xs i y) by done.
      assert (C2 : child_of lv d P (a ++ e :: t) e y) by (split; [done|]; split; [set_solver|done]).
      by destruct (parent_unique _ _ _ _ _ _ _ _ _ _ Hlv C1 C2) as (_ & ? & _). }
    destruct (decide (dst = Some id)) as [Ed|Hnd].
    + destruct (dst_entry _ Ed) as (zs & Hz & _). destruct (entry_inj _ _ _ _ _ _ Hlv He Hz) as [-> ->].
      cbn [o_children]. split.
      * apply NoDup_app. split; [done|]. split; [|by apply kids_nodup]. intros c Hc1 Hc2.
        apply Hc in Hc1 as (Hk & i & Hi & Hic). apply elem_of_kids in Hc2 as (j & Hj & Hjc).
        destruct level_cases as [?|[d' Edd]]; [lia|]. pose proof Hz as Hz'. pose proof ys_entry as Hy'. rewrite Edd in Hz', Hy'.
        pose proof (dirty_inj _ _ _ _ _ H Hic Hjc) as Eij.
        assert (C1 : child_of lv d' id zs i (in_pgid i)) by done.
        assert (C2 : child_of lv d' y ys j (in_pgid i)) by done.
        by destruct (parent_unique _ _ _ _ _ _ _ _ _ _ Hlv C1 C2) as (_ & ? & _).
      * intros c. rewrite elem_of_app, Hc, elem_of_kids. split.
        -- intros [(Hk & i & Hi & Hic)|(j & Hj & Hjc)].
           ++ split; [done|]. exists i. rewrite lookup_delete_ne; [set_solver|]. intros E. by apply (Hother i Hi Hk).
           ++ destruct (in_dirty _ _ H _ _ Hjc) as (k & es & _ & Hj' & _).
              destruct (kid_other k (in_pgid j) es Hj') as (_ & _ & Hjy & _ & Ek & _); [by apply list_elem_of_fmap_2|].
              split; [lia|]. exists j. rewrite lookup_delete_ne by done. set_solver.
        -- intros (Hk & i & Hi & Hic). apply lookup_delete_Some in Hic as [_ Hic].
           apply elem_of_app in Hi as [Hi|Hi]; [left; eauto|right; eauto].
    + assert (Eo : o_children (if decide (id ∈ in_pgid <$> ys) then o_setParent dst_ptr o else o) = o_children o) by (by destruct (decide _)).
      rewrite Eo. split; [done|]. intros c. rewrite Hc. split; intros (Hk & i & Hi & Hic); (split; [done|]); exists i; (split; [done|]).
      * rewrite lookup_delete_ne; [done|]. intros E. by apply (Hother i Hi Hk).
      * by apply lookup_delete_Some in Hic as [_ ?].
Qed.

Lemma new_dirty k id xs o q : entry lv k id xs -> id <> y -> t_nodes b !! id = Some q -> dirty lv b k id xs o ->
  dirty lv' b' k id (nes id xs) (newobj id o).
Proof.
  intros He Hy Hq D. destruct (new_children k id xs o q He Hy Hq D) as [Hn Hc].
  destruct (newobj_fields id o) as (_ & Hleaf & Hpg & Hsp). split; try done.
  - rewrite Hleaf. apply (dr_leaf _ _ _ _ _ _ D).
  - unfold newobj, nes, newes. destruct (decide (id = P)); [done|]. destruct (decide (dst = Some id)); cbn.
    + by rewrite (dr_inodes _ _ _ _ _ _ D).
    + destruct (decide (id ∈ in_pgid <$> ys)); apply (dr_inodes _ _ _ _ _ _ D).
  - rewrite Hpg. apply (dr_pgid _ _ _ _ _ _ D).
  - rewrite Hsp. apply (dr_spilled _ _ _ _ _ _ D).
  - by eapply new_parent.
Qed.

Context (Hroot : t_root b' = t_root b) (Hpage : t_page b' = t_page b) (Hrn : t_rootNode b' = t_rootNode b).
Context (Hopen : t_open b' = t_open b) (Hwr : t_writable b' = t_writable b) (Hpages : t_pages b' = t_pages b).
Context (Hheap : forall id q o, t_nodes b !! id = Some q -> id <> y -> t_heap b !! q = Some o ->
  t_heap b' !! q = Some (newobj id o)).

Lemma y_not_root : y <> t_root b.
Proof.
  intros E. destruct P_entry as (HP & _). pose proof (drop_pgid lv d l1 l2 u1 u2 y P ys a t e Hlv Hl Hu Hlen) as Ee.
  apply (root_not_child lv d P (a ++ e :: t) e y Hlv); [rewrite E; apply (in_root _ _ H)|].
  split; [done|]. split; [set_solver|done].
Qed.

Lemma drop_inv : inv lv' b'.
Proof.
  assert (Hok : lv_ok lv') by exact (drop_ok lv d l1 l1' l2 u1 u2 y P ys a t e Hlv Hl Hu Hlen drop_absorbs).
  assert (Hdl : length lv' = length lv) by apply drop_length. split.
  - done.
  - rewrite Hroot. apply is_root_entry; [done|]. rewrite Hdl. destruct (root_entry _ _ (in_root _ _ H)) as [es He].
    eexists. apply to_entry; [exact He|]. intros E. by apply y_not_root.
  - rewrite Hrn, Hroot, Hnodes, lookup_delete_ne by apply y_not_root. apply (in_rootNode _ _ H).
  - rewrite Hroot, Hpage, Hdl. apply (in_inline _ _ H).
  - rewrite Hopen, Hwr. apply (in_open _ _ H).
  - intros id q Hq. rewrite Hnodes in Hq. apply lookup_delete_Some in Hq as [Hne Hq].
    destruct (in_dirty _ _ H _ _ Hq) as (k & xs & o & He & Ho & D). exists k, (nes id xs), (newobj id o).
    split; [by apply to_entry|]. split; [by apply Hheap|by eapply new_dirty].
  - intros k id xs' He Hn. apply from_entry in He as (Hy & xs & He & ->). rewrite Hnodes, lookup_delete_ne in Hn by done.
    destruct (in_clean _ _ H _ _ _ He Hn) as (p & Hp & Hr & Hk).
    assert (En : nes id xs = xs).
    { unfold nes, newes. destruct (decide (id = P)) as [->|]; [pose proof Hdirty as [? ?]; congruence|].
      destruct (decide (dst = Some id)) as [Ed|]; [|done]. pose proof Hdp as Hd. rewrite Ed, Hn in Hd. by destruct Hd. }
    rewrite En. exists p. split; [unfold src in *; by rewrite Hpage, Hpages|]. split; [done|].
    intros Q qs i Hc. apply from_child in Hc as (Q' & qs' & Hc). by eapply Hk.
  - intros k id xs' He. apply from_entry in He as (Hy & xs & He & ->). pose proof (in_items _ _ H _ _ _ He) as Hf.
    unfold nes, newes. destruct (decide (id = P)) as [->|].
    + destruct (entry_inj _ _ _ _ _ _ Hlv He (proj1 P_entry)) as [-> ->]. rewrite Forall_app, Forall_cons in Hf. apply Forall_app. tauto.
    + destruct (decide (dst = Some id)) as [Ed|]; [|done]. destruct (dst_entry _ Ed) as (zs & Hz & _).
      destruct (entry_inj _ _ _ _ _ _ Hlv He Hz) as [-> ->]. apply Forall_app. split; [done|].
      apply (in_items _ _ H _ _ _ ys_entry).
Qed.
End drop_inv.

(** ** The calls that drop a node *)

(** A run of move_children out of [srcp]. *)
Lemma move_children_ok srcp dstp l : forall b so dobj, srcp <> dstp ->
  t_heap b !! srcp = Some so -> t_heap b !! dstp = Some dobj -> NoDup (kids b l) ->
  (forall ch, ch ∈ kids b l -> ch <> srcp /\ ch <> dstp /\ exists o, t_heap b !! ch = Some o /\ o_parent o = Some srcp) ->
  exists h so', move_children l dstp b = Ret (s_heap h b) /\
    h !! srcp = Some so' /\ o_node so' = o_node so /\
    h !! dstp = Some (o_setChildren (o_children dobj ++ kids b l) dobj) /\
    (forall ch o, ch ∈ kids b l -> t_heap b !! ch = Some o -> h !! ch = Some (o_setParent (Some dstp) o)) /\
    (forall x, x <> srcp -> x <> dstp -> x ∉ kids b l -> h !! x = t_heap b !! x).
Proof.
  induction l as [|e l IH]; intros b so dobj Hne Hs Hd Hn Hk.
  { exists (t_heap b), so. cbn [move_children kids omap]. split; [by destruct b|]. split; [done|]. split; [done|].
    split; [rewrite app_nil_r; by destruct dobj|]. split; [|done]. intros ch o Hc. by apply elem_of_nil in Hc. }
  cbn [move_children]. destruct (t_nodes b !! in_pgid e) as [ch|] eqn:Ech.
  2: { assert (Ek : kids b (e :: l) = kids b l) by (unfold kids; cbn; by rewrite Ech). rewrite Ek in *.
       cbn [mbind outcome_bind]. by apply IH. }
  assert (Ek : kids b (e :: l) = ch :: kids b l) by (unfold kids; cbn; by rewrite Ech). rewrite Ek in Hn, Hk |- *.
  apply NoDup_cons in Hn as [Hnin Hn]. destruct (Hk ch ltac:(by left)) as (C1 & C2 & o & Ho & Hp).
  rewrite (get_Some _ _ _ Ho). cbn [mbind outcome_bind]. rewrite Hp. unfold removeChild.
  rewrite (update_Some _ _ _ _ Hs). cbn [mbind outcome_bind].
  erewrite update_Some by (cbn; by rewrite lookup_insert_ne). cbn [mbind outcome_bind].
  erewrite update_Some by (cbn; by rewrite !lookup_insert_ne). cbn [mbind outcome_bind].
  match goal with |- context [move_children l dstp ?m] => set (b1 := m) end.
  assert (Ek1 : kids b1 l = kids b l) by done.
  destruct (IH b1 (o_setChildren (remove_first ch (o_children so)) so) (o_setChildren (o_children dobj ++ [ch]) dobj))
    as (h & so' & E & H1 & H2 & H3 & H4 & H5); rewrite ?Ek1; try done.
  - unfold b1; cbn. rewrite lookup_insert_ne, lookup_insert_ne by done. apply lookup_insert_eq.
  - unfold b1; cbn. apply lookup_insert_eq.
  - intros c Hc. destruct (Hk c ltac:(by right)) as (D1 & D2 & oc & Hoc & Hpc). split; [done|]. split; [done|].
    exists oc. split; [|done]. unfold b1; cbn. rewrite lookup_insert_ne, lookup_insert_ne, lookup_insert_ne; [done| | |]; congruence.
  - exists h, so'. rewrite Ek1 in *. split; [exact E|]. split; [done|]. split; [done|]. split; [|split].
    + rewrite H3. cbn. by rewrite <- app_assoc.
    + intros c oc Hc Hoc. apply elem_of_cons in Hc as [->|Hc].
      * rewrite H5 by done. unfold b1; cbn. rewrite lookup_insert_ne, lookup_insert_eq by done. congruence.
      * apply H4; [done|]. destruct (Hk c ltac:(by right)) as (D1 & D2 & _). unfold b1; cbn.
        rewrite lookup_insert_ne, lookup_insert_ne, lookup_insert_ne; [done| | |]; congruence.
    + intros x X1 X2 X3. apply not_elem_of_cons in X3 as [X3 X4]. rewrite H5 by done. unfold b1; cbn.
      by rewrite !lookup_insert_ne by congruence.
Qed.

(** What remove_node does. *)
Lemma remove_node_run c pp srcp b po o key y p f : pp <> srcp -> t_heap b !! pp = Some po -> t_heap b !! srcp = Some o ->
  n_key (o_node o) = Some key -> n_pgid (o_node o) = y -> y <> 0 -> t_pages b !! y = Some p ->
  free (c_txid c) (pg_id p) (pg_overflow p) (t_free b) = Ret f ->
  exists h, remove_node c pp srcp b = Ret (s_free f (s_nodes (delete y (t_nodes b)) (s_heap h b))) /\
    h !! pp = Some (mkNobj (del key (o_node po)) (o_parent po) (remove_first srcp (o_children po))) /\
    forall x, x <> pp -> x <> srcp -> h !! x = t_heap b !! x.
Proof.
  intros Hne Hp Ho Hkey Hid Hy Hpg Hf. unfold remove_node, node_del, removeChild.
  rewrite (get_Some _ _ _ Ho). cbn [mbind outcome_bind]. unfold node_key. rewrite Hkey. cbn [default].
  rewrite (update_Some _ _ _ _ Hp). cbn [mbind outcome_bind].
  erewrite update_Some by (cbn; apply lookup_insert_eq). cbn [mbind outcome_bind]. rewrite Hid.
  unfold node_free. erewrite get_Some by (cbn; rewrite !lookup_insert_ne by done; exact Ho). cbn [mbind outcome_bind].
  rewrite Hid. destruct (Z.eqb_spec y 0); [done|]. unfold page_at. cbn [s_nodes set s_heap t_pages]. rewrite Hpg.
  cbn [mbind outcome_bind]. cbn [t_free s_nodes set s_heap]. rewrite Hf. cbn [lift mbind outcome_bind].
  exists (<[srcp := o_setNode (n_setPgid 0 (o_node o)) o]>
    (<[pp := mkNobj (del key (o_node po)) (o_parent po) (remove_first srcp (o_children po))]>
      (<[pp := o_setNode (del key (o_node po)) po]> (t_heap b)))). split; [reflexivity|]. split.
  - rewrite lookup_insert_ne by done. by rewrite lookup_insert_eq.
  - intros x X1 X2. by rewrite !lookup_insert_ne by done.
Qed.

Lemma drop_thin lv b d l1 l1' l2 u1 u2 y P ys a t e dst thin : inv lv b ->
  lv !! d = Some (l1 ++ (y, ys) :: l2) -> lv !! S d = Some (u1 ++ (P, a ++ e :: t) :: u2) ->
  (length l1 = length (items u1) + length a)%nat ->
  match dst with None => l1' = l1 /\ ys = [] | Some z => exists l zs, l1 = l ++ [(z, zs)] /\ l1' = l ++ [(z, zs ++ ys)] end ->
  arity lv thin -> (forall x, thin = Some x -> x = y \/ dst = Some x) -> ((0 < d)%nat -> dst <> None) ->
  arity (drop_node lv d l1' l2 u1 u2 P a t) (Some P).
Proof.
  intros H Hl Hu Hlen Hdst Ha Hthin Hd k x xs He. pose proof (in_lv _ _ H) as Hlv.
  assert (Habs : absorbs l1 l1' ys) by (by eapply drop_absorbs).
  apply (drop_entry lv d l1 l1' l2 u1 u2 y P ys a t e Hlv Hl Hu Hlen Habs dst Hdst) in He as (Hy & xs0 & He & ->).
  pose proof (Ha k x xs0 He) as Hn. unfold newes. destruct (decide (x = P)) as [->|HP].
  - rewrite decide_True by done. assert (HPe : entry lv (S d) P (a ++ e :: t)) by (eexists; split; [exact Hu|set_solver]).
    destruct (entry_inj _ _ _ _ _ _ Hlv He HPe) as [_ ->].
    assert (Hnt : thin <> Some P).
    { intros E. destruct (Hthin P E) as [->|Ed].
      - done.
      - destruct (drop_dst lv d l1 l1' l2 u1 u2 y P ys a t e Hlv Hl Hu Hlen Habs dst Hdst _ Ed) as (? & _ & _ & ?). done. }
    rewrite decide_False in Hn by done. rewrite length_app in Hn |- *. cbn in Hn. lia.
  - rewrite (decide_False (P := Some P = Some x)) by congruence. destruct (decide (dst = Some x)) as [Ed|Hnd].
    + destruct (drop_dst lv d l1 l1' l2 u1 u2 y P ys a t e Hlv Hl Hu Hlen Habs dst Hdst _ Ed) as (zs & Hz & _ & _).
      destruct (entry_inj _ _ _ _ _ _ Hlv He Hz) as [<- ->]. rewrite length_app.
      assert (Hyn : (1 <= length ys)%nat).
      { specialize (Ha k y ys ltac:(eexists; split; [exact Hl|set_solver])). destruct (decide _); lia. }
      destruct (decide _); lia.
    + rewrite decide_False in Hn; [done|]. intros E. by destruct (Hthin x E).
Qed.

Lemma cont_lookup lv : cont lv = match lv !! 0%nat with Some l => items l | None => [] end.
Proof. by destruct lv. Qed.

(** Every empty leaf is in [T], in memory and marked; the root and [but] are exempt. *)
Definition emp (but : option Z) (lv : list level) (b : txb) (T : Z -> Prop) : Prop :=
  forall id, entry lv 0 id [] -> (1 < length lv)%nat -> but <> Some id ->
    T id /\ exists q o, t_nodes b !! id = Some q /\ t_heap b !! q = Some o /\ unbalanced (o_node o) = true.

(** rebalance leaves this part of the state alone. *)
Definition kept (b b' : txb) : Prop :=
  t_root b' = t_root b /\ t_page b' = t_page b /\ t_open b' = t_open b /\ t_writable b' = t_writable b /\
  t_pages b' = t_pages b /\ t_hwm b' = t_hwm b /\ t_datasz b' = t_datasz b /\
  BoltFreelist.ids (t_free b') = BoltFreelist.ids (t_free b).

Lemma kept_trans b1 b2 b3 : kept b1 b2 -> kept b2 b3 -> kept b1 b3.
Proof. unfold kept. intros (?&?&?&?&?&?&?&?) (?&?&?&?&?&?&?&?). repeat split; congruence. Qed.

Lemma ext_kept b b' : ext b b' -> kept b b'.
Proof. intros [? ? [? ?] (? & ? & Ef & ?) _ _]. repeat split; try done. by rewrite Ef. Qed.

(** After a node is dropped its parent, maybe with one child left, is next. *)
Record dropped (ps : Z) (rest : list Z) (lv : list level) (b : txb) (d : nat) (n P : Z) (pp : nat)
    (lv' : list level) (b' : txb) : Prop := {
  dp_inv : inv lv' b';
  dp_arity : arity lv' (Some P);
  dp_space : space ps rest lv' b';
  dp_cont : cont lv' = cont lv;
  dp_length : length lv' = length lv;
  dp_kept : kept b b';
  dp_parent : t_nodes b' !! P = Some pp /\ (exists es, entry lv' (S d) P es) /\
              exists o, t_heap b' !! pp = Some o /\ unbalanced (o_node o) = true;
  dp_emp : forall T, emp (Some n) lv b T -> emp None lv' b' (fun x => T x /\ x <> n);
  dp_sep : sep lv -> sep lv';
  dp_pages : accounted (ids lv) b (ids lv') b'
}.

Section drop_calls.
Context (pageSize : Z) (rest : list Z) (c : config).
Context (lv : list level) (b : txb).
Context (d : nat) (l1 l1' l2 u1 u2 : level) (y P : Z) (ys a t : list inode) (e : inode) (dst : option Z).
Context (H : inv lv b) (Hsp : space pageSize rest lv b).
Context (Hl : lv !! d = Some (l1 ++ (y, ys) :: l2)).
Context (Hu : lv !! S d = Some (u1 ++ (P, a ++ e :: t) :: u2)).
Context (Hlen : (length l1 = length (items u1) + length a)%nat).
Context (Hdst : match dst with
                | None => l1' = l1 /\ ys = []
                | Some z => exists l zs, l1 = l ++ [(z, zs)] /\ l1' = l ++ [(z, zs ++ ys)]
                end).
Let lv' := drop_node lv d l1' l2 u1 u2 P a t.
Context (srcp pp : nat) (Hsrc : t_nodes b !! y = Some srcp) (HPn : t_nodes b !! P = Some pp).
Context (Hdp : match dst with Some z => is_Some (t_nodes b !! z) | None => True end).
Context (thin : option Z) (Hthin : arity lv thin).
Context (n : Z) (Hthin_n : forall x, thin = Some x -> x = y \/ dst = Some x).
Context (Hn : n = y \/ (dst = Some n /\ forall xs, entry lv d n xs -> d = 0%nat -> xs <> [])).
Context (Hdd : (0 < d)%nat -> dst <> None) (Hya : ys = [] \/ a <> []).

Lemma drop_freed : exists p f, t_pages b !! y = Some p /\
  free (c_txid c) (pg_id p) (pg_overflow p) (t_free b) = Ret f /\ y <> 0 /\
  BoltFreelist.ids f = BoltFreelist.ids (t_free b) /\ space pageSize rest lv' (s_free f b) /\
  accounted (ids lv) b (ids lv') (s_free f b).
Proof.
  assert (Hy : y <> 0).
  { apply (entry_nonzero lv b d y ys H (drop_len lv d u1 u2 P a t e Hu)). exact (ys_entry lv d l1 l2 y ys Hl). }
  clear Hsrc HPn Hdp Hthin Hthin_n Hn Hdd Hya.
  destruct (free_space pageSize rest lv lv' b (c_txid c) y Hsp) as (p & f & ? & ? & ? & ? & ?); [|done|by exists p, f].
  exact (drop_ids lv d l1 l1' l2 u1 u2 y P ys a t e Hl Hu Hlen (drop_absorbs l1 l1' ys dst Hdst)).
Qed.

Lemma dropped_final h f : space pageSize rest lv' (s_free f b) -> BoltFreelist.ids f = BoltFreelist.ids (t_free b) ->
  accounted (ids lv) b (ids lv') (s_free f b) ->
  (forall id q o, t_nodes b !! id = Some q -> id <> y -> t_heap b !! q = Some o ->
     h !! q = Some (newobj b P ys a t dst srcp id o)) ->
  dropped pageSize rest lv b d n P pp lv' (s_free f (s_nodes (delete y (t_nodes b)) (s_heap h b))).
Proof.
  intros Hs Hfi Hac Hh. pose proof (in_lv _ _ H) as Hlv.
  assert (Habs : absorbs l1 l1' ys) by exact (drop_absorbs l1 l1' ys dst Hdst).
  set (b' := s_free f _). assert (I : inv lv' b').
  { eapply (drop_inv lv b d l1 l1' l2 u1 u2 y P ys a t e dst H Hl Hu Hlen Hdst srcp Hsrc); done. }
  destruct (P_entry lv b d l1 l1' l2 u1 u2 y P ys a t e dst H Hl Hu Hlen Hdst) as (HPe & HPy & HPd & Hdy).
  destruct (in_dirty _ _ H _ _ HPn) as (k & xs & po & HPk & Hpo & _). split; try done.
  - by eapply drop_thin.
  - by eapply space_same; [..|exact Hs].
  - unfold lv'. pose proof (drop_items l1 l1' l2 y ys Habs) as Ei.
    rewrite !cont_lookup. destruct (decide (d = 0%nat)) as [E0|Hd0].
    + rewrite <- E0, (drop_d lv d l1 l1' l2 u1 u2 y P ys a t Hl), Hl. exact Ei.
    + by rewrite drop_other_level.
  - apply drop_length.
  - split; [|split].
    + cbn. by rewrite lookup_delete_ne.
    + eexists. eapply (to_entry lv b d l1 l1' l2 u1 u2 y P ys a t e dst H Hl Hu Hlen Hdst); [exact HPe|done].
    + eexists. split; [apply (Hh P pp po HPn HPy Hpo)|]. unfold newobj. by rewrite decide_True.
  - intros T Hemp x Hx Hlx _.
    apply (from_entry lv b d l1 l1' l2 u1 u2 y P ys a t e dst H Hl Hu Hlen Hdst) in Hx as (Hxy & xs0 & Hx & Ex).
    assert (HxP : x <> P). { intros ->. destruct (entry_inj _ _ _ _ _ _ Hlv Hx HPe). lia. }
    assert (Hx0 : xs0 = [] /\ x <> n).
    { unfold newes in Ex. rewrite decide_False in Ex by done. destruct (decide (dst = Some x)) as [Ed|Hnd].
      - symmetry in Ex. apply app_nil in Ex as [E1 E2]. split; [done|]. intros ->. destruct Hn as [->|[_ Hne]]; [done|].
        destruct (dst_entry lv b d l1 l1' l2 u1 u2 y P ys a t e dst H Hl Hu Hlen Hdst _ Ed) as (zs & Hz & _).
        destruct (entry_inj _ _ _ _ _ _ Hlv Hx Hz) as [E0 _]. apply (Hne xs0); [by rewrite <- E0|done|done].
      - split; [done|]. intros ->. destruct Hn as [->|[Ed _]]; done. }
    destruct Hx0 as [-> Hxn].
    destruct (Hemp x Hx) as (HT & q & o & Hq & Ho & Hub).
    { exact (drop_len lv d u1 u2 P a t e Hu). }
    { congruence. }
    split; [done|]. exists q. eexists. split; [cbn; by rewrite lookup_delete_ne|]. split; [by apply (Hh x q o)|].
    unfold newobj. rewrite decide_False by done. destruct (decide (dst = Some x)); [done|]. by destruct (decide _).
  - by eapply drop_sep.
Qed.

Lemma y_child : child_of lv d P (a ++ e :: t) e y.
Proof.
  split; [eexists; split; [exact Hu|apply elem_of_app; right; by left]|].
  split; [apply elem_of_app; right; by left|].
  exact (drop_pgid lv d l1 l2 u1 u2 y P ys a t e (in_lv _ _ H) Hl Hu Hlen).
Qed.

(** The objects of the node and its parent. *)
Lemma drop_objects : exists o po, t_heap b !! srcp = Some o /\ dirty lv b d y ys o /\ n_key (o_node o) = Some (in_key e) /\
  t_heap b !! pp = Some po /\ inodes (o_node po) = a ++ e :: t /\ pp <> srcp /\
  del (in_key e) (o_node po) = mkNode (isLeaf (o_node po)) true (spilled (o_node po)) (n_key (o_node po)) (n_pgid (o_node po)) (a ++ t).
Proof.
  clear Hsp Hdp Hthin Hthin_n Hn Hdd Hdst Hya. pose proof (in_lv _ _ H) as Hlv. pose proof y_child as Hc.
  destruct (dirty_at _ _ _ _ _ _ H Hsrc (ys_entry lv d l1 l2 y ys Hl)) as (o & _ & Ho & D).
  destruct (dirty_at _ _ _ _ _ _ H HPn (proj1 Hc)) as (po & _ & Hpo & DP).
  exists o, po. split; [done|]. split; [done|]. split.
  { pose proof (dr_parent _ _ _ _ _ _ D) as Hp. destruct (o_parent o).
    - destruct Hp as (Q & qs & i & Hc' & _ & ->). by destruct (parent_unique _ _ _ _ _ _ _ _ _ _ Hlv Hc Hc') as (_ & _ & _ & ->).
    - destruct (proj1 Hc) as (l & Hk & _). apply lookup_lt_Some in Hk. lia. }
  split; [done|]. pose proof (dr_inodes _ _ _ _ _ _ DP) as Ei. split; [done|]. split.
  { intros ->. pose proof (dirty_inj _ _ _ _ _ H Hsrc HPn) as E. pose proof (ys_entry lv d l1 l2 y ys Hl) as Hy.
    rewrite E in Hy. destruct (entry_inj _ _ _ _ _ _ Hlv Hy (proj1 Hc)). lia. }
  pose proof (entry_sorted _ _ _ _ Hlv (proj1 Hc)) as Hs.
  rewrite (del_split (in_key e) (o_node po) a (Some e) t); [done|done| | |by intros x [= ->]].
  - rewrite Ei. apply lower_bound_lookup; [done|]. rewrite fmap_app, lookup_app_r, length_fmap, Nat.sub_diag by (by rewrite length_fmap). done.
  - intros x Hx. rewrite fmap_app, fmap_cons in Hs. apply (proj2 (sorted_middle _ _ _ Hs)). by apply list_elem_of_fmap_2.
Qed.
End drop_calls.

(** An empty node is removed. *)
Lemma remove_ok ps rest c lv b d l1 l2 u1 u2 y P a t e srcp pp :
  inv lv b -> space ps rest lv b -> lv !! d = Some (l1 ++ (y, []) :: l2) ->
  lv !! S d = Some (u1 ++ (P, a ++ e :: t) :: u2) -> (length l1 = length (items u1) + length a)%nat ->
  t_nodes b !! y = Some srcp -> t_nodes b !! P = Some pp -> arity lv None -> d = 0%nat ->
  exists lv' b', remove_node c pp srcp b = Ret b' /\ dropped ps rest lv b d y P pp lv' b'.
Proof.
  intros H Hsp Hl Hu Hlen Hsrc HPn Ha Hd.
  assert (Hdst : match (None : option Z) with None => l1 = l1 /\ ([] : list inode) = []
     | Some z => exists l zs, l1 = l ++ [(z, zs)] /\ l1 = l ++ [(z, zs ++ [])] end) by done.
  destruct (drop_freed ps rest c lv b d l1 l1 l2 u1 u2 y P [] a t e None H Hsp Hl Hu Hlen Hdst) as (p & f & Hp & Hf & Hy & Hfi & Hs & Hac).
  destruct (drop_objects lv b d l1 l2 u1 u2 y P [] a t e H Hl Hu Hlen srcp pp Hsrc HPn)
    as (o & po & Ho & D & Hkey & Hpo & Ei & Hne & Hdel).
  destruct (remove_node_run c pp srcp b po o (in_key e) y p f Hne Hpo Ho Hkey (dr_pgid _ _ _ _ _ _ D) Hy Hp Hf)
    as (h & E & Hh1 & Hh2).
  eexists _, _. split; [exact E|].
  apply (dropped_final ps rest lv b d l1 l1 l2 u1 u2 y P [] a t e None H Hl Hu Hlen Hdst srcp pp Hsrc HPn I None Ha y); try done.
  - by left.
  - lia.
  - by left.
  - intros id q oo Hq Hid Hoo. unfold newobj. destruct (decide (id = P)) as [->|HP].
    + rewrite HPn in Hq. injection Hq as <-. rewrite Hpo in Hoo. injection Hoo as <-. by rewrite Hh1, Hdel.
    + rewrite decide_False, decide_False by (done || (cbn; apply not_elem_of_nil)).
      rewrite Hh2; [done|..]; intros ->; [apply HP|apply Hid]; by eapply dirty_inj.
Qed.

(** A node's inodes and children go to its left neighbour, and it is removed. *)
(** The children a merge moves: bucket nodes other than the two merged nodes and their parent, linked to the source. *)
Lemma moved_kids lv b d l0 l2 u1 u2 x xs y ys P a t e srcp dstp pp :
  inv lv b -> lv !! d = Some ((l0 ++ [(x, xs)]) ++ (y, ys) :: l2) ->
  lv !! S d = Some (u1 ++ (P, a ++ e :: t) :: u2) -> (length (l0 ++ [(x, xs)]) = length (items u1) + length a)%nat ->
  t_nodes b !! y = Some srcp -> t_nodes b !! x = Some dstp -> t_nodes b !! P = Some pp ->
  forall ch, ch ∈ kids b ys -> ch <> srcp /\ ch <> dstp /\ ch <> pp /\ exists o, t_heap b !! ch = Some o /\ o_parent o = Some srcp.
Proof.
  intros H Hl Hu Hlen Hsrc Hdstp HPn ch (i & Hi & Hch)%elem_of_kids. pose proof (in_lv _ _ H) as Hlv.
  assert (Hdst : match Some x with None => l0 ++ [(x, xs ++ ys)] = l0 ++ [(x, xs)] /\ ys = []
     | Some z => exists l zs, l0 ++ [(x, xs)] = l ++ [(z, zs)] /\ l0 ++ [(x, xs ++ ys)] = l ++ [(z, zs ++ ys)] end) by eauto.
  destruct (in_dirty _ _ H _ _ Hch) as (k & es & oc & He & Hoc & Dc).
  assert (Hin : in_pgid i ∈ in_pgid <$> ys) by (by apply list_elem_of_fmap_2).
  destruct (kid_other lv b d (l0 ++ [(x, xs)]) _ l2 u1 u2 y P ys a t e (Some x) H Hl Hu Hlen Hdst k _ es He Hin)
    as (N1 & N2 & N3 & i' & Ek & Hi' & Hc).
  split_and!; [intros -> ..|].
  - apply N3. by eapply dirty_inj.
  - apply N2. f_equal. symmetry. by eapply dirty_inj.
  - apply N1. by eapply dirty_inj.
  - exists oc. split; [done|]. pose proof (dr_parent _ _ _ _ _ _ Dc) as Hpar. destruct (o_parent oc) as [r|].
    + destruct Hpar as (Q & qs & j & Hc' & HQ & _). destruct (parent_unique _ _ _ _ _ _ _ _ _ _ Hlv Hc Hc') as (_ & <- & _). congruence.
    + destruct (proj1 Hc) as (l & Hk & _). apply lookup_lt_Some in Hk. lia.
Qed.

Lemma merge_ok ps rest c lv b d l0 x xs l2 u1 u2 y P ys a t e srcp dstp pp thin n :
  inv lv b -> space ps rest lv b -> lv !! d = Some ((l0 ++ [(x, xs)]) ++ (y, ys) :: l2) ->
  lv !! S d = Some (u1 ++ (P, a ++ e :: t) :: u2) -> (length (l0 ++ [(x, xs)]) = length (items u1) + length a)%nat ->
  t_nodes b !! y = Some srcp -> t_nodes b !! x = Some dstp -> t_nodes b !! P = Some pp -> arity lv thin ->
  (forall z, thin = Some z -> z = y \/ z = x) -> n = y \/ (n = x /\ (d = 0%nat -> xs <> [])) -> a <> [] ->
  exists lv' b', merge_into c pp dstp srcp b = Ret b' /\ dropped ps rest lv b d n P pp lv' b'.
Proof.
  intros H Hsp Hl Hu Hlen Hsrc Hdstp HPn Ha Hthin Hn Hane. pose proof (in_lv _ _ H) as Hlv.
  assert (Hdst : match Some x with None => l0 ++ [(x, xs ++ ys)] = l0 ++ [(x, xs)] /\ ys = []
     | Some z => exists l zs, l0 ++ [(x, xs)] = l ++ [(z, zs)] /\ l0 ++ [(x, xs ++ ys)] = l ++ [(z, zs ++ ys)] end) by eauto.
  set (l1 := l0 ++ [(x, xs)]) in *. set (l1' := l0 ++ [(x, xs ++ ys)]) in *.
  destruct (drop_freed ps rest c lv b d l1 l1' l2 u1 u2 y P ys a t e (Some x) H Hsp Hl Hu Hlen Hdst) as (p & f & Hp & Hf & Hy & Hfi & Hs & Hac).
  destruct (drop_objects lv b d l1 l2 u1 u2 y P ys a t e H Hl Hu Hlen srcp pp Hsrc HPn)
    as (o & po & Ho & D & Hkey & Hpo & Ei & Hne & Hdel).
  assert (Hx : entry lv d x xs) by (eexists; split; [exact Hl|]; unfold l1; set_solver).
  destruct (dst_entry lv b d l1 l1' l2 u1 u2 y P ys a t e (Some x) H Hl Hu Hlen Hdst x eq_refl) as (xs' & _ & Hxy & HxP).
  destruct (dirty_at _ _ _ _ _ _ H Hdstp Hx) as (od & _ & Hod & DX).
  assert (Hsd : srcp <> dstp) by (intros ->; apply Hxy; by eapply dirty_inj).
  assert (Hpd : pp <> dstp) by (intros ->; apply HxP; by eapply dirty_inj).
  pose proof (moved_kids lv b d l0 l2 u1 u2 x xs y ys P a t e srcp dstp pp H Hl Hu Hlen Hsrc Hdstp HPn) as Hkne.
  destruct (move_children_ok srcp dstp ys b o od Hsd Ho Hod) as (h & so & E1 & M1 & M2 & M3 & M4 & M5).
  { exact (kids_nodup lv b d l1 l2 u1 u2 y P ys a t e H Hl Hu Hlen). }
  { intros ch Hch. destruct (Hkne ch Hch) as (? & ? & _ & ?). done. }
  unfold merge_into. rewrite (get_Some _ _ _ Ho). cbn [mbind outcome_bind]. rewrite (dr_inodes _ _ _ _ _ _ D), E1.
  cbn [mbind outcome_bind]. rewrite (update_Some dstp _ (s_heap h b) _ M3). cbn [mbind outcome_bind].
  match goal with |- context [remove_node c pp srcp ?m] => set (b2 := m) end.
  destruct (remove_node_run c pp srcp b2 po so (in_key e) y p f Hne) as (h2 & E2 & R1 & R2); try done.
  { unfold b2; cbn. rewrite lookup_insert_ne by done. rewrite M5; [done|done|done|].
    intros Hin. by destruct (Hkne pp Hin) as (_ & _ & ? & _). }
  { unfold b2; cbn. by rewrite lookup_insert_ne. }
  { by rewrite M2. } { rewrite M2. apply (dr_pgid _ _ _ _ _ _ D). }
  eexists _, _. split; [exact E2|].
  apply (dropped_final ps rest lv b d l1 l1' l2 u1 u2 y P ys a t e (Some x) H Hl Hu Hlen Hdst srcp pp Hsrc HPn (mk_is_Some _ _ Hdstp) thin Ha n); try done.
  - intros z Hz. destruct (Hthin z Hz) as [->| ->]; [by left|by right].
  - destruct Hn as [->|[-> Hne0]]; [by left|right]. split; [done|]. intros zs Hz. destruct (entry_inj _ _ _ _ _ _ Hlv Hx Hz) as [_ <-]. done.
  - by right.
  - intros id q oo Hq Hid Hoo. unfold newobj.
    assert (Hqs : q <> srcp) by (intros ->; apply Hid; by eapply dirty_inj).
    destruct (decide (id = P)) as [->|HP].
    { rewrite HPn in Hq. injection Hq as <-. rewrite Hpo in Hoo. injection Hoo as <-. by rewrite R1, Hdel. }
    assert (Hqp : q <> pp) by (intros ->; apply HP; by eapply dirty_inj).
    rewrite R2 by done. unfold b2; cbn. destruct (decide (Some x = Some id)) as [[= <-]|Hxd].
    { rewrite Hdstp in Hq. injection Hq as <-. rewrite Hod in Hoo. injection Hoo as <-. by rewrite lookup_insert_eq. }
    assert (Hqd : q <> dstp) by (intros ->; apply Hxd; f_equal; by eapply dirty_inj).
    rewrite lookup_insert_ne by done. destruct (decide (id ∈ in_pgid <$> ys)) as [Hin|Hnin].
    + unfold dst_ptr. cbn [mbind option_bind]. rewrite Hdstp. apply M4; [|done].
      apply elem_of_kids. apply list_elem_of_fmap in Hin as (i & -> & Hi). by exists i.
    + rewrite M5; [done|done|done|]. intros (i & Hi & Hch)%elem_of_kids. apply Hnin.
      rewrite (dirty_inj _ _ _ _ _ H Hq Hch). by apply list_elem_of_fmap_2.
Qed.

(** ** Collapsing the root *)

(** What rebalance establishes. *)
Record balanced (ps : Z) (rest : list Z) (lv : list level) (b : txb) (n : Z) (lv' : list level) (b' : txb) : Prop := {
  bl_inv : inv lv' b';
  bl_arity : arity lv' None;
  bl_space : space ps rest lv' b';
  bl_cont : cont lv' = cont lv;
  bl_length : (length lv' <= length lv)%nat;
  bl_kept : kept b b';
  bl_emp : forall T, emp None lv b T -> emp None lv' b' (fun x => T x /\ x <> n);
  bl_sep : sep lv -> sep lv';
  bl_pages : accounted (ids lv) b (ids lv') b'
}.

Lemma reparent_ok q l : forall b, (forall ch, ch ∈ kids b l -> ch <> q /\ is_Some (t_heap b !! ch)) ->
  exists h, reparent l q b = Ret (s_heap h b) /\
    (forall ch o, ch ∈ kids b l -> t_heap b !! ch = Some o -> h !! ch = Some (o_setParent (Some q) o)) /\
    (forall x, x ∉ kids b l -> h !! x = t_heap b !! x).
Proof.
  induction l as [|e l IH]; intros b Hk; cbn [reparent].
  { exists (t_heap b). split; [by destruct b|]. split; [|done]. intros ch o Hc. by apply elem_of_nil in Hc. }
  destruct (t_nodes b !! in_pgid e) as [ch|] eqn:Ech.
  2: { assert (Ek : kids b (e :: l) = kids b l) by (unfold kids; cbn; by rewrite Ech). rewrite Ek in *.
       cbn [mbind outcome_bind]. by apply IH. }
  assert (Ek : kids b (e :: l) = ch :: kids b l) by (unfold kids; cbn; by rewrite Ech). rewrite Ek in Hk |- *.
  destruct (Hk ch ltac:(by left)) as [Hq [o Ho]]. rewrite (update_Some _ _ _ _ Ho). cbn [mbind outcome_bind].
  destruct (IH (set ch (o_setParent (Some q) o) b)) as (h & E & H1 & H2).
  { intros c Hc. destruct (Hk c ltac:(by right)) as [? Hsome]. split; [done|]. cbn [set s_heap t_heap].
    destruct (decide (c = ch)) as [->|]; [rewrite lookup_insert_eq; eauto|by rewrite lookup_insert_ne]. }
  change (kids (set ch (o_setParent (Some q) o) b) l) with (kids b l) in *. cbn [set s_heap t_heap] in H1, H2.
  exists h. split; [exact E|]. split.
  - intros c oc Hc Hoc. destruct (decide (c = ch)) as [->|Hne].
    + rewrite Ho in Hoc. injection Hoc as <-. destruct (decide (ch ∈ kids b l)) as [Hin|Hnin].
      * rewrite (H1 ch (o_setParent (Some q) o) Hin); [done|apply lookup_insert_eq].
      * rewrite H2 by done. apply lookup_insert_eq.
    + apply elem_of_cons in Hc as [?|Hc]; [done|]. apply H1; [done|]. by rewrite lookup_insert_ne.
  - intros x Hx. apply not_elem_of_cons in Hx as [Hx1 Hx2]. rewrite H2 by done. by rewrite lookup_insert_ne.
Qed.

Section collapse.
Context (A : list level) (root : Z) (es : list inode) (e : inode).
Let cid : Z := in_pgid e.
Let lv : list level := A ++ [[(cid, es)]; [(root, [e])]].
Let lv' : list level := collapsed A root es.
Context (b : txb) (H : inv lv b).
Context (q cp : nat) (o co : nobj).
Context (Hq : t_nodes b !! root = Some q) (Hcp : t_nodes b !! cid = Some cp).
Context (Ho : t_heap b !! q = Some o) (Hco : t_heap b !! cp = Some co).

Let Hlv : lv_ok lv := in_lv _ _ H.

Lemma lv_mid : lv !! length A = Some [(cid, es)].
Proof. exact (one_child_mid A cid root es e). Qed.

Lemma lv_root : lv !! S (length A) = Some [(root, [e])].
Proof. exact (one_child_root A cid root es e). Qed.

Lemma collapse_ne : root <> cid /\ q <> cp.
Proof.
  clear o co Ho Hco.
  assert (Hne : root <> cid).
  { intros E. assert (Hx : forall x, x = cid -> ~ entry lv (S (length A)) x [e]).
    { intros x -> H2. destruct (entry_inj lv _ _ _ _ _ Hlv (one_child_cid A cid root es e) H2). lia. }
    exact (Hx root E (one_child_rootentry A cid root es e)). }
  split; [done|]. intros ->. apply Hne. by eapply dirty_inj.
Qed.

Lemma collapse_objects : dirty lv b (length A) cid es co /\ dirty lv b (S (length A)) root [e] o.
Proof.
  split.
  - destruct (dirty_at _ _ _ _ _ _ H Hcp (one_child_cid A cid root es e)) as (o1 & _ & H1 & D). congruence.
  - destruct (dirty_at _ _ _ _ _ _ H Hq (one_child_rootentry A cid root es e)) as (o1 & _ & H1 & D). congruence.
Qed.

Lemma collapse_root : t_root b = root.
Proof. pose proof (in_root _ _ H) as Hr. apply (is_root_unique lv); [done|]. exists [e]. unfold lv. by rewrite last_app. Qed.

(** A child of the root's child. *)
Lemma grandchild id k xs i : t_nodes b !! id = Some i -> entry lv k id xs -> i ∈ kids b es -> S k = length A /\
  exists j, child_of lv k cid es j id.
Proof.
  clear q cp o co Hq Hcp Ho Hco. intros Hid He (j & Hj & Hi)%elem_of_kids. rewrite (dirty_inj _ _ _ _ _ H Hid Hi) in *.
  pose proof (one_child_cid A cid root es e) as Hc.
  destruct (decide (length A = 0%nat)) as [E0|E0].
  - rewrite E0 in Hc. pose proof (in_items _ _ H _ _ _ Hc) as Hf. rewrite Forall_forall in Hf.
    destruct (iv_leaf _ _ (Hf j Hj) eq_refl) as [Ez _].
    destruct (entry_nonzero _ _ _ _ _ H ltac:(unfold lv; rewrite length_app; cbn; lia) He Ez).
  - assert (exists m, length A = S m) as [m Em] by (exists (length A - 1)%nat; lia). rewrite Em in Hc.
    destruct (has_child _ _ _ _ _ Hlv Hc Hj) as [ys Hys]. destruct (entry_inj _ _ _ _ _ _ Hlv He Hys) as [-> _].
    split; [done|]. exists j. done.
Qed.

Context (b' : txb).
Context (Hnodes : t_nodes b' = delete cid (t_nodes b)) (Hroot : t_root b' = t_root b) (Hpage : t_page b' = t_page b).
Context (Hrn : t_rootNode b' = t_rootNode b) (Hopen : t_open b' = t_open b) (Hwr : t_writable b' = t_writable b).
Context (Hpages : t_pages b' = t_pages b).
Context (n' : node) (Hn' : n' = mkNode (isLeaf (o_node co)) (unbalanced n') (spilled (o_node o)) (n_key n') root es).
Context (Hkey' : n_key n' = n_key (o_node o)).
Context (Hroot' : t_heap b' !! q = Some (mkNobj n' (o_parent o) (o_children co))).
Context (Hheap : forall id i oi, t_nodes b !! id = Some i -> id <> cid -> id <> root -> t_heap b !! i = Some oi ->
  t_heap b' !! i = Some (if decide (i ∈ kids b es) then o_setParent (Some q) oi else oi)).

Lemma collapse_root_dirty : dirty lv' b' (length A) root es (mkNobj n' (o_parent o) (o_children co)).
Proof.
  destruct collapse_objects as [[C1 C2 C3 C4 C5 C6 C7] [R1 R2 R3 R4 R5 R6 R7]]. rewrite Hn'. split; cbn; try done.
  - assert (Hnone : o_parent o = None).
    { destruct (o_parent o) as [r|]; [|done]. destruct R5 as (P & ps & i & Hc & _).
      destruct (root_not_child lv (S (length A)) P ps i (t_root b) Hlv (in_root _ _ H)). by rewrite collapse_root. }
    rewrite Hnone in *. split; [unfold lv', collapsed; rewrite length_app; cbn; lia|]. rewrite Hkey'. apply R5.
  - intros c. rewrite C7, Hnodes. split; intros (Hk & i & Hi & Hc); (split; [done|]); exists i; (split; [done|]).
    + rewrite lookup_delete_ne; [done|]. intros E. pose proof (one_child_cid A cid root es e) as He.
      assert (exists m, length A = S m) as [m Em] by (exists (length A - 1)%nat; lia). pose proof He as He2. rewrite Em in He2.
      destruct (has_child _ _ _ _ _ Hlv He2 Hi) as [ys Hys]. rewrite <- E in Hys.
      destruct (entry_inj _ _ _ _ _ _ Hlv He Hys). lia.
    + by apply lookup_delete_Some in Hc as [_ ?].
Qed.

Lemma collapse_other_dirty id i k xs oi : t_nodes b !! id = Some i -> entry lv k id xs -> (k < length A)%nat ->
  dirty lv b k id xs oi -> dirty lv' b' k id xs (if decide (i ∈ kids b es) then o_setParent (Some q) oi else oi).
Proof.
  intros Hid He Hk D. pose proof D as [D1 D2 D3 D4 D5 D6 D7]. destruct collapse_ne as [Hne _].
  assert (Hpar : match (if decide (i ∈ kids b es) then Some q else o_parent oi) with
    | None => S k = length lv' /\ n_key (o_node oi) <> Some []
    | Some r => exists P ps j, child_of lv' k P ps j id /\ t_nodes b' !! P = Some r /\ n_key (o_node oi) = Some (in_key j)
    end).
  { destruct (o_parent oi) as [r|] eqn:Er.
    2: { exfalso. unfold lv in D5. rewrite length_app in D5. cbn in D5. lia. }
    destruct D5 as (P & ps & j & Hc & HP & Hkey). destruct (decide (i ∈ kids b es)) as [Hin|Hnin].
    - destruct (grandchild _ _ _ _ Hid He Hin) as (Ek & j' & Hc').
      destruct (parent_unique _ _ _ _ _ _ _ _ _ _ Hlv Hc Hc') as (_ & -> & -> & ->).
      exists root, es, j'. split; [apply (one_child_child A cid root es e); left; done|]. split; [|done].
      rewrite Hnodes, lookup_delete_ne by done. exact Hq.
    - assert (HPc : P <> cid).
      { intros ->. destruct (entry_inj _ _ _ _ _ _ Hlv (proj1 Hc) (one_child_cid A cid root es e)) as [_ ->].
        apply Hnin, elem_of_kids. exists j. destruct Hc as (_ & Hj & ->). done. }
      exists P, ps, j. split; [apply (one_child_child A cid root es e); right|split; [|done]].
      + split; [|done]. destruct (decide (S k = length A)) as [Ek|]; [|lia]. exfalso. apply HPc.
        destruct (proj1 Hc) as (l & Hl & Hin). rewrite Ek, lv_mid in Hl. injection Hl as <-.
        apply list_elem_of_singleton in Hin. by injection Hin.
      + by rewrite Hnodes, lookup_delete_ne. }
  assert (Hch : forall c, c ∈ o_children oi <-> (0 < k)%nat /\ exists j, j ∈ xs /\ t_nodes b' !! in_pgid j = Some c).
  { intros c. rewrite D7, Hnodes. split; intros (H0 & j & Hj & Hc); (split; [done|]); exists j; (split; [done|]).
    - rewrite lookup_delete_ne; [done|]. intros E. assert (exists m, k = S m) as [m Em] by (exists (k - 1)%nat; lia).
      subst k. destruct (has_child _ _ _ _ _ Hlv He Hj) as [ys Hys]. rewrite <- E in Hys.
      destruct (entry_inj _ _ _ _ _ _ Hlv Hys (one_child_cid A cid root es e)). lia.
    - by apply lookup_delete_Some in Hc as [_ ?]. }
  destruct (decide (i ∈ kids b es)); split; done.
Qed.

Lemma collapse_inv : inv lv' b'.
Proof.
  destruct collapse_ne as [Hne _]. pose proof (one_child_entry A cid root es e) as Hent.
  assert (Hlen : length lv' = S (length A)) by (unfold lv', collapsed; rewrite length_app; cbn; lia).
  assert (Hr0 : root <> 0).
  { apply (entry_nonzero lv b (S (length A)) root [e] H); [unfold lv; rewrite length_app; cbn; lia|apply one_child_rootentry]. }
  split.
  - exact (one_child_ok A cid root es e Hlv).
  - rewrite Hroot, collapse_root. exists es. unfold lv', collapsed. by rewrite last_snoc.
  - rewrite Hrn, Hroot, Hnodes, lookup_delete_ne by (rewrite collapse_root; done). apply (in_rootNode _ _ H).
  - rewrite Hroot, Hpage. pose proof (in_inline _ _ H) as Hi. rewrite collapse_root in *.
    destruct (Z.eqb_spec root 0); [done|exact Hi].
  - rewrite Hopen, Hwr. apply (in_open _ _ H).
  - intros id i Hi. rewrite Hnodes in Hi. apply lookup_delete_Some in Hi as [Hc Hi].
    destruct (decide (id = root)) as [->|Hid].
    + rewrite Hq in Hi. injection Hi as <-. exists (length A), es. eexists. split; [apply Hent; by left|].
      split; [exact Hroot'|apply collapse_root_dirty].
    + destruct (in_dirty _ _ H _ _ Hi) as (k & xs & oi & He & Hoi & D).
      assert (Hk : (k < length A)%nat).
      { destruct He as (l & Hl & Hin). destruct (decide (k < length A)%nat) as [|Hge]; [done|]. exfalso.
        pose proof (lookup_lt_Some _ _ _ Hl) as Hll. unfold lv in Hll. rewrite length_app in Hll. cbn in Hll.
        destruct (decide (k = length A)) as [->|].
        - rewrite lv_mid in Hl. injection Hl as <-.
          apply list_elem_of_singleton in Hin. injection Hin as E _. by apply Hc.
        - replace k with (S (length A)) in Hl by lia. rewrite lv_root in Hl. injection Hl as <-.
          apply list_elem_of_singleton in Hin. injection Hin as E _. by apply Hid. }
      exists k, xs. eexists. split; [apply Hent; by right|]. split; [by apply (Hheap id)|by apply (collapse_other_dirty id i k xs oi)].
  - intros k id xs He Hn. apply Hent in He as [(_ & -> & _)|[Hk He]].
    { rewrite Hnodes, lookup_delete_ne, Hq in Hn by done. done. }
    assert (Hidc : id <> cid).
    { intros ->. destruct (entry_inj _ _ _ _ _ _ Hlv He (one_child_cid A cid root es e)). lia. }
    rewrite Hnodes, lookup_delete_ne in Hn by done. destruct (in_clean _ _ H _ _ _ He Hn) as (p & Hp & Hr & Hkk).
    exists p. split; [unfold src in *; by rewrite Hpage, Hpages|]. split; [done|]. intros P ps j Hc.
    apply (one_child_child A cid root es e) in Hc as [(_ & _ & _ & Hc)|[_ Hc]]; by eapply Hkk.
  - intros k id xs He. apply Hent in He as [(-> & -> & ->)|[Hk He]]; [|by eapply in_items].
    apply (in_items _ _ H _ _ _ (one_child_cid A cid root es e)).
Qed.
End collapse.


Lemma emp_ext n lv b b' T : ext b b' -> emp n lv b T -> emp n lv b' T.
Proof.
  intros X He id Hid Hl Hn. destruct (He id Hid Hl Hn) as (HT & q & o & Hq & Ho & Hu).
  destruct (ex_heap _ _ X _ _ Ho) as (o' & Ho' & En & _). split; [done|]. exists q, o'.
  split; [|split; [done|by rewrite En]]. pose proof (ex_nodes _ _ X) as Hs. by eapply lookup_weaken.
Qed.

(** The nodes in memory below the root's child are not the root or the child. *)
Lemma grandkids_apart A root es e b q cp ch :
  inv (A ++ [[(in_pgid e, es)]; [(root, [e])]]) b -> t_nodes b !! root = Some q -> t_nodes b !! in_pgid e = Some cp ->
  ch ∈ kids b es -> ch <> q /\ ch <> cp /\ is_Some (t_heap b !! ch).
Proof.
  intros H Hq Hcp Hch. pose proof (in_lv _ _ H) as Hlv. pose proof Hch as (j & Hj & Hcj)%elem_of_kids.
  destruct (in_dirty _ _ H _ _ Hcj) as (k & xs & oc & Hej & Hoc & _).
  destruct (grandchild A root es e b H _ k xs ch Hcj Hej Hch) as [Ek _]. split_and!; [| |by exists oc]; intros ->.
  - rewrite (dirty_inj _ _ _ _ _ H Hcj Hq) in Hej.
    destruct (entry_inj _ _ _ _ _ _ Hlv Hej (one_child_rootentry A _ root es e)). lia.
  - rewrite (dirty_inj _ _ _ _ _ H Hcj Hcp) in Hej.
    destruct (entry_inj _ _ _ _ _ _ Hlv Hej (one_child_cid A _ root es e)). lia.
Qed.

(** The run from the point where the child is in memory. *)
Lemma collapse_run c A root es e b q cp o co p f :
  inv (A ++ [[(in_pgid e, es)]; [(root, [e])]]) b -> t_nodes b !! root = Some q -> t_nodes b !! in_pgid e = Some cp ->
  t_heap b !! q = Some o -> t_heap b !! cp = Some co -> in_pgid e <> 0 -> t_pages b !! in_pgid e = Some p ->
  free (c_txid c) (pg_id p) (pg_overflow p) (t_free b) = Ret f ->
  let n' := n_setContent (isLeaf (o_node co)) es (o_node o) in
  exists h,
    ('b ← update q (fun o => mkNobj (n_setContent (isLeaf (o_node co)) (inodes (o_node co)) (o_node o))
                               (o_parent o) (o_children co)) b;
     b ← reparent (inodes (o_node co)) q b;
     b ← update cp (o_setParent None) b;
     node_free c cp (s_nodes (delete (n_pgid (o_node co)) (t_nodes b)) b)) =
    Ret (s_free f (s_nodes (delete (in_pgid e) (t_nodes b)) (s_heap h b))) /\
    h !! q = Some (mkNobj n' (o_parent o) (o_children co)) /\
    forall x ox, x <> q -> x <> cp -> t_heap b !! x = Some ox ->
      h !! x = Some (if decide (x ∈ kids b es) then o_setParent (Some q) ox else ox).
Proof.
  intros H Hq Hcp Ho Hco H0 Hp Hf n'. pose proof (in_lv _ _ H) as Hlv.
  destruct (dirty_at _ _ _ _ _ _ H Hcp (one_child_cid A _ root es e)) as (co' & _ & Hco' & DC).
  rewrite Hco in Hco'. injection Hco' as <-.
  rewrite (update_Some _ _ _ _ Ho), (dr_inodes _ _ _ _ _ _ DC), (dr_pgid _ _ _ _ _ _ DC). cbn [mbind outcome_bind].
  fold n'. set (b2 := set q (mkNobj n' (o_parent o) (o_children co)) b).
  destruct (collapse_ne A root es e b H q cp Hq Hcp) as [Hne Hqc].
  pose proof (fun ch => grandkids_apart A root es e b q cp ch H Hq Hcp) as Hk.
  destruct (reparent_ok q es b2) as (h & E2 & R1 & R2).
  { intros ch Hch. destruct (Hk ch Hch) as (Hcq & _ & Hs). split; [done|]. unfold b2. cbn [set s_heap t_heap].
    by rewrite lookup_insert_ne. }
  change (kids b2 es) with (kids b es) in R1, R2. rewrite E2. cbn [mbind outcome_bind].
  assert (Hhc : h !! cp = Some co).
  { rewrite R2 by (intros Hin; by destruct (Hk cp Hin) as (_ & ? & _)). unfold b2. cbn [set s_heap t_heap]. by rewrite lookup_insert_ne. }
  assert (Hhq : h !! q = Some (mkNobj n' (o_parent o) (o_children co))).
  { rewrite R2 by (intros Hin; by destruct (Hk q Hin)). unfold b2. cbn [set s_heap t_heap]. by rewrite lookup_insert_eq. }
  rewrite (update_Some cp _ (s_heap h b2) co Hhc). cbn [mbind outcome_bind].
  unfold node_free. erewrite get_Some by (cbn [s_nodes set s_heap t_heap]; apply lookup_insert_eq). cbn [mbind outcome_bind o_setParent o_node].
  rewrite (dr_pgid _ _ _ _ _ _ DC). destruct (Z.eqb_spec (in_pgid e) 0); [done|]. unfold page_at. cbn [s_nodes set s_heap b2 t_pages]. rewrite Hp.
  cbn [mbind outcome_bind t_free s_nodes set s_heap b2]. rewrite Hf. cbn [lift mbind outcome_bind].
  eexists (<[cp := _]> (<[cp := _]> h)). split; [reflexivity|]. split; [by rewrite !lookup_insert_ne|].
  intros x ox Hxq Hxc Hox. rewrite !lookup_insert_ne by done.
  assert (Hx2 : t_heap b2 !! x = Some ox) by (unfold b2; cbn [set s_heap t_heap]; by rewrite lookup_insert_ne).
  destruct (decide (x ∈ kids b es)) as [Hin|Hnin]; [by apply R1|by rewrite R2].
Qed.

Lemma collapse_ok ps rest c A root es e b q :
  let lv := A ++ [[(in_pgid e, es)]; [(root, [e])]] in
  inv lv b -> space ps rest lv b -> t_nodes b !! root = Some q -> arity lv (Some root) ->
  exists b', collapse c q b = Ret b' /\ balanced ps rest lv b root (collapsed A root es) b'.
Proof.
  intros lv H Hsp Hq Ha. set (cid := in_pgid e). pose proof (in_lv _ _ H) as Hlv.
  assert (Hlen : length lv = S (S (length A))) by (unfold lv; rewrite length_app; cbn; lia).
  pose proof (one_child_rootentry A cid root es e) as He. pose proof (one_child_cid A cid root es e) as Hc.
  destruct (dirty_at _ _ _ _ _ _ H Hq He) as (o & Hg & Ho & D). unfold collapse. rewrite Hg. cbn [mbind outcome_bind].
  rewrite (dr_leaf _ _ _ _ _ _ D), (dr_inodes _ _ _ _ _ _ D). cbn [Nat.eqb negb andb length].
  pose proof (inode_at_lookup (o_node o) 0 e) as Hi. rewrite (dr_inodes _ _ _ _ _ _ D) in Hi. specialize (Hi eq_refl).
  change (Z.of_nat 0) with 0 in Hi. unfold inode_of. rewrite Hi. cbn [lift mbind outcome_bind].
  destruct (bucket_node_ok lv b (length A) cid es (Some q) H Hc) as (cp & b1 & E1 & H1 & X1 & Hcp).
  { exists root, [e], e. split; [|done]. exact (one_child_of A cid root es e Hlv). }
  { split; [done|]. intros E. destruct (root_not_child lv (length A) root [e] e cid Hlv); [rewrite E; apply (in_root _ _ H)|].
    exact (one_child_of A cid root es e Hlv). }
  fold cid. rewrite E1. cbn [mbind outcome_bind].
  assert (Hq1 : t_nodes b1 !! root = Some q) by (eapply lookup_weaken; [exact Hq|apply (ex_nodes _ _ X1)]).
  destruct (dirty_at _ _ _ _ _ _ H1 Hcp Hc) as (co & Hgc & Hco & DC). destruct (dirty_at _ _ _ _ _ _ H1 Hq1 He) as (o1 & _ & Ho1 & D1).
  rewrite Hgc. cbn [mbind outcome_bind].
  assert (Hcid0 : cid <> 0) by (apply (entry_nonzero lv b (length A) cid es H); [lia|done]).
  destruct (free_space ps rest lv (collapsed A root es) b1 (c_txid c) cid) as (p & f & Hp & Hf & Hfi & Hs & Hac); [|exact (one_child_ids A cid root es e)|done|].
  { destruct (ex_tx _ _ X1) as (? & ? & ? & ?). by eapply space_same. }
  destruct (collapse_run c A root es e b1 q cp o1 co p f H1 Hq1 Hcp Ho1 Hco Hcid0 Hp Hf) as (h & E2 & Hh1 & Hh2).
  rewrite E2. eexists. split; [reflexivity|].
  set (n' := n_setContent (isLeaf (o_node co)) es (o_node o1)) in *.
  assert (Hheap : forall id i oi, t_nodes b1 !! id = Some i -> id <> cid -> id <> root -> t_heap b1 !! i = Some oi ->
    h !! i = Some (if decide (i ∈ kids b1 es) then o_setParent (Some q) oi else oi)).
  { intros id i oi Hid Hic Hir Hoi. apply Hh2; [| |done]; intros ->; [apply Hir|apply Hic]; by eapply dirty_inj. }
  split.
  - apply (collapse_inv A root es e b1 H1 q cp o1 co Hq1 Hcp Ho1 Hco
      (s_free f (s_nodes (delete (in_pgid e) (t_nodes b1)) (s_heap h b1))) eq_refl eq_refl eq_refl eq_refl eq_refl eq_refl eq_refl n'); [|done|done|done].
    unfold n', n_setContent. cbn. by rewrite (dr_pgid _ _ _ _ _ _ D1).
  - intros k x xs Hx. apply (one_child_entry A cid root es e) in Hx as [(Ek & -> & ->)|[Hk Hx]].
    + rewrite decide_False by done. rewrite <- Ek in Hc. specialize (Ha k cid es Hc). rewrite decide_False in Ha; [done|].
      intros [= E]. destruct (collapse_ne A root es e b1 H1 q cp Hq1 Hcp) as [Hne _]. done.
    + specialize (Ha k x xs Hx). rewrite decide_False by done. rewrite decide_False in Ha; [done|]. intros [= <-].
      destruct (entry_inj _ _ _ _ _ _ Hlv Hx He). lia.
  - eapply space_same; [..|exact Hs]; done.
  - by destruct A.
  - unfold collapsed. rewrite Hlen, length_app. cbn. lia.
  - apply (kept_trans b b1); [by apply ext_kept|by repeat split].
  - intros T HT x Hx Hlx _. apply (one_child_entry A cid root es e) in Hx as [(Ek & _ & _)|[Hk Hx]].
    { unfold collapsed in Hlx. rewrite length_app in Hlx. cbn in Hlx. lia. }
    destruct (emp_ext _ _ _ _ _ X1 HT x Hx ltac:(fold cid; fold lv; lia) ltac:(done)) as (HTx & i & oi & Hi2 & Hoi & Hu).
    assert (Hxr : x <> root) by (intros ->; destruct (entry_inj _ _ _ _ _ _ Hlv Hx He); lia).
    assert (Hxc : x <> cid) by (intros ->; destruct (entry_inj _ _ _ _ _ _ Hlv Hx Hc); lia).
    split; [done|]. exists i. eexists. split; [cbn; by rewrite lookup_delete_ne|]. split; [by apply (Hheap x)|].
    by destruct (decide _).
  - apply collapse_sep.
  - apply (accounted_trans _ _ (ids lv) b1); [|exact Hac]. destruct (ex_tx _ _ X1) as (? & ? & ? & ?). by apply accounted_refl.
Qed.

(** ** rebalance *)

Section clear.
Context (lv : list level) (b : txb) (id : Z) (q : nat) (o : nobj).
Context (H : inv lv b) (Hq : t_nodes b !! id = Some q) (Ho : t_heap b !! q = Some o).
Let b' := set q (o_setNode (n_setUnbalanced false (o_node o)) o) b.

Lemma clear_inv : inv lv b'.
Proof.
  destruct H as [I1 I2 I3 I4 I5 I6 I7 I8]. split; try done. intros x r Hr.
  destruct (I6 x r Hr) as (d & es & ox & He & Hox & D). exists d, es. unfold b'. cbn [set s_heap t_heap].
  destruct (decide (r = q)) as [->|Hne].
  - rewrite lookup_insert_eq. eexists. split; [done|]. split; [done|]. rewrite Ho in Hox. injection Hox as <-.
    destruct D as [D1 D2 D3 D4 D5 D6 D7]. split; done.
  - rewrite lookup_insert_ne by done. exists ox. split; [done|]. split; [done|]. destruct D as [D1 D2 D3 D4 D5 D6 D7]. split; done.
Qed.

Lemma clear_emp T : emp None lv b T -> emp (Some id) lv b' T.
Proof.
  intros HT x Hx Hl Hn. destruct (HT x Hx Hl) as (HTx & r & ox & Hr & Hox & Hu); [done|]. split; [done|].
  exists r, ox. split; [done|]. split; [|done]. unfold b'. cbn [set s_heap t_heap]. rewrite lookup_insert_ne; [done|].
  intros ->. apply Hn. f_equal. by eapply dirty_inj.
Qed.

Lemma clear_dirty d es : entry lv d id es -> dirty lv b' d id es (o_setNode (n_setUnbalanced false (o_node o)) o).
Proof.
  intros He. destruct (dirty_at _ _ _ _ _ _ clear_inv (Hq : t_nodes b' !! id = Some q) He) as (o' & _ & Ho' & D).
  unfold b' in Ho' at 1. cbn [set s_heap t_heap] in Ho'. rewrite lookup_insert_eq in Ho'. by injection Ho' as <-.
Qed.
End clear.

Lemma emp_weaken n lv b (T T' : Z -> Prop) : (forall x, T x -> T' x) -> emp n lv b T -> emp n lv b T'.
Proof. intros HT He x Hx Hl Hn. destruct (He x Hx Hl Hn) as [HTx Hr]. auto. Qed.

(** A node with an inode is not an empty leaf. *)
Lemma emp_some lv b d id es T : lv_ok lv -> entry lv d id es -> d <> 0%nat \/ es <> [] \/ length lv = 1%nat ->
  emp (Some id) lv b T -> emp None lv b (fun x => T x /\ x <> id).
Proof.
  intros Hlv He Hd HT x Hx Hl _. assert (Hne : x <> id).
  { intros ->. destruct (entry_inj _ _ _ _ _ _ Hlv Hx He) as [<- <-]. destruct Hd as [?|[?|?]]; [done|done|lia]. }
  destruct (HT x Hx Hl) as [? ?]; [congruence|done].
Qed.

(** The parent's turn comes after a node is dropped. *)
Lemma dropped_balanced ps rest lv b b0 d n P pp lv' b' lv'' b'' : kept b b0 -> t_free b0 = t_free b ->
  (forall T, emp None lv b T -> emp (Some n) lv b0 T) ->
  dropped ps rest lv b0 d n P pp lv' b' -> balanced ps rest lv' b' P lv'' b'' -> balanced ps rest lv b n lv'' b''.
Proof.
  intros Hk Hfr He [D1 D2 D3 D4 D5 D6 D7 D8 D9 D10] [B1 B2 B3 B4 B5 B6 B7 B8 B9]. split; try done.
  - congruence.
  - lia.
  - by apply (kept_trans b b0), (kept_trans b0 b').
  - intros T HT. eapply emp_weaken; [|exact (B7 _ (D8 T (He T HT)))]. cbn. naive_solver.
  - intros Hs. by apply B8, D9.
  - apply (accounted_trans _ _ (ids lv) b0); [apply accounted_refl; [apply Hk|done]|].
    by apply (accounted_trans _ _ (ids lv') b').
Qed.

(** Two nodes below inodes next to each other. *)
Lemma neighbours lv d P a e1 e2 t : lv_ok lv -> entry lv (S d) P (a ++ e1 :: e2 :: t) ->
  exists l0 xs ys l2 u1 u2, lv !! d = Some ((l0 ++ [(in_pgid e1, xs)]) ++ (in_pgid e2, ys) :: l2) /\
    lv !! S d = Some (u1 ++ (P, (a ++ [e1]) ++ e2 :: t) :: u2) /\
    (length (l0 ++ [(in_pgid e1, xs)]) = length (items u1) + length (a ++ [e1]))%nat.
Proof.
  intros Hlv (up & Hup & Hin). destruct (lookup_lt_is_Some_2 lv d) as [lo Hlo]; [apply lookup_lt_Some in Hup; lia|].
  apply list_elem_of_lookup in Hin as [i Hi]. destruct (split_at _ _ _ Hi) as (u1 & u2 & Eu & _).
  pose proof (lo_above _ Hlv _ _ _ Hlo Hup) as Hab.
  destruct (above_child up lo u1 _ u2 a e1 (e2 :: t) Hab Eu eq_refl) as (l0 & xs & l2 & E0 & Hl0).
  destruct (above_child up lo u1 _ u2 (a ++ [e1]) e2 t Hab Eu) as (l1 & ys & l3 & E1 & Hl1); [cbn; by rewrite <- app_assoc|].
  rewrite length_app in Hl1. cbn in Hl1. assert (El : l1 = l0 ++ [(in_pgid e1, xs)]).
  { rewrite E0 in E1. change (l0 ++ (in_pgid e1, xs) :: l2) with (l0 ++ [(in_pgid e1, xs)] ++ l2) in E1. rewrite app_assoc in E1.
    apply app_inj_1 in E1 as [E1 _]; [done|]. rewrite length_app. cbn. lia. }
  exists l0, xs, ys, l3, u1, u2. subst l1. rewrite <- (app_assoc a). cbn [app].
  split; [congruence|]. split; [congruence|]. rewrite !length_app in *. cbn in *. lia.
Qed.

(** The place of a node among its siblings. *)
Lemma sibling_place lv d P ps e id pn : lv_ok lv -> child_of lv d P ps e id -> inodes pn = ps ->
  exists a t, ps = a ++ e :: t /\ childIndex (in_key e) pn = length a.
Proof.
  intros Hlv (HP & He & _) Hps. apply list_elem_of_lookup in He as [j Hj]. destruct (split_at _ _ _ Hj) as (a & t & E & Hl).
  exists a, t. split; [done|]. unfold childIndex, keys. rewrite Hps. apply lower_bound_lookup.
  - by apply (entry_sorted _ _ _ _ Hlv HP).
  - by rewrite Hl, list_lookup_fmap, Hj.
Qed.

(** What node_rebalance does next to a node that has children and siblings. *)
Definition merge_step (c : config) (parent q : nat) (n : node) (b : txb) : outcome bolt_error txb :=
  po ← get parent b;
  if (numChildren (o_node po) <=? 1)%nat then Panic
  else if (childIndex (node_key n) (o_node po) =? 0)%nat then
         '(target, b) ← nextSibling q b;
         match target with None => Panic | Some target => merge_into c parent q target b end
       else
         '(target, b) ← prevSibling q b;
         match target with None => Panic | Some target => merge_into c parent target q b end.

Section siblings.
Context (lv : list level) (b : txb) (d : nat) (id P : Z) (es ps : list inode) (e : inode) (q pp : nat) (o po : nobj).
Context (H : inv lv b) (Hid : entry lv d id es) (Hc : child_of lv d P ps e id) (Hlen : (2 <= length ps)%nat).
Context (Hq : t_nodes b !! id = Some q) (HP : t_nodes b !! P = Some pp).
Context (Ho : t_heap b !! q = Some o) (Hop : o_parent o = Some pp) (Hkey : n_key (o_node o) = Some (in_key e)).
Context (Hpo : t_heap b !! pp = Some po) (Dp : dirty lv b (S d) P ps po).

Lemma key_of_node : node_key (o_node o) = in_key e.
Proof. unfold node_key. by rewrite Hkey. Qed.

Lemma nextSibling_ok t : ps = e :: t ->
  exists e2 t2 tg b', t = e2 :: t2 /\ nextSibling q b = Ret (Some tg, b') /\ inv lv b' /\ ext b b' /\
    t_nodes b' !! in_pgid e2 = Some tg.
Proof.
  intros Eps. destruct t as [|e2 t2]; [rewrite Eps in Hlen; cbn in Hlen; lia|]. exists e2, t2.
  assert (He2 : ps !! 1%nat = Some e2) by (by rewrite Eps).
  destruct (childAt_ok lv b d P ps e2 pp 1 H (proj1 Hc) HP He2) as (tg & b' & E & I & X & Ht).
  exists tg, b'. split; [done|]. split; [|done]. unfold nextSibling. rewrite (get_Some _ _ _ Ho). cbn [mbind outcome_bind].
  rewrite Hop, (get_Some _ _ _ Hpo). cbn [mbind outcome_bind]. rewrite key_of_node.
  destruct (sibling_place lv d P ps e id (o_node po) (in_lv _ _ H) Hc (dr_inodes _ _ _ _ _ _ Dp)) as (a' & t' & Ea & ->).
  assert (a' = []) as ->.
  { destruct a' as [|x a']; [done|]. exfalso. pose proof (NoDup_pgids _ _ _ _ (in_lv _ _ H) (proj1 Hc)) as Hn.
    rewrite Eps in Ea, Hn. injection Ea as <- Ea. rewrite fmap_cons in Hn. apply NoDup_cons in Hn as [Hn _]. apply Hn.
    rewrite Ea. apply list_elem_of_fmap_2. apply elem_of_app. right. by left. }
  unfold numChildren. rewrite (dr_inodes _ _ _ _ _ _ Dp). cbn [length]. change (Z.of_nat 0) with 0.
  destruct (Z.leb_spec (Z.of_nat (length ps) - 1) 0); [lia|]. change (0 + 1) with (Z.of_nat 1). rewrite E. done.
Qed.

Lemma prevSibling_ok a e1 t : ps = a ++ e1 :: e :: t ->
  exists tg b', prevSibling q b = Ret (Some tg, b') /\ inv lv b' /\ ext b b' /\ t_nodes b' !! in_pgid e1 = Some tg.
Proof.
  intros Eps. assert (He1 : ps !! length a = Some e1) by (rewrite Eps; by apply list_lookup_middle).
  destruct (childAt_ok lv b d P ps e1 pp (length a) H (proj1 Hc) HP He1) as (tg & b' & E & I & X & Ht).
  exists tg, b'. split; [|done]. unfold prevSibling. rewrite (get_Some _ _ _ Ho). cbn [mbind outcome_bind].
  rewrite Hop, (get_Some _ _ _ Hpo). cbn [mbind outcome_bind]. rewrite key_of_node.
  assert (Ei : childIndex (in_key e) (o_node po) = S (length a)).
  { unfold childIndex, keys. rewrite (dr_inodes _ _ _ _ _ _ Dp). apply lower_bound_lookup.
    - by apply (entry_sorted _ _ _ _ (in_lv _ _ H) (proj1 Hc)).
    - rewrite list_lookup_fmap, Eps, lookup_app_r by lia. by replace (S (length a) - length a)%nat with 1%nat by lia. }
  rewrite Ei. destruct (Z.eqb_spec (Z.of_nat (S (length a))) 0); [lia|].
  replace (Z.of_nat (S (length a)) - 1) with (Z.of_nat (length a)) by lia. rewrite E. done.
Qed.
End siblings.

Lemma dropped_ext ps rest lv b b1 d n P pp lv' b' : ext b b1 ->
  dropped ps rest lv b1 d n P pp lv' b' -> dropped ps rest lv b d n P pp lv' b'.
Proof.
  intros X [D1 D2 D3 D4 D5 D6 D7 D8 D9 D10]. split; try done.
  - by apply (kept_trans b b1); [apply ext_kept|].
  - intros T HT. apply D8. by apply (emp_ext _ _ b).
  - apply (accounted_trans _ _ (ids lv) b1); [|done]. destruct (ex_tx _ _ X) as (? & ? & ? & ?). by apply accounted_refl.
Qed.

Lemma space_ext ps rest lv b b' : ext b b' -> space ps rest lv b -> space ps rest lv b'.
Proof. intros X. destruct (ex_tx _ _ X) as (? & ? & ? & ?). by apply space_same. Qed.

Lemma merge_step_ok ps rest c lv b d id P es pes e q pp o thin :
  inv lv b -> space ps rest lv b -> entry lv d id es -> child_of lv d P pes e id -> es <> [] ->
  t_nodes b !! id = Some q -> t_nodes b !! P = Some pp -> t_heap b !! q = Some o -> o_parent o = Some pp ->
  n_key (o_node o) = Some (in_key e) -> arity lv thin -> (forall z, thin = Some z -> z = id) ->
  exists lv' b', merge_step c pp q (o_node o) b = Ret b' /\ dropped ps rest lv b d id P pp lv' b'.
Proof.
  intros H Hsp Hid Hc Hes Hq HP Ho Hop Hkey Ha Hthin. pose proof (in_lv _ _ H) as Hlv.
  destruct (dirty_at _ _ _ _ _ _ H HP (proj1 Hc)) as (po & Hg & Hpo & Dp).
  assert (Hlen : (2 <= length pes)%nat).
  { specialize (Ha d P pes (proj1 Hc)). rewrite decide_False in Ha; [done|]. intros E. rewrite (Hthin _ E) in Hc.
    destruct (entry_inj _ _ _ _ _ _ Hlv Hid (proj1 Hc)). lia. }
  unfold merge_step. rewrite Hg. cbn [mbind outcome_bind]. unfold numChildren. rewrite (dr_inodes _ _ _ _ _ _ Dp).
  destruct (Nat.leb_spec (length pes) 1); [lia|].
  rewrite (key_of_node e o Hkey).
  destruct (sibling_place lv d P pes e id (o_node po) Hlv Hc (dr_inodes _ _ _ _ _ _ Dp)) as (a & t & Epes & ->).
  assert (Eid : in_pgid e = id) by apply Hc. destruct (decide (a = [])) as [->|Hne].
  - cbn [length Nat.eqb]. cbn [app] in Epes.
    destruct (nextSibling_ok lv b d id P pes e q pp o po H Hc Hlen HP Ho Hop Hkey Hpo Dp t Epes) as (e2 & t2 & tg & b1 & -> & -> & I1 & X1 & Ht).
    cbn [mbind outcome_bind]. destruct (neighbours lv d P [] e e2 t2 Hlv) as (l0 & xs & ys & l2 & u1 & u2 & El & Eu & Hl).
    { cbn. rewrite <- Epes. apply Hc. }
    assert (Exs : entry lv d id xs).
    { eexists. split; [exact El|]. apply elem_of_app. left. apply elem_of_app. right. rewrite Eid. by left. }
    destruct (entry_inj _ _ _ _ _ _ Hlv Hid Exs) as [_ <-]. rewrite Eid in El, Hl.
    pose proof (ex_nodes _ _ X1) as Xn.
    destruct (merge_ok ps rest c lv b1 d l0 id es l2 u1 u2 (in_pgid e2) P ys ([] ++ [e]) t2 e2 tg q pp thin id I1) as (lv' & b' & E & D); try done.
    + by apply (space_ext ps rest lv b).
    + by eapply lookup_weaken.
    + by eapply lookup_weaken.
    + intros z Hz. right. by apply Hthin.
    + right. done.
    + exists lv', b'. split; [exact E|]. by apply (dropped_ext _ _ _ b b1).
  - destruct (exists_last Hne) as (a0 & e1 & ->). rewrite <- app_assoc in Epes. cbn [app] in Epes.
    destruct (Nat.eqb_spec (length (a0 ++ [e1])) 0) as [E0|_]; [rewrite length_app in E0; cbn in E0; lia|].
    destruct (prevSibling_ok lv b d id P pes e q pp o po H Hc Hlen HP Ho Hop Hkey Hpo Dp a0 e1 t Epes) as (tg & b1 & -> & I1 & X1 & Ht).
    cbn [mbind outcome_bind]. destruct (neighbours lv d P a0 e1 e t Hlv) as (l0 & xs & ys & l2 & u1 & u2 & El & Eu & Hl).
    { rewrite <- Epes. apply Hc. }
    assert (Eys : entry lv d id ys).
    { eexists. split; [exact El|]. apply elem_of_app. right. rewrite Eid. by left. }
    destruct (entry_inj _ _ _ _ _ _ Hlv Hid Eys) as [_ <-]. rewrite Eid in El.
    pose proof (ex_nodes _ _ X1) as Xn.
    destruct (merge_ok ps rest c lv b1 d l0 (in_pgid e1) xs l2 u1 u2 id P es (a0 ++ [e1]) t e q tg pp thin id I1) as (lv' & b' & E & D); try done.
    + by apply (space_ext ps rest lv b).
    + by eapply lookup_weaken.
    + by eapply lookup_weaken.
    + intros z Hz. left. by apply Hthin.
    + by left.
    + exists lv', b'. split; [exact E|]. by apply (dropped_ext _ _ _ b b1).
Qed.


Definition cleared (q : nat) (o : nobj) (b : txb) : txb := set q (o_setNode (n_setUnbalanced false (o_node o)) o) b.

(** node_rebalance past its early returns. *)
Lemma node_rebalance_eq fuel c q b o parent : t_heap b !! q = Some o -> o_parent o = Some parent ->
  unbalanced (o_node o) = true ->
  ((Z.quot (c_pageSize c) 4 <? size (o_node o)) && (minKeys (o_node o) <? length (inodes (o_node o)))%nat = false) ->
  node_rebalance (S fuel) c q b =
    (b ← (if (numChildren (o_node o) =? 0)%nat then remove_node c parent q (cleared q o b)
          else merge_step c parent q (o_node o) (cleared q o b));
     node_rebalance fuel c parent b).
Proof.
  intros Ho Hp Hu Ht. cbn [node_rebalance]. rewrite (get_Some _ _ _ Ho). cbn [mbind outcome_bind]. rewrite Hu, Ht, Hp.
  cbn [negb]. fold (cleared q o b). destruct (numChildren (o_node o) =? 0)%nat; [done|]. unfold merge_step.
  destruct (get parent (cleared q o b)) as [po| |]; cbn [mbind outcome_bind]; [|done|done].
  by destruct (numChildren (o_node po) <=? 1)%nat.
Qed.

(** A node that needs nothing more. *)
Lemma settled ps rest lv b d id es q o : inv lv b -> space ps rest lv b -> entry lv d id es ->
  t_nodes b !! id = Some q -> t_heap b !! q = Some o -> arity lv None -> d <> 0%nat \/ es <> [] \/ length lv = 1%nat ->
  balanced ps rest lv b id lv (cleared q o b).
Proof.
  intros H Hsp He Hq Ho Ha Hd. split; try done.
  - by eapply clear_inv.
  - by apply (space_same ps rest lv b).
  - intros T HT. eapply emp_some; [apply (in_lv _ _ H)|done|done|]. by eapply clear_emp.
  - by apply accounted_refl.
Qed.

Lemma arity_leaf lv id es thin : lv_ok lv -> entry lv 0 id es -> arity lv thin -> (forall z, thin = Some z -> z = id) ->
  arity lv None.
Proof.
  intros Hlv He Ha Ht d x xs Hx. specialize (Ha d x xs Hx). rewrite decide_False in Ha; [by rewrite decide_False|].
  intros E. rewrite (Ht _ E) in Hx. by destruct (entry_inj _ _ _ _ _ _ Hlv He Hx).
Qed.

Lemma arity_two lv d id es thin : lv_ok lv -> entry lv d id es -> arity lv thin -> (forall z, thin = Some z -> z = id) ->
  (2 <= length es)%nat -> arity lv None.
Proof.
  intros Hlv He Ha Ht Hes k x xs Hx. specialize (Ha k x xs Hx). rewrite decide_False by done.
  destruct (decide (thin = Some x)) as [E|]; [|done]. rewrite (Ht _ E) in Hx.
  by destruct (entry_inj _ _ _ _ _ _ Hlv He Hx) as [_ <-].
Qed.

Lemma collapse_keep c q b o : t_heap b !! q = Some o -> isLeaf (o_node o) = true \/ (length (inodes (o_node o)) =? 1)%nat = false ->
  collapse c q b = Ret b.
Proof.
  intros Ho Hn. unfold collapse. rewrite (get_Some _ _ _ Ho). cbn [mbind outcome_bind].
  destruct Hn as [->| ->]; cbn [negb andb]; [done|]. by rewrite andb_false_r.
Qed.

(** The root. *)
Lemma root_visit ps rest c lv b d id es q o thin :
  inv lv b -> space ps rest lv b -> entry lv d id es -> t_nodes b !! id = Some q -> t_heap b !! q = Some o ->
  S d = length lv -> arity lv thin -> (forall z, thin = Some z -> z = id) ->
  exists lv' b', collapse c q (cleared q o b) = Ret b' /\ balanced ps rest lv b id lv' b'.
Proof.
  intros H Hsp He Hq Ho Hd Ha Ht. pose proof (in_lv _ _ H) as Hlv.
  pose proof (clear_inv lv b q o H Ho) as H0. pose proof (clear_dirty lv b id q o H Hq Ho d es He) as D.
  fold (cleared q o b) in H0, D. assert (Hq0 : t_nodes (cleared q o b) !! id = Some q) by exact Hq.
  assert (Ho0 : t_heap (cleared q o b) !! q = Some (o_setNode (n_setUnbalanced false (o_node o)) o))
    by (unfold cleared; cbn [set s_heap t_heap]; apply lookup_insert_eq).
  destruct (decide (d = 0%nat)) as [->|Hd0].
  { exists lv, (cleared q o b). split.
    - eapply collapse_keep; [exact Ho0|]. left. apply (dr_leaf _ _ _ _ _ _ D).
    - apply (settled _ _ _ _ 0 id es); try done; [by eapply arity_leaf|]. right. right. lia. }
  destruct (decide (length es = 1%nat)) as [E1|E1].
  - destruct es as [|e [|]]; try done. assert (Hl : list_basics.list.last lv = Some [(id, [e])]).
    { destruct He as (l & Hl & Hin). rewrite (top_entry lv d l id [e] Hlv Hl Hd Hin) in Hl. rewrite last_lookup.
      by replace (Init.Nat.pred (length lv)) with d by lia. }
    destruct (root_one_child lv id e Hlv) as (A & es & ->); [lia|done|].
    destruct (collapse_ok ps rest c A id es e (cleared q o b) q H0) as (b' & E & B); [by apply (space_same ps rest _ b)|done| |].
    { intros k x xs Hx. specialize (Ha k x xs Hx). destruct (decide (thin = Some x)) as [E|].
      - rewrite (Ht _ E). by rewrite decide_True.
      - destruct (decide (Some id = Some x)); lia. }
    exists (collapsed A id es), b'. split; [exact E|]. destruct B as [B1 B2 B3 B4 B5 B6 B7 B8]. split; try done.
    intros T HT. apply B7. eapply emp_weaken; [|eapply emp_some; [exact Hlv|exact He|by left|]]; [|by eapply clear_emp].
    cbn. naive_solver.
  - exists lv, (cleared q o b). split.
    + eapply collapse_keep; [exact Ho0|]. right. pose proof (dr_inodes _ _ _ _ _ _ D) as ->. by apply Nat.eqb_neq.
    + apply (settled _ _ _ _ d id es); try done; [|by left]. eapply (arity_two lv d id es); try done.
      destruct d as [|k]; [done|]. specialize (Ha k id es He). destruct (decide _); lia.
Qed.

(** A node that is not marked. *)
Lemma idle_visit ps rest lv b d id es q o : inv lv b -> space ps rest lv b -> entry lv d id es ->
  t_nodes b !! id = Some q -> t_heap b !! q = Some o -> arity lv None -> unbalanced (o_node o) = false ->
  balanced ps rest lv b id lv b.
Proof.
  intros H Hsp He Hq Ho Ha Hu. split; try done; [|by apply accounted_refl]. intros T HT x Hx Hl _.
  destruct (HT x Hx Hl) as (HTx & r & ox & Hr & Hox & Hub); [done|]. split; [|by exists r, ox].
  split; [done|]. intros ->. rewrite Hq in Hr. injection Hr as <-. congruence.
Qed.

(** A node that is large enough. *)
Lemma large_visit ps rest lv b d id es q o thin : inv lv b -> space ps rest lv b -> entry lv d id es ->
  t_nodes b !! id = Some q -> t_heap b !! q = Some o -> arity lv thin -> (forall z, thin = Some z -> z = id) ->
  (minKeys (o_node o) < length (inodes (o_node o)))%nat -> balanced ps rest lv b id lv (cleared q o b).
Proof.
  intros H Hsp He Hq Ho Ha Ht Hm. pose proof (in_lv _ _ H) as Hlv.
  destruct (dirty_at _ _ _ _ _ _ H Hq He) as (o' & _ & Ho' & D). rewrite Ho in Ho'. injection Ho' as <-.
  rewrite (dr_inodes _ _ _ _ _ _ D) in Hm. unfold minKeys in Hm. rewrite (dr_leaf _ _ _ _ _ _ D) in Hm.
  apply (settled _ _ _ _ d id es); try done.
  - destruct (Nat.eqb_spec d 0) as [->|Hd]; [by eapply arity_leaf|]. eapply (arity_two lv d id es); try done. lia.
  - right. left. intros ->. cbn in Hm. lia.
Qed.

(** The places of a node and of the inode that points at it. *)
Lemma node_places lv d P ps e id es : lv_ok lv -> entry lv d id es -> child_of lv d P ps e id ->
  exists l1 l2 u1 u2 a t, lv !! d = Some (l1 ++ (id, es) :: l2) /\
    lv !! S d = Some (u1 ++ (P, a ++ e :: t) :: u2) /\ (length l1 = length (items u1) + length a)%nat.
Proof.
  intros Hlv (l & Hl & Hin) Hc. pose proof (proj1 Hc) as (up & Hup & _).
  apply list_elem_of_lookup in Hin as [i Hi]. destruct (split_at _ _ _ Hi) as (l1 & l2 & El & _).
  destruct (above_split up l l1 _ l2 (lo_above _ Hlv _ _ _ Hl Hup) El) as (u1 & [P' ps'] & u2 & a & e' & t & Eu & EP & Ee & Hlen).
  cbn in EP. subst ps'. assert (Hc' : child_of lv d P' (a ++ e' :: t) e' id).
  { split; [exists up; split; [done|]; rewrite Eu; apply elem_of_app; right; by left|]. split; [|done].
    apply elem_of_app. right. by left. }
  destruct (parent_unique _ _ _ _ _ _ _ _ _ _ Hlv Hc Hc') as (_ & <- & _ & <-).
  exists l1, l2, u1, u2, a, t. subst. done.
Qed.

(** A step of rebalance at a node with a parent. *)
Lemma child_visit ps rest c lv b d id P es pes e q pp o thin :
  inv lv b -> space ps rest lv b -> entry lv d id es -> child_of lv d P pes e id ->
  t_nodes b !! id = Some q -> t_nodes b !! P = Some pp -> t_heap b !! q = Some o -> o_parent o = Some pp ->
  n_key (o_node o) = Some (in_key e) -> arity lv thin -> (forall z, thin = Some z -> z = id) ->
  exists lv' b', (if (numChildren (o_node o) =? 0)%nat then remove_node c pp q (cleared q o b)
                  else merge_step c pp q (o_node o) (cleared q o b)) = Ret b' /\
    dropped ps rest lv (cleared q o b) d id P pp lv' b'.
Proof.
  intros H Hsp He Hc Hq HP Ho Hop Hkey Ha Ht. pose proof (in_lv _ _ H) as Hlv.
  destruct (dirty_at _ _ _ _ _ _ H Hq He) as (o' & _ & Ho' & D). rewrite Ho in Ho'. injection Ho' as <-.
  pose proof (clear_inv lv b q o H Ho) as H0. fold (cleared q o b) in H0.
  assert (Hsp0 : space ps rest lv (cleared q o b)) by (by apply (space_same ps rest lv b)).
  unfold numChildren. rewrite (dr_inodes _ _ _ _ _ _ D). destruct es as [|e0 es].
  - cbn [length Nat.eqb]. destruct (node_places lv d P pes e id [] Hlv He Hc) as (l1 & l2 & u1 & u2 & a & t & El & Eu & Hlen).
    assert (d = 0%nat) as ->.
    { destruct d as [|k]; [done|]. specialize (Ha k id [] He). cbn in Ha. destruct (decide _); lia. }
    eapply remove_ok; try done. by eapply arity_leaf.
  - cbn [length Nat.eqb].
    apply (merge_step_ok ps rest c lv (cleared q o b) d id P (e0 :: es) pes e q pp (o_setNode (n_setUnbalanced false (o_node o)) o) thin); try done.
    unfold cleared. cbn [set s_heap t_heap]. apply lookup_insert_eq.
Qed.

(** rebalance at one node and then at its parents. *)
Lemma node_rebalance_ok ps rest c fuel : forall lv b d id es q thin,
  inv lv b -> space ps rest lv b -> entry lv d id es -> t_nodes b !! id = Some q -> arity lv thin ->
  (forall z, thin = Some z -> z = id /\ exists o, t_heap b !! q = Some o /\ unbalanced (o_node o) = true) ->
  (length lv <= fuel + S d)%nat ->
  exists lv' b', node_rebalance fuel c q b = Ret b' /\ balanced ps rest lv b id lv' b'.
Proof.
  induction fuel as [|fuel IH]; intros lv b d id es q thin H Hsp He Hq Ha Hthin Hfuel.
  all: destruct (dirty_at _ _ _ _ _ _ H Hq He) as (o & Hg & Ho & D).
  all: assert (Ht : forall z, thin = Some z -> z = id) by (intros z Hz; by apply Hthin).
  all: assert (Hidle : unbalanced (o_node o) = false -> balanced ps rest lv b id lv b).
  1, 3: intros Hu; apply (idle_visit ps rest lv b d id es q o); try done; destruct thin as [z|]; [|done];
        destruct (Hthin z eq_refl) as (_ & o' & Ho' & Hu'); congruence.
  all: destruct (unbalanced (o_node o)) eqn:Hu.
  2, 4: exists lv, b; split; [cbn [node_rebalance]; rewrite Hg; cbn [mbind outcome_bind]; rewrite Hu; done|by apply Hidle].
  all: clear Hidle; pose proof (dr_parent _ _ _ _ _ _ D) as Hp.
  all: destruct ((Z.quot (c_pageSize c) 4 <? size (o_node o)) && (minKeys (o_node o) <? length (inodes (o_node o)))%nat) eqn:Eth.
  1, 3: exists lv, (cleared q o b); split;
    [cbn [node_rebalance]; rewrite Hg; cbn [mbind outcome_bind]; rewrite Hu, Eth; done|];
    apply andb_prop in Eth as [_ Eth]; apply Nat.ltb_lt in Eth; by apply (large_visit ps rest lv b d id es q o thin).
  all: destruct (o_parent o) as [pp|] eqn:Eop.
  2, 4: destruct Hp as [Hp _]; destruct (root_visit ps rest c lv b d id es q o thin) as (lv' & b' & E & B); try done;
    exists lv', b'; split; [|done]; cbn [node_rebalance]; rewrite Hg; cbn [mbind outcome_bind]; rewrite Hu, Eth, Eop; exact E.
  all: destruct Hp as (P & pes & e & Hc & HP & Hkey).
  { exfalso. destruct (proj1 Hc) as (l & Hl & _). apply lookup_lt_Some in Hl. lia. }
  destruct (child_visit ps rest c lv b d id P es pes e q pp o thin) as (lv1 & b1 & E1 & D1); try done.
  rewrite (node_rebalance_eq fuel c q b o pp Ho Eop Hu Eth), E1. cbn [mbind outcome_bind].
  pose proof D1 as [I1 A1 S1 _ L1 _ (HP1 & [pes1 He1] & Hub) _ _ _].
  destruct (IH lv1 b1 (S d) P pes1 pp (Some P)) as (lv2 & b2 & E2 & B2); try done; [|lia|].
  { intros z [= <-]. by split. }
  exists lv2, b2. split; [exact E2|]. eapply dropped_balanced; [| | |exact D1|exact B2]; [done..|].
  intros T HT. by eapply clear_emp.
Qed.

(** Bucket.rebalance over any order of its nodes. *)
Lemma bucket_rebalance_run ps rest c fuel order : forall lv b T,
  inv lv b -> space ps rest lv b -> arity lv None -> emp None lv b T -> (length lv <= S fuel)%nat ->
  exists lv' b', bucket_rebalance fuel c order b = Ret b' /\ inv lv' b' /\ space ps rest lv' b' /\ arity lv' None /\
    cont lv' = cont lv /\ (length lv' <= length lv)%nat /\ kept b b' /\ (sep lv -> sep lv') /\
    accounted (ids lv) b (ids lv') b' /\ emp None lv' b' (fun x => T x /\ x ∉ order).
Proof.
  induction order as [|id order IH]; intros lv b T H Hsp Ha HT Hf; cbn [bucket_rebalance].
  { exists lv, b. split; [done|]. split_and!; try done; try (by apply accounted_refl). eapply emp_weaken; [|exact HT]. intros x Hx. split; [done|].
    apply not_elem_of_nil. }
  destruct (t_nodes b !! id) as [q|] eqn:Hq.
  - destruct (in_dirty _ _ H _ _ Hq) as (d & es & _ & He & _).
    destruct (node_rebalance_ok ps rest c fuel lv b d id es q None) as (lv1 & b1 & E1 & [B1 B2 B3 B4 B5 B6 B7 B8 B9]); try done; [lia|].
    rewrite E1. cbn [mbind outcome_bind].
    destruct (IH lv1 b1 _ B1 B3 B2 (B7 T HT) ltac:(lia)) as (lv2 & b2 & E2 & C1 & C2 & C3 & C4 & C5 & C6 & C8 & C9 & C7).
    exists lv2, b2. split; [done|]. split_and!; try done; [congruence|lia|by eapply kept_trans|intros Hs; by apply C8, B8|by eapply accounted_trans|].
    eapply emp_weaken; [|exact C7]. cbn. intros x [[? ?] ?]. split; [done|]. by rewrite not_elem_of_cons.
  - cbn [mbind outcome_bind]. assert (HT' : emp None lv b (fun x => T x /\ x <> id)).
    { intros x Hx Hl Hn. destruct (HT x Hx Hl Hn) as (HTx & r & ox & Hr & Hox). split; [|by exists r, ox].
      split; [done|]. intros ->. congruence. }
    destruct (IH lv b _ H Hsp Ha HT' Hf) as (lv2 & b2 & E2 & C1 & C2 & C3 & C4 & C5 & C6 & C8 & C9 & C7).
    exists lv2, b2. split; [done|]. split_and!; try done. eapply emp_weaken; [|exact C7]. cbn. intros x [[? ?] ?].
    split; [done|]. by rewrite not_elem_of_cons.
Qed.

(** After Bucket.rebalance has seen every node, no leaf but the root is empty. *)
Lemma bucket_rebalance_ok ps rest c fuel order lv b :
  ready lv b -> space ps rest lv b -> (length lv <= S fuel)%nat -> (forall id, is_Some (t_nodes b !! id) -> id ∈ order) ->
  exists lv' b', bucket_rebalance fuel c order b = Ret b' /\ inv lv' b' /\ space ps rest lv' b' /\ arity lv' None /\
    cont lv' = cont lv /\ kept b b' /\ (length lv' <= length lv)%nat /\ (forall id, entry lv' 0 id [] -> length lv' = 1%nat) /\
    sep lv' /\ accounted (ids lv) b (ids lv') b'.
Proof.
  intros [H Ha Hex Hem _] Hsp Hf Hcov.
  destruct (bucket_rebalance_run ps rest c fuel order lv b (fun x => is_Some (t_nodes b !! x)) H Hsp Ha)
    as (lv' & b' & E & C1 & C2 & C3 & C4 & C5 & C6 & C8 & C9 & C7); [|done|].
  { intros x Hx Hl _. destruct (Hem x Hx Hl) as (q & o & Hq & Ho & Hu). split; [by eexists|by exists q, o]. }
  assert (Hs : sep lv).
  { apply exact_sep; [apply (in_lv _ _ H)|done|]. intros d id es He ->. specialize (Ha d id [] He). cbn in Ha. destruct (decide _); lia. }
  exists lv', b'. split; [done|]. split_and!; try done; [|by apply C8]. intros id Hid.
  destruct (decide (length lv' = 1%nat)) as [|Hl]; [done|]. pose proof (lv_height _ (in_lv _ _ C1)).
  destruct (C7 id Hid ltac:(lia)) as ((HT & Hno) & _); [done|]. by apply Hcov in HT.
Qed.
