(* ===== verification/BoltSpill.v ===== *)
(** bolt's spill at one node: a page for it is allocated, from the freelist or at the end of
    the file ([db_allocate_ok]); the node is split ([node_split_run]); each piece is written
    and entered in its parent ([spill_pieces_ok]). Pages in use stay as they were ([keeps]). *)

From Stdlib Require Import ZArith Lia.
From stdpp Require Import base numbers option list sorting gmap fin_sets.
From S2P Require Import Prelude GoSort GoBytes BoltFreelist BoltNode BoltCursor BoltTx BoltLevels BoltSep BoltBucket BoltRoom BoltRebalance.
#[local] Open Scope Z_scope.

(** ** Allocating pages *)

(** What a step of spill leaves alone: the pages in use and the freed ones. *)
Record keeps (b b' : txb) : Prop := {
  kp_pages : forall x, x ∉ BoltFreelist.ids (t_free b) -> x < t_hwm b -> t_pages b' !! x = t_pages b !! x;
  kp_ids : BoltFreelist.ids (t_free b') ⊆ BoltFreelist.ids (t_free b);
  kp_hwm : t_hwm b <= t_hwm b' /\ t_datasz b <= t_datasz b'
}.

Lemma keeps_refl b : keeps b b.
Proof. by split. Qed.

Lemma keeps_trans b1 b2 b3 : keeps b1 b2 -> keeps b2 b3 -> keeps b1 b3.
Proof.
  intros [A1 A2 A3] [B1 B2 B3]. split; [|by transitivity (BoltFreelist.ids (t_free b2))|lia].
  intros x Hx Hh. rewrite B1; [by apply A1| |lia]. intros Hx2. by apply Hx, A2.
Qed.

(** The room that is left after some of it is taken. *)
Lemma has_room_le c R b x y : has_room c R b x -> y <= x -> has_room c R b y.
Proof. unfold has_room. lia. Qed.

Lemma has_room_keeps c R b b' x y : has_room c R b (x + y) -> keeps b b' ->
  t_hwm b' * c_pageSize c <= t_hwm b * c_pageSize c + x -> has_room c R b' y.
Proof. intros H [_ _ K] Hh. unfold has_room in *. lia. Qed.

(** The fields that spill does not touch besides. *)
Definition framed (b b' : txb) : Prop :=
  t_root b' = t_root b /\ t_page b' = t_page b /\ t_rootNode b' = t_rootNode b /\ t_nodes b' = t_nodes b /\
  t_open b' = t_open b /\ t_writable b' = t_writable b.

(** [p] is the page of a fresh allocation. *)
Record fresh_page (c : config) (count : Z) (b : txb) (p : page) : Prop := {
  fp_flags : pg_flags p = 0;
  fp_overflow : pg_overflow p = count - 1;
  fp_body : Z.of_nat (length (pg_body p)) = count * c_pageSize c - 16;
  fp_new : pg_id p ∈ BoltFreelist.ids (t_free b) \/ t_hwm b <= pg_id p
}.

Section allocate.
Context (c : config) (rest I : list Z) (b : txb) (count : Z).
Context (S : pages_ok (c_pageSize c) rest I b).
Context (Hcount : 1 <= count) (Hsize : count * c_pageSize c < 2 ^ 31).
Context (R : room) (Hroom : has_room c R b (count * c_pageSize c)).

(** A written page takes the place of the fresh one. *)
Definition settled_page (p : page) (b' : txb) : Prop :=
  forall p', pg_id p' = pg_id p -> pg_overflow p' = pg_overflow p ->
    pages_ok (c_pageSize c) rest (pg_id p :: I) (s_pages (<[pg_id p := p']> (t_pages b')) b').

Lemma owned_insert id p' b' : t_pages b' = t_pages b -> id ∉ I -> owned I (s_pages (<[id := p']> (t_pages b')) b') = owned I b.
Proof.
  intros E Hid. unfold owned. f_equal. apply list_fmap_ext. intros i x Hx. unfold span. cbn [s_pages t_pages].
  rewrite E. destruct (x =? 0); [done|]. rewrite lookup_insert_ne; [done|]. intros <-. apply Hid. by eapply list_elem_of_lookup_2.
Qed.

Lemma settle_fresh p b' : t_pages b' = t_pages b -> fl_ok (t_free b') -> pg_id p ∉ I -> 1 < pg_id p -> 0 <= pg_overflow p ->
  NoDup (seqZ (pg_id p) (pg_overflow p + 1) ++ owned I b ++ rest ++ listed b') ->
  (forall x, x ∈ seqZ (pg_id p) (pg_overflow p + 1) ++ owned I b ++ rest ++ listed b' -> 1 < x < t_hwm b') ->
  (1 < t_hwm b' /\ t_hwm b' * c_pageSize c <= maxMapSize /\ t_datasz b' <= maxMapSize) -> settled_page p b'.
Proof.
  destruct S as [S1 S2 S3 S4 S5 S6]. intros E Hfl Hid Hid1 Hov Hn Hr Hh p' Eid Eov. set (b2 := s_pages _ b').
  assert (Eo : owned (pg_id p :: I) b2 = seqZ (pg_id p) (pg_overflow p + 1) ++ owned I b).
  { unfold owned at 1. cbn [fmap list_fmap concat]. f_equal; [|by apply owned_insert].
    unfold span, b2. cbn [s_pages t_pages]. destruct (Z.eqb_spec (pg_id p) 0); [lia|]. by rewrite lookup_insert_eq, Eov. }
  split; try done.
  - intros id Hi H0. unfold b2. cbn [s_pages t_pages]. rewrite E. apply elem_of_cons in Hi as [->|Hi].
    + exists p'. rewrite lookup_insert_eq. split; [done|]. split; [done|lia].
    + rewrite lookup_insert_ne by (intros <-; done). by apply S2.
  - rewrite Eo, <- app_assoc. exact Hn.
  - intros x Hx. rewrite Eo, <- app_assoc in Hx. by apply Hr.
Qed.

Lemma owned_in id : id ∈ I -> id <> 0 -> id ∈ owned I b.
Proof.
  destruct S as [S1 S2 S3 S4 S5 S6]. intros Hid H0. destruct (S2 id Hid H0) as (p & Hp & _ & Hov).
  unfold owned. apply list_elem_of_In, in_concat. exists (span b id). rewrite <- !list_elem_of_In. split.
  - by apply list_elem_of_fmap_2.
  - unfold span. destruct (Z.eqb_spec id 0); [done|]. rewrite Hp. apply elem_of_seqZ. lia.
Qed.

Lemma count_small : u32 (count - 1) = count - 1 /\ count < 2 ^ 31.
Proof.
  pose proof (sp_pageSize _ _ _ _ S). split; [|nia]. unfold u32. apply Z.mod_small. nia.
Qed.

Definition fresh_buf (id : Z) : page :=
  BoltNode.mkPage id 0 0 (u32 (count - 1)) (replicate (Z.to_nat (count * c_pageSize c - pageHeaderSize)) 0).

Lemma fresh_buf_ok id : 16 <= c_pageSize c -> id ∈ BoltFreelist.ids (t_free b) \/ t_hwm b <= id -> fresh_page c count b (fresh_buf id).
Proof.
  intros Hps Hid. split; cbn; try done.
  - apply count_small.
  - rewrite length_replicate. unfold pageHeaderSize. nia.
Qed.

(** From the freelist. *)
Lemma listed_alloc id f : fl_ok f -> pending f = pending (t_free b) -> 1 < id ->
  BoltFreelist.ids (t_free b) ≡ₚ seqZ id count ++ BoltFreelist.ids f ->
  settled_page (fresh_buf id) (s_free f b) /\ keeps b (s_free f b).
Proof.
  intros Hf Ep Hid Ei. destruct count_small as [Eu _]. pose proof S as [S1 S2 S3 S4 S5 S6].
  assert (El : listed b ≡ₚ seqZ id count ++ listed (s_free f b)).
  { unfold listed. cbn [s_free t_free]. rewrite Ei. unfold pend, pending_lists. by rewrite Ep, <- app_assoc. }
  assert (Hin : id ∈ listed b). { rewrite El, elem_of_app. left. apply elem_of_seqZ. lia. }
  assert (Eall : seqZ id (u32 (count - 1) + 1) ++ owned I b ++ rest ++ listed (s_free f b) ≡ₚ owned I b ++ rest ++ listed b).
  { rewrite El, Eu. replace (count - 1 + 1) with count by lia. solve_Permutation. }
  split.
  - apply settle_fresh; try done; cbn [fresh_buf pg_id pg_overflow].
    + intros HI. apply NoDup_app in S3 as (_ & S3 & _). apply (S3 id); [by apply owned_in; [|lia]|].
      apply elem_of_app. by right.
    + rewrite Eu. lia.
    + by rewrite Eall.
    + intros x Hx. apply S4. by rewrite <- Eall.
  - split; [done| |done]. cbn. intros x Hx. rewrite Ei. apply elem_of_app. by right.
Qed.

(** From the end of the file. *)
Lemma hwm_alloc datasz : (t_hwm b + count) * c_pageSize c <= maxMapSize -> t_datasz b <= datasz <= maxMapSize ->
  settled_page (fresh_buf (t_hwm b)) (s_hwm (t_hwm b + count) datasz b) /\ keeps b (s_hwm (t_hwm b + count) datasz b).
Proof.
  intros Hm Hd. destruct count_small as [Eu _]. pose proof S as [S1 S2 S3 S4 S5 S6].
  split; [|split; cbn; [done|done|lia]].
  apply settle_fresh; try done; cbn [fresh_buf pg_id pg_overflow].
  - intros HI. assert (Hx : t_hwm b ∈ owned I b) by (apply owned_in; [done|lia]).
    destruct (S4 (t_hwm b)); [apply elem_of_app; by left|lia].
  - lia.
  - rewrite Eu. lia.
  - change (listed (s_hwm _ _ b)) with (listed b). apply NoDup_app. split; [apply NoDup_seqZ|]. split; [|exact S3].
    intros x Hx Hx2. apply elem_of_seqZ in Hx. destruct (S4 x Hx2). lia.
  - change (listed (s_hwm _ _ b)) with (listed b). intros x Hx. cbn [s_hwm t_hwm].
    apply elem_of_app in Hx as [Hx|Hx]; [apply elem_of_seqZ in Hx; rewrite Eu in Hx; lia|].
    specialize (S4 x Hx). lia.
  - cbn. split; [lia|]. split; [done|lia].
Qed.

Lemma db_allocate_ok : 16 <= c_pageSize c <= 2 ^ 16 -> mmap_fails c R (db_allocate c count b) \/
  exists p b', db_allocate c count b = Ret (p, b') /\ t_pages b' = t_pages b /\ t_heap b' = t_heap b /\ framed b b' /\
    fresh_page c count b p /\ (pg_id p ∉ I) /\ 1 < pg_id p < t_hwm b' /\ settled_page p b' /\ keeps b b' /\
    t_hwm b' = t_hwm b + (if t_hwm b <=? pg_id p then count else 0).
Proof.
  intros Hps. pose proof S as [S1 S2 S3 S4 S5 S6]. destruct count_small as [Eu Hc31].
  unfold db_allocate. fold fresh_buf.
  destruct (allocate_spec (t_free b) count S1 ltac:(lia)) as (id & f & -> & Hf & Ep & Hcase). cbn [lift mbind outcome_bind].
  destruct Hcase as [(-> & -> & _)|(Hid & Ei & _)].
  - cbn [Z.eqb negb]. set (minsz := i64 (i64 (u64 (u64 (t_hwm b + count) + 1)) * c_pageSize c)).
    pose proof (hwm_small _ _ _ _ S) as Hw. assert (Hpb : c_pageSize c < 2 ^ 31) by nia.
    assert (Hhp : t_hwm b * c_pageSize c <= maxMapSize) by apply S5. assert (Hmm : maxMapSize < 2 ^ 48) by reflexivity.
    assert (Eh : u64 (t_hwm b + count) = t_hwm b + count) by (apply Z.mod_small; lia). rewrite Eh.
    assert (Em : minsz = (t_hwm b + count + 1) * c_pageSize c).
    { unfold minsz. rewrite Eh, i64_u64 by lia. apply swrap_id; nia. }
    assert (Hok : forall ds, minsz <= ds -> t_datasz b <= ds <= maxMapSize ->
      exists p b', (Ret (fresh_buf (t_hwm b), s_hwm (t_hwm b + count) ds b) : outcome bolt_error (page * txb)) = Ret (p, b') /\ t_pages b' = t_pages b /\ t_heap b' = t_heap b /\ framed b b' /\ fresh_page c count b p /\ (pg_id p ∉ I) /\ 1 < pg_id p < t_hwm b' /\
        settled_page p b' /\ keeps b b' /\ t_hwm b' = t_hwm b + (if t_hwm b <=? pg_id p then count else 0)).
    { intros ds H1 H2. destruct (hwm_alloc ds) as [A1 A2]; [nia|done|]. eexists _, _. split; [done|]. split_and!; try done.
      - apply fresh_buf_ok; [lia|by right].
      - cbn. intros HI. destruct (S4 (t_hwm b)); [|lia]. apply elem_of_app. left. apply owned_in; [done|lia].
      - cbn. lia.
      - cbn. lia.
      - cbn. by destruct (Z.leb_spec (t_hwm b) (t_hwm b)); [|lia]. }
    destruct (Z.leb_spec (t_datasz b) minsz) as [Hle|Hgt].
    + pose proof (db_mmap_spec c minsz ltac:(lia)) as Es. destruct (db_mmap c minsz) as [sz|].
      * right. cbn [mbind outcome_bind]. apply Hok; lia.
      * left. destruct Hroom as (R1 & R2 & R3). split; [done|]. exists minsz. split; [nia|]. split; [lia|done].
    + right. cbn [mbind outcome_bind]. apply Hok; [lia|]. split; [done|apply S5].
  - destruct (Z.eqb_spec id 0) as [->|_]; [lia|]. cbn [negb]. right.
    destruct (listed_alloc id f Hf Ep Hid Ei) as [A1 A2].
    assert (Hin : id ∈ BoltFreelist.ids (t_free b)). { rewrite Ei, elem_of_app. left. apply elem_of_seqZ. lia. }
    eexists (fresh_buf id), _. split; [done|]. split_and!; try done.
    + apply fresh_buf_ok; [lia|by left].
    + cbn. intros HI. apply NoDup_app in S3 as (_ & S3 & _). apply (S3 id); [apply owned_in; [done|lia]|].
      apply elem_of_app. right. unfold listed. apply elem_of_app. by left.
    + cbn. apply (S4 id). apply elem_of_app. right. apply elem_of_app. right. unfold listed. apply elem_of_app. by left.
    + cbn. destruct (Z.leb_spec (t_hwm b) id); [|lia]. destruct (S4 id); [|lia]. apply elem_of_app. right. apply elem_of_app. right. unfold listed. apply elem_of_app. by left.
Qed.
End allocate.

(** ** Writing a node *)

(** A node small enough for the memory that a page is written through. *)
Definition fits (n : node) : Prop := size n < 2 ^ 31 - 2 ^ 17 /\ Z.of_nat (length (inodes n)) < 0xFFFF.

Record config_ok (c : config) : Prop := {
  co_pageSize : 64 <= c_pageSize c <= 2 ^ 16;
  co_threshold : fill_threshold (c_pageSize c) (c_fill c) <= c_pageSize c
}.

Lemma size_nonneg c : config_ok c -> 0 <= c_pageSize c.
Proof. intros [H _]. lia. Qed.
#[local] Arguments size_nonneg {c} _.

Lemma norm_valid leaf x : item_valid leaf x -> norm leaf x = x.
Proof.
  intros V. destruct x as [fl pg k v], leaf; unfold norm; cbn in *.
  - destruct (iv_leaf _ _ V eq_refl) as [E _]. cbn in E. by rewrite E.
  - destruct (iv_branch _ _ V eq_refl) as (E1 & E2 & _). cbn in E1, E2. by rewrite E1, E2.
Qed.

Lemma norm_items leaf l : Forall (item_valid leaf) l -> norm leaf <$> l = l.
Proof. induction 1 as [|x l V _ IH]; [done|]. cbn. by rewrite norm_valid, IH. Qed.

Lemma data_size_valid leaf l : Forall (item_valid leaf) l -> data_size l <= Z.of_nat (length l) * (MaxKeySize + valueLimit).
Proof.
  induction 1 as [|x l V _ IH]; [done|]. rewrite data_size_cons. cbn [length]. unfold data_len.
  assert (Z.of_nat (length (in_value x)) <= valueLimit).
  { destruct leaf; [apply (iv_leaf _ _ V eq_refl)|]. destruct (iv_branch _ _ V eq_refl) as (_ & -> & _). done. }
  pose proof (iv_keylen _ _ V). lia.
Qed.

(** The pieces of a split fit. *)
Lemma piece_fits ps th leaf ls : 64 <= ps <= 2 ^ 16 -> th <= ps -> pieces ps th leaf ls ->
  forall l n, l ∈ ls -> isLeaf n = leaf -> inodes n = l -> Forall (item_valid leaf) l -> fits n.
Proof.
  intros Hps Hth Hp l n Hl En Ei V. assert (Hs : (length l <= 4)%nat \/ part_size leaf l <= ps).
  { clear - Hp Hl Hth. induction Hp as [l' H'|l' ls H2 H' _ IH]; apply elem_of_cons in Hl as [->|Hl]; [| by apply elem_of_nil in Hl| |by apply IH].
    - destruct H'; [by left|right; lia].
    - destruct H' as [->|?]; [left; lia|right; lia]. }
  unfold fits. rewrite size_data, Ei. destruct Hs as [Hs|Hs].
  - pose proof (data_size_valid _ _ V). assert (MaxKeySize + valueLimit = 32768 + 2 ^ 28) by reflexivity. nia.
  - unfold part_size in Hs. rewrite size_loop_data in Hs. pose proof (data_size_nonneg l). unfold pageHeaderSize in Hs. lia.
Qed.

Section write_page.
Context (c : config) (rest I : list Z) (b : txb) (n : node).
Context (Hc : config_ok c) (S : pages_ok (c_pageSize c) rest I b).
Context (Hv : Forall (item_valid (isLeaf n)) (inodes n)) (Hf : fits n).
Context (Hself : forall x, x ∈ inodes n -> isLeaf n = false -> in_pgid x ∈ I).
Context (R : room) (Hroom : has_room c R b (node_bytes (inodes n) + c_pageSize c)).

Lemma write_reads p p' : pg_flags p = 0 -> writable n p -> write n p = Ret p' ->
  reads p' (isLeaf n) (pg_id p) (inodes n) /\ pg_id p' = pg_id p /\ pg_overflow p' = pg_overflow p.
Proof.
  intros Hfl Hw E. destruct (write_read n p node0 Hw) as (p2 & E2 & Eid & _ & Er). rewrite E in E2. injection E2 as <-.
  rewrite norm_items in Er by done. assert (Hcf : pg_count p' = u16 (Z.of_nat (length (inodes n))) /\ pg_overflow p' = pg_overflow p /\
    pg_flags p' = Z.lor (pg_flags p) (if isLeaf n then leafPageFlag else branchPageFlag)).
  { clear - E. unfold write in E. destruct (_ <=? _); [done|]. destruct (_ =? 0); [injection E as <-; done|].
    apply outcome_bind_inv in E as (? & _ & E). injection E as <-. done. }
  destruct Hcf as (Ec & Eo & Ef). split; [|done]. split.
  - rewrite Er. unfold keys. do 2 f_equal. by destruct (inodes n).
  - rewrite Ec. apply wrap_range. lia.
  - unfold bad_type. rewrite Ef, Hfl. by destruct (isLeaf n).
Qed.

Lemma write_page_ok : let count := Z.quot (size n) (c_pageSize c) + 1 in
  mmap_fails c R (tx_allocate c count b) \/
  exists p b1 p', tx_allocate c count b = Ret (p, b1) /\ write n p = Ret p' /\ pg_id p' = pg_id p /\
    1 < pg_id p < t_hwm b1 /\ (pg_id p ∉ I) /\
    (pg_id p ∈ BoltFreelist.ids (t_free b) \/ t_hwm b <= pg_id p) /\ t_heap b1 = t_heap b /\ framed b b1 /\
    reads p' (isLeaf n) (pg_id p) (inodes n) /\
    t_hwm b1 * c_pageSize c <= t_hwm b * c_pageSize c + fresh_bytes (c_pageSize c) (t_hwm b) [(pg_id p, inodes n)] /\
    let b2 := s_pages (<[pg_id p := p']> (t_pages b)) b1 in
    pages_ok (c_pageSize c) rest (pg_id p :: I) b2 /\ keeps b b2 /\ s_pages (<[pg_id p := p']> (t_pages b1)) b1 = b2.
Proof.
  intros count. destruct Hc as [Hps Hth]. destruct Hf as [Hsz Hcnt].
  assert (Hsz0 : 16 <= size n) by (rewrite size_data; pose proof (data_size_nonneg (inodes n)); lia).
  pose proof (Z.quot_rem' (size n) (c_pageSize c)) as Hq. pose proof (Z.rem_bound_pos (size n) (c_pageSize c) ltac:(lia) ltac:(lia)) as Hr.
  assert (H1 : 1 <= count) by (unfold count; nia). assert (Hcs : count * c_pageSize c < 2 ^ 31) by (unfold count; nia).
  assert (Hcb : count * c_pageSize c <= node_bytes (inodes n) + c_pageSize c) by (rewrite <- size_bytes; unfold count; nia).
  destruct (db_allocate_ok c rest I b count S H1 Hcs R (has_room_le _ _ _ _ _ Hroom Hcb) ltac:(lia)) as [[E Hm]|(p & b1 & E & Ep & Eh & F & P & Hin & Hid & Hset & K & Ehw)].
  { left. split; [|done]. unfold tx_allocate. by rewrite E. }
  right. destruct P as [P1 P2 P3 P4]. set (b1' := s_pages (<[pg_id p := p]> (t_pages b1)) b1).
  assert (Hw : writable n p).
  { split; [| | | |by rewrite P1].
    - rewrite Forall_forall in Hv |- *. intros x Hx. pose proof (Hv x Hx) as V. split; [apply (iv_key _ _ V)|apply (iv_flags _ _ V)| |].
      + destruct (isLeaf n); [rewrite (proj1 (iv_leaf _ _ V eq_refl)); lia|]. destruct (iv_branch _ _ V eq_refl) as (_ & _ & ?). lia.
      + intros El Ex. apply Hin. rewrite <- Ex. by apply Hself.
    - done.
    - rewrite P3. unfold pageHeaderSize, count. lia.
    - rewrite P3. unfold maxAllocSize. lia. }
  destruct (write_read n p node0 Hw) as (p' & Ew & _). destruct (write_reads p p' P1 Hw Ew) as (Hr' & Eid & Eov).
  exists p, b1', p'. assert (Eb : s_pages (<[pg_id p := p']> (t_pages b1')) b1' = s_pages (<[pg_id p := p']> (t_pages b)) b1').
  { unfold b1'. cbn. by rewrite insert_insert_eq, Ep. }
  split; [unfold tx_allocate; by rewrite E|]. split_and!; try done; [apply Hid|apply Hid|cbn; rewrite Ehw; destruct (Z.leb_spec (t_hwm b) (pg_id p)); nia|].
  intros b2. split; [|split; [|exact Eb]].
  - specialize (Hset p' Eid Eov). rewrite Ep in Hset. exact Hset.
  - destruct K as [K1 K2 K3]. split; try done. intros x Hx Hh. cbn. rewrite lookup_insert_ne; [done|].
    intros <-. destruct P4 as [?|?]; [done|lia].
Qed.
End write_page.

(** ** Splitting a node in memory *)

(** The objects of the pieces after the first. *)
Definition piece_objects (h : gmap nat nobj) (pp : nat) (qs : list nat) (ns : list node) : Prop :=
  Forall2 (fun q n => h !! q = Some (mkNobj n (Some pp) [])) qs ns.

Lemma piece_objects_keep h h' pp qs ns : piece_objects h pp qs ns -> (forall x, x ∈ qs -> h' !! x = h !! x) -> piece_objects h' pp qs ns.
Proof.
  unfold piece_objects. rewrite !Forall2_same_length_lookup. intros [Hl H] Hh. split; [done|].
  intros i x y Hx Hy. rewrite Hh; [by eapply H|by eapply list_elem_of_lookup_2].
Qed.

Lemma node_split_none fuel c q b o : t_heap b !! q = Some o -> (splitTwo (c_pageSize c) (c_fill c) (o_node o)).2 = None ->
  node_split fuel c q b = Ret ([q], b).
Proof.
  intros Ho Hs. destruct fuel; cbn [node_split]; rewrite (get_Some _ _ _ Ho); cbn [mbind outcome_bind];
    destruct (splitTwo _ _ _) as [n [m|]]; done.
Qed.

Lemma split_loop_S f ps fp n : split_loop (S f) ps fp n =
  match splitTwo ps fp n with
  | (a, None) => Some [a]
  | (a, Some b) => l ← split_loop f ps fp b; Some (a :: l)
  end.
Proof. reflexivity. Qed.

(** A split below a parent: the pieces but the first are new objects. *)
Lemma node_split_run c fuel : forall q b o pp po a rest, t_heap b !! q = Some o -> o_parent o = Some pp ->
  t_heap b !! pp = Some po -> pp <> q ->
  split_loop (S fuel) (c_pageSize c) (c_fill c) (o_node o) = Some (a :: rest) ->
  exists qs h, node_split fuel c q b = Ret (q :: qs, s_heap h b) /\ NoDup qs /\ (forall x, x ∈ qs -> t_heap b !! x = None) /\
    h !! q = Some (mkNobj a (Some pp) (o_children o)) /\ piece_objects h pp qs rest /\
    h !! pp = Some (o_setChildren (o_children po ++ qs) po) /\
    (forall x, x <> q -> x <> pp -> x ∉ qs -> h !! x = t_heap b !! x).
Proof.
  induction fuel as [|fuel IH]; intros q b o pp po a rest Ho Hpar Hpo Hne Hs.
  all: rewrite split_loop_S in Hs; destruct (splitTwo (c_pageSize c) (c_fill c) (o_node o)) as [n1 [n2|]] eqn:E2.
  1: done.
  1, 3: injection Hs as <- <-; assert (n1 = o_node o) as -> by (unfold splitTwo in E2; destruct (_ || _); [by injection E2|done]);
    exists [], (t_heap b); split; [rewrite (node_split_none _ _ _ _ o Ho) by (by rewrite E2); by destruct b|];
    split; [constructor|]; split; [intros x Hx; by apply elem_of_nil in Hx|];
    rewrite app_nil_r; split_and!; try done; [rewrite Ho; destruct o; cbn in *; by subst|constructor|by destruct po].
  destruct (split_loop (S fuel) (c_pageSize c) (c_fill c) n2) as [[|a2 rest2]|] eqn:E3; [|cbn [mbind option_bind] in Hs; injection Hs as <- <-|done].
  { exfalso. clear - E3. rewrite split_loop_S in E3. destruct (splitTwo _ _ _) as [? [?|]]; [|done]. destruct (split_loop _ _ _ _); done. }
  cbn [node_split]. rewrite (get_Some _ _ _ Ho). cbn [mbind outcome_bind]. rewrite E2, Hpar.
  set (q' := new_ptr b). pose proof (new_ptr_fresh b) as Hfr. fold q' in Hfr.
  assert (Hq'q : q' <> q) by (intros E; rewrite E in Hfr; congruence). assert (Hq'p : q' <> pp) by (intros E; rewrite E in Hfr; congruence).
  rewrite (update_Some pp _ _ po) by (cbn; by rewrite lookup_insert_ne). cbn [mbind outcome_bind].
  rewrite (update_Some q _ _ o) by (cbn; by rewrite !lookup_insert_ne). cbn [mbind outcome_bind].
  match goal with |- context [node_split fuel c q' ?m] => set (b2 := m) end.
  assert (Hb2q' : t_heap b2 !! q' = Some (mkNobj n2 (Some pp) [])) by (unfold b2; cbn; by rewrite !lookup_insert_ne, lookup_insert_eq by done).
  assert (Hb2p : t_heap b2 !! pp = Some (o_setChildren (o_children po ++ [q']) po)) by (unfold b2; cbn; by rewrite lookup_insert_ne, lookup_insert_eq by done).
  destruct (IH q' b2 _ pp _ a2 rest2 Hb2q' eq_refl Hb2p) as (qs & h & E & Hn & Hfresh & H1 & H2 & H3 & H4); [congruence|done|].
  rewrite E. cbn [mbind outcome_bind].
  assert (Hold : forall x, x ∈ qs -> t_heap b !! x = None /\ x <> q' /\ x <> q /\ x <> pp).
  { intros x Hx. pose proof (Hfresh x Hx) as Hx0. assert (x <> q') by (intros ->; congruence).
    assert (x <> pp) by (intros ->; congruence). assert (x <> q) by (intros ->; unfold b2 in Hx0; cbn in Hx0; by rewrite lookup_insert_eq in Hx0).
    split; [|done]. unfold b2 in Hx0; cbn in Hx0. by rewrite !lookup_insert_ne in Hx0 by done. }
  exists (q' :: qs), h. split; [done|]. split_and!.
  - constructor; [|done]. intros Hx. by destruct (Hold q' Hx) as (_ & ? & _).
  - intros x [->|Hx]%elem_of_cons; [done|]. by apply Hold.
  - rewrite H4; [unfold b2; cbn; by rewrite lookup_insert_eq|done|done|]. intros Hx. by destruct (Hold q Hx) as (_ & _ & ? & _).
  - constructor; [exact H1|exact H2].
  - rewrite H3. unfold o_setChildren. cbn. by rewrite <- app_assoc.
  - intros x Hx1 Hx2 Hx3. apply not_elem_of_cons in Hx3 as [Hx3 Hx4]. rewrite H4 by done. unfold b2; cbn. by rewrite !lookup_insert_ne by done.
Qed.

(** ** Writing the pieces of a node *)

Lemma node_put_at pp b po A m B old new id : t_heap b !! pp = Some po -> inodes (o_node po) = A ++ option_list m ++ B ->
  keys_sorted (in_key <$> A ++ option_list m ++ B) -> (forall x, x ∈ A -> key_lt (in_key x) old) ->
  (forall x, x ∈ B -> key_lt old (in_key x)) -> (forall x, m = Some x -> in_key x = old) -> old <> [] -> new <> [] ->
  id < t_hwm b ->
  node_put pp old new [] id 0 b = Ret (set pp (o_setNode (set_inodes (A ++ mkInode 0 id new [] :: B) (o_node po)) po) b).
Proof.
  intros Hp E Hs HA HB Hm Ho Hn Hid. unfold node_put. rewrite (get_Some _ _ _ Hp). cbn [mbind outcome_bind].
  rewrite (put_split _ _ _ _ _ _ _ A m B Hid Ho Hn E); try done. rewrite E. apply lower_bound_unique; [done|rewrite length_fmap, length_app; lia| |].
  - rewrite fmap_app, <- (length_fmap in_key A), take_app_length. intros x (y & -> & Hy)%list_elem_of_fmap. by apply HA.
  - rewrite fmap_app, <- (length_fmap in_key A), drop_app_length. intros x (y & -> & Hy)%list_elem_of_fmap.
    apply elem_of_app in Hy as [Hy|Hy].
    + destruct m as [z|]; [|by apply elem_of_nil in Hy]. apply list_elem_of_singleton in Hy as ->. rewrite (Hm z eq_refl). apply key_lt_irrefl.
    + intros Hl. apply (key_lt_irrefl old). apply (key_lt_trans _ (in_key y)); [by apply HB|done].
Qed.

(** A node written to page [id]. *)
Definition written_node (n : node) (key : option (list Z)) (id : Z) : node :=
  mkNode (isLeaf n) (unbalanced n) true key id (inodes n).

Definition on_page (b : txb) (leaf : bool) (id : Z) (es : list inode) : Prop :=
  exists p, t_pages b !! id = Some p /\ reads p leaf id es.

(** A node that can be written, its children among the pages [I]. *)
Record good (I : list Z) (leaf : bool) (n : node) : Prop := {
  gd_leaf : isLeaf n = leaf;
  gd_valid : Forall (item_valid leaf) (inodes n);
  gd_fits : fits n;
  gd_self : forall x, x ∈ inodes n -> leaf = false -> in_pgid x ∈ I
}.

Section pieces.
Context (c : config) (rest : list Z) (leaf : bool).
Context (Hc : config_ok c) (R : room).

(** The page that a node has, if it has one, is freed. *)
Definition held (I : list Z) (n : node) (b : txb) : Prop :=
  pages_ok (c_pageSize c) rest (if n_pgid n =? 0 then I else n_pgid n :: I) b /\ 0 <= n_pgid n.

Lemma spill_page_ok I b q o : t_heap b !! q = Some o -> good I leaf (o_node o) -> held I (o_node o) b ->
  has_room c R b (node_bytes (inodes (o_node o)) + c_pageSize c) -> mmap_fails c R (spill_page c q b) \/
  exists id b2, let b' := set q (o_setNode (written_node (o_node o) (n_key (o_node o)) id) o) b2 in
    spill_page c q b = Ret b' /\ t_heap b2 = t_heap b /\ framed b b2 /\ pages_ok (c_pageSize c) rest (id :: I) b2 /\
    keeps b b2 /\ (id ∉ I) /\ 1 < id < t_hwm b2 /\
    (id ∈ BoltFreelist.ids (t_free b) \/ t_hwm b <= id) /\ on_page b2 leaf id (inodes (o_node o)) /\
    t_hwm b2 * c_pageSize c <= t_hwm b * c_pageSize c + fresh_bytes (c_pageSize c) (t_hwm b) [(id, inodes (o_node o))].
Proof.
  intros Ho [G1 G2 G3 G4] [Hp Hp0] Hroom. unfold spill_page. rewrite (get_Some _ _ _ Ho). cbn [mbind outcome_bind].
  set (n := o_node o) in *.
  assert (H1 : exists b1, (if 0 <? n_pgid n then
         p ← page_at (n_pgid n) b; f ← lift (free (c_txid c) (pg_id p) (pg_overflow p) (t_free b));
         Ret (set q (o_setNode (n_setPgid 0 n) o) (s_free f b)) else Ret b) = Ret b1 /\
      pages_ok (c_pageSize c) rest I b1 /\ BoltFreelist.ids (t_free b1) = BoltFreelist.ids (t_free b) /\ t_hwm b1 = t_hwm b /\ keeps b b1 /\ framed b b1 /\ t_pages b1 = t_pages b /\
      t_heap b1 = <[q := o_setNode (n_setPgid 0 n) o]> (t_heap b)).
  { destruct (Z.ltb_spec 0 (n_pgid n)) as [Hlt|Hle].
    - destruct (Z.eqb_spec (n_pgid n) 0) as [|_]; [lia|].
      destruct (free_page _ _ _ _ (c_txid c) _ Hp ltac:(lia)) as (p & f & Hpg & Hf & Ei & Hok & _).
      unfold page_at. rewrite Hpg. cbn [mbind outcome_bind]. rewrite Hf. cbn [lift mbind outcome_bind].
      eexists. split; [reflexivity|]. split; [by apply (pages_same _ _ _ (s_free f b))|].
      split; [done|]. split; [done|]. split; [|done].
      split; cbn; [done|by rewrite Ei|done].
    - assert (E0 : n_pgid n = 0) by lia. rewrite E0 in Hp. cbn in Hp. exists b. split; [done|]. split; [done|]. split; [done|]. split; [done|]. split; [apply keeps_refl|].
      split; [done|]. split; [done|]. rewrite insert_id; [done|]. rewrite Ho. f_equal. unfold n in *. destruct o as [[] ? ?]. cbn in E0. by subst. }
  destruct H1 as (b1 & -> & Hok1 & Ei1 & Ew1 & K1 & F1 & Ep1 & Eh1). cbn [mbind outcome_bind].
  assert (Hroom1 : has_room c R b1 (node_bytes (inodes n) + c_pageSize c)) by (apply (has_room_keeps c R b b1 0); [done|done|lia]).
  destruct (write_page_ok c rest I b1 n Hc Hok1) with (R := R) as [[E Hm]|(p & b2 & p' & E & Ew & Eid & Hid & Hin & Hfr & Eh & F2 & Hr & Hhw & Hok2 & K2 & Eb)];
    [by rewrite G1|done|by rewrite G1|done|left; split; [by rewrite E|done]|].
  right. rewrite E. cbn [mbind outcome_bind]. destruct (Z.leb_spec (t_hwm b2) (pg_id p)); [lia|]. rewrite Ew. cbn [lift mbind outcome_bind].
  rewrite Eid, Eb. set (b3 := s_pages _ b2) in *. assert (Hq3 : t_heap b3 !! q = Some (o_setNode (n_setPgid 0 n) o)).
  { unfold b3. cbn. rewrite Eh, Eh1. apply lookup_insert_eq. }
  rewrite (update_Some _ _ _ _ Hq3). exists (pg_id p), (s_heap (t_heap b) b3). split_and!.
  - unfold set, s_heap. cbn. do 2 f_equal. unfold b3. cbn. rewrite Eh, Eh1, insert_insert_eq. f_equal.
  - done.
  - destruct F1 as (?&?&?&?&?&?), F2 as (?&?&?&?&?&?). unfold framed, b3. cbn. split_and!; congruence.
  - by apply (pages_same _ _ _ b3).
  - destruct (keeps_trans _ _ _ K1 K2) as [? ? ?]. by split.
  - done.
  - apply Hid.
  - unfold b3. cbn. apply Hid.
  - by rewrite <- Ei1, <- Ew1.
  - exists p'. split; [unfold b3; cbn; apply lookup_insert_eq|]. by rewrite <- G1.
  - rewrite <- Ew1. exact Hhw.
Qed.

(** The piece is entered in its parent. *)
Lemma spill_enter_ok q pp b o po x0 A m B : t_heap b !! q = Some o -> o_parent o = Some pp -> t_heap b !! pp = Some po -> pp <> q ->
  head (inodes (o_node o)) = Some x0 -> in_key x0 <> [] -> n_pgid (o_node o) < t_hwm b ->
  let old := default (in_key x0) (n_key (o_node o)) in
  inodes (o_node po) = A ++ option_list m ++ B -> keys_sorted (in_key <$> A ++ option_list m ++ B) ->
  (forall x, x ∈ A -> key_lt (in_key x) old) -> (forall x, x ∈ B -> key_lt old (in_key x)) ->
  (forall x, m = Some x -> in_key x = old) -> old <> [] ->
  spill_enter q b = Ret (set q (o_setNode (n_setKey (in_key x0) (o_node o)) o)
    (set pp (o_setNode (set_inodes (A ++ mkInode 0 (n_pgid (o_node o)) (in_key x0) [] :: B) (o_node po)) po) b)).
Proof.
  intros Ho Hpar Hpo Hne Hx Hk Hid old E Hs HA HB Hm Hold. unfold spill_enter. rewrite (get_Some _ _ _ Ho). cbn [mbind outcome_bind].
  rewrite Hpar. assert (Hi : inode_of (o_node o) 0 = Ret x0).
  { unfold inode_of. change 0 with (Z.of_nat 0). rewrite (inode_at_lookup _ 0 x0); [done|]. by destruct (inodes (o_node o)). }
  rewrite Hi. cbn [mbind outcome_bind]. fold old.
  rewrite (node_put_at pp b po A m B old (in_key x0) (n_pgid (o_node o)) Hpo E Hs HA HB Hm Hold Hk Hid). cbn [mbind outcome_bind].
  rewrite (update_Some q _ _ o) by (cbn; by rewrite lookup_insert_ne). cbn [mbind outcome_bind]. by rewrite key_nonempty.
Qed.

(** A page has been written for a node with the inodes [es]. *)
Record wrote (I : list Z) (b : txb) (id : Z) (es : list inode) (b' : txb) : Prop := {
  wt_pages : pages_ok (c_pageSize c) rest (id :: I) b';
  wt_keeps : keeps b b';
  wt_frame : framed b b';
  wt_new : (id ∉ I) /\ 1 < id < t_hwm b';
  wt_fresh : id ∈ BoltFreelist.ids (t_free b) \/ t_hwm b <= id;
  wt_page : on_page b' leaf id es;
  wt_room : t_hwm b' * c_pageSize c <= t_hwm b * c_pageSize c + fresh_bytes (c_pageSize c) (t_hwm b) [(id, es)]
}.

Lemma wrote_heap I b id es b' b2 : wrote I b id es b' -> t_pages b2 = t_pages b' -> t_hwm b2 = t_hwm b' -> t_free b2 = t_free b' ->
  t_datasz b2 = t_datasz b' -> framed b' b2 -> wrote I b id es b2.
Proof.
  intros [W1 [W2 W3 W4] W5 W6 W8 W7 W9] E1 E2 E3 E4 F. split.
  - by apply (pages_same _ _ _ b').
  - split; rewrite ?E1, ?E2, ?E3, ?E4; done.
  - destruct F as (?&?&?&?&?&?), W5 as (?&?&?&?&?&?). unfold framed. split_and!; congruence.
  - by rewrite E2.
  - done.
  - unfold on_page. by rewrite E1.
  - by rewrite E2.
Qed.

Lemma spill_one_ok I q pp b o po x0 A m B : t_heap b !! q = Some o -> o_parent o = Some pp -> t_heap b !! pp = Some po -> pp <> q ->
  good I leaf (o_node o) -> held I (o_node o) b -> head (inodes (o_node o)) = Some x0 ->
  let old := default (in_key x0) (n_key (o_node o)) in
  inodes (o_node po) = A ++ option_list m ++ B -> keys_sorted (in_key <$> A ++ option_list m ++ B) ->
  (forall x, x ∈ A -> key_lt (in_key x) old) -> (forall x, x ∈ B -> key_lt old (in_key x)) ->
  (forall x, m = Some x -> in_key x = old) -> old <> [] -> has_room c R b (node_bytes (inodes (o_node o)) + c_pageSize c) ->
  mmap_fails c R (spill_one c q b) \/
  exists id b', spill_one c q b = Ret b' /\ wrote I b id (inodes (o_node o)) b' /\
    t_heap b' !! q = Some (mkNobj (written_node (o_node o) (Some (in_key x0)) id) (Some pp) (o_children o)) /\
    t_heap b' !! pp = Some (o_setNode (set_inodes (A ++ up_inode (id, inodes (o_node o)) :: B) (o_node po)) po) /\
    (forall x, x <> q -> x <> pp -> t_heap b' !! x = t_heap b !! x).
Proof.
  intros Ho Hpar Hpo Hne G Hh Hx old E Hs HA HB Hm Hold Hroom. assert (Hk : in_key x0 <> []).
  { pose proof (gd_valid _ _ _ G) as V. destruct (inodes (o_node o)) as [|y l]; [done|]. injection Hx as ->. by apply Forall_inv in V as [? _ _ _ _]. }
  destruct (spill_page_ok I b q o Ho G Hh Hroom) as [[Ef Hf]|(id & b2 & Eb & Eh & F & Hok & K & Hin & Hid & Hfr & Hp & Hhw)].
  { left. split; [|done]. unfold spill_one. by rewrite Ef. }
  right. unfold spill_one. rewrite Eb. cbn [mbind outcome_bind]. cbn zeta in Eb.
  rewrite (spill_enter_ok q pp _ (o_setNode (written_node (o_node o) (n_key (o_node o)) id) o) po x0 A m B); try done.
  2: { cbn. apply lookup_insert_eq. } 2: { cbn. rewrite lookup_insert_ne by done. by rewrite Eh. } 2: { cbn. lia. }
  eexists id, _. split; [reflexivity|]. split.
  { by apply (wrote_heap I b id _ b2). }
  cbn. split; [|split].
  - rewrite lookup_insert_eq. f_equal. unfold o_setNode. cbn. by rewrite Hpar.
  - rewrite lookup_insert_ne, lookup_insert_eq by done. unfold up_inode. cbn. by rewrite Hx.
  - intros x Hxq Hxp. rewrite !lookup_insert_ne by done. by rewrite Eh.
Qed.

Definition written (b : txb) (q : nat) : Prop :=
  exists o, t_heap b !! q = Some o /\ spilled (o_node o) = true /\ inodes (o_node o) <> [].

(** Pages have been written for the nodes [news]. *)
Record wrote_all (I : list Z) (b : txb) (news : level) (b' : txb) : Prop := {
  wa_pages : pages_ok (c_pageSize c) rest (news.*1 ++ I) b';
  wa_keeps : keeps b b';
  wa_frame : framed b b';
  wa_nodup : NoDup news.*1;
  wa_new : forall id, id ∈ news.*1 -> (id ∉ I) /\ 1 < id < t_hwm b' /\ (id ∈ BoltFreelist.ids (t_free b) \/ t_hwm b <= id);
  wa_page : forall n, n ∈ news -> on_page b' leaf n.1 n.2;
  wa_room : t_hwm b' * c_pageSize c <= t_hwm b * c_pageSize c + fresh_bytes (c_pageSize c) (t_hwm b) news
}.

Lemma in_use I b id : pages_ok (c_pageSize c) rest I b -> id ∈ I -> id <> 0 ->
  (id ∉ BoltFreelist.ids (t_free b)) /\ 1 < id < t_hwm b.
Proof.
  intros S Hid H0. pose proof (owned_in c rest I b S id Hid H0) as Ho. split.
  - intros Hf. pose proof (sp_nodup _ _ _ _ S) as Hn. apply NoDup_app in Hn as (_ & Hn & _). apply (Hn id Ho).
    apply elem_of_app. right. unfold listed. apply elem_of_app. by left.
  - apply (sp_range _ _ _ _ S). apply elem_of_app. by left.
Qed.

Lemma on_page_keeps lf I b b' id es : pages_ok (c_pageSize c) rest I b -> id ∈ I -> id <> 0 -> keeps b b' ->
  on_page b lf id es -> on_page b' lf id es.
Proof.
  intros S Hid H0 K (p & Hp & Hr). destruct (in_use I b id S Hid H0) as [H1 H2]. exists p. split; [|done].
  rewrite (kp_pages _ _ K); [done|done|lia].
Qed.

Lemma good_more I id n : good I leaf n -> good (id :: I) leaf n.
Proof. intros [G1 G2 G3 G4]. split; try done. intros x Hx Hl. right. by apply G4. Qed.

Lemma wrote_cons I b id es b1 news b2 : wrote I b id es b1 -> wrote_all (id :: I) b1 news b2 ->
  wrote_all I b ((id, es) :: news) b2.
Proof.
  intros [W1 W2 W3 W4 W8 W5 W6] [A1 A2 A3 A4 A5 A6 A7]. split.
  - eapply pages_perm; [|exact A1]. rewrite fmap_cons. cbn. solve_Permutation.
  - by eapply keeps_trans.
  - destruct W3 as (?&?&?&?&?&?), A3 as (?&?&?&?&?&?). unfold framed. split_and!; congruence.
  - cbn. constructor; [|done]. intros Hin. destruct (A5 id Hin) as [Hn _]. apply Hn. by left.
  - pose proof (kp_hwm _ _ A2). pose proof (kp_hwm _ _ W2). intros x [->|Hx]%elem_of_cons; [cbn; split; [apply W4|split; [lia|done]]|].
    destruct (A5 x Hx) as (Hn & ? & Hf). split; [intros HI; apply Hn; by right|]. split; [done|].
    destruct Hf as [Hf|Hf]; [left; by apply (kp_ids _ _ W2)|right; lia].
  - intros n [->|Hn]%elem_of_cons; [|by apply A6]. cbn. apply (on_page_keeps leaf (id :: I) b1); try done; [by left|lia].
  - pose proof (fresh_bytes_mono (c_pageSize c) (size_nonneg Hc) (t_hwm b) (t_hwm b1) news (proj1 (kp_hwm _ _ W2))). cbn [fresh_bytes] in *. lia.
Qed.

(** What is left after a page is written. *)
Lemma wrote_room I b id es b' y : wrote I b id es b' -> has_room c R b (node_bytes es + c_pageSize c + y) -> has_room c R b' y.
Proof.
  intros W H. apply (has_room_keeps c R b b' _ y H (wt_keeps _ _ _ _ _ W)). pose proof (wt_room _ _ _ _ _ W) as Hr.
  pose proof (fresh_bytes_le (c_pageSize c) (size_nonneg Hc) (t_hwm b) [(id, es)]). cbn [fresh_bytes level_bytes snd] in *. lia.
Qed.

(** A piece after the first. *)
Record fresh_piece (I : list Z) (n : node) : Prop := {
  pc_good : good I leaf n;
  pc_new : n_key n = None /\ n_pgid n = 0 /\ inodes n <> []
}.

Definition unplaced (ns : list node) : level := (fun n => (0, inodes n)) <$> ns.

Lemma spill_rest_ok pp ns : forall qs I b po A B, pages_ok (c_pageSize c) rest I b -> t_heap b !! pp = Some po ->
  inodes (o_node po) = A ++ B -> NoDup qs -> pp ∉ qs -> piece_objects (t_heap b) pp qs ns -> Forall (fresh_piece I) ns ->
  keys_sorted (in_key <$> A ++ (up_inode <$> unplaced ns) ++ B) -> has_room c R b (level_bytes (c_pageSize c) (unplaced ns)) ->
  mmap_fails c R (spill_all c qs b) \/
  exists news b', spill_all c qs b = Ret b' /\ wrote_all I b news b' /\ news.*2 = inodes <$> ns /\
    t_heap b' !! pp = Some (o_setNode (set_inodes (A ++ (up_inode <$> news) ++ B) (o_node po)) po) /\
    (forall q, q ∈ qs -> written b' q) /\ (forall x, x ∉ qs -> x <> pp -> t_heap b' !! x = t_heap b !! x).
Proof.
  induction ns as [|n ns IH]; intros qs I b po A B S Hpo E Hn Hpp Hobj Hps Hs Hroom.
  { apply Forall2_nil_inv_r in Hobj as ->. right. exists [], b. split; [done|]. split.
    { split; try done; [constructor|intros x Hx; by apply elem_of_nil in Hx|intros x Hx; by apply elem_of_nil in Hx|cbn; lia]. }
    split; [done|]. split; [|split; [intros q Hq; by apply elem_of_nil in Hq|done]].
    rewrite Hpo. f_equal. cbn. rewrite <- E. by destruct po as [[] ? ?]. }
  apply Forall2_cons_inv_r in Hobj as (q & qs' & Hq & Hobj & ->). apply Forall_cons in Hps as [[G (N1 & N2 & N3)] Hps].
  apply NoDup_cons in Hn as [Hqq Hn]. apply not_elem_of_cons in Hpp as [Hpq Hpp].
  assert (exists x0, head (inodes n) = Some x0) as [x0 Hx0] by (destruct (inodes n); [done|eauto]).
  unfold unplaced in Hs. rewrite !fmap_cons in Hs. cbn [app] in Hs.
  change (unplaced (n :: ns)) with ((0, inodes n) :: unplaced ns) in Hroom. cbn [level_bytes snd] in Hroom.
  assert (Ek : in_key (up_inode (0, inodes n)) = in_key x0) by (unfold up_inode; cbn; by rewrite Hx0).
  rewrite fmap_app, fmap_cons, Ek in Hs. pose proof Hs as Hs2. unfold keys_sorted in Hs2. apply StronglySorted_app in Hs2 as (HA1 & HA2 & HA3).
  pose proof HA3 as HB. apply StronglySorted_inv in HB as [HB1 HB2]. rewrite fmap_app in HB1, HB2. apply StronglySorted_app in HB1 as (_ & _ & HB1).
  rewrite Forall_forall in HB2. assert (Hk0 : in_key x0 <> []).
  { pose proof (gd_valid _ _ _ G) as V. destruct (inodes n) as [|y l]; [done|]. injection Hx0 as ->. by apply Forall_inv in V as [? _ _ _ _]. }
  destruct (spill_one_ok I q pp b (mkNobj n (Some pp) []) po x0 A None B Hq eq_refl Hpo Hpq G) as [[Ef Hf]|(id & b1 & Eb & W & H1 & H2 & H3)]; try done.
  { split; cbn; rewrite N2; [done|lia]. }
  { cbn [option_list app]. rewrite fmap_app. unfold keys_sorted. apply StronglySorted_app. split; [|done].
    intros x y Hx Hy. apply HA1; [done|]. right. rewrite fmap_app. apply elem_of_app. by right. }
  { cbn. rewrite N1. cbn. intros x Hx. apply HA1; [by apply list_elem_of_fmap_2|by left]. }
  { cbn. rewrite N1. cbn. intros x Hx. apply HB2. apply elem_of_app. right. by apply list_elem_of_fmap_2. }
  { cbn. by rewrite N1. }
  { apply (has_room_le _ _ _ _ _ Hroom). pose proof (level_bytes_nonneg (c_pageSize c) (size_nonneg Hc) (unplaced ns)). cbn. lia. }
  { left. split; [|done]. cbn [spill_all]. by rewrite Ef. }
  cbn [spill_all]. rewrite Eb. cbn [mbind outcome_bind]. cbn [o_node] in *.
  destruct (IH qs' (id :: I) b1 _ (A ++ [up_inode (id, inodes n)]) B (wt_pages _ _ _ _ _ W) H2) as [Hf|(news & b' & E' & W' & En & H4 & H5 & H6)]; try done.
  { cbn. by rewrite <- app_assoc. }
  { apply (piece_objects_keep _ _ _ _ _ Hobj). intros x Hx. apply H3; by intros ->. }
  { eapply Forall_impl; [exact Hps|]. intros m [Gm Nm]. split; [by apply good_more|done]. }
  { rewrite <- app_assoc. rewrite fmap_app. cbn [app]. rewrite fmap_cons.
    replace (in_key (up_inode (id, inodes n))) with (in_key x0) by (unfold up_inode; cbn; by rewrite Hx0). exact Hs. }
  { by eapply wrote_room. }
  { by left. }
  right. exists ((id, inodes n) :: news), b'. split; [done|]. split; [by eapply wrote_cons|]. split; [by rewrite !fmap_cons, En|].
  split; [rewrite H4; cbn; by rewrite <- app_assoc|]. split.
  - intros x [->|Hx]%elem_of_cons; [|by apply H5]. eexists. split; [rewrite H6; [exact H1|done|done]|]. cbn. done.
  - intros x Hx Hxp. apply not_elem_of_cons in Hx as [Hx1 Hx2]. rewrite H6 by done. by apply H3.
Qed.

(** All the pieces of a node below a parent. *)
Lemma spill_pieces_ok pp q qs I b ch po a0 ns A m B : t_heap b !! q = Some (mkNobj a0 (Some pp) ch) -> t_heap b !! pp = Some po ->
  inodes (o_node po) = A ++ option_list m ++ B -> good I leaf a0 -> held I a0 b -> inodes a0 <> [] ->
  NoDup (q :: qs) -> pp ∉ q :: qs -> piece_objects (t_heap b) pp qs ns -> Forall (fresh_piece I) ns ->
  let old := default (in_key (up_inode (0, inodes a0))) (n_key a0) in
  keys_sorted (in_key <$> A ++ option_list m ++ B) -> (forall x, x ∈ A -> key_lt (in_key x) old) ->
  (forall x, x ∈ B -> key_lt old (in_key x)) -> (forall x, m = Some x -> in_key x = old) -> old <> [] ->
  keys_sorted (in_key <$> A ++ (up_inode <$> unplaced (a0 :: ns)) ++ B) ->
  has_room c R b (level_bytes (c_pageSize c) (unplaced (a0 :: ns))) ->
  mmap_fails c R (spill_all c (q :: qs) b) \/
  exists news b', spill_all c (q :: qs) b = Ret b' /\ wrote_all I b news b' /\ news.*2 = inodes <$> a0 :: ns /\
    t_heap b' !! pp = Some (o_setNode (set_inodes (A ++ (up_inode <$> news) ++ B) (o_node po)) po) /\
    (forall x, x ∈ q :: qs -> written b' x) /\ (forall x, x ∉ q :: qs -> x <> pp -> t_heap b' !! x = t_heap b !! x) /\
    exists oq, t_heap b' !! q = Some oq /\ o_parent oq = Some pp /\ o_children oq = ch.
Proof.
  intros Hq Hpo E G Hh Hne Hn Hpp Hobj Hps old Hs HA HB Hm Hold Hs2 Hroom. apply NoDup_cons in Hn as [Hqq Hn].
  apply not_elem_of_cons in Hpp as [Hpq Hpp].
  assert (exists x0, head (inodes a0) = Some x0) as [x0 Hx0] by (destruct (inodes a0); [done|eauto]).
  assert (Ek : forall id, in_key (up_inode (id, inodes a0)) = in_key x0) by (intros id; unfold up_inode; cbn; by rewrite Hx0).
  unfold old in *. rewrite Ek in *.
  change (unplaced (a0 :: ns)) with ((0, inodes a0) :: unplaced ns) in Hroom. cbn [level_bytes snd] in Hroom.
  assert (Hroom1 : has_room c R b (node_bytes (inodes a0) + c_pageSize c)).
  { apply (has_room_le _ _ _ _ _ Hroom). pose proof (level_bytes_nonneg (c_pageSize c) (size_nonneg Hc) (unplaced ns)). lia. }
  destruct (spill_one_ok I q pp b _ po x0 A m B Hq eq_refl Hpo Hpq G Hh Hx0 E Hs HA HB Hm Hold Hroom1) as [[Ef Hf]|(id & b1 & Eb & W & H1 & H2 & H3)].
  { left. split; [|done]. cbn [spill_all]. by rewrite Ef. }
  cbn [spill_all]. rewrite Eb. cbn [mbind outcome_bind]. cbn [o_node o_children] in *.
  destruct (spill_rest_ok pp ns qs (id :: I) b1 _ (A ++ [up_inode (id, inodes a0)]) B (wt_pages _ _ _ _ _ W) H2)
    as [Hf|(news & b' & E' & W' & En & H4 & H5 & H6)]; try done.
  { cbn. by rewrite <- app_assoc. }
  { apply (piece_objects_keep _ _ _ _ _ Hobj). intros x Hx. apply H3; by intros ->. }
  { eapply Forall_impl; [exact Hps|]. intros n [Gm Nm]. split; [by apply good_more|done]. }
  { rewrite <- app_assoc. rewrite fmap_app. cbn [app]. rewrite fmap_cons, Ek. unfold unplaced in Hs2.
    rewrite (fmap_cons _ a0), fmap_cons, fmap_app in Hs2. cbn [app] in Hs2. by rewrite fmap_cons, Ek in Hs2. }
  { by eapply wrote_room. }
  { by left. }
  right. exists ((id, inodes a0) :: news), b'. split; [done|]. split; [by eapply wrote_cons|]. split; [by rewrite !fmap_cons, En|].
  split; [rewrite H4; cbn; by rewrite <- app_assoc|]. split; [|split].
  - intros x [->|Hx]%elem_of_cons; [|by apply H5]. eexists. split; [rewrite H6; [exact H1|done|done]|]. cbn. done.
  - intros x Hx Hxp. apply not_elem_of_cons in Hx as [Hx1 Hx2]. rewrite H6 by done. by apply H3.
  - eexists. split; [rewrite H6; [exact H1|done|done]|done].
Qed.

(** A root that is not split. *)
Lemma spill_root_ok I q b o : t_heap b !! q = Some o -> o_parent o = None -> good I leaf (o_node o) -> held I (o_node o) b ->
  has_room c R b (node_bytes (inodes (o_node o)) + c_pageSize c) -> mmap_fails c R (spill_all c [q] b) \/
  exists id b', spill_all c [q] b = Ret b' /\ wrote I b id (inodes (o_node o)) b' /\
    t_heap b' !! q = Some (mkNobj (written_node (o_node o) (n_key (o_node o)) id) None (o_children o)) /\
    (forall x, x <> q -> t_heap b' !! x = t_heap b !! x).
Proof.
  intros Ho Hpar G Hh Hroom. cbn [spill_all]. unfold spill_one.
  destruct (spill_page_ok I b q o Ho G Hh Hroom) as [[Ef Hf]|(id & b2 & Eb & Eh & F & Hok & K & Hin & Hid & Hfr & Hp & Hhw)].
  { left. split; [|done]. by rewrite Ef. }
  right. rewrite Eb. cbn [mbind outcome_bind]. unfold spill_enter.
  erewrite get_Some by (cbn; apply lookup_insert_eq). cbn [mbind outcome_bind o_setNode o_parent]. rewrite Hpar.
  cbn [mbind outcome_bind]. eexists id, _. split; [reflexivity|]. split; [by apply (wrote_heap I b id _ b2)|]. split.
  - cbn. rewrite lookup_insert_eq. f_equal. unfold o_setNode. by rewrite Hpar.
  - intros x Hx. cbn. rewrite lookup_insert_ne by done. by rewrite Eh.
Qed.
End pieces.
