(* ===== verification/BoltSpillTree.v ===== *)
(** A bucket while spill is at work: [sinv lv b U] says that the nodes [U] are still to be
    written and that all others are on pages. Writing a node with no such children
    replaces it by its pieces and keeps the invariant. *)

From Stdlib Require Import ZArith Lia.
From stdpp Require Import base numbers option list sorting gmap fin_sets.
From S2P Require Import Prelude GoSort GoBytes BoltFreelist BoltNode BoltCursor BoltTx BoltLevels BoltSep BoltBucket BoltRoom BoltRebalance BoltSpill.
#[local] Open Scope Z_scope.

(** ** The invariant *)

(** The object of a node to write. *)
Record unsaved (lv : list level) (b : txb) (U : gmap Z nat) (d : nat) (id : Z) (es : list inode) (o : nobj) : Prop := {
  us_leaf : isLeaf (o_node o) = (d =? 0)%nat;
  us_inodes : inodes (o_node o) = es;
  us_pgid : n_pgid (o_node o) = id;
  us_spilled : spilled (o_node o) = false;
  us_parent : match o_parent o with
              | None => S d = length lv /\ n_key (o_node o) <> Some []
              | Some q => exists P ps e, child_of lv d P ps e id /\ U !! P = Some q /\ n_key (o_node o) = Some (in_key e)
              end;
  us_children : forall c, c ∈ o_children o -> written b c \/ (0 < d)%nat /\ exists e, e ∈ es /\ U !! in_pgid e = Some c;
  us_kids : forall e c, (0 < d)%nat -> e ∈ es -> U !! in_pgid e = Some c -> c ∈ o_children o;
  us_count : (length (o_children o) <= length es)%nat
}.

(** A node that is done. *)
Record saved (lv : list level) (b : txb) (d : nat) (id : Z) (es : list inode) : Prop := {
  sv_page : on_page b (d =? 0)%nat id es;
  sv_key : forall P ps e, child_of lv d P ps e id -> in_key <$> head es = Some (in_key e);
  sv_id : id <> 0
}.

Record sinv (lv : list level) (b : txb) (U : gmap Z nat) : Prop := {
  si_lv : lv_ok lv;
  si_sep : sep lv;
  si_full : (1 < length lv)%nat -> full lv;
  si_unsaved : forall id q, U !! id = Some q -> exists d es o, entry lv d id es /\ t_heap b !! q = Some o /\ unsaved lv b U d id es o;
  si_saved : forall d id es, entry lv d id es -> U !! id = None -> saved lv b d id es;
  si_items : forall d id es, entry lv d id es -> Forall (item_valid (d =? 0)%nat) es
}.

Section sinv.
Context (lv : list level) (b : txb) (U : gmap Z nat).
Context (S : sinv lv b U).

Lemma unsaved_at d id es q : U !! id = Some q -> entry lv d id es ->
  exists o, get q b = Ret o /\ t_heap b !! q = Some o /\ unsaved lv b U d id es o.
Proof.
  intros Hq He. destruct (si_unsaved _ _ _ S _ _ Hq) as (d' & es' & o & He' & Ho & D).
  destruct (entry_inj _ _ _ _ _ _ (si_lv _ _ _ S) He He') as [<- <-]. exists o. split; [by apply get_Some|done].
Qed.

Lemma unsaved_inj id1 id2 q : U !! id1 = Some q -> U !! id2 = Some q -> id1 = id2.
Proof.
  intros H1 H2. destruct (si_unsaved _ _ _ S _ _ H1) as (d1 & es1 & o1 & _ & Ho1 & D1).
  destruct (si_unsaved _ _ _ S _ _ H2) as (d2 & es2 & o2 & _ & Ho2 & D2). rewrite Ho1 in Ho2. injection Ho2 as <-.
  rewrite <- (us_pgid _ _ _ _ _ _ _ D1). by apply (us_pgid _ _ _ _ _ _ _ D2).
Qed.

Lemma unsaved_not_written id q : U !! id = Some q -> ~ written b q.
Proof.
  intros H (o & Ho & Hs & _). destruct (si_unsaved _ _ _ S _ _ H) as (d1 & es1 & o1 & _ & Ho1 & D1).
  rewrite Ho in Ho1. injection Ho1 as <-. by rewrite (us_spilled _ _ _ _ _ _ _ D1) in Hs.
Qed.

(** The parent of a node to write is to be written. *)
Lemma unsaved_parent d P ps e id q : child_of lv d P ps e id -> U !! id = Some q -> is_Some (U !! P).
Proof.
  intros Hc Hq. pose proof Hc as (HP & Hin & Hid). pose proof (si_lv _ _ _ S) as Hlv.
  destruct (has_child _ _ _ _ _ Hlv HP Hin) as [es Hes]. rewrite Hid in Hes.
  destruct (unsaved_at _ _ _ _ Hq Hes) as (o & _ & _ & D). pose proof (us_parent _ _ _ _ _ _ _ D) as Hp.
  destruct (o_parent o) as [pq|].
  - destruct Hp as (P' & ps' & e' & Hc' & HP' & _).
    destruct (parent_unique _ _ _ _ _ _ _ _ _ _ Hlv Hc Hc') as (_ & -> & _). eauto.
  - destruct HP as (up & Hup & _). apply lookup_lt_Some in Hup. lia.
Qed.

Lemma lvl_node d J x : (J < length (items (lvl lv (Datatypes.S d))))%nat -> items (lvl lv (Datatypes.S d)) !! J = Some x ->
  exists es, lvl lv d !! J = Some (in_pgid x, es) /\ entry lv d (in_pgid x) es /\ exists P ps, child_of lv d P ps x (in_pgid x).
Proof.
  intros HJ Hx. destruct (lvl_items _ _ _ _ Hx) as (up & Hup & Eup). rewrite Eup in Hx.
  destruct (lookup_lt_is_Some_2 lv d) as [lo Hlo]; [apply lookup_lt_Some in Hup; lia|].
  destruct (lo_above _ (si_lv _ _ _ S) _ _ _ Hlo Hup) as [Hf _].
  assert (Hn : lo.*1 !! J = Some (in_pgid x)) by (rewrite <- Hf, list_lookup_fmap, Hx; done).
  rewrite list_lookup_fmap in Hn. destruct (lo !! J) as [[id es]|] eqn:En; [|done]. injection Hn as ->.
  exists es. unfold lvl. rewrite Hlo. split; [done|]. split; [exists lo; split; [done|by eapply list_elem_of_lookup_2]|].
  assert (Hxi : x ∈ items up) by (by eapply list_elem_of_lookup_2). apply elem_of_items in Hxi as ([P ps] & HP & Hxp).
  exists P, ps. split; [by exists up|done].
Qed.

(** Below a node none of whose subtree is to be written, the items start with its keys. *)
Lemma saved_first d : forall J x, items (lvl lv d) !! J = Some x -> (0 < d -> U !! in_pgid x = None)%nat ->
  exists z, cont lv !! below lv d J = Some z /\ in_key z = in_key x.
Proof.
  induction d as [|d IH]; intros J x Hx HU.
  { exists x. split; [by rewrite cont_lvl|done]. }
  destruct (lvl_node d J x (lookup_lt_Some _ _ _ Hx) Hx) as (es & Hn & He & P & ps & Hc).
  destruct (si_saved _ _ _ S _ _ _ He (HU ltac:(lia))) as [_ Hk _]. specialize (Hk _ _ _ Hc).
  destruct es as [|y es]; [done|]. injection Hk as Hk. rewrite <- Hk. cbn [below]. rewrite pos_S. apply IH.
  - destruct (split_at _ _ _ Hn) as (a & t & -> & <-). rewrite width_app_l by done. rewrite width_all, items_middle.
    rewrite lookup_app_r, Nat.sub_diag by done. done.
  - intros Hd. destruct (U !! in_pgid y) as [q|] eqn:Hq; [|done]. exfalso. destruct d as [|d]; [lia|].
    destruct (unsaved_parent d (in_pgid x) (y :: es) y (in_pgid y) q) as [? ?]; [|done|by rewrite HU in * by lia].
    split; [done|]. split; [by left|done].
Qed.
End sinv.

(** No node has more inodes than the bucket has items. *)
Lemma items_cont lv k : lv_ok lv -> full lv -> (length (items (lvl lv k)) <= length (cont lv))%nat.
Proof.
  intros Hlv Hf. induction k as [|k IH]; [by rewrite cont_lvl|]. destruct (decide (S k < length lv)%nat) as [Hk|Hk].
  - rewrite <- (lvl_length lv k Hlv Hk). transitivity (length (items (lvl lv k))); [|done].
    pose proof (fun n => full_lvl lv k n Hf) as Hn. revert Hn. generalize (lvl lv k). clear. intros l Hn.
    induction l as [|n l IH]; [cbn; lia|]. rewrite items_cons, length_app. cbn [length].
    specialize (IH ltac:(intros m Hm; apply Hn; by right)). specialize (Hn n ltac:(by left)). destruct n.2; [done|cbn; lia].
  - unfold lvl. rewrite (lookup_ge_None_2 lv) by lia. cbn. lia.
Qed.

Lemma entry_cont lv b U d id es : sinv lv b U -> entry lv d id es -> (length es <= length (cont lv))%nat.
Proof.
  intros S (l & Hl & Hin). assert (Hle : (length es <= length (items (lvl lv d)))%nat).
  { unfold lvl. rewrite Hl. cbn [default from_option Datatypes.id]. apply list_elem_of_lookup in Hin as [i Hi]. destruct (split_at _ _ _ Hi) as (a & t & -> & _).
    rewrite items_middle, !length_app. cbn. lia. }
  destruct (decide (1 < length lv)%nat) as [Hlen|Hlen].
  - pose proof (items_cont lv d (si_lv _ _ _ S) (si_full _ _ _ S Hlen)). lia.
  - apply lookup_lt_Some in Hl. replace d with 0%nat in Hle by lia. by rewrite cont_lvl.
Qed.

(** ** Room for what is left to write *)

(** The pages written since the file ended at [r_hwm R] are those of nodes behind it; none of
    those is to be written again. *)
Record roomy (c : config) (R : room) (lv : list level) (b : txb) (U : gmap Z nat) : Prop := {
  ro_low : 0 < r_hwm R <= t_hwm b;
  ro_datasz : r_datasz R <= t_datasz b;
  ro_ids : forall id q, U !! id = Some q -> id < r_hwm R;
  ro_hwm : t_hwm b * c_pageSize c <= r_hwm R * c_pageSize c + fresh_bytes (c_pageSize c) (r_hwm R) (concat lv);
  ro_arity : arity lv None;
  ro_limit : (r_hwm R + 1) * c_pageSize c + commit_bytes (c_pageSize c) (cont lv) <= r_limit R
}.

(** The part of it that a node takes whose pages are to come. *)
Lemma fresh_unsaved ps h lv d id es Y : 0 <= ps -> entry lv d id es -> id < h -> concat lv ≡ₚ (id, es) :: Y ->
  fresh_bytes ps h (concat lv) = fresh_bytes ps h Y.
Proof.
  intros Hps He Hid E. rewrite (fresh_bytes_perm _ _ _ _ E). cbn [fresh_bytes fst]. by destruct (Z.leb_spec h id); [lia|].
Qed.

Lemma roomy_pieces c R lv b U d id es q ls : config_ok c -> sinv lv b U -> roomy c R lv b U -> entry lv d id es -> U !! id = Some q ->
  items ls = es -> (forall n, n ∈ ls -> n.2 <> []) \/ (length ls <= 1)%nat -> has_room c R b (level_bytes (c_pageSize c) ls).
Proof.
  intros [Hps _] S [R1 R2 R3 R4 R5 R6] He Hq <- Hls. assert (Hps0 : 0 <= c_pageSize c) by lia.
  assert (exists Y, concat lv ≡ₚ (id, items ls) :: Y) as [Y HY].
  { apply elem_of_Permutation. destruct He as (l & Hl & Hin). apply list_elem_of_In, in_concat. exists l.
    rewrite <- !list_elem_of_In. split; [by eapply list_elem_of_lookup_2|done]. }
  rewrite (fresh_unsaved _ _ _ _ _ _ Y Hps0 He (R3 _ _ Hq) HY) in R4. pose proof (fresh_bytes_le _ Hps0 (r_hwm R) Y) as HfY.
  pose proof (tree_bytes_bound _ Hps0 lv (si_lv _ _ _ S) (si_full _ _ _ S) R5 (si_items _ _ _ S)) as Ht.
  rewrite (level_bytes_perm _ _ _ HY) in Ht. cbn [level_bytes snd] in Ht. pose proof (level_bytes_pieces _ Hps0 ls Hls) as Hp.
  pose proof (commit_bytes_tree _ (cont lv) _ Hps0 (entry_cont lv b U d id _ S He)) as Hc.
  split; [lia|]. split; [done|]. lia.
Qed.

(** Keys of the nodes of two levels next to each other. *)
Lemma up_inode_valid n b I rest c lf : pages_ok (c_pageSize c) rest I b -> 1 < n.1 < t_hwm b -> n.2 <> [] -> Forall (item_valid lf) n.2 ->
  item_valid false (up_inode n).
Proof.
  intros S Hid Hne V. pose proof (hwm_small _ _ _ _ S). destruct n.2 as [|x xs] eqn:E; [done|]. apply Forall_inv in V as [V1 V2 V3 V4 V5].
  split; unfold up_inode; cbn; rewrite ?E; cbn; try done. intros _. split; [done|]. split; [done|lia].
Qed.

(** ** A node is replaced by its pieces *)

Section swap_step.
Context (c : config) (rest : list Z) (lv : list level) (b b' : txb) (U : gmap Z nat).
Context (d : nat) (l1 l2 u1 u2 : level) (id P : Z) (es a t : list inode) (e : inode) (news : level).
Context (S : sinv lv b U) (Hsp : space (c_pageSize c) rest lv b).
Context (Hl : lv !! d = Some (l1 ++ (id, es) :: l2)).
Context (Hu : lv !! Datatypes.S d = Some (u1 ++ (P, a ++ e :: t) :: u2)).
Context (Hlen : (length l1 = length (items u1) + length a)%nat).
Context (Hnokids : forall x, (0 < d)%nat -> x ∈ es -> U !! in_pgid x = None).
Context (q pp : nat) (qs : list nat) (po : nobj).
Context (Hq : U !! id = Some q) (HP : U !! P = Some pp) (Hpo : t_heap b !! pp = Some po).
Context (X : list Z) (HX : ids lv ≡ₚ id :: X).
Context (W : wrote_all c rest (d =? 0)%nat X b news b').
Context (Hcat : items news = es) (Hnews : news <> []) (Hne : forall n, n ∈ news -> n.2 <> []).
Context (Hcount : (length qs < length news)%nat).
Context (Hpp' : t_heap b' !! pp = Some (mkNobj (set_inodes (a ++ (up_inode <$> news) ++ t) (o_node po)) (o_parent po) (o_children po ++ qs))).
Context (Hwr : forall x, x ∈ q :: qs -> written b' x).
Context (Hfresh : forall x, x ∈ qs -> t_heap b !! x = None).
Context (Hother : forall x, x ∉ q :: qs -> x <> pp -> t_heap b' !! x = t_heap b !! x).

Let lv' := swap_node lv d l1 l2 u1 u2 P a t news.
Let U' := delete id U.

Lemma step_length : (1 < length lv)%nat.
Proof. clear - Hu. apply lookup_lt_Some in Hu. lia. Qed.

Lemma step_full : full lv.
Proof. apply (si_full _ _ _ S), step_length. Qed.

Lemma step_self : entry lv d id es /\ entry lv (Datatypes.S d) P (a ++ e :: t) /\ in_pgid e = id.
Proof. exact (swap_self lv d l1 l2 u1 u2 id P es a t e (si_lv _ _ _ S) Hl Hu Hlen). Qed.

Lemma step_first i x : es !! i = Some x -> exists z, cont lv !! below lv d (length (items l1) + i) = Some z /\ in_key z = in_key x.
Proof.
  clear - S Hl Hnokids. intros Hx. apply (saved_first lv b U S).
  - unfold lvl. rewrite Hl. cbn [default from_option Datatypes.id]. rewrite items_middle, lookup_app_r by lia. cbn [snd].
    replace (length (items l1) + i - length (items l1))%nat with i by lia. by apply lookup_app_l_Some.
  - intros Hd. apply Hnokids; [done|]. by eapply list_elem_of_lookup_2.
Qed.

Lemma step_fresh x : x ∈ news.*1 -> x ∉ ids lv.
Proof.
  intros Hx. destruct (wa_new _ _ _ _ _ _ _ W x Hx) as (H1 & H2 & H3). rewrite HX. intros [->|?]%elem_of_cons; [|done].
  assert (Hi : id ∈ ids lv) by (rewrite HX; by left). destruct (in_use c rest _ b id Hsp Hi ltac:(lia)) as [? ?].
  destruct H3 as [?|?]; [done|lia].
Qed.

Lemma step_ids : NoDup news.*1 /\ forall x, x ∈ news.*1 -> x ∉ (concat lv).*1.
Proof. split; [apply (wa_nodup _ _ _ _ _ _ _ W)|exact step_fresh]. Qed.

Lemma step_levels_ok : lv_ok lv'.
Proof. exact (swap_ok lv d l1 l2 u1 u2 id P es a t e news (si_lv _ _ _ S) (si_sep _ _ _ S) step_full Hl Hu Hlen Hcat Hnews Hne step_first step_ids). Qed.

Lemma step_sep : sep lv'.
Proof. exact (swap_sep lv d l1 l2 u1 u2 id P es a t e news (si_lv _ _ _ S) (si_sep _ _ _ S) Hl Hu Hlen Hcat Hne step_first). Qed.

Lemma step_entry_to k x xs : entry lv k x xs -> x <> id -> entry lv' k x (swapes P a t news x xs).
Proof. exact (swap_entry_to lv d l1 l2 u1 u2 id P es a t e news (si_lv _ _ _ S) Hl Hu Hlen k x xs). Qed.

Lemma step_entry_from k x xs' : entry lv' k x xs' -> (k = d /\ (x, xs') ∈ news) \/
  (x <> id /\ exists xs, entry lv k x xs /\ xs' = swapes P a t news x xs).
Proof.
  exact (swap_entry_from lv d l1 l2 u1 u2 id P es a t e news (si_lv _ _ _ S) (si_sep _ _ _ S) step_full Hl Hu Hlen Hcat Hnews Hne step_first step_ids k x xs').
Qed.

Lemma step_child_to k Q ys i x : child_of lv k Q ys i x -> x <> id -> Q <> id -> child_of lv' k Q (swapes P a t news Q ys) i x.
Proof. exact (swap_child_to lv d l1 l2 u1 u2 id P es a t e news (si_lv _ _ _ S) Hl Hu Hlen k Q ys i x). Qed.

Lemma step_child_from k Q ys i x : child_of lv' k Q ys i x ->
  (exists n, n ∈ news /\ x = n.1 /\ i = up_inode n) \/ (exists Q' ys', child_of lv k Q' ys' i x).
Proof.
  exact (swap_child_from lv d l1 l2 u1 u2 id P es a t e news (si_lv _ _ _ S) (si_sep _ _ _ S) step_full Hl Hu Hlen Hcat Hnews Hne step_first step_ids k Q ys i x).
Qed.

Lemma step_written x : written b x -> written b' x.
Proof.
  intros Hx. destruct (decide (x ∈ q :: qs)) as [Hin|Hnin]; [by apply Hwr|]. pose proof Hx as (o & Ho & Hr). exists o.
  rewrite Hother; [done|done|]. intros ->. by eapply unsaved_not_written.
Qed.

Lemma step_heap x k xs r o : entry lv k x xs -> U !! x = Some r -> x <> id -> x <> P -> t_heap b !! r = Some o -> t_heap b' !! r = Some o.
Proof.
  intros He Hr Hx HxP Ho. rewrite Hother; [done| |].
  - intros [->|Hin]%elem_of_cons; [by apply Hx; eapply unsaved_inj|]. by rewrite Hfresh in Ho.
  - intros ->. by apply HxP; eapply unsaved_inj.
Qed.

(** The kids of a node other than [P] are not the one replaced. *)
Lemma step_kid k x xs i ch : entry lv k x xs -> (0 < k)%nat -> x <> P -> i ∈ xs -> U !! in_pgid i = Some ch -> U' !! in_pgid i = Some ch.
Proof.
  intros He Hk HxP Hi Hch. unfold U'. rewrite lookup_delete_ne; [done|]. intros E. destruct k as [|k]; [lia|].
  destruct step_self as (_ & HPe & Ee). destruct (parent_unique lv k d x xs i P (a ++ e :: t) e id (si_lv _ _ _ S)) as (_ & ? & _); [| |done].
  - split; [done|]. split; [done|by symmetry].
  - split; [done|]. split; [apply elem_of_app; right; by left|done].
Qed.

Lemma step_parent k x xs o r : entry lv k x xs -> U !! x = Some r -> x <> id -> unsaved lv b U k x xs o ->
  match o_parent o with
  | None => Datatypes.S k = length lv' /\ n_key (o_node o) <> Some []
  | Some r => exists Q ys i, child_of lv' k Q ys i x /\ U' !! Q = Some r /\ n_key (o_node o) = Some (in_key i)
  end.
Proof.
  intros He Hr Hx D. pose proof (us_parent _ _ _ _ _ _ _ D) as Hp. destruct (o_parent o) as [r2|].
  2: { unfold lv'. rewrite swap_length. done. }
  destruct Hp as (Q & ys & i & Hc & HQ & Hk). assert (HQi : Q <> id).
  { intros ->. destruct step_self as (Hid & _ & _). destruct (entry_inj _ _ _ _ _ _ (si_lv _ _ _ S) (proj1 Hc) Hid) as [E1 E2].
    destruct Hc as (_ & Hi & Ei). rewrite E2 in Hi. assert (Hn : U !! in_pgid i = None) by (apply Hnokids; [lia|done]). congruence. }
  eexists Q, _, i. split; [by apply step_child_to|]. split; [|done]. unfold U'. by rewrite lookup_delete_ne.
Qed.

Lemma step_unsaved x r : U' !! x = Some r -> exists k xs o, entry lv' k x xs /\ t_heap b' !! r = Some o /\ unsaved lv' b' U' k x xs o.
Proof.
  intros Hr. apply lookup_delete_Some in Hr as [Hx Hr]. destruct (si_unsaved _ _ _ S _ _ Hr) as (k & xs & o & He & Ho & D).
  pose proof (step_parent k x xs o r He Hr ltac:(done) D) as Hpar. destruct D as [D1 D2 D3 D4 _ D6 D7 D8].
  pose proof (step_entry_to k x xs He ltac:(done)) as He'. unfold swapes in He'. destruct (decide (x = P)) as [->|HxP].
  - rewrite HP in Hr. injection Hr as <-. rewrite Hpo in Ho. injection Ho as <-. destruct step_self as (_ & HPe & Ee).
    destruct (entry_inj _ _ _ _ _ _ (si_lv _ _ _ S) He HPe) as [-> ->].
    exists (Datatypes.S d). eexists _, _. split; [exact He'|]. split; [exact Hpp'|].
    assert (Hold : forall i ch, i ∈ a ++ e :: t -> U !! in_pgid i = Some ch -> ch = q \/ ((i ∈ a ++ (up_inode <$> news) ++ t) /\ U' !! in_pgid i = Some ch)).
    { intros i ch Hi Hch. destruct (decide (in_pgid i = id)) as [E|E]; [left; congruence|right]. split.
      - rewrite elem_of_app, elem_of_cons in Hi. rewrite !elem_of_app. destruct Hi as [?|[->|?]]; [by left|done|by do 2 right].
      - unfold U'. by rewrite lookup_delete_ne. }
    split; cbn [o_node o_parent o_children]; try done.
    + intros ch [Hch|Hch]%elem_of_app; [|left; apply Hwr; by right]. destruct (D6 ch Hch) as [Hw|(Hd & i & Hi & Hc)]; [left; by apply step_written|].
      destruct (Hold i ch Hi Hc) as [->|[Hi2 Hc2]]; [left; apply Hwr; by left|right]. split; [done|by exists i].
    + intros i ch Hd Hi Hch. apply elem_of_app. left. unfold U' in Hch. apply lookup_delete_Some in Hch as [Hne2 Hch].
      rewrite !elem_of_app in Hi. destruct Hi as [Hi|[Hi|Hi]].
      * apply (D7 i ch); [done|apply elem_of_app; by left|done].
      * exfalso. apply list_elem_of_fmap in Hi as (n & -> & Hn). apply (step_fresh n.1); [by apply list_elem_of_fmap_2|].
        destruct (si_unsaved _ _ _ S _ _ Hch) as (k & xs & _ & Hx2 & _). apply elem_of_level_ids. by exists k, xs.
      * apply (D7 i ch); [done|apply elem_of_app; right; by right|done].
    + rewrite !length_app, length_fmap. rewrite length_app in D8. cbn [length] in D8. lia.
  - exists k, xs, o. split; [exact He'|]. split; [by eapply step_heap|]. split; try done.
    + intros ch Hch. destruct (D6 ch Hch) as [Hw|(Hd & i & Hi & Hc)]; [left; by apply step_written|right]. split; [done|].
      exists i. split; [done|]. by eapply step_kid.
    + intros i ch Hd Hi Hch. unfold U' in Hch. apply lookup_delete_Some in Hch as [_ Hch]. by apply (D7 i ch).
Qed.

Lemma step_saved k x xs : entry lv' k x xs -> U' !! x = None -> saved lv' b' k x xs.
Proof.
  intros He Hx. pose proof He as He0. apply step_entry_from in He as [[-> Hn]|(Hxi & xs0 & He & ->)].
  - assert (Hx1 : x ∈ news.*1) by exact (list_elem_of_fmap_2 fst _ _ Hn). destruct (wa_new _ _ _ _ _ _ _ W x Hx1) as (_ & ? & _).
    split; [exact (wa_page _ _ _ _ _ _ _ W _ Hn)| |lia].
    intros Q ys i Hc. pose proof (swap_child_new lv d l1 l2 u1 u2 id P es a t e news Hl Hu Hlen _ Hn) as Hc2.
    destruct (parent_unique _ _ _ _ _ _ _ _ _ _ step_levels_ok Hc Hc2) as (_ & _ & _ & ->). unfold up_inode. cbn.
    pose proof (Hne _ Hn). cbn in *. by destruct xs.
  - unfold U' in Hx. rewrite lookup_delete_ne in Hx by done. assert (HxP : x <> P) by (intros ->; congruence).
    unfold swapes. rewrite decide_False by done. destruct (si_saved _ _ _ S _ _ _ He Hx) as [V1 V2 V3].
    assert (Hin : x ∈ ids lv) by (apply elem_of_level_ids; eauto). split; [| |done].
    + eapply on_page_keeps; [exact Hsp|done|done|apply (wa_keeps _ _ _ _ _ _ _ W)|done].
    + intros Q ys i Hc. apply step_child_from in Hc as [(n & Hn & -> & ->)|(Q' & ys' & Hc)]; [|by eapply V2].
      exfalso. apply (step_fresh n.1); [by apply list_elem_of_fmap_2|done].
Qed.

Lemma step_full' : full lv'.
Proof.
  intros k x xs He. apply step_entry_from in He as [[-> Hn]|(Hxi & xs0 & He & ->)]; [by apply Hne in Hn|].
  unfold swapes. destruct (decide (x = P)); [|by eapply step_full].
  intros E. apply app_nil in E as [_ E]. apply app_nil in E as [E _]. by destruct news.
Qed.

Lemma step_items k x xs : entry lv' k x xs -> Forall (item_valid (k =? 0)%nat) xs.
Proof.
  intros He. destruct step_self as (Hid & HPe & _). pose proof (si_items _ _ _ S _ _ _ Hid) as V.
  assert (Hsub : forall n, n ∈ news -> Forall (item_valid (d =? 0)%nat) n.2).
  { intros n Hn. rewrite Forall_forall in V |- *. intros y Hy. apply V. rewrite <- Hcat. apply elem_of_items. by exists n. }
  apply step_entry_from in He as [[-> Hn]|(Hxi & xs0 & He & ->)]; [by apply (Hsub (x, xs))|].
  pose proof (si_items _ _ _ S _ _ _ He) as Vx. unfold swapes. destruct (decide (x = P)) as [->|]; [|done].
  destruct (entry_inj _ _ _ _ _ _ (si_lv _ _ _ S) He HPe) as [-> ->]. cbn [Nat.eqb] in *.
  rewrite Forall_app, Forall_cons in Vx. destruct Vx as (Va & _ & Vt). rewrite !Forall_app. split; [done|]. split; [|done].
  apply Forall_fmap, Forall_forall. intros n Hn. cbn. eapply up_inode_valid; [apply (wa_pages _ _ _ _ _ _ _ W)| |by apply Hne|by apply Hsub].
  apply (wa_new _ _ _ _ _ _ _ W). by apply list_elem_of_fmap_2.
Qed.

Lemma step_sinv : sinv lv' b' U'.
Proof.
  split; [exact step_levels_ok|exact step_sep|intros _; exact step_full'|exact step_unsaved|exact step_saved|exact step_items].
Qed.

Lemma step_space : space (c_pageSize c) rest lv' b'.
Proof.
  destruct (swap_ids lv d l1 l2 u1 u2 id P es a t e news Hl Hu Hlen) as (Y & E1 & E2).
  assert (EXY : X ≡ₚ Y). { apply (Permutation_cons_inv (a := id)). by rewrite <- HX, <- E1. }
  eapply pages_perm; [|apply (wa_pages _ _ _ _ _ _ _ W)]. unfold ids, lv'. by rewrite E2, EXY.
Qed.
End swap_step.

(** ** Splitting and writing a node *)

(** What spill does with a node whose children are written. *)
Definition node_write (c : config) (q : nat) (b : txb) : outcome bolt_error txb :=
  o ← get q b;
  '(l, b) ← node_split (length (inodes (o_node o))) c q b;
  spill_all c l b.

Lemma pages_zero ps rest I b : pages_ok ps rest (0 :: I) b -> pages_ok ps rest I b.
Proof.
  intros [S1 S2 S3 S4 S5 S6]. split; try done. intros x Hx. apply S2. by right.
Qed.

(** The written levels come from the split nodes. *)
Lemma piece_of_node (news : level) (ns : list node) n : news.*2 = inodes <$> ns -> n ∈ news -> exists m, m ∈ ns /\ n.2 = inodes m.
Proof.
  intros En Hn. assert (Hn' : n.2 ∈ news.*2) by (by apply list_elem_of_fmap_2). rewrite En in Hn'.
  apply list_elem_of_fmap in Hn' as (m & ? & ?). eauto.
Qed.

(** The pieces that a node is split into can be written. *)
Lemma split_good c I leaf n : config_ok c -> isLeaf n = leaf -> Forall (item_valid leaf) (inodes n) ->
  (forall x, x ∈ inodes n -> leaf = false -> in_pgid x ∈ I) -> inodes n <> [] ->
  exists a rest, split_loop (S (length (inodes n))) (c_pageSize c) (c_fill c) n = Some (a :: rest) /\
    a = set_inodes (inodes a) n /\ good I leaf a /\ Forall (fresh_piece leaf I) rest /\
    concat (inodes <$> a :: rest) = inodes n /\ (forall m, m ∈ a :: rest -> inodes m <> []) /\
    ((2 <= length (inodes n))%nat -> forall m, m ∈ a :: rest -> (2 <= length (inodes m))%nat).
Proof.
  intros [Hps Hth] Hleaf V Hself Hne.
  destruct (split_loop_spec (c_pageSize c) (c_fill c) (S (length (inodes n))) n ltac:(lia)) as (a & rest & E & Ea & Er & Ec & Hp & H2).
  exists a, rest. rewrite Hleaf in Hp. rewrite Forall_forall in V.
  assert (Hsub : forall m x, m ∈ a :: rest -> x ∈ inodes m -> x ∈ inodes n).
  { intros m x Hm Hx. rewrite <- Ec. apply list_elem_of_In, in_concat. exists (inodes m). rewrite <- !list_elem_of_In. split; [|done].
    by apply list_elem_of_fmap_2. }
  assert (Hn0 : forall m, m ∈ a :: rest -> inodes m <> []).
  { intros m Hm E0. destruct (decide (2 <= length (inodes n))%nat) as [H|H].
    - specialize (H2 H). rewrite Forall_forall in H2. specialize (H2 m Hm). rewrite E0 in H2. cbn in H2. lia.
    - clear - Hp Ec Hne H Hm E0. inversion Hp as [l Hl El|l ls Hl _ Hrest El]; subst.
      + destruct rest; [|done]. apply list_elem_of_singleton in Hm as ->. cbn in Ec. rewrite app_nil_r in Ec. congruence.
      + rewrite <- Ec in H. cbn in H. rewrite length_app in H. lia. }
  assert (Hgood : forall m, m ∈ a :: rest -> isLeaf m = leaf -> good I leaf m).
  { intros m Hm Hl. assert (Vm : Forall (item_valid leaf) (inodes m)) by (rewrite Forall_forall; intros x Hx; apply V; by eapply Hsub).
    split; try done.
    - apply (piece_fits _ _ _ _ Hps Hth Hp (inodes m)); try done. by apply list_elem_of_fmap_2.
    - intros x Hx. apply Hself. by eapply Hsub. }
  rewrite Forall_forall in Er. split; [done|]. split; [done|]. split; [|split; [|split; [done|split; [done|]]]].
  - apply Hgood; [by left|]. by rewrite Ea.
  - rewrite Forall_forall. intros m Hm. specialize (Er m Hm). split; [apply Hgood; [by right|by rewrite Er]|].
    split_and!; [by rewrite Er|by rewrite Er|apply Hn0; by right].
  - intros H m Hm. specialize (H2 H). rewrite Forall_forall in H2. by apply H2.
Qed.

Lemma items_unplaced ns : items (unplaced ns) = concat (inodes <$> ns).
Proof. unfold items, unplaced. by rewrite <- list_fmap_compose. Qed.

(** The page of a node, if it has one, with the pages of the others. *)
Lemma held_ids c rest lv b X id a : space (c_pageSize c) rest lv b -> ids lv ≡ₚ id :: X -> n_pgid a = id -> held c rest X a b.
Proof.
  intros Hsp HX Ea. assert (Hp : pages_ok (c_pageSize c) rest (id :: X) b) by (by eapply pages_perm). unfold held. rewrite Ea.
  destruct (Z.eqb_spec id 0) as [->|H0]; [split; [by apply pages_zero|lia]|]. split; [done|].
  destruct (in_use c rest _ b id Hp) as [_ ?]; [by left|done|lia].
Qed.

(** The children of a node are other nodes. *)
Lemma kids_apart lv d id es x X : lv_ok lv -> entry lv d id es -> ids lv ≡ₚ id :: X -> (0 < d)%nat -> x ∈ es -> in_pgid x ∈ X.
Proof.
  intros Hlv He HX Hd Hx. destruct d as [|d]; [lia|]. destruct (has_child _ _ _ _ _ Hlv He Hx) as [xs Hxs].
  assert (Hin : in_pgid x ∈ ids lv) by (apply elem_of_level_ids; eauto). rewrite HX in Hin.
  apply elem_of_cons in Hin as [E|]; [|done]. rewrite E in Hxs. destruct (entry_inj _ _ _ _ _ _ Hlv He Hxs). lia.
Qed.

Section child_write.
Context (c : config) (rest : list Z) (lv : list level) (b : txb) (U : gmap Z nat) (Hc : config_ok c).
Context (d : nat) (l1 l2 u1 u2 : level) (id P : Z) (es a t : list inode) (e : inode).
Context (S : sinv lv b U) (Hsp : space (c_pageSize c) rest lv b).
Context (Hl : lv !! d = Some (l1 ++ (id, es) :: l2)).
Context (Hu : lv !! Datatypes.S d = Some (u1 ++ (P, a ++ e :: t) :: u2)).
Context (Hlen : (length l1 = length (items u1) + length a)%nat).
Context (Hnokids : forall x, (0 < d)%nat -> x ∈ es -> U !! in_pgid x = None).
Context (q pp : nat) (Hq : U !! id = Some q) (HP : U !! P = Some pp).
Context (X : list Z) (HX : ids lv ≡ₚ id :: X).

(** What writing the node leaves. *)
Record child_written (news : level) (qs : list nat) (po : nobj) (b' : txb) : Prop := {
  cw_wrote : wrote_all c rest (d =? 0)%nat X b news b';
  cw_items : items news = es;
  cw_news : news <> [];
  cw_full : forall n, n ∈ news -> n.2 <> [];
  cw_two : (2 <= length es)%nat -> forall n, n ∈ news -> (2 <= length n.2)%nat;
  cw_count : (length qs < length news)%nat;
  cw_parent : t_heap b' !! pp = Some (mkNobj (set_inodes (a ++ (up_inode <$> news) ++ t) (o_node po)) (o_parent po) (o_children po ++ qs));
  cw_written : forall x, x ∈ q :: qs -> written b' x;
  cw_fresh : forall x, x ∈ qs -> t_heap b !! x = None;
  cw_other : forall x, x ∉ q :: qs -> x <> pp -> t_heap b' !! x = t_heap b !! x;
  cw_linked : exists oq, t_heap b' !! q = Some oq /\ o_parent oq = Some pp
}.

(** The objects of the node and its parent. *)
Lemma child_objects : exists o po, t_heap b !! q = Some o /\ unsaved lv b U d id es o /\ o_parent o = Some pp /\
  n_key (o_node o) = Some (in_key e) /\ t_heap b !! pp = Some po /\ unsaved lv b U (Datatypes.S d) P (a ++ e :: t) po /\ pp <> q.
Proof.
  destruct (step_self lv b U d l1 l2 u1 u2 id P es a t e S Hl Hu Hlen) as (Hid & HPe & Ee). pose proof (si_lv _ _ _ S) as Hlv.
  assert (Hch : child_of lv d P (a ++ e :: t) e id).
  { split; [done|]. split; [apply elem_of_app; right; by left|done]. }
  destruct (unsaved_at lv b U S d id es q Hq Hid) as (o & _ & Ho & D). destruct (unsaved_at lv b U S _ P _ pp HP HPe) as (po & _ & Hpo & DP).
  pose proof (us_parent _ _ _ _ _ _ _ D) as Hp. destruct (o_parent o) as [r|] eqn:Er.
  - destruct Hp as (Q & ys & i & Hc2 & HQ & Hk). destruct (parent_unique _ _ _ _ _ _ _ _ _ _ Hlv Hch Hc2) as (_ & <- & _ & <-).
    rewrite HP in HQ. injection HQ as <-. exists o, po. split_and!; try done. intros E. rewrite E in HP.
    pose proof (unsaved_inj lv b U S _ _ _ Hq HP) as EP. rewrite EP in Hid. destruct (entry_inj _ _ _ _ _ _ Hlv Hid HPe). lia.
  - destruct Hp as [Hp _]. apply lookup_lt_Some in Hu. lia.
Qed.

Lemma parent_keys : keys_sorted (in_key <$> a ++ option_list (Some e) ++ t) /\ (forall x, x ∈ a -> key_lt (in_key x) (in_key e)) /\
  (forall x, x ∈ t -> key_lt (in_key e) (in_key x)) /\ in_key e <> [].
Proof.
  destruct (step_self lv b U d l1 l2 u1 u2 id P es a t e S Hl Hu Hlen) as (_ & HPe & _).
  pose proof (entry_sorted _ _ _ _ (si_lv _ _ _ S) HPe) as Hs. cbn [option_list app]. split; [done|].
  rewrite fmap_app, fmap_cons in Hs. destruct (sorted_middle _ _ _ Hs) as [H1 H2]. split; [|split].
  - intros x Hx. by apply H1, list_elem_of_fmap_2.
  - intros x Hx. by apply H2, list_elem_of_fmap_2.
  - pose proof (si_items _ _ _ S _ _ _ HPe) as V. rewrite Forall_app, Forall_cons in V. apply (iv_key _ _ (proj1 (proj2 V))).
Qed.

Lemma child_write_ok R : roomy c R lv b U -> mmap_fails c R (node_write c q b) \/
  exists news qs po b', node_write c q b = Ret b' /\ t_heap b !! pp = Some po /\ child_written news qs po b'.
Proof.
  intros Hro. destruct (step_self lv b U d l1 l2 u1 u2 id P es a t e S Hl Hu Hlen) as (Hid & HPe & Ee). pose proof (si_lv _ _ _ S) as Hlv.
  destruct child_objects as (o & po & Ho & D & Hpar & Hkey & Hpo & DP & Hne). destruct parent_keys as (Hs & Ha & Ht & Hk0).
  destruct (split_good c X (d =? 0)%nat (o_node o) Hc (us_leaf _ _ _ _ _ _ _ D)) as (a0 & ns & Esp & Ea0 & Ga & Gns & Ecat & Hn0 & Hn2).
  { rewrite (us_inodes _ _ _ _ _ _ _ D). exact (si_items _ _ _ S _ _ _ Hid). }
  { intros x Hx Hd. rewrite (us_inodes _ _ _ _ _ _ _ D) in Hx. apply (kids_apart lv d id es); try done. destruct d; [done|lia]. }
  { rewrite (us_inodes _ _ _ _ _ _ _ D). apply (si_full _ _ _ S ltac:(apply lookup_lt_Some in Hu; lia) _ _ _ Hid). }
  rewrite (us_inodes _ _ _ _ _ _ _ D) in Ecat, Hn2.
  destruct (node_split_run c (length (inodes (o_node o))) q b o pp po a0 ns Ho Hpar Hpo Hne Esp) as (qs & h & E1 & Hnd & Hfr & H1 & H2 & H3 & H4).
  unfold node_write. rewrite (get_Some _ _ _ Ho). cbn [mbind outcome_bind]. rewrite E1. cbn [mbind outcome_bind].
  assert (Ek : n_key a0 = Some (in_key e)) by (rewrite Ea0; exact Hkey).
  destruct (spill_pieces_ok c rest (d =? 0)%nat Hc R pp q qs X (s_heap h b) (o_children o) (o_setChildren (o_children po ++ qs) po) a0 ns a (Some e) t)
    as [Hf|(news & b' & E & W & En & B1 & B2 & B3 & B4)]; try done.
  - cbn. by rewrite (us_inodes _ _ _ _ _ _ _ DP).
  - destruct (held_ids c rest lv b X id a0 Hsp HX) as [Hh1 Hh2]; [rewrite Ea0; apply (us_pgid _ _ _ _ _ _ _ D)|].
    split; [|done]. by apply (pages_same _ _ _ b).
  - apply Hn0. by left.
  - constructor; [|done]. intros Hin. by rewrite (Hfr _ Hin) in Ho.
  - intros [->|Hin]%elem_of_cons; [done|]. by rewrite (Hfr _ Hin) in Hpo.
  - by rewrite Ek.
  - by rewrite Ek.
  - rewrite Ek. intros x [= <-]. done.
  - by rewrite Ek.
  - assert (Hne2 : forall n, n ∈ unplaced (a0 :: ns) -> n.2 <> []) by (intros n (m & -> & Hm)%list_elem_of_fmap; by apply Hn0).
    refine (swap_parent_sorted lv d l1 l2 u1 u2 id P es a t e (unplaced (a0 :: ns)) Hlv (si_sep _ _ _ S)
      (step_full lv b U d u1 u2 P a t e S Hu) Hl Hu Hlen _ Hne2
      (step_first lv b U d l1 l2 id es S Hl Hnokids)). by rewrite items_unplaced.
  - apply (roomy_pieces c R lv b U d id es q (unplaced (a0 :: ns)) Hc S Hro Hid Hq); [by rewrite items_unplaced|left].
    intros n (m & -> & Hm)%list_elem_of_fmap. by apply Hn0.
  - by left.
  - right. exists news, qs, po, b'. split; [done|]. split; [done|].
    pose proof (fun n => piece_of_node news (a0 :: ns) n En) as Hmem.
    assert (Hlq : length qs = length ns) by (by eapply Forall2_length).
    assert (Hln : length news = Datatypes.S (length ns)) by (by rewrite <- (length_fmap snd news), En, length_fmap).
    split; try done.
    + destruct W as [W1 [W2 W3 W4] W5 W6 W7 W8 W9]. by split.
    + unfold items. by rewrite En.
    + by destruct news.
    + intros n Hn. destruct (Hmem n Hn) as (m & Hm & ->). by apply Hn0.
    + intros H n Hn. destruct (Hmem n Hn) as (m & Hm & ->). by apply Hn2.
    + lia.
    + intros x Hx Hxp. rewrite B3 by done. cbn. apply not_elem_of_cons in Hx as [? ?]. by apply H4.
    + destruct B4 as (oq & ? & ? & _). by exists oq.
Qed.
End child_write.
