(* ===== verification/BoltSpillRun.v ===== *)
(** spill from the leaves of a bucket to its root: every node in memory is written, its
    children first. [advanced D] is what happens while a node of level [D] waits for its
    children; [spilled_root] is the result for the root, whose pieces get a new root. *)

From Stdlib Require Import ZArith Lia.
From stdpp Require Import base numbers option list sorting gmap fin_sets.
From S2P Require Import Prelude GoSort GoBytes BoltFreelist BoltNode BoltCursor BoltTx BoltLevels BoltSep BoltBucket BoltRoom BoltRebalance BoltSpill BoltSpillTree.
#[local] Open Scope Z_scope.

(** ** Progress *)

(** Nodes of level [D] and above are as they were but for new inodes and, at the end of
    their lists of children, new nodes that are written. *)
Record advanced (c : config) (rest : list Z) (D : nat) (lv : list level) (b : txb) (U : gmap Z nat)
    (lv' : list level) (b' : txb) (U' : gmap Z nat) : Prop := {
  ad_sinv : sinv lv' b' U';
  ad_space : space (c_pageSize c) rest lv' b';
  ad_keeps : keeps b b';
  ad_framed : framed b b';
  ad_cont : cont lv' = cont lv;
  ad_length : length lv' = length lv;
  ad_arity : arity lv None -> arity lv' None;
  ad_old : forall x r, U' !! x = Some r -> U !! x = Some r /\ forall k xs, entry lv k x xs -> exists xs', entry lv' k x xs';
  ad_up : forall k x xs r, (D <= k)%nat -> entry lv k x xs -> U !! x = Some r -> U' !! x = Some r;
  ad_above : forall k x xs, (D < k)%nat -> entry lv k x xs -> entry lv' k x xs;
  ad_written : forall x, written b x -> written b' x;
  ad_heap : forall k x xs r o, (D <= k)%nat -> entry lv k x xs -> U !! x = Some r -> t_heap b !! r = Some o ->
    exists o' new, t_heap b' !! r = Some o' /\ o_children o' = o_children o ++ new /\ forall y, y ∈ new -> written b' y;
  ad_roomy : forall R, roomy c R lv b U -> roomy c R lv' b' U'
}.

Lemma framed_refl b : framed b b.
Proof. by repeat split. Qed.

Lemma framed_trans b1 b2 b3 : framed b1 b2 -> framed b2 b3 -> framed b1 b3.
Proof. unfold framed. intros (?&?&?&?&?&?) (?&?&?&?&?&?). split_and!; congruence. Qed.

Lemma advanced_refl c rest D lv b U : sinv lv b U -> space (c_pageSize c) rest lv b -> advanced c rest D lv b U lv b U.
Proof.
  intros S Hsp. split; try done.
  - intros x r Hr. split; [done|]. eauto.
  - intros k x xs r o _ _ _ Ho. exists o, []. rewrite app_nil_r. split; [done|]. split; [done|]. intros y Hy. by apply elem_of_nil in Hy.
Qed.

Lemma advanced_trans c rest D lv1 b1 U1 lv2 b2 U2 lv3 b3 U3 :
  advanced c rest D lv1 b1 U1 lv2 b2 U2 -> advanced c rest D lv2 b2 U2 lv3 b3 U3 -> advanced c rest D lv1 b1 U1 lv3 b3 U3.
Proof.
  intros [A1 A2 A3 A4 A5 A6 A7 A8 A9 A12 A10 A11 A13] [B1 B2 B3 B4 B5 B6 B7 B8 B9 B12 B10 B11 B13].
  assert (Hold : forall x r, U3 !! x = Some r -> U1 !! x = Some r /\ forall k xs, entry lv1 k x xs -> exists xs', entry lv3 k x xs').
  { intros x r Hr. destruct (B8 x r Hr) as [Hr2 He2]. destruct (A8 x r Hr2) as [Hr1 He1]. split; [done|].
    intros k xs He. destruct (He1 k xs He) as [xs2 He3]. by apply (He2 k xs2). }
  split; try done; try congruence.
  - by apply (keeps_trans _ b2).
  - by apply (framed_trans _ b2).
  - intros Ha. by apply B7, A7.
  - intros k x xs r Hk He Hr. pose proof (A9 k x xs r Hk He Hr) as Hr2. destruct (proj2 (A8 x r Hr2) k xs He) as [xs2 He2].
    by apply (B9 k x xs2).
  - intros k x xs Hk He. by apply B12, A12.
  - intros x Hx. by apply B10, A10.
  - intros k x xs r o Hk He Hr Ho. pose proof (A9 k x xs r Hk He Hr) as Hr2. destruct (proj2 (A8 x r Hr2) k xs He) as [xs2 He2].
    destruct (A11 k x xs r o Hk He Hr Ho) as (o2 & n2 & Ho2 & E2 & W2).
    destruct (B11 k x xs2 r o2 Hk He2 Hr2 Ho2) as (o3 & n3 & Ho3 & E3 & W3). exists o3, (n2 ++ n3). split; [done|].
    split; [by rewrite E3, E2, app_assoc|]. intros y [Hy|Hy]%elem_of_app; [by apply B10, W2|by apply W3].
  - intros R HR. by apply B13, A13.
Qed.

Lemma advanced_weaken c rest D D' lv b U lv' b' U' : (D <= D')%nat -> advanced c rest D lv b U lv' b' U' ->
  advanced c rest D' lv b U lv' b' U'.
Proof.
  intros H [A1 A2 A3 A4 A5 A6 A7 A8 A9 A12 A10 A11 A13]. split; try done.
  - intros k x xs r Hk. apply A9. lia.
  - intros k x xs Hk. apply A12. lia.
  - intros k x xs r o Hk. apply A11. lia.
Qed.

(** ** Lists of children *)

Section set_children.
Context (c : config) (rest : list Z) (lv : list level) (b : txb) (U : gmap Z nat) (d : nat) (id : Z) (es : list inode) (q : nat) (o : nobj) (l : list nat).
Context (S : sinv lv b U) (Hsp : space (c_pageSize c) rest lv b).
Context (Hq : U !! id = Some q) (He : entry lv d id es) (Ho : t_heap b !! q = Some o).
Context (Hl : forall x, x ∈ l -> x ∈ o_children o).
Context (Hk : forall x r, (0 < d)%nat -> x ∈ es -> U !! in_pgid x = Some r -> r ∈ l).
Context (Hn : (length l <= length es)%nat).
Let b' := set q (o_setChildren l o) b.

Lemma children_written x : written b x -> written b' x.
Proof.
  intros Hx. assert (Hne : x <> q) by (intros ->; by eapply unsaved_not_written). destruct Hx as (ox & Hox & Hr).
  exists ox. split; [|done]. unfold b'. cbn. by rewrite lookup_insert_ne.
Qed.

Lemma children_sinv : sinv lv b' U.
Proof.
  pose proof S as [I1 I2 I3 I4 I5 I6]. split; try done; [|intros k x xs Hx HU; destruct (I5 k x xs Hx HU); by split].
  intros x r Hr. destruct (I4 x r Hr) as (k & xs & ox & Hx & Hox & D).
  assert (Hch : forall ch, ch ∈ o_children ox -> written b' ch \/ (0 < k)%nat /\ exists e, e ∈ xs /\ U !! in_pgid e = Some ch).
  { intros ch Hch. destruct (us_children _ _ _ _ _ _ _ D ch Hch) as [?|?]; [left; by apply children_written|by right]. }
  destruct (decide (r = q)) as [->|Hne].
  - pose proof (unsaved_inj lv b U S _ _ _ Hr Hq) as E. rewrite E in Hx, D. destruct (entry_inj _ _ _ _ _ _ I1 Hx He) as [-> ->].
    rewrite Ho in Hox. injection Hox as <-. exists d, es. eexists. split; [by rewrite E|]. split; [unfold b'; cbn; apply lookup_insert_eq|].
    rewrite E. destruct D as [D1 D2 D3 D4 D5 D6 D7 D8]. split; try done.
    intros ch Hin. apply Hch, Hl. exact Hin.
  - exists k, xs, ox. split; [done|]. split; [unfold b'; cbn; by rewrite lookup_insert_ne|].
    destruct D as [D1 D2 D3 D4 D5 D6 D7 D8]. by split.
Qed.

Lemma children_advanced : advanced c rest (Datatypes.S d) lv b U lv b' U.
Proof.
  pose proof (advanced_refl c rest (Datatypes.S d) lv b U S Hsp) as [A1 A2 A3 A4 A5 A6 A7 A8 A9 A12 A10 A11 A13]. split; try done.
  - exact children_sinv.
  - by apply (space_same _ _ _ b).
  - exact children_written.
  - intros k x xs r ox Hkd Hx Hr Hox. exists ox, []. rewrite app_nil_r. split; [|split; [done|intros y Hy; by apply elem_of_nil in Hy]].
    unfold b'. cbn. rewrite lookup_insert_ne; [done|]. intros E. rewrite <- E in Hr.
    pose proof (unsaved_inj lv b U S _ _ _ Hr Hq) as Ei. rewrite Ei in Hx. destruct (entry_inj _ _ _ _ _ _ (si_lv _ _ _ S) Hx He). lia.
  - intros R [R1 R2 R3 R4 R5 R6]. by split.
Qed.
End set_children.

Lemma sort_children_ok lv b U d id es q o : sinv lv b U -> U !! id = Some q -> entry lv d id es -> t_heap b !! q = Some o ->
  exists l, sort_children q b = Ret (set q (o_setChildren l o) b) /\ l ≡ₚ o_children o.
Proof.
  intros S Hq He Ho. unfold sort_children. rewrite (get_Some _ _ _ Ho). cbn [mbind outcome_bind].
  destruct (unsaved_at lv b U S d id es q Hq He) as (o' & _ & Ho' & D). rewrite Ho in Ho'. injection Ho' as <-.
  assert (Hx : existsb (fun x => bool_decide (first_key b x = None)) (o_children o) = false).
  { destruct (existsb _ _) eqn:Ex; [|done]. exfalso. apply existsb_exists in Ex as (ch & Hch & Hk). apply list_elem_of_In in Hch.
    apply bool_decide_eq_true in Hk. unfold first_key in Hk. destruct (us_children _ _ _ _ _ _ _ D ch Hch) as [(oc & Hoc & _ & Hne)|(Hd & e & Hin & Hc)].
    - rewrite Hoc in Hk. cbn in Hk. by destruct (inodes (o_node oc)).
    - destruct (si_unsaved _ _ _ S _ _ Hc) as (k & xs & oc & Hxs & Hoc & Dc). rewrite Hoc in Hk. cbn in Hk.
      rewrite (us_inodes _ _ _ _ _ _ _ Dc) in Hk. destruct d as [|d]; [lia|]. assert (Hlen : (1 < length lv)%nat).
      { destruct He as (l & Hl & _). apply lookup_lt_Some in Hl. lia. }
      pose proof (si_full _ _ _ S Hlen _ _ _ Hxs). by destruct xs. }
  rewrite Hx, andb_false_r. eexists. split; [reflexivity|]. apply merge_sort_Permutation.
Qed.

(** ** The loop over the children *)

Section spill_kids.
Context (c : config) (R : room) (rest : list Z) (w : nat) (D : nat) (id : Z) (q : nat) (rec : nat -> txb -> outcome bolt_error txb).
(** What the recursive calls do. *)
Context (Hrec : forall lv b U es e ch, sinv lv b U -> space (c_pageSize c) rest lv b -> U !! id = Some q -> entry lv D id es ->
  (0 < D)%nat -> e ∈ es -> U !! in_pgid e = Some ch -> (length (cont lv) <= w)%nat -> roomy c R lv b U ->
  mmap_fails c R (rec ch b) \/ exists lv' b' U', rec ch b = Ret b' /\ advanced c rest D lv b U lv' b' U' /\ written b' ch).
Context (Hskip : forall b ch, written b ch -> rec ch b = Ret b).

Lemma spill_children_ok n : forall i lv b U es o, sinv lv b U -> space (c_pageSize c) rest lv b -> U !! id = Some q -> entry lv D id es ->
  t_heap b !! q = Some o -> (forall j ch, (j < i)%nat -> o_children o !! j = Some ch -> written b ch) ->
  (length (cont lv) <= w)%nat -> (length (cont lv) <= n + i)%nat -> roomy c R lv b U ->
  mmap_fails c R (spill_children rec q n i b) \/
  exists lv' b' U' o', spill_children rec q n i b = Ret b' /\ advanced c rest D lv b U lv' b' U' /\ t_heap b' !! q = Some o' /\
    forall ch, ch ∈ o_children o' -> written b' ch.
Proof.
  induction n as [|n IH]; intros i lv b U es o S Hsp Hq He Ho Hdone Hw Hn Hro.
  all: cbn [spill_children]; rewrite (get_Some _ _ _ Ho); cbn [mbind outcome_bind].
  all: destruct (unsaved_at lv b U S D id es q Hq He) as (o' & _ & Ho' & Du); rewrite Ho in Ho'; injection Ho' as <-.
  all: pose proof (entry_cont lv b U D id es S He); pose proof (us_count _ _ _ _ _ _ _ Du).
  all: destruct (o_children o !! i) as [ch|] eqn:Ech; [|right; exists lv, b, U, o; split; [done|]; split; [by apply advanced_refl|]; split; [done|];
    apply lookup_ge_None in Ech; intros ch (j & Hj)%list_elem_of_lookup; apply (Hdone j); [apply lookup_lt_Some in Hj; lia|done]].
  { apply lookup_lt_Some in Ech. lia. }
  assert (Hstep : mmap_fails c R (rec ch b) \/ exists lv' b' U', rec ch b = Ret b' /\ advanced c rest D lv b U lv' b' U' /\ written b' ch).
  { destruct (us_children _ _ _ _ _ _ _ Du ch) as [Hwr|(HD & e & Hin & Hc)]; [by eapply list_elem_of_lookup_2| |by eapply Hrec].
    right. exists lv, b, U. rewrite Hskip by done. split; [done|]. split; [by apply advanced_refl|done]. }
  destruct Hstep as [[E Hf]|(lv1 & b1 & U1 & E & A & Hch)]; [left; split; [by rewrite E|done]|]. rewrite E. cbn [mbind outcome_bind].
  pose proof (ad_up _ _ _ _ _ _ _ _ _ A D id es q ltac:(done) He Hq) as Hq1.
  destruct (proj2 (ad_old _ _ _ _ _ _ _ _ _ A id q Hq1) D es He) as [es1 He1].
  destruct (ad_heap _ _ _ _ _ _ _ _ _ A D id es q o ltac:(done) He Hq Ho) as (o1 & new & Ho1 & Ec & Hnew).
  pose proof (ad_cont _ _ _ _ _ _ _ _ _ A) as Econt.
  destruct (IH (Datatypes.S i) lv1 b1 U1 es1 o1 (ad_sinv _ _ _ _ _ _ _ _ _ A) (ad_space _ _ _ _ _ _ _ _ _ A) Hq1 He1 Ho1)
    as [Hf|(lv2 & b2 & U2 & o2 & E2 & A2 & Ho2 & Hall)].
  - intros j y Hj Hy. rewrite Ec in Hy. destruct (decide (j < length (o_children o))%nat) as [Hlt|Hge].
    + rewrite lookup_app_l in Hy by done. destruct (decide (j = i)) as [->|].
      * rewrite Ech in Hy. by injection Hy as <-.
      * apply (ad_written _ _ _ _ _ _ _ _ _ A), (Hdone j); [lia|done].
    + rewrite lookup_app_r in Hy by lia. apply Hnew. by eapply list_elem_of_lookup_2.
  - by rewrite Econt.
  - rewrite Econt. lia.
  - by apply (ad_roomy _ _ _ _ _ _ _ _ _ A).
  - by left.
  - right. exists lv2, b2, U2, o2. split; [done|]. split; [by eapply advanced_trans|done].
Qed.

(** The part of spill before the node itself. *)
Definition spill_kids (b : txb) : outcome bolt_error txb :=
  b ← sort_children q b;
  b ← spill_children rec q w 0 b;
  update q (o_setChildren []) b.

Lemma spill_kids_ok lv b U es : sinv lv b U -> space (c_pageSize c) rest lv b -> U !! id = Some q -> entry lv D id es ->
  (length (cont lv) <= w)%nat -> roomy c R lv b U ->
  mmap_fails c R (spill_kids b) \/
  exists lv' b' U' es', spill_kids b = Ret b' /\ advanced c rest (S D) lv b U lv' b' U' /\ U' !! id = Some q /\ entry lv' D id es' /\
    (forall e, (0 < D)%nat -> e ∈ es' -> U' !! in_pgid e = None) /\
    (forall k x xs, (D < k)%nat -> entry lv k x xs -> entry lv' k x xs).
Proof.
  intros S Hsp Hq He Hw Hro. destruct (unsaved_at lv b U S D id es q Hq He) as (o & _ & Ho & Du).
  destruct (sort_children_ok lv b U D id es q o S Hq He Ho) as (l & E & Hl). unfold spill_kids. rewrite E. cbn [mbind outcome_bind].
  assert (A1 : advanced c rest (Datatypes.S D) lv b U lv (set q (o_setChildren l o) b) U).
  { apply (children_advanced c rest lv b U D id es q o l S Hsp Hq He Ho).
    - intros x Hx. by rewrite <- Hl.
    - intros x r HD Hx Hr. rewrite Hl. by eapply us_kids.
    - rewrite Hl. by eapply us_count. }
  set (b1 := set q (o_setChildren l o) b) in *.
  destruct (spill_children_ok w 0 lv b1 U es (o_setChildren l o) (ad_sinv _ _ _ _ _ _ _ _ _ A1) (ad_space _ _ _ _ _ _ _ _ _ A1) Hq He)
    as [[Ef Hf]|(lv2 & b2 & U2 & o2 & E2 & A2 & Ho2 & Hall)]; [unfold b1; cbn; apply lookup_insert_eq|lia|done|lia|by apply (ad_roomy _ _ _ _ _ _ _ _ _ A1)| |].
  { left. split; [by rewrite Ef|done]. }
  right. rewrite E2. cbn [mbind outcome_bind]. rewrite (update_Some _ _ _ _ Ho2).
  pose proof (ad_up _ _ _ _ _ _ _ _ _ A2 D id es q ltac:(done) He Hq) as Hq2.
  destruct (proj2 (ad_old _ _ _ _ _ _ _ _ _ A2 id q Hq2) D es He) as [es2 He2].
  assert (Hno : forall e r, (0 < D)%nat -> e ∈ es2 -> U2 !! in_pgid e = Some r -> r ∈ ([] : list nat)).
  { intros e r HD Hin Hr. exfalso. destruct (unsaved_at lv2 b2 U2 (ad_sinv _ _ _ _ _ _ _ _ _ A2) D id es2 q Hq2 He2) as (o3 & _ & Ho3 & Du3).
    rewrite Ho2 in Ho3. injection Ho3 as <-. eapply unsaved_not_written; [apply (ad_sinv _ _ _ _ _ _ _ _ _ A2)|exact Hr|].
    apply Hall. by eapply us_kids. }
  exists lv2. eexists. exists U2, es2. split; [reflexivity|]. split; [|split; [done|split; [done|split; [|exact (ad_above _ _ _ _ _ _ _ _ _ A2)]]]].
  - apply (advanced_trans c rest _ _ _ _ _ _ _ _ _ _ A1). apply (advanced_trans c rest _ _ _ _ lv2 b2 U2).
    + eapply advanced_weaken; [|exact A2]. lia.
    + apply (children_advanced c rest lv2 b2 U2 D id es2 q o2 []); try done; try apply A2.
      * intros x Hx. by apply elem_of_nil in Hx.
      * cbn. lia.
  - intros e HD Hin. destruct (U2 !! in_pgid e) as [r|] eqn:Er; [|done]. exfalso. specialize (Hno e r HD Hin Er). by apply elem_of_nil in Hno.
Qed.
End spill_kids.

(** ** A node with a parent *)

Lemma outcome_bind_assoc {E A B C} (m : outcome E A) (f : A -> outcome E B) (g : B -> outcome E C) :
  (y ← (x ← m; f x); g y) = (x ← m; y ← f x; g y).
Proof. by destruct m. Qed.

(** The end of spill: the turn of a parent that is new. *)
Definition spill_up (w fuel : nat) (c : config) (q : nat) (b : txb) : outcome bolt_error txb :=
  o ← get q b;
  match o_parent o with
  | None => Ret b
  | Some parent =>
      po ← get parent b;
      if n_pgid (o_node po) =? 0 then
        b ← update q (o_setChildren []) b;
        node_spill w fuel c parent b
      else Ret b
  end.

Lemma node_spill_eq w fuel c q b o : t_heap b !! q = Some o -> spilled (o_node o) = false ->
  node_spill w (S fuel) c q b = (b ← spill_kids w q (node_spill w fuel c) b; b ← node_write c q b; spill_up w fuel c q b).
Proof.
  intros Ho Hs. cbn [node_spill]. rewrite (get_Some _ _ _ Ho). cbn [mbind outcome_bind]. rewrite Hs. unfold spill_kids, node_write, spill_up.
  rewrite !outcome_bind_assoc. destruct (sort_children q b) as [b1| |]; [|done|done]. cbn [mbind outcome_bind].
  rewrite !outcome_bind_assoc. destruct (spill_children _ _ _ _ _) as [b2| |]; [|done|done]. cbn [mbind outcome_bind].
  destruct (update _ _ _) as [b3| |]; [|done|done]. cbn [mbind outcome_bind]. rewrite !outcome_bind_assoc.
  destruct (get q b3) as [o3| |]; [|done|done]. cbn [mbind outcome_bind]. rewrite !outcome_bind_assoc.
  by destruct (node_split _ _ _ _) as [[l b4]| |].
Qed.

Lemma node_spill_skip w fuel c q b : written b q -> node_spill w fuel c q b = Ret b.
Proof. intros (o & Ho & Hs & _). destruct fuel; cbn [node_spill]; rewrite (get_Some _ _ _ Ho); cbn [mbind outcome_bind]; by rewrite Hs. Qed.

(** ** Progress by writing a node *)

Section step_advanced.
Context (c : config) (rest : list Z) (lv : list level) (b : txb) (U : gmap Z nat).
Context (d : nat) (l1 l2 u1 u2 : level) (id P : Z) (es a t : list inode) (e : inode).
Context (q pp : nat) (X : list Z) (news : level) (qs : list nat) (po : nobj) (b' : txb).
Context (S : sinv lv b U) (Hsp : space (c_pageSize c) rest lv b).
Context (Hl : lv !! d = Some (l1 ++ (id, es) :: l2)).
Context (Hu : lv !! Datatypes.S d = Some (u1 ++ (P, a ++ e :: t) :: u2)).
Context (Hlen : (length l1 = length (items u1) + length a)%nat).
Context (Hno : forall x, (0 < d)%nat -> x ∈ es -> U !! in_pgid x = None).
Context (Hq : U !! id = Some q) (HP : U !! P = Some pp) (HX : ids lv ≡ₚ id :: X) (Hpo : t_heap b !! pp = Some po).
Context (CW : child_written c rest b d es a t q pp X news qs po b').

Let lv' := swap_node lv d l1 l2 u1 u2 P a t news.

Lemma step_from k x xs' : entry lv' k x xs' -> (k = d /\ (x, xs') ∈ news) \/
  (x <> id /\ exists xs, entry lv k x xs /\ xs' = swapes P a t news x xs).
Proof. pose proof CW as [W1 W2 W3 W4 W5 W6 W7 W8 W9 W10 W11]. by eapply step_entry_from. Qed.

Lemma step_arity : arity lv None -> arity lv' None.
Proof.
  pose proof CW as [W1 W2 W3 W4 W5 W6 W7 W8 W9 W10 W11]. pose proof (si_lv _ _ _ S) as Hlv.
  destruct (swap_self lv d l1 l2 u1 u2 id P es a t e Hlv Hl Hu Hlen) as (Hid & HPe & _).
  intros Ha k x xs' He. rewrite decide_False by done. apply step_from in He as [[Ek Hn]|(Hxi & xs & He & ->)].
  - apply (W5 ltac:(rewrite <- Ek in Hid; specialize (Ha k id es Hid); rewrite decide_False in Ha by done; exact Ha) _ Hn).
  - specialize (Ha k x xs He). rewrite decide_False in Ha by done. unfold swapes. destruct (decide (x = P)) as [->|]; [|done].
    destruct (entry_inj _ _ _ _ _ _ Hlv He HPe) as [_ ->]. rewrite !length_app, length_fmap. rewrite length_app in Ha. cbn [length] in Ha. lia.
Qed.

Lemma step_roomy R : roomy c R lv b U -> roomy c R lv' b' (delete id U).
Proof.
  intros [R1 R2 R3 R4 R5 R6]. pose proof CW as [W1 W2 W3 W4 _ _ _ _ _ _ _]. pose proof (sp_pageSize _ _ _ _ Hsp) as Hps.
  assert (Hps0 : 0 <= c_pageSize c) by lia. destruct (wa_keeps _ _ _ _ _ _ _ W1) as [_ _ K]. split; [lia|lia| | |by apply step_arity|].
  - intros x r Hr. apply lookup_delete_Some in Hr as [_ Hr]. by eapply R3.
  - destruct (swap_nodes lv d l1 l2 u1 u2 id P es a t e news Hl Hu Hlen) as (Y & E1 & E2). unfold lv'.
    rewrite (fresh_bytes_perm _ _ _ _ E1) in R4. rewrite (fresh_bytes_perm _ _ _ _ E2), fresh_bytes_app. cbn [fresh_bytes fst] in *.
    pose proof (R3 _ _ Hq). pose proof (R3 _ _ HP). pose proof (wa_room _ _ _ _ _ _ _ W1) as Hw.
    pose proof (fresh_bytes_mono _ Hps0 (r_hwm R) (t_hwm b) news ltac:(lia)).
    destruct (Z.leb_spec (r_hwm R) id); [lia|]. destruct (Z.leb_spec (r_hwm R) P); [lia|]. lia.
  - unfold lv'. by rewrite (swap_cont lv d l1 l2 u1 u2 id P es a t e news Hl Hu Hlen W2).
Qed.

(** Writing a node is progress for those above. *)
Lemma step_advanced : advanced c rest (Datatypes.S d) lv b U lv' b' (delete id U).
Proof.
  pose proof CW as [W1 W2 W3 W4 W5 W6 W7 W8 W9 W10 W11]. pose proof (si_lv _ _ _ S) as Hlv.
  destruct (swap_self lv d l1 l2 u1 u2 id P es a t e Hlv Hl Hu Hlen) as (Hid & HPe & _).
  pose proof (fun k x xs => step_entry_to lv b U d l1 l2 u1 u2 id P es a t e news S Hl Hu Hlen k x xs) as Hto.
  split; try apply W1.
  - by apply (step_sinv c rest lv b b' U d l1 l2 u1 u2 id P es a t e news S Hsp Hl Hu Hlen Hno q pp qs po Hq HP Hpo X HX).
  - by eapply step_space.
  - by eapply swap_cont.
  - by apply swap_length.
  - exact step_arity.
  - intros x r Hr. apply lookup_delete_Some in Hr as [Hx Hr]. split; [done|]. intros k xs He. eexists. by apply Hto.
  - intros k x xs r Hk He Hr. rewrite lookup_delete_ne; [done|]. intros <-. destruct (entry_inj _ _ _ _ _ _ Hlv He Hid). lia.
  - intros k x xs Hk He. assert (x <> id) by (intros ->; destruct (entry_inj _ _ _ _ _ _ Hlv He Hid); lia).
    assert (HxP : x <> P) by (intros ->; destruct (entry_inj _ _ _ _ _ _ Hlv He HPe); lia).
    specialize (Hto k x xs He ltac:(done)). unfold swapes in Hto. by rewrite decide_False in Hto.
  - by eapply step_written.
  - intros k x xs r o Hk He Hr Ho. destruct (decide (x = P)) as [->|HxP].
    + rewrite HP in Hr. injection Hr as <-. rewrite Hpo in Ho. injection Ho as <-. eexists _, qs. split; [exact W7|]. split; [done|].
      intros y Hy. apply W8. by right.
    + exists o, []. rewrite app_nil_r. split; [|split; [done|intros y Hy; by apply elem_of_nil in Hy]].
      assert (Hxi : x <> id) by (intros ->; destruct (entry_inj _ _ _ _ _ _ Hlv He Hid); lia).
      exact (step_heap lv b b' U id P S q pp qs Hq HP W9 W10 x k xs r o He Hr Hxi HxP Ho).
  - exact step_roomy.
Qed.
End step_advanced.

Lemma child_spill c R rest w d rec lv b U id es q P ps e : config_ok c -> roomy c R lv b U -> sinv lv b U -> space (c_pageSize c) rest lv b ->
  U !! id = Some q -> entry lv d id es -> child_of lv d P ps e id -> P <> 0 -> (length (cont lv) <= w)%nat ->
  (forall b ch, written b ch -> rec ch b = Ret b) ->
  (forall lv b U es e ch, sinv lv b U -> space (c_pageSize c) rest lv b -> U !! id = Some q -> entry lv d id es ->
    (0 < d)%nat -> e ∈ es -> U !! in_pgid e = Some ch -> (length (cont lv) <= w)%nat -> roomy c R lv b U ->
    mmap_fails c R (rec ch b) \/ exists lv' b' U', rec ch b = Ret b' /\ advanced c rest d lv b U lv' b' U' /\ written b' ch) ->
  let run := b ← spill_kids w q rec b; b ← node_write c q b; Ret b in
  mmap_fails c R run \/ exists lv' b' U' oq pp po, run = Ret b' /\ advanced c rest (S d) lv b U lv' b' U' /\ written b' q /\
    t_heap b' !! q = Some oq /\ o_parent oq = Some pp /\ t_heap b' !! pp = Some po /\ n_pgid (o_node po) = P.
Proof.
  intros Hc Hro S Hsp Hq He Hch HP0 Hw Hskip Hrec run. unfold run. clear run.
  destruct (spill_kids_ok c R rest w d id q rec Hrec Hskip lv b U es S Hsp Hq He Hw Hro) as [[E Hf]|(lv1 & b1 & U1 & es1 & E & A1 & Hq1 & He1 & Hno & Habove)].
  { left. split; [by rewrite E|done]. }
  rewrite E. cbn [mbind outcome_bind]. pose proof (ad_sinv _ _ _ _ _ _ _ _ _ A1) as S1. pose proof (si_lv _ _ _ S1) as Hlv1.
  destruct (unsaved_parent lv b U S d P ps e id q Hch Hq) as [pp HP].
  pose proof (ad_up _ _ _ _ _ _ _ _ _ A1 (Datatypes.S d) P ps pp ltac:(done) (proj1 Hch) HP) as HP1.
  assert (Hc1 : child_of lv1 d P ps e id).
  { destruct Hch as (HPe & ? & ?). split; [|done]. apply Habove; [lia|done]. }
  destruct (node_places lv1 d P ps e id es1 Hlv1 He1 Hc1) as (l1 & l2 & u1 & u2 & a & t & Hl & Hu & Hlen).
  assert (exists X, ids lv1 ≡ₚ id :: X) as [X HX].
  { apply elem_of_Permutation. apply elem_of_level_ids. eauto. }
  pose proof (ad_space _ _ _ _ _ _ _ _ _ A1) as Hsp1.
  destruct (child_write_ok c rest lv1 b1 U1 Hc d l1 l2 u1 u2 id P es1 a t e S1 Hsp1 Hl Hu Hlen ltac:(intros x Hd Hx; by apply Hno) q pp Hq1 HP1 X HX R (ad_roomy _ _ _ _ _ _ _ _ _ A1 R Hro))
    as [[E2 Hf]|(news & qs & po & b2 & E2 & Hpo & CW)]; [left; split; [by rewrite E2|done]|].
  right. rewrite E2. cbn [mbind outcome_bind]. exists (swap_node lv1 d l1 l2 u1 u2 P a t news), b2, (delete id U1).
  destruct (cw_linked _ _ _ _ _ _ _ _ _ _ _ _ _ _ CW) as (oq & Hoq & Hpar). exists oq, pp. eexists.
  split; [done|]. split; [|split; [apply (cw_written _ _ _ _ _ _ _ _ _ _ _ _ _ _ CW); by left|]].
  - apply (advanced_trans _ _ _ _ _ _ _ _ _ _ _ _ A1).
    by eapply step_advanced.
  - split; [done|]. split; [done|]. split; [exact (cw_parent _ _ _ _ _ _ _ _ _ _ _ _ _ _ CW)|]. cbn.
    destruct (unsaved_at lv1 b1 U1 S1 _ P _ pp HP1 (proj1 Hc1)) as (po' & _ & Hpo' & DP). rewrite Hpo in Hpo'. injection Hpo' as <-.
    apply (us_pgid _ _ _ _ _ _ _ DP).
Qed.

Lemma bind_fail {E A B C} (m : outcome E A) (f : A -> outcome E B) (g : B -> outcome E C) e :
  (x ← m; y ← f x; Ret y) = Fail e -> (x ← m; y ← f x; g y) = Fail e.
Proof. destruct m as [x| |]; cbn [mbind outcome_bind]; [|by intros [= ->]|done]. destruct (f x); cbn [mbind outcome_bind]; [done|by intros [= ->]|done]. Qed.

Lemma bind_ret {E A B C} (m : outcome E A) (f : A -> outcome E B) (g : B -> outcome E C) b :
  (x ← m; y ← f x; Ret y) = Ret b -> (x ← m; y ← f x; g y) = g b.
Proof. destruct m as [x| |]; cbn [mbind outcome_bind]; [|done|done]. destruct (f x); cbn [mbind outcome_bind]; [by intros [= ->]|done|done]. Qed.

(** spill on a node that is not the root. *)
Lemma node_spill_child c R rest w d : config_ok c -> forall fuel lv b U id es q P ps e, roomy c R lv b U -> sinv lv b U -> space (c_pageSize c) rest lv b ->
  U !! id = Some q -> entry lv d id es -> child_of lv d P ps e id -> P <> 0 -> (length (cont lv) <= w)%nat -> (d < fuel)%nat ->
  mmap_fails c R (node_spill w fuel c q b) \/
  exists lv' b' U', node_spill w fuel c q b = Ret b' /\ advanced c rest (S d) lv b U lv' b' U' /\ written b' q.
Proof.
  intros Hc. induction d as [|d IH]; intros fuel lv b U id es q P ps e Hro S Hsp Hq He Hch HP0 Hw Hf.
  all: destruct fuel as [|fuel]; [lia|].
  all: destruct (unsaved_at lv b U S _ id es q Hq He) as (o & _ & Ho & D).
  all: rewrite (node_spill_eq _ _ _ _ _ _ Ho (us_spilled _ _ _ _ _ _ _ D)).
  all: destruct (child_spill c R rest w _ (node_spill w fuel c) lv b U id es q P ps e Hc Hro S Hsp Hq He Hch HP0 Hw)
    as [[E Hm]|(lv' & b' & U' & oq & pp & po & E & A & Hwr & Hoq & Hpar & Hpo & Hid)].
  1, 5: intros b1 ch; apply node_spill_skip.
  1: intros lv1 b1 U1 es1 e1 ch _ _ _ _ Hd; lia.
  3: { intros lv1 b1 U1 es1 e1 ch S1 Hsp1 Hq1 He1 _ Hin Hch1 Hw1 Hro1.
    destruct (has_child _ _ _ _ _ (si_lv _ _ _ S1) He1 Hin) as [xs Hxs].
    apply (IH fuel lv1 b1 U1 (in_pgid e1) xs ch id es1 e1); try done; [|lia].
    destruct Hch as (HPe & He2 & <-). pose proof (si_items _ _ _ S _ _ _ HPe) as V. rewrite Forall_forall in V.
    destruct (iv_branch _ _ (V e He2) eq_refl) as (_ & _ & ?). lia. }
  1, 3: left; split; [exact (bind_fail _ _ _ _ E)|done].
  all: right; exists lv', b', U'; split; [|done]; rewrite (bind_ret _ _ _ _ E); unfold spill_up; rewrite (get_Some _ _ _ Hoq);
    cbn [mbind outcome_bind]; rewrite Hpar, (get_Some _ _ _ Hpo); cbn [mbind outcome_bind]; rewrite Hid; by destruct (Z.eqb_spec P 0).
Qed.

(** ** The root *)

(** The levels below a new root [r] above the pieces of the old one. *)
Definition grown (A : list level) (r : Z) (news : level) : list level := (A ++ [news]) ++ [[(r, up_inode <$> news)]].

Lemma grown_ok A id es news r : let lv := A ++ [[(id, es)]] in lv_ok lv -> sep lv -> full lv -> items news = es -> news <> [] ->
  (forall n, n ∈ news -> n.2 <> []) ->
  (forall i x, es !! i = Some x -> exists z, cont lv !! below lv (length A) i = Some z /\ in_key z = in_key x) ->
  NoDup news.*1 -> (forall x, x ∈ news.*1 -> x ∉ (concat lv).*1) -> (r ∉ (concat A).*1) -> (r ∉ news.*1) ->
  lv_ok (grown A r news) /\ sep (grown A r news) /\ cont (grown A r news) = cont lv.
Proof.
  intros lv Hlv Hs Hf Hcat Hn Hne Hfirst Hnd Hfr Hr1 Hr2. set (r0 := fresh ((concat lv).*1 ++ news.*1)).
  assert (Hr0 : r0 ∉ (concat lv).*1 ++ news.*1) by apply infinite_is_fresh. apply not_elem_of_app in Hr0 as [Hr3 Hr4].
  set (lvE := lv ++ [[(r0, [up_inode (id, es)])]]).
  pose proof (extend_ok A id es Hlv r0 Hr3) as HlvE. pose proof (extend_sep A id es r0 Hs) as HsE. fold lv lvE in HlvE, HsE.
  assert (Hlen : length lv = S (length A)) by (unfold lv; rewrite length_app; cbn; lia).
  assert (HA : lvE !! length A = Some ([] ++ (id, es) :: [])).
  { unfold lvE. rewrite lookup_app_l by lia. unfold lv. by apply list_lookup_middle. }
  assert (HS : lvE !! S (length A) = Some ([] ++ (r0, [] ++ up_inode (id, es) :: []) :: [])).
  { unfold lvE. rewrite <- Hlen. by apply list_lookup_middle. }
  assert (HfE : full lvE).
  { intros k x xs (l & Hl & Hin). destruct (decide (k < length lv)%nat) as [Hk|Hk].
    - apply (Hf k x). exists l. split; [|done]. unfold lvE in Hl. by rewrite lookup_app_l in Hl.
    - assert (k = S (length A)) as ->.
      { apply lookup_lt_Some in Hl. unfold lvE in Hl. rewrite length_app in Hl. cbn in Hl. lia. }
      rewrite HS in Hl. injection Hl as <-. apply list_elem_of_singleton in Hin. by injection Hin as -> ->. }
  assert (EcE : cont lvE = cont lv) by (unfold lvE, lv; by destruct A).
  assert (HfirstE : forall i x, es !! i = Some x -> exists z, cont lvE !! below lvE (length A) (length (items []) + i) = Some z /\ in_key z = in_key x).
  { intros i x Hx. cbn [length items]. rewrite EcE, (pos_below lv lvE); [by apply Hfirst|]. intros j Hj. unfold lvl, lvE. by rewrite lookup_app_l by lia. }
  assert (HidsE : NoDup news.*1 /\ forall x, x ∈ news.*1 -> x ∉ (concat lvE).*1).
  { split; [done|]. intros x Hx. unfold lvE. rewrite concat_app, fmap_app, elem_of_app. intros [?|Hx2]; [by apply (Hfr x)|].
    apply list_elem_of_singleton in Hx2 as ->. done. }
  assert (Esw : swap_node lvE (length A) [] [] [] [] r0 [] [] news = grown A r0 news).
  { unfold swap_node, lvE, lv, grown. rewrite !app_nil_r. cbn [app]. rewrite <- !app_assoc. cbn [app].
    rewrite !insert_app_r_alt by lia. rewrite Nat.sub_diag. by replace (S (length A) - length A)%nat with 1%nat by lia. }
  pose proof (swap_ok lvE (length A) [] [] [] [] id r0 es [] [] _ news HlvE HsE HfE HA HS eq_refl Hcat Hn Hne HfirstE HidsE) as K1.
  pose proof (swap_sep lvE (length A) [] [] [] [] id r0 es [] [] _ news HlvE HsE HA HS eq_refl Hcat Hne HfirstE) as K2.
  pose proof (swap_cont lvE (length A) [] [] [] [] id r0 es [] [] _ news HA HS eq_refl Hcat) as K3. rewrite Esw in K1, K2, K3.
  assert (Ec : cont (grown A r news) = cont (grown A r0 news)) by (unfold grown; by destruct A).
  split; [|split; [by eapply rename_sep|by rewrite Ec, K3]].
  eapply rename_ok; [exact K1|]. rewrite concat_app, fmap_app, elem_of_app. cbn. rewrite app_nil_r. by intros [?|?].
Qed.

Section grown.
Context (A : list level) (r : Z) (news : level).

Lemma grown_lookup : grown A r news !! length A = Some news /\ grown A r news !! S (length A) = Some [(r, up_inode <$> news)] /\
  (forall k, (k < length A)%nat -> grown A r news !! k = A !! k) /\ length (grown A r news) = S (S (length A)).
Proof.
  unfold grown. split; [|split; [|split]].
  - rewrite lookup_app_l by (rewrite length_app; cbn; lia). by apply list_lookup_middle.
  - apply list_lookup_middle. rewrite length_app. cbn. lia.
  - intros k Hk. rewrite lookup_app_l by (rewrite length_app; cbn; lia). by apply lookup_app_l.
  - rewrite !length_app. cbn. lia.
Qed.

Lemma grown_entry k x xs : entry (grown A r news) k x xs <->
  ((k < length A)%nat /\ exists l, A !! k = Some l /\ (x, xs) ∈ l) \/ (k = length A /\ (x, xs) ∈ news) \/
  (k = S (length A) /\ x = r /\ xs = up_inode <$> news).
Proof.
  destruct grown_lookup as (G1 & G2 & G3 & G4). split.
  - intros (l & Hl & Hin). pose proof (lookup_lt_Some _ _ _ Hl) as Hk. rewrite G4 in Hk. destruct (decide (k < length A)%nat) as [Hk1|Hk1].
    + left. split; [done|]. exists l. by rewrite <- G3.
    + right. destruct (decide (k = length A)) as [->|Hk2].
      * left. rewrite G1 in Hl. by injection Hl as ->.
      * right. assert (k = S (length A)) as -> by lia. rewrite G2 in Hl. injection Hl as <-. apply list_elem_of_singleton in Hin. by injection Hin as -> ->.
  - intros [(Hk & l & Hl & Hin)|[(-> & Hin)|(-> & -> & ->)]].
    + exists l. by rewrite G3.
    + by exists news.
    + exists [(r, up_inode <$> news)]. split; [done|by left].
Qed.
End grown.

Lemma heap_set_ne q x o b : q <> x -> t_heap (set q o b) !! x = t_heap b !! x.
Proof. intros H. cbn. by rewrite lookup_insert_ne. Qed.

(** A split makes a root a child of a new root. *)
Lemma node_split_root fuel c q b o : t_heap b !! q = Some o -> o_parent o = None -> (splitTwo (c_pageSize c) (c_fill c) (o_node o)).2 <> None ->
  node_split fuel c q b =
  node_split fuel c q (set q (o_setParent (Some (new_ptr b)) o) (set (new_ptr b) (mkNobj node0 None [q]) b)).
Proof.
  intros Ho Hp Hs. pose proof (new_ptr_fresh b) as Hfr. destruct (splitTwo (c_pageSize c) (c_fill c) (o_node o)) as [n [next|]] eqn:Esp; [|done].
  set (pp := new_ptr b) in *. assert (Hne : pp <> q) by (intros E; rewrite E in Hfr; congruence).
  set (b1 := set pp (mkNobj node0 None [q]) b). set (b2 := set q (o_setParent (Some pp) o) b1).
  assert (Hq1 : t_heap b1 !! q = Some o) by (unfold b1; cbn; by rewrite lookup_insert_ne).
  assert (Hpp1 : t_heap b1 !! pp = Some (mkNobj node0 None [q])) by (unfold b1; cbn; apply lookup_insert_eq).
  assert (Enew : new_ptr b2 = new_ptr b1).
  { unfold new_ptr, b2. cbn [set s_heap t_heap]. by rewrite dom_insert_lookup_L by eauto. }
  pose proof (new_ptr_fresh b1) as Hfr1. set (q' := new_ptr b1) in *.
  assert (Hq'q : q' <> q) by (intros E; rewrite E in Hfr1; congruence).
  assert (Hq'p : q' <> pp) by (intros E; rewrite E in Hfr1; congruence).
  assert (Hq2 : t_heap b2 !! q = Some (o_setParent (Some pp) o)) by (unfold b2; cbn; apply lookup_insert_eq).
  assert (Hpp2 : t_heap b2 !! pp = Some (mkNobj node0 None [q])) by (unfold b2; cbn [set s_heap t_heap]; by rewrite lookup_insert_ne).
  set (po := o_setChildren ([q] ++ [q']) (mkNobj node0 None [q])). set (qo := mkNobj next (Some pp) []).
  assert (Est : forall x, set q x (set pp po (set q' qo b2)) = set q x (set pp po (set q' qo b1))).
  { intros x. unfold b2, set, s_heap. cbn. f_equal. rewrite (insert_insert_ne _ q' q) by done.
    rewrite (insert_insert_ne _ pp q) by done. by rewrite insert_insert_eq. }
  pose proof (eq_trans (heap_set_ne q' pp qo b1 Hq'p) Hpp1) as K1. pose proof (eq_trans (heap_set_ne q' pp qo b2 Hq'p) Hpp2) as K2.
  pose proof (eq_trans (heap_set_ne pp q po _ Hne) (eq_trans (heap_set_ne q' q qo b1 Hq'q) Hq1)) as K3.
  pose proof (eq_trans (heap_set_ne pp q po _ Hne) (eq_trans (heap_set_ne q' q qo b2 Hq'q) Hq2)) as K4.
  destruct fuel; cbn [node_split]; rewrite (get_Some _ _ _ Ho), (get_Some _ _ _ Hq2); cbn [mbind outcome_bind o_setParent o_node o_parent];
    rewrite Esp, Hp; fold pp b1; rewrite Enew; fold q' qo;
    rewrite (update_Some _ _ _ _ K1), (update_Some _ _ _ _ K2); cbn [mbind outcome_bind o_children];
    fold po; rewrite (update_Some _ _ _ _ K3), (update_Some _ _ _ _ K4);
    cbn [mbind outcome_bind]; try done; by rewrite <- (Est (mkNobj n (Some pp) (o_children o))).
Qed.

Section root_write.
Context (c : config) (rest : list Z) (Hc : config_ok c).
Context (A : list level) (id : Z) (es : list inode) (b : txb) (q : nat) (o : nobj).
Let lv : list level := A ++ [[(id, es)]].
Context (S : sinv lv b {[id := q]}) (Hsp : space (c_pageSize c) rest lv b) (Ho : t_heap b !! q = Some o).
Context (RM : room) (Hro : roomy c RM lv b {[id := q]}).
Let X : list Z := (concat A).*1.

Lemma root_entry_A : entry lv (length A) id es.
Proof. exists [(id, es)]. split; [unfold lv; by apply list_lookup_middle|by left]. Qed.

Lemma root_unsaved : unsaved lv b {[id := q]} (length A) id es o /\ o_parent o = None.
Proof.
  destruct (unsaved_at lv b _ S (length A) id es q (lookup_singleton_eq _ _) root_entry_A) as (o' & _ & Ho' & D).
  rewrite Ho in Ho'. injection Ho' as <-. split; [done|]. pose proof (us_parent _ _ _ _ _ _ _ D) as Hp.
  destruct (o_parent o); [|done]. destruct Hp as (P & ps & e & Hch & _). destruct (proj1 Hch) as (l & Hl & _).
  apply lookup_lt_Some in Hl. unfold lv in Hl. rewrite length_app in Hl. cbn in Hl. lia.
Qed.

Lemma root_ids : ids lv ≡ₚ id :: X.
Proof. unfold ids, lv, X. rewrite concat_app, fmap_app. cbn. solve_Permutation. Qed.

Lemma root_below k x xs : entry lv k x xs -> (k < length A)%nat -> x <> id /\ saved lv b k x xs.
Proof.
  intros He Hk. assert (Hx : x <> id).
  { intros ->. destruct (entry_inj _ _ _ _ _ _ (si_lv _ _ _ S) He root_entry_A). lia. }
  split; [done|]. apply (si_saved _ _ _ S); [done|]. by rewrite lookup_singleton_ne.
Qed.

Lemma root_nokids x : (0 < length A)%nat -> x ∈ es -> ({[id := q]} : gmap Z nat) !! in_pgid x = None.
Proof.
  intros HA Hx. assert (exists d, length A = Datatypes.S d) as [d Ed] by (exists (length A - 1)%nat; lia).
  pose proof root_entry_A as He. rewrite Ed in He. destruct (has_child _ _ _ _ _ (si_lv _ _ _ S) He Hx) as [xs Hxs].
  apply lookup_singleton_ne. intros E. symmetry in E. revert E. apply (root_below d _ xs); [done|lia].
Qed.

Lemma root_X k x xs : entry lv k x xs -> (k < length A)%nat -> x ∈ X /\ x ∈ ids lv /\ x <> 0.
Proof.
  intros He Hk. destruct (root_below k x xs He Hk) as [Hx [_ _ H0]]. assert (Hin : x ∈ ids lv) by (apply elem_of_level_ids; eauto).
  split; [|done]. rewrite root_ids in Hin. by apply elem_of_cons in Hin as [?|?].
Qed.

Lemma root_self x : x ∈ es -> (length A =? 0)%nat = false -> in_pgid x ∈ X.
Proof. intros Hx Hd. apply (kids_apart lv (length A) id es x X (si_lv _ _ _ S) root_entry_A root_ids); [destruct (length A); [done|lia]|done]. Qed.

Lemma root_room ls : items ls = es -> (forall n, n ∈ ls -> n.2 <> []) \/ (length ls <= 1)%nat ->
  has_room c RM b (level_bytes (c_pageSize c) ls).
Proof. apply (roomy_pieces c RM lv b _ (length A) id es q ls Hc S Hro root_entry_A), lookup_singleton_eq. Qed.

(** A root that is not split. *)
Lemma root_single_ok : (splitTwo (c_pageSize c) (c_fill c) (o_node o)).2 = None ->
  mmap_fails c RM (node_write c q b) \/
  exists id' b' o', node_write c q b = Ret b' /\ sinv (A ++ [[(id', es)]]) b' ∅ /\ space (c_pageSize c) rest (A ++ [[(id', es)]]) b' /\
    keeps b b' /\ framed b b' /\ 1 < id' < t_hwm b' /\ t_heap b' !! q = Some o' /\ o_parent o' = None /\ n_pgid (o_node o') = id' /\
    (forall x, x <> q -> t_heap b' !! x = t_heap b !! x).
Proof.
  intros Hsplit. destruct root_unsaved as [D Hpar]. pose proof (us_inodes _ _ _ _ _ _ _ D) as Ei.
  pose proof (si_items _ _ _ S _ _ _ root_entry_A) as V.
  unfold node_write. rewrite (get_Some _ _ _ Ho). cbn [mbind outcome_bind]. rewrite (node_split_none _ _ _ _ _ Ho Hsplit). cbn [mbind outcome_bind].
  assert (G : good X (length A =? 0)%nat (o_node o)).
  { split; [apply (us_leaf _ _ _ _ _ _ _ D)|by rewrite Ei| |by rewrite Ei; exact root_self].
    destruct (split_loop_spec (c_pageSize c) (c_fill c) (Datatypes.S (length (inodes (o_node o)))) (o_node o) ltac:(lia))
      as (a & r & E & _ & _ & _ & Hp & _).
    rewrite split_loop_S in E. destruct (splitTwo _ _ _) as [n1 [n2|]] eqn:E2; [done|]. injection E as <- <-.
    assert (n1 = o_node o) as -> by (unfold splitTwo in E2; destruct (_ || _); [by injection E2|done]).
    destruct Hc as [Hps Hth]. eapply (piece_fits _ _ _ _ Hps Hth Hp); [by left|done|done|].
    rewrite (us_leaf _ _ _ _ _ _ _ D), Ei. exact V. }
  pose proof (held_ids c rest lv b X id (o_node o) Hsp root_ids (us_pgid _ _ _ _ _ _ _ D)) as Hh.
  assert (Hroom : has_room c RM b (node_bytes (inodes (o_node o)) + c_pageSize c)).
  { apply (has_room_le _ _ _ _ _ (root_room [(0, es)] (app_nil_r es) (or_intror (le_n 1)))). rewrite Ei. cbn. lia. }
  destruct (spill_root_ok c rest _ Hc RM X q b o Ho Hpar G Hh Hroom) as [Hf|(id' & b' & E & W & Ho' & Hoth)]; [by left|right].
  rewrite Ei in W. destruct W as [W1 W2 W3 [W4 W4'] W5 W6 _]. exists id', b'. eexists. split; [exact E|].
  pose proof (rename_entry A id es) as Hren. split; [|split; [|split; [done|split; [done|split; [done|split; [exact Ho'|done]]]]]].
  - split.
    + apply (rename_ok A id es (si_lv _ _ _ S) id'). exact W4.
    + apply (rename_sep A id es id'), (si_sep _ _ _ S).
    + intros Hl k x xs He. apply Hren in He as [(-> & -> & ->)|[Hk He]].
      * apply (si_full _ _ _ S) with (k := length A) (id := id); [|exact root_entry_A]. unfold lv. rewrite length_app in *. exact Hl.
      * apply (si_full _ _ _ S) with (k := k) (id := x); [|done]. unfold lv. rewrite length_app in *. exact Hl.
    + intros x r Hx. by rewrite lookup_empty in Hx.
    + intros k x xs He _. apply Hren in He as [(-> & -> & ->)|[Hk He]].
      * split; [exact W6| |lia]. intros P ps e ((l & Hl & _) & _). apply lookup_lt_Some in Hl. rewrite length_app in Hl. cbn in Hl. lia.
      * destruct (root_below k x xs He Hk) as [_ [V1 V2 V3]]. destruct (root_X k x xs He Hk) as (_ & Hin & _). split; [|  |done].
        -- eapply on_page_keeps; [exact Hsp|exact Hin|done|exact W2|done].
        -- intros P ps e (HP & Hin2 & Hid). apply Hren in HP as [(Ek & -> & ->)|[Hk2 HP]].
           ++ apply (V2 id es e). split; [rewrite Ek; exact root_entry_A|done].
           ++ by apply (V2 P ps e).
    + intros k x xs He. apply Hren in He as [(-> & -> & ->)|[Hk He]]; [done|by apply (si_items _ _ _ S k x)].
  - eapply pages_perm; [|exact W1]. unfold ids, X. rewrite concat_app, fmap_app. cbn. solve_Permutation.
Qed.

(** What a split of the root leaves. *)
Record root_pieces (news : level) (qs : list nat) (pp : nat) (b' : txb) : Prop := {
  rp_wrote : wrote_all c rest (length A =? 0)%nat X b news b';
  rp_items : items news = es;
  rp_two : forall n, n ∈ news -> (2 <= length n.2)%nat;
  rp_many : (2 <= length news)%nat;
  rp_count : (length (q :: qs) <= length news)%nat;
  rp_parent : t_heap b' !! pp = Some (mkNobj (set_inodes (up_inode <$> news) node0) None (q :: qs));
  rp_written : forall x, x ∈ q :: qs -> written b' x;
  rp_fresh : t_heap b !! pp = None /\ forall x, x ∈ qs -> t_heap b !! x = None;
  rp_other : forall x, x ∉ q :: qs -> x <> pp -> t_heap b' !! x = t_heap b !! x;
  rp_linked : exists oq, t_heap b' !! q = Some oq /\ o_parent oq = Some pp
}.

Lemma split_many n next a0 ns : splitTwo (c_pageSize c) (c_fill c) n = (a0, Some next) -> forall l,
  split_loop (Datatypes.S (length (inodes n))) (c_pageSize c) (c_fill c) n = Some (a0 :: l) -> ns = l -> ns <> [] /\ (2 <= length (inodes n))%nat.
Proof.
  intros E l El ->. rewrite split_loop_S, E in El. split.
  - assert (exists f, length (inodes n) = Datatypes.S f) as [f Ef].
    { exists (length (inodes n) - 1)%nat. unfold splitTwo, minKeysPerPage in E. destruct (_ || _) eqn:Eb; [done|].
      apply orb_false_iff in Eb as [Eb _]. apply Nat.leb_gt in Eb. lia. }
    rewrite Ef, split_loop_S in El. destruct (splitTwo _ _ next) as [n1 [n2|]]; [|by injection El as <-].
    destruct (split_loop f _ _ n2); [by injection El as <-|done].
  - unfold splitTwo, minKeysPerPage in E. destruct (_ || _) eqn:Eb; [done|].
    apply orb_false_iff in Eb as [Eb _]. apply Nat.leb_gt in Eb. lia.
Qed.

(** The split of the root: its pieces partition the inodes, two or more in each. *)
Lemma root_split_nodes : (splitTwo (c_pageSize c) (c_fill c) (o_node o)).2 <> None ->
  exists a0 ns, split_loop (Datatypes.S (length (inodes (o_node o)))) (c_pageSize c) (c_fill c) (o_node o) = Some (a0 :: ns) /\
    a0 = set_inodes (inodes a0) (o_node o) /\ good X (length A =? 0)%nat a0 /\ Forall (fresh_piece (length A =? 0)%nat X) ns /\
    concat (inodes <$> a0 :: ns) = es /\ ns <> [] /\ (forall m, m ∈ a0 :: ns -> inodes m <> []) /\
    (forall m, m ∈ a0 :: ns -> (2 <= length (inodes m))%nat).
Proof.
  intros Hsplit. destruct root_unsaved as [D _]. pose proof (us_inodes _ _ _ _ _ _ _ D) as Ei.
  pose proof (si_items _ _ _ S _ _ _ root_entry_A) as V.
  assert (Hne : inodes (o_node o) <> []).
  { intros E. unfold splitTwo in Hsplit. rewrite E in Hsplit. done. }
  destruct (split_good c X (length A =? 0)%nat (o_node o) Hc (us_leaf _ _ _ _ _ _ _ D)) as (a0 & ns & Esp & Ea0 & Ga & Gns & Ecat & Hn0 & Hn2); try done.
  { by rewrite Ei. } { rewrite Ei. exact root_self. }
  assert (Hns : ns <> [] /\ (2 <= length (inodes (o_node o)))%nat).
  { destruct (splitTwo (c_pageSize c) (c_fill c) (o_node o)) as [n1 [n2|]] eqn:E2; [|done].
    eapply split_many; [exact E2| |reflexivity]. pose proof Esp as Esp'. rewrite split_loop_S, E2 in Esp'.
    destruct (split_loop _ _ _ n2) as [l|]; [|done]. cbn [mbind option_bind] in Esp'. injection Esp' as -> ->. exact Esp. }
  destruct Hns as [Hns H2]. exists a0, ns. rewrite <- Ei. split_and!; try done. by apply Hn2.
Qed.

Lemma root_split_run : (splitTwo (c_pageSize c) (c_fill c) (o_node o)).2 <> None ->
  mmap_fails c RM (node_write c q b) \/ exists news qs pp b', node_write c q b = Ret b' /\ root_pieces news qs pp b'.
Proof.
  intros Hsplit. destruct root_unsaved as [D Hpar]. pose proof (us_inodes _ _ _ _ _ _ _ D) as Ei.
  pose proof (us_parent _ _ _ _ _ _ _ D) as Hp. rewrite Hpar in Hp. destruct Hp as [_ Hkey].
  destruct (root_split_nodes Hsplit) as (a0 & ns & Esp & Ea0 & Ga & Gns & Ecat & Hns & Hn0 & Hn2). unfold node_write. rewrite (get_Some _ _ _ Ho). cbn [mbind outcome_bind].
  rewrite (node_split_root _ _ _ _ _ Ho Hpar Hsplit). pose proof (new_ptr_fresh b) as Hfp. set (pp := new_ptr b) in *.
  assert (Hpq : pp <> q) by (intros E; rewrite E in Hfp; congruence). set (b1 := set q _ _).
  assert (Hq1 : t_heap b1 !! q = Some (o_setParent (Some pp) o)) by (unfold b1; cbn; apply lookup_insert_eq).
  assert (Hp1 : t_heap b1 !! pp = Some (mkNobj node0 None [q])) by (unfold b1; cbn; rewrite lookup_insert_ne by done; apply lookup_insert_eq).
  assert (Hb1 : forall x, x <> q -> x <> pp -> t_heap b1 !! x = t_heap b !! x) by (intros x H1 H3; unfold b1; cbn; by rewrite !lookup_insert_ne).
  destruct (node_split_run c (length (inodes (o_node o))) q b1 _ pp _ a0 ns Hq1 eq_refl Hp1 Hpq Esp) as (qs & h & E1 & Hnd & Hfr & K1 & K2 & K3 & K4).
  rewrite E1. cbn [mbind outcome_bind o_children o_setParent] in *.
  destruct (held_ids c rest lv b X id a0 Hsp root_ids) as [Hh1 Hh2]; [rewrite Ea0; apply (us_pgid _ _ _ _ _ _ _ D)|].
  assert (Hun : keys_sorted (in_key <$> (up_inode <$> unplaced (a0 :: ns)))).
  { apply first_keys_sorted; [intros n (m & -> & Hm)%list_elem_of_fmap; by apply Hn0|]. rewrite items_unplaced, Ecat.
    exact (entry_sorted _ _ _ _ (si_lv _ _ _ S) root_entry_A). }
  assert (Ek : n_key a0 = n_key (o_node o)) by (by rewrite Ea0).
  destruct (spill_pieces_ok c rest (length A =? 0)%nat Hc RM pp q qs X (s_heap h b1) (o_children o) (mkNobj node0 None (q :: qs)) a0 ns [] None [])
    as [Hf|(news & b' & E & W & En & B1 & B2 & B3 & B4)]; try done.
  - split; [|done]. by apply (pages_same _ _ _ b).
  - apply Hn0. by left.
  - constructor; [|done]. intros Hin. by rewrite (Hfr _ Hin) in Hq1.
  - intros [->|Hin]%elem_of_cons; [done|]. by rewrite (Hfr _ Hin) in Hp1.
  - constructor.
  - intros x Hx. by apply elem_of_nil in Hx.
  - intros x Hx. by apply elem_of_nil in Hx.
  - rewrite Ek. destruct (n_key (o_node o)) as [k|] eqn:Ekk; cbn; [by intros ->|]. unfold up_inode. cbn.
    pose proof (gd_valid _ _ _ Ga) as Va. pose proof (Hn0 a0 ltac:(by left)). destruct (inodes a0) as [|y l]; [done|]. apply Forall_inv in Va. apply (iv_key _ _ Va).
  - by rewrite app_nil_r.
  - destruct (root_room (unplaced (a0 :: ns))) as (Hr1 & Hr2 & Hr3); [by rewrite items_unplaced|left; intros n (m & -> & Hm)%list_elem_of_fmap; by apply Hn0|done].
  - by left.
  - right. exists news, qs, pp, b'. split; [done|].
    pose proof (fun n => piece_of_node news (a0 :: ns) n En) as Hmem.
    assert (Hlq : length qs = length ns) by (by eapply Forall2_length).
    assert (Hln : length news = Datatypes.S (length ns)) by (by rewrite <- (length_fmap snd news), En, length_fmap).
    split; try done.
    + destruct W as [W1 [W2 W3 W4] W5 W6 W7 W8 W9]. by split.
    + unfold items. by rewrite En, Ecat.
    + intros n Hn. destruct (Hmem n Hn) as (m & Hm & ->). by apply Hn2.
    + destruct ns; [done|cbn in Hln; lia].
    + cbn. lia.
    + rewrite B1. unfold o_setNode. cbn. by rewrite app_nil_r.
    + split; [done|]. intros x Hx. pose proof (Hfr x Hx) as Hx1. rewrite <- Hb1; [done| |]; intros ->; congruence.
    + intros x Hx Hxp. rewrite B3 by done. cbn. apply not_elem_of_cons in Hx as [? ?]. rewrite K4 by done. by apply Hb1.
    + destruct B4 as (oq & ? & ? & _). by exists oq.
Qed.

Section root_grown.
Context (news : level) (qs : list nat) (pp : nat) (b' : txb) (R : root_pieces news qs pp b').

Lemma new_fresh x : x ∈ news.*1 -> (x ∉ ids lv) /\ 1 < x < t_hwm b'.
Proof.
  intros Hx. destruct (wa_new _ _ _ _ _ _ _ (rp_wrote _ _ _ _ R) x Hx) as (H1 & H2 & H3). split; [|done]. rewrite root_ids.
  intros [E|?]%elem_of_cons; [|done]. rewrite E in H2, H3. assert (Hi : id ∈ ids lv) by (rewrite root_ids; by left).
  destruct (in_use c rest _ b id Hsp Hi ltac:(lia)) as [? ?]. destruct H3 as [?|?]; [done|lia].
Qed.

Lemma root_full : full lv.
Proof.
  destruct (decide (1 < length lv)%nat) as [H|H]; [by apply (si_full _ _ _ S)|]. intros k x xs He Exs.
  assert (EA : length A = 0%nat) by (unfold lv in H; rewrite length_app in H; cbn in H; lia).
  assert (k = 0%nat) as -> by (destruct He as (l & Hl & _); apply lookup_lt_Some in Hl; lia).
  pose proof root_entry_A as Hr. rewrite EA in Hr. assert (Hids : x = id).
  { destruct He as (l & Hl & Hin). destruct Hr as (l' & Hl' & Hin'). rewrite Hl in Hl'. injection Hl' as <-.
    pose proof (top_entry lv 0 l id es (si_lv _ _ _ S) Hl ltac:(unfold lv; rewrite length_app; cbn; lia) Hin') as El.
    rewrite El in Hin. apply list_elem_of_singleton in Hin. by injection Hin. }
  rewrite Hids in He. destruct (entry_inj _ _ _ _ _ _ (si_lv _ _ _ S) He Hr) as [_ E2].
  pose proof (rp_items _ _ _ _ R) as Ei. pose proof (rp_many _ _ _ _ R) as Hm. rewrite <- E2, Exs in Ei.
  destruct news as [|n l]; [cbn in Hm; lia|]. pose proof (rp_two _ _ _ _ R n ltac:(by left)). rewrite items_cons in Ei.
  destruct n.2; [cbn in *; lia|done].
Qed.

Lemma root_first i x : es !! i = Some x -> exists z, cont lv !! below lv (length A) i = Some z /\ in_key z = in_key x.
Proof.
  intros Hx. apply (saved_first lv b {[id := q]} S).
  - unfold lvl, lv. rewrite list_lookup_middle by done. cbn [default from_option Datatypes.id]. unfold items. cbn. by rewrite app_nil_r.
  - intros HA. apply root_nokids; [done|]. by eapply list_elem_of_lookup_2.
Qed.

Lemma zero_fresh : (0 ∉ (concat A).*1) /\ (0 ∉ news.*1).
Proof.
  split; intros H.
  - apply elem_of_level_ids in H as (k & xs & l & Hl & Hin). assert (Hk : (k < length A)%nat) by (by apply lookup_lt_Some in Hl).
    destruct (root_X k 0 xs) as (_ & _ & ?); [|done|done]. exists l. split; [|done]. unfold lv. by rewrite lookup_app_l.
  - destruct (new_fresh 0 H). lia.
Qed.

Lemma root_grown_ok : lv_ok (grown A 0 news) /\ sep (grown A 0 news) /\ cont (grown A 0 news) = cont lv.
Proof.
  destruct zero_fresh as [Z1 Z2]. apply (grown_ok A id es news 0 (si_lv _ _ _ S) (si_sep _ _ _ S) root_full (rp_items _ _ _ _ R)); try done.
  - intros E. pose proof (rp_many _ _ _ _ R) as Hm. rewrite E in Hm. cbn in Hm. lia.
  - intros n Hn E. pose proof (rp_two _ _ _ _ R n Hn) as H2. rewrite E in H2. cbn in H2. lia.
  - exact root_first.
  - apply (wa_nodup _ _ _ _ _ _ _ (rp_wrote _ _ _ _ R)).
  - intros x Hx. by destruct (new_fresh x Hx).
Qed.

Lemma below_entry k x l : A !! k = Some l -> (k < length A)%nat -> forall xs, (x, xs) ∈ l -> entry lv k x xs.
Proof. intros Hl Hk xs Hin. exists l. split; [unfold lv; by rewrite lookup_app_l|done]. Qed.

Lemma grown_child k Q ys i x : (k < length A)%nat -> child_of (grown A 0 news) k Q ys i x -> exists Q' ys', child_of lv k Q' ys' i x.
Proof.
  intros Hk (HQ & Hi & Hx). apply grown_entry in HQ as [(Hk2 & l & Hl & Hin)|[(Ek & Hin)|(Ek & _)]]; [| |lia].
  - exists Q, ys. split; [by eapply below_entry|done].
  - exists id, es. split; [rewrite Ek; exact root_entry_A|]. split; [|done]. rewrite <- (rp_items _ _ _ _ R). apply elem_of_items. by exists (Q, ys).
Qed.

Lemma grown_saved k x xs : entry (grown A 0 news) k x xs -> x <> 0 -> saved (grown A 0 news) b' k x xs.
Proof.
  pose proof (rp_wrote _ _ _ _ R) as W. intros He Hx0. apply grown_entry in He as [(Hk & l & Hl & Hin)|[(-> & Hin)|(_ & -> & _)]]; [| |done].
  - pose proof (below_entry k x l Hl Hk xs Hin) as He. destruct (root_below k x xs He Hk) as [_ [V1 V2 V3]].
    destruct (root_X k x xs He Hk) as (_ & Hi & _). split; [| |done].
    + eapply on_page_keeps; [exact Hsp|exact Hi|done|apply (wa_keeps _ _ _ _ _ _ _ W)|exact V1].
    + intros Q ys i Hch. destruct (grown_child k Q ys i x Hk Hch) as (Q' & ys' & Hch'). by eapply V2.
  - assert (Hx : x ∈ news.*1) by exact (list_elem_of_fmap_2 fst _ _ Hin). split; [exact (wa_page _ _ _ _ _ _ _ W _ Hin)| |done].
    intros Q ys i (HQ & Hi & Hix). apply grown_entry in HQ as [(Hk & _)|[(Ek & _)|(_ & -> & ->)]]; [lia|lia|].
    apply list_elem_of_fmap in Hi as (n & -> & Hn). cbn in Hix. unfold up_inode. cbn.
    assert (En : n = (x, xs)).
    { pose proof (wa_nodup _ _ _ _ _ _ _ W) as Hnd. apply list_elem_of_lookup in Hn as [i1 H1]. apply list_elem_of_lookup in Hin as [i2 H2].
      assert (i1 = i2) as ->; [|congruence]. eapply NoDup_lookup; [exact Hnd| |]; rewrite list_lookup_fmap; [by rewrite H1|rewrite H2; cbn; by rewrite Hix]. }
    pose proof (rp_two _ _ _ _ R _ Hin) as H2. rewrite En. cbn in *. destruct xs; [cbn in H2; lia|done].
Qed.

Lemma grown_items k x xs : entry (grown A 0 news) k x xs -> Forall (item_valid (k =? 0)%nat) xs.
Proof.
  pose proof (rp_wrote _ _ _ _ R) as W. pose proof (si_items _ _ _ S _ _ _ root_entry_A) as V.
  assert (Hsub : forall n, n ∈ news -> Forall (item_valid (length A =? 0)%nat) n.2).
  { intros n Hn. rewrite Forall_forall in V |- *. intros y Hy. apply V. rewrite <- (rp_items _ _ _ _ R). apply elem_of_items. by exists n. }
  intros He. apply grown_entry in He as [(Hk & l & Hl & Hin)|[(-> & Hin)|(-> & -> & ->)]].
  - apply (si_items _ _ _ S k x). by eapply below_entry.
  - by apply (Hsub (x, xs)).
  - cbn [Nat.eqb]. apply Forall_fmap, Forall_forall. intros n Hn. cbn. pose proof (rp_two _ _ _ _ R n Hn) as H2.
    eapply up_inode_valid; [apply (wa_pages _ _ _ _ _ _ _ W)| |intros E; rewrite E in H2; cbn in H2; lia|by apply Hsub].
    apply new_fresh. by apply list_elem_of_fmap_2.
Qed.

Lemma grown_sinv : sinv (grown A 0 news) b' {[0 := pp]}.
Proof.
  destruct root_grown_ok as (G1 & G2 & _). destruct (grown_lookup A 0 news) as (_ & _ & _ & G4). split; try done.
  - intros _ k x xs He. apply grown_entry in He as [(Hk & l & Hl & Hin)|[(-> & Hin)|(-> & -> & ->)]].
    + apply (root_full k x). by eapply below_entry.
    + intros ->. pose proof (rp_two _ _ _ _ R _ Hin) as H2. cbn in H2. lia.
    + intros E. pose proof (rp_many _ _ _ _ R) as Hm. destruct news; [cbn in Hm; lia|done].
  - intros x r Hx. apply lookup_singleton_Some in Hx as [<- <-]. exists (Datatypes.S (length A)), (up_inode <$> news). eexists.
    split; [apply grown_entry; by do 2 right|]. split; [exact (rp_parent _ _ _ _ R)|].
    split; cbn [o_node o_parent o_children set_inodes node0 isLeaf inodes n_pgid spilled n_key]; try done.
    + intros ch Hch. left. by apply (rp_written _ _ _ _ R).
    + intros i ch _ Hi Hch. exfalso. apply list_elem_of_fmap in Hi as (n & -> & Hn). cbn in Hch. apply lookup_singleton_Some in Hch as [E _].
      destruct zero_fresh as [_ Z2]. apply Z2. rewrite E. by apply list_elem_of_fmap_2.
    + rewrite length_fmap. apply (rp_count _ _ _ _ R).
  - intros k x xs He Hx. apply grown_saved; [done|]. intros ->. by rewrite lookup_singleton_eq in Hx.
  - exact grown_items.
Qed.

Lemma grown_space : space (c_pageSize c) rest (grown A 0 news) b'.
Proof.
  assert (H0 : pages_ok (c_pageSize c) rest (0 :: news.*1 ++ X) b').
  { destruct (wa_pages _ _ _ _ _ _ _ (rp_wrote _ _ _ _ R)) as [S1 S2 S3 S4 S5 S6]. split; try done.
    intros x Hx Hx0. apply S2; [|done]. by apply elem_of_cons in Hx as [?|?]. }
  eapply pages_perm; [|exact H0]. unfold ids, grown, X. rewrite !concat_app, !fmap_app. cbn. rewrite app_nil_r. solve_Permutation.
Qed.
End root_grown.

Lemma single_arity id' : arity lv None -> arity (A ++ [[(id', es)]]) None.
Proof.
  intros Ha d x xs He. apply (rename_entry A id es) in He as [(Ek & -> & ->)|[Hk He]].
  - apply (Ha d id). rewrite Ek. exact root_entry_A.
  - by apply (Ha d x).
Qed.

Lemma grown_arity news qs pp b' : root_pieces news qs pp b' -> arity lv None -> arity (grown A 0 news) None.
Proof.
  intros R Ha d x xs He. rewrite decide_False by done. apply grown_entry in He as [(Hk & l & Hl & Hin)|[(_ & Hin)|(_ & -> & ->)]].
  - specialize (Ha d x xs ltac:(by eapply below_entry)). by rewrite decide_False in Ha.
  - by apply (rp_two _ _ _ _ R (x, xs)).
  - rewrite length_fmap. apply (rp_many _ _ _ _ R).
Qed.

(** The room is kept: a new root has no page yet. *)
Lemma grown_roomy news qs pp b' : root_pieces news qs pp b' -> roomy c RM (grown A 0 news) b' {[0 := pp]}.
Proof.
  intros R. pose proof Hro as [R1 R2 R3 R4 R5 R6]. pose proof (sp_pageSize _ _ _ _ Hsp) as Hps. assert (Hps0 : 0 <= c_pageSize c) by lia.
  pose proof (rp_wrote _ _ _ _ R) as W. destruct (wa_keeps _ _ _ _ _ _ _ W) as [_ _ K].
  split; [lia|lia| | |by eapply grown_arity|].
  - intros x r Hx. apply lookup_singleton_Some in Hx as [<- _]. lia.
  - pose proof (R3 id q (lookup_singleton_eq _ _)) as Hid. pose proof (wa_room _ _ _ _ _ _ _ W) as Hw.
    pose proof (fresh_bytes_mono _ Hps0 (r_hwm RM) (t_hwm b) news ltac:(lia)). unfold grown, lv in *.
    rewrite !concat_app, !fresh_bytes_app in *. cbn [concat app fresh_bytes fst] in *. rewrite app_nil_r.
    destruct (Z.leb_spec (r_hwm RM) id); [lia|]. destruct (Z.leb_spec (r_hwm RM) 0); [lia|]. lia.
  - destruct (root_grown_ok news qs pp b' R) as (_ & _ & Ec). by rewrite Ec.
Qed.

Lemma pieces_half news qs pp b' : root_pieces news qs pp b' -> (2 * length news <= length es)%nat.
Proof.
  intros R. rewrite <- (rp_items _ _ _ _ R). pose proof (rp_two _ _ _ _ R) as H2. revert H2. clear.
  induction news as [|n l IH]; intros H2; [cbn; lia|]. rewrite items_cons, length_app. cbn [length].
  specialize (H2 n ltac:(by left)) as Hn. specialize (IH ltac:(intros m Hm; apply H2; by right)). lia.
Qed.
End root_write.

(** Objects of nodes that are written do not matter. *)
Lemma sinv_heap lv b b' U : sinv lv b U -> t_pages b' = t_pages b -> (forall x, written b x -> written b' x) ->
  (forall x r, U !! x = Some r -> t_heap b' !! r = t_heap b !! r) -> sinv lv b' U.
Proof.
  intros [I1 I2 I3 I4 I5 I6] Ep Hw Hh. split; try done.
  - intros x r Hr. destruct (I4 x r Hr) as (k & xs & o & He & Ho & [D1 D2 D3 D4 D5 D6 D7 D8]). exists k, xs, o. split; [done|].
    split; [by rewrite (Hh x r Hr)|]. split; try done. intros ch Hch. destruct (D6 ch Hch) as [?|?]; [left; by apply Hw|by right].
  - intros k x xs He HU. destruct (I5 k x xs He HU) as [(p & Hp & Hr) V2 V3]. split; try done. exists p. by rewrite Ep.
Qed.

Lemma spill_children_done rec q n : forall i b o, (forall b ch, written b ch -> rec ch b = Ret b) -> t_heap b !! q = Some o ->
  (forall ch, ch ∈ o_children o -> written b ch) -> (length (o_children o) <= n + i)%nat -> spill_children rec q n i b = Ret b.
Proof.
  induction n as [|n IH]; intros i b o Hskip Ho Hall Hn; cbn [spill_children]; rewrite (get_Some _ _ _ Ho); cbn [mbind outcome_bind].
  - by rewrite lookup_ge_None_2 by lia.
  - destruct (o_children o !! i) as [ch|] eqn:E; [|done]. rewrite Hskip by (apply Hall; by eapply list_elem_of_lookup_2).
    cbn [mbind outcome_bind]. apply (IH (S i) b o); try done. lia.
Qed.

(** A new root: its children are written already. *)
Lemma spill_kids_done c rest w rec A id es b q o : let lv := A ++ [[(id, es)]] in (forall b ch, written b ch -> rec ch b = Ret b) ->
  sinv lv b {[id := q]} -> space (c_pageSize c) rest lv b -> t_heap b !! q = Some o -> (length (cont lv) <= w)%nat ->
  exists l, spill_kids w q rec b = Ret (set q (o_setChildren [] o) (set q (o_setChildren l o) b)) /\
    sinv lv (set q (o_setChildren [] o) (set q (o_setChildren l o) b)) {[id := q]}.
Proof.
  intros lv Hskip S Hsp Ho Hw. set (U := {[id := q]}) in *. assert (Hq : U !! id = Some q) by apply lookup_singleton_eq.
  assert (He : entry lv (length A) id es) by (exists [(id, es)]; split; [unfold lv; by apply list_lookup_middle|by left]).
  pose proof (root_nokids A id es b q S) as Hno. fold U in Hno.
  destruct (unsaved_at lv b U S _ id es q Hq He) as (o' & _ & Ho' & D). rewrite Ho in Ho'. injection Ho' as <-.
  destruct (sort_children_ok lv b U _ id es q o S Hq He Ho) as (l & E & Hl). exists l.
  assert (S1 : sinv lv (set q (o_setChildren l o) b) U).
  { apply (children_sinv lv b U (length A) id es q o l S Hq He Ho).
    - intros x Hx. by rewrite <- Hl.
    - intros x r HD Hx Hr. rewrite (Hno x HD Hx) in Hr. done.
    - rewrite Hl. by eapply us_count. }
  assert (Ho1 : t_heap (set q (o_setChildren l o) b) !! q = Some (o_setChildren l o)) by (cbn; apply lookup_insert_eq).
  destruct (unsaved_at lv _ U S1 _ id es q Hq He) as (o1 & _ & Ho1' & D1). rewrite Ho1 in Ho1'. injection Ho1' as <-.
  unfold spill_kids. rewrite E. cbn [mbind outcome_bind].
  rewrite (spill_children_done rec q w 0 _ _ Hskip Ho1).
  2: { intros ch Hch. destruct (us_children _ _ _ _ _ _ _ D1 ch Hch) as [?|(HD & e & Hin & Hc)]; [done|]. by rewrite (Hno e HD Hin) in Hc. }
  2: { pose proof (us_count _ _ _ _ _ _ _ D1). pose proof (entry_cont lv b U _ id es S He). lia. }
  cbn [mbind outcome_bind]. rewrite (update_Some _ _ _ _ Ho1). split; [done|].
  apply (children_sinv lv _ U (length A) id es q (o_setChildren l o) [] S1 Hq He Ho1).
  - intros x Hx. by apply elem_of_nil in Hx.
  - intros x r HD Hx Hr. by rewrite (Hno x HD Hx) in Hr.
  - cbn. lia.
Qed.

(** spill has written the root, maybe below new roots; the last of them is [r]. *)
Record spilled_root (c : config) (rest : list Z) (lv : list level) (b : txb) (q : nat) (n r : nat) (lv' : list level) (b' : txb) : Prop := {
  sr_sinv : sinv lv' b' ∅;
  sr_space : space (c_pageSize c) rest lv' b';
  sr_keeps : keeps b b';
  sr_framed : framed b b';
  sr_cont : cont lv' = cont lv;
  sr_length : (length lv' <= length lv + n)%nat;
  sr_arity : arity lv None -> arity lv' None;
  sr_root : exists id o, is_root lv' id /\ 1 < id < t_hwm b' /\ t_heap b' !! r = Some o /\ o_parent o = None /\ n_pgid (o_node o) = id;
  sr_up : forall k, (n <= k)%nat -> node_root k q b' = Ret r;
  sr_other : forall x, x <> q -> is_Some (t_heap b !! x) -> t_heap b' !! x = t_heap b !! x
}.

Lemma spill_root_single c R rest A id es b q o n : config_ok c -> let lv := A ++ [[(id, es)]] in
  roomy c R lv b {[id := q]} -> sinv lv b {[id := q]} -> space (c_pageSize c) rest lv b -> t_heap b !! q = Some o ->
  (splitTwo (c_pageSize c) (c_fill c) (o_node o)).2 = None -> forall w fuel,
  mmap_fails c R (b ← node_write c q b; spill_up w fuel c q b) \/
  exists lv' b' r, (b ← node_write c q b; spill_up w fuel c q b) = Ret b' /\ spilled_root c rest lv b q n r lv' b'.
Proof.
  intros Hc lv Hro S Hsp Ho Hs w fuel.
  destruct (root_single_ok c rest Hc A id es b q o S Hsp Ho R Hro Hs) as [[E Hf]|(id' & b' & o' & E & S' & Hsp' & K & F & Hid & Ho' & Hpar & Epg & Hoth)].
  { left. split; [by rewrite E|done]. }
  right. rewrite E. cbn [mbind outcome_bind]. unfold spill_up. rewrite (get_Some _ _ _ Ho'). cbn [mbind outcome_bind]. rewrite Hpar.
  exists (A ++ [[(id', es)]]), b', q. split; [done|]. split; try done.
  - unfold lv. by destruct A.
  - unfold lv. rewrite !length_app. cbn. lia.
  - by apply single_arity.
  - exists id', o'. split; [exists es; by rewrite last_snoc|done].
  - intros [|k] _; cbn [node_root]; rewrite (get_Some _ _ _ Ho'); cbn [mbind outcome_bind]; by rewrite Hpar.
  - intros x Hx _. by apply Hoth.
Qed.

(** The turn of a new root [pp], whose children [q] and others are written. *)
Lemma spill_root_next c RM rest w fuel A id es b q o news qs pp b' n : config_ok c -> let lv := A ++ [[(id, es)]] in
  roomy c RM lv b {[id := q]} -> sinv lv b {[id := q]} -> space (c_pageSize c) rest lv b -> t_heap b !! q = Some o -> (length (cont lv) <= w)%nat ->
  root_pieces c rest A es b q news qs pp b' ->
  (forall b1 o1, roomy c RM (grown A 0 news) b1 {[0 := pp]} -> sinv (grown A 0 news) b1 {[0 := pp]} -> space (c_pageSize c) rest (grown A 0 news) b1 -> t_heap b1 !! pp = Some o1 ->
    mmap_fails c RM (b ← node_write c pp b1; spill_up w fuel c pp b) \/
    exists lv' b2 r, (b ← node_write c pp b1; spill_up w fuel c pp b) = Ret b2 /\ spilled_root c rest (grown A 0 news) b1 pp n r lv' b2) ->
  mmap_fails c RM (spill_up w (S fuel) c q b') \/
  exists lv' b2 r, spill_up w (S fuel) c q b' = Ret b2 /\ spilled_root c rest lv b q (S n) r lv' b2.
Proof.
  intros Hc lv Hro S Hsp Ho Hw R IH. destruct (rp_linked _ _ _ _ _ _ _ _ _ _ R) as (oq & Hoq & Hpar). destruct (rp_fresh _ _ _ _ _ _ _ _ _ _ R) as [Hf1 Hf2].
  pose proof (rp_parent _ _ _ _ _ _ _ _ _ _ R) as Hpp. assert (Hne : q <> pp) by (intros ->; congruence).
  set (b1 := set q (o_setChildren [] oq) b'). assert (Hwq : written b1 q).
  { destruct (rp_written _ _ _ _ _ _ _ _ _ _ R q ltac:(by left)) as (oq' & Hoq' & Hs & Hi). rewrite Hoq in Hoq'. injection Hoq' as <-.
    exists (o_setChildren [] oq). split; [unfold b1; cbn; apply lookup_insert_eq|done]. }
  assert (S1 : sinv (grown A 0 news) b1 {[0 := pp]}).
  { apply (sinv_heap _ b'); [by eapply grown_sinv|done| |].
    - intros x Hx. destruct (decide (x = q)) as [->|Hxq]; [done|]. destruct Hx as (ox & Hox & Hr). exists ox. split; [|done].
      unfold b1. by rewrite heap_set_ne.
    - intros x r Hr. apply lookup_singleton_Some in Hr as [_ <-]. unfold b1. by rewrite heap_set_ne. }
  assert (Hsp1 : space (c_pageSize c) rest (grown A 0 news) b1).
  { apply (space_same _ _ _ b'); try done. by eapply grown_space. }
  destruct (root_grown_ok c rest A id es b q S Hsp news qs pp b' R) as (_ & _ & Ec). fold lv in Ec.
  assert (Hpp1 : t_heap b1 !! pp = Some (mkNobj (set_inodes (up_inode <$> news) node0) None (q :: qs))) by (unfold b1; by rewrite heap_set_ne).
  set (po := mkNobj _ _ _) in Hpp1. destruct (spill_kids_done c rest w (node_spill w fuel c) (A ++ [news]) 0 (up_inode <$> news) b1 pp po) as (l & Ek & S2);
    [intros b0 ch; apply node_spill_skip|exact S1|exact Hsp1|exact Hpp1|by fold (grown A 0 news); rewrite Ec|].
  set (b2 := set pp (o_setChildren [] po) (set pp (o_setChildren l po) b1)) in *.
  assert (Hb2 : forall x, x <> pp -> x <> q -> t_heap b2 !! x = t_heap b' !! x).
  { intros x H1 H2. unfold b2, b1. by rewrite !heap_set_ne by done. }
  assert (Hq2 : t_heap b2 !! q = Some (o_setChildren [] oq)) by (unfold b2; rewrite !heap_set_ne by done; unfold b1; cbn; apply lookup_insert_eq).
  assert (Hp2 : t_heap b2 !! pp = Some (o_setChildren [] po)) by (unfold b2; cbn; apply lookup_insert_eq).
  unfold spill_up. rewrite (get_Some _ _ _ Hoq). cbn [mbind outcome_bind]. rewrite Hpar, (get_Some _ _ _ Hpp). cbn [mbind outcome_bind o_node set_inodes node0 n_pgid Z.eqb].
  rewrite (update_Some _ _ _ _ Hoq). cbn [mbind outcome_bind]. fold b1. rewrite (node_spill_eq w fuel c pp b1 po Hpp1 eq_refl), Ek. cbn [mbind outcome_bind].
  assert (Hro2 : roomy c RM (grown A 0 news) b2 {[0 := pp]}).
  { destruct (grown_roomy c rest A id es b q S Hsp RM Hro news qs pp b' R). by split. }
  destruct (IH b2 (o_setChildren [] po) Hro2 S2) as [Hf|(lv' & b3 & r & E & [Q1 Q2 Q3 Q4 Q5 Q10 Q6 Q7 Q8 Q9])]; [by apply (space_same _ _ _ b1)|exact Hp2|by left|right].
  exists lv', b3, r. split; [done|]. pose proof (rp_wrote _ _ _ _ _ _ _ _ _ _ R) as W. split; try done.
  - apply (keeps_trans _ b2); [|done]. destruct (wa_keeps _ _ _ _ _ _ _ W). by split.
  - apply (framed_trans _ b2); [|done]. exact (wa_frame _ _ _ _ _ _ _ W).
  - by rewrite Q5.
  - assert (El : length (grown A 0 news) = Datatypes.S (length lv)) by (unfold grown, lv; rewrite !length_app; cbn; lia). lia.
  - intros Ha. apply Q6. by eapply grown_arity.
  - intros [|k] Hk; [lia|]. cbn [node_root]. rewrite (get_Some q b3 (o_setChildren [] oq)); [|by rewrite Q9; [|done|eauto]].
    cbn [mbind outcome_bind o_setChildren o_parent]. rewrite Hpar. apply Q8. lia.
  - intros x Hx Hs. assert (Hxp : x <> pp) by (intros ->; rewrite Hf1 in Hs; by destruct Hs).
    assert (Hxq : x ∉ q :: qs). { intros [?|Hin]%elem_of_cons; [done|]. rewrite (Hf2 x Hin) in Hs. by destruct Hs. }
    assert (E2 : t_heap b2 !! x = t_heap b !! x) by (rewrite Hb2 by done; by apply (rp_other _ _ _ _ _ _ _ _ _ _ R)).
    rewrite Q9; [done|done|by rewrite E2].
Qed.

(** The root and the new roots above it: each has at most half as many inodes as the last. *)
Lemma spill_root_ok' c R rest w n : config_ok c -> forall fuel A id es b q o, let lv := A ++ [[(id, es)]] in
  (length es <= n)%nat -> (n <= fuel)%nat -> roomy c R lv b {[id := q]} -> sinv lv b {[id := q]} -> space (c_pageSize c) rest lv b -> t_heap b !! q = Some o ->
  (length (cont lv) <= w)%nat ->
  mmap_fails c R (b ← node_write c q b; spill_up w fuel c q b) \/
  exists lv' b' r, (b ← node_write c q b; spill_up w fuel c q b) = Ret b' /\ spilled_root c rest lv b q n r lv' b'.
Proof.
  intros Hc. induction n as [|n IH]; intros fuel A id es b q o lv Hn Hf Hro S Hsp Ho Hw.
  all: destruct (decide ((splitTwo (c_pageSize c) (c_fill c) (o_node o)).2 = None)) as [Hs|Hs]; [by eapply spill_root_single|].
  all: destruct (root_split_run c rest Hc A id es b q o S Hsp Ho R Hro Hs) as [[E Hm]|(news & qs & pp & b' & E & RP)];
    [left; split; [by rewrite E|done]|]; pose proof (pieces_half _ _ _ _ _ _ _ _ _ _ RP) as Hh; pose proof (rp_many _ _ _ _ _ _ _ _ _ _ RP) as H2.
  - lia.
  - destruct fuel as [|fuel]; [lia|]. rewrite E. cbn [mbind outcome_bind].
    apply (spill_root_next c R rest w fuel A id es b q o news qs pp b' n Hc Hro S Hsp Ho Hw RP).
    intros b1 o1 Hro1 S1 Hsp1 Ho1. apply (IH fuel (A ++ [news]) 0 (up_inode <$> news) b1 pp o1); try done; [rewrite length_fmap; lia|lia|].
    destruct (root_grown_ok c rest A id es b q S Hsp news qs pp b' RP) as (_ & _ & Ec). fold (grown A 0 news). by rewrite Ec.
Qed.
