(* ===== verification/BoltUpdate.v ===== *)
(** Theorems on the updates of a bolt bucket: Put, Delete and Get act on the map of the
    bucket's items, and rebalance keeps that map; with an example bucket of three leaves. *)

From Stdlib Require Import ZArith Lia.
From stdpp Require Import base numbers option list sorting gmap fin_sets.
From S2P Require Import Prelude GoSort GoBytes BoltFreelist BoltNode BoltCursor BoltTx BoltLevels BoltBucket BoltRebalance.
#[local] Open Scope Z_scope.

(** ** An example bucket *)

Module Bucket.

Definition page_of (leaf : bool) (id : Z) (es : list inode) : page :=
  match write (mkNode leaf false false None id es) (BoltNode.mkPage id 0 0 0 (replicate 112 0)) with
  | Ret p => p
  | _ => BoltNode.mkPage 0 0 0 0 []
  end.

Definition item (k : Z) : inode := mkInode 0 0 [k] [k; k].
Definition nested (k : Z) : inode := mkInode bucketLeafFlag 0 [k] [0].
Definition child (k id : Z) : inode := mkInode 0 id [k] [].

Definition leaf3 : list inode := [item 1; item 3].
Definition leaf4 : list inode := [item 5; item 7].
Definition leaf5 : list inode := [item 9; nested 11].
Definition root2 : list inode := [child 1 3; child 5 4; child 9 5].

Definition levels : list level := [[(3, leaf3); (4, leaf4); (5, leaf5)]; [(2, root2)]].

Definition pages : gmap Z page :=
  {[3 := page_of true 3 leaf3; 4 := page_of true 4 leaf4; 5 := page_of true 5 leaf5; 2 := page_of false 2 root2]}.

(** The pages 2 to 5 of a file of ten pages; page 6 is another bucket's. *)
Definition tx : txb :=
  mkTxb 2 None None ∅ ∅ true true pages 10 (mkFL [7] ∅ {[7]}) 32768.

Lemma levels_entry d id es : entry levels d id es -> (d = 0%nat /\ (id, es) ∈ [(3, leaf3); (4, leaf4); (5, leaf5)]) \/ (d = 1%nat /\ id = 2 /\ es = root2).
Proof.
  intros (l & Hl & Hin). destruct d as [|[|d]]; [left|right|done].
  - injection Hl as <-. done.
  - injection Hl as <-. apply list_elem_of_singleton in Hin. by injection Hin as -> ->.
Qed.

Ltac cases_elem H :=
  repeat (apply elem_of_cons in H as [H|H]); [..|by apply elem_of_nil in H].

Lemma levels_bounded : bounded (items [(2, root2)]) [(3, leaf3); (4, leaf4); (5, leaf5)].
Proof.
  intros i n k Hi Hk. destruct i as [|[|[|i]]]; [..|done]; injection Hi as <-; cbn in Hk; cases_elem Hk; subst k;
    (split; [intros e H0 He; try lia; injection He as <-; by vm_compute|intros e He; try done; injection He as <-; by vm_compute]).
Qed.

Lemma levels_ok : lv_ok levels.
Proof.
  split.
  - by exists 2, root2.
  - intros d up lo Hlo Hup. destruct d as [|[|d]]; [|done|done]. injection Hlo as <-. injection Hup as <-.
    split; [done|exact levels_bounded].
  - intros d l Hl. destruct d as [|[|d]]; [..|done]; injection Hl as <-; unfold keys_sorted; repeat constructor.
  - apply (bool_decide_unpack _). by vm_compute.
Qed.

Lemma tx_reads d id es : entry levels d id es -> exists p, t_pages tx !! id = Some p /\ reads p (d =? 0)%nat id es /\ pg_id p = id /\ pg_overflow p = 0.
Proof.
  intros He. apply levels_entry in He as [[-> Hin]|(-> & -> & ->)].
  - cases_elem Hin; injection Hin as -> ->; (eexists; split; [reflexivity|]); (split; [split; by vm_compute|by vm_compute]).
  - eexists. split; [reflexivity|]. split; [split; by vm_compute|by vm_compute].
Qed.

Lemma levels_valid d id es : entry levels d id es -> Forall (item_valid (d =? 0)%nat) es.
Proof.
  intros He. apply levels_entry in He as [[-> Hin]|(-> & -> & ->)].
  - cases_elem Hin; injection Hin as -> ->; repeat constructor; by vm_compute.
  - repeat constructor; by vm_compute.
Qed.

Lemma tx_inv : inv levels tx.
Proof.
  split; try done.
  - exact levels_ok.
  - by exists root2.
  - intros d id es He _. destruct (tx_reads d id es He) as (p & Hp & Hr & _). exists p. split; [done|]. split; [done|].
    intros P ps e (HP & Hin & Hid). apply levels_entry in HP as [[? _]|(Ed & -> & ->)]; [done|]. injection Ed as ->.
    apply levels_entry in He as [[_ He]|[? _]]; [|done]. unfold root2 in Hin.
    cases_elem Hin; subst e; cbn in Hid; subst id; cases_elem He; (discriminate He || (injection He as ->; done)).
  - exact levels_valid.
Qed.

Lemma tx_ready : ready levels tx.
Proof.
  split.
  - exact tx_inv.
  - intros d id es He. apply levels_entry in He as [[? _]|(_ & _ & ->)]; [done|]. rewrite decide_False by done. cbn. lia.
  - intros d lo i n e Hlo Hi He. destruct d as [|d]; [|by destruct d]. done.
  - intros id He _. apply levels_entry in He as [[_ He]|[? _]]; [|done]. cases_elem He; done.
  - done.
Qed.

Lemma tx_space : space 128 [6] levels tx.
Proof.
  split.
  - apply (fl_ok_seq 7 1); lia.
  - intros id Hid _. apply elem_of_level_ids in Hid as (d & es & He). destruct (tx_reads d id es He) as (p & Hp & _ & Ei & Eo).
    exists p. split; [done|]. split; [done|lia].
  - apply (bool_decide_unpack _). by vm_compute.
  - assert (E : owned (ids levels) tx ++ [6] ++ listed tx = [3; 4; 5; 2; 6; 7]) by (by vm_compute). rewrite E.
    intros x Hx. cases_elem Hx; subst x; by vm_compute.
  - by vm_compute.
  - lia.
Qed.
End Bucket.

(** ** Properties *)

(** C13: the updates of a bucket act on the map of its items. In a bucket whose tree is in
    order, with any of its nodes in memory and the others on pages: Get returns the value of
    a key, or nothing for a key that is not there or is a nested bucket's. Put refuses an
    empty or overlong key, an overlong value and the key of a nested bucket; otherwise it
    maps the key to the value. Delete removes its key, if it is there; it fails with
    ErrIncompatibleValue only if a nested bucket is the first item at or after the key.
    Updates keep the tree in order and leave pages and freelist as they are. *)
Theorem bucket_updates_refine lv b key value fuel : ready lv b -> (length lv <= fuel)%nat ->
  Bucket_Get fuel key b = Ret (x ← bmap lv !! key; if is_bucket x then None else Some (in_value x)) /\
  Put fuel [] value b = Fail ErrKeyRequired /\
  (MaxKeySize < Z.of_nat (length key) -> Put fuel key value b = Fail ErrKeyTooLarge) /\
  (key <> [] -> Z.of_nat (length key) <= MaxKeySize -> MaxValueSize < Z.of_nat (length value) ->
     Put fuel key value b = Fail ErrValueTooLarge) /\
  (key <> [] -> Z.of_nat (length key) <= MaxKeySize -> Z.of_nat (length value) <= valueLimit ->
     if match bmap lv !! key with Some x => is_bucket x | None => false end
     then Put fuel key value b = Fail ErrIncompatibleValue
     else exists lv' b', Put fuel key value b = Ret b' /\ updated lv b lv' b' (<[key := mkInode 0 0 key value]> (bmap lv))) /\
  ((exists lv' b', Delete fuel key b = Ret b' /\ updated lv b lv' b' (delete key (bmap lv)) /\
      (forall x, bmap lv !! key = Some x -> is_bucket x = false)) \/
   (Delete fuel key b = Fail ErrIncompatibleValue /\
      exists x, x ∈ cont lv /\ is_bucket x = true /\ ~ key_lt (in_key x) key /\
        forall y, y ∈ cont lv -> ~ key_lt (in_key y) key -> ~ key_lt (in_key y) (in_key x))).
Proof.
  intros R Hf. destruct (in_open _ _ (ry_inv _ _ R)) as [Ho Hw]. split_and!.
  - by apply Bucket_Get_ok.
  - unfold Put. by rewrite Ho, Hw.
  - intros Hl. unfold Put. rewrite Ho, Hw. cbn [negb].
    destruct (Nat.eqb_spec (length key) 0) as [E|_]; [rewrite E in Hl; done|].
    by destruct (Z.ltb_spec MaxKeySize (Z.of_nat (length key))); [|lia].
  - intros Hk Hl Hv. unfold Put. rewrite Ho, Hw, key_nonempty by done. cbn [negb].
    destruct (Z.ltb_spec MaxKeySize (Z.of_nat (length key))); [lia|].
    by destruct (Z.ltb_spec MaxValueSize (Z.of_nat (length value))); [|lia].
  - intros Hk Hl Hv. by apply Put_ok.
  - by apply Delete_ok.
Qed.

Lemma bucket_updates_refine_witness : ready Bucket.levels Bucket.tx /\ Bucket_Get 2 [5] Bucket.tx = Ret (Some [5; 5]).
Proof.
  split; [exact Bucket.tx_ready|].
  destruct (bucket_updates_refine Bucket.levels Bucket.tx [5] [] 2 Bucket.tx_ready ltac:(cbn; lia)) as [E _].
  rewrite E. by vm_compute.
Defined.

(** C15: Delete of a key that is not there can fail, where the comment on it says that nothing
    is done and a nil error is returned. In any bucket, a key that lies between two
    neighbouring items of a leaf, the second a nested bucket, is not there and its Delete
    fails with ErrIncompatibleValue; and that error for a key that is not there always
    comes so, from a nested bucket that is the first item after the key in a leaf. *)
Theorem delete_absent_fails lv b key fuel : ready lv b -> (length lv <= fuel)%nat ->
  (forall id A y x B, entry lv 0 id (A ++ y :: x :: B) -> key_lt (in_key y) key -> key_lt key (in_key x) ->
     is_bucket x = true -> bmap lv !! key = None /\ Delete fuel key b = Fail ErrIncompatibleValue) /\
  (Delete fuel key b = Fail ErrIncompatibleValue -> bmap lv !! key = None ->
     exists id A x B, entry lv 0 id (A ++ x :: B) /\ is_bucket x = true /\
       (forall y, y ∈ A -> key_lt (in_key y) key) /\ key_lt key (in_key x)).
Proof.
  intros R Hf. pose proof (ry_inv _ _ R) as H. pose proof (in_lv _ _ H) as Hlv.
  destruct (Delete_refused lv b key fuel R Hf) as (i & id & es & l0 & pre & post & F & Hd).
  destruct (found_split lv key i id es l0 pre post Hlv F) as (A & m & B & Ees & Hlb & HA & HB & Hm & Ec & _).
  pose proof (found_lookup lv b key R _ m _ Ec HA HB Hm) as Em. rewrite (found_head key es A m B Ees Hlb) in Hd. split.
  - intros id' A' y x B' He Hy Hx Hbk. pose proof (found_between _ _ _ _ _ _ _ _ _ _ _ _ _ _ H F He Hy Hx) as E.
    assert (He' : entry lv 0 id es).
    { exists l0. split; [apply (fd_level _ _ _ _ _ _ _ _ F)|]. eapply list_elem_of_lookup_2, (fd_node _ _ _ _ _ _ _ _ F). }
    pose proof (entry_sorted _ _ _ _ Hlv He') as Hs.
    pose proof (lower_bound_between es A' y x B' key E Hs Hy Hx) as H1.
    rewrite (found_head key es A m B Ees Hlb) in H1. destruct m as [z|].
    { exfalso. cbn in H1. injection H1 as ->. rewrite (Hm x eq_refl) in Hx. by apply (key_lt_irrefl key). }
    split; [done|]. apply Hd. by exists x.
  - intros E Hn. rewrite Hn in Em. subst m. apply Hd in E as (x & Ex & Hbk). cbn [option_list option_rect app] in Ees, Ex.
    destruct B as [|z B]; [done|]. injection Ex as ->. exists id, A, x, B. split; [|split; [done|]].
    + exists l0. split; [apply (fd_level _ _ _ _ _ _ _ _ F)|]. rewrite <- Ees. eapply list_elem_of_lookup_2, (fd_node _ _ _ _ _ _ _ _ F).
    + split; [intros y Hy; apply HA; set_solver|apply HB; set_solver].
Qed.

(** The last leaf has items 9 and 11, a nested bucket: deleting the absent key 10 fails. *)
Lemma delete_absent_fails_witness :
  ready Bucket.levels Bucket.tx /\ bmap Bucket.levels !! [10] = None /\
  Delete 2 [10] Bucket.tx = Fail ErrIncompatibleValue.
Proof.
  split; [exact Bucket.tx_ready|].
  destruct (delete_absent_fails Bucket.levels Bucket.tx [10] 2 Bucket.tx_ready ltac:(cbn; lia)) as [H _].
  apply (H 5 [] (Bucket.item 9) (Bucket.nested 11) []); [|by vm_compute..].
  exists [(3, Bucket.leaf3); (4, Bucket.leaf4); (5, Bucket.leaf5)]. split; [done|]. right. right. by left.
Defined.

(** C14: Bucket.rebalance keeps the bucket. Whatever the order in which Go ranges over the
    nodes in memory, it ends without error or panic; the items are the same and in the same
    order, and the tree is still in order, with the links between the nodes in memory and
    the pages of the others; each branch has two children or more, and no leaf is empty but
    a root. No page is lost: the pages in use before, overflow pages included, are the
    ones in use after and those that are now pending in the freelist besides the ones that
    were; the free ones are the same, and no page is both in use and listed. *)
Theorem rebalance_keeps pageSize rest c fuel order lv b :
  ready lv b -> space pageSize rest lv b -> (length lv <= S fuel)%nat -> (forall id, is_Some (t_nodes b !! id) -> id ∈ order) ->
  exists lv' b', bucket_rebalance fuel c order b = Ret b' /\ inv lv' b' /\ bmap lv' = bmap lv /\ cont lv' = cont lv /\
    arity lv' None /\ (forall id, entry lv' 0 id [] -> length lv' = 1%nat) /\ space pageSize rest lv' b' /\ kept b b' /\
    owned (ids lv) b ++ pend (t_free b) ≡ₚ owned (ids lv') b' ++ pend (t_free b').
Proof.
  intros R Hs Hf Hc. destruct (bucket_rebalance_ok pageSize rest c fuel order lv b R Hs Hf Hc) as (lv' & b' & E & ? & ? & ? & Ec & K & _ & ? & _ & Hac).
  exists lv', b'. split; [done|]. split; [done|]. split; [unfold bmap; by rewrite Ec|]. split; [done|]. do 4 (split; [done|]).
  destruct K as (_ & _ & _ & _ & _ & _ & _ & Ef). unfold accounted, listed in Hac. rewrite Ef in Hac.
  rewrite !(Permutation_app_swap_app _ (BoltFreelist.ids _)) in Hac. by apply Permutation_app_inv_l in Hac.
Qed.

(** After two deletions the first leaf is empty. *)
Lemma rebalance_keeps_witness :
  let c := mkConfig 128 1 half 32768 (fun _ => true) in
  exists b2, (b ← Delete 2 [1] Bucket.tx; Delete 2 [3] b) = Ret b2 /\
    exists lv' b', bucket_rebalance 2 c (elements (dom (t_nodes b2))) b2 = Ret b' /\
      bmap lv' = delete [3] (delete [1] (bmap Bucket.levels)) /\ space 128 [6] lv' b' /\
      [3; 4; 5; 2] ≡ₚ owned (ids lv') b' ++ pend (t_free b').
Proof.
  intros c. assert (Hrun : match (b ← Delete 2 [1] Bucket.tx; Delete 2 [3] b) with Ret _ => true | _ => false end = true) by (by vm_compute).
  destruct (Delete_ok Bucket.levels Bucket.tx [1] 2 Bucket.tx_ready ltac:(cbn; lia)) as [(lv1 & b1 & E1 & [R1 S1 L1 I1 M1] & _)|[E1 _]].
  2: { exfalso. rewrite E1 in Hrun. clear E1. discriminate Hrun. }
  rewrite E1 in Hrun |- *. cbn [mbind outcome_bind] in *.
  destruct (Delete_ok lv1 b1 [3] 2 R1 ltac:(rewrite L1; cbn; lia)) as [(lv2 & b2 & E2 & [R2 S2 L2 I2 M2] & _)|[E2 _]].
  2: { exfalso. rewrite E2 in Hrun. clear E2. discriminate Hrun. }
  exists b2. split; [done|].
  assert (Hs : space 128 [6] lv2 b2).
  { destruct S1 as (_ & _ & _ & _ & P1 & W1 & F1 & D1), S2 as (_ & _ & _ & _ & P2 & W2 & F2 & D2).
    unfold space. rewrite I2, I1. apply (pages_same _ _ _ Bucket.tx); [congruence..|exact Bucket.tx_space]. }
  destruct (rebalance_keeps 128 [6] c 2 (elements (dom (t_nodes b2))) lv2 b2 R2 Hs) as (lv' & b' & E & _ & Em & _ & _ & _ & S' & _ & Hac).
  - rewrite L2, L1. cbn. lia.
  - intros id Hid. by apply elem_of_elements, elem_of_dom.
  - exists lv', b'. split; [done|]. split; [by rewrite Em, M2, M1|]. split; [done|].
    rewrite <- Hac. destruct S1 as (_ & _ & _ & _ & P1 & _ & F1 & _), S2 as (_ & _ & _ & _ & P2 & _ & F2 & _).
    rewrite I2, I1, F2, F1. unfold owned, span. rewrite P2, P1. by vm_compute.
Defined.
