(* ===== verification/BoltCommit.v ===== *)
(** The commit of a bolt bucket: rebalance and spill, and the bucket as the next transaction
    opens it, with theorems and an example. *)

From Stdlib Require Import ZArith Lia.
From stdpp Require Import base numbers option list sorting gmap fin_sets.
From S2P Require Import Prelude GoSort GoBytes BoltFreelist BoltNode BoltCursor BoltTx BoltLevels BoltSep BoltBucket BoltRoom BoltRebalance BoltSpill BoltSpillTree BoltSpillRun BoltUpdate.
#[local] Open Scope Z_scope.

(** ** From rebalance to spill *)

Lemma dirty_count lv b d id es o : dirty lv b d id es o -> (length (o_children o) <= length es)%nat.
Proof.
  intros D. assert (Hle : (length (o_children o) <= length (kids b es))%nat).
  { apply submseteq_length, NoDup_submseteq; [apply (dr_nodup _ _ _ _ _ _ D)|]. intros x Hx. apply (dr_children _ _ _ _ _ _ D) in Hx as [_ Hx].
    by apply elem_of_kids. }
  unfold kids in Hle. transitivity (length (omap (fun e => t_nodes b !! in_pgid e) es)); [done|].
  clear. induction es as [|e es IH]; [done|]. cbn. destruct (t_nodes b !! in_pgid e); cbn; lia.
Qed.

(** The root of a bucket that has nodes in memory is one of them. *)
Lemma root_in_memory lv b x r : inv lv b -> t_nodes b !! x = Some r -> is_Some (t_nodes b !! t_root b).
Proof.
  intros H Hx. destruct (in_dirty _ _ H _ _ Hx) as (k & xs & _ & He & _). pose proof (in_lv _ _ H) as Hlv.
  remember (length lv - 1 - k)%nat as m eqn:Em. revert k x xs r Hx He Em. induction m as [|m IH]; intros k x xs r Hx He Em.
  - assert (Ek : k = (length lv - 1)%nat). { destruct He as (l & Hl & _). apply lookup_lt_Some in Hl. lia. }
    rewrite Ek in He. assert (Hr : is_root lv x) by (apply is_root_entry; eauto).
    rewrite (is_root_unique _ _ _ (in_root _ _ H) Hr). eauto.
  - destruct (has_parent lv k x xs Hlv He) as (P & ps & e & Hc); [lia|]. destruct (parent_dirty _ _ _ _ _ _ _ _ H Hc Hx) as [pr Hp].
    eapply (IH (S k) P ps pr Hp (proj1 Hc)). lia.
Qed.

Lemma inv_sinv lv b : inv lv b -> sep lv -> arity lv None -> (forall id, entry lv 0 id [] -> length lv = 1%nat) ->
  is_Some (t_rootNode b) -> sinv lv b (t_nodes b).
Proof.
  intros H Hs Ha Hem Hr. pose proof (in_lv _ _ H) as Hlv. rewrite (in_rootNode _ _ H) in Hr. split; try done.
  - intros Hl k id es He ->. destruct k as [|k]; [specialize (Hem id He); lia|].
    specialize (Ha k id [] He). cbn in Ha. destruct (decide _); lia.
  - intros id q Hq. destruct (in_dirty _ _ H _ _ Hq) as (d & es & o & He & Ho & D). exists d, es, o. split; [done|]. split; [done|].
    pose proof (dirty_count _ _ _ _ _ _ D) as Hn. destruct D as [D1 D2 D3 D4 D5 D6 D7]. split; try done.
    + intros c Hc. right. by apply D7.
    + intros e c Hd Hin Hc. apply D7. split; [done|by exists e].
  - intros d id es He Hid. destruct (in_clean _ _ H _ _ _ He Hid) as (p & Hp & Hr2 & Hk).
    assert (H0 : t_root b <> 0 /\ t_page b = None).
    { pose proof (in_inline _ _ H) as Hi. destruct (Z.eqb_spec (t_root b) 0) as [E|]; [|done]. exfalso. destruct Hi as [_ Hlen].
      destruct He as (l & Hl & Hin). pose proof (lookup_lt_Some _ _ _ Hl). assert (d = (length lv - 1)%nat) as -> by lia.
      assert (Hroot : is_root lv id) by (apply is_root_entry; [done|]; exists es, l; done).
      rewrite (is_root_unique _ _ _ Hroot (in_root _ _ H)) in Hid. rewrite Hid in Hr. by destruct Hr. }
    split; [|done|].
    + exists p. unfold src in Hp. by rewrite (proj2 H0) in Hp.
    + destruct (decide (length lv = 1%nat)) as [Hlen|Hlen].
      * intros ->. destruct He as (l & Hl & Hin). pose proof (lookup_lt_Some _ _ _ Hl). assert (d = (length lv - 1)%nat) as -> by lia.
        assert (Hroot : is_root lv 0) by (apply is_root_entry; [done|]; exists es, l; done).
        apply (proj1 H0). exact (is_root_unique lv _ _ (in_root _ _ H) Hroot).
      * eapply entry_nonzero; [exact H| |exact He]. pose proof (lv_height _ Hlv). lia.
  - apply (in_items _ _ H).
Qed.

(** ** The next transaction *)

(** A bucket opened from the page, or the header, that a transaction left. *)
Definition reopen (b : txb) : txb :=
  mkTxb (t_root b) (if t_root b =? 0 then t_page b else None) None ∅ ∅ true true (t_pages b) (t_hwm b) (t_free b) (t_datasz b).

Lemma first_exact lv : lv_ok lv ->
  (forall d id es P ps e, entry lv d id es -> child_of lv d P ps e id -> in_key <$> head es = Some (in_key e)) -> exact_keys lv.
Proof.
  intros Hlv Hf d lo i [id es] e Hlo Hi Hup. unfold ups in Hup. destruct (lv !! S (S d)) as [up|] eqn:Eup; [|done].
  destruct (lo_above _ Hlv _ _ _ Hlo Eup) as [Hids _].
  assert (Eid : in_pgid e = id).
  { assert (H : (in_pgid <$> items up) !! i = Some (in_pgid e)) by (by rewrite list_lookup_fmap, Hup).
    rewrite Hids, list_lookup_fmap, Hi in H. by injection H. }
  assert (He : e ∈ items up) by (by eapply list_elem_of_lookup_2). apply elem_of_items in He as ([P ps] & HP & Hin).
  apply (Hf (S d) id es P ps e).
  - exists lo. split; [done|by eapply list_elem_of_lookup_2].
  - split; [by exists up|done].
Qed.

(** A bucket whose nodes are all on pages is ready again. *)
Lemma reopen_ready lv b : lv_ok lv -> is_root lv (t_root b) ->
  (if t_root b =? 0 then is_Some (t_page b) /\ length lv = 1%nat else True) ->
  (forall d id es, entry lv d id es -> exists p, src (reopen b) id = Some p /\ reads p (d =? 0)%nat id es) ->
  (forall d id es P ps e, entry lv d id es -> child_of lv d P ps e id -> in_key <$> head es = Some (in_key e)) ->
  (forall d id es, entry lv d id es -> Forall (item_valid (d =? 0)%nat) es) -> arity lv None ->
  (forall id, entry lv 0 id [] -> length lv = 1%nat) -> 0 < t_hwm b -> ready lv (reopen b).
Proof.
  intros Hlv Hr Hi Hp Hk Hv Ha Hem Hh. split; try done.
  - split; try done.
    + cbn [reopen t_root t_page]. by destruct (t_root b =? 0).
    + intros d id es He _. destruct (Hp d id es He) as (p & Hs & Hrd). exists p. split; [done|]. split; [done|].
      intros P ps e Hc. by eapply Hk.
  - by apply first_exact.
  - intros id Hid Hl. specialize (Hem id Hid). lia.
Qed.

(** ** spill *)

Lemma top_split lv d id es : lv_ok lv -> entry lv d id es -> S d = length lv -> exists A, lv = A ++ [[(id, es)]] /\ length A = d.
Proof.
  intros Hlv (l & Hl & Hin) Hd. pose proof (top_entry lv d l id es Hlv Hl Hd Hin) as ->. exists (take d lv).
  split; [|rewrite length_take; lia]. rewrite <- (take_drop_middle lv d _ Hl) at 1. by rewrite drop_ge by lia.
Qed.

(** A root without children to write is the only node to write. *)
Lemma only_root A id es b U q : let lv := A ++ [[(id, es)]] in sinv lv b U -> U !! id = Some q ->
  (forall e, (0 < length A)%nat -> e ∈ es -> U !! in_pgid e = None) -> U = {[id := q]}.
Proof.
  intros lv S Hq Hno. pose proof (si_lv _ _ _ S) as Hlv. pose proof (root_entry_A A id es) as Hroot. fold lv in Hroot.
  assert (Hlen : length lv = Datatypes.S (length A)) by (unfold lv; rewrite length_app; cbn; lia).
  assert (Hall : forall m k x xs r, (k + m = length A)%nat -> entry lv k x xs -> U !! x = Some r -> x = id).
  { induction m as [|m IH]; intros k x xs r Hk He Hr.
    - destruct He as (l & Hl & Hin). destruct Hroot as (l' & Hl' & Hin'). assert (k = length A) as -> by lia. rewrite Hl in Hl'. injection Hl' as <-.
      rewrite (top_entry lv _ l id es Hlv Hl ltac:(lia) Hin') in Hin. apply list_elem_of_singleton in Hin. by injection Hin.
    - destruct (has_parent lv k x xs Hlv He) as (P & ps & e & Hc); [lia|]. destruct (unsaved_parent lv b U S _ _ _ _ _ _ Hc Hr) as [pr Hp].
      pose proof (IH (Datatypes.S k) P ps pr ltac:(lia) (proj1 Hc) Hp) as ->. destruct Hc as (HP & Hin & Hx).
      destruct (entry_inj _ _ _ _ _ _ Hlv HP Hroot) as [_ ->]. rewrite <- Hx, (Hno e) in Hr by (done || lia). done. }
  apply map_eq. intros x. destruct (decide (x = id)) as [->|Hx]; [by rewrite lookup_singleton_eq|].
  rewrite lookup_singleton_ne by done. destruct (U !! x) as [r|] eqn:Hr; [|done]. exfalso.
  destruct (si_unsaved _ _ _ S _ _ Hr) as (k & xs & _ & He & _). apply Hx. apply (Hall (length A - k)%nat k x xs r); try done.
  destruct He as (l & Hl & _). apply lookup_lt_Some in Hl. lia.
Qed.

Section spill.
Context (c : config) (rest : list Z) (Hc : config_ok c) (lv : list level) (b : txb).
Context (H : inv lv b) (Hs : sep lv) (Ha : arity lv None) (Hem : forall id, entry lv 0 id [] -> length lv = 1%nat).
Context (Hsp : space (c_pageSize c) rest lv b) (R : room) (Hro : roomy c R lv b (t_nodes b)).
Context (w fuel : nat) (Hw : (length (cont lv) <= w)%nat) (Hf : (length lv + length (cont lv) <= fuel)%nat).

(** The state and the bucket that spill leaves. *)
Record spilled_to (lv' : list level) (b' : txb) : Prop := {
  st_sinv : sinv lv' b' ∅;
  st_space : space (c_pageSize c) rest lv' b';
  st_keeps : keeps b b';
  st_framed : framed b b';
  st_cont : cont lv' = cont lv;
  st_length : (length lv' <= length lv + length (cont lv))%nat;
  st_arity : arity lv' None
}.

Lemma node_spill_root q : t_nodes b !! t_root b = Some q ->
  mmap_fails c R (node_spill w (S fuel) c q b) \/
  exists lv' b' r id o, node_spill w (S fuel) c q b = Ret b' /\ spilled_to lv' b' /\ node_root (S fuel) q b' = Ret r /\
    is_root lv' id /\ 1 < id < t_hwm b' /\ t_heap b' !! r = Some o /\ n_pgid (o_node o) = id.
Proof.
  intros Hq. assert (S0 : sinv lv b (t_nodes b)) by (apply inv_sinv; try done; rewrite (in_rootNode _ _ H); eauto).
  pose proof (in_lv _ _ H) as Hlv. destruct (root_entry lv (t_root b) (in_root _ _ H)) as [es He]. pose proof (lv_height _ Hlv) as Hh.
  set (D := (length lv - 1)%nat) in *. destruct (unsaved_at lv b _ S0 D _ es q Hq He) as (o & _ & Ho & Du).
  rewrite (node_spill_eq w fuel c q b o Ho (us_spilled _ _ _ _ _ _ _ Du)).
  destruct (spill_kids_ok c R rest w D (t_root b) q (node_spill w fuel c)) with (lv := lv) (b := b) (U := t_nodes b) (es := es)
    as [[E Hm]|(lv1 & b1 & U1 & es1 & E & A1 & Hq1 & He1 & Hno & _)]; try done.
  { intros lv2 b2 U2 es2 e ch S2 Hsp2 Hq2 He2 HD Hin Hch Hw2 Hro2. assert (exists d, D = S d) as [d Ed] by (exists (D - 1)%nat; lia).
    rewrite Ed in He2 |- *. destruct (has_child _ _ _ _ _ (si_lv _ _ _ S2) He2 Hin) as [xs Hxs].
    apply (node_spill_child c R rest w d Hc fuel lv2 b2 U2 (in_pgid e) xs ch (t_root b) es2 e); try done; [|lia].
    eapply entry_nonzero; [exact H| |exact He]. lia. }
  { intros b2 ch. apply node_spill_skip. }
  { left. split; [by rewrite E|done]. }
  rewrite E. cbn [mbind outcome_bind]. pose proof (ad_sinv _ _ _ _ _ _ _ _ _ A1) as S1.
  destruct (top_split lv1 D _ es1 (si_lv _ _ _ S1) He1) as (A & EA & HlenA); [rewrite (ad_length _ _ _ _ _ _ _ _ _ A1); lia|].
  pose proof (ad_space _ _ _ _ _ _ _ _ _ A1) as Hsp1. pose proof (ad_cont _ _ _ _ _ _ _ _ _ A1) as Ec1.
  pose proof (f_equal length EA) as Elen. pose proof (ad_roomy _ _ _ _ _ _ _ _ _ A1 R Hro) as Hro1. rewrite EA in S1, Hsp1, Ec1, Hro1.
  rewrite <- HlenA in Hno. pose proof (only_root A _ es1 b1 U1 q S1 Hq1 Hno) as EU. rewrite EU in S1, Hro1.
  destruct (unsaved_at _ b1 _ S1 (length A) _ es1 q (lookup_singleton_eq _ _) (root_entry_A A _ es1)) as (o1 & _ & Ho1 & _).
  assert (Hn : (length es1 <= length (cont lv))%nat) by (rewrite <- Ec1; by eapply entry_cont; [|apply root_entry_A]).
  destruct (spill_root_ok' c R rest w (length (cont lv)) Hc fuel A (t_root b) es1 b1 q o1 Hn ltac:(lia) Hro1 S1 Hsp1 Ho1 ltac:(by rewrite Ec1))
    as [Hm|(lv2 & b2 & r & E2 & [Q1 Q2 Q3 Q4 Q5 Q12 Q6 (id & o2 & Q7 & Q8 & Q9 & _ & Q10) Q11 _])]; [by left|right].
  exists lv2, b2, r, id, o2. split; [done|]. split; [|split; [apply Q11; lia|done]]. split; try done.
  - apply (keeps_trans _ b1); [apply (ad_keeps _ _ _ _ _ _ _ _ _ A1)|done].
  - apply (framed_trans _ b1); [apply (ad_framed _ _ _ _ _ _ _ _ _ A1)|done].
  - by rewrite Q5.
  - rewrite (ad_length _ _ _ _ _ _ _ _ _ A1) in Elen. lia.
  - apply Q6. rewrite <- EA. by apply (ad_arity _ _ _ _ _ _ _ _ _ A1).
Qed.

(** Bucket.spill: the bucket is on pages and ready for the next transaction. *)
Lemma bucket_spill_ok : mmap_fails c R (bucket_spill w (S fuel) c b) \/
  exists lv' b', bucket_spill w (S fuel) c b = Ret b' /\ ready lv' (reopen b') /\ cont lv' = cont lv /\
    space (c_pageSize c) rest lv' b' /\ keeps b b' /\ (length lv' <= length lv + length (cont lv))%nat.
Proof.
  unfold bucket_spill. destruct (t_rootNode b) as [q|] eqn:Er.
  - pose proof Er as Hq. rewrite (in_rootNode _ _ H) in Hq.
    destruct (node_spill_root q Hq) as [[E Hm]|(lv' & b' & r & id & o & E & [Q1 Q2 Q3 Q4 Q5 Q12 Q6] & Eroot & Hid & Hr & Ho & Hpg)].
    { left. split; [by rewrite E|done]. }
    right. rewrite E. cbn [mbind outcome_bind]. rewrite Eroot. cbn [mbind outcome_bind]. rewrite (get_Some _ _ _ Ho). cbn [mbind outcome_bind].
    rewrite Hpg. destruct (Z.leb_spec (t_hwm b') id); [lia|]. exists lv', (s_root id (Some r) b'). split; [done|]. split; [|split; [done|split; [|split; [|done]]]].
    + assert (Hid0 : (id =? 0) = false) by lia.
      apply reopen_ready; cbn [s_root t_root t_hwm]; try done; [apply (si_lv _ _ _ Q1)|by rewrite Hid0| | |apply (si_items _ _ _ Q1)| |lia].
      * intros d x xs He. destruct (sv_page _ _ _ _ _ (si_saved _ _ _ Q1 d x xs He (lookup_empty _))) as (p & Hp & Hrd).
        exists p. split; [|done]. unfold src. cbn. by rewrite Hid0.
      * intros d x xs P ps e He Hch. by apply (sv_key _ _ _ _ _ (si_saved _ _ _ Q1 d x xs He (lookup_empty _)) P ps).
      * intros x Hx. destruct (decide (1 < length lv')%nat) as [Hl|Hl]; [by pose proof (si_full _ _ _ Q1 Hl _ _ _ Hx)|].
        pose proof (lv_height _ (si_lv _ _ _ Q1)). lia.
    + by apply (space_same _ _ _ b').
    + destruct Q3 as [? ? ?]. by split.
  - right. exists lv, b. split; [done|]. split; [|split; [done|split; [done|split; [apply keeps_refl|lia]]]].
    assert (Hnone : forall x, t_nodes b !! x = None).
    { intros x. destruct (t_nodes b !! x) as [r|] eqn:Hx; [|done]. destruct (root_in_memory _ _ _ _ H Hx) as [y Hy].
      rewrite (in_rootNode _ _ H), Hy in Er. done. }
    pose proof (in_inline _ _ H) as Hi. apply reopen_ready; try done; try apply H.
    + by destruct (t_root b =? 0).
    + intros d x xs He. destruct (in_clean _ _ H d x xs He (Hnone x)) as (p & Hp & Hrd & _). exists p. split; [|done].
      unfold src in *. cbn. destruct (t_root b =? 0); [done|]. by rewrite Hi in Hp.
    + intros d x xs P ps e He Hch. destruct (in_clean _ _ H d x xs He (Hnone x)) as (p & _ & _ & Hk). by eapply Hk.
    + pose proof (sp_hwm _ _ _ _ Hsp). lia.
Qed.
End spill.

(** The room that a commit may take: from the end of the file and the map that there are. *)
Definition commit_room (c : config) (b : txb) (es : list inode) : room :=
  mkRoom (t_hwm b) (t_datasz b) ((t_hwm b + 1) * c_pageSize c + commit_bytes (c_pageSize c) es).

Lemma commit_roomy c rest lv b : config_ok c -> inv lv b -> arity lv None -> space (c_pageSize c) rest lv b ->
  roomy c (commit_room c b (cont lv)) lv b (t_nodes b).
Proof.
  intros [Hps _] H Ha Hsp. pose proof (sp_hwm _ _ _ _ Hsp) as Hh. assert (Hps0 : 0 <= c_pageSize c) by lia.
  pose proof (fresh_bytes_le _ Hps0 (t_hwm b) (concat lv)) as Hfr. split; cbn; try done; try lia.
  intros id q Hq. destruct (in_dirty _ _ H _ _ Hq) as (d & es & _ & He & _).
  destruct (decide (id = 0)) as [->|H0]; [lia|]. apply (in_use c rest (ids lv) b id Hsp); [|done].
  apply elem_of_level_ids. by exists d, es.
Qed.

(** Tx.Commit's part for a bucket. *)
Lemma bucket_commit_ok c rest w fuel order lv b : config_ok c -> ready lv b -> space (c_pageSize c) rest lv b ->
  (length (cont lv) <= w)%nat -> (length lv + length (cont lv) < fuel)%nat -> (forall id, is_Some (t_nodes b !! id) -> id ∈ order) ->
  mmap_fails c (commit_room c b (cont lv)) (bucket_commit w fuel c order b) \/
  exists lv' b', bucket_commit w fuel c order b = Ret b' /\ ready lv' (reopen b') /\ cont lv' = cont lv /\
    space (c_pageSize c) rest lv' b' /\ keeps b b' /\ (length lv' <= length lv + length (cont lv))%nat.
Proof.
  intros Hc R Hsp Hw Hf Hord. unfold bucket_commit.
  destruct (bucket_rebalance_ok (c_pageSize c) rest c fuel order lv b R Hsp ltac:(lia) Hord) as (lv1 & b1 & E & H1 & Hsp1 & Ha & Ec & K & Hl & Hem & Hs & _).
  rewrite E. cbn [mbind outcome_bind]. destruct fuel as [|fuel]; [lia|].
  assert (Ero : commit_room c b (cont lv) = commit_room c b1 (cont lv1)).
  { destruct K as (_ & _ & _ & _ & _ & Kh & Kd & _). unfold commit_room. by rewrite Kh, Kd, Ec. }
  rewrite Ero. destruct (bucket_spill_ok c rest Hc lv1 b1 H1 Hs Ha Hem Hsp1 _ (commit_roomy c rest lv1 b1 Hc H1 Ha Hsp1) w fuel) as [Hm|(lv' & b' & E2 & R' & Ec2 & Hsp2 & K2 & Hl2)];
    [by rewrite Ec|rewrite Ec; lia|by left|right].
  exists lv', b'. split; [done|]. split; [done|]. split; [by rewrite Ec2|]. split; [done|]. split; [|rewrite Ec in Hl2; lia].
  apply (keeps_trans _ b1); [|done]. destruct K as (_ & _ & _ & _ & Kp & Kh & Kd & Kf). split; [by rewrite Kp|by rewrite Kf|lia].
Qed.

(** ** A transaction *)

(** What a transaction does to a bucket. *)
Inductive bucket_op := OpPut (key value : list Z) | OpDelete (key : list Z).

Definition run_op (fuel : nat) (o : bucket_op) (b : txb) : outcome bolt_error txb :=
  match o with OpPut key value => Put fuel key value b | OpDelete key => Delete fuel key b end.

Fixpoint run_ops (fuel : nat) (l : list bucket_op) (b : txb) : outcome bolt_error txb :=
  match l with [] => Ret b | o :: l => b ← run_op fuel o b; run_ops fuel l b end.

(** What it means. *)
Definition op_map (m : gmap (list Z) inode) (o : bucket_op) : gmap (list Z) inode :=
  match o with OpPut key value => <[key := mkInode 0 0 key value]> m | OpDelete key => delete key m end.

Definition op_small (o : bucket_op) : Prop :=
  match o with OpPut _ value => Z.of_nat (length value) <= valueLimit | OpDelete _ => True end.

Definition map_get (m : gmap (list Z) inode) (key : list Z) : option (list Z) :=
  x ← m !! key; if is_bucket x then None else Some (in_value x).

Lemma Put_key fuel key value b b' : Put fuel key value b = Ret b' -> key <> [] /\ Z.of_nat (length key) <= MaxKeySize.
Proof.
  unfold Put. destruct (negb (t_open b)); [done|]. destruct (negb (t_writable b)); [done|].
  destruct (Nat.eqb_spec (length key) 0) as [|Hk]; [done|]. destruct (Z.ltb_spec MaxKeySize (Z.of_nat (length key))); [done|].
  intros _. split; [|done]. by intros ->.
Qed.

Lemma bucket_op_ok fuel o lv b b' : ready lv b -> (length lv <= fuel)%nat -> op_small o -> run_op fuel o b = Ret b' ->
  exists lv', updated lv b lv' b' (op_map (bmap lv) o).
Proof.
  intros R Hf Ho E. destruct o as [key value|key]; cbn in *.
  - destruct (Put_key _ _ _ _ _ E) as [Hk Hl]. pose proof (Put_ok lv b key value fuel R Hf Hk Hl Ho) as P.
    destruct (match bmap lv !! key with Some x => is_bucket x | None => false end); [congruence|].
    destruct P as (lv' & b2 & E2 & U). rewrite E in E2. injection E2 as <-. by exists lv'.
  - destruct (Delete_ok lv b key fuel R Hf) as [(lv' & b2 & E2 & U & _)|[E2 _]]; [|congruence].
    rewrite E in E2. injection E2 as <-. by exists lv'.
Qed.

Lemma run_ops_ok fuel l : forall lv b b', ready lv b -> (length lv <= fuel)%nat -> Forall op_small l -> run_ops fuel l b = Ret b' ->
  exists lv', updated lv b lv' b' (foldl op_map (bmap lv) l).
Proof.
  induction l as [|o l IH]; intros lv b b' R Hf Hl E; cbn [run_ops foldl] in *.
  - injection E as <-. exists lv. by split.
  - apply Forall_cons in Hl as [Ho Hl]. destruct (run_op fuel o b) as [b1| |] eqn:E1; [|done|done]. cbn [mbind outcome_bind] in E.
    destruct (bucket_op_ok fuel o lv b b1 R Hf Ho E1) as (lv1 & [R1 S1 L1 I1 M1]).
    destruct (IH lv1 b1 b' R1 ltac:(lia) Hl E) as (lv2 & [R2 S2 L2 I2 M2]). exists lv2. rewrite M1 in M2. split; try done; try congruence.
    destruct S1 as (?&?&?&?&?&?&?&?), S2 as (?&?&?&?&?&?&?&?). unfold same_tx. split_and!; congruence.
Qed.

(** The bucket has as many items as its map. *)
Lemma cont_size lv : lv_ok lv -> length (cont lv) = base.size (bmap lv).
Proof.
  intros H. unfold bmap, node_map. rewrite map_size_list_to_map; [by rewrite length_fmap|].
  rewrite <- list_fmap_compose. apply keys_sorted_NoDup. exact (cont_sorted lv H).
Qed.

(** Its items are those of the map. *)
Lemma cont_items lv : lv_ok lv -> (map_to_list (bmap lv)).*2 ≡ₚ cont lv.
Proof.
  intros H. unfold bmap, node_map. rewrite map_to_list_to_map.
  - rewrite <- list_fmap_compose. cbn. by rewrite list_fmap_id.
  - rewrite <- list_fmap_compose. apply keys_sorted_NoDup. exact (cont_sorted lv H).
Qed.

Lemma ops_size l : forall m, (base.size (foldl op_map m l) <= base.size m + length l)%nat.
Proof.
  induction l as [|o l IH]; intros m; cbn [foldl length]; [lia|]. specialize (IH (op_map m o)).
  assert (Hs : (base.size (op_map m o) <= S (base.size m))%nat); [|lia]. destruct o as [key value|key]; cbn.
  - destruct (m !! key) eqn:E; [rewrite map_size_insert_Some by eauto; lia|rewrite map_size_insert_None by done; lia].
  - rewrite map_size_delete. destruct (m !! key); cbn; lia.
Qed.

Lemma updated_space ps rest lv b lv' b' m : updated lv b lv' b' m -> space ps rest lv b -> space ps rest lv' b'.
Proof.
  intros [_ (_ & _ & _ & _ & P & W & F & D) _ I _] Hsp. unfold space. rewrite I. by apply (pages_same _ _ _ b).
Qed.

(** ** An example *)

Module Txn.

Definition cfg : config := mkConfig 128 1 half 32768 (fun _ => true).
Definition big (k : Z) : bucket_op := OpPut [k] (replicate 30 k).

(** Leaves that are split, one that goes. *)
Definition ops : list bucket_op :=
  [big 2; big 4; big 6; big 8; OpDelete [1]; OpDelete [9]; big 10; big 12; big 13; big 14].

Lemma cfg_ok : config_ok cfg.
Proof. split; [cbn; lia|by vm_compute]. Qed.

Lemma ops_small : Forall op_small ops.
Proof. repeat constructor; by vm_compute. Qed.

(** The transaction commits. *)
Lemma run : match b ← run_ops 40 ops Bucket.tx; bucket_commit 40 40 cfg (elements (dom (t_nodes b))) b with Ret _ => true | _ => false end = true.
Proof. by vm_compute. Qed.
End Txn.

(** ** Properties *)

(** C12: Commit writes a bucket to new pages. Bucket.rebalance and then Bucket.spill, on a
    bucket that is not written inline, end without panic. They fail only with the error of
    db.mmap, for a size that the commit needs: it is two pages or more behind the end of the file, no
    smaller than the map that there is and no larger than the items of the bucket can take
    there, and the file cannot be mapped at it: it has no room for the meta pages, or the size
    is too large for an address space, or the operating system refuses a map of that size or
    what mmapSize rounds it to. Otherwise the bucket that the next transaction opens has the
    same items in the same order, its nodes are all on pages, in order, with two children
    or more in each branch, and takes updates again. No page that was in use when the
    transaction began, or that is pending, is overwritten, and none of them becomes free: the
    old tree stays readable. No page is both in use and listed as free or pending. *)
Theorem commit_refines c rest w fuel order lv b : config_ok c -> ready lv b -> space (c_pageSize c) rest lv b ->
  (length (cont lv) <= w)%nat -> (length lv + length (cont lv) < fuel)%nat -> (forall id, is_Some (t_nodes b !! id) -> id ∈ order) ->
  (bucket_commit w fuel c order b = Fail ErrMmap /\ exists minsz,
     (t_hwm b + 2) * c_pageSize c <= minsz <= (t_hwm b + 1) * c_pageSize c + commit_bytes (c_pageSize c) (cont lv) /\
     t_datasz b <= minsz /\ cannot_map c minsz) \/
  exists lv' b', bucket_commit w fuel c order b = Ret b' /\ ready lv' (reopen b') /\ bmap lv' = bmap lv /\ cont lv' = cont lv /\
    space (c_pageSize c) rest lv' (reopen b') /\
    (forall x, x ∉ BoltFreelist.ids (t_free b) -> x < t_hwm b -> t_pages b' !! x = t_pages b !! x) /\
    BoltFreelist.ids (t_free b') ⊆ BoltFreelist.ids (t_free b).
Proof.
  intros Hc R Hsp Hw Hf Hord.
  destruct (bucket_commit_ok c rest w fuel order lv b Hc R Hsp Hw Hf Hord) as [Hm|(lv' & b' & E & R' & Ec & Hsp' & [K1 K2 _] & _)]; [by left|right].
  exists lv', b'. split; [done|]. split; [done|]. split; [unfold bmap; by rewrite Ec|]. split; [done|]. split; [|done].
  by apply (space_same _ _ _ b').
Qed.

Lemma commit_refines_witness : exists lv1 b1 lv2 b2, run_ops 40 Txn.ops Bucket.tx = Ret b1 /\
  bucket_commit 40 40 Txn.cfg (elements (dom (t_nodes b1))) b1 = Ret b2 /\ ready lv2 (reopen b2) /\ bmap lv2 = bmap lv1 /\
  bmap lv1 = foldl op_map (bmap Bucket.levels) Txn.ops /\ t_pages b2 !! 2 = t_pages b1 !! 2.
Proof.
  pose proof Txn.run as Hrun. destruct (run_ops 40 Txn.ops Bucket.tx) as [b1| |] eqn:E; [|discriminate Hrun|discriminate Hrun].
  cbn [mbind outcome_bind] in Hrun.
  destruct (run_ops_ok 40 Txn.ops Bucket.levels Bucket.tx b1 Bucket.tx_ready ltac:(cbn; lia) Txn.ops_small E) as (lv1 & U).
  pose proof (updated_space _ _ _ _ _ _ _ U Bucket.tx_space) as Hsp. destruct U as [R S L I M]. exists lv1, b1.
  assert (Hn : (length (cont lv1) <= 16)%nat).
  { rewrite (cont_size _ (in_lv _ _ (ry_inv _ _ R))), M. assert (E2 : base.size (foldl op_map (bmap Bucket.levels) Txn.ops) = 12%nat) by (by vm_compute). lia. }
  destruct (commit_refines Txn.cfg [6] 40 40 (elements (dom (t_nodes b1))) lv1 b1 Txn.cfg_ok R Hsp)
    as [[Ef _]|(lv2 & b2 & E2 & R2 & M2 & _ & _ & K & _)].
  - lia.
  - rewrite L. cbn. lia.
  - intros id Hid. by apply elem_of_elements, elem_of_dom.
  - rewrite Ef in Hrun. clear Ef. discriminate Hrun.
  - exists lv2, b2. split; [done|]. split; [done|]. split; [done|]. split; [done|]. split; [done|].
    destruct S as (_ & _ & _ & _ & P & W & F & _). apply K; [rewrite F|rewrite W; by vm_compute]. intros H. by apply list_elem_of_singleton in H.
Defined.

(** C11: A transaction on a bucket acts on the map of its items. If the Puts and Deletes of a
    transaction succeed, and Commit does, then in the next transaction Get returns for every
    key what the updates, in their order, leave of the map that the bucket was. Commit fails
    only with the error of db.mmap, for a size at which the file cannot be mapped, that is two
    pages or more behind its end, not below the map that there is, and no more than the items
    that the updates leave can take. Fuel for the depth of the tree and one step for each item
    and update is enough throughout. *)
Theorem transaction_refines c rest w fuel order lv b ops b1 : config_ok c -> ready lv b -> space (c_pageSize c) rest lv b ->
  Forall op_small ops -> run_ops fuel ops b = Ret b1 -> (forall id, is_Some (t_nodes b1 !! id) -> id ∈ order) ->
  (base.size (bmap lv) + length ops <= w)%nat -> (length lv + base.size (bmap lv) + length ops < fuel)%nat ->
  (bucket_commit w fuel c order b1 = Fail ErrMmap /\ exists minsz,
     (t_hwm b + 2) * c_pageSize c <= minsz <=
       (t_hwm b + 1) * c_pageSize c + commit_bytes (c_pageSize c) (map_to_list (foldl op_map (bmap lv) ops)).*2 /\
     t_datasz b <= minsz /\ cannot_map c minsz) \/
  exists b2, bucket_commit w fuel c order b1 = Ret b2 /\
    forall key, Bucket_Get fuel key (reopen b2) = Ret (map_get (foldl op_map (bmap lv) ops) key).
Proof.
  intros Hc R Hsp Hops E Hord Hw Hf. destruct (run_ops_ok fuel ops lv b b1 R ltac:(lia) Hops E) as (lv1 & U).
  pose proof (updated_space _ _ _ _ _ _ _ U Hsp) as Hsp1. destruct U as [R1 (_ & _ & _ & _ & _ & W1 & _ & D1) L1 _ M1].
  pose proof (cont_size lv1 (in_lv _ _ (ry_inv _ _ R1))) as Hsize. pose proof (ops_size ops (bmap lv)) as Hs. rewrite M1 in Hsize.
  destruct (bucket_commit_ok c rest w fuel order lv1 b1 Hc R1 Hsp1 ltac:(lia) ltac:(lia) Hord) as [Hm|(lv2 & b2 & E2 & R2 & Ec & _ & _ & Hl)];
    [left|right].
  { rewrite <- M1, (commit_bytes_perm _ _ _ (cont_items lv1 (in_lv _ _ (ry_inv _ _ R1)))), <- W1, <- D1. exact Hm. }
  exists b2. split; [done|]. intros key. rewrite (Bucket_Get_ok lv2 (reopen b2) key fuel R2 ltac:(lia)).
  unfold map_get. rewrite <- M1. unfold bmap. by rewrite Ec.
Qed.

Lemma transaction_refines_witness : exists b1 b2, run_ops 40 Txn.ops Bucket.tx = Ret b1 /\
  bucket_commit 40 40 Txn.cfg (elements (dom (t_nodes b1))) b1 = Ret b2 /\
  Bucket_Get 40 [13] (reopen b2) = Ret (Some (replicate 30 13)) /\ Bucket_Get 40 [9] (reopen b2) = Ret None.
Proof.
  pose proof Txn.run as Hrun. destruct (run_ops 40 Txn.ops Bucket.tx) as [b1| |] eqn:E; [|discriminate Hrun|discriminate Hrun].
  cbn [mbind outcome_bind] in Hrun. exists b1.
  destruct (transaction_refines Txn.cfg [6] 40 40 (elements (dom (t_nodes b1))) Bucket.levels Bucket.tx Txn.ops b1 Txn.cfg_ok Bucket.tx_ready
    Bucket.tx_space Txn.ops_small E) as [[Ef _]|(b2 & E2 & G)].
  - intros id Hid. by apply elem_of_elements, elem_of_dom.
  - assert (Hs : base.size (bmap Bucket.levels) = 6%nat) by (by vm_compute). rewrite Hs. cbn. lia.
  - assert (Hs : base.size (bmap Bucket.levels) = 6%nat) by (by vm_compute). rewrite Hs. cbn. lia.
  - rewrite Ef in Hrun. clear Ef. discriminate Hrun.
  - exists b2. split; [done|]. split; [done|]. rewrite !G. split; by vm_compute.
Defined.
