(* ===== verification/NsqPqueue.v ===== *)
(** nsq internal/pqueue/pqueue.go and nsqd/in_flight_pqueue.go: the binary min-heaps of
    deferred and in-flight messages.

    The queues are slices of pointers; each element also stores its own position, which
    a channel uses to remove a message from the middle.  [items] is the slice, [cap] its
    capacity and [index] the index field of every element; the priorities are read
    through [pri].  The two queues differ in how their sift-down breaks ties between the
    children ([right]); the deferred queue uses container/heap of the standard library,
    modelled here as that package is written. *)

From Stdlib Require Import ZArith Lia.
From stdpp Require Import base numbers option list sorting gmap.
From S2P Require Import Prelude.
#[local] Open Scope Z_scope.

Record pqueue (P : Type) `{Countable P} := mkPQ {
  items : list P;
  cap : nat;
  index : gmap P Z
}.
Arguments mkPQ {P _ _} items cap index.
Arguments items {P _ _} p.
Arguments cap {P _ _} p.
Arguments index {P _ _} p.

Section queue.
Context {P : Type} `{HP : Countable P} (pri : P -> Z).

Definition newPqueue (capacity : nat) : pqueue P := mkPQ [] capacity ∅.

(** The priority of an element by position; a slice index out of range panics. *)
Definition pri_at (q : pqueue P) (i : nat) : outcome unit Z :=
  match items q !! i with Some x => Ret (pri x) | None => Panic end.

Definition Swap (i j : nat) (q : pqueue P) : outcome unit (pqueue P) :=
  match items q !! i, items q !! j with
  | Some a, Some b =>
      Ret (mkPQ (<[j := a]> (<[i := b]> (items q))) (cap q)
                (<[a := Z.of_nat j]> (<[b := Z.of_nat i]> (index q))))
  | _, _ => Panic
  end.

(** The sift loops; the position of up falls and that of down rises, so the length of
    the queue is fuel enough and [Fail tt], running out of it, does not happen. *)
Fixpoint up (fuel : nat) (j : nat) (q : pqueue P) : outcome unit (pqueue P) :=
  match fuel with
  | O => Fail tt
  | S fuel =>
      let i := ((j - 1) / 2)%nat in
      if (i =? j)%nat then Ret q
      else
        pj ← pri_at q j; pi ← pri_at q i;
        if pi <=? pj then Ret q
        else q ← Swap i j q; up fuel i q
  end.

(** Grow the slice for one more element; slicing it to n+1 panics past the capacity. *)
Definition grow (q : pqueue P) : outcome unit nat :=
  let n := length (items q) in
  let c := if (cap q <? n + 1)%nat then (cap q * 2)%nat else cap q in
  if (c <? n + 1)%nat then Panic else Ret c.

(** The slice after an element has been appended. *)
Definition append (x : P) (q : pqueue P) : outcome unit (pqueue P) :=
  c ← grow q;
  Ret (mkPQ (items q ++ [x]) c (<[x := Z.of_nat (length (items q))]> (index q))).

(** The capacity after the shrink test of Pop on [n] elements. *)
Definition shrink (n c : nat) : nat :=
  if (n <? c / 2)%nat && (25 <? c)%nat then (c / 2)%nat else c.

(** Cut off and return the last element. *)
Definition pop_last (c : nat) (q : pqueue P) : outcome unit (P * pqueue P) :=
  let n := length (items q) in
  match items q !! (n - 1)%nat with
  | Some x => Ret (x, mkPQ (take (n - 1) (items q)) c (<[x := -1]> (index q)))
  | None => Panic
  end.

Section sift.
Context (right : Z -> Z -> bool).

(** Sift-down below [n]: [right p1 p2] chooses the right child.  The result has the
    final position too. *)
Fixpoint down (fuel : nat) (i n : nat) (q : pqueue P) : outcome unit (nat * pqueue P) :=
  match fuel with
  | O => Fail tt
  | S fuel =>
      let j1 := (2 * i + 1)%nat in
      if (n <=? j1)%nat then Ret (i, q)
      else
        let j2 := (j1 + 1)%nat in
        j ← (if (j2 <? n)%nat then
               p1 ← pri_at q j1; p2 ← pri_at q j2; Ret (if right p1 p2 then j2 else j1)
             else Ret j1);
        pj ← pri_at q j; pi ← pri_at q i;
        if pi <=? pj then Ret (i, q)
        else q ← Swap i j q; down fuel j n q
  end.

End sift.

(** *** in_flight_pqueue.go *)

Definition right_ge (p1 p2 : Z) : bool := p2 <=? p1.

Definition Push (x : P) (q : pqueue P) : outcome unit (pqueue P) :=
  let n := length (items q) in
  q ← append x q;
  up (S n) n q.

Definition Pop (q : pqueue P) : outcome unit (P * pqueue P) :=
  let n := length (items q) in
  q ← Swap 0 (n - 1) q;
  '(_, q) ← down right_ge n 0 (n - 1) q;
  pop_last (shrink n (cap q)) q.

Definition Remove (i : nat) (q : pqueue P) : outcome unit (P * pqueue P) :=
  let n := length (items q) in
  q ← (if negb (n - 1 =? i)%nat then
         q ← Swap i (n - 1) q;
         '(_, q) ← down right_ge n i (n - 1) q;
         up n i q
       else Ret q);
  pop_last (cap q) q.

Definition PeekAndShift (max : Z) (q : pqueue P) : outcome unit (option P * Z * pqueue P) :=
  match items q with
  | [] => Ret (None, 0, q)
  | x :: _ =>
      if max <? pri x then Ret (None, i64 (pri x - max), q)
      else '(_, q) ← Pop q; Ret (Some x, 0, q)
  end.

(** *** pqueue.go, over container/heap *)

Definition right_lt (p1 p2 : Z) : bool := p2 <? p1.

Definition heap_Push (x : P) (q : pqueue P) : outcome unit (pqueue P) :=
  q ← append x q;
  up (length (items q)) (length (items q) - 1) q.

(** heap.Remove: up only when down did not move the element. *)
Definition heap_Remove (i : nat) (q : pqueue P) : outcome unit (P * pqueue P) :=
  let n := (length (items q) - 1)%nat in
  q ← (if negb (n =? i)%nat then
         q ← Swap i n q;
         '(i', q) ← down right_lt (S n) i n q;
         if negb (i <? i')%nat then up (S n) i q else Ret q
       else Ret q);
  pop_last (shrink (length (items q)) (cap q)) q.

Definition heap_PeekAndShift (max : Z) (q : pqueue P) : outcome unit (option P * Z * pqueue P) :=
  match items q with
  | [] => Ret (None, 0, q)
  | x :: _ =>
      if max <? pri x then Ret (None, i64 (pri x - max), q)
      else '(_, q) ← heap_Remove 0 q; Ret (Some x, 0, q)
  end.

(** ** Positions and swaps *)

(** Distinct elements that know their positions, and room for one more at least. *)
Record q_wf (q : pqueue P) : Prop := {
  wf_nodup : NoDup (items q);
  wf_index : forall k x, items q !! k = Some x -> index q !! x = Some (Z.of_nat k);
  wf_cap : (length (items q) <= cap q)%nat /\ (1 <= cap q)%nat
}.

(** What moving elements around keeps. *)
Record moves (q q' : pqueue P) : Prop := {
  mv_perm : items q' ≡ₚ items q;
  mv_cap : cap q' = cap q;
  mv_index : forall x, x ∉ items q -> index q' !! x = index q !! x;
  mv_wf : q_wf q -> q_wf q'
}.

Lemma moves_refl q : moves q q.
Proof. by split. Qed.

Lemma moves_trans q1 q2 q3 : moves q1 q2 -> moves q2 q3 -> moves q1 q3.
Proof.
  intros [H1 H2 H3 H4] [H5 H6 H7 H8]. split; [by rewrite H5|congruence| |auto].
  intros x Hx. rewrite H7; [by apply H3|]. by rewrite H1.
Qed.

Lemma moves_length q q' : moves q q' -> length (items q') = length (items q).
Proof. intros [Hp _ _ _]. by apply Permutation_length. Qed.

(** The priority at a position, 0 past the end. *)
Definition K (q : pqueue P) (k : nat) : Z :=
  match items q !! k with Some x => pri x | None => 0 end.

Lemma pri_at_ret q i : (i < length (items q))%nat -> pri_at q i = Ret (K q i).
Proof. intros Hi. unfold pri_at, K. by destruct (lookup_lt_is_Some_2 (items q) i Hi) as [x ->]. Qed.

Lemma Swap_spec q i j : (i < length (items q))%nat -> (j < length (items q))%nat ->
  exists q', Swap i j q = Ret q' /\ moves q q' /\
    (forall k, K q' k = if (k =? j)%nat then K q i else if (k =? i)%nat then K q j else K q k) /\
    (forall k, k <> i -> k <> j -> items q' !! k = items q !! k) /\ items q' !! j = items q !! i.
Proof.
  intros Hi Hj. unfold Swap.
  destruct (lookup_lt_is_Some_2 (items q) i Hi) as [a Ha]. destruct (lookup_lt_is_Some_2 (items q) j Hj) as [b Hb].
  rewrite Ha, Hb. eexists. split; [reflexivity|]. cbn [items cap index].
  assert (Hother : forall k, k <> i -> k <> j -> <[j:=a]> (<[i:=b]> (items q)) !! k = items q !! k).
  { intros k Hki Hkj. by rewrite !list_lookup_insert_ne by done. }
  assert (Hlj : <[j:=a]> (<[i:=b]> (items q)) !! j = Some a).
  { apply list_lookup_insert_eq. by rewrite length_insert. }
  assert (Hli : i <> j -> <[j:=a]> (<[i:=b]> (items q)) !! i = Some b).
  { intros Hne. rewrite list_lookup_insert_ne by done. by apply list_lookup_insert_eq. }
  split; [split; cbn [items cap index]|split; [|split; [exact Hother|exact Hlj]]].
  - by apply Permutation_insert_swap.
  - done.
  - intros x Hx. rewrite !lookup_insert_ne; [done|intros ->; apply Hx; by eapply list_elem_of_lookup_2..].
  - intros [W1 W2 W3]. assert (Hp := Permutation_insert_swap _ _ _ _ _ Ha Hb). split; cbn [items cap index].
    + by rewrite Hp.
    + intros k x Hk. destruct (decide (k = j)) as [->|Hkj].
      { rewrite Hlj in Hk. injection Hk as ->. by rewrite lookup_insert_eq. }
      assert (Hxa : x <> a).
      { intros ->. apply Hkj. apply (NoDup_lookup (<[j:=a]> (<[i:=b]> (items q))) _ _ a); [by rewrite Hp|done|done]. }
      rewrite lookup_insert_ne by done. destruct (decide (k = i)) as [->|Hki].
      { rewrite Hli in Hk by done. injection Hk as ->. by rewrite lookup_insert_eq. }
      rewrite Hother in Hk by done. rewrite lookup_insert_ne; [by apply W2|].
      intros <-. apply Hkj. by apply (NoDup_lookup (items q) _ _ b).
    + by rewrite !length_insert.
  - intros k. unfold K; cbn [items]. destruct (Nat.eqb_spec k j) as [->|]; [by rewrite Hlj, Ha|].
    destruct (Nat.eqb_spec k i) as [->|]; [by rewrite Hli, Hb|]. by rewrite Hother.
Qed.

(** ** The heap order *)

Definition parent (k : nat) : nat := ((k - 1) / 2)%nat.

(** The element at [k] is not before its parent. *)
Definition edge (q : pqueue P) (k : nat) : Prop := K q (parent k) <= K q k.

Definition heap (n : nat) (q : pqueue P) : Prop := forall k, (1 <= k < n)%nat -> edge q k.

(** A heap but for the element at [i], which may come before its parent. *)
Definition heap_up (n i : nat) (q : pqueue P) : Prop :=
  (forall k, (1 <= k < n)%nat -> k <> i -> edge q k) /\
  (forall k, (1 <= k < n)%nat -> (1 <= i)%nat -> parent k = i -> K q (parent i) <= K q k).

(** A heap but for the element at [i], which may be out of order both ways. *)
Definition heap_down (n i : nat) (q : pqueue P) : Prop :=
  (forall k, (1 <= k < n)%nat -> k <> i -> parent k <> i -> edge q k) /\
  (forall k, (1 <= k < n)%nat -> (1 <= i)%nat -> parent k = i -> K q (parent i) <= K q k).

Lemma parent_lt k : (1 <= k)%nat -> (parent k < k)%nat.
Proof. intros. unfold parent. apply Nat.Div0.div_lt_upper_bound; lia. Qed.

Lemma parent_child k i : (1 <= k)%nat -> parent k = i <-> k = (2 * i + 1)%nat \/ k = (2 * i + 2)%nat.
Proof.
  intros Hk. unfold parent. pose proof (Nat.div_mod (k - 1) 2 ltac:(lia)).
  pose proof (Nat.mod_upper_bound (k - 1) 2 ltac:(lia)). split; lia.
Qed.

(** Case analysis on the priorities after a swap. *)
Ltac kswap HK :=
  rewrite !HK;
  repeat match goal with
  | |- context [(?a =? ?b)%nat] => destruct (Nat.eqb_spec a b)
  end; try lia.

Lemma up_spec fuel n : forall j q, (j < fuel)%nat -> (j < n)%nat -> (n <= length (items q))%nat -> heap_up n j q ->
  exists q', up fuel j q = Ret q' /\ moves q q' /\ heap n q' /\
    (forall k, (n <= k)%nat -> items q' !! k = items q !! k).
Proof.
  induction fuel as [|fuel IH]; intros j q Hf Hj Hn [H1 H2]; [lia|]. cbn [up].
  change ((j - 1) / 2)%nat with (parent j).
  destruct (Nat.eqb_spec (parent j) j) as [E|E].
  { exists q. split; [done|]. split; [apply moves_refl|]. split; [|done]. intros k Hk. apply H1; [done|].
    intros ->. pose proof (parent_lt j). lia. }
  assert (Hj1 : (1 <= j)%nat) by (destruct j; [done|lia]). pose proof (parent_lt j Hj1) as Hp.
  rewrite !pri_at_ret by lia. cbn [mbind outcome_bind].
  destruct (Z.leb_spec (K q (parent j)) (K q j)) as [Hle|Hgt].
  { exists q. split; [done|]. split; [apply moves_refl|]. split; [|done]. intros k Hk.
    destruct (decide (k = j)) as [->|]; [done|by apply H1]. }
  destruct (Swap_spec q (parent j) j ltac:(lia) ltac:(lia)) as (q1 & E1 & M1 & HK & Ho & _). rewrite E1.
  cbn [mbind outcome_bind].
  destruct (IH (parent j) q1) as (q2 & E2 & M2 & Hh & Ho2); [lia|lia|by rewrite (moves_length _ _ M1)|..].
  - set (i := parent j) in *. split.
    + intros k Hk Hne. unfold edge. pose proof (parent_lt k ltac:(lia)).
      destruct (decide (k = j)) as [->|Hkj]; [fold i; kswap HK|].
      pose proof (H1 k Hk Hkj) as He. unfold edge in He. kswap HK.
      * apply H2; [done|done|done].
      * replace (parent k) with i in He by done. lia.
    + intros k Hk Hi Hpk. pose proof (parent_lt i Hi). pose proof (parent_lt k ltac:(lia)). pose proof (H1 i ltac:(lia) ltac:(lia)) as Hei.
      unfold edge in Hei. kswap HK. pose proof (H1 k Hk ltac:(done)) as Hek. unfold edge in Hek.
      rewrite Hpk in Hek. lia.
  - exists q2. split; [done|]. split; [by eapply moves_trans|]. split; [done|].
    intros k Hk. rewrite Ho2 by done. apply Ho; lia.
Qed.

Lemma heap_heap_up n i q : heap n q -> (i < n)%nat -> heap_up n i q.
Proof.
  intros Hh Hi. split; [by intros k Hk _; apply Hh|]. intros k Hk Hi1 Hp.
  pose proof (Hh k Hk) as Ek. pose proof (Hh i ltac:(lia)) as Ei. unfold edge in *. rewrite Hp in Ek. lia.
Qed.

Lemma heap_up_heap n i q : heap_up n i q -> (i = 0%nat \/ edge q i) -> heap n q.
Proof.
  intros [H1 _] Hi k Hk. destruct (decide (k = i)) as [->|]; [|by apply H1]. destruct Hi; [lia|done].
Qed.

Section down.
Context (right : Z -> Z -> bool) (right_spec : forall a b, if right a b then b <= a else a <= b).

(** The child chosen is one of the children of [i] and comes first among them. *)
Lemma down_child i n q : (2 * i + 1 < n)%nat -> (n <= length (items q))%nat ->
  exists j, (if (2 * i + 1 + 1 <? n)%nat then
               p1 ← pri_at q (2 * i + 1); p2 ← pri_at q (2 * i + 1 + 1);
               Ret (if right p1 p2 then (2 * i + 1 + 1)%nat else (2 * i + 1)%nat)
             else Ret (2 * i + 1)%nat) = Ret (E := unit) j /\
    (i < j < n)%nat /\ parent j = i /\ (forall k, (1 <= k < n)%nat -> parent k = i -> K q j <= K q k).
Proof.
  intros H1 Hn. destruct (Nat.ltb_spec (2 * i + 1 + 1) n) as [H2|H2].
  - rewrite !pri_at_ret by lia. cbn [mbind outcome_bind].
    pose proof (right_spec (K q (2 * i + 1)) (K q (2 * i + 1 + 1))) as Hr.
    eexists. split; [reflexivity|]. destruct (right _ _); (split; [lia|]; split; [apply parent_child; lia|]);
      intros k Hk [->| ->]%parent_child; try lia;
      replace (2 * i + 2)%nat with (2 * i + 1 + 1)%nat by lia; lia.
  - eexists. split; [reflexivity|]. split; [lia|]. split; [apply parent_child; lia|].
    intros k Hk [->| ->]%parent_child; lia.
Qed.

Lemma down_spec fuel n : forall i q, (n - i < fuel)%nat -> (i < n)%nat -> (n <= length (items q))%nat -> heap_down n i q ->
  exists i' q', down right fuel i n q = Ret (i', q') /\ moves q q' /\ (i <= i')%nat /\
    (i' = i -> q' = q /\ heap_up n i q) /\ ((i < i')%nat \/ i = 0%nat \/ edge q i -> heap n q') /\
    (forall k, (n <= k)%nat -> items q' !! k = items q !! k).
Proof.
  induction fuel as [|fuel IH]; intros i q Hf Hi Hn [H1 H2]; [lia|]. cbn [down].
  assert (Hstay : (forall k, (1 <= k < n)%nat -> parent k = i -> edge q k) ->
    exists i' q', Ret (E := unit) (i, q) = Ret (i', q') /\ moves q q' /\ (i <= i')%nat /\
    (i' = i -> q' = q /\ heap_up n i q) /\ ((i < i')%nat \/ i = 0%nat \/ edge q i -> heap n q') /\
    (forall k, (n <= k)%nat -> items q' !! k = items q !! k)).
  { intros Hc. assert (Hu : heap_up n i q).
    { split; [|exact H2]. intros k Hk Hne. destruct (decide (parent k = i)); auto. }
    exists i, q. split; [done|]. split; [apply moves_refl|]. split; [lia|]. split; [done|]. split; [|done].
    intros [?|?]; [lia|]. by eapply heap_up_heap. }
  destruct (Nat.leb_spec n (2 * i + 1)) as [Hle|Hlt].
  { apply Hstay. intros k Hk [->| ->]%parent_child; lia. }
  destruct (down_child i n q Hlt Hn) as (j & Ej & Hj & Hpj & Hmin). rewrite Ej. cbn [mbind outcome_bind].
  rewrite !pri_at_ret by lia. cbn [mbind outcome_bind].
  destruct (Z.leb_spec (K q i) (K q j)) as [Hle|Hgt].
  { apply Hstay. intros k Hk Hpk. specialize (Hmin k Hk Hpk). unfold edge. rewrite Hpk. lia. }
  destruct (Swap_spec q i j ltac:(lia) ltac:(lia)) as (q1 & E1 & M1 & HK & Ho & _). rewrite E1.
  cbn [mbind outcome_bind].
  destruct (IH j q1) as (i' & q2 & E2 & M2 & Hi' & _ & Hh & Ho2); [lia|lia|by rewrite (moves_length _ _ M1)| |].
  - split.
    + intros k Hk Hne Hpne. unfold edge. pose proof (parent_lt k ltac:(lia)).
      destruct (decide (k = i)) as [->|Hki].
      { pose proof (H2 j ltac:(lia) ltac:(lia) Hpj). kswap HK. }
      destruct (decide (parent k = i)) as [Hpk|Hpk].
      { pose proof (Hmin k Hk Hpk). rewrite Hpk. kswap HK. }
      pose proof (H1 k Hk Hki Hpk) as He. unfold edge in He. kswap HK.
    + intros k Hk Hj1 Hpk. rewrite Hpj. pose proof (parent_lt k ltac:(lia)).
      pose proof (H1 k Hk ltac:(lia) ltac:(lia)) as He. unfold edge in He. rewrite Hpk in He. kswap HK.
  - exists i', q2. split; [done|]. split; [by eapply moves_trans|]. split; [lia|]. split; [lia|]. split.
    + intros _. apply Hh. right. right. unfold edge. rewrite Hpj. kswap HK.
    + intros k Hk. rewrite Ho2 by done. apply Ho; lia.
Qed.

End down.

(** ** The operations *)

Record pq_ok (q : pqueue P) : Prop := {
  ok_wf : q_wf q;
  ok_heap : heap (length (items q)) q
}.

Lemma newPqueue_ok c : (1 <= c)%nat -> pq_ok (newPqueue c).
Proof.
  intros Hc. split; [split; cbn; [constructor|done|lia]|]. intros k Hk. cbn in Hk. lia.
Qed.

Lemma K_ext q q' k : items q' !! k = items q !! k -> K q' k = K q k.
Proof. unfold K. by intros ->. Qed.

Lemma heap_ext n q q' : (forall k, (k < n)%nat -> items q' !! k = items q !! k) -> heap n q -> heap n q'.
Proof.
  intros He Hh k Hk. pose proof (parent_lt k ltac:(lia)). unfold edge.
  rewrite !(K_ext q q') by (apply He; lia). by apply Hh.
Qed.

Lemma grow_spec q : q_wf q -> exists c, grow q = Ret c /\ (length (items q) + 1 <= c)%nat.
Proof.
  intros [_ _ [W3 W4]]. unfold grow. destruct (Nat.ltb_spec (cap q) (length (items q) + 1)).
  - destruct (Nat.ltb_spec (cap q * 2) (length (items q) + 1)); [lia|]. eauto.
  - destruct (Nat.ltb_spec (cap q) (length (items q) + 1)); [lia|]. eauto.
Qed.

Lemma append_spec x q : q_wf q -> x ∉ items q ->
  exists q', append x q = Ret q' /\ q_wf q' /\ items q' = items q ++ [x] /\
    (forall y, y <> x -> index q' !! y = index q !! y).
Proof.
  intros Hw Hx. destruct (grow_spec q Hw) as (c & Ec & Hc). destruct Hw as [W1 W2 W3].
  unfold append. rewrite Ec. cbn [mbind outcome_bind].
  eexists; split; [reflexivity|]; split; [|split; [done|intros y Hy; by apply lookup_insert_ne]].
  split; cbn [items index cap].
  - apply NoDup_app. split_and!; [done| |apply NoDup_singleton].
    intros y Hy Hy2. by apply list_elem_of_singleton in Hy2 as ->.
  - intros k y Hk. destruct (decide (k < length (items q))%nat) as [Hlt|Hge].
    + rewrite lookup_app_l in Hk by done. rewrite lookup_insert_ne; [by apply W2|].
      intros ->. apply Hx; by apply list_elem_of_lookup_2 in Hk.
    + rewrite lookup_app_r in Hk by lia. apply list_lookup_singleton_Some in Hk as [Hk ->].
      rewrite lookup_insert_eq. do 2 f_equal. lia.
  - rewrite length_app; cbn [length]. lia.
Qed.

Lemma Push_core x q n : pq_ok q -> x ∉ items q -> n = length (items q) ->
  exists q1 q', append x q = Ret q1 /\ length (items q1) = S n /\ up (S n) n q1 = Ret q' /\ pq_ok q' /\
    items q' ≡ₚ x :: items q /\ (forall y, y ∉ x :: items q -> index q' !! y = index q !! y).
Proof.
  intros [Hw Hh] Hx ->. destruct (append_spec x q Hw Hx) as (q1 & E1 & W1 & I1 & X1).
  assert (L1 : length (items q1) = S (length (items q))) by (rewrite I1, length_app; cbn; lia).
  destruct (up_spec (S (length (items q))) (S (length (items q))) (length (items q)) q1)
    as (q2 & E2 & M2 & H2 & _); [lia|lia|lia| |].
  { split.
    - intros k Hk Hne. apply (heap_ext (length (items q)) q); [|exact Hh|lia].
      intros j Hj. rewrite I1. by apply lookup_app_l.
    - intros k Hk _ Hp. pose proof (parent_lt k ltac:(lia)). lia. }
  exists q1, q2. split; [done|]. split; [done|]. split; [done|].
  assert (Hp : items q2 ≡ₚ x :: items q).
  { rewrite (mv_perm _ _ M2), I1. symmetry. apply Permutation_cons_append. }
  split; [|split; [done|]].
  - split; [by apply (mv_wf _ _ M2)|]. by rewrite (moves_length _ _ M2), L1.
  - intros y Hy. rewrite (mv_index _ _ M2), X1; [done|intros ->; apply Hy; by left|].
    rewrite I1, <- Permutation_cons_append. done.
Qed.

Lemma Push_spec x q : pq_ok q -> x ∉ items q ->
  exists q', Push x q = Ret q' /\ pq_ok q' /\ items q' ≡ₚ x :: items q /\
    (forall y, y ∉ x :: items q -> index q' !! y = index q !! y).
Proof.
  intros Hq Hx. destruct (Push_core x q _ Hq Hx eq_refl) as (q1 & q' & E1 & _ & E2 & H).
  exists q'. split; [|done]. unfold Push. by rewrite E1.
Qed.

Lemma heap_Push_spec x q : pq_ok q -> x ∉ items q ->
  exists q', heap_Push x q = Ret q' /\ pq_ok q' /\ items q' ≡ₚ x :: items q /\
    (forall y, y ∉ x :: items q -> index q' !! y = index q !! y).
Proof.
  intros Hq Hx. destruct (Push_core x q _ Hq Hx eq_refl) as (q1 & q' & E1 & L1 & E2 & H).
  exists q'. split; [|done]. unfold heap_Push. rewrite E1. cbn [mbind outcome_bind]. rewrite L1.
  by replace (S (length (items q)) - 1)%nat with (length (items q)) by lia.
Qed.

(** Cutting off the last element of a queue whose other elements are a heap. *)
Lemma pop_last_spec c q x : q_wf q -> (1 <= length (items q))%nat ->
  items q !! (length (items q) - 1)%nat = Some x -> heap (length (items q) - 1) q ->
  (length (items q) - 1 <= c)%nat -> (1 <= c)%nat ->
  exists q', pop_last c q = Ret (x, q') /\ pq_ok q' /\ items q ≡ₚ x :: items q' /\
    index q' !! x = Some (-1) /\ (forall y, y <> x -> index q' !! y = index q !! y).
Proof.
  intros [W1 W2 W3] Hlen Hx Hh Hc Hc1. unfold pop_last. rewrite Hx. eexists. split; [reflexivity|].
  assert (El : items q = take (length (items q) - 1) (items q) ++ [x]).
  { rewrite <- (take_drop_middle _ _ _ Hx) at 1. rewrite drop_ge by lia. done. }
  assert (Hx' : x ∉ take (length (items q) - 1) (items q)).
  { rewrite El in W1. apply NoDup_app in W1 as (_ & W1 & _). intros Hin. apply (W1 x Hin). by left. }
  split; [|split; [|split]]; cbn [items index].
  - split; [split|]; cbn [items index cap].
    + rewrite El in W1. by apply NoDup_app in W1 as (? & _ & _).
    + intros k y Hk. rewrite lookup_insert_ne.
      * apply W2. by apply lookup_take_Some in Hk as [? _].
      * intros ->. apply Hx'; by apply list_elem_of_lookup_2 in Hk.
    + rewrite length_take. lia.
    + rewrite length_take. replace ((length (items q) - 1) `min` length (items q))%nat with (length (items q) - 1)%nat by lia.
      apply (heap_ext _ q); [|done]. intros k Hk. cbn [items]. by apply lookup_take_lt.
  - rewrite El at 1. symmetry. apply Permutation_cons_append.
  - apply lookup_insert_eq.
  - intros y Hy. by apply lookup_insert_ne.
Qed.

(** Swapping the element at [i] with the last and sifting down what came in its place. *)
Lemma remove_down (right : Z -> Z -> bool) q i fuel :
  (forall a b, if right a b then b <= a else a <= b) ->
  pq_ok q -> (i < length (items q) - 1)%nat -> (length (items q) <= fuel)%nat ->
  exists q1 i' q2, Swap i (length (items q) - 1) q = Ret q1 /\ length (items q1) = length (items q) /\
    down right fuel i (length (items q) - 1) q1 = Ret (i', q2) /\ moves q q2 /\
    ((i < i')%nat -> heap (length (items q) - 1) q2) /\ heap_up (length (items q) - 1) i q2 /\
    (i = 0%nat -> heap (length (items q) - 1) q2) /\ (i <= i')%nat /\
    items q2 !! (length (items q) - 1)%nat = items q !! i.
Proof.
  intros Hr [Hw Hh] Hi Hf. set (m := (length (items q) - 1)%nat) in *.
  destruct (Swap_spec q i m ltac:(lia) ltac:(lia)) as (q1 & E1 & M1 & HK & Ho & Hl).
  pose proof (moves_length _ _ M1) as L1.
  destruct (down_spec right Hr fuel m i q1 ltac:(lia) Hi ltac:(lia)) as (i' & q2 & E2 & M2 & Hi' & Hsame & Hheap & Ho2).
  { split.
    - intros k Hk Hne Hpne. unfold edge. pose proof (parent_lt k ltac:(lia)).
      pose proof (Hh k ltac:(lia)) as He. unfold edge in He. kswap HK.
    - intros k Hk Hi1 Hp. pose proof (parent_lt i Hi1). pose proof (parent_lt k ltac:(lia)).
      pose proof (Hh k ltac:(lia)) as He. pose proof (Hh i ltac:(lia)) as Hei. unfold edge in He, Hei.
      rewrite Hp in He. kswap HK. }
  exists q1, i', q2. split_and!; auto.
  - by eapply moves_trans.
  - destruct (decide (i' = i)) as [E|E]; [by destruct (Hsame E) as [-> ?]|].
    apply heap_heap_up; [|done]. apply Hheap. lia.
  - rewrite Ho2 by lia. done.
Qed.

(** [q'] is [q] without [x], which now has index -1. *)
Record removed (q : pqueue P) (x : P) (q' : pqueue P) : Prop := {
  rm_ok : pq_ok q';
  rm_perm : items q ≡ₚ x :: items q';
  rm_index : index q' !! x = Some (-1);
  rm_others : forall y, y ∉ items q -> index q' !! y = index q !! y
}.

Lemma cut_spec c q q3 x : q_wf q -> moves q q3 -> (1 <= length (items q))%nat ->
  heap (length (items q) - 1) q3 -> items q3 !! (length (items q) - 1)%nat = Some x ->
  (length (items q) - 1 <= c)%nat -> (1 <= c)%nat ->
  exists q', pop_last c q3 = Ret (x, q') /\ removed q x q'.
Proof.
  intros Hw M Hlen Hh Hx Hc1 Hc2. pose proof (moves_length _ _ M) as L.
  destruct (pop_last_spec c q3 x) as (q' & E & H4 & H5 & H6 & H7);
    [by apply (mv_wf _ _ M)|lia|by rewrite L|by rewrite L|lia|lia|].
  exists q'. split; [done|]. split; try done.
  - by rewrite <- H5, (mv_perm _ _ M).
  - intros y Hy. rewrite H7; [by apply (mv_index _ _ M)|]. intros ->. apply Hy.
    rewrite <- (mv_perm _ _ M). by eapply list_elem_of_lookup_2.
Qed.

Lemma shrink_bound n c : (n <= c)%nat -> (1 <= c)%nat -> (n <= shrink n c)%nat /\ (1 <= shrink n c)%nat.
Proof.
  intros. unfold shrink. destruct (Nat.ltb_spec n (c / 2)); cbn [andb]; [|lia].
  destruct (Nat.ltb_spec 25 c); lia.
Qed.

Lemma right_ge_spec a b : if right_ge a b then b <= a else a <= b.
Proof. unfold right_ge. destruct (Z.leb_spec b a); lia. Qed.

Lemma right_lt_spec a b : if right_lt a b then b <= a else a <= b.
Proof. unfold right_lt. destruct (Z.ltb_spec b a); lia. Qed.

Lemma Remove_spec i q x : pq_ok q -> items q !! i = Some x ->
  exists q', Remove i q = Ret (x, q') /\ removed q x q'.
Proof.
  intros Hq Hx. pose proof (lookup_lt_Some _ _ _ Hx) as Hi. pose proof Hq as [Hw Hh].
  pose proof (wf_cap _ Hw) as [Hc1 Hc2]. unfold Remove.
  destruct (Nat.eqb_spec (length (items q) - 1) i) as [<-|Hne]; cbn [negb].
  - apply cut_spec; auto using moves_refl; try lia. intros k Hk. apply Hh. lia.
  - destruct (remove_down right_ge q i (length (items q)) right_ge_spec Hq ltac:(lia) ltac:(lia))
      as (q1 & i' & q2 & E1 & L1 & E2 & M2 & H1 & H2 & _ & _ & Hl).
    rewrite E1. cbn [mbind outcome_bind]. rewrite E2. cbn [mbind outcome_bind].
    pose proof (moves_length _ _ M2) as L2.
    destruct (up_spec (length (items q)) (length (items q) - 1) i q2 ltac:(lia) ltac:(lia) ltac:(lia) H2)
      as (q3 & E3 & M3 & H3 & Ho3).
    rewrite E3. cbn [mbind outcome_bind]. pose proof (moves_trans _ _ _ M2 M3) as M.
    rewrite (mv_cap _ _ M). apply cut_spec; auto; try lia. rewrite Ho3, Hl by lia. done.
Qed.

Lemma heap_Remove_spec i q x : pq_ok q -> items q !! i = Some x ->
  exists q', heap_Remove i q = Ret (x, q') /\ removed q x q'.
Proof.
  intros Hq Hx. pose proof (lookup_lt_Some _ _ _ Hx) as Hi. pose proof Hq as [Hw Hh].
  pose proof (wf_cap _ Hw) as [Hc1 Hc2]. unfold heap_Remove.
  destruct (shrink_bound _ _ Hc1 Hc2) as [Hs1 Hs2].
  destruct (Nat.eqb_spec (length (items q) - 1) i) as [<-|Hne]; cbn [negb].
  - apply cut_spec; auto using moves_refl; try lia. intros k Hk. apply Hh. lia.
  - destruct (remove_down right_lt q i (S (length (items q) - 1)) right_lt_spec Hq ltac:(lia) ltac:(lia))
      as (q1 & i' & q2 & E1 & L1 & E2 & M2 & H1 & H2 & _ & Hi' & Hl).
    rewrite E1. cbn [mbind outcome_bind]. rewrite E2. cbn [mbind outcome_bind].
    pose proof (moves_length _ _ M2) as L2. destruct (Nat.ltb_spec i i'); cbn [negb mbind outcome_bind].
    + rewrite (moves_length _ _ M2), (mv_cap _ _ M2). apply cut_spec; auto; try lia. by rewrite Hl.
    + destruct (up_spec (S (length (items q) - 1)) (length (items q) - 1) i q2 ltac:(lia) ltac:(lia) ltac:(lia) H2)
        as (q3 & E3 & M3 & H3 & Ho3).
      rewrite E3. cbn [mbind outcome_bind]. pose proof (moves_trans _ _ _ M2 M3) as M.
      rewrite (moves_length _ _ M), (mv_cap _ _ M). apply cut_spec; auto; try lia. by rewrite Ho3, Hl by lia.
Qed.

Lemma Pop_spec q x : pq_ok q -> items q !! 0%nat = Some x ->
  exists q', Pop q = Ret (x, q') /\ removed q x q'.
Proof.
  intros Hq Hx. pose proof (lookup_lt_Some _ _ _ Hx) as Hi. pose proof Hq as [Hw Hh].
  pose proof (wf_cap _ Hw) as [Hc1 Hc2]. unfold Pop.
  destruct (shrink_bound _ _ Hc1 Hc2) as [Hs1 Hs2].
  assert (Hdown : exists q1 i' q2, Swap 0 (length (items q) - 1) q = Ret q1 /\
    down right_ge (length (items q)) 0 (length (items q) - 1) q1 = Ret (i', q2) /\ moves q q2 /\
    heap (length (items q) - 1) q2 /\ items q2 !! (length (items q) - 1)%nat = Some x).
  { destruct (decide (0 < length (items q) - 1)%nat) as [Hlt|Hge].
    - destruct (remove_down right_ge q 0 (length (items q)) right_ge_spec Hq Hlt (le_n _))
        as (q1 & i' & q2 & E1 & _ & E2 & M2 & _ & _ & H0 & _ & Hl).
      exists q1, i', q2. rewrite Hl. auto 10.
    - replace (length (items q) - 1)%nat with 0%nat by lia.
      destruct (Swap_spec q 0 0 ltac:(lia) ltac:(lia)) as (q1 & E1 & M1 & _ & _ & Hl).
      exists q1, 0%nat, q1. split; [done|]. split; [by destruct (length (items q)); [lia|]|]. split; [done|].
      split; [intros k Hk; lia|]. by rewrite Hl. }
  destruct Hdown as (q1 & i' & q2 & E1 & E2 & M & H3 & H3x). rewrite E1. cbn [mbind outcome_bind].
  rewrite E2. cbn [mbind outcome_bind]. rewrite (mv_cap _ _ M). apply cut_spec; auto; lia.
Qed.

(** The first element comes before all others. *)
Lemma heap_min q x : pq_ok q -> items q !! 0%nat = Some x -> forall y, y ∈ items q -> pri x <= pri y.
Proof.
  intros [Hw Hh] Hx. assert (Hall : forall k, (k < length (items q))%nat -> pri x <= K q k).
  { induction k as [k IH] using lt_wf_ind. intros Hk. destruct k as [|k]; [unfold K; by rewrite Hx|].
    pose proof (parent_lt (S k) ltac:(lia)). pose proof (Hh (S k) ltac:(lia)) as He. unfold edge in He.
    specialize (IH (parent (S k)) ltac:(lia) ltac:(lia)). lia. }
  intros y Hy. apply list_elem_of_lookup in Hy as [k Hk]. pose proof (lookup_lt_Some _ _ _ Hk) as Hlt.
  specialize (Hall k Hlt). unfold K in Hall. by rewrite Hk in Hall.
Qed.

(** ** What a channel relies on: PeekAndShift of either queue *)

Definition shift_op : Type := Z -> pqueue P -> outcome unit (option P * Z * pqueue P).

(** The contract of PeekAndShift: nothing from an empty queue; nothing, and the time to
    wait, when the first priority is above [max]; else an element of lowest priority. *)
Class ShiftQueue (shift : shift_op) : Prop := shift_spec q max : pq_ok q ->
  match items q with
  | [] => shift max q = Ret (None, 0, q)
  | x :: _ =>
      (forall y, y ∈ items q -> pri x <= pri y) /\
      if max <? pri x then shift max q = Ret (None, i64 (pri x - max), q)
      else exists q', shift max q = Ret (Some x, 0, q') /\ removed q x q'
  end.

#[export] Instance inflight_shift : ShiftQueue PeekAndShift.
Proof.
  intros q max Hq. unfold PeekAndShift. destruct (items q) as [|x l] eqn:E; [done|].
  assert (Hx : items q !! 0%nat = Some x) by (by rewrite E).
  split; [rewrite <- E; by apply heap_min|]. destruct (max <? pri x); [done|].
  destruct (Pop_spec q x Hq Hx) as (q' & E' & Hr). rewrite E'. eauto.
Qed.

#[export] Instance deferred_shift : ShiftQueue heap_PeekAndShift.
Proof.
  intros q max Hq. unfold heap_PeekAndShift. destruct (items q) as [|x l] eqn:E; [done|].
  assert (Hx : items q !! 0%nat = Some x) by (by rewrite E).
  split; [rewrite <- E; by apply heap_min|]. destruct (max <? pri x); [done|].
  destruct (heap_Remove_spec 0 q x Hq Hx) as (q' & E' & Hr). rewrite E'. eauto.
Qed.

Section drain.
Context (shift : shift_op) `{!ShiftQueue shift}.

(** Shifting until nothing is due, as the queue scan of a channel does. *)
Fixpoint drain (fuel : nat) (max : Z) (q : pqueue P) : outcome unit (list P * pqueue P) :=
  match fuel with
  | O => Fail tt
  | S fuel =>
      '(x, _, q) ← shift max q;
      match x with
      | None => Ret ([], q)
      | Some x => '(l, q) ← drain fuel max q; Ret (x :: l, q)
      end
  end.

Lemma drain_spec fuel : forall max q, pq_ok q -> (length (items q) < fuel)%nat ->
  exists l q', drain fuel max q = Ret (l, q') /\ pq_ok q' /\ items q ≡ₚ l ++ items q' /\
    StronglySorted (fun x y => pri x <= pri y) l /\ (forall x, x ∈ l -> pri x <= max) /\
    (forall x, x ∈ items q' -> max < pri x) /\ (forall x, x ∈ l -> index q' !! x = Some (-1)) /\
    (forall x, x ∉ items q -> index q' !! x = index q !! x).
Proof.
  induction fuel as [|fuel IH]; intros max q Hq Hf; [lia|]. cbn [drain].
  pose proof (shift_spec q max Hq) as Hs. destruct (items q) as [|x rest] eqn:Ei.
  { rewrite Hs. cbn [mbind outcome_bind]. exists [], q. split_and!; try done.
    - by rewrite Ei.
    - constructor.
    - intros x Hx. by apply elem_of_nil in Hx.
    - rewrite Ei. intros x Hx. by apply elem_of_nil in Hx.
    - intros x Hx. by apply elem_of_nil in Hx. }
  destruct Hs as [Hmin Hs]. destruct (Z.ltb_spec max (pri x)) as [Hlt|Hge].
  { rewrite Hs. cbn [mbind outcome_bind]. exists [], q. split_and!; try done.
    - by rewrite Ei.
    - constructor.
    - intros y Hy. by apply elem_of_nil in Hy.
    - rewrite Ei. intros y Hy. specialize (Hmin y Hy). lia.
    - intros y Hy. by apply elem_of_nil in Hy. }
  destruct Hs as (q1 & E1 & [Ro Rp Ri Rx]). rewrite E1. cbn [mbind outcome_bind].
  assert (Hl1 : length (x :: rest) = S (length (items q1))) by (rewrite <- Ei; by rewrite (Permutation_length Rp)).
  destruct (IH max q1 Ro ltac:(lia)) as (l & q2 & E2 & H2 & Hp & Hsort & Hle & Hgt & Hi & Ho).
  rewrite E2. cbn [mbind outcome_bind]. exists (x :: l), q2. rewrite Ei in Rp, Rx.
  assert (Hnx : x ∉ items q1).
  { pose proof (wf_nodup _ (ok_wf _ Hq)) as Hn. rewrite Ei, Rp in Hn. by apply NoDup_cons in Hn as [? _]. }
  split_and!; try done.
  - rewrite Rp, Hp. done.
  - constructor; [done|]. apply Forall_forall. intros y Hy. apply Hmin. rewrite Rp, Hp.
    right. apply elem_of_app. by left.
  - intros y Hy. apply elem_of_cons in Hy as [->|Hy]; [done|by apply Hle].
  - intros y Hy. apply elem_of_cons in Hy as [->|Hy]; [|by apply Hi]. by rewrite Ho.
  - intros y Hy. rewrite Ho; [by apply Rx|]. intros Hin. apply Hy. rewrite Rp. by right.
Qed.

End drain.
End queue.

Arguments drain {P _ _} shift fuel max q.

(** ** Properties *)

(** C25: the two priority queues.  On a well-formed queue (distinct elements that know
    their positions, a min-heap on their priorities, capacity at least one), pushing a
    new element never panics and adds exactly it; removing at a position returns the
    element there and leaves exactly the others; both keep the queue well-formed, and a
    removed element has index -1.  Pop panics on an empty queue; otherwise it takes an
    element of least priority and leaves exactly the others, and PeekAndShift takes the
    least element too when its priority is at most the bound, else it changes nothing and
    gives the time to wait.  This holds for the in-flight queue and for the one on
    container/heap, whose tie rules and shrinking differ. *)
Theorem pqueue_ops {P} `{Countable P} (pri : P -> Z) (q : pqueue P) :
  pq_ok pri q ->
  (forall x, x ∉ items q ->
     (exists q', Push pri x q = Ret q' /\ pq_ok pri q' /\ items q' ≡ₚ x :: items q) /\
     (exists q', heap_Push pri x q = Ret q' /\ pq_ok pri q' /\ items q' ≡ₚ x :: items q)) /\
  (forall i x, items q !! i = Some x ->
     index q !! x = Some (Z.of_nat i) /\
     (exists q', Remove pri i q = Ret (x, q') /\ removed pri q x q') /\
     (exists q', heap_Remove pri i q = Ret (x, q') /\ removed pri q x q')) /\
  match items q with
  | [] => Pop pri q = Panic /\ forall max, PeekAndShift pri max q = Ret (None, 0, q) /\
            heap_PeekAndShift pri max q = Ret (None, 0, q)
  | _ => exists x q', Pop pri q = Ret (x, q') /\ removed pri q x q' /\ (forall y, y ∈ items q -> pri x <= pri y) /\
      forall max,
        if pri x <=? max then
          PeekAndShift pri max q = Ret (Some x, 0, q') /\
          exists q2, heap_PeekAndShift pri max q = Ret (Some x, 0, q2) /\ removed pri q x q2
        else
          PeekAndShift pri max q = Ret (None, i64 (pri x - max), q) /\
          heap_PeekAndShift pri max q = Ret (None, i64 (pri x - max), q)
  end.
Proof.
  intros Hq. split; [|split].
  - intros x Hx. destruct (Push_spec pri x q Hq Hx) as (q1 & E1 & H1 & H2 & _).
    destruct (heap_Push_spec pri x q Hq Hx) as (q2 & E2 & H3 & H4 & _). eauto 10.
  - intros i x Hx. split; [by apply (wf_index _ (ok_wf _ _ Hq))|].
    split; [by apply Remove_spec|by apply heap_Remove_spec].
  - destruct (items q) as [|x l] eqn:E.
    { unfold Pop, Swap, PeekAndShift, heap_PeekAndShift. by rewrite E. }
    assert (Hx : items q !! 0%nat = Some x) by (by rewrite E). rewrite <- E.
    destruct (Pop_spec pri q x Hq Hx) as (q' & E1 & Hr). exists x, q'.
    split; [done|]. split; [done|]. split; [by apply heap_min|]. intros max.
    pose proof (deferred_shift pri q max Hq) as Hd. rewrite E in Hd. destruct Hd as [_ Hd].
    unfold PeekAndShift. rewrite E, E1. rewrite Z.leb_antisym. destruct (max <? pri x); cbn [negb mbind outcome_bind]; [done|].
    split; [done|]. exact Hd.
Qed.

(** Two elements in, the lesser one out. *)
Lemma pqueue_ops_witness :
  pq_ok (fun x : Z => x) (newPqueue 1) /\
  exists q q' q'' x, Push (fun x : Z => x) 7 (newPqueue 1) = Ret q /\ Push (fun x : Z => x) 5 q = Ret q' /\
    Pop (fun x : Z => x) q' = Ret (x, q'') /\ items q' ≡ₚ x :: items q'' /\ (forall y, y ∈ items q' -> x <= y).
Proof.
  split; [apply newPqueue_ok; lia|].
  destruct (pqueue_ops (fun x : Z => x) (newPqueue 1) (newPqueue_ok _ 1 (le_n _))) as [H _].
  destruct (H 7) as [(q & E1 & Hq & P1) _]; [set_solver|].
  destruct (pqueue_ops (fun x : Z => x) q Hq) as [H2 _].
  destruct (H2 5) as [(q' & E2 & Hq' & P2) _]; [rewrite P1; set_solver|].
  destruct (pqueue_ops (fun x : Z => x) q' Hq') as (_ & _ & H3).
  destruct (items q') as [|a l] eqn:E3; [by apply Permutation_nil_cons in P2|]. rewrite <- E3 in *.
  destruct H3 as (x & q'' & E4 & [_ P3 _ _] & Hmin & _). exists q, q', q'', x. auto.
Defined.

(** PeekAndShift drains what is due, in order.  For each queue, shifting until
    nothing is returned terminates within one round per element and returns exactly the
    elements of priority at most [max], in ascending order; the rest stay queued, and
    the elements returned have index -1. *)
Theorem pqueue_drain {P} `{Countable P} (pri : P -> Z) (shift : shift_op)
    `{!ShiftQueue pri shift} (max : Z) (q : pqueue P) :
  pq_ok pri q ->
  exists l q', drain shift (S (length (items q))) max q = Ret (l, q') /\ pq_ok pri q' /\
    items q ≡ₚ l ++ items q' /\ StronglySorted (fun x y => pri x <= pri y) l /\
    (forall x, x ∈ l -> pri x <= max) /\ (forall x, x ∈ items q' -> max < pri x) /\
    (forall x, x ∈ l -> index q' !! x = Some (-1)).
Proof.
  intros Hq. destruct (drain_spec pri shift (S (length (items q))) max q Hq ltac:(lia))
    as (l & q' & H1 & H2 & H3 & H4 & H5 & H6 & H7 & _). exists l, q'. auto 10.
Qed.

Definition three : outcome unit (pqueue Z) :=
  q ← Push (fun x => x) 5 (newPqueue 1); q ← Push (fun x => x) 3 q; Push (fun x => x) 9 q.

Lemma pqueue_drain_witness :
  exists q, three = Ret q /\ pq_ok (fun x : Z => x) q /\
  exists l q', drain (PeekAndShift (fun x => x)) (S (length (items q))) 6 q = Ret (l, q') /\
    items q ≡ₚ l ++ items q'.
Proof.
  destruct (Push_spec (fun x : Z => x) 5 (newPqueue 1) (newPqueue_ok _ 1 (le_n _)) ltac:(set_solver))
    as (q1 & E1 & H1 & P1 & _).
  destruct (Push_spec (fun x : Z => x) 3 q1 H1) as (q2 & E2 & H2 & P2 & _).
  { rewrite P1. set_solver. }
  destruct (Push_spec (fun x : Z => x) 9 q2 H2) as (q3 & E3 & H3 & P3 & _).
  { rewrite P2, P1. set_solver. }
  exists q3. split; [unfold three; rewrite E1; cbn [mbind outcome_bind]; rewrite E2; exact E3|].
  split; [exact H3|].
  destruct (pqueue_drain (fun x : Z => x) (PeekAndShift (fun x => x)) 6 q3 H3)
    as (l & q' & E & _ & Hp & _).
  exists l, q'. split; [exact E|exact Hp].
Defined.

Example drain_three :
  (q ← three; '(l, q) ← drain (PeekAndShift (fun x => x)) 4 6 q; Ret (l, items q)) = Ret ([3; 5], [9]).
Proof. vm_compute. reflexivity. Qed.
