(* ===== verification/NsqMessage.v ===== *)
(** nsqd/message.go and nsqd/guid.go: messages, their wire format, and the generator of
    message ids.

    A writer is a state with a Write operation that takes the bytes it accepts, their
    number and an error.  Times are in nanoseconds. *)

From Stdlib Require Import ZArith Lia.
From stdpp Require Import base numbers option list sorting.
From S2P Require Import Prelude.
#[local] Open Scope Z_scope.

(** ** message.go *)

Definition MsgIDLength : nat := 16.
Definition minValidMsgLength : nat := (MsgIDLength + 8 + 2)%nat.

Definition MessageID : Type := list Z.

(** A message; its index field is kept by the in-flight queue. *)
Record Message := mkMessage {
  ID : MessageID;
  Body : list Z;
  Timestamp : Z;
  Attempts : Z;
  deliveryTS : Z;
  clientID : Z;
  pri : Z;
  deferred : Z
}.

Definition NewMessage (id : MessageID) (body : list Z) (now : Z) : Message :=
  mkMessage id body now 0 0 0 0 0.

Section writer.
Context {W E : Type} (Write : W -> list Z -> W * Z * option E).

(** The writes in order; the first error ends them. *)
Fixpoint writes (w : W) (total : Z) (bufs : list (list Z)) : W * Z * option E :=
  match bufs with
  | [] => (w, total, None)
  | b :: bufs =>
      let '(w, n, err) := Write w b in
      let total := total + n in
      match err with Some e => (w, total, Some e) | None => writes w total bufs end
  end.

Definition WriteTo (m : Message) (w : W) : W * Z * option E :=
  writes w 0 [be_put 8 (u64 (Timestamp m)) ++ be_put 2 (u16 (Attempts m)); ID m; Body m].

End writer.

(** bytes.Buffer: accepts everything. *)
Definition buffer_write (w b : list Z) : list Z * Z * option unit :=
  (w ++ b, Z.of_nat (length b), None).

Definition encodeMessage (m : Message) : list Z := (WriteTo buffer_write m []).1.1.

Inductive msg_error := InvalidBufferSize (n : nat).

Definition decodeMessage (b : list Z) : outcome msg_error Message :=
  if (length b <? minValidMsgLength)%nat then Fail (InvalidBufferSize (length b))
  else
    Ret (mkMessage (slice 10 (10 + MsgIDLength) b) (drop (10 + MsgIDLength) b)
           (i64 (be_get (slice 0 8 b))) (be_get (slice 8 10 b)) 0 0 0 0).

(** writeMessageToBackend with the backend's Put: its new state and error. *)
Definition writeMessageToBackend {B E} (Put : B -> list Z -> B * option E) (m : Message) (bq : B)
    : B * option E :=
  Put bq (encodeMessage m).

(** ** guid.go *)

Definition nodeIDBits : Z := 10.
Definition sequenceBits : Z := 12.
Definition nodeIDShift : Z := sequenceBits.
Definition timestampShift : Z := sequenceBits + nodeIDBits.
Definition sequenceMask : Z := Z.lxor (-1) (i64 (Z.shiftl (-1) sequenceBits)).
Definition twepoch : Z := 1288834974288.

Inductive guid_error := ErrTimeBackwards | ErrSequenceExpired | ErrIDBackwards.

Record guidFactory := mkGF {
  nodeID : Z;
  sequence : Z;
  lastTimestamp : Z;
  lastID : Z
}.

Definition NewGUIDFactory (nodeID : Z) : guidFactory := mkGF nodeID 0 0 0.

(** NewGUID at the time [now]: the factory afterwards and the id or the error. *)
Definition NewGUID (now : Z) (f : guidFactory) : guidFactory * (Z + guid_error) :=
  let ts := Z.shiftr now 20 in
  if ts <? lastTimestamp f then (f, inr ErrTimeBackwards)
  else
    let same := lastTimestamp f =? ts in
    let seq := if same then Z.land (i64 (sequence f + 1)) sequenceMask else 0 in
    let f := mkGF (nodeID f) seq (lastTimestamp f) (lastID f) in
    if same && (seq =? 0) then (f, inr ErrSequenceExpired)
    else
      let f := mkGF (nodeID f) seq ts (lastID f) in
      let id := Z.lor (Z.lor (i64 (Z.shiftl (i64 (ts - twepoch)) timestampShift))
                             (i64 (Z.shiftl (nodeID f) nodeIDShift))) seq in
      if id <=? lastID f then (f, inr ErrIDBackwards)
      else (mkGF (nodeID f) seq ts id, inl id).

(** hex.Encode of the standard library. *)
Definition hex_digit (n : Z) : Z := if n <? 10 then 48 + n else 87 + n.

Definition hex_encode (b : list Z) : list Z :=
  concat ((fun x => [hex_digit (Z.shiftr x 4); hex_digit (Z.land x 15)]) <$> b).

Definition Hex (g : Z) : MessageID :=
  hex_encode [u8 (Z.shiftr g 56); u8 (Z.shiftr g 48); u8 (Z.shiftr g 40); u8 (Z.shiftr g 32);
              u8 (Z.shiftr g 24); u8 (Z.shiftr g 16); u8 (Z.shiftr g 8); u8 g].

(** ** Message bytes *)

Definition message_ok (m : Message) : Prop :=
  length (ID m) = MsgIDLength /\ - 2 ^ 63 <= Timestamp m < 2 ^ 63 /\ 0 <= Attempts m < 2 ^ 16.

(** The fields that travel; the others are those of a new message. *)
Definition wire (m : Message) : Message := mkMessage (ID m) (Body m) (Timestamp m) (Attempts m) 0 0 0 0.

Lemma encodeMessage_eq m :
  encodeMessage m = be_put 8 (u64 (Timestamp m)) ++ be_put 2 (u16 (Attempts m)) ++ ID m ++ Body m.
Proof. unfold encodeMessage, WriteTo. cbn [writes buffer_write]. cbn. by rewrite <- !app_assoc. Qed.

Lemma decode_encode m : message_ok m -> decodeMessage (encodeMessage m) = Ret (wire m).
Proof.
  intros (Hid & Hts & Hat). rewrite encodeMessage_eq. unfold MsgIDLength in Hid.
  set (a := be_put 8 (u64 (Timestamp m))). set (b := be_put 2 (u16 (Attempts m))).
  assert (La : length a = 8%nat) by apply length_be_put.
  assert (Lb : length b = 2%nat) by apply length_be_put.
  unfold decodeMessage, minValidMsgLength, MsgIDLength. rewrite !length_app.
  destruct (Nat.ltb_spec (length a + (length b + (length (ID m) + length (Body m)))) (16 + 8 + 2)); [lia|].
  unfold wire. do 2 f_equal.
  - rewrite (app_assoc a). by rewrite slice_app_mid by (rewrite ?length_app; lia).
  - rewrite !app_assoc. rewrite drop_app_ge by (rewrite !length_app; lia). rewrite !length_app.
    by replace (10 + 16 - (length a + length b + length (ID m)))%nat with 0%nat by lia.
  - rewrite slice_app_start by lia. unfold a. rewrite be_get_put_id by (apply (wrap_range 64); lia).
    by apply i64_u64.
  - rewrite slice_app_mid by lia. unfold b. rewrite be_get_put_id by (apply (wrap_range 16); lia).
    by apply wrap_id.
Qed.

Lemma encode_decode b : bytes_ok b -> (minValidMsgLength <= length b)%nat ->
  exists m, decodeMessage b = Ret m /\ message_ok m /\ encodeMessage m = b.
Proof.
  intros Hb Hl. unfold decodeMessage, minValidMsgLength, MsgIDLength in *.
  destruct (Nat.ltb_spec (length b) (16 + 8 + 2)); [lia|]. eexists. split; [reflexivity|].
  assert (L8 : length (slice 0 8 b) = 8%nat) by (rewrite length_slice; lia).
  assert (L2 : length (slice 8 10 b) = 2%nat) by (rewrite length_slice; lia).
  assert (G8 := be_put_get (slice 0 8 b) (slice_ok _ _ _ Hb)). rewrite L8 in G8.
  assert (G2 := be_put_get (slice 8 10 b) (slice_ok _ _ _ Hb)). rewrite L2 in G2.
  assert (Hbound : forall n l, length l = n -> bytes_ok l -> 0 <= be_get l < 2 ^ (8 * Z.of_nat n)).
  { intros n l <- Hl'. unfold be_get. rewrite <- length_reverse. apply le_get_bound.
    unfold bytes_ok. by rewrite Forall_reverse. }
  pose proof (Hbound _ _ L8 (slice_ok _ _ _ Hb)). pose proof (Hbound _ _ L2 (slice_ok _ _ _ Hb)).
  split.
  - split; [|split]; cbn [ID Timestamp Attempts].
    + rewrite length_slice; unfold MsgIDLength; lia.
    + apply (swrap_range 64). lia.
    + done.
  - rewrite encodeMessage_eq; cbn [ID Body Timestamp Attempts].
    rewrite wrap_swrap, !wrap_id by lia. rewrite G8, G2. symmetry.
    change (b = take 8 b ++ take 2 (drop 8 b) ++ take 16 (drop 10 b) ++ drop 26 b).
    rewrite <- (take_drop 8 b) at 1. f_equal. rewrite <- (take_drop 2 (drop 8 b)) at 1. f_equal.
    rewrite drop_drop. change (8 + 2)%nat with 10%nat. rewrite <- (take_drop 16 (drop 10 b)) at 1. f_equal.
    by rewrite drop_drop.
Qed.

(** ** Identifiers *)

(** The id made of a timestamp, a node and a sequence number. *)
Definition compose (ts node seq : Z) : Z := (ts - twepoch) * 2 ^ 22 + node * 2 ^ 12 + seq.

Definition valid_time (ts : Z) : Prop := twepoch < ts < twepoch + 2 ^ 41.

Lemma sequenceMask_eq : sequenceMask = 2 ^ 12 - 1.
Proof. reflexivity. Qed.

Lemma id_compose ts node seq : valid_time ts -> 0 <= node < 2 ^ 10 -> 0 <= seq < 2 ^ 12 ->
  Z.lor (Z.lor (i64 (Z.shiftl (i64 (ts - twepoch)) timestampShift)) (i64 (Z.shiftl node nodeIDShift))) seq
  = compose ts node seq.
Proof.
  intros [H1 H2] Hn Hs. unfold timestampShift, nodeIDShift, sequenceBits, nodeIDBits, compose, twepoch in *.
  change (2 ^ 41) with 2199023255552 in *. change (2 ^ 10) with 1024 in *.
  rewrite (swrap_id 64 (ts - _)) by (change (2 ^ (64 - 1)) with 9223372036854775808; lia).
  rewrite !Z.shiftl_mul_pow2 by lia. change (2 ^ (12 + 10)) with 4194304. change (2 ^ 22) with 4194304.
  change (2 ^ 12) with 4096 in *.
  rewrite !swrap_id by (try lia; change (2 ^ (64 - 1)) with 9223372036854775808; lia).
  change 4194304 with (2 ^ 22). change 4096 with (2 ^ 12). rewrite <- !Z.shiftl_mul_pow2 by lia.
  rewrite <- Z.lor_assoc, (lor_shiftl_add node seq 12) by (change (2 ^ 12) with 4096; lia).
  rewrite lor_shiftl_add by (change (2 ^ 22) with 4194304; change (2 ^ 12) with 4096; lia).
  rewrite !Z.shiftl_mul_pow2 by lia. lia.
Qed.

(** The parts can be read off an id. *)
Lemma compose_inj ts1 n1 s1 ts2 n2 s2 : 0 <= n1 < 2 ^ 10 -> 0 <= n2 < 2 ^ 10 ->
  0 <= s1 < 2 ^ 12 -> 0 <= s2 < 2 ^ 12 -> compose ts1 n1 s1 = compose ts2 n2 s2 ->
  ts1 = ts2 /\ n1 = n2 /\ s1 = s2.
Proof.
  unfold compose. change (2 ^ 10) with 1024. change (2 ^ 12) with 4096. change (2 ^ 22) with 4194304. lia.
Qed.

(** A factory between two calls: its last id was made at its last timestamp, with a
    sequence number not below the current one unless the sequence has wrapped. *)
Record factory_ok (f : guidFactory) : Prop := {
  fo_node : 0 <= nodeID f < 2 ^ 10;
  fo_seq : 0 <= sequence f < 2 ^ 12;
  fo_last : (lastTimestamp f = 0 /\ lastID f = 0) \/
            (valid_time (lastTimestamp f) /\ exists s, 0 <= s < 2 ^ 12 /\
               lastID f = compose (lastTimestamp f) (nodeID f) s /\ sequence f <= s)
}.

Lemma NewGUIDFactory_ok n : 0 <= n < 2 ^ 10 -> factory_ok (NewGUIDFactory n).
Proof. intros. split; cbn; [done|lia|by left]. Qed.

Lemma next_seq s : 0 <= s < 2 ^ 12 ->
  Z.land (i64 (s + 1)) sequenceMask = if s =? 2 ^ 12 - 1 then 0 else s + 1.
Proof.
  intros Hs. rewrite sequenceMask_eq. change (2 ^ 12 - 1) with (Z.ones 12). rewrite Z.land_ones by lia.
  change (Z.ones 12) with 4095. change (2 ^ 12) with 4096 in *.
  rewrite swrap_id by (change (2 ^ (64 - 1)) with 9223372036854775808; lia).
  destruct (Z.eqb_spec s 4095) as [->|]; [reflexivity|]. apply Z.mod_small. lia.
Qed.

(** NewGUID by cases on the time. *)
Lemma NewGUID_spec now f : factory_ok f -> valid_time (Z.shiftr now 20) ->
  let ts := Z.shiftr now 20 in
  let '(f', r) := NewGUID now f in
  factory_ok f' /\ nodeID f' = nodeID f /\
  match r with
  | inr e => lastID f' = lastID f /\ lastTimestamp f' = lastTimestamp f /\
      match e with
      | ErrTimeBackwards => ts < lastTimestamp f /\ f' = f
      | ErrSequenceExpired => ts = lastTimestamp f /\ sequence f = 2 ^ 12 - 1 /\ sequence f' = 0
      | ErrIDBackwards => ts = lastTimestamp f
      end
  | inl id => lastTimestamp f <= ts /\ lastID f < id /\ lastID f' = id /\ lastTimestamp f' = ts /\
              id = compose ts (nodeID f) (sequence f') /\ (lastTimestamp f < ts -> sequence f' = 0)
  end.
Proof.
  intros [Hn Hs Hl] Hts ts. unfold NewGUID. fold ts. fold ts in Hts. clearbody ts.
  destruct (Z.ltb_spec ts (lastTimestamp f)) as [Hback|Hge]; [by split_and!|].
  cbn [nodeID sequence lastTimestamp lastID].
  destruct (Z.eqb_spec (lastTimestamp f) ts) as [Heq|Hne]; cbn [andb].
  - rewrite next_seq by done. destruct Hl as [[H0 _]|(Hv & s & Hs2 & Hlid & Hle)].
    { unfold valid_time, twepoch in Hts. lia. }
    destruct (Z.eqb_spec (sequence f) (2 ^ 12 - 1)) as [E|E].
    + change (0 =? 0) with true. cbv iota. split; [|by auto 10]. split; cbn [nodeID sequence lastTimestamp lastID]; [done|lia|].
      right. split; [done|]. exists s. split; [done|]. split; [done|]. lia.
    + destruct (Z.eqb_spec (sequence f + 1) 0); [lia|].
      rewrite id_compose by (done || lia). rewrite Hlid.
      destruct (Z.leb_spec (compose ts (nodeID f) (sequence f + 1)) (compose (lastTimestamp f) (nodeID f) s)) as [Hb|Hb].
      * rewrite Heq in Hb |- *. split; [|by auto 10]. split; cbn [nodeID sequence lastTimestamp lastID]; [done|lia|].
        right. split; [done|]. exists s. split; [done|]. split; [done|]. unfold compose in Hb. lia.
      * split.
        { split; cbn [nodeID sequence lastTimestamp lastID]; [done|lia|]. right. split; [done|]. exists (sequence f + 1). split; [lia|]. done. }
        cbn [nodeID sequence lastTimestamp lastID]. split_and!; auto; lia.
  - rewrite id_compose by (done || (change (2 ^ 12) with 4096; lia)).
    assert (Hgt : lastID f < compose ts (nodeID f) 0).
    { unfold compose, valid_time in *. destruct Hl as [[_ ->]|(Hv & s & Hs2 & -> & _)].
      - change (2 ^ 22) with 4194304. lia.
      - change (2 ^ 22) with 4194304 in *. change (2 ^ 12) with 4096 in *. change (2 ^ 10) with 1024 in *. lia. }
    destruct (Z.leb_spec (compose ts (nodeID f) 0) (lastID f)); [lia|].
    split.
    { split; cbn [nodeID sequence lastTimestamp lastID]; [done|lia|]. right. split; [done|]. exists 0. split; [lia|]. split; [done|lia]. }
    cbn [nodeID sequence lastTimestamp lastID]. split_and!; auto; lia.
Qed.

(** topic.go: GenerateID retries at the successive times of [times] until NewGUID
    succeeds; [None] is still retrying. *)
Fixpoint GenerateID (times : list Z) (f : guidFactory) : option (guidFactory * MessageID) :=
  match times with
  | [] => None
  | now :: times =>
      match NewGUID now f with
      | (f, inl id) => Some (f, Hex id)
      | (f, inr _) => GenerateID times f
      end
  end.

(** The ids a factory makes over a list of calls. *)
Fixpoint generate (nows : list Z) (f : guidFactory) : guidFactory * list Z :=
  match nows with
  | [] => (f, [])
  | now :: nows =>
      let '(f, r) := NewGUID now f in
      let '(f, ids) := generate nows f in
      (f, match r with inl id => id :: ids | inr _ => ids end)
  end.

(** An id of the given node at a valid time. *)
Definition id_of (node id : Z) : Prop :=
  exists ts seq, valid_time ts /\ 0 <= seq < 2 ^ 12 /\ id = compose ts node seq.

Lemma id_of_range node id : 0 <= node < 2 ^ 10 -> id_of node id -> 0 < id < 2 ^ 63.
Proof.
  intros Hn (ts & seq & [H1 H2] & Hs & ->). unfold compose in *. change (2 ^ 41) with 2199023255552 in *.
  change (2 ^ 10) with 1024 in *. change (2 ^ 12) with 4096 in *. change (2 ^ 22) with 4194304.
  change (2 ^ 63) with 9223372036854775808. unfold twepoch in *. lia.
Qed.

Lemma generate_spec nows : forall f, factory_ok f -> Forall (fun now => valid_time (Z.shiftr now 20)) nows ->
  let '(f', ids) := generate nows f in
  factory_ok f' /\ nodeID f' = nodeID f /\ StronglySorted Z.lt ids /\
  (forall id, id ∈ ids -> lastID f < id /\ id_of (nodeID f) id).
Proof.
  induction nows as [|now nows IH]; intros f Hf Hv; cbn [generate].
  { split_and!; try done; [constructor|]. intros id Hid. by apply elem_of_nil in Hid. }
  apply Forall_cons in Hv as [Hnow Hv]. pose proof (NewGUID_spec now f Hf Hnow) as H.
  cbv zeta in H. destruct (NewGUID now f) as [f1 r]. destruct H as (Hf1 & Hn1 & Hr).
  specialize (IH f1 Hf1 Hv). destruct (generate nows f1) as [f2 ids]. destruct IH as (Hf2 & Hn2 & Hs & Hids).
  rewrite Hn1 in Hn2. destruct r as [id|e].
  - destruct Hr as (Hle & Hgt & Hlast & Hts & Hid & _). split_and!; [done|done| |].
    + constructor; [done|]. apply Forall_forall. intros x Hx. apply Hids in Hx as [Hx _]. lia.
    + intros x Hx. apply elem_of_cons in Hx as [->|Hx].
      * split; [done|]. rewrite Hid. exists (Z.shiftr now 20), (sequence f1). split; [done|].
        split; [apply Hf1|done].
      * apply Hids in Hx as [Hx Hx2]. rewrite Hn1 in Hx2. split; [lia|done].
  - destruct Hr as (Hlast & _). split_and!; [done|done|done|]. intros x Hx.
    apply Hids in Hx as [Hx Hx2]. rewrite Hn1 in Hx2. split; [lia|done].
Qed.

Lemma GenerateID_spec times : forall f, factory_ok f ->
  Forall (fun now => valid_time (Z.shiftr now 20)) times ->
  (exists now, now ∈ times /\ lastTimestamp f < Z.shiftr now 20) ->
  exists f' id, GenerateID times f = Some (f', Hex id) /\ factory_ok f' /\ lastID f < id /\ id_of (nodeID f) id.
Proof.
  induction times as [|now times IH]; intros f Hf Hv (n & Hn & Hlt); [by apply elem_of_nil in Hn|].
  apply Forall_cons in Hv as [Hnow Hv]. cbn [GenerateID]. pose proof (NewGUID_spec now f Hf Hnow) as H.
  cbv zeta in H. destruct (NewGUID now f) as [f1 [id|e]]; destruct H as (Hf1 & Hn1 & Hr).
  - destruct Hr as (_ & Hgt & _ & _ & Hid & _). exists f1, id. split_and!; try done.
    rewrite Hid. exists (Z.shiftr now 20), (sequence f1). split; [done|]. split; [apply Hf1|done].
  - destruct Hr as (Hlast & Hts & He). destruct (IH f1 Hf1 Hv) as (f2 & id & E & H2 & H3 & H4).
    { apply elem_of_cons in Hn as [->|Hn]; [|exists n; rewrite Hts; done].
      exfalso. destruct e; lia. }
    exists f2, id. rewrite Hlast, Hn1 in *. done.
Qed.

(** *** Hex *)

Lemma hex_digit_inj x y : 0 <= x < 16 -> 0 <= y < 16 -> hex_digit x = hex_digit y -> x = y.
Proof. unfold hex_digit. intros. destruct (Z.ltb_spec x 10), (Z.ltb_spec y 10); lia. Qed.

Lemma nibbles b : byte_ok b ->
  b = Z.shiftr b 4 * 16 + Z.land b 15 /\ 0 <= Z.shiftr b 4 < 16 /\ 0 <= Z.land b 15 < 16.
Proof.
  intros Hb. unfold byte_ok in Hb. change 15 with (Z.ones 4). rewrite Z.land_ones, Z.shiftr_div_pow2 by lia.
  change (2 ^ 4) with 16. pose proof (Z.div_mod b 16 ltac:(lia)). pose proof (Z.mod_pos_bound b 16 ltac:(lia)). lia.
Qed.

Lemma hex_encode_inj a b : bytes_ok a -> bytes_ok b -> hex_encode a = hex_encode b -> a = b.
Proof.
  intros Ha. revert b. induction Ha as [|x a Hx Ha IH]; intros b Hb E; destruct Hb as [|y b Hy Hb]; try done.
  unfold hex_encode in *. cbn in E. injection E as E1 E2 E. rewrite (IH b Hb E). f_equal.
  destruct (nibbles x Hx) as (Ex & ? & ?), (nibbles y Hy) as (Ey & ? & ?).
  apply hex_digit_inj in E1; [|done|done]. apply hex_digit_inj in E2; [|done|done].
  rewrite Ex, Ey. lia.
Qed.

Lemma Hex_eq g : Hex g = hex_encode (be_put 8 (u64 g)).
Proof.
  unfold Hex. f_equal. unfold be_put, le_put. rewrite !Z.shiftr_shiftr by lia. cbn [Z.add Pos.add Pos.succ].
  unfold reverse, rev_append.
  assert (E : forall k, 0 <= k <= 56 -> u8 (Z.shiftr (u64 g) k) = u8 (Z.shiftr g k)).
  { intros k Hk. unfold wrap. apply Z.bits_inj'. intros n Hn.
    destruct (Z.ltb_spec n 8).
    - rewrite !Z.mod_pow2_bits_low by lia. rewrite !Z.shiftr_spec by lia. by rewrite Z.mod_pow2_bits_low by lia.
    - by rewrite !Z.mod_pow2_bits_high by lia. }
  rewrite !E by lia. rewrite <- (Z.shiftr_0_r (u64 g)), E by lia. by rewrite Z.shiftr_0_r.
Qed.

Lemma Hex_inj g1 g2 : 0 <= g1 < 2 ^ 63 -> 0 <= g2 < 2 ^ 63 -> Hex g1 = Hex g2 -> g1 = g2.
Proof.
  intros H1 H2 E. rewrite !Hex_eq in E. apply hex_encode_inj in E; [|apply be_put_ok..].
  assert (E' : be_get (be_put 8 (u64 g1)) = be_get (be_put 8 (u64 g2))) by (by rewrite E).
  rewrite !be_get_put_id in E' by (apply (wrap_range 64); lia).
  rewrite !wrap_id in E' by (change (2 ^ 64) with (2 * 2 ^ 63); lia). done.
Qed.

(** ** Properties *)

(** C26: messages survive the wire.  Decoding what WriteTo puts into a buffer gives back
    the timestamp, attempts, id and body; every buffer of at least 26 bytes decodes to a
    message that encodes to the same bytes; a shorter one is refused with its size. *)
Theorem message_roundtrip m b :
  (message_ok m -> decodeMessage (encodeMessage m) = Ret (wire m)) /\
  (bytes_ok b -> (minValidMsgLength <= length b)%nat ->
   exists m', decodeMessage b = Ret m' /\ message_ok m' /\ encodeMessage m' = b) /\
  ((length b < minValidMsgLength)%nat -> decodeMessage b = Fail (InvalidBufferSize (length b))).
Proof.
  split; [apply decode_encode|]. split; [apply encode_decode|]. intros Hl. unfold decodeMessage.
  by destruct (Nat.ltb_spec (length b) minValidMsgLength); [|lia].
Qed.

Definition example_message : Message :=
  mkMessage (replicate 16 97) [1; 2; 3] (-5) 2 0 0 0 0.

Lemma message_roundtrip_witness :
  message_ok example_message /\ decodeMessage (encodeMessage example_message) = Ret (wire example_message).
Proof.
  assert (Hok : message_ok example_message) by (split; [reflexivity|]; zground).
  split; [exact Hok|]. exact (proj1 (message_roundtrip example_message []) Hok).
Defined.

(** C27: ids are unique.  Over any lists of calls at valid times, in whatever order, a
    fresh factory makes strictly increasing ids; two factories with different node ids
    never make the same id; all of them are positive 63-bit numbers, and their hex forms
    differ. *)
Theorem guid_unique n1 n2 nows1 nows2 :
  0 <= n1 < 2 ^ 10 -> 0 <= n2 < 2 ^ 10 -> n1 <> n2 ->
  Forall (fun now => valid_time (Z.shiftr now 20)) nows1 ->
  Forall (fun now => valid_time (Z.shiftr now 20)) nows2 ->
  let ids1 := (generate nows1 (NewGUIDFactory n1)).2 in
  let ids2 := (generate nows2 (NewGUIDFactory n2)).2 in
  StronglySorted Z.lt ids1 /\ (forall id, id ∈ ids1 -> 0 < id < 2 ^ 63) /\
  (forall i j, i ∈ ids1 -> j ∈ ids2 -> i <> j) /\
  (forall i j, i ∈ ids1 ++ ids2 -> j ∈ ids1 ++ ids2 -> Hex i = Hex j -> i = j).
Proof.
  intros H1 H2 Hne Hv1 Hv2.
  pose proof (generate_spec nows1 _ (NewGUIDFactory_ok n1 H1) Hv1) as G1.
  pose proof (generate_spec nows2 _ (NewGUIDFactory_ok n2 H2) Hv2) as G2.
  destruct (generate nows1 _) as [f1 ids1], (generate nows2 _) as [f2 ids2]. cbn [snd nodeID NewGUIDFactory] in *.
  destruct G1 as (_ & _ & S1 & I1), G2 as (_ & _ & S2 & I2).
  assert (R1 : forall id, id ∈ ids1 -> 0 < id < 2 ^ 63) by (intros id Hid; by eapply id_of_range, I1).
  assert (R2 : forall id, id ∈ ids2 -> 0 < id < 2 ^ 63) by (intros id Hid; by eapply id_of_range, I2).
  split_and!; [done|done| |].
  - intros i j Hi Hj ->. apply I1 in Hi as (_ & ts1 & s1 & _ & Hs1 & E1).
    apply I2 in Hj as (_ & ts2 & s2 & _ & Hs2 & E2). rewrite E1 in E2.
    apply compose_inj in E2 as (_ & E & _); done.
  - intros i j Hi Hj. apply elem_of_app in Hi, Hj.
    assert (Hi' : 0 < i < 2 ^ 63) by (destruct Hi; auto). assert (Hj' : 0 < j < 2 ^ 63) by (destruct Hj; auto).
    apply Hex_inj; lia.
Qed.

Lemma guid_unique_witness :
  let t := Z.shiftl 1400000000000 20 in
  StronglySorted Z.lt (generate [t; t; t + 2 ^ 20] (NewGUIDFactory 3)).2 /\
  length (generate [t; t; t + 2 ^ 20] (NewGUIDFactory 3)).2 = 3%nat.
Proof.
  intros t. split; [|reflexivity].
  apply (guid_unique 3 4 [t; t; t + 2 ^ 20] [t]); [lia|lia|lia| |];
    repeat constructor; vm_compute; reflexivity.
Defined.

(** C28: id generation makes progress.  From any state a factory can be in, retrying
    NewGUID, whatever errors the clock causes in between, returns an id above all former
    ones of the factory no later than the clock has passed its last timestamp. *)
Theorem guid_progress nows f times :
  0 <= nodeID f < 2 ^ 10 -> f = (generate nows (NewGUIDFactory (nodeID f))).1 ->
  Forall (fun now => valid_time (Z.shiftr now 20)) (nows ++ times) ->
  (exists now, now ∈ times /\ lastTimestamp f < Z.shiftr now 20) ->
  exists f' id, GenerateID times f = Some (f', Hex id) /\ lastID f < id /\ id_of (nodeID f) id.
Proof.
  intros Hn Hf Hv Hex. apply Forall_app in Hv as [Hv1 Hv2].
  pose proof (generate_spec nows _ (NewGUIDFactory_ok _ Hn) Hv1) as G.
  destruct (generate nows _) as [f1 ids]. cbn [fst] in Hf. subst f1. destruct G as (Hok & _).
  destruct (GenerateID_spec times f Hok Hv2 Hex) as (f' & id & E & _ & H1 & H2). eauto.
Qed.

Lemma guid_progress_witness :
  let t := Z.shiftl 1400000000000 20 in
  let f := (generate [t] (NewGUIDFactory 3)).1 in
  exists f' id, GenerateID [t - 2 ^ 20; t + 2 ^ 20] f = Some (f', Hex id) /\ lastID f < id /\ id_of (nodeID f) id.
Proof.
  intros t f. apply (guid_progress [t] f).
  - zground.
  - reflexivity.
  - repeat constructor; vm_compute; reflexivity.
  - exists (t + 2 ^ 20). split; [by right; left|vm_compute; reflexivity].
Defined.
