(* ===== verification/NsqChannel.v ===== *)
(** nsqd/channel.go: a channel holds the messages of one stream for its consumers, each
    of them in memory, in the backend, in flight to a client or deferred.

    Messages are shared by pointer: [store] maps pointers to messages, the queues and
    maps hold pointers, and an Item of the deferred queue is named by the message it
    holds.  Each method is one transition; the locks make the accesses to each part
    atomic, and the interleavings between the locked sections of two methods are not
    modelled.  Times come in as arguments, the backend and the consumers through their
    interfaces. *)

From Stdlib Require Import ZArith Lia.
From stdpp Require Import base numbers option list gmap.
From S2P Require Import Prelude NsqPqueue NsqMessage.
#[local] Open Scope Z_scope.

(** ** Interfaces *)

(** nsqd/backend_queue.go: the secondary message storage.  [bq_ReadChan] is a receive from
    its read channel: the next stored bytes, if any, and the queue without them. *)
Class BackendQueue (B E : Type) := {
  bq_Put : B -> list Z -> B * option E;
  bq_ReadChan : B -> option (list Z * B);
  bq_Close : B -> B * option E;
  bq_Delete : B -> B * option E;
  bq_Depth : B -> Z;
  bq_Empty : B -> B * option E
}.

(** nsqd/dummy_backend_queue.go: the backend of an ephemeral channel drops messages. *)
#[export] Instance dummyBackendQueue E : BackendQueue unit E := {|
  bq_Put b _ := (b, None);
  bq_ReadChan _ := None;
  bq_Close b := (b, None);
  bq_Delete b := (b, None);
  bq_Depth _ := 0;
  bq_Empty b := (b, None)
|}.

(** The Consumer interface of channel.go: what the channel calls on a client. *)
Class Consumer (C : Type) := {
  UnPause : C -> C;
  Pause : C -> C;
  Close : C -> C;
  TimedOutMessage : C -> C;
  c_Empty : C -> C
}.

Definition ptr := Z.

Record options := mkOpts {
  MemQueueSize : nat;
  MaxMsgTimeout : Z;
  MaxChannelConsumers : Z
}.

Section channel.
Context {B E C : Type} `{!BackendQueue B E} `{!Consumer C} (opts : options).

Inductive chan_error :=
  | ErrExiting
  | ErrNotInFlight
  | ErrNotOwner
  | ErrAlreadyInFlight
  | ErrAlreadyDeferred
  | ErrNotDeferred
  | ErrTooManyConsumers
  | ErrBackend (e : E).

Record Channel := mkChan {
  requeueCount : Z;
  messageCount : Z;
  timeoutCount : Z;
  backend : B;
  memory : list ptr;
  exitFlag : bool;
  clients : gmap Z C;
  paused : bool;
  ephemeral : bool;
  deleted : bool;
  deferredMessages : gmap MessageID ptr;
  deferredPri : gmap ptr Z;
  deferredPQ : pqueue ptr;
  inFlightMessages : gmap MessageID ptr;
  inFlightPQ : pqueue ptr;
  store : gmap ptr Message
}.

(** *** Updates of one part *)

Definition set_queues (b : B) (mem : list ptr) (c : Channel) : Channel :=
  mkChan (requeueCount c) (messageCount c) (timeoutCount c) b mem (exitFlag c) (clients c) (paused c)
    (ephemeral c) (deleted c) (deferredMessages c) (deferredPri c) (deferredPQ c) (inFlightMessages c)
    (inFlightPQ c) (store c).

Definition set_clients (cl : gmap Z C) (p del : bool) (c : Channel) : Channel :=
  mkChan (requeueCount c) (messageCount c) (timeoutCount c) (backend c) (memory c) (exitFlag c) cl p
    (ephemeral c) del (deferredMessages c) (deferredPri c) (deferredPQ c) (inFlightMessages c)
    (inFlightPQ c) (store c).

Definition set_counts (rq ms ti : Z) (c : Channel) : Channel :=
  mkChan rq ms ti (backend c) (memory c) (exitFlag c) (clients c) (paused c)
    (ephemeral c) (deleted c) (deferredMessages c) (deferredPri c) (deferredPQ c) (inFlightMessages c)
    (inFlightPQ c) (store c).

Definition set_exit (x : bool) (c : Channel) : Channel :=
  mkChan (requeueCount c) (messageCount c) (timeoutCount c) (backend c) (memory c) x (clients c) (paused c)
    (ephemeral c) (deleted c) (deferredMessages c) (deferredPri c) (deferredPQ c) (inFlightMessages c)
    (inFlightPQ c) (store c).

Definition set_deferred (dm : gmap MessageID ptr) (dp : gmap ptr Z) (dq : pqueue ptr) (c : Channel) : Channel :=
  mkChan (requeueCount c) (messageCount c) (timeoutCount c) (backend c) (memory c) (exitFlag c) (clients c)
    (paused c) (ephemeral c) (deleted c) dm dp dq (inFlightMessages c) (inFlightPQ c) (store c).

Definition set_inflight (im : gmap MessageID ptr) (iq : pqueue ptr) (c : Channel) : Channel :=
  mkChan (requeueCount c) (messageCount c) (timeoutCount c) (backend c) (memory c) (exitFlag c) (clients c)
    (paused c) (ephemeral c) (deleted c) (deferredMessages c) (deferredPri c) (deferredPQ c) im iq (store c).

Definition set_store (st : gmap ptr Message) (c : Channel) : Channel :=
  mkChan (requeueCount c) (messageCount c) (timeoutCount c) (backend c) (memory c) (exitFlag c) (clients c)
    (paused c) (ephemeral c) (deleted c) (deferredMessages c) (deferredPri c) (deferredPQ c)
    (inFlightMessages c) (inFlightPQ c) st.

Definition ipri (st : gmap ptr Message) (p : ptr) : Z :=
  match st !! p with Some m => pri m | None => 0 end.

Definition dpri (d : gmap ptr Z) (p : ptr) : Z := default 0 (d !! p).

(** A method's result: the channel afterwards and the error it returns. *)
Definition result : Type := Channel * option chan_error.

(** *** Construction *)

Definition pqSize : nat := Nat.max 1 (MemQueueSize opts / 10).

Definition initPQ (c : Channel) : Channel :=
  set_deferred ∅ ∅ (newPqueue pqSize) (set_inflight ∅ (newPqueue pqSize) c).

Definition NewChannel (b : B) (ephemeral : bool) (st : gmap ptr Message) : Channel :=
  initPQ (mkChan 0 0 0 b [] false ∅ false ephemeral false ∅ ∅ (newPqueue 0) ∅ (newPqueue 0) st).

(** *** The dictionaries and queues *)

(** A dereference of a nil or dangling pointer panics. *)
Definition deref (p : ptr) (c : Channel) : outcome unit Message :=
  match store c !! p with Some m => Ret m | None => Panic end.

Definition pushInFlightMessage (p : ptr) (c : Channel) : outcome unit result :=
  m ← deref p c;
  match inFlightMessages c !! ID m with
  | Some _ => Ret (c, Some ErrAlreadyInFlight)
  | None => Ret (set_inflight (<[ID m := p]> (inFlightMessages c)) (inFlightPQ c) c, None)
  end.

Definition popInFlightMessage (client : Z) (id : MessageID) (c : Channel)
    : outcome unit (Channel * (ptr + chan_error)) :=
  match inFlightMessages c !! id with
  | None => Ret (c, inr ErrNotInFlight)
  | Some p =>
      m ← deref p c;
      if negb (clientID m =? client) then Ret (c, inr ErrNotOwner)
      else Ret (set_inflight (delete id (inFlightMessages c)) (inFlightPQ c) c, inl p)
  end.

Definition addToInFlightPQ (p : ptr) (c : Channel) : outcome unit Channel :=
  q ← Push (ipri (store c)) p (inFlightPQ c);
  Ret (set_inflight (inFlightMessages c) q c).

(** The index field is 0 until the message is first queued; slicing at a negative or too
    large index panics. *)
Definition removeFromInFlightPQ (p : ptr) (c : Channel) : outcome unit Channel :=
  let i := default 0 (index (inFlightPQ c) !! p) in
  if i =? -1 then Ret c
  else if i <? 0 then Panic
  else
    '(_, q) ← Remove (ipri (store c)) (Z.to_nat i) (inFlightPQ c);
    Ret (set_inflight (inFlightMessages c) q c).

Definition pushDeferredMessage (p : ptr) (c : Channel) : outcome unit result :=
  m ← deref p c;
  match deferredMessages c !! ID m with
  | Some _ => Ret (c, Some ErrAlreadyDeferred)
  | None => Ret (set_deferred (<[ID m := p]> (deferredMessages c)) (deferredPri c) (deferredPQ c) c, None)
  end.

Definition popDeferredMessage (id : MessageID) (c : Channel) : Channel * option chan_error :=
  match deferredMessages c !! id with
  | None => (c, Some ErrNotDeferred)
  | Some _ => (set_deferred (delete id (deferredMessages c)) (deferredPri c) (deferredPQ c) c, None)
  end.

(** Queue the item for [p] with its priority. *)
Definition addToDeferredPQ (p : ptr) (prio : Z) (c : Channel) : outcome unit Channel :=
  let dp := <[p := prio]> (deferredPri c) in
  q ← heap_Push (dpri dp) p (deferredPQ c);
  Ret (set_deferred (deferredMessages c) dp q c).

(** *** Putting messages *)

Definition put (p : ptr) (c : Channel) : outcome unit result :=
  if (length (memory c) <? MemQueueSize opts)%nat then
    Ret (set_queues (backend c) (memory c ++ [p]) c, None)
  else
    m ← deref p c;
    let '(b, err) := writeMessageToBackend bq_Put m (backend c) in
    Ret (set_queues b (memory c) c, ErrBackend <$> err).

Definition PutMessage (p : ptr) (c : Channel) : outcome unit result :=
  if exitFlag c then Ret (c, Some ErrExiting)
  else
    '(c, err) ← put p c;
    match err with
    | Some e => Ret (c, Some e)
    | None => Ret (set_counts (requeueCount c) (u64 (messageCount c + 1)) (timeoutCount c) c, None)
    end.

Definition StartDeferredTimeout (p : ptr) (timeout now : Z) (c : Channel) : outcome unit result :=
  let absTs := now + timeout in
  '(c, err) ← pushDeferredMessage p c;
  match err with
  | Some e => Ret (c, Some e)
  | None => c ← addToDeferredPQ p absTs c; Ret (c, None)
  end.

Definition PutMessageDeferred (p : ptr) (timeout now : Z) (c : Channel) : outcome unit Channel :=
  let c := set_counts (requeueCount c) (u64 (messageCount c + 1)) (timeoutCount c) c in
  '(c, _) ← StartDeferredTimeout p timeout now c;
  Ret c.

(** *** In-flight messages *)

Definition set_flight (client delivery prio : Z) (m : Message) : Message :=
  mkMessage (ID m) (Body m) (Timestamp m) (Attempts m) delivery client prio (deferred m).

Definition StartInFlightTimeout (p : ptr) (client timeout now : Z) (c : Channel) : outcome unit result :=
  m ← deref p c;
  let c := set_store (<[p := set_flight client now (now + timeout) m]> (store c)) c in
  '(c, err) ← pushInFlightMessage p c;
  match err with
  | Some e => Ret (c, Some e)
  | None => c ← addToInFlightPQ p c; Ret (c, None)
  end.

Definition TouchMessage (client : Z) (id : MessageID) (clientMsgTimeout now : Z) (c : Channel)
    : outcome unit result :=
  '(c, r) ← popInFlightMessage client id c;
  match r with
  | inr e => Ret (c, Some e)
  | inl p =>
      c ← removeFromInFlightPQ p c;
      m ← deref p c;
      let newTimeout := now + clientMsgTimeout in
      let newTimeout := if MaxMsgTimeout opts <=? newTimeout - deliveryTS m
                        then deliveryTS m + MaxMsgTimeout opts else newTimeout in
      let c := set_store (<[p := set_flight (clientID m) (deliveryTS m) newTimeout m]> (store c)) c in
      '(c, err) ← pushInFlightMessage p c;
      match err with
      | Some e => Ret (c, Some e)
      | None => c ← addToInFlightPQ p c; Ret (c, None)
      end
  end.

(** FinishMessage; the latency stream only observes the timestamp. *)
Definition FinishMessage (client : Z) (id : MessageID) (c : Channel) : outcome unit result :=
  '(c, r) ← popInFlightMessage client id c;
  match r with
  | inr e => Ret (c, Some e)
  | inl p => c ← removeFromInFlightPQ p c; Ret (c, None)
  end.

Definition RequeueMessage (client : Z) (id : MessageID) (timeout now : Z) (c : Channel)
    : outcome unit result :=
  '(c, r) ← popInFlightMessage client id c;
  match r with
  | inr e => Ret (c, Some e)
  | inl p =>
      c ← removeFromInFlightPQ p c;
      let c := set_counts (u64 (requeueCount c + 1)) (messageCount c) (timeoutCount c) c in
      if timeout =? 0 then
        if exitFlag c then Ret (c, Some ErrExiting) else put p c
      else StartDeferredTimeout p timeout now c
  end.

(** *** Clients *)

Definition AddClient (id : Z) (client : C) (c : Channel) : result :=
  match clients c !! id with
  | Some _ => (c, None)
  | None =>
      if negb (MaxChannelConsumers opts =? 0) && (MaxChannelConsumers opts <=? Z.of_nat (size (clients c)))
      then (c, Some ErrTooManyConsumers)
      else (set_clients (<[id := client]> (clients c)) (paused c) (deleted c) c, None)
  end.

(** RemoveClient; the last client of an ephemeral channel triggers its deletion. *)
Definition RemoveClient (id : Z) (c : Channel) : Channel :=
  match clients c !! id with
  | None => c
  | Some _ =>
      let cl := delete id (clients c) in
      set_clients cl (paused c) (deleted c || ((size cl =? 0)%nat && ephemeral c)) c
  end.

Definition doPause (pause : bool) (c : Channel) : Channel :=
  set_clients ((if pause then Pause else UnPause) <$> clients c) pause (deleted c) c.

Definition Depth (c : Channel) : Z := Z.of_nat (length (memory c)) + bq_Depth (backend c).

(** *** The queue scan *)

(** The loop of processInFlightQueue; each round takes an element off the queue. *)
Fixpoint inflight_loop (fuel : nat) (t : Z) (dirty : bool) (c : Channel) : outcome unit (Channel * bool) :=
  match fuel with
  | O => Fail tt
  | S fuel =>
      '(x, _, q) ← PeekAndShift (ipri (store c)) t (inFlightPQ c);
      let c := set_inflight (inFlightMessages c) q c in
      match x with
      | None => Ret (c, dirty)
      | Some p =>
          m ← deref p c;
          '(c, r) ← popInFlightMessage (clientID m) (ID m) c;
          match r with
          | inr _ => Ret (c, true)
          | inl _ =>
              let c := set_counts (requeueCount c) (messageCount c) (u64 (timeoutCount c + 1)) c in
              let c := match clients c !! clientID m with
                       | Some cl => set_clients (<[clientID m := TimedOutMessage cl]> (clients c)) (paused c) (deleted c) c
                       | None => c
                       end in
              '(c, _) ← put p c;
              inflight_loop fuel t true c
          end
      end
  end.

Definition processInFlightQueue (t : Z) (c : Channel) : outcome unit (Channel * bool) :=
  if exitFlag c then Ret (c, false)
  else inflight_loop (S (length (items (inFlightPQ c)))) t false c.

Fixpoint deferred_loop (fuel : nat) (t : Z) (dirty : bool) (c : Channel) : outcome unit (Channel * bool) :=
  match fuel with
  | O => Fail tt
  | S fuel =>
      '(x, _, q) ← heap_PeekAndShift (dpri (deferredPri c)) t (deferredPQ c);
      let c := set_deferred (deferredMessages c) (deferredPri c) q c in
      match x with
      | None => Ret (c, dirty)
      | Some p =>
          m ← deref p c;
          let '(c, err) := popDeferredMessage (ID m) c in
          match err with
          | Some _ => Ret (c, true)
          | None => '(c, _) ← put p c; deferred_loop fuel t true c
          end
      end
  end.

Definition processDeferredQueue (t : Z) (c : Channel) : outcome unit (Channel * bool) :=
  if exitFlag c then Ret (c, false)
  else deferred_loop (S (length (items (deferredPQ c)))) t false c.

(** *** Emptying, flushing and closing *)

Definition Empty (c : Channel) : result :=
  let c := initPQ c in
  let c := set_clients (c_Empty <$> clients c) (paused c) (deleted c) c in
  let '(b, err) := bq_Empty (backend c) in
  (set_queues b [] c, ErrBackend <$> err).

(** Write messages to the backend, ignoring (logging) its errors. *)
Fixpoint flush_list (l : list ptr) (c : Channel) : outcome unit Channel :=
  match l with
  | [] => Ret c
  | p :: l =>
      m ← deref p c;
      let '(b, _) := writeMessageToBackend bq_Put m (backend c) in
      flush_list l (set_queues b (memory c) c)
  end.

(** flush; the maps are visited in some order, [map_to_list] is one. *)
Definition flush (c : Channel) : outcome unit Channel :=
  let mem := memory c in
  c ← flush_list mem (set_queues (backend c) [] c);
  c ← flush_list (map_to_list (inFlightMessages c)).*2 c;
  flush_list (map_to_list (deferredMessages c)).*2 c.

Definition exit (del : bool) (c : Channel) : outcome unit result :=
  if exitFlag c then Ret (c, Some ErrExiting)
  else
    let c := set_exit true c in
    let c := set_clients (Close <$> clients c) (paused c) (deleted c) c in
    if del then
      let '(c, _) := Empty c in
      let '(b, err) := bq_Delete (backend c) in
      Ret (set_queues b (memory c) c, ErrBackend <$> err)
    else
      c ← flush c;
      let '(b, err) := bq_Close (backend c) in
      Ret (set_queues b (memory c) c, ErrBackend <$> err).

(** A new message gets a pointer that is not in use. *)
Definition alloc (m : Message) (c : Channel) : ptr * Channel :=
  let p := fresh (dom (store c)) in (p, set_store (<[p := m]> (store c)) c).

(** protocol_v2.go, messagePump.  A subscribed client that is ready takes a message from
    memory or from the backend, whichever of the two arms of the select runs.  A client
    that asked for a sample skips a message when the random number [roll] it draws is
    above its rate: the message has left its queue and goes nowhere. *)
Definition sampled_out (sampleRate roll : Z) : bool := (0 <? sampleRate) && (sampleRate <? roll).

(** What both arms do with a message: count the attempt and start its timeout. *)
Definition send_message (p : ptr) (client timeout now : Z) (c : Channel) : outcome unit (Channel * option ptr) :=
  m ← deref p c;
  let m := mkMessage (ID m) (Body m) (Timestamp m) (u16 (Attempts m + 1)) (deliveryTS m) (clientID m)
             (pri m) (deferred m) in
  let c := set_store (<[p := m]> (store c)) c in
  '(c, _) ← StartInFlightTimeout p client timeout now c;
  Ret (c, Some p).

Definition pump_memory (sampleRate roll client timeout now : Z) (c : Channel) : outcome unit (Channel * option ptr) :=
  match memory c with
  | [] => Ret (c, None)
  | p :: mem =>
      let c := set_queues (backend c) mem c in
      if sampled_out sampleRate roll then Ret (c, None) else send_message p client timeout now c
  end.

(** A stored message is decoded into a new one; bytes that do not decode are skipped. *)
Definition pump_backend (sampleRate roll client timeout now : Z) (c : Channel) : outcome unit (Channel * option ptr) :=
  match bq_ReadChan (backend c) with
  | None => Ret (c, None)
  | Some (x, b) =>
      let c := set_queues b (memory c) c in
      if sampled_out sampleRate roll then Ret (c, None)
      else
        match decodeMessage x with
        | Ret m => let '(p, c) := alloc m c in send_message p client timeout now c
        | _ => Ret (c, None)
        end
  end.

(** ** The invariant *)

(** The messages the channel holds by pointer. *)
Definition tracked (c : Channel) : list ptr :=
  memory c ++ items (inFlightPQ c) ++ items (deferredPQ c).

(** A queue and its dictionary hold the same messages, under their own ids. *)
Record agrees (st : gmap ptr Message) (d : gmap MessageID ptr) (q : list ptr) : Prop := {
  ag_dom : forall p, p ∈ q <-> exists id, d !! id = Some p;
  ag_id : forall id p, d !! id = Some p -> exists m, st !! p = Some m /\ ID m = id
}.

Record chan_ok (c : Channel) : Prop := {
  co_inflight : pq_ok (ipri (store c)) (inFlightPQ c);
  co_inflight_map : agrees (store c) (inFlightMessages c) (items (inFlightPQ c));
  co_deferred : pq_ok (dpri (deferredPri c)) (deferredPQ c);
  co_deferred_map : agrees (store c) (deferredMessages c) (items (deferredPQ c));
  co_store : forall p, p ∈ tracked c -> is_Some (store c !! p);
  co_nodup : NoDup (tracked c)
}.

Lemma pq_ok_ext {P} `{HP : Countable P} (f g : P -> Z) q :
  (forall x, x ∈ items q -> f x = g x) -> pq_ok f q -> pq_ok g q.
Proof.
  intros He [Hw Hh]. split; [done|]. intros k Hk. pose proof (Hh k Hk) as Hedge. unfold edge, K in *.
  pose proof (parent_lt k ltac:(lia)).
  destruct (lookup_lt_is_Some_2 (items q) k ltac:(lia)) as [x Hx].
  destruct (lookup_lt_is_Some_2 (items q) (parent k) ltac:(lia)) as [y Hy].
  rewrite Hx, Hy in *. rewrite <- !He; [done|by eapply list_elem_of_lookup_2..].
Qed.

Lemma agrees_empty st : agrees st ∅ [].
Proof.
  split; [intros p|done]. split; [intros H; by apply elem_of_nil in H|]. by intros [id H].
Qed.

Lemma agrees_add st d q q' id p m : agrees st d q -> q' ≡ₚ p :: q -> d !! id = None ->
  st !! p = Some m -> ID m = id -> agrees st (<[id := p]> d) q'.
Proof.
  intros [H1 H2] Hq Hid Hm Hi. split.
  - intros x. rewrite Hq, elem_of_cons, H1. split.
    + intros [->|[i Hx]]; [exists id; apply lookup_insert_eq|]. exists i. rewrite lookup_insert_ne; [done|].
      intros ->. by rewrite Hid in Hx.
    + intros [i Hx]. apply lookup_insert_Some in Hx as [[_ ->]|[_ Hx]]; [by left|right; eauto].
  - intros i x Hx. apply lookup_insert_Some in Hx as [[<- <-]|[_ Hx]]; [eauto|by apply H2].
Qed.

Lemma agrees_remove st d q q' id p : agrees st d q -> q ≡ₚ p :: q' -> NoDup q -> d !! id = Some p ->
  agrees st (delete id d) q'.
Proof.
  intros [H1 H2] Hq Hn Hid. rewrite Hq in Hn. apply NoDup_cons in Hn as [Hn _]. split.
  - intros x. split.
    + intros Hx. destruct (proj1 (H1 x)) as [i Hi]; [rewrite Hq; by right|]. exists i.
      rewrite lookup_delete_ne; [done|]. intros <-. rewrite Hid in Hi. by simplify_eq.
    + intros [i Hi]. apply lookup_delete_Some in Hi as [Hne Hi].
      assert (Hx : x ∈ q) by (apply H1; eauto). rewrite Hq in Hx. apply elem_of_cons in Hx as [->|Hx]; [|done].
      destruct (H2 _ _ Hi) as (m & Hm & <-). destruct (H2 _ _ Hid) as (m' & Hm' & Hid'). congruence.
  - intros i x Hi. apply lookup_delete_Some in Hi as [_ Hi]. by apply H2.
Qed.

Lemma agrees_store st d q p m : agrees st d q -> p ∉ q -> agrees (<[p := m]> st) d q.
Proof.
  intros [H1 H2] Hp. split; [done|]. intros id x Hx. destruct (H2 id x Hx) as (m' & Hm' & Hid).
  exists m'. split; [|done]. rewrite lookup_insert_ne; [done|]. intros ->. apply Hp, H1. eauto.
Qed.

Lemma tracked_inflight c p : p ∈ items (inFlightPQ c) -> p ∈ tracked c.
Proof. unfold tracked. rewrite !elem_of_app. auto. Qed.

Lemma tracked_deferred c p : p ∈ items (deferredPQ c) -> p ∈ tracked c.
Proof. unfold tracked. rewrite !elem_of_app. auto. Qed.

Lemma chan_ok_nodup c : chan_ok c -> NoDup (items (inFlightPQ c)) /\ NoDup (items (deferredPQ c)).
Proof. intros H. split; [apply (co_inflight _ H)|apply (co_deferred _ H)]. Qed.

Lemma ipri_insert_ne st p m x : x <> p -> ipri (<[p := m]> st) x = ipri st x.
Proof. intros H. unfold ipri. by rewrite lookup_insert_ne. Qed.

(** Writing to a message the channel does not hold. *)
Lemma set_store_ok c p m : chan_ok c -> p ∉ tracked c -> chan_ok (set_store (<[p := m]> (store c)) c).
Proof.
  intros H Hp. split; cbn [set_store store inFlightPQ inFlightMessages deferredPQ deferredPri deferredMessages].
  - eapply pq_ok_ext; [|exact (co_inflight _ H)]. intros x Hx. symmetry. apply ipri_insert_ne.
    intros ->. by apply Hp, tracked_inflight.
  - apply agrees_store; [apply H|]. intros Hx. by apply Hp, tracked_inflight.
  - apply H.
  - apply agrees_store; [apply H|]. intros Hx. by apply Hp, tracked_deferred.
  - intros x Hx. destruct (co_store _ H x Hx) as [m' Hm']. destruct (decide (x = p)) as [->|Hne].
    + rewrite lookup_insert_eq. eauto.
    + rewrite lookup_insert_ne by done. eauto.
  - apply H.
Qed.

(** Parts the invariant does not speak of. *)
Lemma set_counts_ok a b d c : chan_ok c -> chan_ok (set_counts a b d c).
Proof. intros [H1 H2 H3 H4 H5 H6]. by split. Qed.

Lemma set_clients_ok cl p d c : chan_ok c -> chan_ok (set_clients cl p d c).
Proof. intros [H1 H2 H3 H4 H5 H6]. by split. Qed.

Lemma set_exit_ok x c : chan_ok c -> chan_ok (set_exit x c).
Proof. intros [H1 H2 H3 H4 H5 H6]. by split. Qed.

Lemma set_backend_ok b c : chan_ok c -> chan_ok (set_queues b (memory c) c).
Proof. intros [H1 H2 H3 H4 H5 H6]. by split. Qed.

Lemma set_memory_ok b mem c : chan_ok c ->
  (forall p, p ∈ mem -> is_Some (store c !! p)) -> NoDup (mem ++ items (inFlightPQ c) ++ items (deferredPQ c)) ->
  chan_ok (set_queues b mem c).
Proof.
  intros [H1 H2 H3 H4 H5 H6] Hs Hn. split; try done. intros p Hp. unfold tracked in Hp; cbn in Hp.
  apply elem_of_app in Hp as [Hp|Hp]; [by apply Hs|]. apply H5. apply elem_of_app. by right.
Qed.

(** *** In-flight messages *)

(** Taking a message out of the dictionary and the queue. *)
Lemma take_flight client id c : chan_ok c ->
  match inFlightMessages c !! id with
  | None => popInFlightMessage client id c = Ret (c, inr ErrNotInFlight)
  | Some p =>
      exists m, store c !! p = Some m /\ ID m = id /\
      if clientID m =? client then
        exists c1 q', popInFlightMessage client id c = Ret (c1, inl p) /\
          let c2 := set_inflight (delete id (inFlightMessages c)) q' c in
          removeFromInFlightPQ p c1 = Ret c2 /\ chan_ok c2 /\ tracked c ≡ₚ p :: tracked c2
      else popInFlightMessage client id c = Ret (c, inr ErrNotOwner)
  end.
Proof.
  intros H. unfold popInFlightMessage. destruct (inFlightMessages c !! id) as [p|] eqn:Ep; [|done].
  destruct (ag_id _ _ _ (co_inflight_map _ H) _ _ Ep) as (m & Hm & Hid).
  exists m. split; [done|]. split; [done|]. unfold deref. rewrite Hm. cbn [mbind outcome_bind].
  destruct (Z.eqb_spec (clientID m) client); cbn [negb]; [|done].
  assert (Hp : p ∈ items (inFlightPQ c)) by (apply (ag_dom _ _ _ (co_inflight_map _ H)); eauto).
  apply list_elem_of_lookup in Hp as [i Hi].
  destruct (Remove_spec (ipri (store c)) i (inFlightPQ c) p (co_inflight _ H) Hi) as (q' & E1 & Hr).
  eexists _, q'. split; [reflexivity|]. cbn zeta.
  assert (Hperm : tracked c ≡ₚ p :: tracked (set_inflight (delete id (inFlightMessages c)) q' c)).
  { unfold tracked; cbn [set_inflight memory inFlightPQ deferredPQ]. rewrite (rm_perm _ _ _ _ Hr). cbn [app].
    by rewrite <- Permutation_middle. }
  split; [|split; [|done]].
  - unfold removeFromInFlightPQ; cbn [set_inflight inFlightPQ inFlightMessages store].
    rewrite (wf_index _ (ok_wf _ _ (co_inflight _ H)) _ _ Hi). cbv zeta.
    change (default 0 (Some (Z.of_nat i))) with (Z.of_nat i).
    destruct (Z.eqb_spec (Z.of_nat i) (-1)); [lia|]. destruct (Z.ltb_spec (Z.of_nat i) 0); [lia|].
    rewrite Nat2Z.id, E1. done.
  - destruct H as [H1 H2 H3 H4 H5 H6].
    split; cbn [set_inflight store inFlightPQ inFlightMessages deferredPQ deferredPri deferredMessages]; auto.
    + apply Hr.
    + eapply agrees_remove; [exact H2|exact (rm_perm _ _ _ _ Hr)|apply H1|done].
    + intros x Hx. apply H5. rewrite Hperm. by right.
    + rewrite Hperm in H6. by apply NoDup_cons in H6 as [_ ?].
Qed.

(** Putting a message in flight. *)
Lemma add_flight p m c : chan_ok c -> store c !! p = Some m -> p ∉ tracked c ->
  match inFlightMessages c !! ID m with
  | Some _ => pushInFlightMessage p c = Ret (c, Some ErrAlreadyInFlight)
  | None => exists c1 q', pushInFlightMessage p c = Ret (c1, None) /\
      let c2 := set_inflight (<[ID m := p]> (inFlightMessages c)) q' c in
      addToInFlightPQ p c1 = Ret c2 /\ chan_ok c2 /\ tracked c2 ≡ₚ p :: tracked c
  end.
Proof.
  intros H Hm Hp. unfold pushInFlightMessage, deref. rewrite Hm. cbn [mbind outcome_bind].
  destruct (inFlightMessages c !! ID m) as [x|] eqn:Ex; [done|].
  destruct (Push_spec (ipri (store c)) p (inFlightPQ c) (co_inflight _ H)) as (q' & E1 & Hok & Hq & _).
  { intros Hx. by apply Hp, tracked_inflight. }
  eexists _, q'. split; [reflexivity|]. cbn zeta.
  assert (Hperm : tracked (set_inflight (<[ID m := p]> (inFlightMessages c)) q' c) ≡ₚ p :: tracked c).
  { unfold tracked; cbn [set_inflight memory inFlightPQ deferredPQ]. rewrite Hq. cbn [app].
    by rewrite <- Permutation_middle. }
  split; [|split; [|done]].
  - unfold addToInFlightPQ; cbn [set_inflight inFlightPQ inFlightMessages store]. by rewrite E1.
  - destruct H as [H1 H2 H3 H4 H5 H6].
    split; cbn [set_inflight store inFlightPQ inFlightMessages deferredPQ deferredPri deferredMessages]; auto.
    + eapply agrees_add; eauto.
    + intros x Hx. rewrite Hperm in Hx. apply elem_of_cons in Hx as [->|Hx]; [eauto|by apply H5].
    + rewrite Hperm. by apply NoDup_cons.
Qed.

(** *** Deferred messages *)

Lemma dpri_insert_ne d p z x : x <> p -> dpri (<[p := z]> d) x = dpri d x.
Proof. intros H. unfold dpri. by rewrite lookup_insert_ne. Qed.

Lemma add_deferred p m prio c : chan_ok c -> store c !! p = Some m -> p ∉ tracked c ->
  match deferredMessages c !! ID m with
  | Some _ => pushDeferredMessage p c = Ret (c, Some ErrAlreadyDeferred)
  | None => exists c1 q', pushDeferredMessage p c = Ret (c1, None) /\
      let c2 := set_deferred (<[ID m := p]> (deferredMessages c)) (<[p := prio]> (deferredPri c)) q' c in
      addToDeferredPQ p prio c1 = Ret c2 /\ chan_ok c2 /\ tracked c2 ≡ₚ p :: tracked c
  end.
Proof.
  intros H Hm Hp. unfold pushDeferredMessage, deref. rewrite Hm. cbn [mbind outcome_bind].
  destruct (deferredMessages c !! ID m) as [x|] eqn:Ex; [done|].
  assert (Hpq : p ∉ items (deferredPQ c)) by (intros Hx; by apply Hp, tracked_deferred).
  assert (Hok0 : pq_ok (dpri (<[p := prio]> (deferredPri c))) (deferredPQ c)).
  { eapply pq_ok_ext; [|exact (co_deferred _ H)]. intros x Hx. symmetry. apply dpri_insert_ne. by intros ->. }
  destruct (heap_Push_spec _ p (deferredPQ c) Hok0 Hpq) as (q' & E1 & Hok & Hq & _).
  eexists _, q'. split; [reflexivity|]. cbn zeta.
  set (c2 := set_deferred _ _ q' c).
  assert (Hperm : tracked c2 ≡ₚ p :: tracked c).
  { unfold tracked, c2; cbn [set_deferred memory inFlightPQ deferredPQ]. rewrite Hq.
    by rewrite <- !Permutation_middle. }
  split; [|split; [|done]].
  - unfold addToDeferredPQ; cbn [set_deferred deferredPQ deferredMessages deferredPri]. by rewrite E1.
  - destruct H as [H1 H2 H3 H4 H5 H6].
    split; unfold c2; cbn [set_deferred store inFlightPQ inFlightMessages deferredPQ deferredPri deferredMessages]; auto.
    + eapply agrees_add; eauto.
    + intros x Hx. fold c2 in Hx. rewrite Hperm in Hx. apply elem_of_cons in Hx as [->|Hx]; [eauto|by apply H5].
    + fold c2. rewrite Hperm. by apply NoDup_cons.
Qed.

(** ** What the channel holds *)

(** What a backend holds, for one that keeps what it is given: then a Put has no error and
    adds the message, and a receive removes what it gives.  Every backend has an instance that does not promise to keep. *)
Class BackendHolds := {
  keeps : Prop;
  bq_contents : B -> list (list Z);
  bq_put_ok : keeps -> forall b x, exists b', bq_Put b x = (b', None) /\ bq_contents b' ≡ₚ x :: bq_contents b;
  bq_read_ok : keeps -> forall b x b', bq_ReadChan b = Some (x, b') -> bq_contents b ≡ₚ x :: bq_contents b'
}.

Definition keeps_nothing : BackendHolds :=
  {| keeps := False; bq_contents := fun _ => []; bq_put_ok := fun H => match H with end;
     bq_read_ok := fun H => match H with end |}.

Definition encode_at (st : gmap ptr Message) (p : ptr) : list Z :=
  match st !! p with Some m => encodeMessage m | None => [] end.

Section held.
Context {HBH : BackendHolds}.

(** All messages of the channel, as their bytes. *)
Definition held (c : Channel) : list (list Z) :=
  (encode_at (store c) <$> tracked c) ++ bq_contents (backend c).

Lemma held_tracked c c' l : store c' = store c -> backend c' = backend c ->
  tracked c' ≡ₚ l ++ tracked c -> held c' ≡ₚ (encode_at (store c) <$> l) ++ held c.
Proof. intros Hs Hb Ht. unfold held. rewrite Hs, Hb, Ht, fmap_app. by rewrite app_assoc. Qed.

(** A write to a message the channel does not hold. *)
Lemma held_set_store c p m : p ∉ tracked c -> held (set_store (<[p := m]> (store c)) c) = held c.
Proof.
  intros Hp. unfold held. cbn [set_store store backend]. f_equal.
  change (tracked (set_store (<[p:=m]> (store c)) c)) with (tracked c). apply list_fmap_ext.
  intros i x Hx. unfold encode_at. rewrite lookup_insert_ne; [done|].
  intros ->. apply Hp. by eapply list_elem_of_lookup_2.
Qed.

(** The parts put does not touch. *)
Definition same_but_queues (c c' : Channel) : Prop :=
  store c' = store c /\ inFlightPQ c' = inFlightPQ c /\ inFlightMessages c' = inFlightMessages c /\
  deferredPQ c' = deferredPQ c /\ deferredPri c' = deferredPri c /\ deferredMessages c' = deferredMessages c /\
  exitFlag c' = exitFlag c /\ clients c' = clients c /\
  requeueCount c' = requeueCount c /\ messageCount c' = messageCount c /\ timeoutCount c' = timeoutCount c.

Lemma chan_put_spec p m c : chan_ok c -> store c !! p = Some m -> p ∉ tracked c ->
  exists c' err, put p c = Ret (c', err) /\ chan_ok c' /\ same_but_queues c c' /\
    (forall x, x ∈ tracked c' -> x = p \/ x ∈ tracked c) /\
    (keeps -> err = None /\ held c' ≡ₚ encodeMessage m :: held c).
Proof.
  intros H Hm Hp. unfold put. destruct (Nat.ltb_spec (length (memory c)) (MemQueueSize opts)).
  - eexists _, None. split; [reflexivity|]. set (c' := set_queues _ _ c).
    assert (Ht : tracked c' ≡ₚ [p] ++ tracked c).
    { unfold tracked, c'; cbn [set_queues memory inFlightPQ deferredPQ]. rewrite <- !app_assoc.
      cbn [app]. by rewrite <- Permutation_middle. }
    split; [|split; [by unfold same_but_queues|split; [|intros _; split; [done|]]]].
    + apply set_memory_ok; [done| |].
      * intros x Hx. apply elem_of_app in Hx as [Hx|Hx].
        -- apply (co_store _ H), elem_of_app. by left.
        -- apply list_elem_of_singleton in Hx as ->. eauto.
      * change (NoDup (tracked c')). rewrite Ht. apply NoDup_cons. split; [done|apply H].
    + intros x Hx. rewrite Ht in Hx. by apply elem_of_cons in Hx.
    + rewrite (held_tracked c c' [p] eq_refl eq_refl Ht). cbn [fmap list_fmap app]. unfold encode_at. by rewrite Hm.
  - unfold deref. rewrite Hm. cbn [mbind outcome_bind]. unfold writeMessageToBackend.
    destruct (bq_Put (backend c) (encodeMessage m)) as [b err] eqn:Eb.
    eexists _, _. split; [reflexivity|]. split; [by apply set_backend_ok|]. split; [by unfold same_but_queues|].
    split; [auto|]. intros Hr. destruct (bq_put_ok Hr (backend c) (encodeMessage m)) as (b' & Eb' & Hb).
    rewrite Eb in Eb'. injection Eb' as -> ->. split; [done|]. unfold held. cbn [set_queues store backend].
    rewrite Hb. by rewrite <- Permutation_middle.
Qed.

(** *** The scan of the in-flight queue *)

Lemma shift_inflight c t : chan_ok c ->
  (PeekAndShift (ipri (store c)) t (inFlightPQ c) = Ret (None, match items (inFlightPQ c) with [] => 0 | x :: _ => i64 (ipri (store c) x - t) end, inFlightPQ c) /\
   forall x, x ∈ items (inFlightPQ c) -> t < ipri (store c) x) \/
  (exists p m q', PeekAndShift (ipri (store c)) t (inFlightPQ c) = Ret (Some p, 0, q') /\
     store c !! p = Some m /\ pri m <= t /\ (forall x, x ∈ items (inFlightPQ c) -> pri m <= ipri (store c) x) /\
     items (inFlightPQ c) ≡ₚ p :: items q' /\
     popInFlightMessage (clientID m) (ID m) (set_inflight (inFlightMessages c) q' c) =
       Ret (set_inflight (delete (ID m) (inFlightMessages c)) q' c, inl p) /\
     chan_ok (set_inflight (delete (ID m) (inFlightMessages c)) q' c) /\
     tracked c ≡ₚ p :: tracked (set_inflight (delete (ID m) (inFlightMessages c)) q' c)).
Proof.
  intros H. pose proof (inflight_shift (ipri (store c)) (inFlightPQ c) t (co_inflight _ H)) as Hs.
  destruct (items (inFlightPQ c)) as [|p l] eqn:Ei.
  { left. split; [done|]. intros x Hx. by apply elem_of_nil in Hx. }
  destruct Hs as [Hmin Hs]. destruct (Z.ltb_spec t (ipri (store c) p)) as [Hlt|Hge].
  { left. split; [done|]. intros x Hx. specialize (Hmin x Hx). lia. }
  right. destruct Hs as (q' & E1 & [Ro Rp Ri Rx]). rewrite <- Ei in *.
  assert (Hp : p ∈ items (inFlightPQ c)) by (rewrite Ei; by left).
  destruct (proj1 (ag_dom _ _ _ (co_inflight_map _ H) p) Hp) as [id Hid].
  destruct (ag_id _ _ _ (co_inflight_map _ H) _ _ Hid) as (m & Hm & Hidm).
  exists p, m, q'. assert (Epri : ipri (store c) p = pri m) by (unfold ipri; by rewrite Hm).
  rewrite Epri in *. rewrite <- Hidm in Hid.
  assert (Hperm : tracked c ≡ₚ p :: tracked (set_inflight (delete (ID m) (inFlightMessages c)) q' c)).
  { unfold tracked; cbn [set_inflight memory inFlightPQ deferredPQ]. rewrite Rp. cbn [app].
    by rewrite <- Permutation_middle. }
  split_and!; try done.
  - unfold popInFlightMessage, deref; cbn [set_inflight inFlightMessages store]. rewrite Hid, Hm. cbn [mbind outcome_bind]. by rewrite Z.eqb_refl.
  - destruct H as [H1 H2 H3 H4 H5 H6].
    split; cbn [set_inflight store inFlightPQ inFlightMessages deferredPQ deferredPri deferredMessages]; auto.
    + eapply agrees_remove; [exact H2|exact Rp|apply H1|done].
    + intros x Hx. apply H5. rewrite Hperm. by right.
    + rewrite Hperm in H6. by apply NoDup_cons in H6 as [_ ?].
Qed.

Lemma u64_succ a n : u64 (u64 (a + 1) + n) = u64 (a + (n + 1)).
Proof. unfold wrap. rewrite Zplus_mod_idemp_l. f_equal. lia. Qed.

(** One round on a due message: after the pop, the counters and the client are updated
    and the message is put back. *)
Definition timed_out (m : Message) (c : Channel) : Channel :=
  let c := set_counts (requeueCount c) (messageCount c) (u64 (timeoutCount c + 1)) c in
  match clients c !! clientID m with
  | Some cl => set_clients (<[clientID m := TimedOutMessage cl]> (clients c)) (paused c) (deleted c) c
  | None => c
  end.

Lemma timed_out_ok m c : chan_ok c -> chan_ok (timed_out m c).
Proof.
  intros Hc. unfold timed_out. destruct (clients _ !! _).
  - by apply set_clients_ok, set_counts_ok.
  - by apply set_counts_ok.
Qed.

Lemma timed_out_parts m c : store (timed_out m c) = store c /\ tracked (timed_out m c) = tracked c /\
  backend (timed_out m c) = backend c /\ inFlightPQ (timed_out m c) = inFlightPQ c /\
  inFlightMessages (timed_out m c) = inFlightMessages c /\ deferredPQ (timed_out m c) = deferredPQ c /\
  timeoutCount (timed_out m c) = u64 (timeoutCount c + 1).
Proof. unfold timed_out. by destruct (clients _ !! _). Qed.

Lemma inflight_loop_spec fuel : forall t dirty c, chan_ok c -> (length (items (inFlightPQ c)) < fuel)%nat ->
  exists c' d l, inflight_loop fuel t dirty c = Ret (c', d) /\ chan_ok c' /\
    items (inFlightPQ c) ≡ₚ l ++ items (inFlightPQ c') /\
    (forall x, x ∈ l -> ipri (store c) x <= t) /\
    (forall x, x ∈ items (inFlightPQ c') -> t < ipri (store c) x) /\
    store c' = store c /\ deferredPQ c' = deferredPQ c /\
    d = (dirty || negb (length l =? 0)%nat) /\
    u64 (timeoutCount c') = u64 (timeoutCount c + Z.of_nat (length l)) /\
    (keeps -> held c' ≡ₚ held c).
Proof.
  induction fuel as [|fuel IH]; intros t dirty c Hc Hf; [lia|]. cbn [inflight_loop].
  destruct (shift_inflight c t Hc) as [[Es Hall]|(p & m & q' & Es & Hm & Hle & Hmin & Hq & Epop & Hok & Ht)];
    rewrite Es; cbn [mbind outcome_bind].
  { exists c, dirty, []. split; [by destruct c|]. split_and!; try done.
    - intros x Hx. by apply elem_of_nil in Hx.
    - by rewrite orb_false_r.
    - cbn. by rewrite Z.add_0_r. }
  unfold deref; cbn [set_inflight store]. rewrite Hm. cbn [mbind outcome_bind].
  rewrite Epop. cbn [mbind outcome_bind].
  set (c1 := set_inflight (delete (ID m) (inFlightMessages c)) q' c) in *.
  destruct (timed_out_parts m c1) as (S1 & T1 & B1 & Q1 & M1 & D1 & N1).
  assert (Hnp : p ∉ tracked (timed_out m c1)).
  { rewrite T1. pose proof (co_nodup _ Hc) as Hn. rewrite Ht in Hn. by apply NoDup_cons in Hn as [? _]. }
  destruct (chan_put_spec p m (timed_out m c1) (timed_out_ok m c1 Hok) ltac:(by rewrite S1) Hnp)
    as (c2 & err & E2 & Hok2 & Hsame & _ & Hrel).
  fold (timed_out m c1). rewrite E2. cbn [mbind outcome_bind].
  destruct Hsame as (S2 & Q2 & M2 & D2 & _ & _ & _ & _ & _ & _ & N2).
  assert (Hlen : length (items (inFlightPQ c)) = S (length (items q'))) by (by rewrite Hq).
  destruct (IH t true c2 Hok2) as (c' & d & l & E3 & H1 & H2 & H3 & H4 & H5 & H6 & H7 & H8 & H9).
  { rewrite Q2, Q1. cbn [c1 set_inflight inFlightPQ]. lia. }
  assert (Est : store c2 = store c) by (rewrite S2, S1; done).
  rewrite Q2, Q1 in H2. cbn [c1 set_inflight inFlightPQ] in H2. rewrite Est in *.
  exists c', d, (p :: l). split; [done|]. split; [done|]. split; [by rewrite Hq, H2|].
  split_and!; try done.
  - intros x Hx. apply elem_of_cons in Hx as [->|Hx]; [unfold ipri; by rewrite Hm|by apply H3].
  - rewrite H6, D2, D1. done.
  - rewrite H7. by rewrite orb_true_r.
  - rewrite H8, N2, N1. cbn [c1 set_inflight timeoutCount length]. rewrite u64_succ. do 2 f_equal. lia.
  - intros Hr. rewrite (H9 Hr). destruct (Hrel Hr) as [_ Hheld]. rewrite Hheld.
    assert (Eh : held (timed_out m c1) = held c1) by (unfold held; by rewrite S1, T1, B1).
    rewrite Eh. symmetry. rewrite (held_tracked c1 c [p] eq_refl eq_refl Ht).
    cbn [fmap list_fmap app]. unfold encode_at. cbn [c1 set_inflight store]. by rewrite Hm.
Qed.

(** *** The scan of the deferred queue *)

Lemma shift_deferred c t : chan_ok c ->
  ((exists z, heap_PeekAndShift (dpri (deferredPri c)) t (deferredPQ c) = Ret (None, z, deferredPQ c)) /\
   forall x, x ∈ items (deferredPQ c) -> t < dpri (deferredPri c) x) \/
  (exists p m q', heap_PeekAndShift (dpri (deferredPri c)) t (deferredPQ c) = Ret (Some p, 0, q') /\
     store c !! p = Some m /\ dpri (deferredPri c) p <= t /\ items (deferredPQ c) ≡ₚ p :: items q' /\
     let c1 := set_deferred (delete (ID m) (deferredMessages c)) (deferredPri c) q' c in
     popDeferredMessage (ID m) (set_deferred (deferredMessages c) (deferredPri c) q' c) = (c1, None) /\
     chan_ok c1 /\ tracked c ≡ₚ p :: tracked c1).
Proof.
  intros Hc. pose proof (deferred_shift (dpri (deferredPri c)) (deferredPQ c) t (co_deferred _ Hc)) as Hs.
  destruct (items (deferredPQ c)) as [|p l] eqn:Ei.
  { left. split; [eauto|]. intros x Hx. by apply elem_of_nil in Hx. }
  destruct Hs as [Hmin Hs]. destruct (Z.ltb_spec t (dpri (deferredPri c) p)) as [Hlt|Hge].
  { left. split; [eauto|]. intros x Hx. specialize (Hmin x Hx). lia. }
  right. destruct Hs as (q' & E1 & [Ro Rp Ri Rx]). rewrite <- Ei in *.
  assert (Hp : p ∈ items (deferredPQ c)) by (rewrite Ei; by left).
  destruct (proj1 (ag_dom _ _ _ (co_deferred_map _ Hc) p) Hp) as [id Hid].
  destruct (ag_id _ _ _ (co_deferred_map _ Hc) _ _ Hid) as (m & Hm & Hidm). rewrite <- Hidm in Hid.
  exists p, m, q'. cbn zeta. set (c1 := set_deferred (delete _ _) _ q' c).
  assert (Hperm : tracked c ≡ₚ p :: tracked c1).
  { unfold tracked, c1; cbn [set_deferred memory inFlightPQ deferredPQ]. rewrite Rp. by rewrite <- !Permutation_middle. }
  split_and!; try done.
  - unfold popDeferredMessage; cbn [set_deferred deferredMessages]. by rewrite Hid.
  - destruct Hc as [H1 H2 H3 H4 H5 H6].
    split; unfold c1; cbn [set_deferred store inFlightPQ inFlightMessages deferredPQ deferredPri deferredMessages]; auto.
    + eapply agrees_remove; [exact H4|exact Rp|apply H3|done].
    + fold c1. intros x Hx. apply H5. rewrite Hperm. by right.
    + fold c1. rewrite Hperm in H6. by apply NoDup_cons in H6 as [_ ?].
Qed.

Lemma deferred_loop_spec fuel : forall t dirty c, chan_ok c -> (length (items (deferredPQ c)) < fuel)%nat ->
  exists c' d l, deferred_loop fuel t dirty c = Ret (c', d) /\ chan_ok c' /\
    items (deferredPQ c) ≡ₚ l ++ items (deferredPQ c') /\
    (forall x, x ∈ l -> dpri (deferredPri c) x <= t) /\
    (forall x, x ∈ items (deferredPQ c') -> t < dpri (deferredPri c) x) /\
    store c' = store c /\ inFlightPQ c' = inFlightPQ c /\
    d = (dirty || negb (length l =? 0)%nat) /\
    (keeps -> held c' ≡ₚ held c).
Proof.
  induction fuel as [|fuel IH]; intros t dirty c Hc Hf; [lia|]. cbn [deferred_loop].
  destruct (shift_deferred c t Hc) as [[[z Es] Hall]|(p & m & q' & Es & Hm & Hle & Hq & Epop & Hok & Ht)];
    rewrite Es; cbn [mbind outcome_bind].
  { exists c, dirty, []. split; [by destruct c|]. split_and!; try done.
    - intros x Hx. by apply elem_of_nil in Hx.
    - by rewrite orb_false_r. }
  unfold deref; cbn [set_deferred store]. rewrite Hm. cbn [mbind outcome_bind].
  rewrite Epop. set (c1 := set_deferred (delete (ID m) (deferredMessages c)) (deferredPri c) q' c) in *.
  assert (Hnp : p ∉ tracked c1).
  { pose proof (co_nodup _ Hc) as Hn. rewrite Ht in Hn. by apply NoDup_cons in Hn as [? _]. }
  destruct (chan_put_spec p m c1 Hok Hm Hnp) as (c2 & err & E2 & Hok2 & Hsame & _ & Hrel).
  rewrite E2. cbn [mbind outcome_bind].
  destruct Hsame as (S2 & Q2 & M2 & D2 & P2 & _).
  assert (Hlen : length (items (deferredPQ c)) = S (length (items q'))) by (by rewrite Hq).
  destruct (IH t true c2 Hok2) as (c' & d & l & E3 & H1 & H2 & H3 & H4 & H5 & H6 & H7 & H8).
  { rewrite D2. cbn [c1 set_deferred deferredPQ]. lia. }
  rewrite D2, P2, S2, Q2 in *. cbn [c1 set_deferred deferredPQ deferredPri store inFlightPQ] in H2, H3, H4, H5, H6.
  exists c', d, (p :: l). split; [done|]. split; [done|]. split; [by rewrite Hq, H2|].
  split_and!; try done.
  - intros x Hx. apply elem_of_cons in Hx as [->|Hx]; [done|by apply H3].
  - rewrite H7. by rewrite orb_true_r.
  - intros Hr. rewrite (H8 Hr). destruct (Hrel Hr) as [_ Hheld]. rewrite Hheld.
    symmetry. rewrite (held_tracked c1 c [p] eq_refl eq_refl Ht).
    cbn [fmap list_fmap app]. unfold encode_at. cbn [c1 set_deferred store]. by rewrite Hm.
Qed.

(** *** The methods *)

(** Put in the deferred queue: held grows by the message unless its id is there. *)
Lemma StartDeferredTimeout_spec p m timeout now c : chan_ok c -> store c !! p = Some m -> p ∉ tracked c ->
  exists c', chan_ok c' /\ store c' = store c /\ inFlightPQ c' = inFlightPQ c /\
  match deferredMessages c !! ID m with
  | Some _ => StartDeferredTimeout p timeout now c = Ret (c', Some ErrAlreadyDeferred) /\ c' = c
  | None => StartDeferredTimeout p timeout now c = Ret (c', None) /\ tracked c' ≡ₚ p :: tracked c /\
            dpri (deferredPri c') p = now + timeout /\ held c' ≡ₚ encodeMessage m :: held c
  end.
Proof.
  intros Hc Hm Hp. unfold StartDeferredTimeout. pose proof (add_deferred p m (now + timeout) c Hc Hm Hp) as Ha.
  destruct (deferredMessages c !! ID m).
  - exists c. rewrite Ha. by cbn [mbind outcome_bind].
  - destruct Ha as (c1 & q' & E1 & E2 & Hok & Ht). rewrite E1. cbn [mbind outcome_bind]. rewrite E2.
    cbn [mbind outcome_bind]. eexists. split; [exact Hok|]. split; [done|]. split; [done|].
    split; [done|]. split; [done|]. split.
    + unfold dpri; cbn [set_deferred deferredPri]. by rewrite lookup_insert_eq.
    + match goal with |- held ?c2 ≡ₚ _ => rewrite (held_tracked c c2 [p] eq_refl eq_refl Ht) end.
      cbn [fmap list_fmap app]. unfold encode_at. by rewrite Hm.
Qed.

Lemma encode_set_flight a b d m : encodeMessage (set_flight a b d m) = encodeMessage m.
Proof. by rewrite !encodeMessage_eq. Qed.

Lemma StartInFlightTimeout_spec p m client timeout now c : chan_ok c -> store c !! p = Some m -> p ∉ tracked c ->
  exists c', chan_ok c' /\ store c' = <[p := set_flight client now (now + timeout) m]> (store c) /\
    deferredPQ c' = deferredPQ c /\
  match inFlightMessages c !! ID m with
  | Some _ => StartInFlightTimeout p client timeout now c = Ret (c', Some ErrAlreadyInFlight) /\
              tracked c' = tracked c /\ held c' ≡ₚ held c
  | None => StartInFlightTimeout p client timeout now c = Ret (c', None) /\ tracked c' ≡ₚ p :: tracked c /\
            inFlightMessages c' = <[ID m := p]> (inFlightMessages c) /\
            held c' ≡ₚ encodeMessage m :: held c
  end.
Proof.
  intros Hc Hm Hp. unfold StartInFlightTimeout, deref. rewrite Hm. cbn [mbind outcome_bind].
  set (m' := set_flight client now (now + timeout) m).
  set (c0 := set_store (<[p := m']> (store c)) c).
  assert (Hc0 : chan_ok c0) by (by apply set_store_ok).
  assert (Hh0 : held c0 = held c) by (by apply held_set_store).
  assert (Hm0 : store c0 !! p = Some m') by (cbn [c0 set_store store]; apply lookup_insert_eq).
  pose proof (add_flight p m' c0 Hc0 Hm0 Hp) as Ha. change (ID m') with (ID m) in Ha.
  change (inFlightMessages c0) with (inFlightMessages c) in Ha.
  destruct (inFlightMessages c !! ID m).
  - rewrite Ha. cbn [mbind outcome_bind]. exists c0. rewrite Hh0. done.
  - destruct Ha as (c1 & q' & E1 & E2 & Hok & Ht). rewrite E1. cbn [mbind outcome_bind]. rewrite E2.
    cbn [mbind outcome_bind]. eexists. split; [exact Hok|]. split; [done|]. split; [done|].
    split; [done|]. split; [done|]. split; [done|].
    match goal with |- held ?c2 ≡ₚ _ => rewrite (held_tracked c0 c2 [p] eq_refl eq_refl Ht) end.
    cbn [fmap list_fmap app]. unfold encode_at. rewrite Hm0, Hh0. unfold m'. by rewrite encode_set_flight.
Qed.

Lemma FinishMessage_spec client id c : chan_ok c ->
  match inFlightMessages c !! id with
  | None => FinishMessage client id c = Ret (c, Some ErrNotInFlight)
  | Some p => exists m, store c !! p = Some m /\ ID m = id /\
      if clientID m =? client then
        exists c', FinishMessage client id c = Ret (c', None) /\ chan_ok c' /\ (p ∉ tracked c') /\
          store c' = store c /\ inFlightMessages c' = delete id (inFlightMessages c) /\
          held c ≡ₚ encodeMessage m :: held c'
      else FinishMessage client id c = Ret (c, Some ErrNotOwner)
  end.
Proof.
  intros Hc. pose proof (take_flight client id c Hc) as Ht. unfold FinishMessage.
  destruct (inFlightMessages c !! id) as [p|]; [|by rewrite Ht].
  destruct Ht as (m & Hm & Hid & Ht). exists m. split; [done|]. split; [done|].
  destruct (clientID m =? client); [|by rewrite Ht].
  destruct Ht as (c1 & q' & E1 & E2 & Hok & Ht). rewrite E1. cbn [mbind outcome_bind]. rewrite E2.
  cbn [mbind outcome_bind]. eexists. split; [reflexivity|]. split; [done|]. split.
  - pose proof (co_nodup _ Hc) as Hn. rewrite Ht in Hn. by apply NoDup_cons in Hn as [? _].
  - split; [done|]. split; [done|].
    match type of Hok with chan_ok ?c2 => rewrite (held_tracked c2 c [p] eq_refl eq_refl Ht) end.
    cbn [fmap list_fmap app]. unfold encode_at. cbn [set_inflight store]. by rewrite Hm.
Qed.

(** The deadline TouchMessage sets. *)
Definition touched (m : Message) (timeout now : Z) : Z :=
  Z.min (now + timeout) (deliveryTS m + MaxMsgTimeout opts).

Lemma TouchMessage_spec client id timeout now c : chan_ok c ->
  match inFlightMessages c !! id with
  | None => TouchMessage client id timeout now c = Ret (c, Some ErrNotInFlight)
  | Some p => exists m, store c !! p = Some m /\ ID m = id /\
      if clientID m =? client then
        exists c', TouchMessage client id timeout now c = Ret (c', None) /\ chan_ok c' /\
          store c' = <[p := set_flight (clientID m) (deliveryTS m) (touched m timeout now) m]> (store c) /\
          inFlightMessages c' = inFlightMessages c /\ held c' ≡ₚ held c
      else TouchMessage client id timeout now c = Ret (c, Some ErrNotOwner)
  end.
Proof.
  intros Hc. pose proof (take_flight client id c Hc) as Ht. unfold TouchMessage.
  destruct (inFlightMessages c !! id) as [p|] eqn:Ep; [|by rewrite Ht].
  destruct Ht as (m & Hm & Hid & Ht). exists m. split; [done|]. split; [done|].
  destruct (clientID m =? client); [|by rewrite Ht].
  destruct Ht as (c1 & q1 & E1 & E2 & Hok & Ht). rewrite E1. cbn [mbind outcome_bind]. rewrite E2.
  cbn [mbind outcome_bind]. unfold deref; cbn [set_inflight store]. rewrite Hm. cbn [mbind outcome_bind].
  set (c2 := set_inflight (delete id (inFlightMessages c)) q1 c) in *.
  set (prio := if MaxMsgTimeout opts <=? now + timeout - deliveryTS m then _ else _).
  assert (Eprio : prio = touched m timeout now).
  { unfold prio, touched. destruct (Z.leb_spec (MaxMsgTimeout opts) (now + timeout - deliveryTS m)); lia. }
  clearbody prio. subst prio.
  set (m' := set_flight (clientID m) (deliveryTS m) (touched m timeout now) m).
  set (c3 := set_store (<[p := m']> (store c2)) c2).
  assert (Hp : p ∉ tracked c2).
  { pose proof (co_nodup _ Hc) as Hn. rewrite Ht in Hn. by apply NoDup_cons in Hn as [? _]. }
  assert (Hc3 : chan_ok c3) by (by apply set_store_ok).
  assert (Hm3 : store c3 !! p = Some m') by (cbn [c3 set_store store]; apply lookup_insert_eq).
  pose proof (add_flight p m' c3 Hc3 Hm3 Hp) as Ha. change (ID m') with (ID m) in Ha.
  change (inFlightMessages c3) with (delete id (inFlightMessages c)) in Ha.
  rewrite Hid, lookup_delete_eq in Ha. destruct Ha as (c4 & q' & E3 & E4 & Hok4 & Ht4).
  change (set_store _ _) with c3. rewrite E3. cbn [mbind outcome_bind]. rewrite E4. cbn [mbind outcome_bind].
  eexists. split; [reflexivity|]. split; [exact Hok4|]. split; [done|]. split.
  - cbn [set_inflight inFlightMessages]. by rewrite insert_delete_id.
  - match goal with |- held ?c5 ≡ₚ _ => rewrite (held_tracked c3 c5 [p] eq_refl eq_refl Ht4) end.
    rewrite (held_tracked c2 c [p] eq_refl eq_refl Ht). cbn [fmap list_fmap app].
    unfold c3. rewrite held_set_store by done. unfold encode_at. cbn [set_store store].
    rewrite lookup_insert_eq. cbn [c2 set_inflight store]. rewrite Hm. unfold m'. by rewrite encode_set_flight.
Qed.

Lemma RequeueMessage_spec client id timeout now c : chan_ok c ->
  match inFlightMessages c !! id with
  | None => RequeueMessage client id timeout now c = Ret (c, Some ErrNotInFlight)
  | Some p => exists m, store c !! p = Some m /\ ID m = id /\
      if clientID m =? client then
        exists c' err, RequeueMessage client id timeout now c = Ret (c', err) /\ chan_ok c' /\
          (timeout = 0 -> exitFlag c = true -> err = Some ErrExiting /\ held c ≡ₚ encodeMessage m :: held c') /\
          (timeout = 0 -> exitFlag c = false -> keeps -> err = None /\ held c' ≡ₚ held c) /\
          (timeout <> 0 -> deferredMessages c !! id = None ->
             err = None /\ held c' ≡ₚ held c /\ dpri (deferredPri c') p = now + timeout)
      else RequeueMessage client id timeout now c = Ret (c, Some ErrNotOwner)
  end.
Proof.
  intros Hc. pose proof (take_flight client id c Hc) as Ht. unfold RequeueMessage.
  destruct (inFlightMessages c !! id) as [p|] eqn:Ep; [|by rewrite Ht].
  destruct Ht as (m & Hm & Hid & Ht). exists m. split; [done|]. split; [done|].
  destruct (clientID m =? client); [|by rewrite Ht].
  destruct Ht as (c1 & q1 & E1 & E2 & Hok & Ht). rewrite E1. cbn [mbind outcome_bind]. rewrite E2.
  cbn [mbind outcome_bind]. cbn [set_inflight requeueCount messageCount timeoutCount].
  set (c2 := set_inflight (delete id (inFlightMessages c)) q1 c) in *.
  set (c3 := set_counts (u64 (requeueCount c + 1)) (messageCount c) (timeoutCount c) c2).
  assert (Hp : p ∉ tracked c3).
  { pose proof (co_nodup _ Hc) as Hn. rewrite Ht in Hn. by apply NoDup_cons in Hn as [? _]. }
  assert (Hc3 : chan_ok c3) by (by apply set_counts_ok).
  assert (Hh : held c ≡ₚ encodeMessage m :: held c3).
  { rewrite (held_tracked c3 c [p] eq_refl eq_refl Ht). cbn [fmap list_fmap app]. unfold encode_at.
    cbn [c3 c2 set_counts set_inflight store]. by rewrite Hm. }
  destruct (Z.eqb_spec timeout 0) as [->|Hne].
  - change (exitFlag c3) with (exitFlag c). destruct (exitFlag c).
    + exists c3, (Some ErrExiting). done.
    + destruct (chan_put_spec p m c3 Hc3 Hm Hp) as (c' & err & E3 & Hok' & _ & _ & Hrel).
      exists c', err. split; [done|]. split; [done|]. split; [done|]. split; [|done].
      intros _ _ Hr. destruct (Hrel Hr) as [-> Hheld]. by rewrite Hheld, Hh.
  - destruct (StartDeferredTimeout_spec p m timeout now c3 Hc3 Hm Hp) as (c' & Hok' & _ & _ & Hd).
    change (deferredMessages c3) with (deferredMessages c) in Hd. rewrite Hid in Hd.
    destruct (deferredMessages c !! id).
    + destruct Hd as [E3 ->]. exists c3, (Some ErrAlreadyDeferred). done.
    + destruct Hd as (E3 & _ & Hpri & Hheld). exists c', None. split; [done|]. split; [done|].
      split; [done|]. split; [done|]. intros _ _. split; [done|]. split; [by rewrite Hheld, Hh|done].
Qed.

Definition attempted (m : Message) : Message :=
  mkMessage (ID m) (Body m) (Timestamp m) (u16 (Attempts m + 1)) (deliveryTS m) (clientID m) (pri m) (deferred m).

Lemma send_message_spec p m client timeout now c : chan_ok c -> store c !! p = Some m -> p ∉ tracked c ->
  exists c', send_message p client timeout now c = Ret (c', Some p) /\ chan_ok c' /\
    (inFlightMessages c !! ID m = None -> held c' ≡ₚ encodeMessage (attempted m) :: held c).
Proof.
  intros Hc Hm Hp. unfold send_message, deref. rewrite Hm. cbn [mbind outcome_bind]. fold (attempted m).
  set (c2 := set_store (<[p := attempted m]> (store c)) c).
  assert (Hc2 : chan_ok c2) by (by apply set_store_ok).
  assert (Hm2 : store c2 !! p = Some (attempted m)) by (cbn [c2 set_store store]; apply lookup_insert_eq).
  assert (Hh2 : held c2 = held c) by (by apply held_set_store).
  destruct (StartInFlightTimeout_spec p _ client timeout now c2 Hc2 Hm2 Hp) as (c' & Hok & _ & _ & Hs).
  change (ID (attempted m)) with (ID m) in Hs. change (inFlightMessages c2) with (inFlightMessages c) in Hs.
  exists c'. destruct (inFlightMessages c !! ID m); destruct Hs as (E1 & Hs); rewrite E1; cbn [mbind outcome_bind].
  - done.
  - destruct Hs as (_ & _ & Hheld). split; [done|]. split; [done|]. intros _. by rewrite Hheld, Hh2.
Qed.

(** Taking the first message out of memory. *)
Lemma take_memory p mem c : chan_ok c -> memory c = p :: mem ->
  exists m, store c !! p = Some m /\ chan_ok (set_queues (backend c) mem c) /\
    (p ∉ tracked (set_queues (backend c) mem c)) /\ held c ≡ₚ encodeMessage m :: held (set_queues (backend c) mem c).
Proof.
  intros Hc Em. assert (Hpt : p ∈ tracked c) by (unfold tracked; rewrite Em; by left).
  destruct (co_store _ Hc p Hpt) as [m Hm]. set (c1 := set_queues (backend c) mem c).
  assert (Ht : tracked c = p :: tracked c1) by (unfold tracked; by rewrite Em).
  pose proof (co_nodup _ Hc) as Hn. rewrite Ht in Hn. apply NoDup_cons in Hn as [Hp Hn].
  exists m. split; [done|]. split; [|split; [done|]].
  - apply set_memory_ok; [done| |exact Hn]. intros x Hx. apply (co_store _ Hc). rewrite Ht. right.
    unfold tracked; cbn. apply elem_of_app. by left.
  - unfold held. rewrite Ht. cbn [fmap list_fmap app c1 set_queues store backend]. unfold encode_at at 1. by rewrite Hm.
Qed.

Lemma pump_memory_spec sampleRate roll client timeout now c : chan_ok c ->
  match memory c with
  | [] => pump_memory sampleRate roll client timeout now c = Ret (c, None)
  | p :: mem => exists m c' rest, store c !! p = Some m /\ chan_ok c' /\ held c ≡ₚ encodeMessage m :: rest /\
      if sampled_out sampleRate roll then
        pump_memory sampleRate roll client timeout now c = Ret (c', None) /\ held c' = rest
      else
        pump_memory sampleRate roll client timeout now c = Ret (c', Some p) /\
        (inFlightMessages c !! ID m = None -> held c' ≡ₚ encodeMessage (attempted m) :: rest)
  end.
Proof.
  intros Hc. unfold pump_memory. destruct (memory c) as [|p mem] eqn:Em; [done|].
  destruct (take_memory p mem c Hc Em) as (m & Hm & Hc1 & Hp & Hh). set (c1 := set_queues (backend c) mem c) in *.
  destruct (sampled_out _ _); [by exists m, c1, (held c1)|].
  destruct (send_message_spec p m client timeout now c1 Hc1 Hm Hp) as (c' & E1 & Hok & Hb).
  by exists m, c', (held c1).
Qed.

Lemma alloc_ok m c : chan_ok c -> let '(p, c1) := alloc m c in
  chan_ok c1 /\ store c1 !! p = Some m /\ (p ∉ tracked c1) /\ held c1 = held c.
Proof.
  intros Hc. unfold alloc. set (p := fresh (dom (store c))).
  assert (Hp : p ∉ tracked c).
  { intros Hp. apply (co_store _ Hc) in Hp. apply elem_of_dom in Hp. by apply (is_fresh (dom (store c))) in Hp. }
  split; [by apply set_store_ok|]. split; [cbn [set_store store]; apply lookup_insert_eq|]. split; [done|by apply held_set_store].
Qed.

Lemma pump_backend_spec sampleRate roll client timeout now c : chan_ok c ->
  match bq_ReadChan (backend c) with
  | None => pump_backend sampleRate roll client timeout now c = Ret (c, None)
  | Some (x, b) => exists c' r, chan_ok c' /\ pump_backend sampleRate roll client timeout now c = Ret (c', r) /\
      match sampled_out sampleRate roll, decodeMessage x with
      | false, Ret m => inFlightMessages c !! ID m = None ->
          held c' ≡ₚ encodeMessage (attempted m) :: held (set_queues b (memory c) c)
      | _, _ => held c' = held (set_queues b (memory c) c)
      end
  end.
Proof.
  intros Hc. unfold pump_backend. destruct (bq_ReadChan (backend c)) as [[x b]|]; [|done].
  set (c1 := set_queues b (memory c) c). assert (Hc1 : chan_ok c1) by (by apply set_backend_ok).
  destruct (sampled_out _ _); [by exists c1, None|]. destruct (decodeMessage x) as [m| |]; [|by exists c1, None..].
  pose proof (alloc_ok m c1 Hc1) as Ha. destruct (alloc m c1) as [p c2] eqn:Ea. destruct Ha as (Hc2 & Hm & Hp & Hh).
  destruct (send_message_spec p m client timeout now c2 Hc2 Hm Hp) as (c' & E1 & Hok & Hb).
  exists c', (Some p). split; [done|]. split; [done|]. intros Hi. rewrite Hb, Hh; [done|].
  unfold alloc in Ea. by injection Ea as _ <-.
Qed.

(** *** Flushing *)

Lemma flush_list_spec l : forall c, (forall p, p ∈ l -> is_Some (store c !! p)) ->
  exists b, flush_list l c = Ret (set_queues b (memory c) c) /\
    (keeps -> bq_contents b ≡ₚ (encode_at (store c) <$> l) ++ bq_contents (backend c)).
Proof.
  induction l as [|p l IH]; intros c Hs; cbn [flush_list].
  { exists (backend c). split; [by destruct c|done]. }
  destruct (Hs p) as [m Hm]; [by left|]. unfold deref. rewrite Hm. cbn [mbind outcome_bind].
  unfold writeMessageToBackend. destruct (bq_Put (backend c) (encodeMessage m)) as [b err] eqn:Eb.
  destruct (IH (set_queues b (memory c) c)) as (b' & E1 & Hb); [intros x Hx; apply Hs; by right|].
  rewrite E1. exists b'. split; [done|]. intros Hr. rewrite (Hb Hr). cbn [set_queues store backend].
  destruct (bq_put_ok Hr (backend c) (encodeMessage m)) as (b2 & Eb2 & Hb2).
  rewrite Eb in Eb2. injection Eb2 as -> ->. rewrite Hb2. cbn [fmap list_fmap app]. replace (encode_at (store c) p) with (encodeMessage m) by (unfold encode_at; by rewrite Hm).
  by rewrite <- Permutation_middle.
Qed.

(** The values of a dictionary that agrees with a queue are the elements of the queue. *)
Lemma agrees_values st d q : agrees st d q -> NoDup q -> (map_to_list d).*2 ≡ₚ q.
Proof.
  intros [H1 H2] Hn. apply NoDup_Permutation; [|done|].
  - apply NoDup_fmap_2_strong; [|apply NoDup_map_to_list].
    intros [i x] [j y] Hx Hy Exy. cbn in Exy. subst y.
    apply elem_of_map_to_list in Hx, Hy. destruct (H2 _ _ Hx) as (m & Hm & <-).
    destruct (H2 _ _ Hy) as (m' & Hm' & <-). by simplify_eq.
  - intros p. rewrite H1, list_elem_of_fmap. split.
    + intros ([i x] & -> & Hx). apply elem_of_map_to_list in Hx. eauto.
    + intros [i Hi]. exists (i, p). split; [done|]. by apply elem_of_map_to_list.
Qed.

Lemma chan_flush_spec c : chan_ok c ->
  exists b, flush c = Ret (set_queues b [] c) /\ (keeps -> bq_contents b ≡ₚ held c).
Proof.
  intros Hc. unfold flush. destruct (chan_ok_nodup c Hc) as [N1 N2].
  pose proof (agrees_values _ _ _ (co_inflight_map _ Hc) N1) as V1.
  pose proof (agrees_values _ _ _ (co_deferred_map _ Hc) N2) as V2.
  assert (Hst : forall p, p ∈ tracked c -> is_Some (store c !! p)) by apply (co_store _ Hc).
  destruct (flush_list_spec (memory c) (set_queues (backend c) [] c)) as (b1 & E1 & H1).
  { intros p Hp. apply Hst, elem_of_app. by left. }
  rewrite E1. cbn [mbind outcome_bind]. set (c1 := set_queues b1 _ _).
  destruct (flush_list_spec (map_to_list (inFlightMessages c1)).*2 c1) as (b2 & E2 & H2).
  { intros p Hp. change (inFlightMessages c1) with (inFlightMessages c) in Hp. rewrite V1 in Hp.
    by apply Hst, tracked_inflight. }
  rewrite E2. cbn [mbind outcome_bind]. set (c2 := set_queues b2 _ _).
  destruct (flush_list_spec (map_to_list (deferredMessages c2)).*2 c2) as (b3 & E3 & H3).
  { intros p Hp. change (deferredMessages c2) with (deferredMessages c) in Hp. rewrite V2 in Hp.
    by apply Hst, tracked_deferred. }
  exists b3. split; [exact E3|]. intros Hr. rewrite (H3 Hr). cbn [c2 set_queues store backend deferredMessages].
  rewrite (H2 Hr). cbn [c1 set_queues store backend inFlightMessages deferredMessages].
  rewrite (H1 Hr). cbn [set_queues store backend].
  unfold held, tracked. rewrite !fmap_app, V1, V2. rewrite !app_assoc. f_equiv.
  rewrite (Permutation_app_comm (_ <$> memory c)), (Permutation_app_comm (_ <$> items (deferredPQ c))).
  rewrite <- !app_assoc. f_equiv. apply Permutation_app_comm.
Qed.

End held.

(** ** Runs of a channel *)

Inductive op :=
  | OPut (m : Message)
  | OPutDeferred (m : Message) (timeout now : Z)
  | ODeliver (sampleRate roll client timeout now : Z)
  | ODeliverBackend (sampleRate roll client timeout now : Z)
  | OFinish (client : Z) (id : MessageID)
  | ORequeue (client : Z) (id : MessageID) (timeout now : Z)
  | OTouch (client : Z) (id : MessageID) (timeout now : Z)
  | OScanInFlight (t : Z)
  | OScanDeferred (t : Z)
  | OAddClient (id : Z) (client : C)
  | ORemoveClient (id : Z)
  | OPause (pause : bool)
  | OEmpty
  | OExit (del : bool).

Definition run_op (o : op) (c : Channel) : outcome unit Channel :=
  match o with
  | OPut m => let '(p, c) := alloc m c in '(c, _) ← PutMessage p c; Ret c
  | OPutDeferred m timeout now => let '(p, c) := alloc m c in PutMessageDeferred p timeout now c
  | ODeliver sampleRate roll client timeout now => '(c, _) ← pump_memory sampleRate roll client timeout now c; Ret c
  | ODeliverBackend sampleRate roll client timeout now => '(c, _) ← pump_backend sampleRate roll client timeout now c; Ret c
  | OFinish client id => '(c, _) ← FinishMessage client id c; Ret c
  | ORequeue client id timeout now => '(c, _) ← RequeueMessage client id timeout now c; Ret c
  | OTouch client id timeout now => '(c, _) ← TouchMessage client id timeout now c; Ret c
  | OScanInFlight t => '(c, _) ← processInFlightQueue t c; Ret c
  | OScanDeferred t => '(c, _) ← processDeferredQueue t c; Ret c
  | OAddClient id client => Ret (AddClient id client c).1
  | ORemoveClient id => Ret (RemoveClient id c)
  | OPause pause => Ret (doPause pause c)
  | OEmpty => Ret (Empty c).1
  | OExit del => '(c, _) ← exit del c; Ret c
  end.

Fixpoint run (ops : list op) (c : Channel) : outcome unit Channel :=
  match ops with
  | [] => Ret c
  | o :: ops => c ← run_op o c; run ops c
  end.

Lemma initPQ_ok c : (forall p, p ∈ memory c -> is_Some (store c !! p)) -> NoDup (memory c) -> chan_ok (initPQ c).
Proof.
  intros Hs Hn. assert (Hpq : (1 <= pqSize)%nat) by (unfold pqSize; lia).
  split; cbn [initPQ set_deferred set_inflight store inFlightPQ inFlightMessages deferredPQ deferredPri deferredMessages].
  - by apply newPqueue_ok.
  - apply agrees_empty.
  - by apply newPqueue_ok.
  - apply agrees_empty.
  - intros p Hp. unfold tracked in Hp; cbn in Hp. rewrite !app_nil_r in Hp. by apply Hs.
  - unfold tracked; cbn. by rewrite !app_nil_r.
Qed.

Lemma NewChannel_ok b e st : chan_ok (NewChannel b e st).
Proof. apply initPQ_ok; [intros p Hp; by apply elem_of_nil in Hp|constructor]. Qed.

Lemma Empty_ok c : chan_ok c -> chan_ok (Empty c).1.
Proof.
  intros Hc. unfold Empty. destruct (bq_Empty _) as [b err]. cbn [fst].
  assert (Hi : chan_ok (initPQ c)).
  { apply initPQ_ok.
    - intros p Hp. apply (co_store _ Hc), elem_of_app. by left.
    - pose proof (co_nodup _ Hc) as Hn. by apply NoDup_app in Hn as (? & _ & _). }
  apply (set_memory_ok b []); [by apply set_clients_ok| |].
  - intros p Hp. by apply elem_of_nil in Hp.
  - cbn. constructor.
Qed.

Lemma PutMessage_spec {HBH : BackendHolds} p m c : chan_ok c -> store c !! p = Some m -> p ∉ tracked c ->
  exists c' err, PutMessage p c = Ret (c', err) /\ chan_ok c' /\ store c' = store c /\
    (exitFlag c = true -> err = Some ErrExiting /\ c' = c) /\
    (exitFlag c = false -> keeps -> err = None /\ held c' ≡ₚ encodeMessage m :: held c /\
       messageCount c' = u64 (messageCount c + 1)).
Proof.
  intros Hc Hm Hp. unfold PutMessage. destruct (exitFlag c) eqn:Ex.
  { exists c, (Some ErrExiting). by split_and!. }
  destruct (chan_put_spec p m c Hc Hm Hp) as (c1 & err & E1 & Hc1 & Hs & _ & Hk).
  pose proof Hs as (Es & _ & _ & _ & _ & _ & _ & _ & _ & Em & _).
  rewrite E1. cbn [mbind outcome_bind]. destruct err as [e|].
  - exists c1, (Some e). split_and!; [done|done|done|done|]. intros _ Hkp. destruct (Hk Hkp). discriminate.
  - eexists _, None. split; [reflexivity|]. split; [by apply set_counts_ok|]. split; [done|]. split; [done|].
    intros _ Hkp. destruct (Hk Hkp) as [_ Hh]. split; [done|]. split; [exact Hh|].
    cbn [set_counts messageCount]. by rewrite Em.
Qed.

#[local] Existing Instance keeps_nothing.

Lemma processInFlightQueue_ok t c : chan_ok c ->
  exists r, processInFlightQueue t c = Ret r /\ chan_ok r.1.
Proof.
  intros Hc. unfold processInFlightQueue. destruct (exitFlag c); [by eexists|].
  destruct (inflight_loop_spec (S (length (items (inFlightPQ c)))) t false c Hc ltac:(lia))
    as (c' & d & l & E1 & Hc' & _). eauto.
Qed.

Lemma processDeferredQueue_ok t c : chan_ok c ->
  exists r, processDeferredQueue t c = Ret r /\ chan_ok r.1.
Proof.
  intros Hc. unfold processDeferredQueue. destruct (exitFlag c); [by eexists|].
  destruct (deferred_loop_spec (S (length (items (deferredPQ c)))) t false c Hc ltac:(lia))
    as (c' & d & l & E1 & Hc' & _). eauto.
Qed.

Lemma exit_ok del c : chan_ok c -> exists r, exit del c = Ret r /\ chan_ok r.1.
Proof.
  intros Hc. unfold exit. destruct (exitFlag c); [by eexists|].
  set (c1 := set_clients _ _ _ (set_exit true c)).
  assert (Hc1 : chan_ok c1) by (by apply set_clients_ok, set_exit_ok).
  destruct del.
  - pose proof (Empty_ok c1 Hc1) as He. destruct (Empty c1) as [c2 e2]. destruct (bq_Delete _) as [b err].
    eexists. split; [reflexivity|]. by apply set_backend_ok.
  - destruct (chan_flush_spec c1 Hc1) as (b & E1 & _). rewrite E1. cbn [mbind outcome_bind].
    destruct (bq_Close _) as [b' err]. eexists. split; [reflexivity|]. cbn [fst].
    change (chan_ok (set_queues b' [] c1)). pose proof (co_nodup _ Hc1) as Hn.
    apply set_memory_ok; [done|intros p Hp; by apply elem_of_nil in Hp|].
    by apply NoDup_app in Hn as (_ & _ & Hn).
Qed.

(** ** Every method keeps the invariant *)

(** The specifications of the methods that look up a message in flight: use the result
    of each branch and continue with the invariant. *)
Ltac flight_method H :=
  lazymatch type of H with
  | match inFlightMessages ?c !! ?id with _ => _ end =>
      destruct (inFlightMessages c !! id);
      [destruct H as (? & _ & _ & H); flight_method H|flight_method H]
  | (if ?b then _ else _) => destruct b; flight_method H
  | ex _ => destruct H as [? H]; flight_method H
  | _ /\ _ => let E1 := fresh "E" in destruct H as [E1 H]; rewrite E1; cbn [mbind outcome_bind];
              destruct_and?; eauto
  | _ = _ => rewrite H; cbn [mbind outcome_bind]; eauto
  end.

Lemma run_op_ok o c : chan_ok c -> exists c', run_op o c = Ret c' /\ chan_ok c'.
Proof.
  intros Hc. pose proof alloc_ok as Ha.
  destruct o as [m|m timeout now|rate roll client timeout now|rate roll client timeout now|client id|client id timeout now|client id timeout now
                |t|t|id client|id|pause| |del]; cbn [run_op].
  - specialize (Ha m c Hc). destruct (alloc m c) as [p c0]. destruct Ha as (Hc0 & Hm & Hp & _).
    pose proof (PutMessage_spec p m c0 Hc0 Hm Hp) as H. flight_method H.
  - specialize (Ha m c Hc). destruct (alloc m c) as [p c0]. destruct Ha as (Hc0 & Hm & Hp & _).
    unfold PutMessageDeferred.
    destruct (StartDeferredTimeout_spec p m timeout now _ (set_counts_ok (requeueCount c0) (u64 (messageCount c0 + 1))
      (timeoutCount c0) c0 Hc0) Hm Hp) as (c1 & Hc1 & _ & _ & E1). cbn [set_counts deferredMessages] in E1.
    destruct (deferredMessages c0 !! ID m); flight_method E1.
  - pose proof (pump_memory_spec rate roll client timeout now c Hc) as Hd. destruct (memory c) as [|p mem].
    + flight_method Hd.
    + destruct Hd as (m & c1 & rest & _ & Hc1 & _ & Hd). flight_method Hd.
  - pose proof (pump_backend_spec rate roll client timeout now c Hc) as Hd. destruct (bq_ReadChan _) as [[x b]|].
    + destruct Hd as (c1 & r & Hc1 & E1 & _). flight_method E1.
    + flight_method Hd.
  - pose proof (FinishMessage_spec client id c Hc) as H. flight_method H.
  - pose proof (RequeueMessage_spec client id timeout now c Hc) as H. flight_method H.
  - pose proof (TouchMessage_spec client id timeout now c Hc) as H. flight_method H.
  - destruct (processInFlightQueue_ok t c Hc) as ([c1 d] & H). flight_method H.
  - destruct (processDeferredQueue_ok t c Hc) as ([c1 d] & H). flight_method H.
  - exists (AddClient id client c).1. split; [done|]. unfold AddClient. destruct (clients c !! id); [done|].
    destruct (_ && _); [done|by apply set_clients_ok].
  - exists (RemoveClient id c). split; [done|]. unfold RemoveClient. destruct (clients c !! id); [|done].
    by apply set_clients_ok.
  - exists (doPause pause c). split; [done|by apply set_clients_ok].
  - exists (Empty c).1. split; [done|by apply Empty_ok].
  - destruct (exit_ok del c Hc) as ([c1 e] & H). flight_method H.
Qed.

Lemma run_ok ops : forall c, chan_ok c -> exists c', run ops c = Ret c' /\ chan_ok c'.
Proof.
  induction ops as [|o ops IH]; intros c Hc; cbn [run]; [eauto|].
  destruct (run_op_ok o c Hc) as (c1 & E1 & Hc1). rewrite E1. cbn [mbind outcome_bind]. by apply IH.
Qed.

(** *** What every operation but exit leaves alone *)

(** The exit flag, and the id a pointer stands for. *)
Definition frame (c c' : Channel) : Prop :=
  exitFlag c' = exitFlag c /\
  forall p m, store c' !! p = Some m -> exists m0, store c !! p = Some m0 /\ ID m0 = ID m.

#[local] Instance frame_preorder : PreOrder frame.
Proof.
  split; [intros c; split; eauto|]. intros a b c [H1 H2] [H3 H4]. split; [congruence|].
  intros p m Hm. apply H4 in Hm as (m1 & Hm & <-). by apply H2.
Qed.

Lemma frame_set_store c p m m' : store c !! p = Some m -> ID m' = ID m ->
  frame c (set_store (<[p := m']> (store c)) c).
Proof.
  intros Hm Hid. split; [done|]. cbn [set_store store]. intros q x Hx.
  apply lookup_insert_Some in Hx as [[<- <-]|[_ Hx]]; eauto.
Qed.

(** Follow the branches of a call that returned. *)
Ltac frame_steps :=
  repeat match goal with
  | H : Ret _ = Ret _ |- _ => injection H as H; try subst
  | H : (_, _) = (_, _) |- _ => injection H as H; try subst
  | H : Panic = Ret _ |- _ => discriminate H
  | H : Fail _ = Ret _ |- _ => discriminate H
  | H : (_ ≫= _) = Ret _ |- _ => cbv [mbind outcome_bind] in H
  | H : context [match ?x with _ => _ end] |- _ =>
      lazymatch x with context [match _ with _ => _ end] => fail | _ => destruct x eqn:? end
  end.

Lemma deref_Some p c m : deref p c = Ret m -> store c !! p = Some m.
Proof. unfold deref. destruct (store c !! p); [by injection 1 as ->|done]. Qed.

Ltac frame_triv := split; [reflexivity|cbn [store]; eauto].
Ltac frame_solve H := unfold deref in H; frame_steps; frame_triv.

Lemma put_frame p c r : put p c = Ret r -> frame c r.1.
Proof. unfold put. intros H. frame_solve H. Qed.

Lemma push_frame p c r : pushInFlightMessage p c = Ret r -> frame c r.1.
Proof. unfold pushInFlightMessage. intros H. frame_solve H. Qed.

Lemma pop_frame p id c r : popInFlightMessage p id c = Ret r -> frame c r.1.
Proof. unfold popInFlightMessage. intros H. frame_solve H. Qed.

Lemma add_frame p c c' : addToInFlightPQ p c = Ret c' -> frame c c'.
Proof. unfold addToInFlightPQ. intros H. frame_solve H. Qed.

Lemma rem_frame p c c' : removeFromInFlightPQ p c = Ret c' -> frame c c'.
Proof. unfold removeFromInFlightPQ. intros H. frame_solve H. Qed.

Lemma StartDeferredTimeout_frame p t n c r : StartDeferredTimeout p t n c = Ret r -> frame c r.1.
Proof. unfold StartDeferredTimeout, pushDeferredMessage, addToDeferredPQ. intros H. frame_solve H. Qed.

(** The frames of the calls in the context, in the order they were made. *)
Ltac frame_calls :=
  repeat match goal with
  | H : put _ _ = Ret _ |- _ => apply put_frame in H
  | H : pushInFlightMessage _ _ = Ret _ |- _ => apply push_frame in H
  | H : popInFlightMessage _ _ _ = Ret _ |- _ => apply pop_frame in H
  | H : addToInFlightPQ _ _ = Ret _ |- _ => apply add_frame in H
  | H : removeFromInFlightPQ _ _ = Ret _ |- _ => apply rem_frame in H
  | H : StartDeferredTimeout _ _ _ _ = Ret _ |- _ => apply StartDeferredTimeout_frame in H
  | H : deref _ _ = Ret _ |- _ => apply deref_Some in H
  end; cbn [fst snd] in *.

Ltac frame_link :=
  repeat match goal with
  | H : frame ?a ?b |- frame ?c ?d => first [exact H | etrans; [exact H|]; clear H | etrans; [|exact H]; clear H]
  end.

Lemma StartInFlightTimeout_frame p k t n c r : StartInFlightTimeout p k t n c = Ret r -> frame c r.1.
Proof.
  unfold StartInFlightTimeout. intros H. frame_steps; frame_calls; frame_link;
    (eapply frame_set_store; [eassumption|reflexivity]).
Qed.

Lemma FinishMessage_frame k id c r : FinishMessage k id c = Ret r -> frame c r.1.
Proof. unfold FinishMessage. intros H. frame_steps; frame_calls; frame_link; reflexivity. Qed.

Lemma TouchMessage_frame k id t n c r : TouchMessage k id t n c = Ret r -> frame c r.1.
Proof.
  unfold TouchMessage. intros H. frame_steps; frame_calls; frame_link; try reflexivity;
    (eapply frame_set_store; [eassumption|reflexivity]).
Qed.

Lemma RequeueMessage_frame k id t n c r : RequeueMessage k id t n c = Ret r -> frame c r.1.
Proof.
  unfold RequeueMessage. intros H. frame_steps; frame_calls; frame_link; try reflexivity; frame_triv.
Qed.

Lemma send_message_frame p k t n c r : send_message p k t n c = Ret r -> frame c r.1.
Proof.
  unfold send_message. intros H. frame_steps; frame_calls.
  match goal with H : StartInFlightTimeout _ _ _ _ _ = _ |- _ => apply StartInFlightTimeout_frame in H end.
  etrans; [|eassumption]. eapply frame_set_store; [eassumption|reflexivity].
Qed.

Lemma pump_memory_frame s l k t n c r : pump_memory s l k t n c = Ret r -> frame c r.1.
Proof.
  unfold pump_memory. intros H. destruct (memory c) as [|p mem]; [injection H as <-; frame_triv|].
  destruct (sampled_out s l); [injection H as <-; frame_triv|]. apply send_message_frame in H.
  etrans; [|exact H]. frame_triv.
Qed.

(** The channel with the message a delivery from the backend decodes. *)
Definition decoded (s l : Z) (c : Channel) : Channel :=
  match bq_ReadChan (backend c) with
  | Some (x, b) =>
      match sampled_out s l, decodeMessage x with
      | false, Ret m => (alloc m (set_queues b (memory c) c)).2
      | _, _ => c
      end
  | None => c
  end.

Lemma pump_backend_frame s l k t n c r : pump_backend s l k t n c = Ret r -> frame (decoded s l c) r.1.
Proof.
  unfold pump_backend, decoded. intros H. destruct (bq_ReadChan _) as [[x b]|]; [|injection H as <-; frame_triv].
  destruct (sampled_out s l); [injection H as <-; frame_triv|].
  destruct (decodeMessage x) as [m| |]; [|injection H as <-; frame_triv..].
  destruct (alloc m _) as [p c2]. by apply send_message_frame in H.
Qed.

Lemma inflight_loop_frame fuel : forall t d c r, inflight_loop fuel t d c = Ret r -> frame c r.1.
Proof.
  induction fuel as [|fuel IH]; intros t d c r H; cbn [inflight_loop] in H; [done|].
  frame_steps; frame_calls; try (frame_link; frame_triv);
    (match goal with H : inflight_loop _ _ _ _ = _ |- _ => apply IH in H end; frame_link; frame_triv).
Qed.

Lemma deferred_loop_frame fuel : forall t d c r, deferred_loop fuel t d c = Ret r -> frame c r.1.
Proof.
  induction fuel as [|fuel IH]; intros t d c r H; cbn [deferred_loop] in H; [done|]. unfold popDeferredMessage in H.
  frame_steps; frame_calls; try (frame_link; frame_triv);
    (match goal with H : deferred_loop _ _ _ _ = _ |- _ => apply IH in H end; frame_link; frame_triv).
Qed.

(** ** Conservation *)

Section conservation.
Context {HBH : BackendHolds}.

(** What identifies a message on disk and in memory: its id and body, after the timestamp
    and the attempts in its encoding. *)
Definition payload (x : list Z) : list Z := drop 10 x.

Definition payload_of (m : Message) : list Z := ID m ++ Body m.

Definition id_in (x : list Z) : MessageID := take 16 (payload x).

Lemma payload_encode m : payload (encodeMessage m) = payload_of m.
Proof.
  rewrite encodeMessage_eq, (app_assoc (be_put 8 _)). unfold payload. apply drop_app_length'.
  by rewrite length_app, !length_be_put.
Qed.

Lemma id_in_encode m : length (ID m) = 16%nat -> id_in (encodeMessage m) = ID m.
Proof. intros H. unfold id_in. rewrite payload_encode. by apply take_app_length'. Qed.

Record ids_ok (c : Channel) : Prop := {
  io_len : forall p m, store c !! p = Some m -> length (ID m) = 16%nat;
  io_nodup : NoDup (id_in <$> held c)
}.

Lemma ids_distinct c p q m m' : chan_ok c -> ids_ok c -> p ∈ tracked c -> q ∈ tracked c -> p <> q ->
  store c !! p = Some m -> store c !! q = Some m' -> ID m <> ID m'.
Proof.
  intros Hc [Hl Hn] Hp Hq Hne Hm Hm'. unfold held in Hn. rewrite fmap_app, NoDup_app in Hn. destruct Hn as [Hn _].
  apply elem_of_Permutation in Hp as [l Hp]. rewrite Hp in Hq, Hn. apply elem_of_cons in Hq as [->|Hq]; [done|].
  apply elem_of_Permutation in Hq as [l' Hq]. rewrite Hq in Hn. cbn [fmap list_fmap] in Hn.
  unfold encode_at in Hn. rewrite Hm, Hm' in Hn. rewrite !id_in_encode in Hn by eauto.
  apply NoDup_cons in Hn as [Hn _]. intros Heq. apply Hn. rewrite Heq. by left.
Qed.

Lemma tracked_id_held c p m : ids_ok c -> p ∈ tracked c -> store c !! p = Some m -> ID m ∈ id_in <$> held c.
Proof.
  intros [Hl _] Hp Hm. rewrite <- (id_in_encode m) by eauto. apply list_elem_of_fmap_2. unfold held.
  apply elem_of_app. left. replace (encodeMessage m) with (encode_at (store c) p) by (unfold encode_at; by rewrite Hm).
  by apply list_elem_of_fmap_2.
Qed.

Lemma fresh_not_deferred c id : chan_ok c -> ids_ok c -> id ∉ id_in <$> held c -> deferredMessages c !! id = None.
Proof.
  intros Hc Hi Hf. destruct (deferredMessages c !! id) as [q|] eqn:Eq; [|done]. exfalso. apply Hf.
  destruct (co_deferred_map _ Hc) as [Hd Hs]. destruct (Hs _ _ Eq) as (m & Hm & <-).
  apply (tracked_id_held c q m Hi); [|done]. apply tracked_deferred, Hd. eauto.
Qed.

(** A message in the backend is not in flight as well. *)
Lemma stored_not_inflight c x l m : chan_ok c -> ids_ok c -> bq_contents (backend c) ≡ₚ x :: l -> ID m = id_in x ->
  inFlightMessages c !! ID m = None.
Proof.
  intros Hc [Hl Hn] Hx Hid. destruct (inFlightMessages c !! ID m) as [q|] eqn:Eq; [|done]. exfalso.
  destruct (co_inflight_map _ Hc) as [Hd Hs]. destruct (Hs _ _ Eq) as (m' & Hm' & Hid').
  assert (Qi : q ∈ tracked c) by (apply tracked_inflight, Hd; eauto).
  unfold held in Hn. rewrite Hx, fmap_app, NoDup_app in Hn. destruct Hn as (_ & Hn & _).
  apply (Hn (ID m)); [|rewrite Hid; by left]. rewrite <- Hid', <- (id_in_encode m') by eauto. apply list_elem_of_fmap_2.
  replace (encodeMessage m') with (encode_at (store c) q) by (unfold encode_at; by rewrite Hm').
  by apply list_elem_of_fmap_2.
Qed.

Lemma inflight_not_deferred c id p : chan_ok c -> ids_ok c -> inFlightMessages c !! id = Some p ->
  deferredMessages c !! id = None.
Proof.
  intros Hc Hi Hp. destruct (deferredMessages c !! id) as [q|] eqn:Eq; [|done]. exfalso.
  destruct (co_inflight_map _ Hc) as [Hd Hs]. destruct (Hs _ _ Hp) as (m & Hm & Hid).
  destruct (co_deferred_map _ Hc) as [Hd' Hs']. destruct (Hs' _ _ Eq) as (m' & Hm' & Hid').
  assert (Pi : p ∈ items (inFlightPQ c)) by (apply Hd; eauto). assert (Qd : q ∈ items (deferredPQ c)) by (apply Hd'; eauto).
  apply (ids_distinct c p q m m' Hc Hi); [by apply tracked_inflight|by apply tracked_deferred| |done|done|congruence].
  intros ->. pose proof (co_nodup _ Hc) as Hn. unfold tracked in Hn. apply NoDup_app in Hn as (_ & _ & Hn).
  apply NoDup_app in Hn as (_ & Hn & _). by apply (Hn q).
Qed.

Lemma memory_not_inflight c p mem m : chan_ok c -> ids_ok c -> memory c = p :: mem -> store c !! p = Some m ->
  inFlightMessages c !! ID m = None.
Proof.
  intros Hc Hi Em Hm. destruct (inFlightMessages c !! ID m) as [q|] eqn:Eq; [|done]. exfalso.
  destruct (co_inflight_map _ Hc) as [Hd Hs]. destruct (Hs _ _ Eq) as (m' & Hm' & Hid).
  assert (Qi : q ∈ items (inFlightPQ c)) by (apply Hd; eauto).
  assert (Hp : p ∈ memory c) by (rewrite Em; by left).
  apply (ids_distinct c p q m m' Hc Hi); [apply elem_of_app; by left|by apply tracked_inflight| |done|done|congruence].
  intros ->. pose proof (co_nodup _ Hc) as Hn. unfold tracked in Hn. apply NoDup_app in Hn as (_ & Hn & _).
  apply (Hn q Hp), elem_of_app. by left.
Qed.

(** What an operation brings into the channel, and what it acknowledges. *)
Definition accepted (o : op) : list (list Z) :=
  match o with OPut m | OPutDeferred m _ _ => [payload_of m] | _ => [] end.

Definition acked (o : op) (c : Channel) : list (list Z) :=
  match o with
  | OFinish client id =>
      match inFlightMessages c !! id ≫= (store c !!.) with
      | Some m => if clientID m =? client then [payload_of m] else []
      | None => []
      end
  | _ => []
  end.

(** What an operation takes out of its queue and does not deliver: a message the client
    samples out, stored bytes that do not decode. *)
Definition dropped (o : op) (c : Channel) : list (list Z) :=
  match o with
  | ODeliver sampleRate roll _ _ _ =>
      match memory c with
      | p :: _ => if sampled_out sampleRate roll then [payload (encode_at (store c) p)] else []
      | [] => []
      end
  | ODeliverBackend sampleRate roll _ _ _ =>
      match bq_ReadChan (backend c) with
      | Some (x, _) => match sampled_out sampleRate roll, decodeMessage x with false, Ret _ => [] | _, _ => [payload x] end
      | None => []
      end
  | _ => []
  end.

(** Empty and exit drop messages on purpose; ids come from the id factory. *)
Definition admissible (o : op) (c : Channel) : Prop :=
  match o with
  | OPut m | OPutDeferred m _ _ => length (ID m) = 16%nat /\ ID m ∉ id_in <$> held c
  | OEmpty | OExit _ => False
  | _ => True
  end.

Definition balanced (o : op) (c c' : Channel) : Prop :=
  acked o c ++ dropped o c ++ (payload <$> held c') ≡ₚ accepted o ++ (payload <$> held c).

Lemma balanced_same o c c' : acked o c = [] -> dropped o c = [] -> accepted o = [] -> held c' ≡ₚ held c -> balanced o c c'.
Proof. intros H1 H2 H3 H4. unfold balanced. by rewrite H1, H2, H3, H4. Qed.

Lemma put_balanced o m c c' : accepted o = [payload_of m] -> acked o c = [] -> dropped o c = [] ->
  held c' ≡ₚ encodeMessage m :: held c -> balanced o c c'.
Proof.
  intros Ha Hk Hd Hh. unfold balanced. rewrite Ha, Hk, Hd, Hh. cbn [fmap list_fmap app]. by rewrite payload_encode.
Qed.

Lemma run_put_balanced m c : keeps -> exitFlag c = false -> chan_ok c -> ids_ok c -> 
  exists c', run_op (OPut m) c = Ret c' /\ balanced (OPut m) c c'.
Proof.
  intros Hk Hx Hc Hi. cbn [run_op]. pose proof (alloc_ok m c Hc) as Ha.
  assert (Hx' : exitFlag (alloc m c).2 = false) by done.
  destruct (alloc m c) as [p c0]. cbn [snd] in *. destruct Ha as (Hc0 & Hm & Hp & Hh).
  destruct (PutMessage_spec p m c0 Hc0 Hm Hp) as (c1 & err & E1 & _ & _ & _ & Hb).
  destruct (Hb Hx' Hk) as (-> & Hb' & _). rewrite E1. exists c1. split; [done|].
  apply (put_balanced _ m); [done..|]. by rewrite Hb', Hh.
Qed.

Lemma run_put_deferred_balanced m timeout now c : chan_ok c -> ids_ok c -> ID m ∉ id_in <$> held c ->
  exists c', run_op (OPutDeferred m timeout now) c = Ret c' /\ balanced (OPutDeferred m timeout now) c c'.
Proof.
  intros Hc Hi Hf. cbn [run_op]. pose proof (alloc_ok m c Hc) as Ha.
  assert (Hd : deferredMessages (alloc m c).2 !! ID m = None) by (by exact (fresh_not_deferred c (ID m) Hc Hi Hf)).
  destruct (alloc m c) as [p c0]. cbn [snd] in *. destruct Ha as (Hc0 & Hm & Hp & Hh). unfold PutMessageDeferred.
  destruct (StartDeferredTimeout_spec p m timeout now _ (set_counts_ok (requeueCount c0) (u64 (messageCount c0 + 1))
      (timeoutCount c0) c0 Hc0) Hm Hp) as (c1 & _ & _ & _ & E1). cbn [set_counts deferredMessages] in E1.
  rewrite Hd in E1. destruct E1 as (E1 & _ & _ & Hb). rewrite E1. exists c1. split; [done|].
  apply (put_balanced _ m); [done..|]. rewrite Hb. change (held (set_counts _ _ _ c0)) with (held c0). by rewrite Hh.
Qed.

Lemma run_finish_balanced client id c : chan_ok c ->
  exists c', run_op (OFinish client id) c = Ret c' /\ balanced (OFinish client id) c c'.
Proof.
  intros Hc. cbn [run_op]. pose proof (FinishMessage_spec client id c Hc) as Hf. unfold balanced, acked.
  destruct (inFlightMessages c !! id) as [p|] eqn:Ep; cbn [mbind option_bind]; [|rewrite Hf; exists c; done].
  destruct Hf as (m & Hm & _ & Hf). rewrite Hm. destruct (clientID m =? client).
  - destruct Hf as (c1 & E1 & _ & _ & _ & _ & Hb). rewrite E1. exists c1. split; [done|].
    rewrite Hb. cbn [fmap list_fmap app accepted dropped]. by rewrite payload_encode.
  - rewrite Hf. exists c. done.
Qed.

Lemma run_requeue_balanced client id timeout now c : keeps -> exitFlag c = false -> chan_ok c -> ids_ok c ->
  exists c', run_op (ORequeue client id timeout now) c = Ret c' /\ held c' ≡ₚ held c.
Proof.
  intros Hk Hx Hc Hi. cbn [run_op]. pose proof (RequeueMessage_spec client id timeout now c Hc) as Hf.
  destruct (inFlightMessages c !! id) as [p|] eqn:Ep; [|rewrite Hf; by exists c].
  destruct Hf as (m & Hm & _ & Hf). destruct (clientID m =? client); [|rewrite Hf; by exists c].
  destruct Hf as (c1 & err & E1 & _ & _ & H1 & H2). rewrite E1. exists c1. split; [done|].
  destruct (decide (timeout = 0)) as [Ht|Ht]; [by destruct (H1 Ht Hx Hk)|].
  destruct (H2 Ht) as (_ & Hb & _); [by apply (inflight_not_deferred c id p)|done].
Qed.

Lemma payload_attempted m : payload (encodeMessage (attempted m)) = payload (encodeMessage m).
Proof. by rewrite !payload_encode. Qed.

Lemma run_deliver_balanced rate roll client timeout now c : chan_ok c -> ids_ok c ->
  exists c', run_op (ODeliver rate roll client timeout now) c = Ret c' /\ balanced (ODeliver rate roll client timeout now) c c'.
Proof.
  intros Hc Hi. cbn [run_op]. pose proof (pump_memory_spec rate roll client timeout now c Hc) as Hd.
  unfold balanced, acked, dropped, accepted. cbn [app].
  destruct (memory c) as [|p mem] eqn:Em; [rewrite Hd; by exists c|].
  destruct Hd as (m & c1 & rest & Hm & _ & Hr & Hb). exists c1. unfold encode_at. rewrite Hm.
  destruct (sampled_out rate roll); destruct Hb as [E1 Hb]; rewrite E1; (split; [done|]).
  - by rewrite Hr, Hb.
  - rewrite Hr, Hb by (by apply (memory_not_inflight c p mem)). cbn [app fmap list_fmap]. by rewrite payload_attempted.
Qed.

(** What decodeMessage makes of stored bytes: their id and body, if they are long enough. *)
Lemma decode_payload x m : decodeMessage x = Ret m -> ID m = id_in x /\ payload (encodeMessage m) = payload x.
Proof.
  unfold decodeMessage. destruct (_ <? _)%nat; [done|]. intros H. injection H as <-.
  unfold id_in. rewrite payload_encode. unfold payload_of, payload, slice, MsgIDLength. cbn [ID Body].
  change (10 + 16 - 10)%nat with 16%nat. split; [done|].
  rewrite <- (take_drop 16 (drop 10 x)) at 2. by rewrite drop_drop.
Qed.

Lemma run_backend_balanced rate roll client timeout now c : keeps -> chan_ok c -> ids_ok c ->
  exists c', run_op (ODeliverBackend rate roll client timeout now) c = Ret c' /\
    balanced (ODeliverBackend rate roll client timeout now) c c'.
Proof.
  intros Hk Hc Hi. cbn [run_op]. pose proof (pump_backend_spec rate roll client timeout now c Hc) as Hd.
  unfold balanced, acked, dropped, accepted. cbn [app].
  destruct (bq_ReadChan (backend c)) as [[x b]|] eqn:Er; [|rewrite Hd; by exists c].
  destruct Hd as (c1 & r & _ & E1 & Hb). rewrite E1. exists c1. split; [done|].
  pose proof (bq_read_ok Hk _ _ _ Er) as Hx.
  assert (Hh : held c ≡ₚ x :: held (set_queues b (memory c) c)).
  { unfold held. cbn [set_queues store backend]. rewrite Hx. by rewrite <- Permutation_middle. }
  rewrite Hh. destruct (sampled_out rate roll); [by rewrite Hb|].
  destruct (decodeMessage x) as [m| |] eqn:Ed; [|by rewrite Hb..].
  destruct (decode_payload x m Ed) as [Hid Hp]. rewrite Hb by (by eapply stored_not_inflight).
  cbn [app fmap list_fmap]. by rewrite payload_attempted, Hp.
Qed.

Lemma run_op_balanced o c : keeps -> exitFlag c = false -> chan_ok c -> ids_ok c -> admissible o c ->
  exists c', run_op o c = Ret c' /\ balanced o c c'.
Proof.
  intros Hk Hx Hc Hi Ha.
  assert (Hkeep : acked o c = [] -> dropped o c = [] -> accepted o = [] ->
    (exists c', run_op o c = Ret c' /\ held c' ≡ₚ held c) -> exists c', run_op o c = Ret c' /\ balanced o c c').
  { intros H1 H2 H3 (c' & E1 & Hh). exists c'. split; [done|by apply balanced_same]. }
  destruct o as [m|m timeout now|rate roll client timeout now|rate roll client timeout now|client id|client id timeout now|client id timeout now
                |t|t|id client|id|pause| |del]; try (by destruct Ha).
  - by apply run_put_balanced.
  - destruct Ha. by apply run_put_deferred_balanced.
  - by apply run_deliver_balanced.
  - by apply run_backend_balanced.
  - by apply run_finish_balanced.
  - by apply Hkeep, run_requeue_balanced.
  - apply Hkeep; [done..|]. cbn [run_op]. pose proof (TouchMessage_spec client id timeout now c Hc) as Ht.
    flight_method Ht.
  - apply Hkeep; [done..|]. cbn [run_op]. unfold processInFlightQueue. rewrite Hx.
    destruct (inflight_loop_spec (S (length (items (inFlightPQ c)))) t false c Hc ltac:(lia))
      as (c' & d & l & E1 & _ & _ & _ & _ & _ & _ & _ & _ & Hh). rewrite E1. cbn [mbind outcome_bind]. eauto.
  - apply Hkeep; [done..|]. cbn [run_op]. unfold processDeferredQueue. rewrite Hx.
    destruct (deferred_loop_spec (S (length (items (deferredPQ c)))) t false c Hc ltac:(lia))
      as (c' & d & l & E1 & _ & _ & _ & _ & _ & _ & _ & Hh). rewrite E1. cbn [mbind outcome_bind]. eauto.
  - apply Hkeep; [done..|]. exists (AddClient id client c).1. split; [done|]. unfold AddClient.
    destruct (clients c !! id); [done|]. by destruct (_ && _).
  - apply Hkeep; [done..|]. exists (RemoveClient id c). split; [done|]. unfold RemoveClient.
    by destruct (clients c !! id).
  - apply Hkeep; [done..|]. by exists (doPause pause c).
Qed.

(** Where an operation starts: a put first allocates its message, and a delivery from the
    backend the message it decodes. *)
Definition base (o : op) (c : Channel) : Channel :=
  match o with
  | OPut m | OPutDeferred m _ _ => (alloc m c).2
  | ODeliverBackend rate roll _ _ _ => decoded rate roll c
  | _ => c
  end.

Ltac frame_of H lem :=
  match type of H with
  | (?x ≫= _) = _ =>
      let E1 := fresh in destruct x as [[? ?]| |] eqn:E1; [|done..]; injection H as <-; by apply lem in E1
  end.

Lemma run_op_frame o c c' : admissible o c -> run_op o c = Ret c' -> frame (base o c) c'.
Proof.
  intros Ha H.
  destruct o as [m|m timeout now|rate roll client timeout now|rate roll client timeout now|client id|client id timeout now|client id timeout now
                |t|t|id client|id|pause| |del]; cbn [run_op] in H; try (by destruct Ha); cbn [base].
  - destruct (alloc m c) as [p c0]. cbn [snd]. unfold PutMessage in H. frame_steps; frame_calls; frame_link; frame_triv.
  - destruct (alloc m c) as [p c0]. cbn [snd]. unfold PutMessageDeferred in H.
    frame_steps; frame_calls; frame_link; frame_triv.
  - frame_of H pump_memory_frame.
  - frame_of H pump_backend_frame.
  - frame_of H FinishMessage_frame.
  - frame_of H RequeueMessage_frame.
  - frame_of H TouchMessage_frame.
  - unfold processInFlightQueue in H. destruct (exitFlag c); [injection H as <-; reflexivity|].
    frame_of H inflight_loop_frame.
  - unfold processDeferredQueue in H. destruct (exitFlag c); [injection H as <-; reflexivity|].
    frame_of H deferred_loop_frame.
  - injection H as <-. unfold AddClient. destruct (clients c !! id); [|destruct (_ && _)]; frame_triv.
  - injection H as <-. unfold RemoveClient. destruct (clients c !! id); frame_triv.
  - injection H as <-. frame_triv.
Qed.

Definition id_lengths (c : Channel) : Prop := forall p m, store c !! p = Some m -> length (ID m) = 16%nat.

Lemma run_op_keeps o c c' : admissible o c -> id_lengths c -> run_op o c = Ret c' ->
  exitFlag c' = exitFlag c /\ id_lengths c'.
Proof.
  intros Ha Hl H. apply run_op_frame in H as [H1 H2]; [|done].
  assert (Hb : exitFlag (base o c) = exitFlag c /\ id_lengths (base o c)).
  { assert (Hal : forall m c0, store c0 = store c -> length (ID m) = 16%nat -> id_lengths (alloc m c0).2).
    { intros m c0 Es Hm p x Hx. unfold alloc in Hx. cbn [snd set_store store] in Hx. rewrite Es in Hx.
      apply lookup_insert_Some in Hx as [[_ <-]|[_ Hx]]; eauto. }
    destruct o as [m|m ? ?|? ? ? ? ?|rate roll ? ? ?| | | | | | | | | |]; try done; cbn [base];
      [by split; [|apply Hal; destruct Ha]..|].
    unfold decoded. destruct (bq_ReadChan _) as [[x b]|]; [|done]. destruct (sampled_out _ _); [done|].
    destruct (decodeMessage x) as [m| |] eqn:Ed; [|done..]. split; [done|]. apply Hal; [done|].
    unfold decodeMessage, minValidMsgLength, MsgIDLength in Ed.
    destruct (Nat.ltb_spec (length x) (16 + 8 + 2)); [done|]. injection Ed as <-. cbn [ID].
    unfold slice. rewrite length_take, length_drop. lia. }
  destruct Hb as [Hb1 Hb2]. split; [congruence|]. intros p m Hm. apply H2 in Hm as (m0 & Hm & <-). eauto.
Qed.

Definition put_ids (ops : list op) : list MessageID :=
  o ← ops; match o with OPut m | OPutDeferred m _ _ => [ID m] | _ => [] end.

(** Everything acknowledged along a run. *)
Fixpoint acks (ops : list op) (c : Channel) : list (list Z) :=
  match ops with
  | [] => []
  | o :: ops => acked o c ++ match run_op o c with Ret c1 => acks ops c1 | _ => [] end
  end.

(** Everything taken out of a queue and not delivered along a run. *)
Fixpoint drops (ops : list op) (c : Channel) : list (list Z) :=
  match ops with
  | [] => []
  | o :: ops => dropped o c ++ match run_op o c with Ret c1 => drops ops c1 | _ => [] end
  end.

(** A delivery whose client does not sample its message out. *)
Definition unsampled (o : op) : Prop :=
  match o with
  | ODeliver sampleRate roll _ _ _ | ODeliverBackend sampleRate roll _ _ _ => sampled_out sampleRate roll = false
  | _ => True
  end.

(** Operations other than Empty and exit; ids have their fixed length. *)
Definition client_op (o : op) : Prop :=
  match o with
  | OPut m | OPutDeferred m _ _ => length (ID m) = 16%nat
  | OEmpty | OExit _ => False
  | _ => True
  end.

Lemma balanced_ids o c c' : client_op o -> balanced o c c' ->
  (take 16 <$> acked o c) ++ (take 16 <$> dropped o c) ++ (id_in <$> held c') ≡ₚ put_ids [o] ++ (id_in <$> held c).
Proof.
  intros Ho Hb. unfold balanced in Hb. apply (fmap_Permutation (take 16)) in Hb.
  rewrite !fmap_app, <- !list_fmap_compose in Hb. change (take 16 ∘ payload) with id_in in Hb. rewrite Hb.
  apply Permutation_app_tail. destruct o; cbn [accepted put_ids mbind list_bind app fmap list_fmap]; try done;
    unfold payload_of; cbn [client_op] in Ho; by rewrite take_app_length'.
Qed.

(** Messages of full length decode: without sampling nothing is dropped. *)
Definition decodable (l : list (list Z)) : Prop := Forall (fun x => (16 <= length x)%nat) l.

Lemma decode_long x : (16 <= length (payload x))%nat -> exists m, decodeMessage x = Ret m.
Proof.
  unfold payload, decodeMessage, minValidMsgLength, MsgIDLength. rewrite length_drop. intros H.
  destruct (Nat.ltb_spec (length x) (16 + 8 + 2)); [lia|eauto].
Qed.

Lemma dropped_nil o c : keeps -> unsampled o -> decodable (payload <$> held c) -> dropped o c = [].
Proof.
  intros Hk Hu Hl. destruct o as [m|m ? ?|? ? ? ? ?|rate roll ? ? ?| | | | | | | | | |]; try done; cbn [dropped unsampled] in *.
  - destruct (memory c); [done|by rewrite Hu].
  - destruct (bq_ReadChan (backend c)) as [[x b]|] eqn:Er; [|done]. rewrite Hu.
    destruct (decode_long x) as [m ->]; [|done]. unfold held, decodable in Hl. rewrite fmap_app, (bq_read_ok Hk _ _ _ Er) in Hl.
    apply Forall_app in Hl as [_ Hl]. by apply Forall_cons in Hl as [? _].
Qed.

Lemma balanced_decodable o c c' : client_op o -> balanced o c c' -> decodable (payload <$> held c) ->
  decodable (payload <$> held c').
Proof.
  intros Ho Hb Hl. assert (H : decodable (acked o c ++ dropped o c ++ (payload <$> held c'))).
  { unfold decodable, balanced in *. rewrite Hb. apply Forall_app. split; [|done].
    destruct o; cbn [accepted client_op] in *; try done; constructor; [|done|..]; try done;
      unfold payload_of; rewrite length_app; lia. }
  by apply Forall_app in H as [_ [_ H]%Forall_app].
Qed.

Lemma run_balanced ops : forall c, keeps -> exitFlag c = false -> chan_ok c -> ids_ok c -> Forall client_op ops ->
  NoDup (put_ids ops ++ (id_in <$> held c)) ->
  exists c', run ops c = Ret c' /\ chan_ok c' /\ ids_ok c' /\
    acks ops c ++ drops ops c ++ (payload <$> held c') ≡ₚ (ops ≫= accepted) ++ (payload <$> held c) /\
    (Forall unsampled ops -> decodable (payload <$> held c) -> drops ops c = []).
Proof.
  induction ops as [|o ops IH]; intros c Hk Hx Hc Hi Ho Hn; cbn [run acks drops]; [by exists c|].
  apply Forall_cons in Ho as [Ho Hos].
  assert (Hsplit : put_ids (o :: ops) = put_ids [o] ++ put_ids ops).
  { unfold put_ids. cbn [mbind list_bind]. by rewrite app_nil_r. }
  assert (Ha : admissible o c).
  { rewrite Hsplit in Hn. destruct o; cbn [admissible]; try done; split; try done;
      apply NoDup_app in Hn as (_ & Hn & _); apply Hn; by left. }
  destruct (run_op_balanced o c Hk Hx Hc Hi Ha) as (c1 & E1 & Hb).
  destruct (run_op_ok o c Hc) as (c1' & E1' & Hc1). rewrite E1 in E1'. injection E1' as <-.
  destruct (run_op_keeps o c c1 Ha (io_len _ Hi) E1) as (Hx1 & Hl1).
  pose proof (balanced_ids o c c1 Ho Hb) as Hid.
  assert (Hn1 : NoDup (((take 16 <$> acked o c) ++ (take 16 <$> dropped o c)) ++ put_ids ops ++ (id_in <$> held c1))).
  { rewrite (Permutation_app_swap_app (_ ++ _)), <- app_assoc, Hid, (Permutation_app_swap_app (put_ids ops)), app_assoc.
    by rewrite <- Hsplit. }
  apply NoDup_app in Hn1 as (_ & _ & Hn1).
  destruct (IH c1) as (c2 & E2 & Hc2 & Hi2 & Hb2 & Hd2); [done|congruence|done| |done|done|].
  { split; [done|]. by apply NoDup_app in Hn1 as (_ & _ & ?). }
  exists c2. rewrite E1. cbn [mbind outcome_bind]. split; [done|]. split; [done|]. split; [done|]. split.
  - unfold balanced in Hb. cbn [mbind list_bind]. rewrite <- !app_assoc.
    rewrite (Permutation_app_swap_app (acks ops c1)), Hb2.
    rewrite (Permutation_app_swap_app (dropped o c)), (Permutation_app_swap_app (acked o c)), Hb.
    by rewrite (Permutation_app_swap_app _ (accepted o)).
  - intros [Hu Hus]%Forall_cons Hl. rewrite (dropped_nil o c Hk Hu Hl). apply Hd2; [done|].
    by apply (balanced_decodable o c).
Qed.

End conservation.

(** ** Properties *)

(** C30: a channel is always well formed and never panics.  Whatever sequence of puts,
    deliveries, acknowledgements, requeues, touches, queue scans, client changes,
    pauses, emptyings and closings is run on a new channel, every call returns (no nil or
    out-of-range access, the scans end), both queues are heaps whose index fields are
    right, each queue and its dictionary hold the same messages under their own ids,
    and no message is in two places. *)
Theorem channel_invariant (ops : list op) b ephemeral st :
  exists c, run ops (NewChannel b ephemeral st) = Ret c /\ chan_ok c.
Proof. apply run_ok, NewChannel_ok. Qed.

(** C29: no message is lost or duplicated.  With a backend that keeps what is written to
    it, and ids that are not reused, after any sequence of client operations on a new
    channel what was acknowledged, plus what deliveries dropped, plus what the channel
    holds (in memory, in the backend, in flight, deferred) is, as a multiset of ids and
    bodies, exactly what was put plus what the backend held at the start.  Only a client
    that samples, or stored bytes too short for a message, make a delivery drop anything;
    and flush leaves all of what the channel holds in the backend. *)
Theorem channel_conserves {HBH : BackendHolds} (ops : list op) b ephemeral :
  keeps -> Forall client_op ops -> NoDup (put_ids ops ++ (id_in <$> bq_contents b)) ->
  exists c, run ops (NewChannel b ephemeral ∅) = Ret c /\
    acks ops (NewChannel b ephemeral ∅) ++ drops ops (NewChannel b ephemeral ∅) ++ (payload <$> held c) ≡ₚ
      (ops ≫= accepted) ++ (payload <$> bq_contents b) /\
    (Forall unsampled ops -> Forall (fun x => (minValidMsgLength <= length x)%nat) (bq_contents b) ->
       drops ops (NewChannel b ephemeral ∅) = []) /\
    exists b', flush c = Ret (set_queues b' [] c) /\ bq_contents b' ≡ₚ held c.
Proof.
  intros Hk Ho Hn. set (c0 := NewChannel b ephemeral ∅).
  destruct (run_balanced ops c0) as (c & E1 & Hc & _ & Hb & Hd); [done|done|apply NewChannel_ok| |done|done|].
  - split; [done|]. by apply NoDup_app in Hn as (_ & _ & Hn).
  - exists c. split; [done|]. split; [exact Hb|]. split.
    + intros Hu Hl. apply Hd; [done|]. apply Forall_fmap. eapply Forall_impl; [exact Hl|]. intros x Hx. cbn.
      unfold payload. rewrite length_drop. unfold minValidMsgLength, MsgIDLength in Hx. lia.
    + destruct (chan_flush_spec c Hc) as (b' & E2 & Hf). eauto.
Qed.

(** The scan of the in-flight queue times out exactly the messages that are due.  It
    ends; the messages it takes are those whose timeout is not after the given time, each
    is put back into the queue (with a reliable backend nothing is lost), the timeout
    counter grows by their number, the others stay in flight, and the result says whether
    there were any. *)
Theorem channel_scan {HBH : BackendHolds} (t : Z) (c : Channel) :
  chan_ok c -> exitFlag c = false ->
  exists c' dirty l, processInFlightQueue t c = Ret (c', dirty) /\ chan_ok c' /\
    items (inFlightPQ c) ≡ₚ l ++ items (inFlightPQ c') /\
    (forall p, p ∈ l -> ipri (store c) p <= t) /\
    (forall p, p ∈ items (inFlightPQ c') -> t < ipri (store c') p) /\
    dirty = negb (length l =? 0)%nat /\
    u64 (timeoutCount c') = u64 (timeoutCount c + Z.of_nat (length l)) /\
    (keeps -> held c' ≡ₚ held c).
Proof.
  intros Hc Hx. unfold processInFlightQueue. rewrite Hx.
  destruct (inflight_loop_spec (S (length (items (inFlightPQ c)))) t false c Hc ltac:(lia))
    as (c' & d & l & E1 & Hc' & Hp & Hl & Hr & Hs & _ & Hd & Ht & Hh).
  exists c', d, l. rewrite Hs. by split_and!.
Qed.

(** C31: only the owner can settle a message in flight, once.  FinishMessage and
    TouchMessage refuse an id that is not in flight or that another client holds and
    change nothing then.  By the owner, FinishMessage removes exactly that message, so
    that a second attempt is refused; TouchMessage keeps it in flight until the requested
    timeout, but no longer than MaxMsgTimeout after its delivery. *)
Theorem channel_settle {HBH : BackendHolds} (client : Z) (id : MessageID) (timeout now : Z) (c : Channel) :
  chan_ok c ->
  match inFlightMessages c !! id with
  | None => FinishMessage client id c = Ret (c, Some ErrNotInFlight) /\
            TouchMessage client id timeout now c = Ret (c, Some ErrNotInFlight)
  | Some p => exists m, store c !! p = Some m /\ ID m = id /\
      if clientID m =? client then
        (exists c1, FinishMessage client id c = Ret (c1, None) /\ chan_ok c1 /\
           held c ≡ₚ encodeMessage m :: held c1 /\
           FinishMessage client id c1 = Ret (c1, Some ErrNotInFlight)) /\
        (exists c2, TouchMessage client id timeout now c = Ret (c2, None) /\ chan_ok c2 /\
           held c2 ≡ₚ held c /\ inFlightMessages c2 = inFlightMessages c /\
           ipri (store c2) p = Z.min (now + timeout) (deliveryTS m + MaxMsgTimeout opts))
      else FinishMessage client id c = Ret (c, Some ErrNotOwner) /\
           TouchMessage client id timeout now c = Ret (c, Some ErrNotOwner)
  end.
Proof.
  intros Hc. pose proof (FinishMessage_spec client id c Hc) as Hf. pose proof (TouchMessage_spec client id timeout now c Hc) as Ht.
  destruct (inFlightMessages c !! id) as [p|] eqn:Ep; [|done].
  destruct Hf as (m & Hm & Hid & Hf), Ht as (m' & Hm' & _ & Ht). rewrite Hm in Hm'. injection Hm' as <-.
  exists m. split; [done|]. split; [done|]. destruct (clientID m =? client); [|done]. split.
  - destruct Hf as (c1 & E1 & Hc1 & _ & _ & Hi & Hh). exists c1. split_and!; [done|done|done|].
    pose proof (FinishMessage_spec client id c1 Hc1) as H2. by rewrite Hi, lookup_delete_eq in H2.
  - destruct Ht as (c2 & E2 & Hc2 & Hs & Hi & Hh). exists c2. split_and!; try done.
    unfold ipri. by rewrite Hs, lookup_insert_eq.
Qed.

End channel.

(** ** Witnesses *)

(** A backend that keeps its messages in a list, and a client without state. *)
#[local] Instance listBackend : BackendQueue (list (list Z)) unit := {|
  bq_Put b x := (b ++ [x], None);
  bq_ReadChan b := match b with [] => None | x :: b => Some (x, b) end;
  bq_Close b := (b, None);
  bq_Delete b := ([], None);
  bq_Depth b := Z.of_nat (length b);
  bq_Empty b := ([], None)
|}.

#[local] Instance plainConsumer : Consumer unit := {|
  UnPause c := c; Pause c := c; Close c := c; TimedOutMessage c := c; c_Empty c := c
|}.

Lemma listBackend_put : True -> forall (b : list (list Z)) x,
  exists b', bq_Put b x = (b', None) /\ (fun b => b) b' ≡ₚ x :: b.
Proof. intros _ b x. exists (b ++ [x]). split; [done|]. apply Permutation_app_comm. Qed.

Lemma listBackend_read : True -> forall (b : list (list Z)) x b',
  bq_ReadChan b = Some (x, b') -> (fun b => b) b ≡ₚ x :: b'.
Proof. intros _ [|y b] x b' H; [done|]. by injection H as -> ->. Qed.

#[local] Instance listBackend_holds : BackendHolds (B := list (list Z)) (E := unit) :=
  {| keeps := True; bq_contents := fun b => b; bq_put_ok := listBackend_put; bq_read_ok := listBackend_read |}.

Definition small_opts : options := mkOpts 1 1000 0.

Definition msg_a : Message := mkMessage (replicate 16 97) [1] 5 0 0 0 0 0.
Definition msg_b : Message := mkMessage (replicate 16 98) [2; 2] 6 0 0 0 0 0.
Definition msg_c : Message := mkMessage (replicate 16 99) [3] 7 0 0 0 0 0.

(** Put three messages (two go to the backend), deliver and let the first time out,
    deliver it again and acknowledge it; the second is delivered from the backend, the
    third sampled out. *)
Definition session : list (op (C := unit)) :=
  [OPut msg_a; OPut msg_b; OPut msg_c; OAddClient 7 tt; ODeliver 0 0 7 50 100; OScanInFlight 149; OScanInFlight 150;
   ODeliver 0 0 7 50 200; OTouch 7 (ID msg_a) 40 220; OFinish 7 (ID msg_a);
   ODeliverBackend 20 20 7 50 230; ODeliverBackend 20 21 7 50 240].

Lemma channel_conserves_witness :
  exists c, run small_opts session (NewChannel small_opts [] false ∅) = Ret c /\
    acks small_opts session (NewChannel small_opts [] false ∅) ++ drops small_opts session (NewChannel small_opts [] false ∅) ++
      (payload <$> held c) ≡ₚ [payload_of msg_a; payload_of msg_b; payload_of msg_c] ++ [].
Proof.
  destruct (channel_conserves small_opts session [] false) as (c & H1 & H2 & _).
  - exact I.
  - repeat constructor.
  - change (NoDup [ID msg_a; ID msg_b; ID msg_c]). apply (bool_decide_unpack _). vm_compute. exact I.
  - exists c. split; [exact H1|exact H2].
Defined.

Example session_acks :
  acks small_opts session (NewChannel small_opts [] false ∅) = [payload_of msg_a] /\
  drops small_opts session (NewChannel small_opts [] false ∅) = [payload_of msg_c] /\
  match run small_opts session (NewChannel small_opts [] false ∅) with
  | Ret c => (memory c, backend c, payload <$> held c, timeoutCount c)
  | _ => ([], [], [], 0)
  end = ([], [], [payload_of msg_b], 1).
Proof. vm_compute. auto. Qed.

Definition in_flight : outcome unit (Channel (B := list (list Z)) (C := unit)) :=
  run (E := unit) small_opts [OPut msg_a; ODeliver 0 0 7 50 100] (NewChannel small_opts [] false ∅).

Lemma channel_scan_witness :
  exists c, in_flight = Ret c /\ exists c' dirty, processInFlightQueue small_opts 150 c = Ret (c', dirty) /\
    held c' ≡ₚ held c.
Proof.
  destruct (run_ok small_opts [OPut msg_a; ODeliver 0 0 7 50 100] (NewChannel small_opts [] false ∅)
    (NewChannel_ok small_opts [] false ∅)) as (c & E1 & Hc).
  exists c. split; [exact E1|]. destruct (channel_scan small_opts 150 c Hc) as (c' & d & l & E2 & H).
  - vm_compute in E1. injection E1 as <-. reflexivity.
  - exists c', d. split; [exact E2|]. apply H. exact I.
Defined.

Lemma channel_settle_witness :
  exists c c1 c2, in_flight = Ret c /\ FinishMessage (E := unit) 7 (ID msg_a) c = Ret (c1, None) /\
    TouchMessage (E := unit) small_opts 7 (ID msg_a) 5000 120 c = Ret (c2, None) /\
    ipri (store c2) 0 = 1100.
Proof.
  destruct (run_ok small_opts [OPut msg_a; ODeliver 0 0 7 50 100] (NewChannel small_opts [] false ∅)
    (NewChannel_ok small_opts [] false ∅)) as (c & E1 & Hc).
  assert (Hf : match in_flight return option ptr * option (Z * Z) with
               | Ret c => (inFlightMessages c !! ID msg_a, (fun m => (clientID m, deliveryTS m)) <$> store c !! (0 : ptr))
               | _ => (None, None)
               end = (Some (0 : ptr), Some (7, 100))) by (vm_compute; reflexivity).
  unfold in_flight in Hf. rewrite E1 in Hf.
  pose proof (f_equal fst Hf) as Hi. pose proof (f_equal snd Hf) as Hm. cbn [fst snd] in Hi, Hm.
  pose proof (channel_settle small_opts 7 (ID msg_a) 5000 120 c Hc) as H. rewrite Hi in H.
  destruct H as (m & Em & _ & H). rewrite Em in Hm.
  cbn [fmap option_fmap option_map] in Hm. injection Hm as Hcl Hd. rewrite Hcl, Hd in H.
  destruct H as [(c1 & F1 & _) (c2 & F2 & _ & _ & _ & F3)].
  exists c, c1, c2. split; [exact E1|]. split; [exact F1|]. split; [exact F2|exact F3].
Defined.
