(* ===== verification/NsqRegistry.v ===== *)
(** nsqlookupd/registration_db.go: which producers serve which topics and channels; with
    the name and number parsing of internal/protocol.

    Producers and peers are shared by pointer: the maps hold pointers into [producers],
    whose records point into [peers].  The order in which Go ranges over a map is not
    specified: it is a parameter, of which nothing is assumed but that it visits every
    entry once. *)

From Stdlib Require Import ZArith Lia Ascii.
From stdpp Require Import base numbers option list gmap strings.
From S2P Require Import Prelude.
#[local] Open Scope Z_scope.

(** ** Data *)

Record Registration := mkReg {
  Category : string;
  Key : string;
  SubKey : string
}.

#[export] Instance Registration_eq_dec : EqDecision Registration.
Proof. solve_decision. Defined.

#[export] Instance Registration_countable : Countable Registration.
Proof.
  apply (inj_countable' (fun r => (Category r, Key r, SubKey r)) (fun t => mkReg t.1.1 t.1.2 t.2)).
  by intros [].
Defined.

Definition ptr := Z.

Record PeerInfo := mkPeer {
  lastUpdate : Z;
  id : string;
  RemoteAddress : string;
  Hostname : string;
  BroadcastAddress : string;
  TCPPort : Z;
  HTTPPort : Z;
  Version : string
}.

Record Producer := mkProducer {
  peerInfo : ptr;
  tombstoned : bool;
  tombstonedAt : Z
}.

Abbreviation ProducerMap := (gmap string ptr).

Record RegistrationDB := mkDB {
  registrationMap : gmap Registration ProducerMap;
  producers : gmap ptr Producer;
  peers : gmap ptr PeerInfo
}.

(** The order of a [range] over a map. *)
Class RangeOrder := {
  range : forall {K A} `{Countable K}, gmap K A -> list (K * A);
  range_perm : forall {K A} `{Countable K} (m : gmap K A), range m ≡ₚ map_to_list m
}.

Lemma elem_of_range `{!RangeOrder} {K A} `{Countable K} (m : gmap K A) k x :
  (k, x) ∈ range m <-> m !! k = Some x.
Proof. by rewrite range_perm, elem_of_map_to_list. Qed.

Lemma NoDup_range `{!RangeOrder} {K A} `{Countable K} (m : gmap K A) : NoDup (range m).*1.
Proof. rewrite range_perm. apply NoDup_fst_map_to_list. Qed.

(** ** Operations *)

Section registry.
Context {HRO : RangeOrder}.

Definition set_map (m : gmap Registration ProducerMap) (db : RegistrationDB) : RegistrationDB :=
  mkDB m (producers db) (peers db).

(** Dereferences; a nil or dangling pointer panics. *)
Definition get_producer (p : ptr) (db : RegistrationDB) : outcome unit Producer :=
  match producers db !! p with Some x => Ret x | None => Panic end.

Definition get_peer (p : ptr) (db : RegistrationDB) : outcome unit PeerInfo :=
  match peers db !! p with Some x => Ret x | None => Panic end.

Definition producer_peer (p : ptr) (db : RegistrationDB) : outcome unit PeerInfo :=
  pr ← get_producer p db; get_peer (peerInfo pr) db.

(** Duration between two times, which saturates. *)
Definition Sub (a b : Z) : Z := Z.max (- 2 ^ 63) (Z.min (a - b) (2 ^ 63 - 1)).

Definition Tombstone (p : ptr) (now : Z) (db : RegistrationDB) : outcome unit RegistrationDB :=
  pr ← get_producer p db;
  Ret (mkDB (registrationMap db) (<[p := mkProducer (peerInfo pr) true now]> (producers db)) (peers db)).

Definition IsTombstoned (p : Producer) (lifetime now : Z) : bool :=
  tombstoned p && (Sub now (tombstonedAt p) <? lifetime).

Definition NewRegistrationDB : RegistrationDB := mkDB ∅ ∅ ∅.

Definition AddRegistration (k : Registration) (db : RegistrationDB) : RegistrationDB :=
  match registrationMap db !! k with
  | Some _ => db
  | None => set_map (<[k := ∅]> (registrationMap db)) db
  end.

Definition AddProducer (k : Registration) (p : ptr) (db : RegistrationDB) : outcome unit (RegistrationDB * bool) :=
  let db := AddRegistration k db in
  let ps := default ∅ (registrationMap db !! k) in
  pi ← producer_peer p db;
  match ps !! id pi with
  | Some _ => Ret (db, false)
  | None => Ret (set_map (<[k := <[id pi := p]> ps]> (registrationMap db)) db, true)
  end.

Definition RemoveProducer (k : Registration) (id : string) (db : RegistrationDB) : RegistrationDB * (bool * Z) :=
  match registrationMap db !! k with
  | None => (db, (false, 0))
  | Some ps =>
      let removed := bool_decide (is_Some (ps !! id)) in
      let ps := delete id ps in
      (set_map (<[k := ps]> (registrationMap db)) db, (removed, Z.of_nat (size ps)))
  end.

Definition RemoveRegistration (k : Registration) (db : RegistrationDB) : RegistrationDB :=
  set_map (delete k (registrationMap db)) db.

Definition needFilter (key subkey : string) : bool :=
  bool_decide (key = "*"%string) || bool_decide (subkey = "*"%string).

Definition IsMatch (k : Registration) (category key subkey : string) : bool :=
  if negb (bool_decide (category = Category k)) then false
  else if negb (bool_decide (key = "*"%string)) && negb (bool_decide (Key k = key)) then false
  else if negb (bool_decide (subkey = "*"%string)) && negb (bool_decide (SubKey k = subkey)) then false
  else true.

Fixpoint Filter (rr : list Registration) (category key subkey : string) : list Registration :=
  match rr with
  | [] => []
  | k :: rr => if IsMatch k category key subkey then k :: Filter rr category key subkey
               else Filter rr category key subkey
  end.

Definition Keys (rr : list Registration) : list string := Key <$> rr.

Definition SubKeys (rr : list Registration) : list string := SubKey <$> rr.

Definition FindRegistrations (category key subkey : string) (db : RegistrationDB) : list Registration :=
  if negb (needFilter key subkey) then
    let k := mkReg category key subkey in
    match registrationMap db !! k with Some _ => [k] | None => [] end
  else Filter (range (registrationMap db)).*1 category key subkey.

Definition ProducerMap2Slice (pm : ProducerMap) : list ptr := (range pm).*2.

(** The loops of FindProducers: ids seen and producers found so far. *)
Fixpoint find_inner (db : RegistrationDB) (ps : list (string * ptr)) (acc : gset string * list ptr)
    : outcome unit (gset string * list ptr) :=
  match ps with
  | [] => Ret acc
  | (_, p) :: ps =>
      pi ← producer_peer p db;
      let '(seen, found) := acc in
      if bool_decide (id pi ∈ seen) then find_inner db ps acc
      else find_inner db ps ({[id pi]} ∪ seen, found ++ [p])
  end.

Fixpoint find_outer (category key subkey : string) (db : RegistrationDB) (rs : list (Registration * ProducerMap))
    (acc : gset string * list ptr) : outcome unit (gset string * list ptr) :=
  match rs with
  | [] => Ret acc
  | (k, ps) :: rs =>
      if negb (IsMatch k category key subkey) then find_outer category key subkey db rs acc
      else acc ← find_inner db (range ps) acc; find_outer category key subkey db rs acc
  end.

Definition FindProducers (category key subkey : string) (db : RegistrationDB) : outcome unit (list ptr) :=
  if negb (needFilter key subkey) then
    Ret (ProducerMap2Slice (default ∅ (registrationMap db !! mkReg category key subkey)))
  else
    '(_, found) ← find_outer category key subkey db (range (registrationMap db)) (∅, []);
    Ret found.

Fixpoint lookup_loop (id : string) (rs : list (Registration * ProducerMap)) : list Registration :=
  match rs with
  | [] => []
  | (k, ps) :: rs => match ps !! id with Some _ => k :: lookup_loop id rs | None => lookup_loop id rs end
  end.

Definition LookupRegistrations (id : string) (db : RegistrationDB) : list Registration :=
  lookup_loop id (range (registrationMap db)).

(** Whether FilterByActive skips a producer. *)
Definition inactive (pr : Producer) (pi : PeerInfo) (inactivityTimeout tombstoneLifetime now : Z) : bool :=
  (inactivityTimeout <? Sub now (lastUpdate pi)) || IsTombstoned pr tombstoneLifetime now.

Fixpoint FilterByActive (pp : list ptr) (inactivityTimeout tombstoneLifetime now : Z) (db : RegistrationDB)
    : outcome unit (list ptr) :=
  match pp with
  | [] => Ret []
  | p :: pp =>
      pr ← get_producer p db;
      pi ← get_peer (peerInfo pr) db;
      rest ← FilterByActive pp inactivityTimeout tombstoneLifetime now db;
      Ret (if inactive pr pi inactivityTimeout tombstoneLifetime now then rest else p :: rest)
  end.

Fixpoint PeerInfos (pp : list ptr) (db : RegistrationDB) : outcome unit (list ptr) :=
  match pp with
  | [] => Ret []
  | p :: pp => pr ← get_producer p db; rest ← PeerInfos pp db; Ret (peerInfo pr :: rest)
  end.

(** ** What the database holds *)

Definition has_key (db : RegistrationDB) (k : Registration) : Prop := is_Some (registrationMap db !! k).

Definition registered (db : RegistrationDB) (k : Registration) (i : string) : Prop :=
  exists ps, registrationMap db !! k = Some ps /\ is_Some (ps !! i).

(** A pointer to a producer of the peer with the id. *)
Definition producer_of (db : RegistrationDB) (p : ptr) (i : string) : Prop :=
  exists pr pi, producers db !! p = Some pr /\ peers db !! peerInfo pr = Some pi /\ id pi = i.

(** Producers are filed under the id of their peer. *)
Definition db_ok (db : RegistrationDB) : Prop :=
  forall k ps i p, registrationMap db !! k = Some ps -> ps !! i = Some p -> producer_of db p i.

Lemma producer_peer_of db p i : producer_of db p i -> exists pi, producer_peer p db = Ret pi /\ id pi = i.
Proof.
  intros (pr & pi & Hp & Hi & <-). exists pi. unfold producer_peer, get_producer, get_peer.
  rewrite Hp. cbn [mbind outcome_bind]. by rewrite Hi.
Qed.

Lemma NewRegistrationDB_ok : db_ok NewRegistrationDB.
Proof. intros k ps i p Hk. cbn in Hk. by rewrite lookup_empty in Hk. Qed.

Lemma IsMatch_spec k category key subkey : IsMatch k category key subkey = true <->
  Category k = category /\ (key = "*"%string \/ Key k = key) /\ (subkey = "*"%string \/ SubKey k = subkey).
Proof.
  unfold IsMatch.
  repeat match goal with |- context [bool_decide ?P] => destruct (bool_decide_reflect P) end; cbn;
    split; try done; naive_solver.
Qed.

Lemma elem_of_Filter rr category key subkey k :
  k ∈ Filter rr category key subkey <-> k ∈ rr /\ IsMatch k category key subkey = true.
Proof.
  induction rr as [|r rr IH]; cbn [Filter]; [split; [intros Hk|intros [Hk _]]; by apply elem_of_nil in Hk|].
  destruct (IsMatch r category key subkey) eqn:Er; rewrite ?elem_of_cons, IH.
  - split; [intros [->|[? ?]]; auto|intros [[->|?] ?]; auto].
  - split; [intros [? ?]; auto|intros [[->|?] Hm]; [congruence|auto]].
Qed.

Lemma Filter_NoDup rr category key subkey : NoDup rr -> NoDup (Filter rr category key subkey).
Proof.
  induction 1 as [|r rr Hr _ IH]; cbn [Filter]; [constructor|]. destruct (IsMatch _ _ _ _); [|done].
  apply NoDup_cons. split; [|done]. rewrite elem_of_Filter. naive_solver.
Qed.

(** With neither part a wildcard, only the literal key matches. *)
Lemma IsMatch_exact k category key subkey : needFilter key subkey = false ->
  IsMatch k category key subkey = true <-> k = mkReg category key subkey.
Proof.
  intros Hn. apply orb_false_iff in Hn as [H1 H2]. apply bool_decide_eq_false in H1, H2.
  rewrite IsMatch_spec. destruct k as [a b c]. cbn. naive_solver.
Qed.

(** ** Updates *)

Lemma AddRegistration_spec k db : db_ok db ->
  let db' := AddRegistration k db in
  db_ok db' /\ producers db' = producers db /\ peers db' = peers db /\
  (forall k', has_key db' k' <-> k' = k \/ has_key db k') /\
  (forall k' i, registered db' k' i <-> registered db k' i).
Proof.
  intros Hok. unfold AddRegistration. destruct (registrationMap db !! k) as [ps|] eqn:Ek; cbn zeta.
  { split_and!; try done. intros k'. split; [auto|]. intros [->|]; [by exists ps|done]. }
  split_and!; try done.
  - intros k' ps i p Hk Hi. cbn in Hk. apply lookup_insert_Some in Hk as [[_ <-]|[_ Hk]].
    + by apply lookup_empty_Some in Hi.
    + exact (Hok k' ps i p Hk Hi).
  - intros k'. unfold has_key; cbn. destruct (decide (k' = k)) as [->|Hne].
    + rewrite lookup_insert_eq. split; [auto|eauto].
    + rewrite lookup_insert_ne by done. naive_solver.
  - intros k' i. unfold registered; cbn. split; intros (ps & Hk & Hi).
    + apply lookup_insert_Some in Hk as [[_ <-]|[_ Hk]]; [|eauto]. destruct Hi as [q Hq]. by apply lookup_empty_Some in Hq.
    + exists ps. split; [|done]. rewrite lookup_insert_ne; [done|]. intros ->. by rewrite Ek in Hk.
Qed.

Lemma producer_of_ext db db' p i : producers db' = producers db -> peers db' = peers db ->
  producer_of db p i -> producer_of db' p i.
Proof. unfold producer_of. by intros -> ->. Qed.

Lemma AddProducer_spec k p i db : db_ok db -> producer_of db p i ->
  exists db' new, AddProducer k p db = Ret (db', new) /\ db_ok db' /\
    producers db' = producers db /\ peers db' = peers db /\
    (new = true <-> ~ registered db k i) /\
    (forall k', has_key db' k' <-> k' = k \/ has_key db k') /\
    (forall k' i', registered db' k' i' <-> (k' = k /\ i' = i) \/ registered db k' i').
Proof.
  intros Hok Hp. unfold AddProducer.
  destruct (AddRegistration_spec k db Hok) as (Hok1 & Hpr & Hpe & Hk1 & Hr1).
  set (db1 := AddRegistration k db) in *.
  destruct (proj2 (Hk1 k) (or_introl eq_refl)) as [ps Eps]. rewrite Eps. change (default ∅ (Some ps)) with ps.
  destruct (producer_peer_of db1 p i (producer_of_ext db db1 p i Hpr Hpe Hp)) as (pi & Epi & Hid).
  rewrite Epi. cbn [mbind outcome_bind]. rewrite Hid.
  assert (Hreg : registered db k i <-> is_Some (ps !! i)).
  { rewrite <- Hr1. unfold registered. rewrite Eps. naive_solver. }
  destruct (ps !! i) as [q|] eqn:Ei.
  { exists db1, false. split_and!; try done.
    - split; [done|]. intros Hn. exfalso. apply Hn, Hreg. eauto.
    - intros k' i'. rewrite Hr1. split; [auto|]. intros [[-> ->]|]; [|done]. apply Hreg. eauto. }
  eexists _, true. split; [reflexivity|]. split_and!; try done.
  - intros k' ps' i' p' Hk Hi. cbn in Hk. apply lookup_insert_Some in Hk as [[_ <-]|[_ Hk]].
    + apply lookup_insert_Some in Hi as [[<- <-]|[_ Hi]].
      * by apply (producer_of_ext db).
      * apply (producer_of_ext db1); [done..|]. by apply (Hok1 k ps i' p').
    + by apply (Hok1 k' ps' i' p').
  - split; [|done]. intros _ Hx. apply Hreg in Hx. by destruct Hx.
  - intros k'. unfold has_key; cbn. destruct (decide (k' = k)) as [->|Hne].
    + rewrite lookup_insert_eq. split; [auto|eauto].
    + rewrite lookup_insert_ne by done. apply Hk1.
  - intros k' i'. rewrite <- Hr1. unfold registered; cbn. destruct (decide (k' = k)) as [->|Hne].
    + rewrite lookup_insert_eq, Eps. destruct (decide (i' = i)) as [->|Hni].
      * split; [auto|]. intros _. eexists. split; [done|]. rewrite lookup_insert_eq. eauto.
      * split; [intros (x & [= <-] & Hx)|intros [[_ ->]|(x & [= <-] & Hx)]]; [|done|].
        -- rewrite lookup_insert_ne in Hx by done. eauto.
        -- eexists. split; [done|]. by rewrite lookup_insert_ne.
    + rewrite lookup_insert_ne by done. naive_solver.
Qed.

Lemma RemoveProducer_spec k i db : db_ok db ->
  let '(db', (removed, remaining)) := RemoveProducer k i db in
  db_ok db' /\ producers db' = producers db /\ peers db' = peers db /\
  (removed = true <-> registered db k i) /\
  (remaining = 0 <-> forall i', ~ registered db' k i') /\
  (forall k', has_key db' k' <-> has_key db k') /\
  (forall k' i', registered db' k' i' <-> registered db k' i' /\ ~ (k' = k /\ i' = i)).
Proof.
  intros Hok. unfold RemoveProducer. destruct (registrationMap db !! k) as [ps|] eqn:Ek.
  2: { assert (Hn : forall i', ~ registered db k i') by (intros i' (ps & Hx & _); by rewrite Ek in Hx).
       split_and!; try done.
       - split; [done|]. intros Hr. by apply Hn in Hr.
       - intros k' i'. split; [|by intros [? _]]. intros Hr. split; [done|]. intros [-> ->]. by apply Hn in Hr. }
  assert (Hreg : forall k' i', registered (set_map (<[k:=delete i ps]> (registrationMap db)) db) k' i' <->
    registered db k' i' /\ ~ (k' = k /\ i' = i)).
  { intros k' i'. unfold registered; cbn. destruct (decide (k' = k)) as [->|Hne].
    - rewrite lookup_insert_eq, Ek. split.
      + intros (x & [= <-] & Hx). destruct Hx as [q Hq]. apply lookup_delete_Some in Hq as [Hni Hq].
        split; [eauto|]. intros [_ ->]. done.
      + intros [(x & [= <-] & [q Hq]) Hni]. eexists. split; [done|]. rewrite lookup_delete_ne; [eauto|].
        intros ->. by apply Hni.
    - rewrite lookup_insert_ne by done. naive_solver. }
  split_and!; try done.
  - intros k' ps' i' p Hk Hi. cbn in Hk. apply lookup_insert_Some in Hk as [[<- <-]|[_ Hk]].
    + apply lookup_delete_Some in Hi as [_ Hi]. by apply (Hok k ps i' p).
    + by apply (Hok k' ps' i' p).
  - rewrite bool_decide_eq_true. unfold registered. rewrite Ek. naive_solver.
  - split.
    + intros Hz i' (x & Hx & Hi). cbn in Hx. rewrite lookup_insert_eq in Hx. injection Hx as <-.
      assert (Hs : size (delete i ps) = 0%nat) by lia. apply map_size_empty_inv in Hs. rewrite Hs in Hi.
      destruct Hi as [q Hq]. by apply lookup_empty_Some in Hq.
    + intros Hn. destruct (decide (delete i ps = ∅)) as [->|Hne]; [by rewrite map_size_empty|].
      apply map_choose in Hne as (i' & x & Hx). exfalso. apply (Hn i'). exists (delete i ps). cbn.
      rewrite lookup_insert_eq. eauto.
  - intros k'. unfold has_key; cbn. destruct (decide (k' = k)) as [->|Hne].
    + rewrite lookup_insert_eq, Ek. split; eauto.
    + by rewrite lookup_insert_ne.
Qed.

Lemma RemoveRegistration_spec k db : db_ok db ->
  let db' := RemoveRegistration k db in
  db_ok db' /\ producers db' = producers db /\ peers db' = peers db /\
  (forall k', has_key db' k' <-> has_key db k' /\ k' <> k) /\
  (forall k' i, registered db' k' i <-> registered db k' i /\ k' <> k).
Proof.
  intros Hok. cbn zeta. unfold RemoveRegistration. split_and!; try done.
  - intros k' ps i p Hk. cbn in Hk. apply lookup_delete_Some in Hk as [_ Hk]. exact (Hok k' ps i p Hk).
  - intros k'. unfold has_key; cbn. destruct (decide (k' = k)) as [->|Hne].
    + rewrite lookup_delete_eq. split; [by intros [? ?]|by intros [_ []]].
    + rewrite lookup_delete_ne by done. split; [by split|by intros [? _]].
  - intros k' i. unfold registered; cbn. destruct (decide (k' = k)) as [->|Hne].
    + rewrite lookup_delete_eq. split; [by intros (? & ? & _)|by intros [_ []]].
    + rewrite lookup_delete_ne by done. split; [by split|by intros [? _]].
Qed.

(** ** Searches *)

Lemma elem_of_range_fst {A} (m : gmap Registration A) k : k ∈ (range m).*1 <-> is_Some (m !! k).
Proof.
  rewrite list_elem_of_fmap. split.
  - intros ([k' x] & -> & Hx). apply elem_of_range in Hx. eauto.
  - intros [x Hx]. exists (k, x). split; [done|]. by apply elem_of_range.
Qed.

Lemma FindRegistrations_spec category key subkey db :
  NoDup (FindRegistrations category key subkey db) /\
  forall k, k ∈ FindRegistrations category key subkey db <->
            has_key db k /\ IsMatch k category key subkey = true.
Proof.
  unfold FindRegistrations. destruct (needFilter key subkey) eqn:En; cbn [negb].
  - split; [apply Filter_NoDup, NoDup_range|]. intros k. by rewrite elem_of_Filter, elem_of_range_fst.
  - pose proof (fun k => IsMatch_exact k category key subkey En) as Hm.
    set (k0 := mkReg category key subkey) in *. destruct (registrationMap db !! k0) as [ps|] eqn:Ek.
    + split; [apply NoDup_singleton|]. intros k. rewrite list_elem_of_singleton, Hm. split; [|by intros [_ ?]].
      intros ->. split; [by exists ps|done].
    + split; [constructor|]. intros k. rewrite Hm. split; [intros Hk; by apply elem_of_nil in Hk|].
      intros [[ps Hps] ->]. by rewrite Ek in Hps.
Qed.

(** The producers found so far have distinct ids, those seen. *)
Definition found_ok (db : RegistrationDB) (acc : gset string * list ptr) : Prop :=
  exists ids, Forall2 (producer_of db) acc.2 ids /\ NoDup ids /\ forall i, i ∈ ids <-> i ∈ acc.1.

Lemma find_inner_spec db ps : forall acc, (forall i p, (i, p) ∈ ps -> producer_of db p i) -> found_ok db acc ->
  exists acc', find_inner db ps acc = Ret acc' /\ found_ok db acc' /\
    (forall i, i ∈ acc'.1 <-> i ∈ acc.1 \/ exists p, (i, p) ∈ ps) /\
    (forall p, p ∈ acc'.2 -> p ∈ acc.2 \/ exists i, (i, p) ∈ ps).
Proof.
  induction ps as [|[i p] ps IH]; intros [seen found] Hps Hok; cbn [find_inner fst snd] in *.
  { exists (seen, found). split_and!; try done; [|by left].
    intros i. split; [by left|intros [?|[p Hp]]; [done|by apply elem_of_nil in Hp]]. }
  destruct (producer_peer_of db p i (Hps i p ltac:(left))) as (pi & E1 & Hid). rewrite E1. cbn [mbind outcome_bind].
  assert (Hps' : forall i p, (i, p) ∈ ps -> producer_of db p i) by (intros; apply Hps; by right).
  assert (Hcons : forall j, (exists q, (j, q) ∈ (i, p) :: ps) <-> j = i \/ exists q, (j, q) ∈ ps).
  { intros j. split.
    - intros [q Hq]. apply elem_of_cons in Hq as [[= -> ->]|Hq]; eauto.
    - intros [->|[q Hq]]; [exists p; by left|exists q; by right]. }
  destruct (bool_decide_reflect (id pi ∈ seen)) as [Hin|Hin]; rewrite Hid in Hin.
  - destruct (IH (seen, found) Hps' Hok) as (acc' & E2 & H1 & H2 & H3). exists acc'. rewrite E2. split_and!; try done.
    + intros j. rewrite H2, Hcons. cbn [fst]. split; [tauto|]. intros [?|[->|?]]; auto.
    + intros q Hq. destruct (H3 q Hq) as [?|[j Hj]]; [by left|right; exists j; by right].
  - destruct (IH ({[id pi]} ∪ seen, found ++ [p]) Hps') as (acc' & E2 & H1 & H2 & H3).
    { destruct Hok as (ids & Hf & Hn & Hs). cbn [fst snd] in *. exists (ids ++ [i]). split_and!; cbn [fst snd].
      - apply Forall2_app; [done|]. constructor; [|constructor]. apply Hps. by left.
      - apply NoDup_app. split_and!; [done| |apply NoDup_singleton].
        intros j Hj Hj'. apply list_elem_of_singleton in Hj' as ->. by apply Hin, Hs.
      - intros j. rewrite elem_of_app, list_elem_of_singleton, Hs, Hid. set_solver. }
    exists acc'. rewrite E2. split_and!; try done.
    + intros j. rewrite H2, Hcons, Hid. cbn [fst]. set_solver.
    + intros q Hq. destruct (H3 q Hq) as [Hq'|[j Hj]]; [|right; exists j; by right]. cbn [snd] in Hq'.
      apply elem_of_app in Hq' as [?|Hq']; [by left|]. apply list_elem_of_singleton in Hq' as ->.
      right. exists i. by left.
Qed.

Definition in_matching (category key subkey : string) (rs : list (Registration * ProducerMap)) (i : string) (p : ptr) : Prop :=
  exists k ps, (k, ps) ∈ rs /\ IsMatch k category key subkey = true /\ ps !! i = Some p.

Lemma in_matching_cons category key subkey k ps rs i p : in_matching category key subkey ((k, ps) :: rs) i p <->
  (IsMatch k category key subkey = true /\ ps !! i = Some p) \/ in_matching category key subkey rs i p.
Proof.
  split.
  - intros (k' & ps' & Hin & Hm & Hi). apply elem_of_cons in Hin as [[= -> ->]|Hin]; [by left|].
    right. by exists k', ps'.
  - intros [[Hm Hi]|(k' & ps' & Hin & Hm & Hi)]; [exists k, ps; split; [by left|done]|].
    exists k', ps'. split; [by right|done].
Qed.

Lemma find_outer_spec category key subkey db rs : forall acc,
  (forall i p, in_matching category key subkey rs i p -> producer_of db p i) -> found_ok db acc ->
  exists acc', find_outer category key subkey db rs acc = Ret acc' /\ found_ok db acc' /\
    (forall i, i ∈ acc'.1 <-> i ∈ acc.1 \/ exists p, in_matching category key subkey rs i p) /\
    (forall p, p ∈ acc'.2 -> p ∈ acc.2 \/ exists i, in_matching category key subkey rs i p).
Proof.
  induction rs as [|[k ps] rs IH]; intros acc Hrs Hok; cbn [find_outer].
  { exists acc. split_and!; try done; [|by left].
    intros i. split; [by left|intros [?|(p & k & ps & Hp & _)]; [done|by apply elem_of_nil in Hp]]. }
  destruct (IsMatch k category key subkey) eqn:Em; cbn [negb].
  - destruct (find_inner_spec db (range ps) acc) as (acc1 & E1 & Hok1 & A1 & A2); [|done|].
    { intros i p Hip. apply Hrs, in_matching_cons. left. split; [done|]. by apply elem_of_range. }
    rewrite E1. cbn [mbind outcome_bind].
    destruct (IH acc1) as (acc' & E2 & Hok2 & B1 & B2); [|done|].
    { intros i p Hip. apply Hrs, in_matching_cons. by right. }
    exists acc'. split_and!; [done|done| |].
    + intros i. rewrite B1, A1. split.
      * intros [[?|[p Hp]]|[p Hp]]; [by left|right; exists p..]; apply in_matching_cons; [left|by right].
        split; [done|by apply elem_of_range].
      * intros [?|[p Hp]]; [by left; left|]. apply in_matching_cons in Hp as [[_ Hp]|Hp]; [|by right; exists p].
        left; right. exists p. by apply elem_of_range.
    + intros p Hp. destruct (B2 p Hp) as [Hp'|[i Hi]]; [|right; exists i; apply in_matching_cons; by right].
      destruct (A2 p Hp') as [?|[i Hi]]; [by left|]. right. exists i. apply in_matching_cons. left.
      split; [done|by apply elem_of_range].
  - destruct (IH acc) as (acc' & E2 & Hok2 & B1 & B2); [|done|].
    { intros i p Hip. apply Hrs, in_matching_cons. by right. }
    exists acc'. split_and!; [done|done| |].
    + intros i. rewrite B1. split; (intros [?|[p Hp]]; [by left|right; exists p]).
      * apply in_matching_cons. by right.
      * apply in_matching_cons in Hp as [[Hm _]|Hp]; [congruence|done].
    + intros p Hp. destruct (B2 p Hp) as [?|[i Hi]]; [by left|right; exists i; apply in_matching_cons; by right].
Qed.

(** What FindProducers promises: one producer for each id that is registered under a
    matching key. *)
Record found_spec (db : RegistrationDB) (category key subkey : string) (l : list ptr) (ids : list string) : Prop := {
  fs_ids : Forall2 (producer_of db) l ids;
  fs_nodup : NoDup ids;
  fs_all : forall i, i ∈ ids <-> exists k, IsMatch k category key subkey = true /\ registered db k i;
  fs_from : forall p, p ∈ l -> exists k ps i, IsMatch k category key subkey = true /\
              registrationMap db !! k = Some ps /\ ps !! i = Some p
}.

Lemma FindProducers_spec category key subkey db : db_ok db ->
  exists l ids, FindProducers category key subkey db = Ret l /\ found_spec db category key subkey l ids.
Proof.
  intros Hok. unfold FindProducers. destruct (needFilter key subkey) eqn:En; cbn [negb].
  - destruct (find_outer_spec category key subkey db (range (registrationMap db)) (∅, [])) as (acc & E1 & H1 & H2 & H3).
    { intros i p (k & ps & Hk & _ & Hi). apply elem_of_range in Hk. by apply (Hok k ps). }
    { exists []. cbn. split_and!; [constructor|constructor|]. intros i. set_solver. }
    rewrite E1. cbn [mbind outcome_bind]. destruct acc as [seen l]. cbn [fst snd] in *.
    destruct H1 as (ids & Hf & Hn & Hs). exists l, ids. split; [done|]. split; [done|done| |].
    + intros i. rewrite Hs, H2. split.
      * intros [Hi|(p & k & ps & Hk & Hm & Hi)]; [set_solver|]. apply elem_of_range in Hk. exists k. split; [done|].
        exists ps. eauto.
      * intros (k & Hm & ps & Hk & [p Hi]). right. exists p, k, ps. split; [by apply elem_of_range|done].
    + intros p Hp. destruct (H3 p Hp) as [Hi|(i & k & ps & Hk & Hm & Hi)]; [set_solver|].
      apply elem_of_range in Hk. by exists k, ps, i.
  - pose proof (fun k => IsMatch_exact k category key subkey En) as Hm. set (k0 := mkReg category key subkey) in *.
    assert (Hps : forall i p, default ∅ (registrationMap db !! k0) !! i = Some p ->
      exists ps, registrationMap db !! k0 = Some ps /\ ps !! i = Some p).
    { intros i p. destruct (registrationMap db !! k0) as [ps|]; [eauto|]. change (default ∅ None) with (∅ : gmap string ptr).
      intros Hi. by apply lookup_empty_Some in Hi. }
    exists (ProducerMap2Slice (default ∅ (registrationMap db !! k0))), (range (default ∅ (registrationMap db !! k0))).*1.
    split; [done|]. unfold ProducerMap2Slice. split.
    + apply Forall2_fmap_2, Forall_Forall2_diag, Forall_forall. intros [i p] Hip. apply elem_of_range in Hip.
      destruct (Hps i p Hip) as (ps & Hk & Hi). by apply (Hok k0 ps).
    + apply NoDup_range.
    + intros i. rewrite list_elem_of_fmap. split.
      * intros ([i' p] & -> & Hip). apply elem_of_range in Hip. destruct (Hps _ _ Hip) as (ps & Hk & Hi).
        exists k0. split; [by apply Hm|]. exists ps. eauto.
      * intros (k & Hk & ps & Ek & [p Hi]). apply Hm in Hk as ->. exists (i, p). split; [done|].
        apply elem_of_range. by rewrite Ek.
    + intros p Hp. apply list_elem_of_fmap in Hp as ([i p'] & -> & Hip). apply elem_of_range in Hip.
      destruct (Hps _ _ Hip) as (ps & Hk & Hi). exists k0, ps, i. split; [by apply Hm|done].
Qed.

Lemma LookupRegistrations_spec i db :
  NoDup (LookupRegistrations i db) /\ forall k, k ∈ LookupRegistrations i db <-> registered db k i.
Proof.
  unfold LookupRegistrations, registered. pose proof (NoDup_range (registrationMap db)) as Hn.
  assert (Hr : forall k ps, registrationMap db !! k = Some ps <-> (k, ps) ∈ range (registrationMap db))
    by (intros; by rewrite elem_of_range).
  setoid_rewrite Hr. clear Hr. revert Hn. generalize (range (registrationMap db)) as rs.
  induction rs as [|[k ps] rs IH]; intros Hn; cbn [lookup_loop fmap list_fmap fst] in *.
  { split; [constructor|]. intros k. split; [intros Hk; by apply elem_of_nil in Hk|].
    intros (ps & Hk & _). by apply elem_of_nil in Hk. }
  apply NoDup_cons in Hn as [Hk Hn]. destruct (IH Hn) as [IH1 IH2].
  assert (Hsub : forall k', k' ∈ lookup_loop i rs -> k' ∈ rs.*1).
  { intros k' Hk'. apply IH2 in Hk' as (ps' & Hps & _). apply list_elem_of_fmap. by exists (k', ps'). }
  assert (Hc : forall k', (exists ps0, (k', ps0) ∈ (k, ps) :: rs /\ is_Some (ps0 !! i)) <->
    (k' = k /\ is_Some (ps !! i)) \/ exists ps0, (k', ps0) ∈ rs /\ is_Some (ps0 !! i)).
  { intros k'. setoid_rewrite elem_of_cons. naive_solver. }
  destruct (ps !! i) as [p|] eqn:Ei.
  - split; [apply NoDup_cons; split; [by intros Hx; apply Hk, Hsub|done]|].
    intros k'. rewrite elem_of_cons, IH2, Hc. naive_solver.
  - split; [done|]. intros k'. rewrite IH2, Hc. split; [auto|]. intros [[_ []]|]; done.
Qed.

(** A producer FilterByActive keeps. *)
Definition active (db : RegistrationDB) (inactivityTimeout tombstoneLifetime now : Z) (p : ptr) : Prop :=
  exists pr pi, producers db !! p = Some pr /\ peers db !! peerInfo pr = Some pi /\
    inactive pr pi inactivityTimeout tombstoneLifetime now = false.

Lemma FilterByActive_spec pp it tl now db ids : Forall2 (producer_of db) pp ids ->
  exists l, FilterByActive pp it tl now db = Ret l /\ l `sublist_of` pp /\
    forall p, p ∈ l <-> p ∈ pp /\ active db it tl now p.
Proof.
  induction 1 as [|p i pp ids Hp _ IH]; cbn [FilterByActive].
  { exists []. split_and!; [done|done|]. intros p. split; [intros Hp; by apply elem_of_nil in Hp|by intros [? _]]. }
  destruct IH as (l & E1 & Hs & Hl). destruct Hp as (pr & pi & Hp & Hi & _). unfold get_producer, get_peer.
  rewrite Hp. cbn [mbind outcome_bind]. rewrite Hi. cbn [mbind outcome_bind]. rewrite E1. cbn [mbind outcome_bind].
  assert (Ha : active db it tl now p <-> inactive pr pi it tl now = false).
  { unfold active. rewrite Hp. split; [|eauto]. intros (? & ? & [= <-] & Hx & ?). rewrite Hi in Hx. by injection Hx as <-. }
  destruct (inactive pr pi it tl now); eexists; (split; [reflexivity|]).
  - split; [by apply sublist_cons|]. intros q. rewrite Hl, elem_of_cons. split; [tauto|].
    intros [[->|?] Hq]; [by apply Ha in Hq|done].
  - split; [by apply sublist_skip|]. intros q. rewrite !elem_of_cons, Hl. split; [|tauto].
    intros [->|?]; [split; [by left|by apply Ha]|tauto].
Qed.

Lemma PeerInfos_spec pp db ids : Forall2 (producer_of db) pp ids ->
  exists l, PeerInfos pp db = Ret l /\
    Forall2 (fun p x => exists pr, producers db !! p = Some pr /\ x = peerInfo pr) pp l /\
    Forall2 (fun x i => exists pi, peers db !! x = Some pi /\ id pi = i) l ids.
Proof.
  induction 1 as [|p i pp ids Hp _ IH]; cbn [PeerInfos].
  { exists []. split_and!; constructor. }
  destruct IH as (l & E1 & Hs & Hl). destruct Hp as (pr & pi & Hp & Hi & Hid). unfold get_producer.
  rewrite Hp. cbn [mbind outcome_bind]. rewrite E1. cbn [mbind outcome_bind]. exists (peerInfo pr :: l).
  split; [done|]. split; constructor; eauto.
Qed.

Lemma Forall2_sublist {A B} (R : A -> B -> Prop) l l' k : Forall2 R l k -> l' `sublist_of` l ->
  exists k', Forall2 R l' k' /\ k' `sublist_of` k.
Proof.
  intros H Hs. revert k H. induction Hs as [|x l1 l2 _ IH|x l1 l2 _ IH]; intros k Hk.
  - exists []. inversion Hk; subst. split; constructor.
  - inversion Hk as [|? y ? k' Hxy Hk']; subst. destruct (IH k' Hk') as (k2 & H2 & Hs2).
    exists (y :: k2). split; [by constructor|by apply sublist_skip].
  - inversion Hk as [|? y ? k' Hxy Hk']; subst. destruct (IH k' Hk') as (k2 & H2 & Hs2).
    exists k2. split; [done|by apply sublist_cons].
Qed.

End registry.

(** ** internal/protocol: names and numbers *)

(** The class [\.a-zA-Z0-9_-] of the name pattern. *)
Definition name_char (c : ascii) : bool :=
  let n := Z.of_nat (nat_of_ascii c) in
  (n =? 46) || ((97 <=? n) && (n <=? 122)) || ((65 <=? n) && (n <=? 90)) || ((48 <=? n) && (n <=? 57)) ||
  (n =? 95) || (n =? 45).

Definition ephemeral_suffix : string := "#ephemeral".

(** ^[\.a-zA-Z0-9_-]+(#ephemeral)?$ *)
Fixpoint match_tail (s : string) : bool :=
  match s with
  | EmptyString => true
  | String c s' => if name_char c then match_tail s' else bool_decide (s = ephemeral_suffix)
  end.

Definition MatchString (s : string) : bool :=
  match s with
  | EmptyString => false
  | String c s => name_char c && match_tail s
  end.

Definition isValidName (name : string) : bool :=
  if (64 <? Z.of_nat (String.length name)) || (Z.of_nat (String.length name) <? 1) then false
  else MatchString name.

Definition IsValidTopicName (name : string) : bool := isValidName name.

Definition IsValidChannelName (name : string) : bool := isValidName name.

(** strings.HasSuffix *)
Definition HasSuffix (s suffix : string) : bool :=
  (String.length suffix <=? String.length s)%nat &&
  bool_decide (String.substring (String.length s - String.length suffix) (String.length suffix) s = suffix).

Inductive base10_error := errBase10.

Fixpoint base10_loop (n : Z) (b : list Z) : outcome base10_error Z :=
  match b with
  | [] => Ret n
  | d :: b =>
      if (48 <=? d) && (d <=? 57) then base10_loop (u64 (u64 (n * 10) + u8 (d - 48))) b
      else Fail errBase10
  end.

Definition ByteToBase10 (b : list Z) : outcome base10_error Z := base10_loop 0 b.

(** The number a list of digits stands for. *)
Definition decimal (b : list Z) : Z := fold_left (fun n d => n * 10 + (d - 48)) b 0.

Definition is_digit (d : Z) : Prop := 48 <= d <= 57.

#[export] Instance is_digit_dec d : Decision (is_digit d).
Proof. unfold is_digit. apply _. Defined.

Lemma u64_step n m d : n = u64 m -> u64 (u64 (n * 10) + d) = u64 (m * 10 + d).
Proof.
  intros ->. unfold wrap. rewrite Zplus_mod_idemp_l, <- (Zplus_mod_idemp_l (m * 10)), <- (Zmult_mod_idemp_l m).
  by rewrite Zplus_mod_idemp_l.
Qed.

Lemma base10_loop_digits b : forall n m, n = u64 m -> Forall is_digit b ->
  base10_loop n b = Ret (u64 (fold_left (fun n d => n * 10 + (d - 48)) b m)).
Proof.
  induction b as [|d b IH]; intros n m Hn Hb; cbn [base10_loop fold_left]; [by rewrite Hn|].
  apply Forall_cons in Hb as [Hd Hb]. unfold is_digit in Hd.
  replace ((48 <=? d) && (d <=? 57)) with true by (symmetry; apply andb_true_iff; split; apply Z.leb_le; lia).
  replace (u8 (d - 48)) with (d - 48) by (unfold wrap; rewrite Z.mod_small; lia).
  apply IH; [|done]. by apply u64_step.
Qed.

Lemma base10_loop_error b : forall n, ~ Forall is_digit b -> base10_loop n b = Fail errBase10.
Proof.
  induction b as [|d b IH]; intros n Hb; cbn [base10_loop]; [by destruct Hb|].
  destruct ((48 <=? d) && (d <=? 57)) eqn:Ed; [|done]. apply IH. intros Hall. apply Hb. constructor; [|done].
  apply andb_true_iff in Ed as [H1 H2]. apply Z.leb_le in H1, H2. by split.
Qed.

(** The characters of a string satisfy a predicate. *)
Fixpoint all_chars (f : ascii -> bool) (s : string) : bool :=
  match s with EmptyString => true | String c s => f c && all_chars f s end.

Lemma match_tail_spec s : match_tail s = true <->
  exists base, all_chars name_char base = true /\ (s = base \/ s = (base +:+ ephemeral_suffix)).
Proof.
  induction s as [|c s IH]; cbn [match_tail].
  { split; [intros _; exists EmptyString; auto|done]. }
  destruct (name_char c) eqn:Ec.
  - rewrite IH. split.
    + intros (base & Hb & Hs). exists (String c base). cbn [all_chars]. rewrite Ec. split; [done|].
      destruct Hs as [->| ->]; [by left|by right].
    + intros (base & Hb & Hs). destruct base as [|c' base].
      * destruct Hs as [?|Hs]; [done|]. cbn in Hs. injection Hs as -> _. done.
      * cbn [all_chars] in Hb. apply andb_true_iff in Hb as [_ Hb]. exists base. split; [done|].
        destruct Hs as [Hs|Hs]; cbn in Hs; injection Hs as -> ->; auto.
  - rewrite bool_decide_eq_true. split.
    + intros ->. exists EmptyString. auto.
    + intros (base & Hb & Hs). destruct base as [|c' base].
      * by destruct Hs.
      * cbn [all_chars] in Hb. apply andb_true_iff in Hb as [Hb _].
        destruct Hs as [Hs|Hs]; cbn in Hs; injection Hs as -> _; by rewrite Hb in Ec.
Qed.

(** ** Properties *)

(** The registry's searches agree with the plain definition over the whole map, in
    whatever order Go ranges over maps.  FindRegistrations, whose fast path without
    wildcards looks up one key, returns each key that matches exactly once;
    FindProducers returns without fault one producer, filed under a matching key, for
    each id registered under one; LookupRegistrations returns exactly the keys under
    which the id is registered. *)
Theorem registry_searches `{!RangeOrder} (category key subkey i : string) (db : RegistrationDB) :
  db_ok db ->
  FindRegistrations category key subkey db ≡ₚ Filter (range (registrationMap db)).*1 category key subkey /\
  (exists l ids, FindProducers category key subkey db = Ret l /\ found_spec db category key subkey l ids) /\
  NoDup (LookupRegistrations i db) /\
  (forall k, k ∈ LookupRegistrations i db <-> registered db k i).
Proof.
  intros Hok. split; [|split; [by apply FindProducers_spec|apply LookupRegistrations_spec]].
  destruct (FindRegistrations_spec category key subkey db) as [Hn Hf].
  apply NoDup_Permutation; [done|apply Filter_NoDup, NoDup_range|].
  intros k. by rewrite Hf, elem_of_Filter, elem_of_range_fst.
Qed.

#[export] Instance list_order : RangeOrder :=
  {| range := fun K A _ _ m => map_to_list m; range_perm := fun K A _ _ m => Permutation_refl _ |}.

Definition one_peer : PeerInfo := mkPeer 0 "1.2.3.4:5" "1.2.3.4:5" "h" "b" 4150 4151 "1.0".

Definition one_db : RegistrationDB :=
  mkDB {[mkReg "topic" "t" "" := {["1.2.3.4:5"%string := 1]}]} {[1 := mkProducer 7 false 0]} {[7 := one_peer]}.

Lemma one_db_ok : db_ok one_db.
Proof.
  intros k ps i p Hk Hi. cbn in Hk. apply lookup_singleton_Some in Hk as [_ <-].
  apply lookup_singleton_Some in Hi as [<- <-]. exists (mkProducer 7 false 0), one_peer. by vm_compute.
Qed.

Lemma registry_searches_witness :
  FindProducers "topic" "*" "" one_db = Ret [1] /\
  forall k, k ∈ LookupRegistrations "1.2.3.4:5" one_db <-> registered one_db k "1.2.3.4:5".
Proof.
  split; [vm_compute; reflexivity|]. apply (registry_searches "topic" "*" "" "1.2.3.4:5" one_db one_db_ok).
Defined.

(** ByteToBase10 reads exactly the decimal numbers: any other byte is refused, an
    empty input is 0, and the value is taken modulo 2^64, so that it is the number
    written only below 2^64. *)
Theorem base10_value (b : list Z) :
  (Forall is_digit b -> ByteToBase10 b = Ret (u64 (decimal b))) /\
  (~ Forall is_digit b -> ByteToBase10 b = Fail errBase10) /\
  (forall n, ByteToBase10 b = Ret n -> 0 <= n < 2 ^ 64 /\ Forall is_digit b).
Proof.
  split_and!; [by apply base10_loop_digits|by apply base10_loop_error|].
  intros n Hn. destruct (decide (Forall is_digit b)) as [Hb|Hb].
  - unfold ByteToBase10 in Hn. rewrite (base10_loop_digits b 0 0 eq_refl Hb) in Hn. injection Hn as <-.
    split; [|done]. apply Z.mod_pos_bound. lia.
  - unfold ByteToBase10 in Hn. by rewrite (base10_loop_error b 0 Hb) in Hn.
Qed.

(** "18446744073709551617" is read as 1. *)
Definition past_u64 : list Z := [49; 56; 52; 52; 54; 55; 52; 52; 48; 55; 51; 55; 48; 57; 53; 53; 49; 54; 49; 55].

Lemma base10_value_witness :
  Forall is_digit past_u64 /\ ByteToBase10 past_u64 = Ret (u64 (decimal past_u64)) /\ u64 (decimal past_u64) = 1.
Proof.
  assert (Hd : Forall is_digit past_u64) by (repeat constructor; discriminate).
  split; [exact Hd|]. split; [|vm_compute; reflexivity]. exact (proj1 (base10_value past_u64) Hd).
Defined.

(** A topic or channel name is accepted exactly when it has 1 to 64 bytes and is a
    nonempty run of letters, digits, dots, underscores and dashes, optionally followed by
    #ephemeral. *)
Theorem valid_names (name : string) :
  IsValidTopicName name = true <->
  (1 <= String.length name <= 64)%nat /\
  exists base, all_chars name_char base = true /\ base <> EmptyString /\
    (name = base \/ name = (base +:+ ephemeral_suffix)).
Proof.
  unfold IsValidTopicName, isValidName.
  destruct (_ || _) eqn:El.
  { split; [done|]. intros [Hl _]. apply orb_true_iff in El as [El|El]; apply Z.ltb_lt in El; lia. }
  apply orb_false_iff in El as [H1 H2]. apply Z.ltb_ge in H1, H2.
  unfold MatchString. destruct name as [|c s]; [cbn in H2; lia|]. rewrite andb_true_iff, match_tail_spec. split.
  - intros [Hc (base & Hb & Hs)]. split; [lia|]. exists (String c base). cbn [all_chars]. rewrite Hc. split_and!; [done|done|].
    destruct Hs as [->| ->]; [by left|by right].
  - intros [_ (base & Hb & Hne & Hs)]. destruct base as [|c' base]; [done|]. cbn [all_chars] in Hb.
    apply andb_true_iff in Hb as [Hc Hb]. destruct Hs as [Hs|Hs]; cbn in Hs; injection Hs as -> ->; eauto.
Qed.

Example names_accepted : map IsValidTopicName ["topic"; "a.b-c_9#ephemeral"; "#ephemeral"; ""; "a#b"; "*"]%string
  = [true; true; false; false; false; false].
Proof. reflexivity. Qed.
