(* ===== verification/NsqLookupd.v ===== *)
(** nsqlookupd: the TCP commands (lookup_protocol_v1.go) and the HTTP handlers (http.go)
    over the registration database, with the argument parsing of internal/http_api.

    Each call of a database method is atomic, as its lock makes it; a handler is the
    sequence of its calls.  A request comes as the query's key-to-values map ([None] if it
    does not parse), a TCP command as its split line.  Logging is not modelled. *)

From Stdlib Require Import ZArith Lia.
From stdpp Require Import base numbers option list gmap strings pretty.
From S2P Require Import Prelude NsqRegistry.
#[local] Open Scope Z_scope.

(** ** Data *)

(** client_v1.go: the connection's address and what the client identified as. *)
Record ClientV1 := mkClient {
  RemoteAddr : string;
  c_peerInfo : option ptr
}.

Inductive client_error := E_INVALID | E_BAD_TOPIC | E_BAD_CHANNEL | E_BAD_BODY.

Inductive response := OK | Identity.

(** The exported fields json.Unmarshal found in a body. *)
Record PeerFields := mkFields {
  f_RemoteAddress : option string;
  f_Hostname : option string;
  f_BroadcastAddress : option string;
  f_TCPPort : option Z;
  f_HTTPPort : option Z;
  f_Version : option string
}.

(** A handler's result: the database and the client afterwards, and the reply. *)
Definition reply : Type := RegistrationDB * ClientV1 * (response + client_error).

Definition http_error : Type := Z * string.

Section lookupd.
Context {HRO : RangeOrder} (unmarshal : list Z -> option PeerFields).

(** ** TCP commands *)

Definition getTopicChan (params : list string) : (string * string) + client_error :=
  match params with
  | [] => inr E_INVALID
  | topicName :: rest =>
      let channelName := match rest with c :: _ => c | [] => EmptyString end in
      if negb (IsValidTopicName topicName) then inr E_BAD_TOPIC
      else if negb (bool_decide (channelName = EmptyString)) && negb (IsValidChannelName channelName)
      then inr E_BAD_CHANNEL
      else inl (topicName, channelName)
  end.

(** &Producer{peerInfo: client.peerInfo} *)
Definition new_producer (peer : ptr) (db : RegistrationDB) : ptr * RegistrationDB :=
  let p := fresh (dom (producers db)) in
  (p, mkDB (registrationMap db) (<[p := mkProducer peer false 0]> (producers db)) (peers db)).

Definition add_new (k : Registration) (peer : ptr) (db : RegistrationDB) : outcome unit RegistrationDB :=
  let '(p, db) := new_producer peer db in
  '(db, _) ← AddProducer k p db; Ret db.

Definition topic_key (topic : string) : Registration := mkReg "topic" topic "".
Definition channel_key (topic channel : string) : Registration := mkReg "channel" topic channel.
Definition client_key : Registration := mkReg "client" "" "".

Definition REGISTER (client : ClientV1) (params : list string) (db : RegistrationDB) : outcome unit reply :=
  match c_peerInfo client with
  | None => Ret (db, client, inr E_INVALID)
  | Some peer =>
      match getTopicChan params with
      | inr e => Ret (db, client, inr e)
      | inl (topic, channel) =>
          db ← (if bool_decide (channel = EmptyString) then Ret db else add_new (channel_key topic channel) peer db);
          db ← add_new (topic_key topic) peer db;
          Ret (db, client, inl OK)
      end
  end.

(** Remove a producer, and an ephemeral registration that has no producers left. *)
Definition remove_ephemeral (k : Registration) (name : string) (id : string) (db : RegistrationDB) : RegistrationDB :=
  let '(db, (_, remaining)) := RemoveProducer k id db in
  if (remaining =? 0) && HasSuffix name ephemeral_suffix then RemoveRegistration k db else db.

Definition remove_all (rs : list Registration) (id : string) (db : RegistrationDB) : RegistrationDB :=
  fold_left (fun db r => (RemoveProducer r id db).1) rs db.

Definition UNREGISTER (client : ClientV1) (params : list string) (db : RegistrationDB) : outcome unit reply :=
  match c_peerInfo client with
  | None => Ret (db, client, inr E_INVALID)
  | Some peer =>
      match getTopicChan params with
      | inr e => Ret (db, client, inr e)
      | inl (topic, channel) =>
          pi ← get_peer peer db;
          if bool_decide (channel = EmptyString) then
            let db := remove_all (FindRegistrations "channel" topic "*" db) (id pi) db in
            Ret (remove_ephemeral (topic_key topic) topic (id pi) db, client, inl OK)
          else Ret (remove_ephemeral (channel_key topic channel) channel (id pi) db, client, inl OK)
      end
  end.

(** json.Unmarshal into the peer: the fields present are set, the others stay. *)
Definition set_fields (f : PeerFields) (p : PeerInfo) : PeerInfo :=
  mkPeer (lastUpdate p) (id p) (default (RemoteAddress p) (f_RemoteAddress f)) (default (Hostname p) (f_Hostname f))
    (default (BroadcastAddress p) (f_BroadcastAddress f)) (default (TCPPort p) (f_TCPPort f))
    (default (HTTPPort p) (f_HTTPPort f)) (default (Version p) (f_Version f)).

Definition missing_fields (p : PeerInfo) : bool :=
  bool_decide (BroadcastAddress p = EmptyString) || (TCPPort p =? 0) || (HTTPPort p =? 0) ||
  bool_decide (Version p = EmptyString).

(** IDENTIFY; [reader] is what the connection still has to read.  A negative size makes
    make panic. *)
Definition IDENTIFY (client : ClientV1) (reader : list Z) (now : Z) (db : RegistrationDB) : outcome unit reply :=
  match c_peerInfo client with
  | Some _ => Ret (db, client, inr E_INVALID)
  | None =>
      if (length reader <? 4)%nat then Ret (db, client, inr E_BAD_BODY)
      else
        let bodyLen := swrap 32 (be_get (take 4 reader)) in
        if bodyLen <? 0 then Panic
        else if (length (drop 4 reader) <? Z.to_nat bodyLen)%nat then Ret (db, client, inr E_BAD_BODY)
        else
          match unmarshal (take (Z.to_nat bodyLen) (drop 4 reader)) with
          | None => Ret (db, client, inr E_BAD_BODY)
          | Some f =>
              let pi := set_fields f (mkPeer 0 (RemoteAddr client) "" "" "" 0 0 "") in
              if missing_fields pi then Ret (db, client, inr E_BAD_BODY)
              else
                let pi := mkPeer now (id pi) (RemoteAddr client) (Hostname pi) (BroadcastAddress pi) (TCPPort pi)
                            (HTTPPort pi) (Version pi) in
                let peer := fresh (dom (peers db)) in
                let client := mkClient (RemoteAddr client) (Some peer) in
                db ← add_new client_key peer (mkDB (registrationMap db) (producers db) (<[peer := pi]> (peers db)));
                Ret (db, client, inl Identity)
          end
  end.

Definition set_lastUpdate (now : Z) (p : PeerInfo) : PeerInfo :=
  mkPeer now (id p) (RemoteAddress p) (Hostname p) (BroadcastAddress p) (TCPPort p) (HTTPPort p) (Version p).

Definition PING (client : ClientV1) (now : Z) (db : RegistrationDB) : outcome unit reply :=
  match c_peerInfo client with
  | None => Ret (db, client, inl OK)
  | Some peer =>
      pi ← get_peer peer db;
      Ret (mkDB (registrationMap db) (producers db) (<[peer := set_lastUpdate now pi]> (peers db)), client, inl OK)
  end.

(** Exec; strings.Split never returns an empty list, indexing one would panic. *)
Definition Exec (client : ClientV1) (reader : list Z) (now : Z) (params : list string) (db : RegistrationDB)
    : outcome unit reply :=
  match params with
  | [] => Panic
  | cmd :: params =>
      if bool_decide (cmd = "PING"%string) then PING client now db
      else if bool_decide (cmd = "IDENTIFY"%string) then IDENTIFY client reader now db
      else if bool_decide (cmd = "REGISTER"%string) then REGISTER client params db
      else if bool_decide (cmd = "UNREGISTER"%string) then UNREGISTER client params db
      else Ret (db, client, inr E_INVALID)
  end.

(** The end of IOLoop, when the connection closes. *)
Definition disconnect (client : ClientV1) (db : RegistrationDB) : outcome unit RegistrationDB :=
  match c_peerInfo client with
  | None => Ret db
  | Some peer =>
      pi ← get_peer peer db;
      Ret (remove_all (LookupRegistrations (id pi) db) (id pi) db)
  end.

(** ** HTTP handlers *)

Definition request : Type := option (gmap string (list string)).

(** ReqParams.Get *)
Definition Get (key : string) (values : gmap string (list string)) : outcome unit (option string) :=
  match values !! key with
  | None => Ret None
  | Some [] => Panic
  | Some (v :: _) => Ret (Some v)
  end.

Definition MISSING_ARG_TOPIC : http_error := (400, "MISSING_ARG_TOPIC"%string).

(** NewReqParams and the topic argument, as most handlers start. *)
Definition topic_arg (req : request) : outcome unit (string + http_error) :=
  match req with
  | None => Ret (inr (400, "INVALID_REQUEST"%string))
  | Some values =>
      t ← Get "topic" values;
      match t with Some t => Ret (inl t) | None => Ret (inr MISSING_ARG_TOPIC) end
  end.

Definition GetTopicChannelArgs (values : gmap string (list string)) : outcome unit ((string * string) + string) :=
  t ← Get "topic" values;
  match t with
  | None => Ret (inr "MISSING_ARG_TOPIC"%string)
  | Some topicName =>
      if negb (IsValidTopicName topicName) then Ret (inr "INVALID_ARG_TOPIC"%string)
      else
        c ← Get "channel" values;
        match c with
        | None => Ret (inr "MISSING_ARG_CHANNEL"%string)
        | Some channelName =>
            if negb (IsValidChannelName channelName) then Ret (inr "INVALID_ARG_CHANNEL"%string)
            else Ret (inl (topicName, channelName))
        end
  end.

Definition topic_channel_args (req : request) : outcome unit ((string * string) + http_error) :=
  match req with
  | None => Ret (inr (400, "INVALID_REQUEST"%string))
  | Some values =>
      r ← GetTopicChannelArgs values;
      match r with inl tc => Ret (inl tc) | inr e => Ret (inr (400, e)) end
  end.

Definition doTopics (db : RegistrationDB) : list string := Keys (FindRegistrations "topic" "*" "" db).

Definition doChannels (req : request) (db : RegistrationDB) : outcome unit (list string + http_error) :=
  t ← topic_arg req;
  match t with
  | inr e => Ret (inr e)
  | inl topicName => Ret (inl (SubKeys (FindRegistrations "channel" topicName "*" db)))
  end.

(** The options of the daemon. *)
Record Options := mkOptions { InactiveProducerTimeout : Z; TombstoneLifetime : Z }.

Definition doLookup (opts : Options) (req : request) (now : Z) (db : RegistrationDB)
    : outcome unit ((list string * list ptr) + http_error) :=
  t ← topic_arg req;
  match t with
  | inr e => Ret (inr e)
  | inl topicName =>
      match FindRegistrations "topic" topicName "" db with
      | [] => Ret (inr (404, "TOPIC_NOT_FOUND"%string))
      | _ =>
          let channels := SubKeys (FindRegistrations "channel" topicName "*" db) in
          pp ← FindProducers "topic" topicName "" db;
          pp ← FilterByActive pp (InactiveProducerTimeout opts) (TombstoneLifetime opts) now db;
          infos ← PeerInfos pp db;
          Ret (inl (channels, infos))
      end
  end.

Definition doCreateTopic (req : request) (db : RegistrationDB) : outcome unit (RegistrationDB * option http_error) :=
  t ← topic_arg req;
  match t with
  | inr e => Ret (db, Some e)
  | inl topicName =>
      if negb (IsValidTopicName topicName) then Ret (db, Some (400, "INVALID_ARG_TOPIC"%string))
      else Ret (AddRegistration (topic_key topicName) db, None)
  end.

Definition remove_registrations (rs : list Registration) (db : RegistrationDB) : RegistrationDB :=
  fold_left (fun db r => RemoveRegistration r db) rs db.

Definition doDeleteTopic (req : request) (db : RegistrationDB) : outcome unit (RegistrationDB * option http_error) :=
  t ← topic_arg req;
  match t with
  | inr e => Ret (db, Some e)
  | inl topicName =>
      let db := remove_registrations (FindRegistrations "channel" topicName "*" db) db in
      let db := remove_registrations (FindRegistrations "topic" topicName "" db) db in
      Ret (db, None)
  end.

(** The loop of doTombstoneTopicProducer. *)
Fixpoint tombstone_loop (node : string) (now : Z) (pp : list ptr) (db : RegistrationDB) : outcome unit RegistrationDB :=
  match pp with
  | [] => Ret db
  | p :: pp =>
      pi ← producer_peer p db;
      let thisNode := (BroadcastAddress pi +:+ ":" +:+ pretty (HTTPPort pi))%string in
      db ← (if bool_decide (thisNode = node) then Tombstone p now db else Ret db);
      tombstone_loop node now pp db
  end.

Definition doTombstoneTopicProducer (req : request) (now : Z) (db : RegistrationDB)
    : outcome unit (RegistrationDB * option http_error) :=
  match req with
  | None => Ret (db, Some (400, "INVALID_REQUEST"%string))
  | Some values =>
      t ← Get "topic" values;
      match t with
      | None => Ret (db, Some MISSING_ARG_TOPIC)
      | Some topicName =>
          n ← Get "node" values;
          match n with
          | None => Ret (db, Some (400, "MISSING_ARG_NODE"%string))
          | Some node =>
              pp ← FindProducers "topic" topicName "" db;
              db ← tombstone_loop node now pp db;
              Ret (db, None)
          end
      end
  end.

Definition doCreateChannel (req : request) (db : RegistrationDB) : outcome unit (RegistrationDB * option http_error) :=
  a ← topic_channel_args req;
  match a with
  | inr e => Ret (db, Some e)
  | inl (topicName, channelName) =>
      let db := AddRegistration (channel_key topicName channelName) db in
      Ret (AddRegistration (topic_key topicName) db, None)
  end.

Definition doDeleteChannel (req : request) (db : RegistrationDB) : outcome unit (RegistrationDB * option http_error) :=
  a ← topic_channel_args req;
  match a with
  | inr e => Ret (db, Some e)
  | inl (topicName, channelName) =>
      match FindRegistrations "channel" topicName channelName db with
      | [] => Ret (db, Some (404, "CHANNEL_NOT_FOUND"%string))
      | rs => Ret (remove_registrations rs db, None)
      end
  end.

(** The producer of a peer among those of a topic, and whether it is tombstoned. *)
Fixpoint peer_tombstone (peer : ptr) (lifetime now : Z) (tps : list ptr) (db : RegistrationDB) : outcome unit bool :=
  match tps with
  | [] => Ret false
  | tp :: tps =>
      pr ← get_producer tp db;
      if peerInfo pr =? peer then Ret (IsTombstoned pr lifetime now) else peer_tombstone peer lifetime now tps db
  end.

(** The inner loop of doNodes, with its cache of the topics' producers. *)
Fixpoint tombstones_loop (peer : ptr) (lifetime now : Z) (topics : list string) (cache : gmap string (list ptr))
    (db : RegistrationDB) : outcome unit (list bool * gmap string (list ptr)) :=
  match topics with
  | [] => Ret ([], cache)
  | t :: topics =>
      cache ← match cache !! t with
              | Some _ => Ret cache
              | None => tps ← FindProducers "topic" t "" db; Ret (<[t := tps]> cache)
              end;
      b ← peer_tombstone peer lifetime now (default [] (cache !! t)) db;
      '(bs, cache) ← tombstones_loop peer lifetime now topics cache db;
      Ret (b :: bs, cache)
  end.

Record node := mkNode { n_peer : PeerInfo; Tombstones : list bool; Topics : list string }.

Fixpoint nodes_loop (lifetime now : Z) (pp : list ptr) (cache : gmap string (list ptr)) (db : RegistrationDB)
    : outcome unit (list node) :=
  match pp with
  | [] => Ret []
  | p :: pp =>
      pr ← get_producer p db;
      pi ← get_peer (peerInfo pr) db;
      let topics := Keys (Filter (LookupRegistrations (id pi) db) "topic" "*" "") in
      '(bs, cache) ← tombstones_loop (peerInfo pr) lifetime now topics cache db;
      rest ← nodes_loop lifetime now pp cache db;
      Ret (mkNode pi bs topics :: rest)
  end.

Definition doNodes (opts : Options) (now : Z) (db : RegistrationDB) : outcome unit (list node) :=
  pp ← FindProducers "client" "" "" db;
  pp ← FilterByActive pp (InactiveProducerTimeout opts) 0 now db;
  nodes_loop (TombstoneLifetime opts) now pp ∅ db.

(** ** Effects of the building blocks *)

Definition peer_is (db : RegistrationDB) (x : ptr) (i : string) : Prop :=
  exists pi, peers db !! x = Some pi /\ id pi = i.

Lemma new_producer_ok x i db : db_ok db -> peer_is db x i ->
  let '(p, db') := new_producer x db in
  db_ok db' /\ producer_of db' p i /\ registrationMap db' = registrationMap db /\ peers db' = peers db.
Proof.
  intros Hok (pi & Hpi & Hi). unfold new_producer. set (p := fresh (dom (producers db))).
  assert (Hp : producers db !! p = None) by (apply not_elem_of_dom, is_fresh).
  split_and!; try done.
  - intros k ps j q Hk Hj. destruct (Hok k ps j q Hk Hj) as (pr & pi' & H1 & H2 & H3).
    exists pr, pi'. cbn. split_and!; try done. rewrite lookup_insert_ne; [done|]. intros <-. by rewrite Hp in H1.
  - exists (mkProducer x false 0), pi. cbn. by rewrite lookup_insert_eq.
Qed.

Lemma add_new_spec k x i db : db_ok db -> peer_is db x i ->
  exists db', add_new k x db = Ret db' /\ db_ok db' /\ peers db' = peers db /\
    (forall k', has_key db' k' <-> k' = k \/ has_key db k') /\
    (forall k' i', registered db' k' i' <-> (k' = k /\ i' = i) \/ registered db k' i').
Proof.
  intros Hok Hx. unfold add_new. pose proof (new_producer_ok x i db Hok Hx) as Hn.
  destruct (new_producer x db) as [p db1]. destruct Hn as (Hok1 & Hp & Hm & Hpe).
  destruct (AddProducer_spec k p i db1 Hok1 Hp) as (db2 & new & E1 & Hok2 & _ & Hpe2 & _ & Hk & Hr).
  rewrite E1. cbn [mbind outcome_bind]. exists db2. split_and!; [done|done|congruence| |].
  - intros k'. rewrite Hk. unfold has_key. by rewrite Hm.
  - intros k' i'. rewrite Hr. unfold registered. by rewrite Hm.
Qed.

Lemma remove_all_spec rs i : forall db, db_ok db ->
  let db' := remove_all rs i db in
  db_ok db' /\ peers db' = peers db /\ (forall k', has_key db' k' <-> has_key db k') /\
  (forall k' i', registered db' k' i' <-> registered db k' i' /\ ~ (k' ∈ rs /\ i' = i)).
Proof.
  induction rs as [|r rs IH]; intros db Hok; cbn [remove_all fold_left] in *; cbn zeta in *.
  { split_and!; try done. intros k' i'. split; [|by intros [? _]]. intros Hr. split; [done|].
    intros [Hk _]. by apply elem_of_nil in Hk. }
  pose proof (RemoveProducer_spec r i db Hok) as H1. destruct (RemoveProducer r i db) as [db1 [removed remaining]].
  destruct H1 as (Hok1 & _ & Hpe1 & _ & _ & Hk1 & Hr1). destruct (IH db1 Hok1) as (Hok2 & Hpe2 & Hk2 & Hr2).
  cbn [fst]. unfold remove_all in *. split_and!; [done|by rewrite Hpe2| |].
  - intros k'. by rewrite Hk2, Hk1.
  - intros k' i'. rewrite Hr2, Hr1, elem_of_cons. naive_solver.
Qed.

Lemma remove_ephemeral_spec k name i db : db_ok db ->
  let db' := remove_ephemeral k name i db in
  db_ok db' /\ peers db' = peers db /\
  (forall k' i', registered db' k' i' <-> registered db k' i' /\ ~ (k' = k /\ i' = i)) /\
  (forall k', has_key db' k' <-> has_key db k' /\
     ~ (k' = k /\ HasSuffix name ephemeral_suffix = true /\ forall i', ~ registered db' k i')).
Proof.
  intros Hok. cbn zeta. unfold remove_ephemeral. pose proof (RemoveProducer_spec k i db Hok) as H1.
  destruct (RemoveProducer k i db) as [db1 [removed remaining]]. destruct H1 as (Hok1 & _ & Hpe1 & _ & H0 & Hk1 & Hr1).
  destruct ((remaining =? 0) && HasSuffix name ephemeral_suffix) eqn:Ec.
  - apply andb_true_iff in Ec as [Ez Hs]. apply Z.eqb_eq in Ez. pose proof (proj1 H0 Ez) as Hnone.
    destruct (RemoveRegistration_spec k db1 Hok1) as (Hok2 & _ & Hpe2 & Hk2 & Hr2).
    split_and!; [done|by rewrite Hpe2| |].
    + intros k' i'. rewrite Hr2, Hr1. split; [by intros [? _]|]. intros [Hr Hn]. split; [done|].
      intros ->. apply (Hnone i'), Hr1. done.
    + intros k'. rewrite Hk2, Hk1. split.
      * intros [? ?]. split; [done|]. by intros [? _].
      * intros [Hk Hn]. split; [done|]. intros ->. apply Hn. split_and!; [done|done|].
        intros i' Hr. by apply Hr2 in Hr as [_ []].
  - split_and!; try done. intros k'. rewrite Hk1. split; [|by intros [? _]].
    intros Hk. split; [done|]. intros (-> & Hs & Hn). rewrite Hs, andb_true_r in Ec. apply Z.eqb_neq in Ec.
    by apply Ec, H0.
Qed.

Lemma remove_registrations_spec rs : forall db, db_ok db ->
  let db' := remove_registrations rs db in
  db_ok db' /\ peers db' = peers db /\ (forall k', has_key db' k' <-> has_key db k' /\ k' ∉ rs) /\
  (forall k' i', registered db' k' i' <-> registered db k' i' /\ k' ∉ rs).
Proof.
  induction rs as [|r rs IH]; intros db Hok; cbn [remove_registrations fold_left] in *; cbn zeta in *.
  { split_and!; try done; intros; (split; [intros Hx; split; [done|apply not_elem_of_nil]|by intros [? _]]). }
  destruct (RemoveRegistration_spec r db Hok) as (Hok1 & _ & Hpe1 & Hk1 & Hr1).
  destruct (IH _ Hok1) as (Hok2 & Hpe2 & Hk2 & Hr2).
  unfold remove_registrations in *. split_and!; [done|by rewrite Hpe2| |].
  - intros k'. rewrite Hk2, Hk1, not_elem_of_cons. naive_solver.
  - intros k' i'. rewrite Hr2, Hr1, not_elem_of_cons. naive_solver.
Qed.

(** ** Effects of the commands *)

Lemma valid_not_star t : IsValidTopicName t = true -> t <> "*"%string.
Proof. intros H ->. by vm_compute in H. Qed.

Lemma getTopicChan_valid params t ch : getTopicChan params = inl (t, ch) -> IsValidTopicName t = true.
Proof.
  unfold getTopicChan. destruct params as [|a rest]; [done|]. destruct (IsValidTopicName a) eqn:Ea; cbn [negb]; [|done].
  destruct (negb (bool_decide _) && _); [done|]. by injection 1 as <- _.
Qed.

(** The keys a command with these arguments is about. *)
Definition registers (t ch : string) (k : Registration) : Prop :=
  k = topic_key t \/ (ch <> EmptyString /\ k = channel_key t ch).

Definition unregisters (t ch : string) (k : Registration) : Prop :=
  if bool_decide (ch = EmptyString) then k = topic_key t \/ (Category k = "channel"%string /\ Key k = t)
  else k = channel_key t ch.

Definition client_ok (client : ClientV1) (db : RegistrationDB) : Prop :=
  forall x, c_peerInfo client = Some x -> peer_is db x (RemoteAddr client).

Lemma REGISTER_spec client params db x t ch : db_ok db -> c_peerInfo client = Some x ->
  peer_is db x (RemoteAddr client) -> getTopicChan params = inl (t, ch) ->
  exists db', REGISTER client params db = Ret (db', client, inl OK) /\ db_ok db' /\ peers db' = peers db /\
    (forall k, has_key db' k <-> registers t ch k \/ has_key db k) /\
    (forall k i, registered db' k i <-> (registers t ch k /\ i = RemoteAddr client) \/ registered db k i).
Proof.
  intros Hok Hx Hpx Hg. unfold REGISTER, registers. rewrite Hx, Hg.
  destruct (bool_decide_reflect (ch = EmptyString)) as [Hch|Hch]; cbn [mbind outcome_bind].
  - destruct (add_new_spec (topic_key t) x _ db Hok Hpx) as (db1 & E1 & Hok1 & Hpe1 & Hk1 & Hr1).
    rewrite E1. cbn [mbind outcome_bind]. exists db1. split_and!; [done|done|done| |].
    + intros k. rewrite Hk1. naive_solver.
    + intros k i. rewrite Hr1. naive_solver.
  - destruct (add_new_spec (channel_key t ch) x _ db Hok Hpx) as (db1 & E1 & Hok1 & Hpe1 & Hk1 & Hr1).
    rewrite E1. cbn [mbind outcome_bind].
    assert (Hpx1 : peer_is db1 x (RemoteAddr client)) by (unfold peer_is; by rewrite Hpe1).
    destruct (add_new_spec (topic_key t) x _ db1 Hok1 Hpx1) as (db2 & E2 & Hok2 & Hpe2 & Hk2 & Hr2).
    rewrite E2. cbn [mbind outcome_bind]. exists db2. split_and!; [done|done|congruence| |].
    + intros k. rewrite Hk2, Hk1. naive_solver.
    + intros k i. rewrite Hr2, Hr1. naive_solver.
Qed.

Lemma UNREGISTER_spec client params db x t ch : db_ok db -> c_peerInfo client = Some x ->
  peer_is db x (RemoteAddr client) -> getTopicChan params = inl (t, ch) ->
  exists db', UNREGISTER client params db = Ret (db', client, inl OK) /\ db_ok db' /\ peers db' = peers db /\
    (forall k i, registered db' k i <-> registered db k i /\ ~ (unregisters t ch k /\ i = RemoteAddr client)) /\
    (let (k0, name) := if bool_decide (ch = EmptyString) then (topic_key t, t) else (channel_key t ch, ch) in
     forall k, has_key db' k <-> has_key db k /\
       ~ (k = k0 /\ HasSuffix name ephemeral_suffix = true /\ forall i, ~ registered db' k0 i)).
Proof.
  intros Hok Hx (pi & Hpi & Hid) Hg. unfold UNREGISTER, unregisters. rewrite Hx, Hg. unfold get_peer. rewrite Hpi.
  cbn [mbind outcome_bind]. rewrite Hid. destruct (bool_decide_reflect (ch = EmptyString)) as [Hch|Hch].
  - set (rs := FindRegistrations "channel" t "*" db).
    destruct (remove_all_spec rs (RemoteAddr client) db Hok) as (Hok1 & Hpe1 & Hk1 & Hr1).
    destruct (remove_ephemeral_spec (topic_key t) t (RemoteAddr client) _ Hok1) as (Hok2 & Hpe2 & Hr2 & Hk2).
    eexists. split; [reflexivity|]. split; [exact Hok2|]. split; [congruence|]. split.
    + intros k i. rewrite Hr2, Hr1. pose proof (FindRegistrations_spec "channel" t "*" db) as [_ Hf]. fold rs in Hf.
      pose proof (valid_not_star t (getTopicChan_valid _ _ _ Hg)) as Hs.
      setoid_rewrite Hf. setoid_rewrite IsMatch_spec. split.
      * intros [[Hr H1] H2]. split; [done|]. intros [[->|[Hc Hk]] Hi]; [by apply H2|]. apply H1. split; [|done].
        split; [|tauto]. destruct Hr as (ps & Hps & _). by exists ps.
      * intros [Hr H1]. split; [split; [done|]|]; intros [Hm Hi]; apply H1; (split; [|done]); [|by left].
        destruct Hm as (_ & Hc & [Hk|Hk] & _); [by destruct Hs|by right].
    + intros k. specialize (Hk2 k). rewrite (Hk1 k) in Hk2. exact Hk2.
  - destruct (remove_ephemeral_spec (channel_key t ch) ch (RemoteAddr client) db Hok) as (Hok2 & Hpe2 & Hr2 & Hk2).
    eexists. split; [reflexivity|]. split_and!; done.
Qed.

(** What IDENTIFY, and every command, promises: the database stays well formed and keeps
    its peers, the client its identity. *)
Definition identify_post (client : ClientV1) (db : RegistrationDB) (r : reply) : Prop :=
  let '(db', client', e) := r in
  db_ok db' /\ RemoteAddr client' = RemoteAddr client /\ client_ok client' db' /\
  (forall x i, peer_is db x i -> peer_is db' x i) /\
  match e with
  | inl _ => is_Some (c_peerInfo client') /\
      (forall k i, registered db' k i <-> (k = client_key /\ i = RemoteAddr client) \/ registered db k i)
  | inr _ => db' = db /\ client' = client
  end.

Definition size_ok (reader : list Z) : Prop :=
  (length reader < 4)%nat \/ 0 <= swrap 32 (be_get (take 4 reader)).

Lemma IDENTIFY_spec client reader now db : db_ok db -> c_peerInfo client = None -> size_ok reader ->
  exists r, IDENTIFY client reader now db = Ret r /\ identify_post client db r.
Proof.
  intros Hok Hc Hlen. unfold IDENTIFY, size_ok in *. rewrite Hc.
  assert (Hsame : forall e, exists r, Ret (E := unit) (db, client, inr e) = Ret r /\ identify_post client db r).
  { intros e. eexists. split; [reflexivity|]. cbn. split_and!; try done. intros x Hx. congruence. }
  destruct (Nat.ltb_spec (length reader) 4) as [Hl|Hl]; [apply Hsame|].
  destruct (Z.ltb_spec (swrap 32 (be_get (take 4 reader))) 0) as [Hn|Hn]; [lia|].
  destruct (_ <? _)%nat; [apply Hsame|]. destruct (unmarshal _) as [f|]; [|apply Hsame].
  set (pi := set_fields f _). destruct (missing_fields pi); [apply Hsame|].
  set (peer := fresh (dom (peers db))). set (pi' := mkPeer now _ _ _ _ _ _ _).
  set (db1 := mkDB _ _ (<[peer := pi']> (peers db))).
  assert (Hpeer : peers db !! peer = None) by (apply not_elem_of_dom, is_fresh).
  assert (Hkeep : forall x pi0, peers db !! x = Some pi0 -> peers db1 !! x = Some pi0).
  { intros x pi0 Hx. cbn. rewrite lookup_insert_ne; [done|]. intros <-. by rewrite Hpeer in Hx. }
  assert (Hok1 : db_ok db1).
  { intros k ps i p Hk Hi. destruct (Hok k ps i p Hk Hi) as (pr & pi0 & H1 & H2 & H3). exists pr, pi0. eauto. }
  assert (Hp1 : peer_is db1 peer (RemoteAddr client)) by (exists pi'; cbn; by rewrite lookup_insert_eq).
  destruct (add_new_spec client_key peer _ db1 Hok1 Hp1) as (db2 & E2 & Hok2 & Hpe2 & _ & Hr2).
  rewrite E2. cbn [mbind outcome_bind]. eexists. split; [reflexivity|].
  unfold identify_post.
  assert (Hmono : forall x i, peer_is db1 x i -> peer_is db2 x i) by (intros x i; unfold peer_is; by rewrite Hpe2).
  split_and!; [done|done| | |by eexists|done].
  - intros x [= <-]. by apply Hmono.
  - intros x i (pi0 & Hx & Hi). apply Hmono. exists pi0. split; [by apply Hkeep|done].
Qed.

(** ** The daemon *)

Record server := mkServer { DB : RegistrationDB; conns : gmap Z ClientV1 }.

Inductive event :=
  | EConnect (c : Z) (addr : string)
  | ECommand (c : Z) (reader : list Z) (now : Z) (params : list string)
  | EClose (c : Z)
  | ECreateTopic (req : request)
  | EDeleteTopic (req : request)
  | ETombstone (req : request) (now : Z)
  | ECreateChannel (req : request)
  | EDeleteChannel (req : request).

(** The connection ends: IOLoop cleans up after its client. *)
Definition close (c : Z) (client : ClientV1) (db : RegistrationDB) (s : server) : outcome unit server :=
  db ← disconnect client db; Ret (mkServer db (delete c (conns s))).

Definition http (r : outcome unit (RegistrationDB * option http_error)) (s : server) : outcome unit server :=
  '(db, _) ← r; Ret (mkServer db (conns s)).

(** Every error of a command is fatal: it closes the connection. *)
Definition step (e : event) (s : server) : outcome unit server :=
  match e with
  | EConnect c addr =>
      match conns s !! c with
      | Some _ => Ret s
      | None => Ret (mkServer (DB s) (<[c := mkClient addr None]> (conns s)))
      end
  | ECommand c reader now params =>
      match conns s !! c with
      | None => Ret s
      | Some client =>
          '(db, client, r) ← Exec client reader now params (DB s);
          match r with
          | inl _ => Ret (mkServer db (<[c := client]> (conns s)))
          | inr _ => close c client db s
          end
      end
  | EClose c => match conns s !! c with None => Ret s | Some client => close c client (DB s) s end
  | ECreateTopic req => http (doCreateTopic req (DB s)) s
  | EDeleteTopic req => http (doDeleteTopic req (DB s)) s
  | ETombstone req now => http (doTombstoneTopicProducer req now (DB s)) s
  | ECreateChannel req => http (doCreateChannel req (DB s)) s
  | EDeleteChannel req => http (doDeleteChannel req (DB s)) s
  end.

Fixpoint run (es : list event) (s : server) : outcome unit server :=
  match es with [] => Ret s | e :: es => s ← step e s; run es s end.

Definition init : server := mkServer NewRegistrationDB ∅.

(** What the transport guarantees: a split line is not empty, a parsed query has a value
    for each of its keys; and the IDENTIFY body size is not negative. *)
Definition request_ok (req : request) : Prop :=
  forall values k, req = Some values -> values !! k <> Some [].

Definition event_ok (e : event) : Prop :=
  match e with
  | ECommand _ reader _ params => params <> [] /\ size_ok reader
  | ECreateTopic req | EDeleteTopic req | ETombstone req _ | ECreateChannel req | EDeleteChannel req => request_ok req
  | _ => True
  end.

(** No registration outlives the connection of its client. *)
Record server_ok (s : server) : Prop := {
  so_db : db_ok (DB s);
  so_clients : forall c client, conns s !! c = Some client -> client_ok client (DB s);
  so_live : forall k i, registered (DB s) k i ->
    exists c client, conns s !! c = Some client /\ is_Some (c_peerInfo client) /\ RemoteAddr client = i
}.

(** *** Commands *)

Definition exec_post (client : ClientV1) (db : RegistrationDB) (r : reply) : Prop :=
  let '(db', client', _) := r in
  db_ok db' /\ RemoteAddr client' = RemoteAddr client /\ client_ok client' db' /\
  (forall x i, peer_is db x i -> peer_is db' x i) /\
  (is_Some (c_peerInfo client) -> is_Some (c_peerInfo client')) /\
  (forall k i, registered db' k i ->
     registered db k i \/ (i = RemoteAddr client /\ is_Some (c_peerInfo client'))).

Lemma exec_same client db e : db_ok db -> client_ok client db -> exec_post client db (db, client, e).
Proof. intros Hok Hc. cbn. split_and!; auto. Qed.

Lemma PING_post client now db : db_ok db -> client_ok client db ->
  exists r, PING client now db = Ret r /\ exec_post client db r.
Proof.
  intros Hok Hc. unfold PING. destruct (c_peerInfo client) as [x|] eqn:Ex.
  2: { eexists. split; [reflexivity|by apply exec_same]. }
  destruct (Hc x Ex) as (pi & Hpi & Hid). unfold get_peer. rewrite Hpi. cbn [mbind outcome_bind].
  eexists. split; [reflexivity|]. set (db1 := mkDB _ _ _).
  assert (Hkeep : forall y pi0, peers db !! y = Some pi0 -> exists pi1, peers db1 !! y = Some pi1 /\ id pi1 = id pi0).
  { intros y pi0 Hy. cbn. destruct (decide (y = x)) as [->|Hne].
    - rewrite lookup_insert_eq. eexists. split; [done|]. rewrite Hpi in Hy. by injection Hy as <-.
    - rewrite lookup_insert_ne by done. eauto. }
  assert (Hmono : forall y i, peer_is db y i -> peer_is db1 y i).
  { intros y i (pi0 & Hy & <-). destruct (Hkeep y pi0 Hy) as (pi1 & H1 & H2). by exists pi1. }
  unfold exec_post. split_and!; try done; auto.
  - intros k ps i p Hk Hi. destruct (Hok k ps i p Hk Hi) as (pr & pi0 & H1 & H2 & <-).
    destruct (Hkeep _ _ H2) as (pi1 & H3 & H4). by exists pr, pi1.
  - intros y Hy. by apply Hmono, Hc.
Qed.

Lemma Exec_post client reader now params db : db_ok db -> client_ok client db -> params <> [] -> size_ok reader ->
  exists r, Exec client reader now params db = Ret r /\ exec_post client db r.
Proof.
  intros Hok Hc Hp Hr. destruct params as [|cmd params]; [done|]. cbn [Exec].
  assert (Hsame : forall e, exists r, Ret (E := unit) (db, client, e) = Ret r /\ exec_post client db r).
  { intros e. eexists. split; [reflexivity|by apply exec_same]. }
  destruct (bool_decide _); [by apply PING_post|]. destruct (bool_decide _).
  { destruct (c_peerInfo client) as [x|] eqn:Ex; [unfold IDENTIFY; rewrite Ex; apply Hsame|].
    destruct (IDENTIFY_spec client reader now db Hok Ex Hr) as ([[db1 client1] e] & E1 & H1 & H2 & H3 & H4 & H5).
    exists (db1, client1, e). split; [done|]. cbn. split_and!; try done.
    - rewrite Ex. by intros [].
    - destruct e as [e|e]; [|destruct H5 as [-> _]; auto]. destruct H5 as [Hs Hreg]. intros k i Hk.
      apply Hreg in Hk as [[_ ->]|Hk]; auto. }
  destruct (bool_decide _).
  { destruct (c_peerInfo client) as [x|] eqn:Ex; [|unfold REGISTER; rewrite Ex; apply Hsame].
    destruct (getTopicChan params) as [[t ch]|e] eqn:Eg; [|unfold REGISTER; rewrite Ex, Eg; apply Hsame].
    destruct (REGISTER_spec client params db x t ch Hok Ex (Hc x Ex) Eg) as (db1 & E1 & H1 & H2 & _ & H3).
    eexists. split; [exact E1|]. cbn. unfold client_ok, peer_is. rewrite H2. split_and!; try done.
    intros k i Hk. apply H3 in Hk as [[_ ->]|Hk]; [|by left]. right. split; [done|]. rewrite Ex. eauto. }
  destruct (bool_decide _); [|apply Hsame].
  destruct (c_peerInfo client) as [x|] eqn:Ex; [|unfold UNREGISTER; rewrite Ex; apply Hsame].
  destruct (getTopicChan params) as [[t ch]|e] eqn:Eg; [|unfold UNREGISTER; rewrite Ex, Eg; apply Hsame].
  destruct (UNREGISTER_spec client params db x t ch Hok Ex (Hc x Ex) Eg) as (db1 & E1 & H1 & H2 & H3 & _).
  eexists. split; [exact E1|]. cbn. unfold client_ok, peer_is. rewrite H2. split_and!; try done.
  intros k i Hk. left. by apply H3.
Qed.

Lemma disconnect_spec client db : db_ok db -> client_ok client db ->
  exists db', disconnect client db = Ret db' /\ db_ok db' /\ peers db' = peers db /\
    (forall k i, registered db' k i <->
       registered db k i /\ ~ (is_Some (c_peerInfo client) /\ i = RemoteAddr client)).
Proof.
  intros Hok Hc. unfold disconnect. destruct (c_peerInfo client) as [x|] eqn:Ex.
  2: { exists db. split_and!; try done. intros k i. split; [|by intros [? _]]. intros Hr. split; [done|]. by intros [[] _]. }
  destruct (Hc x Ex) as (pi & Hpi & Hid). unfold get_peer. rewrite Hpi. cbn [mbind outcome_bind]. rewrite Hid.
  destruct (remove_all_spec (LookupRegistrations (RemoteAddr client) db) (RemoteAddr client) db Hok) as (H1 & H2 & _ & H3).
  eexists. split; [reflexivity|]. split_and!; [done|done|]. intros k i. rewrite H3.
  pose proof (LookupRegistrations_spec (RemoteAddr client) db) as [_ Hl]. rewrite Hl. split.
  - intros [Hr Hn]. split; [done|]. intros [_ ->]. by apply Hn.
  - intros [Hr Hn]. split; [done|]. intros [_ ->]. apply Hn. split; [by eexists|done].
Qed.

(** *** HTTP handlers *)

(** No handler adds a producer. *)
Definition http_post (db db' : RegistrationDB) : Prop :=
  db_ok db' /\ (forall x i, peer_is db x i -> peer_is db' x i) /\
  (forall k i, registered db' k i -> registered db k i).

Lemma http_same db : db_ok db -> http_post db db.
Proof. intros Hok. unfold http_post. auto. Qed.

Lemma http_peers db db' : db_ok db' -> peers db' = peers db ->
  (forall k i, registered db' k i -> registered db k i) -> http_post db db'.
Proof. intros H1 H2 H3. split; [done|]. split; [|done]. unfold peer_is. by rewrite H2. Qed.

Lemma http_trans a b c : http_post a b -> http_post b c -> http_post a c.
Proof. intros (H1 & H2 & H3) (H4 & H5 & H6). unfold http_post. auto 10. Qed.

Lemma Get_ok key values : (forall k, values !! k <> Some []) -> exists v, Get key values = Ret v.
Proof.
  intros Hv. unfold Get. destruct (values !! key) as [[|v vs]|] eqn:Ev; [by apply Hv in Ev|eauto..].
Qed.

Lemma topic_arg_ok req : request_ok req -> exists t, topic_arg req = Ret t.
Proof.
  intros Hr. unfold topic_arg. destruct req as [values|]; [|eauto].
  destruct (Get_ok "topic" values) as [v E1]; [by intros k; apply Hr|]. rewrite E1. cbn [mbind outcome_bind].
  destruct v; eauto.
Qed.

Lemma topic_channel_args_ok req : request_ok req -> exists t, topic_channel_args req = Ret t.
Proof.
  intros Hr. unfold topic_channel_args. destruct req as [values|]; [|eauto].
  assert (Hv : forall k, values !! k <> Some []) by (intros k; by apply Hr). unfold GetTopicChannelArgs.
  destruct (Get_ok "topic" values Hv) as [v E1]. rewrite E1. cbn [mbind outcome_bind].
  destruct v as [t|]; [|cbn; eauto]. destruct (negb _); [cbn; eauto|].
  destruct (Get_ok "channel" values Hv) as [v E2]. rewrite E2. cbn [mbind outcome_bind].
  destruct v as [ch|]; [|cbn; eauto]. destruct (negb _); cbn; eauto.
Qed.

Lemma AddRegistration_post k db : db_ok db -> http_post db (AddRegistration k db).
Proof.
  intros Hok. destruct (AddRegistration_spec k db Hok) as (H1 & _ & H2 & _ & H3).
  apply http_peers; [done|done|]. intros k' i. by rewrite H3.
Qed.

Lemma remove_registrations_post rs db : db_ok db -> http_post db (remove_registrations rs db).
Proof.
  intros Hok. destruct (remove_registrations_spec rs db Hok) as (H1 & H2 & _ & H3).
  apply http_peers; [done|done|]. intros k' i. rewrite H3. by intros [? _].
Qed.

Lemma Tombstone_post p i now db : db_ok db -> producer_of db p i ->
  exists db', Tombstone p now db = Ret db' /\ http_post db db' /\
    (forall q j, producer_of db q j -> producer_of db' q j).
Proof.
  intros Hok (pr & pi & Hp & Hpi & Hid). unfold Tombstone, get_producer. rewrite Hp. cbn [mbind outcome_bind].
  eexists. split; [reflexivity|].
  assert (Hmono : forall q j, producer_of db q j ->
    producer_of (mkDB (registrationMap db) (<[p:=mkProducer (peerInfo pr) true now]> (producers db)) (peers db)) q j).
  { intros q j (pr' & pi' & H1 & H2 & H3). destruct (decide (q = p)) as [->|Hne].
    - rewrite Hp in H1. injection H1 as <-. exists (mkProducer (peerInfo pr) true now), pi'. cbn. by rewrite lookup_insert_eq.
    - exists pr', pi'. cbn. by rewrite lookup_insert_ne. }
  split; [|done]. split; [|by split]. intros k ps j q Hk Hj. by apply Hmono, (Hok k ps).
Qed.

Lemma tombstone_loop_post node now pp : forall db ids, db_ok db -> Forall2 (producer_of db) pp ids ->
  exists db', tombstone_loop node now pp db = Ret db' /\ http_post db db'.
Proof.
  induction pp as [|p pp IH]; intros db ids Hok Hpp; cbn [tombstone_loop].
  { exists db. split; [done|by apply http_same]. }
  apply Forall2_cons_inv_l in Hpp as (i & ids' & Hp & Hpp & ->).
  destruct (producer_peer_of db p i Hp) as (pi & E1 & _). rewrite E1. cbn [mbind outcome_bind].
  destruct (bool_decide _); cbn [mbind outcome_bind]; [|by apply (IH db ids')].
  destruct (Tombstone_post p i now db Hok Hp) as (db1 & E2 & Hpost & Hmono). rewrite E2. cbn [mbind outcome_bind].
  destruct (IH db1 ids') as (db2 & E3 & Hpost2); [by destruct Hpost|by eapply Forall2_impl; [exact Hpp|]|].
  exists db2. split; [done|]. by eapply http_trans.
Qed.

Ltac http_ret := cbn [mbind outcome_bind]; eexists _, _; split; [reflexivity|]; auto using http_same.

Lemma http_handlers_ok req now db : db_ok db -> request_ok req ->
  (exists db' e, doCreateTopic req db = Ret (db', e) /\ http_post db db') /\
  (exists db' e, doDeleteTopic req db = Ret (db', e) /\ http_post db db') /\
  (exists db' e, doTombstoneTopicProducer req now db = Ret (db', e) /\ http_post db db') /\
  (exists db' e, doCreateChannel req db = Ret (db', e) /\ http_post db db') /\
  (exists db' e, doDeleteChannel req db = Ret (db', e) /\ http_post db db').
Proof.
  intros Hok Hreq. destruct (topic_arg_ok req Hreq) as [t Et]. destruct (topic_channel_args_ok req Hreq) as [a Ea].
  split_and!.
  - unfold doCreateTopic. rewrite Et. cbn [mbind outcome_bind]. destruct t as [t|e]; [|http_ret].
    destruct (negb _); [http_ret|]. http_ret. by apply AddRegistration_post.
  - unfold doDeleteTopic. rewrite Et. cbn [mbind outcome_bind]. destruct t as [t|e]; [|http_ret]. http_ret.
    pose proof (remove_registrations_post (FindRegistrations "channel" t "*" db) db Hok) as H1.
    eapply http_trans; [exact H1|]. apply remove_registrations_post. by destruct H1.
  - unfold doTombstoneTopicProducer. destruct req as [values|]; [|http_ret].
    assert (Hv : forall k, values !! k <> Some []) by (intros k; by apply Hreq).
    destruct (Get_ok "topic" values Hv) as [v E1]. rewrite E1. cbn [mbind outcome_bind]. destruct v as [tn|]; [|http_ret].
    destruct (Get_ok "node" values Hv) as [v E2]. rewrite E2. cbn [mbind outcome_bind]. destruct v as [nd|]; [|http_ret].
    destruct (FindProducers_spec "topic" tn "" db Hok) as (l & ids & E3 & Hl). rewrite E3. cbn [mbind outcome_bind].
    destruct (tombstone_loop_post nd now l db ids Hok (fs_ids _ _ _ _ _ _ Hl)) as (db' & E4 & H4). rewrite E4. http_ret.
  - unfold doCreateChannel. rewrite Ea. cbn [mbind outcome_bind]. destruct a as [[tn ch]|e]; [|http_ret]. http_ret.
    pose proof (AddRegistration_post (channel_key tn ch) db Hok) as H1.
    eapply http_trans; [exact H1|]. apply AddRegistration_post. by destruct H1.
  - unfold doDeleteChannel. rewrite Ea. cbn [mbind outcome_bind]. destruct a as [[tn ch]|e]; [|http_ret].
    destruct (FindRegistrations "channel" tn ch db) as [|r rs]; [http_ret|]. http_ret. by apply remove_registrations_post.
Qed.

(** *** The invariant *)

Lemma http_server_ok s db' : server_ok s -> http_post (DB s) db' -> server_ok (mkServer db' (conns s)).
Proof.
  intros [H1 H2 H3] (P1 & P2 & P3). split; [done| |].
  - intros c client Hc x Hx. by apply P2, (H2 c client Hc).
  - intros k i Hr. by apply (H3 k), P3.
Qed.

Lemma close_ok c client db s : server_ok s -> conns s !! c <> None -> db_ok db -> client_ok client db ->
  (forall c' cl, conns s !! c' = Some cl -> client_ok cl db) ->
  (forall k i, registered db k i -> (i = RemoteAddr client /\ is_Some (c_peerInfo client)) \/
     exists c' cl, c' <> c /\ conns s !! c' = Some cl /\ is_Some (c_peerInfo cl) /\ RemoteAddr cl = i) ->
  exists s', close c client db s = Ret s' /\ server_ok s' /\ conns s' = delete c (conns s).
Proof.
  intros Hs Hc Hok Hcl Hall Hlive. unfold close.
  destruct (disconnect_spec client db Hok Hcl) as (db' & E1 & H1 & H2 & H3). rewrite E1. cbn [mbind outcome_bind].
  eexists. split; [reflexivity|]. split; [|done]. split; cbn [DB conns]; [done| |].
  - intros c' cl Hc'. apply lookup_delete_Some in Hc' as [_ Hc']. unfold client_ok, peer_is. rewrite H2.
    by apply (Hall c').
  - intros k i Hr. apply H3 in Hr as [Hr Hn]. destruct (Hlive k i Hr) as [[-> Hp]|(c' & cl & Hne & H)].
    + by exfalso; apply Hn.
    + exists c', cl. by rewrite lookup_delete_ne.
Qed.

Lemma command_ok c reader now params s : server_ok s -> params <> [] -> size_ok reader ->
  exists s', step (ECommand c reader now params) s = Ret s' /\ server_ok s'.
Proof.
  intros Hs Hp Hr. cbn [step]. destruct (conns s !! c) as [client|] eqn:Ec; [|by exists s].
  destruct (Exec_post client reader now params (DB s) (so_db _ Hs) (so_clients _ Hs c client Ec) Hp Hr)
    as ([[db1 client1] e] & E1 & H1 & H2 & H3 & H4 & H5 & H6). rewrite E1. cbn [mbind outcome_bind].
  assert (Hall : forall c' cl, conns s !! c' = Some cl -> client_ok cl db1).
  { intros c' cl Hc' x Hx. by apply H4, (so_clients _ Hs c' cl Hc'). }
  assert (Hlive : forall k i, registered db1 k i -> (i = RemoteAddr client1 /\ is_Some (c_peerInfo client1)) \/
     exists c' cl, c' <> c /\ conns s !! c' = Some cl /\ is_Some (c_peerInfo cl) /\ RemoteAddr cl = i).
  { intros k i Hk. rewrite H2. destruct (H6 k i Hk) as [Hk'|?]; [|by left].
    destruct (so_live _ Hs k i Hk') as (c' & cl & Hc' & Hcl & Ha). destruct (decide (c' = c)) as [->|Hne].
    - rewrite Ec in Hc'. injection Hc' as <-. left. split; [done|by apply H5].
    - right. by exists c', cl. }
  destruct e as [e|e].
  - eexists. split; [reflexivity|]. split; cbn [DB conns]; [done| |].
    + intros c' cl Hc'. apply lookup_insert_Some in Hc' as [[_ <-]|[_ Hc']]; [done|by apply (Hall c')].
    + intros k i Hk. destruct (Hlive k i Hk) as [[-> Hi]|(c' & cl & Hne & Hc' & Hi)].
      * exists c, client1. by rewrite lookup_insert_eq.
      * exists c', cl. by rewrite lookup_insert_ne.
  - destruct (close_ok c client1 db1 s Hs) as (s' & E2 & H7 & _); [by rewrite Ec|done|done|done|done|]. eauto.
Qed.

Lemma step_ok e s : server_ok s -> event_ok e -> exists s', step e s = Ret s' /\ server_ok s'.
Proof.
  intros Hs He.
  assert (Hhttp : forall r, (exists db' x, r = Ret (db', x) /\ http_post (DB s) db') ->
    exists s', http r s = Ret s' /\ server_ok s').
  { intros r (db' & x & -> & Hpost). eexists. split; [reflexivity|]. by apply http_server_ok. }
  pose proof (so_db _ Hs) as Hok. destruct e as [c addr|c reader now params|c|req|req|req now|req|req].
  - cbn [step]. destruct (conns s !! c) as [cl|] eqn:Ec; [by exists s|]. eexists. split; [reflexivity|].
    split; cbn [DB conns]; [done| |].
    + intros c' cl Hc'. apply lookup_insert_Some in Hc' as [[_ <-]|[_ Hc']]; [done|by apply (so_clients _ Hs c')].
    + intros k i Hk. destruct (so_live _ Hs k i Hk) as (c' & cl & Hc' & H). exists c', cl.
      rewrite lookup_insert_ne; [done|]. intros ->. by rewrite Ec in Hc'.
  - destruct He. by apply command_ok.
  - cbn [step]. destruct (conns s !! c) as [cl|] eqn:Ec; [|by exists s].
    destruct (close_ok c cl (DB s) s Hs) as (s' & E2 & H7 & _); [by rewrite Ec|done|by apply (so_clients _ Hs c)|apply (so_clients _ Hs)| |eauto].
    intros k i Hk. destruct (so_live _ Hs k i Hk) as (c' & cl' & Hc' & H1 & H2).
    destruct (decide (c' = c)) as [->|Hne]; [|right; by exists c', cl'].
    rewrite Ec in Hc'. injection Hc' as <-. by left.
  - apply Hhttp. by apply (http_handlers_ok req 0).
  - apply Hhttp. by apply (http_handlers_ok req 0).
  - apply Hhttp. by apply (http_handlers_ok req now).
  - apply Hhttp. by apply (http_handlers_ok req 0).
  - apply Hhttp. by apply (http_handlers_ok req 0).
Qed.

Lemma init_ok : server_ok init.
Proof.
  split; [apply NewRegistrationDB_ok| |].
  - intros c client Hc. cbn in Hc. by apply lookup_empty_Some in Hc.
  - intros k i (ps & Hk & _). cbn in Hk. by apply lookup_empty_Some in Hk.
Qed.

Lemma run_server_ok es : forall s, server_ok s -> Forall event_ok es -> exists s', run es s = Ret s' /\ server_ok s'.
Proof.
  induction es as [|e es IH]; intros s Hs He; cbn [run]; [by exists s|]. apply Forall_cons in He as [He Hes].
  destruct (step_ok e s Hs He) as (s1 & E1 & Hs1). rewrite E1. cbn [mbind outcome_bind]. by apply IH.
Qed.

(** *** Reports *)

Lemma producer_of_unique db p i j : producer_of db p i -> producer_of db p j -> i = j.
Proof. intros (pr & pi & P1 & P2 & <-) (pr' & pi' & Q1 & Q2 & <-). congruence. Qed.

Lemma topic_key_match t k : t <> "*"%string -> IsMatch k "topic" t "" = true <-> k = topic_key t.
Proof.
  intros Ht. apply IsMatch_exact. unfold needFilter. apply orb_false_iff.
  split; apply bool_decide_eq_false; [done|discriminate].
Qed.

Lemma lookup_channels t db : t <> "*"%string ->
  let channels := SubKeys (FindRegistrations "channel" t "*" db) in
  NoDup channels /\ forall ch, ch ∈ channels <-> has_key db (channel_key t ch).
Proof.
  intros Ht. destruct (FindRegistrations_spec "channel" t "*" db) as [Hcn Hcf]. unfold SubKeys. split.
  - apply NoDup_fmap_2_strong; [|done]. intros a b Ha Hb Heq.
    apply Hcf in Ha as [_ Ha], Hb as [_ Hb]. apply IsMatch_spec in Ha as (A1 & [?|A2] & _), Hb as (B1 & [?|B2] & _);
      [done..|]. destruct a, b; cbn in *; congruence.
  - intros ch. rewrite list_elem_of_fmap. split.
    + intros (k & -> & Hk). apply Hcf in Hk as [Hk Hm]. apply IsMatch_spec in Hm as (A1 & [?|A2] & _); [done|].
      destruct k; cbn in *; subst. done.
    + intros Hch. exists (channel_key t ch). split; [done|]. apply Hcf. split; [done|]. apply IsMatch_spec. cbn. auto.
Qed.

(** The ids of the kept producers are those whose producer under the key is kept. *)
Lemma found_ids db t l ids l2 ids2 (P : ptr -> Prop) : db_ok db -> t <> "*"%string ->
  found_spec db "topic" t "" l ids -> Forall2 (producer_of db) l2 ids2 -> (forall p, p ∈ l2 <-> p ∈ l /\ P p) ->
  forall i, i ∈ ids2 <-> exists ps p, registrationMap db !! topic_key t = Some ps /\ ps !! i = Some p /\ P p.
Proof.
  intros Hok Ht [Hi Hn Ha Hfrom] Hi2 Hl2 i. split.
  - intros Hii. apply list_elem_of_lookup in Hii as [n Hii]. destruct (Forall2_lookup_r _ _ _ _ _ Hi2 Hii) as (p & Hp & Hpi).
    apply list_elem_of_lookup_2 in Hp. apply Hl2 in Hp as [Hp HP].
    destruct (Hfrom p Hp) as (k & ps & j & Hk & Eps & Ej). apply topic_key_match in Hk as ->; [|done].
    rewrite (producer_of_unique db p i j) by (eauto using Hok); eauto.
  - intros (ps & p & Eps & Ei & HP).
    assert (Hii : i ∈ ids) by (apply Ha; exists (topic_key t); split; [by apply topic_key_match|]; exists ps; eauto).
    apply list_elem_of_lookup in Hii as [n Hii]. destruct (Forall2_lookup_r _ _ _ _ _ Hi Hii) as (q & Hq & Hqi).
    apply list_elem_of_lookup_2 in Hq. destruct (Hfrom q Hq) as (k & ps' & j & Hk & Eps' & Ej).
    apply topic_key_match in Hk as ->; [|done]. rewrite Eps in Eps'. injection Eps' as <-.
    rewrite (producer_of_unique db q j i) in Ej by eauto. rewrite Ei in Ej. injection Ej as <-.
    assert (Hp2 : p ∈ l2) by (by apply Hl2). apply list_elem_of_lookup in Hp2 as [n2 Hp2].
    destruct (Forall2_lookup_l _ _ _ _ _ Hi2 Hp2) as (i' & Hi' & Hpi').
    rewrite (producer_of_unique db p i i') by eauto. by eapply list_elem_of_lookup_2.
Qed.

Lemma doLookup_spec opts req t now db : db_ok db -> topic_arg req = Ret (inl t) -> t <> "*"%string ->
  (~ has_key db (topic_key t) -> doLookup opts req now db = Ret (inr (404, "TOPIC_NOT_FOUND"%string))) /\
  (has_key db (topic_key t) -> exists channels infos, doLookup opts req now db = Ret (inl (channels, infos)) /\
     NoDup channels /\ (forall ch, ch ∈ channels <-> has_key db (channel_key t ch)) /\
     exists ids, Forall2 (peer_is db) infos ids /\ NoDup ids /\
       forall i, i ∈ ids <-> exists ps p, registrationMap db !! topic_key t = Some ps /\ ps !! i = Some p /\
         active db (InactiveProducerTimeout opts) (TombstoneLifetime opts) now p).
Proof.
  intros Hok Hreq Ht. unfold doLookup. rewrite Hreq. cbn [mbind outcome_bind].
  destruct (FindRegistrations_spec "topic" t "" db) as [_ Hf].
  destruct (FindRegistrations "topic" t "" db) as [|k rs]; (split; [intros Hk|intros Hk]).
  - done.
  - exfalso. assert (Hx : topic_key t ∈ @nil Registration) by (apply Hf; split; [done|by apply topic_key_match]).
    by apply elem_of_nil in Hx.
  - exfalso. destruct (proj1 (Hf k)) as [Hx Hy]; [by left|]. apply topic_key_match in Hy as ->; done.
  - destruct (FindProducers_spec "topic" t "" db Hok) as (l & ids & E1 & Hl). rewrite E1. cbn [mbind outcome_bind].
    pose proof (fs_ids _ _ _ _ _ _ Hl) as Hi.
    destruct (FilterByActive_spec l (InactiveProducerTimeout opts) (TombstoneLifetime opts) now db ids Hi)
      as (l2 & E2 & Hs2 & Hl2). rewrite E2. cbn [mbind outcome_bind].
    destruct (Forall2_sublist _ l l2 ids Hi Hs2) as (ids2 & Hi2 & Hsi).
    destruct (PeerInfos_spec l2 db ids2 Hi2) as (l3 & E3 & _ & Hl3). rewrite E3. cbn [mbind outcome_bind].
    eexists _, l3. split; [reflexivity|]. destruct (lookup_channels t db Ht) as [Hc1 Hc2]. split; [done|]. split; [done|].
    exists ids2. split; [exact Hl3|]. split; [by eapply sublist_NoDup, Hsi; destruct Hl|]. by eapply found_ids.
Qed.

(** doNodes returns. *)
Lemma peer_tombstone_ok peer lt now tps ids db : Forall2 (producer_of db) tps ids ->
  exists b, peer_tombstone peer lt now tps db = Ret b.
Proof.
  induction 1 as [|p i tps ids Hp _ IH]; cbn [peer_tombstone]; [eauto|].
  destruct Hp as (pr & pi & Hp & _). unfold get_producer. rewrite Hp. cbn [mbind outcome_bind].
  destruct (_ =? _); eauto.
Qed.

Definition cache_ok (cache : gmap string (list ptr)) (db : RegistrationDB) : Prop :=
  forall t tps, cache !! t = Some tps -> exists ids, Forall2 (producer_of db) tps ids.

Lemma tombstones_loop_ok peer lt now topics : forall cache db, db_ok db -> cache_ok cache db ->
  exists bs cache', tombstones_loop peer lt now topics cache db = Ret (bs, cache') /\ cache_ok cache' db /\
    length bs = length topics.
Proof.
  induction topics as [|t topics IH]; intros cache db Hok Hc; cbn [tombstones_loop]; [by exists [], cache|].
  assert (H1 : exists cache1 tps ids, (match cache !! t with
      | Some _ => Ret cache
      | None => tps ← FindProducers "topic" t "" db; Ret (<[t := tps]> cache)
      end : outcome unit _) = Ret cache1 /\ cache_ok cache1 db /\ cache1 !! t = Some tps /\ Forall2 (producer_of db) tps ids).
  { destruct (cache !! t) as [tps|] eqn:Et; [destruct (Hc t tps Et) as [ids Hi]; by exists cache, tps, ids|].
    destruct (FindProducers_spec "topic" t "" db Hok) as (tps & ids & E1 & Hl). rewrite E1. cbn [mbind outcome_bind].
    exists (<[t := tps]> cache), tps, ids. split; [done|]. split.
    - intros t' tps' Ht'. apply lookup_insert_Some in Ht' as [[_ <-]|[_ Ht']]; [exists ids; by destruct Hl|by apply (Hc t')].
    - split; [apply lookup_insert_eq|by destruct Hl]. }
  destruct H1 as (cache1 & tps & ids & E1 & Hc1 & Et & Hi). rewrite E1. cbn [mbind outcome_bind]. rewrite Et.
  destruct (peer_tombstone_ok peer lt now tps ids db Hi) as [b E2].
  change (default [] (Some tps)) with tps. rewrite E2. cbn [mbind outcome_bind].
  destruct (IH cache1 db Hok Hc1) as (bs & cache2 & E3 & Hc2 & Hl). rewrite E3. cbn [mbind outcome_bind].
  exists (b :: bs), cache2. split_and!; [done|done|cbn; by f_equal].
Qed.

Lemma nodes_loop_ok lt now pp : forall ids cache db, db_ok db -> cache_ok cache db -> Forall2 (producer_of db) pp ids ->
  exists nodes, nodes_loop lt now pp cache db = Ret nodes /\
    Forall2 (fun nd i => id (n_peer nd) = i /\ length (Tombstones nd) = length (Topics nd) /\
       forall t, t ∈ Topics nd <-> registered db (topic_key t) i) nodes ids.
Proof.
  induction pp as [|p pp IH]; intros ids cache db Hok Hc Hpp; cbn [nodes_loop].
  { apply Forall2_nil_inv_l in Hpp as ->. exists []. split; constructor. }
  apply Forall2_cons_inv_l in Hpp as (i & ids' & (pr & pi & Hp & Hpi & Hid) & Hpp & ->). unfold get_producer, get_peer.
  rewrite Hp. cbn [mbind outcome_bind]. rewrite Hpi. cbn [mbind outcome_bind]. rewrite Hid.
  set (topics := Keys _).
  destruct (tombstones_loop_ok (peerInfo pr) lt now topics cache db Hok Hc) as (bs & cache1 & E1 & Hc1 & Hl).
  rewrite E1. cbn [mbind outcome_bind].
  destruct (IH ids' cache1 db Hok Hc1 Hpp) as (nodes & E2 & Hn). rewrite E2. cbn [mbind outcome_bind].
  exists (mkNode pi bs topics :: nodes). split; [done|]. constructor; [|done]. cbn [n_peer Tombstones Topics].
  split_and!; [done|done|]. intros t. unfold topics, Keys. rewrite list_elem_of_fmap.
  destruct (LookupRegistrations_spec i db) as [_ Hr]. split.
  - intros (k & -> & Hk). apply elem_of_Filter in Hk as [Hk Hm]. apply Hr in Hk.
    apply IsMatch_spec in Hm as (A1 & _ & [?|A2]); [done|]. destruct k; cbn in *; by subst.
  - intros Ht. exists (topic_key t). split; [done|]. apply elem_of_Filter. split; [by apply Hr|].
    apply IsMatch_spec. cbn. auto.
Qed.

(** *** Deletion *)

Lemma doDeleteTopic_spec req t db : db_ok db -> topic_arg req = Ret (inl t) ->
  exists db', doDeleteTopic req db = Ret (db', None) /\ db_ok db' /\
    (forall k, has_key db' k <-> has_key db k /\
       ~ (IsMatch k "channel" t "*" = true \/ IsMatch k "topic" t "" = true)) /\
    (forall k i, registered db' k i <-> registered db k i /\
       ~ (IsMatch k "channel" t "*" = true \/ IsMatch k "topic" t "" = true)).
Proof.
  intros Hok Hreq. unfold doDeleteTopic. rewrite Hreq. cbn [mbind outcome_bind].
  destruct (FindRegistrations_spec "channel" t "*" db) as [_ Hf]. set (rs := FindRegistrations "channel" t "*" db) in *.
  destruct (remove_registrations_spec rs db Hok) as (Hok1 & _ & Hk1 & Hr1). set (db1 := remove_registrations rs db) in *.
  destruct (FindRegistrations_spec "topic" t "" db1) as [_ Hf1]. set (rs1 := FindRegistrations "topic" t "" db1) in *.
  destruct (remove_registrations_spec rs1 db1 Hok1) as (Hok2 & _ & Hk2 & Hr2).
  assert (Hkey : forall d k i, registered d k i -> has_key d k) by (intros d k i (ps & Hps & _); by exists ps).
  eexists. split; [reflexivity|]. split; [done|]. split.
  - intros k. rewrite Hk2, Hf1, Hk1, Hf. tauto.
  - intros k i. rewrite Hr2, Hf1, Hr1, Hf. pose proof (Hkey db1 k i) as X. pose proof (Hkey db k i) as Y.
    rewrite Hr1, Hf in X. tauto.
Qed.

(** ** Properties *)

(** C32: nsqlookupd keeps its registry consistent.  Over any sequence of connections,
    commands (with any arguments, and IDENTIFY bodies of non-negative size),
    disconnections and HTTP requests, every handler returns without a panic; producers
    are filed under the id of their peer; an identified client's peer record carries its
    address; and no registration outlives its connection: each registered id is that of
    an identified client that is still connected. *)
Theorem lookupd_invariant (es : list event) :
  Forall event_ok es -> exists s, run es init = Ret s /\ server_ok s.
Proof. apply run_server_ok, init_ok. Qed.

(** C33: REGISTER and UNREGISTER by an identified client with valid arguments succeed and
    change exactly the client's own registrations: REGISTER adds it under the topic and,
    if one is given, the channel; UNREGISTER removes it from the channel, or, without
    one, from the topic and all its channels; an ephemeral topic or channel disappears
    with its last producer and no other key ever does. *)
Theorem register_unregister client params db x t ch :
  db_ok db -> c_peerInfo client = Some x -> peer_is db x (RemoteAddr client) ->
  getTopicChan params = inl (t, ch) ->
  (exists db', REGISTER client params db = Ret (db', client, inl OK) /\ db_ok db' /\
     (forall k, has_key db' k <-> registers t ch k \/ has_key db k) /\
     (forall k i, registered db' k i <-> (registers t ch k /\ i = RemoteAddr client) \/ registered db k i)) /\
  (exists db', UNREGISTER client params db = Ret (db', client, inl OK) /\ db_ok db' /\
     (forall k i, registered db' k i <->
        registered db k i /\ ~ (unregisters t ch k /\ i = RemoteAddr client)) /\
     let (k0, name) := if bool_decide (ch = EmptyString) then (topic_key t, t) else (channel_key t ch, ch) in
     forall k, has_key db' k <-> has_key db k /\
       ~ (k = k0 /\ HasSuffix name ephemeral_suffix = true /\ forall i, ~ registered db' k0 i)).
Proof.
  intros Hok Hx Hp Hg. split.
  - destruct (REGISTER_spec client params db x t ch Hok Hx Hp Hg) as (db' & E1 & H1 & _ & H2 & H3). eauto 6.
  - destruct (UNREGISTER_spec client params db x t ch Hok Hx Hp Hg) as (db' & E1 & H1 & _ & H2 & H3). eauto 6.
Qed.

(** Lookups report the registry.  For a topic that is not the wildcard, doLookup
    answers 404 exactly when the topic is not registered, and otherwise returns each
    channel of the topic once and the peers of exactly the producers that are neither
    inactive nor tombstoned; doNodes returns, for each active client, its peer with
    exactly the topics it is registered under and a tombstone flag for each. *)
Theorem lookup_reports opts req t now db :
  db_ok db -> topic_arg req = Ret (inl t) -> t <> "*"%string ->
  (~ has_key db (topic_key t) -> doLookup opts req now db = Ret (inr (404, "TOPIC_NOT_FOUND"%string))) /\
  (has_key db (topic_key t) -> exists channels infos, doLookup opts req now db = Ret (inl (channels, infos)) /\
     NoDup channels /\ (forall ch, ch ∈ channels <-> has_key db (channel_key t ch)) /\
     exists ids, Forall2 (peer_is db) infos ids /\ NoDup ids /\
       forall i, i ∈ ids <-> exists ps p, registrationMap db !! topic_key t = Some ps /\ ps !! i = Some p /\
         active db (InactiveProducerTimeout opts) (TombstoneLifetime opts) now p) /\
  (exists nodes, doNodes opts now db = Ret nodes /\
     Forall (fun nd => length (Tombstones nd) = length (Topics nd) /\
       forall t, t ∈ Topics nd <-> registered db (topic_key t) (id (n_peer nd))) nodes).
Proof.
  intros Hok Hreq Ht. destruct (doLookup_spec opts req t now db Hok Hreq Ht) as [H1 H2]. split; [done|]. split; [done|].
  unfold doNodes. destruct (FindProducers_spec "client" "" "" db Hok) as (l & ids & E1 & Hl). rewrite E1. cbn [mbind outcome_bind].
  destruct (FilterByActive_spec l (InactiveProducerTimeout opts) 0 now db ids) as (l2 & E2 & Hs & _); [by destruct Hl|].
  rewrite E2. cbn [mbind outcome_bind]. destruct (Forall2_sublist _ l l2 ids (fs_ids _ _ _ _ _ _ Hl) Hs) as (ids2 & Hi2 & _).
  destruct (nodes_loop_ok (TombstoneLifetime opts) now l2 ids2 ∅ db Hok) as (nodes & E3 & Hn); [|done|].
  { intros t' tps Hc. by apply lookup_empty_Some in Hc. }
  exists nodes. split; [done|]. clear -Hn. induction Hn as [|nd i nodes ids (<- & H1 & H2) _ IH]; constructor; auto.
Qed.

(** Deleting a topic removes exactly the topic and its channels with their
    producers.  The topic name is not validated: for the name "*" every topic and every
    channel is removed. *)
Theorem delete_topic req t db :
  db_ok db -> topic_arg req = Ret (inl t) ->
  exists db', doDeleteTopic req db = Ret (db', None) /\ db_ok db' /\
    (t <> "*"%string -> forall k i, registered db' k i <-> registered db k i /\
       ~ (k = topic_key t \/ (Category k = "channel"%string /\ Key k = t))) /\
    (t = "*"%string -> forall k, has_key db' k <-> has_key db k /\
       ~ (Category k = "channel"%string \/ (Category k = "topic"%string /\ SubKey k = EmptyString))).
Proof.
  intros Hok Hreq. destruct (doDeleteTopic_spec req t db Hok Hreq) as (db' & E1 & H1 & H2 & H3).
  exists db'. split; [done|]. split; [done|]. split.
  - intros Ht k i. rewrite H3, topic_key_match by done. setoid_rewrite IsMatch_spec. split; intros [Hr Hn]; (split; [done|]).
    + intros [?|[Hc Hk]]; apply Hn; [by right|left; auto].
    + intros [(Hc & [?|Hk] & _)|?]; [done|apply Hn; auto..].
  - intros -> k. rewrite H2, !IsMatch_spec. split; intros [Hr Hn]; (split; [done|]).
    + intros [Hc|[Hc Hs]]; apply Hn; [left|right]; auto.
    + intros [(Hc & _)|(Hc & _ & [?|Hs])]; [apply Hn; auto|done|apply Hn; auto].
Qed.

(** A negative body size in IDENTIFY brings the daemon down. *)
Lemma identify_negative_panics client reader now db :
  c_peerInfo client = None -> (4 <= length reader)%nat -> swrap 32 (be_get (take 4 reader)) < 0 ->
  IDENTIFY client reader now db = Panic.
Proof.
  intros Hc Hl Hn. unfold IDENTIFY. rewrite Hc. destruct (Nat.ltb_spec (length reader) 4); [lia|].
  by destruct (Z.ltb_spec (swrap 32 (be_get (take 4 reader))) 0); [|lia].
Qed.

End lookupd.

(** ** Witnesses *)

Definition some_fields (_ : list Z) : option PeerFields :=
  Some (mkFields None (Some "h"%string) (Some "b"%string) (Some 4150) (Some 4151) (Some "1.0"%string)).

(** A producer connects, identifies itself, registers a topic and a channel, and leaves. *)
Definition visit : list event :=
  [EConnect 1 "1.2.3.4:5"; ECommand 1 [0; 0; 0; 0] 10 ["IDENTIFY"%string];
   ECommand 1 [] 11 ["REGISTER"%string; "t"%string; "c"%string]; EClose 1].

Lemma lookupd_invariant_witness : exists s, run some_fields visit init = Ret s /\ server_ok s.
Proof.
  apply (lookupd_invariant some_fields visit). unfold visit. repeat (apply Forall_cons; split); [exact I| | |exact I|constructor].
  - split; [discriminate|]. right. vm_compute. discriminate.
  - split; [discriminate|]. left. cbn. lia.
Defined.

Example visit_registers : match run some_fields (take 3 visit) init with
  | Ret s => map (fun k => bool_decide (is_Some (registrationMap (DB s) !! k)))
               [topic_key "t"; channel_key "t" "c"; client_key; topic_key "u"]
  | _ => []
  end = [true; true; true; false].
Proof. vm_compute. reflexivity. Qed.

Definition visitor : ClientV1 := mkClient "1.2.3.4:5" (Some 7).

Lemma register_unregister_witness :
  exists db', UNREGISTER visitor ["t"%string] one_db = Ret (db', visitor, inl OK) /\
    forall k i, registered db' k i <-> registered one_db k i /\ ~ (unregisters "t" "" k /\ i = "1.2.3.4:5"%string).
Proof.
  destruct (register_unregister visitor ["t"%string] one_db 7 "t" "" one_db_ok eq_refl) as [_ (db' & E1 & _ & H & _)].
  - exists one_peer. split; vm_compute; reflexivity.
  - vm_compute. reflexivity.
  - exists db'. split; [exact E1|exact H].
Defined.

Definition topic_request (t : string) : request := Some {["topic"%string := [t]]}.

Lemma lookup_reports_witness :
  exists channels infos, doLookup (mkOptions 100 100) (topic_request "t") 5 one_db = Ret (inl (channels, infos)) /\
    NoDup channels.
Proof.
  destruct (lookup_reports (mkOptions 100 100) (topic_request "t") "t" 5 one_db one_db_ok) as (_ & H & _).
  - vm_compute. reflexivity.
  - discriminate.
  - destruct H as (channels & infos & E1 & Hn & _).
    + eexists. vm_compute. reflexivity.
    + exists channels, infos. split; [exact E1|exact Hn].
Defined.

Lemma delete_topic_witness :
  exists db', doDeleteTopic (topic_request "*") one_db = Ret (db', None) /\ ~ has_key db' (topic_key "t").
Proof.
  destruct (delete_topic (topic_request "*") "*" one_db one_db_ok) as (db' & E1 & _ & _ & H).
  - vm_compute. reflexivity.
  - exists db'. split; [exact E1|]. intros Hk. apply (H eq_refl) in Hk as [_ Hk]. apply Hk. right. split; reflexivity.
Defined.
