(* ===== verification/MatchBook.v ===== *)
(** matching_engine/matcher/pqueue: orders and their slab allocator, the interface of the
    match queues the matcher works with, and the reference queues.

    Orders are shared by pointer: [heap] maps pointers to orders.  The price and the guid
    of an order are set when it is filled in and do not change while it is queued, so a
    queue holds [entry] values, the pointer with these two keys.  fmath of the flib
    library, which packs the two ids of an order into its guid, is a parameter. *)

From Stdlib Require Import ZArith Lia.
From stdpp Require Import base numbers option list gmap sorting.
From S2P Require Import Prelude Msg.
#[local] Open Scope Z_scope.

Definition ptr := Z.

(** ** fmath *)

Class Fmath := {
  CombineInt32 : Z -> Z -> Z;
  HighInt32 : Z -> Z;
  LowInt32 : Z -> Z
}.

Definition int32 (z : Z) : Prop := - 2 ^ 31 <= z < 2 ^ 31.

(** The two halves of a combination are what was combined. *)
Class FmathSpec `{Fmath} : Prop := {
  combine_range : forall a b, int32 a -> int32 b -> - 2 ^ 63 <= CombineInt32 a b < 2 ^ 63;
  high_combine : forall a b, int32 a -> int32 b -> HighInt32 (CombineInt32 a b) = a;
  low_combine : forall a b, int32 a -> int32 b -> LowInt32 (CombineInt32 a b) = b
}.

(** ** Orders *)

Record OrderNode := mkOrder {
  o_price : Z;
  o_guid : Z;
  amount : Z;
  stockId : Z;
  kind : Z;
  nextFree : option ptr
}.

Definition zero_order : OrderNode := mkOrder 0 0 0 0 0 None.

Abbreviation heap := (gmap ptr OrderNode).

Definition get (p : ptr) (h : heap) : outcome unit OrderNode :=
  match h !! p with Some o => Ret o | None => Panic end.

Section order.
Context {FM : Fmath}.

Definition make_guid (traderId tradeId : Z) : Z :=
  u64 (CombineInt32 (swrap 32 traderId) (swrap 32 tradeId)).

Definition CopyFrom (from : Msg.Message) (o : OrderNode) : OrderNode :=
  mkOrder (Msg.Price from) (make_guid (Msg.TraderId from) (Msg.TradeId from)) (Msg.Amount from)
    (Msg.StockId from) (Msg.Kind from) (nextFree o).

Definition TraderId (o : OrderNode) : Z := u32 (HighInt32 (i64 (o_guid o))).

Definition TradeId (o : OrderNode) : Z := u32 (LowInt32 (i64 (o_guid o))).

Definition CopyTo (o : OrderNode) : Msg.Message :=
  Msg.mkMessage (kind o) (o_price o) (amount o) (stockId o) (TraderId o) (TradeId o).

Definition ReduceAmount (s : Z) (o : OrderNode) : OrderNode :=
  mkOrder (o_price o) (o_guid o) (u64 (amount o - s)) (stockId o) (kind o) (nextFree o).

End order.

(** ** The slab *)

Record Slab := mkSlab { free : option ptr; slab_orders : heap }.

Definition with_next (n : option ptr) (o : OrderNode) : OrderNode :=
  mkOrder (o_price o) (o_guid o) (amount o) (stockId o) (kind o) n.

Definition set_next (p : ptr) (n : option ptr) (h : heap) : heap :=
  match h !! p with
  | Some o => <[p := with_next n o]> h
  | None => h
  end.

(** NewSlab: the orders of the array are the pointers from 0, chained in order; an empty
    array has no first element. *)
Definition NewSlab (size : nat) : outcome unit Slab :=
  if (size =? 0)%nat then Panic
  else
    let node i := mkOrder 0 0 0 0 0 (if (S i <? size)%nat then Some (Z.of_nat (S i)) else None) in
    Ret (mkSlab (Some 0) (list_to_map ((fun i => (Z.of_nat i, node i)) <$> seq 0 size))).

Definition Malloc (s : Slab) : outcome unit (ptr * Slab) :=
  let '(p, h) := match free s with
                 | Some p => (p, slab_orders s)
                 | None => let p := fresh (dom (slab_orders s)) in (p, <[p := zero_order]> (slab_orders s))
                 end in
  o ← get p h;
  Ret (p, mkSlab (nextFree o) (set_next p (Some p) h)).

Definition Free (p : ptr) (s : Slab) : outcome unit Slab :=
  o ← get p (slab_orders s);
  if decide (nextFree o = Some p) then Ret (mkSlab (Some p) (set_next p (free s) (slab_orders s)))
  else Ret s.

(** The free list: the orders reached from [f] by nextFree. *)
Fixpoint chain (h : heap) (f : option ptr) (l : list ptr) : Prop :=
  match l with
  | [] => f = None
  | p :: l => f = Some p /\ exists o, h !! p = Some o /\ chain h (nextFree o) l
  end.

(** In use: allocated, marked, and not on the free list. *)
Definition in_use (h : heap) (p : ptr) : Prop := exists o, h !! p = Some o /\ nextFree o = Some p.

Record slab_ok (s : Slab) (l : list ptr) : Prop := {
  sl_chain : chain (slab_orders s) (free s) l;
  sl_nodup : NoDup l;
  sl_free : forall p, p ∈ l -> ~ in_use (slab_orders s) p
}.

Lemma chain_ext h h' f l : (forall p, p ∈ l -> nextFree <$> h !! p = nextFree <$> h' !! p) -> chain h f l -> chain h' f l.
Proof.
  revert f. induction l as [|p l IH]; intros f He; cbn [chain]; [done|]. intros (-> & o & Ho & Hc). split; [done|].
  pose proof (He p ltac:(left)) as Hp. rewrite Ho in Hp. destruct (h' !! p) as [o'|] eqn:Eo; [|done].
  cbn in Hp. injection Hp as Hn. exists o'. split; [done|]. rewrite <- Hn. apply IH; [|done]. intros q Hq. apply He. by right.
Qed.

Lemma set_next_lookup p n h q : set_next p n h !! q =
  if decide (p = q) then with_next n <$> h !! q else h !! q.
Proof.
  unfold set_next. destruct (decide (p = q)) as [<-|Hne].
  - destruct (h !! p) as [o|] eqn:Eo; [by rewrite lookup_insert_eq|]. by rewrite Eo.
  - destruct (h !! p); [by rewrite lookup_insert_ne|done].
Qed.

(** A new order is in use and was not; the others stay as they were. *)
Lemma Malloc_spec s l : slab_ok s l ->
  exists p s' l', Malloc s = Ret (p, s') /\ slab_ok s' l' /\ ~ in_use (slab_orders s) p /\ in_use (slab_orders s') p /\
    (forall q, q <> p -> slab_orders s' !! q = slab_orders s !! q).
Proof.
  intros [Hc Hn Hf]. unfold Malloc. destruct (free s) as [p|] eqn:Ef.
  - destruct l as [|p' l]; cbn [chain] in Hc; [done|]. destruct Hc as ([= <-] & o & Ho & Hc). unfold get. rewrite Ho.
    cbn [mbind outcome_bind]. apply NoDup_cons in Hn as [Hp Hn].
    assert (Hl : forall q, q <> p -> set_next p (Some p) (slab_orders s) !! q = slab_orders s !! q).
    { intros q Hq. rewrite set_next_lookup. by rewrite decide_False. }
    assert (Hu : forall q, q <> p -> in_use (set_next p (Some p) (slab_orders s)) q -> in_use (slab_orders s) q).
    { intros q Hq. unfold in_use. by rewrite Hl. }
    eexists p, _, l. split; [reflexivity|]. cbn [slab_orders free]. split_and!; [split| | |done]; cbn [slab_orders free].
    + eapply chain_ext; [|exact Hc]. intros q Hq. rewrite Hl; [done|]. by intros ->.
    + done.
    + intros q Hq Huse. assert (q <> p) by (by intros ->). apply (Hf q); [by right|]. by apply Hu.
    + apply Hf. by left.
    + unfold in_use. rewrite set_next_lookup, decide_True, Ho by done. eexists. split; [done|done].
  - destruct l as [|p' l]; [|by destruct Hc]. set (p := fresh (dom (slab_orders s))).
    assert (Hp : slab_orders s !! p = None) by (apply not_elem_of_dom, is_fresh).
    unfold get. rewrite lookup_insert_eq. cbn [mbind outcome_bind].
    eexists p, _, []. split; [reflexivity|]. cbn [slab_orders free]. split_and!; [split| | |]; cbn [slab_orders free].
    + done.
    + constructor.
    + intros q Hq. by apply elem_of_nil in Hq.
    + intros (o & Ho & _). by rewrite Hp in Ho.
    + unfold in_use. rewrite set_next_lookup, decide_True, lookup_insert_eq by done. eexists. split; done.
    + intros q Hq. rewrite set_next_lookup, decide_False, lookup_insert_ne; done.
Qed.

Lemma Free_spec s l p o : slab_ok s l -> slab_orders s !! p = Some o -> nextFree o = Some p ->
  exists s' n, Free p s = Ret s' /\ slab_ok s' (p :: l) /\ slab_orders s' !! p = Some (with_next n o) /\
    (forall q, q <> p -> slab_orders s' !! q = slab_orders s !! q).
Proof.
  intros [Hc Hn Hf] Ho Hno. assert (Hu : in_use (slab_orders s) p) by (by exists o). unfold Free, get. rewrite Ho. cbn [mbind outcome_bind].
  rewrite decide_True by done. assert (Hp : p ∉ l) by (intros Hp; by apply (Hf p)).
  assert (Hl : forall q, q <> p -> set_next p (free s) (slab_orders s) !! q = slab_orders s !! q).
  { intros q Hq. rewrite set_next_lookup. by rewrite decide_False. }
  assert (Hnp : ~ in_use (set_next p (free s) (slab_orders s)) p).
  { intros (o' & Ho' & Hn'). rewrite set_next_lookup, decide_True, Ho in Ho' by done. injection Ho' as <-. cbn in Hn'.
    destruct l as [|p' l]; cbn [chain] in Hc; [congruence|]. destruct Hc as [Hc _]. rewrite Hc in Hn'. injection Hn' as ->.
    apply Hp. by left. }
  eexists _, (free s). split; [reflexivity|]. cbn [slab_orders free].
  split; [|split; [by rewrite set_next_lookup, decide_True, Ho by done|done]].
  split; cbn [slab_orders free].
  - split; [done|]. rewrite set_next_lookup, decide_True, Ho by done. eexists. split; [done|]. cbn [nextFree].
    eapply chain_ext; [|exact Hc]. intros q Hq. rewrite Hl; [done|]. by intros ->.
  - by apply NoDup_cons.
  - intros q Hq Huse. apply elem_of_cons in Hq as [->|Hq]; [done|]. assert (q <> p) by (by intros ->).
    apply (Hf q Hq). unfold in_use in *. by rewrite Hl in Huse.
Qed.

Lemma chain_seq h k : forall i, (0 < k)%nat ->
  (forall j, (i <= j < i + k)%nat -> exists o, h !! Z.of_nat j = Some o /\
     nextFree o = if (S j <? i + k)%nat then Some (Z.of_nat (S j)) else None) ->
  chain h (Some (Z.of_nat i)) (Z.of_nat <$> seq i k).
Proof.
  induction k as [|k IH]; intros i Hk Hj; [lia|]. cbn [seq fmap list_fmap chain]. split; [done|].
  destruct (Hj i ltac:(lia)) as (o & Ho & Hn). exists o. split; [done|]. rewrite Hn.
  destruct (Nat.ltb_spec (S i) (i + S k)).
  - apply IH; [lia|]. intros j Hj'. destruct (Hj j ltac:(lia)) as (o' & Ho' & Hn'). exists o'. split; [done|].
    rewrite Hn'. by replace (S i + k)%nat with (i + S k)%nat by lia.
  - assert (k = 0%nat) as -> by lia. done.
Qed.

Lemma NewSlab_spec size : (0 < size)%nat ->
  exists s, NewSlab size = Ret s /\ slab_ok s (Z.of_nat <$> seq 0 size).
Proof.
  intros Hs. unfold NewSlab. destruct (Nat.eqb_spec size 0); [lia|].
  set (node := fun i => mkOrder 0 0 0 0 0 (if (S i <? size)%nat then Some (Z.of_nat (S i)) else None)).
  set (h := list_to_map ((fun i => (Z.of_nat i, node i)) <$> seq 0 size) : heap).
  assert (Hh : forall j, (j < size)%nat -> h !! Z.of_nat j = Some (node j)).
  { intros j Hj. unfold h. apply elem_of_list_to_map.
    - rewrite <- list_fmap_compose. apply NoDup_fmap_2_strong; [|apply NoDup_seq]. intros a b _ _. cbn. lia.
    - apply list_elem_of_fmap. exists j. split; [done|]. apply elem_of_seq. lia. }
  eexists. split; [reflexivity|]. split; cbn [slab_orders free].
  - apply (chain_seq h size 0); [done|]. intros j Hj. exists (node j). split; [apply Hh; lia|done].
  - apply NoDup_fmap_2_strong; [|apply NoDup_seq]. intros a b _ _. lia.
  - intros p Hp (o & Ho & Hn). apply list_elem_of_fmap in Hp as (j & -> & Hj). apply elem_of_seq in Hj.
    change (h !! Z.of_nat j = Some o) in Ho. rewrite Hh in Ho by lia. injection Ho as <-. unfold node in Hn.
    cbn [nextFree] in Hn. destruct (S j <? size)%nat; [|done]. injection Hn as Hn. lia.
Qed.

(** ** Match queues *)

(** A queued order: its pointer and the keys it is queued under. *)
Record entry := mkEntry { e_ptr : ptr; e_price : Z; e_guid : Z }.

#[export] Instance entry_eq_dec : EqDecision entry.
Proof. solve_decision. Defined.

(** The operations of MatchQueues the matcher uses; Remove is OrderNode.Remove. *)
Class MatchQueues (Q : Type) := {
  newQueues : Q;
  PushBuy : entry -> Q -> outcome unit Q;
  PushSell : entry -> Q -> outcome unit Q;
  PeekBuy : Q -> option entry;
  PeekSell : Q -> option entry;
  Remove : entry -> Q -> outcome unit Q;
  Cancel : Z -> Q -> outcome unit (option entry * Q)
}.

(** Where a new order goes: behind all orders of a better or equal price. *)
Fixpoint insert_sell (e : entry) (l : list entry) : list entry :=
  match l with
  | [] => [e]
  | x :: l' => if e_price x <=? e_price e then x :: insert_sell e l' else e :: l
  end.

Fixpoint insert_buy (e : entry) (l : list entry) : list entry :=
  match l with
  | [] => [e]
  | x :: l' => if e_price e <=? e_price x then x :: insert_buy e l' else e :: l
  end.

(** [l'] is [l] without one occurrence of [e]. *)
Definition removed {A} (e : A) (l l' : list A) : Prop :=
  exists l1 l2, l = l1 ++ e :: l2 /\ l' = l1 ++ l2.

Lemma removed_fmap {A B} (f : A -> B) x l l' : removed x l l' -> removed (f x) (f <$> l) (f <$> l').
Proof. intros (l1 & l2 & -> & ->). exists (f <$> l1), (f <$> l2). by rewrite !fmap_app. Qed.

Lemma removed_perm {A} (x : A) l l' : removed x l l' -> l ≡ₚ x :: l'.
Proof. intros (l1 & l2 & -> & ->). by rewrite Permutation_middle. Qed.

Lemma removed_nodup (e : entry) l l' : removed e l l' -> NoDup (e_ptr <$> l) -> NoDup (e_ptr <$> l') /\
  forall x, x ∈ l' -> e_ptr x <> e_ptr e.
Proof.
  intros Hr%removed_perm Hn. rewrite Hr in Hn. cbn in Hn. apply NoDup_cons in Hn as [He Hn]. split; [done|].
  intros x Hx Heq. apply He. rewrite <- Heq. by apply list_elem_of_fmap_2.
Qed.

Lemma insert_buy_perm e l : insert_buy e l ≡ₚ e :: l.
Proof. induction l as [|x l IH]; cbn [insert_buy]; [done|]. destruct (_ <=? _); [|done]. rewrite IH. apply Permutation_swap. Qed.

Lemma insert_sell_perm e l : insert_sell e l ≡ₚ e :: l.
Proof. induction l as [|x l IH]; cbn [insert_sell]; [done|]. destruct (_ <=? _); [|done]. rewrite IH. apply Permutation_swap. Qed.

(** What the matcher relies on: two lists in order of priority. *)
Class MatchQueuesSpec (Q : Type) `{!MatchQueues Q} := {
  buys : Q -> list entry;
  sells : Q -> list entry;
  q_ok : Q -> Prop;
  fits : Z -> Prop;
  new_ok : q_ok newQueues /\ buys newQueues = [] /\ sells newQueues = [];
  PushBuy_ok : forall e q, q_ok q -> fits (e_price e) -> (forall x, x ∈ buys q ++ sells q -> e_ptr x <> e_ptr e) ->
    exists q', PushBuy e q = Ret q' /\ q_ok q' /\ buys q' = insert_buy e (buys q) /\ sells q' = sells q;
  PushSell_ok : forall e q, q_ok q -> fits (e_price e) -> (forall x, x ∈ buys q ++ sells q -> e_ptr x <> e_ptr e) ->
    exists q', PushSell e q = Ret q' /\ q_ok q' /\ sells q' = insert_sell e (sells q) /\ buys q' = buys q;
  PeekBuy_ok : forall q, q_ok q -> PeekBuy q = head (buys q);
  PeekSell_ok : forall q, q_ok q -> PeekSell q = head (sells q);
  Remove_buy_ok : forall e l q, q_ok q -> buys q = e :: l -> e ∉ sells q ->
    exists q', Remove e q = Ret q' /\ q_ok q' /\ buys q' = l /\ sells q' = sells q;
  Remove_sell_ok : forall e l q, q_ok q -> sells q = e :: l -> e ∉ buys q ->
    exists q', Remove e q = Ret q' /\ q_ok q' /\ sells q' = l /\ buys q' = buys q;
  Cancel_ok : forall g q, q_ok q -> exists r q', Cancel g q = Ret (r, q') /\ q_ok q' /\
    match r with
    | None => buys q' = buys q /\ sells q' = sells q /\ forall e, e ∈ buys q ++ sells q -> e_guid e <> g
    | Some e => e_guid e = g /\
        ((removed e (buys q) (buys q') /\ sells q' = sells q) \/
         (removed e (sells q) (sells q') /\ buys q' = buys q))
    end
}.

(** ** The reference queues *)

Record pqueue := mkPq { prios : list (list entry); lowPrice : Z; highPrice : Z }.

(** mkPrioq; a length that is no int makes make panic. *)
Definition mkPrioq (low high : Z) : outcome unit pqueue :=
  let n := u64 (u64 (high - low) + 1) in
  if 2 ^ 63 <=? n then Panic else Ret (mkPq (replicate (Z.to_nat n) []) low high).

Definition push (o : entry) (q : pqueue) : outcome unit pqueue :=
  let idx := Z.to_nat (u64 (e_price o - lowPrice q)) in
  match prios q !! idx with
  | None => Panic
  | Some prio => Ret (mkPq (<[idx := prio ++ [o]]> (prios q)) (lowPrice q) (highPrice q))
  end.

(** The loops from the last index down and from the first up to a non-empty row. *)
Fixpoint last_nonempty (rows : list (list entry)) (n : nat) : option nat :=
  match n with
  | O => None
  | S i => match rows !! i with Some (_ :: _) => Some i | _ => last_nonempty rows i end
  end.

Fixpoint first_nonempty (rows : list (list entry)) (i : nat) : option nat :=
  match rows with
  | [] => None
  | row :: rows => match row with _ :: _ => Some i | [] => first_nonempty rows (S i) end
  end.

Definition peek_row (i : option nat) (q : pqueue) : option entry :=
  match i with Some i => head (default [] (prios q !! i)) | None => None end.

Definition peekMax (q : pqueue) : option entry := peek_row (last_nonempty (prios q) (length (prios q))) q.

Definition peekMin (q : pqueue) : option entry := peek_row (first_nonempty (prios q) 0) q.

Definition pop (i : nat) (q : pqueue) : outcome unit (entry * pqueue) :=
  match prios q !! i with
  | Some (o :: prio) => Ret (o, mkPq (<[i := prio]> (prios q)) (lowPrice q) (highPrice q))
  | _ => Panic
  end.

Definition pop_row (i : option nat) (q : pqueue) : outcome unit (option entry * pqueue) :=
  match i with Some i => '(o, q) ← pop i q; Ret (Some o, q) | None => Ret (None, q) end.

Definition popMax (q : pqueue) : outcome unit (option entry * pqueue) :=
  pop_row (last_nonempty (prios q) (length (prios q))) q.

Definition popMin (q : pqueue) : outcome unit (option entry * pqueue) :=
  pop_row (first_nonempty (prios q) 0) q.

(** The loops of cancel over a row and over the rows. *)
Fixpoint cancel_row (guid : Z) (priceQ : list entry) : option (entry * list entry) :=
  match priceQ with
  | [] => None
  | o :: priceQ =>
      if e_guid o =? guid then Some (o, priceQ)
      else match cancel_row guid priceQ with Some (r, rest) => Some (r, o :: rest) | None => None end
  end.

Fixpoint cancel_rows (guid : Z) (rows : list (list entry)) : option (entry * list (list entry)) :=
  match rows with
  | [] => None
  | row :: rows =>
      match cancel_row guid row with
      | Some (r, row) => Some (r, row :: rows)
      | None => match cancel_rows guid rows with Some (r, rows) => Some (r, row :: rows) | None => None end
      end
  end.

Definition cancel (guid : Z) (q : pqueue) : option entry * pqueue :=
  match cancel_rows guid (prios q) with
  | Some (o, rows) => (Some o, mkPq rows (lowPrice q) (highPrice q))
  | None => (None, q)
  end.

Record RefMatchQueues := mkRef { ref_buys : pqueue; ref_sells : pqueue; size : Z }.

Definition NewRefMatchQueues (low high : Z) : outcome unit RefMatchQueues :=
  b ← mkPrioq low high; s ← mkPrioq low high; Ret (mkRef b s 0).

Definition ref_PushBuy (b : entry) (m : RefMatchQueues) : outcome unit RefMatchQueues :=
  q ← push b (ref_buys m); Ret (mkRef q (ref_sells m) (i64 (size m + 1))).

Definition ref_PushSell (s : entry) (m : RefMatchQueues) : outcome unit RefMatchQueues :=
  q ← push s (ref_sells m); Ret (mkRef (ref_buys m) q (i64 (size m + 1))).

Definition ref_PeekBuy (m : RefMatchQueues) : option entry := peekMax (ref_buys m).

Definition ref_PeekSell (m : RefMatchQueues) : option entry := peekMin (ref_sells m).

Definition ref_PopBuy (m : RefMatchQueues) : outcome unit (option entry * RefMatchQueues) :=
  '(o, q) ← popMax (ref_buys m); Ret (o, mkRef q (ref_sells m) (i64 (size m - 1))).

Definition ref_PopSell (m : RefMatchQueues) : outcome unit (option entry * RefMatchQueues) :=
  '(o, q) ← popMin (ref_sells m); Ret (o, mkRef (ref_buys m) q (i64 (size m - 1))).

Definition ref_Cancel (guid : Z) (m : RefMatchQueues) : option entry * RefMatchQueues :=
  let '(c, q) := cancel guid (ref_buys m) in
  match c with
  | Some c => (Some c, mkRef q (ref_sells m) (i64 (size m - 1)))
  | None =>
      let '(c, q) := cancel guid (ref_sells m) in
      match c with
      | Some c => (Some c, mkRef (ref_buys m) q (i64 (size m - 1)))
      | None => (None, m)
      end
  end.

(** ** The reference queues implement the interface *)

Lemma insert_sell_app e l1 l2 : Forall (fun x => e_price x <= e_price e) l1 -> Forall (fun x => e_price e < e_price x) l2 ->
  insert_sell e (l1 ++ l2) = l1 ++ e :: l2.
Proof.
  induction 1 as [|x l1 Hx _ IH]; intros H2; cbn [app insert_sell].
  - destruct l2 as [|y l2]; [done|]. apply Forall_cons in H2 as [Hy _]. cbn [insert_sell].
    by destruct (Z.leb_spec (e_price y) (e_price e)); [lia|].
  - destruct (Z.leb_spec (e_price x) (e_price e)); [|lia]. by rewrite IH.
Qed.

Lemma insert_buy_app e l1 l2 : Forall (fun x => e_price e <= e_price x) l1 -> Forall (fun x => e_price x < e_price e) l2 ->
  insert_buy e (l1 ++ l2) = l1 ++ e :: l2.
Proof.
  induction 1 as [|x l1 Hx _ IH]; intros H2; cbn [app insert_buy].
  - destruct l2 as [|y l2]; [done|]. apply Forall_cons in H2 as [Hy _]. cbn [insert_buy].
    by destruct (Z.leb_spec (e_price e) (e_price y)); [lia|].
  - destruct (Z.leb_spec (e_price e) (e_price x)); [|lia]. by rewrite IH.
Qed.

Section reference.
Context (low high : Z) (Hrange : 0 <= low <= high /\ high < 2 ^ 63 - 1).

Record pq_wf (q : pqueue) : Prop := {
  pw_low : lowPrice q = low;
  pw_high : highPrice q = high;
  pw_len : length (prios q) = Z.to_nat (high - low + 1);
  pw_price : forall i row e, prios q !! i = Some row -> e ∈ row -> e_price e = low + Z.of_nat i
}.

Definition asc (q : pqueue) : list entry := concat (prios q).
Definition desc (q : pqueue) : list entry := concat (reverse (prios q)).

Lemma mkPrioq_spec : exists q, mkPrioq low high = Ret q /\ pq_wf q /\ asc q = [] /\ desc q = [].
Proof.
  unfold mkPrioq. rewrite (wrap_id 64 (high - low)) by lia. rewrite wrap_id by lia.
  destruct (Z.leb_spec (2 ^ 63) (high - low + 1)); [lia|]. eexists. split; [reflexivity|].
  assert (Hnil : forall n, concat (replicate n (@nil entry)) = []) by (induction n; done).
  split; [split; cbn [lowPrice highPrice prios]|].
  - done.
  - done.
  - apply length_replicate.
  - intros i row e Hi He. apply lookup_replicate in Hi as [-> _]. by apply elem_of_nil in He.
  - unfold asc, desc; cbn [prios]. rewrite reverse_replicate. auto.
Qed.

(** Replace a row: what is before it, the row, and what is after. *)
Lemma rows_split q i row : prios q !! i = Some row ->
  asc q = concat (take i (prios q)) ++ row ++ concat (drop (S i) (prios q)) /\
  desc q = concat (reverse (drop (S i) (prios q))) ++ row ++ concat (reverse (take i (prios q))).
Proof.
  intros Hi. unfold asc, desc. split.
  - rewrite <- (take_drop_middle _ _ _ Hi) at 1. by rewrite concat_app.
  - rewrite <- (take_drop_middle _ _ _ Hi) at 1. rewrite reverse_app, reverse_cons, !concat_app. cbn [concat]. by rewrite app_nil_r, <- app_assoc.
Qed.

Lemma rows_insert q i row row' : prios q !! i = Some row ->
  let q' := mkPq (<[i := row']> (prios q)) (lowPrice q) (highPrice q) in
  asc q' = concat (take i (prios q)) ++ row' ++ concat (drop (S i) (prios q)) /\
  desc q' = concat (reverse (drop (S i) (prios q))) ++ row' ++ concat (reverse (take i (prios q))).
Proof.
  intros Hi. pose proof (lookup_lt_Some _ _ _ Hi) as Hl.
  destruct (rows_split (mkPq (<[i := row']> (prios q)) (lowPrice q) (highPrice q)) i row') as [H1 H2];
    [cbn [prios]; by apply list_lookup_insert_eq|].
  cbn [prios] in *. rewrite take_insert_ge, drop_insert_lt in H1, H2 by lia. done.
Qed.

Lemma rows_prices q i : pq_wf q ->
  Forall (fun e => e_price e < low + Z.of_nat i) (concat (take i (prios q))) /\
  Forall (fun e => low + Z.of_nat i < e_price e) (concat (drop (S i) (prios q))).
Proof.
  intros Hq. split; apply Forall_concat, Forall_forall; intros row Hr; apply Forall_forall; intros e He;
    apply list_elem_of_lookup in Hr as [j Hj].
  - apply lookup_take_Some in Hj as [Hj Hlt]. rewrite (pw_price q Hq j row e Hj He). lia.
  - rewrite lookup_drop in Hj. rewrite (pw_price q Hq _ row e Hj He). lia.
Qed.

Lemma Forall_concat_reverse {A} (P : A -> Prop) rows : Forall P (concat rows) -> Forall P (concat (reverse rows)).
Proof. rewrite !Forall_concat, Forall_reverse. done. Qed.

Lemma wf_insert q i row row' : pq_wf q -> prios q !! i = Some row -> (forall e, e ∈ row' -> e_price e = low + Z.of_nat i) ->
  pq_wf (mkPq (<[i := row']> (prios q)) (lowPrice q) (highPrice q)).
Proof.
  intros Hq Hi Hr. split; cbn [prios lowPrice highPrice]; [apply Hq|apply Hq|rewrite length_insert; apply Hq|].
  intros j r e Hj He. destruct (decide (i = j)) as [<-|Hne].
  - rewrite list_lookup_insert_eq in Hj by (by apply lookup_lt_Some in Hi). injection Hj as <-. by apply Hr.
  - rewrite list_lookup_insert_ne in Hj by done. by apply (pw_price q Hq j r).
Qed.

Lemma push_spec e q : pq_wf q -> low <= e_price e <= high ->
  exists q', push e q = Ret q' /\ pq_wf q' /\ asc q' = insert_sell e (asc q) /\ desc q' = insert_buy e (desc q).
Proof.
  intros Hq He. unfold push. rewrite (pw_low q Hq). rewrite wrap_id by lia. set (i := Z.to_nat (e_price e - low)).
  destruct (lookup_lt_is_Some_2 (prios q) i) as [row Hi]; [rewrite (pw_len q Hq); lia|]. rewrite Hi.
  assert (Hie : low + Z.of_nat i = e_price e) by lia.
  eexists. split; [reflexivity|]. rewrite <- (pw_low q Hq). split.
  { apply (wf_insert q i row); [done|done|]. intros x Hx. apply elem_of_app in Hx as [Hx|Hx].
    - by apply (pw_price q Hq i row).
    - apply list_elem_of_singleton in Hx as ->. done. }
  destruct (rows_split q i row Hi) as [-> ->]. destruct (rows_insert q i row (row ++ [e]) Hi) as [-> ->].
  destruct (rows_prices q i Hq) as [Hlt Hgt]. rewrite Hie in Hlt, Hgt.
  assert (Hrow : Forall (fun x => e_price x = e_price e) row).
  { apply Forall_forall. intros x Hx. rewrite <- Hie. by apply (pw_price q Hq i row). }
  split.
  - rewrite (app_assoc (concat (take i _)) row), insert_sell_app; [by rewrite <- !app_assoc| |done].
    apply Forall_app. split; [eapply Forall_impl; [exact Hlt|]; cbn; lia|eapply Forall_impl; [exact Hrow|]; cbn; lia].
  - rewrite (app_assoc (concat (reverse (drop _ _))) row), insert_buy_app.
    + by rewrite <- !app_assoc.
    + apply Forall_app. split; [|eapply Forall_impl; [exact Hrow|]; cbn; lia].
      apply Forall_concat_reverse. eapply Forall_impl; [exact Hgt|]. cbn. lia.
    + by apply Forall_concat_reverse.
Qed.

(** The row scans find the first non-empty row. *)
Lemma first_nonempty_spec rows : forall i,
  match first_nonempty rows i with
  | None => concat rows = []
  | Some j => exists e row, (i <= j)%nat /\ rows !! (j - i)%nat = Some (e :: row) /\ concat (take (j - i) rows) = []
  end.
Proof.
  induction rows as [|row rows IH]; intros i; cbn [first_nonempty]; [done|]. destruct row as [|e row].
  - specialize (IH (S i)). destruct (first_nonempty rows (S i)) as [j|]; [|done].
    destruct IH as (e & row & Hj & Hr & Hc). exists e, row. split; [lia|].
    replace (j - i)%nat with (S (j - S i)) by lia. done.
  - exists e, row. rewrite Nat.sub_diag. done.
Qed.

Lemma last_nonempty_spec rows n : (n <= length rows)%nat ->
  match last_nonempty rows n with
  | None => concat (take n rows) = []
  | Some j => exists e row, (j < n)%nat /\ rows !! j = Some (e :: row) /\ concat (drop (S j) (take n rows)) = []
  end.
Proof.
  induction n as [|n IH]; intros Hn; cbn [last_nonempty]; [done|].
  destruct (lookup_lt_is_Some_2 rows n ltac:(lia)) as [row Hr]. rewrite Hr. specialize (IH ltac:(lia)).
  destruct row as [|e row].
  - destruct (last_nonempty rows n) as [j|].
    + destruct IH as (e & row & Hj & Hrj & Hc). exists e, row. split; [lia|]. split; [done|].
      rewrite (take_S_r _ _ _ Hr), drop_app_le, concat_app, Hc by (rewrite length_take; lia). done.
    + rewrite (take_S_r _ _ _ Hr), concat_app, IH. done.
  - exists e, row. split; [lia|]. split; [done|]. rewrite drop_ge; [done|]. rewrite length_take. lia.
Qed.

Lemma concat_nil_reverse {A} (rows : list (list A)) : concat rows = [] -> concat (reverse rows) = [].
Proof.
  induction rows as [|row rows IH]; [done|]. cbn [concat]. intros [-> H]%app_nil.
  rewrite reverse_cons, concat_app, IH by done. done.
Qed.

Lemma peekMin_spec q : peekMin q = head (asc q).
Proof.
  unfold peekMin, peek_row, asc. pose proof (first_nonempty_spec (prios q) 0) as H.
  destruct (first_nonempty (prios q) 0) as [j|]; [|by rewrite H].
  destruct H as (e & row & _ & Hr & Hc). rewrite Nat.sub_0_r in Hr, Hc. rewrite Hr.
  rewrite <- (take_drop_middle _ _ _ Hr), concat_app, Hc. done.
Qed.

Lemma peekMax_spec q : peekMax q = head (desc q).
Proof.
  unfold peekMax, peek_row, desc. pose proof (last_nonempty_spec (prios q) (length (prios q)) (le_n _)) as H.
  rewrite take_ge in H by done.
  destruct (last_nonempty _ _) as [j|]; [|by rewrite (concat_nil_reverse _ H)].
  destruct H as (e & row & _ & Hr & Hc). rewrite Hr.
  rewrite <- (take_drop_middle _ _ _ Hr), reverse_app, reverse_cons, !concat_app, (concat_nil_reverse _ Hc). done.
Qed.

Lemma pop_spec q i e row : pq_wf q -> prios q !! i = Some (e :: row) ->
  exists q', pop i q = Ret (e, q') /\ pq_wf q' /\
    (concat (take i (prios q)) = [] -> asc q = e :: asc q') /\
    (concat (drop (S i) (prios q)) = [] -> desc q = e :: desc q').
Proof.
  intros Hq Hi. unfold pop. rewrite Hi. eexists. split; [reflexivity|]. split.
  { apply (wf_insert q i (e :: row)); [done|done|]. intros x Hx. apply (pw_price q Hq i (e :: row)); [done|by right]. }
  destruct (rows_split q i _ Hi) as [-> ->]. destruct (rows_insert q i _ row Hi) as [-> ->].
  split; intros Hn; [by rewrite Hn|by rewrite (concat_nil_reverse _ Hn)].
Qed.

Lemma popMin_spec q e l : pq_wf q -> asc q = e :: l ->
  exists q', popMin q = Ret (Some e, q') /\ pq_wf q' /\ asc q' = l.
Proof.
  intros Hq Ha. unfold popMin, pop_row. pose proof (first_nonempty_spec (prios q) 0) as H. unfold asc in Ha.
  destruct (first_nonempty (prios q) 0) as [j|]; [|by rewrite H in Ha].
  destruct H as (x & row & _ & Hr & Hc). rewrite Nat.sub_0_r in Hr, Hc.
  destruct (pop_spec q j x row Hq Hr) as (q' & E1 & Hq' & H1 & _). specialize (H1 Hc). rewrite E1. cbn [mbind outcome_bind].
  unfold asc in H1 at 1. rewrite Ha in H1. injection H1 as <- ->. by exists q'.
Qed.

Lemma popMax_spec q e l : pq_wf q -> desc q = e :: l ->
  exists q', popMax q = Ret (Some e, q') /\ pq_wf q' /\ desc q' = l.
Proof.
  intros Hq Ha. unfold popMax, pop_row. unfold desc in Ha.
  pose proof (last_nonempty_spec (prios q) (length (prios q)) (le_n _)) as H. rewrite take_ge in H by done.
  destruct (last_nonempty _ _) as [j|]; [|by rewrite (concat_nil_reverse _ H) in Ha].
  destruct H as (x & row & _ & Hr & Hc).
  destruct (pop_spec q j x row Hq Hr) as (q' & E1 & Hq' & _ & H1). specialize (H1 Hc). rewrite E1. cbn [mbind outcome_bind].
  unfold desc in H1 at 1. rewrite Ha in H1. injection H1 as <- ->. by exists q'.
Qed.

Lemma cancel_row_spec g row :
  match cancel_row g row with
  | None => forall e, e ∈ row -> e_guid e <> g
  | Some (e, row') => e_guid e = g /\ removed e row row'
  end.
Proof.
  induction row as [|x row IH]; cbn [cancel_row]; [intros e He; by apply elem_of_nil in He|].
  destruct (Z.eqb_spec (e_guid x) g) as [Hx|Hx]; [split; [done|by exists [], row]|].
  destruct (cancel_row g row) as [[e row']|].
  - destruct IH as [Hg (l1 & l2 & -> & ->)]. split; [done|by exists (x :: l1), l2].
  - intros e He. apply elem_of_cons in He as [->|He]; auto.
Qed.

Lemma cancel_rows_spec g rows :
  match cancel_rows g rows with
  | None => forall e, e ∈ concat rows -> e_guid e <> g
  | Some (e, rows') => e_guid e = g /\ exists i row row', rows !! i = Some row /\ rows' = <[i := row']> rows /\ removed e row row'
  end.
Proof.
  induction rows as [|row rows IH]; cbn [cancel_rows]; [intros e He; by apply elem_of_nil in He|].
  pose proof (cancel_row_spec g row) as Hr. destruct (cancel_row g row) as [[e row']|].
  - destruct Hr as [Hg Hr]. split; [done|]. by exists 0%nat, row, row'.
  - destruct (cancel_rows g rows) as [[e rows']|].
    + destruct IH as [Hg (i & r & r' & Hi & -> & Hrm)]. split; [done|]. by exists (S i), r, r'.
    + intros e He. cbn [concat] in He. apply elem_of_app in He as [He|He]; auto.
Qed.

Lemma removed_app (e : entry) l l' a b : removed e l l' -> removed e (a ++ l ++ b) (a ++ l' ++ b).
Proof. intros (l1 & l2 & -> & ->). exists (a ++ l1), (l2 ++ b). by rewrite <- !app_assoc. Qed.

Lemma elem_of_concat_reverse {A} (x : A) rows : x ∈ concat (reverse rows) <-> x ∈ concat rows.
Proof.
  induction rows as [|row rows IH]; [done|].
  rewrite reverse_cons, concat_app. cbn [concat]. rewrite app_nil_r, !elem_of_app, IH. tauto.
Qed.

Lemma cancel_spec g q : pq_wf q ->
  let '(r, q') := cancel g q in
  pq_wf q' /\
  match r with
  | None => q' = q /\ forall e, (e ∈ asc q -> e_guid e <> g) /\ (e ∈ desc q -> e_guid e <> g)
  | Some e => e_guid e = g /\ removed e (asc q) (asc q') /\ removed e (desc q) (desc q')
  end.
Proof.
  intros Hq. unfold cancel. pose proof (cancel_rows_spec g (prios q)) as H.
  destruct (cancel_rows g (prios q)) as [[e rows']|].
  - destruct H as [Hg (i & row & row' & Hi & -> & Hr)]. split.
    { apply (wf_insert q i row); [done|done|]. intros x Hx. apply (pw_price q Hq i row); [done|].
      destruct Hr as (l1 & l2 & -> & ->). set_solver. }
    split; [done|]. destruct (rows_split q i row Hi) as [-> ->]. destruct (rows_insert q i row row' Hi) as [-> ->].
    split; by apply removed_app.
  - split; [done|]. split; [done|]. intros e. split; [apply H|]. unfold desc. rewrite elem_of_concat_reverse. apply H.
Qed.

Definition ref_ok (m : RefMatchQueues) : Prop := pq_wf (ref_buys m) /\ pq_wf (ref_sells m).

Lemma ref_PushBuy_ok e m : ref_ok m -> low <= e_price e <= high ->
  exists m', ref_PushBuy e m = Ret m' /\ ref_ok m' /\ desc (ref_buys m') = insert_buy e (desc (ref_buys m)) /\
    asc (ref_sells m') = asc (ref_sells m).
Proof.
  intros [Hb Hs] He. unfold ref_PushBuy. destruct (push_spec e _ Hb He) as (q & -> & Hq & _ & Hd).
  cbn [mbind outcome_bind]. eexists. split; [reflexivity|]. by split_and!.
Qed.

Lemma ref_PushSell_ok e m : ref_ok m -> low <= e_price e <= high ->
  exists m', ref_PushSell e m = Ret m' /\ ref_ok m' /\ asc (ref_sells m') = insert_sell e (asc (ref_sells m)) /\
    desc (ref_buys m') = desc (ref_buys m).
Proof.
  intros [Hb Hs] He. unfold ref_PushSell. destruct (push_spec e _ Hs He) as (q & -> & Hq & Ha & _).
  cbn [mbind outcome_bind]. eexists. split; [reflexivity|]. by split_and!.
Qed.

Lemma ref_Cancel_ok g m : ref_ok m -> exists r m', Ret (E := unit) (ref_Cancel g m) = Ret (r, m') /\ ref_ok m' /\
    match r with
    | None => desc (ref_buys m') = desc (ref_buys m) /\ asc (ref_sells m') = asc (ref_sells m) /\
        forall e, e ∈ desc (ref_buys m) ++ asc (ref_sells m) -> e_guid e <> g
    | Some e => e_guid e = g /\
        ((removed e (desc (ref_buys m)) (desc (ref_buys m')) /\ asc (ref_sells m') = asc (ref_sells m)) \/
         (removed e (asc (ref_sells m)) (asc (ref_sells m')) /\ desc (ref_buys m') = desc (ref_buys m)))
    end.
Proof.
  intros [Hb Hs]. unfold ref_Cancel. pose proof (cancel_spec g _ Hb) as H1. pose proof (cancel_spec g _ Hs) as H2.
  destruct (cancel g (ref_buys m)) as [[e|] q].
  - destruct H1 as (Hq & Hg & _ & Hr). eexists _, _. split; [reflexivity|]. split; [by split|]. split; [done|]. by left.
  - destruct (cancel g (ref_sells m)) as [[e|] q2].
    + destruct H2 as (Hq & Hg & Hr & _). eexists _, _. split; [reflexivity|]. split; [by split|]. split; [done|]. by right.
    + destruct H1 as (_ & _ & H1), H2 as (_ & _ & H2). eexists _, _. split; [reflexivity|]. split; [by split|].
      split_and!; [done|done|]. intros e He. apply elem_of_app in He as [He|He]; [exact (proj2 (H1 e) He)|exact (proj1 (H2 e) He)].
Qed.

End reference.
