(* ===== verification/Matcher.v ===== *)
(** matching_engine/matcher/matcher.go: the matcher, over any implementation of the match
    queues that satisfies their interface.

    A queue of [matchQueues] is read, changed and written back where the Go code changes
    it through its pointer.  The input and output queues are a message argument and the
    list [out] of what was written. *)

From Stdlib Require Import ZArith Lia.
From stdpp Require Import base numbers option list gmap sorting.
From S2P Require Import Prelude Msg MatchBook.
#[local] Open Scope Z_scope.

(** A call whose result is known. *)
Ltac run E := rewrite E; cbn [mbind outcome_bind].

Section matcher.
Context {FM : Fmath} {Q : Type} {MQ : MatchQueues Q}.

(** ** The matcher *)

Record M := mkM { matchQueues : gmap Z Q; slab : Slab; out : list Msg.Message }.

Definition NewMatcher (slabSize : nat) : outcome unit M :=
  s ← NewSlab slabSize; Ret (mkM ∅ s []).

Definition orders (m : M) : heap := slab_orders (slab m).

Definition set_slab (s : Slab) (m : M) : M := mkM (matchQueues m) s (out m).

Definition set_order (p : ptr) (o : OrderNode) (m : M) : M :=
  set_slab (mkSlab (free (slab m)) (<[p := o]> (orders m))) m.

Definition write (msg : Msg.Message) (m : M) : M := mkM (matchQueues m) (slab m) (out m ++ [msg]).

Definition free_order (p : ptr) (m : M) : outcome unit M := s ← Free p (slab m); Ret (set_slab s m).

Definition reduce (p : ptr) (a : Z) (m : M) : outcome unit M :=
  o ← get p (orders m); Ret (set_order p (ReduceAmount a o) m).

Definition entry_of (p : ptr) (o : OrderNode) : entry := mkEntry p (o_price o) (o_guid o).

Definition getMatchQueues (stockId : Z) (m : M) : Q * M :=
  match matchQueues m !! stockId with
  | Some q => (q, m)
  | None => (newQueues, mkM (<[stockId := newQueues]> (matchQueues m)) (slab m) (out m))
  end.

Definition put_queues (stockId : Z) (q : Q) (m : M) : M :=
  mkM (<[stockId := q]> (matchQueues m)) (slab m) (out m).

Definition price (bPrice sPrice : Z) : Z :=
  if sPrice =? Msg.MARKET_PRICE then bPrice
  else let d := u64 (bPrice - sPrice) in u64 (sPrice + d / 2).

Definition trade_msg (k price amt : Z) (o : OrderNode) : Msg.Message :=
  Msg.mkMessage k price amt (stockId o) (TraderId o) (TradeId o).

Definition completeTrade (brk srk : Z) (b s : ptr) (price amt : Z) (m : M) : outcome unit M :=
  bo ← get b (orders m);
  let m := write (trade_msg brk price amt bo) m in
  so ← get s (orders m);
  Ret (write (trade_msg srk price amt so) m).

Definition with_kind (k : Z) (m : Msg.Message) : Msg.Message :=
  Msg.mkMessage k (Msg.Price m) (Msg.Amount m) (Msg.StockId m) (Msg.TraderId m) (Msg.TradeId m).

Definition completeCancelled (c : ptr) (m : M) : outcome unit M :=
  o ← get c (orders m); Ret (write (with_kind Msg.CANCELLED (CopyTo o)) m).

Definition completeNotCancelled (nc : ptr) (m : M) : outcome unit M :=
  o ← get nc (orders m); Ret (write (with_kind Msg.NOT_CANCELLED (CopyTo o)) m).

(** The loops of fillableBuy and fillableSell: whether the order was used up, the queues
    and the matcher.  Removing the new order, which is in no queue, has no effect. *)
Fixpoint fillableBuy (fuel : nat) (b : ptr) (q : Q) (m : M) : outcome unit (bool * Q * M) :=
  match fuel with
  | O => Fail tt
  | S fuel =>
      match PeekSell q with
      | None => Ret (false, q, m)
      | Some se =>
          let s := e_ptr se in
          bo ← get b (orders m);
          so ← get s (orders m);
          if o_price so <=? o_price bo then
            let pr := price (o_price bo) (o_price so) in
            if amount so <? amount bo then
              let amt := amount so in
              q ← Remove se q;
              m ← free_order s m;
              m ← reduce b amt m;
              m ← completeTrade Msg.PARTIAL Msg.FULL b s pr amt m;
              fillableBuy fuel b q m
            else if amount bo <? amount so then
              let amt := amount bo in
              m ← reduce s amt m;
              m ← completeTrade Msg.FULL Msg.PARTIAL b s pr amt m;
              m ← free_order b m;
              Ret (true, q, m)
            else
              let amt := amount bo in
              m ← completeTrade Msg.FULL Msg.FULL b s pr amt m;
              q ← Remove se q;
              m ← free_order s m;
              m ← free_order b m;
              Ret (true, q, m)
          else Ret (false, q, m)
      end
  end.

Fixpoint fillableSell (fuel : nat) (s : ptr) (q : Q) (m : M) : outcome unit (bool * Q * M) :=
  match fuel with
  | O => Fail tt
  | S fuel =>
      match PeekBuy q with
      | None => Ret (false, q, m)
      | Some be =>
          let b := e_ptr be in
          bo ← get b (orders m);
          so ← get s (orders m);
          if o_price so <=? o_price bo then
            let pr := price (o_price bo) (o_price so) in
            if amount so <? amount bo then
              let amt := amount so in
              m ← reduce b amt m;
              m ← completeTrade Msg.PARTIAL Msg.FULL b s pr amt m;
              m ← free_order s m;
              Ret (true, q, m)
            else if amount bo <? amount so then
              let amt := amount bo in
              m ← reduce s amt m;
              m ← completeTrade Msg.FULL Msg.PARTIAL b s pr amt m;
              q ← Remove be q;
              m ← free_order b m;
              fillableSell fuel s q m
            else
              let amt := amount bo in
              m ← completeTrade Msg.FULL Msg.FULL b s pr amt m;
              q ← Remove be q;
              m ← free_order b m;
              m ← free_order s m;
              Ret (true, q, m)
          else Ret (false, q, m)
      end
  end.

Definition addBuy (fuel : nat) (b : ptr) (m : M) : outcome unit M :=
  bo ← get b (orders m);
  if o_price bo =? Msg.MARKET_PRICE then Panic
  else
    let '(q, m) := getMatchQueues (stockId bo) m in
    '(filled, q, m) ← fillableBuy fuel b q m;
    if filled : bool then Ret (put_queues (stockId bo) q m)
    else bo' ← get b (orders m); q ← PushBuy (entry_of b bo') q; Ret (put_queues (stockId bo) q m).

Definition addSell (fuel : nat) (s : ptr) (m : M) : outcome unit M :=
  so ← get s (orders m);
  let '(q, m) := getMatchQueues (stockId so) m in
  '(filled, q, m) ← fillableSell fuel s q m;
  if filled : bool then Ret (put_queues (stockId so) q m)
  else so' ← get s (orders m); q ← PushSell (entry_of s so') q; Ret (put_queues (stockId so) q m).

Definition cancel (o : ptr) (m : M) : outcome unit M :=
  oo ← get o (orders m);
  let '(q, m) := getMatchQueues (stockId oo) m in
  '(ro, q) ← Cancel (o_guid oo) q;
  let m := put_queues (stockId oo) q m in
  m ← match ro with
      | Some e => m ← completeCancelled (e_ptr e) m; free_order (e_ptr e) m
      | None => completeNotCancelled o m
      end;
  free_order o m.

Definition Submit (fuel : nat) (o : Msg.Message) (m : M) : outcome unit M :=
  '(on, s) ← Malloc (slab m);
  let m := set_slab s m in
  n ← get on (orders m);
  let m := set_order on (CopyFrom o n) m in
  if Msg.Kind o =? Msg.BUY then addBuy fuel on m
  else if Msg.Kind o =? Msg.SELL then addSell fuel on m
  else if Msg.Kind o =? Msg.CANCEL then cancel on m
  else Panic.

(** Run: submit messages until a shutdown, which is passed on. *)
Fixpoint Run (fuel : nat) (input : list Msg.Message) (m : M) : outcome unit M :=
  match input with
  | [] => Ret m
  | o :: input =>
      if Msg.Kind o =? Msg.SHUTDOWN then Ret (write o m)
      else m ← Submit fuel o m; Run fuel input m
  end.

(** ** The matching the code means to do *)

(** A resting order, and a trade between a buy and a sell. *)
Record rest := mkRest { r_price : Z; r_guid : Z; r_amount : Z }.

Record trade := mkTrade { t_bkind : Z; t_skind : Z; t_buy : Z; t_sell : Z; t_price : Z; t_amount : Z }.

Definition take_from (r : rest) (a : Z) : rest := mkRest (r_price r) (r_guid r) (r_amount r - a).

(** A buy of [a] at [bp] against the sells in priority order: the trades, what is left of
    the sells, and what is left of the buy, if anything is. *)
Fixpoint match_buy (bp bg a : Z) (ss : list rest) : list trade * list rest * option Z :=
  match ss with
  | [] => ([], [], Some a)
  | s :: ss' =>
      if r_price s <=? bp then
        let t bk sk amt := mkTrade bk sk bg (r_guid s) (price bp (r_price s)) amt in
        if r_amount s <? a then
          let '(ts, ss'', rem) := match_buy bp bg (a - r_amount s) ss' in
          (t Msg.PARTIAL Msg.FULL (r_amount s) :: ts, ss'', rem)
        else if a <? r_amount s then ([t Msg.FULL Msg.PARTIAL a], take_from s a :: ss', None)
        else ([t Msg.FULL Msg.FULL a], ss', None)
      else ([], ss, Some a)
  end.

Fixpoint match_sell (sp sg a : Z) (bs : list rest) : list trade * list rest * option Z :=
  match bs with
  | [] => ([], [], Some a)
  | b :: bs' =>
      if sp <=? r_price b then
        let t bk sk amt := mkTrade bk sk (r_guid b) sg (price (r_price b) sp) amt in
        if a <? r_amount b then ([t Msg.PARTIAL Msg.FULL a], take_from b a :: bs', None)
        else if r_amount b <? a then
          let '(ts, bs'', rem) := match_sell sp sg (a - r_amount b) bs' in
          (t Msg.FULL Msg.PARTIAL (r_amount b) :: ts, bs'', rem)
        else ([t Msg.FULL Msg.FULL a], bs', None)
      else ([], bs, Some a)
  end.
(** ** Queues and orders *)

Context {MS : MatchQueuesSpec Q}.

(** A queued order is in use, filed under its own keys, and of the stock and kind of its queue. *)
Definition resting (h : heap) (st k : Z) (e : entry) : Prop :=
  exists o, h !! e_ptr e = Some o /\ nextFree o = Some (e_ptr e) /\ e = entry_of (e_ptr e) o /\
    stockId o = st /\ kind o = k /\ 0 <= amount o < 2 ^ 64 /\ 0 <= o_price o < 2 ^ 64.

Record queue_ok (h : heap) (st : Z) (q : Q) : Prop := {
  qo_ok : q_ok q;
  qo_buys : forall e, e ∈ buys q -> resting h st Msg.BUY e;
  qo_sells : forall e, e ∈ sells q -> resting h st Msg.SELL e;
  qo_nodup : NoDup (e_ptr <$> buys q) /\ NoDup (e_ptr <$> sells q)
}.

Definition rest_of (h : heap) (e : entry) : rest :=
  mkRest (e_price e) (e_guid e) (match h !! e_ptr e with Some o => amount o | None => 0 end).

Definition tid (guid : Z) : Z := u32 (HighInt32 (i64 guid)).
Definition trid (guid : Z) : Z := u32 (LowInt32 (i64 guid)).

Definition trade_msgs (st : Z) (t : trade) : list Msg.Message :=
  [Msg.mkMessage (t_bkind t) (t_price t) (t_amount t) st (tid (t_buy t)) (trid (t_buy t));
   Msg.mkMessage (t_skind t) (t_price t) (t_amount t) st (tid (t_sell t)) (trid (t_sell t))].

Lemma resting_ext h h' st k e : h' !! e_ptr e = h !! e_ptr e -> resting h st k e -> resting h' st k e.
Proof. unfold resting. by intros ->. Qed.

Lemma rest_of_ext h h' (l : list entry) : (forall e, e ∈ l -> h' !! e_ptr e = h !! e_ptr e) -> rest_of h' <$> l = rest_of h <$> l.
Proof.
  intros He. apply list_fmap_ext. intros i e Hi. unfold rest_of. by rewrite He by (by eapply list_elem_of_lookup_2).
Qed.

Lemma queue_ok_ext h h' st q : (forall e, e ∈ buys q ++ sells q -> h' !! e_ptr e = h !! e_ptr e) ->
  queue_ok h st q -> queue_ok h' st q.
Proof.
  intros He [H1 H2 H3 H4]. split; [done| | |done]; intros e Hin;
    (apply (resting_ext h); [apply He, elem_of_app; auto|auto]).
Qed.

(** Buys and sells are different orders. *)
Lemma resting_disjoint h st q e e' : queue_ok h st q -> e ∈ buys q -> e' ∈ sells q -> e_ptr e <> e_ptr e'.
Proof.
  intros Hq He He' Heq. destruct (qo_buys _ _ _ Hq e He) as (o & Ho & _ & _ & _ & Hk & _).
  destruct (qo_sells _ _ _ Hq e' He') as (o' & Ho' & _ & _ & _ & Hk' & _). rewrite Heq, Ho' in Ho. injection Ho as ->.
  rewrite Hk in Hk'. discriminate.
Qed.

Lemma slab_set s l p o o' : slab_ok s l -> slab_orders s !! p = Some o -> nextFree o' = nextFree o ->
  slab_ok (mkSlab (free s) (<[p := o']> (slab_orders s))) l.
Proof.
  intros [Hc Hn Hf] Ho He. split; cbn [slab_orders free]; [|done|].
  - eapply chain_ext; [|exact Hc]. intros q Hq. destruct (decide (q = p)) as [->|Hne].
    + rewrite lookup_insert_eq, Ho. cbn. by rewrite He.
    + by rewrite lookup_insert_ne.
  - intros q Hq (x & Hx & Hnx). apply (Hf q Hq). destruct (decide (q = p)) as [->|Hne].
    + rewrite lookup_insert_eq in Hx. injection Hx as <-. exists o. split; [done|congruence].
    + rewrite lookup_insert_ne in Hx by done. by exists x.
Qed.

(** *** The steps of a trade *)

Definition slab_fine (m : M) : Prop := exists l, slab_ok (slab m) l.

Lemma reduce_spec p o a m : slab_fine m -> orders m !! p = Some o -> 0 <= a <= amount o -> amount o < 2 ^ 64 ->
  exists m' o', reduce p a m = Ret m' /\ slab_fine m' /\ matchQueues m' = matchQueues m /\ out m' = out m /\
    orders m' = <[p := o']> (orders m) /\
    o' = mkOrder (o_price o) (o_guid o) (amount o - a) (stockId o) (kind o) (nextFree o).
Proof.
  intros [l Hl] Ho Ha Hb. unfold reduce, get. rewrite Ho. cbn [mbind outcome_bind].
  eexists _, _. split; [reflexivity|]. split_and!; [|done|done|reflexivity|].
  - exists l. by apply (slab_set _ _ _ o).
  - unfold ReduceAmount. by rewrite wrap_id by lia.
Qed.

Lemma free_order_spec p o m : slab_fine m -> orders m !! p = Some o -> nextFree o = Some p ->
  exists m' n, free_order p m = Ret m' /\ slab_fine m' /\ matchQueues m' = matchQueues m /\ out m' = out m /\
    orders m' !! p = Some (with_next n o) /\ (forall q, q <> p -> orders m' !! q = orders m !! q).
Proof.
  intros [l Hl] Ho Hn. unfold free_order.
  destruct (Free_spec _ l p o Hl Ho Hn) as (s & n & E1 & Hs & Hp & Hq). rewrite E1. cbn [mbind outcome_bind].
  exists (set_slab s m), n. split_and!; try done. by exists (p :: l).
Qed.

Lemma completeTrade_spec bk sk b s pr amt m bo so : orders m !! b = Some bo -> orders m !! s = Some so ->
  completeTrade bk sk b s pr amt m = Ret (mkM (matchQueues m) (slab m) (out m ++ [trade_msg bk pr amt bo; trade_msg sk pr amt so])).
Proof.
  intros Hb Hs. unfold completeTrade, get. rewrite Hb. cbn [mbind outcome_bind].
  change (orders (write (trade_msg bk pr amt bo) m)) with (orders m). rewrite Hs. cbn [mbind outcome_bind]. unfold write. cbn [matchQueues slab out]. by rewrite <- app_assoc.
Qed.

Lemma trade_msgs_eq st t bo so : stockId bo = st -> stockId so = st -> o_guid bo = t_buy t -> o_guid so = t_sell t ->
  [trade_msg (t_bkind t) (t_price t) (t_amount t) bo; trade_msg (t_skind t) (t_price t) (t_amount t) so] = trade_msgs st t.
Proof. intros <- Hs Hb Hg. unfold trade_msgs, trade_msg, TraderId, TradeId, tid, trid. by rewrite Hs, Hb, Hg. Qed.

(** *** The loops *)

(** The incoming order: in use and not queued. *)
Record incoming (m : M) (st : Z) (p : ptr) (o : OrderNode) : Prop := {
  in_get : orders m !! p = Some o;
  in_next : nextFree o = Some p;
  in_stock : stockId o = st;
  in_amount : 0 <= amount o < 2 ^ 64
}.

Definition with_amount (a : Z) (o : OrderNode) : OrderNode :=
  mkOrder (o_price o) (o_guid o) a (stockId o) (kind o) (nextFree o).

(** After a loop over the queue: what matching says, and everything else as it was.  [mine]
    is the side of the incoming order, [other] the side it matched against. *)
Record loop_post (mine other : Q -> list entry) (st : Z) (p : ptr) (o : OrderNode) (q : Q) (m : M)
    (r : list trade * list rest * option Z) (res : bool * Q * M) : Prop := {
  lp_queues : matchQueues res.2 = matchQueues m;
  lp_slab : slab_fine res.2;
  lp_ok : queue_ok (orders res.2) st res.1.2;
  lp_mine : mine res.1.2 = mine q;
  lp_sub : other res.1.2 `sublist_of` other q;
  lp_rest : rest_of (orders res.2) <$> other res.1.2 = r.1.2;
  lp_frame : forall x, x <> p -> x ∉ e_ptr <$> other q -> orders res.2 !! x = orders m !! x;
  lp_out : out res.2 = out m ++ (r.1.1 ≫= trade_msgs st);
  lp_left : match r.2 with
            | None => res.1.1 = true
            | Some a => res.1.1 = false /\ 0 <= a < 2 ^ 64 /\ orders res.2 !! p = Some (with_amount a o)
            end
}.

Lemma loop_same mine other st p o q m :
  slab_fine m -> queue_ok (orders m) st q -> incoming m st p o ->
  loop_post mine other st p o q m ([], rest_of (orders m) <$> other q, Some (amount o)) (false, q, m).
Proof.
  intros Hs Hq Hi. split; cbn [fst snd]; try done.
  - by rewrite app_nil_r.
  - split; [done|]. split; [apply Hi|]. rewrite (in_get _ _ _ _ Hi). by destruct o.
Qed.

(** The two sides of a queue. *)
Definition sides (mine other : Q -> list entry) : Prop :=
  (mine = buys /\ other = sells) \/ (mine = sells /\ other = buys).

Definition unqueued (p : ptr) (q : Q) : Prop := forall e, e ∈ buys q ++ sells q -> e_ptr e <> p.

Lemma other_resting mine other h st q e : sides mine other -> queue_ok h st q -> e ∈ other q ->
  exists o, h !! e_ptr e = Some o /\ nextFree o = Some (e_ptr e) /\ e = entry_of (e_ptr e) o /\ stockId o = st /\
    0 <= amount o < 2 ^ 64.
Proof.
  intros Hs Hq He. assert (Hr : exists k, resting h st k e).
  { destruct Hs as [[-> ->]|[-> ->]]; eexists; [by apply (qo_sells h st q)|by apply (qo_buys h st q)]. }
  destruct Hr as (k & o & H1 & H2 & H3 & H4 & _ & H5 & _). by exists o.
Qed.

(** Dropping the head of the other side. *)
Lemma drop_other mine other h st q q1 e : sides mine other -> queue_ok h st q -> other q = e :: other q1 ->
  mine q1 = mine q -> q_ok q1 ->
  queue_ok h st q1 /\ (forall x, x ∈ buys q1 ++ sells q1 -> e_ptr x <> e_ptr e) /\ e ∉ mine q.
Proof.
  intros Hs Hq Ho Hm Hq1. destruct (qo_nodup _ _ _ Hq) as [N1 N2]. destruct Hs as [[-> ->]|[-> ->]].
  - rewrite Ho in N2. cbn in N2. apply NoDup_cons in N2 as [N2 N3]. split_and!.
    + split; [done|rewrite Hm; apply Hq| |rewrite Hm; done].
      intros x Hx. apply (qo_sells _ _ _ Hq). rewrite Ho. by right.
    + intros x Hx. apply elem_of_app in Hx as [Hx|Hx].
      * rewrite Hm in Hx. apply (resting_disjoint h st q); [done..|]. rewrite Ho. by left.
      * intros Heq. apply N2. rewrite <- Heq. by apply list_elem_of_fmap_2.
    + intros He. apply (resting_disjoint h st q e e Hq); [done| |done]. rewrite Ho. by left.
  - rewrite Ho in N1. cbn in N1. apply NoDup_cons in N1 as [N1 N3]. split_and!.
    + split; [done| |rewrite Hm; apply Hq|rewrite Hm; done].
      intros x Hx. apply (qo_buys _ _ _ Hq). rewrite Ho. by right.
    + intros x Hx. apply elem_of_app in Hx as [Hx|Hx].
      * intros Heq. apply N1. rewrite <- Heq. by apply list_elem_of_fmap_2.
      * rewrite Hm in Hx. intros Heq. symmetry in Heq. revert Heq. apply (resting_disjoint h st q); [done| |done].
        rewrite Ho. by left.
    + intros He. apply (resting_disjoint h st q e e Hq); [|done|done]. rewrite Ho. by left.
Qed.

(** One full take of the other side's head, and the rest of the loop. *)
Lemma loop_cons mine other st p o a q m q1 m1 e t r res :
  other q = e :: other q1 -> mine q1 = mine q -> matchQueues m1 = matchQueues m ->
  out m1 = out m ++ trade_msgs st t -> (forall x, x <> p -> x <> e_ptr e -> orders m1 !! x = orders m !! x) ->
  loop_post mine other st p (with_amount a o) q1 m1 r res ->
  loop_post mine other st p o q m (t :: r.1.1, r.1.2, r.2) res.
Proof.
  intros Ho Hm Hq Hout Hf [P1 P2 P3 P4 P5 P6 P7 P8 P9]. split; cbn [fst snd]; try done.
  - congruence.
  - congruence.
  - rewrite Ho. by apply sublist_cons.
  - intros x Hx Hn. rewrite Ho in Hn. cbn in Hn. apply not_elem_of_cons in Hn as [Hn1 Hn2].
    rewrite P7 by done. by apply Hf.
  - rewrite P8, Hout. cbn [mbind list_bind]. by rewrite <- app_assoc.
Qed.

(** The last trade of a loop, which uses up the incoming order. *)
Lemma loop_last mine other st p o q m q1 m1 e l t ss :
  other q = e :: l -> mine q1 = mine q -> other q1 `sublist_of` other q -> matchQueues m1 = matchQueues m ->
  out m1 = out m ++ trade_msgs st t -> (forall x, x <> p -> x <> e_ptr e -> orders m1 !! x = orders m !! x) ->
  slab_fine m1 -> queue_ok (orders m1) st q1 -> rest_of (orders m1) <$> other q1 = ss ->
  loop_post mine other st p o q m ([t], ss, None) (true, q1, m1).
Proof.
  intros Ho Hm Hs Hq Hout Hf Hsl Hok Hr. split; cbn [fst snd]; try done.
  - intros x Hx Hn. apply Hf; [done|]. rewrite Ho in Hn. cbn in Hn. by apply not_elem_of_cons in Hn as [? _].
Qed.

(** Reducing a queued order keeps its queue well formed. *)
Lemma queue_ok_reduce h st q e o a : queue_ok h st q -> e ∈ buys q ++ sells q -> h !! e_ptr e = Some o ->
  0 <= a <= amount o ->
  queue_ok (<[e_ptr e := mkOrder (o_price o) (o_guid o) (amount o - a) (stockId o) (kind o) (nextFree o)]> h) st q.
Proof.
  intros Hq He Ho Ha. set (o' := mkOrder _ _ _ _ _ _).
  assert (Hr : forall k x, resting h st k x -> resting (<[e_ptr e := o']> h) st k x).
  { intros k x (ox & H1 & H2 & H3 & H4 & H5 & H6 & H7). destruct (decide (e_ptr x = e_ptr e)) as [Heq|Hne].
    - rewrite Heq, Ho in H1. injection H1 as <-. exists o'. rewrite Heq in *. rewrite lookup_insert_eq.
      split_and!; try done; unfold o'; cbn [amount o_price]; lia.
    - exists ox. by rewrite lookup_insert_ne. }
  destruct Hq as [H1 H2 H3 H4]. split; [done| | |done]; intros x Hx; apply Hr; auto.
Qed.

Lemma rest_of_reduce h e o a : h !! e_ptr e = Some o ->
  rest_of (<[e_ptr e := mkOrder (o_price o) (o_guid o) (amount o - a) (stockId o) (kind o) (nextFree o)]> h) e =
  take_from (rest_of h e) a.
Proof. intros Ho. unfold rest_of, take_from. rewrite lookup_insert_eq, Ho. done. Qed.

Lemma unqueued_fresh p q mine other : sides mine other -> unqueued p q -> p ∉ e_ptr <$> other q.
Proof.
  intros Hs Hu Hp. apply list_elem_of_fmap in Hp as (e & -> & He). apply (Hu e); [|done].
  apply elem_of_app. destruct Hs as [[-> ->]|[-> ->]]; auto.
Qed.

Lemma get_order p o m : orders m !! p = Some o -> get p (orders m) = Ret o.
Proof. unfold get. by intros ->. Qed.

(** Both orders of a full trade are given back; the incoming one first or last. *)
Lemma free_two x y ox oy m : slab_fine m -> x <> y -> orders m !! x = Some ox -> nextFree ox = Some x ->
  orders m !! y = Some oy -> nextFree oy = Some y ->
  exists m', (m ← free_order x m; free_order y m) = Ret m' /\ slab_fine m' /\ matchQueues m' = matchQueues m /\
    out m' = out m /\ forall z, z <> x -> z <> y -> orders m' !! z = orders m !! z.
Proof.
  intros Hs Hne Hx Hnx Hy Hny.
  destruct (free_order_spec x ox m Hs Hx Hnx) as (m1 & n1 & E1 & S1 & Q1 & O1 & _ & F1).
  rewrite E1. cbn [mbind outcome_bind].
  destruct (free_order_spec y oy m1 S1) as (m2 & n2 & E2 & S2 & Q2 & O2 & _ & F2); [by rewrite F1|done|].
  exists m2. split_and!; [done|done|congruence|congruence|]. intros z Hzx Hzy. by rewrite F2, F1.
Qed.

(** A full trade: the other order leaves the queue and both are freed. *)
Lemma full_trade mine other st p o q m q1 e t :
  sides mine other -> slab_fine m -> queue_ok (orders m) st q -> incoming m st p o -> unqueued p q ->
  other q = e :: other q1 -> mine q1 = mine q -> q_ok q1 ->
  forall oe, orders m !! e_ptr e = Some oe -> nextFree oe = Some (e_ptr e) ->
  forall m1, slab_fine m1 -> matchQueues m1 = matchQueues m -> out m1 = out m ++ trade_msgs st t ->
  (forall z, z <> p -> z <> e_ptr e -> orders m1 !! z = orders m !! z) ->
  loop_post mine other st p o q m ([t], rest_of (orders m) <$> other q1, None) (true, q1, m1).
Proof.
  intros Hsd Hs Hq Hi Hu Ho Hm Hq1 oe Hoe Hne m1 S1 Q1 O1 F1.
  destruct (drop_other mine other (orders m) st q q1 e Hsd Hq Ho Hm Hq1) as (Hok & Hdis & _).
  assert (Hext : forall x, x ∈ buys q1 ++ sells q1 -> orders m1 !! e_ptr x = orders m !! e_ptr x).
  { intros x Hx. apply F1; [|by apply Hdis]. apply Hu. apply elem_of_app in Hx. apply elem_of_app.
    destruct Hsd as [[-> ->]|[-> ->]]; rewrite Hm in Hx; rewrite Ho; set_solver. }
  eapply loop_last; [exact Ho|exact Hm|rewrite Ho; by apply sublist_cons|done|done|done|done| |].
  - by eapply queue_ok_ext.
  - apply rest_of_ext. intros x Hx. apply Hext, elem_of_app. destruct Hsd as [[-> ->]|[-> ->]]; auto.
Qed.

(** The incoming order is used up by a larger one, which stays with what is left. *)
Lemma partial_trade mine other st p o q m e l t oe m1 :
  sides mine other -> slab_fine m1 -> queue_ok (orders m) st q -> incoming m st p o -> unqueued p q ->
  other q = e :: l -> orders m !! e_ptr e = Some oe -> amount o < amount oe ->
  matchQueues m1 = matchQueues m -> out m1 = out m ++ trade_msgs st t ->
  (forall z, z <> p -> orders m1 !! z =
     <[e_ptr e := mkOrder (o_price oe) (o_guid oe) (amount oe - amount o) (stockId oe) (kind oe) (nextFree oe)]> (orders m) !! z) ->
  loop_post mine other st p o q m ([t], take_from (rest_of (orders m) e) (amount o) :: (rest_of (orders m) <$> l), None)
    (true, q, m1).
Proof.
  intros Hsd S1 Hq Hi Hu Ho Hoe Ha Q1 O1 F1.
  assert (He : e ∈ other q) by (rewrite Ho; by left).
  assert (Heq : e ∈ buys q ++ sells q) by (apply elem_of_app; destruct Hsd as [[-> ->]|[-> ->]]; auto).
  pose proof (in_amount _ _ _ _ Hi) as Hb.
  pose proof (queue_ok_reduce (orders m) st q e oe (amount o) Hq Heq Hoe ltac:(lia)) as Hok.
  assert (Hext : forall x, x ∈ buys q ++ sells q -> orders m1 !! e_ptr x =
     <[e_ptr e := mkOrder (o_price oe) (o_guid oe) (amount oe - amount o) (stockId oe) (kind oe) (nextFree oe)]> (orders m) !! e_ptr x).
  { intros x Hx. apply F1. by apply Hu. }
  eapply loop_last; [exact Ho|done|done|done|done| |done| |].
  - intros x Hx Hne. rewrite F1, lookup_insert_ne; done.
  - by eapply queue_ok_ext.
  - rewrite Ho. cbn [fmap list_fmap]. rewrite <- (rest_of_reduce (orders m) e oe (amount o) Hoe). f_equal.
    + unfold rest_of. rewrite Hext by done. done.
    + apply list_fmap_ext. intros i x Hx. unfold rest_of. apply list_elem_of_lookup_2 in Hx.
      assert (Hxo : x ∈ other q) by (rewrite Ho; by right).
      rewrite Hext by (apply elem_of_app; destruct Hsd as [[-> ->]|[-> ->]]; auto). rewrite lookup_insert_ne; [done|].
      intros Hp. assert (N : NoDup (e_ptr <$> other q)).
      { destruct (qo_nodup _ _ _ Hq). destruct Hsd as [[-> ->]|[-> ->]]; done. }
      rewrite Ho in N. cbn in N. apply NoDup_cons in N as [N _]. apply N. rewrite Hp. by apply list_elem_of_fmap_2.
Qed.

(** The loop goes on with a smaller incoming order. *)
Lemma take_trade mine other st p o q m q1 e a m1 :
  sides mine other -> queue_ok (orders m) st q -> incoming m st p o -> unqueued p q ->
  other q = e :: other q1 -> mine q1 = mine q -> q_ok q1 -> 0 <= a < 2 ^ 64 ->
  orders m1 !! p = Some (with_amount a o) ->
  (forall z, z <> p -> z <> e_ptr e -> orders m1 !! z = orders m !! z) ->
  queue_ok (orders m1) st q1 /\ incoming m1 st p (with_amount a o) /\ unqueued p q1 /\
  rest_of (orders m1) <$> other q1 = rest_of (orders m) <$> other q1.
Proof.
  intros Hsd Hq Hi Hu Ho Hm Hq1 Ha Hp F1.
  destruct (drop_other mine other (orders m) st q q1 e Hsd Hq Ho Hm Hq1) as (Hok & Hdis & _).
  assert (Hu1 : unqueued p q1).
  { intros x Hx. apply Hu. apply elem_of_app in Hx. apply elem_of_app.
    destruct Hsd as [[-> ->]|[-> ->]]; rewrite Hm in Hx; rewrite Ho; set_solver. }
  assert (Hext : forall x, x ∈ buys q1 ++ sells q1 -> orders m1 !! e_ptr x = orders m !! e_ptr x).
  { intros x Hx. apply F1; [by apply Hu1|by apply Hdis]. }
  split_and!; [by eapply queue_ok_ext| |done|].
  - destruct Hi as [I1 I2 I3 I4]. by split.
  - apply rest_of_ext. intros x Hx. apply Hext, elem_of_app. destruct Hsd as [[-> ->]|[-> ->]]; auto.
Qed.

(** What a loop reads of the two orders it compares. *)
Lemma compared mine other st p o q m e l : sides mine other -> queue_ok (orders m) st q -> incoming m st p o ->
  unqueued p q -> other q = e :: l ->
  exists oe, orders m !! e_ptr e = Some oe /\ nextFree oe = Some (e_ptr e) /\ stockId oe = st /\ 0 <= amount oe < 2 ^ 64 /\
    rest_of (orders m) e = mkRest (o_price oe) (o_guid oe) (amount oe) /\ e_ptr e <> p /\ e ∉ mine q.
Proof.
  intros Hsd Hq Hi Hu Ho. assert (He : e ∈ other q) by (rewrite Ho; by left).
  destruct (other_resting mine other (orders m) st q e Hsd Hq He) as (oe & H1 & H2 & H3 & H4 & H5).
  exists oe. split_and!; try done; try lia.
  - unfold rest_of. rewrite H1. apply (f_equal (fun x => mkRest (e_price x) (e_guid x) (amount oe))) in H3. exact H3.
  - apply Hu, elem_of_app. destruct Hsd as [[-> ->]|[-> ->]]; auto.
  - intros Hm. destruct Hsd as [[-> ->]|[-> ->]]; by apply (resting_disjoint (orders m) st q e e).
Qed.

(** What a trade that uses up the other order does: its order leaves the queue and is freed, the
    incoming one is reduced, and both sides are told. *)
Record taken (st : Z) (p : ptr) (o : OrderNode) (a : Z) (e : entry) (t : trade) (m m3 : M) : Prop := {
  tk_slab : slab_fine m3;
  tk_queues : matchQueues m3 = matchQueues m;
  tk_out : out m3 = out m ++ trade_msgs st t;
  tk_mine : orders m3 !! p = Some (with_amount (amount o - a) o);
  tk_frame : forall z, z <> p -> z <> e_ptr e -> orders m3 !! z = orders m !! z
}.

Lemma take_sell st b bo m e so pr :
  slab_fine m -> orders m !! b = Some bo -> stockId bo = st -> amount bo < 2 ^ 64 ->
  orders m !! e_ptr e = Some so -> nextFree so = Some (e_ptr e) -> stockId so = st -> e_ptr e <> b -> 0 <= amount so < amount bo ->
  exists m1 m2 m3, free_order (e_ptr e) m = Ret m1 /\ reduce b (amount so) m1 = Ret m2 /\
    completeTrade Msg.PARTIAL Msg.FULL b (e_ptr e) pr (amount so) m2 = Ret m3 /\
    taken st b bo (amount so) e (mkTrade Msg.PARTIAL Msg.FULL (o_guid bo) (o_guid so) pr (amount so)) m m3.
Proof.
  intros Hs Hbo Hsb Hab Hso Hns Hst Hne Ha.
  destruct (free_order_spec (e_ptr e) so m Hs Hso Hns) as (m1 & n & E1 & S1 & Q1 & O1 & P1 & F1).
  assert (Hb1 : orders m1 !! b = Some bo) by (by rewrite F1).
  destruct (reduce_spec b bo (amount so) m1 S1 Hb1 ltac:(lia) ltac:(lia)) as (m2 & bo' & E2 & S2 & Q2 & O2 & H2 & ->).
  set (bo' := mkOrder _ _ _ _ _ _) in *.
  assert (Hb2 : orders m2 !! b = Some bo') by (rewrite H2; apply lookup_insert_eq).
  assert (Hs2 : orders m2 !! e_ptr e = Some (with_next n so)) by (by rewrite H2, lookup_insert_ne).
  pose proof (completeTrade_spec Msg.PARTIAL Msg.FULL b (e_ptr e) pr (amount so) m2 bo' _ Hb2 Hs2) as E3. set (m3 := mkM _ _ _) in *.
  exists m1, m2, m3. split_and!; try done. split; [exact S2|cbn; congruence| |exact Hb2|].
  - cbn [m3 out]. rewrite O2, O1. f_equal.
    by apply (trade_msgs_eq st (mkTrade _ _ (o_guid bo) (o_guid so) pr (amount so)) bo' (with_next n so)).
  - intros z Hz1 Hz2. change (orders m3) with (orders m2). by rewrite H2, lookup_insert_ne, F1.
Qed.

Lemma take_buy st s so m e bo pr :
  slab_fine m -> orders m !! s = Some so -> stockId so = st -> amount so < 2 ^ 64 ->
  orders m !! e_ptr e = Some bo -> nextFree bo = Some (e_ptr e) -> stockId bo = st -> e_ptr e <> s -> 0 <= amount bo < amount so ->
  exists m1 m2 m3, reduce s (amount bo) m = Ret m1 /\
    completeTrade Msg.FULL Msg.PARTIAL (e_ptr e) s pr (amount bo) m1 = Ret m2 /\ free_order (e_ptr e) m2 = Ret m3 /\
    taken st s so (amount bo) e (mkTrade Msg.FULL Msg.PARTIAL (o_guid bo) (o_guid so) pr (amount bo)) m m3.
Proof.
  intros Hs Hso Hss Has Hbo Hnb Hst Hne Ha.
  destruct (reduce_spec s so (amount bo) m Hs Hso ltac:(lia) ltac:(lia)) as (m1 & so' & E1 & S1 & Q1 & O1 & H1 & ->).
  set (so' := mkOrder _ _ _ _ _ _) in *.
  assert (Hs1 : orders m1 !! s = Some so') by (rewrite H1; apply lookup_insert_eq).
  assert (Hb1 : orders m1 !! e_ptr e = Some bo) by (by rewrite H1, lookup_insert_ne).
  pose proof (completeTrade_spec Msg.FULL Msg.PARTIAL (e_ptr e) s pr (amount bo) m1 bo so' Hb1 Hs1) as E2. set (m2 := mkM _ _ _) in *.
  destruct (free_order_spec (e_ptr e) bo m2 S1 Hb1 Hnb) as (m3 & n & E3 & S3 & Q3 & O3 & _ & F3).
  exists m1, m2, m3. split_and!; try done. split; [exact S3|rewrite Q3; exact Q1| |by rewrite F3|].
  - rewrite O3. cbn [m2 out]. rewrite O1. f_equal.
    by apply (trade_msgs_eq st (mkTrade _ _ (o_guid bo) (o_guid so) pr (amount bo)) bo so').
  - intros z Hz1 Hz2. rewrite F3 by done. change (orders m2) with (orders m1). by rewrite H1, lookup_insert_ne.
Qed.

Lemma fillableBuy_spec fuel : forall st b bo q m, slab_fine m -> queue_ok (orders m) st q -> incoming m st b bo ->
  unqueued b q -> (length (sells q) < fuel)%nat ->
  exists res, fillableBuy fuel b q m = Ret res /\
    loop_post buys sells st b bo q m
      (match_buy (o_price bo) (o_guid bo) (amount bo) (rest_of (orders m) <$> sells q)) res.
Proof.
  induction fuel as [|fuel IH]; intros st b bo q m Hs Hq Hi Hu Hf; [lia|]. cbn [fillableBuy].
  assert (Hsd : sides buys sells) by (by left). rewrite (PeekSell_ok q (qo_ok _ _ _ Hq)).
  pose proof (loop_same buys sells st b bo q m Hs Hq Hi) as Hsame.
  destruct (sells q) as [|e l] eqn:Eq; [eexists; split; [reflexivity|exact Hsame]|]. cbn [head fmap list_fmap match_buy] in *.
  destruct (compared buys sells st b bo q m e l Hsd Hq Hi Hu Eq) as (so & Hso & Hns & Hst & Ham & Hrs & Hne & Hnm).
  pose proof (in_get _ _ _ _ Hi) as Hbo. pose proof (in_amount _ _ _ _ Hi) as Hab. pose proof (in_next _ _ _ _ Hi) as Hnb.
  pose proof (in_stock _ _ _ _ Hi) as Hsb. run (get_order b bo m Hbo). run (get_order (e_ptr e) so m Hso).
  rewrite Hrs in *. cbn [r_price r_guid r_amount].
  destruct (o_price so <=? o_price bo); [|eexists; split; [reflexivity|exact Hsame]].
  set (pr := price (o_price bo) (o_price so)).
  destruct (Remove_sell_ok e l q (qo_ok _ _ _ Hq) Eq Hnm) as (q1 & R1 & Hq1 & Hsl & Hbl). rewrite <- Hsl in *.
  destruct (Z.ltb_spec (amount so) (amount bo)) as [Hlt|Hge]; [|destruct (Z.ltb_spec (amount bo) (amount so)) as [Hgt|Hle]].
  - run R1. destruct (take_sell st b bo m e so pr Hs Hbo Hsb ltac:(lia) Hso Hns Hst Hne ltac:(lia)) 
      as (m1 & m2 & m3 & E1 & E2 & E3 & [S3 Q3 O3 P3 F3]). run E1. run E2. run E3. set (t := mkTrade _ _ _ _ _ _) in *.
    destruct (take_trade buys sells st b bo q m q1 e (amount bo - amount so) m3 Hsd Hq Hi Hu) as (T1 & T2 & T3 & T4);
      [exact Eq|done|done|lia|exact P3|exact F3|].
    destruct (IH st b (with_amount (amount bo - amount so) bo) q1 m3 S3 T1 T2 T3 ltac:(cbn in Hf; lia)) as (res & E4 & Hpost).
    exists res. split; [exact E4|]. rewrite T4 in Hpost. cbn [with_amount o_price o_guid amount] in Hpost.
    destruct (match_buy _ _ (amount bo - amount so) _) as [[ts ss] rem].
    by apply (loop_cons buys sells st b bo (amount bo - amount so) q m q1 m3 e t (ts, ss, rem) res Eq Hbl).
  - destruct (reduce_spec (e_ptr e) so (amount bo) m Hs Hso ltac:(lia) ltac:(lia)) as (m1 & so' & E1 & S1 & Q1 & O1 & H1 & ->).
    run E1. set (so' := mkOrder _ _ _ _ _ _) in *.
    assert (Hb1 : orders m1 !! b = Some bo) by (by rewrite H1, lookup_insert_ne).
    assert (Hs1 : orders m1 !! e_ptr e = Some so') by (rewrite H1; apply lookup_insert_eq).
    run (completeTrade_spec Msg.FULL Msg.PARTIAL b (e_ptr e) pr (amount bo) m1 bo so' Hb1 Hs1). set (m2 := mkM _ _ _).
    set (t := mkTrade Msg.FULL Msg.PARTIAL (o_guid bo) (o_guid so) pr (amount bo)).
    destruct (free_order_spec b bo m2 S1 Hb1 Hnb) as (m3 & n & E3 & S3 & Q3 & O3 & _ & F3). run E3.
    eexists. split; [reflexivity|].
    pose proof (partial_trade buys sells st b bo q m e (sells q1) t so m3 Hsd S3 Hq Hi Hu Eq Hso Hgt) as Hp.
    rewrite Hrs in Hp. apply Hp; [rewrite Q3; exact Q1| |].
    + rewrite O3. cbn [m2 out]. rewrite O1. f_equal. by apply (trade_msgs_eq st t bo so').
    + intros z Hz. rewrite F3 by done. change (orders m2) with (orders m1). by rewrite H1.
  - assert (amount so = amount bo) as Heq by lia.
    run (completeTrade_spec Msg.FULL Msg.FULL b (e_ptr e) pr (amount bo) m bo so Hbo Hso). set (m1 := mkM _ _ _).
    set (t := mkTrade Msg.FULL Msg.FULL (o_guid bo) (o_guid so) pr (amount bo)). run R1.
    destruct (free_two (e_ptr e) b so bo m1 Hs Hne Hso Hns Hbo Hnb) as (m2 & E2 & S2 & Q2 & O2 & F2).
    destruct (free_order (e_ptr e) m1) as [m2'| |]; cbn [mbind outcome_bind] in E2 |- *; [|done..]. run E2.
    eexists. split; [reflexivity|].
    apply (full_trade buys sells st b bo q m q1 e t Hsd Hs Hq Hi Hu Eq Hbl Hq1 so Hso Hns m2 S2 Q2).
    + rewrite O2. cbn [m1 out]. f_equal. by apply (trade_msgs_eq st t bo so).
    + intros z Hz1 Hz2. by rewrite F2.
Qed.

Lemma fillableSell_spec fuel : forall st s so q m, slab_fine m -> queue_ok (orders m) st q -> incoming m st s so ->
  unqueued s q -> (length (buys q) < fuel)%nat ->
  exists res, fillableSell fuel s q m = Ret res /\
    loop_post sells buys st s so q m
      (match_sell (o_price so) (o_guid so) (amount so) (rest_of (orders m) <$> buys q)) res.
Proof.
  induction fuel as [|fuel IH]; intros st s so q m Hs Hq Hi Hu Hf; [lia|]. cbn [fillableSell].
  assert (Hsd : sides sells buys) by (by right). rewrite (PeekBuy_ok q (qo_ok _ _ _ Hq)).
  pose proof (loop_same sells buys st s so q m Hs Hq Hi) as Hsame.
  destruct (buys q) as [|e l] eqn:Eq; [eexists; split; [reflexivity|exact Hsame]|]. cbn [head fmap list_fmap match_sell] in *.
  destruct (compared sells buys st s so q m e l Hsd Hq Hi Hu Eq) as (bo & Hbo & Hnb & Hst & Ham & Hrb & Hne & Hnm).
  pose proof (in_get _ _ _ _ Hi) as Hso. pose proof (in_amount _ _ _ _ Hi) as Has. pose proof (in_next _ _ _ _ Hi) as Hns.
  pose proof (in_stock _ _ _ _ Hi) as Hss. run (get_order (e_ptr e) bo m Hbo). run (get_order s so m Hso).
  rewrite Hrb in *. cbn [r_price r_guid r_amount].
  destruct (o_price so <=? o_price bo); [|eexists; split; [reflexivity|exact Hsame]].
  set (pr := price (o_price bo) (o_price so)).
  destruct (Remove_buy_ok e l q (qo_ok _ _ _ Hq) Eq Hnm) as (q1 & R1 & Hq1 & Hbl & Hsl). rewrite <- Hbl in *.
  destruct (Z.ltb_spec (amount so) (amount bo)) as [Hlt|Hge]; [|destruct (Z.ltb_spec (amount bo) (amount so)) as [Hgt|Hle]].
  - destruct (reduce_spec (e_ptr e) bo (amount so) m Hs Hbo ltac:(lia) ltac:(lia)) as (m1 & bo' & E1 & S1 & Q1 & O1 & H1 & ->).
    run E1. set (bo' := mkOrder _ _ _ _ _ _) in *.
    assert (Hs1 : orders m1 !! s = Some so) by (by rewrite H1, lookup_insert_ne).
    assert (Hb1 : orders m1 !! e_ptr e = Some bo') by (rewrite H1; apply lookup_insert_eq).
    run (completeTrade_spec Msg.PARTIAL Msg.FULL (e_ptr e) s pr (amount so) m1 bo' so Hb1 Hs1). set (m2 := mkM _ _ _).
    set (t := mkTrade Msg.PARTIAL Msg.FULL (o_guid bo) (o_guid so) pr (amount so)).
    destruct (free_order_spec s so m2 S1 Hs1 Hns) as (m3 & n & E3 & S3 & Q3 & O3 & _ & F3). run E3.
    eexists. split; [reflexivity|].
    pose proof (partial_trade sells buys st s so q m e (buys q1) t bo m3 Hsd S3 Hq Hi Hu Eq Hbo Hlt) as Hp.
    rewrite Hrb in Hp. apply Hp; [rewrite Q3; exact Q1| |].
    + rewrite O3. cbn [m2 out]. rewrite O1. f_equal. by apply (trade_msgs_eq st t bo' so).
    + intros z Hz. rewrite F3 by done. change (orders m2) with (orders m1). by rewrite H1.
  - destruct (take_buy st s so m e bo pr Hs Hso Hss ltac:(lia) Hbo Hnb Hst Hne ltac:(lia))
      as (m1 & m2 & m3 & E1 & E2 & E3 & [S3 Q3 O3 P3 F3]). run E1. run E2. run R1. run E3. set (t := mkTrade _ _ _ _ _ _) in *.
    destruct (take_trade sells buys st s so q m q1 e (amount so - amount bo) m3 Hsd Hq Hi Hu) as (T1 & T2 & T3 & T4);
      [exact Eq|done|done|lia|exact P3|exact F3|].
    destruct (IH st s (with_amount (amount so - amount bo) so) q1 m3 S3 T1 T2 T3 ltac:(cbn in Hf; lia)) as (res & E4 & Hpost).
    exists res. split; [exact E4|]. rewrite T4 in Hpost. cbn [with_amount o_price o_guid amount] in Hpost.
    destruct (match_sell _ _ (amount so - amount bo) _) as [[ts ss] rem].
    by apply (loop_cons sells buys st s so (amount so - amount bo) q m q1 m3 e t (ts, ss, rem) res Eq Hsl).
  - assert (amount so = amount bo) as Heq by lia.
    run (completeTrade_spec Msg.FULL Msg.FULL (e_ptr e) s pr (amount bo) m bo so Hbo Hso). set (m1 := mkM _ _ _).
    set (t := mkTrade Msg.FULL Msg.FULL (o_guid bo) (o_guid so) pr (amount bo)). run R1.
    destruct (free_two (e_ptr e) s bo so m1 Hs Hne Hbo Hnb Hso Hns) as (m2 & E2 & S2 & Q2 & O2 & F2).
    destruct (free_order (e_ptr e) m1) as [m2'| |]; cbn [mbind outcome_bind] in E2 |- *; [|done..]. run E2.
    eexists. split; [reflexivity|]. rewrite Heq.
    apply (full_trade sells buys st s so q m q1 e t Hsd Hs Hq Hi Hu Eq Hsl Hq1 bo Hbo Hnb m2 S2 Q2).
    + rewrite O2. cbn [m1 out]. f_equal. by apply (trade_msgs_eq st t bo so).
    + intros z Hz1 Hz2. by rewrite F2.
Qed.

(** ** The book *)

(** The resting orders of a stock, both sides in priority order. *)
Definition book : Type := list rest * list rest.

Definition book_of (m : M) (st : Z) : book :=
  match matchQueues m !! st with
  | Some q => (rest_of (orders m) <$> buys q, rest_of (orders m) <$> sells q)
  | None => ([], [])
  end.

Record m_ok (m : M) : Prop := {
  mo_slab : slab_fine m;
  mo_queues : forall st q, matchQueues m !! st = Some q -> queue_ok (orders m) st q
}.

Fixpoint insert_rb (r : rest) (l : list rest) : list rest :=
  match l with
  | [] => [r]
  | x :: l' => if r_price r <=? r_price x then x :: insert_rb r l' else r :: l
  end.

Fixpoint insert_rs (r : rest) (l : list rest) : list rest :=
  match l with
  | [] => [r]
  | x :: l' => if r_price x <=? r_price r then x :: insert_rs r l' else r :: l
  end.

(** What submitting an order means for the book of its stock. *)
Definition spec_buy (r : rest) (b : book) : list trade * book :=
  let '(ts, ss, rem) := match_buy (r_price r) (r_guid r) (r_amount r) b.2 in
  (ts, (match rem with Some a => insert_rb (mkRest (r_price r) (r_guid r) a) b.1 | None => b.1 end, ss)).

Definition spec_sell (r : rest) (b : book) : list trade * book :=
  let '(ts, bs, rem) := match_sell (r_price r) (r_guid r) (r_amount r) b.1 in
  (ts, (bs, match rem with Some a => insert_rs (mkRest (r_price r) (r_guid r) a) b.2 | None => b.2 end)).

Lemma insert_buy_rest h e l : rest_of h <$> insert_buy e l = insert_rb (rest_of h e) (rest_of h <$> l).
Proof.
  induction l as [|x l IH]; [done|]. cbn [insert_buy insert_rb fmap list_fmap].
  change (r_price (rest_of h e)) with (e_price e). change (r_price (rest_of h x)) with (e_price x).
  destruct (e_price e <=? e_price x); [|done]. cbn [fmap list_fmap]. by rewrite <- IH.
Qed.

Lemma insert_sell_rest h e l : rest_of h <$> insert_sell e l = insert_rs (rest_of h e) (rest_of h <$> l).
Proof.
  induction l as [|x l IH]; [done|]. cbn [insert_sell insert_rs fmap list_fmap].
  change (r_price (rest_of h e)) with (e_price e). change (r_price (rest_of h x)) with (e_price x).
  destruct (e_price x <=? e_price e); [|done]. cbn [fmap list_fmap]. by rewrite <- IH.
Qed.

(** A queue after its order was added. *)
Lemma queue_ok_add h st q q' k p o : queue_ok h st q -> unqueued p q -> q_ok q' ->
  h !! p = Some o -> nextFree o = Some p -> stockId o = st -> kind o = k -> 0 <= amount o < 2 ^ 64 -> 0 <= o_price o < 2 ^ 64 ->
  (k = Msg.BUY /\ buys q' ≡ₚ entry_of p o :: buys q /\ sells q' = sells q) \/
  (k = Msg.SELL /\ sells q' ≡ₚ entry_of p o :: sells q /\ buys q' = buys q) ->
  queue_ok h st q'.
Proof.
  intros [H1 H2 H3 [N1 N2]] Hu Hq' Ho Hn Hst Hk Ha Hp Hc.
  assert (Hr : resting h st k (entry_of p o)) by (exists o; auto 10).
  assert (Hfr : forall l : list entry, (forall e, e ∈ l -> e ∈ buys q ++ sells q) -> p ∉ e_ptr <$> l).
  { intros l Hl Hin. apply list_elem_of_fmap in Hin as (e & -> & He). by apply (Hu e); [apply Hl|]. }
  destruct Hc as [(-> & Hb & Hs)|(-> & Hs & Hb)]; split; try done.
  - intros e He. rewrite Hb in He. apply elem_of_cons in He as [->|He]; auto.
  - rewrite Hs. done.
  - rewrite Hs, Hb. split; [|done]. cbn. apply NoDup_cons. split; [|done]. apply Hfr. intros e He. apply elem_of_app. by left.
  - rewrite Hb. done.
  - intros e He. rewrite Hs in He. apply elem_of_cons in He as [->|He]; auto.
  - rewrite Hb, Hs. split; [done|]. cbn. apply NoDup_cons. split; [|done]. apply Hfr. intros e He. apply elem_of_app. by right.
Qed.

(** The queues of a stock in a matcher. *)
Lemma getMatchQueues_spec st m : m_ok m ->
  let '(q, m') := getMatchQueues st m in
  m_ok m' /\ queue_ok (orders m) st q /\ slab m' = slab m /\ out m' = out m /\
  (rest_of (orders m) <$> buys q, rest_of (orders m) <$> sells q) = book_of m st /\
  (forall st', st' <> st -> matchQueues m' !! st' = matchQueues m !! st') /\
  (forall p, (forall st' q', matchQueues m !! st' = Some q' -> unqueued p q') -> unqueued p q) /\
  (length (buys q) + length (sells q) = length (book_of m st).1 + length (book_of m st).2)%nat.
Proof.
  intros Hm. unfold getMatchQueues, book_of. destruct (matchQueues m !! st) as [q|] eqn:Eq.
  - split_and!; try done; [by apply Hm|eauto|]. cbn [fst snd]. by rewrite !length_fmap.
  - destruct new_ok as (H1 & H2 & H3).
    assert (Hq : queue_ok (orders m) st newQueues).
    { split; [done|rewrite H2; intros e He; by apply elem_of_nil in He|rewrite H3; intros e He; by apply elem_of_nil in He|].
      rewrite H2, H3. split; constructor. }
    rewrite H2, H3. split_and!; try done.
    + split; [apply Hm|]. intros st' q'. cbn [matchQueues]. intros Hq'.
      apply lookup_insert_Some in Hq' as [[<- <-]|[_ Hq']]; [done|by apply Hm].
    + intros st' Hne. cbn [matchQueues]. by rewrite lookup_insert_ne.
    + intros p _ e. rewrite H2, H3. intros He. by apply elem_of_nil in He.
Qed.

Definition unused (p : ptr) (m : M) : Prop := forall st q, matchQueues m !! st = Some q -> unqueued p q.

(** Orders of other stocks are not touched by work on one stock. *)
Lemma frame_other h h' st st' q' (Pchanged : ptr -> Prop) : queue_ok h st' q' -> st' <> st ->
  (forall x, Pchanged x -> (forall e, e ∈ buys q' ++ sells q' -> e_ptr e <> x) \/ exists o, h !! x = Some o /\ stockId o = st) ->
  (forall x, ~ Pchanged x -> h' !! x = h !! x) ->
  (forall x, Decision (Pchanged x)) ->
  queue_ok h' st' q' /\ rest_of h' <$> buys q' = rest_of h <$> buys q' /\ rest_of h' <$> sells q' = rest_of h <$> sells q'.
Proof.
  intros Hq Hne Hc Hf Hdec.
  assert (Hext : forall e, e ∈ buys q' ++ sells q' -> h' !! e_ptr e = h !! e_ptr e).
  { intros e He. destruct (Hdec (e_ptr e)) as [Hp|Hp]; [|by apply Hf]. exfalso.
    destruct (Hc _ Hp) as [Hx|(o & Ho & Hst)]; [by apply (Hx e)|].
    assert (Hr : exists k, resting h st' k e).
    { apply elem_of_app in He as [He|He]; eexists; [by apply (qo_buys h st' q')|by apply (qo_sells h st' q')]. }
    destruct Hr as (k & o' & Ho' & _ & _ & Hst' & _). rewrite Ho in Ho'. injection Ho' as <-. congruence. }
  split; [by eapply queue_ok_ext|]. split; apply rest_of_ext; intros e He; apply Hext, elem_of_app; auto.
Qed.

(** After the work on a stock's queue: it is written back, the other stocks are as before. *)
Lemma finish mine other st p o q m m1 r res q2 :
  sides mine other -> m_ok m -> unused p m -> slab m1 = slab m ->
  (forall st', st' <> st -> matchQueues m1 !! st' = matchQueues m !! st') ->
  queue_ok (orders m) st q -> loop_post mine other st p o q m1 r res -> queue_ok (orders res.2) st q2 ->
  m_ok (put_queues st q2 res.2) /\
  (forall st', st' <> st -> book_of (put_queues st q2 res.2) st' = book_of m st').
Proof.
  intros Hsd Hm Hu Hsl Hqs Hq [P1 P2 P3 P4 P5 P6 P7 P8 P9] Hq2. destruct res as [[filled q'] m']. cbn [fst snd] in *.
  assert (Hfr : forall st' qx, st' <> st -> matchQueues m !! st' = Some qx ->
    queue_ok (orders m') st' qx /\ rest_of (orders m') <$> buys qx = rest_of (orders m) <$> buys qx /\
    rest_of (orders m') <$> sells qx = rest_of (orders m) <$> sells qx).
  { intros st' qx Hne Hx.
    apply (frame_other (orders m) (orders m') st st' qx (fun x => x = p \/ x ∈ e_ptr <$> other q)).
    - by apply Hm.
    - done.
    - intros x [->|Hx']; [left; by apply (Hu st' qx)|right]. apply list_elem_of_fmap in Hx' as (e & -> & He).
      destruct (other_resting mine other (orders m) st q e Hsd Hq He) as (oe & H1 & _ & _ & H2 & _). by exists oe.
    - intros x Hx'. rewrite P7 by tauto. unfold orders. by rewrite Hsl.
    - intros x. apply _. }
  assert (Hlook : forall st', st' <> st -> matchQueues (put_queues st q2 m') !! st' = matchQueues m !! st').
  { intros st' Hne. cbn [put_queues matchQueues]. by rewrite lookup_insert_ne, P1, Hqs. }
  split; [split; [exact P2|]|].
  - intros st' qx Hx. destruct (decide (st' = st)) as [->|Hne].
    + cbn [put_queues matchQueues] in Hx. rewrite lookup_insert_eq in Hx. injection Hx as <-. exact Hq2.
    + rewrite Hlook in Hx by done. by apply (Hfr st' qx).
  - intros st' Hne. unfold book_of. rewrite Hlook by done. destruct (matchQueues m !! st') as [qx|] eqn:Ex; [|done].
    destruct (Hfr st' qx Hne Ex) as (_ & H1 & H2). change (orders (put_queues st q2 m')) with (orders m'). by rewrite H1, H2.
Qed.

Lemma book_put st q m : book_of (put_queues st q m) st = (rest_of (orders m) <$> buys q, rest_of (orders m) <$> sells q).
Proof. unfold book_of. cbn [put_queues matchQueues]. by rewrite lookup_insert_eq. Qed.

(** What a loop leaves of the incoming order's own side. *)
Lemma loop_mine mine other st p o q m r res : sides mine other -> queue_ok (orders m) st q -> unqueued p q ->
  loop_post mine other st p o q m r res ->
  rest_of (orders res.2) <$> mine res.1.2 = rest_of (orders m) <$> mine q /\ unqueued p res.1.2.
Proof.
  intros Hsd Hq Hu Hp. destruct Hp as [P1 P2 P3 P4 P5 P6 P7 P8 P9]. split.
  - rewrite P4. apply rest_of_ext. intros e He. apply P7.
    + apply Hu, elem_of_app. destruct Hsd as [[-> ->]|[-> ->]]; auto.
    + intros Hx. apply list_elem_of_fmap in Hx as (e' & Heq & He').
      destruct Hsd as [[-> ->]|[-> ->]]; [by apply (resting_disjoint (orders m) st q e e')|].
      symmetry in Heq. by apply (resting_disjoint (orders m) st q e' e).
  - intros e He. apply Hu. apply elem_of_app in He. apply elem_of_app.
    destruct Hsd as [[-> ->]|[-> ->]]; rewrite P4 in He; (destruct He as [He|He]; [|]); auto;
      [right|left]; by eapply elem_of_sublist.
Qed.

Record unchanged_but (st : Z) (m m' : M) : Prop := {
  ub_ok : m_ok m';
  ub_other : forall st', st' <> st -> book_of m' st' = book_of m st'
}.

Lemma addBuy_spec fuel p o m : m_ok m -> unused p m -> incoming m (stockId o) p o -> kind o = Msg.BUY ->
  0 < o_price o < 2 ^ 64 -> fits (o_price o) -> (length (book_of m (stockId o)).2 < fuel)%nat ->
  let '(ts, b) := spec_buy (mkRest (o_price o) (o_guid o) (amount o)) (book_of m (stockId o)) in
  exists m', addBuy fuel p m = Ret m' /\ unchanged_but (stockId o) m m' /\ book_of m' (stockId o) = b /\
    out m' = out m ++ (ts ≫= trade_msgs (stockId o)).
Proof.
  intros Hm Hu Hi Hk Hp Hfit Hfuel. unfold spec_buy. cbn [r_price r_guid r_amount]. unfold addBuy.
  run (get_order p o m (in_get _ _ _ _ Hi)). destruct (Z.eqb_spec (o_price o) Msg.MARKET_PRICE) as [Hz|_]; [unfold Msg.MARKET_PRICE in Hz; lia|].
  set (st := stockId o) in *. pose proof (getMatchQueues_spec st m Hm) as Hg.
  destruct (getMatchQueues st m) as [q m1]. destruct Hg as (Hm1 & Hq & Hsl & Ho1 & Hbk & Hqs & Huq & _).
  assert (Ho : orders m1 = orders m) by (unfold orders; by rewrite Hsl).
  pose proof (Huq p Hu) as Hpq. assert (Hi1 : incoming m1 st p o) by (destruct Hi; split; [by rewrite Ho|done..]).
  destruct (fillableBuy_spec fuel st p o q m1) as (res & E1 & Hpost); [apply Hm1|by rewrite Ho|done|done| |].
  { rewrite <- Hbk in Hfuel. cbn [snd] in Hfuel. by rewrite length_fmap in Hfuel. }
  run E1. rewrite Ho in Hpost. replace (rest_of (orders m) <$> sells q) with ((book_of m st).2) in Hpost by (by rewrite <- Hbk).
  destruct (loop_mine buys sells st p o q m1 _ res (or_introl (conj eq_refl eq_refl)) ltac:(by rewrite Ho) Hpq Hpost) as [Hmine Hunq].
  pose proof Hpost as [P1 P2 P3 P4 P5 P6 P7 P8 P9].
  destruct (match_buy _ _ _ _) as [[ts ss] rem]. destruct res as [[filled q'] m']. cbn [fst snd] in *.
  rewrite Ho in Hmine. rewrite <- Hbk. cbn [fst].
  pose proof (fun q2 => finish buys sells st p o q m m1 _ _ q2 (or_introl (conj eq_refl eq_refl)) Hm Hu Hsl Hqs Hq Hpost) as Hfin.
  cbn [snd] in Hfin. rewrite Ho1 in P8. destruct rem as [a|].
  - destruct P9 as (-> & Ha & Hp'). run (get_order p _ m' Hp').
    destruct (PushBuy_ok (entry_of p (with_amount a o)) q' (qo_ok _ _ _ P3) Hfit Hunq) as (q2 & E2 & Hq2 & Hb2 & Hs2). run E2.
    assert (Hok2 : queue_ok (orders m') st q2).
    { apply (queue_ok_add (orders m') st q' q2 Msg.BUY p (with_amount a o)); try done; [apply Hi|cbn; lia|]. left.
      split; [done|]. split; [|done]. rewrite Hb2. apply insert_buy_perm. }
    destruct (Hfin q2 Hok2) as [F1 F2]. eexists. split; [reflexivity|]. split; [by split|]. split; [|exact P8].
    rewrite book_put, Hb2, Hs2, insert_buy_rest, P6, Hmine. f_equal. f_equal. unfold rest_of. cbn [e_ptr entry_of]. by rewrite Hp'.
  - subst filled. destruct (Hfin q' P3) as [F1 F2]. eexists. split; [reflexivity|]. split; [by split|]. split; [|exact P8].
    by rewrite book_put, P6, Hmine.
Qed.

Lemma addSell_spec fuel p o m : m_ok m -> unused p m -> incoming m (stockId o) p o -> kind o = Msg.SELL ->
  0 <= o_price o < 2 ^ 64 -> fits (o_price o) -> (length (book_of m (stockId o)).1 < fuel)%nat ->
  let '(ts, b) := spec_sell (mkRest (o_price o) (o_guid o) (amount o)) (book_of m (stockId o)) in
  exists m', addSell fuel p m = Ret m' /\ unchanged_but (stockId o) m m' /\ book_of m' (stockId o) = b /\
    out m' = out m ++ (ts ≫= trade_msgs (stockId o)).
Proof.
  intros Hm Hu Hi Hk Hp Hfit Hfuel. unfold spec_sell. cbn [r_price r_guid r_amount]. unfold addSell.
  run (get_order p o m (in_get _ _ _ _ Hi)).
  set (st := stockId o) in *. pose proof (getMatchQueues_spec st m Hm) as Hg.
  destruct (getMatchQueues st m) as [q m1]. destruct Hg as (Hm1 & Hq & Hsl & Ho1 & Hbk & Hqs & Huq & _).
  assert (Ho : orders m1 = orders m) by (unfold orders; by rewrite Hsl).
  pose proof (Huq p Hu) as Hpq. assert (Hi1 : incoming m1 st p o) by (destruct Hi; split; [by rewrite Ho|done..]).
  destruct (fillableSell_spec fuel st p o q m1) as (res & E1 & Hpost); [apply Hm1|by rewrite Ho|done|done| |].
  { rewrite <- Hbk in Hfuel. cbn [fst] in Hfuel. by rewrite length_fmap in Hfuel. }
  run E1. rewrite Ho in Hpost. replace (rest_of (orders m) <$> buys q) with ((book_of m st).1) in Hpost by (by rewrite <- Hbk).
  destruct (loop_mine sells buys st p o q m1 _ res (or_intror (conj eq_refl eq_refl)) ltac:(by rewrite Ho) Hpq Hpost) as [Hmine Hunq].
  pose proof Hpost as [P1 P2 P3 P4 P5 P6 P7 P8 P9].
  destruct (match_sell _ _ _ _) as [[ts bs] rem]. destruct res as [[filled q'] m']. cbn [fst snd] in *.
  rewrite Ho in Hmine. rewrite <- Hbk. cbn [snd].
  pose proof (fun q2 => finish sells buys st p o q m m1 _ _ q2 (or_intror (conj eq_refl eq_refl)) Hm Hu Hsl Hqs Hq Hpost) as Hfin.
  cbn [snd] in Hfin. rewrite Ho1 in P8. destruct rem as [a|].
  - destruct P9 as (-> & Ha & Hp'). run (get_order p _ m' Hp').
    destruct (PushSell_ok (entry_of p (with_amount a o)) q' (qo_ok _ _ _ P3) Hfit Hunq) as (q2 & E2 & Hq2 & Hs2 & Hb2). run E2.
    assert (Hok2 : queue_ok (orders m') st q2).
    { apply (queue_ok_add (orders m') st q' q2 Msg.SELL p (with_amount a o)); try done; [apply Hi|]. right.
      split; [done|]. split; [|done]. rewrite Hs2. apply insert_sell_perm. }
    destruct (Hfin q2 Hok2) as [F1 F2]. eexists. split; [reflexivity|]. split; [by split|]. split; [|exact P8].
    rewrite book_put, Hb2, Hs2, insert_sell_rest, P6, Hmine. f_equal. f_equal. unfold rest_of. cbn [e_ptr entry_of]. by rewrite Hp'.
  - subst filled. destruct (Hfin q' P3) as [F1 F2]. eexists. split; [reflexivity|]. split; [by split|]. split; [|exact P8].
    by rewrite book_put, P6, Hmine.
Qed.

(** *** Cancelling *)

(** The ids packed into a guid come back out of it. *)
Lemma id_signed z : 0 <= z < 2 ^ 32 -> u32 (swrap 32 z) = z /\ int32 (swrap 32 z).
Proof. intros Hz. split; [by rewrite wrap_swrap, wrap_id by lia|]. by apply (swrap_range 32). Qed.

Lemma guid_ids `{HF : !FmathSpec} t d : 0 <= t < 2 ^ 32 -> 0 <= d < 2 ^ 32 ->
  tid (make_guid t d) = t /\ trid (make_guid t d) = d.
Proof.
  intros Ht Hd. destruct (id_signed t Ht) as [Ht1 Ht2], (id_signed d Hd) as [Hd1 Hd2]. unfold tid, trid, make_guid.
  rewrite i64_u64 by (by apply combine_range). by rewrite high_combine, low_combine.
Qed.

Inductive cancelled (g : Z) (b : book) : option rest -> book -> Prop :=
| cancelled_none : (forall r, r ∈ b.1 ++ b.2 -> r_guid r <> g) -> cancelled g b None b
| cancelled_buy r b' : r_guid r = g -> removed r b.1 b'.1 -> b'.2 = b.2 -> cancelled g b (Some r) b'
| cancelled_sell r b' : r_guid r = g -> removed r b.2 b'.2 -> b'.1 = b.1 -> cancelled g b (Some r) b'.

Definition cancel_msg (o : Msg.Message) (g : Z) (r : option rest) : Msg.Message :=
  match r with
  | Some r => Msg.mkMessage Msg.CANCELLED (r_price r) (r_amount r) (Msg.StockId o) (tid g) (trid g)
  | None => with_kind Msg.NOT_CANCELLED o
  end.

(** A queue from which an order was taken. *)
Lemma queue_ok_removed h st q q' e : queue_ok h st q -> q_ok q' ->
  (removed e (buys q) (buys q') /\ sells q' = sells q) \/ (removed e (sells q) (sells q') /\ buys q' = buys q) ->
  queue_ok h st q' /\ unqueued (e_ptr e) q' /\ (exists k, resting h st k e) /\
  (forall x, x ∈ buys q' ++ sells q' -> x ∈ buys q ++ sells q).
Proof.
  intros Hq Hq' Hc. pose proof Hq as [_ H2 H3 [N1 N2]]. destruct Hc as [[Hr Hs]|[Hr Hs]].
  - pose proof (removed_perm _ _ _ Hr) as Hp. destruct (removed_nodup e _ _ Hr N1) as [N3 N4].
    assert (He : e ∈ buys q) by (rewrite Hp; by left).
    assert (Hsub : forall x, x ∈ buys q' -> x ∈ buys q) by (intros x Hx; rewrite Hp; by right).
    split_and!; [split; rewrite ?Hs; auto| |eexists; by apply H2|].
    + intros x Hx. apply elem_of_app in Hx as [Hx|Hx]; [by apply N4|]. rewrite Hs in Hx. intros Heq.
      by apply (resting_disjoint h st q e x).
    + intros x Hx. rewrite Hs in Hx. apply elem_of_app in Hx. apply elem_of_app. destruct Hx; auto.
  - pose proof (removed_perm _ _ _ Hr) as Hp. destruct (removed_nodup e _ _ Hr N2) as [N3 N4].
    assert (He : e ∈ sells q) by (rewrite Hp; by left).
    assert (Hsub : forall x, x ∈ sells q' -> x ∈ sells q) by (intros x Hx; rewrite Hp; by right).
    split_and!; [split; rewrite ?Hs; auto| |eexists; by apply H3|].
    + intros x Hx. apply elem_of_app in Hx as [Hx|Hx]; [|by apply N4]. rewrite Hs in Hx.
      by apply (resting_disjoint h st q x e).
    + intros x Hx. rewrite Hs in Hx. apply elem_of_app in Hx. apply elem_of_app. destruct Hx; auto.
Qed.

Lemma cancelled_book g h q q' r : match r with
    | None => buys q' = buys q /\ sells q' = sells q /\ forall e, e ∈ buys q ++ sells q -> e_guid e <> g
    | Some e => e_guid e = g /\
        ((removed e (buys q) (buys q') /\ sells q' = sells q) \/ (removed e (sells q) (sells q') /\ buys q' = buys q))
    end ->
  cancelled g (rest_of h <$> buys q, rest_of h <$> sells q) (rest_of h <$> r) (rest_of h <$> buys q', rest_of h <$> sells q').
Proof.
  destruct r as [e|].
  - intros [Hg [[Hr Hs]|[Hr Hs]]]; [apply cancelled_buy|apply cancelled_sell]; try done; cbn; try (by apply removed_fmap); by rewrite Hs.
  - intros (Hb & Hs & Hn). rewrite Hb, Hs. apply cancelled_none. cbn. intros r. rewrite <- fmap_app.
    intros (e & -> & He)%list_elem_of_fmap. by apply Hn.
Qed.

(** Giving back orders that are in no queue changes no book. *)
Lemma same_books m m' st q (gone : list ptr) :
  m_ok m -> slab_fine m' -> queue_ok (orders m) st q ->
  (forall st', matchQueues m' !! st' = if decide (st' = st) then Some q else matchQueues m !! st') ->
  (forall x, x ∉ gone -> orders m' !! x = orders m !! x) ->
  (forall x, x ∈ gone -> unqueued x q /\ (unused x m \/ exists o, orders m !! x = Some o /\ stockId o = st)) ->
  unchanged_but st m m' /\ book_of m' st = (rest_of (orders m) <$> buys q, rest_of (orders m) <$> sells q).
Proof.
  intros Hm Hsl Hq Hl Hf Hg.
  assert (Hfr : forall st' qx, st' <> st -> matchQueues m !! st' = Some qx ->
    queue_ok (orders m') st' qx /\ rest_of (orders m') <$> buys qx = rest_of (orders m) <$> buys qx /\
    rest_of (orders m') <$> sells qx = rest_of (orders m) <$> sells qx).
  { intros st' qx Hne Hx. apply (frame_other (orders m) (orders m') st st' qx (fun x => x ∈ gone)); [by apply Hm|done| |done|].
    - intros x Hx'. destruct (Hg x Hx') as [_ [Hu|Ho]]; [left; by apply (Hu st' qx)|by right].
    - intros x. apply _. }
  assert (Hext : forall e, e ∈ buys q ++ sells q -> orders m' !! e_ptr e = orders m !! e_ptr e).
  { intros e He. apply Hf. intros Hin. destruct (Hg _ Hin) as [Hu _]. by apply (Hu e He). }
  split; [split; [split; [done|]|]|].
  - intros st' qx Hx. rewrite Hl in Hx. destruct (decide (st' = st)) as [->|Hne].
    + injection Hx as <-. by apply (queue_ok_ext (orders m)).
    + by apply (Hfr st' qx).
  - intros st' Hne. unfold book_of. rewrite Hl, decide_False by done. destruct (matchQueues m !! st') as [qx|] eqn:Ex; [|done].
    destruct (Hfr st' qx Hne Ex) as (_ & -> & ->). done.
  - unfold book_of. rewrite Hl, decide_True by done. f_equal; apply rest_of_ext; intros e He; apply Hext, elem_of_app; auto.
Qed.

Lemma cancel_order_spec p o m : m_ok m -> unused p m -> incoming m (stockId o) p o ->
  exists m' r, cancel p m = Ret m' /\ unchanged_but (stockId o) m m' /\
    cancelled (o_guid o) (book_of m (stockId o)) r (book_of m' (stockId o)) /\
    out m' = out m ++ [cancel_msg (CopyTo o) (o_guid o) r].
Proof.
  intros Hm Hu Hi. unfold cancel. run (get_order p o m (in_get _ _ _ _ Hi)).
  set (st := stockId o) in *. pose proof (getMatchQueues_spec st m Hm) as Hg.
  destruct (getMatchQueues st m) as [q m1]. destruct Hg as (Hm1 & Hq & Hsl & Ho1 & Hbk & Hqs & Huq & _).
  pose proof (Huq p Hu) as Hpq. destruct (Cancel_ok (o_guid o) q (qo_ok _ _ _ Hq)) as (ro & q' & E1 & Hq' & Hro). run E1.
  pose proof (cancelled_book (o_guid o) (orders m) q q' ro Hro) as Hc. rewrite Hbk in Hc.
  assert (Hord : orders (put_queues st q' m1) = orders m) by (unfold orders; by cbn; rewrite Hsl).
  assert (Hfine : slab_fine (put_queues st q' m1)) by apply Hm1.
  assert (Hlook : forall st', matchQueues (put_queues st q' m1) !! st' = if decide (st' = st) then Some q' else matchQueues m !! st').
  { intros st'. cbn [put_queues matchQueues]. destruct (decide (st' = st)) as [->|Hne]; [by rewrite lookup_insert_eq|].
    rewrite lookup_insert_ne by done. by apply Hqs. }
  set (m2 := put_queues st q' m1) in *. assert (Hout : out m2 = out m) by done. clearbody m2. destruct ro as [e|].
  - destruct Hro as [Hge Hro]. destruct (queue_ok_removed (orders m) st q q' e Hq Hq' Hro) as (Hqq & Hue & (k & oe & Hoe & Hne & Hee & Hse & _) & Hsub).
    assert (Hep : e_ptr e <> p).
    { apply Hpq. destruct Hro as [[Hr _]|[Hr _]]; apply removed_perm in Hr; apply elem_of_app; rewrite Hr; [left|right]; by left. }
    unfold completeCancelled. rewrite Hord. cbn [mbind outcome_bind]. unfold get. rewrite Hoe. cbn [mbind outcome_bind].
    set (m3 := write _ m2). assert (Hm3 : orders m3 = orders m) by done.
    destruct (free_order_spec (e_ptr e) oe m3) as (m4 & n4 & E4 & F1 & F2 & F3 & F4 & F5); [done|by rewrite Hm3|done|]. run E4.
    destruct (free_order_spec p o m4) as (m5 & n5 & E5 & G1 & G2 & G3 & G4 & G5); [done|rewrite F5, Hm3 by done; apply Hi|apply Hi|].
    destruct (same_books m m5 st q' [e_ptr e; p] Hm G1 Hqq) as [HA HB].
    + intros st'. rewrite G2, F2. apply Hlook.
    + intros x Hx. rewrite G5, F5, Hm3; set_solver.
    + intros x Hx. apply elem_of_cons in Hx as [->|Hx]; [split; [done|]; right; by exists oe|].
      apply list_elem_of_singleton in Hx as ->. split; [|by left]. intros x Hx. by apply Hpq, Hsub.
    + exists m5, (Some (rest_of (orders m) e)). split; [done|]. split; [done|]. rewrite HB. split; [exact Hc|].
      rewrite G3, F3. cbn [out m3 write]. rewrite Hout. f_equal. f_equal. rewrite <- Hge, Hee.
      unfold cancel_msg, rest_of, with_kind, CopyTo, TraderId, TradeId, tid, trid. cbn. rewrite Hoe. cbn. by rewrite Hse.
  - destruct Hro as (Hb & Hs & _). unfold completeNotCancelled. rewrite Hord. run (get_order p o m (in_get _ _ _ _ Hi)).
    set (m3 := write _ m2). assert (Hm3 : orders m3 = orders m) by done.
    destruct (free_order_spec p o m3) as (m5 & n5 & E5 & G1 & G2 & G3 & G4 & G5); [done|rewrite Hm3; apply Hi|apply Hi|].
    destruct (same_books m m5 st q' [p] Hm G1) as [HA HB].
    + destruct Hq. split; rewrite ?Hb, ?Hs; done.
    + intros st'. rewrite G2. apply Hlook.
    + intros x Hx. rewrite G5, Hm3; set_solver.
    + intros x Hx. apply list_elem_of_singleton in Hx as ->. split; [|by left]. intros x Hx. apply Hpq. by rewrite <- Hb, <- Hs.
    + exists m5, None. split; [done|]. split; [done|]. rewrite HB. split; [exact Hc|]. rewrite G3. cbn [out m3 write]. by rewrite Hout.
Qed.

(** *** Submitting *)

(** An order the matcher accepts: a buy with a price, a sell, or a cancel. *)
Definition accepted (o : Msg.Message) : Prop :=
  Msg.Message_ok o /\
  ((Msg.Kind o = Msg.BUY /\ Msg.Price o <> Msg.MARKET_PRICE /\ fits (Msg.Price o)) \/
   (Msg.Kind o = Msg.SELL /\ fits (Msg.Price o)) \/ Msg.Kind o = Msg.CANCEL).

Definition guid_of (o : Msg.Message) : Z := make_guid (Msg.TraderId o) (Msg.TradeId o).

Definition rest_msg (o : Msg.Message) : rest := mkRest (Msg.Price o) (guid_of o) (Msg.Amount o).

(** What submitting a message does to the book of its stock, and what it reports. *)
Inductive submitted (o : Msg.Message) (b : book) : list Msg.Message -> book -> Prop :=
| submitted_buy ts b' : Msg.Kind o = Msg.BUY -> spec_buy (rest_msg o) b = (ts, b') ->
    submitted o b (ts ≫= trade_msgs (Msg.StockId o)) b'
| submitted_sell ts b' : Msg.Kind o = Msg.SELL -> spec_sell (rest_msg o) b = (ts, b') ->
    submitted o b (ts ≫= trade_msgs (Msg.StockId o)) b'
| submitted_cancel r b' : Msg.Kind o = Msg.CANCEL -> cancelled (guid_of o) b r b' ->
    submitted o b [cancel_msg o (guid_of o) r] b'.

(** The number of orders resting for a stock. *)
Definition depth (b : book) : nat := (length b.1 + length b.2)%nat.

(** The order allocated for a message. *)
Lemma alloc_spec o m : m_ok m -> Msg.Message_ok o ->
  exists on s m', Malloc (slab m) = Ret (on, s) /\ orders (set_slab s m) !! on <> None /\
    (forall n, orders (set_slab s m) !! on = Some n ->
       let c := CopyFrom o n in
       m' = set_order on c (set_slab s m) /\ incoming m' (Msg.StockId o) on c) /\
    unused on m' /\ m_ok m' /\ out m' = out m /\ (forall st, book_of m' st = book_of m st).
Proof.
  intros [[l Hl] Hqs] Ho. destruct (Malloc_spec _ l Hl) as (on & s & l' & E1 & Hs & Hn & (n & Hon & Hnn) & Hfr).
  set (m' := set_order on (CopyFrom o n) (set_slab s m)).
  assert (Hu : unused on m).
  { intros st q Hq e He Heq. apply Hn. rewrite <- Heq. assert (Hr : exists k, resting (orders m) st k e).
    { apply elem_of_app in He as [He|He]; eexists; [by apply (qo_buys _ _ _ (Hqs _ _ Hq))|by apply (qo_sells _ _ _ (Hqs _ _ Hq))]. }
    destruct Hr as (k & x & Hx & Hxn & _). by exists x. }
  assert (Hext : forall st q e, matchQueues m !! st = Some q -> e ∈ buys q ++ sells q -> orders m' !! e_ptr e = orders m !! e_ptr e).
  { intros st q e Hq He. pose proof (Hu st q Hq e He) as Hne. unfold m', orders. cbn [set_order set_slab slab slab_orders].
    rewrite lookup_insert_ne by done. unfold orders. cbn [set_slab slab slab_orders]. by apply Hfr. }
  exists on, s, m'. split; [done|]. split; [unfold orders; cbn; by rewrite Hon|]. split; [|split; [exact Hu|split; [split|split; [done|]]]].
  - intros n' Hn'. unfold orders in Hn'. cbn [set_slab slab] in Hn'. rewrite Hon in Hn'. injection Hn' as <-. split; [done|].
    split; [unfold m', orders; cbn; by rewrite lookup_insert_eq|exact Hnn|done|apply Ho].
  - exists l'. by apply (slab_set s l' on n).
  - intros st q Hq. apply (queue_ok_ext (orders m)); [by intros e He; apply (Hext st q)|by apply Hqs].
  - intros st. unfold book_of. change (matchQueues m') with (matchQueues m). destruct (matchQueues m !! st) as [q|] eqn:Eq; [|done].
    f_equal; apply rest_of_ext; intros e He; apply (Hext st q e Eq), elem_of_app; auto.
Qed.

Lemma CopyTo_CopyFrom `{HF : !FmathSpec} o n : Msg.Message_ok o -> CopyTo (CopyFrom o n) = o.
Proof.
  intros (_ & _ & _ & _ & Ht & Hd). destruct (guid_ids _ _ Ht Hd) as [H1 H2]. unfold tid, trid in H1, H2.
  unfold CopyTo, CopyFrom, TraderId, TradeId. cbn. rewrite H1, H2. by destruct o.
Qed.

Lemma Submit_spec `{HF : !FmathSpec} fuel o m : m_ok m -> accepted o -> (depth (book_of m (Msg.StockId o)) < fuel)%nat ->
  exists m' ms, Submit fuel o m = Ret m' /\ unchanged_but (Msg.StockId o) m m' /\ out m' = out m ++ ms /\
    submitted o (book_of m (Msg.StockId o)) ms (book_of m' (Msg.StockId o)).
Proof.
  intros Hm [Ho Hk] Hf. unfold depth in Hf. destruct (alloc_spec o m Hm Ho) as (on & s & m1 & E1 & Hsome & Hget & Hu & Hm1 & Ho1 & Hb1).
  unfold Submit. run E1. unfold get at 1. destruct (orders (set_slab s m) !! on) as [n|] eqn:En; [|done]. cbn [mbind outcome_bind].
  destruct (Hget n eq_refl) as [<- Hi]. pose proof Ho as (_ & Hp & Ha & _). rewrite <- Hb1 in *.
  assert (Hback : forall m', unchanged_but (Msg.StockId o) m1 m' -> unchanged_but (Msg.StockId o) m m').
  { intros m' [Hok Hoth]. split; [done|]. intros st' Hne. by rewrite Hoth, Hb1. }
  destruct Hk as [(Hk & Hpr & Hfit)|[(Hk & Hfit)|Hk]]; rewrite Hk; cbn [Z.eqb Pos.eqb Msg.BUY Msg.SELL Msg.CANCEL].
  - pose proof (addBuy_spec fuel on (CopyFrom o n) m1 Hm1 Hu Hi Hk ltac:(unfold Msg.MARKET_PRICE in Hpr; cbn; lia) Hfit ltac:(cbn; lia)) as Hspec.
    change (mkRest _ _ _) with (rest_msg o) in Hspec. cbn [CopyFrom stockId] in Hspec.
    destruct (spec_buy (rest_msg o) _) as [ts b] eqn:Es. destruct Hspec as (m' & E2 & Hub & Hbk & Hout).
    exists m', (ts ≫= trade_msgs (Msg.StockId o)). rewrite Hout, Ho1, Hbk. split_and!; auto. by apply submitted_buy.
  - pose proof (addSell_spec fuel on (CopyFrom o n) m1 Hm1 Hu Hi Hk Hp Hfit ltac:(cbn; lia)) as Hspec.
    change (mkRest _ _ _) with (rest_msg o) in Hspec. cbn [CopyFrom stockId] in Hspec.
    destruct (spec_sell (rest_msg o) _) as [ts b] eqn:Es. destruct Hspec as (m' & E2 & Hub & Hbk & Hout).
    exists m', (ts ≫= trade_msgs (Msg.StockId o)). rewrite Hout, Ho1, Hbk. split_and!; auto. by apply submitted_sell.
  - destruct (cancel_order_spec on (CopyFrom o n) m1 Hm1 Hu Hi) as (m' & r & E2 & Hub & Hc & Hout). rewrite CopyTo_CopyFrom in Hout by done.
    exists m', [cancel_msg o (guid_of o) r]. rewrite Hout, Ho1. split_and!; auto. by apply submitted_cancel.
Qed.

(** The messages the matcher panics on. *)
Lemma Submit_panics fuel o m : m_ok m -> Msg.Message_ok o ->
  (Msg.Kind o = Msg.BUY /\ Msg.Price o = Msg.MARKET_PRICE) \/
  (Msg.Kind o <> Msg.BUY /\ Msg.Kind o <> Msg.SELL /\ Msg.Kind o <> Msg.CANCEL) ->
  Submit fuel o m = Panic.
Proof.
  intros Hm Ho Hk. destruct (alloc_spec o m Hm Ho) as (on & s & m1 & E1 & Hsome & Hget & _).
  unfold Submit. run E1. unfold get at 1. destruct (orders (set_slab s m) !! on) as [n|] eqn:En; [|done]. cbn [mbind outcome_bind].
  destruct (Hget n eq_refl) as [<- Hi]. destruct Hk as [[-> Hp]|(H1 & H2 & H3)].
  - cbn [Z.eqb Pos.eqb Msg.BUY]. unfold addBuy. run (get_order on _ m1 (in_get _ _ _ _ Hi)). cbn [CopyFrom o_price]. by rewrite Hp.
  - apply Z.eqb_neq in H1, H2, H3. by rewrite H1, H2, H3.
Qed.

End matcher.
