(* ===== verification/RefQueues.v ===== *)
(** matching_engine/matcher/pqueue/refprioq.go, public_refprioq.go: the reference match
    queues behave as two lists in order of price and arrival. *)

From Stdlib Require Import ZArith Lia.
From stdpp Require Import base numbers option list sets.
From S2P Require Import Prelude MatchBook.
#[local] Open Scope Z_scope.

(** A call of a RefMatchQueues method; Cancel is called with the guid of its order. *)
Inductive qop :=
| OPushBuy (e : entry) | OPushSell (e : entry)
| OPeekBuy | OPeekSell | OPopBuy | OPopSell
| OCancel (guid : Z).

(** The order a call returns, and the queues after it. *)
Definition ref_step (op : qop) (m : RefMatchQueues) : outcome unit (option entry * RefMatchQueues) :=
  match op with
  | OPushBuy e => m ← ref_PushBuy e m; Ret (None, m)
  | OPushSell e => m ← ref_PushSell e m; Ret (None, m)
  | OPeekBuy => Ret (ref_PeekBuy m, m)
  | OPeekSell => Ret (ref_PeekSell m, m)
  | OPopBuy => ref_PopBuy m
  | OPopSell => ref_PopSell m
  | OCancel g => Ret (ref_Cancel g m)
  end.

Fixpoint ref_run (ops : list qop) (m : RefMatchQueues) : outcome unit (list (option entry) * RefMatchQueues) :=
  match ops with
  | [] => Ret ([], m)
  | op :: ops => '(r, m) ← ref_step op m; '(rs, m) ← ref_run ops m; Ret (r :: rs, m)
  end.

(** The same calls on two lists. *)
Definition lists : Type := list entry * list entry.

Definition list_step (op : qop) (l : lists) : option entry * lists :=
  let '(b, s) := l in
  match op with
  | OPushBuy e => (None, (insert_buy e b, s))
  | OPushSell e => (None, (b, insert_sell e s))
  | OPeekBuy => (head b, l)
  | OPeekSell => (head s, l)
  | OPopBuy => (head b, (tail b, s))
  | OPopSell => (head s, (b, tail s))
  | OCancel g =>
      match cancel_row g b with
      | Some (e, b) => (Some e, (b, s))
      | None => match cancel_row g s with Some (e, s) => (Some e, (b, s)) | None => (None, l) end
      end
  end.

Fixpoint list_run (ops : list qop) (l : lists) : list (option entry) * lists :=
  match ops with
  | [] => ([], l)
  | op :: ops => let '(r, l) := list_step op l in let '(rs, l) := list_run ops l in (r :: rs, l)
  end.

Definition pushed (op : qop) : list entry :=
  match op with OPushBuy e | OPushSell e => [e] | _ => [] end.

(** *** Lemmas *)

Lemma removed_unique (e e' : entry) l l1 l2 : NoDup (e_guid <$> l) -> removed e l l1 -> removed e' l l2 -> e_guid e = e_guid e' ->
  e = e' /\ l1 = l2.
Proof.
  intros Hn (a & b & -> & ->) (a' & b' & Hl & ->) Hg. revert a' Hl Hn. induction a as [|x a IH]; intros [|x' a'] Hl Hn; cbn in *.
  - by injection Hl as -> ->.
  - injection Hl as -> ->. apply NoDup_cons in Hn as [Hn _]. exfalso. apply Hn. rewrite fmap_app, fmap_cons, Hg. set_solver.
  - injection Hl as -> <-. apply NoDup_cons in Hn as [Hn _]. exfalso. apply Hn. rewrite fmap_app, fmap_cons, <- Hg. set_solver.
  - injection Hl as -> Hl. apply NoDup_cons in Hn as [_ Hn]. destruct (IH a' Hl Hn) as [-> ->]. done.
Qed.

(** What the row scan removes is all a removal of that guid can remove. *)
Lemma cancel_row_some g e (l l' : list entry) : NoDup (e_guid <$> l) -> removed e l l' -> e_guid e = g -> cancel_row g l = Some (e, l').
Proof.
  intros Hn Hr Hg. pose proof (cancel_row_spec g l) as Hc. destruct (cancel_row g l) as [[e1 l1]|].
  - destruct Hc as [Hg1 Hr1]. destruct (removed_unique e e1 l l' l1 Hn Hr Hr1 ltac:(congruence)) as [-> ->]. done.
  - exfalso. apply (Hc e); [|done]. destruct Hr as (a & b & -> & _). set_solver.
Qed.

Lemma cancel_row_none g (l : list entry) : (forall e, e ∈ l -> e_guid e <> g) -> cancel_row g l = None.
Proof.
  intros Hn. pose proof (cancel_row_spec g l) as Hc. destruct (cancel_row g l) as [[e1 l1]|]; [|done].
  destruct Hc as [Hg (a & b & -> & _)]. exfalso. apply (Hn e1); [set_solver|done].
Qed.

Section refinement.
Context (low high : Z) (Hrange : 0 <= low <= high /\ high < 2 ^ 63 - 1).

Definition in_range (op : qop) : Prop := Forall (fun e => low <= e_price e <= high) (pushed op).

Definition view (m : RefMatchQueues) : lists := (desc (ref_buys m), asc (ref_sells m)).

Lemma popMin_nil q : asc q = [] -> popMin q = Ret (None, q).
Proof.
  intros Ha. unfold popMin, pop_row. pose proof (first_nonempty_spec (prios q) 0) as H. unfold asc in Ha.
  destruct (first_nonempty (prios q) 0) as [j|]; [|done]. destruct H as (e & row & _ & Hr & _).
  rewrite Nat.sub_0_r in Hr. rewrite <- (take_drop_middle _ _ _ Hr), concat_app in Ha. apply app_nil in Ha as [_ Ha]. done.
Qed.

Lemma popMax_nil q : desc q = [] -> popMax q = Ret (None, q).
Proof.
  intros Ha. unfold popMax, pop_row. pose proof (last_nonempty_spec (prios q) (length (prios q)) (le_n _)) as H. unfold desc in Ha.
  destruct (last_nonempty _ _) as [j|]; [|done]. destruct H as (e & row & _ & Hr & _).
  rewrite <- (take_drop_middle _ _ _ Hr), reverse_app, reverse_cons, !concat_app in Ha. apply app_nil in Ha as [Ha _].
  apply app_nil in Ha as [_ Ha]. done.
Qed.

Lemma step_refines op m : ref_ok low high m -> in_range op -> NoDup (e_guid <$> (view m).1 ++ (view m).2) ->
  exists r m', ref_step op m = Ret (r, m') /\ ref_ok low high m' /\ list_step op (view m) = (r, view m').
Proof.
  intros Hm Hop Hn. pose proof Hm as [Hb Hs]. destruct op as [e|e| | | | |g]; cbn [ref_step list_step view].
  - unfold in_range in Hop. apply Forall_cons in Hop as [Hop _]. destruct (ref_PushBuy_ok low high Hrange e m Hm Hop) as (m' & -> & Hm' & H1 & H2).
    exists None, m'. unfold view. by rewrite H1, H2.
  - unfold in_range in Hop. apply Forall_cons in Hop as [Hop _]. destruct (ref_PushSell_ok low high Hrange e m Hm Hop) as (m' & -> & Hm' & H1 & H2).
    exists None, m'. unfold view. by rewrite H1, H2.
  - eexists _, m. split; [reflexivity|]. split; [done|]. unfold ref_PeekBuy. by rewrite peekMax_spec.
  - eexists _, m. split; [reflexivity|]. split; [done|]. unfold ref_PeekSell. by rewrite peekMin_spec.
  - unfold ref_PopBuy. destruct (desc (ref_buys m)) as [|e l] eqn:El.
    + rewrite popMax_nil by done. cbn. eexists _, _. split; [reflexivity|]. split; [by split|]. unfold view. cbn. by rewrite El.
    + destruct (popMax_spec low high _ e l Hb El) as (q & -> & Hq & Hd). cbn. eexists _, _. split; [reflexivity|].
      split; [by split|]. unfold view. cbn. by rewrite Hd.
  - unfold ref_PopSell. destruct (asc (ref_sells m)) as [|e l] eqn:El.
    + rewrite popMin_nil by done. cbn. eexists _, _. split; [reflexivity|]. split; [by split|]. unfold view. cbn. by rewrite El.
    + destruct (popMin_spec low high _ e l Hs El) as (q & -> & Hq & Hd). cbn. eexists _, _. split; [reflexivity|].
      split; [by split|]. unfold view. cbn. by rewrite Hd.
  - destruct (ref_Cancel_ok low high Hrange g m Hm) as (r & m' & [= E1] & Hm' & Hc). rewrite E1. exists r, m'. split; [done|]. split; [done|].
    unfold view. cbn [view fst snd] in Hn. pose proof Hn as Hn'. rewrite fmap_app in Hn'. apply NoDup_app in Hn' as (N1 & N12 & N2).
    destruct r as [e|].
    + destruct Hc as [Hg [[Hr Heq]|[Hr Heq]]]; [by rewrite (cancel_row_some g e _ _ N1 Hr Hg), Heq|].
      rewrite cancel_row_none, (cancel_row_some g e _ _ N2 Hr Hg), Heq; [done|]. intros x Hx Hxg.
      apply (N12 (e_guid x)); [by apply list_elem_of_fmap_2|]. rewrite Hxg, <- Hg. apply list_elem_of_fmap_2.
      apply removed_perm in Hr. rewrite Hr. by left.
    + destruct Hc as (-> & -> & Hno). rewrite !cancel_row_none; [done|..]; intros x Hx; apply Hno, elem_of_app; auto.
Qed.

(** Nothing appears in the lists that was not pushed. *)
Lemma list_step_sub op l : let '(_, l') := list_step op l in l'.1 ++ l'.2 ⊆+ l.1 ++ l.2 ++ pushed op.
Proof.
  destruct l as [b s], op as [e|e| | | | |g]; cbn [list_step pushed fst snd]; rewrite ?app_nil_r; try done.
  - rewrite insert_buy_perm, (Permutation_app_comm s). cbn. by rewrite Permutation_middle.
  - rewrite insert_sell_perm, (Permutation_app_comm s). done.
  - apply submseteq_app; [|done]. destruct b; [done|]. by apply submseteq_cons.
  - apply submseteq_app; [done|]. destruct s; [done|]. by apply submseteq_cons.
  - pose proof (cancel_row_spec g b) as Hb. destruct (cancel_row g b) as [[e b']|].
    + destruct Hb as [_ ->%removed_perm]. cbn. by apply submseteq_cons.
    + pose proof (cancel_row_spec g s) as Hs. destruct (cancel_row g s) as [[e s']|]; [|done].
      destruct Hs as [_ ->%removed_perm]. cbn. apply submseteq_app; [done|]. by apply submseteq_cons.
Qed.

Lemma run_refines ops : forall m, ref_ok low high m -> Forall in_range ops ->
  NoDup (e_guid <$> (view m).1 ++ (view m).2 ++ (ops ≫= pushed)) ->
  exists m', ref_run ops m = Ret ((list_run ops (view m)).1, m') /\ ref_ok low high m' /\ view m' = (list_run ops (view m)).2.
Proof.
  induction ops as [|op ops IH]; intros m Hm Ho Hn; [by exists m|]. apply Forall_cons in Ho as [Hop Ho]. cbn [ref_run list_run].
  destruct (step_refines op m Hm Hop) as (r & m1 & E1 & Hm1 & E2).
  { rewrite app_assoc, fmap_app in Hn. by apply NoDup_app in Hn as (Hn & _). }
  pose proof (list_step_sub op (view m)) as Hsub. rewrite E1, E2 in *. cbn [mbind outcome_bind].
  destruct (IH m1 Hm1 Ho) as (m' & E3 & Hm' & E4).
  - apply submseteq_Permutation in Hsub as [k Hk]. cbn [mbind list_bind] in Hn. rewrite !app_assoc in Hn. rewrite <- (app_assoc (view m).1), Hk in Hn.
    rewrite <- !app_assoc, (app_assoc (view m1).1), (Permutation_app_comm k), !app_assoc, fmap_app in Hn. rewrite app_assoc. by apply NoDup_app in Hn as [Hn _].
  - rewrite E3. destruct (list_run ops (view m1)) as [rs l]. cbn in *. by exists m'.
Qed.

(** C38: the reference queues keep, for any calls with prices in their range and distinct guids, the buys by falling and the
    sells by rising price, orders of one price in order of arrival: every push, peek, pop and cancel returns what the same
    call on two such lists returns, and no call panics. *)
Theorem ref_queues_refine ops : Forall in_range ops -> NoDup (e_guid <$> (ops ≫= pushed)) ->
  exists m m', NewRefMatchQueues low high = Ret m /\ ref_run ops m = Ret ((list_run ops ([], [])).1, m') /\
    view m' = (list_run ops ([], [])).2.
Proof.
  intros Ho Hn. destruct (mkPrioq_spec low high Hrange) as (q & E1 & Hq & Ha & Hd). unfold NewRefMatchQueues. rewrite E1.
  cbn [mbind outcome_bind]. destruct (run_refines ops (mkRef q q 0)) as (m' & E2 & _ & E3).
  - by split.
  - done.
  - unfold view. cbn [ref_buys ref_sells fst snd]. by rewrite Ha, Hd.
  - unfold view in E2, E3 at 2. cbn [ref_buys ref_sells] in E2, E3. rewrite Ha, Hd in E2, E3. by exists (mkRef q q 0), m'.
Qed.

End refinement.

Definition demo_ops : list qop :=
  [OPushBuy (mkEntry 0 5 10); OPushBuy (mkEntry 1 7 11); OPushBuy (mkEntry 2 7 12); OPushSell (mkEntry 3 8 13);
   OPeekBuy; OCancel 11; OPopBuy; OPopSell; OPopSell; OCancel 99].

Lemma ref_queues_refine_witness : exists m m', NewRefMatchQueues 1 9 = Ret m /\
  ref_run demo_ops m = Ret ((list_run demo_ops ([], [])).1, m') /\ view m' = ([mkEntry 0 5 10], []).
Proof.
  apply (ref_queues_refine 1 9 ltac:(lia) demo_ops).
  - repeat apply Forall_cons_2; try done; unfold in_range; cbn; repeat constructor; cbn; lia.
  - cbn. apply (bool_decide_unpack _). reflexivity.
Defined.
