(* ===== verification/RbShape.v ===== *)
(** Red-black trees as the code of matcher/pqueue/rbtree.go builds them: their shapes, what the
    repairs after an insertion and after a removal do to a shape, and that the balance is kept.

    The trees are 2-3-4 trees: a black node may have two red children.  The root may be red
    and have red children; below it no red node has a red child.  RbTree.v shows that
    the pointer code makes these changes. *)

From Stdlib Require Import ZArith Lia.
From stdpp Require Import base numbers option list.
From S2P Require Import Prelude.
#[local] Open Scope Z_scope.

(** A node: the order it belongs to, and whether it is the node of the price or of the guid. *)
Definition nid : Type := Z * bool.

(** A tree of nodes with their values; the flag is the field black. *)
Inductive tree :=
| E
| T (c : bool) (l : tree) (n : nid) (v : Z) (r : tree).

Definition isred (t : tree) : bool := match t with T false _ _ _ _ => true | _ => false end.

Definition lt_ (t : tree) : tree := match t with T _ l _ _ _ => l | E => E end.
Definition rt_ (t : tree) : tree := match t with T _ _ _ _ r => r | E => E end.

Fixpoint inorder (t : tree) : list (nid * Z) :=
  match t with E => [] | T _ l n v r => inorder l ++ (n, v) :: inorder r end.

(** ** Balance *)

Fixpoint good (t : tree) (k : nat) : Prop :=
  match t with
  | E => k = 0%nat
  | T true l _ _ r => match k with O => False | S k => good l k /\ good r k end
  | T false l _ _ r => isred l = false /\ isred r = false /\ good l k /\ good r k
  end.

(** Good but for one red child of a red root. *)
Definition almost (t : tree) (k : nat) : Prop :=
  match t with
  | T false l _ _ r => isred l && isred r = false /\ good l k /\ good r k
  | _ => good t k
  end.

(** A whole tree. *)
Definition RB (t : tree) : Prop :=
  match t with E => True | T _ l _ _ r => exists k, good l k /\ good r k end.

Lemma good_almost t k : good t k -> almost t k.
Proof. destruct t as [|[] l n v r]; cbn; [done|done|]. intros (-> & -> & H). done. Qed.

Lemma almost_RB t k : almost t k -> RB t.
Proof. destruct t as [|[] l n v r], k as [|k]; cbn; naive_solver. Qed.

Lemma good_RB t k : good t k -> RB t.
Proof. intros H. by eapply almost_RB, good_almost. Qed.

Definition blacken (t : tree) : tree := match t with T _ l n v r => T true l n v r | E => E end.
Definition redden (t : tree) : tree := match t with T _ l n v r => T false l n v r | E => E end.

(** ** Where a subtree is *)

(** A parent with its other child: the hole is the left child, or the right one. *)
Inductive frame :=
| FL (c : bool) (n : nid) (v : Z) (r : tree)
| FR (c : bool) (l : tree) (n : nid) (v : Z).

Definition fill (f : frame) (t : tree) : tree :=
  match f with FL c n v r => T c t n v r | FR c l n v => T c l n v t end.

(** The frames from the hole up to the root. *)
Definition ctx := list frame.

Fixpoint plug (k : ctx) (t : tree) : tree :=
  match k with [] => t | f :: k => plug k (fill f t) end.

Definition f_black (f : frame) : bool := match f with FL c _ _ _ | FR c _ _ _ => c end.
Definition f_sib (f : frame) : tree := match f with FL _ _ _ r => r | FR _ l _ _ => l end.

Lemma plug_app k1 k2 t : plug (k1 ++ k2) t = plug k2 (plug k1 t).
Proof. revert t. induction k1 as [|f k1 IH]; intros t; [done|]. cbn. apply IH. Qed.

(** The nodes left and right of the hole. *)
Fixpoint before (k : ctx) : list (nid * Z) :=
  match k with
  | [] => []
  | FL _ _ _ _ :: k => before k
  | FR _ l n v :: k => before k ++ inorder l ++ [(n, v)]
  end.

Fixpoint after (k : ctx) : list (nid * Z) :=
  match k with
  | [] => []
  | FL _ n v r :: k => (n, v) :: inorder r ++ after k
  | FR _ _ _ _ :: k => after k
  end.

Lemma inorder_plug k t : inorder (plug k t) = before k ++ inorder t ++ after k.
Proof.
  revert t. induction k as [|[c n v r|c l n v] k IH]; intros t; cbn [plug before after].
  - by rewrite app_nil_r.
  - rewrite IH. cbn [fill inorder]. by rewrite <- app_assoc.
  - rewrite IH. cbn [fill inorder]. by rewrite <- !app_assoc.
Qed.

Lemma before_app x y : before (y ++ x) = before x ++ before y.
Proof. induction y as [|[c n v r|c l n v] y IH]; cbn; [by rewrite app_nil_r|done|]. by rewrite IH, <- app_assoc. Qed.

Lemma after_app x y : after (y ++ x) = after y ++ after x.
Proof. induction y as [|[c n v r|c l n v] y IH]; cbn; [done| |done]. by rewrite IH, <- app_assoc. Qed.

(** Every node of a tree is at the focus of some context. *)
Lemma find_node t n v : (n, v) ∈ inorder t -> exists k c l r, t = plug k (T c l n v r).
Proof.
  induction t as [|c l IHl m w r IHr]; cbn [inorder]; intros Hin; [by apply elem_of_nil in Hin|].
  apply elem_of_app in Hin as [Hin|Hin]; [|apply elem_of_cons in Hin as [[= -> ->]|Hin]].
  - destruct (IHl Hin) as (k & c' & l' & r' & ->). exists (k ++ [FL c m w r]), c', l', r'. by rewrite plug_app.
  - by exists [], c, l, r.
  - destruct (IHr Hin) as (k & c' & l' & r' & ->). exists (k ++ [FR c l m w]), c', l', r'. by rewrite plug_app.
Qed.

(** A context that takes a good tree of black height [k], red or not, and makes a whole tree of it. *)
Fixpoint cok (x : ctx) (k : nat) (red : bool) : Prop :=
  match x with
  | [] => True
  | f :: x' =>
      good (f_sib f) k /\ (f_black f = false -> x' <> [] -> red = false /\ isred (f_sib f) = false) /\
      cok x' (if f_black f then S k else k) (negb (f_black f))
  end.

Lemma cok_black x k red : cok x k red -> cok x k false.
Proof. destruct x as [|f x]; [done|]. cbn. intros (H1 & H2 & H3). split_and!; try done. intros Hf Hx. split; [done|]. by apply H2. Qed.

Lemma plug_RB x : forall t k, good t k -> cok x k (isred t) -> RB (plug x t).
Proof.
  induction x as [|f x IH]; intros t k Ht Hx; cbn [plug]; [by eapply good_RB|]. cbn [cok] in Hx. destruct Hx as (Hs & Hc & Hx).
  destruct x as [|f' x].
  - destruct f as [c n v r|c l n v]; cbn in *; eauto.
  - apply (IH _ (if f_black f then S k else k)).
    + destruct f as [[] n v r|[] l n v]; cbn in *; [done| |done|];
        destruct (Hc eq_refl ltac:(done)) as [H1 H2]; auto.
    + destruct f as [[] n v r|[] l n v]; exact Hx.
Qed.

Lemma RB_plug x : x <> [] -> forall t, RB (plug x t) -> exists k, good t k /\ cok x k (isred t).
Proof.
  induction x as [|f x IH]; intros Hne t Hrb; [done|]. cbn [plug] in Hrb. destruct x as [|f' x].
  - cbn [plug] in Hrb. destruct f as [c n v r|c l n v]; cbn in Hrb; destruct Hrb as (k & H1 & H2); exists k; cbn; naive_solver.
  - destruct (IH ltac:(done) _ Hrb) as (k & Hg & Hk). destruct f as [[] n v r|[] l n v]; cbn [fill good isred] in *.
    + destruct k as [|k]; [done|]. destruct Hg as (H1 & H2). exists k. split; [done|]. cbn. naive_solver.
    + destruct Hg as (H1 & H2 & H3 & H4). exists k. split; [done|]. cbn. naive_solver.
    + destruct k as [|k]; [done|]. destruct Hg as (H1 & H2). exists k. split; [done|]. cbn. naive_solver.
    + destruct Hg as (H1 & H2 & H3 & H4). exists k. split; [done|]. cbn. naive_solver.
Qed.

(** ** Rotations *)

Definition tog (t : tree) : tree := match t with T c l n v r => T (negb c) l n v r | E => E end.

Definition flip (t : tree) : tree :=
  match t with T c l n v r => T (negb c) (tog l) n v (tog r) | E => E end.

(** The child takes the place and the colour, the old parent turns red. *)
Definition rotL (t : tree) : tree :=
  match t with T c a n v (T _ b m w d) => T c (T false a n v b) m w d | _ => t end.

Definition rotR (t : tree) : tree :=
  match t with T c (T _ a m w b) n v d => T c a m w (T false b n v d) | _ => t end.

Definition on_left (f : tree -> tree) (t : tree) : tree :=
  match t with T c l n v r => T c (f l) n v r | E => E end.

Definition on_right (f : tree -> tree) (t : tree) : tree :=
  match t with T c l n v r => T c l n v (f r) | E => E end.

Lemma inorder_tog t : inorder (tog t) = inorder t.
Proof. by destruct t. Qed.

Lemma inorder_flip t : inorder (flip t) = inorder t.
Proof. destruct t; [done|]. cbn. by rewrite !inorder_tog. Qed.

Lemma inorder_rotL t : inorder (rotL t) = inorder t.
Proof. destruct t as [|c a n v [|c' b m w d]]; [done..|]. cbn. by rewrite <- app_assoc. Qed.

Lemma inorder_rotR t : inorder (rotR t) = inorder t.
Proof. destruct t as [|c [|c' a m w b] n v d]; [done..|]. cbn. by rewrite <- app_assoc. Qed.

Lemma inorder_on_left f t : (forall u, inorder (f u) = inorder u) -> inorder (on_left f t) = inorder t.
Proof. intros Hf. destruct t; [done|]. cbn. by rewrite Hf. Qed.

Lemma inorder_on_right f t : (forall u, inorder (f u) = inorder u) -> inorder (on_right f t) = inorder t.
Proof. intros Hf. destruct t; [done|]. cbn. by rewrite Hf. Qed.

(** ** After an insertion *)

(** What one round of repairInsert does to the subtree of its node: a flip, then the left side,
    then the right side. *)
Definition fix_flip (t : tree) : tree := if isred (lt_ t) && isred (rt_ t) then flip t else t.

Definition fix_ll (t : tree) : tree := if isred (lt_ (lt_ t)) then rotR t else t.
Definition fix_lr (t : tree) : tree := if isred (rt_ (lt_ t)) then rotR (on_left rotL t) else t.
Definition fix_left (t : tree) : tree := if isred (lt_ t) then fix_lr (fix_ll t) else t.

Definition fix_rr (t : tree) : tree := if isred (rt_ (rt_ t)) then rotL t else t.
Definition fix_rl (t : tree) : tree := if isred (lt_ (rt_ t)) then rotL (on_right rotR t) else t.
Definition fix_right (t : tree) : tree := if isred (rt_ t) then fix_rl (fix_rr t) else t.

Definition fixI (t : tree) : tree := fix_right (fix_left (fix_flip t)).

Lemma inorder_fixI t : inorder (fixI t) = inorder t.
Proof.
  assert (H1 : forall u, inorder (fix_flip u) = inorder u) by (intros u; unfold fix_flip; case_match; [apply inorder_flip|done]).
  assert (H2 : forall u, inorder (fix_left u) = inorder u).
  { intros u. unfold fix_left, fix_lr, fix_ll. repeat case_match; rewrite ?inorder_rotR, ?inorder_on_left, ?inorder_rotR; auto using inorder_rotL. }
  assert (H3 : forall u, inorder (fix_right u) = inorder u).
  { intros u. unfold fix_right, fix_rl, fix_rr. repeat case_match; rewrite ?inorder_rotL, ?inorder_on_right, ?inorder_rotL; auto using inorder_rotR. }
  unfold fixI. by rewrite H3, H2, H1.
Qed.

(** The rounds of repairInsert from a subtree up to the root. *)
Fixpoint climb (x : ctx) (t : tree) : tree :=
  match x with [] => t | f :: x => climb x (fixI (fill f t)) end.

Lemma inorder_climb x : forall t, inorder (climb x t) = inorder (plug x t).
Proof.
  induction x as [|f x IH]; intros t; [done|]. cbn. rewrite IH, !inorder_plug. by rewrite inorder_fixI.
Qed.

(** Compute with the colours that are known. *)
Ltac reds := cbn; repeat (match goal with H : isred ?t = _ |- context [isred ?t] => rewrite H end; cbn).

(** A red tree is a node. *)
Lemma red_node t : isred t = true -> exists l n v r, t = T false l n v r.
Proof. destruct t as [|[] l n v r]; cbn; naive_solver. Qed.

Lemma good_red t k : good t k -> isred t = true ->
  exists l n v r, t = T false l n v r /\ isred l = false /\ isred r = false /\ good l k /\ good r k.
Proof. intros Hg (l & n & v & r & ->)%red_node. exists l, n, v, r. by cbn in Hg. Qed.

Ltac open_red H := let a := fresh "a" in let n := fresh "n" in let v := fresh "v" in let b := fresh "b" in
  let H1 := fresh in let H2 := fresh in let H3 := fresh in let H4 := fresh in
  match type of H with good ?t ?k => destruct (good_red t k H ltac:(assumption)) as (a & n & v & b & -> & H1 & H2 & H3 & H4) end.

Ltac unfold_fix := unfold fixI, fix_right, fix_left, fix_flip, fix_rl, fix_rr, fix_ll, fix_lr.

(** A black node one of whose sides may be wrong comes out good. *)
Lemma fixI_black_l l n v r k : almost l k -> good r k -> good (fixI (T true l n v r)) (S k).
Proof.
  intros Hl Hr. unfold_fix. destruct (isred l) eqn:El.
  - apply red_node in El as (ll & m & w & lr & ->). cbn in Hl. destruct Hl as (Hc & H1 & H2).
    destruct (isred r) eqn:Er; [open_red Hr; by reds|].
    destruct (isred ll) eqn:E1; [open_red H1; cbn in Hc; reds; auto|].
    destruct (isred lr) eqn:E2; [open_red H2; reds; auto|]. reds; auto.
  - assert (Hg : good l k) by (by destruct l as [|[]]). destruct (isred r) eqn:Er; [open_red Hr|]; reds; auto.
Qed.

Lemma fixI_black_r l n v r k : good l k -> almost r k -> good (fixI (T true l n v r)) (S k).
Proof.
  intros Hl Hr. unfold_fix. destruct (isred r) eqn:Er.
  - apply red_node in Er as (rl & m & w & rr & ->). cbn in Hr. destruct Hr as (Hc & H1 & H2).
    destruct (isred l) eqn:El; [open_red Hl; by reds|].
    destruct (isred rl) eqn:E1; [open_red H1; cbn in Hc; reds; auto|].
    destruct (isred rr) eqn:E2; [open_red H2; reds; auto|]. reds; auto.
  - assert (Hg : good r k) by (by destruct r as [|[]]). destruct (isred l) eqn:El; [open_red Hl|]; reds; auto.
Qed.

(** A red node is left alone unless both children are red. *)
Lemma fixI_red l n v r k : good l k -> good r k -> isred l && isred r = false -> fixI (T false l n v r) = T false l n v r.
Proof.
  intros Hl Hr Hc. unfold_fix. destruct (isred l) eqn:El; cbn in Hc.
  - open_red Hl. by reds.
  - destruct (isred r) eqn:Er; [open_red Hr|]; by reds.
Qed.

Lemma fixI_root l n v r k : (almost l k /\ good r k) \/ (good l k /\ almost r k) -> RB (fixI (T false l n v r)).
Proof.
  assert (Hg : forall t, isred t = false -> almost t k -> good t k) by (intros [|[]]; done).
  intros Hc. destruct (isred l) eqn:El, (isred r) eqn:Er; unfold_fix.
  - apply red_node in El as (ll & m & w & lr & ->), Er as (rl & m' & w' & rr & ->). reds. exists (S k). cbn in Hc. naive_solver.
  - assert (Hr : good r k) by (destruct Hc as [[_ Hr]|[_ Hr]]; auto). apply red_node in El as (ll & m & w & lr & ->).
    assert (Hl : almost (T false ll m w lr) k) by (destruct Hc as [[Hl _]|[Hl _]]; [done|by apply good_almost]). cbn in Hl.
    destruct Hl as (Hx & H1 & H2). destruct (isred ll) eqn:E1; [open_red H1; cbn in Hx; reds; exists k; auto|].
    destruct (isred lr) eqn:E2; [open_red H2|]; reds; exists k; auto.
  - assert (Hl : good l k) by (destruct Hc as [[Hl _]|[Hl _]]; auto). apply red_node in Er as (rl & m & w & rr & ->).
    assert (Hr : almost (T false rl m w rr) k) by (destruct Hc as [[_ Hr]|[_ Hr]]; [by apply good_almost|done]). cbn in Hr.
    destruct Hr as (Hx & H1 & H2). destruct (isred rl) eqn:E1; [open_red H1; cbn in Hx; reds; exists k; auto|].
    destruct (isred rr) eqn:E2; [open_red H2|]; reds; exists k; auto.
  - reds. exists k. naive_solver.
Qed.

(** Climbing from a subtree that is good if its place was black, and red and almost good if it was red. *)
Lemma climb_RB x : forall t k red, cok x k red -> (if red then isred t = true /\ almost t k else good t k) -> RB (climb x t).
Proof.
  induction x as [|f x IH]; intros t k red Hx Ht; cbn [climb].
  { destruct red; [destruct Ht as [_ Ht]; by eapply almost_RB|by eapply good_RB]. }
  cbn [cok] in Hx. destruct Hx as (Hs & Hc & Hx). assert (Ha : almost t k) by (destruct red; [apply Ht|by apply good_almost]).
  destruct (f_black f) eqn:Ef.
  - apply (IH _ (S k) false Hx). destruct f as [[] n v r|[] l n v]; cbn in Ef, Hs |- *; [|done| |done].
    + by apply fixI_black_l.
    + by apply fixI_black_r.
  - destruct x as [|f' x'].
    + cbn [climb]. destruct f as [[] n v r|[] l n v]; cbn in Ef, Hs |- *; [done| |done|]; apply (fixI_root _ _ _ _ k); auto.
    + destruct (Hc eq_refl ltac:(done)) as [-> Hsr]. apply (IH _ k true Hx).
      destruct f as [[] n v r|[] l n v]; cbn in Ef, Hs, Hsr |- *; [done| |done|]; rewrite (fixI_red _ _ _ _ k); cbn; rewrite ?Hsr; auto; by destruct (isred t).
Qed.

(** ** After a removal *)

(** A round of repairToRoot at a parent whose side [t] lacks a black node, with a black sibling: what
    becomes of the subtree, and whether the lack moves up to it. *)
Definition two_black (s : tree) : bool := negb (isred (lt_ s)) && negb (isred (rt_ s)).

Definition stepL (c : bool) (t : tree) (n : nid) (v : Z) (s : tree) : tree :=
  match s with
  | E => T c t n v s
  | T _ sl m w sr =>
      if two_black s then T true t n v (redden s)
      else if isred sr then T c (T true t n v sl) m w (blacken sr)
      else match sl with
           | T _ a x u b => T c (T true t n v a) x u (T true b m w sr)
           | E => T c t n v s
           end
  end.

Definition stepR (c : bool) (s : tree) (n : nid) (v : Z) (t : tree) : tree :=
  match s with
  | E => T c s n v t
  | T _ sl m w sr =>
      if two_black s then T true (redden s) n v t
      else if isred sl then T c (blacken sl) m w (T true sr n v t)
      else match sr with
           | T _ a x u b => T c (T true sl m w a) x u (T true b n v t)
           | E => T c s n v t
           end
  end.

Fixpoint fixD (x : ctx) (t : tree) : tree :=
  match x with
  | [] => t
  | FL c n v s :: x' =>
      match s with
      | E => plug x t
      | T true _ _ _ _ => if two_black s && c then fixD x' (stepL c t n v s) else plug x' (stepL c t n v s)
      | T false sl m w sr => plug (FL c m w sr :: x') (stepL false t n v sl)
      end
  | FR c s n v :: x' =>
      match s with
      | E => plug x t
      | T true _ _ _ _ => if two_black s && c then fixD x' (stepR c s n v t) else plug x' (stepR c s n v t)
      | T false sl m w sr => plug (FR c sl m w :: x') (stepR false sr n v t)
      end
  end.

Lemma inorder_redden t : inorder (redden t) = inorder t.
Proof. by destruct t. Qed.

Lemma inorder_blacken t : inorder (blacken t) = inorder t.
Proof. by destruct t. Qed.

Lemma inorder_stepL c t n v s : inorder (stepL c t n v s) = inorder (T c t n v s).
Proof.
  destruct s as [|cs sl m w sr]; [done|]. cbn [stepL]. destruct (two_black _); [done|].
  destruct (isred sr); [cbn; by rewrite inorder_blacken, <- ?app_assoc|].
  destruct sl; [done|]. cbn. by rewrite <- ?app_assoc.
Qed.

Lemma inorder_stepR c s n v t : inorder (stepR c s n v t) = inorder (T c s n v t).
Proof.
  destruct s as [|cs sl m w sr]; [done|]. cbn [stepR]. destruct (two_black _); [done|].
  destruct (isred sl); [cbn; by rewrite inorder_blacken, <- ?app_assoc|].
  destruct sr; [done|]. cbn. rewrite <- ?app_assoc. cbn. by rewrite <- ?app_assoc.
Qed.

Lemma inorder_fixD x : forall t, inorder (fixD x t) = inorder (plug x t).
Proof.
  induction x as [|[c n v s|c s n v] x IH]; intros t; [done|..]; cbn [fixD]; destruct s as [|[] sl m w sr]; try done.
  - cbn [plug fill]. rewrite inorder_plug, <- (inorder_stepL c), <- inorder_plug. destruct (_ && c); [|done]. by rewrite IH.
  - rewrite !inorder_plug. cbn [before after inorder]. rewrite inorder_stepL. cbn [inorder]. by rewrite <- ?app_assoc.
  - cbn [plug fill]. rewrite inorder_plug, <- (inorder_stepR c), <- inorder_plug. destruct (_ && c); [|done]. by rewrite IH.
  - rewrite !inorder_plug. cbn [before after inorder]. rewrite inorder_stepR. cbn [inorder]. rewrite <- ?app_assoc. cbn. by rewrite <- ?app_assoc.
Qed.

Lemma good_redden t k : good t (S k) -> isred t = false -> two_black t = true -> good (redden t) k.
Proof.
  destruct t as [|[] l n v r]; cbn; [done| |done]. intros [H1 H2] _ Hb. unfold two_black in Hb. cbn in Hb.
  apply andb_prop in Hb as [Hl Hr]. by apply negb_true_iff in Hl, Hr.
Qed.

Lemma good_blacken t k : good t k -> isred t = true -> good (blacken t) (S k).
Proof. intros Hg Hr. open_red Hg. cbn. auto. Qed.

(** The subtree is whole again, or lacks the black node itself. *)
Lemma stepL_good c t n v s k : good t k -> good s (S k) -> isred t = false -> isred s = false ->
  if two_black s && c then good (stepL c t n v s) (S k) /\ isred (stepL c t n v s) = false
  else good (stepL c t n v s) (if c then S (S k) else S k) /\ (c = true -> isred (stepL c t n v s) = false).
Proof.
  intros Ht Hs Htr Hsr. destruct s as [|[] sl m w sr]; [done| |done]. pose proof Hs as [H1 H2]. cbn [stepL].
  destruct (two_black _) eqn:Eb; cbn [andb].
  - pose proof (good_redden _ _ Hs Hsr Eb) as Hr. destruct c; cbn [good isred]; auto.
  - destruct (isred sr) eqn:Esr.
    + pose proof (good_blacken _ _ H2 Esr) as Hb. destruct c; (split; [|done]); cbn [good isred]; [auto|].
      split; [done|]. split; [by destruct sr as [|[]]|]. cbn. auto.
    + destruct (isred sl) eqn:Esl; [|unfold two_black in Eb; cbn in Eb; by rewrite Esl, Esr in Eb]. open_red H1.
      destruct c; (split; [|done]); cbn; auto.
Qed.

Lemma stepR_good c t n v s k : good t k -> good s (S k) -> isred t = false -> isred s = false ->
  if two_black s && c then good (stepR c s n v t) (S k) /\ isred (stepR c s n v t) = false
  else good (stepR c s n v t) (if c then S (S k) else S k) /\ (c = true -> isred (stepR c s n v t) = false).
Proof.
  intros Ht Hs Htr Hsr. destruct s as [|[] sl m w sr]; [done| |done]. pose proof Hs as [H1 H2]. cbn [stepR].
  destruct (two_black _) eqn:Eb; cbn [andb].
  - pose proof (good_redden _ _ Hs Hsr Eb) as Hr. destruct c; cbn [good isred]; auto.
  - destruct (isred sl) eqn:Esl.
    + pose proof (good_blacken _ _ H1 Esl) as Hb. destruct c; (split; [|done]); cbn [good isred]; [auto|].
      split; [by destruct sl as [|[]]|]. cbn. auto.
    + destruct (isred sr) eqn:Esr; [|unfold two_black in Eb; cbn in Eb; by rewrite Esl, Esr in Eb]. open_red H2.
      destruct c; (split; [|done]); cbn; auto.
Qed.

Lemma fixD_RB x : forall t k, cok x (S k) false -> good t k -> isred t = false -> RB (fixD x t).
Proof.
  assert (Hpl : forall y t k (c : bool), cok y (if c then S (S k) else S k) (negb c) ->
    good t (if c then S (S k) else S k) -> (c = true -> isred t = false) -> RB (plug y t)).
  { intros y t k c Hx Hg Hc. eapply plug_RB; [exact Hg|]. destruct c; [by rewrite Hc|]. cbn in *.
    destruct (isred t); [done|]. by eapply cok_black. }
  induction x as [|[c n v s|c s n v] x IH]; intros t k Hx Ht Htr; cbn [fixD]; [by eapply good_RB|..];
    cbn [cok f_sib f_black] in Hx; destruct Hx as (Hs & Hc & Hx); (destruct s as [|[] sl m w sr]; [done|..]).
  - pose proof (stepL_good c t n v _ k Ht Hs Htr eq_refl) as Hst. destruct (_ && c) eqn:Eb.
    + apply andb_prop in Eb as [_ ->]. apply (IH _ (S k)); [exact Hx|apply Hst..].
    + destruct Hst as [Hst1 Hst2]. by apply (Hpl x _ k c).
  - destruct Hs as (H1 & H2 & H3 & H4). pose proof (stepL_good false t n v sl k Ht H3 Htr H1) as Hst. rewrite andb_false_r in Hst.
    eapply plug_RB; [apply Hst|]. cbn [cok f_sib f_black]. split_and!; [done| |exact Hx].
    intros -> Hne. destruct (Hc eq_refl Hne) as [_ Hbad]. done.
  - pose proof (stepR_good c t n v _ k Ht Hs Htr eq_refl) as Hst. destruct (_ && c) eqn:Eb.
    + apply andb_prop in Eb as [_ ->]. apply (IH _ (S k)); [exact Hx|apply Hst..].
    + destruct Hst as [Hst1 Hst2]. by apply (Hpl x _ k c).
  - destruct Hs as (H1 & H2 & H3 & H4). pose proof (stepR_good false t n v sr k Ht H4 Htr H2) as Hst. rewrite andb_false_r in Hst.
    eapply plug_RB; [apply Hst|]. cbn [cok f_sib f_black]. split_and!; [done| |exact Hx].
    intros -> Hne. destruct (Hc eq_refl Hne) as [_ Hbad]. done.
Qed.

(** A node with at most one child, the other one being [u], removed. *)
Definition removeD (x : ctx) (c : bool) (u : tree) : tree :=
  if negb c then plug x u else if isred u then plug x (blacken u) else fixD x u.

Lemma inorder_removeD x c u : inorder (removeD x c u) = before x ++ inorder u ++ after x.
Proof.
  unfold removeD. destruct c; cbn; [|apply inorder_plug]. destruct (isred u).
  - by rewrite inorder_plug, inorder_blacken.
  - by rewrite inorder_fixD, inorder_plug.
Qed.

Lemma removeD_RB x c l n v r : RB (plug x (T c l n v r)) -> l = E \/ r = E ->
  RB (removeD x c (match l with E => r | _ => l end)).
Proof.
  intros Hrb Hc. set (u := match l with E => r | _ => l end). destruct x as [|f x].
  - cbn in Hrb. destruct Hrb as (k & Hl & Hr). assert (Hu : good u k).
    { unfold u. destruct Hc as [-> | ->]; [done|]. by destruct l. }
    unfold removeD. cbn [plug fixD]. destruct c; cbn [negb]; [|by eapply good_RB]. destruct (isred u) eqn:Eu; [|by eapply good_RB].
    eapply good_RB. by apply good_blacken.
  - destruct (RB_plug (f :: x) ltac:(done) _ Hrb) as (k & Hg & Hk). destruct c; cbn in Hg.
    + destruct k as [|k]; [done|]. destruct Hg as [Hl Hr]. assert (Hu : good u k) by (unfold u; destruct Hc as [-> | ->]; [done|by destruct l]).
      assert (k = 0%nat) as -> by (by destruct Hc as [-> | ->]; cbn in Hl, Hr).
      unfold removeD. cbn [negb]. destruct (isred u) eqn:Eu.
      * eapply plug_RB; [by apply good_blacken|]. by destruct u.
      * apply (fixD_RB _ _ 0 Hk Hu Eu).
    + destruct Hg as (Hl1 & Hr1 & Hl & Hr). assert (Hu : good u k) by (unfold u; destruct Hc as [-> | ->]; [done|by destruct l]).
      unfold removeD. cbn [negb]. eapply plug_RB; [exact Hu|]. apply cok_black in Hk.
      replace (isred u) with false; [done|]. unfold u. by destruct l.
Qed.

(** Another node in the same place. *)
Lemma rename_RB x c l n v r n' v' : RB (plug x (T c l n v r)) -> RB (plug x (T c l n' v' r)).
Proof.
  intros Hrb. destruct x as [|f x]; [done|]. destruct (RB_plug (f :: x) ltac:(done) _ Hrb) as (k & Hg & Hk).
  eapply plug_RB; [exact Hg|exact Hk].
Qed.
