(* ===== verification/RbTree.v ===== *)
(** matching_engine/matcher/pqueue/rbtree.go: the pointer code of the red-black trees.

    The two nodes of an order are named by the order's pointer and a flag (true for the node of the
    price), so the fields order and other are part of a node's name.  The fields of all nodes
    are kept in three maps: those of the tree in [nodes], next and prev in their own.  A node's
    field pp, the address of the field or root that points to it, is a [slot].  Loops take fuel. *)

From Stdlib Require Import ZArith Lia.
From stdpp Require Import base numbers option list gmap.
From S2P Require Import Prelude RbShape.
#[local] Open Scope Z_scope.

(** ** The trees of a MatchQueues *)

Inductive tree_id := BuyTree | SellTree | Orders.

#[export] Instance tree_id_eq_dec : EqDecision tree_id.
Proof. solve_decision. Defined.

Inductive slot := RootOf (k : tree_id) | LeftOf (n : nid) | RightOf (n : nid).

Record node := mkNode {
  black : bool; val : Z; left : option nid; right : option nid; parent : option nid; pp : option slot
}.

Record Rb := mkRb {
  nodes : gmap nid node;
  next : gmap nid nid;
  prev : gmap nid nid;
  buyTree : option nid;
  sellTree : option nid;
  orders : option nid;
  size : Z
}.

Definition root (k : tree_id) (q : Rb) : option nid :=
  match k with BuyTree => buyTree q | SellTree => sellTree q | Orders => orders q end.

Definition set_root (k : tree_id) (v : option nid) (q : Rb) : Rb :=
  match k with
  | BuyTree => mkRb (nodes q) (next q) (prev q) v (sellTree q) (orders q) (size q)
  | SellTree => mkRb (nodes q) (next q) (prev q) (buyTree q) v (orders q) (size q)
  | Orders => mkRb (nodes q) (next q) (prev q) (buyTree q) (sellTree q) v (size q)
  end.

Definition set_nodes (h : gmap nid node) (q : Rb) : Rb :=
  mkRb h (next q) (prev q) (buyTree q) (sellTree q) (orders q) (size q).

Definition set_next (n m : nid) (q : Rb) : Rb :=
  mkRb (nodes q) (<[n := m]> (next q)) (prev q) (buyTree q) (sellTree q) (orders q) (size q).

Definition set_prev (n m : nid) (q : Rb) : Rb :=
  mkRb (nodes q) (next q) (<[n := m]> (prev q)) (buyTree q) (sellTree q) (orders q) (size q).

(** ** Reading and writing fields *)

Definition deref {A} (p : option A) : outcome unit A := match p with Some a => Ret a | None => Panic end.

Definition get_node (n : nid) (q : Rb) : outcome unit node := deref (nodes q !! n).

Definition upd (n : nid) (f : node -> node) (q : Rb) : outcome unit Rb :=
  nd ← get_node n q; Ret (set_nodes (<[n := f nd]> (nodes q)) q).

Definition set_black (b : bool) (nd : node) : node := mkNode b (val nd) (left nd) (right nd) (parent nd) (pp nd).
Definition set_left (p : option nid) (nd : node) : node := mkNode (black nd) (val nd) p (right nd) (parent nd) (pp nd).
Definition set_right (p : option nid) (nd : node) : node := mkNode (black nd) (val nd) (left nd) p (parent nd) (pp nd).
Definition set_up (p : option nid) (s : option slot) (nd : node) : node :=
  mkNode (black nd) (val nd) (left nd) (right nd) p s.

(** Writing through a pp. *)
Definition write_slot (s : slot) (v : option nid) (q : Rb) : outcome unit Rb :=
  match s with
  | RootOf k => Ret (set_root k v q)
  | LeftOf n => upd n (set_left v) q
  | RightOf n => upd n (set_right v) q
  end.

Definition other (n : nid) : nid := (n.1, negb n.2).

(** initNode, for a node that is not in use; its next and prev are itself. *)
Definition initNode (n : nid) (v : Z) (q : Rb) : Rb :=
  set_prev n n (set_next n n (set_nodes (<[n := mkNode false v None None None None]> (nodes q)) q)).

Definition isRed (n : option nid) (q : Rb) : outcome unit bool :=
  match n with Some n => nd ← get_node n q; Ret (negb (black nd)) | None => Ret false end.

Definition isHead (n : nid) (q : Rb) : outcome unit bool :=
  nd ← get_node n q; Ret (bool_decide (pp nd <> None)).

Definition getSibling (n : nid) (q : Rb) : outcome unit (option nid) :=
  nd ← get_node n q;
  match parent nd with
  | None => Ret None
  | Some p => pd ← get_node p q; Ret (if decide (left pd = Some n) then right pd else left pd)
  end.

(** ** Moving nodes *)

Definition giveParent (n nn : nid) (q : Rb) : outcome unit Rb :=
  nd ← get_node n q;
  q ← upd nn (set_up (parent nd) (pp nd)) q;
  s ← deref (pp nd);
  q ← write_slot s (Some nn) q;
  upd n (set_up None None) q.

Definition adopt (c : option nid) (n : nid) (s : slot) (q : Rb) : outcome unit Rb :=
  match c with Some c => upd c (set_up (Some n) (Some s)) q | None => Ret q end.

Definition giveChildren (n nn : nid) (q : Rb) : outcome unit Rb :=
  nd ← get_node n q;
  q ← upd nn (fun x => set_right (right nd) (set_left (left nd) x)) q;
  q ← adopt (left nd) nn (LeftOf nn) q;
  q ← adopt (right nd) nn (RightOf nn) q;
  upd n (fun x => set_right None (set_left None x)) q.

Definition givePosition (n nn : nid) (q : Rb) : outcome unit Rb :=
  q ← giveParent n nn q;
  q ← giveChildren n nn q;
  nd ← get_node n q;
  upd nn (set_black (black nd)) q.

Definition toRightOf (n : option nid) (t : nid) (q : Rb) : outcome unit Rb :=
  q ← upd t (set_right n) q; adopt n t (RightOf t) q.

Definition toLeftOf (n : option nid) (t : nid) (q : Rb) : outcome unit Rb :=
  q ← upd t (set_left n) q; adopt n t (LeftOf t) q.

Definition rotateLeft (n : nid) (q : Rb) : outcome unit (nid * Rb) :=
  nd ← get_node n q;
  r ← deref (right nd);
  q ← giveParent n r q;
  rd ← get_node r q;
  q ← toRightOf (left rd) n q;
  q ← toLeftOf (Some n) r q;
  nd ← get_node n q;
  q ← upd r (set_black (black nd)) q;
  q ← upd n (set_black false) q;
  Ret (r, q).

Definition rotateRight (n : nid) (q : Rb) : outcome unit (nid * Rb) :=
  nd ← get_node n q;
  l ← deref (left nd);
  q ← giveParent n l q;
  ld ← get_node l q;
  q ← toLeftOf (right ld) n q;
  q ← toRightOf (Some n) l q;
  nd ← get_node n q;
  q ← upd l (set_black (black nd)) q;
  q ← upd n (set_black false) q;
  Ret (l, q).

Definition toggle (nd : node) : node := set_black (negb (black nd)) nd.

Definition flip_at (n : nid) (q : Rb) : outcome unit Rb :=
  q ← upd n toggle q;
  nd ← get_node n q;
  l ← deref (left nd);
  q ← upd l toggle q;
  nd ← get_node n q;
  r ← deref (right nd);
  upd r toggle q.

(** ** Insertion *)

(** The left and the right side of a round of repairInsert. *)
Definition left_of (n : nid) (q : Rb) : outcome unit (option nid) := nd ← get_node n q; Ret (left nd).
Definition right_of (n : nid) (q : Rb) : outcome unit (option nid) := nd ← get_node n q; Ret (right nd).

Definition repair_left (n : nid) (q : Rb) : outcome unit (nid * Rb) :=
  l ← left_of n q;
  red ← isRed l q;
  if red : bool then
    l ← deref l; ll ← left_of l q; red ← isRed ll q;
    '(n, q) ← (if red : bool then rotateRight n q else Ret (n, q));
    l ← left_of n q; l ← deref l; lr ← right_of l q; red ← isRed lr q;
    if red : bool then '(_, q) ← rotateLeft l q; rotateRight n q else Ret (n, q)
  else Ret (n, q).

Definition repair_right (n : nid) (q : Rb) : outcome unit (nid * Rb) :=
  r ← right_of n q;
  red ← isRed r q;
  if red : bool then
    r ← deref r; rr ← right_of r q; red ← isRed rr q;
    '(n, q) ← (if red : bool then rotateLeft n q else Ret (n, q));
    r ← right_of n q; r ← deref r; rl ← left_of r q; red ← isRed rl q;
    if red : bool then '(_, q) ← rotateRight r q; rotateLeft n q else Ret (n, q)
  else Ret (n, q).

Definition repair_round (n : nid) (q : Rb) : outcome unit (nid * Rb) :=
  l ← left_of n q;
  lred ← isRed l q;
  r ← right_of n q;
  rred ← isRed r q;
  q ← (if lred && rred then flip_at n q else Ret q);
  '(n, q) ← repair_left n q;
  repair_right n q.

Fixpoint repairInsert (fuel : nat) (n : option nid) (q : Rb) : outcome unit Rb :=
  match n with
  | None => Ret q
  | Some n =>
      match fuel with
      | O => Fail tt
      | S fuel => '(n, q) ← repair_round n q; nd ← get_node n q; repairInsert fuel (parent nd) q
      end
  end.

Definition next_of (n : nid) (q : Rb) : outcome unit nid := deref (next q !! n).
Definition prev_of (n : nid) (q : Rb) : outcome unit nid := deref (prev q !! n).

(** addLast: [m] goes behind the last node of the queue that [n] heads. *)
Definition addLast (n m : nid) (q : Rb) : outcome unit Rb :=
  last ← next_of n q;
  Ret (set_next n m (set_prev m n (set_next m last (set_prev last m q)))).

(** The walk of node.push; [fuel] is for the repair. *)
Fixpoint push_at (depth fuel : nat) (n m : nid) (q : Rb) : outcome unit Rb :=
  match depth with
  | O => Fail tt
  | S depth =>
      nd ← get_node n q;
      md ← get_node m q;
      if val md =? val nd then addLast n m q
      else if val md <? val nd then
        match left nd with
        | None => q ← toLeftOf (Some m) n q; repairInsert fuel (Some n) q
        | Some l => push_at depth fuel l m q
        end
      else
        match right nd with
        | None => q ← toRightOf (Some m) n q; repairInsert fuel (Some n) q
        | Some r => push_at depth fuel r m q
        end
  end.

(** rbtree.push *)
Definition push (fuel : nat) (k : tree_id) (m : nid) (q : Rb) : outcome unit Rb :=
  match root k q with
  | None => md ← get_node m q; upd m (set_up (parent md) (Some (RootOf k))) (set_root k (Some m) q)
  | Some r => push_at fuel fuel r m q
  end.

(** ** Removal *)

(** The loop body of repairToRoot: a rotation that makes the sibling black, and then the rest, which
    says whether the loop goes on. *)
Definition sibling_black (p s : nid) (q : Rb) : outcome unit (option nid * Rb) :=
  red ← isRed (Some s) q;
  if red : bool then
    l ← left_of p q;
    if decide (l = Some s) then '(_, q) ← rotateRight p q; l ← left_of p q; Ret (l, q)
    else '(_, q) ← rotateLeft p q; r ← right_of p q; Ret (r, q)
  else Ret (Some s, q).

Definition lack_round (p s : nid) (q : Rb) : outcome unit (bool * Rb) :=
  pRed ← isRed (Some p) q;
  sl ← left_of s q; slRed ← isRed sl q;
  sr ← right_of s q; srRed ← isRed sr q;
  if negb slRed && negb srRed then
    if pRed : bool then q ← upd p (set_black true) q; q ← upd s (set_black false) q; Ret (false, q)
    else q ← upd s (set_black false) q; Ret (true, q)
  else
    l ← left_of p q;
    '(p, q) ← (if decide (l = Some s) then
                 if slRed : bool then rotateRight p q else '(_, q) ← rotateLeft s q; rotateRight p q
               else
                 if srRed : bool then rotateLeft p q else '(_, q) ← rotateRight s q; rotateLeft p q);
    q ← upd p (set_black (negb pRed)) q;
    l ← left_of p q; l ← deref l; q ← upd l (set_black true) q;
    r ← right_of p q; r ← deref r; q ← upd r (set_black true) q;
    Ret (false, q).

Fixpoint repairToRoot (fuel : nat) (p s : option nid) (q : Rb) : outcome unit Rb :=
  match p, s with
  | Some p, Some s =>
      match fuel with
      | O => Fail tt
      | S fuel =>
          '(s, q) ← sibling_black p s q;
          s ← deref s;
          '(more, q) ← lack_round p s q;
          if more : bool then
            s ← getSibling p q;
            pd ← get_node p q;
            repairToRoot fuel (parent pd) s q
          else Ret q
      end
  | _, _ => Ret q
  end.

Definition repairDetach (fuel : nat) (p : option nid) (n : nid) (s nn : option nid) (q : Rb) : outcome unit Rb :=
  red ← isRed (Some n) q;
  if red : bool then Ret q
  else
    red ← isRed nn q;
    if red : bool then nn ← deref nn; upd nn (set_black true) q
    else repairToRoot fuel p s q.

(** The loops down the right and down the left children. *)
Fixpoint walk_right (fuel : nat) (n : nid) (q : Rb) : outcome unit nid :=
  match fuel with
  | O => Fail tt
  | S fuel => r ← right_of n q; match r with None => Ret n | Some r => walk_right fuel r q end
  end.

Fixpoint walk_left (fuel : nat) (n : nid) (q : Rb) : outcome unit nid :=
  match fuel with
  | O => Fail tt
  | S fuel => l ← left_of n q; match l with None => Ret n | Some l => walk_left fuel l q end
  end.

(** detach, given what to do with a node that has two children. *)
Definition detach_with (two : nid -> Rb -> outcome unit Rb) (fuel : nat) (n : nid) (q : Rb) : outcome unit Rb :=
  nd ← get_node n q;
  s ← getSibling n q;
  match left nd, right nd with
  | None, None =>
      a ← deref (pp nd);
      q ← write_slot a None q;
      q ← upd n (set_up None None) q;
      repairDetach fuel (parent nd) n s None q
  | Some l, None =>
      q ← giveParent n l q;
      q ← upd n (set_left None) q;
      repairDetach fuel (parent nd) n s (Some l) q
  | None, Some r =>
      q ← giveParent n r q;
      q ← upd n (set_right None) q;
      repairDetach fuel (parent nd) n s (Some r) q
  | Some l, Some _ => two l q
  end.

(** detachMax calls detach on a node without a right child. *)
Definition detachMax (fuel : nat) (n : nid) (q : Rb) : outcome unit (nid * Rb) :=
  m ← walk_right fuel n q; q ← detach_with (fun _ _ => Fail tt) fuel m q; Ret (m, q).

Definition detach (fuel : nat) (n : nid) (q : Rb) : outcome unit Rb :=
  detach_with (fun l q => '(m, q) ← detachMax fuel l q; givePosition n m q) fuel n q.

(** n.prev.next = n.next; n.next.prev = n.prev *)
Definition unlink (n : nid) (q : Rb) : outcome unit Rb :=
  p ← prev_of n q;
  x ← next_of n q;
  let q := set_next p x q in
  x ← next_of n q;
  p ← prev_of n q;
  Ret (set_prev x p q).

Definition pop (fuel : nat) (n : nid) (q : Rb) : outcome unit Rb :=
  head ← isHead n q;
  x ← next_of n q;
  q ← (if negb head then
         q ← unlink n q;
         upd n (fun x => set_right None (set_left None (set_up None None x))) q
       else if decide (x <> n) then
         q ← unlink n q;
         nn ← prev_of n q;
         givePosition n nn q
       else detach fuel n q);
  Ret (set_prev n n (set_next n n q)).

(** rbtree.peekMin, peekMax, get *)
Definition peekMin (fuel : nat) (k : tree_id) (q : Rb) : outcome unit (option nid) :=
  match root k q with None => Ret None | Some r => n ← walk_left fuel r q; Ret (Some n) end.

Definition peekMax (fuel : nat) (k : tree_id) (q : Rb) : outcome unit (option nid) :=
  match root k q with None => Ret None | Some r => n ← walk_right fuel r q; Ret (Some n) end.

Fixpoint get_from (fuel : nat) (v : Z) (n : option nid) (q : Rb) : outcome unit (option nid) :=
  match n with
  | None => Ret None
  | Some n =>
      match fuel with
      | O => Fail tt
      | S fuel =>
          nd ← get_node n q;
          if v =? val nd then Ret (Some n)
          else if v <? val nd then get_from fuel v (left nd) q else get_from fuel v (right nd) q
      end
  end.

(** rbtree.popMin, popMax, cancel, Has *)
Definition pop_both (fuel : nat) (n : nid) (q : Rb) : outcome unit Rb :=
  q ← pop fuel n q; pop fuel (other n) q.

Definition popMin (fuel : nat) (k : tree_id) (q : Rb) : outcome unit (option nid * Rb) :=
  n ← peekMin fuel k q;
  match n with None => Ret (None, q) | Some n => q ← pop_both fuel n q; Ret (Some n, q) end.

Definition popMax (fuel : nat) (k : tree_id) (q : Rb) : outcome unit (option nid * Rb) :=
  n ← peekMax fuel k q;
  match n with None => Ret (None, q) | Some n => q ← pop_both fuel n q; Ret (Some n, q) end.

Definition cancel (fuel : nat) (k : tree_id) (v : Z) (q : Rb) : outcome unit (option nid * Rb) :=
  n ← get_from fuel v (root k q) q;
  match n with None => Ret (None, q) | Some n => q ← pop_both fuel n q; Ret (Some n, q) end.

Definition Has (fuel : nat) (k : tree_id) (v : Z) (q : Rb) : outcome unit bool :=
  n ← get_from fuel v (root k q) q; Ret (bool_decide (n <> None)).

(** ** validateRBT, which recovers from the panics of its two walks *)

Fixpoint blackBalance (fuel : nat) (n : option nid) (q : Rb) : outcome unit Z :=
  match n with
  | None => Ret 0
  | Some n =>
      match fuel with
      | O => Fail tt
      | S fuel =>
          nd ← get_node n q;
          lb ← blackBalance fuel (left nd) q;
          rb ← blackBalance fuel (right nd) q;
          if lb =? rb then red ← isRed (Some n) q; Ret (if red : bool then lb else i64 (lb + 1)) else Panic
      end
  end.

Fixpoint testReds (fuel : nat) (n : option nid) (depth : Z) (q : Rb) : outcome unit unit :=
  match n with
  | None => Ret tt
  | Some n =>
      match fuel with
      | O => Fail tt
      | S fuel =>
          nd ← get_node n q;
          red ← isRed (Some n) q;
          lred ← isRed (left nd) q;
          rred ← isRed (right nd) q;
          if (red && (lred || rred)) && negb (depth =? 0) then Panic
          else
            _ ← testReds fuel (left nd) (i64 (depth + 1)) q;
            testReds fuel (right nd) (i64 (depth + 1)) q
      end
  end.

(** Whether it finds an error. *)
Definition validateRBT (fuel : nat) (k : tree_id) (q : Rb) : outcome unit bool :=
  match (_ ← blackBalance fuel (root k q) q; testReds fuel (root k q) 0 q) with
  | Ret _ => Ret false
  | Panic => Ret true
  | Fail e => Fail e
  end.

(** ** Orders and match queues *)

(** OrderNode.setup, for an order at pointer [p]. *)
Definition setup (p price guid : Z) (q : Rb) : Rb := initNode (p, false) guid (initNode (p, true) price q).

Definition set_size (z : Z) (q : Rb) : Rb :=
  mkRb (nodes q) (next q) (prev q) (buyTree q) (sellTree q) (orders q) z.

(** getOrderNode *)
Definition order_of (n : option nid) : option Z := match n with Some n => Some n.1 | None => None end.

Definition rb_Push (fuel : nat) (k : tree_id) (p : Z) (q : Rb) : outcome unit Rb :=
  q ← push fuel k (p, true) (set_size (i64 (size q + 1)) q); push fuel Orders (p, false) q.

Definition rb_PushBuy (fuel : nat) : Z -> Rb -> outcome unit Rb := rb_Push fuel BuyTree.
Definition rb_PushSell (fuel : nat) : Z -> Rb -> outcome unit Rb := rb_Push fuel SellTree.

Definition rb_PeekBuy (fuel : nat) (q : Rb) : outcome unit (option Z) := n ← peekMax fuel BuyTree q; Ret (order_of n).
Definition rb_PeekSell (fuel : nat) (q : Rb) : outcome unit (option Z) := n ← peekMin fuel SellTree q; Ret (order_of n).

Definition rb_PopBuy (fuel : nat) (q : Rb) : outcome unit (option Z * Rb) :=
  '(n, q) ← popMax fuel BuyTree (set_size (i64 (size q - 1)) q); Ret (order_of n, q).

Definition rb_PopSell (fuel : nat) (q : Rb) : outcome unit (option Z * Rb) :=
  '(n, q) ← popMin fuel SellTree (set_size (i64 (size q - 1)) q); Ret (order_of n, q).

(** Cancel, with the guid of its order. *)
Definition rb_Cancel (fuel : nat) (guid : Z) (q : Rb) : outcome unit (option Z * Rb) :=
  '(n, q) ← cancel fuel Orders guid q;
  match order_of n with None => Ret (None, q) | Some p => Ret (Some p, set_size (i64 (size q - 1)) q) end.

(** OrderNode.Remove *)
Definition rb_Remove (fuel : nat) (p : Z) (q : Rb) : outcome unit Rb :=
  q ← pop fuel (p, true) q; pop fuel (p, false) q.
