(* ===== verification/RbSteps.v ===== *)
(** The pointer code of RbTree.v changes trees as RbShape.v says.

    A tree in memory is the list [enc] of its nodes with their fields; [hole] says what
    memory holds when a subtree is under work: its nodes, those of its context, and others. *)

From Stdlib Require Import ZArith Lia.
From stdpp Require Import base numbers option list sorting gmap sets.
From S2P Require Import Prelude RbShape RbTree.
#[local] Open Scope Z_scope.

(** ** Trees in memory *)

Abbreviation cells := (list (nid * node)).

Definition rootid (t : tree) : option nid := match t with T _ _ n _ _ => Some n | E => None end.

Fixpoint enc (t : tree) (p : option nid) (s : slot) : cells :=
  match t with
  | E => []
  | T c l n v r => (n, mkNode c v (rootid l) (rootid r) p (Some s)) :: enc l (Some n) (LeftOf n) ++ enc r (Some n) (RightOf n)
  end.

Definition f_node (f : frame) : nid := match f with FL _ n _ _ | FR _ _ n _ => n end.

(** The parent of the hole, the slot that points to it, and the root. *)
Definition cpar (x : ctx) : option nid := match x with [] => None | f :: _ => Some (f_node f) end.

Definition cslot (k : tree_id) (x : ctx) : slot :=
  match x with [] => RootOf k | FL _ n _ _ :: _ => LeftOf n | FR _ _ n _ :: _ => RightOf n end.

Fixpoint croot (x : ctx) (h : option nid) : option nid :=
  match x with [] => h | f :: x => croot x (Some (f_node f)) end.

(** The nodes of a context whose hole holds [h]. *)
Fixpoint cenc (k : tree_id) (x : ctx) (h : option nid) : cells :=
  match x with
  | [] => []
  | FL c n v r :: x =>
      (n, mkNode c v h (rootid r) (cpar x) (Some (cslot k x))) :: enc r (Some n) (RightOf n) ++ cenc k x (Some n)
  | FR c l n v :: x =>
      (n, mkNode c v (rootid l) h (cpar x) (Some (cslot k x))) :: enc l (Some n) (LeftOf n) ++ cenc k x (Some n)
  end.

Lemma rootid_plug x t : rootid (plug x t) = croot x (rootid t).
Proof. revert t. induction x as [|[c n v r|c l n v] x IH]; intros t; [done|..]; cbn; by rewrite IH. Qed.

Lemma enc_plug k x t : enc (plug x t) None (RootOf k) ≡ₚ enc t (cpar x) (cslot k x) ++ cenc k x (rootid t).
Proof.
  revert t. induction x as [|[c n v r|c l n v] x IH]; intros t; cbn [plug cenc cpar cslot f_node].
  - by rewrite app_nil_r.
  - rewrite IH. cbn [fill enc rootid]. rewrite <- app_comm_cons, <- Permutation_middle. by rewrite <- app_assoc.
  - rewrite IH. cbn [fill enc rootid]. rewrite <- app_comm_cons, <- Permutation_middle.
    by rewrite (Permutation_app_comm (enc l _ _)), <- app_assoc.
Qed.

Lemma enc_keys t p s : (enc t p s).*1 ≡ₚ (inorder t).*1.
Proof.
  revert p s. induction t as [|c l IHl n v r IHr]; intros p s; [done|]. cbn [enc inorder]. rewrite fmap_cons, !fmap_app, IHl, IHr.
  cbn. by rewrite Permutation_middle.
Qed.

(** ** The hole *)

Definition sat (h : gmap nid node) (cs : cells) : Prop := Forall (fun p => h !! p.1 = Some p.2) cs.

(** What the work on tree [k] leaves alone. *)
Record frame (k : tree_id) (g q : Rb) : Prop := {
  fr_next : RbTree.next q = RbTree.next g;
  fr_prev : prev q = prev g;
  fr_size : size q = size g;
  fr_root : forall j, j <> k -> root j q = root j g
}.

Record hole (k : tree_id) (x : ctx) (h : option nid) (cs fr : cells) (g q : Rb) : Prop := {
  h_sat : sat (nodes q) (cs ++ cenc k x h ++ fr);
  h_nodup : NoDup (cs ++ cenc k x h ++ fr).*1;
  h_root : root k q = croot x h;
  h_frame : frame k g q
}.

(** A subtree in its context. *)
Definition foc (k : tree_id) (x : ctx) (t : tree) (fr : cells) (g q : Rb) : Prop :=
  hole k x (rootid t) (enc t (cpar x) (cslot k x)) fr g q.

Lemma sat_perm h cs cs' : cs ≡ₚ cs' -> sat h cs -> sat h cs'.
Proof. unfold sat. by intros ->. Qed.

Lemma hole_perm k x h cs cs' fr g q : cs ≡ₚ cs' -> hole k x h cs fr g q -> hole k x h cs' fr g q.
Proof.
  intros Hp [H1 H2 H3 H4]. split; [|by rewrite <- Hp|done|done]. eapply sat_perm; [|exact H1]. by rewrite Hp.
Qed.

Lemma hole_fr k x h cs cs' fr g q : hole k x h (cs ++ cs') fr g q <-> hole k x h cs (cs' ++ fr) g q.
Proof.
  assert (Hp : (cs ++ cs') ++ cenc k x h ++ fr ≡ₚ cs ++ cenc k x h ++ cs' ++ fr).
  { rewrite <- app_assoc. f_equiv. rewrite !app_assoc. f_equiv. apply Permutation_app_comm. }
  split; intros [H1 H2 H3 H4]; split; try done; [|by rewrite <- Hp| |by rewrite Hp]; (eapply sat_perm; [|exact H1]); by rewrite Hp.
Qed.

Lemma hole_get k x h n nd cs fr g q : hole k x h ((n, nd) :: cs) fr g q -> get_node n q = Ret nd.
Proof. intros [H _ _ _]. apply Forall_cons in H as [H _]. cbn in H. unfold get_node. by rewrite H. Qed.

Lemma sat_upd h n nd nd' cs : sat h ((n, nd) :: cs) -> NoDup ((n, nd) :: cs).*1 -> sat (<[n := nd']> h) ((n, nd') :: cs).
Proof.
  intros Hs Hn. apply Forall_cons in Hs as [_ Hs]. cbn in Hn. apply NoDup_cons in Hn as [Hn _].
  constructor; [cbn; apply lookup_insert_eq|]. apply Forall_forall. intros p Hp. rewrite lookup_insert_ne.
  - unfold sat in Hs. rewrite Forall_forall in Hs. by apply Hs.
  - intros ->. apply Hn. by apply list_elem_of_fmap_2.
Qed.

Lemma frame_set_nodes k g q h : frame k g q -> frame k g (set_nodes h q).
Proof. intros [H1 H2 H3 H4]. split; [done..|]. intros j Hj. rewrite <- H4 by done. by destruct j. Qed.

Lemma root_set_nodes k h q : root k (set_nodes h q) = root k q.
Proof. by destruct k. Qed.

(** Writing the fields of a node that is known to be there. *)
Lemma upd_sat q n nd f cs : sat (nodes q) ((n, nd) :: cs) -> upd n f q = Ret (set_nodes (<[n := f nd]> (nodes q)) q).
Proof. intros Hs. apply Forall_cons in Hs as [Hs _]. cbn in Hs. unfold upd, get_node. by rewrite Hs. Qed.

Lemma hole_upd k x h n nd f cs fr g q : hole k x h ((n, nd) :: cs) fr g q ->
  exists q', upd n f q = Ret q' /\ hole k x h ((n, f nd) :: cs) fr g q'.
Proof.
  intros [H1 H2 H3 H4]. eexists. split; [by eapply upd_sat|].
  split; [by apply (sat_upd _ _ nd)|done|by rewrite root_set_nodes|by apply frame_set_nodes].
Qed.

Lemma croot_cons f x h h' : croot (f :: x) h = croot (f :: x) h'.
Proof. done. Qed.

(** Another subtree in the hole: the field or root that points to it is written. *)
Lemma hole_write k x h h' cs fr g q : hole k x h cs fr g q ->
  exists q', write_slot (cslot k x) h' q = Ret q' /\ hole k x h' cs fr g q'.
Proof.
  intros [H1 H2 H3 H4]. destruct x as [|[c n v r|c l n v] x]; cbn [cslot write_slot].
  - eexists. split; [reflexivity|]. split; [by destruct k|by destruct k|by destruct k|].
    destruct H4 as [F1 F2 F3 F4]. split; [by destruct k..|]. intros j Hj. rewrite <- F4 by done. by destruct j, k.
  - cbn [cenc] in *. set (nd := mkNode c v h _ _ _) in *. set (rest := enc r _ _ ++ _) in *.
    assert (Hp : forall d, cs ++ ((n, d) :: rest) ++ fr ≡ₚ (n, d) :: cs ++ rest ++ fr) by (intros d; solve_Permutation).
    assert (Hs : sat (nodes q) ((n, nd) :: cs ++ rest ++ fr)) by (eapply sat_perm; [|exact H1]; apply Hp).
    eexists. split; [by eapply upd_sat|]. rewrite Hp in H2.
    split; cbn [cenc]; fold rest; [|rewrite Hp; exact H2|by rewrite root_set_nodes|by apply frame_set_nodes].
    eapply sat_perm; [symmetry; apply Hp|]. by apply (sat_upd _ _ nd).
  - cbn [cenc] in *. set (nd := mkNode c v _ h _ _) in *. set (rest := enc l _ _ ++ _) in *.
    assert (Hp : forall d, cs ++ ((n, d) :: rest) ++ fr ≡ₚ (n, d) :: cs ++ rest ++ fr) by (intros d; solve_Permutation).
    assert (Hs : sat (nodes q) ((n, nd) :: cs ++ rest ++ fr)) by (eapply sat_perm; [|exact H1]; apply Hp).
    eexists. split; [by eapply upd_sat|]. rewrite Hp in H2.
    split; cbn [cenc]; fold rest; [|rewrite Hp; exact H2|by rewrite root_set_nodes|by apply frame_set_nodes].
    eapply sat_perm; [symmetry; apply Hp|]. by apply (sat_upd _ _ nd).
Qed.

(** A subtree that is given a new parent. *)
Lemma hole_adopt k x h t p s m s' cs fr g q : hole k x h (enc t p s ++ cs) fr g q ->
  exists q', adopt (rootid t) m s' q = Ret q' /\ hole k x h (enc t (Some m) s' ++ cs) fr g q'.
Proof.
  destruct t as [|c l n v r]; cbn [rootid adopt enc]; [by eexists|]. intros Hh. rewrite <- app_comm_cons in Hh |- *.
  apply (hole_upd _ _ _ _ _ (set_up (Some m) (Some s'))) in Hh. exact Hh.
Qed.

(** Work on a node deeper in the list. *)
Ltac hperm H := eapply hole_perm in H; [|solve_Permutation].

(** giveParent: [m] takes the place of [n] under its parent. *)
Lemma hole_giveParent k x n m c v l r md cs fr g q :
  hole k x (Some n) ((n, mkNode c v l r (cpar x) (Some (cslot k x))) :: (m, md) :: cs) fr g q ->
  exists q', giveParent n m q = Ret q' /\
    hole k x (Some m) ((n, mkNode c v l r None None) :: (m, set_up (cpar x) (Some (cslot k x)) md) :: cs) fr g q'.
Proof.
  intros Hh. unfold giveParent. rewrite (hole_get _ _ _ _ _ _ _ _ _ Hh). cbn [mbind outcome_bind parent pp].
  eapply hole_perm in Hh; [|apply Permutation_swap].
  destruct (hole_upd _ _ _ _ _ (set_up (cpar x) (Some (cslot k x))) _ _ _ _ Hh) as (q1 & -> & H1). cbn [mbind outcome_bind deref].
  destruct (hole_write _ _ _ (Some m) _ _ _ _ H1) as (q2 & -> & H2). cbn [mbind outcome_bind].
  eapply hole_perm in H2; [|apply Permutation_swap].
  destruct (hole_upd _ _ _ _ _ (set_up None None) _ _ _ _ H2) as (q3 & -> & H3). by exists q3.
Qed.

(** ** Running the code on a hole *)

(** Bring the cell of a node, or the cells of a subtree, to the front. *)
Ltac find_cell cs n :=
  match cs with
  | (n, ?nd) :: ?r => constr:(((n, nd), r))
  | ?c :: ?r => let z := find_cell r n in match z with (?y, ?r') => constr:((y, c :: r')) end
  | ?l ++ ?r => let z := find_cell l n in match z with (?y, ?l') => constr:((y, l' ++ r)) end
  | ?l ++ ?r => let z := find_cell r n in match z with (?y, ?r') => constr:((y, l ++ r')) end
  end.

Ltac find_enc cs t :=
  match cs with
  | enc t ?p ?s => constr:((enc t p s, @nil (nid * node)))
  | ?c :: ?r => let z := find_enc r t in match z with (?y, ?r') => constr:((y, c :: r')) end
  | ?l ++ ?r => let z := find_enc l t in match z with (?y, ?l') => constr:((y, l' ++ r)) end
  | ?l ++ ?r => let z := find_enc r t in match z with (?y, ?r') => constr:((y, l ++ r')) end
  end.

Ltac to_front H f :=
  let H' := fresh "Hf" in
  lazymatch type of H with hole ?k ?x ?h ?cs ?fr ?g ?q =>
    let z := f cs in
    assert (H' : hole k x h z fr g q) by (eapply hole_perm; [|exact H]; solve_Permutation)
  end; clear H; rename H' into H.

Ltac cell_front H n :=
  to_front H ltac:(fun cs => let z := find_cell cs n in lazymatch z with (?y, ?r) => constr:(y :: r) end).

Ltac enc_front H t :=
  to_front H ltac:(fun cs => let z := find_enc cs t in lazymatch z with (?y, ?r) => constr:(y ++ r) end).

Ltac fields := cbn [mbind outcome_bind deref black val left right parent pp set_black set_left set_right set_up toggle negb].
Ltac fields_in H := cbn [black val left right parent pp set_black set_left set_right set_up toggle negb] in H.

(** Reads, writes and adoptions, in the order of the code. *)
Ltac do_get H n := cell_front H n; rewrite (hole_get _ _ _ _ _ _ _ _ _ H); fields.

Ltac do_upd H n := cell_front H n;
  lazymatch type of H with hole _ _ _ _ _ _ ?q =>
    lazymatch goal with |- context [upd n ?f q] =>
      let q' := fresh "q" in let E := fresh "E" in let H' := fresh "Hf" in
      destruct (hole_upd _ _ _ _ _ f _ _ _ _ H) as (q' & E & H'); rewrite E; clear H E; rename H' into H; fields_in H; fields
    end
  end.

Ltac do_adopt H t := enc_front H t;
  lazymatch type of H with hole _ _ _ _ _ _ ?q =>
    lazymatch goal with |- context [adopt (rootid t) ?m ?s q] =>
      let q' := fresh "q" in let E := fresh "E" in let H' := fresh "Hf" in
      destruct (hole_adopt _ _ _ _ _ _ m s _ _ _ _ H) as (q' & E & H'); rewrite E; clear H E; rename H' into H; fields
    end
  end.

Ltac do_give H n m := cell_front H m; cell_front H n;
  let q' := fresh "q" in let E := fresh "E" in let H' := fresh "Hf" in
  destruct (hole_giveParent _ _ _ _ _ _ _ _ _ _ _ _ _ H) as (q' & E & H'); rewrite E; clear H E; rename H' into H; fields_in H; fields.

(** The end: memory holds the cells of the goal. *)
Ltac hole_done H := eapply hole_perm; [|exact H]; cbn [enc rootid cpar cslot f_node]; solve_Permutation.

(** ** Rotations *)

Lemma rotateLeft_spec k x c a n v cr b m w d fr g q : foc k x (T c a n v (T cr b m w d)) fr g q ->
  exists q', rotateLeft n q = Ret (m, q') /\ foc k x (rotL (T c a n v (T cr b m w d))) fr g q'.
Proof.
  unfold foc. cbn [enc rootid rotL]. intros H. unfold rotateLeft, toRightOf, toLeftOf.
  do_get H n. do_give H n m. do_get H m. do_upd H n. do_adopt H b. do_upd H m. cbn [adopt]. do_upd H n.
  do_get H n. do_upd H m. do_upd H n. eexists. split; [reflexivity|]. hole_done H.
Qed.

Lemma rotateRight_spec k x c a m w b n v d fr g q cl : foc k x (T c (T cl a m w b) n v d) fr g q ->
  exists q', rotateRight n q = Ret (m, q') /\ foc k x (rotR (T c (T cl a m w b) n v d)) fr g q'.
Proof.
  unfold foc. cbn [enc rootid rotR]. intros H. unfold rotateRight, toRightOf, toLeftOf.
  do_get H n. do_give H n m. do_get H m. do_upd H n. do_adopt H b. do_upd H m. cbn [adopt]. do_upd H n.
  do_get H n. do_upd H m. do_upd H n. eexists. split; [reflexivity|]. hole_done H.
Qed.

(** ** The repair after an insertion *)

Lemma hole_sub k f x t fr g q : foc k x (fill f t) fr g q <-> foc k (f :: x) t fr g q.
Proof.
  unfold foc. assert (Hp : enc (fill f t) (cpar x) (cslot k x) ++ cenc k x (rootid (fill f t)) ≡ₚ
    enc t (cpar (f :: x)) (cslot k (f :: x)) ++ cenc k (f :: x) (rootid t)).
  { destruct f as [c n v r|c l n v]; cbn [fill enc rootid cpar cslot f_node cenc]; solve_Permutation. }
  assert (Hr : croot x (rootid (fill f t)) = croot (f :: x) (rootid t)) by (by destruct f).
  split; intros [H1 H2 H3 H4]; split; try done; try congruence; rewrite app_assoc in *.
  - eapply sat_perm; [|exact H1]. by rewrite Hp.
  - by rewrite <- Hp.
  - eapply sat_perm; [|exact H1]. by rewrite Hp.
  - by rewrite Hp.
Qed.

Lemma hole_red k x h t p s cs fr g q : hole k x h (enc t p s ++ cs) fr g q -> isRed (rootid t) q = Ret (isred t).
Proof.
  destruct t as [|c l n v r]; cbn [rootid isRed isred]; [done|]. intros Hh. cbn [enc] in Hh. rewrite <- app_comm_cons in Hh.
  rewrite (hole_get _ _ _ _ _ _ _ _ _ Hh). by destruct c.
Qed.

Ltac do_red H t := enc_front H t;
  lazymatch type of H with hole _ _ _ _ _ _ ?q =>
    lazymatch goal with |- context [isRed (rootid t) q] => rewrite (hole_red _ _ _ _ _ _ _ _ _ _ H); fields end
  end.

(** The same reads on a focused tree. *)
Lemma foc_get k x c l n v r fr g q : foc k x (T c l n v r) fr g q ->
  get_node n q = Ret (mkNode c v (rootid l) (rootid r) (cpar x) (Some (cslot k x))).
Proof. unfold foc. cbn [enc]. apply hole_get. Qed.

Lemma foc_red k x t fr g q : foc k x t fr g q -> isRed (rootid t) q = Ret (isred t).
Proof. unfold foc. intros H. rewrite <- (app_nil_r (enc _ _ _)) in H. by eapply hole_red. Qed.

Lemma foc_left k x c l n v r fr g q : foc k x (T c l n v r) fr g q ->
  left_of n q = Ret (rootid l) /\ isRed (rootid l) q = Ret (isred l).
Proof.
  intros H. unfold left_of. rewrite (foc_get _ _ _ _ _ _ _ _ _ _ H). split; [done|].
  change (T c l n v r) with (fill (FL c n v r) l) in H. apply hole_sub in H. by eapply foc_red.
Qed.

Lemma foc_right k x c l n v r fr g q : foc k x (T c l n v r) fr g q ->
  right_of n q = Ret (rootid r) /\ isRed (rootid r) q = Ret (isred r).
Proof.
  intros H. unfold right_of. rewrite (foc_get _ _ _ _ _ _ _ _ _ _ H). split; [done|].
  change (T c l n v r) with (fill (FR c l n v) r) in H. apply hole_sub in H. by eapply foc_red.
Qed.

Lemma foc_sub_l k x c l n v r fr g q : foc k x (T c l n v r) fr g q <-> foc k (FL c n v r :: x) l fr g q.
Proof. apply (hole_sub k (FL c n v r)). Qed.

Lemma foc_sub_r k x c l n v r fr g q : foc k x (T c l n v r) fr g q <-> foc k (FR c l n v :: x) r fr g q.
Proof. apply (hole_sub k (FR c l n v)). Qed.

Ltac bind E := rewrite E; cbn [mbind outcome_bind deref].

Lemma flip_spec k x c cl a m w b n v cr a' m' w' b' fr g q :
  let t := T c (T cl a m w b) n v (T cr a' m' w' b') in
  foc k x t fr g q -> exists q', flip_at n q = Ret q' /\ foc k x (flip t) fr g q'.
Proof.
  unfold foc. cbn [enc rootid flip tog]. intros H. unfold flip_at.
  do_upd H n. do_get H n. do_upd H m. do_get H n. cell_front H m'.
  destruct (hole_upd _ _ _ _ _ toggle _ _ _ _ H) as (q' & E & H'). exists q'. split; [exact E|]. fields_in H'. hole_done H'.
Qed.

(** The right child of the left one is red: two rotations. *)
Lemma repair_lr_spec k x c cl a m w b n v r fr g q :
  let t := T c (T cl a m w b) n v r in
  foc k x t fr g q -> exists n' q',
    (l ← left_of n q; l ← deref l; lr ← right_of l q; red ← isRed lr q;
     if red : bool then '(_, q) ← rotateLeft l q; rotateRight n q else Ret (n, q)) = Ret (n', q') /\
    foc k x (fix_lr t) fr g q' /\ rootid (fix_lr t) = Some n'.
Proof.
  cbn zeta. intros H. destruct (foc_left _ _ _ _ _ _ _ _ _ _ H) as [E1 _]. bind E1. cbn [rootid deref mbind outcome_bind].
  pose proof (proj1 (foc_sub_l _ _ _ _ _ _ _ _ _ _) H) as H1. destruct (foc_right _ _ _ _ _ _ _ _ _ _ H1) as [E2 E3]. bind E2. bind E3.
  unfold fix_lr. cbn [lt_ rt_]. destruct (isred b) eqn:Eb; [|by exists n, q].
  apply red_node in Eb as (b1 & u & z & b2 & ->). destruct (rotateLeft_spec _ _ _ _ _ _ _ _ _ _ _ _ _ _ H1) as (q1 & R1 & H2). bind R1.
  apply foc_sub_l in H2. cbn [rotL] in H2. destruct (rotateRight_spec _ _ _ _ _ _ _ _ _ _ _ _ _ _ H2) as (q2 & R2 & H3). by exists u, q2.
Qed.

Lemma repair_rl_spec k x c l n v cr a m w b fr g q :
  let t := T c l n v (T cr a m w b) in
  foc k x t fr g q -> exists n' q',
    (r ← right_of n q; r ← deref r; rl ← left_of r q; red ← isRed rl q;
     if red : bool then '(_, q) ← rotateRight r q; rotateLeft n q else Ret (n, q)) = Ret (n', q') /\
    foc k x (fix_rl t) fr g q' /\ rootid (fix_rl t) = Some n'.
Proof.
  cbn zeta. intros H. destruct (foc_right _ _ _ _ _ _ _ _ _ _ H) as [E1 _]. bind E1. cbn [rootid deref mbind outcome_bind].
  pose proof (proj1 (foc_sub_r _ _ _ _ _ _ _ _ _ _) H) as H1. destruct (foc_left _ _ _ _ _ _ _ _ _ _ H1) as [E2 E3]. bind E2. bind E3.
  unfold fix_rl. cbn [lt_ rt_]. destruct (isred a) eqn:Ea; [|by exists n, q].
  apply red_node in Ea as (a1 & u & z & a2 & ->). destruct (rotateRight_spec _ _ _ _ _ _ _ _ _ _ _ _ _ _ H1) as (q1 & R1 & H2). bind R1.
  apply foc_sub_r in H2. cbn [rotR] in H2. destruct (rotateLeft_spec _ _ _ _ _ _ _ _ _ _ _ _ _ _ H2) as (q2 & R2 & H3). by exists u, q2.
Qed.

Lemma repair_left_spec k x c l n v r fr g q : foc k x (T c l n v r) fr g q ->
  exists n' q', repair_left n q = Ret (n', q') /\ foc k x (fix_left (T c l n v r)) fr g q' /\
    rootid (fix_left (T c l n v r)) = Some n'.
Proof.
  intros H. unfold repair_left, fix_left. destruct (foc_left _ _ _ _ _ _ _ _ _ _ H) as [E1 E2]. bind E1. bind E2. cbn [lt_].
  destruct (isred l) eqn:El; [|by exists n, q]. apply red_node in El as (ll & m & w & lr & ->). cbn [rootid deref mbind outcome_bind].
  pose proof (proj1 (foc_sub_l _ _ _ _ _ _ _ _ _ _) H) as H1. destruct (foc_left _ _ _ _ _ _ _ _ _ _ H1) as [E3 E4]. bind E3. bind E4.
  unfold fix_ll. cbn [lt_]. destruct (isred ll) eqn:Ell.
  - apply red_node in Ell as (a & u & z & b & ->). destruct (rotateRight_spec _ _ _ _ _ _ _ _ _ _ _ _ _ _ H) as (q1 & R1 & H2). bind R1.
    cbn [rotR] in *. by apply repair_lr_spec in H2.
  - by apply repair_lr_spec in H.
Qed.

Lemma repair_right_spec k x c l n v r fr g q : foc k x (T c l n v r) fr g q ->
  exists n' q', repair_right n q = Ret (n', q') /\ foc k x (fix_right (T c l n v r)) fr g q' /\
    rootid (fix_right (T c l n v r)) = Some n'.
Proof.
  intros H. unfold repair_right, fix_right. destruct (foc_right _ _ _ _ _ _ _ _ _ _ H) as [E1 E2]. bind E1. bind E2. cbn [rt_].
  destruct (isred r) eqn:Er; [|by exists n, q]. apply red_node in Er as (rl & m & w & rr & ->). cbn [rootid deref mbind outcome_bind].
  pose proof (proj1 (foc_sub_r _ _ _ _ _ _ _ _ _ _) H) as H1. destruct (foc_right _ _ _ _ _ _ _ _ _ _ H1) as [E3 E4]. bind E3. bind E4.
  unfold fix_rr. cbn [rt_]. destruct (isred rr) eqn:Err.
  - apply red_node in Err as (a & u & z & b & ->). destruct (rotateLeft_spec _ _ _ _ _ _ _ _ _ _ _ _ _ _ H) as (q1 & R1 & H2). bind R1.
    cbn [rotL] in *. by apply repair_rl_spec in H2.
  - by apply repair_rl_spec in H.
Qed.

Lemma rootid_node t n : rootid t = Some n -> exists c l v r, t = T c l n v r.
Proof. destruct t as [|c l m v r]; cbn; [done|]. intros [= ->]. by eexists _, _, _, _. Qed.

Lemma repair_round_spec k x c l n v r fr g q : foc k x (T c l n v r) fr g q ->
  exists n' q', repair_round n q = Ret (n', q') /\ foc k x (fixI (T c l n v r)) fr g q' /\
    rootid (fixI (T c l n v r)) = Some n'.
Proof.
  intros H. unfold repair_round. destruct (foc_left _ _ _ _ _ _ _ _ _ _ H) as [E1 E2], (foc_right _ _ _ _ _ _ _ _ _ _ H) as [E3 E4].
  bind E1. bind E2. bind E3. bind E4.
  assert (Hf : exists q', (if isred l && isred r then flip_at n q else Ret q) = Ret q' /\ foc k x (fix_flip (T c l n v r)) fr g q').
  { unfold fix_flip. cbn [lt_ rt_]. destruct (isred l) eqn:El, (isred r) eqn:Er; cbn [andb]; [|by exists q..].
    apply red_node in El as (? & ? & ? & ? & ->), Er as (? & ? & ? & ? & ->). by apply flip_spec. }
  destruct Hf as (q1 & E5 & H1). bind E5. unfold fixI.
  assert (Hn : exists c1 l1 r1, fix_flip (T c l n v r) = T c1 l1 n v r1) by (unfold fix_flip; destruct (_ && _); by eexists _, _, _).
  destruct Hn as (c1 & l1 & r1 & Hn). rewrite Hn in *. destruct (repair_left_spec _ _ _ _ _ _ _ _ _ _ H1) as (n2 & q2 & E6 & H2 & Hr2). bind E6.
  destruct (rootid_node _ _ Hr2) as (c2 & l2 & v2 & r2 & Hn2). rewrite Hn2 in *. by apply repair_right_spec.
Qed.

(** repairInsert climbs to the root. *)
Lemma repairInsert_spec k fr g : forall fuel f x t q, foc k (f :: x) t fr g q -> (length x < fuel)%nat ->
  exists q', repairInsert fuel (Some (f_node f)) q = Ret q' /\ foc k [] (climb (f :: x) t) fr g q'.
Proof.
  induction fuel as [|fuel IH]; intros f x t q H Hf; [lia|]. cbn [repairInsert climb]. apply hole_sub in H.
  assert (Hn : exists c l v r, fill f t = T c l (f_node f) v r) by (destruct f; by eexists _, _, _, _).
  destruct Hn as (c & l & v & r & Hn). rewrite Hn in *. destruct (repair_round_spec _ _ _ _ _ _ _ _ _ _ H) as (n1 & q1 & E1 & H1 & Hr1). bind E1.
  destruct (rootid_node _ _ Hr1) as (c2 & l2 & v2 & r2 & Hn2). rewrite Hn2 in *. bind (foc_get _ _ _ _ _ _ _ _ _ _ H1). cbn [parent].
  destruct x as [|f' x]; cbn [cpar climb]; [destruct fuel; by exists q1|]. apply IH; [exact H1|cbn in Hf; lia].
Qed.

(** ** The repair after a removal *)

Lemma rootid_in t n : rootid t = Some n -> n ∈ (inorder t).*1.
Proof. intros (c & l & v & r & ->)%rootid_node. cbn. rewrite fmap_app. set_solver. Qed.

Lemma foc_nodup k x t fr g q : foc k x t fr g q -> NoDup (inorder t).*1.
Proof.
  intros [_ Hn _ _]. rewrite !fmap_app, enc_keys in Hn. by apply NoDup_app in Hn as [Hn _].
Qed.

(** The children of a node have different roots. *)
Lemma foc_children k x c l n v r m fr g q : foc k x (T c l n v r) fr g q -> rootid r = Some m -> rootid l <> Some m.
Proof.
  intros H%foc_nodup Hr Hl. cbn in H. rewrite fmap_app in H. apply NoDup_app in H as (_ & H & _).
  apply (H m); [by apply rootid_in|]. cbn. right. by apply rootid_in.
Qed.

Definition csib (x : ctx) : option nid := match x with [] => None | f :: _ => rootid (f_sib f) end.

Lemma getSibling_spec k x c l n v r fr g q : foc k x (T c l n v r) fr g q -> getSibling n q = Ret (csib x).
Proof.
  intros H. unfold getSibling. bind (foc_get _ _ _ _ _ _ _ _ _ _ H). cbn [parent].
  destruct x as [|f x]; [done|]. cbn [cpar csib]. apply hole_sub in H. destruct f as [cf p w s|cf s p w]; cbn [fill f_node f_sib] in *;
    bind (foc_get _ _ _ _ _ _ _ _ _ _ H); cbn [left right].
  - cbn [rootid]. by rewrite decide_True.
  - rewrite decide_False; [done|]. by eapply foc_children.
Qed.

(** The last steps of a round: the colours of a node and its children. *)
Lemma recolour_spec k x c c1 a m w b n v c2 a' m' w' b' cn fr g q :
  foc k x (T c (T c1 a m w b) n v (T c2 a' m' w' b')) fr g q ->
  exists q', (q ← upd n (set_black cn) q;
    l ← left_of n q; l ← deref l; q ← upd l (set_black true) q;
    r ← right_of n q; r ← deref r; q ← upd r (set_black true) q; Ret (false, q)) = Ret (false, q') /\
    foc k x (T cn (T true a m w b) n v (T true a' m' w' b')) fr g q'.
Proof.
  unfold foc. cbn [enc rootid]. intros H. unfold left_of, right_of. do_upd H n. do_get H n. do_upd H m. do_get H n. do_upd H m'.
  eexists. split; [reflexivity|]. hole_done H.
Qed.

Lemma two_black_T c l n v r : two_black (T c l n v r) = negb (isred l) && negb (isred r).
Proof. done. Qed.

Lemma lack_round_L k x c t p v sl m w sr fr g q : let s := T true sl m w sr in
  foc k x (T c t p v s) fr g q ->
  exists q', lack_round p m q = Ret (two_black s && c, q') /\ foc k x (stepL c t p v s) fr g q'.
Proof.
  cbn zeta. intros H. unfold lack_round. pose proof (foc_red _ _ _ _ _ _ H) as E1. cbn [rootid] in E1. bind E1.
  pose proof (proj1 (foc_sub_r _ _ _ _ _ _ _ _ _ _) H) as Hs. destruct (foc_left _ _ _ _ _ _ _ _ _ _ Hs) as [E2 E3].
  destruct (foc_right _ _ _ _ _ _ _ _ _ _ Hs) as [E4 E5]. bind E2. bind E3. bind E4. bind E5. cbn [stepL]. rewrite two_black_T.
  destruct (negb (isred sl) && negb (isred sr)) eqn:Eb; cbn [andb].
  - unfold foc in H. cbn [enc rootid] in H. destruct c; cbn [isred].
    + do_upd H m. eexists. split; [reflexivity|]. unfold foc. hole_done H.
    + do_upd H p. do_upd H m. eexists. split; [reflexivity|]. unfold foc. hole_done H.
  - destruct (foc_left _ _ _ _ _ _ _ _ _ _ H) as [E6 _]. bind E6. rewrite decide_False by (by eapply foc_children).
    assert (Hc : negb (isred (T c t p v (T true sl m w sr))) = c) by (by destruct c). rewrite Hc. destruct (isred sr) eqn:Er.
    + apply red_node in Er as (b1 & u & z & b2 & ->). destruct (rotateLeft_spec _ _ _ _ _ _ _ _ _ _ _ _ _ _ H) as (q1 & R1 & H1). bind R1.
      cbn [rotL blacken] in *. by eapply recolour_spec.
    + rewrite andb_true_r in Eb. apply negb_false_iff, red_node in Eb as (a & u & z & b & ->).
      destruct (rotateRight_spec _ _ _ _ _ _ _ _ _ _ _ _ _ _ Hs) as (q1 & R1 & H1). bind R1. apply foc_sub_r in H1. cbn [rotR] in H1.
      destruct (rotateLeft_spec _ _ _ _ _ _ _ _ _ _ _ _ _ _ H1) as (q2 & R2 & H2). bind R2. cbn [rotL] in H2. by eapply recolour_spec.
Qed.

Lemma lack_round_R k x c t p v sl m w sr fr g q : let s := T true sl m w sr in
  foc k x (T c s p v t) fr g q ->
  exists q', lack_round p m q = Ret (two_black s && c, q') /\ foc k x (stepR c s p v t) fr g q'.
Proof.
  cbn zeta. intros H. unfold lack_round. pose proof (foc_red _ _ _ _ _ _ H) as E1. cbn [rootid] in E1. bind E1.
  pose proof (proj1 (foc_sub_l _ _ _ _ _ _ _ _ _ _) H) as Hs. destruct (foc_left _ _ _ _ _ _ _ _ _ _ Hs) as [E2 E3].
  destruct (foc_right _ _ _ _ _ _ _ _ _ _ Hs) as [E4 E5]. bind E2. bind E3. bind E4. bind E5. cbn [stepR]. rewrite two_black_T.
  destruct (negb (isred sl) && negb (isred sr)) eqn:Eb; cbn [andb].
  - unfold foc in H. cbn [enc rootid] in H. destruct c; cbn [isred].
    + do_upd H m. eexists. split; [reflexivity|]. unfold foc. hole_done H.
    + do_upd H p. do_upd H m. eexists. split; [reflexivity|]. unfold foc. hole_done H.
  - destruct (foc_left _ _ _ _ _ _ _ _ _ _ H) as [E6 _]. bind E6. cbn [rootid]. rewrite decide_True by done.
    assert (Hc : negb (isred (T c (T true sl m w sr) p v t)) = c) by (by destruct c). rewrite Hc. destruct (isred sl) eqn:El.
    + apply red_node in El as (b1 & u & z & b2 & ->). destruct (rotateRight_spec _ _ _ _ _ _ _ _ _ _ _ _ _ _ H) as (q1 & R1 & H1). bind R1.
      cbn [rotR blacken] in *. by eapply recolour_spec.
    + cbn [negb andb] in Eb. apply negb_false_iff, red_node in Eb as (a & u & z & b & ->).
      destruct (rotateLeft_spec _ _ _ _ _ _ _ _ _ _ _ _ _ _ Hs) as (q1 & R1 & H1). bind R1. apply foc_sub_l in H1. cbn [rotL] in H1.
      destruct (rotateRight_spec _ _ _ _ _ _ _ _ _ _ _ _ _ _ H1) as (q2 & R2 & H2). bind R2. cbn [rotR] in H2. by eapply recolour_spec.
Qed.

Lemma foc_top k x t fr g q : foc k x t fr g q <-> foc k [] (plug x t) fr g q.
Proof. revert t. induction x as [|f x IH]; intros t; [done|]. cbn [plug]. rewrite <- IH. symmetry. apply hole_sub. Qed.

(** A tree that is black of height at least one. *)
Lemma black_node t h : good t (S h) -> isred t = false -> exists l n v r, t = T true l n v r.
Proof. destruct t as [|[] l n v r]; cbn; [done| |done]. intros _ _. by eexists _, _, _, _. Qed.

Lemma sibling_black_L k x c t p v s m fr g q h : foc k x (T c t p v s) fr g q -> rootid s = Some m -> good s (S h) ->
  exists q' n c' r' x', sibling_black p m q = Ret (Some n, q') /\
    (exists sl w sr, r' = T true sl n w sr) /\ foc k x' (T c' t p v r') fr g q' /\
    if isred s then c' = false /\ exists w sr, s = T false r' m w sr /\ x' = FL c m w sr :: x
    else c' = c /\ r' = s /\ x' = x.
Proof.
  intros H Hm Hg. unfold sibling_black. pose proof (proj1 (foc_sub_r _ _ _ _ _ _ _ _ _ _) H) as Hs.
  pose proof (foc_red _ _ _ _ _ _ Hs) as E1. rewrite Hm in E1. bind E1. destruct (isred s) eqn:Es.
  - apply red_node in Es as (sl & n & w & sr & ->). cbn in Hm. injection Hm as ->. destruct Hg as (Hsl & Hsr & G1 & G2).
    destruct (black_node _ _ G1 Hsl) as (a & n & z & b & ->). destruct (foc_left _ _ _ _ _ _ _ _ _ _ H) as [E2 _]. bind E2.
    rewrite decide_False by (by eapply foc_children). destruct (rotateLeft_spec _ _ _ _ _ _ _ _ _ _ _ _ _ _ H) as (q1 & R1 & H1). bind R1.
    cbn [rotL] in H1. apply foc_sub_l in H1. destruct (foc_right _ _ _ _ _ _ _ _ _ _ H1) as [E3 _]. bind E3. cbn [rootid].
    exists q1, n, false, (T true a n z b), (FL c m w sr :: x). split; [done|]. split; [by exists a, z, b|]. split; [done|]. split; [done|]. by exists w, sr.
  - destruct (black_node _ _ Hg Es) as (sl & n & w & sr & ->). cbn in Hm. injection Hm as ->.
    exists q, m, c, (T true sl m w sr), x. split; [done|]. split; [by eexists _, _, _|]. done.
Qed.

Lemma sibling_black_R k x c t p v s m fr g q h : foc k x (T c s p v t) fr g q -> rootid s = Some m -> good s (S h) ->
  exists q' n c' r' x', sibling_black p m q = Ret (Some n, q') /\
    (exists sl w sr, r' = T true sl n w sr) /\ foc k x' (T c' r' p v t) fr g q' /\
    if isred s then c' = false /\ exists w sl, s = T false sl m w r' /\ x' = FR c sl m w :: x
    else c' = c /\ r' = s /\ x' = x.
Proof.
  intros H Hm Hg. unfold sibling_black. pose proof (proj1 (foc_sub_l _ _ _ _ _ _ _ _ _ _) H) as Hs.
  pose proof (foc_red _ _ _ _ _ _ Hs) as E1. rewrite Hm in E1. bind E1. destruct (isred s) eqn:Es.
  - apply red_node in Es as (sl & n & w & sr & ->). cbn in Hm. injection Hm as ->. destruct Hg as (Hsl & Hsr & G1 & G2).
    destruct (black_node _ _ G2 Hsr) as (a & n & z & b & ->). destruct (foc_left _ _ _ _ _ _ _ _ _ _ H) as [E2 _]. bind E2. cbn [rootid].
    rewrite decide_True by done. destruct (rotateRight_spec _ _ _ _ _ _ _ _ _ _ _ _ _ _ H) as (q1 & R1 & H1). bind R1.
    cbn [rotR] in H1. apply foc_sub_r in H1. destruct (foc_left _ _ _ _ _ _ _ _ _ _ H1) as [E3 _]. bind E3. cbn [rootid].
    exists q1, n, false, (T true a n z b), (FR c sl m w :: x). split; [done|]. split; [by exists a, z, b|]. split; [done|]. split; [done|]. by exists w, sl.
  - destruct (black_node _ _ Hg Es) as (sl & n & w & sr & ->). cbn in Hm. injection Hm as ->.
    exists q, m, c, (T true sl m w sr), x. split; [done|]. split; [by eexists _, _, _|]. done.
Qed.

Lemma good_rootid t h : good t (S h) -> exists m, rootid t = Some m.
Proof. destruct t as [|c l n v r]; [done|]. by eexists. Qed.

Lemma repairToRoot_spec k fr g : forall fuel f x t h q, foc k (f :: x) t fr g q ->
  cok (f :: x) (S h) false -> good t h -> isred t = false -> (length x < fuel)%nat ->
  exists q', repairToRoot fuel (Some (f_node f)) (rootid (f_sib f)) q = Ret q' /\ foc k [] (fixD (f :: x) t) fr g q'.
Proof.
  induction fuel as [|fuel IH]; intros f x t h q H Hx Ht Htr Hf; [lia|]. apply hole_sub in H. pose proof Hx as (Hs & _ & Hx').
  destruct (good_rootid _ _ Hs) as (m & Hm). rewrite Hm. cbn [repairToRoot].
  assert (Hup : forall c l p v r q1, foc k x (T c l p v r) fr g q1 -> cok x (S (S h)) false -> good (T c l p v r) (S h) -> c = true ->
    exists q', (s ← getSibling p q1; pd ← get_node p q1; repairToRoot fuel (parent pd) s q1) = Ret q' /\
      foc k [] (fixD x (T c l p v r)) fr g q').
  { intros c l p v r q1 H1 Hc Hg ->. bind (getSibling_spec _ _ _ _ _ _ _ _ _ _ H1). bind (foc_get _ _ _ _ _ _ _ _ _ _ H1). cbn [parent].
    destruct x as [|f' x]; [cbn [cpar csib fixD]; destruct fuel; by exists q1|].
    cbn [cpar csib]. apply (IH _ _ _ (S h)); [exact H1|exact Hc|exact Hg|done|cbn in Hf; lia]. }
  destruct f as [c p v s|c s p v]; cbn [fill f_node f_sib f_black] in *.
  - destruct (sibling_black_L _ _ _ _ _ _ _ _ _ _ _ _ H Hm Hs) as (q1 & n & c' & r' & x' & E1 & (sl & w & sr & ->) & H1 & Hc). bind E1.
    destruct (lack_round_L _ _ _ _ _ _ _ _ _ _ _ _ _ H1) as (q2 & E2 & H2). bind E2.
    destruct s as [|[] sl' m' w' sr']; [done|..]; cbn [isred] in Hc.
    + destruct Hc as (-> & Heq & ->). injection Heq as -> -> -> ->. cbn [fixD].
      pose proof (stepL_good c t p v _ h Ht Hs Htr eq_refl) as Hst. destruct (_ && c) eqn:Eb; [|exists q2; split; [done|exact (proj1 (foc_top _ _ _ _ _ _) H2)]].
      apply andb_prop in Eb as [Eb ->]. cbn [stepL] in *. rewrite Eb in *. apply Hup; [done|done|apply Hst|done].
    + destruct Hc as (-> & w2 & sr2 & Heq & ->). injection Heq as -> -> -> ->. rewrite andb_false_r. exists q2. split; [done|].
      cbn [fixD]. exact (proj1 (foc_top _ _ _ _ _ _) H2).
  - destruct (sibling_black_R _ _ _ _ _ _ _ _ _ _ _ _ H Hm Hs) as (q1 & n & c' & r' & x' & E1 & (sl & w & sr & ->) & H1 & Hc). bind E1.
    destruct (lack_round_R _ _ _ _ _ _ _ _ _ _ _ _ _ H1) as (q2 & E2 & H2). bind E2.
    destruct s as [|[] sl' m' w' sr']; [done|..]; cbn [isred] in Hc.
    + destruct Hc as (-> & Heq & ->). injection Heq as -> -> -> ->. cbn [fixD].
      pose proof (stepR_good c t p v _ h Ht Hs Htr eq_refl) as Hst. destruct (_ && c) eqn:Eb; [|exists q2; split; [done|exact (proj1 (foc_top _ _ _ _ _ _) H2)]].
      apply andb_prop in Eb as [Eb ->]. cbn [stepR] in *. rewrite Eb in *. apply Hup; [done|done|apply Hst|done].
    + destruct Hc as (-> & w2 & sr2 & Heq & ->). injection Heq as -> -> -> ->. rewrite andb_false_r. exists q2. split; [done|].
      cbn [fixD]. exact (proj1 (foc_top _ _ _ _ _ _) H2).
Qed.

(** A node that is no longer, or not yet, part of the tree. *)
Lemma hole_out k x h c cs fr g q : hole k x h (c :: cs) fr g q -> hole k x h cs (c :: fr) g q.
Proof. change (c :: fr) with ([c] ++ fr). rewrite <- hole_fr. apply hole_perm. solve_Permutation. Qed.

Lemma hole_in k x h c cs fr g q : hole k x h cs (c :: fr) g q -> hole k x h (c :: cs) fr g q.
Proof. change (c :: fr) with ([c] ++ fr). rewrite <- hole_fr. apply hole_perm. solve_Permutation. Qed.

Lemma foc_up k x t fr g q : foc k x t fr g q -> foc k [] (plug x t) fr g q.
Proof. apply foc_top. Qed.

Lemma foc_down k x t fr g q : foc k [] (plug x t) fr g q -> foc k x t fr g q.
Proof. apply foc_top. Qed.

(** ** Detaching a node *)

Lemma one_child x c l n v r : RB (plug x (T c l n v r)) -> l = E \/ r = E ->
  good (match l with E => r | _ => l end) 0 /\ (c = true -> cok x 1 false).
Proof.
  intros Hrb Hc. destruct x as [|f x].
  - cbn in Hrb. destruct Hrb as (h & Hl & Hr). assert (h = 0%nat) as -> by (by destruct Hc as [-> | ->]). split; [|done]. by destruct l.
  - destruct (RB_plug (f :: x) ltac:(done) _ Hrb) as (h & Hg & Hk). destruct c; cbn [good isred] in Hg, Hk.
    + destruct h as [|h]; [done|]. destruct Hg as [Hl Hr]. assert (h = 0%nat) as -> by (by destruct Hc as [-> | ->]).
      split; [by destruct l|done].
    + destruct Hg as (_ & _ & Hl & Hr). assert (h = 0%nat) as -> by (by destruct Hc as [-> | ->]). split; [by destruct l|done].
Qed.

Lemma hole_get_fr k x h cs n nd fr g q : hole k x h cs ((n, nd) :: fr) g q -> get_node n q = Ret nd.
Proof.
  intros [H _ _ _]. unfold sat in H. rewrite !Forall_app in H. destruct H as (_ & _ & H). apply Forall_cons in H as [H _].
  cbn in H. unfold get_node. by rewrite H.
Qed.

(** The repair, after the child [u] has taken the place of the detached node. *)
Lemma repairDetach_spec k x c n v u fr g q fuel : let nd := mkNode c v None None None None in
  foc k x u ((n, nd) :: fr) g q -> good u 0 -> (c = true -> cok x 1 false) -> (length x <= fuel)%nat ->
  exists q', repairDetach fuel (cpar x) n (csib x) (rootid u) q = Ret q' /\ foc k [] (removeD x c u) ((n, nd) :: fr) g q'.
Proof.
  cbn zeta. intros H Hu Hk Hf. unfold repairDetach. cbn [isRed]. bind (hole_get_fr _ _ _ _ _ _ _ _ _ H). cbn [black].
  unfold removeD. destruct c; cbn [negb]; [|exists q; split; [done|by apply foc_up]].
  bind (foc_red _ _ _ _ _ _ H). destruct u as [|[] l m w r]; [|done|].
  - cbn [isred]. destruct x as [|f x]; [destruct fuel; by exists q|]. cbn [cpar csib length] in *.
    apply (repairToRoot_spec k _ g fuel f x E 0); [exact H|by apply Hk|done|done|lia].
  - cbn [isred rootid deref mbind outcome_bind blacken]. unfold foc in H. cbn [enc rootid] in H. cell_front H m.
    destruct (hole_upd _ _ _ _ _ (set_black true) _ _ _ _ H) as (q' & E & H'). exists q'. split; [exact E|]. apply foc_up. unfold foc. fields_in H'. hole_done H'.
Qed.

Lemma detach_one k x c l n v r fr g q two fuel : foc k x (T c l n v r) fr g q -> RB (plug x (T c l n v r)) ->
  l = E \/ r = E -> (length x <= fuel)%nat ->
  exists q', detach_with two fuel n q = Ret q' /\
    foc k [] (removeD x c (match l with E => r | _ => l end)) ((n, mkNode c v None None None None) :: fr) g q'.
Proof.
  intros H Hrb Hc Hf. destruct (one_child _ _ _ _ _ _ Hrb Hc) as [Hg Hk]. unfold detach_with.
  bind (foc_get _ _ _ _ _ _ _ _ _ _ H). bind (getSibling_spec _ _ _ _ _ _ _ _ _ _ H). cbn [left right pp parent deref].
  unfold foc in H. cbn [enc] in H. destruct l as [|cl ll m w lr]; [destruct r as [|cr rl m w rr]|destruct r; [|by destruct Hc]]; cbn [rootid enc mbind outcome_bind deref] in *.
  - destruct (hole_write _ _ _ None _ _ _ _ H) as (q1 & E1 & H1). bind E1. do_upd H1 n.
    apply (repairDetach_spec k x c n v E fr g); try done. unfold foc. cbn [enc]. apply hole_out. exact H1.
  - do_give H n m. do_upd H n. apply (repairDetach_spec k x c n v (T cr rl m w rr) fr g); try done.
    unfold foc. cbn [rootid]. apply hole_out. hole_done H.
  - do_give H n m. do_upd H n. apply (repairDetach_spec k x c n v (T cl ll m w lr) fr g); try done.
    unfold foc. cbn [rootid]. apply hole_out. hole_done H.
Qed.

(** ** A node in the place of another *)

Lemma givePosition_spec k x c l n v r m mc w fr g q :
  foc k x (T c l n v r) ((m, mkNode mc w None None None None) :: fr) g q ->
  exists q', givePosition n m q = Ret q' /\
    foc k x (T c l m w r) ((n, mkNode c v None None None None) :: fr) g q'.
Proof.
  unfold foc. intros H. apply hole_in in H. cbn [enc rootid] in H.
  unfold givePosition, giveChildren. do_give H n m. do_get H n. do_upd H m.
  do_adopt H l. do_adopt H r. do_upd H n. do_get H n. cell_front H m.
  destruct (hole_upd _ _ _ _ _ (set_black c) _ _ _ _ H) as (q' & E & H'). exists q'. split; [exact E|]. fields_in H'.
  apply hole_out. hole_done H'.
Qed.

(** ** The largest node of a subtree *)

Lemma walk_right_spec k fr g : forall t c l n v r x q fuel, t = T c l n v r -> foc k x t fr g q -> (length (inorder t) <= fuel)%nat ->
  exists y cm lm m vm, t = plug y (T cm lm m vm E) /\ after y = [] /\ walk_right fuel n q = Ret m.
Proof.
  induction t as [|c l _ n v r IH]; intros c1 l1 n1 v1 r1 x q fuel [= <- <- <- <- <-] H Hf; cbn [inorder] in Hf; rewrite length_app in Hf; cbn in Hf.
  destruct fuel as [|fuel]; [lia|]. cbn [walk_right]. destruct (foc_right _ _ _ _ _ _ _ _ _ _ H) as [E1 _]. bind E1.
  destruct r as [|cr rl m w rr]; cbn [rootid]; [by exists [], c, l, n, v|].
  apply foc_sub_r in H. destruct (IH _ _ _ _ _ _ _ fuel eq_refl H ltac:(lia)) as (y & cm & lm & m' & vm & Heq & Ha & Hw).
  exists (y ++ [FR c l n v]), cm, lm, m', vm. rewrite plug_app, <- Heq. cbn. split; [done|]. split; [|done].
  clear -Ha. induction y as [|[] y IH]; cbn in *; [done|done|auto].
Qed.

Lemma length_plug x t : (length x + length (inorder t) <= length (inorder (plug x t)))%nat.
Proof.
  rewrite inorder_plug, !length_app. assert (length x <= length (before x) + length (after x))%nat; [|lia].
  induction x as [|[] x IH]; cbn; rewrite ?length_app; cbn; lia.
Qed.

(** Where a key is in a list of different keys. *)
Lemma split_unique {A B} (a : A) (x y : B) l1 l2 l1' l2' : NoDup (l1 ++ (a, x) :: l2).*1 -> l1 ++ (a, x) :: l2 = l1' ++ (a, y) :: l2' ->
  l1 = l1' /\ l2 = l2'.
Proof.
  revert l1'. induction l1 as [|z l1 IH]; intros [|z' l1'] Hn Heq; cbn in *.
  - by injection Heq as _ ->.
  - injection Heq as <- ->. apply NoDup_cons in Hn as [Hn _]. exfalso. apply Hn. rewrite fmap_app. set_solver.
  - injection Heq as -> <-. apply NoDup_cons in Hn as [Hn _]. exfalso. apply Hn. rewrite fmap_app. set_solver.
  - injection Heq as -> Heq. apply NoDup_cons in Hn as [_ Hn]. by destruct (IH l1' Hn Heq) as [-> ->].
Qed.

(** The detached greatest node of the left subtree in the place of a node. *)
Lemma replace_spec k t2 n v m mc vm fr g q A B : foc k [] t2 ((m, mkNode mc vm None None None None) :: fr) g q -> RB t2 ->
  inorder t2 = A ++ (n, v) :: B ->
  exists q' t' b, givePosition n m q = Ret q' /\ foc k [] t' ((n, mkNode b v None None None None) :: fr) g q' /\ RB t' /\
    inorder t' = A ++ (m, vm) :: B.
Proof.
  intros H Hrb Hin. destruct (find_node t2 n v) as (x & c & l & r & Ht).
  { rewrite Hin. apply elem_of_app. right. by left. }
  pose proof (foc_nodup _ _ _ _ _ _ H) as Hnd. rewrite Ht in *. apply foc_down in H.
  destruct (givePosition_spec _ _ _ _ _ _ _ _ _ _ _ _ _ H) as (q' & E1 & H1).
  exists q', (plug x (T c l m vm r)), c. split; [done|]. split; [by apply foc_up|]. split; [by eapply rename_RB|].
  rewrite inorder_plug in *. cbn [inorder] in *. rewrite <- app_assoc, app_assoc in Hin. cbn [app] in Hin.
  rewrite <- app_assoc, app_assoc. cbn [app]. rewrite <- app_assoc, app_assoc in Hnd. cbn [app] in Hnd.
  by destruct (split_unique _ _ _ _ _ _ _ Hnd Hin) as [-> ->].
Qed.

(** What detaching a node leaves: a balanced tree of the other nodes. *)
Lemma detach_spec k x c l n v r fr g q fuel : foc k x (T c l n v r) fr g q -> RB (plug x (T c l n v r)) ->
  (length (inorder (plug x (T c l n v r))) <= fuel)%nat ->
  exists q' t' b, detach fuel n q = Ret q' /\ foc k [] t' ((n, mkNode b v None None None None) :: fr) g q' /\ RB t' /\
    inorder t' = before x ++ inorder l ++ inorder r ++ after x.
Proof.
  intros H Hrb Hf. pose proof (length_plug x (T c l n v r)) as Hlen. unfold detach.
  assert (Hdec : (l = E \/ r = E) \/ exists cl ll m w lr cr rl m' w' rr, l = T cl ll m w lr /\ r = T cr rl m' w' rr).
  { destruct l, r; [by left; left|by left; left|by left; right|right; by eexists _, _, _, _, _, _, _, _, _, _]. }
  destruct Hdec as [Hc|(cl & ll & ml & wl & lr & cr & rl & mr & wr & rr & Hl & Hr)].
  - destruct (detach_one k x c l n v r fr g q (fun l q => '(m, q) ← detachMax fuel l q; givePosition n m q) fuel H Hrb Hc ltac:(lia)) as (q' & E1 & H1). eexists q', _, c.
    split; [exact E1|]. split; [exact H1|]. split; [by eapply removeD_RB|]. rewrite inorder_removeD. f_equal.
    destruct Hc as [-> | ->]; [done|]. destruct l; [done|]. by cbn.
  - unfold detach_with. bind (foc_get _ _ _ _ _ _ _ _ _ _ H). bind (getSibling_spec _ _ _ _ _ _ _ _ _ _ H). cbn [left right].
    assert (rootid l = Some ml) as -> by (by rewrite Hl). assert (rootid r = Some mr) as -> by (by rewrite Hr).
    apply foc_sub_l in H. unfold detachMax. cbn [inorder] in Hlen. rewrite !length_app in Hlen.
    destruct (walk_right_spec k _ _ l _ _ _ _ _ _ _ fuel Hl H ltac:(lia)) as (y & cm & lm & m & vm & Heq & Ha & Hw). bind Hw.
    set (x1 := y ++ FL c n v r :: x).
    assert (Hp : plug x1 (T cm lm m vm E) = plug x (T c l n v r)) by (unfold x1; by rewrite plug_app, <- Heq).
    assert (H1 : foc k x1 (T cm lm m vm E) fr g q) by (apply foc_down; rewrite Hp; by apply foc_up, foc_sub_l).
    rewrite <- Hp in Hrb, Hf. pose proof (length_plug x1 (T cm lm m vm E)) as Hlen1.
    destruct (detach_one k x1 cm lm m vm E fr g q (fun _ _ => Fail tt) fuel H1 Hrb (or_intror eq_refl) ltac:(lia)) as (q1 & E1 & H2). bind E1.
    pose proof (removeD_RB _ _ _ _ _ _ Hrb (or_intror eq_refl)) as Hrb2. set (t2 := removeD x1 cm _) in *.
    assert (Hin : inorder t2 = (before x ++ before y ++ inorder lm) ++ (n, v) :: inorder r ++ after x).
    { unfold t2, x1. rewrite inorder_removeD, before_app, after_app, Ha. cbn [before after].
      replace (match lm with E => E | _ => lm end) with lm by (by destruct lm). rewrite <- !app_assoc. done. }
    destruct (replace_spec _ _ _ _ _ _ _ _ _ _ _ _ H2 Hrb2 Hin) as (q2 & t' & b & E2 & H3 & Hrb3 & Hin3).
    exists q2, t', b. split; [done|]. split; [done|]. split; [done|]. rewrite Hin3, Heq, inorder_plug, Ha. cbn [inorder].
    by rewrite <- !app_assoc.
Qed.
