(* ===== verification/RbRing.v ===== *)
(** The red-black trees of pqueue/rbtree.go with their queues: what each operation on one tree does.

    The nodes of one value form a ring through next and prev, of which one, the head, is in
    the tree.  [tree_rep] relates memory to the groups of nodes of one value, in order of
    value; pushing, popping, peeking and looking up are specified on those groups. *)

From Stdlib Require Import ZArith Lia.
From stdpp Require Import base numbers option list sorting gmap sets.
From S2P Require Import Prelude RbShape RbTree RbSteps.
#[local] Open Scope Z_scope.

(** ** Walks *)

Lemma walk_left_spec k fr g : forall t c l n v r x q fuel, t = T c l n v r -> foc k x t fr g q -> (length (inorder t) <= fuel)%nat ->
  exists m vm rest, walk_left fuel n q = Ret m /\ inorder t = (m, vm) :: rest.
Proof.
  induction t as [|c l IH n v r _]; intros c1 l1 n1 v1 r1 x q fuel [= <- <- <- <- <-] H Hf; cbn [inorder] in Hf |- *;
    rewrite length_app in Hf; cbn in Hf. destruct fuel as [|fuel]; [lia|]. cbn [walk_left].
  destruct (foc_left _ _ _ _ _ _ _ _ _ _ H) as [E1 _]. bind E1.
  destruct l as [|cl ll m w lr]; cbn [rootid]; [by eexists n, v, _|].
  apply foc_sub_l in H. destruct (IH _ _ _ _ _ _ _ fuel eq_refl H ltac:(lia)) as (m' & vm & rest & Hw & Heq).
  rewrite Heq. by eexists m', vm, _.
Qed.

Definition by_val (a b : nid * Z) : Prop := a.2 < b.2.

Lemma sorted_tree c l n v r : StronglySorted by_val (inorder (T c l n v r)) ->
  StronglySorted by_val (inorder l) /\ StronglySorted by_val (inorder r) /\
  Forall (fun a => a.2 < v) (inorder l) /\ Forall (fun a => v < a.2) (inorder r).
Proof.
  cbn [inorder]. intros H. split; [by eapply StronglySorted_app_1_l|]. pose proof (StronglySorted_app_1_r _ _ _ H) as Hr.
  apply StronglySorted_inv in Hr as [Hr Hv]. split; [done|]. split; [|exact Hv]. apply Forall_forall. intros a Ha.
  apply (StronglySorted_app_1_elem_of _ _ _ a (n, v) H); [done|by left].
Qed.

(** get finds the node of a value. *)
Lemma get_from_spec k fr g v : forall t x q fuel, foc k x t fr g q -> StronglySorted by_val (inorder t) ->
  (length (inorder t) <= fuel)%nat ->
  exists o, get_from fuel v (rootid t) q = Ret o /\
    match o with Some n => (n, v) ∈ inorder t | None => Forall (fun a => a.2 <> v) (inorder t) end.
Proof.
  induction t as [|c l IHl n w r IHr]; intros x q fuel H Hs Hf; [destruct fuel; by exists None|].
  destruct (sorted_tree _ _ _ _ _ Hs) as (Hsl & Hsr & Hl & Hr). cbn [inorder] in Hf. rewrite length_app in Hf. cbn in Hf.
  destruct fuel as [|fuel]; [lia|]. cbn [rootid get_from inorder]. bind (foc_get _ _ _ _ _ _ _ _ _ _ H). cbn [val left right].
  destruct (Z.eqb_spec v w) as [->|Hne]; [exists (Some n); split; [done|]; apply elem_of_app; right; by left|].
  destruct (Z.ltb_spec v w) as [Hlt|Hge].
  - apply foc_sub_l in H. destruct (IHl _ _ fuel H Hsl ltac:(lia)) as (o & -> & Ho). exists o. split; [done|].
    destruct o as [m|]; [apply elem_of_app; by left|]. apply Forall_app. split; [done|]. constructor; [done|].
    eapply Forall_impl; [exact Hr|]. cbn. lia.
  - apply foc_sub_r in H. destruct (IHr _ _ fuel H Hsr ltac:(lia)) as (o & -> & Ho). exists o. split; [done|].
    destruct o as [m|]; [apply elem_of_app; right; by right|]. apply Forall_app. split; [|by constructor].
    eapply Forall_impl; [exact Hl|]. cbn. lia.
Qed.

(** ** Insertion *)

(** Where a value that is not in the tree goes. *)
Definition inserted (a : nid * Z) (l l' : list (nid * Z)) : Prop :=
  exists l1 l2, l = l1 ++ l2 /\ l' = l1 ++ a :: l2 /\ Forall (fun b => b.2 < a.2) l1 /\ Forall (fun b => a.2 < b.2) l2.

(** A new leaf, and the repair above it. *)
Lemma leaf_spec k f x m v fr g q fuel : foc k (f :: x) (T false E m v E) fr g q -> RB (plug (f :: x) E) -> (length x < fuel)%nat ->
  exists q' t', repairInsert fuel (Some (f_node f)) q = Ret q' /\ foc k [] t' fr g q' /\ RB t' /\
    inorder t' = before (f :: x) ++ (m, v) :: after (f :: x).
Proof.
  intros H Hrb Hf. destruct (repairInsert_spec k fr g fuel f x _ q H Hf) as (q' & E1 & H1).
  destruct (RB_plug (f :: x) ltac:(done) _ Hrb) as (h & Hg & Hk). cbn in Hg. subst h.
  exists q', (climb (f :: x) (T false E m v E)). split; [done|]. split; [done|]. split.
  - by apply (climb_RB _ _ 0 false Hk).
  - rewrite inorder_climb, inorder_plug. done.
Qed.

Lemma inserted_l a l b r : inserted a l b -> Forall (fun x => a.2 < x.2) r -> inserted a (l ++ r) (b ++ r).
Proof.
  intros (l1 & l2 & -> & -> & H1 & H2) Hr. exists l1, (l2 ++ r). rewrite <- !app_assoc. split_and!; try done. by apply Forall_app.
Qed.

Lemma inserted_r a l b r : inserted a r b -> Forall (fun x => x.2 < a.2) l -> inserted a (l ++ r) (l ++ b).
Proof.
  intros (l1 & l2 & -> & -> & H1 & H2) Hl. exists (l ++ l1), l2. rewrite <- !app_assoc. split_and!; try done. by apply Forall_app.
Qed.

Lemma inserted_nil a : inserted a [] [a].
Proof. by exists [], []. Qed.

(** The last step of push: the new node becomes a child of [n]. *)
Lemma hang_left k x c n w r m v fr g q fuel :
  foc k x (T c E n w r) ((m, mkNode false v None None None None) :: fr) g q -> RB (plug x (T c E n w r)) -> (length x < fuel)%nat ->
  exists q' t', (q ← toLeftOf (Some m) n q; repairInsert fuel (Some n) q) = Ret q' /\ foc k [] t' fr g q' /\ RB t' /\
    inorder t' = before x ++ ((m, v) :: (n, w) :: inorder r) ++ after x.
Proof.
  unfold foc. intros H Hrb Hf. apply hole_in in H. cbn [enc rootid] in H. unfold toLeftOf. do_upd H n. cell_front H m. cbn [adopt].
  destruct (hole_upd _ _ _ _ _ (set_up (Some n) (Some (LeftOf n))) _ _ _ _ H) as (q' & Eu & H'). bind Eu. fields_in H'.
  assert (H2 : foc k x (T c (T false E m v E) n w r) fr g q') by (unfold foc; hole_done H'). apply foc_sub_l in H2.
  exact (leaf_spec k (FL c n w r) x m v fr g q' fuel H2 Hrb Hf).
Qed.

Lemma hang_right k x c l n w m v fr g q fuel :
  foc k x (T c l n w E) ((m, mkNode false v None None None None) :: fr) g q -> RB (plug x (T c l n w E)) -> (length x < fuel)%nat ->
  exists q' t', (q ← toRightOf (Some m) n q; repairInsert fuel (Some n) q) = Ret q' /\ foc k [] t' fr g q' /\ RB t' /\
    inorder t' = before x ++ (inorder l ++ [(n, w); (m, v)]) ++ after x.
Proof.
  unfold foc. intros H Hrb Hf. apply hole_in in H. cbn [enc rootid] in H. unfold toRightOf. do_upd H n. cell_front H m. cbn [adopt].
  destruct (hole_upd _ _ _ _ _ (set_up (Some n) (Some (RightOf n))) _ _ _ _ H) as (q' & Eu & H'). bind Eu. fields_in H'.
  assert (H2 : foc k x (T c l n w (T false E m v E)) fr g q') by (unfold foc; hole_done H'). apply foc_sub_r in H2.
  destruct (leaf_spec k (FR c l n w) x m v fr g q' fuel H2 Hrb Hf) as (q2 & t' & E2 & H3 & Hrb3 & Hin).
  exists q2, t'. split_and!; try done. rewrite Hin. cbn [before after]. by rewrite <- !app_assoc.
Qed.

(** push finds the node of the value, or puts the new node where the value goes. *)
Lemma push_at_spec k fr g m v fuel : forall t c l n w r x q depth, t = T c l n w r ->
  foc k x t ((m, mkNode false v None None None None) :: fr) g q -> RB (plug x t) -> StronglySorted by_val (inorder t) ->
  (length (inorder t) <= depth)%nat -> (length (inorder (plug x t)) <= fuel)%nat ->
  (exists h, (h, v) ∈ inorder t /\ push_at depth fuel n m q = addLast h m q) \/
  (exists q' t' l', push_at depth fuel n m q = Ret q' /\ foc k [] t' fr g q' /\ RB t' /\
     inorder t' = before x ++ l' ++ after x /\ inserted (m, v) (inorder t) l').
Proof.
  induction t as [|c l IHl n w r IHr]; intros c1 l1 n1 w1 r1 x q depth [= <- <- <- <- <-] H Hrb Hs Hd Hf.
  destruct (sorted_tree _ _ _ _ _ Hs) as (Hsl & Hsr & Hl & Hr). cbn [inorder] in Hd. rewrite length_app in Hd. cbn in Hd.
  destruct depth as [|depth]; [lia|]. cbn [push_at]. bind (foc_get _ _ _ _ _ _ _ _ _ _ H).
  bind (hole_get_fr _ _ _ _ _ _ _ _ _ H). cbn [val left right].
  destruct (Z.eqb_spec v w) as [->|Hne]; [left; exists n; split; [|done]; cbn; apply elem_of_app; right; by left|].
  pose proof (length_plug x (T c l n w r)) as Hlen. cbn [inorder] in Hlen. rewrite length_app in Hlen. cbn in Hlen.
  destruct (Z.ltb_spec v w) as [Hlt|Hge].
  - assert (Hafter : Forall (fun a => v < a.2) ((n, w) :: inorder r)).
    { constructor; [done|]. eapply Forall_impl; [exact Hr|]. cbn. lia. }
    destruct l as [|cl ll ml wl lr]; cbn [rootid].
    + right. destruct (hang_left _ _ _ _ _ _ _ _ _ _ _ fuel H Hrb ltac:(lia)) as (q2 & t' & E2 & H3 & Hrb3 & Hin).
      exists q2, t', ((m, v) :: (n, w) :: inorder r). split_and!; try done. exact (inserted_l (m, v) [] [(m, v)] _ (inserted_nil _) Hafter).
    + pose proof (proj1 (foc_sub_l _ _ _ _ _ _ _ _ _ _) H) as H1.
      destruct (IHl _ _ _ _ _ (FL c n w r :: x) q depth eq_refl H1 Hrb Hsl ltac:(cbn in *; lia) Hf) as [(h & Hh & Eh)|(q' & t' & l' & E1 & H2 & Hrb2 & Hin & Hi)].
      * left. exists h. split; [|done]. apply elem_of_app. by left.
      * right. exists q', t', (l' ++ (n, w) :: inorder r). split_and!; try done; [|by apply inserted_l].
        rewrite Hin. cbn [before after]. by rewrite <- !app_assoc.
  - assert (Hbefore : Forall (fun a => a.2 < v) (inorder l ++ [(n, w)])).
    { apply Forall_app. split; [eapply Forall_impl; [exact Hl|]; cbn; lia|]. constructor; [cbn; lia|constructor]. }
    destruct r as [|cr rl mr wr rr]; cbn [rootid].
    + right. destruct (hang_right _ _ _ _ _ _ _ _ _ _ _ fuel H Hrb ltac:(lia)) as (q2 & t' & E2 & H3 & Hrb3 & Hin).
      exists q2, t', (inorder l ++ [(n, w); (m, v)]). split_and!; try done.
      pose proof (inserted_r (m, v) _ _ _ (inserted_nil _) Hbefore) as Hi. rewrite app_nil_r, <- app_assoc in Hi. exact Hi.
    + pose proof (proj1 (foc_sub_r _ _ _ _ _ _ _ _ _ _) H) as H1.
      destruct (IHr _ _ _ _ _ (FR c l n w :: x) q depth eq_refl H1 Hrb Hsr ltac:(cbn in *; lia) Hf) as [(h & Hh & Eh)|(q' & t' & l' & E1 & H2 & Hrb2 & Hin & Hi)].
      * left. exists h. split; [|done]. apply elem_of_app. right. by right.
      * right. exists q', t', (inorder l ++ (n, w) :: l'). split_and!; try done.
        -- rewrite Hin. cbn [before after]. by rewrite <- !app_assoc.
        -- pose proof (inserted_r _ _ _ _ Hi Hbefore) as Hx. rewrite <- !app_assoc in Hx. exact Hx.
Qed.

(** ** Rings *)

Definition with_links (nx pv : gmap nid nid) (q : Rb) : Rb :=
  mkRb (nodes q) nx pv (buyTree q) (sellTree q) (orders q) (size q).

(** [b] comes behind [a] in a queue. *)
Definition linked (nx pv : gmap nid nid) (a b : nid) : Prop := pv !! a = Some b /\ nx !! b = Some a.

Fixpoint links (nx pv : gmap nid nid) (a : nid) (l : list nid) (b : nid) : Prop :=
  match l with [] => linked nx pv a b | x :: l => linked nx pv a x /\ links nx pv x l b end.

(** The queue of a head and those behind it. *)
Definition ring (q : Rb) (h : nid) (rest : list nid) : Prop := links (RbTree.next q) (prev q) h rest h.

Lemma links_app nx pv l1 x l2 b : forall a, links nx pv a (l1 ++ x :: l2) b <-> links nx pv a l1 x /\ links nx pv x l2 b.
Proof. induction l1 as [|y l1 IH]; intros a; cbn [app links]; [done|]. rewrite IH. tauto. Qed.

Lemma links_frame nx pv nx' pv' l b : forall a, links nx pv a l b ->
  (forall y, y ∈ a :: l -> pv' !! y = pv !! y) -> (forall y, y ∈ l ++ [b] -> nx' !! y = nx !! y) -> links nx' pv' a l b.
Proof.
  induction l as [|x l IH]; intros a; cbn [links app]; unfold linked.
  - intros [H1 H2] Hp Hn. by rewrite Hp, Hn by (by left).
  - intros [[H1 H2] Hl] Hp Hn. split; [by rewrite Hp, Hn by (by left)|]. apply IH; [done|..]; intros y Hy; [apply Hp|apply Hn]; by right.
Qed.

Definition away (l : list nid) (nx pv nx' pv' : gmap nid nid) : Prop :=
  forall n, n ∉ l -> nx' !! n = nx !! n /\ pv' !! n = pv !! n.

Lemma ring_away l h rest q nx pv : ring q h rest -> away l (RbTree.next q) (prev q) nx pv -> (forall n, n ∈ h :: rest -> n ∉ l) ->
  links nx pv h rest h.
Proof.
  intros Hr Ha Hd. eapply links_frame; [exact Hr|..]; intros y Hy; apply Ha, Hd; [done|].
  apply elem_of_app in Hy as [Hy|Hy]; [by right|]. apply list_elem_of_singleton in Hy as ->. by left.
Qed.

Lemma ring_alone q h : ring q h [] <-> RbTree.next q !! h = Some h /\ prev q !! h = Some h.
Proof. unfold ring, links, linked. tauto. Qed.

(** The ring of a new node, behind the last of a queue. *)
Lemma addLast_spec q h rest m : ring q h rest -> NoDup (h :: rest) -> m ∉ h :: rest ->
  exists nx pv, addLast h m q = Ret (with_links nx pv q) /\ links nx pv h (rest ++ [m]) h /\
    away (m :: h :: rest) (RbTree.next q) (prev q) nx pv.
Proof.
  intros Hr Hn Hm. assert (Hlast : exists init z, h :: rest = init ++ [z] /\ RbTree.next q !! h = Some z /\
    (z = h /\ rest = [] \/ exists r, rest = r ++ [z] /\ links (RbTree.next q) (prev q) h r z)).
  { destruct rest as [|z r _] using rev_ind; [exists [], h; apply ring_alone in Hr as [H1 _]; auto|].
    unfold ring in Hr. apply links_app in Hr as [H1 H2]. exists (h :: r), z. split; [done|]. split; [apply H2|]. right. by exists r. }
  destruct Hlast as (init & z & Hz & Enx & Hc). unfold addLast, next_of. rewrite Enx. cbn [deref mbind outcome_bind].
  eexists _, _. split; [reflexivity|]. cbn [set_next set_prev RbTree.next prev]. split.
  - apply links_app. cbn [links]. unfold linked.
    assert (m <> h) by set_solver. assert (m <> z) by (intros ->; apply Hm; rewrite Hz; set_solver).
    split; [|by rewrite !lookup_insert_eq]. destruct Hc as [[-> ->]|(r & -> & Hl)]; [cbn [links]; unfold linked; by simplify_map_eq|].
    apply NoDup_cons in Hn as [Hh Hn]. apply NoDup_app in Hn as (Hn & Hd & _). assert (h <> z) by set_solver.
    apply links_app. cbn [links]. unfold linked. split; [|by simplify_map_eq]. assert (Hzr : z ∉ r) by (intros ?; apply (Hd z); set_solver).
    eapply links_frame; [exact Hl|..]; intros y Hy; assert (y <> m) by set_solver; [assert (y <> z) by set_solver|assert (y <> h) by set_solver]; by simplify_map_eq.
  - intros n Hx. assert (n <> m) by set_solver. assert (n <> h) by set_solver. assert (n <> z) by (intros ->; apply Hx; rewrite Hz; set_solver). by simplify_map_eq.
Qed.

(** A node taken out of its ring, the others staying in order. *)
Lemma unlink_spec q n x B : ring q n (x :: B) -> NoDup (n :: x :: B) ->
  exists nx pv, unlink n q = Ret (with_links nx pv q) /\ links nx pv x B x /\ pv !! n = Some x /\
    away (x :: B) (RbTree.next q) (prev q) nx pv.
Proof.
  intros Hr Hn. unfold ring in Hr. cbn [links] in Hr. destruct Hr as [[Hp Hx] Hl].
  assert (Hlast : exists z, RbTree.next q !! n = Some z /\ z ∈ x :: B /\ (z = x /\ B = [] \/ exists r, B = r ++ [z] /\ links (RbTree.next q) (prev q) x r z)).
  { destruct B as [|z r _] using rev_ind; [exists x; cbn in Hl; destruct Hl; split; [done|]; split; [by left|]; by left|].
    apply links_app in Hl as [H1 H2]. exists z. split; [apply H2|]. split; [set_solver|]. right. by exists r. }
  destruct Hlast as (z & Enx & Hz & Hc). unfold unlink, prev_of, next_of. rewrite Hp. cbn [deref mbind outcome_bind]. rewrite Enx. cbn [deref mbind outcome_bind].
  apply NoDup_cons in Hn as [Hnx Hn]. assert (n <> x) by set_solver. assert (n <> z) by (by intros ->).
  cbn [set_next RbTree.next prev nodes buyTree sellTree orders size]. rewrite lookup_insert_ne, Enx by done. cbn [deref mbind outcome_bind]. rewrite Hp. cbn [deref mbind outcome_bind].
  eexists _, _. split; [reflexivity|]. cbn [set_prev RbTree.next prev]. split; [|split; [by simplify_map_eq|]].
  - destruct Hc as [[-> ->]|(r & -> & Hl')]; [cbn [links]; unfold linked; by simplify_map_eq|].
    apply NoDup_cons in Hn as [Hxr Hn]. apply NoDup_app in Hn as (_ & Hd & _). assert (Hzr : z ∉ r) by (intros ?; apply (Hd z); set_solver).
    apply links_app. cbn [links]. unfold linked. split; [|by simplify_map_eq].
    eapply links_frame; [exact Hl'|..]; intros y Hy; [assert (y <> z) by set_solver|assert (y <> x) by set_solver]; by simplify_map_eq.
  - intros y Hy. assert (y <> x) by set_solver. assert (y <> z) by set_solver. by simplify_map_eq.
Qed.

(** ** A tree with its queues *)

(** The nodes of one value: the head and those behind it. *)
Record group := Group { g_val : Z; g_head : nid; g_rest : list nid }.

Definition members (gr : group) : list nid := g_head gr :: g_rest gr.
Definition ids (gs : list group) : list nid := gs ≫= members.
Definition heads (gs : list group) : list (nid * Z) := (fun gr => (g_head gr, g_val gr)) <$> gs.

(** A node that is not in a tree. *)
Definition idle (v : Z) : node := mkNode false v None None None None.

Record tree_rep (k : tree_id) (q : Rb) (gs : list group) : Prop := {
  tr_tree : exists t, RB t /\ inorder t = heads gs /\ root k q = rootid t /\ sat (nodes q) (enc t None (RootOf k));
  tr_rest : forall gr n, gr ∈ gs -> n ∈ g_rest gr -> nodes q !! n = Some (idle (g_val gr));
  tr_ring : forall gr, gr ∈ gs -> ring q (g_head gr) (g_rest gr);
  tr_sorted : StronglySorted Z.lt (g_val <$> gs);
  tr_nodup : NoDup (ids gs)
}.

(** What work on tree [k] and the nodes [l] leaves alone. *)
Record keeps (k : tree_id) (l : list nid) (q q' : Rb) : Prop := {
  kp_nodes : forall n nd, n ∉ l -> nodes q !! n = Some nd -> nodes q' !! n = Some nd;
  kp_links : away l (RbTree.next q) (prev q) (RbTree.next q') (prev q');
  kp_root : forall j, j <> k -> root j q' = root j q;
  kp_size : size q' = size q
}.

Lemma ids_app a b : ids (a ++ b) = ids a ++ ids b.
Proof. apply bind_app. Qed.

Lemma ids_cons gr gs : ids (gr :: gs) = members gr ++ ids gs.
Proof. done. Qed.

Lemma elem_of_ids n gs : n ∈ ids gs <-> exists gr, gr ∈ gs /\ n ∈ members gr.
Proof. unfold ids. rewrite list_elem_of_bind. naive_solver. Qed.

Lemma heads_ids gs n : n ∈ (heads gs).*1 -> n ∈ ids gs.
Proof.
  unfold heads. rewrite <- list_fmap_compose. intros (gr & -> & Hg)%list_elem_of_fmap. apply elem_of_ids. exists gr. split; [done|by left].
Qed.

Lemma heads_nodup gs : NoDup (ids gs) -> NoDup (heads gs).*1.
Proof.
  induction gs as [|gr gs IH]; [constructor|]. rewrite ids_cons. intros (H1 & H2 & H3)%NoDup_app. cbn. apply NoDup_cons.
  split; [|by apply IH]. intros Hh%heads_ids. apply (H2 (g_head gr)); [by left|done].
Qed.

Lemma heads_app a b : heads (a ++ b) = heads a ++ heads b.
Proof. apply fmap_app. Qed.

Lemma heads_sorted gs : StronglySorted Z.lt (g_val <$> gs) -> StronglySorted by_val (heads gs).
Proof.
  induction gs as [|gr gs IH]; cbn; [constructor|]. intros [H1 H2]%StronglySorted_inv. constructor; [by apply IH|].
  unfold heads. rewrite Forall_fmap in H2. rewrite Forall_fmap. exact H2.
Qed.

(** Nodes of different groups are different. *)
Lemma group_away g1 gr g2 gr' n : NoDup (ids (g1 ++ gr :: g2)) -> gr' ∈ g1 ++ g2 -> n ∈ members gr' -> n ∉ members gr.
Proof.
  rewrite ids_app, ids_cons. intros Hn Hg Hin Hin'. rewrite app_assoc, (Permutation_app_comm (ids g1)), <- app_assoc in Hn.
  apply NoDup_app in Hn as (_ & Hd & _). apply (Hd n Hin'). rewrite <- ids_app. apply elem_of_ids. by exists gr'.
Qed.

Lemma split_at_group gs n : n ∈ ids gs -> exists g1 gr g2, gs = g1 ++ gr :: g2 /\ n ∈ members gr.
Proof.
  intros (gr & Hg & Hn)%elem_of_ids. apply list_elem_of_split in Hg as (g1 & g2 & ->). by exists g1, gr, g2.
Qed.

(** *** Into the tree and back *)

Lemma foc_fr k x t fr fr' g q : fr ≡ₚ fr' -> foc k x t fr g q -> foc k x t fr' g q.
Proof.
  intros Hp [H1 H2 H3 H4]. split; [|by rewrite <- Hp|done|done]. eapply sat_perm; [|exact H1]. by rewrite Hp.
Qed.

(** The tree with all other nodes as its frame. *)
Lemma tree_foc k t q : sat (nodes q) (enc t None (RootOf k)) -> NoDup (inorder t).*1 -> root k q = rootid t ->
  exists fr, foc k [] t fr q q /\ forall n nd, n ∉ (inorder t).*1 -> nodes q !! n = Some nd -> (n, nd) ∈ fr.
Proof.
  intros Hs Hn Hr. set (fr := filter (fun p : nid * node => p.1 ∉ (inorder t).*1) (map_to_list (nodes q))). exists fr. split.
  - split; cbn [cenc cpar cslot croot app]; [| |done|by split].
    + apply Forall_app. split; [exact Hs|]. apply Forall_forall. intros [n nd] Hin. apply list_elem_of_filter in Hin as [_ Hin]. by apply elem_of_map_to_list in Hin.
    + rewrite fmap_app, enc_keys. apply NoDup_app. split; [done|]. split.
      * intros n Hin (p & -> & Hp)%list_elem_of_fmap. by apply list_elem_of_filter in Hp as [Hp _].
      * eapply sublist_NoDup; [apply (NoDup_fst_map_to_list (nodes q))|]. apply fmap_sublist, sublist_filter.
  - intros n nd Hin Hl. apply list_elem_of_filter. split; [done|]. by apply elem_of_map_to_list.
Qed.

Lemma foc_frame_node k x t fr g q n nd : foc k x t fr g q -> (n, nd) ∈ fr -> nodes q !! n = Some nd.
Proof. intros [Hs _ _ _] Hin. unfold sat in Hs. rewrite Forall_forall in Hs. apply (Hs (n, nd)). set_solver. Qed.

Lemma foc_tree k t fr g q : foc k [] t fr g q -> root k q = rootid t /\ sat (nodes q) (enc t None (RootOf k)).
Proof. intros [Hs _ Hr _]. split; [done|]. unfold sat in *. by apply Forall_app in Hs as [Hs _]. Qed.

Lemma rep_foc k q gs : tree_rep k q gs ->
  exists t fr, foc k [] t fr q q /\ RB t /\ inorder t = heads gs /\ root k q = rootid t /\
    forall n nd, n ∉ (heads gs).*1 -> nodes q !! n = Some nd -> (n, nd) ∈ fr.
Proof.
  intros [(t & Hrb & Hin & Hr & Hs) _ _ _ Hn]. destruct (tree_foc k t q Hs) as (fr & Hf & Hfr); [|done|].
  - rewrite Hin. by apply heads_nodup.
  - exists t, fr. rewrite Hin in Hfr. done.
Qed.

Lemma length_heads gs : (length (heads gs) <= length (ids gs))%nat.
Proof.
  unfold heads. rewrite length_fmap. induction gs as [|gr gs IH]; [done|]. rewrite ids_cons, length_app. cbn. lia.
Qed.

Lemma foc_keeps k t fr g q q' l : foc k [] t fr g q' -> (forall n nd, n ∉ l -> nodes q !! n = Some nd -> (n, nd) ∈ fr) ->
  away l (RbTree.next q) (prev q) (RbTree.next g) (prev g) -> (forall j, j <> k -> root j g = root j q) -> size g = size q -> keeps k l q q'.
Proof.
  intros Hf Hfr Ha Hr Hs. pose proof Hf as [_ _ _ [F1 F2 F3 F4]]. split.
  - intros n nd Hn Hl. eapply foc_frame_node; [exact Hf|auto].
  - by rewrite F1, F2.
  - intros j Hj. by rewrite F4, Hr.
  - by rewrite F3.
Qed.

(** *** Looking *)

Lemma tree_peekMin_spec k q gs fuel : tree_rep k q gs -> (length (ids gs) <= fuel)%nat -> peekMin fuel k q = Ret (g_head <$> head gs).
Proof.
  intros Hq Hf. destruct (rep_foc _ _ _ Hq) as (t & fr & H & _ & Hin & Hr & _). unfold peekMin. rewrite Hr. pose proof (length_heads gs).
  destruct t as [|c l n v r]; cbn [rootid]; [by destruct gs|].
  destruct (walk_left_spec k fr q _ _ _ _ _ _ [] q fuel eq_refl H) as (m & vm & rest & -> & Heq); [rewrite Hin; lia|].
  rewrite Hin in Heq. destruct gs as [|gr gs]; [done|]. by injection Heq as <- _ _.
Qed.

Lemma tree_peekMax_spec k q gs fuel : tree_rep k q gs -> (length (ids gs) <= fuel)%nat -> peekMax fuel k q = Ret (g_head <$> last gs).
Proof.
  intros Hq Hf. destruct (rep_foc _ _ _ Hq) as (t & fr & H & _ & Hin & Hr & _). unfold peekMax. rewrite Hr. pose proof (length_heads gs).
  destruct t as [|c l n v r]; cbn [rootid]; [by destruct gs|].
  destruct (walk_right_spec k fr q _ _ _ _ _ _ [] q fuel eq_refl H) as (y & cm & lm & m & vm & Heq & Ha & ->); [rewrite Hin; lia|].
  rewrite Heq, inorder_plug, Ha in Hin. cbn [inorder] in Hin. destruct gs as [|gr gs _] using rev_ind.
  - destruct (before y), (inorder lm); discriminate Hin.
  - rewrite heads_app, app_nil_r, app_assoc in Hin. apply app_inj_tail in Hin as [_ [= -> ->]]. by rewrite last_snoc.
Qed.

Lemma get_spec k q gs v fuel : tree_rep k q gs -> (length (ids gs) <= fuel)%nat ->
  exists o, get_from fuel v (root k q) q = Ret o /\
    match o with
    | Some n => exists gr, gr ∈ gs /\ n = g_head gr /\ g_val gr = v
    | None => Forall (fun gr => g_val gr <> v) gs
    end.
Proof.
  intros Hq Hf. destruct (rep_foc _ _ _ Hq) as (t & fr & H & _ & Hin & Hr & _). rewrite Hr. pose proof (length_heads gs).
  destruct (get_from_spec k fr q v t [] q fuel H) as (o & -> & Ho); rewrite ?Hin.
  - apply heads_sorted, Hq.
  - lia.
  - exists o. split; [done|]. rewrite Hin in Ho. unfold heads in Ho. destruct o as [n|].
    + apply list_elem_of_fmap in Ho as (gr & [= -> ->] & Hg). by exists gr.
    + by rewrite Forall_fmap in Ho.
Qed.

(** *** The groups after a push and after a pop *)

Inductive placed (m : nid) (v : Z) : list group -> list group -> Prop :=
| placed_new g1 g2 : Forall (fun gr => g_val gr < v) g1 -> Forall (fun gr => v < g_val gr) g2 ->
    placed m v (g1 ++ g2) (g1 ++ Group v m [] :: g2)
| placed_behind g1 g2 h rs : placed m v (g1 ++ Group v h rs :: g2) (g1 ++ Group v h (rs ++ [m]) :: g2).

Inductive dropped (n : nid) : list group -> list group -> Prop :=
| dropped_only g1 g2 v : dropped n (g1 ++ Group v n [] :: g2) (g1 ++ g2)
| dropped_head g1 g2 v x rs : dropped n (g1 ++ Group v n (x :: rs) :: g2) (g1 ++ Group v x rs :: g2)
| dropped_behind g1 g2 v h a b : dropped n (g1 ++ Group v h (a ++ n :: b) :: g2) (g1 ++ Group v h (a ++ b) :: g2).

Lemma sorted_mid (l1 l2 : list Z) v : StronglySorted Z.lt (l1 ++ l2) -> Forall (fun x => x < v) l1 -> Forall (fun x => v < x) l2 ->
  StronglySorted Z.lt (l1 ++ v :: l2).
Proof.
  rewrite !StronglySorted_app, !Forall_forall. intros (H1 & H2 & H3) Hl Hr. split_and!; [|done|].
  - intros x y Hx [->|Hy]%elem_of_cons; auto.
  - constructor; [done|]. by apply Forall_forall.
Qed.

Lemma sorted_out (l1 l2 : list Z) v : StronglySorted Z.lt (l1 ++ v :: l2) -> StronglySorted Z.lt (l1 ++ l2).
Proof.
  rewrite !StronglySorted_app. intros (H1 & H2 & [H3 _]%StronglySorted_inv). split_and!; [|done|done].
  intros x y Hx Hy. apply H1; [done|by right].
Qed.

Lemma placed_sorted m v gs gs' : placed m v gs gs' -> StronglySorted Z.lt (g_val <$> gs) -> StronglySorted Z.lt (g_val <$> gs').
Proof.
  intros [g1 g2 H1 H2|g1 g2 h rs]; rewrite !fmap_app; [|done]. intros Hs. apply sorted_mid; [done|by apply Forall_fmap..].
Qed.

Lemma placed_ids m v gs gs' : placed m v gs gs' -> ids gs' ≡ₚ m :: ids gs.
Proof. intros [g1 g2 _ _|g1 g2 h rs]; rewrite !ids_app, !ids_cons; unfold members; cbn [g_head g_rest]; solve_Permutation. Qed.

Lemma dropped_sorted n gs gs' : dropped n gs gs' -> StronglySorted Z.lt (g_val <$> gs) -> StronglySorted Z.lt (g_val <$> gs').
Proof. intros [g1 g2 v|g1 g2 v x rs|g1 g2 v h a b]; rewrite !fmap_app; [apply sorted_out|done|done]. Qed.

Lemma dropped_ids n gs gs' : dropped n gs gs' -> ids gs ≡ₚ n :: ids gs'.
Proof. intros [g1 g2 v|g1 g2 v x rs|g1 g2 v h a b]; rewrite !ids_app, ?ids_cons; unfold members; cbn [g_head g_rest]; solve_Permutation. Qed.

(** *** One group replaced *)

Lemma rings_step k q g1 gr g2 gr' l nx pv : tree_rep k q (g1 ++ gr :: g2) -> away l (RbTree.next q) (prev q) nx pv ->
  (forall n, n ∈ l -> n ∈ members gr \/ n ∉ ids (g1 ++ gr :: g2)) -> links nx pv (g_head gr') (g_rest gr') (g_head gr') ->
  forall x, x ∈ g1 ++ gr' :: g2 -> links nx pv (g_head x) (g_rest x) (g_head x).
Proof.
  intros Hq Ha Hl Hlk x Hx. assert (Hc : x = gr' \/ x ∈ g1 ++ g2) by set_solver. destruct Hc as [->|Hc]; [done|].
  assert (Hin : x ∈ g1 ++ gr :: g2) by set_solver. eapply (ring_away l); [by eapply tr_ring|done|]. intros n Hn Hnl.
  destruct (Hl n Hnl) as [Hm|Hm]; [|apply Hm, elem_of_ids; by exists x].
  by apply (group_away g1 gr g2 x n (tr_nodup _ _ _ Hq) Hc Hn).
Qed.

Lemma rep_links k q gs gs' nx pv l : tree_rep k q gs ->
  (exists t, RB t /\ inorder t = heads gs' /\ root k q = rootid t /\ sat (nodes q) (enc t None (RootOf k))) ->
  StronglySorted Z.lt (g_val <$> gs') -> NoDup (ids gs') ->
  (forall gr n, gr ∈ gs' -> n ∈ g_rest gr -> nodes q !! n = Some (idle (g_val gr))) ->
  (forall gr, gr ∈ gs' -> links nx pv (g_head gr) (g_rest gr) (g_head gr)) ->
  away l (RbTree.next q) (prev q) nx pv ->
  tree_rep k (with_links nx pv q) gs' /\ keeps k l q (with_links nx pv q).
Proof.
  intros Hq Ht Hs Hn Hr Hl Ha. split; split; done.
Qed.

(** A node put behind the others of its value. *)
Lemma push_behind k q g1 v h rs g2 m : let gs := g1 ++ Group v h rs :: g2 in
  tree_rep k q gs -> m ∉ ids gs -> nodes q !! m = Some (idle v) ->
  exists q', addLast h m q = Ret q' /\ tree_rep k q' (g1 ++ Group v h (rs ++ [m]) :: g2) /\ keeps k (m :: ids gs) q q'.
Proof.
  intros gs Hq Hm Hnode. set (gr := Group v h rs). assert (Hgr : gr ∈ gs) by (unfold gs; set_solver).
  assert (Hsub : forall n, n ∈ members gr -> n ∈ ids gs) by (intros n Hn; apply elem_of_ids; by exists gr).
  assert (Hnd : NoDup (members gr)).
  { pose proof (tr_nodup _ _ _ Hq) as Hn. unfold gs in Hn. rewrite ids_app, ids_cons in Hn. apply NoDup_app in Hn as (_ & _ & Hn). by apply NoDup_app in Hn as [Hn _]. }
  destruct (addLast_spec q h rs m (tr_ring _ _ _ Hq gr Hgr) Hnd) as (nx & pv & E1 & Hl & Ha); [by intros ?%Hsub|].
  pose proof (placed_behind m v g1 g2 h rs) as Hp. exists (with_links nx pv q). split; [done|]. apply (rep_links k q gs); try done.
  - destruct (tr_tree _ _ _ Hq) as (t & H1 & H2 & H3). exists t. split; [done|]. split; [|done]. rewrite H2. unfold gs. by rewrite !heads_app.
  - by eapply placed_sorted, Hq.
  - rewrite (placed_ids _ _ _ _ Hp). apply NoDup_cons. split; [done|apply Hq].
  - intros x n Hx Hn. assert (Hc : x = Group v h (rs ++ [m]) \/ x ∈ gs) by (unfold gs; set_solver).
    destruct Hc as [->|Hc]; [|by eapply tr_rest]. cbn [g_rest g_val] in *. apply elem_of_app in Hn as [Hn|Hn]; [by apply (tr_rest _ _ _ Hq gr)|].
    by apply list_elem_of_singleton in Hn as ->.
  - eapply (rings_step k q g1 gr g2); [done|exact Ha| |done]. intros n [->|Hn]%elem_of_cons; [by right|by left].
  - intros n Hn. apply Ha. intros [->|Hx]%elem_of_cons; apply Hn; [by left|]. right. by apply Hsub.
Qed.

Lemma foc_rep k t fr g q gs q0 (l : list nid) : foc k [] t fr g q -> RB t -> inorder t = heads gs ->
  (forall n nd, n ∉ l -> nodes q0 !! n = Some nd -> (n, nd) ∈ fr) ->
  (forall gr n, gr ∈ gs -> n ∈ g_rest gr -> (n ∉ l) /\ nodes q0 !! n = Some (idle (g_val gr))) ->
  (forall gr, gr ∈ gs -> ring g (g_head gr) (g_rest gr)) -> StronglySorted Z.lt (g_val <$> gs) -> NoDup (ids gs) -> tree_rep k q gs.
Proof.
  intros H Hrb Hin Hfr Hr Hring Hs Hn. split; [| | |done|done].
  - exists t. split; [done|]. split; [done|]. by eapply foc_tree.
  - intros gr n Hg Hx. destruct (Hr gr n Hg Hx) as [Hl Hnode]. eapply foc_frame_node; [exact H|auto].
  - pose proof H as [_ _ _ [F1 F2 _ _]]. intros gr Hg. unfold ring. rewrite F1, F2. by apply Hring.
Qed.

Lemma rest_not_head gs gr n : NoDup (ids gs) -> gr ∈ gs -> n ∈ g_rest gr -> n ∉ (heads gs).*1.
Proof.
  intros Hnd (a & b & ->)%list_elem_of_split Hn Hx. rewrite heads_app, fmap_app in Hx. cbn in Hx.
  rewrite elem_of_app, elem_of_cons in Hx.
  assert (Hc : n ∈ (heads (a ++ b)).*1 \/ n = g_head gr) by (rewrite heads_app, fmap_app, elem_of_app; tauto). destruct Hc as [Hc| ->].
  - unfold heads in Hc. rewrite <- list_fmap_compose in Hc. apply list_elem_of_fmap in Hc as (gr' & -> & Hc).
    apply (group_away a gr b gr' (g_head gr') Hnd Hc); [by left|by right].
  - rewrite ids_app, ids_cons in Hnd. apply NoDup_app in Hnd as (_ & _ & Hnd). apply NoDup_app in Hnd as (Hnd & _). by apply NoDup_cons in Hnd as [Hnd _].
Qed.

(** A node put into the tree. *)
Lemma push_new k t fr' g1 g2 m v q q' : tree_rep k q (g1 ++ g2) -> m ∉ ids (g1 ++ g2) -> ring q m [] ->
  (forall n nd, n ∉ m :: (heads (g1 ++ g2)).*1 -> nodes q !! n = Some nd -> (n, nd) ∈ fr') ->
  Forall (fun gr => g_val gr < v) g1 -> Forall (fun gr => v < g_val gr) g2 ->
  foc k [] t fr' q q' -> RB t -> inorder t = heads g1 ++ (m, v) :: heads g2 ->
  tree_rep k q' (g1 ++ Group v m [] :: g2) /\ keeps k (m :: ids (g1 ++ g2)) q q'.
Proof.
  intros Hq Hm Hring Hfr H1 H2 H Hrb Hin. pose proof (placed_new m v g1 g2 H1 H2) as Hp. split.
  - eapply (foc_rep k t fr' q q' _ q (m :: (heads (g1 ++ g2)).*1)); try done.
    + by rewrite Hin, heads_app.
    + intros gr n Hg Hn. assert (Hg' : gr ∈ g1 ++ g2) by (apply elem_of_app in Hg as [Hg|[->|Hg]%elem_of_cons]; [set_solver|by apply elem_of_nil in Hn|set_solver]).
      split; [|by eapply tr_rest]. intros [->|Hx]%elem_of_cons; [apply Hm, elem_of_ids; exists gr; split; [done|by right]|].
      by apply (rest_not_head (g1 ++ g2) gr n (tr_nodup _ _ _ Hq)).
    + intros gr Hg. apply elem_of_app in Hg as [Hg|[->|Hg]%elem_of_cons]; [|done|]; eapply tr_ring; try done; set_solver.
    + by eapply placed_sorted, Hq.
    + rewrite (placed_ids _ _ _ _ Hp). apply NoDup_cons. split; [done|apply Hq].
  - eapply foc_keeps; [exact H| |done|done|done]. intros n nd Hn. apply Hfr. intros [->|Hx]%elem_of_cons; apply Hn; [by left|]. right. by apply heads_ids.
Qed.

(** *** push *)

Lemma heads_split gs l1 l2 : heads gs = l1 ++ l2 -> exists g1 g2, gs = g1 ++ g2 /\ l1 = heads g1 /\ l2 = heads g2.
Proof. intros (g1 & g2 & ? & ? & ?)%fmap_app_inv. by exists g1, g2. Qed.

Lemma tree_push_spec k q gs m v fuel : tree_rep k q gs -> m ∉ ids gs -> nodes q !! m = Some (idle v) -> ring q m [] ->
  (length (ids gs) <= fuel)%nat ->
  exists q' gs', push fuel k m q = Ret q' /\ tree_rep k q' gs' /\ placed m v gs gs' /\ keeps k (m :: ids gs) q q'.
Proof.
  intros Hq Hm Hnode Hring Hf. destruct (rep_foc _ _ _ Hq) as (t & fr & H & Hrb & Hin & Hr & Hfr). pose proof (length_heads gs) as Hlen.
  assert (Hmh : m ∉ (heads gs).*1) by (by intros ?%heads_ids).
  destruct (elem_of_Permutation fr (m, idle v)) as [Hp _]. destruct (Hp (Hfr m _ Hmh Hnode)) as (fr' & Hp'). apply (foc_fr _ _ _ _ _ _ _ Hp') in H.
  assert (Hfr' : forall n nd, n ∉ m :: (heads gs).*1 -> nodes q !! n = Some nd -> (n, nd) ∈ fr').
  { intros n nd Hn Hl. assert (Hx : (n, nd) ∈ fr) by (apply Hfr; [set_solver|done]). rewrite Hp' in Hx.
    apply elem_of_cons in Hx as [[= -> _]|Hx]; [|done]. exfalso. apply Hn. by left. }
  unfold push. rewrite Hr. destruct t as [|c l n w r]; cbn [rootid].
  - destruct gs as [|gr gs]; [|discriminate Hin]. pose proof (hole_get_fr _ _ _ _ _ _ _ _ _ H) as Eg. bind Eg. cbn [parent idle].
    destruct (hole_write k [] _ (Some m) _ _ _ _ H) as (q1 & E1 & H1). cbn [cslot write_slot] in E1. injection E1 as ->.
    unfold foc in H1. apply hole_in in H1. destruct (hole_upd _ _ _ _ _ (set_up None (Some (RootOf k))) _ _ _ _ H1) as (q2 & -> & H2).
    assert (Hf2 : foc k [] (T false E m v E) fr' q q2) by exact H2.
    destruct (push_new k (T false E m v E) fr' [] [] m v q q2) as [Hq2 Hk]; try done; [by exists 0%nat|].
    exists q2, [Group v m []]. split_and!; [done|done| |done]. by apply (placed_new m v [] []).
  - destruct (push_at_spec k fr' q m v fuel _ _ _ _ _ _ [] q fuel eq_refl H Hrb) as [(h & Hh & ->)|(q' & t' & l' & -> & H' & Hrb' & Hin' & Hi)];
      cbn [plug]; rewrite ?Hin; [by apply heads_sorted, Hq|lia|lia|..].
    + rewrite Hin in Hh. unfold heads in Hh. apply list_elem_of_fmap in Hh as ([v' h' rs] & [= -> ->] & Hg). apply list_elem_of_split in Hg as (g1 & g2 & ->).
      destruct (push_behind k q g1 v' h' rs g2 m Hq Hm Hnode) as (q' & -> & Hq' & Hk). eexists q', _. split; [done|]. split; [done|]. split; [|done]. constructor.
    + cbn [before after app] in Hin'. rewrite app_nil_r in Hin'. subst l'. destruct Hi as (l1 & l2 & Hs & Ht & H1 & H2). rewrite Hin in Hs.
      destruct (heads_split _ _ _ Hs) as (g1 & g2 & -> & -> & ->). unfold heads in H1, H2. rewrite Forall_fmap in H1, H2.
      destruct (push_new k t' fr' g1 g2 m v q q') as [Hq' Hk]; try done. eexists q', _. split; [done|]. split; [exact Hq'|]. split; [|done]. by constructor.
Qed.

(** *** pop *)

Lemma foc_links k x t fr q nx pv : foc k x t fr q q -> foc k x t fr (with_links nx pv q) (with_links nx pv q).
Proof. intros [H1 H2 H3 H4]. by split. Qed.

(** The last lines of pop. *)
Lemma rep_alone k q q1 gs n l : tree_rep k q1 gs -> keeps k l q q1 -> n ∉ ids gs -> n ∈ l ->
  let q' := set_prev n n (set_next n n q1) in tree_rep k q' gs /\ keeps k l q q'.
Proof.
  intros Hq Hk Hn Hl q'. assert (Ha : away [n] (RbTree.next q1) (prev q1) (RbTree.next q') (prev q')).
  { intros y Hy. unfold q'. cbn. assert (n <> y) by set_solver. by rewrite !lookup_insert_ne. }
  split; [split|split].
  - destruct (tr_tree _ _ _ Hq) as (t & H). by exists t.
  - apply Hq.
  - intros gr Hg. eapply ring_away; [by eapply tr_ring|exact Ha|]. intros y Hy ->%list_elem_of_singleton. apply Hn, elem_of_ids. by exists gr.
  - apply Hq.
  - apply Hq.
  - apply Hk.
  - intros y Hy. destruct (Ha y) as [-> ->]; [|by apply Hk]. intros ->%list_elem_of_singleton. done.
  - apply Hk.
  - apply Hk.
Qed.

Lemma rep_members k q g1 gr g2 : tree_rep k q (g1 ++ gr :: g2) -> NoDup (members gr) /\ forall n, n ∈ members gr -> n ∈ ids (g1 ++ gr :: g2).
Proof.
  intros Hq. pose proof (tr_nodup _ _ _ Hq) as Hn. rewrite ids_app, ids_cons in *. apply NoDup_app in Hn as (_ & _ & Hn).
  apply NoDup_app in Hn as [Hn _]. split; [done|]. intros n Hx. rewrite !elem_of_app. auto.
Qed.

(** A node that is not the head of its queue. *)
Lemma pop_behind k q g1 v h a n b g2 fuel : let gs := g1 ++ Group v h (a ++ n :: b) :: g2 in tree_rep k q gs ->
  exists q', pop fuel n q = Ret q' /\ tree_rep k q' (g1 ++ Group v h (a ++ b) :: g2) /\ keeps k (ids gs) q q'.
Proof.
  intros gs Hq. set (gr := Group v h (a ++ n :: b)). assert (Hgr : gr ∈ gs) by (unfold gs; set_solver).
  assert (Hn : nodes q !! n = Some (idle v)) by (apply (tr_rest _ _ _ Hq gr); [done|cbn; set_solver]).
  pose proof (dropped_behind n g1 g2 v h a b) as Hd. pose proof (dropped_ids _ _ _ Hd) as Hids. fold gs in Hids.
  pose proof (tr_nodup _ _ _ Hq) as Hnd. rewrite Hids in Hnd. apply NoDup_cons in Hnd as [Hnn Hnd].
  destruct (rep_members _ _ _ _ _ Hq) as [Hm Hsub]. pose proof (tr_ring _ _ _ Hq gr Hgr) as Hring. apply links_app in Hring as [R1 R2]. cbn in R1, R2.
  assert (Hlx : exists nx pv, unlink n q = Ret (with_links nx pv q) /\ links nx pv h (a ++ b) h /\ away (members gr) (RbTree.next q) (prev q) nx pv).
  { destruct b as [|y b].
    - destruct (unlink_spec q n h a) as (nx & pv & E1 & Hl & _ & Ha); [by split| |].
      { eapply NoDup_Permutation_proper; [|exact Hm]. cbn. solve_Permutation. }
      exists nx, pv. rewrite app_nil_r. split_and!; [done|done|]. intros z Hz. apply Ha. set_solver.
    - cbn [links] in R2. destruct R2 as [R2 R3]. destruct (unlink_spec q n y (b ++ h :: a)) as (nx & pv & E1 & Hl & _ & Ha).
      { split; [done|]. apply links_app. by split. }
      { eapply NoDup_Permutation_proper; [|exact Hm]. cbn. solve_Permutation. }
      exists nx, pv. split; [done|]. apply links_app in Hl as [L1 L2]. split; [by apply links_app|]. intros z Hz. apply Ha. set_solver. }
  destruct Hlx as (nx & pv & E1 & Hl & Ha). unfold pop, isHead. unfold get_node at 1. rewrite Hn. cbn [deref mbind outcome_bind pp idle].
  rewrite bool_decide_eq_false_2 by (intros Hx; by apply Hx). assert (Hx : exists x, RbTree.next q !! n = Some x).
  { destruct b; cbn [links] in *; unfold linked in *; clear -R1; revert R1; generalize h; induction a as [|z a IH]; intros w; cbn; unfold linked; naive_solver. }
  destruct Hx as (x & Hx). unfold next_of. rewrite Hx. cbn [deref mbind outcome_bind negb]. bind E1.
  unfold upd, get_node. cbn [with_links nodes]. rewrite Hn. cbn [deref mbind outcome_bind]. rewrite insert_id by done.
  destruct (rep_links k q gs (g1 ++ Group v h (a ++ b) :: g2) nx pv (ids gs) Hq) as [Hq1 Hk1]; try done.
  - destruct (tr_tree _ _ _ Hq) as (t & H1 & H2 & H3). exists t. split; [done|]. split; [|done]. rewrite H2. unfold gs. by rewrite !heads_app.
  - by eapply dropped_sorted, Hq.
  - intros y m Hy Hmm. apply elem_of_app in Hy as [Hy|[->|Hy]%elem_of_cons]; [apply (tr_rest _ _ _ Hq y); [set_solver|done]| |apply (tr_rest _ _ _ Hq y); [set_solver|done]].
    apply (tr_rest _ _ _ Hq gr); [done|]. cbn in *. set_solver.
  - eapply (rings_step k q g1 gr g2); [done|exact Ha| |done]. intros z Hz. by left.
  - intros z Hz. apply Ha. intros Hz'. by apply Hz, Hsub.
  - eexists. split; [reflexivity|]. eapply rep_alone; [exact Hq1|exact Hk1|done|]. rewrite Hids. by left.
Qed.

(** The head of a queue, seen in the tree. *)
Lemma foc_head k t fr q g1 gr g2 : foc k [] t fr q q -> inorder t = heads (g1 ++ gr :: g2) -> NoDup (heads (g1 ++ gr :: g2)).*1 ->
  exists x c l r, t = plug x (T c l (g_head gr) (g_val gr) r) /\ isHead (g_head gr) q = Ret true /\
    heads g1 = before x ++ inorder l /\ heads g2 = inorder r ++ after x.
Proof.
  intros H Hin Hn. destruct (find_node t (g_head gr) (g_val gr)) as (x & c & l & r & Ht).
  { rewrite Hin, heads_app. apply elem_of_app. right. by left. }
  exists x, c, l, r. split; [done|]. rewrite Ht in H. split.
  - apply foc_down in H. unfold isHead. bind (foc_get _ _ _ _ _ _ _ _ _ _ H). done.
  - rewrite heads_app in Hin, Hn. rewrite Ht, inorder_plug in Hin. cbn [inorder] in Hin. rewrite <- app_assoc, app_assoc in Hin. cbn [app] in Hin.
    symmetry in Hin. by apply split_unique in Hin.
Qed.

(** The head alone in its queue. *)
Lemma pop_only k q g1 v n g2 fuel : let gs := g1 ++ Group v n [] :: g2 in tree_rep k q gs -> (length (ids gs) <= fuel)%nat ->
  exists q', pop fuel n q = Ret q' /\ tree_rep k q' (g1 ++ g2) /\ keeps k (ids gs) q q'.
Proof.
  intros gs Hq Hf. set (gr := Group v n []). assert (Hgr : gr ∈ gs) by (unfold gs; set_solver).
  destruct (rep_foc _ _ _ Hq) as (t & fr & H & Hrb & Hin & Hr & Hfr). pose proof (length_heads gs) as Hlen.
  destruct (foc_head k t fr q g1 gr g2 H Hin (heads_nodup _ (tr_nodup _ _ _ Hq))) as (x & c & l & r & -> & Eh & Hg1 & Hg2). cbn [g_head g_val gr] in *.
  pose proof (proj1 (ring_alone _ _) (tr_ring _ _ _ Hq gr Hgr)) as [Enx _]. cbn [g_head gr] in Enx.
  rewrite <- Hin in Hlen. apply foc_down in H. destruct (detach_spec _ _ _ _ _ _ _ _ _ _ fuel H Hrb ltac:(lia)) as (q1 & t' & b & E1 & H1 & Hrb1 & Hin1).
  unfold pop. bind Eh. cbn [negb]. unfold next_of. rewrite Enx. cbn [deref mbind outcome_bind]. rewrite decide_False by (intros Hx; by apply Hx). bind E1.
  pose proof (dropped_only n g1 g2 v) as Hd. pose proof (dropped_ids _ _ _ Hd) as Hids. fold gs gr in Hids.
  pose proof (tr_nodup _ _ _ Hq) as Hnd. rewrite Hids in Hnd. apply NoDup_cons in Hnd as [Hnn Hnd].
  eexists. split; [reflexivity|]. eapply rep_alone; [| |done|rewrite Hids; by left].
  - eapply (foc_rep k t' _ q q1 _ q (heads gs).*1 H1 Hrb1).
    + rewrite Hin1, heads_app, Hg1, Hg2. by rewrite <- app_assoc.
    + intros m nd Hm Hl. right. by apply Hfr.
    + intros y m Hy Hm. assert (Hy' : y ∈ gs) by (unfold gs; set_solver). split; [by eapply rest_not_head; [apply Hq|..]|]. by eapply tr_rest.
    + intros y Hy. eapply tr_ring; [done|]. unfold gs. set_solver.
    + by eapply dropped_sorted, Hq.
    + done.
  - eapply foc_keeps; [exact H1| |done|done|done]. intros m nd Hm Hl. right. apply Hfr; [|done]. by intros ?%heads_ids.
Qed.

(** The head of a queue of several: the next one takes its place. *)
Lemma pop_head k q g1 v n x rs g2 fuel : let gs := g1 ++ Group v n (x :: rs) :: g2 in tree_rep k q gs ->
  exists q', pop fuel n q = Ret q' /\ tree_rep k q' (g1 ++ Group v x rs :: g2) /\ keeps k (ids gs) q q'.
Proof.
  intros gs Hq. set (gr := Group v n (x :: rs)). assert (Hgr : gr ∈ gs) by (unfold gs; set_solver).
  destruct (rep_members _ _ _ _ _ Hq) as [Hm Hsub]. destruct (unlink_spec q n x rs (tr_ring _ _ _ Hq gr Hgr) Hm) as (nx & pv & E1 & Hl & Epv & Ha).
  set (q1 := with_links nx pv q) in *. destruct (rep_foc _ _ _ Hq) as (t & fr & H & Hrb & Hin & Hr & Hfr).
  destruct (foc_head k t fr q g1 gr g2 H Hin (heads_nodup _ (tr_nodup _ _ _ Hq))) as (y & c & l & r & _ & Eh & _). cbn [g_head gr] in Eh.
  assert (Hx : nodes q !! x = Some (idle v)) by (apply (tr_rest _ _ _ Hq gr); [done|by left]).
  assert (Hxh : x ∉ (heads gs).*1) by (apply (rest_not_head gs gr); [apply Hq|done|by left]).
  destruct (proj1 (elem_of_Permutation fr (x, idle v)) (Hfr _ _ Hxh Hx)) as (fr' & Hp). apply (foc_fr _ _ _ _ _ _ _ Hp) in H.
  assert (Enx : exists z, RbTree.next q !! n = Some z /\ z <> n).
  { destruct (tr_ring _ _ _ Hq gr Hgr) as [_ Hlk]. cbn [g_head g_rest gr] in Hlk. apply NoDup_cons in Hm as [Hnm _]. cbn [g_head g_rest gr] in Hnm.
    destruct rs as [|z rs _] using rev_ind; [exists x; destruct Hlk as [_ Hz]; split; [done|set_solver]|].
    apply links_app in Hlk as [_ [_ Hz]]. exists z. split; [done|]. set_solver. }
  destruct Enx as (z & Enx & Hzn). pose proof Hin as Hin'. unfold gs in Hin'. rewrite heads_app in Hin'.
  destruct (replace_spec k t n v x false v fr' q1 q1 (heads g1) (heads g2) (foc_links _ _ _ _ _ nx pv H) Hrb Hin') as (q2 & t' & b & E2 & H2 & Hrb2 & Hin2).
  unfold pop. bind Eh. cbn [negb]. unfold next_of. rewrite Enx. cbn [deref mbind outcome_bind]. rewrite decide_True by done. bind E1.
  unfold prev_of. change (prev q1) with pv. rewrite Epv. cbn [deref mbind outcome_bind]. bind E2.
  pose proof (dropped_head n g1 g2 v x rs) as Hd. pose proof (dropped_ids _ _ _ Hd) as Hids. fold gs gr in Hids.
  pose proof (tr_nodup _ _ _ Hq) as Hnd. rewrite Hids in Hnd. apply NoDup_cons in Hnd as [Hnn Hnd].
  assert (Hfr' : forall m nd, m ∉ x :: (heads gs).*1 -> nodes q !! m = Some nd -> (m, nd) ∈ (n, mkNode b v None None None None) :: fr').
  { intros m nd Hmm Hlm. assert (Hi : (m, nd) ∈ fr) by (apply Hfr; [intros Hh; apply Hmm; by right|done]). rewrite Hp in Hi.
    apply elem_of_cons in Hi as [[= -> _]|Hi]; [|by right]. exfalso. apply Hmm. by left. }
  eexists. split; [reflexivity|]. eapply rep_alone; [| |done|rewrite Hids; by left].
  - eapply (foc_rep k t' _ q1 q2 _ q (x :: (heads gs).*1) H2 Hrb2); [by rewrite Hin2, heads_app|exact Hfr'|..|by eapply dropped_sorted, Hq|done].
    + intros u m Hu Hmu. assert (Hc : exists u', u' ∈ gs /\ m ∈ g_rest u' /\ g_val u' = g_val u /\ m <> x).
      { pose proof (rest_not_head _ u m Hnd Hu Hmu) as Hxm. rewrite heads_app, fmap_app in Hxm. cbn in Hxm.
        assert (m <> x) by (intros ->; apply Hxm; rewrite elem_of_app, elem_of_cons; auto).
        apply elem_of_app in Hu as [Hu|[->|Hu]%elem_of_cons]; [exists u|exists gr|exists u]; split_and!; try done; try (unfold gs; set_solver). }
      destruct Hc as (u' & Hu' & Hmu' & <- & Hmx). split; [|by eapply tr_rest]. apply not_elem_of_cons. split; [done|]. by eapply rest_not_head; [apply Hq|..].
    + eapply (rings_step k q g1 gr g2); [done|exact Ha| |exact Hl]. intros m Hmm. left. by right.
  - eapply foc_keeps; [exact H2| |intros m Hmm; apply Ha; intros Hx'; apply Hmm, Hsub; by right|done|done]. intros m nd Hmm. apply Hfr'.
    intros [->|Hx']%elem_of_cons; apply Hmm; [apply Hsub; right; by left|by apply heads_ids].
Qed.

Lemma tree_pop_spec k q gs n fuel : tree_rep k q gs -> n ∈ ids gs -> (length (ids gs) <= fuel)%nat ->
  exists q' gs', pop fuel n q = Ret q' /\ tree_rep k q' gs' /\ dropped n gs gs' /\ keeps k (ids gs) q q'.
Proof.
  intros Hq Hn Hf. destruct (split_at_group gs n Hn) as (g1 & [v h rs] & g2 & -> & [->|Hr]%elem_of_cons); cbn [g_head g_rest] in *.
  - destruct rs as [|x rs].
    + destruct (pop_only k q g1 v h g2 fuel Hq Hf) as (q' & E1 & Hq' & Hk). eexists q', _. split_and!; [done|done| |done]. constructor.
    + destruct (pop_head k q g1 v h x rs g2 fuel Hq) as (q' & E1 & Hq' & Hk). eexists q', _. split_and!; [done|done| |done]. constructor.
  - apply list_elem_of_split in Hr as (a & b & ->). destruct (pop_behind k q g1 v h a n b g2 fuel Hq) as (q' & E1 & Hq' & Hk).
    eexists q', _. split_and!; [done|done| |done]. constructor.
Qed.
