(* ===== verification/RbQueues.v ===== *)
(** The match queues of pqueue/public_prioq.go, on three red-black trees.

    [queues_rep] says what the trees of the buys, the sells and the guids hold; from it every method
    is shown to act as its specification does on two lists of orders, which is what
    the matcher relies on ([MatchQueuesSpec]), and validateRBT to find no error. *)

From Stdlib Require Import ZArith Lia.
From stdpp Require Import base numbers option list sorting gmap sets.
From S2P Require Import Prelude MatchBook RefQueues RbShape RbTree RbSteps RbRing.
#[local] Open Scope Z_scope.

(** ** The nodes of a tree with their values *)

Definition vals (gs : list group) : list (nid * Z) := gs ≫= fun gr => (fun n => (n, g_val gr)) <$> members gr.

Lemma vals_app a b : vals (a ++ b) = vals a ++ vals b.
Proof. apply bind_app. Qed.

Lemma vals_cons gr gs : vals (gr :: gs) = ((fun n => (n, g_val gr)) <$> members gr) ++ vals gs.
Proof. done. Qed.

Lemma vals_ids gs : (vals gs).*1 = ids gs.
Proof.
  induction gs as [|gr gs IH]; [done|]. rewrite vals_cons, ids_cons, fmap_app, IH. f_equal. rewrite <- list_fmap_compose. apply list_fmap_id.
Qed.

Lemma elem_of_vals n v gs : (n, v) ∈ vals gs <-> exists gr, gr ∈ gs /\ n ∈ members gr /\ g_val gr = v.
Proof.
  unfold vals. rewrite list_elem_of_bind. split.
  - intros (gr & (m & [= -> ->] & Hm)%list_elem_of_fmap & Hg). by exists gr.
  - intros (gr & Hg & Hn & <-). exists gr. split; [|done]. apply list_elem_of_fmap. by exists n.
Qed.

Lemma elem_of_vals_reverse p gs : p ∈ vals (reverse gs) <-> p ∈ vals gs.
Proof. destruct p as [n v]. rewrite !elem_of_vals. by setoid_rewrite elem_of_reverse. Qed.

Lemma vals_forall (P : Z -> Prop) gs : Forall (fun gr => P (g_val gr)) gs -> Forall (fun p => P p.2) (vals gs).
Proof.
  rewrite !Forall_forall. intros H [n v] (gr & Hg & _ & <-)%elem_of_vals. by apply H.
Qed.

Definition val_of (n : nid) (q : Rb) : Z := match nodes q !! n with Some nd => val nd | None => 0 end.

Lemma tree_val k q gs n v : tree_rep k q gs -> (n, v) ∈ vals gs -> val_of n q = v.
Proof.
  intros Hq (gr & Hg & [->|Hn]%elem_of_cons & <-)%elem_of_vals; unfold val_of; [|by rewrite (tr_rest _ _ _ Hq gr n Hg Hn)].
  destruct (rep_foc _ _ _ Hq) as (t & fr & H & _ & Hin & _). destruct (find_node t (g_head gr) (g_val gr)) as (x & c & l & r & ->).
  { rewrite Hin. unfold heads. apply list_elem_of_fmap. by exists gr. }
  apply foc_down in H. pose proof (foc_get _ _ _ _ _ _ _ _ _ _ H) as E1. unfold get_node in E1.
  destruct (nodes q !! g_head gr); [|done]. by injection E1 as ->.
Qed.

(** Where a new node goes, in order of rising and of falling values. *)
Lemma placed_vals m v gs gs' : placed m v gs gs' -> StronglySorted Z.lt (g_val <$> gs) ->
  (exists a b, vals gs = a ++ b /\ vals gs' = a ++ (m, v) :: b /\ Forall (fun p => p.2 <= v) a /\ Forall (fun p => v < p.2) b) /\
  (exists a b, vals (reverse gs) = a ++ b /\ vals (reverse gs') = a ++ (m, v) :: b /\ Forall (fun p => v <= p.2) a /\ Forall (fun p => p.2 < v) b).
Proof.
  intros Hp Hs. assert (Hs' : exists g1 gm g2, gs = g1 ++ gm ++ g2 /\ Forall (fun gr => g_val gr < v) g1 /\ Forall (fun gr => v < g_val gr) g2 /\
    vals gs = vals g1 ++ vals gm ++ vals g2 /\ vals gs' = vals g1 ++ vals gm ++ (m, v) :: vals g2 /\
    vals (reverse gs) = vals (reverse g2) ++ vals gm ++ vals (reverse g1) /\ vals (reverse gs') = vals (reverse g2) ++ vals gm ++ (m, v) :: vals (reverse g1) /\
    Forall (fun p => p.2 = v) (vals gm)).
  { destruct Hp as [g1 g2 H1 H2|g1 g2 h rs].
    - exists g1, [], g2. rewrite !reverse_app, reverse_cons, <- ?app_assoc, !vals_app. by split_and!.
    - exists g1, [Group v h rs], g2. rewrite !reverse_app, !reverse_cons, <- ?app_assoc, !vals_app. cbn [app]. rewrite !vals_cons. unfold members. cbn [g_head g_rest g_val].
      rewrite app_comm_cons, fmap_app. cbn [vals mbind list_bind]. rewrite ?app_nil_r, <- ?app_assoc.
      rewrite fmap_app, fmap_cons, StronglySorted_app in Hs. cbn [g_val] in Hs. destruct Hs as (H1 & _ & [_ H2]%StronglySorted_inv). rewrite Forall_fmap in H2.
      split_and!; try done; [|by apply Forall_fmap, Forall_true]. apply Forall_forall. intros gr Hg. apply H1; [by apply list_elem_of_fmap_2|by left]. }
  destruct Hs' as (g1 & gm & g2 & _ & H1 & H2 & -> & -> & -> & -> & Hm). pose proof (vals_forall (fun z => z < v) _ H1) as L1.
  pose proof (vals_forall (fun z => v < z) _ H2) as L2. rewrite <- Forall_reverse in H1, H2. pose proof (vals_forall (fun z => z < v) _ H1) as L3.
  pose proof (vals_forall (fun z => v < z) _ H2) as L4. split; [exists (vals g1 ++ vals gm), (vals g2)|exists (vals (reverse g2) ++ vals gm), (vals (reverse g1))];
    rewrite <- !app_assoc; (split; [done|]; split; [done|]; split; [|done]); apply Forall_app; (split; eapply Forall_impl; [eassumption| |exact Hm|]); cbn; lia.
Qed.

Lemma dropped_vals n gs gs' : dropped n gs gs' -> exists v, removed (n, v) (vals gs) (vals gs') /\ removed (n, v) (vals (reverse gs)) (vals (reverse gs')).
Proof.
  intros [g1 g2 v|g1 g2 v x rs|g1 g2 v h a b]; exists v; rewrite !reverse_app, ?reverse_cons, <- ?app_assoc, !vals_app, ?vals_cons; cbn [vals mbind list_bind app];
    unfold members; cbn [g_head g_rest g_val]; rewrite ?app_comm_cons, ?fmap_app, ?app_nil_r; cbn [fmap list_fmap app].
  - split; [by exists (vals g1), (vals g2)|by exists (vals (reverse g2)), (vals (reverse g1))].
  - split; [by eexists (vals g1), _|by eexists (vals (reverse g2)), _].
  - set (f := fun y => (y, v)). split; [exists (vals g1 ++ f h :: (f <$> a)), ((f <$> b) ++ vals g2)|exists (vals (reverse g2) ++ f h :: (f <$> a)), ((f <$> b) ++ vals (reverse g1))];
      rewrite <- ?app_assoc; cbn [app]; by rewrite <- ?app_assoc.
Qed.

(** ** Three trees in one memory *)

Record forest (q : Rb) (W : tree_id -> list group) : Prop := {
  fo_tree : forall k, tree_rep k q (W k);
  fo_apart : forall i j n, i <> j -> n ∈ ids (W i) -> n ∉ ids (W j)
}.

Definition set_w (W : tree_id -> list group) (k : tree_id) (gs : list group) (j : tree_id) : list group :=
  if decide (j = k) then gs else W j.

Lemma set_w_eq W k gs : set_w W k gs k = gs.
Proof. unfold set_w. by rewrite decide_True. Qed.

Lemma set_w_ne W k gs j : j <> k -> set_w W k gs j = W j.
Proof. intros H. unfold set_w. by rewrite decide_False. Qed.

Lemma rep_keeps j k l q q' gs : tree_rep j q gs -> keeps k l q q' -> root j q' = root j q -> (forall n, n ∈ ids gs -> n ∉ l) -> tree_rep j q' gs.
Proof.
  intros Hq Hk Hr Hd. split; [| | |apply Hq|apply Hq].
  - destruct (tr_tree _ _ _ Hq) as (t & H1 & H2 & H3 & H4). exists t. rewrite Hr. split_and!; try done. apply Forall_forall. intros [n nd] Hn.
    unfold sat in H4. rewrite Forall_forall in H4. apply (kp_nodes _ _ _ _ Hk); [|by apply (H4 (n, nd))]. apply Hd, heads_ids. rewrite <- H2, <- (enc_keys t None (RootOf j)).
    by apply (list_elem_of_fmap_2 fst) in Hn.
  - intros gr n Hg Hn. apply (kp_nodes _ _ _ _ Hk); [|by eapply tr_rest]. apply Hd, elem_of_ids. exists gr. split; [done|by right].
  - intros gr Hg. eapply ring_away; [by eapply tr_ring|apply Hk|]. intros n Hn. apply Hd, elem_of_ids. by exists gr.
Qed.

(** One tree changed, the others apart from it. *)
Lemma forest_step q q' W k gs' l : forest q W -> tree_rep k q' gs' -> keeps k l q q' ->
  (forall n, n ∈ l -> forall j, j <> k -> n ∉ ids (W j)) -> (forall n, n ∈ ids gs' -> n ∈ l) -> forest q' (set_w W k gs').
Proof.
  intros [H1 H2] Hq Hk Hl Hin. split.
  - intros j. destruct (decide (j = k)) as [->|Hne]; [by rewrite set_w_eq|]. rewrite set_w_ne by done.
    eapply rep_keeps; [apply H1|exact Hk|by apply Hk|]. intros n Hn Hx. by apply (Hl n Hx j Hne).
  - intros i j n Hij. unfold set_w. destruct (decide (i = k)) as [->|Hi], (decide (j = k)) as [->|Hj]; [done|..].
    + intros Hn. by apply Hl; [apply Hin|].
    + intros Hn Hx. by apply (Hl n (Hin n Hx) i Hi).
    + by apply H2.
Qed.

Lemma pop_forest q W k n fuel : forest q W -> n ∈ ids (W k) -> (length (ids (W k)) <= fuel)%nat ->
  exists q' gs', pop fuel n q = Ret q' /\ forest q' (set_w W k gs') /\ dropped n (W k) gs'.
Proof.
  intros Hq Hn Hf. destruct (tree_pop_spec k q (W k) n fuel (fo_tree _ _ Hq k) Hn Hf) as (q' & gs' & E1 & Hq' & Hd & Hk).
  exists q', gs'. split; [done|]. split; [|done]. eapply forest_step; [exact Hq|exact Hq'|exact Hk|..].
  - intros m Hm j Hj. by apply (fo_apart _ _ Hq k j).
  - intros m Hm. rewrite (dropped_ids _ _ _ Hd). by right.
Qed.

(** Both nodes of an order. *)
Lemma pop_both_forest q W i j n fuel : forest q W -> i <> j -> n ∈ ids (W i) -> other n ∈ ids (W j) ->
  (forall k, length (ids (W k)) <= fuel)%nat ->
  exists q' W', pop_both fuel n q = Ret q' /\ forest q' W' /\ dropped n (W i) (W' i) /\ dropped (other n) (W j) (W' j) /\
    forall k, k <> i -> k <> j -> W' k = W k.
Proof.
  intros Hq Hij Hn Hm Hf. destruct (pop_forest q W i n fuel Hq Hn (Hf i)) as (q1 & g1 & E1 & Hq1 & Hd1).
  destruct (pop_forest q1 _ j (other n) fuel Hq1) as (q2 & g2 & E2 & Hq2 & Hd2); [by rewrite set_w_ne|rewrite set_w_ne by done; apply Hf|].
  rewrite set_w_ne in Hd2 by done. exists q2, (set_w (set_w W i g1) j g2). unfold pop_both. bind E1. split_and!; [done|done| | |].
  - by rewrite set_w_ne, set_w_eq by done.
  - by rewrite set_w_eq.
  - intros k Hki Hkj. by rewrite !set_w_ne.
Qed.

Lemma push_forest q W k m v fuel : forest q W -> (forall j, m ∉ ids (W j)) -> nodes q !! m = Some (idle v) -> ring q m [] ->
  (length (ids (W k)) <= fuel)%nat ->
  exists q' gs', push fuel k m q = Ret q' /\ forest q' (set_w W k gs') /\ placed m v (W k) gs' /\ keeps k (m :: ids (W k)) q q'.
Proof.
  intros Hq Hm Hn Hr Hf. destruct (tree_push_spec k q (W k) m v fuel (fo_tree _ _ Hq k) (Hm k) Hn Hr Hf) as (q' & gs' & E1 & Hq' & Hp & Hk).
  exists q', gs'. split; [done|]. split; [|done]. eapply forest_step; [exact Hq|exact Hq'|exact Hk|..].
  - intros x [->|Hx]%elem_of_cons j Hj; [apply Hm|]. by apply (fo_apart _ _ Hq k j).
  - intros x Hx. by rewrite (placed_ids _ _ _ _ Hp) in Hx.
Qed.

Lemma forest_size q W z : forest q W -> forest (set_size z q) W.
Proof.
  intros [H1 H2]. split; [|done]. intros k. destruct (H1 k) as [T1 T2 T3 T4 T5]. split; try done.
Qed.

(** Setting up a node that is in no tree. *)
Lemma initNode_forest q W n v : forest q W -> (forall j, n ∉ ids (W j)) -> forest (initNode n v q) W.
Proof.
  intros [H1 H2] Hn. split; [|done]. intros k. eapply (rep_keeps k k [n]); [apply H1| |by destruct k|].
  - split; [| |intros j _; by destruct j|done].
    + intros m nd Hm Hl. cbn. rewrite lookup_insert_ne; [done|]. set_solver.
    + intros m Hm. cbn. assert (n <> m) by set_solver. by rewrite !lookup_insert_ne.
  - intros m Hm ->%list_elem_of_singleton. by apply (Hn k).
Qed.

Lemma initNode_idle q n v : nodes (initNode n v q) !! n = Some (idle v) /\ ring (initNode n v q) n [].
Proof. split; [|apply ring_alone]; cbn; by rewrite !lookup_insert_eq. Qed.

(** ** The queues and the lists they stand for *)

Definition is_price (k : tree_id) : bool := match k with Orders => false | _ => true end.

Record queues_rep (q : Rb) (W : tree_id -> list group) : Prop := {
  qr_forest : forest q W;
  qr_side : forall k n, n ∈ ids (W k) -> n.2 = is_price k;
  qr_ptrs : (ids (W Orders)).*1 ≡ₚ (ids (W BuyTree) ++ ids (W SellTree)).*1
}.

Definition ents (q : Rb) (l : list (nid * Z)) : list entry := (fun p : nid * Z => mkEntry p.1.1 p.2 (val_of (p.1.1, false) q)) <$> l.

(** The buys by falling and the sells by rising price, those of one price in order of arrival. *)
Definition side (q : Rb) (W : tree_id -> list group) (k : tree_id) : list entry :=
  ents q (match k with BuyTree => vals (reverse (W k)) | _ => vals (W k) end).

Definition queued (q : Rb) (W : tree_id -> list group) : list entry := side q W BuyTree ++ side q W SellTree.

Lemma ents_ptrs q l : e_ptr <$> ents q l = l.*1.*1.
Proof. unfold ents. rewrite <- !list_fmap_compose. done. Qed.

Lemma reverse_ids gs : ids (reverse gs) ≡ₚ ids gs.
Proof. unfold ids. by rewrite reverse_Permutation. Qed.

Lemma side_ptrs q W k : e_ptr <$> side q W k ≡ₚ (ids (W k)).*1.
Proof. unfold side. rewrite ents_ptrs. destruct k; rewrite vals_ids; [by rewrite reverse_ids|done|done]. Qed.

Lemma queued_ptrs q W : queues_rep q W -> e_ptr <$> queued q W ≡ₚ (ids (W Orders)).*1.
Proof. intros Hq. unfold queued. by rewrite fmap_app, !side_ptrs, (qr_ptrs _ _ Hq), fmap_app. Qed.

Lemma ptrs_nodup q W : queues_rep q W -> NoDup (ids (W Orders)).*1.
Proof.
  intros Hq. apply NoDup_fmap_2_strong; [|apply (fo_tree _ _ (qr_forest _ _ Hq))]. intros [p b] [p' b'] Hx Hy. cbn. intros ->.
  apply (qr_side _ _ Hq) in Hx, Hy. cbn in *. congruence.
Qed.

(** The node of a pointer in a tree. *)
Lemma in_orders q W p : queues_rep q W -> p ∈ (ids (W Orders)).*1 <-> (p, false) ∈ ids (W Orders).
Proof.
  intros Hq. split; [|by apply (list_elem_of_fmap_2 fst)]. intros ([x b] & -> & Hx)%list_elem_of_fmap. pose proof (qr_side _ _ Hq _ _ Hx) as Hb. cbn in Hb. by subst b.
Qed.

Lemma in_price q W p : queues_rep q W -> (p, false) ∈ ids (W Orders) -> exists k, (k = BuyTree \/ k = SellTree) /\ (p, true) ∈ ids (W k).
Proof.
  intros Hq Hp. apply (list_elem_of_fmap_2 fst) in Hp. rewrite (qr_ptrs _ _ Hq) in Hp. apply list_elem_of_fmap in Hp as ([x b] & Hx & Hp). cbn in Hx. subst x.
  apply elem_of_app in Hp as [Hp|Hp]; pose proof (qr_side _ _ Hq _ _ Hp) as Hb; cbn in Hb; subst b; eauto.
Qed.

Lemma in_side q W k p : queues_rep q W -> k = BuyTree \/ k = SellTree -> (p, true) ∈ ids (W k) -> (p, false) ∈ ids (W Orders).
Proof.
  intros Hq Hk Hp. apply (in_orders _ _ _ Hq). rewrite (qr_ptrs _ _ Hq), fmap_app, elem_of_app. apply (list_elem_of_fmap_2 fst) in Hp. destruct Hk as [-> | ->]; auto.
Qed.

(** An order of a side, from its node. *)
Lemma vals_in n gs : n ∈ ids gs -> exists v, (n, v) ∈ vals gs.
Proof. rewrite <- vals_ids. intros ([m v] & -> & Hx)%list_elem_of_fmap. by exists v. Qed.

Lemma ents_ext q q' l : (forall p, p ∈ l -> val_of (p.1.1, false) q' = val_of (p.1.1, false) q) -> ents q' l = ents q l.
Proof. intros H. unfold ents. apply list_fmap_ext. intros i p Hp%list_elem_of_lookup_2. f_equal. exact (H p Hp). Qed.

Lemma side_nodes (W : tree_id -> list group) k p : p ∈ match k with BuyTree => vals (reverse (W k)) | _ => vals (W k) end <-> p ∈ vals (W k).
Proof. destruct k; [apply elem_of_vals_reverse|done|done]. Qed.

(** The guids of orders that stay queued do not change. *)
Lemma guid_same q q' W W' p g : queues_rep q W -> queues_rep q' W' -> ((p, false), g) ∈ vals (W Orders) -> ((p, false), g) ∈ vals (W' Orders) ->
  val_of (p, false) q' = val_of (p, false) q.
Proof.
  intros Hq Hq' H1 H2. rewrite (tree_val Orders q' (W' Orders) _ g (fo_tree _ _ (qr_forest _ _ Hq') Orders) H2).
  symmetry. by apply (tree_val Orders q (W Orders)); [apply Hq|].
Qed.

Lemma ents_same q q' W W' k l : queues_rep q W -> queues_rep q' W' -> k = BuyTree \/ k = SellTree ->
  (forall p, p ∈ l -> p.1.2 = true /\ p.1 ∈ ids (W k)) ->
  (forall p g, p ∈ l -> ((p.1.1, false), g) ∈ vals (W Orders) -> ((p.1.1, false), g) ∈ vals (W' Orders)) -> ents q' l = ents q l.
Proof.
  intros Hq Hq' Hk Hl Hg. apply ents_ext. intros [[p b] v] Hp. cbn. destruct (Hl _ Hp) as [Hb Hin]. cbn in Hb, Hin. subst b.
  destruct (vals_in _ _ (in_side _ _ _ _ Hq Hk Hin)) as (g & Hv). eapply guid_same; [exact Hq|exact Hq'|exact Hv|]. by apply (Hg _ _ Hp).
Qed.

(** *** Pushing *)

Definition insert_side (k : tree_id) : entry -> list entry -> list entry :=
  match k with BuyTree => insert_buy | _ => insert_sell end.

Lemma placed_vals_perm m v gs gs' : placed m v gs gs' -> StronglySorted Z.lt (g_val <$> gs) -> vals gs' ≡ₚ (m, v) :: vals gs.
Proof. intros Hp Hs. destruct (placed_vals _ _ _ _ Hp Hs) as [(a & b & -> & -> & _) _]. by rewrite Permutation_middle. Qed.

Lemma orders_sorted q W k : queues_rep q W -> StronglySorted Z.lt (g_val <$> W k).
Proof. intros Hq. apply (fo_tree _ _ (qr_forest _ _ Hq)). Qed.

(** The trees after a push. *)
Lemma push_trees q W k p price guid fuel : queues_rep q W -> k = BuyTree \/ k = SellTree -> p ∉ (ids (W Orders)).*1 ->
  (forall k, length (ids (W k)) <= fuel)%nat ->
  exists q' W', rb_Push fuel k p (setup p price guid q) = Ret q' /\ queues_rep q' W' /\
    placed (p, true) price (W k) (W' k) /\ placed (p, false) guid (W Orders) (W' Orders) /\
    forall j, j <> k -> j <> Orders -> W' j = W j.
Proof.
  intros Hq Hk Hp Hf. assert (Hpf : forall b j, (p, b) ∉ ids (W j)).
  { intros b j Hx. pose proof (qr_side _ _ Hq _ _ Hx) as Hb. cbn in Hb. subst b. apply Hp, (in_orders _ _ _ Hq).
    destruct j; cbn in Hx; [exact (in_side _ _ _ _ Hq (or_introl eq_refl) Hx)|exact (in_side _ _ _ _ Hq (or_intror eq_refl) Hx)|done]. }
  assert (Hko : k <> Orders) by (by destruct Hk as [-> | ->]).
  set (q0 := set_size (i64 (RbTree.size (setup p price guid q) + 1)) (setup p price guid q)).
  assert (H0 : forest q0 W) by (unfold q0, setup; apply forest_size, initNode_forest; [apply initNode_forest; [apply Hq|apply Hpf]|apply Hpf]).
  assert (Ht : nodes q0 !! (p, true) = Some (idle price) /\ ring q0 (p, true) []).
  { unfold q0, setup. split; [|apply ring_alone]; cbn; rewrite ?(lookup_insert_ne _ (p, false)), ?lookup_insert_eq by done; done. }
  destruct Ht as [Ht1 Ht2]. destruct (initNode_idle (initNode (p, true) price q) (p, false) guid) as [Hg1 Hg2].
  destruct (push_forest q0 W k (p, true) price fuel H0 (Hpf true) Ht1 Ht2 (Hf k)) as (q1 & g1 & E1 & H1 & P1 & K1).
  assert (Hn : (p, false) ∉ (p, true) :: ids (W k)) by (intros [Hx|Hx]%elem_of_cons; [done|by eapply Hpf]).
  assert (Hsub : forall j, (p, false) ∉ ids (set_w W k g1 j)).
  { intros j Hx. destruct (decide (j = k)) as [->|Hne]; [|rewrite set_w_ne in Hx by done; by eapply Hpf].
    rewrite set_w_eq, (placed_ids _ _ _ _ P1) in Hx. by apply Hn. }
  destruct (push_forest q1 _ Orders (p, false) guid fuel H1 Hsub) as (q2 & g2 & E2 & H2 & P2 & _).
  - apply (kp_nodes _ _ _ _ K1); [done|exact Hg1].
  - apply ring_alone. destruct (kp_links _ _ _ _ K1 _ Hn) as [-> ->]. by apply ring_alone.
  - rewrite set_w_ne by done. apply Hf.
  - rewrite set_w_ne in P2 by done. exists q2, (set_w (set_w W k g1) Orders g2). unfold rb_Push. fold q0. bind E1.
    assert (Ek : set_w (set_w W k g1) Orders g2 k = g1) by (by rewrite set_w_ne, set_w_eq by done). pose proof (placed_ids _ _ _ _ P1) as I1. pose proof (placed_ids _ _ _ _ P2) as I2.
    split_and!; [done| |by rewrite Ek|by rewrite set_w_eq|intros j Hj1 Hj2; by rewrite !set_w_ne by done].
    split; [done| |].
    + intros j n. destruct (decide (j = Orders)) as [->|Hj]; [rewrite set_w_eq, I2|destruct (decide (j = k)) as [->|Hjk]; [rewrite Ek, I1|rewrite !set_w_ne by done; apply Hq]].
      * intros [->|Hx]%elem_of_cons; [done|]. by apply (qr_side _ _ Hq).
      * intros [->|Hx]%elem_of_cons; [by destruct Hk as [-> | ->]|]. by apply (qr_side _ _ Hq).
    + rewrite set_w_eq, I2. cbn [fmap list_fmap]. rewrite (qr_ptrs _ _ Hq). destruct Hk as [-> | ->]; rewrite Ek, !set_w_ne, !fmap_app, I1 by done; [done|].
      cbn. by rewrite Permutation_middle.
Qed.

Lemma rb_Push_spec q W k p price guid fuel : queues_rep q W -> k = BuyTree \/ k = SellTree -> p ∉ (ids (W Orders)).*1 ->
  (forall k, length (ids (W k)) <= fuel)%nat ->
  exists q' W', rb_Push fuel k p (setup p price guid q) = Ret q' /\ queues_rep q' W' /\
    side q' W' k = insert_side k (mkEntry p price guid) (side q W k) /\
    (forall j, j = BuyTree \/ j = SellTree -> j <> k -> side q' W' j = side q W j).
Proof.
  intros Hq Hk Hp Hf. destruct (push_trees q W k p price guid fuel Hq Hk Hp Hf) as (q' & W' & E1 & Hq' & P1 & P2 & Hj).
  exists q', W'. split; [done|]. split; [done|]. pose proof (placed_vals_perm _ _ _ _ P2 (orders_sorted _ _ Orders Hq)) as V2.
  assert (Hguid : val_of (p, false) q' = guid).
  { eapply (tree_val Orders); [apply Hq'|]. rewrite V2. by left. }
  assert (Hsame : forall j l, j = BuyTree \/ j = SellTree -> (forall x, x ∈ l -> x ∈ vals (W j)) -> ents q' l = ents q l).
  { intros j l Hjs Hl. eapply (ents_same q q' W W' j); try done; [|intros x g Hx Hg; rewrite V2; by right]. intros [n v] Hx%Hl.
    assert (Hn : n ∈ ids (W j)) by (rewrite <- vals_ids; by apply (list_elem_of_fmap_2 fst) in Hx). split; [|done]. cbn. rewrite (qr_side _ _ Hq _ _ Hn). by destruct Hjs as [-> | ->]. }
  assert (Hins : forall a b, (forall x, x ∈ a ++ b -> x ∈ vals (W k)) -> ents q' (a ++ (p, true, price) :: b) = ents q a ++ mkEntry p price guid :: ents q b).
  { intros a b Hab. unfold ents at 1. rewrite fmap_app, fmap_cons. cbn [fst snd]. rewrite Hguid. fold (ents q' a) (ents q' b).
    rewrite !(Hsame k); [done|done| |done|]; intros x Hx; apply Hab, elem_of_app; auto. }
  destruct (placed_vals _ _ _ _ P1 (orders_sorted _ _ k Hq)) as [(a & b & Ha & Hb & F1 & F2) (a' & b' & Ha' & Hb' & F1' & F2')]. split.
  - unfold side, insert_side. destruct Hk as [-> | ->]; [rewrite Ha', Hb', Hins by (intros x Hx; by rewrite <- elem_of_vals_reverse, Ha')|rewrite Ha, Hb, Hins by (intros x Hx; by rewrite Ha)];
      unfold ents at 3; rewrite fmap_app; [rewrite insert_buy_app|rewrite insert_sell_app]; try done; by apply Forall_fmap.
  - intros j Hjs Hne. unfold side. rewrite Hj by (by destruct Hjs as [-> | ->]). apply (Hsame j); [done|]. intros x. apply side_nodes.
Qed.

(** *** Popping *)

Lemma drop_rep q q' W W' k p : queues_rep q W -> forest q' W' -> k = BuyTree \/ k = SellTree ->
  dropped (p, true) (W k) (W' k) -> dropped (p, false) (W Orders) (W' Orders) -> (forall j, j <> k -> j <> Orders -> W' j = W j) ->
  queues_rep q' W'.
Proof.
  intros Hq Hf Hk D1 D2 Hj. pose proof (dropped_ids _ _ _ D1) as I1. pose proof (dropped_ids _ _ _ D2) as I2. split; [done| |].
  - intros j n Hn. apply (qr_side _ _ Hq). destruct (decide (j = Orders)) as [->|Ho]; [rewrite I2; by right|].
    destruct (decide (j = k)) as [->|Hne]; [rewrite I1; by right|by rewrite <- Hj].
  - pose proof (qr_ptrs _ _ Hq) as Hp. rewrite I2 in Hp. cbn in Hp. destruct Hk as [-> | ->].
    + rewrite I1 in Hp. cbn in Hp. apply Permutation_cons_inv in Hp. by rewrite (Hj SellTree).
    + rewrite I1 in Hp. rewrite fmap_app in Hp. cbn in Hp. rewrite <- Permutation_middle in Hp. apply Permutation_cons_inv in Hp. by rewrite (Hj BuyTree), fmap_app.
Qed.

Lemma drop_sides q q' W W' k p : queues_rep q W -> queues_rep q' W' -> k = BuyTree \/ k = SellTree ->
  dropped (p, true) (W k) (W' k) -> dropped (p, false) (W Orders) (W' Orders) -> (forall j, j <> k -> j <> Orders -> W' j = W j) ->
  (exists e, e_ptr e = p /\ e_guid e = val_of (p, false) q /\ removed e (side q W k) (side q' W' k)) /\
  forall j, j = BuyTree \/ j = SellTree -> j <> k -> side q' W' j = side q W j.
Proof.
  intros Hq Hq' Hk D1 D2 Hj. pose proof (dropped_ids _ _ _ D1) as I1. destruct (dropped_vals _ _ _ D2) as (g0 & R2 & _). apply removed_perm in R2.
  assert (Hsame : forall j l, j = BuyTree \/ j = SellTree -> (forall x, x ∈ l -> x ∈ vals (W j) /\ x.1 <> (p, true)) -> ents q' l = ents q l).
  { intros j l Hjs Hl. assert (Hside : forall x, x ∈ l -> x.1.2 = true /\ x.1 ∈ ids (W j)).
    { intros [n v] [Hx _]%Hl. assert (Hn : n ∈ ids (W j)) by (rewrite <- vals_ids; by apply (list_elem_of_fmap_2 fst) in Hx). split; [|done].
      cbn. rewrite (qr_side _ _ Hq _ _ Hn). by destruct Hjs as [-> | ->]. }
    eapply (ents_same q q' W W' j); try done. intros [[x b] v] g Hx Hg. cbn in *. rewrite R2 in Hg. apply elem_of_cons in Hg as [[= -> _]|Hg]; [|done].
    destruct (Hl _ Hx) as [_ Hne]. destruct (Hside _ Hx) as [Hb _]. cbn in *. by subst b. }
  assert (Hnd : NoDup (ids (W k))) by apply (fo_tree _ _ (qr_forest _ _ Hq)).
  assert (Hrem : forall v L L', removed (p, true, v) L L' -> L.*1 ≡ₚ ids (W k) -> (forall x, x ∈ L -> x ∈ vals (W k)) ->
    exists e, e_ptr e = p /\ e_guid e = val_of (p, false) q /\ removed e (ents q L) (ents q' L')).
  { intros v L L' (l1 & l2 & -> & ->) Hids Hin. exists (mkEntry p v (val_of (p, false) q)). split_and!; [done..|]. exists (ents q l1), (ents q l2). split.
    - unfold ents. by rewrite fmap_app.
    - rewrite (Hsame k); [unfold ents; by rewrite fmap_app|done|]. intros x Hx. split; [apply Hin; set_solver|]. intros Hxp.
      rewrite <- Hids, fmap_app, fmap_cons, <- Permutation_middle, <- fmap_app in Hnd. apply NoDup_cons in Hnd as [Hnd _]. apply Hnd. cbn [fst]. rewrite <- Hxp. by apply list_elem_of_fmap_2. }
  split.
  - destruct (dropped_vals _ _ _ D1) as (v & R1 & R1'). unfold side. destruct Hk as [-> | ->].
    + apply (Hrem v _ _ R1'); [by rewrite vals_ids, reverse_ids|]. intros x. by rewrite elem_of_vals_reverse.
    + apply (Hrem v _ _ R1); [by rewrite vals_ids|done].
  - intros j Hjs Hne. unfold side. assert (Ho : j <> Orders) by (by destruct Hjs as [-> | ->]). rewrite (Hj j Hne Ho). apply (Hsame j); [done|].
    intros [n v] Hx. assert (Hx' : (n, v) ∈ vals (W j)) by (by apply side_nodes). split; [done|]. cbn. intros ->.
    apply (fo_apart _ _ (qr_forest _ _ Hq) j k (p, true) Hne); [rewrite <- vals_ids; by apply (list_elem_of_fmap_2 fst) in Hx'|rewrite I1; by left].
Qed.

(** Both nodes of a queued order popped, in either order. *)
Lemma pop_order q W p b fuel : queues_rep q W -> (p, false) ∈ ids (W Orders) -> (forall k, length (ids (W k)) <= fuel)%nat ->
  exists q' W' k e, pop_both fuel (p, b) q = Ret q' /\ queues_rep q' W' /\ (k = BuyTree \/ k = SellTree) /\
    e_ptr e = p /\ e_guid e = val_of (p, false) q /\ removed e (side q W k) (side q' W' k) /\
    (forall j, j = BuyTree \/ j = SellTree -> j <> k -> side q' W' j = side q W j) /\ (forall k, length (ids (W' k)) <= length (ids (W k)))%nat.
Proof.
  intros Hq Hp Hf. destruct (in_price _ _ _ Hq Hp) as (k & Hk & Hpk). assert (Hne : k <> Orders) by (by destruct Hk as [-> | ->]).
  assert (Hpop : exists q' W', pop_both fuel (p, b) q = Ret q' /\ forest q' W' /\ dropped (p, true) (W k) (W' k) /\
    dropped (p, false) (W Orders) (W' Orders) /\ forall j, j <> k -> j <> Orders -> W' j = W j).
  { destruct b.
    - by apply (pop_both_forest q W k Orders (p, true)); [apply Hq|..].
    - destruct (pop_both_forest q W Orders k (p, false) fuel (qr_forest _ _ Hq) ltac:(done) Hp Hpk Hf) as (q' & W' & E1 & H1 & D2 & D1 & Hj).
      exists q', W'. split_and!; try done. auto. }
  destruct Hpop as (q' & W' & E1 & H1 & D1 & D2 & Hj). pose proof (drop_rep _ _ _ _ _ _ Hq H1 Hk D1 D2 Hj) as Hq'.
  destruct (drop_sides _ _ _ _ _ _ Hq Hq' Hk D1 D2 Hj) as [(e & He1 & He2 & Hr) Hs]. exists q', W', k, e. split_and!; try done.
  intros j. destruct (decide (j = Orders)) as [->|Ho]; [rewrite (dropped_ids _ _ _ D2); cbn; lia|].
  destruct (decide (j = k)) as [->|Hjk]; [rewrite (dropped_ids _ _ _ D1); cbn; lia|by rewrite Hj].
Qed.

(** ** The methods *)

Lemma queued_nodup q W : queues_rep q W -> NoDup (e_ptr <$> queued q W).
Proof. intros Hq. rewrite (queued_ptrs _ _ Hq). by eapply ptrs_nodup. Qed.

Lemma side_queued q W k e : k = BuyTree \/ k = SellTree -> e ∈ side q W k -> e ∈ queued q W.
Proof. unfold queued. rewrite elem_of_app. intros [-> | ->]; auto. Qed.

Lemma queued_entry q W e : queues_rep q W -> e ∈ queued q W -> (e_ptr e, false) ∈ ids (W Orders) /\ e_guid e = val_of (e_ptr e, false) q.
Proof.
  intros Hq He. split.
  - apply (in_orders _ _ _ Hq). rewrite <- (queued_ptrs _ _ Hq). by apply list_elem_of_fmap_2.
  - unfold queued, side, ents in He. apply elem_of_app in He as [He|He]; by apply list_elem_of_fmap in He as (x & -> & _).
Qed.

Lemma removed_head (e e0 : entry) l l' : NoDup (e_ptr <$> e0 :: l) -> removed e (e0 :: l) l' -> e_ptr e = e_ptr e0 -> e = e0 /\ l' = l.
Proof.
  intros Hn ([|x l1] & l2 & [= <- ->] & ->) Hp; [done|]. cbn in Hn. apply NoDup_cons in Hn as [Hn _]. exfalso. apply Hn.
  rewrite fmap_app. cbn. rewrite <- Hp. apply elem_of_app. right. by left.
Qed.

(** The first order of a side popped. *)
Lemma pop_first q W k e l b fuel : queues_rep q W -> k = BuyTree \/ k = SellTree -> side q W k = e :: l -> (forall k, length (ids (W k)) <= fuel)%nat ->
  exists q' W', pop_both fuel (e_ptr e : Z, b) q = Ret q' /\ queues_rep q' W' /\ side q' W' k = l /\
    (forall j, j = BuyTree \/ j = SellTree -> j <> k -> side q' W' j = side q W j) /\ (forall k, length (ids (W' k)) <= length (ids (W k)))%nat.
Proof.
  intros Hq Hk Hs Hf. assert (He : e ∈ side q W k) by (rewrite Hs; by left). destruct (queued_entry q W e Hq (side_queued _ _ _ _ Hk He)) as [Ho Hg].
  destruct (pop_order q W (e_ptr e) b fuel Hq Ho Hf) as (q' & W' & k' & e' & E1 & Hq' & Hk' & Hp' & _ & Hr & Hj & Hlen).
  exists q', W'. split; [done|]. split; [done|]. pose proof (queued_nodup _ _ Hq) as Hn. assert (k' = k) as ->.
  { assert (He' : e' ∈ side q W k') by (apply removed_perm in Hr; rewrite Hr; by left). unfold queued in Hn. rewrite fmap_app in Hn. apply NoDup_app in Hn as (_ & Hn & _).
    apply (list_elem_of_fmap_2 e_ptr) in He, He'. rewrite Hp' in He'. destruct Hk as [-> | ->], Hk' as [-> | ->]; [done|exfalso; by eapply Hn..|done]. }
  assert (Hn' : NoDup (e_ptr <$> e :: l)).
  { rewrite <- Hs. unfold queued in Hn. rewrite fmap_app in Hn. apply NoDup_app in Hn as (N1 & _ & N2). by destruct Hk as [-> | ->]. }
  rewrite Hs in Hr. destruct (removed_head e' e l _ Hn' Hr Hp') as [-> Hl]. by split_and!.
Qed.

Lemma head_buys q W : e_ptr <$> head (side q W BuyTree) = order_of (g_head <$> last (W BuyTree)).
Proof.
  unfold side. destruct (W BuyTree) as [|gr gs _] using rev_ind; [done|]. rewrite reverse_snoc, last_snoc, vals_cons. done.
Qed.

Lemma head_sells q W : e_ptr <$> head (side q W SellTree) = order_of (g_head <$> head (W SellTree)).
Proof. unfold side. by destruct (W SellTree) as [|gr gs]. Qed.

Lemma rb_PeekBuy_spec q W fuel : queues_rep q W -> (forall k, length (ids (W k)) <= fuel)%nat ->
  rb_PeekBuy fuel q = Ret (e_ptr <$> head (side q W BuyTree)).
Proof.
  intros Hq Hf. unfold rb_PeekBuy. rewrite (tree_peekMax_spec _ _ _ _ (fo_tree _ _ (qr_forest _ _ Hq) BuyTree) (Hf _)), head_buys. done.
Qed.

Lemma rb_PeekSell_spec q W fuel : queues_rep q W -> (forall k, length (ids (W k)) <= fuel)%nat ->
  rb_PeekSell fuel q = Ret (e_ptr <$> head (side q W SellTree)).
Proof.
  intros Hq Hf. unfold rb_PeekSell. rewrite (tree_peekMin_spec _ _ _ _ (fo_tree _ _ (qr_forest _ _ Hq) SellTree) (Hf _)), head_sells. done.
Qed.

Lemma rep_size q W z : queues_rep q W -> queues_rep (set_size z q) W.
Proof. intros [H1 H2 H3]. split; [by apply forest_size|done|done]. Qed.

Lemma head_node q W k gr : queues_rep q W -> k = BuyTree \/ k = SellTree -> gr ∈ W k -> exists p, g_head gr = (p, true).
Proof.
  intros Hq Hk Hg. destruct gr as [v [p b] rs]. assert (Hin : (p, b) ∈ ids (W k)) by (apply elem_of_ids; eexists; split; [exact Hg|by left]).
  pose proof (qr_side _ _ Hq _ _ Hin) as Hb. cbn in Hb. subst b. exists p. by destruct Hk as [-> | ->].
Qed.

(** What a pop returns and leaves. *)
Definition popped (k : tree_id) (q : Rb) (W : tree_id -> list group) (res : outcome unit (option Z * Rb)) : Prop :=
  exists q' W', res = Ret (e_ptr <$> head (side q W k), q') /\ queues_rep q' W' /\ side q' W' k = tail (side q W k) /\
    (forall j, j = BuyTree \/ j = SellTree -> j <> k -> side q' W' j = side q W j) /\ (forall k, length (ids (W' k)) <= length (ids (W k)))%nat.

(** The head of the group at the end of a tree, popped with its other node. *)
Lemma pop_end q W k (o : option group) fuel : queues_rep q W -> k = BuyTree \/ k = SellTree -> (forall k, length (ids (W k)) <= fuel)%nat ->
  e_ptr <$> head (side q W k) = order_of (g_head <$> o) -> (forall gr, o = Some gr -> gr ∈ W k) ->
  popped k q W ('(n, q) ← match g_head <$> o with None => Ret (None, q) | Some n => q ← pop_both fuel n q; Ret (Some n, q) end; Ret (order_of n, q)).
Proof.
  intros Hq Hk Hf Hh Ho. unfold popped. rewrite Hh. destruct o as [gr|]; cbn [fmap option_fmap option_map] in *.
  - destruct (side q W k) as [|e l] eqn:Es; [done|]. destruct (head_node q W k gr Hq Hk (Ho _ eq_refl)) as [p Ep]. rewrite Ep in Hh |- *. injection Hh as <-.
    destruct (pop_first q W k e l true fuel Hq Hk Es Hf) as (q' & W' & E1 & Hq' & Hl & Hj & Hlen). bind E1. by exists q', W'.
  - exists q, W. destruct (side q W k) as [|e l] eqn:Es; [|done]. by split_and!.
Qed.

Lemma rb_PopBuy_spec q W fuel : queues_rep q W -> (forall k, length (ids (W k)) <= fuel)%nat -> popped BuyTree q W (rb_PopBuy fuel q).
Proof.
  intros Hq Hf. unfold rb_PopBuy, popMax. set (q1 := set_size _ q). pose proof (rep_size q W (i64 (RbTree.size q - 1)) Hq) as Hq1. fold q1 in Hq1.
  rewrite (tree_peekMax_spec _ _ _ _ (fo_tree _ _ (qr_forest _ _ Hq1) BuyTree) (Hf _)). apply (pop_end q1 W BuyTree (last (W BuyTree)) fuel Hq1 (or_introl eq_refl) Hf (head_buys q1 W)).
  intros gr Hg. by apply last_Some_elem_of.
Qed.

Lemma rb_PopSell_spec q W fuel : queues_rep q W -> (forall k, length (ids (W k)) <= fuel)%nat -> popped SellTree q W (rb_PopSell fuel q).
Proof.
  intros Hq Hf. unfold rb_PopSell, popMin. set (q1 := set_size _ q). pose proof (rep_size q W (i64 (RbTree.size q - 1)) Hq) as Hq1. fold q1 in Hq1.
  rewrite (tree_peekMin_spec _ _ _ _ (fo_tree _ _ (qr_forest _ _ Hq1) SellTree) (Hf _)). apply (pop_end q1 W SellTree (head (W SellTree)) fuel Hq1 (or_intror eq_refl) Hf (head_sells q1 W)).
  intros gr Hg. by apply head_Some_elem_of.
Qed.

Lemma rb_Cancel_spec q W g fuel : queues_rep q W -> (forall k, length (ids (W k)) <= fuel)%nat ->
  exists r q' W', rb_Cancel fuel g q = Ret (e_ptr <$> r, q') /\ queues_rep q' W' /\ (forall k, length (ids (W' k)) <= length (ids (W k)))%nat /\
    match r with
    | None => (forall k, side q' W' k = side q W k) /\ forall e, e ∈ queued q W -> e_guid e <> g
    | Some e => e_guid e = g /\ exists k, (k = BuyTree \/ k = SellTree) /\ removed e (side q W k) (side q' W' k) /\
        forall j, j = BuyTree \/ j = SellTree -> j <> k -> side q' W' j = side q W j
    end.
Proof.
  intros Hq Hf. unfold rb_Cancel, cancel. pose proof (fo_tree _ _ (qr_forest _ _ Hq) Orders) as Ht.
  destruct (get_spec Orders q _ g fuel Ht (Hf _)) as (o & E1 & Ho). bind E1. destruct o as [n|].
  - destruct Ho as ([v [p b] rs] & Hg & -> & Hv). cbn [g_head g_val] in *. subst v.
    assert (Hv : ((p, b), g) ∈ vals (W Orders)) by (apply elem_of_vals; eexists; split; [exact Hg|]; split; [by left|done]).
    assert (Hin : (p, b) ∈ ids (W Orders)) by (rewrite <- vals_ids; by apply (list_elem_of_fmap_2 fst) in Hv).
    pose proof (qr_side _ _ Hq _ _ Hin) as Hb. cbn in Hb. subst b.
    destruct (pop_order q W p false fuel Hq Hin Hf) as (q' & W' & k & e & E2 & Hq' & Hk & <- & He & Hr & Hj & Hlen). bind E2. cbn [order_of fst].
    exists (Some e), (set_size (i64 (RbTree.size q' - 1)) q'), W'. split; [done|]. split; [by apply rep_size|]. split; [done|].
    split; [rewrite He; by apply (tree_val Orders q (W Orders))|]. by exists k.
  - exists None, q, W. split_and!; try done. intros e He. destruct (queued_entry q W e Hq He) as [Hin ->]. destruct (vals_in _ _ Hin) as (v & Hv).
    rewrite (tree_val Orders q _ _ v Ht Hv). apply elem_of_vals in Hv as (gr & Hg & _ & <-). rewrite Forall_forall in Ho. by apply Ho.
Qed.

(** ** What the queues hold, read from memory *)

(** Those behind [n] in the queue of [h]. *)
Fixpoint behind (fuel : nat) (h n : nid) (q : Rb) : list nid :=
  match fuel with
  | O => []
  | S fuel => match prev q !! n with Some m => if decide (m = h) then [] else m :: behind fuel h m q | None => [] end
  end.

Definition row_of (n : nid) (q : Rb) : list nid := n :: behind (base.size (nodes q)) n n q.

Fixpoint ascending (fuel : nat) (n : option nid) (q : Rb) : list nid :=
  match fuel, n with
  | S fuel, Some n => match nodes q !! n with Some nd => ascending fuel (left nd) q ++ row_of n q ++ ascending fuel (right nd) q | None => [] end
  | _, _ => []
  end.

Fixpoint descending (fuel : nat) (n : option nid) (q : Rb) : list nid :=
  match fuel, n with
  | S fuel, Some n => match nodes q !! n with Some nd => descending fuel (right nd) q ++ row_of n q ++ descending fuel (left nd) q | None => [] end
  | _, _ => []
  end.

Definition entry_at (p : Z) (q : Rb) : entry := mkEntry p (val_of (p, true) q) (val_of (p, false) q).

Definition rb_buys (q : Rb) : list entry := (fun n => entry_at n.1 q) <$> descending (base.size (nodes q)) (buyTree q) q.
Definition rb_sells (q : Rb) : list entry := (fun n => entry_at n.1 q) <$> ascending (base.size (nodes q)) (sellTree q) q.

Lemma behind_spec q h l : forall n fuel, links (RbTree.next q) (prev q) n l h -> h ∉ l -> (length l < fuel)%nat -> behind fuel h n q = l.
Proof.
  induction l as [|x l IH]; intros n [|fuel] Hl Hh Hf; cbn in Hf; [lia| |lia|]; cbn [links] in Hl; cbn [behind].
  - destruct Hl as [-> _]. by rewrite decide_True.
  - destruct Hl as [[-> _] Hl]. apply not_elem_of_cons in Hh as [Hx Hh]. rewrite decide_False by done. f_equal. apply IH; [done|done|lia].
Qed.

(** There is a node for everything in a tree's queues. *)
Lemma ids_size k q gs : tree_rep k q gs -> (length (ids gs) <= base.size (nodes q))%nat.
Proof.
  intros Hq. rewrite <- (size_dom (D := gset nid)), <- (size_list_to_set (C := gset nid) (ids gs)) by apply Hq. apply subseteq_size.
  intros n (v & Hv)%elem_of_list_to_set%vals_in. destruct (proj1 (elem_of_vals n v gs) Hv) as (gr & Hg & [->|Hn]%elem_of_cons & _);
    apply elem_of_dom; [|by rewrite (tr_rest _ _ _ Hq gr n Hg Hn)].
  destruct (rep_foc _ _ _ Hq) as (t & fr & H & _ & Hin & _). destruct (find_node t (g_head gr) (g_val gr)) as (x & c & l & r & ->).
  { rewrite Hin. unfold heads. apply list_elem_of_fmap. by exists gr. }
  apply foc_down in H. pose proof (foc_get _ _ _ _ _ _ _ _ _ _ H) as E1. unfold get_node in E1. by destruct (nodes q !! g_head gr).
Qed.

Lemma walks_spec k fr q : forall t x gs fuel, foc k x t fr q q -> inorder t = heads gs ->
  (forall gr, gr ∈ gs -> ring q (g_head gr) (g_rest gr) /\ (g_head gr ∉ g_rest gr) /\ length (g_rest gr) < base.size (nodes q))%nat ->
  (length gs <= fuel)%nat -> ascending fuel (rootid t) q = ids gs /\ descending fuel (rootid t) q = ids (reverse gs).
Proof.
  induction t as [|c l IHl n v r IHr]; intros x gs fuel H Hin Hg Hf; cbn [inorder rootid] in *.
  - symmetry in Hin. apply fmap_nil_inv in Hin as ->. by destruct fuel.
  - symmetry in Hin. destruct (heads_split _ _ _ Hin) as (g1 & g2 & -> & H1 & H2). destruct g2 as [|gr g2]; [done|]. injection H2 as -> -> H2.
    rewrite length_app in Hf. cbn in Hf. destruct fuel as [|fuel]; [lia|]. cbn [ascending descending].
    pose proof (foc_get _ _ _ _ _ _ _ _ _ _ H) as E1. unfold get_node in E1. destruct (nodes q !! g_head gr) as [nd|]; [|done]. injection E1 as ->. cbn [left right].
    destruct (IHl _ g1 fuel (proj1 (foc_sub_l _ _ _ _ _ _ _ _ _ _) H) H1) as [-> ->]; [intros y Hy; apply Hg; set_solver|lia|].
    destruct (IHr _ g2 fuel (proj1 (foc_sub_r _ _ _ _ _ _ _ _ _ _) H) H2) as [-> ->]; [intros y Hy; apply Hg; set_solver|lia|].
    destruct (Hg gr ltac:(set_solver)) as (Hr & Hh & Hl). unfold row_of. rewrite (behind_spec q _ _ _ _ Hr Hh Hl).
    rewrite reverse_app, reverse_cons, <- app_assoc, !ids_app, !ids_cons. cbn. by rewrite app_nil_r.
Qed.

Lemma tree_walks k q gs : tree_rep k q gs ->
  ascending (base.size (nodes q)) (root k q) q = ids gs /\ descending (base.size (nodes q)) (root k q) q = ids (reverse gs).
Proof.
  intros Hq. destruct (rep_foc _ _ _ Hq) as (t & fr & H & _ & Hin & -> & _). pose proof (ids_size _ _ _ Hq) as Hs.
  apply (walks_spec k fr q t []); [done|done| |].
  - intros gr Hg. split; [by eapply tr_ring|]. apply list_elem_of_split in Hg as (a & b & ->). destruct (rep_members _ _ _ _ _ Hq) as [Hn _].
    unfold members in Hn. apply NoDup_cons in Hn as [Hh _]. split; [done|]. rewrite ids_app, ids_cons, !length_app in Hs. cbn in Hs. lia.
  - pose proof (length_heads gs) as Hl. unfold heads in Hl. rewrite length_fmap in Hl. lia.
Qed.

Lemma ents_ids q W k l : queues_rep q W -> k = BuyTree \/ k = SellTree -> (forall x, x ∈ l -> x ∈ vals (W k)) -> (fun n => entry_at n.1 q) <$> l.*1 = ents q l.
Proof.
  intros Hq Hk Hl. rewrite <- list_fmap_compose. unfold ents. apply list_fmap_ext. intros i [[p b] v] Hx%list_elem_of_lookup_2%Hl. cbn.
  assert (b = true) as ->.
  { assert (Hin : (p, b) ∈ ids (W k)) by (rewrite <- vals_ids; by apply (list_elem_of_fmap_2 fst) in Hx). pose proof (qr_side _ _ Hq _ _ Hin) as Hb. cbn in Hb. by destruct Hk as [-> | ->]. }
  unfold entry_at. f_equal. apply (tree_val k q (W k)); [apply Hq|done].
Qed.

Lemma buys_rep q W : queues_rep q W -> rb_buys q = side q W BuyTree /\ rb_sells q = side q W SellTree.
Proof.
  intros Hq. pose proof (fo_tree _ _ (qr_forest _ _ Hq)) as Ht. unfold rb_buys, rb_sells, side.
  destruct (tree_walks _ _ _ (Ht BuyTree)) as [_ E1], (tree_walks _ _ _ (Ht SellTree)) as [E2 _]. cbn [root] in E1, E2. rewrite E1, E2. rewrite <- !vals_ids. split.
  - apply (ents_ids q W BuyTree); [done|by left|]. intros x. by rewrite elem_of_vals_reverse.
  - apply (ents_ids q W SellTree); [done|by right|done].
Qed.

Lemma entry_at_queued q W e : queues_rep q W -> e ∈ queued q W -> entry_at (e_ptr e) q = e.
Proof.
  intros Hq He. assert (Hx : forall l, (exists k, (k = BuyTree \/ k = SellTree) /\ forall x, x ∈ l -> x ∈ vals (W k)) -> e ∈ ents q l -> entry_at (e_ptr e) q = e).
  { intros l (k & Hk & Hl) Hel. rewrite <- (ents_ids q W k l Hq Hk Hl) in Hel. by apply list_elem_of_fmap in Hel as (n & -> & _). }
  unfold queued, side in He. apply elem_of_app in He as [He|He]; eapply Hx; try exact He; [exists BuyTree|exists SellTree]; (split; [auto|]); intros x; by rewrite ?elem_of_vals_reverse.
Qed.

(** ** The interface of the matcher *)

(** One step for every node is enough for each loop. *)
Definition fuel_of (q : Rb) : nat := base.size (nodes q).

Definition rb_new : Rb := mkRb ∅ ∅ ∅ None None None 0.

(** An order is filled in by setup and then pushed. *)
Definition push_buy (e : entry) (q : Rb) : outcome unit Rb :=
  let q := setup (e_ptr e) (e_price e) (e_guid e) q in rb_PushBuy (fuel_of q) (e_ptr e) q.

Definition push_sell (e : entry) (q : Rb) : outcome unit Rb :=
  let q := setup (e_ptr e) (e_price e) (e_guid e) q in rb_PushSell (fuel_of q) (e_ptr e) q.

Definition cancel_guid (g : Z) (q : Rb) : outcome unit (option entry * Rb) :=
  '(p, q') ← rb_Cancel (fuel_of q) g q; Ret (match p with Some p => Some (entry_at p q) | None => None end, q').

Definition rb_queues : MatchQueues Rb := {|
  newQueues := rb_new;
  PushBuy := push_buy;
  PushSell := push_sell;
  PeekBuy := fun q => match rb_PeekBuy (fuel_of q) q with Ret (Some p) => Some (entry_at p q) | _ => None end;
  PeekSell := fun q => match rb_PeekSell (fuel_of q) q with Ret (Some p) => Some (entry_at p q) | _ => None end;
  Remove := fun e q => rb_Remove (fuel_of q) (e_ptr e) q;
  Cancel := cancel_guid
|}.
#[local] Existing Instance rb_queues.

Definition rb_ok (q : Rb) : Prop := exists W, queues_rep q W.

Lemma rep_fuel q W : queues_rep q W -> forall k, (length (ids (W k)) <= fuel_of q)%nat.
Proof. intros Hq k. eapply ids_size. apply Hq. Qed.

Lemma new_rep : queues_rep rb_new (fun _ => []).
Proof.
  split; [split| |done].
  - intros k. split; [|intros gr n Hg; by apply elem_of_nil in Hg|intros gr Hg; by apply elem_of_nil in Hg|constructor|constructor].
    exists E. split; [done|]. split; [done|]. split; [by destruct k|constructor].
  - intros i j n _ Hn. by apply elem_of_nil in Hn.
  - intros k n Hn. by apply elem_of_nil in Hn.
Qed.

Lemma rb_new_ok : rb_ok rb_new /\ rb_buys rb_new = [] /\ rb_sells rb_new = [].
Proof. split; [by exists (fun _ => []); apply new_rep|]. done. Qed.

Lemma setup_size q W p price guid : queues_rep q W ->
  forall k, (length (ids (W k)) <= fuel_of (setup p price guid q))%nat.
Proof.
  intros Hq k. etransitivity; [by apply rep_fuel|]. unfold fuel_of, setup, initNode. cbn.
  assert (Hs : forall (m : gmap nid node) i x, (base.size m <= base.size (<[i := x]> m))%nat) by (intros m i x; rewrite map_size_insert; destruct (m !! i); cbv [id]; lia).
  etransitivity; [|apply Hs]. apply Hs.
Qed.

Lemma unqueued_ptr q W p : queues_rep q W -> (forall x, x ∈ rb_buys q ++ rb_sells q -> e_ptr x <> p) -> p ∉ (ids (W Orders)).*1.
Proof.
  intros Hq Hx. destruct (buys_rep _ _ Hq) as [E1 E2]. rewrite E1, E2 in Hx. rewrite <- (queued_ptrs _ _ Hq). intros (e & -> & He)%list_elem_of_fmap. by apply (Hx e).
Qed.

Lemma push_buy_ok e q : rb_ok q -> True -> (forall x, x ∈ rb_buys q ++ rb_sells q -> e_ptr x <> e_ptr e) ->
  exists q', push_buy e q = Ret q' /\ rb_ok q' /\ rb_buys q' = insert_buy e (rb_buys q) /\ rb_sells q' = rb_sells q.
Proof.
  intros [W Hq] _ Hx. pose proof (unqueued_ptr _ _ _ Hq Hx) as Hp.
  destruct (rb_Push_spec q W BuyTree (e_ptr e) (e_price e) (e_guid e) _ Hq (or_introl eq_refl) Hp
    (setup_size q W (e_ptr e) (e_price e) (e_guid e) Hq)) as (q' & W' & E1 & Hq' & Hs & Hj).
  destruct (buys_rep _ _ Hq) as [-> ->], (buys_rep _ _ Hq') as [E2 E3]. exists q'. split; [exact E1|]. split; [by exists W'|].
  rewrite E2, E3, Hs, (Hj SellTree (or_intror eq_refl)) by done. by destruct e.
Qed.

Lemma push_sell_ok e q : rb_ok q -> True -> (forall x, x ∈ rb_buys q ++ rb_sells q -> e_ptr x <> e_ptr e) ->
  exists q', push_sell e q = Ret q' /\ rb_ok q' /\ rb_sells q' = insert_sell e (rb_sells q) /\ rb_buys q' = rb_buys q.
Proof.
  intros [W Hq] _ Hx. pose proof (unqueued_ptr _ _ _ Hq Hx) as Hp.
  destruct (rb_Push_spec q W SellTree (e_ptr e) (e_price e) (e_guid e) _ Hq (or_intror eq_refl) Hp
    (setup_size q W (e_ptr e) (e_price e) (e_guid e) Hq)) as (q' & W' & E1 & Hq' & Hs & Hj).
  destruct (buys_rep _ _ Hq) as [-> ->], (buys_rep _ _ Hq') as [E2 E3]. exists q'. split; [exact E1|]. split; [by exists W'|].
  rewrite E2, E3, Hs, (Hj BuyTree (or_introl eq_refl)) by done. by destruct e.
Qed.

Lemma peek_entry q W k : queues_rep q W -> k = BuyTree \/ k = SellTree ->
  match e_ptr <$> head (side q W k) with Some p => Some (entry_at p q) | None => None end = head (side q W k).
Proof.
  intros Hq Hk. destruct (side q W k) as [|e l] eqn:Es; [done|]. cbn. f_equal. apply (entry_at_queued q W); [done|].
  apply (side_queued q W k); [done|]. rewrite Es. by left.
Qed.

Lemma rb_PeekBuy_ok q : rb_ok q -> PeekBuy q = head (rb_buys q).
Proof.
  intros [W Hq]. destruct (buys_rep _ _ Hq) as [-> _]. cbn [PeekBuy rb_queues]. rewrite (rb_PeekBuy_spec q W _ Hq (rep_fuel _ _ Hq)).
  apply peek_entry; [done|by left].
Qed.

Lemma rb_PeekSell_ok q : rb_ok q -> PeekSell q = head (rb_sells q).
Proof.
  intros [W Hq]. destruct (buys_rep _ _ Hq) as [_ ->]. cbn [PeekSell rb_queues]. rewrite (rb_PeekSell_spec q W _ Hq (rep_fuel _ _ Hq)).
  apply peek_entry; [done|by right].
Qed.

Lemma rb_Remove_buy_ok e l q : rb_ok q -> rb_buys q = e :: l -> e ∉ rb_sells q ->
  exists q', Remove e q = Ret q' /\ rb_ok q' /\ rb_buys q' = l /\ rb_sells q' = rb_sells q.
Proof.
  intros [W Hq] Hl _. destruct (buys_rep _ _ Hq) as [E1 E2]. rewrite E1 in Hl. rewrite E2.
  destruct (pop_first q W BuyTree e l true _ Hq (or_introl eq_refl) Hl (rep_fuel _ _ Hq)) as (q' & W' & E3 & Hq' & Hs & Hj & _).
  destruct (buys_rep _ _ Hq') as [E4 E5]. exists q'. split; [exact E3|]. split; [by exists W'|]. rewrite E4, E5. split; [done|]. apply Hj; [by right|done].
Qed.

Lemma rb_Remove_sell_ok e l q : rb_ok q -> rb_sells q = e :: l -> e ∉ rb_buys q ->
  exists q', Remove e q = Ret q' /\ rb_ok q' /\ rb_sells q' = l /\ rb_buys q' = rb_buys q.
Proof.
  intros [W Hq] Hl _. destruct (buys_rep _ _ Hq) as [E1 E2]. rewrite E2 in Hl. rewrite E1.
  destruct (pop_first q W SellTree e l true _ Hq (or_intror eq_refl) Hl (rep_fuel _ _ Hq)) as (q' & W' & E3 & Hq' & Hs & Hj & _).
  destruct (buys_rep _ _ Hq') as [E4 E5]. exists q'. split; [exact E3|]. split; [by exists W'|]. rewrite E4, E5. split; [done|]. apply Hj; [by left|done].
Qed.

Lemma rb_Cancel_ok g q : rb_ok q -> exists r q', Cancel g q = Ret (r, q') /\ rb_ok q' /\
  match r with
  | None => rb_buys q' = rb_buys q /\ rb_sells q' = rb_sells q /\ forall e, e ∈ rb_buys q ++ rb_sells q -> e_guid e <> g
  | Some e => e_guid e = g /\
      ((removed e (rb_buys q) (rb_buys q') /\ rb_sells q' = rb_sells q) \/
       (removed e (rb_sells q) (rb_sells q') /\ rb_buys q' = rb_buys q))
  end.
Proof.
  intros [W Hq]. destruct (rb_Cancel_spec q W g _ Hq (rep_fuel _ _ Hq)) as (r & q' & W' & E1 & Hq' & _ & Hr).
  destruct (buys_rep _ _ Hq) as [-> ->], (buys_rep _ _ Hq') as [E2 E3]. exists r, q'. rewrite E2, E3. split.
  - cbn [Cancel rb_queues]. unfold cancel_guid. bind E1. f_equal. f_equal. destruct r as [e|]; [|done]. cbn. f_equal. apply (entry_at_queued q W); [done|].
    destruct Hr as (_ & k & Hk & Hr & _). apply (side_queued q W k); [done|]. apply removed_perm in Hr. rewrite Hr. by left.
  - split; [by exists W'|]. destruct r as [e|]; [|destruct Hr as [Hs Hn]; by rewrite !Hs].
    destruct Hr as (Hg & k & [-> | ->] & Hr & Hj); (split; [done|]); [left|right]; (split; [done|]); apply Hj; auto.
Qed.

Definition rb_spec : MatchQueuesSpec Rb := {|
  buys := rb_buys;
  sells := rb_sells;
  q_ok := rb_ok;
  fits _ := True;
  new_ok := rb_new_ok;
  PushBuy_ok := push_buy_ok;
  PushSell_ok := push_sell_ok;
  PeekBuy_ok := rb_PeekBuy_ok;
  PeekSell_ok := rb_PeekSell_ok;
  Remove_buy_ok := rb_Remove_buy_ok;
  Remove_sell_ok := rb_Remove_sell_ok;
  Cancel_ok := rb_Cancel_ok
|}.
