(* ===== verification/MatchRun.v ===== *)
(** matching_engine/matcher: what the matcher guarantees of the books and of the trades.

    Matching is studied on the books that Matcher.v shows the orders in the queues to
    represent; the theorems are about Submit and Run. *)

From Stdlib Require Import ZArith Lia.
From stdpp Require Import base numbers option list gmap sorting.
From S2P Require Import RbTree RbQueues Prelude Msg MatchBook Matcher.
#[local] Open Scope Z_scope.

(** ** Books in order *)

Definition rest_ok (r : rest) : Prop := 0 < r_amount r < 2 ^ 64 /\ 0 <= r_price r < 2 ^ 64.

Definition better_sell (x y : rest) : Prop := r_price x <= r_price y.
Definition better_buy (x y : rest) : Prop := r_price y <= r_price x.

(** Both sides in order of price, no buy meets a sell, and nothing rests with amount 0. *)
Record book_ok (b : book) : Prop := {
  bk_buys : StronglySorted better_buy b.1;
  bk_sells : StronglySorted better_sell b.2;
  bk_uncrossed : forall x y, x ∈ b.1 -> y ∈ b.2 -> r_price x < r_price y;
  bk_rest : Forall rest_ok (b.1 ++ b.2)
}.

Definition total (l : list rest) : Z := foldr (fun r z => r_amount r + z) 0 l.
Definition traded (ts : list trade) : Z := foldr (fun t z => t_amount t + z) 0 ts.

(** The middle of the two prices, from below; a market sell trades at the buy's price. *)
Definition mid (b s : Z) : Z := if s =? Msg.MARKET_PRICE then b else s + (b - s) / 2.

Lemma price_mid b s : 0 <= s <= b -> b < 2 ^ 64 -> price b s = mid b s /\ s <= mid b s <= b.
Proof.
  intros Hs Hb. unfold price, mid. destruct (Z.eqb_spec s Msg.MARKET_PRICE); [lia|].
  rewrite (wrap_id 64 (b - s)) by lia.
  assert (0 <= (b - s) / 2 <= b - s) by (split; [apply Z.div_pos; lia|apply Z.div_le_upper_bound; lia]).
  rewrite wrap_id by lia. lia.
Qed.

(** A trade at a price neither side objects to, with an order of the book. *)
Definition fair_buy (bp bg : Z) (ss : list rest) (t : trade) : Prop :=
  t_buy t = bg /\ 0 < t_amount t /\
  exists s, s ∈ ss /\ t_sell t = r_guid s /\ t_price t = mid bp (r_price s) /\ t_amount t <= r_amount s /\
    r_price s <= t_price t <= bp.

Definition fair_sell (sp sg : Z) (bs : list rest) (t : trade) : Prop :=
  t_sell t = sg /\ 0 < t_amount t /\
  exists b, b ∈ bs /\ t_buy t = r_guid b /\ t_price t = mid (r_price b) sp /\ t_amount t <= r_amount b /\
    sp <= t_price t <= r_price b.

(** What is left of one side: a suffix, of which the first may have been reduced. *)
Definition left_of (ss ss' : list rest) : Prop :=
  exists n, ss' = drop n ss \/ exists x a, drop n ss = x :: drop (S n) ss /\ 0 < a < r_amount x /\ ss' = take_from x a :: drop (S n) ss.

Lemma left_cons s ss ss' : left_of ss ss' -> left_of (s :: ss) ss'.
Proof. intros [n Hn]. exists (S n). exact Hn. Qed.

Lemma left_id ss : left_of ss ss.
Proof. exists 0%nat. by left. Qed.

Record matched (a : Z) (ss : list rest) (ts : list trade) (ss' : list rest) (rem : option Z) : Prop := {
  ma_left : left_of ss ss';
  ma_rem : match rem with Some r => 0 < r <= a | None => True end;
  ma_own : traded ts + match rem with Some r => r | None => 0 end = a;
  ma_other : traded ts + total ss' = total ss
}.

Lemma total_cons r l : total (r :: l) = r_amount r + total l.
Proof. done. Qed.

Lemma traded_cons t l : traded (t :: l) = t_amount t + traded l.
Proof. done. Qed.

Lemma fair_buy_cons bp bg s ss t : fair_buy bp bg ss t -> fair_buy bp bg (s :: ss) t.
Proof. intros (H1 & H2 & x & Hx & H). split_and!; [done|done|]. exists x. split; [by right|done]. Qed.

Lemma fair_sell_cons sp sg s ss t : fair_sell sp sg ss t -> fair_sell sp sg (s :: ss) t.
Proof. intros (H1 & H2 & x & Hx & H). split_and!; [done|done|]. exists x. split; [by right|done]. Qed.

(** One matching step: the first of the other side used up, reduced, or met exactly. *)
Lemma matched_more a s ss t ts ss' rem : t_amount t = r_amount s -> r_amount s < a -> rest_ok s ->
  matched (a - r_amount s) ss ts ss' rem -> matched a (s :: ss) (t :: ts) ss' rem.
Proof.
  intros Ht Ha [Hs _] [M1 M2 M3 M4]. split; [by apply left_cons| |rewrite traded_cons; lia|rewrite traded_cons, total_cons; lia].
  destruct rem; [lia|done].
Qed.

Lemma matched_part a s ss t : t_amount t = a -> 0 < a < r_amount s -> matched a (s :: ss) [t] (take_from s a :: ss) None.
Proof.
  intros Ht Ha. split; [|done| |].
  - exists 0%nat. right. exists s, a. split_and!; [done|lia..|done].
  - rewrite traded_cons. cbn. lia.
  - rewrite traded_cons, !total_cons. cbn. lia.
Qed.

Lemma matched_full a s ss t : t_amount t = a -> a = r_amount s -> matched a (s :: ss) [t] ss None.
Proof.
  intros Ht Ha. split; [apply left_cons, left_id|done| |].
  - rewrite traded_cons. cbn. lia.
  - rewrite traded_cons, !total_cons. cbn. lia.
Qed.

Lemma matched_none a ss : 0 < a -> matched a ss [] ss (Some a).
Proof. intros Ha. split; [apply left_id|lia|done|done]. Qed.

Lemma match_buy_matched bp bg ss : forall a, 0 <= bp < 2 ^ 64 -> 0 < a < 2 ^ 64 -> Forall rest_ok ss -> StronglySorted better_sell ss ->
  let '(ts, ss', rem) := match_buy bp bg a ss in
  matched a ss ts ss' rem /\ Forall (fair_buy bp bg ss) ts /\ (rem <> None -> Forall (fun s => bp < r_price s) ss').
Proof.
  induction ss as [|s ss IH]; intros a Hbp Ha Hok Hso; cbn [match_buy].
  { split_and!; [apply matched_none; lia|done|constructor]. }
  apply Forall_cons in Hok as [Hs Hok]. apply StronglySorted_inv in Hso as [Hso Hhd]. destruct (Z.leb_spec (r_price s) bp) as [Hp|Hp].
  2: { split_and!; [apply matched_none; lia|done|]. intros _. constructor; [done|]. eapply Forall_impl; [exact Hhd|]. unfold better_sell. lia. }
  assert (Hfair : forall bk sk amt, 0 < amt <= r_amount s ->
    fair_buy bp bg (s :: ss) (mkTrade bk sk bg (r_guid s) (price bp (r_price s)) amt)).
  { intros bk sk amt Hamt. split_and!; [done|cbn; lia|]. exists s. unfold rest_ok in Hs. destruct (price_mid bp (r_price s)) as [-> ?]; [lia..|].
    split_and!; try done; [by left|cbn; lia..]. }
  destruct (Z.ltb_spec (r_amount s) a) as [H1|H1]; [|destruct (Z.ltb_spec a (r_amount s)) as [H2|H2]].
  - unfold rest_ok in Hs. specialize (IH (a - r_amount s) Hbp ltac:(lia) Hok Hso). destruct (match_buy bp bg _ ss) as [[ts ss'] rem].
    destruct IH as (IH1 & IH2 & IH3). split_and!; [by apply matched_more| |done]. constructor; [apply Hfair; lia|].
    eapply Forall_impl; [exact IH2|]. intros t. apply fair_buy_cons.
  - split_and!; [apply matched_part; [done|lia]|repeat constructor; apply Hfair; lia|done].
  - split_and!; [apply matched_full; [done|lia]|repeat constructor; apply Hfair; lia|done].
Qed.

Lemma match_sell_matched sp sg bs : forall a, 0 <= sp < 2 ^ 64 -> 0 < a < 2 ^ 64 -> Forall rest_ok bs -> StronglySorted better_buy bs ->
  let '(ts, bs', rem) := match_sell sp sg a bs in
  matched a bs ts bs' rem /\ Forall (fair_sell sp sg bs) ts /\ (rem <> None -> Forall (fun b => r_price b < sp) bs').
Proof.
  induction bs as [|b bs IH]; intros a Hsp Ha Hok Hso; cbn [match_sell].
  { split_and!; [apply matched_none; lia|done|constructor]. }
  apply Forall_cons in Hok as [Hb Hok]. apply StronglySorted_inv in Hso as [Hso Hhd]. destruct (Z.leb_spec sp (r_price b)) as [Hp|Hp].
  2: { split_and!; [apply matched_none; lia|done|]. intros _. constructor; [done|]. eapply Forall_impl; [exact Hhd|]. unfold better_buy. lia. }
  assert (Hfair : forall bk sk amt, 0 < amt <= r_amount b ->
    fair_sell sp sg (b :: bs) (mkTrade bk sk (r_guid b) sg (price (r_price b) sp) amt)).
  { intros bk sk amt Hamt. split_and!; [done|cbn; lia|]. exists b. unfold rest_ok in Hb. destruct (price_mid (r_price b) sp) as [-> ?]; [lia..|].
    split_and!; try done; [by left|cbn; lia..]. }
  destruct (Z.ltb_spec a (r_amount b)) as [H1|H1]; [|destruct (Z.ltb_spec (r_amount b) a) as [H2|H2]].
  - split_and!; [apply matched_part; [done|lia]|repeat constructor; apply Hfair; lia|done].
  - unfold rest_ok in Hb. specialize (IH (a - r_amount b) Hsp ltac:(lia) Hok Hso). destruct (match_sell sp sg _ bs) as [[ts bs'] rem].
    destruct IH as (IH1 & IH2 & IH3). split_and!; [by apply matched_more| |done]. constructor; [apply Hfair; lia|].
    eapply Forall_impl; [exact IH2|]. intros t. apply fair_sell_cons.
  - split_and!; [apply matched_full; [done|lia]|repeat constructor; apply Hfair; lia|done].
Qed.

(** *** What is left is in order *)

Lemma left_prices ss ss' : left_of ss ss' -> exists n, r_price <$> ss' = drop n (r_price <$> ss).
Proof.
  intros [n [->|(x & a & Hd & _ & ->)]]; exists n; [by rewrite fmap_drop|]. rewrite <- fmap_drop, Hd. done.
Qed.

Lemma left_in ss ss' y : left_of ss ss' -> y ∈ ss' -> exists x, x ∈ ss /\ r_price x = r_price y.
Proof.
  intros Hl Hy. destruct (left_prices _ _ Hl) as [n Hn]. assert (Hp : r_price y ∈ r_price <$> ss).
  { apply (subseteq_drop n). rewrite <- Hn. by apply list_elem_of_fmap_2. }
  apply list_elem_of_fmap in Hp as (x & Hx & Hin). by exists x.
Qed.

Lemma left_rest_ok ss ss' : left_of ss ss' -> Forall rest_ok ss -> Forall rest_ok ss'.
Proof.
  intros [n [->|(x & a & Hd & Ha & ->)]] Hok; [by apply Forall_drop|]. apply (Forall_drop _ n) in Hok. rewrite Hd in Hok.
  apply Forall_cons in Hok as [[H1 H2] Hok]. constructor; [|done]. split; cbn; lia.
Qed.

(** An order on prices. *)
Definition by_price (R : Z -> Z -> Prop) (x y : rest) : Prop := R (r_price x) (r_price y).

Lemma sorted_prices R l : StronglySorted (by_price R) l <-> StronglySorted R (r_price <$> l).
Proof.
  induction l as [|x l IH]; [split; constructor|]. cbn. split; intros Hs; apply StronglySorted_inv in Hs as [Hs Hf]; constructor; try tauto.
  - apply Forall_fmap. exact Hf.
  - rewrite Forall_fmap in Hf. exact Hf.
Qed.

Lemma sorted_drop {A} (R : A -> A -> Prop) n l : StronglySorted R l -> StronglySorted R (drop n l).
Proof.
  revert n. induction l as [|x l IH]; intros [|n] Hs; try done. cbn. apply StronglySorted_inv in Hs as [Hs _]. by apply IH.
Qed.

Lemma left_sorted R ss ss' : left_of ss ss' -> StronglySorted (by_price R) ss -> StronglySorted (by_price R) ss'.
Proof. intros Hl. destruct (left_prices _ _ Hl) as [n Hn]. rewrite !sorted_prices, Hn. apply sorted_drop. Qed.

(** *** Inserting what is left of an order *)

Lemma insert_rb_perm r l : insert_rb r l ≡ₚ r :: l.
Proof. induction l as [|x l IH]; cbn [insert_rb]; [done|]. destruct (_ <=? _); [|done]. rewrite IH. apply Permutation_swap. Qed.

Lemma insert_rs_perm r l : insert_rs r l ≡ₚ r :: l.
Proof. induction l as [|x l IH]; cbn [insert_rs]; [done|]. destruct (_ <=? _); [|done]. rewrite IH. apply Permutation_swap. Qed.

Lemma insert_rb_sorted r l : StronglySorted better_buy l -> StronglySorted better_buy (insert_rb r l).
Proof.
  unfold better_buy. induction l as [|x l IH]; intros Hs; cbn [insert_rb]; [repeat constructor|].
  apply StronglySorted_inv in Hs as [Hs Hx]. destruct (Z.leb_spec (r_price r) (r_price x)); constructor.
  - by apply IH.
  - rewrite insert_rb_perm. by constructor.
  - by constructor.
  - constructor; [lia|]. eapply Forall_impl; [exact Hx|]. cbn. lia.
Qed.

Lemma insert_rs_sorted r l : StronglySorted better_sell l -> StronglySorted better_sell (insert_rs r l).
Proof.
  unfold better_sell. induction l as [|x l IH]; intros Hs; cbn [insert_rs]; [repeat constructor|].
  apply StronglySorted_inv in Hs as [Hs Hx]. destruct (Z.leb_spec (r_price x) (r_price r)); constructor.
  - by apply IH.
  - rewrite insert_rs_perm. by constructor.
  - by constructor.
  - constructor; [lia|]. eapply Forall_impl; [exact Hx|]. cbn. lia.
Qed.

(** A newcomer goes behind the orders at its price: time priority. *)
Lemma insert_rs_app r l : StronglySorted better_sell l -> exists l1 l2, l = l1 ++ l2 /\ insert_rs r l = l1 ++ r :: l2 /\
  Forall (fun x => r_price x <= r_price r) l1 /\ Forall (fun x => r_price r < r_price x) l2.
Proof.
  induction l as [|x l IH]; intros Hs; cbn [insert_rs]; [by exists [], []|].
  apply StronglySorted_inv in Hs as [Hs Hx]. destruct (Z.leb_spec (r_price x) (r_price r)).
  - destruct (IH Hs) as (l1 & l2 & -> & -> & H1 & H2). exists (x :: l1), l2. split_and!; [done..|by constructor|done].
  - exists [], (x :: l). split_and!; [done..|]. constructor; [done|]. eapply Forall_impl; [exact Hx|]. unfold better_sell. cbn. lia.
Qed.

Lemma total_app l1 l2 : total (l1 ++ l2) = total l1 + total l2.
Proof. induction l1 as [|x l1 IH]; [done|]. cbn [app]. rewrite !total_cons, IH. lia. Qed.

Lemma total_perm l1 l2 : l1 ≡ₚ l2 -> total l1 = total l2.
Proof. induction 1; rewrite ?total_cons; lia. Qed.

(** *** Books under the three kinds of order *)

Lemma left_nil_sorted ss ss' : left_of ss ss' -> StronglySorted better_sell ss -> StronglySorted better_sell ss'.
Proof. apply (left_sorted Z.le). Qed.

Lemma left_buys_sorted ss ss' : left_of ss ss' -> StronglySorted better_buy ss -> StronglySorted better_buy ss'.
Proof. apply (left_sorted (fun x y => y <= x)). Qed.

Lemma spec_buy_ok r b : book_ok b -> rest_ok r -> let '(ts, b') := spec_buy r b in
  book_ok b' /\ Forall (fair_buy (r_price r) (r_guid r) b.2) ts /\
  traded ts + total b'.1 = total b.1 + r_amount r /\ traded ts + total b'.2 = total b.2.
Proof.
  intros [Hb Hs Hu Hok] Hr. apply Forall_app in Hok as [Hok1 Hok2]. unfold spec_buy. destruct Hr as [Hra Hrp].
  pose proof (match_buy_matched (r_price r) (r_guid r) b.2 (r_amount r) Hrp Hra Hok2 Hs) as Hm.
  destruct (match_buy _ _ _ _) as [[ts ss'] rem]. destruct Hm as ([M1 M2 M3 M4] & Hfair & Hrem).
  pose proof (left_nil_sorted _ _ M1 Hs) as Hs'. pose proof (left_rest_ok _ _ M1 Hok2) as Hok2'.
  assert (Hu' : forall x y, x ∈ b.1 -> y ∈ ss' -> r_price x < r_price y).
  { intros x y Hx Hy. destruct (left_in _ _ _ M1 Hy) as (y' & Hy' & <-). by apply Hu. }
  destruct rem as [a|]; cbn [fst snd default] in *; (split; [|split; [done|]]).
  - split; cbn [fst snd]; [by apply insert_rb_sorted|done| |].
    + intros x y Hx Hy. rewrite insert_rb_perm in Hx. apply elem_of_cons in Hx as [->|Hx]; [|by apply Hu'].
      specialize (Hrem ltac:(done)). rewrite Forall_forall in Hrem. by apply Hrem.
    + rewrite insert_rb_perm. constructor; [split; cbn; lia|]. by apply Forall_app.
  - rewrite (total_perm _ _ (insert_rb_perm _ _)), total_cons. cbn [r_amount]. lia.
  - split; cbn [fst snd]; [done..|]. by apply Forall_app.
  - lia.
Qed.

Lemma spec_sell_ok r b : book_ok b -> rest_ok r -> let '(ts, b') := spec_sell r b in
  book_ok b' /\ Forall (fair_sell (r_price r) (r_guid r) b.1) ts /\
  traded ts + total b'.1 = total b.1 /\ traded ts + total b'.2 = total b.2 + r_amount r.
Proof.
  intros [Hb Hs Hu Hok] Hr. apply Forall_app in Hok as [Hok1 Hok2]. unfold spec_sell. destruct Hr as [Hra Hrp].
  pose proof (match_sell_matched (r_price r) (r_guid r) b.1 (r_amount r) Hrp Hra Hok1 Hb) as Hm.
  destruct (match_sell _ _ _ _) as [[ts bs'] rem]. destruct Hm as ([M1 M2 M3 M4] & Hfair & Hrem).
  pose proof (left_buys_sorted _ _ M1 Hb) as Hb'. pose proof (left_rest_ok _ _ M1 Hok1) as Hok1'.
  assert (Hu' : forall x y, x ∈ bs' -> y ∈ b.2 -> r_price x < r_price y).
  { intros x y Hx Hy. destruct (left_in _ _ _ M1 Hx) as (x' & Hx' & <-). by apply Hu. }
  destruct rem as [a|]; cbn [fst snd default] in *; (split; [|split; [done|]]).
  - split; cbn [fst snd]; [done|by apply insert_rs_sorted| |].
    + intros x y Hx Hy. rewrite insert_rs_perm in Hy. apply elem_of_cons in Hy as [->|Hy]; [|by apply Hu'].
      specialize (Hrem ltac:(done)). rewrite Forall_forall in Hrem. by apply Hrem.
    + rewrite insert_rs_perm, <- Permutation_middle. constructor; [split; cbn; lia|]. by apply Forall_app.
  - rewrite (total_perm _ _ (insert_rs_perm _ _)), total_cons. cbn [r_amount]. lia.
  - split; cbn [fst snd]; [done..|]. by apply Forall_app.
  - lia.
Qed.

Lemma sorted_sub {A} (R : A -> A -> Prop) l1 x l2 : StronglySorted R (l1 ++ x :: l2) -> StronglySorted R (l1 ++ l2).
Proof.
  induction l1 as [|y l1 IH]; cbn; intros Hs; apply StronglySorted_inv in Hs as [Hs Hf]; [done|].
  constructor; [by apply IH|]. rewrite Forall_app in *. destruct Hf as [H1 H2]. split; [done|]. by apply Forall_cons in H2 as [_ ?].
Qed.

Lemma removed_sorted {A} (R : A -> A -> Prop) x l l' : removed x l l' -> StronglySorted R l -> StronglySorted R l'.
Proof. intros (l1 & l2 & -> & ->). apply sorted_sub. Qed.

Definition amount_of (r : option rest) : Z := match r with Some r => r_amount r | None => 0 end.

Lemma cancelled_ok g b r b' : cancelled g b r b' -> book_ok b ->
  book_ok b' /\ total b'.1 + total b'.2 + amount_of r = total b.1 + total b.2.
Proof.
  intros Hc [Hb Hs Hu Hok]. destruct Hc as [_|r b' _ Hr Heq|r b' _ Hr Heq]; [split; [by split|cbn; lia]|..];
    pose proof (removed_perm _ _ _ Hr) as Hp; rewrite Hp in Hok; rewrite (total_perm _ _ Hp), total_cons, Heq; cbn [amount_of].
  - split; [|lia]. split; rewrite ?Heq; [by apply (removed_sorted _ _ _ _ Hr)|done| |by apply Forall_cons in Hok as [_ ?]].
    intros x y Hx Hy. apply Hu; [|done]. rewrite Hp. by right.
  - split; [|lia]. split; rewrite ?Heq; [done|by apply (removed_sorted _ _ _ _ Hr)| |].
    + intros x y Hx Hy. apply Hu; [done|]. rewrite Hp. by right.
    + rewrite <- Permutation_middle in Hok. by apply Forall_cons in Hok as [_ ?].
Qed.

(** The orders met are the first of the other side, in order. *)
Lemma match_buy_prefix bp bg ss : forall a, t_sell <$> (match_buy bp bg a ss).1.1 `prefix_of` r_guid <$> ss.
Proof.
  induction ss as [|s ss IH]; intros a; cbn [match_buy]; [done|]. destruct (_ <=? _); [|apply prefix_nil].
  destruct (_ <? _); [|destruct (_ <? _)].
  - specialize (IH (a - r_amount s)). destruct (match_buy bp bg _ ss) as [[ts ss'] rem]. cbn in *. by apply prefix_cons.
  - cbn. apply prefix_cons, prefix_nil.
  - cbn. apply prefix_cons, prefix_nil.
Qed.

Lemma match_sell_prefix sp sg bs : forall a, t_buy <$> (match_sell sp sg a bs).1.1 `prefix_of` r_guid <$> bs.
Proof.
  induction bs as [|b bs IH]; intros a; cbn [match_sell]; [done|]. destruct (_ <=? _); [|apply prefix_nil].
  destruct (_ <? _); [|destruct (_ <? _)].
  - cbn. apply prefix_cons, prefix_nil.
  - specialize (IH (a - r_amount b)). destruct (match_sell sp sg _ bs) as [[ts bs'] rem]. cbn in *. by apply prefix_cons.
  - cbn. apply prefix_cons, prefix_nil.
Qed.

Lemma left_length ss ss' : left_of ss ss' -> (length ss' <= length ss)%nat.
Proof.
  intros Hl. destruct (left_prices _ _ Hl) as [n Hn]. apply (f_equal length) in Hn. rewrite length_drop, !length_fmap in Hn. lia.
Qed.

(** ** The matcher *)

Section run.
Context {FM : Fmath} {HF : FmathSpec} {Q : Type} {MQ : MatchQueues Q} {MS : MatchQueuesSpec Q}.

(** A message that passed Valid, of a kind for the matcher, at a price the queues hold. *)
Definition valid_order (o : Msg.Message) : Prop :=
  Msg.Message_ok o /\ Msg.Valid o = true /\
  ((Msg.Kind o = Msg.BUY /\ fits (Msg.Price o)) \/ (Msg.Kind o = Msg.SELL /\ fits (Msg.Price o)) \/ Msg.Kind o = Msg.CANCEL).

Lemma valid_accepted o : valid_order o -> accepted o /\ rest_ok (rest_msg o).
Proof.
  intros (Ho & Hv & Hk). assert (Hs : Msg.Kind o <> Msg.SHUTDOWN /\ Msg.Kind o <> Msg.NEW_TRADER)
    by (destruct Hk as [[-> _]|[[-> _]| ->]]; done).
  apply Msg.Valid_trade_spec in Hv as (_ & Hp & Ha & _); [|apply Hs..]. pose proof Ho as (_ & Hpo & Hao & _).
  split; [split; [done|]|split; cbn; lia]. destruct Hk as [[Hk Hf]|[[Hk Hf]|Hk]]; [left|by right; left|by right; right].
  split_and!; [done| |done]. intros Hz. destruct (Hp Hz) as [H|[H|[H|H]]]; rewrite Hk in H; discriminate.
Qed.

Definition good (m : M (Q := Q)) : Prop := m_ok m /\ forall st, book_ok (book_of m st).

Lemma submitted_ok o b ms b' : book_ok b -> rest_ok (rest_msg o) -> submitted o b ms b' ->
  book_ok b' /\ (depth b' <= S (depth b))%nat.
Proof.
  intros Hb Hr Hs. unfold depth. destruct Hs as [ts b' _ Hs|ts b' _ Hs|r b' _ Hc].
  - pose proof (spec_buy_ok _ _ Hb Hr) as H. rewrite Hs in H. split; [apply H|]. unfold spec_buy in Hs.
    pose proof (match_buy_matched _ (r_guid (rest_msg o)) b.2 _ (proj2 Hr) (proj1 Hr) ) as Hm.
    destruct (match_buy _ _ _ _) as [[ts' ss'] rem]. injection Hs as <- <-. cbn [fst snd].
    destruct Hb as [B1 B2 B3 B4]. apply Forall_app in B4 as [B4 B5]. destruct (Hm B5 B2) as ([M1 _ _ _] & _). apply left_length in M1.
    destruct rem; rewrite ?insert_rb_perm; cbn; lia.
  - pose proof (spec_sell_ok _ _ Hb Hr) as H. rewrite Hs in H. split; [apply H|]. unfold spec_sell in Hs.
    pose proof (match_sell_matched _ (r_guid (rest_msg o)) b.1 _ (proj2 Hr) (proj1 Hr)) as Hm.
    destruct (match_sell _ _ _ _) as [[ts' bs'] rem]. injection Hs as <- <-. cbn [fst snd].
    destruct Hb as [B1 B2 B3 B4]. apply Forall_app in B4 as [B4 B5]. destruct (Hm B4 B1) as ([M1 _ _ _] & _). apply left_length in M1.
    destruct rem; rewrite ?insert_rs_perm; cbn; lia.
  - split; [by apply (cancelled_ok _ _ _ _ Hc)|]. destruct Hc as [_|r b' _ Hr' Heq|r b' _ Hr' Heq]; [lia|..];
      apply removed_perm in Hr'; rewrite Heq, Hr'; cbn; lia.
Qed.

Lemma Submit_good fuel o m : good m -> valid_order o -> (depth (book_of m (Msg.StockId o)) < fuel)%nat ->
  exists m' ms, Submit fuel o m = Ret m' /\ good m' /\ out m' = out m ++ ms /\
    submitted o (book_of m (Msg.StockId o)) ms (book_of m' (Msg.StockId o)) /\
    (forall st, st <> Msg.StockId o -> book_of m' st = book_of m st) /\
    (forall st, (depth (book_of m' st) <= S (depth (book_of m st)))%nat).
Proof.
  intros [Hm Hb] Ho Hf. destruct (valid_accepted o Ho) as [Hacc Hr].
  destruct (Submit_spec fuel o m Hm Hacc Hf) as (m' & ms & E1 & [U1 U2] & Hout & Hsub).
  destruct (submitted_ok _ _ _ _ (Hb _) Hr Hsub) as [Hb' Hd]. exists m', ms. split_and!; try done.
  - split; [done|]. intros st. destruct (decide (st = Msg.StockId o)) as [->|Hne]; [done|]. by rewrite U2.
  - intros st. destruct (decide (st = Msg.StockId o)) as [->|Hne]; [done|]. rewrite U2 by done. lia.
Qed.

Lemma NewMatcher_good size : (0 < size)%nat -> exists m, NewMatcher size = Ret m /\ good m /\ matchQueues m = ∅ /\ out m = [].
Proof.
  intros Hs. destruct (NewSlab_spec size Hs) as (s & E1 & Hsl). unfold NewMatcher. run E1. eexists. split; [reflexivity|].
  split; [|done]. split; [split; [by eexists|]|].
  - intros st q Hq. cbn in Hq. by rewrite lookup_empty in Hq.
  - intros st. unfold book_of. cbn [matchQueues]. rewrite lookup_empty. split; cbn; try constructor. intros x y Hx. by apply elem_of_nil in Hx.
Qed.

Lemma Run_good fuel sd later input : Msg.Kind sd = Msg.SHUTDOWN -> forall m, good m -> Forall valid_order input ->
  (forall st, (depth (book_of m st) + length input < fuel)%nat) ->
  exists m' ms, Run fuel (input ++ sd :: later) m = Ret m' /\ good m' /\ out m' = out m ++ ms ++ [sd].
Proof.
  intros Hsd. induction input as [|o input IH]; intros m Hg Hv Hf; cbn [app Run].
  - rewrite Hsd. exists (write sd m), []. split; [done|]. split; [|done]. destruct Hg as [[H1 H2] H3]. by split.
  - apply Forall_cons in Hv as [Ho Hv]. destruct (Z.eqb_spec (Msg.Kind o) Msg.SHUTDOWN) as [Hk|_].
    { destruct Ho as (_ & _ & Hk'). rewrite Hk in Hk'. destruct Hk' as [[Hx _]|[[Hx _]|Hx]]; discriminate. }
    cbn [length] in Hf. destruct (Submit_good fuel o m Hg Ho) as (m1 & ms1 & E1 & Hg1 & Ho1 & _ & _ & Hd1); [specialize (Hf (Msg.StockId o)); lia|].
    run E1. destruct (IH m1 Hg1 Hv) as (m2 & ms2 & E2 & Hg2 & Ho2).
    { intros st. specialize (Hf st). specialize (Hd1 st). lia. }
    exists m2, (ms1 ++ ms2). split; [done|]. split; [done|]. by rewrite Ho2, Ho1, <- !app_assoc.
Qed.

(** C34: Submit implements matching by price-time priority on the book of the order's stock: with fuel for the orders
    resting there, an accepted message is processed, the trades, confirmations and the new book are those
    of the specification, no other stock's book changes, and the matcher's memory stays
    well formed; a buy at market price and a message of another kind panic. *)
Theorem submit_refines fuel o (m : M (Q := Q)) : m_ok m -> Msg.Message_ok o -> (depth (book_of m (Msg.StockId o)) < fuel)%nat ->
  (accepted o -> exists m' ms, Submit fuel o m = Ret m' /\ m_ok m' /\ out m' = out m ++ ms /\
     submitted o (book_of m (Msg.StockId o)) ms (book_of m' (Msg.StockId o)) /\
     forall st, st <> Msg.StockId o -> book_of m' st = book_of m st) /\
  ((Msg.Kind o = Msg.BUY /\ Msg.Price o = Msg.MARKET_PRICE) \/
   (Msg.Kind o <> Msg.BUY /\ Msg.Kind o <> Msg.SELL /\ Msg.Kind o <> Msg.CANCEL) -> Submit fuel o m = Panic).
Proof.
  intros Hm Ho Hf. split.
  - intros Hacc. destruct (Submit_spec fuel o m Hm Hacc Hf) as (m' & ms & E1 & [U1 U2] & Hout & Hsub). by exists m', ms.
  - by apply Submit_panics.
Qed.

(** C35: a new matcher fed valid orders and a shutdown processes them all, passes the shutdown on as its last
    message, and leaves every stock's book in order: buys by falling and sells by rising
    price, every buy below every sell, no order with nothing left of it.  The loops need
    no more fuel than there are orders. *)
Theorem run_books size fuel input sd later : (0 < size)%nat -> Forall valid_order input -> Msg.Kind sd = Msg.SHUTDOWN ->
  (length input < fuel)%nat ->
  exists m0 m' ms, NewMatcher size = Ret m0 /\ Run fuel (input ++ sd :: later) m0 = Ret m' /\ out m' = ms ++ [sd] /\
    m_ok m' /\ forall st, book_ok (book_of m' st).
Proof.
  intros Hs Hv Hsd Hf. destruct (NewMatcher_good size Hs) as (m0 & E0 & Hg & Hq & Ho).
  destruct (Run_good fuel sd later input Hsd m0 Hg Hv) as (m' & ms & E1 & [H1 H2] & Hout).
  { intros st. unfold book_of. rewrite Hq, lookup_empty. cbn. lia. }
  exists m0, m', ms. rewrite Ho in Hout. by split_and!.
Qed.

(** C36: the trades reported for a new order are with the first orders of the other side of its book, in their order of
    priority, each for a positive amount of no more than rests, at a price no lower than
    the seller asks and no higher than the buyer bids: the middle of the two, or the bid when the sell is at market price. *)
Theorem submit_trades fuel o (m : M (Q := Q)) : good m -> valid_order o -> Msg.Kind o <> Msg.CANCEL ->
  (depth (book_of m (Msg.StockId o)) < fuel)%nat ->
  exists m' ts, Submit fuel o m = Ret m' /\ out m' = out m ++ (ts ≫= trade_msgs (Msg.StockId o)) /\
    let '(bs, ss) := book_of m (Msg.StockId o) in
    if Msg.Kind o =? Msg.BUY
    then Forall (fair_buy (Msg.Price o) (guid_of o) ss) ts /\ t_sell <$> ts `prefix_of` r_guid <$> ss
    else Forall (fair_sell (Msg.Price o) (guid_of o) bs) ts /\ t_buy <$> ts `prefix_of` r_guid <$> bs.
Proof.
  intros Hg Ho Hk Hf. destruct (Submit_good fuel o m Hg Ho Hf) as (m' & ms & E1 & _ & Hout & Hsub & _).
  destruct (valid_accepted o Ho) as [_ Hr]. destruct Hg as [_ Hb]. specialize (Hb (Msg.StockId o)).
  destruct Hsub as [ts b' Hk' Hs|ts b' Hk' Hs|r b' Hk' _]; [..|done]; rewrite Hk'; cbn [Z.eqb Pos.eqb Msg.BUY Msg.SELL];
    exists m', ts; (split; [done|split; [done|]]); destruct (book_of m (Msg.StockId o)) as [bs ss].
  - pose proof (spec_buy_ok _ _ Hb Hr) as H. rewrite Hs in H. split; [apply H|]. unfold spec_buy in Hs.
    pose proof (match_buy_prefix (r_price (rest_msg o)) (r_guid (rest_msg o)) ss (r_amount (rest_msg o))) as Hp. cbn [snd] in Hs.
    destruct (match_buy _ _ _ _) as [[ts' ss'] rem]. by injection Hs as <- _.
  - pose proof (spec_sell_ok _ _ Hb Hr) as H. rewrite Hs in H. split; [apply H|]. unfold spec_sell in Hs.
    pose proof (match_sell_prefix (r_price (rest_msg o)) (r_guid (rest_msg o)) bs (r_amount (rest_msg o))) as Hp. cbn [fst] in Hs.
    destruct (match_sell _ _ _ _) as [[ts' ss'] rem]. by injection Hs as <- _.
Qed.

(** C37: no quantity is made or lost: what a new order brings is traded or rests on its side, what it trades leaves the
    other side, and a cancel removes what its confirmation reports, or nothing. *)
Theorem submit_conserves fuel o (m : M (Q := Q)) : good m -> valid_order o -> (depth (book_of m (Msg.StockId o)) < fuel)%nat ->
  exists m' ms, Submit fuel o m = Ret m' /\ out m' = out m ++ ms /\
    let '(bs, ss) := book_of m (Msg.StockId o) in
    let '(bs', ss') := book_of m' (Msg.StockId o) in
    (Msg.Kind o = Msg.CANCEL -> exists r, ms = [cancel_msg o (guid_of o) r] /\
       total bs' + total ss' + amount_of r = total bs + total ss) /\
    (Msg.Kind o <> Msg.CANCEL -> exists ts, ms = ts ≫= trade_msgs (Msg.StockId o) /\
       traded ts + total bs' = total bs + (if Msg.Kind o =? Msg.BUY then Msg.Amount o else 0) /\
       traded ts + total ss' = total ss + (if Msg.Kind o =? Msg.SELL then Msg.Amount o else 0)).
Proof.
  intros Hg Ho Hf. destruct (Submit_good fuel o m Hg Ho Hf) as (m' & ms & E1 & _ & Hout & Hsub & _).
  destruct (valid_accepted o Ho) as [_ Hr]. destruct Hg as [_ Hb]. specialize (Hb (Msg.StockId o)).
  exists m', ms. split; [done|]. split; [done|]. destruct (book_of m _) as [bs ss].
  destruct Hsub as [ts b' Hk' Hs|ts b' Hk' Hs|r b' Hk' Hc]; rewrite Hk'; destruct b' as [bs' ss']; (split; intros Hk; [try done|try done]).
  - exists ts. split; [done|]. pose proof (spec_buy_ok _ _ Hb Hr) as H. rewrite Hs in H. cbn [fst snd rest_msg r_amount] in H. cbn. lia.
  - exists ts. split; [done|]. pose proof (spec_sell_ok _ _ Hb Hr) as H. rewrite Hs in H. cbn [fst snd rest_msg r_amount] in H. cbn. lia.
  - exists r. split; [done|]. destruct (cancelled_ok _ _ _ _ Hc Hb) as [_ Ht]. cbn [fst snd] in Ht. lia.
Qed.

End run.

(** ** A matcher at work *)

Module Example.

(** An order packed with the trader id in the upper half. *)
Definition fmath : Fmath := {|
  CombineInt32 a b := a * 2 ^ 32 + u32 b;
  HighInt32 z := z / 2 ^ 32;
  LowInt32 z := swrap 32 z
|}.
#[local] Existing Instance fmath.

Lemma fmath_spec : FmathSpec.
Proof.
  split; intros a b Ha Hb; unfold int32 in *; cbn [CombineInt32 HighInt32 LowInt32 fmath]; pose proof (wrap_range 32 b ltac:(lia)).
  - lia.
  - rewrite Z.div_add_l by lia. rewrite Z.div_small by lia. lia.
  - assert (Hw : wrap 32 (a * 2 ^ 32 + u32 b) = u32 b) by (unfold wrap; rewrite Z.add_comm, Z.mod_add by lia; apply wrap_wrap).
    transitivity (swrap 32 b); [unfold swrap; by rewrite Hw|by apply swrap_id].
Qed.
#[local] Existing Instance fmath_spec.

#[local] Existing Instance rb_queues.
#[local] Existing Instance rb_spec.

Definition order (kind price amount trade : Z) : Msg.Message := Msg.mkMessage kind price amount 7 1 trade.

Definition resting_orders : list Msg.Message :=
  [order Msg.SELL 12 5 1; order Msg.SELL 10 2 2; order Msg.SELL 12 4 3; order Msg.BUY 8 3 4].

Definition shutdown : Msg.Message := Msg.mkMessage Msg.SHUTDOWN 0 0 0 0 0.

(** A matcher with four orders resting for stock 7. *)
Definition m0 : M := 
  match NewMatcher (Q := Rb) 2 ≫= Run 5 (resting_orders ++ [shutdown]) with
  | Ret m => m
  | _ => mkM ∅ (mkSlab None ∅) []
  end.

Lemma order_valid k p a t : k = Msg.BUY \/ k = Msg.SELL \/ k = Msg.CANCEL -> 0 < p <= 20 -> 0 < a < 2 ^ 64 -> 0 < t < 2 ^ 32 ->
  valid_order (order k p a t).
Proof.
  intros Hk Hp Ha Ht. split; [|split].
  - unfold Msg.Message_ok, order, Msg.BUY, Msg.SELL, Msg.CANCEL in *. cbn. lia.
  - apply Msg.Valid_trade_spec; cbn; [destruct Hk as [->|[->| ->]]; done..|].
    split_and!; [destruct Hk as [->|[->| ->]]; done|lia..|done].
  - cbn. destruct Hk as [->|[->| ->]]; [left|right; left|by right; right]; (split; [done|exact I]).
Qed.

Lemma resting_valid : Forall valid_order resting_orders.
Proof. repeat apply Forall_cons_2; [apply order_valid; [auto|lia..]..|done]. Qed.

Lemma m0_good : good m0.
Proof.
  unfold m0. destruct (NewMatcher_good (Q := Rb) 2 ltac:(lia)) as (m & E0 & Hg & Hq & _). rewrite E0. cbn [mbind outcome_bind].
  destruct (Run_good 5 shutdown [] resting_orders eq_refl m Hg resting_valid) as (m' & ms & E1 & Hg' & _).
  { intros st. unfold book_of. rewrite Hq, lookup_empty. vm_compute. lia. }
  by rewrite E1.
Qed.

(** It holds the sells at 10 and 12, the earlier 12 first, and the buy at 8. *)
Lemma m0_book : book_of m0 7 =
  ([mkRest 8 (2 ^ 32 + 4) 3], [mkRest 10 (2 ^ 32 + 2) 2; mkRest 12 (2 ^ 32 + 1) 5; mkRest 12 (2 ^ 32 + 3) 4]).
Proof. vm_compute. reflexivity. Qed.

Definition buy : Msg.Message := order Msg.BUY 12 4 5.

Lemma buy_valid : valid_order buy.
Proof. apply order_valid; [auto|lia..]. Qed.

Lemma depth_m0 : (depth (book_of m0 7) < 6)%nat.
Proof. rewrite m0_book. cbn. lia. Qed.

Lemma submit_refines_witness : exists m' ms, Submit 6 buy m0 = Ret m' /\ m_ok m' /\ out m' = out m0 ++ ms /\
  submitted buy (book_of m0 7) ms (book_of m' 7) /\ forall st, st <> 7 -> book_of m' st = book_of m0 st.
Proof.
  apply (submit_refines 6 buy m0 (proj1 m0_good) (proj1 buy_valid) depth_m0). exact (proj1 (valid_accepted buy buy_valid)).
Defined.

Lemma run_books_witness : exists m m' ms, NewMatcher (Q := Rb) 1 = Ret m /\
  Run 5 (resting_orders ++ [shutdown]) m = Ret m' /\ out m' = ms ++ [shutdown] /\ m_ok m' /\ forall st, book_ok (book_of m' st).
Proof. apply (run_books 1 5 resting_orders shutdown []); [lia|exact resting_valid|reflexivity|cbn; lia]. Defined.

Lemma submit_trades_witness : exists m' ts, Submit 6 buy m0 = Ret m' /\ out m' = out m0 ++ (ts ≫= trade_msgs 7) /\
  Forall (fair_buy 12 (guid_of buy) (book_of m0 7).2) ts /\ t_sell <$> ts `prefix_of` r_guid <$> (book_of m0 7).2.
Proof.
  destruct (submit_trades 6 buy m0 m0_good buy_valid ltac:(discriminate) depth_m0) as (m' & ts & H1 & H2 & H3).
  exists m', ts. split; [exact H1|]. split; [exact H2|]. change (Msg.StockId buy) with 7 in H3. rewrite m0_book in H3 |- *. exact H3.
Defined.

Lemma submit_conserves_witness : exists m' ms, Submit 6 buy m0 = Ret m' /\ out m' = out m0 ++ ms /\
  exists ts, traded ts + total (book_of m' 7).1 = 7 /\ traded ts + total (book_of m' 7).2 = 11.
Proof.
  destruct (submit_conserves 6 buy m0 m0_good buy_valid depth_m0) as (m' & ms & H1 & H2 & H3).
  exists m', ms. split; [exact H1|]. split; [exact H2|]. change (Msg.StockId buy) with 7 in H3. rewrite m0_book in H3.
  destruct (book_of m' 7) as [bs ss]. destruct H3 as [_ H3]. destruct (H3 ltac:(discriminate)) as (ts & _ & H4 & H5).
  exists ts. split; [exact H4|exact H5].
Defined.

(** The two trades of the buy, with the order at 10 and half of the first at 12. *)
Example buy_trades : (m' ← Submit 6 buy m0; Ret (drop 0 (out m'))) = Ret
  (out m0 ++
   [Msg.mkMessage Msg.PARTIAL 11 2 7 1 5; Msg.mkMessage Msg.FULL 11 2 7 1 2;
    Msg.mkMessage Msg.FULL 12 2 7 1 5; Msg.mkMessage Msg.PARTIAL 12 2 7 1 1]).
Proof. vm_compute. reflexivity. Qed.

End Example.
