(* ===== verification/RbRun.v ===== *)
(** pqueue: any sequence of calls of the match queues acts as on two lists and leaves valid trees, and
    the matcher of matcher.go runs on these queues. *)

From Stdlib Require Import ZArith Lia.
From stdpp Require Import base numbers option list gmap sets.
From S2P Require Import Prelude Msg MatchBook Matcher MatchRun RefQueues RbShape RbTree RbSteps RbRing RbQueues.
#[local] Open Scope Z_scope.

(** ** validateRBT *)

Lemma swrap_ext w a b : wrap w a = wrap w b -> swrap w a = swrap w b.
Proof. unfold swrap. by intros ->. Qed.

Lemma i64_succ k : i64 (i64 k + 1) = i64 (k + 1).
Proof.
  apply swrap_ext. unfold wrap. rewrite <- (Z.add_mod_idemp_l (swrap 64 k)), <- (Z.add_mod_idemp_l k) by done.
  fold (wrap 64 (swrap 64 k)) (wrap 64 k). by rewrite wrap_swrap.
Qed.

Lemma balance_spec k fr q : forall t x h fuel, foc k x t fr q q -> good t h -> (length (inorder t) <= fuel)%nat ->
  blackBalance fuel (rootid t) q = Ret (i64 (Z.of_nat h)).
Proof.
  induction t as [|c l IHl n v r IHr]; intros x h fuel H Hg Hf; [cbn in Hg; subst h; by destruct fuel|].
  cbn [inorder] in Hf. rewrite length_app in Hf. cbn in Hf. destruct fuel as [|fuel]; [lia|]. cbn [rootid blackBalance].
  bind (foc_get _ _ _ _ _ _ _ _ _ _ H). cbn [left right]. pose proof (foc_red _ _ _ _ _ _ H) as Er. cbn [rootid] in Er.
  pose proof (proj1 (foc_sub_l _ _ _ _ _ _ _ _ _ _) H) as Hl. pose proof (proj1 (foc_sub_r _ _ _ _ _ _ _ _ _ _) H) as Hr.
  assert (Hc : exists h', good l h' /\ good r h' /\ i64 (Z.of_nat h) = if c then i64 (i64 (Z.of_nat h') + 1) else i64 (Z.of_nat h')).
  { destruct c; cbn [good] in Hg.
    - destruct h as [|h]; [done|]. exists h. split_and!; [apply Hg..|]. rewrite i64_succ. f_equal. lia.
    - exists h. by destruct Hg as (_ & _ & H1 & H2). }
  destruct Hc as (h' & G1 & G2 & ->). rewrite (IHl _ h' fuel Hl G1) by lia. cbn [mbind outcome_bind]. rewrite (IHr _ h' fuel Hr G2) by lia.
  cbn [mbind outcome_bind]. rewrite Z.eqb_refl. bind Er. by destruct c.
Qed.

Lemma reds_spec k fr q : forall t x h fuel d, foc k x t fr q q -> good t h -> (length (inorder t) <= fuel)%nat ->
  testReds fuel (rootid t) d q = Ret tt.
Proof.
  induction t as [|c l IHl n v r IHr]; intros x h fuel d H Hg Hf; [by destruct fuel|].
  cbn [inorder] in Hf. rewrite length_app in Hf. cbn in Hf. destruct fuel as [|fuel]; [lia|]. cbn [rootid testReds].
  bind (foc_get _ _ _ _ _ _ _ _ _ _ H). cbn [left right]. pose proof (foc_red _ _ _ _ _ _ H) as Er. cbn [rootid] in Er. bind Er.
  destruct (foc_left _ _ _ _ _ _ _ _ _ _ H) as [_ El], (foc_right _ _ _ _ _ _ _ _ _ _ H) as [_ Err]. bind El. bind Err.
  pose proof (proj1 (foc_sub_l _ _ _ _ _ _ _ _ _ _) H) as Hl. pose proof (proj1 (foc_sub_r _ _ _ _ _ _ _ _ _ _) H) as Hr.
  assert (Hc : (exists h', good l h' /\ good r h') /\ isred (T c l n v r) && (isred l || isred r) = false).
  { destruct c; cbn [good isred] in *; [destruct h as [|h]; [done|]; split; [by exists h|done]|]. destruct Hg as (-> & -> & H1 & H2). split; [by exists h|done]. }
  destruct Hc as [(h' & G1 & G2) ->]. cbn [andb]. rewrite (IHl _ h' fuel _ Hl G1) by lia. cbn [mbind outcome_bind]. apply (IHr _ h' fuel _ Hr G2). lia.
Qed.

(** The trees of the representation pass the validation. *)
Lemma validate_ok k q gs fuel : tree_rep k q gs -> (length (ids gs) <= fuel)%nat -> validateRBT fuel k q = Ret false.
Proof.
  intros Hq Hf. destruct (rep_foc _ _ _ Hq) as (t & fr & H & Hrb & Hin & Hr & _). pose proof (length_heads gs) as Hlen. rewrite <- Hin in Hlen.
  unfold validateRBT. rewrite Hr. destruct t as [|c l n v r]; [by destruct fuel|]. destruct Hrb as (h & G1 & G2).
  cbn [inorder] in Hlen. rewrite length_app in Hlen. cbn in Hlen. destruct fuel as [|fuel]; [lia|]. cbn [rootid blackBalance testReds].
  bind (foc_get _ _ _ _ _ _ _ _ _ _ H). cbn [left right]. pose proof (foc_red _ _ _ _ _ _ H) as Er. cbn [rootid] in Er.
  destruct (foc_left _ _ _ _ _ _ _ _ _ _ H) as [_ El], (foc_right _ _ _ _ _ _ _ _ _ _ H) as [_ Err].
  pose proof (proj1 (foc_sub_l _ _ _ _ _ _ _ _ _ _) H) as Hl. pose proof (proj1 (foc_sub_r _ _ _ _ _ _ _ _ _ _) H) as Hrt.
  rewrite (balance_spec k fr q l _ h fuel Hl G1), (balance_spec k fr q r _ h fuel Hrt G2) by lia. cbn [mbind outcome_bind]. rewrite (Z.eqb_refl (i64 _)). bind Er.
  bind El. bind Err. rewrite andb_false_r. rewrite (reds_spec k fr q l _ h fuel _ Hl G1), (reds_spec k fr q r _ h fuel _ Hrt G2) by lia. reflexivity.
Qed.

(** ** Sequences of calls *)

(** The order a call returns, and the queues after it. *)
Definition rb_step (op : qop) (q : Rb) : outcome unit (option Z * Rb) :=
  match op with
  | OPushBuy e => q ← push_buy e q; Ret (None, q)
  | OPushSell e => q ← push_sell e q; Ret (None, q)
  | OPeekBuy => r ← rb_PeekBuy (fuel_of q) q; Ret (r, q)
  | OPeekSell => r ← rb_PeekSell (fuel_of q) q; Ret (r, q)
  | OPopBuy => rb_PopBuy (fuel_of q) q
  | OPopSell => rb_PopSell (fuel_of q) q
  | OCancel g => rb_Cancel (fuel_of q) g q
  end.

Fixpoint rb_run (ops : list qop) (q : Rb) : outcome unit (list (option Z) * Rb) :=
  match ops with
  | [] => Ret ([], q)
  | op :: ops => '(r, q) ← rb_step op q; '(rs, q) ← rb_run ops q; Ret (r :: rs, q)
  end.

(** No order is pushed while it, or another of its guid, is queued. *)
Definition fresh_in (l : lists) (e : entry) : Prop := Forall (fun x => e_ptr x <> e_ptr e /\ e_guid x <> e_guid e) (l.1 ++ l.2).

Fixpoint calls_ok (ops : list qop) (l : lists) : Prop :=
  match ops with
  | [] => True
  | op :: ops => Forall (fresh_in l) (pushed op) /\ calls_ok ops (list_step op l).2
  end.

Definition rb_view (q : Rb) : lists := (rb_buys q, rb_sells q).

Definition guids_differ (l : lists) : Prop := NoDup (e_guid <$> l.1 ++ l.2).

Lemma list_step_guids op l : guids_differ l -> Forall (fresh_in l) (pushed op) -> guids_differ (list_step op l).2.
Proof.
  intros Hn Hp. pose proof (list_step_sub op l) as Hs. destruct (list_step op l) as [r l']. cbn [snd]. unfold guids_differ in *.
  assert (Hall : NoDup (e_guid <$> l.1 ++ l.2 ++ pushed op)).
  { rewrite app_assoc, fmap_app. apply NoDup_app. split; [done|]. assert (Hc : pushed op = [] \/ exists e, pushed op = [e]) by (destruct op; cbn; eauto).
    destruct Hc as [->|(e & Hc)]; [split; [intros g _ Hg; by apply elem_of_nil in Hg|constructor]|]. rewrite Hc in *. apply Forall_cons in Hp as [Hp _]. split; [|apply NoDup_singleton].
    intros g Hg ->%list_elem_of_singleton. apply list_elem_of_fmap in Hg as (x & Hx & Hin). unfold fresh_in in Hp. rewrite Forall_forall in Hp. by apply (Hp x Hin). }
  apply submseteq_Permutation in Hs as [m Hm]. rewrite Hm, fmap_app in Hall. by apply NoDup_app in Hall as [Hall _].
Qed.

(** Queues that are as some lists. *)
Definition stands (q : Rb) (l : lists) : Prop := rb_ok q /\ rb_view q = l.

Lemma stands_rep q W l : queues_rep q W -> l = (side q W BuyTree, side q W SellTree) -> stands q l.
Proof. intros Hq ->. split; [by exists W|]. unfold rb_view. by destruct (buys_rep _ _ Hq) as [-> ->]. Qed.

Lemma popped_spec k q W res : k = BuyTree \/ k = SellTree -> queues_rep q W -> popped k q W res ->
  exists r q', res = Ret (e_ptr <$> r, q') /\
    let '(b, s) := rb_view q in
    r = head (if decide (k = BuyTree) then b else s) /\ stands q' (if decide (k = BuyTree) then (tail b, s) else (b, tail s)).
Proof.
  intros Hk Hq (q' & W' & -> & Hq' & Hs & Hj & _). unfold rb_view. destruct (buys_rep _ _ Hq) as [-> ->]. destruct Hk as [-> | ->].
  - exists (head (side q W BuyTree)), q'. split; [done|]. rewrite !decide_True by done. split; [done|]. eapply stands_rep; [exact Hq'|].
    rewrite Hs, (Hj SellTree); [done|by right|done].
  - exists (head (side q W SellTree)), q'. split; [done|]. rewrite !decide_False by done. split; [done|]. eapply stands_rep; [exact Hq'|].
    rewrite Hs, (Hj BuyTree); [done|by left|done].
Qed.

Lemma push_fresh q e : Forall (fresh_in (rb_view q)) [e] -> forall x, x ∈ rb_buys q ++ rb_sells q -> e_ptr x <> e_ptr e.
Proof. intros [Hf _]%Forall_cons x Hx. unfold fresh_in in Hf. rewrite Forall_forall in Hf. by apply Hf. Qed.

(** A cancel of a guid that occurs once. *)
Lemma cancel_lists g l r l' : guids_differ l ->
  match r with
  | None => l'.1 = l.1 /\ l'.2 = l.2 /\ forall e, e ∈ l.1 ++ l.2 -> e_guid e <> g
  | Some e => e_guid e = g /\ ((removed e l.1 l'.1 /\ l'.2 = l.2) \/ (removed e l.2 l'.2 /\ l'.1 = l.1))
  end -> list_step (OCancel g) l = (r, l').
Proof.
  destruct l as [b s], l' as [b' s']. unfold guids_differ. cbn [fst snd list_step]. intros Hn. rewrite fmap_app in Hn. apply NoDup_app in Hn as (N1 & N12 & N2).
  destruct r as [e|].
  - intros [Hg [[Hr ->]|[Hr ->]]]; [by rewrite (cancel_row_some g e _ _ N1 Hr Hg)|].
    rewrite cancel_row_none, (cancel_row_some g e _ _ N2 Hr Hg); [done|]. intros x Hx Hxg. apply (N12 (e_guid x)); [by apply list_elem_of_fmap_2|].
    rewrite Hxg, <- Hg. apply list_elem_of_fmap_2. apply removed_perm in Hr. rewrite Hr. by left.
  - intros (-> & -> & Hno). rewrite !cancel_row_none; [done|..]; intros x Hx; apply Hno, elem_of_app; auto.
Qed.

Lemma rb_step_refines op q l : stands q l -> guids_differ l -> Forall (fresh_in l) (pushed op) ->
  exists q', rb_step op q = Ret (e_ptr <$> (list_step op l).1, q') /\ stands q' (list_step op l).2.
Proof.
  intros [Hok <-] Hn Hp. pose proof Hok as [W Hq]. pose proof (rep_fuel _ _ Hq) as Hf. destruct op as [e|e| | | | |g]; cbn [rb_step pushed] in *.
  - destruct (push_buy_ok e q Hok I (push_fresh q e Hp)) as (q' & E1 & Hq' & Hb & Hs). bind E1. exists q'. split; [done|]. split; [done|]. unfold rb_view. cbn. by rewrite Hb, Hs.
  - destruct (push_sell_ok e q Hok I (push_fresh q e Hp)) as (q' & E1 & Hq' & Hs & Hb). bind E1. exists q'. split; [done|]. split; [done|]. unfold rb_view. cbn. by rewrite Hb, Hs.
  - bind (rb_PeekBuy_spec q W _ Hq Hf). exists q. split; [|done]. cbn. by destruct (buys_rep _ _ Hq) as [-> _].
  - bind (rb_PeekSell_spec q W _ Hq Hf). exists q. split; [|done]. cbn. by destruct (buys_rep _ _ Hq) as [_ ->].
  - destruct (popped_spec BuyTree q W _ (or_introl eq_refl) Hq (rb_PopBuy_spec q W _ Hq Hf)) as (r & q' & -> & Hr). exists q'. cbn in Hr |- *. destruct Hr as [-> Hst]. done.
  - destruct (popped_spec SellTree q W _ (or_intror eq_refl) Hq (rb_PopSell_spec q W _ Hq Hf)) as (r & q' & -> & Hr). exists q'. cbn in Hr |- *. destruct Hr as [-> Hst]. done.
  - destruct (rb_Cancel_ok g q Hok) as (r & q' & E1 & Hq' & Hr). destruct (rb_Cancel_spec q W g _ Hq Hf) as (r' & q2 & W' & E2 & Hq2 & _ & Hr').
    cbn [Cancel rb_queues] in E1. unfold cancel_guid in E1. rewrite E2 in E1. cbn [mbind outcome_bind] in E1. injection E1 as Er <-.
    assert (r = r') as ->. { rewrite <- Er. destruct r' as [e|]; [|done]. cbn. f_equal. apply (entry_at_queued q W); [done|].
      destruct Hr' as (_ & k & Hk & Hx & _). apply (side_queued q W k); [done|]. apply removed_perm in Hx. rewrite Hx. by left. }
    rewrite (cancel_lists g (rb_view q) r' (rb_view q2) Hn Hr). by exists q2.
Qed.

(** The orders returned, by their pointers. *)
Definition ptrs_of (rs : list (option entry)) : list (option Z) := (fun r : option entry => e_ptr <$> r) <$> rs.

Lemma rb_run_refines ops : forall q l, stands q l -> guids_differ l -> calls_ok ops l ->
  exists q', rb_run ops q = Ret (ptrs_of (list_run ops l).1, q') /\ stands q' (list_run ops l).2.
Proof.
  induction ops as [|op ops IH]; intros q l Hq Hn Hc; [by exists q|]. destruct Hc as [Hp Hc]. cbn [rb_run list_run].
  destruct (rb_step_refines op q l Hq Hn Hp) as (q1 & E1 & Hq1). bind E1. pose proof (list_step_guids op l Hn Hp) as Hn1.
  destruct (list_step op l) as [r l1]. cbn [fst snd] in *. destruct (IH q1 l1 Hq1 Hn1 Hc) as (q2 & E2 & Hq2). bind E2.
  destruct (list_run ops l1) as [rs l2]. by exists q2.
Qed.

(** C39: the queues on red-black trees keep, for any calls that never push an order, or another of the same guid, while it is
    queued, the buys by falling and the sells by rising price, orders of one price in order of arrival: every push, peek, pop
    and cancel returns the order the same call on two such lists returns, no call panics, no loop runs on, and
    validateRBT finds no error in any of the three trees. *)
Theorem rb_queues_refine ops : calls_ok ops ([], []) ->
  exists q, rb_run ops rb_new = Ret (ptrs_of (list_run ops ([], [])).1, q) /\ rb_view q = (list_run ops ([], [])).2 /\
    forall k, validateRBT (fuel_of q) k q = Ret false.
Proof.
  intros Hc. destruct (rb_run_refines ops rb_new ([], [])) as (q & E1 & [W Hq] & Hv); [by eapply stands_rep; [apply new_rep|]|constructor|done|].
  exists q. split; [done|]. split; [done|]. intros k. eapply validate_ok; [apply Hq|]. by apply (rep_fuel q W).
Qed.

(** Orders of one price and cancels in the middle of the tree. *)
Definition rb_ops : list qop :=
  [OPushBuy (mkEntry 0 5 10); OPushBuy (mkEntry 1 7 11); OPushBuy (mkEntry 2 7 12); OPushSell (mkEntry 3 8 13);
   OPushSell (mkEntry 4 6 14); OPushBuy (mkEntry 5 6 15); OPushBuy (mkEntry 6 9 16); OCancel 11; OPopBuy; OPopSell;
   OPushSell (mkEntry 4 12 17); OPushBuy (mkEntry 7 1 18); OCancel 10; OPeekBuy; OPeekSell; OCancel 99].

Lemma rb_queues_refine_witness : exists q,
  rb_run rb_ops rb_new = Ret ([None; None; None; None; None; None; None; Some 1; Some 6; Some 4; None; None; Some 0; Some 2; Some 3; None], q) /\
  rb_view q = ([mkEntry 2 7 12; mkEntry 5 6 15; mkEntry 7 1 18], [mkEntry 3 8 13; mkEntry 4 12 17]) /\
  forall k, validateRBT (fuel_of q) k q = Ret false.
Proof.
  apply (rb_queues_refine rb_ops). unfold rb_ops. cbn [calls_ok pushed]. repeat apply conj; try exact I; unfold fresh_in; cbn; repeat constructor; cbn; lia.
Defined.
